(* ===== verification/_CoqProject ===== *)
-Q . S2P
Prelude.v
Order.v
Actions.v
Encoder.v
Decoder.v
ElementReader.v
Blocks.v
Name.v
NameMap.v
TlvName.v
NameUri.v
ChangeCounter.v
ValidityPeriod.v
IsoTime.v
Exclude.v
DelegationSet.v
Data.v
TlvData.v
TlvInterest.v
TlvControl.v
TlvLpPacket.v
Interest.v
WireFormat.v
ContentCache.v
SegmentFetcher.v
Iblt.v
Publisher.v
PSyncState.v
PSync.v
PSyncExchange.v
PSyncUsers.v
DigestTree.v
ChronoSync.v
ChronoSyncSpec.v
Tables.v
Node.v
Regex.v
RegexSyntax.v
RegexSpec.v
Oid.v
Der.v
DerSpec.v
Certificates.v
CertStorage.v
X509.v
X509Spec.v
CertStorageSpec.v
BoostInfo.v
Pib.v
PibSpec.v
PibContainers.v
KeyChain.v
KeyChainSpec.v
Encryption.v
Encryptor.v
AccessManager.v
EncryptionSpec.v
Decryptor.v
Signing.v
GckSpec.v
ValidatorConfig.v
Validation.v
ValidationSpec.v
ValidationOutcome.v
