(* ===== verification/Prelude.v ===== *)
(** * ndn-ind: a verification development

    ndn-ind is a C++ client library for Named Data Networking. An application names data with
    hierarchical names; it expresses an Interest for a name through a [Face], whose [Node] keeps
    the Interest pending, sends its TLV encoding on a transport, and calls the application back
    when a Data packet that matches arrives, when the Interest times out, or when the network
    answers with a Nack. The names below under src/ are paths of the repository's src/ and include/
    directories (src/name.cpp is the file of class [Name], include/ndn-ind/name.hpp its header).

    ** Parts of the program and files of the development

    Prelude.v (this file): error codes ([ndn_Error], include/ndn-ind/c/errors.h), the [result] type
    of fallible code, the ways an operation can end outside its return value ([failure], [exn]),
    machine integers ([wrap64], [to_int32]), bytes as integers from 0 to 255, sub ranges and the
    big endian code of numbers, and [memcmp].

    Order.v: the class [TotalCompare] of comparison functions in the style of the C++ code (negative,
    zero, positive), the lexicographic order of lists over such a function, and the same order as a declaration,
    [lex_before].

    Encoder.v: the growing byte array (src/c/util/dynamic-uint8-array.c, src/util/dynamic-uint8-vector.cpp)
    and the TLV encoder (src/c/encoding/tlv/tlv-encoder.c and .h). The encoder state is a record with
    the output, the offset and [enableOutput]; a writer takes a state to a state or an error.
    [Emits w bs] is the abstract specification of a writer: it writes the bytes [bs] whatever the
    state, grows the buffer as needed, or reports that the buffer cannot grow.

    Decoder.v: the TLV decoder (src/c/encoding/tlv/tlv-decoder.c and .h) as a state monad over the
    offset. A read of a byte outside the buffer, which C leaves undefined, is the outcome
    [UndefinedBehaviour]; offsets and lengths wrap at 64 bits as [size_t] does.

    ElementReader.v: the state machine that finds the end of a TLV element
    (src/c/encoding/tlv/tlv-structure-decoder.c) and the reader that splits the bytes of a transport
    into elements (src/c/encoding/element-reader.c).

    Name.v: [Name] and [Name::Component] (src/name.cpp, src/c/name_c.c): types, numbers with markers, the
    canonical order, prefixes, sub names and successors. NameUri.v: their URI, with the formatting
    state of the C++ stream (src/common.cpp).

    ChangeCounter.v: the protocol by which a packet object knows that its cached encoding is out of
    date (include/ndn-ind/util/change-counter.hpp and the [getChangeCount] of the packet objects).
    The class [ChangeCounted] with its laws is the interface between an object and whoever tracks
    it; [Composite] and [Cached] discharge and use it, and Data.v and Interest.v are its clients.

    Exclude.v, DelegationSet.v, Data.v, Interest.v: the packet objects of src/exclude.cpp,
    src/delegation-set.cpp, src/data.cpp (with src/meta-info.cpp, src/key-locator.cpp and the
    signature classes) and src/interest.cpp, with the functions that match an Interest with names
    and Data packets.

    Blocks.v, TlvName.v, ValidityPeriod.v, IsoTime.v, TlvData.v, TlvInterest.v, TlvControl.v, TlvLpPacket.v: the
    packet formats of src/c/encoding/tlv/ on the C structures. [Reads m a e bs bs'] of Blocks.v is the abstract
    specification of a decoder function, the counterpart of [Emits]: before the blocks [bs] it gives
    [a] and stops before [bs']; a decoder is composed of the lemmas for its parts. WireFormat.v: the class
    [Tlv0_3WireFormat] (src/encoding/tlv-0_3-wire-format.cpp) and the [get] and [set] methods that
    connect the objects with the C structures.

    Actions.v: a monad of operations that change an object, make calls and can throw; what was done before
    an exception stays done. [keeps] is the preservation of an invariant by an operation, [Does] what it does
    from one state.

    ContentCache.v: the memory content cache (src/util/memory-content-cache.cpp). SegmentFetcher.v: fetching the
    segments of an object (src/util/segment-fetcher.cpp) and expressing again after timeouts
    (src/util/exponential-re-express.cpp). Publisher.v: the other side, publishing in segments
    (src/sync/detail/psync-segment-publisher.cpp) from the storage of src/in-memory-storage.

    Iblt.v: the invertible Bloom lookup table (src/sync/detail/invertible-bloom-lookup-table.cpp) with MurmurHash3.
    [table_of] is its abstract reading, a sum of signed keys, to which the operations are refined.
    PSyncState.v, PSync.v, PSyncUsers.v: the synchronization of names and of the sequence numbers of users over
    these tables (src/sync/full-psync2017.cpp, psync-producer-base.cpp,
    full-psync2017-with-users.cpp). PSyncExchange.v composes two nodes, the publisher and the fetcher.
    DigestTree.v, ChronoSync.v: the other protocol, over digests of what is known (src/sync/digest-tree.cpp,
    chrono-sync2013.cpp), with its specification in ChronoSyncSpec.v.

    Tables.v: the tables of a node (src/impl/): [Pit] for pending Interests, with their shared
    entries, [Filters], [Prefixes], [DelayedCalls].

    Node.v: [Node] of src/node.cpp over these tables. An operation takes the node to its next state and
    gives the calls it makes to the outside and the exception it throws, if any; [reach] is the relation of
    the states and traces that sequences of operations reach.

    Regex.v, RegexSyntax.v: the regular expressions over names of src/util/regex, the matchers with their
    language [lang], and the compilers with the documented syntax [Atom]; RegexSpec.v relates them, and both to the
    usual language of the syntax, [items_language].

    Oid.v, Der.v, X509.v: object identifiers, DER nodes (src/encoding/der), X.509 certificates, revocation lists and
    public keys (src/security/certificate); DerSpec.v and X509Spec.v are what they promise. Certificates.v: [CertificateV2]
    and the verification of signatures over the interface [Crypto], which X509.v implements. NameMap.v: a std::map
    with names as keys.

    CertStorage.v: the caches and trust anchors of a validator. BoostInfo.v, ValidatorConfig.v: the configuration
    file and its rules. Validation.v: [Validator] with the policies and fetchers of src/security/v2; a request
    that waits for the network is a value, and the answer an operation of its own. CertStorageSpec.v, ValidationSpec.v
    and ValidationOutcome.v are what they promise.

    Pib.v, KeyChain.v: the public information base (src/security/pib), the TPM in memory, signing and the
    other operations of the key chain (src/security/key-chain.cpp). The containers of the PIB keep copies of what the
    memory holds; PibSpec.v, PibContainers.v and KeyChainSpec.v show that they agree with it, and Signing.v that what is
    signed is verified.

    Encryption.v: the wrappers of the ciphers, encrypted content and safe bags. Encryptor.v, AccessManager.v,
    Decryptor.v: the three parties of access control (src/encrypt); EncryptionSpec.v has the round trips of
    what they send, and GckSpec.v the conversation of all three.

    ** What the theorems show

    Encodings: what the encoder writes the decoder reads back (blobs, integers, nested blocks in two
    passes), blocks that are read stay in the buffer, blocks of unknown types are skipped or refused,
    and the skipping ends; each with the bound on the lengths that the code needs, and a theorem for
    what happens beyond it. The element reader delivers exactly the elements of a stream, whatever
    the sizes of the pieces it arrives in.

    Names: [compare] is the canonical order, declared by [component_before] and [name_before], the successor is the next
    name after a prefix, numbers go in and out of components in their order, a URI reads back as the name it was printed
    from, unless a type code from 10 on follows a digest, and the parser always ends.

    Packets: in every sequence of calls, with changes through references that the change counts tell, [wireEncode]
    returns an encoding of the current fields; the nonce is cleared by a change; [matchesData], which compares the
    values of components and not their types, and [Exclude::matches] are equivalent to declarative
    specifications; a delegation set stays sorted and without duplicates.

    Node: in every run an Interest is concluded at most once; no Interest with a timer stays
    pending after it is due; expressing and registering have exactly the effects on the tables that
    their names promise, also when the removal was asked for first.

    Whole packets: Data packets, Interests, control responses and names that an application can build are
    encoded and read back as the same objects, but for what the encoding rounds or does not carry ([data_received],
    [interest_received]), wherever they are in a message; an LpPacket is
    decoded to its fields by the table of Nack reasons; decoded components are well typed. Theorems that end in [diverges] and those on
    the two Interest formats state what the code does beyond that.

    Cache, segments, synchronization: the cache holds the contents in the order of their removal and
    answers with the content that the selectors ask for, when the callback for removed contents adds none; a fetch calls back at most once, with
    verified segments in their order only, and completes on a published object; published
    content arrives at a fetch, except of some sizes; the difference of two lookup tables lists
    the difference of the sets; a node's table is always the one of its names, and after an
    exchange, when the names to send have not the size of a whole number of packets, the asking node has the names of
    both.

    ChronoSync: a digest tree is determined by what is known, in whatever order it came; the log of a participant only grows, from
    states it was in; a recovery gives the asking participant what the other one knows.

    Regular expressions: the compilers read back the printed form of an expression; what the matcher with
    its anchors matches is in the usual language, and it matches all of that when no part that can be empty is to be repeated
    at least once.

    Certificates and validation: DER nodes and X.509 certificates are read back as they were made, and parsing
    ends. A packet is reported as valid only if there is a chain of signatures from it to a trust anchor, each allowed
    by the policy (hierarchy of names, rules of the configuration, key of the PIB, timestamp of a command) and each by a
    certificate within its validity period at an event of the run; each validation is concluded once; the Interests for one are bounded by the depth; no certificate that a
    revocation list names stays in the cache of verified ones, and the cache finds what was put into it.

    Keys: whatever is called on the key chain with names of generic components and certificates that do not encapsulate X.509
    ones, no reference in the PIB dangles and the containers agree with the memory; a Data packet that is signed is decoded
    and verified by whoever has the public key, or the shared key, or computes the digest.

    Access control: a safe bag is read back; the contents that wait at an encryptor for its group content key are
    encrypted in order when the key arrives, and a decryptor of another member asks for the key once and calls back each
    request with the data (for one key manager and callbacks that only listen). A computed conversation ([kdk_conversation]) does the same for a content key that is
    published under a key encryption key.

    Theorems that are named as examples in the parts called "What modelling showed" are runs of the definitions that
    do something the code does not mean to do.

    Automation: the hint database [emits] of Encoder.v composes writers, [later] of ChangeCounter.v
    the steps of an object that keep its counts honest, [good] of Node.v the operations that keep
    the invariant of a node.

    ** Bounds and fuel

    [skip_loop] takes a bound on its turns that [skipRemainingNestedTlvs] sets from the size of the
    buffer; [skip_terminates] shows that it is enough when lengths do not wrap, and [skip_diverges]
    that no bound is enough when they do. [find_loop] gets the number of the states, since each turn
    goes to a later one, and [receive_loop] the size of the input; [stream_delivered] shows that they
    return. [parse_components] gets
    the length of the URI, and [name_set_terminates] shows that it never runs out. [digits] gets
    the ten digits of a 32-bit number, [little_endian] the eight bytes of a 64-bit one. Sizes of names are below 2^31 where the code
    casts them to int ([name_fits]); change counts are not bounded. [decode_fields], [decode_components] and the
    other loops of decoders get the size of the input, since a block takes at least two bytes unless
    its length wraps. [peel] of Iblt.v gets a bound on the passes: one more than the number of
    differences is enough when the hashes tell the keys apart ([iblt_difference]), and none is
    for some tables ([listEntries_diverges]). [publish_loop] gets the size of the content. [enough_steps] of Der.v is twice
    the size of the input and two more ([der_parse_terminates]). The compilers of regular expressions get the
    length of the expression, a repetition [repeatMax] turns. [enough] of Validation.v is one more than the depth of a
    chain, which is shown to be enough. [random_tries] for a key id of random bytes that is not in use is a parameter,
    since the loop of the code has no bound. The include depth of a configuration file is a bound of the model: the code
    has none. [pending_loop] and [decrypt_loop] of the parties of access control get one more than the number of the waiting
    requests, which GckSpec.v shows to be enough for callbacks that do not call the object again.

    ** What is not modelled

    The wire format of whole packets, which WireFormat.v models, is a parameter of Data.v, Interest.v and Node.v
    ([encodeInterest], [encodeData], [decodeData]), with no hypothesis but the one a theorem names;
    so are SHA-256, the regular expression matcher of interest filters and the random numbers of a
    nonce. A callback of the application is a call in the trace, and what the application does in
    it is a later operation: no operation of the node reads its state after it has called back,
    except the loop over the delayed calls, whose turns are separate operations. (With Interest
    loopback, [expressInterest] on a blocking transport and [onConnected] still set the connection
    status after an [onInterest] callback; a nested [expressInterest] in that callback, which would see the
    old status, is outside the model, as a comment in [onConnected] assumes.) The cache and the synchronization take
    packets as values, and what their callbacks do as operations that are parameters; zlib, signing and
    the clock are parameters too. The transports, the
    command Interest of a prefix registration (its signing) and the Lite classes are not modelled. Nor are: base64 (a wrapper
    of bundled code); the fetcher of revocation lists; the loading of trust anchors from the configuration; the PIB in
    SQLite, the TPM in files and in the key chain of OS X, and [TpmPrivateKey], which call libraries and the
    operating system; the protocol buffers of ChronoSync, whose encoding is generated; the programs under tools and
    examples. What libcrypto computes is a parameter of Certificates.v, X509.v, KeyChain.v and Encryption.v; theorems
    name what they rely on ([EvpLaws] of EncryptionSpec.v, for instance: a cipher decrypts what it encrypted). Threads are not
    modelled: an object is used from one thread. *)

From stdpp Require Import base list numbers option strings.
From Stdlib Require Import ZArith Lia.
#[global] Set Warnings "-notation-incompatible-prefix".
Open Scope Z_scope.

Declare Scope ndn_scope.
Delimit Scope ndn_scope with ndn.

(** ** Errors *)

(** The error codes of include/ndn-ind/c/errors.h; the code of success is left out. *)
Inductive ndn_Error :=
| NDN_ERROR_element_of_value_is_not_a_decimal_digit
| NDN_ERROR_read_past_the_end_of_the_input
| NDN_ERROR_the_first_header_octet_may_not_be_zero
| NDN_ERROR_header_type_is_not_a_DTAG
| NDN_ERROR_did_not_get_the_expected_DTAG
| NDN_ERROR_did_not_get_the_expected_element_close
| NDN_ERROR_item_is_not_UDATA
| NDN_ERROR_header_type_is_out_of_range
| NDN_ERROR_encodeTypeAndValue_miscalculated_N_encoding_bytes
| NDN_ERROR_attempt_to_add_a_component_past_the_maximum_number_of_components_allowed_in_the_name
| NDN_ERROR_cannot_add_an_entry_past_the_maximum_number_of_entries_allowed_in_the_exclude
| NDN_ERROR_cannot_add_an_entry_past_the_maximum_number_of_entries_allowed_in_the_LpPacket
| NDN_ERROR_findElementEnd_unexpected_close_tag
| NDN_ERROR_cannot_store_more_header_bytes_than_the_size_of_headerBuffer
| NDN_ERROR_findElementEnd_cannot_read_header_type_and_value
| NDN_ERROR_findElementEnd_unrecognized_header_type
| NDN_ERROR_findElementEnd_unrecognized_state
| NDN_ERROR_DynamicUInt8Array_realloc_function_pointer_not_supplied
| NDN_ERROR_DynamicUInt8Array_realloc_failed
| NDN_ERROR_unrecognized_ndn_ExcludeType
| NDN_ERROR_unrecognized_ndn_ContentType
| NDN_ERROR_unrecognized_ndn_KeyLocatorType
| NDN_ERROR_unrecognized_ndn_KeyNameType
| NDN_ERROR_decodeKeyLocator_unrecognized_key_locator_type
| NDN_ERROR_unrecognized_ndn_SocketTransport
| NDN_ERROR_SocketTransport_error_in_getaddrinfo
| NDN_ERROR_SocketTransport_cannot_connect_to_socket
| NDN_ERROR_SocketTransport_socket_is_not_open
| NDN_ERROR_SocketTransport_error_in_send
| NDN_ERROR_SocketTransport_error_in_poll
| NDN_ERROR_SocketTransport_error_in_recv
| NDN_ERROR_SocketTransport_error_in_close
| NDN_ERROR_Name_component_does_not_begin_with_the_expected_marker
| NDN_ERROR_Time_functions_are_not_supported_by_the_standard_library
| NDN_ERROR_Calendar_time_value_out_of_range
| NDN_ERROR_Invalid_length_for_nonNegativeInteger
| NDN_ERROR_did_not_get_the_expected_TLV_type
| NDN_ERROR_TLV_length_exceeds_buffer_length
| NDN_ERROR_TLV_length_does_not_equal_total_length_of_nested_TLVs
| NDN_ERROR_decodeSignatureInfo_unrecognized_SignatureInfo_type
| NDN_ERROR_encodeSignatureInfo_unrecognized_SignatureType
| NDN_ERROR_Unimplemented_operation
| NDN_ERROR_ElementReader_ElementListener_is_not_specified
| NDN_ERROR_ElementReader_The_incoming_packet_exceeds_the_maximum_limit_getMaxNdnPacketSize
| NDN_ERROR_Interest_has_a_selected_delegation_but_no_link_object
| NDN_ERROR_The_Generic_signature_encoding_is_not_a_valid_NDN_TLV_SignatureInfo
| NDN_ERROR_Error_encoding_key
| NDN_ERROR_Error_decoding_key
| NDN_ERROR_Error_in_sign_operation
| NDN_ERROR_Unsupported_algorithm_type
| NDN_ERROR_Error_in_encrypt_operation
| NDN_ERROR_Error_in_decrypt_operation
| NDN_ERROR_Error_in_generate_operation
| NDN_ERROR_Incorrect_key_size
| NDN_ERROR_Incorrect_initial_vector_size
| NDN_ERROR_Incorrect_digest_size
| NDN_ERROR_An_Interest_may_not_have_a_selected_delegation_when_encoding_a_forwarding_hint
| NDN_ERROR_An_Interest_may_not_have_a_link_object_when_encoding_a_forwarding_hint
| NDN_ERROR_Unrecognized_critical_TLV_type_code
| NDN_ERROR_Name_component_otherTypeCode_must_be_non_negative.

#[export] Instance ndn_Error_eq_dec : EqDecision ndn_Error.
Proof. intros x y. unfold Decision. decide equality. Defined.

(** A computation that can fail: an [ndn_Error] in the C code, a C++ exception in the
    C++ code. *)
Inductive result (E A : Type) : Type :=
| Ok (a : A)
| Err (e : E).
Arguments Ok {E A} a.
Arguments Err {E A} e.

#[export] Instance result_ret E : MRet (result E) := fun _ a => Ok a.
#[export] Instance result_bind E : MBind (result E) := fun _ _ f m =>
  match m with Ok a => f a | Err e => Err e end.

(** How a run of the code can end other than with a value: the C code returns an error code;
    a loop runs out of the fuel of the model; the code goes out of the bounds of a buffer,
    where its behaviour is undefined. *)
Inductive failure :=
| Error (e : ndn_Error)
| OutOfFuel
| UndefinedBehaviour.

(** The C++ exceptions of the modelled code, with what they say; [Exception] is one of another class. *)
Inductive exn :=
| RuntimeError (what : string)
| InvalidArgument (what : string)
| Failed (f : failure)
| Exception (class what : string).

(** Whether it is an exception, and not that a run is undefined or goes on. *)
Definition is_exception (e : exn) : bool :=
  match e with Failed OutOfFuel | Failed UndefinedBehaviour => false | _ => true end.

Definition is_ok {E A} (r : result E A) : bool :=
  match r with Ok _ => true | Err _ => false end.

Lemma bind_ok {E A B} (m : result E A) (f : A -> result E B) b :
  (m ≫= f) = Ok b <-> exists a, m = Ok a /\ f a = Ok b.
Proof.
  destruct m; cbn; split; [eauto | | discriminate |]; intros (x & Hx & Hf); congruence.
Qed.

(** ** Integers of the machine *)

Abbreviation zlen l := (Z.of_nat (length l)).

(** [size_t] and [uint64_t] arithmetic. *)
Definition wrap64 (z : Z) : Z := z mod 2 ^ 64.

(** Conversion to a 32-bit [int]. *)
Definition to_int32 (z : Z) : Z :=
  let w := z mod 2 ^ 32 in if w <? 2 ^ 31 then w else w - 2 ^ 32.

Lemma wrap64_small z : 0 <= z < 2 ^ 64 -> wrap64 z = z.
Proof. apply Z.mod_small. Qed.

Lemma wrap64_range z : 0 <= wrap64 z < 2 ^ 64.
Proof. apply Z.mod_pos_bound; lia. Qed.

Lemma to_int32_small z : - 2 ^ 31 <= z < 2 ^ 31 -> to_int32 z = z.
Proof.
  intros H. unfold to_int32. destruct (Z.ltb_spec (z mod 2 ^ 32) (2 ^ 31)) as [Hl | Hl].
  - destruct (Z_lt_le_dec z 0); [| now apply Z.mod_small; lia].
    rewrite <- (Z.mod_add z 1), Z.mod_small in Hl by lia. lia.
  - destruct (Z_lt_le_dec z 0); [| rewrite Z.mod_small in Hl; lia].
    rewrite <- (Z.mod_add z 1), Z.mod_small by lia. lia.
Qed.

Lemma to_int32_range z : - 2 ^ 31 <= to_int32 z < 2 ^ 31.
Proof.
  unfold to_int32. pose proof (Z.mod_pos_bound z (2 ^ 32) eq_refl).
  destruct (Z.ltb_spec (z mod 2 ^ 32) (2 ^ 31)); lia.
Qed.

(** ** Bytes *)

(** A byte buffer is a list of integers; [bytes_ok] says that each one is a [uint8_t]. *)
Definition is_byte (b : Z) : Prop := 0 <= b < 256.
Abbreviation bytes_ok := (Forall is_byte).

Lemma bytes_ok_app l k : bytes_ok (l ++ k) <-> bytes_ok l /\ bytes_ok k.
Proof. apply Forall_app. Qed.

(** The byte at an offset of a buffer. Every use in the model is behind the bounds check
    of the code, so the default is never the result. *)
Definition byte_at (l : list Z) (i : Z) : Z := default 0 (l !! Z.to_nat i).

Lemma byte_at_app pre (b : Z) rest : byte_at (pre ++ b :: rest) (zlen pre) = b.
Proof. unfold byte_at. now rewrite Nat2Z.id, list_lookup_middle. Qed.

(** The bytes [i .. i+n-1] of a buffer. *)
Definition sub_bytes (l : list Z) (i n : Z) : list Z :=
  take (Z.to_nat n) (drop (Z.to_nat i) l).

Lemma sub_bytes_app pre (bs rest : list Z) i n :
  i = zlen pre -> n = zlen bs -> sub_bytes (pre ++ bs ++ rest) i n = bs.
Proof.
  intros -> ->. unfold sub_bytes.
  rewrite !Nat2Z.id, drop_app_length. apply take_app_length.
Qed.

Lemma length_sub_bytes l i n :
  0 <= i -> 0 <= n -> i + n <= zlen l -> zlen (sub_bytes l i n) = n.
Proof. intros. unfold sub_bytes. rewrite length_take, length_drop. lia. Qed.

(** *** Big endian integers *)

(** The [n] low bytes of [v], the most significant first: what [htobe16], [htobe32] and
    [htobe64] write, and what the byte by byte branch of the C code writes. *)
Fixpoint be_encode (n : nat) (v : Z) : list Z :=
  match n with
  | O => []
  | S k => Z.land (Z.shiftr v (8 * Z.of_nat k)) 255 :: be_encode k v
  end.

(** The integer of big endian bytes. *)
Definition be_decode (l : list Z) : Z := fold_left (fun acc b => acc * 256 + b) l 0.

Lemma length_be_encode n v : length (be_encode n v) = n.
Proof. induction n; cbn; auto. Qed.

Lemma zlen_be_encode n v : zlen (be_encode n v) = Z.of_nat n.
Proof. now rewrite length_be_encode. Qed.

Lemma land_255 z : Z.land z 255 = z mod 256.
Proof. change 255 with (Z.ones 8). now rewrite Z.land_ones. Qed.

Lemma be_encode_ok n v : bytes_ok (be_encode n v).
Proof.
  induction n; cbn [be_encode]; constructor; auto.
  rewrite land_255. apply Z.mod_pos_bound. lia.
Qed.

Lemma be_fold_shift l a :
  fold_left (fun acc b => acc * 256 + b) l a = a * 256 ^ zlen l + be_decode l.
Proof.
  unfold be_decode. revert a. induction l as [| b l IH]; intros a; [cbn; lia |].
  cbn [fold_left length]. rewrite IH, (IH (0 * 256 + b)).
  rewrite Nat2Z.inj_succ, Z.pow_succ_r by lia. lia.
Qed.

Lemma be_decode_cons b l : be_decode (b :: l) = b * 256 ^ zlen l + be_decode l.
Proof. unfold be_decode at 1. cbn [fold_left]. rewrite be_fold_shift. lia. Qed.

Lemma be_decode_app l k : be_decode (l ++ k) = be_decode l * 256 ^ zlen k + be_decode k.
Proof. unfold be_decode at 1. rewrite fold_left_app, be_fold_shift. easy. Qed.

Lemma be_decode_range l : bytes_ok l -> 0 <= be_decode l < 256 ^ zlen l.
Proof.
  induction 1 as [| b l Hb _ IH]; [cbn; lia |].
  rewrite be_decode_cons. cbn [length]. rewrite Nat2Z.inj_succ, Z.pow_succ_r by lia.
  unfold is_byte in Hb. nia.
Qed.

Lemma be_decode_encode n v : be_decode (be_encode n v) = v mod 256 ^ Z.of_nat n.
Proof.
  induction n as [| n IH]; [cbn; now rewrite Z.mod_1_r |].
  cbn [be_encode]. rewrite be_decode_cons, zlen_be_encode, IH, land_255.
  rewrite Z.shiftr_div_pow2 by lia. rewrite Nat2Z.inj_succ, Z.pow_succ_r by lia.
  replace (2 ^ (8 * Z.of_nat n)) with (256 ^ Z.of_nat n)
    by (rewrite Z.pow_mul_r by lia; reflexivity).
  rewrite (Z.mul_comm 256), Z.rem_mul_r by lia. lia.
Qed.

Lemma be_decode_inj l k :
  bytes_ok l -> bytes_ok k -> length l = length k -> be_decode l = be_decode k -> l = k.
Proof.
  intros Hl. revert k. induction Hl as [| b l Hb Hl IH]; intros [| c k] Hk Hlen Heq;
    try discriminate; [easy |].
  injection Hlen as Hlen. apply Forall_cons in Hk as [Hc Hk].
  rewrite !be_decode_cons, Hlen in Heq.
  pose proof (be_decode_range l Hl) as Rl. pose proof (be_decode_range k Hk) as Rk.
  rewrite Hlen in Rl. assert (b = c) as -> by nia.
  f_equal. apply IH; [easy | easy | nia].
Qed.

Lemma be_encode_decode l : bytes_ok l -> be_encode (length l) (be_decode l) = l.
Proof.
  intros Hl. apply be_decode_inj; auto using be_encode_ok, length_be_encode.
  rewrite be_decode_encode. now apply Z.mod_small, be_decode_range.
Qed.

Lemma be_decode_encode_small n v :
  0 <= v < 256 ^ Z.of_nat n -> be_decode (be_encode n v) = v.
Proof. intros. rewrite be_decode_encode. now apply Z.mod_small. Qed.

(** *** memcmp *)

(** [ndn_memcmp] over two buffers of the same length, as src/c/util/ndn_memory.c has it. *)
Fixpoint memcmp (a b : list Z) : Z :=
  match a, b with
  | x :: a, y :: b => if x >? y then 1 else if x <? y then -1 else memcmp a b
  | _, _ => 0
  end.

Lemma memcmp_refl a : memcmp a a = 0.
Proof. induction a as [| x a IH]; cbn; [easy |]. rewrite Z.gtb_ltb, Z.ltb_irrefl. easy. Qed.

Lemma memcmp_eq a b : length a = length b -> memcmp a b = 0 <-> a = b.
Proof.
  revert b. induction a as [| x a IH]; intros [| y b] Hlen; try discriminate; cbn; [easy |].
  injection Hlen as Hlen. specialize (IH b Hlen).
  destruct (Z.gtb_spec x y); [split; [lia | intros [= -> _]; lia] |].
  destruct (Z.ltb_spec x y); [split; [lia | intros [= -> _]; lia] |].
  assert (x = y) as -> by lia. rewrite IH. split; [now intros -> | congruence].
Qed.

Lemma memcmp_antisym a b : memcmp b a = - memcmp a b.
Proof.
  revert b. induction a as [| x a IH]; intros [| y b]; cbn; try easy.
  rewrite !Z.gtb_ltb. destruct (Z.ltb_spec y x), (Z.ltb_spec x y); try lia. apply IH.
Qed.

Lemma memcmp_range a b : -1 <= memcmp a b <= 1.
Proof.
  revert b. induction a as [| x a IH]; intros [| y b]; cbn; try lia.
  destruct (x >? y); [lia |]. destruct (x <? y); [lia |]. apply IH.
Qed.

Lemma memcmp_trans a b c :
  length a = length b -> length b = length c -> memcmp a b <= 0 -> memcmp b c <= 0 ->
  memcmp a c <= 0 /\ (memcmp a b < 0 \/ memcmp b c < 0 -> memcmp a c < 0).
Proof.
  revert b c. induction a as [| x a IH]; intros [| y b] [| z c] Hab Hbc; try discriminate;
    cbn [memcmp]; [lia |].
  injection Hab as Hab. injection Hbc as Hbc.
  destruct (Z.gtb_spec x y); [lia |]. destruct (Z.gtb_spec y z); [lia |].
  destruct (Z.gtb_spec x z); [lia |].
  destruct (Z.ltb_spec x y), (Z.ltb_spec y z), (Z.ltb_spec x z); try lia.
  intros. apply (IH b c); easy.
Qed.

(** *** Filters *)

Lemma filter_all {A} (P : A -> Prop) `{forall x, Decision (P x)} l : Forall P l -> filter P l = l.
Proof. induction 1 as [| x l Hx Hl IH]; [easy |]. rewrite filter_cons_True by easy. now f_equal. Qed.

Lemma filter_none {A} (P : A -> Prop) `{forall x, Decision (P x)} l :
  Forall (fun x => ~ P x) l -> filter P l = [].
Proof. induction 1; [easy |]. now rewrite filter_cons_False. Qed.

Lemma filter_ext {A} (P Q : A -> Prop) `{forall x, Decision (P x)} `{forall x, Decision (Q x)} (l : list A) :
  (forall x, P x <-> Q x) -> filter P l = filter Q l.
Proof.
  intros HPQ. induction l as [| x l IH]; [easy |].
  rewrite !filter_cons. repeat case_decide; try (rewrite IH); naive_solver.
Qed.

(** *** Limits and times

    [MAX_NDN_PACKET_SIZE], the most bytes that are sent, and seconds in nanoseconds. *)
Definition getMaxNdnPacketSize : Z := 8800.
Definition seconds (n : Z) : Z := n * 1000000000.
