(* ===== verification/Order.v ===== *)
(** * Three-way comparisons

    The C and C++ code compares with a negative, zero or positive integer. [TotalCompare] is the
    interface a comparison promises; [lex] is the order of sequences over it, a shorter
    sequence first, and [lex_before] is that order as a declaration, without a comparison. *)

From stdpp Require Import base sorting list numbers.
From Stdlib Require Import ZArith Lia.
From S2P Require Import Prelude.
Open Scope Z_scope.

Class TotalCompare {A : Type} (cmp : A -> A -> Z) : Prop := {
  tc_refl a : cmp a a = 0;
  tc_antisym a b : cmp b a = - cmp a b;
  tc_trans a b c : cmp a b <= 0 -> cmp b c <= 0 ->
    cmp a c <= 0 /\ (cmp a b < 0 \/ cmp b c < 0 -> cmp a c < 0)
}.

Fixpoint lex {A} (cmp : A -> A -> Z) (a b : list A) : Z :=
  match a, b with
  | [], [] => 0
  | [], _ :: _ => -1
  | _ :: _, [] => 1
  | x :: a, y :: b => if cmp x y =? 0 then lex cmp a b else cmp x y
  end.

Section Compare.
Context {A : Type} {cmp : A -> A -> Z} `{!TotalCompare cmp}.

Lemma cmp_lt_trans a b c : cmp a b < 0 -> cmp b c < 0 -> cmp a c < 0.
Proof using TotalCompare0. intros. apply (tc_trans a b c); lia. Qed.

Lemma cmp_le_lt_trans a b c : cmp a b <= 0 -> cmp b c < 0 -> cmp a c < 0.
Proof using TotalCompare0. intros. apply (tc_trans a b c); lia. Qed.

Lemma cmp_eq_sym a b : cmp a b = 0 -> cmp b a = 0.
Proof using TotalCompare0. intros H. rewrite (tc_antisym a b). lia. Qed.

Lemma cmp_eq_l a b c : cmp a b = 0 -> cmp a c = 0 <-> cmp b c = 0.
Proof using TotalCompare0.
  assert (Hone : forall x y z, cmp x y = 0 -> cmp x z = 0 -> cmp y z = 0).
  { intros x y z Hxy Hxz. pose proof (cmp_eq_sym _ _ Hxy). pose proof (cmp_eq_sym _ _ Hxz).
    destruct (tc_trans y x z) as [? _]; [lia | lia |].
    destruct (tc_trans z x y) as [? _]; [lia | lia |].
    pose proof (tc_antisym y z). lia. }
  intros H. split; intros Hc; [exact (Hone a b c H Hc) |].
  exact (Hone b a c (cmp_eq_sym _ _ H) Hc).
Qed.

Lemma lex_refl l : lex cmp l l = 0.
Proof using TotalCompare0. induction l; cbn; [easy |]. now rewrite tc_refl. Qed.

Lemma lex_antisym a b : lex cmp b a = - lex cmp a b.
Proof using TotalCompare0.
  revert b. induction a as [| x a IH]; intros [| y b]; cbn; try easy.
  rewrite (tc_antisym x y). rewrite IH.
  destruct (Z.eqb_spec (cmp x y) 0) as [-> | H]; [easy |].
  destruct (Z.eqb_spec (- cmp x y) 0); lia.
Qed.

Lemma lex_trans a b c :
  lex cmp a b <= 0 -> lex cmp b c <= 0 ->
  lex cmp a c <= 0 /\ (lex cmp a b < 0 \/ lex cmp b c < 0 -> lex cmp a c < 0).
Proof using TotalCompare0.
  revert b c. induction a as [| x a IH]; intros [| y b] [| z c]; cbn; try lia.
  intros Hab Hbc.
  destruct (Z.eqb_spec (cmp x y) 0) as [Hxy | Hxy], (Z.eqb_spec (cmp y z) 0) as [Hyz | Hyz].
  - rewrite (proj2 (cmp_eq_l x y z Hxy) Hyz). cbn. now apply (IH b c).
  - destruct (tc_trans x y z) as [_ Hlt]; [lia | lia |].
    destruct (Z.eqb_spec (cmp x z) 0); lia.
  - destruct (tc_trans x y z) as [_ Hlt]; [lia | lia |].
    destruct (Z.eqb_spec (cmp x z) 0); lia.
  - destruct (tc_trans x y z) as [_ Hlt]; [lia | lia |].
    destruct (Z.eqb_spec (cmp x z) 0); lia.
Qed.

#[export] Instance lex_total : TotalCompare (lex cmp).
Proof using TotalCompare0. split; [apply lex_refl | apply lex_antisym | apply lex_trans]. Qed.

Lemma lex_app_same p a b : lex cmp (p ++ a) (p ++ b) = lex cmp a b.
Proof using TotalCompare0. induction p; cbn; [easy |]. now rewrite tc_refl. Qed.

(** What is between two sequences that agree up to [p] agrees with them up to [p]. *)
Lemma lex_between p x y z :
  lex cmp (p ++ x) z < 0 -> lex cmp z (p ++ y) < 0 ->
  exists q w, z = q ++ w /\ Forall2 (fun a b => cmp a b = 0) p q /\
    lex cmp x w < 0 /\ lex cmp w y < 0.
Proof using TotalCompare0.
  revert z. induction p as [| c p IH]; intros z Hl Hr; cbn in Hl, Hr.
  - exists [], z. auto using Forall2_nil_2.
  - destruct z as [| d z]; [lia |]. cbn in Hr. rewrite (tc_antisym c d) in Hr.
    destruct (Z.eqb_spec (cmp c d) 0) as [He | He].
    + rewrite He in Hr. cbn in Hr. destruct (IH z Hl Hr) as (q & w & -> & Hq & Hx & Hy).
      exists (d :: q), w. cbn. auto.
    + destruct (Z.eqb_spec (- cmp c d) 0); lia.
Qed.
End Compare.

Lemma lex_zero_eq {A} (cmp : A -> A -> Z) a b :
  lex cmp a b = 0 <-> Forall2 (fun x y => cmp x y = 0) a b.
Proof.
  revert b. induction a as [| x a IH]; intros [| y b]; cbn.
  - split; auto.
  - split; [lia |]. intros H; inversion H.
  - split; [lia |]. intros H; inversion H.
  - destruct (Z.eqb_spec (cmp x y) 0) as [He | He].
    + rewrite IH. split; [now constructor | intros H; now inversion H].
    + split; [easy |]. intros H. now inversion H.
Qed.

(** *** The order as a declaration *)

(** A sequence is before those that continue it, and before those that have a later element where the
    two first differ. *)
Inductive lex_before {A} (before : A -> A -> Prop) : list A -> list A -> Prop :=
| before_continuation a x k : lex_before before a (a ++ x :: k)
| before_difference p x y a b : before x y -> lex_before before (p ++ x :: a) (p ++ y :: b).

Lemma lex_before_cons {A} (before : A -> A -> Prop) x a b :
  lex_before before a b -> lex_before before (x :: a) (x :: b).
Proof.
  destruct 1 as [a y k | p y z a b H].
  - exact (before_continuation before (x :: a) y k).
  - exact (before_difference before (x :: p) y z a b H).
Qed.

Lemma lex_before_head {A} (before : A -> A -> Prop) x y a b : before x y -> lex_before before (x :: a) (y :: b).
Proof. intros H. exact (before_difference before [] x y a b H). Qed.

(** [lex] is negative just for a sequence that is before the other one, for a comparison that is
    negative just for [before] and zero just for equal elements. *)
Lemma lex_before_spec {A} (cmp : A -> A -> Z) `{!TotalCompare cmp} (before : A -> A -> Prop) (ok : A -> Prop) a b :
  (forall x y, ok x -> ok y -> cmp x y < 0 <-> before x y) ->
  (forall x y, ok x -> ok y -> cmp x y = 0 -> x = y) ->
  Forall ok a -> Forall ok b -> lex cmp a b < 0 <-> lex_before before a b.
Proof.
  intros Hlt Heq Ha Hb. split.
  - intros H. revert b Hb H. induction Ha as [| x a Hx _ IH]; intros [| y b] Hb H; cbn in H; try lia.
    { exact (before_continuation before [] y b). }
    apply list.Forall_cons in Hb as [Hy Hb]. destruct (Z.eqb_spec (cmp x y) 0) as [He | He].
    + rewrite <- (Heq x y Hx Hy He). apply lex_before_cons. now apply IH.
    + apply lex_before_head. now apply Hlt.
  - destruct 1 as [a x k | p x y a b H].
    + rewrite <- (app_nil_r a) at 1. now rewrite lex_app_same.
    + rewrite lex_app_same. apply list.Forall_app in Ha as [_ Ha]. apply list.Forall_app in Hb as [_ Hb].
      apply list.Forall_cons in Ha as [Hx _]. apply list.Forall_cons in Hb as [Hy _].
      apply Hlt in H; [| easy | easy]. cbn. destruct (Z.eqb_spec (cmp x y) 0); lia.
Qed.

(** [memcmp] of buffers of one length. *)
Lemma memcmp_before a b : length a = length b -> memcmp a b < 0 <-> lex_before Z.lt a b.
Proof.
  intros Hlen. split.
  - revert b Hlen. induction a as [| x a IH]; intros [| y b] Hlen H; try discriminate; cbn in H.
    injection Hlen as Hlen. destruct (Z.gtb_spec x y); [lia |].
    destruct (Z.ltb_spec x y); [now apply lex_before_head |].
    assert (x = y) as -> by lia. apply lex_before_cons. now apply IH.
  - destruct 1 as [a x k | p x y a b H].
    { rewrite length_app in Hlen. cbn in Hlen. lia. }
    clear Hlen. induction p as [| z p IH]; cbn.
    + destruct (Z.gtb_spec x y); [lia |]. destruct (Z.ltb_spec x y); lia.
    + now rewrite Z.gtb_ltb, Z.ltb_irrefl.
Qed.

(** *** Sorted lists *)

Lemma StronglySorted_filter {A} (R : A -> A -> Prop) (P : A -> Prop) `{forall x, Decision (P x)} l :
  StronglySorted R l -> StronglySorted R (filter P l).
Proof.
  induction 1 as [| x l Hl IH Hx]; [constructor |]. rewrite filter_cons. case_decide; [| exact IH].
  constructor; [exact IH |]. apply list.Forall_forall. intros y Hy. apply list_elem_of_filter in Hy as [_ Hy].
  rewrite list.Forall_forall in Hx. now apply Hx.
Qed.
