(* ===== verification/Actions.v ===== *)
(** * Operations with effects

    A method of an object changes the object, makes calls to the outside in order, and returns or throws
    an exception; what it did before it threw stays done. Used by the components that call back the
    application: the content cache, the segment fetcher and the synchronization. *)

From stdpp Require Import base list option.
From S2P Require Import Prelude.

(** A method of an object [S] that makes calls [E]. *)
Definition Act (S E A : Type) : Type := S -> S * list E * result exn A.

#[export] Instance Act_ret S E : MRet (Act S E) := fun _ a s => (s, [], Ok a).
#[export] Instance Act_bind S E : MBind (Act S E) := fun _ _ f m s =>
  let '(s1, calls1, r) := m s in
  match r with
  | Err e => (s1, calls1, Err e)
  | Ok a => let '(s2, calls2, r2) := f a s1 in (s2, calls1 ++ calls2, r2)
  end.

Definition self_get {S E} : Act S E S := fun s => (s, [], Ok s).
Definition self_modify {S E} (f : S -> S) : Act S E unit := fun s => (f s, [], Ok tt).
Definition perform {S E} (e : E) : Act S E unit := fun s => (s, [e], Ok tt).
Definition performs {S E} (es : list E) : Act S E unit := fun s => (s, es, Ok tt).
Definition throw_exn {S E A} (e : exn) : Act S E A := fun s => (s, [], Err e).
Definition returns {S E A} (r : result exn A) : Act S E A := fun s => (s, [], r).

(** [try { m } catch (...) { h }] *)
Definition catch {S E A} (m : Act S E A) (h : exn -> Act S E A) : Act S E A := fun s =>
  let '(s1, calls1, r) := m s in
  match r with
  | Err e => let '(s2, calls2, r2) := h e s1 in (s2, calls1 ++ calls2, r2)
  | Ok a => (s1, calls1, Ok a)
  end.

(** [try { m } catch (const std::exception&) { h }] *)
Definition try_catch {S E A} (m : Act S E A) (h : Act S E A) : Act S E A :=
  catch m (fun e => if is_exception e then h else throw_exn e).

(** A loop over a list. *)
Fixpoint for_each {S E A} (f : A -> Act S E unit) (l : list A) : Act S E unit :=
  match l with
  | [] => mret tt
  | a :: l => _ ← f a; for_each f l
  end.

(** What an operation does to the state, and what it calls. *)
Definition state_of {S E A} (x : S * list E * result exn A) : S := x.1.1.
Definition calls_of {S E A} (x : S * list E * result exn A) : list E := x.1.2.
Definition result_of {S E A} (x : S * list E * result exn A) : result exn A := x.2.

Lemma act_bind_ok {S E A B} (m : Act S E A) (f : A -> Act S E B) s s1 calls a :
  m s = (s1, calls, Ok a) ->
  (m ≫= f) s = let '(s2, calls2, r) := f a s1 in (s2, calls ++ calls2, r).
Proof. intros H. unfold mbind, Act_bind. now rewrite H. Qed.

Lemma act_bind_silent {S E A B} (m : Act S E A) (f : A -> Act S E B) s s1 a :
  m s = (s1, [], Ok a) -> (m ≫= f) s = f a s1.
Proof. intros H. rewrite (act_bind_ok _ _ _ _ _ _ H). now destruct (f a s1) as [[s2 c2] r]. Qed.

Lemma act_get_bind {S E B} (f : S -> Act S E B) s : (self_get ≫= f) s = f s s.
Proof. unfold mbind, Act_bind, self_get. now destruct (f s s) as [[s2 c2] r]. Qed.

Lemma act_returns_bind {S E A B} (a : A) (f : A -> Act S E B) s : (returns (Ok a) ≫= f) s = f a s.
Proof. unfold mbind, Act_bind, returns. now destruct (f a s) as [[s2 c2] r]. Qed.

Lemma act_modify_bind {S E B} g (f : unit -> Act S E B) s : (self_modify g ≫= f) s = f tt (g s).
Proof. unfold mbind, Act_bind, self_modify. now destruct (f tt (g s)) as [[s2 c2] r]. Qed.

Lemma act_ret_bind {S E A B} (a : A) (f : A -> Act S E B) s : (mret a ≫= f) s = f a s.
Proof. unfold mbind, Act_bind, mret, Act_ret. now destruct (f a s) as [[s2 c2] r]. Qed.

Lemma act_result_bind {S E A B} (m : Act S E A) (f : A -> Act S E B) s b :
  result_of ((m ≫= f) s) = Ok b ->
  exists a, result_of (m s) = Ok a /\ state_of ((m ≫= f) s) = state_of (f a (state_of (m s))) /\ result_of (f a (state_of (m s))) = Ok b.
Proof.
  unfold result_of, state_of, mbind, Act_bind. destruct (m s) as [[s1 c1] [a | e]]; cbn; [| easy].
  destruct (f a s1) as [[s2 c2] r] eqn:Ef. cbn. intros ->. exists a. now rewrite Ef.
Qed.

(** *** Invariants of the state *)

(** [m] keeps the invariant, also when it throws. *)
Definition keeps {S E A} (I : S -> Prop) (m : Act S E A) : Prop := forall s, I s -> I (state_of (m s)).

Create HintDb keeps.

Section Keeps.
Context {S E : Type} (I : S -> Prop).

Lemma keeps_ret {A} (a : A) : keeps (E := E) I (mret a).
Proof. now intros s Hs. Qed.

Lemma keeps_bind {A B} (m : Act S E A) (f : A -> Act S E B) :
  keeps I m -> (forall a, keeps I (f a)) -> keeps I (m ≫= f).
Proof.
  intros Hm Hf s Hs. specialize (Hm s Hs). unfold state_of, mbind, Act_bind in *.
  destruct (m s) as [[s1 c1] [a | e]]; cbn in *; [| exact Hm].
  specialize (Hf a s1 Hm). unfold state_of in Hf. now destruct (f a s1) as [[s2 c2] r].
Qed.

Lemma keeps_get_bind {B} (f : S -> Act S E B) :
  (forall s, I s -> I (state_of (f s s))) -> keeps I (self_get ≫= f).
Proof.
  intros Hf s Hs. specialize (Hf s Hs). unfold state_of, mbind, Act_bind, self_get in *.
  now destruct (f s s) as [[s2 c2] r].
Qed.

Lemma keeps_get {B} (f : S -> Act S E B) :
  (forall s, I s -> keeps I (f s)) -> keeps I (self_get ≫= f).
Proof. intros Hf. apply keeps_get_bind. intros s Hs. now apply Hf. Qed.

Lemma keeps_modify (f : S -> S) : (forall s, I s -> I (f s)) -> keeps (E := E) I (self_modify f).
Proof. intros Hf s Hs. exact (Hf s Hs). Qed.

Lemma keeps_perform (e : E) : keeps I (perform e).
Proof. now intros s Hs. Qed.

Lemma keeps_performs (es : list E) : keeps I (performs es).
Proof. now intros s Hs. Qed.

Lemma keeps_returns {A} (r : result exn A) : keeps (E := E) I (returns r).
Proof. now intros s Hs. Qed.

Lemma keeps_throw {A} e : keeps (E := E) (A := A) I (throw_exn e).
Proof. now intros s Hs. Qed.

Lemma keeps_catch {A} (m : Act S E A) h : keeps I m -> (forall e, keeps I (h e)) -> keeps I (catch m h).
Proof.
  intros Hm Hh s Hs. specialize (Hm s Hs). unfold state_of, catch in *.
  destruct (m s) as [[s1 c1] [a | e]]; cbn in *; [exact Hm |].
  specialize (Hh e s1 Hm). unfold state_of in Hh. now destruct (h e s1) as [[s2 c2] r].
Qed.

Lemma keeps_for_each {A} (f : A -> Act S E unit) l : (forall a, keeps I (f a)) -> keeps I (for_each f l).
Proof.
  intros Hf. induction l as [| a l IH]; [now intros s Hs |]. cbn. now apply keeps_bind.
Qed.
End Keeps.

#[export] Hint Resolve keeps_ret keeps_bind keeps_perform keeps_performs keeps_returns keeps_throw
  keeps_catch keeps_for_each : keeps.

(** A method whose change is written out keeps what its result keeps. *)
Ltac keeps_step :=
  lazymatch goal with
  | |- keeps _ (mret _) => apply keeps_ret
  | |- keeps _ (self_modify _) => apply keeps_modify
  | |- keeps _ (perform _) => apply keeps_perform
  | |- keeps _ (performs _) => apply keeps_performs
  | |- keeps _ (returns _) => apply keeps_returns
  | |- keeps _ (throw_exn _) => apply keeps_throw
  | |- keeps _ (catch _ _) => apply keeps_catch; [| intros]
  | |- keeps _ (for_each _ _) => apply keeps_for_each; intros
  | |- keeps _ (_ ≫= _) => apply keeps_bind; [| intros]
  end.

(** *** What an operation does *)

(** [m] returns from [s], and what it gives, what it calls and what it leaves satisfy [Q]. *)
Definition Does {S E A} (m : Act S E A) (s : S) (Q : S -> list E -> A -> Prop) : Prop :=
  exists s' calls a, m s = (s', calls, Ok a) /\ Q s' calls a.

Section Does.
Context {S E : Type}.
Implicit Types s : S.

Lemma does_weaken {A} (m : Act S E A) s (Q Q' : S -> list E -> A -> Prop) :
  Does m s Q -> (forall s' calls a, Q s' calls a -> Q' s' calls a) -> Does m s Q'.
Proof. intros (s' & calls & a & Hm & HQ) H. exists s', calls, a. auto. Qed.

Lemma does_ret {A} (a : A) s (Q : S -> list E -> A -> Prop) : Q s [] a -> Does (mret a) s Q.
Proof. intros H. now exists s, [], a. Qed.

Lemma does_perform (e : E) s (Q : S -> list E -> unit -> Prop) : Q s [e] tt -> Does (perform e) s Q.
Proof. intros H. now exists s, [e], tt. Qed.

Lemma does_modify (f : S -> S) s (Q : S -> list E -> unit -> Prop) : Q (f s) [] tt -> Does (self_modify f) s Q.
Proof. intros H. now exists (f s), [], tt. Qed.

Lemma does_bind {A B} (m : Act S E A) (f : A -> Act S E B) s Q :
  Does m s (fun s1 calls a => Does (f a) s1 (fun s2 calls2 b => Q s2 (calls ++ calls2) b)) -> Does (m ≫= f) s Q.
Proof.
  intros (s1 & calls & a & Hm & s2 & calls2 & b & Hf & HQ). exists s2, (calls ++ calls2), b. split; [| exact HQ].
  rewrite (act_bind_ok _ _ _ _ _ _ Hm). now rewrite Hf.
Qed.

Lemma does_get_bind {B} (f : S -> Act S E B) s Q : Does (f s) s Q -> Does (self_get ≫= f) s Q.
Proof. intros H. unfold Does. now rewrite act_get_bind. Qed.

Lemma does_modify_bind {B} g (f : unit -> Act S E B) s Q : Does (f tt) (g s) Q -> Does (self_modify g ≫= f) s Q.
Proof. intros H. unfold Does. now rewrite act_modify_bind. Qed.

Lemma does_returns_bind {A B} (a : A) (f : A -> Act S E B) s Q : Does (f a) s Q -> Does (returns (Ok a) ≫= f) s Q.
Proof. intros H. unfold Does. now rewrite act_returns_bind. Qed.

Lemma does_ret_bind {A B} (a : A) (f : A -> Act S E B) s Q : Does (f a) s Q -> Does (mret a ≫= f) s Q.
Proof. intros H. unfold Does. now rewrite act_ret_bind. Qed.

Lemma does_try {A} (m : Act S E A) h s Q : Does m s Q -> Does (try_catch m h) s Q.
Proof. intros (s' & calls & a & Hm & HQ). exists s', calls, a. split; [| exact HQ]. unfold try_catch, catch. now rewrite Hm. Qed.
End Does.

#[export] Hint Resolve does_ret does_perform does_modify : does.

(** The operations that are written out. *)
Ltac does_step :=
  cbv beta;
  lazymatch goal with
  | |- Does (self_get ≫= _) _ _ => apply does_get_bind
  | |- Does (self_modify _ ≫= _) _ _ => apply does_modify_bind
  | |- Does (returns (Ok _) ≫= _) _ _ => apply does_returns_bind
  | |- Does (returns (mret _) ≫= _) _ _ => apply does_returns_bind
  | |- Does (mret _ ≫= _) _ _ => apply does_ret_bind
  | |- Does (_ ≫= _) _ _ => apply does_bind
  | |- Does (mret _) _ _ => apply does_ret
  | |- Does (perform _) _ _ => apply does_perform
  | |- Does (self_modify _) _ _ => apply does_modify
  | |- Does (try_catch _ _) _ _ => apply does_try
  end.
