(* ===== verification/Encoder.v ===== *)
(** * The growable byte array and the TLV encoder

    [DynamicUInt8Array] models src/c/util/dynamic-uint8-array.{h,c} and the vector behind it,
    src/util/dynamic-uint8-vector.{hpp,cpp}. [Encoder] models the [ndn_TlvEncoder] of
    src/c/encoding/tlv/tlv-encoder.{h,c} and the C++ class over it,
    src/encoding/tlv-encoder.hpp. An operation that fails is abandoned with its encoder by
    every caller, so an error carries no encoder. *)

From stdpp Require Import base list numbers option.
From Stdlib Require Import ZArith Lia.
From S2P Require Import Prelude.
Open Scope Z_scope.

(** ** ndn_DynamicUInt8Array *)

(** [array] has the length that the C struct keeps in [length]. [realloc] is the function
    pointer: null, or a function that gives the new array or null. *)
Record DynamicUInt8Array := mkArray {
  array : list Z;
  realloc : option (list Z -> Z -> option (list Z))
}.

Definition reallocArray (self : DynamicUInt8Array) (length : Z)
  : result ndn_Error DynamicUInt8Array :=
  match realloc self with
  | None => Err NDN_ERROR_DynamicUInt8Array_realloc_function_pointer_not_supplied
  | Some f =>
      let doubled := wrap64 (zlen (array self) * 2) in
      let newLength := if length >? doubled then length else doubled in
      match f (array self) newLength with
      | None => Err NDN_ERROR_DynamicUInt8Array_realloc_failed
      | Some newArray => Ok (mkArray newArray (realloc self))
      end
  end.

Definition ensureLength (self : DynamicUInt8Array) (length : Z)
  : result ndn_Error DynamicUInt8Array :=
  if zlen (array self) >=? length then Ok self else reallocArray self length.

(** [ndn_memcpy] of [bs] to the array at [offset]. *)
Definition memcpy_at (a : list Z) (offset : Z) (bs : list Z) : list Z :=
  take (Z.to_nat offset) a ++ bs ++ drop (Z.to_nat offset + length bs) a.

Definition copy (self : DynamicUInt8Array) (value : list Z) (offset : Z)
  : result ndn_Error DynamicUInt8Array :=
  self ← ensureLength self (wrap64 (zlen value + offset));
  mret (mkArray (memcpy_at (array self) offset value) (realloc self)).

(** [std::vector::resize]. *)
Definition vector_resize (v : list Z) (n : Z) : list Z :=
  take (Z.to_nat n) v ++ replicate (Z.to_nat n - length v) 0.

(** DynamicUInt8Vector: the constructor, [realloc] and [finish]. *)
Definition DynamicUInt8Vector (initialLength : Z) : DynamicUInt8Array :=
  mkArray (vector_resize [] initialLength) (Some (fun v n => Some (vector_resize v n))).

Definition finish (self : DynamicUInt8Array) (size : Z) : list Z :=
  vector_resize (array self) size.

(** A reallocation that succeeds and keeps the bytes. *)
Definition grows (r : option (list Z -> Z -> option (list Z))) : Prop :=
  exists f, r = Some f /\
    forall a n, zlen a <= n -> exists a', f a n = Some a' /\ zlen a' = n /\ take (length a) a' = a.

(** There is room for [n] bytes, now or after a reallocation. *)
Definition has_room (self : DynamicUInt8Array) (n : Z) : Prop :=
  n <= zlen (array self) \/ grows (realloc self).

(** ** ndn_TlvEncoder *)

Record Encoder := mkEncoder {
  output : DynamicUInt8Array;
  offset : Z;
  enableOutput : bool
}.

Definition TlvEncoder_initialize (output : DynamicUInt8Array) : Encoder :=
  mkEncoder output 0 true.

(** What every writer of the encoder is: it gives the encoder after it, or an error. *)
Definition writer : Type := Encoder -> result ndn_Error Encoder.

(** Just advance the offset. *)
Definition advance (n : Z) : writer := fun self =>
  Ok (mkEncoder (output self) (wrap64 (offset self + n)) (enableOutput self)).

(** Ensure the length, put the bytes at the offset and advance it: [writeArrayEnabled]. *)
Definition writeArrayEnabled (bs : list Z) : writer := fun self =>
  out ← ensureLength (output self) (wrap64 (offset self + zlen bs));
  mret (mkEncoder (mkArray (memcpy_at (array out) (offset self) bs) (realloc out))
          (wrap64 (offset self + zlen bs)) (enableOutput self)).

Definition seek (offset : Z) : writer := fun self =>
  if enableOutput self then
    out ← ensureLength (output self) offset;
    mret (mkEncoder out offset true)
  else Ok (mkEncoder (output self) offset false).

Definition sizeOfVarNumber (varNumber : Z) : Z :=
  if varNumber <? 253 then 1
  else if varNumber <=? 0xffff then 3
  else if varNumber <=? 0xffffffff then 5
  else 9.

Definition writeVarNumberEnabled (varNumber : Z) : writer :=
  if varNumber <? 253 then writeArrayEnabled [varNumber]
  else if varNumber <=? 0xffff then writeArrayEnabled (253 :: be_encode 2 varNumber)
  else if varNumber <=? 0xffffffff then writeArrayEnabled (254 :: be_encode 4 varNumber)
  else writeArrayEnabled (255 :: be_encode 8 varNumber).

Definition writeVarNumber (varNumber : Z) : writer := fun self =>
  if enableOutput self then writeVarNumberEnabled varNumber self
  else advance (sizeOfVarNumber varNumber) self.

Definition writeTypeAndLength (type length : Z) : writer := fun self =>
  if enableOutput self then
    self ← writeVarNumberEnabled type self;
    writeVarNumberEnabled length self
  else advance (sizeOfVarNumber type + sizeOfVarNumber length) self.

Definition sizeOfNonNegativeInteger (value : Z) : Z :=
  if value <=? 0xff then 1
  else if value <=? 0xffff then 2
  else if value <=? 0xffffffff then 4
  else 8.

Definition writeNonNegativeIntegerEnabled (value : Z) : writer :=
  if value <=? 0xff then writeArrayEnabled [value]
  else if value <=? 0xffff then writeArrayEnabled (be_encode 2 value)
  else if value <=? 0xffffffff then writeArrayEnabled (be_encode 4 value)
  else writeArrayEnabled (be_encode 8 value).

Definition writeNonNegativeInteger (value : Z) : writer := fun self =>
  if enableOutput self then writeNonNegativeIntegerEnabled value self
  else advance (sizeOfNonNegativeInteger value) self.

Definition sizeOfBlobTlv (type : Z) (value : list Z) : Z :=
  wrap64 (sizeOfVarNumber type + sizeOfVarNumber (zlen value) + zlen value).

Definition writeArray (bs : list Z) : writer := fun self =>
  if enableOutput self then writeArrayEnabled bs self else advance (zlen bs) self.

Definition writeBlobTlvEnabled (type : Z) (value : list Z) : writer := fun self =>
  self ← writeTypeAndLength type (zlen value) self;
  writeArrayEnabled value self.

Definition writeBlobTlv (type : Z) (value : list Z) : writer := fun self =>
  if enableOutput self then writeBlobTlvEnabled type value self
  else advance (sizeOfBlobTlv type value) self.

(** [value->value && value->length > 0]: a null blob is [None]. *)
Definition writeOptionalBlobTlv (type : Z) (value : option (list Z)) : writer := fun self =>
  match value with
  | Some (b :: bs) => writeBlobTlv type (b :: bs) self
  | _ => Ok self
  end.

Definition writeNonNegativeIntegerTlv (type value : Z) : writer := fun self =>
  let sizeOfInteger := sizeOfNonNegativeInteger value in
  if enableOutput self then
    self ← writeTypeAndLength type sizeOfInteger self;
    writeNonNegativeIntegerEnabled value self
  else
    advance (sizeOfVarNumber type + sizeOfVarNumber sizeOfInteger + sizeOfInteger) self.

(** The C [int] is negative for an omitted value. *)
Definition writeOptionalNonNegativeIntegerTlv (type value : Z) : writer := fun self =>
  if value >=? 0 then writeNonNegativeIntegerTlv type value self else Ok self.

Definition set_enableOutput (b : bool) (self : Encoder) : Encoder :=
  mkEncoder (output self) (offset self) b.

(** The first pass, with [enableOutput] off, measures the value; the second writes it. In
    the branch where the output was off, the code ignores the result of
    [writeTypeAndLength], which cannot fail there. *)
Definition writeNestedTlv (type : Z) (writeValue : writer) (omitZeroLength : bool) : writer :=
  fun self =>
    let originalEnableOutput := enableOutput self in
    let saveOffset := offset self in
    self ← writeValue (set_enableOutput false self);
    let valueLength := wrap64 (offset self - saveOffset) in
    if omitZeroLength && (valueLength =? 0) then
      Ok (set_enableOutput originalEnableOutput self)
    else if originalEnableOutput then
      self ← writeTypeAndLength type valueLength
               (mkEncoder (output self) saveOffset true);
      writeValue self
    else
      match writeTypeAndLength type valueLength self with
      | Ok self => Ok self
      | Err _ => Ok self
      end.

(** One writer after the other, with the error test between them. *)
Definition andThen (w1 w2 : writer) : writer := fun self => self ← w1 self; w2 self.

Infix ">;>" := andThen (at level 60, right associativity) : ndn_scope.
Open Scope ndn_scope.

(** The C++ [TlvEncoder encoder(n); ...; encoder.finish()]. *)
Definition TlvEncoder_run (initialLength : Z) (w : writer) : result ndn_Error (list Z) :=
  self ← w (TlvEncoder_initialize (DynamicUInt8Vector initialLength));
  mret (finish (output self) (offset self)).

(** ** What a writer emits: the specification *)

(** The bytes of a VAR-NUMBER, of a nonNegativeInteger and of a TLV block in the NDN packet
    format. *)
Definition varNumber_bytes (v : Z) : list Z :=
  if v <? 253 then [v]
  else if v <=? 0xffff then 253 :: be_encode 2 v
  else if v <=? 0xffffffff then 254 :: be_encode 4 v
  else 255 :: be_encode 8 v.

Definition nonNegativeInteger_bytes (v : Z) : list Z :=
  if v <=? 0xff then [v]
  else if v <=? 0xffff then be_encode 2 v
  else if v <=? 0xffffffff then be_encode 4 v
  else be_encode 8 v.

Definition tlv_bytes (type : Z) (value : list Z) : list Z :=
  varNumber_bytes type ++ varNumber_bytes (zlen value) ++ value.

(** The encoder [e'] is [e] after the output of [bs]. *)
Record wrote (e : Encoder) (bs : list Z) (e' : Encoder) : Prop := {
  wrote_offset : offset e' = offset e + zlen bs;
  wrote_enable : enableOutput e' = true;
  wrote_realloc : realloc (output e') = realloc (output e);
  wrote_fits : offset e' <= zlen (array (output e'));
  wrote_capacity : zlen (array (output e)) <= zlen (array (output e'));
  wrote_fixed : realloc (output e) = None ->
    zlen (array (output e')) = zlen (array (output e));
  wrote_bytes : take (Z.to_nat (offset e')) (array (output e'))
    = take (Z.to_nat (offset e)) (array (output e)) ++ bs
}.

(** A writer emits [bs] when, with the output off, it advances the offset by the length of
    [bs]; with the output on and room for [bs], it puts [bs] at the offset and keeps the
    bytes before; and with the output on in a fixed buffer that is too short, it fails. *)
Definition Emits (w : writer) (bs : list Z) : Prop :=
  forall e, 0 <= offset e -> offset e + zlen bs < 2 ^ 63 ->
  if enableOutput e then
    offset e <= zlen (array (output e)) ->
    (has_room (output e) (offset e + zlen bs) -> exists e', w e = Ok e' /\ wrote e bs e') /\
    (realloc (output e) = None -> zlen (array (output e)) < offset e + zlen bs ->
     w e = Err NDN_ERROR_DynamicUInt8Array_realloc_function_pointer_not_supplied)
  else w e = Ok (mkEncoder (output e) (offset e + zlen bs) false).

Create HintDb emits.

Lemma length_vector_resize v n : 0 <= n -> zlen (vector_resize v n) = n.
Proof. intros. unfold vector_resize. rewrite length_app, length_take, length_replicate. lia. Qed.

Lemma take_vector_resize v n : zlen v <= n -> take (length v) (vector_resize v n) = v.
Proof.
  intros. unfold vector_resize. rewrite (firstn_all2 v) by lia.
  now rewrite take_app_length.
Qed.

Lemma vector_grows n : grows (realloc (DynamicUInt8Vector n)).
Proof.
  eexists. split; [reflexivity |]. intros a m Hm. eexists. split; [reflexivity |].
  split; [apply length_vector_resize; lia | now apply take_vector_resize].
Qed.

Lemma ensureLength_ok self n :
  0 <= n < 2 ^ 63 -> has_room self n ->
  exists self', ensureLength self n = Ok self' /\ n <= zlen (array self') /\
    realloc self' = realloc self /\
    take (length (array self)) (array self') = array self.
Proof.
  intros Hn Hroom. unfold ensureLength.
  destruct (Z.geb_spec (zlen (array self)) n) as [Hge | Hlt].
  - exists self. rewrite firstn_all. auto.
  - destruct Hroom as [? | (f & Hf & Hgrow)]; [lia |].
    unfold reallocArray. rewrite Hf, wrap64_small by lia.
    set (m := if n >? zlen (array self) * 2 then n else zlen (array self) * 2).
    assert (n <= m /\ zlen (array self) <= m) as [Hm1 Hm2]
      by (unfold m; destruct (Z.gtb_spec n (zlen (array self) * 2)); lia).
    destruct (Hgrow (array self) m Hm2) as (a' & -> & Hlen & Htake).
    eexists. split; [reflexivity |]. cbn. auto with lia.
Qed.

(** A fixed buffer (no [realloc]) that is too short reports the error. *)
Lemma ensureLength_fixed self n :
  realloc self = None -> zlen (array self) < n ->
  ensureLength self n =
    Err NDN_ERROR_DynamicUInt8Array_realloc_function_pointer_not_supplied.
Proof.
  intros Hr Hn. unfold ensureLength, reallocArray.
  destruct (Z.geb_spec (zlen (array self)) n); [lia |]. now rewrite Hr.
Qed.

Lemma length_memcpy_at a off bs :
  0 <= off -> off + zlen bs <= zlen a -> length (memcpy_at a off bs) = length a.
Proof.
  intros. unfold memcpy_at. rewrite !length_app, length_take, length_drop. lia.
Qed.

Lemma take_memcpy_at a off bs n :
  0 <= off -> off + zlen bs <= zlen a -> n = off + zlen bs ->
  take (Z.to_nat n) (memcpy_at a off bs) = take (Z.to_nat off) a ++ bs.
Proof.
  intros ? ? ->. unfold memcpy_at. rewrite app_assoc. apply take_app_length'.
  rewrite length_app, length_take. lia.
Qed.


Lemma wrote_trans e1 e2 e3 a b : wrote e1 a e2 -> wrote e2 b e3 -> wrote e1 (a ++ b) e3.
Proof.
  intros [] []. split; try congruence.
  - rewrite length_app. lia.
  - lia.
  - intros Hn. rewrite wrote_fixed1, wrote_fixed0; congruence.
  - rewrite wrote_bytes1, wrote_bytes0. now rewrite app_assoc.
Qed.

Lemma has_room_le out n m : has_room out n -> m <= n -> has_room out m.
Proof. intros [? | ?] ?; [left; lia | now right]. Qed.

Lemma wrote_room e a e' n :
  wrote e a e' -> has_room (output e) n -> has_room (output e') n.
Proof.
  intros [] [H | H]; [left; lia | right; congruence].
Qed.

Lemma emits_andThen w1 w2 a b : Emits w1 a -> Emits w2 b -> Emits (w1 >;> w2) (a ++ b).
Proof.
  intros H1 H2 e Hoff Hlen. rewrite length_app in *.
  specialize (H1 e Hoff ltac:(lia)). unfold andThen.
  destruct (enableOutput e) eqn:He.
  - intros Hfit. destruct (H1 Hfit) as [Hok Herr]. split.
    + intros Hroom. destruct Hok as (e1 & -> & W1); [eapply has_room_le; [eassumption | lia] |].
      cbn. pose proof (wrote_offset _ _ _ W1) as Ho.
      specialize (H2 e1 ltac:(lia) ltac:(lia)). rewrite (wrote_enable _ _ _ W1) in H2.
      destruct (H2 (wrote_fits _ _ _ W1)) as [(e2 & -> & W2) _].
      { apply (wrote_room _ _ _ _ W1). eapply has_room_le; [eassumption | lia]. }
      eauto using wrote_trans.
    + intros Hnone Hcap.
      destruct (Z_lt_le_dec (zlen (array (output e))) (offset e + zlen a)) as [Hl | Hl].
      { now rewrite Herr. }
      destruct Hok as (e1 & -> & W1); [now left |].
      cbn. pose proof (wrote_offset _ _ _ W1) as Ho.
      specialize (H2 e1 ltac:(lia) ltac:(lia)). rewrite (wrote_enable _ _ _ W1) in H2.
      destruct (H2 (wrote_fits _ _ _ W1)) as [_ Herr2]. apply Herr2.
      { rewrite (wrote_realloc _ _ _ W1). easy. }
      rewrite (wrote_fixed _ _ _ W1 Hnone). lia.
  - rewrite H1. specialize (H2 (mkEncoder (output e) (offset e + zlen a) false)).
    cbn [offset output enableOutput] in H2. cbn [mbind result_bind].
    rewrite H2 by lia. do 2 f_equal. lia.
Qed.

Lemma emits_nothing : Emits (fun e => Ok e) [].
Proof.
  intros e Ho Hl. cbn in *. destruct (enableOutput e) eqn:He.
  - intros Hfit. split; [| intros; lia]. intros _. exists e. split; [easy |].
    split; cbn; auto; try lia. now rewrite app_nil_r.
  - destruct e; cbn in *. now rewrite Z.add_0_r, He.
Qed.

(** The writers of the code have an enabled branch that writes and a disabled branch that
    advances by a size. *)
Lemma emits_enabled_write bs e :
  0 <= offset e -> offset e + zlen bs < 2 ^ 63 -> enableOutput e = true ->
  offset e <= zlen (array (output e)) ->
  (has_room (output e) (offset e + zlen bs) ->
   exists e', writeArrayEnabled bs e = Ok e' /\ wrote e bs e') /\
  (realloc (output e) = None -> zlen (array (output e)) < offset e + zlen bs ->
   writeArrayEnabled bs e =
     Err NDN_ERROR_DynamicUInt8Array_realloc_function_pointer_not_supplied).
Proof.
  intros Ho Hl He Hfit. unfold writeArrayEnabled. rewrite wrap64_small by lia. split.
  - intros Hroom.
    assert (Hsame : realloc (output e) = None ->
              ensureLength (output e) (offset e + zlen bs) = Ok (output e)).
    { intros Hn. unfold ensureLength. destruct Hroom as [? | (f & Hf & _)]; [| congruence].
      now destruct (Z.geb_spec (zlen (array (output e))) (offset e + zlen bs)); [| lia]. }
    destruct (ensureLength_ok (output e) (offset e + zlen bs)) as (out & Hout & Hcap & Hr & Ht);
      [lia | easy |].
    rewrite Hout. eexists. split; [reflexivity |].
    assert (Hmono : (length (array (output e)) <= length (array out))%nat)
      by (rewrite <- Ht at 1; rewrite length_take; lia).
    split; cbn; rewrite ?length_memcpy_at by lia; auto; try lia.
    + intros Hn. rewrite Hsame in Hout by easy. congruence.
    + rewrite take_memcpy_at by lia. f_equal. rewrite <- Ht, take_take. f_equal. lia.
  - intros Hn Hc. now rewrite ensureLength_fixed.
Qed.

Lemma emits_intro (w : writer) bs size :
  size = zlen bs ->
  (forall e, enableOutput e = true -> w e = writeArrayEnabled bs e) ->
  (forall e, enableOutput e = false -> w e = advance size e) -> Emits w bs.
Proof.
  intros -> Hon Hoff e Ho Hl. destruct (enableOutput e) eqn:He.
  - intros Hfit. rewrite Hon by easy. now apply emits_enabled_write.
  - rewrite Hoff by easy. unfold advance. now rewrite He, wrap64_small by lia.
Qed.

(** A writer that, with the output on, does what an emitting one does. *)
Lemma emits_same (w wE : writer) bs :
  Emits wE bs ->
  (forall e, enableOutput e = true -> w e = wE e) ->
  (forall e, enableOutput e = false -> w e = advance (zlen bs) e) -> Emits w bs.
Proof.
  intros HE Hon Hoff e Ho Hl. specialize (HE e Ho Hl). destruct (enableOutput e) eqn:He.
  - now rewrite Hon.
  - rewrite Hoff by easy. unfold advance. now rewrite He, wrap64_small by lia.
Qed.

Lemma writeArrayEnabled_enable bs e e' :
  writeArrayEnabled bs e = Ok e' -> enableOutput e' = enableOutput e.
Proof.
  unfold writeArrayEnabled. destruct (ensureLength _ _); cbn; [| discriminate].
  now intros [= <-].
Qed.

Ltac case_sizes := repeat (match goal with
  | |- context [Z.ltb ?a ?b] => destruct (Z.ltb_spec a b)
  | |- context [Z.leb ?a ?b] => destruct (Z.leb_spec a b)
  | |- context [Z.geb ?a ?b] => destruct (Z.geb_spec a b)
  end; try lia).

Lemma sizeOfVarNumber_bytes v : sizeOfVarNumber v = zlen (varNumber_bytes v).
Proof. unfold sizeOfVarNumber, varNumber_bytes. case_sizes; reflexivity. Qed.

Lemma sizeOfNonNegativeInteger_bytes v :
  sizeOfNonNegativeInteger v = zlen (nonNegativeInteger_bytes v).
Proof. unfold sizeOfNonNegativeInteger, nonNegativeInteger_bytes. case_sizes; reflexivity. Qed.

Lemma writeVarNumberEnabled_bytes v :
  writeVarNumberEnabled v = writeArrayEnabled (varNumber_bytes v).
Proof. unfold writeVarNumberEnabled, varNumber_bytes. now case_sizes. Qed.

Lemma writeNonNegativeIntegerEnabled_bytes v :
  writeNonNegativeIntegerEnabled v = writeArrayEnabled (nonNegativeInteger_bytes v).
Proof. unfold writeNonNegativeIntegerEnabled, nonNegativeInteger_bytes. now case_sizes. Qed.

Lemma zlen_varNumber_bytes v : 1 <= zlen (varNumber_bytes v) <= 9.
Proof. rewrite <- sizeOfVarNumber_bytes. unfold sizeOfVarNumber. case_sizes; lia. Qed.

Lemma zlen_nonNegativeInteger_bytes v : 1 <= zlen (nonNegativeInteger_bytes v) <= 8.
Proof. rewrite <- sizeOfNonNegativeInteger_bytes. unfold sizeOfNonNegativeInteger. case_sizes; lia. Qed.

Lemma zlen_tlv_bytes type value :
  zlen (tlv_bytes type value)
  = zlen (varNumber_bytes type) + zlen (varNumber_bytes (zlen value)) + zlen value.
Proof. unfold tlv_bytes. rewrite !length_app. lia. Qed.

Lemma emits_writeArray bs : Emits (writeArray bs) bs.
Proof.
  apply (emits_intro _ _ (zlen bs)); [easy | |]; intros e He; unfold writeArray; now rewrite He.
Qed.

Lemma emits_writeVarNumber v : Emits (writeVarNumber v) (varNumber_bytes v).
Proof.
  apply (emits_intro _ _ (sizeOfVarNumber v)); [apply sizeOfVarNumber_bytes | |];
    intros e He; unfold writeVarNumber; rewrite He; [| easy].
  now rewrite writeVarNumberEnabled_bytes.
Qed.

Lemma emits_writeNonNegativeInteger v :
  Emits (writeNonNegativeInteger v) (nonNegativeInteger_bytes v).
Proof.
  apply (emits_intro _ _ (sizeOfNonNegativeInteger v));
    [apply sizeOfNonNegativeInteger_bytes | |];
    intros e He; unfold writeNonNegativeInteger; rewrite He; [| easy].
  now rewrite writeNonNegativeIntegerEnabled_bytes.
Qed.

(** Two enabled writes in a row are the sequence of the two emitting writers. *)
Lemma enabled_seq a b (wb : writer) e :
  enableOutput e = true ->
  (forall e', enableOutput e' = true -> wb e' = writeArray b e') ->
  (writeArrayEnabled a e ≫= wb) = (writeArray a >;> writeArray b) e.
Proof.
  intros He Hb. unfold andThen.
  replace (writeArray a e) with (writeArrayEnabled a e) by (unfold writeArray; now rewrite He).
  destruct (writeArrayEnabled a e) as [e' |] eqn:Hw; cbn; [| easy].
  apply Hb. now rewrite (writeArrayEnabled_enable _ _ _ Hw).
Qed.

Lemma writeTypeAndLength_enabled type len e :
  enableOutput e = true ->
  writeTypeAndLength type len e = writeArray (varNumber_bytes type) e
    ≫= writeArray (varNumber_bytes len).
Proof.
  intros He. unfold writeTypeAndLength. rewrite He, !writeVarNumberEnabled_bytes.
  apply enabled_seq; [easy |]. intros e' He'. unfold writeArray. now rewrite He'.
Qed.

Lemma emits_writeTypeAndLength type len :
  Emits (writeTypeAndLength type len) (varNumber_bytes type ++ varNumber_bytes len).
Proof.
  eapply emits_same; [apply emits_andThen; apply emits_writeArray | |]; intros e He.
  - now apply writeTypeAndLength_enabled.
  - unfold writeTypeAndLength. now rewrite He, length_app, Nat2Z.inj_add, !sizeOfVarNumber_bytes.
Qed.

Lemma writeTypeAndLength_enable type len e e' :
  writeTypeAndLength type len e = Ok e' -> enableOutput e' = enableOutput e.
Proof.
  unfold writeTypeAndLength. destruct (enableOutput e) eqn:He; [| now intros [= <-]].
  rewrite !writeVarNumberEnabled_bytes.
  destruct (writeArrayEnabled _ e) as [e1 |] eqn:H1; cbn; [| discriminate].
  intros H2. rewrite (writeArrayEnabled_enable _ _ _ H2).
  now rewrite (writeArrayEnabled_enable _ _ _ H1).
Qed.

Lemma emits_writeBlobTlv type value :
  zlen (tlv_bytes type value) < 2 ^ 64 ->
  Emits (writeBlobTlv type value) (tlv_bytes type value).
Proof.
  intros Hl. unfold tlv_bytes. rewrite app_assoc.
  eapply emits_same;
    [apply emits_andThen; [apply emits_writeTypeAndLength | apply emits_writeArray] | |];
    intros e He; unfold writeBlobTlv; rewrite He.
  - unfold writeBlobTlvEnabled, andThen.
    destruct (writeTypeAndLength type (zlen value) e) as [e1 |] eqn:H1; [| easy].
    cbn. unfold writeArray. now rewrite (writeTypeAndLength_enable _ _ _ _ H1), He.
  - unfold sizeOfBlobTlv. rewrite !sizeOfVarNumber_bytes, wrap64_small.
    + f_equal. rewrite !length_app. lia.
    + rewrite zlen_tlv_bytes in Hl. lia.
Qed.

Lemma emits_writeNonNegativeIntegerTlv type v :
  Emits (writeNonNegativeIntegerTlv type v) (tlv_bytes type (nonNegativeInteger_bytes v)).
Proof.
  unfold tlv_bytes. rewrite app_assoc.
  eapply emits_same;
    [apply emits_andThen; [apply emits_writeTypeAndLength | apply emits_writeArray] | |];
    intros e He; unfold writeNonNegativeIntegerTlv; rewrite He.
  - rewrite sizeOfNonNegativeInteger_bytes, writeNonNegativeIntegerEnabled_bytes. unfold andThen.
    destruct (writeTypeAndLength _ _ e) as [e1 |] eqn:H1; [| easy].
    cbn. unfold writeArray. now rewrite (writeTypeAndLength_enable _ _ _ _ H1), He.
  - rewrite !sizeOfVarNumber_bytes, sizeOfNonNegativeInteger_bytes. f_equal.
    rewrite !length_app. lia.
Qed.

(** [writeNestedTlv]: the two passes over the value give one TLV block around it. *)
Definition nested_bytes (type : Z) (value : list Z) (omitZeroLength : bool) : list Z :=
  if omitZeroLength && (zlen value =? 0) then [] else tlv_bytes type value.

Lemma emits_writeNestedTlv type w value omit :
  Emits w value ->
  Emits (writeNestedTlv type w omit) (nested_bytes type value omit).
Proof.
  intros Hw e Ho Hl.
  assert (Hvl : offset e + zlen value < 2 ^ 63).
  { revert Hl. unfold nested_bytes. destruct (omit && (zlen value =? 0)) eqn:Hb.
    - apply andb_true_iff in Hb as [_ Hb]. apply Z.eqb_eq in Hb. cbn [length]. lia.
    - rewrite zlen_tlv_bytes. lia. }
  assert (Hpass : w (set_enableOutput false e)
                  = Ok (mkEncoder (output e) (offset e + zlen value) false)).
  { specialize (Hw (set_enableOutput false e) Ho Hvl). cbn in Hw. easy. }
  unfold writeNestedTlv. rewrite Hpass. cbn [mbind result_bind offset output].
  rewrite wrap64_small by lia.
  replace (offset e + zlen value - offset e) with (zlen value) by lia.
  unfold nested_bytes in *. destruct (omit && (zlen value =? 0)) eqn:Hb.
  - apply andb_true_iff in Hb as [_ Hb]. apply Z.eqb_eq in Hb. rewrite Hb.
    replace (set_enableOutput _ _) with e
      by (destruct e; unfold set_enableOutput; cbn; now rewrite Z.add_0_r).
    exact (emits_nothing e Ho Hl).
  - rewrite zlen_tlv_bytes in Hl.
    destruct (enableOutput e) eqn:He.
    + pose proof (emits_andThen _ _ _ _ (emits_writeTypeAndLength type (zlen value)) Hw) as Hseq.
      specialize (Hseq e Ho). rewrite He in Hseq. unfold tlv_bytes. rewrite app_assoc.
      replace (mkEncoder (output e) (offset e) true) with e by (destruct e; cbn in *; congruence).
      apply Hseq. rewrite !length_app. lia.
    + pose proof (emits_writeTypeAndLength type (zlen value)
                    (mkEncoder (output e) (offset e + zlen value) false)) as Htl.
      cbn [offset output enableOutput] in Htl.
      rewrite Htl; [| lia | rewrite length_app; lia].
      do 2 f_equal. rewrite zlen_tlv_bytes, length_app. lia.
Qed.

Lemma emits_writeOptionalBlobTlv type value :
  zlen (tlv_bytes type (default [] value)) < 2 ^ 64 ->
  Emits (writeOptionalBlobTlv type value)
    (match value with Some (b :: bs) => tlv_bytes type (b :: bs) | _ => [] end).
Proof.
  intros Hl. destruct value as [[| b bs] |]; try apply emits_nothing.
  now apply emits_writeBlobTlv.
Qed.

Lemma emits_writeOptionalNonNegativeIntegerTlv type v :
  Emits (writeOptionalNonNegativeIntegerTlv type v)
    (if v >=? 0 then tlv_bytes type (nonNegativeInteger_bytes v) else []).
Proof.
  unfold writeOptionalNonNegativeIntegerTlv. destruct (v >=? 0).
  - apply emits_writeNonNegativeIntegerTlv.
  - apply emits_nothing.
Qed.

#[export] Hint Resolve emits_andThen emits_nothing emits_writeArray emits_writeVarNumber
  emits_writeNonNegativeInteger emits_writeTypeAndLength emits_writeBlobTlv
  emits_writeNonNegativeIntegerTlv emits_writeNestedTlv emits_writeOptionalBlobTlv
  emits_writeOptionalNonNegativeIntegerTlv : emits.

(** What the C++ encoder returns for an emitting writer. *)
Lemma TlvEncoder_run_emits n w bs :
  0 <= n < 2 ^ 63 -> Emits w bs -> zlen bs < 2 ^ 63 -> TlvEncoder_run n w = Ok bs.
Proof.
  intros Hn Hw Hl. unfold TlvEncoder_run.
  set (e := TlvEncoder_initialize (DynamicUInt8Vector n)).
  destruct (Hw e ltac:(cbn; lia) ltac:(cbn; lia)) as [Hok _]; [cbn; lia |].
  destruct Hok as (e' & -> & []); [right; apply vector_grows |].
  cbn in wrote_offset0, wrote_bytes0. cbn. f_equal. unfold finish, vector_resize.
  rewrite wrote_bytes0.
  replace (_ - _)%nat with O by lia. now rewrite app_nil_r.
Qed.
