(* ===== verification/Decoder.v ===== *)
(** * The TLV decoder

    [Decoder] models the [ndn_TlvDecoder] of src/c/encoding/tlv/tlv-decoder.{h,c} and its C++
    class, src/encoding/tlv-decoder.hpp. Offsets and lengths are [size_t]: every sum wraps at
    64 bits, as the bounds checks of the code do. A reader that fails is abandoned with its
    decoder by every caller, except [peekType], which restores the offset. *)

From stdpp Require Import base list numbers option.
From Stdlib Require Import ZArith Lia.
From S2P Require Import Prelude Encoder.
Open Scope Z_scope.

Record Decoder := mkDecoder {
  input : list Z;
  d_offset : Z
}.

Definition inputLength (self : Decoder) : Z := zlen (input self).

Definition TlvDecoder_initialize (input : list Z) : Decoder := mkDecoder input 0.

(** An [ndn_Blob] that points into the input: a null pointer, or an offset, and a length. *)
Record Slice := mkSlice {
  s_value : option Z;
  s_length : Z
}.

(** The bytes a slice stands for, when the whole of it is in the buffer. *)
Definition slice_bytes (l : list Z) (s : Slice) : result failure (list Z) :=
  match s_value s with
  | None => Ok []
  | Some i => if i + s_length s <=? zlen l then Ok (sub_bytes l i (s_length s))
              else Err UndefinedBehaviour
  end.

Definition Dec (A : Type) : Type := Decoder -> result failure (A * Decoder).

#[export] Instance Dec_ret : MRet Dec := fun _ a d => Ok (a, d).
#[export] Instance Dec_bind : MBind Dec := fun _ _ f m d =>
  match m d with Ok (a, d') => f a d' | Err e => Err e end.

Definition throw {A} (e : ndn_Error) : Dec A := fun _ => Err (Error e).
Definition get_offset : Dec Z := fun d => Ok (d_offset d, d).
Definition seek (offset : Z) : Dec unit := fun d => Ok (tt, mkDecoder (input d) offset).

(** Read [n] big endian bytes after the check [offset + n > inputLength]. *)
Definition read_be (n : Z) : Dec Z := fun self =>
  if wrap64 (d_offset self + n) >? inputLength self then
    Err (Error NDN_ERROR_read_past_the_end_of_the_input)
  else
    Ok (be_decode (sub_bytes (input self) (d_offset self) n),
        mkDecoder (input self) (wrap64 (d_offset self + n))).

(** One octet, after the check [offset >= inputLength]. *)
Definition read_octet : Dec Z := fun self =>
  if d_offset self >=? inputLength self then
    Err (Error NDN_ERROR_read_past_the_end_of_the_input)
  else Ok (byte_at (input self) (d_offset self),
           mkDecoder (input self) (wrap64 (d_offset self + 1))).

Definition readExtendedVarNumber (firstOctet : Z) : Dec Z :=
  if firstOctet =? 253 then read_be 2
  else if firstOctet =? 254 then read_be 4
  else read_be 8.

Definition readVarNumber : Dec Z :=
  firstOctet ← read_octet;
  if firstOctet <? 253 then mret firstOctet
  else readExtendedVarNumber firstOctet.

(** The check [offset + length > inputLength] of [readTypeAndLength]. *)
Definition check_length (length : Z) : Dec unit := fun self =>
  if wrap64 (d_offset self + length) >? inputLength self then
    Err (Error NDN_ERROR_TLV_length_exceeds_buffer_length)
  else Ok (tt, self).

Definition readTypeAndLength (expectedType : Z) : Dec Z :=
  type ← readVarNumber;
  if negb (type =? expectedType) then throw NDN_ERROR_did_not_get_the_expected_TLV_type
  else
    length ← readVarNumber;
    _ ← check_length length;
    mret length.

Definition readNestedTlvsStart (expectedType : Z) : Dec Z :=
  length ← readTypeAndLength expectedType;
  offset ← get_offset;
  mret (wrap64 (offset + length)).

(** [self->offset += length] with the check after it. *)
Definition skip_checked (length : Z) : Dec unit := fun self =>
  let offset := wrap64 (d_offset self + length) in
  if offset >? inputLength self then Err (Error NDN_ERROR_TLV_length_exceeds_buffer_length)
  else Ok (tt, mkDecoder (input self) offset).

(** One turn of the loop of [skipRemainingNestedTlvs]. *)
Definition skip_one (skipCritical : bool) : Dec unit :=
  type ← readVarNumber;
  lengthVarNumber ← readVarNumber;
  let critical := (type <=? 31) || (Z.land type 1 =? 1) in
  if critical && negb skipCritical then throw NDN_ERROR_Unrecognized_critical_TLV_type_code
  else skip_checked lengthVarNumber.

Fixpoint skip_loop (fuel : nat) (endOffset : Z) (skipCritical : bool) : Dec unit := fun self =>
  if d_offset self <? endOffset then
    match fuel with
    | O => Err OutOfFuel
    | S fuel =>
        match skip_one skipCritical self with
        | Ok (_, self) => skip_loop fuel endOffset skipCritical self
        | Err e => Err e
        end
    end
  else Ok (tt, self).

(** The fuel is one turn more than the bytes of the input: [skip_loop_enough]. *)
Definition skipRemainingNestedTlvs (endOffset : Z) (skipCritical : bool) : Dec unit := fun self =>
  match skip_loop (S (length (input self))) endOffset skipCritical self with
  | Err e => Err e
  | Ok (_, self) =>
      if negb (d_offset self =? endOffset) then
        Err (Error NDN_ERROR_TLV_length_does_not_equal_total_length_of_nested_TLVs)
      else Ok (tt, self)
  end.

Definition finishNestedTlvs (endOffset : Z) : Dec unit := fun self =>
  if negb (d_offset self =? endOffset) then skipRemainingNestedTlvs endOffset false self
  else Ok (tt, self).

Definition finishNestedTlvsSkipCritical (endOffset : Z) : Dec unit := fun self =>
  if negb (d_offset self =? endOffset) then skipRemainingNestedTlvs endOffset true self
  else Ok (tt, self).

Definition peekType (expectedType endOffset : Z) : Dec bool := fun self =>
  if d_offset self >=? endOffset then Ok (false, self)
  else
    match readVarNumber self with
    | Err e => Err e
    | Ok (type, _) => Ok (type =? expectedType, self)
    end.

Definition readExtendedNonNegativeInteger (length : Z) : Dec Z :=
  if length =? 2 then read_be 2
  else if length =? 4 then read_be 4
  else if length =? 8 then read_be 8
  else throw NDN_ERROR_Invalid_length_for_nonNegativeInteger.

Definition readNonNegativeInteger (length : Z) : Dec Z :=
  if length =? 1 then read_octet else readExtendedNonNegativeInteger length.

Definition readNonNegativeIntegerTlv (expectedType : Z) : Dec Z :=
  length ← readTypeAndLength expectedType;
  readNonNegativeInteger length.

(** The C [int] is -1 for an absent value. *)
Definition readOptionalNonNegativeIntegerTlv (expectedType endOffset : Z) : Dec Z :=
  gotExpectedType ← peekType expectedType endOffset;
  if negb gotExpectedType then mret (-1)
  else
    unsignedValue ← readNonNegativeIntegerTlv expectedType;
    mret (to_int32 unsignedValue).

(** Move the offset by [n] over bytes that a check has found in the input. *)
Definition skip_bytes (n : Z) : Dec unit := fun self =>
  Ok (tt, mkDecoder (input self) (wrap64 (d_offset self + n))).

Definition readBlobTlv (expectedType : Z) : Dec Slice :=
  length ← readTypeAndLength expectedType;
  offset ← get_offset;
  _ ← skip_bytes length;
  mret (mkSlice (Some offset) length).

Definition readOptionalBlobTlv (expectedType endOffset : Z) : Dec Slice :=
  gotExpectedType ← peekType expectedType endOffset;
  if negb gotExpectedType then mret (mkSlice None 0) else readBlobTlv expectedType.

Definition readBooleanTlv (expectedType endOffset : Z) : Dec bool :=
  gotExpectedType ← peekType expectedType endOffset;
  if negb gotExpectedType then mret false
  else
    length ← readTypeAndLength expectedType;
    _ ← skip_bytes length;
    mret true.

Definition skipTlv (expectedType : Z) : Dec unit :=
  length ← readTypeAndLength expectedType;
  skip_bytes length.

Definition skipOptionalTlv (expectedType endOffset : Z) : Dec unit :=
  gotExpectedType ← peekType expectedType endOffset;
  if gotExpectedType : bool then skipTlv expectedType else mret tt.

Definition getSlice (beginOffset endOffset : Z) : Dec Slice := fun self =>
  if (beginOffset >? inputLength self) || (endOffset >? inputLength self) then
    Err (Error NDN_ERROR_read_past_the_end_of_the_input)
  else Ok (mkSlice (Some beginOffset)
             (if beginOffset >? endOffset then 0 else endOffset - beginOffset), self).

(** ** What the decoder reads back *)

(** The decoder is inside a buffer that memory can hold. *)
Definition dec_ok (d : Decoder) : Prop :=
  0 <= d_offset d <= inputLength d /\ inputLength d < 2 ^ 63.

Definition remaining (d : Decoder) : list Z := drop (Z.to_nat (d_offset d)) (input d).

Definition adv (d : Decoder) (n : Z) : Decoder := mkDecoder (input d) (d_offset d + n).

Lemma inputLength_remaining d :
  dec_ok d -> inputLength d = d_offset d + zlen (remaining d).
Proof. intros [? ?]. unfold remaining, inputLength in *. rewrite length_drop. lia. Qed.

Lemma adv_ok d a b :
  dec_ok d -> remaining d = a ++ b -> dec_ok (adv d (zlen a)) /\ remaining (adv d (zlen a)) = b.
Proof.
  intros Hd Hr. pose proof (inputLength_remaining d Hd) as Hl.
  rewrite Hr, length_app in Hl. destruct Hd as [Ho Hm]. split.
  - unfold dec_ok, adv, inputLength in *. cbn. lia.
  - unfold remaining, adv in *. cbn.
    replace (Z.to_nat (d_offset d + zlen a)) with (Z.to_nat (d_offset d) + length a)%nat by lia.
    rewrite <- drop_drop, Hr. apply drop_app_length.
Qed.

Lemma adv_adv d a b : adv (adv d a) b = adv d (a + b).
Proof. unfold adv. cbn. f_equal. lia. Qed.

Lemma adv_0 d : adv d 0 = d.
Proof. destruct d. unfold adv. cbn. f_equal. lia. Qed.

Lemma sub_bytes_remaining d a b :
  remaining d = a ++ b -> sub_bytes (input d) (d_offset d) (zlen a) = a.
Proof.
  intros Hr. unfold sub_bytes. unfold remaining in Hr. rewrite Hr, Nat2Z.id.
  apply take_app_length.
Qed.

Lemma read_octet_at d b rest :
  dec_ok d -> remaining d = b :: rest -> read_octet d = Ok (b, adv d 1).
Proof.
  intros Hd Hr. pose proof (inputLength_remaining d Hd) as Hl. rewrite Hr in Hl. cbn in Hl.
  unfold read_octet. destruct Hd. destruct (Z.geb_spec (d_offset d) (inputLength d)); [lia |].
  rewrite wrap64_small by lia. unfold byte_at.
  assert (Hlk : input d !! Z.to_nat (d_offset d) = Some b).
  { rewrite <- (Nat.add_0_r (Z.to_nat _)), <- lookup_drop. unfold remaining in Hr. now rewrite Hr. }
  now rewrite Hlk.
Qed.

Lemma read_octet_end d :
  dec_ok d -> remaining d = [] ->
  read_octet d = Err (Error NDN_ERROR_read_past_the_end_of_the_input).
Proof.
  intros Hd Hr. pose proof (inputLength_remaining d Hd) as Hl. rewrite Hr in Hl. cbn in Hl.
  unfold read_octet. now destruct (Z.geb_spec (d_offset d) (inputLength d)); [| lia].
Qed.

Lemma read_be_at d a rest n :
  dec_ok d -> remaining d = a ++ rest -> n = zlen a -> read_be n d = Ok (be_decode a, adv d n).
Proof.
  intros Hd Hr ->. pose proof (inputLength_remaining d Hd) as Hl.
  rewrite Hr, length_app in Hl. unfold read_be. destruct Hd.
  rewrite wrap64_small by lia.
  destruct (Z.gtb_spec (d_offset d + zlen a) (inputLength d)); [lia |].
  now rewrite (sub_bytes_remaining d a rest).
Qed.

Lemma read_be_short d n :
  dec_ok d -> 0 <= n < 2 ^ 63 -> zlen (remaining d) < n ->
  read_be n d = Err (Error NDN_ERROR_read_past_the_end_of_the_input).
Proof.
  intros Hd Hn Hr. pose proof (inputLength_remaining d Hd) as Hl. destruct Hd.
  unfold read_be. rewrite wrap64_small by lia.
  now destruct (Z.gtb_spec (d_offset d + n) (inputLength d)); [| lia].
Qed.

Lemma dec_bind_ok {A B} (m : Dec A) (f : A -> Dec B) d a d' :
  m d = Ok (a, d') -> (m ≫= f) d = f a d'.
Proof. intros H. unfold mbind, Dec_bind. now rewrite H. Qed.

Lemma dec_bind_inv {A B} (m : Dec A) (f : A -> Dec B) d b d'' :
  (m ≫= f) d = Ok (b, d'') -> exists a d', m d = Ok (a, d') /\ f a d' = Ok (b, d'').
Proof.
  unfold mbind, Dec_bind. destruct (m d) as [[a d'] |]; [eauto | discriminate].
Qed.

Lemma readVarNumber_at d v rest :
  dec_ok d -> 0 <= v < 2 ^ 64 -> remaining d = varNumber_bytes v ++ rest ->
  readVarNumber d = Ok (v, adv d (zlen (varNumber_bytes v))).
Proof.
  intros Hd Hv Hr. unfold readVarNumber. unfold varNumber_bytes in *.
  assert (Hext : forall k b n, n = Z.of_nat k -> 0 <= v < 256 ^ n ->
            remaining d = (b :: be_encode k v) ++ rest ->
            read_octet d = Ok (b, adv d 1) /\
            read_be n (adv d 1) = Ok (v, adv d (zlen (b :: be_encode k v)))).
  { intros k b n -> Hvn Hrem. cbn in Hrem. split; [eapply read_octet_at; [easy | exact Hrem] |].
    destruct (adv_ok d [b] (be_encode k v ++ rest) Hd Hrem) as [Hd1 Hr1]. cbn in Hd1, Hr1.
    rewrite (read_be_at _ _ rest _ Hd1 Hr1) by now rewrite zlen_be_encode.
    rewrite be_decode_encode_small by easy. rewrite adv_adv. cbn [length].
    rewrite length_be_encode. do 3 f_equal. lia. }
  destruct (Z.ltb_spec v 253).
  - rewrite (dec_bind_ok _ _ _ v (adv d 1)) by (eapply read_octet_at; [easy | exact Hr]).
    now destruct (Z.ltb_spec v 253); [| lia].
  - destruct (Z.leb_spec v 0xffff); [| destruct (Z.leb_spec v 0xffffffff)].
    + destruct (Hext 2%nat 253 2) as [Hq1 Hq2]; [easy | lia | easy |].
      now rewrite (dec_bind_ok _ _ _ _ _ Hq1).
    + destruct (Hext 4%nat 254 4) as [Hq1 Hq2]; [easy | lia | easy |].
      now rewrite (dec_bind_ok _ _ _ _ _ Hq1).
    + destruct (Hext 8%nat 255 8) as [Hq1 Hq2]; [easy | lia | easy |].
      now rewrite (dec_bind_ok _ _ _ _ _ Hq1).
Qed.

Lemma check_length_at d n :
  dec_ok d -> 0 <= n -> n <= zlen (remaining d) -> check_length n d = Ok (tt, d).
Proof.
  intros Hd Hn Hr. pose proof (inputLength_remaining d Hd) as Hl. destruct Hd.
  unfold check_length. rewrite wrap64_small by lia.
  now destruct (Z.gtb_spec (d_offset d + n) (inputLength d)); [lia |].
Qed.

(** The size of the header of a block. *)
Definition header_size (type len : Z) : Z :=
  zlen (varNumber_bytes type) + zlen (varNumber_bytes len).

Lemma readTypeAndLength_at d type len rest :
  dec_ok d -> 0 <= type < 2 ^ 64 -> 0 <= len <= zlen rest ->
  remaining d = varNumber_bytes type ++ varNumber_bytes len ++ rest ->
  readTypeAndLength type d = Ok (len, adv d (header_size type len)) /\
  dec_ok (adv d (header_size type len)) /\ remaining (adv d (header_size type len)) = rest.
Proof.
  intros Hd Ht Hlen Hr.
  destruct (adv_ok _ _ _ Hd Hr) as [Hd1 Hr1]. destruct (adv_ok _ _ _ Hd1 Hr1) as [Hd2 Hr2].
  rewrite adv_adv in Hd2, Hr2. fold (header_size type len) in Hd2, Hr2.
  split; [| easy]. unfold readTypeAndLength.
  rewrite (dec_bind_ok _ _ _ _ _ (readVarNumber_at _ _ _ Hd Ht Hr)), Z.eqb_refl.
  pose proof (inputLength_remaining _ Hd2) as Hl. rewrite Hr2 in Hl. destruct Hd2 as [Ho2 Hm2].
  unfold inputLength in *. cbn in *.
  assert (Hv : 0 <= len < 2 ^ 64) by lia.
  rewrite (dec_bind_ok _ _ _ _ _ (readVarNumber_at _ _ _ Hd1 Hv Hr1)), adv_adv.
  fold (header_size type len). unfold mbind, Dec_bind. rewrite check_length_at; [easy | | lia |].
  - unfold dec_ok, inputLength. cbn. lia.
  - rewrite Hr2. lia.
Qed.

Lemma readTypeAndLength_other d type type' rest :
  dec_ok d -> 0 <= type < 2 ^ 64 -> type <> type' ->
  remaining d = varNumber_bytes type ++ rest ->
  readTypeAndLength type' d = Err (Error NDN_ERROR_did_not_get_the_expected_TLV_type).
Proof.
  intros Hd Ht Hne Hr. unfold readTypeAndLength.
  rewrite (dec_bind_ok _ _ _ _ _ (readVarNumber_at _ _ _ Hd Ht Hr)).
  destruct (Z.eqb_spec type type'); [easy |]. reflexivity.
Qed.

Lemma readNonNegativeInteger_at d v rest :
  dec_ok d -> 0 <= v < 2 ^ 64 -> remaining d = nonNegativeInteger_bytes v ++ rest ->
  readNonNegativeInteger (zlen (nonNegativeInteger_bytes v)) d
  = Ok (v, adv d (zlen (nonNegativeInteger_bytes v))).
Proof.
  intros Hd Hv Hr. unfold nonNegativeInteger_bytes in *.
  destruct (Z.leb_spec v 0xff); [| destruct (Z.leb_spec v 0xffff);
    [| destruct (Z.leb_spec v 0xffffffff)]].
  - now apply (read_octet_at d v rest).
  - change (readNonNegativeInteger (zlen (be_encode 2 v)) d) with (read_be 2 d).
    rewrite (read_be_at d (be_encode 2 v) rest) by easy. now rewrite be_decode_encode_small by lia.
  - change (readNonNegativeInteger (zlen (be_encode 4 v)) d) with (read_be 4 d).
    rewrite (read_be_at d (be_encode 4 v) rest) by easy. now rewrite be_decode_encode_small by lia.
  - change (readNonNegativeInteger (zlen (be_encode 8 v)) d) with (read_be 8 d).
    rewrite (read_be_at d (be_encode 8 v) rest) by easy. now rewrite be_decode_encode_small by lia.
Qed.

Lemma tlv_bytes_app type value rest :
  tlv_bytes type value ++ rest
  = varNumber_bytes type ++ varNumber_bytes (zlen value) ++ value ++ rest.
Proof. unfold tlv_bytes. now rewrite <- !app_assoc. Qed.

Lemma zlen_tlv_header type value :
  zlen (tlv_bytes type value) = header_size type (zlen value) + zlen value.
Proof. now rewrite zlen_tlv_bytes. Qed.

Section AtBlock.
Context (d : Decoder) (type : Z) (value rest : list Z).
Context (Hd : dec_ok d) (Ht : 0 <= type < 2 ^ 64)
  (Hr : remaining d = tlv_bytes type value ++ rest).

Lemma at_block_header :
  readTypeAndLength type d = Ok (zlen value, adv d (header_size type (zlen value))) /\
  dec_ok (adv d (header_size type (zlen value))) /\
  remaining (adv d (header_size type (zlen value))) = value ++ rest.
Proof using All.
  rewrite tlv_bytes_app in Hr. apply readTypeAndLength_at; auto.
  rewrite length_app. lia.
Qed.

Lemma skip_bytes_at_value :
  skip_bytes (zlen value) (adv d (header_size type (zlen value)))
  = Ok (tt, adv d (zlen (tlv_bytes type value))).
Proof using All.
  destruct at_block_header as (_ & Hd1 & Hr1).
  pose proof (inputLength_remaining _ Hd1) as Hl. rewrite Hr1, length_app in Hl.
  destruct Hd1. unfold skip_bytes, inputLength in *. rewrite wrap64_small by lia.
  rewrite zlen_tlv_header. unfold adv. cbn. do 3 f_equal. lia.
Qed.

Lemma readBlobTlv_at :
  readBlobTlv type d
  = Ok (mkSlice (Some (d_offset d + header_size type (zlen value))) (zlen value),
        adv d (zlen (tlv_bytes type value))).
Proof using All.
  destruct at_block_header as (Hh & Hd1 & Hr1). unfold readBlobTlv.
  rewrite (dec_bind_ok _ _ _ _ _ Hh).
  rewrite (dec_bind_ok get_offset _ _ _ _ eq_refl).
  now rewrite (dec_bind_ok _ _ _ _ _ skip_bytes_at_value).
Qed.

Lemma slice_bytes_at :
  slice_bytes (input d)
    (mkSlice (Some (d_offset d + header_size type (zlen value))) (zlen value)) = Ok value.
Proof using All.
  destruct at_block_header as (_ & Hd1 & Hr1).
  pose proof (inputLength_remaining _ Hd1) as Hl. rewrite Hr1, length_app in Hl.
  unfold slice_bytes, inputLength in *. cbn in *.
  case_sizes. f_equal. exact (sub_bytes_remaining _ _ _ Hr1).
Qed.

Lemma skipTlv_at : skipTlv type d = Ok (tt, adv d (zlen (tlv_bytes type value))).
Proof using All.
  destruct at_block_header as (Hh & _). unfold skipTlv.
  rewrite (dec_bind_ok _ _ _ _ _ Hh). apply skip_bytes_at_value.
Qed.

Lemma readNestedTlvsStart_at :
  readNestedTlvsStart type d
  = Ok (d_offset d + zlen (tlv_bytes type value), adv d (header_size type (zlen value))).
Proof using All.
  destruct at_block_header as (Hh & Hd1 & Hr1). unfold readNestedTlvsStart.
  rewrite (dec_bind_ok _ _ _ _ _ Hh).
  rewrite (dec_bind_ok get_offset _ _ _ _ eq_refl).
  pose proof (inputLength_remaining _ Hd1) as Hl. rewrite Hr1, length_app in Hl.
  destruct Hd1. unfold inputLength in *.
  rewrite wrap64_small by lia. rewrite zlen_tlv_header. unfold adv. cbn.
  unfold mret, Dec_ret. do 2 f_equal. lia.
Qed.

Lemma peekType_at t endOffset :
  d_offset d < endOffset -> peekType t endOffset d = Ok (type =? t, d).
Proof using All.
  intros He. unfold peekType. destruct (Z.geb_spec (d_offset d) endOffset); [lia |].
  rewrite tlv_bytes_app in Hr. now rewrite (readVarNumber_at _ _ _ Hd Ht Hr).
Qed.
End AtBlock.

Lemma peekType_end d t endOffset :
  endOffset <= d_offset d -> peekType t endOffset d = Ok (false, d).
Proof. intros. unfold peekType. now destruct (Z.geb_spec (d_offset d) endOffset); [| lia]. Qed.

Lemma readNonNegativeIntegerTlv_at d type v rest :
  dec_ok d -> 0 <= type < 2 ^ 64 -> 0 <= v < 2 ^ 64 ->
  remaining d = tlv_bytes type (nonNegativeInteger_bytes v) ++ rest ->
  readNonNegativeIntegerTlv type d
  = Ok (v, adv d (zlen (tlv_bytes type (nonNegativeInteger_bytes v)))).
Proof.
  intros Hd Ht Hv Hr. destruct (at_block_header _ _ _ _ Hd Ht Hr) as (Hh & Hd1 & Hr1).
  unfold readNonNegativeIntegerTlv. rewrite (dec_bind_ok _ _ _ _ _ Hh).
  rewrite (readNonNegativeInteger_at _ v rest), adv_adv by easy.
  now rewrite zlen_tlv_header.
Qed.

(** ** Safety: what a reader does on any input *)

(** [d'] is [d] moved forward over at least [n] bytes of the input. *)
Definition forward (n : Z) (d d' : Decoder) : Prop :=
  exists k, n <= k <= zlen (remaining d) /\ d' = adv d k.

Lemma forward_ok n d d' : dec_ok d -> 0 <= n -> forward n d d' -> dec_ok d'.
Proof.
  intros Hd Hn (k & Hk & ->). pose proof (inputLength_remaining d Hd).
  destruct Hd. unfold dec_ok, inputLength, adv in *. cbn. lia.
Qed.

Lemma forward_trans n m d d' d'' :
  dec_ok d -> 0 <= n -> forward n d d' -> forward m d' d'' -> forward (n + m) d d''.
Proof.
  intros Hd Hn (k & Hk & ->) (j & Hj & ->). exists (k + j). rewrite adv_adv. split; [| easy].
  assert (Hd' : dec_ok (adv d k)) by (apply (forward_ok n d); [easy | easy | now exists k]).
  pose proof (inputLength_remaining _ Hd). pose proof (inputLength_remaining _ Hd').
  unfold inputLength, adv in *. cbn in *. lia.
Qed.

Lemma forward_weaken n m d d' : m <= n -> forward n d d' -> forward m d d'.
Proof. intros ? (k & ? & ->). exists k. split; [lia | easy]. Qed.

Lemma bytes_ok_remaining d : bytes_ok (input d) -> bytes_ok (remaining d).
Proof. intros. unfold remaining. now apply Forall_drop. Qed.

Lemma read_octet_inv d b d' :
  dec_ok d -> bytes_ok (input d) -> read_octet d = Ok (b, d') -> is_byte b /\ forward 1 d d'.
Proof.
  intros Hd Hb H. destruct (remaining d) as [| c rest] eqn:Hr.
  { now rewrite read_octet_end in H. }
  rewrite (read_octet_at _ _ _ Hd Hr) in H. injection H as <- <-.
  pose proof (bytes_ok_remaining _ Hb) as Hrb. rewrite Hr in Hrb.
  split; [now inversion Hrb |]. exists 1. rewrite Hr. cbn. split; [lia | easy].
Qed.

Lemma read_be_inv d n v d' :
  dec_ok d -> bytes_ok (input d) -> 1 <= n <= 8 -> read_be n d = Ok (v, d') ->
  0 <= v < 2 ^ 64 /\ forward n d d'.
Proof.
  intros Hd Hb Hn H. destruct (Z_lt_le_dec (zlen (remaining d)) n) as [Hs | Hs].
  { rewrite read_be_short in H; [discriminate | easy | lia | easy]. }
  set (a := take (Z.to_nat n) (remaining d)).
  assert (Hla : n = zlen a) by (unfold a; rewrite length_take; lia).
  rewrite (read_be_at d a (drop (Z.to_nat n) (remaining d))) in H;
    [| easy | unfold a; now rewrite take_drop | easy].
  injection H as <- <-. split.
  - assert (Ha : bytes_ok a) by (apply Forall_take, bytes_ok_remaining, Hb).
    pose proof (be_decode_range a Ha) as Hrange. rewrite <- Hla in Hrange.
    assert (256 ^ n <= 256 ^ 8) by (apply Z.pow_le_mono_r; lia). lia.
  - exists n. split; [lia | easy].
Qed.

Lemma readVarNumber_inv d v d' :
  dec_ok d -> bytes_ok (input d) -> readVarNumber d = Ok (v, d') ->
  0 <= v < 2 ^ 64 /\ forward 1 d d' /\ dec_ok d' /\ bytes_ok (input d').
Proof.
  intros Hd Hb H. apply dec_bind_inv in H as (b & d1 & H1 & H2).
  destruct (read_octet_inv _ _ _ Hd Hb H1) as [Hbyte Hf1]. unfold is_byte in Hbyte.
  assert (Hd1 : dec_ok d1) by (eapply forward_ok; [| | eassumption]; [easy | lia]).
  assert (Hb1 : bytes_ok (input d1)) by (destruct Hf1 as (? & ? & ->); exact Hb).
  assert (Hgoal : forall n, 1 <= n <= 8 -> read_be n d1 = Ok (v, d') ->
            0 <= v < 2 ^ 64 /\ forward 1 d d' /\ dec_ok d' /\ bytes_ok (input d')).
  { intros n Hn Hbe. destruct (read_be_inv _ _ _ _ Hd1 Hb1 Hn Hbe) as [Hv Hf2].
    assert (Hf : forward (1 + n) d d') by (eapply forward_trans; eauto; lia).
    split; [exact Hv |]. split; [eapply (forward_weaken (1 + n)); [lia | easy] |].
    split; [apply (forward_ok (1 + n) d); [easy | lia | easy] |].
    destruct Hf as (? & ? & ->). exact Hb. }
  unfold readExtendedVarNumber in H2. destruct (Z.ltb_spec b 253).
  - unfold mret, Dec_ret in H2. injection H2 as <- <-. split; [lia | auto].
  - destruct (b =? 253), (b =? 254); (eapply Hgoal; [| eassumption]; lia).
Qed.

(** The header reader moves forward, and, when the length is below 2^63, what it reports is in
    the buffer. Above it the sum of the bounds check can wrap. *)
Lemma readTypeAndLength_inv d type len d' :
  dec_ok d -> bytes_ok (input d) -> readTypeAndLength type d = Ok (len, d') ->
  0 <= len < 2 ^ 64 /\ forward 2 d d' /\ dec_ok d' /\ bytes_ok (input d') /\
  (len < 2 ^ 63 -> len <= zlen (remaining d')).
Proof.
  intros Hd Hb H. apply dec_bind_inv in H as (t & d1 & H1 & H).
  destruct (readVarNumber_inv _ _ _ Hd Hb H1) as (Ht & Hf1 & Hd1 & Hb1).
  destruct (negb (t =? type)); [discriminate |].
  apply dec_bind_inv in H as (l & d2 & H2 & H).
  destruct (readVarNumber_inv _ _ _ Hd1 Hb1 H2) as (Hl & Hf2 & Hd2 & Hb2).
  apply dec_bind_inv in H as (u & d3 & H3 & H4). unfold mret, Dec_ret in H4.
  injection H4 as -> ->. unfold check_length in H3.
  destruct (Z.gtb_spec (wrap64 (d_offset d2 + len)) (inputLength d2)) as [| Hle]; [discriminate |].
  injection H3 as _ ->. split; [easy |].
  split; [apply (forward_weaken (1 + 1)); [lia |]; eapply forward_trans; eauto; lia |].
  split; [easy |]. split; [easy |].
  - intros Hsmall. pose proof (inputLength_remaining _ Hd2). destruct Hd2.
    rewrite wrap64_small in Hle by lia. lia.
Qed.

(** A slice that lies in the buffer. *)
Definition slice_in (l : list Z) (s : Slice) : Prop :=
  exists i, s_value s = Some i /\ 0 <= i /\ 0 <= s_length s /\ i + s_length s <= zlen l.

Lemma readBlobTlv_inv d type s d' :
  dec_ok d -> bytes_ok (input d) -> readBlobTlv type d = Ok (s, d') -> s_length s < 2 ^ 63 ->
  slice_in (input d) s /\ forward 2 d d'.
Proof.
  intros Hd Hb H Hs. apply dec_bind_inv in H as (len & d1 & H1 & H).
  destruct (readTypeAndLength_inv _ _ _ _ Hd Hb H1) as (Hl & Hf & Hd1 & Hb1 & Hin).
  unfold get_offset, skip_bytes, mbind, Dec_bind, mret, Dec_ret in H.
  injection H as <- <-. cbn in Hs. specialize (Hin Hs).
  pose proof (inputLength_remaining _ Hd1) as Hlen. pose proof Hd1 as [? ?].
  assert (Hi : input d1 = input d) by (destruct Hf as (? & ? & ->); easy).
  rewrite wrap64_small by lia. split.
  - exists (d_offset d1). cbn. unfold inputLength in *. rewrite <- Hi. repeat split; lia.
  - replace 2 with (2 + 0) by lia. eapply forward_trans; [easy | lia | eassumption |].
    exists len. split; [lia | easy].
Qed.

(** ** Skipping unrecognized blocks *)

(** No VAR-NUMBER of 2^63 or more can be read at any offset of the buffer. *)
Definition lengths_fit (l : list Z) : Prop :=
  forall off v d, readVarNumber (mkDecoder l off) = Ok (v, d) -> v < 2 ^ 63.

Definition never_out_of_fuel {A} (m : Dec A) : Prop := forall d, m d <> Err OutOfFuel.

Lemma never_bind {A B} (m : Dec A) (f : A -> Dec B) :
  never_out_of_fuel m -> (forall a, never_out_of_fuel (f a)) -> never_out_of_fuel (m ≫= f).
Proof.
  intros Hm Hf d. unfold mbind, Dec_bind. destruct (m d) as [[a d'] |] eqn:H; [apply Hf |].
  intros [= ->]. now apply (Hm d).
Qed.

Lemma never_read_octet : never_out_of_fuel read_octet.
Proof. intros d. unfold read_octet. now destruct (_ >=? _). Qed.

Lemma never_read_be n : never_out_of_fuel (read_be n).
Proof. intros d. unfold read_be. now destruct (_ >? _). Qed.

Lemma never_readVarNumber : never_out_of_fuel readVarNumber.
Proof.
  apply never_bind; [apply never_read_octet |]. intros b. unfold readExtendedVarNumber.
  destruct (b <? 253); [easy |].
  destruct (b =? 253); [| destruct (b =? 254)]; apply never_read_be.
Qed.

Lemma never_skip_one c : never_out_of_fuel (skip_one c).
Proof.
  apply never_bind; [apply never_readVarNumber |]. intros t.
  apply never_bind; [apply never_readVarNumber |]. intros n.
  cbv zeta. destruct (((t <=? 31) || (Z.land t 1 =? 1)) && negb c); intros d; [unfold throw; congruence |].
  unfold skip_checked. now destruct (_ >? _).
Qed.

Lemma readVarNumber_input d v d' :
  dec_ok d -> bytes_ok (input d) -> readVarNumber d = Ok (v, d') -> input d' = input d.
Proof.
  intros Hd Hb H. destruct (readVarNumber_inv _ _ _ Hd Hb H) as (_ & (? & _ & ->) & _). easy.
Qed.

Lemma skip_one_forward c d d' :
  dec_ok d -> bytes_ok (input d) -> lengths_fit (input d) -> skip_one c d = Ok (tt, d') ->
  forward 2 d d'.
Proof.
  intros Hd Hb Hfit H. apply dec_bind_inv in H as (t & d1 & H1 & H).
  destruct (readVarNumber_inv _ _ _ Hd Hb H1) as (Ht & Hf1 & Hd1 & Hb1).
  apply dec_bind_inv in H as (n & d2 & H2 & H).
  destruct (readVarNumber_inv _ _ _ Hd1 Hb1 H2) as (Hn & Hf2 & Hd2 & Hb2).
  assert (Hsmall : n < 2 ^ 63).
  { rewrite <- (readVarNumber_input _ _ _ Hd Hb H1) in Hfit. destruct d1 as [l off].
    now apply (Hfit off n d2). }
  cbv zeta in H. destruct (((t <=? 31) || (Z.land t 1 =? 1)) && negb c); [discriminate |].
  unfold skip_checked in H.
  pose proof (inputLength_remaining _ Hd2) as Hl. pose proof Hd2 as [? ?].
  rewrite wrap64_small in H by lia.
  destruct (Z.gtb_spec (d_offset d2 + n) (inputLength d2)); [discriminate |].
  injection H as <-. replace 2 with (1 + (1 + 0)) by lia.
  apply (forward_trans _ _ _ d1); [easy | lia | easy |].
  apply (forward_trans _ _ _ d2); [easy | lia | easy |].
  exists n. split; [lia | easy].
Qed.

Lemma skip_loop_enough fuel c endOffset d :
  dec_ok d -> bytes_ok (input d) -> lengths_fit (input d) ->
  (length (remaining d) < fuel)%nat -> skip_loop fuel endOffset c d <> Err OutOfFuel.
Proof.
  revert d. induction fuel as [| fuel IH]; intros d Hd Hb Hfit Hlen; [lia |].
  cbn [skip_loop]. destruct (d_offset d <? endOffset); [| easy].
  destruct (skip_one c d) as [[[] d'] |] eqn:H.
  - pose proof (skip_one_forward _ _ _ Hd Hb Hfit H) as Hf.
    pose proof (forward_ok 2 _ _ Hd ltac:(lia) Hf) as Hd'.
    destruct Hf as (k & Hk & ->). apply IH; auto.
    pose proof (inputLength_remaining _ Hd). pose proof (inputLength_remaining _ Hd').
    unfold inputLength, adv in *. cbn in *. lia.
  - intros Heq. apply (never_skip_one c d). congruence.
Qed.

(** A TLV with its type, as bytes. *)
Definition block_bytes (b : Z * list Z) : list Z := tlv_bytes b.1 b.2.

Definition noncritical (t : Z) : Prop := 31 < t < 2 ^ 64 /\ Z.land t 1 = 0.

Lemma skip_one_at c d b rest :
  dec_ok d -> noncritical b.1 -> remaining d = block_bytes b ++ rest ->
  skip_one c d = Ok (tt, adv d (zlen (block_bytes b))) /\
  dec_ok (adv d (zlen (block_bytes b))) /\ remaining (adv d (zlen (block_bytes b))) = rest.
Proof.
  destruct b as [t v]. cbn. intros Hd [Ht Heven] Hr. unfold block_bytes in *. cbn in *.
  split; [| now apply adv_ok].
  assert (Ht64 : 0 <= t < 2 ^ 64) by lia.
  pose proof (skip_bytes_at_value d t v rest Hd Ht64 Hr) as Hskip.
  destruct (at_block_header d t v rest Hd Ht64 Hr) as (Hh & Hd2 & Hr2).
  pose proof Hr as Hr'. rewrite tlv_bytes_app in Hr'.
  destruct (adv_ok _ _ _ Hd Hr') as [Hd1 Hr1].
  pose proof (inputLength_remaining _ Hd2) as Hl. rewrite Hr2, length_app in Hl.
  pose proof Hd2 as [Ho2 Hm2].
  unfold skip_one. rewrite (dec_bind_ok _ _ _ _ _ (readVarNumber_at _ _ _ Hd Ht64 Hr')).
  assert (Hv : 0 <= zlen v < 2 ^ 64) by (unfold inputLength in *; cbn in *; lia).
  rewrite (dec_bind_ok _ _ _ _ _ (readVarNumber_at _ _ _ Hd1 Hv Hr1)), adv_adv.
  fold (header_size t (zlen v)). rewrite Heven.
  destruct (Z.leb_spec t 31); [lia |]. cbn [orb andb Z.eqb].
  unfold skip_checked. rewrite wrap64_small by lia.
  destruct (Z.gtb_spec (d_offset (adv d (header_size t (zlen v))) + zlen v)
              (inputLength (adv d (header_size t (zlen v))))); [lia |].
  rewrite zlen_tlv_header. unfold adv. cbn. do 3 f_equal. lia.
Qed.

Lemma zlen_block_bytes b : 2 <= zlen (block_bytes b).
Proof.
  unfold block_bytes. rewrite zlen_tlv_bytes. pose proof (zlen_varNumber_bytes b.1).
  pose proof (zlen_varNumber_bytes (zlen b.2)). lia.
Qed.

Lemma length_blocks bs : (length bs <= length (concat (map block_bytes bs)))%nat.
Proof.
  induction bs as [| b bs IH]; [easy |]. cbn. rewrite length_app.
  pose proof (zlen_block_bytes b). lia.
Qed.

(** The turns of the loop over blocks that are skipped. *)
Lemma skip_loop_prefix c fuel d bs rest endOffset :
  dec_ok d -> Forall (fun b => noncritical b.1) bs ->
  remaining d = concat (map block_bytes bs) ++ rest ->
  d_offset d + zlen (concat (map block_bytes bs)) <= endOffset ->
  skip_loop (length bs + fuel) endOffset c d
  = skip_loop fuel endOffset c (adv d (zlen (concat (map block_bytes bs)))).
Proof.
  revert d. induction bs as [| b bs IH]; intros d Hd Hnc Hr He.
  - cbn [length map concat]. now rewrite adv_0.
  - pose proof (List.Forall_inv Hnc) as Hb. pose proof (List.Forall_inv_tail Hnc) as Hbs.
    cbn [map concat] in *.
    rewrite <- app_assoc in Hr. rewrite length_app, Nat2Z.inj_add in *.
    destruct (skip_one_at c d b _ Hd Hb Hr) as (Hone & Hd1 & Hr1).
    pose proof (zlen_block_bytes b). cbn [length Nat.add skip_loop].
    rewrite (proj2 (Z.ltb_lt _ _)), Hone by lia.
    rewrite IH by (easy || (cbn; lia)). now rewrite adv_adv.
Qed.

Lemma skip_loop_end c fuel endOffset d :
  d_offset d = endOffset -> skip_loop fuel endOffset c d = Ok (tt, d).
Proof. intros <-. destruct fuel; cbn [skip_loop]; now rewrite Z.ltb_irrefl. Qed.

Lemma skip_one_critical d type value rest :
  dec_ok d -> 0 <= type < 2 ^ 64 -> type <= 31 \/ Z.land type 1 = 1 ->
  remaining d = tlv_bytes type value ++ rest ->
  skip_one false d = Err (Error NDN_ERROR_Unrecognized_critical_TLV_type_code).
Proof.
  intros Hd Ht Hc Hr. pose proof Hr as Hr'. rewrite tlv_bytes_app in Hr'.
  destruct (adv_ok _ _ _ Hd Hr') as [Hd1 Hr1].
  destruct (at_block_header d type value rest Hd Ht Hr) as (_ & Hd2 & Hr2).
  pose proof (inputLength_remaining _ Hd2) as Hl. rewrite Hr2, length_app in Hl.
  destruct Hd2 as [Ho2 Hm2].
  assert (Hv : 0 <= zlen value < 2 ^ 64) by (unfold inputLength in *; cbn in *; lia).
  unfold skip_one. rewrite (dec_bind_ok _ _ _ _ _ (readVarNumber_at _ _ _ Hd Ht Hr')).
  rewrite (dec_bind_ok _ _ _ _ _ (readVarNumber_at _ _ _ Hd1 Hv Hr1)).
  replace ((type <=? 31) || (Z.land type 1 =? 1)) with true; [easy |].
  symmetry. rewrite orb_true_iff, Z.leb_le, Z.eqb_eq. exact Hc.
Qed.

(** ** Properties *)

(** A decoder at [bs] between other bytes of a message. *)
Definition decoder_at (pre bs rest : list Z) : Decoder := mkDecoder (pre ++ bs ++ rest) (zlen pre).

Lemma decoder_at_ok pre bs rest :
  zlen (pre ++ bs ++ rest) < 2 ^ 63 ->
  dec_ok (decoder_at pre bs rest) /\ remaining (decoder_at pre bs rest) = bs ++ rest.
Proof.
  intros Hl. unfold dec_ok, remaining, decoder_at, inputLength in *. cbn. split.
  - rewrite length_app in *. lia.
  - now rewrite Nat2Z.id, drop_app_length.
Qed.

(** TLV round trip. What [writeBlobTlv] writes, [readBlobTlv] reads back wherever it stands in a
    message: the slice has the bytes of the value, and the decoder is after the block. *)
Theorem blob_tlv_roundtrip (n type : Z) (value pre rest : list Z) :
  0 <= n < 2 ^ 63 -> 0 <= type < 2 ^ 64 ->
  zlen (pre ++ tlv_bytes type value ++ rest) < 2 ^ 63 ->
  exists bs s, TlvEncoder_run n (writeBlobTlv type value) = Ok bs /\
    readBlobTlv type (decoder_at pre bs rest) =
      Ok (s, mkDecoder (pre ++ bs ++ rest) (zlen pre + zlen bs)) /\
    slice_bytes (pre ++ bs ++ rest) s = Ok value.
Proof.
  intros Hn Ht Hl. destruct (decoder_at_ok _ _ _ Hl) as [Hd Hr].
  assert (Hs : zlen (tlv_bytes type value) < 2 ^ 63) by (rewrite !length_app in Hl; lia).
  do 2 eexists. split; [| split].
  - apply TlvEncoder_run_emits; [easy | apply emits_writeBlobTlv; lia | easy].
  - exact (readBlobTlv_at _ _ _ _ Hd Ht Hr).
  - exact (slice_bytes_at _ _ _ _ Hd Ht Hr).
Qed.

(** Integer round trip. Every 64-bit number is written in the shortest of 1, 2, 4 and 8 bytes and read
    back, as a TLV and as an optional TLV; the reader of another type refuses it, and the
    optional reader of another type leaves the decoder where it is. *)
Theorem integer_tlv_roundtrip (n type other v : Z) (pre rest : list Z) :
  0 <= n < 2 ^ 63 -> 0 <= type < 2 ^ 64 -> other <> type -> 0 <= v < 2 ^ 64 ->
  zlen (pre ++ tlv_bytes type (nonNegativeInteger_bytes v) ++ rest) < 2 ^ 63 ->
  exists bs, TlvEncoder_run n (writeNonNegativeIntegerTlv type v) = Ok bs /\
    let d := decoder_at pre bs rest in
    let d' := mkDecoder (pre ++ bs ++ rest) (zlen pre + zlen bs) in
    readNonNegativeIntegerTlv type d = Ok (v, d') /\
    readOptionalNonNegativeIntegerTlv type (zlen pre + zlen bs) d = Ok (to_int32 v, d') /\
    readNonNegativeIntegerTlv other d = Err (Error NDN_ERROR_did_not_get_the_expected_TLV_type) /\
    readOptionalNonNegativeIntegerTlv other (zlen pre + zlen bs) d = Ok (-1, d).
Proof.
  intros Hn Ht Hne Hv Hl. set (bs := tlv_bytes type (nonNegativeInteger_bytes v)) in *.
  assert (Hs : 1 <= zlen bs < 2 ^ 63).
  { split; [| rewrite !length_app in Hl; lia]. unfold bs. rewrite zlen_tlv_bytes.
    pose proof (zlen_varNumber_bytes type).
    pose proof (zlen_varNumber_bytes (zlen (nonNegativeInteger_bytes v))). lia. }
  destruct (decoder_at_ok _ _ _ Hl) as [Hd Hr]. exists bs.
  split; [apply TlvEncoder_run_emits; [easy | apply emits_writeNonNegativeIntegerTlv | exact (proj2 Hs)] |].
  assert (Hp : forall t, peekType t (zlen pre + zlen bs) (decoder_at pre bs rest)
    = Ok (type =? t, decoder_at pre bs rest)).
  { intros t. eapply peekType_at; [easy | exact Ht | exact Hr | cbn; lia]. }
  pose proof (readNonNegativeIntegerTlv_at _ _ _ _ Hd Ht Hv Hr) as Hread.
  split; [exact Hread |]. unfold readOptionalNonNegativeIntegerTlv.
  rewrite !(dec_bind_ok _ _ _ _ _ (Hp _)), Z.eqb_refl, (proj2 (Z.eqb_neq type other)) by congruence.
  cbn [negb]. split; [now rewrite (dec_bind_ok _ _ _ _ _ Hread) |]. split; [| easy].
  unfold readNonNegativeIntegerTlv, mbind, Dec_bind.
  unfold bs in Hr. rewrite tlv_bytes_app in Hr.
  rewrite (readTypeAndLength_other _ type other _ Hd Ht) by (congruence || exact Hr). easy.
Qed.

(** C38: two passes. [writeNestedTlv] around any writer that emits [value] gives exactly one block with it
    (none for an omitted empty value): in a buffer that grows, from any initial length; in a
    fixed buffer it writes the block when it fits and otherwise reports the error; and the block
    reads back with [readNestedTlvsStart], which gives its end. *)
Theorem nested_two_passes (type n m : Z) (w : writer) (value : list Z) (omit : bool) :
  Emits w value -> 0 <= type < 2 ^ 64 -> 0 <= n < 2 ^ 63 -> 0 <= m ->
  zlen (tlv_bytes type value) < 2 ^ 63 ->
  let bs := if omit && (zlen value =? 0) then [] else tlv_bytes type value in
  TlvEncoder_run n (writeNestedTlv type w omit) = Ok bs /\
  (let fixed := TlvEncoder_initialize (mkArray (replicate (Z.to_nat m) 0) None) in
   if zlen bs <=? m then
     exists e, writeNestedTlv type w omit fixed = Ok e /\ offset e = zlen bs /\
       take (length bs) (array (output e)) = bs
   else writeNestedTlv type w omit fixed
     = Err NDN_ERROR_DynamicUInt8Array_realloc_function_pointer_not_supplied) /\
  readNestedTlvsStart type (mkDecoder (tlv_bytes type value) 0)
  = Ok (zlen (tlv_bytes type value), mkDecoder (tlv_bytes type value) (header_size type (zlen value))).
Proof.
  intros Hw Ht Hn Hm Hl bs.
  assert (Hbs : zlen bs <= zlen (tlv_bytes type value)) by (unfold bs; destruct (_ && _); cbn; lia).
  pose proof (emits_writeNestedTlv type w value omit Hw) as He. fold (nested_bytes type value omit) in bs.
  split; [apply TlvEncoder_run_emits; [easy | exact He | fold bs; lia] |]. split.
  - intros fixed. specialize (He fixed ltac:(cbn; lia)).
    change (offset fixed) with 0 in He. change (enableOutput fixed) with true in He.
    assert (Ha : zlen (array (output fixed)) = m) by (cbn; rewrite length_replicate; lia).
    rewrite Ha in He. destruct (He ltac:(fold bs; lia) Hm) as [Hok Herr].
    fold bs in Hok, Herr. destruct (Z.leb_spec (zlen bs) m).
    + destruct Hok as (e & Hwe & W); [left; lia |]. exists e. split; [exact Hwe |].
      pose proof (wrote_offset _ _ _ W) as Wo. pose proof (wrote_bytes _ _ _ W) as Wb.
      rewrite Wo in Wb |- *. change (offset fixed) with 0 in *. split; [lia |].
      rewrite Z.add_0_l, Nat2Z.id in Wb. exact Wb.
    + apply Herr; [easy | lia].
  - destruct (decoder_at_ok [] (tlv_bytes type value) []) as [Hd Hr].
    { now rewrite app_nil_r. }
    unfold decoder_at in *. cbn [app length] in *. rewrite app_nil_r in *.
    rewrite <- (app_nil_r (tlv_bytes type value)) in Hr at 2.
    exact (readNestedTlvsStart_at _ type value [] Hd Ht Hr).
Qed.

(** C39: blocks stay in the buffer. Whatever the input, a blob that is read with a length below 2^63 lies in
    the input, and the decoder has moved forward and is still in the buffer. *)
Theorem readBlobTlv_in_buffer (d : Decoder) (type : Z) (s : Slice) (d' : Decoder) :
  dec_ok d -> bytes_ok (input d) -> readBlobTlv type d = Ok (s, d') -> s_length s < 2 ^ 63 ->
  dec_ok d' /\ d_offset d + 2 <= d_offset d' /\ input d' = input d /\
  exists bs, slice_bytes (input d) s = Ok bs /\ zlen bs = s_length s.
Proof.
  intros Hd Hb H Hs. destruct (readBlobTlv_inv _ _ _ _ Hd Hb H Hs) as [(i & Hi & H0 & Hl & Hin) Hf].
  split; [apply (forward_ok 2 d); [easy | lia | easy] |].
  destruct Hf as (k & Hk & ->). split; [cbn; lia |]. split; [easy |].
  unfold slice_bytes. rewrite Hi. destruct (Z.leb_spec (i + s_length s) (zlen (input d))); [| lia].
  eexists. split; [reflexivity |]. rewrite length_sub_bytes by lia. lia.
Qed.

(** Wrapping bounds check. A length near 2^64 makes the sum in the check of [readTypeAndLength] wrap to a small
    number: the block is accepted, its slice is not in the buffer, and the offset moves back. *)
Theorem readBlobTlv_overflow :
  let d := mkDecoder [8; 255; 255; 255; 255; 255; 255; 255; 255; 254] 0 in
  exists s d', readBlobTlv 8 d = Ok (s, d') /\ s_length s = 2 ^ 64 - 2 /\
    slice_bytes (input d) s = Err UndefinedBehaviour /\ d_offset d' = 8.
Proof. eexists _, _. split; [vm_compute; reflexivity | repeat split]. Qed.

(** Skipping. [finishNestedTlvs] skips the blocks of types that are not critical up to the end of
    the outer block, and reports the first critical one; the variant for critical types skips
    the blocks too. *)
Theorem skip_unrecognized (pre rest : list Z) (bs : list (Z * list Z)) (type : Z) (value : list Z) :
  Forall (fun b => noncritical b.1) bs -> 0 <= type < 2 ^ 64 ->
  (type <= 31 \/ Z.land type 1 = 1) ->
  let blocks := concat (map block_bytes bs) in
  zlen (pre ++ (blocks ++ tlv_bytes type value) ++ rest) < 2 ^ 63 ->
  let d := decoder_at pre (blocks ++ tlv_bytes type value) rest in
  finishNestedTlvs (zlen pre + zlen blocks) d = Ok (tt, adv d (zlen blocks)) /\
  finishNestedTlvsSkipCritical (zlen pre + zlen blocks) d = Ok (tt, adv d (zlen blocks)) /\
  finishNestedTlvs (zlen pre + zlen blocks + zlen (tlv_bytes type value)) d
  = Err (Error NDN_ERROR_Unrecognized_critical_TLV_type_code).
Proof.
  intros Hbs Ht Hc blocks Hl d. destruct (decoder_at_ok _ _ _ Hl) as [Hd Hr]. fold d in Hd, Hr.
  rewrite <- app_assoc in Hr. pose proof (zlen_block_bytes (type, value)) as Hz.
  unfold block_bytes in Hz. cbn [fst snd] in Hz. pose proof (length_blocks bs) as Hlen. fold blocks in Hlen.
  assert (Hskip : forall c endOffset, zlen pre + zlen blocks <= endOffset -> exists fuel,
    skip_loop (S (length (input d))) endOffset c d
    = skip_loop (S fuel) endOffset c (adv d (zlen blocks))).
  { intros c endOffset He.
    assert (Hin : (length blocks <= length (input d))%nat).
    { unfold d, decoder_at. cbn. rewrite !length_app. lia. }
    exists (length (input d) - length bs)%nat.
    rewrite <- (skip_loop_prefix c _ d bs _ endOffset Hd Hbs Hr He). f_equal. lia. }
  assert (Hend : forall c, skipRemainingNestedTlvs (zlen pre + zlen blocks) c d
    = Ok (tt, adv d (zlen blocks))).
  { intros c. unfold skipRemainingNestedTlvs.
    destruct (Hskip c (zlen pre + zlen blocks) ltac:(lia)) as [fuel ->].
    rewrite skip_loop_end by easy. cbn [adv d_offset d decoder_at]. now rewrite Z.eqb_refl. }
  unfold finishNestedTlvs, finishNestedTlvsSkipCritical. rewrite !Hend.
  change (d_offset d) with (zlen pre).
  split; [| split]; [| | rewrite (proj2 (Z.eqb_neq (zlen pre) (zlen pre + zlen blocks + zlen (tlv_bytes type value)))) by lia].
  1,2: destruct (Z.eqb_spec (zlen pre) (zlen pre + zlen blocks)) as [E |]; [| easy];
    replace (zlen blocks) with 0 by lia; now rewrite adv_0.
  cbn [negb]. unfold skipRemainingNestedTlvs.
  destruct (Hskip false (zlen pre + zlen blocks + zlen (tlv_bytes type value)) ltac:(lia))
    as [fuel ->].
  destruct (adv_ok d blocks _ Hd Hr) as [Hd1 Hr1]. cbn [skip_loop].
  rewrite (proj2 (Z.ltb_lt _ _)) by (cbn [adv d_offset d decoder_at]; lia).
  now rewrite (skip_one_critical _ type value rest).
Qed.

(** Skipping terminates. On a buffer where no number of 2^63 or more can be read at any offset, the
    loop over the unrecognized blocks ends within one turn for each byte. *)
Theorem skip_terminates (d : Decoder) (endOffset : Z) (skipCritical : bool) :
  dec_ok d -> bytes_ok (input d) -> lengths_fit (input d) ->
  skipRemainingNestedTlvs endOffset skipCritical d <> Err OutOfFuel.
Proof.
  intros Hd Hb Hf. unfold skipRemainingNestedTlvs.
  pose proof (skip_loop_enough (S (length (input d))) skipCritical endOffset d Hd Hb Hf) as H.
  assert (Hl : (length (remaining d) <= length (input d))%nat)
    by (unfold remaining; rewrite length_drop; lia).
  destruct (skip_loop _ _ _ _) as [[[] d'] |]; [now destruct (negb _) |]. apply H. lia.
Qed.

(** Endless skip. The same wrap of the offset makes the loop come back to the same block, so it never
    ends on this input, whatever the bound on its turns. *)
Theorem skip_diverges :
  let d := mkDecoder [32; 255; 255; 255; 255; 255; 255; 255; 255; 246] 0 in
  forall fuel, skip_loop fuel 1 false d = Err OutOfFuel.
Proof.
  intros d fuel. induction fuel as [| fuel IH]; [easy |]. cbn [skip_loop].
  replace (skip_one false d) with (Ok (E := failure) (tt, d)) by (vm_compute; reflexivity).
  exact IH.
Qed.

(** ** Witnesses *)

Lemma blob_tlv_roundtrip_witness :
  exists bs s, TlvEncoder_run 0 (writeBlobTlv 8 [97; 98]) = Ok bs /\
    readBlobTlv 8 (decoder_at [1] bs [2]) = Ok (s, mkDecoder ([1] ++ bs ++ [2]) (1 + zlen bs)) /\
    slice_bytes ([1] ++ bs ++ [2]) s = Ok [97; 98].
Proof. apply (blob_tlv_roundtrip 0 8 [97; 98] [1] [2]); [lia | lia | reflexivity]. Defined.

Lemma integer_tlv_roundtrip_witness :
  exists bs, TlvEncoder_run 0 (writeNonNegativeIntegerTlv 12 4000) = Ok bs /\
    readNonNegativeIntegerTlv 12 (decoder_at [] bs []) = Ok (4000, mkDecoder (bs ++ []) (zlen bs)).
Proof.
  destruct (integer_tlv_roundtrip 0 12 13 4000 [] []) as (bs & Hb & Hr & _); [lia | lia | lia | lia | reflexivity |].
  exists bs. split; [exact Hb | exact Hr].
Defined.

Lemma nested_two_passes_witness :
  TlvEncoder_run 0 (writeNestedTlv 7 (writeBlobTlv 8 [97]) false) = Ok [7; 3; 8; 1; 97].
Proof.
  apply (nested_two_passes 7 0 4 (writeBlobTlv 8 [97]) [8; 1; 97] false);
    [apply (emits_writeBlobTlv 8 [97]); reflexivity | lia | lia | lia | reflexivity].
Defined.

Lemma readBlobTlv_in_buffer_witness :
  exists s d', readBlobTlv 8 (mkDecoder [8; 1; 97] 0) = Ok (s, d') /\ dec_ok d'.
Proof.
  eexists _, _. split; [vm_compute; reflexivity |].
  eapply (readBlobTlv_in_buffer (mkDecoder [8; 1; 97] 0) 8 _ (mkDecoder [8; 1; 97] 3));
    [| | vm_compute; reflexivity |].
  - unfold dec_ok, inputLength. cbn. lia.
  - repeat constructor; lia.
  - cbn. lia.
Defined.

Lemma skip_unrecognized_witness :
  finishNestedTlvs 3 (decoder_at [] ([32; 1; 0] ++ [7; 0]) []) = Ok (tt, mkDecoder [32; 1; 0; 7; 0] 3).
Proof.
  refine (proj1 (skip_unrecognized [] [] [(32, [0])] 7 [] _ _ _ _)).
  - repeat constructor; cbn; lia.
  - lia.
  - left. lia.
  - reflexivity.
Defined.

Lemma skip_terminates_witness :
  skipRemainingNestedTlvs 3 false (mkDecoder [32; 1; 0] 0) <> Err OutOfFuel.
Proof.
  apply (skip_terminates (mkDecoder [32; 1; 0] 0) 3 false).
  - unfold dec_ok, inputLength. cbn. lia.
  - repeat constructor; lia.
  - intros off v d. unfold readVarNumber, mbind, Dec_bind, read_octet.
    destruct (_ >=? _); [discriminate |]. cbn [input d_offset]. unfold byte_at.
    destruct (Z.to_nat off) as [| [| [| k]]]; cbn; intros [= <- <-]; lia.
Defined.
