(* ===== verification/ElementReader.v ===== *)
(** * Finding the elements of a stream

    [StructureDecoder] models src/c/encoding/tlv/tlv-structure-decoder.{h,c} and
    [ElementReader] models src/c/encoding/element-reader.{h,c}: the state machine that finds
    the end of a TLV element in data that arrives in pieces, and the reader that collects the
    pieces and gives each whole element to the listener. *)

From stdpp Require Import base list numbers option.
From Stdlib Require Import ZArith Lia.
From S2P Require Import Prelude Encoder Decoder.
Open Scope Z_scope.

(** ** ndn_TlvStructureDecoder *)

Inductive sd_state :=
| READ_TYPE
| READ_TYPE_BYTES
| READ_LENGTH
| READ_LENGTH_BYTES
| READ_VALUE_BYTES.

Record StructureDecoder := mkSD {
  gotElementEnd : bool;
  sd_offset : Z;
  sd_st : sd_state;
  headerLength : Z;
  useHeaderBuffer : bool;
  headerBuffer : list Z;
  nBytesToRead : Z;
  firstOctet : Z
}.

(** [reset] leaves the header buffer and the first octet as they are. *)
Definition StructureDecoder_reset (self : StructureDecoder) : StructureDecoder :=
  mkSD false 0 READ_TYPE 0 false (headerBuffer self) 0 (firstOctet self).

(** A decoder just created: the header buffer has its 8 bytes. *)
Definition StructureDecoder_initialize (headerBuffer : list Z) (firstOctet : Z)
  : StructureDecoder := mkSD false 0 READ_TYPE 0 false headerBuffer 0 firstOctet.

Definition sd_seek (self : StructureDecoder) (offset : Z) : StructureDecoder :=
  mkSD (gotElementEnd self) offset (sd_st self) (headerLength self) (useHeaderBuffer self)
    (headerBuffer self) (nBytesToRead self) (firstOctet self).

(** The number of bytes after the first octet of an extended VAR-NUMBER. *)
Definition extended_size (firstOctet : Z) : Z :=
  if firstOctet =? 253 then 2 else if firstOctet =? 254 then 4 else 8.

(** What one turn of the loop of [findElementEnd] does: go on, or return. *)
Inductive turn :=
| Continue (self : StructureDecoder)
| Return (r : result failure unit) (self : StructureDecoder).

Definition turn_READ_TYPE (self : StructureDecoder) (input : list Z) : turn :=
  let octet := byte_at input (sd_offset self) in
  let offset := wrap64 (sd_offset self + 1) in
  if octet <? 253 then
    Continue (mkSD (gotElementEnd self) offset READ_LENGTH (headerLength self)
                (useHeaderBuffer self) (headerBuffer self) (nBytesToRead self)
                (firstOctet self))
  else
    Continue (mkSD (gotElementEnd self) offset READ_TYPE_BYTES (headerLength self)
                (useHeaderBuffer self) (headerBuffer self) (extended_size octet)
                (firstOctet self)).

Definition turn_READ_TYPE_BYTES (self : StructureDecoder) (input : list Z) : turn :=
  let nRemainingBytes := zlen input - sd_offset self in
  if nRemainingBytes <? nBytesToRead self then
    Return (Ok tt)
      (mkSD (gotElementEnd self) (wrap64 (sd_offset self + nRemainingBytes)) (sd_st self)
         (headerLength self) (useHeaderBuffer self) (headerBuffer self)
         (nBytesToRead self - nRemainingBytes) (firstOctet self))
  else
    Continue (mkSD (gotElementEnd self) (wrap64 (sd_offset self + nBytesToRead self))
                READ_LENGTH (headerLength self) (useHeaderBuffer self) (headerBuffer self)
                (nBytesToRead self) (firstOctet self)).

Definition turn_READ_LENGTH (self : StructureDecoder) (input : list Z) : turn :=
  let octet := byte_at input (sd_offset self) in
  let offset := wrap64 (sd_offset self + 1) in
  if octet <? 253 then
    if octet =? 0 then
      Return (Ok tt)
        (mkSD true offset (sd_st self) (headerLength self) (useHeaderBuffer self)
           (headerBuffer self) octet (firstOctet self))
    else
      Continue (mkSD (gotElementEnd self) offset READ_VALUE_BYTES (headerLength self)
                  (useHeaderBuffer self) (headerBuffer self) octet (firstOctet self))
  else
    Continue (mkSD (gotElementEnd self) offset READ_LENGTH_BYTES (headerLength self)
                (useHeaderBuffer self) (headerBuffer self) (extended_size octet) octet).

(** The end of READ_LENGTH_BYTES, when the length of the value is known. *)
Definition got_length (self : StructureDecoder) (offset headerLength : Z) (useBuffer : bool)
    (buffer : list Z) (length : Z) : turn :=
  if length =? 0 then
    Return (Ok tt) (mkSD true offset (sd_st self) headerLength useBuffer buffer length
                      (firstOctet self))
  else
    Continue (mkSD (gotElementEnd self) offset READ_VALUE_BYTES headerLength useBuffer buffer
                length (firstOctet self)).

Definition turn_READ_LENGTH_BYTES (self : StructureDecoder) (input : list Z) : turn :=
  let nRemainingBytes := zlen input - sd_offset self in
  if negb (useHeaderBuffer self) && (nRemainingBytes >=? nBytesToRead self) then
    match readExtendedVarNumber (firstOctet self) (mkDecoder input (sd_offset self)) with
    | Err e => Return (Err e) self
    | Ok (lengthVarNumber, decoder) =>
        got_length self (d_offset decoder) (headerLength self) (useHeaderBuffer self)
          (headerBuffer self) lengthVarNumber
    end
  else
    let nNeededBytes := wrap64 (nBytesToRead self - headerLength self) in
    if nNeededBytes >? nRemainingBytes then
      if headerLength self + nRemainingBytes >? 8 then
        Return (Err (Error NDN_ERROR_cannot_store_more_header_bytes_than_the_size_of_headerBuffer))
          (mkSD (gotElementEnd self) (sd_offset self) (sd_st self) (headerLength self) true
             (headerBuffer self) (nBytesToRead self) (firstOctet self))
      else
        Return (Ok tt)
          (mkSD (gotElementEnd self) (wrap64 (sd_offset self + nRemainingBytes)) (sd_st self)
             (headerLength self + nRemainingBytes) true
             (memcpy_at (headerBuffer self) (headerLength self)
                (sub_bytes input (sd_offset self) nRemainingBytes))
             (nBytesToRead self) (firstOctet self))
    else if headerLength self + nNeededBytes >? 8 then
      Return (Err (Error NDN_ERROR_cannot_store_more_header_bytes_than_the_size_of_headerBuffer))
        (mkSD (gotElementEnd self) (sd_offset self) (sd_st self) (headerLength self) true
           (headerBuffer self) (nBytesToRead self) (firstOctet self))
    else
      let buffer := memcpy_at (headerBuffer self) (headerLength self)
                      (sub_bytes input (sd_offset self) nNeededBytes) in
      match readExtendedVarNumber (firstOctet self) (mkDecoder buffer 0) with
      | Err e =>
          Return (Err e)
            (mkSD (gotElementEnd self) (wrap64 (sd_offset self + nNeededBytes)) (sd_st self)
               (headerLength self) true buffer (nBytesToRead self) (firstOctet self))
      | Ok (lengthVarNumber, _) =>
          got_length self (wrap64 (sd_offset self + nNeededBytes)) (headerLength self) true
            buffer lengthVarNumber
      end.

Definition turn_READ_VALUE_BYTES (self : StructureDecoder) (input : list Z) : turn :=
  let nRemainingBytes := zlen input - sd_offset self in
  if nRemainingBytes <? nBytesToRead self then
    Return (Ok tt)
      (mkSD (gotElementEnd self) (wrap64 (sd_offset self + nRemainingBytes)) (sd_st self)
         (headerLength self) (useHeaderBuffer self) (headerBuffer self)
         (nBytesToRead self - nRemainingBytes) (firstOctet self))
  else
    Return (Ok tt)
      (mkSD true (wrap64 (sd_offset self + nBytesToRead self)) (sd_st self) (headerLength self)
         (useHeaderBuffer self) (headerBuffer self) (nBytesToRead self) (firstOctet self)).

Definition one_turn (self : StructureDecoder) (input : list Z) : turn :=
  if sd_offset self >=? zlen input then Return (Ok tt) self
  else
    match sd_st self with
    | READ_TYPE => turn_READ_TYPE self input
    | READ_TYPE_BYTES => turn_READ_TYPE_BYTES self input
    | READ_LENGTH => turn_READ_LENGTH self input
    | READ_LENGTH_BYTES => turn_READ_LENGTH_BYTES self input
    | READ_VALUE_BYTES => turn_READ_VALUE_BYTES self input
    end.

Fixpoint find_loop (fuel : nat) (self : StructureDecoder) (input : list Z)
  : result failure unit * StructureDecoder :=
  match fuel with
  | O => (Err OutOfFuel, self)
  | S fuel =>
      match one_turn self input with
      | Return r self => (r, self)
      | Continue self => find_loop fuel self input
      end
  end.

(** The states come in order, so five turns are enough: [findElementEnd_ok]. *)
Definition findElementEnd (self : StructureDecoder) (input : list Z)
  : result failure unit * StructureDecoder :=
  if gotElementEnd self then (Ok tt, self) else find_loop 5 self input.

(** ** ndn_ElementReader *)

Definition MAX_NDN_PACKET_SIZE : Z := 8800.

(** [hasListener] says that [elementListener] is not null. *)
Record ElementReader := mkReader {
  hasListener : bool;
  readRawPackets : bool;
  tlvStructureDecoder : StructureDecoder;
  usePartialData : bool;
  gotPartialDataError : bool;
  partialData : DynamicUInt8Array;
  partialDataLength : Z
}.

Definition set_partial (self : ElementReader) (sd : StructureDecoder) (use err : bool)
    (data : DynamicUInt8Array) (len : Z) : ElementReader :=
  mkReader (hasListener self) (readRawPackets self) sd use err data len.

(** [ndn_ElementReader_initialize], on a struct whose other fields are those of [self]. *)
Definition ElementReader_initialize (self : ElementReader) (hasListener : bool)
    (buffer : DynamicUInt8Array) (readRawPackets : bool) : ElementReader :=
  mkReader hasListener readRawPackets (StructureDecoder_reset (tlvStructureDecoder self))
    false (gotPartialDataError self) buffer (partialDataLength self).

Definition ElementReader_reset (self : ElementReader) (hasListener : bool) : ElementReader :=
  mkReader hasListener (readRawPackets self)
    (StructureDecoder_reset (tlvStructureDecoder self))
    false (gotPartialDataError self) (partialData self) (partialDataLength self).

(** What a call gives: how it returned, the elements given to the listener in order, and the
    reader after it. *)
Definition received : Type := result failure unit * list (list Z) * ElementReader.

(** Add the data to the partial data: the branch of an unfinished element. *)
Definition save_partial (self : ElementReader) (sd : StructureDecoder) (data : list Z)
  : received :=
  let '(err, len) :=
    if usePartialData self then (gotPartialDataError self, partialDataLength self)
    else (false, 0) in
  if err then (Ok tt, [], set_partial self sd true true (partialData self) len)
  else if len + zlen data >? MAX_NDN_PACKET_SIZE then
    (Err (Error NDN_ERROR_ElementReader_The_incoming_packet_exceeds_the_maximum_limit_getMaxNdnPacketSize),
     [], set_partial self (StructureDecoder_reset sd) false false (partialData self) len)
  else
    match copy (partialData self) data len with
    | Err e => (Err (Error e), [], set_partial self sd true true (partialData self) len)
    | Ok array => (Ok tt, [], set_partial self sd true false array (len + zlen data))
    end.

(** The element that ends at [offset] of the data, with the partial data before it: [None]
    when the partial data is not valid. *)
Definition take_element (self : ElementReader) (data : list Z) (offset : Z)
  : result ndn_Error (option (list Z) * DynamicUInt8Array * Z) :=
  if usePartialData self then
    if gotPartialDataError self then Ok (None, partialData self, partialDataLength self)
    else
      dst ← copy (partialData self) (sub_bytes data 0 offset) (partialDataLength self);
      let len := partialDataLength self + offset in
      mret (Some (take (Z.to_nat len) (array dst)), dst, len)
  else Ok (Some (sub_bytes data 0 offset), partialData self, partialDataLength self).

(** The loop of [onReceivedData] over the elements of the data. *)
Fixpoint receive_loop (fuel : nat) (self : ElementReader) (data : list Z) : received :=
  match fuel with
  | O => (Err OutOfFuel, [], self)
  | S fuel =>
      if negb (usePartialData self) && (zlen data <=? 0) then (Ok tt, [], self)
      else
        let '(r, sd) := findElementEnd (sd_seek (tlvStructureDecoder self) 0) data in
        match r with
        | Err e =>
            (Err e, [], set_partial self (StructureDecoder_reset sd) false
                          (gotPartialDataError self) (partialData self)
                          (partialDataLength self))
        | Ok _ =>
            if gotElementEnd sd then
              if negb (hasListener self) then
                (Err (Error NDN_ERROR_ElementReader_ElementListener_is_not_specified), [],
                 set_partial self sd (usePartialData self) (gotPartialDataError self)
                   (partialData self) (partialDataLength self))
              else
                match take_element self data (sd_offset sd) with
                | Err e =>
                    (Err (Error e), [],
                     set_partial self sd (usePartialData self) (gotPartialDataError self)
                       (partialData self) (partialDataLength self))
                | Ok (element, dst, len) =>
                    let self := set_partial self (StructureDecoder_reset sd) false
                                  (gotPartialDataError self) dst len in
                    let data := drop (Z.to_nat (sd_offset sd)) data in
                    let elements := match element with Some e => [e] | None => [] end in
                    if zlen data =? 0 then (Ok tt, elements, self)
                    else
                      let '(r, more, self) := receive_loop fuel self data in
                      (r, elements ++ more, self)
                end
            else save_partial self sd data
        end
  end.

(** Each turn of the loop takes at least one byte: [receive_loop_ok]. *)
Definition onReceivedData (self : ElementReader) (data : list Z) : received :=
  if readRawPackets self then
    if zlen data >? 0 then
      if negb (hasListener self) then
        (Err (Error NDN_ERROR_ElementReader_ElementListener_is_not_specified), [], self)
      else (Ok tt, [data], self)
    else (Ok tt, [], self)
  else receive_loop (S (length data)) self data.

(** The pieces of a stream, one call after the other, until a call fails. *)
Fixpoint receive_all (self : ElementReader) (chunks : list (list Z)) : received :=
  match chunks with
  | [] => (Ok tt, [], self)
  | c :: cs =>
      match onReceivedData self c with
      | (Ok _, es, self) => let '(r, more, self) := receive_all self cs in (r, es ++ more, self)
      | (Err e, es, self) => (Err e, es, self)
      end
  end.

(** ** Specification: the size of the first element of a byte sequence *)

Definition varNumber_size (b : Z) : Z := if b <? 253 then 1 else 1 + extended_size b.

(** The value of the VAR-NUMBER at the front of [p]. *)
Definition varNumber_value (p : list Z) : Z :=
  match p with
  | [] => 0
  | b :: t => if b <? 253 then b else be_decode (take (Z.to_nat (extended_size b)) t)
  end.

(** [Some n] when the header is complete: the element is the first [n] bytes. *)
Definition element_size (p : list Z) : option Z :=
  match p with
  | [] => None
  | b :: _ =>
      let ts := varNumber_size b in
      match drop (Z.to_nat ts) p with
      | [] => None
      | c :: t =>
          if zlen t <? varNumber_size c - 1 then None
          else Some (ts + varNumber_size c + varNumber_value (c :: t))
      end
  end.

(** The bytes hold an element, and perhaps more. *)
Definition has_element (p : list Z) : bool :=
  match element_size p with Some n => n <=? zlen p | None => false end.

(** The type field of an element. *)
Definition type_field (ty : list Z) : Prop :=
  exists b t, ty = b :: t /\ zlen ty = varNumber_size b.

(** The state of the decoder after the bytes [p] of an element that has not ended. *)
Definition sd_inv (s : StructureDecoder) (p : list Z) : Prop :=
  gotElementEnd s = false /\ length (headerBuffer s) = 8%nat /\
  match sd_st s with
  | READ_TYPE => p = [] /\ headerLength s = 0 /\ useHeaderBuffer s = false
  | READ_TYPE_BYTES =>
      headerLength s = 0 /\ useHeaderBuffer s = false /\
      exists b t, p = b :: t /\ 253 <= b /\
        nBytesToRead s = extended_size b - zlen t /\ 0 < nBytesToRead s
  | READ_LENGTH => headerLength s = 0 /\ useHeaderBuffer s = false /\ type_field p
  | READ_LENGTH_BYTES =>
      exists ty t, p = ty ++ firstOctet s :: t /\ type_field ty /\ 253 <= firstOctet s /\
        nBytesToRead s = extended_size (firstOctet s) /\ zlen t < nBytesToRead s /\
        headerLength s = zlen t /\
        (if useHeaderBuffer s then take (length t) (headerBuffer s) = t else t = [])
  | READ_VALUE_BYTES =>
      exists n, element_size p = Some n /\ nBytesToRead s = n - zlen p /\ 0 < nBytesToRead s
  end.

Lemma extended_size_range b : 2 <= extended_size b <= 8.
Proof. unfold extended_size. destruct (b =? 253), (b =? 254); lia. Qed.

Lemma varNumber_size_range b : 1 <= varNumber_size b <= 9.
Proof. pose proof (extended_size_range b). unfold varNumber_size. destruct (b <? 253); lia. Qed.

(** The size depends only on the header. *)
Lemma element_size_type ty c t :
  type_field ty -> zlen t >= varNumber_size c - 1 ->
  element_size (ty ++ c :: t) = Some (zlen ty + varNumber_size c + varNumber_value (c :: t)).
Proof.
  intros (b & u & -> & Hlen) Ht. unfold element_size.
  cbn [app]. rewrite app_comm_cons, drop_app_length' by lia.
  destruct (Z.ltb_spec (zlen t) (varNumber_size c - 1)); [lia |]. now rewrite Hlen.
Qed.

Lemma element_size_short ty c t :
  type_field ty -> zlen t < varNumber_size c - 1 -> element_size (ty ++ c :: t) = None.
Proof.
  intros (b & u & -> & Hlen) Ht. unfold element_size.
  cbn [app]. rewrite app_comm_cons, drop_app_length' by lia.
  now destruct (Z.ltb_spec (zlen t) (varNumber_size c - 1)); [| lia].
Qed.

Lemma element_size_type_only ty : type_field ty -> element_size ty = None.
Proof.
  intros (b & u & -> & Hlen). unfold element_size.
  now rewrite drop_ge by (cbn [length] in *; lia).
Qed.

Lemma element_size_in_type b t :
  zlen (b :: t) < varNumber_size b -> element_size (b :: t) = None.
Proof. intros. unfold element_size. now rewrite drop_ge by (cbn [length] in *; lia). Qed.

Lemma varNumber_value_app c t q :
  varNumber_size c - 1 <= zlen t -> varNumber_value (c :: t ++ q) = varNumber_value (c :: t).
Proof.
  intros Ht. unfold varNumber_value, varNumber_size in *. destruct (c <? 253); [easy |].
  now rewrite take_app_le by lia.
Qed.

Lemma element_size_app p q n :
  element_size p = Some n -> element_size (p ++ q) = Some n.
Proof.
  intros H. destruct p as [| b u]; [discriminate |].
  pose proof (varNumber_size_range b) as Hb.
  destruct (drop (Z.to_nat (varNumber_size b)) (b :: u)) as [| c t] eqn:Hd;
    [unfold element_size in H; now rewrite Hd in H |].
  assert (Hty : type_field (take (Z.to_nat (varNumber_size b)) (b :: u))).
  { exists b, (take (Z.to_nat (varNumber_size b) - 1) u). split.
    - destruct (Z.to_nat (varNumber_size b)) eqn:E; [lia |]. cbn. now rewrite Nat.sub_0_r.
    - rewrite length_take. assert (length (c :: t) <> 0%nat) by easy.
      rewrite <- Hd, length_drop in *. lia. }
  set (ty := take (Z.to_nat (varNumber_size b)) (b :: u)) in *.
  assert (Hp : b :: u = ty ++ c :: t) by (rewrite <- Hd; unfold ty; now rewrite take_drop).
  rewrite Hp in *. destruct (Z_lt_le_dec (zlen t) (varNumber_size c - 1)).
  { now rewrite element_size_short in H. }
  rewrite element_size_type in H by (easy || lia). injection H as <-.
  rewrite <- app_assoc. cbn [app]. rewrite element_size_type; [| easy | rewrite length_app; lia].
  now rewrite varNumber_value_app by lia.
Qed.

Lemma readExtendedVarNumber_at f d a rest :
  dec_ok d -> remaining d = a ++ rest -> zlen a = extended_size f ->
  readExtendedVarNumber f d = Ok (be_decode a, adv d (extended_size f)).
Proof.
  intros Hd Hr Ha. unfold readExtendedVarNumber, extended_size in *.
  destruct (f =? 253); [| destruct (f =? 254)]; now apply (read_be_at d a rest).
Qed.

Lemma varNumber_value_extended f a t :
  253 <= f -> zlen a = extended_size f -> varNumber_value (f :: a ++ t) = be_decode a.
Proof.
  intros Hf Ha. unfold varNumber_value. destruct (Z.ltb_spec f 253); [lia |].
  f_equal. apply take_app_length'. lia.
Qed.

Definition rank (s : sd_state) : nat :=
  match s with
  | READ_TYPE => 4 | READ_TYPE_BYTES => 3 | READ_LENGTH => 2
  | READ_LENGTH_BYTES => 1 | READ_VALUE_BYTES => 0
  end.

(** What is true when [findElementEnd] returns: the bytes before it are [p], the input was [c]
    and the offset in it [o]. *)
Definition found (p : list Z) (o : Z) (r : list Z) (s : StructureDecoder) : Prop :=
  length (headerBuffer s) = 8%nat /\
  if has_element (p ++ r) then
    gotElementEnd s = true /\
    element_size (p ++ r) = Some (zlen p + (sd_offset s - o)) /\ o < sd_offset s <= o + zlen r
  else sd_inv s (p ++ r).

(** One turn from offset [o], with the bytes [r] still to read: it goes on in a later state
    after some of them, or it returns with the answer. *)
Definition turn_ok (s : StructureDecoder) (p r : list Z) (t : turn) : Prop :=
  match t with
  | Continue s' => exists a r', r = a ++ r' /\ 0 < zlen a /\
      sd_offset s' = sd_offset s + zlen a /\ sd_inv s' (p ++ a) /\
      (rank (sd_st s') < rank (sd_st s))%nat
  | Return res s' => res = Ok tt /\ found p (sd_offset s) r s'
  end.

Lemma found_end p o r s n :
  element_size (p ++ r) = Some n -> n <= zlen (p ++ r) -> length (headerBuffer s) = 8%nat ->
  gotElementEnd s = true -> sd_offset s = o + (n - zlen p) -> zlen p < n -> found p o r s.
Proof.
  intros Hn Hle Hb He Ho Hlt. rewrite length_app in Hle. split; [easy |].
  unfold has_element. rewrite Hn, length_app.
  destruct (Z.leb_spec n (Z.of_nat (length p + length r))); [| lia].
  repeat split; [easy | f_equal; lia | lia | lia].
Qed.

Lemma found_more p o r s :
  has_element (p ++ r) = false -> sd_inv s (p ++ r) -> found p o r s.
Proof. intros Hh Hi. split; [apply Hi |]. now rewrite Hh. Qed.

Section Turns.
(** The input, the offset in it, and the bytes still to read. *)
Context (c : list Z) (s : StructureDecoder) (r : list Z).
Context (Hlen : zlen c < 2 ^ 62) (Ho : 0 <= sd_offset s <= zlen c)
  (Hr : drop (Z.to_nat (sd_offset s)) c = r).

Lemma turns_length : zlen c = sd_offset s + zlen r.
Proof using All. rewrite <- Hr, length_drop. lia. Qed.

Lemma turns_byte b t : r = b :: t -> byte_at c (sd_offset s) = b.
Proof using All.
  intros Hb. unfold byte_at. rewrite <- (Nat.add_0_r (Z.to_nat _)), <- lookup_drop, Hr, Hb.
  easy.
Qed.

Lemma turns_sub n a t : r = a ++ t -> n = zlen a -> sub_bytes c (sd_offset s) n = a.
Proof using All.
  intros Ha ->. unfold sub_bytes. rewrite Hr, Ha, Nat2Z.id. apply take_app_length.
Qed.

Lemma turns_decoder : dec_ok (mkDecoder c (sd_offset s)) /\
  remaining (mkDecoder c (sd_offset s)) = r.
Proof using All. split; [unfold dec_ok, inputLength; cbn; lia | exact Hr]. Qed.

Lemma turns_wrap n : 0 <= n <= zlen r -> wrap64 (sd_offset s + n) = sd_offset s + n.
Proof using All. intros. pose proof turns_length. apply wrap64_small. lia. Qed.
End Turns.

Lemma turn_READ_TYPE_ok c s r p :
  zlen c < 2 ^ 62 -> 0 <= sd_offset s <= zlen c -> drop (Z.to_nat (sd_offset s)) c = r ->
  r <> [] -> sd_st s = READ_TYPE -> sd_inv s p -> turn_ok s p r (turn_READ_TYPE s c).
Proof.
  intros Hlen Ho Hr Hne Hst (Hg & Hb & Hi). rewrite Hst in Hi. destruct Hi as (-> & Hh & Hu).
  destruct r as [| b t]; [easy |]. unfold turn_READ_TYPE.
  rewrite (turns_byte c s _ Hlen Ho Hr b t), (turns_wrap c s _ Hlen Ho Hr) by (easy || cbn; lia).
  destruct (Z.ltb_spec b 253) as [Hs | Hs]; exists [b], t; cbn; rewrite Hst; cbn;
    (split; [easy |]; split; [lia |]; split; [lia |]; split; [| lia]); repeat split; auto.
  - exists b, []. split; [easy |]. unfold varNumber_size. now destruct (Z.ltb_spec b 253); [| lia].
  - exists b, []. pose proof (extended_size_range b). cbn. repeat split; lia.
Qed.

Lemma turn_READ_TYPE_BYTES_ok c s r p :
  zlen c < 2 ^ 62 -> 0 <= sd_offset s <= zlen c -> drop (Z.to_nat (sd_offset s)) c = r ->
  r <> [] -> sd_st s = READ_TYPE_BYTES -> sd_inv s p -> turn_ok s p r (turn_READ_TYPE_BYTES s c).
Proof.
  intros Hlen Ho Hr Hne Hst (Hg & Hb & Hi). rewrite Hst in Hi.
  destruct Hi as (Hh & Hu & b & t & -> & H253 & Hn & Hpos).
  pose proof (turns_length c s _ Hlen Ho Hr) as Hl. unfold turn_READ_TYPE_BYTES.
  replace (zlen c - sd_offset s) with (zlen r) by lia.
  assert (Hvs : varNumber_size b = 1 + extended_size b)
    by (unfold varNumber_size; destruct (Z.ltb_spec b 253); lia).
  destruct (Z.ltb_spec (zlen r) (nBytesToRead s)) as [Hs | Hs].
  - split; [easy |]. apply found_more.
    + unfold has_element. cbn [app]. rewrite element_size_in_type; [easy |].
      cbn [length]. rewrite length_app. lia.
    + unfold sd_inv. cbn. rewrite Hst. repeat split; auto.
      exists b, (t ++ r). repeat split; auto; rewrite ?length_app; lia.
  - set (a := take (Z.to_nat (nBytesToRead s)) r).
    assert (Ha : zlen a = nBytesToRead s) by (unfold a; rewrite length_take; lia).
    exists a, (drop (Z.to_nat (nBytesToRead s)) r).
    split; [unfold a; now rewrite take_drop |]. split; [lia |].
    cbn. rewrite (turns_wrap c s _ Hlen Ho Hr) by lia.
    split; [lia |]. rewrite Hst. split; [| cbn; lia]. repeat split; auto.
    exists b, (t ++ a). split; [easy |]. cbn [length]. rewrite length_app. lia.
Qed.

Lemma turn_READ_LENGTH_ok c s r p :
  zlen c < 2 ^ 62 -> 0 <= sd_offset s <= zlen c -> drop (Z.to_nat (sd_offset s)) c = r ->
  bytes_ok r -> r <> [] -> sd_st s = READ_LENGTH -> sd_inv s p ->
  turn_ok s p r (turn_READ_LENGTH s c).
Proof.
  intros Hlen Ho Hr Hbytes Hne Hst (Hg & Hb & Hi). rewrite Hst in Hi.
  destruct Hi as (Hh & Hu & Hty). destruct r as [| b t]; [easy |]. unfold turn_READ_LENGTH.
  rewrite (turns_byte c s _ Hlen Ho Hr b t), (turns_wrap c s _ Hlen Ho Hr) by (easy || cbn; lia).
  assert (Hbyte : is_byte b) by now inversion Hbytes. unfold is_byte in Hbyte.
  destruct (Z.ltb_spec b 253) as [Hs | Hs].
  - assert (Hsz : forall u, element_size (p ++ b :: u) = Some (zlen p + 1 + b)).
    { intros u. rewrite element_size_type; [| easy |]; unfold varNumber_size, varNumber_value;
        destruct (Z.ltb_spec b 253); (easy || lia). }
    destruct (Z.eqb_spec b 0) as [-> | H0].
    + split; [easy |]. apply found_end with (n := zlen p + 1 + 0); cbn; auto; try lia.
      rewrite length_app. cbn. lia.
    + exists [b], t. cbn. rewrite Hst. cbn.
      (split; [easy |]; split; [lia |]; split; [lia |]; split; [| lia]). repeat split; auto.
      exists (zlen p + 1 + b). split; [apply (Hsz []) |]. cbn. rewrite length_app. cbn. lia.
  - exists [b], t. cbn. rewrite Hst. cbn.
    (split; [easy |]; split; [lia |]; split; [lia |]; split; [| lia]). repeat split; auto.
    exists p, []. pose proof (extended_size_range b). rewrite Hu. cbn. repeat split; auto; lia.
Qed.

Lemma turn_READ_VALUE_BYTES_ok c s r p :
  zlen c < 2 ^ 62 -> 0 <= sd_offset s <= zlen c -> drop (Z.to_nat (sd_offset s)) c = r ->
  r <> [] -> sd_st s = READ_VALUE_BYTES -> sd_inv s p -> turn_ok s p r (turn_READ_VALUE_BYTES s c).
Proof.
  intros Hlen Ho Hr Hne Hst (Hg & Hb & Hi). rewrite Hst in Hi.
  destruct Hi as (n & Hn & Hnb & Hpos).
  pose proof (turns_length c s _ Hlen Ho Hr) as Hl. unfold turn_READ_VALUE_BYTES.
  replace (zlen c - sd_offset s) with (zlen r) by lia.
  pose proof (element_size_app _ r _ Hn) as Hn'.
  destruct (Z.ltb_spec (zlen r) (nBytesToRead s)) as [Hs | Hs]; (split; [easy |]).
  - apply found_more.
    + unfold has_element. rewrite Hn', length_app. apply Z.leb_gt. lia.
    + unfold sd_inv. cbn. rewrite Hst. repeat split; auto. exists n. rewrite length_app.
      repeat split; [easy | lia | lia].
  - apply found_end with (n := n); cbn; auto; rewrite ?length_app; try lia.
    rewrite (turns_wrap c s _ Hlen Ho Hr) by lia. lia.
Qed.

(** The length is known: the extended length octets are [a] after the first octet [f]. *)
Lemma got_length_ok s s0 p ty t a r u offset hl ub buf :
  p = ty ++ firstOctet s :: t -> type_field ty -> 253 <= firstOctet s ->
  zlen (t ++ a) = extended_size (firstOctet s) -> 0 < zlen a -> r = a ++ u -> bytes_ok r ->
  bytes_ok t -> gotElementEnd s = false -> sd_st s0 = READ_LENGTH_BYTES ->
  length buf = 8%nat -> offset = sd_offset s0 + zlen a ->
  turn_ok s0 p r (got_length s offset hl ub buf (be_decode (t ++ a))).
Proof.
  intros Hp Hty H253 Hk Ha Hr Hbr Hbt Hg Hst Hbuf Hoff.
  set (k := extended_size (firstOctet s)) in *. set (v := be_decode (t ++ a)).
  assert (Hvs : varNumber_size (firstOctet s) = 1 + k)
    by (unfold varNumber_size; destruct (Z.ltb_spec (firstOctet s) 253); lia).
  assert (Hsz : forall w, element_size (p ++ a ++ w) = Some (zlen p + zlen a + v)).
  { intros w. rewrite Hp. rewrite <- app_assoc. cbn [app]. rewrite app_assoc.
    rewrite element_size_type, varNumber_value_extended by (easy || rewrite !length_app in *; lia).
    f_equal. rewrite !length_app in *. cbn [length]. lia. }
  assert (Hv : 0 <= v).
  { apply be_decode_range. subst r. apply Forall_app in Hbr as [? _]. now apply Forall_app. }
  unfold got_length. fold v. destruct (Z.eqb_spec v 0) as [H0 | H0].
  - split; [easy |]. rewrite Hr. specialize (Hsz u).
    apply found_end with (n := zlen p + zlen a + v); cbn; auto; rewrite ?length_app; lia.
  - exists a, u. split; [easy |]. split; [lia |]. split; [cbn; lia |].
    rewrite Hst. split; [| cbn; lia]. repeat split; auto. cbn.
    exists (zlen p + zlen a + v). specialize (Hsz []). rewrite app_nil_r in Hsz.
    rewrite length_app. repeat split; [easy | lia | lia].
Qed.

Lemma turn_READ_LENGTH_BYTES_ok c s r p :
  zlen c < 2 ^ 62 -> 0 <= sd_offset s <= zlen c -> drop (Z.to_nat (sd_offset s)) c = r ->
  bytes_ok r -> bytes_ok p -> r <> [] -> sd_st s = READ_LENGTH_BYTES -> sd_inv s p ->
  turn_ok s p r (turn_READ_LENGTH_BYTES s c).
Proof.
  intros Hlen Ho Hr Hbytes Hbp Hne Hst (Hg & Hb & Hi). rewrite Hst in Hi.
  destruct Hi as (ty & t & Hp & Hty & H253 & Hnb & Ht & Hhl & Hbuf).
  pose proof (turns_length c s _ Hlen Ho Hr) as Hl. unfold turn_READ_LENGTH_BYTES.
  replace (zlen c - sd_offset s) with (zlen r) by lia. rewrite Hnb, Hhl.
  pose proof (extended_size_range (firstOctet s)) as Hk.
  set (k := extended_size (firstOctet s)) in *.
  assert (Hbt : bytes_ok t).
  { rewrite Hp in Hbp. apply Forall_app in Hbp as [_ Hbp]. now inversion Hbp. }
  assert (H0r : 0 < zlen r) by (destruct r; [easy | cbn [length]; lia]).
  destruct (negb (useHeaderBuffer s) && (zlen r >=? k)) eqn:Hdirect.
  - apply andb_true_iff in Hdirect as [Hu Hge]. apply Z.geb_le in Hge.
    destruct (useHeaderBuffer s); [easy |]. subst t.
    set (a := take (Z.to_nat k) r). set (u := drop (Z.to_nat k) r).
    assert (Hau : r = a ++ u) by (unfold a, u; now rewrite take_drop).
    assert (Ha : zlen a = k) by (unfold a; rewrite length_take; lia).
    destruct (turns_decoder c s _ Hlen Ho Hr) as [Hd Hrem]. rewrite Hau in Hrem.
    rewrite (readExtendedVarNumber_at _ _ _ _ Hd Hrem Ha).
    eapply (got_length_ok _ _ _ ty [] a); eauto; try lia. cbn. lia.
  - rewrite wrap64_small by lia. clear Hdirect.
    assert (Htk : take (length t) (headerBuffer s) = t).
    { destruct (useHeaderBuffer s); [easy |]. now rewrite Hbuf. }
    clear Hbuf. destruct (Z.gtb_spec (k - zlen t) (zlen r)) as [Hs | Hs].
    + destruct (Z.gtb_spec (zlen t + zlen r) 8); [lia |]. split; [easy |].
      rewrite (turns_sub c s _ Hlen Ho Hr _ r []) by (rewrite ?app_nil_r; easy).
      apply found_more.
      * unfold has_element. rewrite Hp, <- app_assoc. cbn [app].
        rewrite element_size_short; [easy | easy |]. rewrite length_app.
        unfold varNumber_size. destruct (Z.ltb_spec (firstOctet s) 253); lia.
      * unfold sd_inv. cbn. rewrite Hst. split; [easy |].
        split; [rewrite length_memcpy_at; lia |].
        exists ty, (t ++ r). rewrite length_app.
        repeat split; auto; try lia; [rewrite Hp, <- app_assoc; easy |].
        replace (length t + length r)%nat with (Z.to_nat (zlen t + zlen r)) by lia.
        rewrite take_memcpy_at by lia. now rewrite Nat2Z.id, Htk.
    + destruct (Z.gtb_spec (zlen t + (k - zlen t)) 8); [lia |].
      set (a := take (Z.to_nat (k - zlen t)) r). set (u := drop (Z.to_nat (k - zlen t)) r).
      assert (Hau : r = a ++ u) by (unfold a, u; now rewrite take_drop).
      assert (Ha : zlen a = k - zlen t) by (unfold a; rewrite length_take; lia).
      rewrite (turns_sub c s _ Hlen Ho Hr _ a u) by easy.
      set (buffer := memcpy_at (headerBuffer s) (zlen t) a).
      assert (Hlb : length buffer = 8%nat) by (unfold buffer; rewrite length_memcpy_at; lia).
      assert (Hta : take (Z.to_nat k) buffer = t ++ a).
      { unfold buffer. rewrite take_memcpy_at by lia. now rewrite Nat2Z.id, Htk. }
      assert (Hd : dec_ok (mkDecoder buffer 0)) by (unfold dec_ok, inputLength; cbn; lia).
      assert (Hrem : remaining (mkDecoder buffer 0) = (t ++ a) ++ drop (Z.to_nat k) buffer).
      { unfold remaining. cbn. now rewrite <- Hta, take_drop. }
      rewrite (readExtendedVarNumber_at _ _ _ _ Hd Hrem) by (rewrite length_app; lia).
      eapply got_length_ok; eauto; rewrite ?length_app; try lia.
      rewrite (turns_wrap c s _ Hlen Ho Hr) by lia. lia.
Qed.

Lemma sd_inv_no_element s p : sd_inv s p -> has_element p = false.
Proof.
  intros (Hg & Hb & Hi). unfold has_element. destruct (sd_st s).
  - now destruct Hi as (-> & _).
  - destruct Hi as (_ & _ & b & t & -> & H253 & Hn & Hpos).
    rewrite element_size_in_type; [easy |]. unfold varNumber_size.
    destruct (Z.ltb_spec b 253); [lia |]. cbn [length]. lia.
  - destruct Hi as (_ & _ & Hty). now rewrite element_size_type_only.
  - destruct Hi as (ty & t & -> & Hty & H253 & Hn & Hlt & _).
    rewrite element_size_short; [easy | easy |]. unfold varNumber_size.
    destruct (Z.ltb_spec (firstOctet s) 253); lia.
  - destruct Hi as (n & -> & Hn & Hpos). apply Z.leb_gt. lia.
Qed.

Lemma one_turn_ok c s r p :
  zlen c < 2 ^ 62 -> 0 <= sd_offset s <= zlen c -> drop (Z.to_nat (sd_offset s)) c = r ->
  bytes_ok r -> bytes_ok p -> sd_inv s p -> turn_ok s p r (one_turn s c).
Proof.
  intros Hlen Ho Hr Hbr Hbp Hi. pose proof (turns_length c s _ Hlen Ho Hr) as Hl.
  unfold one_turn. destruct (Z.geb_spec (sd_offset s) (zlen c)).
  - destruct r; [| cbn in Hl; lia]. split; [easy |].
    apply found_more; rewrite app_nil_r; eauto using sd_inv_no_element.
  - assert (r <> []) by (intros ->; cbn in Hl; lia).
    destruct (sd_st s) eqn:Hst;
      auto using turn_READ_TYPE_ok, turn_READ_TYPE_BYTES_ok, turn_READ_LENGTH_ok,
        turn_READ_LENGTH_BYTES_ok, turn_READ_VALUE_BYTES_ok.
Qed.

Lemma found_after p a o r s :
  found (p ++ a) (o + zlen a) r s -> found p o (a ++ r) s.
Proof.
  intros [Hb Hf]. split; [easy |]. rewrite app_assoc. destruct (has_element _); [| easy].
  destruct Hf as (Hg & Hs & Ho). rewrite !length_app in *. repeat split; auto; try lia.
  rewrite Hs. f_equal. lia.
Qed.

Lemma find_loop_ok fuel c s r p :
  (rank (sd_st s) < fuel)%nat ->
  zlen c < 2 ^ 62 -> 0 <= sd_offset s <= zlen c -> drop (Z.to_nat (sd_offset s)) c = r ->
  bytes_ok r -> bytes_ok p -> sd_inv s p ->
  exists s', find_loop fuel s c = (Ok tt, s') /\ found p (sd_offset s) r s'.
Proof.
  revert s r p. induction fuel as [| fuel IH]; intros s r p Hrank Hlen Ho Hr Hbr Hbp Hi; [lia |].
  cbn [find_loop]. pose proof (one_turn_ok c s r p Hlen Ho Hr Hbr Hbp Hi) as Hturn.
  pose proof (turns_length c s _ Hlen Ho Hr) as Hl.
  destruct (one_turn s c) as [s' | res s'].
  - destruct Hturn as (a & u & Ha & Hpos & Hoff & Hi' & Hrk). rewrite Ha, length_app in Hl.
    rewrite Ha in Hbr. apply Forall_app in Hbr as [Hba Hbu].
    destruct (IH s' u (p ++ a)) as (s'' & Hrun & Hf); auto; try lia.
    + rewrite Hoff, Z2Nat.inj_add, Nat2Z.id by lia.
      rewrite <- drop_drop, Hr, Ha. apply drop_app_length.
    + apply Forall_app; auto.
    + exists s''. split; [easy |]. rewrite Ha. apply found_after. now rewrite <- Hoff.
  - destruct Hturn as [-> Hf]. eauto.
Qed.

(** [findElementEnd] on the next piece of a stream. *)
Lemma findElementEnd_ok s c p :
  zlen c < 2 ^ 62 -> bytes_ok c -> bytes_ok p -> sd_inv s p ->
  exists s', findElementEnd (sd_seek s 0) c = (Ok tt, s') /\ found p 0 c s'.
Proof.
  intros Hlen Hc Hp Hi. unfold findElementEnd.
  assert (Hg : gotElementEnd (sd_seek s 0) = false) by apply Hi. rewrite Hg.
  apply (find_loop_ok 5 c (sd_seek s 0) c p); auto.
  - cbn. destruct (sd_st s); cbn; lia.
  - cbn. lia.
Qed.

(** ** The reader *)

Lemma copy_ok self v off m :
  m = off + zlen v -> 0 <= off <= zlen (array self) -> m < 2 ^ 63 -> has_room self m ->
  exists self', copy self v off = Ok self' /\
    take (Z.to_nat m) (array self') = take (Z.to_nat off) (array self) ++ v /\
    realloc self' = realloc self /\ m <= zlen (array self') /\
    zlen (array self) <= zlen (array self').
Proof.
  intros -> Ho Hm Hroom. unfold copy. rewrite wrap64_small, (Z.add_comm (zlen v)) by lia.
  destruct (ensureLength_ok self (off + zlen v)) as (out & Hout & Hcap & Hre & Ht); [lia | easy |].
  rewrite Hout. cbn. eexists. split; [reflexivity |].
  assert (Hmono : (length (array self) <= length (array out))%nat)
    by (rewrite <- Ht at 1; rewrite length_take; lia).
  cbn. rewrite length_memcpy_at by lia. repeat split; auto; try lia.
  rewrite take_memcpy_at by lia. f_equal. rewrite <- Ht, take_take. f_equal. lia.
Qed.

(** The reader has received the bytes [p] of an element that has not ended. *)
Record reader_inv (self : ElementReader) (p : list Z) : Prop := {
  ri_listener : hasListener self = true;
  ri_raw : readRawPackets self = false;
  ri_sd : sd_inv (tlvStructureDecoder self) p;
  ri_bytes : bytes_ok p;
  ri_use : usePartialData self = negb (bool_decide (p = []));
  ri_noerr : usePartialData self = true -> gotPartialDataError self = false;
  ri_len : usePartialData self = true -> partialDataLength self = zlen p;
  ri_fits : usePartialData self = true -> zlen p <= zlen (array (partialData self));
  ri_data : usePartialData self = true ->
    take (length p) (array (partialData self)) = p;
  ri_room : has_room (partialData self) MAX_NDN_PACKET_SIZE
}.

(** One TLV element. *)
Definition is_element (e : list Z) : Prop := element_size e = Some (zlen e).

Lemma is_element_pos e : is_element e -> 0 < zlen e.
Proof. destruct e; [discriminate |]. cbn [length]. lia. Qed.

Lemma is_element_has e t : is_element e -> has_element (e ++ t) = true.
Proof.
  intros He. unfold has_element. rewrite (element_size_app e t (zlen e) He), length_app.
  apply Z.leb_le. lia.
Qed.

Lemma prefix_no_element e l t :
  is_element e -> e = l ++ t -> t <> [] -> has_element l = false.
Proof.
  intros He -> Ht. unfold has_element. destruct (element_size l) as [n |] eqn:Hn; [| easy].
  pose proof (element_size_app _ t _ Hn) as Hn'. unfold is_element in He.
  rewrite He, length_app in Hn'. injection Hn' as <-. apply Z.leb_gt.
  destruct t; [easy |]. cbn [length]. lia.
Qed.

Lemma sd_inv_reset s : length (headerBuffer s) = 8%nat -> sd_inv (StructureDecoder_reset s) [].
Proof. intros. split; [easy |]. split; [easy |]. cbn. easy. Qed.

Lemma reader_inv_initial self :
  hasListener self = true -> readRawPackets self = false -> usePartialData self = false ->
  sd_inv (tlvStructureDecoder self) [] -> has_room (partialData self) MAX_NDN_PACKET_SIZE ->
  reader_inv self [].
Proof. intros Hl Hr Hu Hi Hroom. split; auto; rewrite Hu; easy. Qed.

Lemma take_element_ok self p a rest :
  reader_inv self p -> zlen (p ++ a) <= MAX_NDN_PACKET_SIZE ->
  exists dst len, take_element self (a ++ rest) (zlen a) = Ok (Some (p ++ a), dst, len) /\
    has_room dst MAX_NDN_PACKET_SIZE.
Proof.
  intros Hinv Hmax. pose proof (ri_use _ _ Hinv) as Huse. unfold take_element.
  assert (Hsub : sub_bytes (a ++ rest) 0 (zlen a) = a)
    by (unfold sub_bytes; rewrite Nat2Z.id; apply take_app_length).
  rewrite Hsub. rewrite length_app in Hmax. pose proof (ri_room _ _ Hinv) as Hroom.
  destruct (usePartialData self) eqn:Hu.
  - rewrite (ri_noerr _ _ Hinv), (ri_len _ _ Hinv) by easy.
    destruct (copy_ok (partialData self) a (zlen p) (zlen p + zlen a))
      as (dst & -> & Htake & Hre & Hcap & Hmono); auto.
    { pose proof (ri_fits _ _ Hinv Hu). lia. }
    { unfold MAX_NDN_PACKET_SIZE in *. lia. }
    { eapply has_room_le; [eassumption | lia]. }
    eexists _, _. cbn. split.
    + rewrite Htake, Nat2Z.id, (ri_data _ _ Hinv) by easy. easy.
    + destruct Hroom as [? | ?]; [left; lia | right; congruence].
  - destruct (decide (p = [])) as [-> |].
    + eexists _, _. split; [reflexivity | easy].
    + rewrite bool_decide_eq_false_2 in Huse by easy. discriminate.
Qed.

Lemma save_partial_ok self p sd data :
  reader_inv self p -> sd_inv sd (p ++ data) -> bytes_ok data -> p ++ data <> [] ->
  zlen (p ++ data) <= MAX_NDN_PACKET_SIZE ->
  exists self', save_partial self sd data = (Ok tt, [], self') /\ reader_inv self' (p ++ data).
Proof.
  intros Hinv Hsd Hb Hne Hmax. pose proof (ri_room _ _ Hinv) as Hroom. unfold save_partial.
  assert (Hst : (if usePartialData self
                 then (gotPartialDataError self, partialDataLength self) else (false, 0))
                = (false, zlen p) /\ zlen p <= zlen (array (partialData self)) /\
                take (length p) (array (partialData self)) = p).
  { pose proof (ri_use _ _ Hinv) as Huse. destruct (usePartialData self) eqn:Hu.
    - rewrite (ri_noerr _ _ Hinv), (ri_len _ _ Hinv) by easy.
      split; [easy |]. split; [now apply (ri_fits _ _ Hinv) | now apply (ri_data _ _ Hinv)].
    - destruct (decide (p = [])) as [-> |]; [cbn; split; [easy | split; [lia | easy]] |].
      rewrite bool_decide_eq_false_2 in Huse by easy. discriminate. }
  destruct Hst as (-> & Hfit & Hp). rewrite length_app in Hmax.
  destruct (Z.gtb_spec (zlen p + zlen data) MAX_NDN_PACKET_SIZE); [lia |].
  destruct (copy_ok (partialData self) data (zlen p) (zlen p + zlen data))
    as (dst & -> & Htake & Hre & Hcap & Hmono); auto; try lia.
  { unfold MAX_NDN_PACKET_SIZE in *. lia. }
  { eapply has_room_le; [eassumption | lia]. }
  eexists. split; [reflexivity |]. destruct Hinv. split; cbn; auto.
  - apply Forall_app; auto.
  - now rewrite bool_decide_eq_false_2.
  - intros _. rewrite length_app. lia.
  - intros _. rewrite length_app. lia.
  - intros _. replace (length (p ++ data)) with (Z.to_nat (zlen p + zlen data))
      by (rewrite length_app; lia). now rewrite Htake, Nat2Z.id, Hp.
  - destruct Hroom as [? | ?]; [left; lia | right; congruence].
Qed.

(** The end of the first element, from what [findElementEnd] reports. *)
Lemma found_element p data e t s :
  found p 0 data s -> has_element p = false -> is_element e -> p ++ data = e ++ t ->
  gotElementEnd s = true /\ length (headerBuffer s) = 8%nat /\
  exists a, e = p ++ a /\ data = a ++ t /\ sd_offset s = zlen a.
Proof.
  intros [Hb Hf] Hp He Heq. rewrite Heq, is_element_has in Hf by easy.
  destruct Hf as (Hg & Hs & Ho & Hle). rewrite (element_size_app _ _ _ He) in Hs.
  assert (Hs' : zlen e = zlen p + (sd_offset s - 0)) by congruence.
  split; [easy |]. split; [easy |]. exists (take (Z.to_nat (sd_offset s)) data).
  set (a := take (Z.to_nat (sd_offset s)) data).
  assert (Ha : zlen a = sd_offset s) by (unfold a; rewrite length_take; lia).
  assert (Hd : data = a ++ drop (Z.to_nat (sd_offset s)) data) by (unfold a; now rewrite take_drop).
  rewrite Hd, app_assoc in Heq. apply app_inj_1 in Heq as [He1 Ht].
  - split; [easy |]. split; [now rewrite <- Ht |]. easy.
  - rewrite length_app. lia.
Qed.

Lemma concat_elements_nil es l :
  Forall is_element es -> concat es ++ l = [] -> es = [] /\ l = [].
Proof.
  intros Hes Heq. apply app_nil in Heq as [Hc ->]. split; [| easy].
  destruct es as [| e es]; [easy |]. inversion Hes as [| ? ? He]; subst.
  pose proof (is_element_pos e He). cbn in Hc. apply app_nil in Hc as [-> _]. easy.
Qed.

Lemma receive_loop_ok fuel self p data es l :
  reader_inv self p -> bytes_ok data -> zlen data < 2 ^ 62 ->
  p ++ data = concat es ++ l -> Forall is_element es ->
  Forall (fun e => zlen e <= MAX_NDN_PACKET_SIZE) es ->
  has_element l = false -> zlen l <= MAX_NDN_PACKET_SIZE -> (length data < fuel)%nat ->
  exists self', receive_loop fuel self data = (Ok tt, es, self') /\ reader_inv self' l.
Proof.
  revert self p data es. induction fuel as [| fuel IH];
    intros self p data es Hinv Hb Hlen Heq Hes Hmax Hl Hlmax Hfuel; [lia |].
  cbn [receive_loop].
  destruct (negb (usePartialData self) && (zlen data <=? 0)) eqn:Hidle.
  { apply andb_true_iff in Hidle as [Hu H0]. apply Z.leb_le in H0.
    pose proof (ri_use _ _ Hinv) as Huse. destruct (usePartialData self); [easy |].
    destruct data; [| cbn in H0; lia]. destruct (decide (p = [])) as [-> |].
    - symmetry in Heq. apply concat_elements_nil in Heq as [-> ->]; eauto.
    - rewrite bool_decide_eq_false_2 in Huse by easy. discriminate. }
  pose proof (sd_inv_no_element _ _ (ri_sd _ _ Hinv)) as Hp.
  destruct (findElementEnd_ok _ data p Hlen Hb (ri_bytes _ _ Hinv) (ri_sd _ _ Hinv))
    as (sd & -> & Hfound).
  destruct es as [| e es].
  - cbn in Heq. destruct Hfound as [_ Hf]. rewrite Heq, Hl in Hf.
    pose proof Hf as (Hg & _). rewrite Hg. rewrite <- Heq in *.
    apply save_partial_ok; auto. intros Hnil. apply app_nil in Hnil as [-> ->].
    rewrite (ri_use _ _ Hinv) in Hidle. discriminate.
  - inversion Hes as [| ? ? He Hes']; subst. inversion Hmax as [| ? ? Hm Hmax']; subst.
    cbn in Heq. rewrite <- app_assoc in Heq.
    destruct (found_element _ _ _ _ _ Hfound Hp He Heq) as (Hg & Hbuf & a & -> & -> & Hoff).
    rewrite Hg, (ri_listener _ _ Hinv), Hoff. cbn [negb].
    destruct (take_element_ok self p a (concat es ++ l) Hinv Hm) as (dst & len & -> & Hroom).
    rewrite Nat2Z.id, drop_app_length.
    set (self1 := set_partial self (StructureDecoder_reset sd) false
                    (gotPartialDataError self) dst len).
    assert (Hinv1 : reader_inv self1 []).
    { apply reader_inv_initial; [apply Hinv | apply Hinv | easy | | easy].
      now apply sd_inv_reset. }
    destruct (Z.eqb_spec (zlen (concat es ++ l)) 0) as [H0 | H0].
    + destruct (concat_elements_nil es l) as [-> ->]; [easy | | eauto].
      destruct (concat es ++ l); [easy | cbn in H0; lia].
    + assert (Ha : (0 < length a)%nat).
      { destruct a; [| cbn; lia]. rewrite app_nil_r in He.
        pose proof (is_element_has p [] He) as Hh. rewrite app_nil_r in Hh. congruence. }
      rewrite length_app in Hfuel, Hlen. apply Forall_app in Hb as [_ Hb].
      destruct (IH self1 [] (concat es ++ l) es) as (self2 & -> & Hinv2); auto; try lia.
      exists self2. easy.
Qed.

(** A prefix of a sequence of elements is some of the elements and a piece of the next one. *)
Lemma split_elements es q rest :
  Forall is_element es -> q ++ rest = concat es ->
  exists es1 es2 l, es = es1 ++ es2 /\ q = concat es1 ++ l /\ l ++ rest = concat es2 /\
    (l = [] \/ exists e t es3, es2 = e :: es3 /\ e = l ++ t /\ t <> []).
Proof.
  revert q. induction es as [| e es IH]; intros q Hes Heq.
  - cbn in Heq. apply app_nil in Heq as [-> ->]. exists [], [], []. cbn. auto.
  - inversion Hes as [| ? ? He Hes']; subst. cbn in Heq.
    destruct (decide (length q < length e)%nat) as [Hlt | Hge].
    + assert (Hq : q = take (length q) e).
      { apply (f_equal (take (length q))) in Heq.
        rewrite take_app_length, take_app_le in Heq by lia. easy. }
      exists [], (e :: es), q. cbn. split; [easy |]. split; [easy |]. split; [easy |]. right.
      exists e, (drop (length q) e), es. split; [easy |].
      split; [rewrite Hq at 1; now rewrite take_drop |].
      intros Hn. apply (f_equal length) in Hn. rewrite length_drop in Hn. cbn in Hn. lia.
    + assert (Hq : q = e ++ drop (length e) q).
      { rewrite <- (take_drop (length e) q) at 1. f_equal.
        apply (f_equal (take (length e))) in Heq.
        rewrite take_app_length, take_app_le in Heq by lia. easy. }
      rewrite Hq, <- app_assoc in Heq. apply app_inv_head in Heq.
      destruct (IH _ Hes' Heq) as (es1 & es2 & l & -> & Hl & Hrest & Hor).
      exists (e :: es1), es2, l. cbn. rewrite Hq, Hl, app_assoc. auto.
Qed.

Lemma has_element_nil : has_element [] = false.
Proof. easy. Qed.

Lemma receive_all_ok chunks self p es :
  reader_inv self p -> bytes_ok (concat chunks) ->
  Forall (fun c => zlen c < 2 ^ 62) chunks ->
  p ++ concat chunks = concat es -> Forall is_element es ->
  Forall (fun e => zlen e <= MAX_NDN_PACKET_SIZE) es ->
  exists self', receive_all self chunks = (Ok tt, es, self') /\ reader_inv self' [].
Proof.
  revert self p es. induction chunks as [| c cs IH]; intros self p es Hinv Hb Hlen Heq Hes Hmax.
  - cbn in *. rewrite app_nil_r in Heq. destruct es as [| e es].
    + cbn in Heq. subst p. eauto.
    + inversion Hes as [| ? ? He]; subst.
      pose proof (sd_inv_no_element _ _ (ri_sd _ _ Hinv)) as Hp.
      cbn in *. now rewrite is_element_has in Hp.
  - cbn in Heq, Hb. rewrite app_assoc in Heq.
    destruct (split_elements es _ _ Hes Heq) as (es1 & es2 & l & -> & Hpc & Hrest & Hor).
    apply Forall_app in Hes as [Hes1 Hes2]. apply Forall_app in Hmax as [Hmax1 Hmax2].
    apply Forall_app in Hb as [Hbc Hbcs]. inversion Hlen as [| ? ? Hlc Hlcs]; subst.
    assert (Hl : has_element l = false /\ zlen l <= MAX_NDN_PACKET_SIZE).
    { destruct Hor as [-> | (e & t & es3 & -> & -> & Ht)]; [easy |].
      inversion Hes2 as [| ? ? He]; subst. inversion Hmax2 as [| ? ? Hm]; subst.
      rewrite length_app in Hm. split; [exact (prefix_no_element _ _ _ He eq_refl Ht) | lia]. }
    cbn [receive_all]. unfold onReceivedData. rewrite (ri_raw _ _ Hinv).
    destruct Hl as [Hl Hlmax].
    destruct (receive_loop_ok (S (length c)) self p c es1 l) as (self1 & -> & Hinv1);
      auto with lia.
    destruct (IH self1 l es2) as (self2 & -> & Hinv2); auto. eauto.
Qed.

(** The header of a block, as the structure decoder reads it. *)
Lemma varNumber_bytes_head v : 0 <= v < 2 ^ 64 ->
  exists b t, varNumber_bytes v = b :: t /\ zlen (b :: t) = varNumber_size b /\
    forall rest, varNumber_value (b :: t ++ rest) = v.
Proof.
  intros Hv. unfold varNumber_bytes.
  destruct (Z.ltb_spec v 253) as [Hs |].
  { exists v, []. unfold varNumber_size, varNumber_value.
    destruct (Z.ltb_spec v 253); [easy | lia]. }
  destruct (Z.leb_spec v 0xffff); [| destruct (Z.leb_spec v 0xffffffff)]; eexists _, _;
    (split; [reflexivity |]; split; [easy |]); intros rest;
    rewrite varNumber_value_extended by easy; apply be_decode_encode_small; lia.
Qed.

Lemma is_element_tlv type value :
  0 <= type < 2 ^ 64 -> zlen value < 2 ^ 64 -> is_element (tlv_bytes type value).
Proof.
  intros Ht Hv. unfold is_element, tlv_bytes.
  destruct (varNumber_bytes_head type Ht) as (b & u & -> & Hb & _).
  destruct (varNumber_bytes_head (zlen value) ltac:(lia)) as (c & w & -> & Hc & Hval).
  change ((c :: w) ++ value) with (c :: w ++ value). rewrite element_size_type.
  - rewrite Hval, <- Hc. f_equal. rewrite !length_app. cbn [length].
    rewrite ?length_app. lia.
  - exists b, u. easy.
  - rewrite length_app. cbn [length] in Hc. lia.
Qed.

(** ** Properties *)

(** C3: chunks. A stream of TLV elements, each of at most [MAX_NDN_PACKET_SIZE] bytes, can arrive
    in pieces of any sizes: the listener gets exactly the elements, whole and in order, no call
    fails, and the reader is ready for the next element. *)
Theorem stream_delivered (rd : ElementReader) (chunks es : list (list Z)) :
  hasListener rd = true -> readRawPackets rd = false -> usePartialData rd = false ->
  length (headerBuffer (tlvStructureDecoder rd)) = 8%nat ->
  has_room (partialData rd) MAX_NDN_PACKET_SIZE ->
  Forall is_element es -> Forall (fun e => zlen e <= MAX_NDN_PACKET_SIZE) es ->
  concat chunks = concat es -> bytes_ok (concat es) ->
  Forall (fun c => zlen c < 2 ^ 62) chunks ->
  exists rd', receive_all (ElementReader_reset rd true) chunks = (Ok tt, es, rd') /\
    usePartialData rd' = false.
Proof.
  intros Hl Hraw Hu Hbuf Hroom Hes Hmax Heq Hb Hlen.
  destruct (receive_all_ok chunks (ElementReader_reset rd true) [] es) as (rd' & Hrun & Hinv).
  - apply reader_inv_initial; auto. now apply sd_inv_reset.
  - now rewrite Heq.
  - easy.
  - easy.
  - easy.
  - easy.
  - exists rd'. split; [easy |]. now rewrite (ri_use _ _ Hinv).
Qed.

(** C40: an element that does not fit. When the pieces of an unfinished element exceed the maximum
    packet size, the call reports it, delivers nothing, and the reader is ready for a new
    element. *)
Theorem oversize_rejected (rd : ElementReader) (p c : list Z) :
  reader_inv rd p -> bytes_ok c -> zlen c < 2 ^ 62 -> has_element (p ++ c) = false ->
  MAX_NDN_PACKET_SIZE < zlen (p ++ c) ->
  exists rd', onReceivedData rd c =
    (Err (Error NDN_ERROR_ElementReader_The_incoming_packet_exceeds_the_maximum_limit_getMaxNdnPacketSize),
     [], rd') /\ reader_inv rd' [].
Proof.
  intros Hinv Hb Hlen Hno Hbig. unfold onReceivedData. rewrite (ri_raw _ _ Hinv).
  cbn [receive_loop]. rewrite length_app in Hbig. unfold MAX_NDN_PACKET_SIZE in Hbig.
  destruct (findElementEnd_ok _ c p Hlen Hb (ri_bytes _ _ Hinv) (ri_sd _ _ Hinv))
    as (sd & -> & _ & Hf). rewrite Hno in Hf. pose proof Hf as (Hg & Hbuf & _). rewrite Hg.
  pose proof (ri_use _ _ Hinv) as Huse. unfold save_partial, MAX_NDN_PACKET_SIZE.
  assert (Hready : forall len, reader_inv
            (set_partial rd (StructureDecoder_reset sd) false false (partialData rd) len) []).
  { intros len. apply reader_inv_initial; [apply Hinv | apply Hinv | easy | | apply Hinv].
    now apply sd_inv_reset. }
  destruct (usePartialData rd) eqn:Hu; cbn [negb andb].
  - rewrite (ri_noerr _ _ Hinv), (ri_len _ _ Hinv) by easy.
    destruct (Z.gtb_spec (zlen p + zlen c) 8800); [eauto | lia].
  - destruct (decide (p = [])) as [-> | Hne]; [| now rewrite bool_decide_eq_false_2 in Huse].
    cbn [length] in Hbig. destruct (Z.leb_spec (zlen c) 0); [lia |].
    destruct (Z.gtb_spec (0 + zlen c) 8800); [eauto | lia].
Qed.

(** ** Witnesses *)

(** A new reader with a listener and a growing buffer. *)
Definition new_reader : ElementReader :=
  ElementReader_initialize
    (mkReader false false (StructureDecoder_initialize (replicate 8 0) 0) false false
       (DynamicUInt8Vector 0) 0) true (DynamicUInt8Vector 1000) false.

Lemma stream_delivered_witness :
  exists rd', receive_all (ElementReader_reset new_reader true) [[7]; [1; 97; 7]; [0]]
    = (Ok tt, [[7; 1; 97]; [7; 0]], rd').
Proof.
  destruct (stream_delivered new_reader [[7]; [1; 97; 7]; [0]] [[7; 1; 97]; [7; 0]])
    as (rd' & Hr & _); try reflexivity.
  - right. apply vector_grows.
  - repeat constructor.
  - repeat constructor; cbn; unfold MAX_NDN_PACKET_SIZE; lia.
  - repeat constructor; lia.
  - repeat constructor; cbn; lia.
  - exists rd'. exact Hr.
Defined.

Lemma oversize_rejected_witness :
  exists rd', (onReceivedData new_reader ([7; 253; 255; 255] ++ replicate 8800 0)).2 = rd' /\
    reader_inv rd' [].
Proof.
  destruct (oversize_rejected new_reader [] ([7; 253; 255; 255] ++ replicate 8800 0))
    as (rd' & Hr & Hi).
  - apply reader_inv_initial; try reflexivity; [| right; apply vector_grows].
    now apply sd_inv_reset.
  - apply bytes_ok_app. split; [repeat constructor; lia |]. apply Forall_replicate. unfold is_byte. lia.
  - vm_compute. reflexivity.
  - vm_compute. reflexivity.
  - vm_compute. reflexivity.
  - exists rd'. split; [now rewrite Hr | exact Hi].
Defined.
