(* ===== verification/Blocks.v ===== *)
(** * Reading and writing sequences of blocks

    The packets of NDN are nested sequences of TLV blocks. [Reads] is the specification of a
    decoder function over the blocks that are left in the enclosing block, the counterpart of
    [Emits] for the encoder, with one lemma for each reader of Decoder.v; [EmitsOut] extends
    [Emits] to the encoder functions that also return offsets. *)

From stdpp Require Import base list numbers option.
From Stdlib Require Import ZArith Lia.
From S2P Require Import Prelude Encoder Decoder.
Open Scope Z_scope.

(** ** Blocks *)

(** A block is its type and the bytes of its value. *)
Abbreviation Block := (Z * list Z)%type.

Definition blocks_bytes (bs : list Block) : list Z := concat (map block_bytes bs).

Definition nni_block (t v : Z) : Block := (t, nonNegativeInteger_bytes v).

Lemma blocks_bytes_app a b : blocks_bytes (a ++ b) = blocks_bytes a ++ blocks_bytes b.
Proof. unfold blocks_bytes. now rewrite map_app, concat_app. Qed.

Lemma blocks_bytes_cons b bs : blocks_bytes (b :: bs) = tlv_bytes b.1 b.2 ++ blocks_bytes bs.
Proof. easy. Qed.

Definition type_ok (b : Block) : Prop := 0 <= b.1 < 2 ^ 64.

(** ** Reading *)

(** The decoder is before the blocks [bs] that end the enclosing block. *)
Record At (d : Decoder) (endOffset : Z) (bs : list Block) (rest : list Z) : Prop := {
  at_ok : dec_ok d;
  at_types : Forall type_ok bs;
  at_remaining : remaining d = blocks_bytes bs ++ rest;
  at_end : endOffset = d_offset d + zlen (blocks_bytes bs)
}.

(** On a decoder before the blocks [bs], [m] gives [a] and stops before the blocks [bs']. *)
Definition Reads {A} (m : Dec A) (a : A) (endOffset : Z) (bs bs' : list Block) : Prop :=
  forall d rest, At d endOffset bs rest ->
  exists d', m d = Ok (a, d') /\ At d' endOffset bs' rest /\ input d' = input d.

Create HintDb reads.

Lemma at_next d e b bs rest :
  At d e (b :: bs) rest -> At (adv d (zlen (tlv_bytes b.1 b.2))) e bs rest.
Proof.
  intros [Hd Ht Hr He]. rewrite blocks_bytes_cons, <- app_assoc in Hr.
  destruct (adv_ok _ _ _ Hd Hr) as [Hd1 Hr1]. split; [easy | | easy |].
  - exact (List.Forall_inv_tail Ht).
  - rewrite blocks_bytes_cons, length_app in He. cbn. lia.
Qed.

Lemma at_block d e b bs rest :
  At d e (b :: bs) rest -> type_ok b /\ remaining d = tlv_bytes b.1 b.2 ++ blocks_bytes bs ++ rest.
Proof.
  intros [_ Ht Hr _]. split; [exact (List.Forall_inv Ht) |]. now rewrite blocks_bytes_cons, <- app_assoc in Hr.
Qed.

Lemma at_not_end d e b bs rest : At d e (b :: bs) rest -> d_offset d < e.
Proof.
  intros [_ _ _ ->]. rewrite blocks_bytes_cons, length_app. pose proof (zlen_block_bytes b).
  unfold block_bytes in *. lia.
Qed.

Lemma reads_ret {A} (a : A) e bs : Reads (mret a) a e bs bs.
Proof. intros d rest H. now exists d. Qed.

Lemma reads_bind {A B} (m : Dec A) (f : A -> Dec B) a b e bs bs1 bs2 :
  Reads m a e bs bs1 -> Reads (f a) b e bs1 bs2 -> Reads (m ≫= f) b e bs bs2.
Proof.
  intros Hm Hf d rest Hd. destruct (Hm d rest Hd) as (d1 & H1 & Hd1 & Hi1).
  destruct (Hf d1 rest Hd1) as (d2 & H2 & Hd2 & Hi2).
  exists d2. rewrite (dec_bind_ok _ _ _ _ _ H1). split; [easy |]. split; [easy | congruence].
Qed.

(** The blob a slice stands for. *)
Definition get_blob (s : Slice) : Dec (list Z) := fun d =>
  match slice_bytes (input d) s with Ok bs => Ok (bs, d) | Err e => Err e end.

Definition is_null (s : Slice) : bool := match s_value s with None => true | Some _ => false end.

(** [readBlobTlv], and the bytes its slice points to. *)
Definition readBlob (expectedType : Z) : Dec (list Z) :=
  s ← readBlobTlv expectedType; get_blob s.

(** The same for an optional blob; a null pointer is [None]. *)
Definition readOptionalBlob (expectedType endOffset : Z) : Dec (option (list Z)) :=
  s ← readOptionalBlobTlv expectedType endOffset;
  if is_null s then mret None else bs ← get_blob s; mret (Some bs).

Lemma reads_blob t v e bs : Reads (readBlob t) v e ((t, v) :: bs) bs.
Proof.
  intros d rest Hd. destruct (at_block _ _ _ _ _ Hd) as [Ht Hr]. pose proof (at_ok _ _ _ _ Hd) as Ho.
  eexists. split; [| split; [exact (at_next _ _ _ _ _ Hd) | easy]].
  unfold readBlob. rewrite (dec_bind_ok _ _ _ _ _ (readBlobTlv_at d t v _ Ho Ht Hr)).
  unfold get_blob. cbn [adv input fst snd] in *. now rewrite (slice_bytes_at d t v _ Ho Ht Hr).
Qed.

Lemma reads_nni t v e bs :
  0 <= v < 2 ^ 64 -> Reads (readNonNegativeIntegerTlv t) v e (nni_block t v :: bs) bs.
Proof.
  intros Hv d rest Hd. destruct (at_block _ _ _ _ _ Hd) as [Ht Hr].
  eexists. split; [| split; [exact (at_next _ _ _ _ _ Hd) | easy]].
  exact (readNonNegativeIntegerTlv_at _ _ _ _ (at_ok _ _ _ _ Hd) Ht Hv Hr).
Qed.

Lemma reads_peek t e bs :
  Reads (peekType t e) (match bs with b :: _ => b.1 =? t | [] => false end) e bs bs.
Proof.
  intros d rest Hd. exists d. split; [| easy]. destruct bs as [| b bs].
  - apply peekType_end. destruct Hd as [_ _ _ ->]. cbn. lia.
  - destruct (at_block _ _ _ _ _ Hd) as [Ht Hr].
    exact (peekType_at _ _ _ _ (at_ok _ _ _ _ Hd) Ht Hr t e (at_not_end _ _ _ _ _ Hd)).
Qed.

(** The first block, if any, has another type. *)
Definition other_type (t : Z) (bs : list Block) : Prop :=
  match bs with b :: _ => b.1 <> t | [] => True end.

Lemma reads_peek_other t e bs : other_type t bs -> Reads (peekType t e) false e bs bs.
Proof.
  intros H. pose proof (reads_peek t e bs) as Hp. destruct bs as [| b bs]; [easy |].
  now rewrite (proj2 (Z.eqb_neq _ _) H) in Hp.
Qed.

Lemma reads_peek_same t v e bs : Reads (peekType t e) true e ((t, v) :: bs) ((t, v) :: bs).
Proof. pose proof (reads_peek t e ((t, v) :: bs)) as Hp. cbn in Hp. now rewrite Z.eqb_refl in Hp. Qed.

Lemma reads_optional_nni t v e bs :
  0 <= v < 2 ^ 31 ->
  Reads (readOptionalNonNegativeIntegerTlv t e) v e (nni_block t v :: bs) bs.
Proof.
  intros Hv. eapply reads_bind; [apply reads_peek_same |]. cbn.
  eapply reads_bind; [apply reads_nni; lia |]. cbn. rewrite to_int32_small by lia. apply reads_ret.
Qed.

Lemma reads_optional_nni_other t e bs :
  other_type t bs -> Reads (readOptionalNonNegativeIntegerTlv t e) (-1) e bs bs.
Proof. intros H. eapply reads_bind; [now apply reads_peek_other | apply reads_ret]. Qed.

Lemma reads_optional_blob t v e bs : Reads (readOptionalBlob t e) (Some v) e ((t, v) :: bs) bs.
Proof.
  intros d rest Hd. destruct (at_block _ _ _ _ _ Hd) as [Ht Hr]. pose proof (at_ok _ _ _ _ Hd) as Ho.
  eexists. split; [| split; [exact (at_next _ _ _ _ _ Hd) | easy]].
  unfold readOptionalBlob, readOptionalBlobTlv.
  pose proof (peekType_at _ _ _ _ Ho Ht Hr t e (at_not_end _ _ _ _ _ Hd)) as Hp.
  cbn [fst] in Hp. rewrite Z.eqb_refl in Hp. unfold mbind at 1, Dec_bind at 1.
  rewrite (dec_bind_ok _ _ _ _ _ Hp). cbn [negb].
  rewrite (readBlobTlv_at d t v _ Ho Ht Hr). cbn [is_null s_value].
  unfold mbind, Dec_bind, get_blob. cbn [adv input fst snd].
  now rewrite (slice_bytes_at d t v _ Ho Ht Hr).
Qed.

Lemma reads_optional_blob_other t e bs :
  other_type t bs -> Reads (readOptionalBlob t e) None e bs bs.
Proof.
  intros H. apply (reads_bind _ _ (mkSlice None 0) _ _ _ bs); [| apply reads_ret].
  eapply reads_bind; [now apply reads_peek_other | apply reads_ret].
Qed.

Lemma reads_boolean t v e bs : Reads (readBooleanTlv t e) true e ((t, v) :: bs) bs.
Proof.
  intros d rest Hd. destruct (at_block _ _ _ _ _ Hd) as [Ht Hr]. pose proof (at_ok _ _ _ _ Hd) as Ho.
  eexists. split; [| split; [exact (at_next _ _ _ _ _ Hd) | easy]].
  unfold readBooleanTlv.
  pose proof (peekType_at _ _ _ _ Ho Ht Hr t e (at_not_end _ _ _ _ _ Hd)) as Hp.
  cbn [fst] in Hp. rewrite Z.eqb_refl in Hp. rewrite (dec_bind_ok _ _ _ _ _ Hp). cbn [negb].
  destruct (at_block_header d t _ _ Ho Ht Hr) as (Hh & _). rewrite (dec_bind_ok _ _ _ _ _ Hh).
  now rewrite (dec_bind_ok _ _ _ _ _ (skip_bytes_at_value d t _ _ Ho Ht Hr)).
Qed.

Lemma reads_boolean_other t e bs : other_type t bs -> Reads (readBooleanTlv t e) false e bs bs.
Proof. intros H. eapply reads_bind; [now apply reads_peek_other | apply reads_ret]. Qed.

(** A nested TLV: its start, the reading of its value, its finish. *)
Definition nested {A} (t : Z) (body : Z -> Dec A) : Dec A :=
  endOffset ← readNestedTlvsStart t;
  a ← body endOffset;
  _ ← finishNestedTlvs endOffset;
  mret a.

Lemma at_inside d e t inner bs rest :
  At d e ((t, blocks_bytes inner) :: bs) rest -> Forall type_ok inner ->
  exists d1 e1, readNestedTlvsStart t d = Ok (e1, d1) /\
    At d1 e1 inner (blocks_bytes bs ++ rest) /\ input d1 = input d /\
    e1 = d_offset d + zlen (tlv_bytes t (blocks_bytes inner)) /\
    (forall d2, At d2 e1 [] (blocks_bytes bs ++ rest) -> At d2 e bs rest).
Proof.
  intros Hd Hi. destruct (at_block _ _ _ _ _ Hd) as [Ht Hr]. pose proof (at_ok _ _ _ _ Hd) as Ho.
  destruct (at_block_header d t _ _ Ho Ht Hr) as (_ & Hd1 & Hr1).
  do 2 eexists. split; [exact (readNestedTlvsStart_at _ _ _ _ Ho Ht Hr) |]. split; [| split].
  - split; [exact Hd1 | exact Hi | exact Hr1 |]. unfold adv. cbn [d_offset fst snd].
    rewrite zlen_tlv_header. lia.
  - easy.
  - split; [easy |]. intros d2 [Hd2 _ Hr2 He2]. cbn in Hr2, He2. split; [exact Hd2 | | exact Hr2 |].
    + exact (at_types _ _ _ _ (at_next _ _ _ _ _ Hd)).
    + pose proof (at_end _ _ _ _ Hd) as He. rewrite blocks_bytes_cons, length_app in He.
      cbn [fst snd] in He. lia.
Qed.

Lemma finish_at d e rest : At d e [] rest -> finishNestedTlvs e d = Ok (tt, d).
Proof.
  intros [_ _ _ ->]. unfold finishNestedTlvs. cbn. now rewrite Z.add_0_r, Z.eqb_refl.
Qed.

(** The offset of the end of the nested value is that of the blocks after it. *)
Lemma reads_nested_at {A} t (body : Z -> Dec A) f inner e bs :
  Forall type_ok inner -> (forall e1, Reads (body e1) (f e1) e1 inner []) ->
  Reads (nested t body) (f (e - zlen (blocks_bytes bs))) e ((t, blocks_bytes inner) :: bs) bs.
Proof.
  intros Hi Hb d rest Hd.
  destruct (at_inside _ _ _ _ _ _ Hd Hi) as (d1 & e1 & Hs & Hd1 & Hi1 & _ & Hout).
  destruct (Hb e1 d1 _ Hd1) as (d2 & Hb2 & Hd2 & Hi2). exists d2. unfold nested.
  rewrite (dec_bind_ok _ _ _ _ _ Hs), (dec_bind_ok _ _ _ _ _ Hb2).
  rewrite (dec_bind_ok _ _ _ _ _ (finish_at _ _ _ Hd2)). split; [| split; [now apply Hout | congruence]].
  pose proof (at_end _ _ _ _ Hd2) as He1. pose proof (at_end _ _ _ _ (Hout _ Hd2)) as He.
  cbn in He1. unfold mret, Dec_ret. repeat f_equal. lia.
Qed.

Lemma reads_nested {A} t (body : Z -> Dec A) a inner e bs :
  Forall type_ok inner -> (forall e1, Reads (body e1) a e1 inner []) ->
  Reads (nested t body) a e ((t, blocks_bytes inner) :: bs) bs.
Proof. intros Hi Hb. exact (reads_nested_at t body (fun _ => a) inner e bs Hi Hb). Qed.

Lemma reads_offset e bs : Reads get_offset (e - zlen (blocks_bytes bs)) e bs bs.
Proof.
  intros d rest Hd. exists d. split; [| easy]. unfold get_offset. rewrite (at_end _ _ _ _ Hd).
  repeat f_equal. lia.
Qed.

#[export] Hint Resolve reads_ret reads_blob reads_nni reads_optional_nni reads_optional_nni_other
  reads_optional_blob reads_optional_blob_other reads_boolean reads_boolean_other : reads.

(** A block between other bytes of a message. *)
Lemma at_decoder_at pre b rest :
  zlen (pre ++ block_bytes b ++ rest) < 2 ^ 63 -> type_ok b ->
  At (decoder_at pre (block_bytes b) rest) (zlen pre + zlen (block_bytes b)) [b] rest.
Proof.
  intros Hl Hb. destruct (decoder_at_ok _ _ _ Hl) as [Hd Hr]. split; [easy | apply List.Forall_cons; [exact Hb | apply List.Forall_nil] | |].
  - rewrite Hr. unfold blocks_bytes. cbn. now rewrite app_nil_r.
  - unfold blocks_bytes. cbn. rewrite app_nil_r. lia.
Qed.

Lemma reads_decoder_at {A} (m : Dec A) a pre b rest :
  zlen (pre ++ block_bytes b ++ rest) < 2 ^ 63 -> type_ok b ->
  Reads m a (zlen pre + zlen (block_bytes b)) [b] [] ->
  m (decoder_at pre (block_bytes b) rest)
  = Ok (a, mkDecoder (pre ++ block_bytes b ++ rest) (zlen pre + zlen (block_bytes b))).
Proof.
  intros Hl Hb Hm. destruct (Hm _ _ (at_decoder_at pre b rest Hl Hb)) as (d & -> & Hd & Hi).
  do 2 f_equal. pose proof (at_end _ _ _ _ Hd) as He. destruct d as [i o]. cbn in *. subst i.
  f_equal. lia.
Qed.

(** ** Writing with results

    The encoder functions for names and packets also return offsets through pointers. *)

Definition Out (A : Type) : Type := Encoder -> result ndn_Error (Encoder * A).

#[export] Instance Out_ret : MRet Out := fun _ a e => Ok (e, a).
#[export] Instance Out_bind : MBind Out := fun _ _ f w e =>
  match w e with Ok (e', a) => f a e' | Err err => Err err end.

Definition write (w : writer) : Out unit := fun e => e' ← w e; Ok (e', tt).
Definition get_encoder_offset : Out Z := fun e => Ok (e, offset e).
Definition write_error {A} (err : ndn_Error) : Out A := fun _ => Err err.

(** Forget the result. *)
Definition only {A} (w : Out A) : writer := fun e => '(e', _) ← w e; Ok e'.

(** [writeNestedTlv] with a context that [writeValue] returns results in: the last call of
    [writeValue] leaves its results there. *)
Definition writeNestedTlvOut {A} (type : Z) (writeValue : Out A) (omitZeroLength : bool) : Out A :=
  fun self =>
    let originalEnableOutput := enableOutput self in
    let saveOffset := offset self in
    '(self, a) ← writeValue (set_enableOutput false self);
    let valueLength := wrap64 (offset self - saveOffset) in
    if omitZeroLength && (valueLength =? 0) then
      Ok (set_enableOutput originalEnableOutput self, a)
    else if originalEnableOutput then
      self ← writeTypeAndLength type valueLength
               (mkEncoder (output self) saveOffset true);
      writeValue self
    else
      match writeTypeAndLength type valueLength self with
      | Ok self => Ok (self, a)
      | Err _ => Ok (self, a)
      end.

Lemma writeNestedTlvOut_only {A} type (w : Out A) omit e :
  only (writeNestedTlvOut type w omit) e = writeNestedTlv type (only w) omit e.
Proof.
  unfold only, writeNestedTlvOut, writeNestedTlv.
  destruct (w (set_enableOutput false e)) as [[e1 a] |]; cbn [mbind result_bind]; [| easy].
  destruct (_ && _); [easy |]. destruct (enableOutput e);
    match goal with |- context [writeTypeAndLength ?t ?n ?x] =>
      now destruct (writeTypeAndLength t n x) end.
Qed.

(** An encoder with room for [n] bytes before 2^63, whose buffer is fixed or can grow. *)
Record enc_ok (e : Encoder) (n : Z) : Prop := {
  enc_offset : 0 <= offset e;
  enc_bound : offset e + n < 2 ^ 63;
  enc_fits : enableOutput e = true -> offset e <= zlen (array (output e));
  enc_realloc : realloc (output e) = None \/ grows (realloc (output e))
}.

Lemma emits_ok w bs n e e' :
  Emits w bs -> enc_ok e (zlen bs + n) -> 0 <= n -> w e = Ok e' ->
  offset e' = offset e + zlen bs /\ enc_ok e' n /\ enableOutput e' = enableOutput e.
Proof.
  intros Hw [Ho Hb Hf Hr] Hn He. specialize (Hw e Ho ltac:(lia)).
  destruct (enableOutput e) eqn:Hon.
  - specialize (Hf eq_refl). destruct (Hw Hf) as [Hok Herr].
    assert (Hroom : has_room (output e) (offset e + zlen bs)).
    { destruct Hr as [Hr | Hr]; [| now right].
      destruct (Z_lt_le_dec (zlen (array (output e))) (offset e + zlen bs)) as [Hl | Hl]; [| now left].
      rewrite (Herr Hr Hl) in He. discriminate. }
    destruct (Hok Hroom) as (e1 & He1 & W). rewrite He1 in He. injection He as ->.
    pose proof (wrote_offset _ _ _ W). pose proof (wrote_fits _ _ _ W).
    split; [easy |]. split; [| now rewrite (wrote_enable _ _ _ W)].
    split; [lia | lia | easy | now rewrite (wrote_realloc _ _ _ W)].
  - rewrite Hw in He. injection He as <-. cbn. split; [easy |]. split; [| easy].
    split; cbn; auto; try lia.
Qed.

Lemma enc_ok_le e n m : enc_ok e n -> m <= n -> enc_ok e m.
Proof. intros [] ?. split; auto. lia. Qed.

(** With the output on, at the offset [o], where it emits [bs], [w] returns [a]. *)
Definition Returns {A} (o : Z) (w : Out A) (bs : list Z) (a : A) : Prop :=
  forall e e' a', offset e = o -> enableOutput e = true -> enc_ok e (zlen bs) ->
  w e = Ok (e', a') -> a' = a.

Lemma emits_bind {A B} (w : Out A) (k : A -> Out B) bs bs' :
  Emits (only w) bs -> (forall a, Emits (only (k a)) bs') -> Emits (only (w ≫= k)) (bs ++ bs').
Proof.
  intros Hw Hk e. destruct (w e) as [[e1 a] | err] eqn:He.
  - pose proof (emits_andThen _ _ _ _ Hw (Hk a) e) as H. unfold andThen, only, mbind, Out_bind in *.
    rewrite He in *. exact H.
  - pose proof (emits_andThen _ _ _ _ Hw (emits_writeArray bs') e) as H.
    unfold andThen, only, mbind, Out_bind in *. rewrite He in *. exact H.
Qed.

Lemma emits_write w bs : Emits w bs -> Emits (only (write w)) bs.
Proof.
  intros Hw e. specialize (Hw e). unfold only, write. now destruct (w e).
Qed.

Lemma emits_ret {A} (a : A) : Emits (only (mret a)) [].
Proof. exact emits_nothing. Qed.

Lemma emits_offset : Emits (only get_encoder_offset) [].
Proof. exact emits_nothing. Qed.

Lemma emits_nested_out {A} type (w : Out A) value omit :
  Emits (only w) value -> Emits (only (writeNestedTlvOut type w omit)) (nested_bytes type value omit).
Proof.
  intros Hw e. rewrite writeNestedTlvOut_only. now apply emits_writeNestedTlv.
Qed.

Lemma returns_bind {A B} o (w : Out A) (k : A -> Out B) bs bs' a b :
  Emits (only w) bs -> Returns o w bs a -> Returns (o + zlen bs) (k a) bs' b ->
  Returns o (w ≫= k) (bs ++ bs') b.
Proof.
  intros Hw Ha Hb e e' b' Ho Hon He. rewrite length_app in He. unfold mbind, Out_bind.
  destruct (w e) as [[e1 a1] |] eqn:H1; [| discriminate]. intros H2.
  assert (Honly : only w e = Ok e1) by (unfold only; now rewrite H1).
  assert (He' : enc_ok e (zlen bs + zlen bs')) by (apply (enc_ok_le _ _ _ He); lia).
  destruct (emits_ok _ _ _ _ _ Hw He' ltac:(lia) Honly) as (Ho1 & He1 & Hon1).
  rewrite (Ha e e1 a1 Ho Hon) in H2 by (easy || (apply (enc_ok_le _ _ _ He); lia)).
  apply (Hb e1 e' b'); congruence || easy.
Qed.

Lemma returns_ret {A} o (a : A) bs : Returns o (mret a) bs a.
Proof. intros e e' a' _ _ _. unfold mret, Out_ret. now intros [= _ <-]. Qed.

Lemma returns_write o w bs : Returns o (write w) bs tt.
Proof. intros e e' []. easy. Qed.

Lemma returns_offset o bs : Returns o get_encoder_offset bs o.
Proof. intros e e' a' <- _ _. now intros [= _ <-]. Qed.

(** The results of the second pass are those of the value at its place after the header. *)
Lemma returns_nested {A} o type (w : Out A) value a :
  Emits (only w) value -> Returns (o + header_size type (zlen value)) w value a ->
  Returns o (writeNestedTlvOut type w false) (tlv_bytes type value) a.
Proof.
  intros Hw Ha e e' a' Ho Hon He. unfold writeNestedTlvOut.
  assert (Hl : zlen (tlv_bytes type value) = header_size type (zlen value) + zlen value)
    by apply zlen_tlv_header.
  pose proof (zlen_varNumber_bytes type) as Hn1. pose proof (zlen_varNumber_bytes (zlen value)) as Hn2.
  pose proof He as [He0 Heb Hef Her]. unfold header_size in *.
  pose proof (Hw (set_enableOutput false e) He0 ltac:(cbn; lia)) as Hpass. cbn in Hpass.
  unfold only in Hpass. destruct (w (set_enableOutput false e)) as [[e1 a1] |]; [| discriminate].
  injection Hpass as ->. cbn [mbind result_bind offset output].
  rewrite wrap64_small by lia. replace (offset e + zlen value - offset e) with (zlen value) by lia.
  cbn [andb]. rewrite Hon.
  destruct (writeTypeAndLength _ _ _) as [e2 |] eqn:Htl; [| discriminate].
  cbn [mbind result_bind]. intros H2.
  assert (He' : enc_ok (mkEncoder (output e) (offset e) true)
    (zlen (varNumber_bytes type ++ varNumber_bytes (zlen value)) + zlen value)).
  { rewrite length_app. split; cbn; auto; lia. }
  destruct (emits_ok _ _ _ _ _ (emits_writeTypeAndLength type (zlen value)) He' ltac:(lia) Htl)
    as (Ho2 & He2 & Hon2). rewrite length_app in Ho2. cbn in Ho2, Hon2.
  apply (Ha e2 e' a'); congruence || easy || lia.
Qed.

Lemma emits_offset_bind {B} (k : Z -> Out B) bs :
  (forall o, Emits (only (k o)) bs) -> Emits (only (get_encoder_offset ≫= k)) bs.
Proof. intros H. rewrite <- (app_nil_l bs). now apply emits_bind; [apply emits_offset |]. Qed.

Lemma returns_offset_bind {B} o (k : Z -> Out B) bs b :
  Returns o (k o) bs b -> Returns o (get_encoder_offset ≫= k) bs b.
Proof.
  intros H. rewrite <- (app_nil_l bs). eapply returns_bind; [apply emits_offset | apply returns_offset |].
  now rewrite Z.add_0_r.
Qed.

(** The C++ [TlvEncoder] run of a writer with a result. *)
Definition run_out {A} (initialLength : Z) (w : Out A) : result ndn_Error (list Z * A) :=
  '(self, a) ← w (TlvEncoder_initialize (DynamicUInt8Vector initialLength));
  mret (finish (output self) (offset self), a).

Lemma run_out_ok {A} n (w : Out A) bs a :
  0 <= n < 2 ^ 63 -> Emits (only w) bs -> Returns 0 w bs a -> zlen bs < 2 ^ 63 ->
  run_out n w = Ok (bs, a).
Proof.
  intros Hn Hw Ha Hl. pose proof (TlvEncoder_run_emits n (only w) bs Hn Hw Hl) as H.
  unfold TlvEncoder_run, only in H. unfold run_out.
  destruct (w _) as [[e1 a1] |] eqn:H1; [| discriminate]. cbn in *. injection H as H.
  rewrite (Ha (TlvEncoder_initialize (DynamicUInt8Vector n)) e1 a1); [now rewrite H | easy | easy | | easy].
  split; cbn; try lia. right. exact (vector_grows n).
Qed.

#[export] Hint Resolve emits_bind emits_write emits_ret emits_offset emits_nested_out : emits.

(** ** Milliseconds

    The C structures hold a duration as a [double] in milliseconds that the C++ objects convert from
    and to nanoseconds. A duration is its nanoseconds here, and the arithmetic on it is exact. *)

(** [ndn_TlvEncoder_writeOptionalNonNegativeIntegerTlvFromDouble], with [round]. *)
Definition writeOptionalNonNegativeIntegerTlvFromDouble (type nanoseconds : Z) : writer :=
  if nanoseconds >=? 0 then writeNonNegativeIntegerTlv type ((nanoseconds + 500000) / 1000000)
  else fun self => Ok self.

(** [ndn_TlvDecoder_readOptionalNonNegativeIntegerTlvAsDouble]; -1 millisecond for an absent value. *)
Definition readOptionalNonNegativeIntegerTlvAsDouble (expectedType endOffset : Z) : Dec Z :=
  gotExpectedType ← peekType expectedType endOffset;
  if negb gotExpectedType then mret (-1000000)
  else
    unsignedValue ← readNonNegativeIntegerTlv expectedType;
    mret (unsignedValue * 1000000).

(** ** Optional blocks

    What the writers of optional fields put before the blocks [bs], and how they are read. *)

Definition opt_nni (t v : Z) : list Block := if v >=? 0 then [nni_block t v] else [].
Definition opt_double (t ns : Z) : list Block :=
  if ns >=? 0 then [nni_block t ((ns + 500000) / 1000000)] else [].
Definition opt_blob (t : Z) (v : option (list Z)) : list Block :=
  match v with Some (b :: bs) => [(t, b :: bs)] | _ => [] end.
Definition opt_flag (t : Z) (b : bool) : list Block := if b then [(t, [])] else [].

(** A blob on the wire that may be omitted is null or not empty. *)
Definition some_blob (v : option (list Z)) : option (list Z) :=
  match v with Some (b :: bs) => Some (b :: bs) | _ => None end.

Lemma blocks_bytes_one b : blocks_bytes [b] = tlv_bytes b.1 b.2.
Proof. unfold blocks_bytes. cbn. now rewrite app_nil_r. Qed.

Lemma emits_opt_nni t v : Emits (writeOptionalNonNegativeIntegerTlv t v) (blocks_bytes (opt_nni t v)).
Proof.
  unfold opt_nni, writeOptionalNonNegativeIntegerTlv. destruct (v >=? 0); [| apply emits_nothing].
  rewrite blocks_bytes_one. apply emits_writeNonNegativeIntegerTlv.
Qed.

Lemma emits_opt_double t ns :
  Emits (writeOptionalNonNegativeIntegerTlvFromDouble t ns) (blocks_bytes (opt_double t ns)).
Proof.
  unfold opt_double, writeOptionalNonNegativeIntegerTlvFromDouble.
  destruct (ns >=? 0); [| apply emits_nothing].
  rewrite blocks_bytes_one. apply emits_writeNonNegativeIntegerTlv.
Qed.

Lemma emits_opt_blob t v :
  zlen (blocks_bytes (opt_blob t v)) < 2 ^ 64 -> Emits (writeOptionalBlobTlv t v) (blocks_bytes (opt_blob t v)).
Proof.
  unfold opt_blob. destruct v as [[| b bs] |]; try (intros; apply emits_nothing).
  rewrite blocks_bytes_one. apply emits_writeBlobTlv.
Qed.

Lemma emits_opt_flag t b :
  Emits (if b : bool then writeTypeAndLength t 0 else fun self => Ok self) (blocks_bytes (opt_flag t b)).
Proof.
  destruct b; [| apply emits_nothing]. cbn [opt_flag]. rewrite blocks_bytes_one.
  unfold tlv_bytes. cbn [fst snd length]. rewrite app_nil_r. apply emits_writeTypeAndLength.
Qed.

(** Reading the optional blocks at the head of [bs]. *)
Lemma reads_opt_nni t v e bs :
  v < 2 ^ 31 -> other_type t bs ->
  Reads (readOptionalNonNegativeIntegerTlv t e) (if v >=? 0 then v else -1) e (opt_nni t v ++ bs) bs.
Proof.
  intros Hv Ho. unfold opt_nni. destruct (Z.geb_spec v 0).
  - now apply reads_optional_nni.
  - now apply reads_optional_nni_other.
Qed.

Lemma reads_opt_double t ns e bs :
  ns < 2 ^ 63 -> other_type t bs ->
  Reads (readOptionalNonNegativeIntegerTlvAsDouble t e)
    (if ns >=? 0 then (ns + 500000) / 1000000 * 1000000 else -1000000) e (opt_double t ns ++ bs) bs.
Proof.
  intros Hv Ho. unfold opt_double. destruct (Z.geb_spec ns 0).
  - eapply reads_bind; [apply reads_peek_same |]. cbn [negb].
    eapply reads_bind; [apply reads_nni; Z.to_euclidean_division_equations; lia | apply reads_ret].
  - eapply reads_bind; [now apply reads_peek_other | apply reads_ret].
Qed.

Lemma reads_opt_blob t v e bs :
  other_type t bs -> Reads (readOptionalBlob t e) (some_blob v) e (opt_blob t v ++ bs) bs.
Proof.
  intros Ho. unfold opt_blob. destruct v as [[| b l] |]; cbn [app some_blob];
    (now apply reads_optional_blob_other) || apply reads_optional_blob.
Qed.

Lemma reads_opt_flag t b e bs :
  other_type t bs -> Reads (readBooleanTlv t e) b e (opt_flag t b ++ bs) bs.
Proof.
  intros Ho. destruct b; cbn [opt_flag app]; [apply reads_boolean | now apply reads_boolean_other].
Qed.

(** The types of the blocks. *)
Lemma other_type_app t a bs :
  Forall (fun b => b.1 <> t) a -> other_type t bs -> other_type t (a ++ bs).
Proof. intros Ha Hb. destruct a as [| b a]; [easy |]. exact (List.Forall_inv Ha). Qed.

Lemma other_type_forall t a : Forall (fun b => b.1 <> t) a -> other_type t a.
Proof. intros Ha. destruct a as [| b a]; [easy |]. exact (List.Forall_inv Ha). Qed.

Lemma opt_blocks_types (P : Z -> Prop) t :
  P t -> (forall v, Forall (fun b : Block => P b.1) (opt_nni t v)) /\
         (forall v, Forall (fun b : Block => P b.1) (opt_double t v)) /\
         (forall v, Forall (fun b : Block => P b.1) (opt_blob t v)) /\
         (forall v, Forall (fun b : Block => P b.1) (opt_flag t v)).
Proof.
  intros H. unfold opt_nni, opt_double, opt_blob, opt_flag. split; [| split; [| split]]; intros v.
  - destruct (v >=? 0); now repeat constructor.
  - destruct (v >=? 0); now repeat constructor.
  - destruct v as [[| b bs] |]; now repeat constructor.
  - destruct v; now repeat constructor.
Qed.

Create HintDb tlv.

(** [block_types] proves that no block of a list with optional parts has a type, or that all the
    types are those of a TLV. The names of type codes are in the database [tlv]. *)
Ltac block_types :=
  unfold type_ok in *;
  repeat first
    [ apply other_type_app
    | match goal with
      | |- other_type _ (opt_nni _ _) => apply other_type_forall
      | |- other_type _ (opt_double _ _) => apply other_type_forall
      | |- other_type _ (opt_blob _ _) => apply other_type_forall
      | |- other_type _ (opt_flag _ _) => apply other_type_forall
      end
    | apply Forall_app; split
    | apply List.Forall_cons
    | apply List.Forall_nil
    | match goal with
      | |- Forall (fun b => b.1 <> ?t) _ =>
          first [ apply (opt_blocks_types (fun x => x <> t)) ]
      | |- Forall (fun b => 0 <= b.1 < 2 ^ 64) _ =>
          first [ apply (opt_blocks_types (fun x => 0 <= x < 2 ^ 64)) ]
      end
    | progress cbn [other_type fst snd nni_block]
    | exact I | lia | progress autounfold with tlv ].

(** Skipping all the blocks that are left. *)
Lemma skip_one_any d b rest :
  dec_ok d -> type_ok b -> remaining d = block_bytes b ++ rest ->
  skip_one true d = Ok (tt, adv d (zlen (block_bytes b))) /\
  dec_ok (adv d (zlen (block_bytes b))) /\ remaining (adv d (zlen (block_bytes b))) = rest.
Proof.
  destruct b as [t v]. unfold type_ok, block_bytes. cbn [fst snd]. intros Hd Ht Hr.
  split; [| now apply adv_ok].
  pose proof (skip_bytes_at_value d t v rest Hd Ht Hr) as Hskip.
  destruct (at_block_header d t v rest Hd Ht Hr) as (Hh & Hd2 & Hr2).
  pose proof Hr as Hr'. rewrite tlv_bytes_app in Hr'.
  destruct (adv_ok _ _ _ Hd Hr') as [Hd1 Hr1].
  pose proof (inputLength_remaining _ Hd2) as Hl. rewrite Hr2, length_app in Hl.
  pose proof Hd2 as [Ho2 Hm2]. unfold skip_one.
  rewrite (dec_bind_ok _ _ _ _ _ (readVarNumber_at _ _ _ Hd Ht Hr')).
  assert (Hv : 0 <= zlen v < 2 ^ 64) by (unfold inputLength in *; cbn in *; lia).
  rewrite (dec_bind_ok _ _ _ _ _ (readVarNumber_at _ _ _ Hd1 Hv Hr1)), adv_adv.
  fold (header_size t (zlen v)). cbv zeta. rewrite andb_false_r.
  unfold skip_checked. rewrite wrap64_small by lia.
  destruct (Z.gtb_spec (d_offset (adv d (header_size t (zlen v))) + zlen v)
              (inputLength (adv d (header_size t (zlen v))))); [lia |].
  rewrite zlen_tlv_header. unfold adv. cbn. do 3 f_equal. lia.
Qed.

Lemma reads_skip_all e bs : Reads (finishNestedTlvsSkipCritical e) tt e bs [].
Proof.
  intros d rest Hd. unfold finishNestedTlvsSkipCritical, skipRemainingNestedTlvs.
  assert (H : forall fuel, (length bs <= fuel)%nat -> exists d',
    skip_loop fuel e true d = Ok (tt, d') /\ At d' e [] rest /\ input d' = input d).
  { revert d Hd. induction bs as [| b bs IH]; intros d Hd fuel Hf.
    - exists d. split; [| easy]. apply skip_loop_end. destruct Hd as [_ _ _ ->]. cbn. lia.
    - destruct fuel as [| fuel]; [easy |]. cbn [length] in Hf.
      destruct (at_block _ _ _ _ _ Hd) as [Ht Hr].
      destruct (skip_one_any d b _ (at_ok _ _ _ _ Hd) Ht Hr) as (Hs & _ & _).
      destruct (IH _ (at_next _ _ _ _ _ Hd) fuel ltac:(lia)) as (d' & Hd' & Ha & Hi).
      exists d'. cbn [skip_loop]. rewrite (proj2 (Z.ltb_lt _ _) (at_not_end _ _ _ _ _ Hd)).
      change (tlv_bytes b.1 b.2) with (block_bytes b) in *. now rewrite Hs. }
  destruct (H (S (length (input d)))) as (d' & Hs & Ha & Hi).
  { pose proof (length_blocks bs) as Hl. pose proof (at_remaining _ _ _ _ Hd) as Hr.
    apply (f_equal (@length Z)) in Hr. unfold remaining in Hr.
    rewrite length_drop, length_app in Hr. unfold blocks_bytes in Hr. lia. }
  exists d'. split; [| easy]. destruct (Z.eqb_spec (d_offset d) e) as [Heq | Hne]; cbn [negb].
  - cbn [skip_loop] in Hs. rewrite Heq, Z.ltb_irrefl in Hs. exact Hs.
  - rewrite Hs. pose proof (at_end _ _ _ _ Ha) as He. cbn in He.
    now rewrite (proj2 (Z.eqb_eq _ _)) by lia.
Qed.

(** The bytes of a block that was passed, from its begin and end offsets. *)
Definition slice_blob (beginOffset endOffset : Z) : Dec (list Z) :=
  slice ← getSlice beginOffset endOffset; get_blob slice.

Lemma slice_blob_bytes d bs rest d' :
  dec_ok d -> remaining d = bs ++ rest -> input d' = input d ->
  slice_blob (d_offset d) (d_offset d + zlen bs) d' = Ok (bs, d').
Proof.
  intros Hd Hr Hi. pose proof Hd as [Ho Hm].
  pose proof (inputLength_remaining _ Hd) as Hl. rewrite Hr, length_app in Hl.
  unfold slice_blob, getSlice, mbind, Dec_bind, get_blob, slice_bytes, inputLength in *. rewrite Hi.
  destruct (Z.gtb_spec (d_offset d) (zlen (input d))); [lia |].
  destruct (Z.gtb_spec (d_offset d + zlen bs) (zlen (input d))); [lia |].
  cbn [orb s_value s_length].
  destruct (Z.gtb_spec (d_offset d) (d_offset d + zlen bs)); [lia |].
  replace (d_offset d + zlen bs - d_offset d) with (zlen bs) by lia.
  rewrite Hi, (proj2 (Z.leb_le _ _)) by easy.
  now rewrite (sub_bytes_remaining d _ rest Hr).
Qed.

Lemma slice_blob_at d e b bs rest d' :
  At d e (b :: bs) rest -> input d' = input d ->
  slice_blob (d_offset d) (d_offset d + zlen (tlv_bytes b.1 b.2)) d' = Ok (tlv_bytes b.1 b.2, d').
Proof.
  intros Hat. destruct (at_block _ _ _ _ _ Hat) as [_ Hr]. exact (slice_blob_bytes _ _ _ _ (at_ok _ _ _ _ Hat) Hr).
Qed.

(** The beginning of the value of a block, at its offset. *)
Lemma sub_bytes_value t a b n :
  n = zlen a -> sub_bytes (tlv_bytes t (a ++ b)) (header_size t (zlen (a ++ b))) n = a.
Proof.
  intros ->. unfold tlv_bytes. rewrite app_assoc. apply sub_bytes_app; [| easy].
  unfold header_size. rewrite (length_app (varNumber_bytes t)). lia.
Qed.

(** A nested block that is omitted when it has no value. *)
Definition opt_nested (t : Z) (value : list Block) : list Block :=
  match value with [] => [] | _ => [(t, blocks_bytes value)] end.

Lemma nested_bytes_opt t value :
  nested_bytes t (blocks_bytes value) true = blocks_bytes (opt_nested t value).
Proof.
  unfold nested_bytes. destruct value as [| b value]; [easy |]. cbn [opt_nested andb].
  rewrite blocks_bytes_one. cbn [fst snd].
  pose proof (zlen_block_bytes b) as Hb. unfold block_bytes in Hb.
  rewrite blocks_bytes_cons, length_app, (proj2 (Z.eqb_neq _ _)) by lia. easy.
Qed.

Lemma opt_nested_types (P : Z -> Prop) t value :
  P t -> Forall (fun b : Block => P b.1) (opt_nested t value).
Proof. intros H. destruct value; cbn; auto. Qed.

Ltac nested_types :=
  repeat first
    [ apply other_type_app | apply Forall_app; split
    | match goal with
      | |- Forall (fun b => b.1 <> ?t) (opt_nested _ _) => apply (opt_nested_types (fun x => x <> t))
      | |- Forall (fun b => 0 <= b.1 < 2 ^ 64) (opt_nested _ _) =>
          apply (opt_nested_types (fun x => 0 <= x < 2 ^ 64))
      end
    | progress block_types ].

(** ** Rejecting *)

(** On a decoder before the blocks [bs], [m] returns an error code. *)
Definition Rejects {A} (m : Dec A) (endOffset : Z) (bs : list Block) : Prop :=
  forall d rest, At d endOffset bs rest -> exists err, m d = Err (Error err).

Lemma rejects_bind {A B} (m : Dec A) (f : A -> Dec B) a e bs bs1 :
  Reads m a e bs bs1 -> Rejects (f a) e bs1 -> Rejects (m ≫= f) e bs.
Proof.
  intros Hm Hf d rest Hd. destruct (Hm d rest Hd) as (d1 & H1 & Hd1 & _).
  destruct (Hf d1 rest Hd1) as (err & Herr). exists err. now rewrite (dec_bind_ok _ _ _ _ _ H1).
Qed.

(** A nested TLV that ends with a critical block that the body does not read. *)
Lemma rejects_nested_critical {A} t (body : Z -> Dec A) inner b left e bs :
  Forall type_ok inner -> (forall e1, exists a, Reads (body e1) a e1 inner (b :: left)) ->
  b.1 <= 31 \/ Z.land b.1 1 = 1 ->
  Rejects (nested t body) e ((t, blocks_bytes inner) :: bs).
Proof.
  intros Hi Hb Hc d rest Hd.
  destruct (at_inside _ _ _ _ _ _ Hd Hi) as (d1 & e1 & Hs & Hd1 & _).
  destruct (Hb e1) as [a Ha]. destruct (Ha d1 _ Hd1) as (d2 & Hb2 & Hd2 & _).
  exists NDN_ERROR_Unrecognized_critical_TLV_type_code. unfold nested.
  rewrite (dec_bind_ok _ _ _ _ _ Hs), (dec_bind_ok _ _ _ _ _ Hb2).
  unfold mbind, Dec_bind, finishNestedTlvs, skipRemainingNestedTlvs.
  pose proof (at_not_end _ _ _ _ _ Hd2) as Hlt. destruct (at_block _ _ _ _ _ Hd2) as [Ht Hr].
  rewrite (proj2 (Z.eqb_neq _ _)) by lia. cbn [negb skip_loop].
  rewrite (proj2 (Z.ltb_lt _ _) Hlt).
  now rewrite (skip_one_critical _ _ _ _ (at_ok _ _ _ _ Hd2) Ht Hc Hr).
Qed.

(** ** Round trips of blocks *)

(** A decoder that passes a block of another type. *)
Lemma reads_skip_optional_other t e bs : other_type t bs -> Reads (skipOptionalTlv t e) tt e bs bs.
Proof. intros H. eapply reads_bind; [now apply reads_peek_other | apply reads_ret]. Qed.

(** What a writer emits as a block is what a decoder of the block reads, anywhere in a message. *)
Lemma block_roundtrip {A} (w : writer) (m : Dec A) (a : A) (b : Block) (n : Z) (pre rest : list Z) :
  0 <= n < 2 ^ 63 -> zlen (pre ++ block_bytes b ++ rest) < 2 ^ 63 -> type_ok b ->
  (zlen (block_bytes b) < 2 ^ 63 -> Emits w (block_bytes b)) -> (forall e bs, Reads m a e (b :: bs) bs) ->
  exists bs, TlvEncoder_run n w = Ok bs /\
    m (decoder_at pre bs rest) = Ok (a, mkDecoder (pre ++ bs ++ rest) (zlen pre + zlen bs)).
Proof.
  intros Hn Hl Hb Hw Hm. assert (Hs : zlen (block_bytes b) < 2 ^ 63) by (rewrite !length_app in Hl; lia).
  exists (block_bytes b). split; [now apply TlvEncoder_run_emits; auto |].
  now apply reads_decoder_at.
Qed.
