(* ===== verification/Name.v ===== *)
(** * Names and name components

    [Component] models [Name::Component] and [Name] is the sequence of components of [Name], of
    include/ndn-ind/name.hpp and src/name.cpp, with the functions of src/c/name_c.c that they
    call. The value of a component is its bytes: a component over a null [Blob], which no
    constructor from bytes gives, is not modelled. The change counter and the cached hash code
    of [Name] are not modelled here. *)

From stdpp Require Import base list numbers option strings.
From Stdlib Require Import ZArith Lia.
From S2P Require Import Prelude Order Encoder.
Open Scope Z_scope.

(** ** Name::Component *)

(** The enum [ndn_NameComponentType]; [type_code] gives its values. *)
Inductive ComponentType :=
| IMPLICIT_SHA256_DIGEST
| PARAMETERS_SHA256_DIGEST
| GENERIC
| OTHER_CODE.

#[export] Instance ComponentType_eq_dec : EqDecision ComponentType.
Proof. intros x y. unfold Decision. decide equality. Defined.

Definition type_code (t : ComponentType) : Z :=
  match t with
  | IMPLICIT_SHA256_DIGEST => 1
  | PARAMETERS_SHA256_DIGEST => 2
  | GENERIC => 8
  | OTHER_CODE => 0x7fff
  end.

Record Component := mkComponent {
  type_ : ComponentType;
  otherTypeCode_ : Z;
  value_ : list Z
}.

#[export] Instance Component_eq_dec : EqDecision Component.
Proof. solve_decision. Defined.

(** The constructors from bytes, with [setType]. *)
Definition make_component (value : list Z) (type : ComponentType) (otherTypeCode : Z)
  : result exn Component :=
  match type with
  | OTHER_CODE =>
      if otherTypeCode =? -1 then
        Err (InvalidArgument "To use an other code, call Name::Component(value, ndn_NameComponentType_OTHER_CODE, otherTypeCode)")
      else if otherTypeCode <? -1 then
        Err (InvalidArgument "Name::Component other type code must be non-negative")
      else Ok (mkComponent OTHER_CODE otherTypeCode value)
  | _ => Ok (mkComponent type (-1) value)
  end.

(** [Component(value)]: the type is generic. *)
Definition generic (value : list Z) : Component := mkComponent GENERIC (-1) value.

(** The type as an integer, as [compare] takes it. *)
Definition component_code (c : Component) : Z :=
  match type_ c with OTHER_CODE => otherTypeCode_ c | t => type_code t end.

(** *** Comparison *)

Definition component_equals (self other : Component) : bool :=
  match type_ self with
  | OTHER_CODE =>
      bool_decide (value_ self = value_ other) &&
      (bool_decide (type_ other = OTHER_CODE) &&
       (otherTypeCode_ self =? otherTypeCode_ other))
  | _ =>
      bool_decide (value_ self = value_ other) && bool_decide (type_ self = type_ other)
  end.

Definition component_compare (self other : Component) : Z :=
  let myTypeCode := component_code self in
  let otherTypeCode := component_code other in
  if myTypeCode <? otherTypeCode then -1
  else if myTypeCode >? otherTypeCode then 1
  else if zlen (value_ self) <? zlen (value_ other) then -1
  else if zlen (value_ self) >? zlen (value_ other) then 1
  else memcmp (value_ self) (value_ other).

(** *** Numbers *)

(** The loop of [toNumber], in 64-bit arithmetic. *)
Definition bytes_to_number (bytes : list Z) : Z :=
  fold_left (fun result b => wrap64 (wrap64 (result * 256) + b)) bytes 0.

Definition toNumber (self : Component) : Z := bytes_to_number (value_ self).

Definition marker_error : exn :=
  Failed (Error NDN_ERROR_Name_component_does_not_begin_with_the_expected_marker).

Definition toNumberWithMarker (self : Component) (marker : Z) : result exn Z :=
  match value_ self with
  | b :: t => if b =? marker then Ok (bytes_to_number t) else Err marker_error
  | [] => Err marker_error
  end.

Definition hasPrefix (self : Component) (prefix : list Z) : bool :=
  (zlen (value_ self) >=? zlen prefix) &&
  (memcmp (take (length prefix) (value_ self)) prefix =? 0).

Definition toNumberWithPrefix (self : Component) (prefix : list Z) : result exn Z :=
  if hasPrefix self prefix then Ok (bytes_to_number (drop (length prefix) (value_ self)))
  else Err marker_error.

Definition lift_error {A} (r : result ndn_Error A) : result exn A :=
  match r with Ok a => Ok a | Err e => Err (Failed (Error e)) end.

Definition fromNumber (number : Z) (type : ComponentType) (otherTypeCode : Z)
  : result exn Component :=
  match type with
  | OTHER_CODE =>
      if otherTypeCode =? -1 then
        Err (InvalidArgument "To use an other code, call fromNumber(value, ndn_NameComponentType_OTHER_CODE, otherTypeCode)")
      else if otherTypeCode <? -1 then
        Err (InvalidArgument "fromNumber: other type code must be non-negative")
      else
        value ← lift_error (TlvEncoder_run 8 (writeNonNegativeInteger number));
        make_component value type otherTypeCode
  | _ =>
      value ← lift_error (TlvEncoder_run 8 (writeNonNegativeInteger number));
      make_component value type otherTypeCode
  end.

Open Scope ndn_scope.

Definition fromNumberWithMarker (number marker : Z) : result exn Component :=
  value ← lift_error (TlvEncoder_run 9
            (writeNonNegativeInteger (Z.land marker 0xff) >;> writeNonNegativeInteger number));
  make_component value GENERIC (-1).

Close Scope ndn_scope.

(** The little endian bytes of [number], the loop of [fromNumberWithPrefix]; 8 turns are
    enough for a 64-bit number. *)
Fixpoint little_endian (fuel : nat) (number : Z) : list Z :=
  match fuel with
  | O => []
  | S fuel =>
      if number =? 0 then [] else Z.land number 0xff :: little_endian fuel (Z.shiftr number 8)
  end.

Definition fromNumberWithPrefix (number : Z) (prefix : list Z) : Component :=
  generic (prefix ++ rev (little_endian 8 number)).

Definition FINAL_SEGMENT_PREFIX : list Z := [0xC1; 46; 77; 46; 70; 73; 78; 65; 76; 0].

(** The markers of the naming conventions. *)
Definition has_marker (self : Component) (marker : Z) : bool :=
  match value_ self with
  | b :: _ => (b =? marker) && bool_decide (type_ self = GENERIC)
  | [] => false
  end.

Definition isSegment (c : Component) : bool := has_marker c 0x00.
Definition isSegmentOffset (c : Component) : bool := has_marker c 0xFB.
Definition isVersion (c : Component) : bool := has_marker c 0xFD.
Definition isTimestamp (c : Component) : bool := has_marker c 0xFC.
Definition isSequenceNumber (c : Component) : bool := has_marker c 0xFE.

Definition toSegment (c : Component) := toNumberWithMarker c 0x00.
Definition toSegmentOffset (c : Component) := toNumberWithMarker c 0xFB.
Definition toVersion (c : Component) := toNumberWithMarker c 0xFD.
Definition toTimestampMicroseconds (c : Component) := toNumberWithMarker c 0xFC.
Definition toSequenceNumber (c : Component) := toNumberWithMarker c 0xFE.

Definition fromSegment (n : Z) := fromNumberWithMarker n 0x00.
Definition fromSegmentOffset (n : Z) := fromNumberWithMarker n 0xFB.
Definition fromVersion (n : Z) := fromNumberWithMarker n 0xFD.
Definition fromTimestamp (n : Z) := fromNumberWithMarker n 0xFC.
Definition fromSequenceNumber (n : Z) := fromNumberWithMarker n 0xFE.

(** *** Digests *)

Definition ndn_SHA256_DIGEST_SIZE : Z := 32.

Definition fromImplicitSha256Digest (digest : list Z) : result exn Component :=
  if zlen digest =? ndn_SHA256_DIGEST_SIZE then
    Ok (mkComponent IMPLICIT_SHA256_DIGEST (-1) digest)
  else
    Err (RuntimeError "Name::Component::fromImplicitSha256Digest: The digest length must be 32 bytes").

Definition fromParametersSha256Digest (digest : list Z) : result exn Component :=
  if zlen digest =? ndn_SHA256_DIGEST_SIZE then
    Ok (mkComponent PARAMETERS_SHA256_DIGEST (-1) digest)
  else
    Err (RuntimeError "Name::Component::fromParametersSha256Digest: The digest length must be 32 bytes").

(** *** Successor *)

(** The loop of [getSuccessor] from the last byte to the first: the bytes with one added, and
    the carry that is left. *)
Fixpoint increment (value : list Z) : list Z * bool :=
  match value with
  | [] => ([], true)
  | b :: t =>
      let '(t', carry) := increment t in
      if carry : bool then
        let b' := (b + 1) mod 256 in (b' :: t', b' =? 0)
      else (b :: t', false)
  end.

Definition component_getSuccessor (self : Component) : Component :=
  let '(result, carry) := increment (value_ self) in
  mkComponent (type_ self) (otherTypeCode_ self)
    (if carry : bool then result ++ [0] else result).

(** ** Name *)

Abbreviation Name := (list Component).

Definition append (self : Name) (c : Component) : Name := self ++ [c].

(** [append(const Name&)]: one component after the other. *)
Definition appendName (self name : Name) : Name := fold_left append name self.

(** [checkAppendOtherTypeCode], then [append(value, type, otherTypeCode)]. *)
Definition appendValue (self : Name) (value : list Z) (type : ComponentType)
    (otherTypeCode : Z) : result exn Name :=
  match type with
  | OTHER_CODE =>
      if otherTypeCode =? -1 then
        Err (InvalidArgument "To use an other code, call append(value, ndn_NameComponentType_OTHER_CODE, otherTypeCode)")
      else if otherTypeCode <? -1 then
        Err (InvalidArgument "Name::append: other type code must be non-negative")
      else c ← make_component value type otherTypeCode; mret (append self c)
  | _ => c ← make_component value type otherTypeCode; mret (append self c)
  end.

(** The start index as an [int]: a negative one counts from the end. *)
Definition start_index (size iStartComponent : Z) : Z :=
  if iStartComponent <? 0 then to_int32 (wrap64 (size - - iStartComponent))
  else iStartComponent.

Definition getSubName (self : Name) (iStartComponent nComponents : Z) : Name :=
  let iStartComponent := start_index (zlen self) iStartComponent in
  let iEnd := Z.min (wrap64 (iStartComponent + nComponents)) (zlen self) in
  let i := wrap64 iStartComponent in
  take (Z.to_nat (iEnd - i)) (drop (Z.to_nat i) self).

Definition getPrefix (self : Name) (nComponents : Z) : Name :=
  if nComponents <? 0 then getSubName self 0 (wrap64 (zlen self + nComponents))
  else getSubName self 0 nComponents.

(** [get(int)]. *)
Definition name_get (self : Name) (i : Z) : result exn Component :=
  let j := if i >=? 0 then i else zlen self - - i in
  if (if i >=? 0 then i >=? zlen self else i <? - zlen self) then
    Err (RuntimeError "Name.get: Index is out of bounds")
  else match self !! Z.to_nat j with
       | Some c => Ok c
       | None => Err (Failed UndefinedBehaviour)
       end.

(** [equals] and [match] compare the values of the components only. *)
Definition same_value (a b : Component) : bool := bool_decide (value_ a = value_ b).

(** The loop from the last component to the first over the first [n] components. *)
Definition values_match (n : nat) (self name : Name) : bool :=
  forallb (fun i => match self !! i, name !! i with
                    | Some a, Some b => same_value a b
                    | _, _ => false
                    end) (rev (seq 0 n)).

Definition name_equals (self name : Name) : bool :=
  if negb (zlen self =? zlen name) then false else values_match (length self) self name.

Definition name_match (self name : Name) : bool :=
  if zlen self >? zlen name then false else values_match (length self) self name.

(** The loop of [compare] over [count] components. *)
Fixpoint compare_loop (count : nat) (self : Name) (i : Z) (other : Name) (j : Z)
  : result exn Z :=
  match count with
  | O => Ok 0
  | S count =>
      match self !! Z.to_nat i, other !! Z.to_nat j with
      | Some a, Some b =>
          let comparison := component_compare a b in
          if comparison =? 0 then compare_loop count self (i + 1) other (j + 1)
          else Ok comparison
      | _, _ => Err (Failed UndefinedBehaviour)
      end
  end.

(** The five argument [compare]. The test before the second adjustment is of
    [iStartComponent], as the code has it. *)
Definition compare_subnames (self : Name) (iStartComponent nComponents : Z)
    (other : Name) (iOtherStartComponent nOtherComponents : Z) : result exn Z :=
  let iStartComponent := start_index (zlen self) iStartComponent in
  let iOtherStartComponent :=
    if iStartComponent <? 0 then to_int32 (wrap64 (zlen other - - iOtherStartComponent))
    else iOtherStartComponent in
  let nComponents := Z.min nComponents (wrap64 (zlen self - iStartComponent)) in
  let nOtherComponents := Z.min nOtherComponents (wrap64 (zlen other - iOtherStartComponent)) in
  let count := Z.min nComponents nOtherComponents in
  comparison ← compare_loop (Z.to_nat count) self (wrap64 iStartComponent)
                 other (wrap64 iOtherStartComponent);
  if negb (comparison =? 0) then mret comparison
  else if nComponents <? nOtherComponents then mret (-1)
  else if nComponents >? nOtherComponents then mret 1
  else mret 0.

(** [compare(other)]. *)
Definition name_compare (self other : Name) : result exn Z :=
  compare_subnames self 0 (zlen self) other 0 (zlen other).

(** The name of the URI that [getSuccessor] of an empty name parses. *)
Definition zero_digest_name : Name :=
  [mkComponent IMPLICIT_SHA256_DIGEST (-1) (replicate 32 0)].

Definition name_getSuccessor (self : Name) : result exn Name :=
  if zlen self =? 0 then Ok zero_digest_name
  else
    last ← name_get self (-1);
    mret (append (getPrefix self (-1)) (component_getSuccessor last)).

(** -1 when there is no such component, -2 when there are several. *)
Fixpoint findParametersSha256Digest_from (i result : Z) (components : Name) : Z :=
  match components with
  | [] => result
  | c :: cs =>
      if bool_decide (type_ c = PARAMETERS_SHA256_DIGEST) then
        if negb (result =? -1) then -2 else findParametersSha256Digest_from (i + 1) i cs
      else findParametersSha256Digest_from (i + 1) result cs
  end.

Definition findParametersSha256Digest (self : Name) : Z :=
  findParametersSha256Digest_from 0 (-1) self.

(** ** The order of components *)

(** The components that the constructors give: bytes as values, and an other type code that is
    not the code of a named type. *)
Definition component_ok (c : Component) : Prop :=
  bytes_ok (value_ c) /\
  match type_ c with
  | OTHER_CODE => 0 <= otherTypeCode_ c < 2 ^ 31 /\
      otherTypeCode_ c <> 1 /\ otherTypeCode_ c <> 2 /\ otherTypeCode_ c <> 8
  | _ => otherTypeCode_ c = -1
  end.

Lemma component_compare_zero a b :
  component_compare a b = 0 <-> component_code a = component_code b /\ value_ a = value_ b.
Proof.
  unfold component_compare. set (x := component_code a). set (y := component_code b).
  destruct (Z.ltb_spec x y); [split; lia |]. destruct (Z.gtb_spec x y); [split; lia |].
  destruct (Z.ltb_spec (zlen (value_ a)) (zlen (value_ b))).
  { split; [lia |]. intros [_ Hv]. rewrite Hv in *. lia. }
  destruct (Z.gtb_spec (zlen (value_ a)) (zlen (value_ b))).
  { split; [lia |]. intros [_ Hv]. rewrite Hv in *. lia. }
  rewrite memcmp_eq by lia. split; [intros Hv; split; [lia | exact Hv] | easy].
Qed.

Lemma component_code_inj a b :
  component_ok a -> component_ok b -> component_code a = component_code b ->
  type_ a = type_ b /\ otherTypeCode_ a = otherTypeCode_ b.
Proof.
  unfold component_ok, component_code. intros [_ Ha] [_ Hb].
  destruct (type_ a), (type_ b); cbn; intros; try lia; split; (easy || lia).
Qed.

Lemma component_compare_eq a b :
  component_ok a -> component_ok b -> component_compare a b = 0 <-> a = b.
Proof.
  intros Ha Hb. rewrite component_compare_zero. split; [| now intros ->].
  intros [Hc Hv]. destruct (component_code_inj a b Ha Hb Hc) as [Ht Ho].
  destruct a, b; cbn in *; congruence.
Qed.

Lemma component_equals_eq a b :
  component_ok a -> component_ok b -> component_equals a b = true <-> a = b.
Proof.
  intros [_ Ha] [_ Hb]. unfold component_equals. destruct a as [ta oa va], b as [tb ob vb]; cbn in *.
  destruct ta, tb; rewrite ?andb_true_iff, ?bool_decide_eq_true, ?Z.eqb_eq; cbn;
    split; intros H; try (decompose [and] H; subst; congruence); try discriminate;
    try (injection H as -> ->; auto); intuition congruence.
Qed.

#[export] Instance component_compare_total : TotalCompare component_compare.
Proof.
  split.
  - intros a. now apply component_compare_zero.
  - intros a b. unfold component_compare. rewrite !Z.gtb_ltb.
    destruct (Z.ltb_spec (component_code a) (component_code b)),
      (Z.ltb_spec (component_code b) (component_code a)); try lia.
    destruct (Z.ltb_spec (zlen (value_ a)) (zlen (value_ b))),
      (Z.ltb_spec (zlen (value_ b)) (zlen (value_ a))); try lia. apply memcmp_antisym.
  - intros a b c. unfold component_compare. rewrite !Z.gtb_ltb.
    destruct (Z.ltb_spec (component_code a) (component_code b)),
      (Z.ltb_spec (component_code b) (component_code a)),
      (Z.ltb_spec (component_code b) (component_code c)),
      (Z.ltb_spec (component_code c) (component_code b)),
      (Z.ltb_spec (component_code a) (component_code c)),
      (Z.ltb_spec (component_code c) (component_code a)); try lia.
    destruct (Z.ltb_spec (zlen (value_ a)) (zlen (value_ b))),
      (Z.ltb_spec (zlen (value_ b)) (zlen (value_ a))),
      (Z.ltb_spec (zlen (value_ b)) (zlen (value_ c))),
      (Z.ltb_spec (zlen (value_ c)) (zlen (value_ b))),
      (Z.ltb_spec (zlen (value_ a)) (zlen (value_ c))),
      (Z.ltb_spec (zlen (value_ c)) (zlen (value_ a))); try lia.
    apply memcmp_trans; lia.
Qed.

(** Components that compare equal, one by one, are the same. *)
Lemma Forall2_compare_eq l k :
  Forall2 (fun a b => component_compare a b = 0) l k ->
  Forall component_ok l -> Forall component_ok k -> l = k.
Proof.
  induction 1 as [| a b l k He _ IH]; [easy |]. intros Hl Hk.
  inversion Hl; inversion Hk; subst. f_equal; [now apply component_compare_eq | auto].
Qed.

(** *** The successor of a component *)

Lemma memcmp_decode a b :
  length a = length b -> bytes_ok a -> bytes_ok b ->
  (memcmp a b < 0 <-> be_decode a < be_decode b).
Proof.
  revert b. induction a as [| x a IH]; intros [| y b] Hlen Ha Hb; try discriminate.
  { cbn. lia. }
  injection Hlen as Hlen. inversion Ha as [| ? ? Hx Ha']; inversion Hb as [| ? ? Hy Hb']; subst.
  specialize (IH b Hlen Ha' Hb'). rewrite !be_decode_cons, Hlen.
  pose proof (be_decode_range a Ha') as Ra. pose proof (be_decode_range b Hb') as Rb.
  rewrite Hlen in Ra. unfold is_byte in *. cbn [memcmp].
  destruct (Z.gtb_spec x y); [split; [lia | nia] |].
  destruct (Z.ltb_spec x y); [split; [nia | lia] |].
  assert (x = y) as -> by lia. lia.
Qed.

(** Strictly before, as the order of the type code, the length and the integer value. *)
Definition key_lt (a b : Component) : Prop :=
  component_code a < component_code b \/
  (component_code a = component_code b /\
   (zlen (value_ a) < zlen (value_ b) \/
    (zlen (value_ a) = zlen (value_ b) /\ be_decode (value_ a) < be_decode (value_ b)))).

Lemma component_compare_lt a b :
  bytes_ok (value_ a) -> bytes_ok (value_ b) -> component_compare a b < 0 <-> key_lt a b.
Proof.
  intros Ha Hb. unfold component_compare, key_lt.
  destruct (Z.ltb_spec (component_code a) (component_code b)); [lia |].
  destruct (Z.gtb_spec (component_code a) (component_code b)); [lia |].
  destruct (Z.ltb_spec (zlen (value_ a)) (zlen (value_ b))); [lia |].
  destruct (Z.gtb_spec (zlen (value_ a)) (zlen (value_ b))); [lia |].
  rewrite memcmp_decode by (easy || lia). lia.
Qed.

Lemma increment_spec v v' carry :
  bytes_ok v -> increment v = (v', carry) ->
  length v' = length v /\ bytes_ok v' /\
  be_decode v' + (if carry then 256 ^ zlen v else 0) = be_decode v + 1.
Proof.
  intros Hv. revert v' carry. induction Hv as [| b t Hb Ht IH]; intros v' carry Hi.
  { injection Hi as <- <-. cbn. repeat split; auto. }
  cbn [increment] in Hi. destruct (increment t) as [t' c]. destruct (IH t' c eq_refl) as (Hl & Hok & He).
  unfold is_byte in Hb. destruct c.
  - injection Hi as <- <-. pose proof (Z.mod_pos_bound (b + 1) 256 eq_refl) as Hm.
    split; [cbn; lia |]. split; [constructor; [exact Hm | easy] |].
    rewrite !be_decode_cons, Hl. cbn [length].
    rewrite Nat2Z.inj_succ, Z.pow_succ_r by lia.
    destruct (Z.eqb_spec ((b + 1) mod 256) 0) as [H0 | H0].
    + assert (b = 255) as -> by (destruct (Z.eq_dec b 255); [easy |];
        rewrite Z.mod_small in H0; lia). rewrite H0. lia.
    + assert ((b + 1) mod 256 = b + 1) as -> by (destruct (Z.eq_dec b 255) as [-> |];
        [easy | apply Z.mod_small; lia]). lia.
  - injection Hi as <- <-. split; [cbn; lia |]. split; [now constructor |].
    rewrite !be_decode_cons, Hl. lia.
Qed.

Lemma getSuccessor_code c : component_code (component_getSuccessor c) = component_code c.
Proof. unfold component_getSuccessor. now destruct (increment (value_ c)). Qed.

(** The successor is after the component, and at or before every later one of its type. *)
Lemma getSuccessor_least c :
  bytes_ok (value_ c) ->
  bytes_ok (value_ (component_getSuccessor c)) /\
  component_compare c (component_getSuccessor c) < 0 /\
  forall d, bytes_ok (value_ d) -> component_code d = component_code c ->
    component_compare c d < 0 -> component_compare (component_getSuccessor c) d <= 0.
Proof.
  intros Hc. pose proof (getSuccessor_code c) as Hcode. unfold component_getSuccessor in *.
  destruct (increment (value_ c)) as [v carry] eqn:Hi.
  destruct (increment_spec _ _ _ Hc Hi) as (Hl & Hv & He).
  pose proof (be_decode_range _ Hc) as Rc. pose proof (be_decode_range _ Hv) as Rv.
  rewrite Hl in Rv.
  set (s := mkComponent (type_ c) (otherTypeCode_ c) (if carry then v ++ [0] else v)) in *.
  assert (Hs : bytes_ok (value_ s)).
  { unfold s. cbn. destruct carry; [| easy]. apply Forall_app. split; [easy |].
    constructor; [unfold is_byte; lia | constructor]. }
  split; [exact Hs |].
  assert (Hkey : forall d, component_code d = component_code s -> bytes_ok (value_ d) ->
            key_lt c d -> ~ key_lt d s).
  { intros d Hd Hdok. pose proof (be_decode_range _ Hdok) as Rd.
    assert (Rd' : zlen (value_ c) = zlen (value_ d) -> be_decode (value_ d) < 256 ^ zlen (value_ c))
      by (intros ->; lia).
    unfold key_lt.
    rewrite Hd, Hcode. unfold s. cbn [value_]. destruct carry.
    - rewrite length_app. cbn [length]. rewrite be_decode_app.
      intros [? | (_ & [? | [? ?]])] [? | (_ & [? | [? ?]])]; cbn in *; lia.
    - rewrite Hl. intros [? | (_ & [? | [? ?]])] [? | (_ & [? | [? ?]])]; lia. }
  split.
  - apply component_compare_lt; [easy | easy |]. right. split; [easy |]. unfold s. cbn [value_].
    destruct carry; [rewrite length_app; cbn [length]; lia | lia].
  - intros d Hd Hdc Hlt. apply component_compare_lt in Hlt; [| easy | easy].
    specialize (Hkey d ltac:(congruence) Hd Hlt).
    rewrite <- component_compare_lt in Hkey by easy.
    pose proof (tc_antisym d s). lia.
Qed.

(** ** Names *)

Abbreviation name_lex := (lex component_compare).

(** The sizes that an [int] index can reach. *)
Definition name_fits (n : Name) : Prop := zlen n < 2 ^ 31.

Lemma compare_loop_lex count self i other j :
  (count <= length self - i)%nat -> (count <= length other - j)%nat ->
  compare_loop count self (Z.of_nat i) other (Z.of_nat j)
  = Ok (name_lex (take count (drop i self)) (take count (drop j other))).
Proof.
  revert i j. induction count as [| n IH]; intros i j Hi Hj; [easy |].
  cbn [compare_loop]. rewrite !Nat2Z.id.
  destruct (lookup_lt_is_Some_2 self i) as [a Ha]; [lia |].
  destruct (lookup_lt_is_Some_2 other j) as [b Hb]; [lia |].
  rewrite Ha, Hb, (drop_S _ _ _ Ha), (drop_S _ _ _ Hb). cbn [take lex].
  destruct (component_compare a b =? 0); [| easy].
  replace (Z.of_nat i + 1) with (Z.of_nat (S i)) by lia.
  replace (Z.of_nat j + 1) with (Z.of_nat (S j)) by lia.
  apply IH; lia.
Qed.

Lemma lex_take (a b : Name) :
  name_lex a b =
    let c := name_lex (take (Nat.min (length a) (length b)) a)
               (take (Nat.min (length a) (length b)) b) in
    if negb (c =? 0) then c
    else if zlen a <? zlen b then -1 else if zlen a >? zlen b then 1 else 0.
Proof.
  revert b. induction a as [| x a IH]; intros [| y b]; try easy.
  cbn [length Nat.min take lex].
  destruct (Z.eqb_spec (component_compare x y) 0) as [He | He].
  - rewrite IH. cbv zeta. destruct (negb _); [easy |]. rewrite !Z.gtb_ltb.
    destruct (Z.ltb_spec (zlen a) (zlen b)), (Z.ltb_spec (Z.of_nat (S (length a))) (Z.of_nat (S (length b))));
      try lia; destruct (Z.ltb_spec (zlen b) (zlen a)),
        (Z.ltb_spec (Z.of_nat (S (length b))) (Z.of_nat (S (length a)))); (lia || easy).
  - cbv zeta. destruct (Z.eqb_spec (component_compare x y) 0); [easy |]. easy.
Qed.

(** [compare] of the sub names from [i] and [j], both in range, is the order of those. *)
Lemma compare_subnames_lex self i n other j m :
  name_fits self -> name_fits other -> 0 <= i <= zlen self -> 0 <= j <= zlen other ->
  0 <= n -> 0 <= m ->
  compare_subnames self i n other j m
  = Ok (name_lex (take (Z.to_nat n) (drop (Z.to_nat i) self))
          (take (Z.to_nat m) (drop (Z.to_nat j) other))).
Proof.
  intros Hfs Hfo Hi Hj Hn Hm. unfold name_fits in *. unfold compare_subnames, start_index.
  assert (Hfalse : (i <? 0) = false) by (apply Z.ltb_ge; lia).
  rewrite Hfalse. cbv zeta. rewrite Hfalse.
  rewrite !wrap64_small by lia.
  set (a := take (Z.to_nat n) (drop (Z.to_nat i) self)).
  set (b := take (Z.to_nat m) (drop (Z.to_nat j) other)).
  assert (Ha : Z.min n (zlen self - i) = zlen a)
    by (unfold a; rewrite length_take, length_drop; lia).
  assert (Hb : Z.min m (zlen other - j) = zlen b)
    by (unfold b; rewrite length_take, length_drop; lia).
  rewrite Ha, Hb.
  set (k := Nat.min (length a) (length b)).
  replace (Z.to_nat (Z.min (zlen a) (zlen b))) with k by lia.
  rewrite <- (Z2Nat.id i), <- (Z2Nat.id j) by lia.
  rewrite compare_loop_lex.
  - assert (Hka : take k (drop (Z.to_nat i) self) = take k a)
      by (unfold a; rewrite take_take; f_equal; lia).
    assert (Hkb : take k (drop (Z.to_nat j) other) = take k b)
      by (unfold b; rewrite take_take; f_equal; lia).
    rewrite Hka, Hkb, (lex_take a b). fold k. cbn [mbind result_bind]. cbv zeta.
    destruct (negb (name_lex (take k a) (take k b) =? 0)); [reflexivity |].
    destruct (zlen a <? zlen b); [reflexivity |].
    destruct (zlen a >? zlen b); reflexivity.
  - lia.
  - lia.
Qed.

Lemma name_compare_lex self other :
  name_fits self -> name_fits other -> name_compare self other = Ok (name_lex self other).
Proof.
  intros Hs Ho. unfold name_compare. rewrite compare_subnames_lex by (easy || lia).
  rewrite !drop_0, !firstn_all2 by lia. easy.
Qed.

(** *** The canonical order as a declaration *)

(** The TLV type of a component. *)
Definition tlv_type (c : Component) : Z :=
  match type_ c with
  | IMPLICIT_SHA256_DIGEST => 1
  | PARAMETERS_SHA256_DIGEST => 2
  | GENERIC => 8
  | OTHER_CODE => otherTypeCode_ c
  end.

(** The order of components: the smaller TLV type, then the shorter value, then the bytes where the
    values first differ. *)
Inductive component_before (a b : Component) : Prop :=
| smaller_type : tlv_type a < tlv_type b -> component_before a b
| shorter_value : tlv_type a = tlv_type b -> (length (value_ a) < length (value_ b))%nat -> component_before a b
| smaller_bytes p x y v w :
    tlv_type a = tlv_type b -> length (value_ a) = length (value_ b) ->
    value_ a = p ++ x :: v -> value_ b = p ++ y :: w -> x < y -> component_before a b.

(** The order of names: a name before those that continue it, otherwise the components where the names
    first differ. *)
Abbreviation name_before := (lex_before component_before).

Lemma component_code_tlv c : component_code c = tlv_type c.
Proof. unfold component_code, tlv_type. now destruct (type_ c). Qed.

Lemma component_before_spec a b : component_compare a b < 0 <-> component_before a b.
Proof.
  unfold component_compare. cbv zeta. rewrite (component_code_tlv a), (component_code_tlv b).
  destruct (Z.ltb_spec (tlv_type a) (tlv_type b)); [split; [now intros _; apply smaller_type | lia] |].
  destruct (Z.gtb_spec (tlv_type a) (tlv_type b)); [split; [lia | intros Hc; inversion Hc; lia] |].
  destruct (Z.ltb_spec (zlen (value_ a)) (zlen (value_ b))).
  { split; [| lia]. intros _. apply shorter_value; lia. }
  destruct (Z.gtb_spec (zlen (value_ a)) (zlen (value_ b))); [split; [lia | intros Hc; inversion Hc; lia] |].
  rewrite memcmp_before by lia. split.
  - inversion 1 as [v x k Hv Hw | p x y v w Hxy Hv Hw].
    + apply (f_equal (@length Z)) in Hw. rewrite length_app in Hw. cbn in Hw. subst. lia.
    + apply (smaller_bytes a b p x y v w); (easy || lia).
  - intros [| | p x y v w _ _ -> -> Hxy]; try lia. now constructor.
Qed.

Lemma name_before_spec a b :
  Forall component_ok a -> Forall component_ok b -> name_lex a b < 0 <-> name_before a b.
Proof.
  intros Ha Hb. apply (lex_before_spec _ _ component_ok); [| | easy | easy]; intros x y Hx Hy; [apply component_before_spec |].
  now apply component_compare_eq.
Qed.

Lemma appendName_app self name : appendName self name = self ++ name.
Proof.
  unfold appendName. revert self. induction name as [| c n IH]; intros self; cbn.
  - now rewrite app_nil_r.
  - unfold append at 2. now rewrite IH, <- app_assoc.
Qed.

(** [getSubName] from a start in range, or from the end. *)
Lemma getSubName_spec self i n :
  name_fits self -> - zlen self <= i < 2 ^ 31 -> 0 <= n < 2 ^ 32 ->
  getSubName self i n
  = take (Z.to_nat n) (drop (Z.to_nat (if i <? 0 then zlen self + i else i)) self).
Proof.
  intros Hf Hi Hn. unfold name_fits in *. unfold getSubName, start_index.
  set (s := if i <? 0 then zlen self + i else i).
  replace (if i <? 0 then to_int32 (wrap64 (zlen self - - i)) else i) with s.
  - assert (0 <= s < 2 ^ 31) by (unfold s; destruct (Z.ltb_spec i 0); lia).
    rewrite !wrap64_small by lia.
    destruct (Z_le_gt_dec s (zlen self)) as [Hs | Hs].
    + destruct (Z_le_gt_dec (s + n) (zlen self)).
      * rewrite Z.min_l by lia. f_equal. lia.
      * rewrite Z.min_r by lia. rewrite (take_ge _ (Z.to_nat n)) by (rewrite length_drop; lia).
        apply take_ge. rewrite length_drop. lia.
    + rewrite drop_ge by lia. now rewrite !take_nil.
  - unfold s. destruct (Z.ltb_spec i 0); [| easy].
    rewrite wrap64_small, to_int32_small by lia. lia.
Qed.

Lemma getPrefix_spec self n :
  name_fits self -> - zlen self <= n < 2 ^ 31 ->
  getPrefix self n = take (Z.to_nat (if n <? 0 then zlen self + n else n)) self.
Proof.
  intros Hf Hn. unfold name_fits in *. unfold getPrefix.
  destruct (Z.ltb_spec n 0).
  - rewrite wrap64_small, getSubName_spec by (unfold name_fits; lia). easy.
  - rewrite getSubName_spec by (unfold name_fits; lia). easy.
Qed.

Lemma name_get_last p c : name_get (p ++ [c]) (-1) = Ok c.
Proof.
  unfold name_get. cbn [Z.geb Z.compare]. rewrite length_app. cbn [length].
  destruct (Z.ltb_spec (-1) (- Z.of_nat (length p + 1))); [lia |].
  replace (Z.to_nat _) with (length p) by lia. now rewrite list_lookup_middle.
Qed.

Lemma name_get_second_last p c v : name_get (p ++ [c; v]) (-2) = Ok c.
Proof.
  unfold name_get. cbn [Z.geb Z.compare]. rewrite length_app. cbn [length].
  destruct (Z.ltb_spec (-2) (- Z.of_nat (length p + 2))); [lia |].
  replace (Z.to_nat _) with (length p) by lia. now rewrite list_lookup_middle.
Qed.

Lemma name_getSuccessor_last p c :
  name_fits (p ++ [c]) ->
  name_getSuccessor (p ++ [c]) = Ok (p ++ [component_getSuccessor c]).
Proof.
  intros Hf. unfold name_getSuccessor.
  rewrite name_get_last, getPrefix_spec by (easy || rewrite length_app; cbn [length]; lia).
  rewrite length_app. cbn [length]. destruct (Z.eqb_spec (Z.of_nat (length p + 1)) 0); [lia |].
  cbn. unfold append. do 2 f_equal.
  apply take_app_length'. lia.
Qed.

(** The loop over the components is the comparison of the first ones, value by value. *)
Lemma values_match_spec self name :
  (length self <= length name)%nat ->
  values_match (length self) self name = true <->
  map value_ self = take (length self) (map value_ name).
Proof.
  intros Hlen. unfold values_match. rewrite forallb_forall. split.
  - intros H. apply list_eq. intros i. rewrite lookup_take, !list_lookup_fmap.
    destruct (decide (i < length self)%nat) as [Hi | Hi].
    + assert (Hin : In i (rev (seq 0 (length self)))) by (rewrite <- in_rev; apply in_seq; lia).
      specialize (H i Hin).
      destruct (self !! i), (name !! i); try discriminate. cbn.
      apply bool_decide_eq_true in H. now rewrite H.
    + rewrite lookup_ge_None_2 by lia. easy.
  - intros H i Hi. rewrite <- in_rev in Hi. apply in_seq in Hi.
    apply (f_equal (fun l => l !! i)) in H.
    rewrite lookup_take, !list_lookup_fmap in H. rewrite decide_True in H by lia.
    destruct (lookup_lt_is_Some_2 self i) as [a Ha]; [lia |].
    destruct (lookup_lt_is_Some_2 name i) as [b Hb]; [lia |].
    rewrite Ha, Hb in *. cbn in H. apply bool_decide_eq_true. congruence.
Qed.

(** ** Numbers in components *)

Lemma name_equals_values a b : name_equals a b = true <-> map value_ a = map value_ b.
Proof.
  unfold name_equals. destruct (Z.eqb_spec (zlen a) (zlen b)) as [He | He]; cbn [negb].
  - rewrite values_match_spec, firstn_map, firstn_all2 by lia. easy.
  - split; [easy |]. intros H. apply (f_equal length) in H. rewrite !length_map in H. lia.
Qed.

Lemma name_match_prefix a b :
  name_match a b = true <-> exists b1 b2, b = b1 ++ b2 /\ map value_ b1 = map value_ a.
Proof.
  unfold name_match. destruct (Z.gtb_spec (zlen a) (zlen b)) as [Hgt | Hle].
  - split; [easy |]. intros (b1 & b2 & -> & Hm). apply (f_equal length) in Hm.
    rewrite !length_map in Hm. rewrite length_app in Hgt. lia.
  - rewrite values_match_spec by lia. rewrite firstn_map. split.
    + intros H. exists (take (length a) b), (drop (length a) b). now rewrite take_drop.
    + intros (b1 & b2 & -> & Hm). pose proof (f_equal length Hm) as Hl.
      rewrite !length_map in Hl. rewrite <- Hl, take_app_length. easy.
Qed.

Lemma bytes_to_number_mod bytes : bytes_to_number bytes = be_decode bytes mod 2 ^ 64.
Proof.
  unfold bytes_to_number, be_decode, wrap64.
  change 0 with (0 mod 2 ^ 64) at 1. generalize 0 as acc.
  induction bytes as [| b t IH]; intros acc; cbn [fold_left]; [easy |].
  rewrite <- IH. f_equal.
  rewrite (Z.mul_mod_idemp_l acc 256), Z.add_mod_idemp_l by lia. easy.
Qed.

Lemma be_decode_nonNegativeInteger n :
  0 <= n < 2 ^ 64 -> be_decode (nonNegativeInteger_bytes n) = n.
Proof.
  intros Hn. unfold nonNegativeInteger_bytes.
  case_sizes; try (apply be_decode_encode_small; lia). easy.
Qed.

Lemma nonNegativeInteger_bytes_ok n : 0 <= n -> bytes_ok (nonNegativeInteger_bytes n).
Proof.
  intros Hn. unfold nonNegativeInteger_bytes. case_sizes; try apply be_encode_ok.
  constructor; [unfold is_byte; lia | constructor].
Qed.

Lemma fromNumberWithMarker_bytes n marker :
  is_byte marker ->
  fromNumberWithMarker n marker
  = Ok (generic (marker :: nonNegativeInteger_bytes n)).
Proof.
  intros Hm. unfold is_byte in Hm. unfold fromNumberWithMarker.
  assert (Hand : Z.land marker 0xff = marker) by (rewrite land_255; now apply Z.mod_small).
  assert (Hone : nonNegativeInteger_bytes marker = [marker])
    by (unfold nonNegativeInteger_bytes; now destruct (Z.leb_spec marker 0xff); [| lia]).
  pose proof (zlen_nonNegativeInteger_bytes n).
  rewrite (TlvEncoder_run_emits 9 _ ([marker] ++ nonNegativeInteger_bytes n)); [easy | lia | |].
  - rewrite Hand, <- Hone. apply emits_andThen; apply emits_writeNonNegativeInteger.
  - cbn [app length]. lia.
Qed.

Lemma fromNumber_bytes n type code :
  (type = OTHER_CODE -> 0 <= code) ->
  fromNumber n type code
  = Ok (mkComponent type (match type with OTHER_CODE => code | _ => -1 end)
          (nonNegativeInteger_bytes n)).
Proof.
  intros Hcode. pose proof (zlen_nonNegativeInteger_bytes n).
  assert (Hrun : TlvEncoder_run 8 (writeNonNegativeInteger n) = Ok (nonNegativeInteger_bytes n))
    by (apply TlvEncoder_run_emits; [lia | apply emits_writeNonNegativeInteger | lia]).
  unfold fromNumber. rewrite Hrun. destruct type; try easy. specialize (Hcode eq_refl).
  unfold make_component. cbn.
  destruct (Z.eqb_spec code (-1)); [lia |]. now destruct (Z.ltb_spec code (-1)); [lia |].
Qed.

(** A longer encoding is only used for a larger number. *)
Lemma nonNegativeInteger_bytes_mono n m :
  0 <= n -> n < m -> m < 2 ^ 64 ->
  zlen (nonNegativeInteger_bytes n) <= zlen (nonNegativeInteger_bytes m).
Proof.
  intros. rewrite <- !sizeOfNonNegativeInteger_bytes. unfold sizeOfNonNegativeInteger.
  case_sizes; lia.
Qed.

Lemma little_endian_decode fuel n :
  0 <= n < 256 ^ Z.of_nat fuel ->
  bytes_ok (rev (little_endian fuel n)) /\ be_decode (rev (little_endian fuel n)) = n.
Proof.
  revert n. induction fuel as [| fuel IH]; intros n Hn; cbn [little_endian].
  { cbn in *. split; [constructor | lia]. }
  destruct (Z.eqb_spec n 0) as [-> | H0]; [split; [constructor | easy] |].
  rewrite Z.shiftr_div_pow2, land_255 by lia. change (2 ^ 8) with 256.
  rewrite Nat2Z.inj_succ, Z.pow_succ_r in Hn by lia.
  destruct (IH (n / 256)) as [Hok Hd].
  { split; [apply Z.div_pos; lia | apply Z.div_lt_upper_bound; lia]. }
  cbn [rev]. split.
  - apply Forall_app. split; [easy |]. constructor; [apply Z.mod_pos_bound; lia | constructor].
  - rewrite be_decode_app, Hd. cbn. pose proof (Z.div_mod n 256 ltac:(lia)). lia.
Qed.

(** ** Properties *)

(** C37: total order. For names of less than 2^31 components, each with a value of bytes and, when its type is
    the other code, a code below 2^31 that is not the code of a named type, [compare] always returns. What it
    returns is negative just when the first name is before the other in the declared order: a name is before
    those that continue it, and otherwise the components where the names first differ decide, by the smaller
    TLV type, then the shorter value, then the first different byte. It is zero just for equal names, and
    exchanging the names negates it; and the order is transitive. *)
Theorem name_compare_order (a b c : Name) :
  name_fits a -> name_fits b -> name_fits c ->
  Forall component_ok a -> Forall component_ok b ->
  exists x y z, name_compare a b = Ok x /\ name_compare b c = Ok y /\ name_compare a c = Ok z /\
    name_compare b a = Ok (- x) /\ (x = 0 <-> a = b) /\
    (x <= 0 -> y <= 0 -> z <= 0) /\ (x < 0 -> y <= 0 -> z < 0) /\ (x <= 0 -> y < 0 -> z < 0) /\
    (x < 0 <-> name_before a b) /\ (x > 0 <-> name_before b a).
Proof.
  intros Fa Fb Fc Ha Hb. exists (name_lex a b), (name_lex b c), (name_lex a c).
  rewrite !name_compare_lex by easy. repeat (split; [reflexivity |]).
  split; [now rewrite (tc_antisym (cmp := name_lex)) |]. split.
  - split; [| intros ->; apply tc_refl].
    rewrite lex_zero_eq. intros H. now apply Forall2_compare_eq.
  - repeat split; try (intros; apply (tc_trans a b c); lia).
    + now apply name_before_spec.
    + now apply name_before_spec.
    + rewrite <- name_before_spec, (tc_antisym (cmp := name_lex) a b) by easy. lia.
    + rewrite <- name_before_spec, (tc_antisym (cmp := name_lex) a b) by easy. lia.
Qed.

(** Sub names. The five argument [compare] compares what [getSubName] gives, for start indexes
    that are not negative. *)
Theorem compare_subnames_getSubName (a b : Name) (i n j m : Z) :
  name_fits a -> name_fits b -> 0 <= i <= zlen a -> 0 <= j <= zlen b ->
  0 <= n < 2 ^ 32 -> 0 <= m < 2 ^ 32 ->
  compare_subnames a i n b j m = name_compare (getSubName a i n) (getSubName b j m).
Proof.
  intros Fa Fb Hi Hj Hn Hm. unfold name_fits in *.
  rewrite compare_subnames_lex, !getSubName_spec by (easy || unfold name_fits; lia).
  replace (i <? 0) with false by (symmetry; apply Z.ltb_ge; lia).
  replace (j <? 0) with false by (symmetry; apply Z.ltb_ge; lia).
  rewrite name_compare_lex; [easy | |]; unfold name_fits; rewrite length_take, length_drop; lia.
Qed.

(** Negative start in the other name. The code does not adjust it when the start in this name is
    not negative, so the read is out of range where [getSubName] gives the end of the name. *)
Theorem compare_negative_other_start :
  let a := generic [1] in
  compare_subnames [a] 0 1 [a] (-1) 1 = Err (Failed UndefinedBehaviour) /\
  name_compare (getSubName [a] 0 1) (getSubName [a] (-1) 1) = Ok 0.
Proof. split; reflexivity. Qed.

(** Successor. The successor of a name that is not empty comes after it, and a name between the two
    in the canonical order is a continuation of the name itself. *)
Theorem name_successor (p : Name) (c : Component) :
  name_fits (p ++ [c]) -> Forall component_ok (p ++ [c]) ->
  exists s, name_getSuccessor (p ++ [c]) = Ok s /\ name_lex (p ++ [c]) s < 0 /\
    forall z, Forall component_ok z -> name_lex (p ++ [c]) z < 0 -> name_lex z s < 0 ->
      exists w, z = (p ++ [c]) ++ w.
Proof.
  intros Hf Hok. eexists. split; [now apply name_getSuccessor_last |].
  apply Forall_app in Hok as [Hp Hc]. inversion Hc as [| ? ? Hc1 _]; subst.
  destruct (getSuccessor_least c (proj1 Hc1)) as (Hs & Hlt & Hleast).
  split.
  - rewrite lex_app_same. cbn. destruct (Z.eqb_spec (component_compare c (component_getSuccessor c)) 0); lia.
  - intros z Hz Hl Hr. destruct (lex_between _ _ _ _ Hl Hr) as (q & w & -> & Hq & Hx & Hy).
    apply Forall_app in Hz as [Hzq Hzw].
    apply Forall2_compare_eq in Hq as <-; [| easy | easy].
    destruct w as [| d w]; [cbn in Hx; lia |]. inversion Hzw as [| ? ? Hd _]; subst. cbn in Hx, Hy.
    destruct (Z.eqb_spec (component_compare c d) 0) as [He | He].
    + exists w. apply component_compare_eq in He as <-; [| easy | easy]. now rewrite <- app_assoc.
    + exfalso. assert (Hle : component_compare (component_getSuccessor c) d <= 0).
      { pose proof Hx as Hx'. apply component_compare_lt in Hx'; [| apply Hc1 | apply Hd].
        destruct Hx' as [Hcode | [Hcode _]]; [| apply Hleast; [apply Hd | easy | easy]].
        rewrite <- (getSuccessor_code c) in Hcode. apply Z.lt_le_incl.
        apply component_compare_lt; [easy | apply Hd | now left]. }
      rewrite (tc_antisym (component_getSuccessor c) d) in Hy.
      destruct (Z.eqb_spec (- component_compare (component_getSuccessor c) d) 0); [| lia].
      destruct w; cbn in Hy; lia.
Qed.

(** Naming conventions. A number goes into a component with a marker and comes back; the component has
    that marker and no other; and the canonical order of such components is the order of the
    numbers. *)
Theorem marker_numbers (marker n m : Z) :
  is_byte marker -> 0 <= n < 2 ^ 64 -> 0 <= m < 2 ^ 64 ->
  exists c d, fromNumberWithMarker n marker = Ok c /\ fromNumberWithMarker m marker = Ok d /\
    has_marker c marker = true /\ toNumberWithMarker c marker = Ok n /\
    (forall k, k <> marker -> has_marker c k = false /\ toNumberWithMarker c k = Err marker_error) /\
    (n < m -> component_compare c d < 0) /\ component_ok c.
Proof.
  intros Hk Hn Hm. do 2 eexists. rewrite !fromNumberWithMarker_bytes by easy.
  do 2 (split; [reflexivity |]).
  unfold has_marker, toNumberWithMarker. cbn [generic value_ type_]. rewrite Z.eqb_refl.
  split; [easy |]. split; [| split; [| split]].
  - now rewrite bytes_to_number_mod, be_decode_nonNegativeInteger, Z.mod_small.
  - intros k Hne. now destruct (Z.eqb_spec marker k); [congruence |].
  - intros Hlt. pose proof (nonNegativeInteger_bytes_ok n ltac:(lia)) as Bn.
    pose proof (nonNegativeInteger_bytes_ok m ltac:(lia)) as Bm.
    pose proof (nonNegativeInteger_bytes_mono n m ltac:(lia) Hlt ltac:(lia)) as Hmono.
    apply component_compare_lt; [now constructor | now constructor |]. right.
    split; [easy |]. cbn [value_ generic length].
    destruct (Z_lt_le_dec (zlen (nonNegativeInteger_bytes n)) (zlen (nonNegativeInteger_bytes m)));
      [left; lia |].
    assert (Heq : zlen (nonNegativeInteger_bytes n) = zlen (nonNegativeInteger_bytes m)) by lia.
    right. rewrite !be_decode_cons, !be_decode_nonNegativeInteger, Heq by easy. lia.
  - split; [| easy]. constructor; [easy |]. apply nonNegativeInteger_bytes_ok. lia.
Qed.

(** Prefixes. [match] accepts the names whose first components have the same values, and [equals]
    the names whose components all have. *)
Theorem name_match_values (a b : Name) :
  (name_match a b = true <->
     exists b1 b2, b = b1 ++ b2 /\ map value_ b1 = map value_ a) /\
  (name_equals a b = true <-> map value_ a = map value_ b).
Proof. split; [apply name_match_prefix | apply name_equals_values]. Qed.

(** Component types. [equals] does not look at the types, so two names can be equal for it
    while [compare] orders them. *)
Theorem equals_ignores_type :
  exists a b, Forall component_ok a /\ Forall component_ok b /\
    name_equals a b = true /\ name_compare a b = Ok (-1).
Proof.
  exists [mkComponent OTHER_CODE 0 [1]], [generic [1]].
  repeat split; repeat constructor; cbn; lia.
Qed.

(** ** Witnesses *)

Ltac names_ok := repeat constructor; cbn; lia.

Lemma name_compare_order_witness :
  exists x y z, name_compare [generic [97]] [generic [98]] = Ok x /\
    name_compare [generic [98]] [generic [98]; generic []] = Ok y /\
    name_compare [generic [97]] [generic [98]; generic []] = Ok z /\ x < 0 /\ y < 0 /\ z < 0 /\
    name_before [generic [97]] [generic [98]].
Proof.
  destruct (name_compare_order [generic [97]] [generic [98]] [generic [98]; generic []])
    as (x & y & z & Hx & Hy & Hz & _ & _ & _ & Hlt & _ & Hb & _); try reflexivity; try names_ok.
  exists x, y, z. split; [exact Hx |]. split; [exact Hy |]. split; [exact Hz |].
  vm_compute in Hx, Hy. injection Hx as <-. injection Hy as <-.
  split; [lia |]. split; [lia |]. split; [apply Hlt; lia |]. apply Hb; lia.
Defined.

Lemma compare_subnames_getSubName_witness :
  compare_subnames [generic [97]; generic [98]] 1 1 [generic [98]] 0 1
  = name_compare (getSubName [generic [97]; generic [98]] 1 1) (getSubName [generic [98]] 0 1).
Proof.
  apply (compare_subnames_getSubName [generic [97]; generic [98]] [generic [98]] 1 1 0 1);
    unfold name_fits; cbn; lia.
Defined.

Lemma name_successor_witness :
  exists s, name_getSuccessor [generic [97]] = Ok s /\ name_lex [generic [97]] s < 0.
Proof.
  destruct (name_successor [] (generic [97])) as (s & Hs & Hlt & _); [reflexivity | names_ok |].
  exists s. split; [exact Hs | exact Hlt].
Defined.

Lemma marker_numbers_witness :
  exists c, fromNumberWithMarker 300 0xFD = Ok c /\ toNumberWithMarker c 0xFD = Ok 300.
Proof.
  destruct (marker_numbers 0xFD 300 301) as (c & d & Hc & _ & _ & Hn & _); try (unfold is_byte; lia).
  exists c. split; [exact Hc | exact Hn].
Defined.
