(* ===== verification/NameMap.v ===== *)
(** * std::map with names as keys

    The entries in the order of the keys, which is [Name::operator<], that is [compare] below zero. Used
    by the certificate caches, the trust anchors and the PIB. *)

From stdpp Require Import base sorting list numbers option sets.
From Stdlib Require Import ZArith Lia.
From S2P Require Import Prelude Order Name.
Open Scope Z_scope.

(** [Name::operator<]. *)
Definition name_less (a b : Name) : bool :=
  match name_compare a b with Ok z => z <? 0 | Err _ => false end.

Abbreviation NameMap V := (list (Name * V)).

Section Map.
Context {V : Type}.

(** [lower_bound]: the entries from the first key that is not less than [key]. *)
Fixpoint lower_bound (m : NameMap V) (key : Name) : NameMap V :=
  match m with
  | [] => []
  | (k, v) :: m => if name_less k key then lower_bound m key else (k, v) :: m
  end.

Definition map_find (m : NameMap V) (key : Name) : option V :=
  match lower_bound m key with
  | (k, v) :: _ => if name_less key k then None else Some v
  | [] => None
  end.

(** [m[key] = v]. *)
Fixpoint map_set (m : NameMap V) (key : Name) (v : V) : NameMap V :=
  match m with
  | [] => [(key, v)]
  | (k, x) :: m =>
      if name_less k key then (k, x) :: map_set m key v
      else if name_less key k then (key, v) :: (k, x) :: m
      else (k, v) :: m
  end.

(** [m.erase(key)]. *)
Fixpoint map_erase (m : NameMap V) (key : Name) : NameMap V :=
  match m with
  | [] => []
  | (k, x) :: m =>
      if name_less k key then (k, x) :: map_erase m key
      else if name_less key k then (k, x) :: m
      else m
  end.

(** What the operations leave in the map, whatever the keys are. *)
Lemma map_set_in m key v e : e ∈ map_set m key v -> e.2 = v \/ e ∈ m.
Proof.
  induction m as [| [k x] m IH]; cbn [map_set]; [intros ->%list_elem_of_singleton; now left |].
  destruct (name_less k key); [| destruct (name_less key k)].
  - intros [-> | He]%elem_of_cons; [right; constructor |]. destruct (IH He); [now left | right; now constructor].
  - intros [-> | He]%elem_of_cons; [now left | now right].
  - intros [-> | He]%elem_of_cons; [now left | right; now constructor].
Qed.

Lemma lower_bound_in m key e : e ∈ lower_bound m key -> e ∈ m.
Proof.
  induction m as [| [k x] m IH]; cbn [lower_bound]; [easy |].
  destruct (name_less k key); [intros He; constructor; now apply IH | easy].
Qed.

Lemma map_erase_in m key e : e ∈ map_erase m key -> e ∈ m.
Proof.
  induction m as [| [k x] m IH]; cbn [map_erase]; [easy |].
  destruct (name_less k key); [| destruct (name_less key k)].
  - intros [-> | He]%elem_of_cons; [constructor | constructor; now apply IH].
  - easy.
  - intros He. now constructor.
Qed.

Lemma map_find_in m key v : map_find m key = Some v -> exists k, (k, v) ∈ m.
Proof.
  unfold map_find. pose proof (lower_bound_in m key) as Hin.
  destruct (lower_bound m key) as [| [k x] l]; [easy |]. destruct (name_less key k); [easy |].
  intros [= ->]. exists k. apply Hin. constructor.
Qed.

(** ** The order of the keys *)

Definition key_ok (n : Name) : Prop := name_fits n /\ Forall component_ok n.

Lemma name_less_lex a b : name_fits a -> name_fits b -> name_less a b = true <-> name_lex a b < 0.
Proof. intros Ha Hb. unfold name_less. rewrite name_compare_lex by easy. apply Z.ltb_lt. Qed.

Lemma name_less_false a b : name_fits a -> name_fits b -> name_less a b = false <-> 0 <= name_lex a b.
Proof. intros Ha Hb. unfold name_less. rewrite name_compare_lex by easy. apply Z.ltb_ge. Qed.

Lemma name_lex_zero a b : Forall component_ok a -> Forall component_ok b -> name_lex a b = 0 <-> a = b.
Proof.
  intros Ha Hb. split; [| intros ->; apply (tc_refl (cmp := name_lex))].
  intros H%lex_zero_eq. now apply Forall2_compare_eq.
Qed.

(** The keys are valid and strictly increasing. *)
Definition map_ok (m : NameMap V) : Prop :=
  Forall (fun e => key_ok e.1) m /\ StronglySorted (fun e e' => name_lex e.1 e'.1 < 0) m.

Lemma map_ok_nil : map_ok [].
Proof. split; constructor. Qed.

Lemma map_ok_cons e m :
  map_ok (e :: m) <-> key_ok e.1 /\ Forall (fun e' => name_lex e.1 e'.1 < 0) m /\ map_ok m.
Proof.
  unfold map_ok. rewrite Forall_cons. split.
  - intros ((He & Hk) & Hs). apply StronglySorted_inv in Hs as [Hs Hlt]. easy.
  - intros (He & Hlt & Hk & Hs). split; [easy |]. now constructor.
Qed.

Lemma map_ok_unique m k v v' : map_ok m -> (k, v) ∈ m -> (k, v') ∈ m -> v = v'.
Proof.
  induction m as [| e m IH]; intros Hm Hv Hv'; [now apply elem_of_nil in Hv |].
  apply map_ok_cons in Hm as (He & Hlt & Hm). rewrite Forall_forall in Hlt.
  apply elem_of_cons in Hv as [<- | Hv], Hv' as [Hv' | Hv'].
  - congruence.
  - specialize (Hlt _ Hv'). cbn in Hlt. pose proof (tc_refl (cmp := name_lex) k). lia.
  - subst e. specialize (Hlt _ Hv). cbn in Hlt. pose proof (tc_refl (cmp := name_lex) k). lia.
  - now apply IH.
Qed.

(** What [lower_bound] leaves out is less than the key, and what it leaves is not. *)
Lemma lower_bound_spec m key :
  map_ok m -> name_fits key ->
  exists before, m = before ++ lower_bound m key /\ Forall (fun e => name_lex e.1 key < 0) before /\
    Forall (fun e => 0 <= name_lex e.1 key) (lower_bound m key) /\ map_ok (lower_bound m key).
Proof.
  induction m as [| [k v] m IH]; intros Hm Hkey; [exists []; split_and!; constructor; constructor |].
  pose proof Hm as Hm'. apply map_ok_cons in Hm' as ([Hkf Hkc] & Hlt & Hm'). cbn in *.
  destruct (name_less k key) eqn:Hless.
  - apply name_less_lex in Hless; [| easy | easy]. destruct (IH Hm' Hkey) as (before & He & Hb & Ha & Ho).
    exists ((k, v) :: before). split_and!; [now rewrite He at 1 | now constructor | easy | easy].
  - apply name_less_false in Hless; [| easy | easy]. exists []. split_and!; [easy | constructor | | easy].
    constructor; [easy |]. eapply Forall_impl; [exact Hlt |]. intros e He. cbn in He.
    destruct (Z_lt_le_dec (name_lex e.1 key) 0) as [Hx |]; [| easy].
    pose proof (cmp_lt_trans (cmp := name_lex) k e.1 key He Hx). lia.
Qed.

Lemma map_set_elem m key v e :
  map_ok m -> key_ok key -> e ∈ map_set m key v <-> e = (key, v) \/ (e ∈ m /\ e.1 <> key).
Proof.
  intros Hm [Hkf Hkc]. induction m as [| [k x] m IH]; cbn [map_set].
  { rewrite elem_of_cons. split; [intros [-> | He]; [now left | now apply elem_of_nil in He] |].
    intros [-> | [He _]]; [now left | now apply elem_of_nil in He]. }
  apply map_ok_cons in Hm as ([Hf Hc] & Hlt & Hm). specialize (IH Hm). rewrite Forall_forall in Hlt. cbn in *.
  destruct (name_less k key) eqn:H1.
  - apply name_less_lex in H1; [| easy | easy].
    assert (k <> key) by (intros ->; pose proof (tc_refl (cmp := name_lex) key); lia).
    rewrite !elem_of_cons, IH. destruct e as [k' v']. cbn. naive_solver.
  - apply name_less_false in H1; [| easy | easy]. destruct (name_less key k) eqn:H2.
    + apply name_less_lex in H2; [| easy | easy].
      assert (Hne : forall e', e' ∈ (k, x) :: m -> e'.1 <> key).
      { intros e' He' E. subst key. apply elem_of_cons in He' as [-> | He']; cbn in *.
        - pose proof (tc_refl (cmp := name_lex) k). lia.
        - specialize (Hlt _ He'). pose proof (cmp_lt_trans (cmp := name_lex) _ _ _ H2 Hlt).
          pose proof (tc_refl (cmp := name_lex) e'.1). lia. }
      rewrite elem_of_cons. split; [intros [-> | He]; [now left | right; split; [easy | now apply Hne]] |].
      intros [-> | [He _]]; [now left | now right].
    + apply name_less_false in H2; [| easy | easy]. rewrite (tc_antisym (cmp := name_lex) k key) in H2.
      assert (k = key) as -> by (apply name_lex_zero; [easy | easy | lia]).
      assert (Hne : forall e', e' ∈ m -> e'.1 <> key).
      { intros e' He' E. specialize (Hlt _ He'). rewrite E in Hlt. pose proof (tc_refl (cmp := name_lex) key). lia. }
      rewrite !elem_of_cons. split.
      * intros [-> | He]; [now left | right; split; [now right | now apply Hne]].
      * intros [-> | [[-> | He] Hn]]; [now left | easy | now right].
Qed.

Lemma map_set_ok m key v : map_ok m -> key_ok key -> map_ok (map_set m key v).
Proof.
  intros Hm [Hkf Hkc]. induction m as [| [k x] m IH]; cbn [map_set].
  { apply map_ok_cons. split_and!; [easy | constructor | apply map_ok_nil]. }
  pose proof Hm as Hm'. apply map_ok_cons in Hm' as ([Hf Hc] & Hlt & Hm'). cbn in *.
  destruct (name_less k key) eqn:H1.
  - apply name_less_lex in H1; [| easy | easy]. apply map_ok_cons. split_and!; [easy | | now apply IH].
    rewrite Forall_forall in *. intros e He. apply map_set_elem in He as [-> | [He _]]; [easy | now apply Hlt | easy | easy].
  - apply name_less_false in H1; [| easy | easy]. destruct (name_less key k) eqn:H2.
    + apply name_less_lex in H2; [| easy | easy]. apply map_ok_cons. split_and!; [easy | | easy].
      constructor; [easy |]. eapply Forall_impl; [exact Hlt |]. intros e He. cbn in *.
      now apply (cmp_lt_trans (cmp := name_lex) key k).
    + now apply map_ok_cons.
Qed.

(** What is set is found, also when the keys of the map are in no order. *)
Lemma map_find_same m key v : name_fits key -> map_find (map_set m key v) key = Some v.
Proof.
  intros Hk. assert (Hr : name_less key key = false) by (apply name_less_false; [easy | easy |]; pose proof (tc_antisym (cmp := name_lex) key key); lia).
  unfold map_find. induction m as [| [k x] m IH]; cbn [map_set].
  - cbn [lower_bound]. now rewrite !Hr.
  - destruct (name_less k key) eqn:E; [cbn [lower_bound]; now rewrite E |].
    destruct (name_less key k) eqn:E'; cbn [lower_bound]; [now rewrite !Hr | now rewrite E, E'].
Qed.

Lemma map_erase_elem m key e :
  map_ok m -> key_ok key -> e ∈ map_erase m key <-> e ∈ m /\ e.1 <> key.
Proof.
  intros Hm [Hkf Hkc]. induction m as [| [k x] m IH]; cbn [map_erase].
  { split; [intros He; now apply elem_of_nil in He | intros [He _]; now apply elem_of_nil in He]. }
  apply map_ok_cons in Hm as ([Hf Hc] & Hlt & Hm). specialize (IH Hm). rewrite Forall_forall in Hlt. cbn in *.
  assert (Hrefl := tc_refl (cmp := name_lex) key).
  destruct (name_less k key) eqn:H1.
  - apply name_less_lex in H1; [| easy | easy]. assert (k <> key) by (intros ->; lia).
    rewrite !elem_of_cons, IH. destruct e as [k' v']. cbn. naive_solver.
  - apply name_less_false in H1; [| easy | easy]. destruct (name_less key k) eqn:H2.
    + apply name_less_lex in H2; [| easy | easy]. split; [| tauto]. intros He. split; [easy |].
      apply elem_of_cons in He as [-> | He]; cbn; intros E.
      * subst. lia.
      * specialize (Hlt _ He). rewrite E in Hlt. pose proof (cmp_lt_trans (cmp := name_lex) _ _ _ H2 Hlt). lia.
    + apply name_less_false in H2; [| easy | easy]. rewrite (tc_antisym (cmp := name_lex) k key) in H2.
      assert (k = key) as -> by (apply name_lex_zero; [easy | easy | lia]).
      rewrite elem_of_cons. split.
      * intros He. split; [now right |]. intros E. specialize (Hlt _ He). rewrite E in Hlt. lia.
      * intros [[-> | He] Hn]; [easy | easy].
Qed.

Lemma sublist_map_ok m m' : sublist m m' -> map_ok m' -> map_ok m.
Proof.
  intros Hsub. induction Hsub as [| e m m' Hsub IH | e m m' Hsub IH]; intros Hm; [easy | |].
  - apply map_ok_cons in Hm as (He & Hlt & Hm). apply map_ok_cons. split_and!; [easy | | now apply IH].
    rewrite Forall_forall in *. intros x Hx. apply Hlt. now apply (elem_of_sublist _ _ _ Hx).
  - apply map_ok_cons in Hm as (_ & _ & Hm). now apply IH.
Qed.

Lemma map_erase_sublist m key : sublist (map_erase m key) m.
Proof.
  induction m as [| [k x] m IH]; cbn [map_erase]; [constructor |].
  destruct (name_less k key); [now constructor |]. destruct (name_less key k); [reflexivity | now constructor].
Qed.

Lemma map_erase_ok m key : map_ok m -> map_ok (map_erase m key).
Proof. apply sublist_map_ok, map_erase_sublist. Qed.

(** The keys with a prefix are next to each other from the lower bound of the prefix. *)
Lemma between_prefix (prefix k suffix : Name) :
  key_ok prefix -> key_ok k -> 0 <= name_lex k prefix -> name_lex k (prefix ++ suffix) < 0 ->
  prefix `prefix_of` k.
Proof.
  intros [_ Hp] [_ Hk] Hle Hlt. destruct (Z.eqb_spec (name_lex k prefix) 0) as [He | Hne].
  { apply name_lex_zero in He as ->; easy. }
  assert (Hl : name_lex (prefix ++ []) k < 0).
  { rewrite app_nil_r, (tc_antisym (cmp := name_lex) k prefix). lia. }
  destruct (lex_between _ _ _ _ Hl Hlt) as (q & w & -> & Hq & _ & _).
  apply Forall_app in Hk as [Hk _]. rewrite (Forall2_compare_eq _ _ Hq Hp Hk). now apply prefix_app_r.
Qed.

Lemma map_find_elem m key v : map_ok m -> key_ok key -> map_find m key = Some v <-> (key, v) ∈ m.
Proof.
  intros Hm [Hkf Hkc]. destruct (lower_bound_spec m key Hm Hkf) as (before & He & Hb & Ha & Ho). unfold map_find.
  assert (Hin : (key, v) ∈ m <-> (key, v) ∈ lower_bound m key).
  { rewrite He at 1. rewrite elem_of_app. split; [intros [Hx | Hx]; [| easy] | tauto].
    rewrite Forall_forall in Hb. specialize (Hb _ Hx). cbn in Hb. pose proof (tc_refl (cmp := name_lex) key). lia. }
  rewrite Hin. destruct (lower_bound m key) as [| [k x] l]; [split; [easy | intros Hx; now apply elem_of_nil in Hx] |].
  apply map_ok_cons in Ho as ([Hf Hc] & Hlt & Ho). rewrite Forall_forall in Hlt. apply Forall_cons in Ha as [Ha _]. cbn in *.
  destruct (name_less key k) eqn:H2.
  - apply name_less_lex in H2; [| easy | easy]. split; [easy |]. intros [E | Hx]%elem_of_cons.
    + injection E as -> ->. pose proof (tc_refl (cmp := name_lex) k). lia.
    + specialize (Hlt _ Hx). cbn in Hlt. pose proof (cmp_lt_trans (cmp := name_lex) _ _ _ H2 Hlt).
      pose proof (tc_refl (cmp := name_lex) key). lia.
  - apply name_less_false in H2; [| easy | easy]. rewrite (tc_antisym (cmp := name_lex) k key) in H2.
    assert (k = key) as -> by (apply name_lex_zero; [easy | easy | lia]). rewrite elem_of_cons. split.
    + intros [= ->]. now left.
    + intros [E | Hx]; [now injection E as -> |]. specialize (Hlt _ Hx). cbn in Hlt. pose proof (tc_refl (cmp := name_lex) key). lia.
Qed.
End Map.

(** Names of generic components. *)
Lemma key_ok_generic (values : list (list Z)) :
  (zlen values <? 2 ^ 31) && forallb (forallb (fun b => (0 <=? b) && (b <? 256))) values = true ->
  key_ok (map generic values).
Proof.
  intros [Hl%Z.ltb_lt Hb]%andb_true_iff. split; [unfold name_fits; now rewrite length_map |].
  apply Forall_map. rewrite forallb_forall in Hb. apply Forall_forall. intros v Hv%list_elem_of_In.
  split; [| reflexivity]. apply Forall_forall. intros b Hx%list_elem_of_In. specialize (Hb v Hv).
  rewrite forallb_forall in Hb. specialize (Hb b Hx). apply andb_true_iff in Hb as [H1%Z.leb_le H2%Z.ltb_lt].
  unfold is_byte. lia.
Qed.
