(* ===== verification/TlvName.v ===== *)
(** * The TLV encoding of names

    src/c/encoding/tlv/tlv-name.c. The offsets of the signed portion of a name (its value
    without the last component), which the C functions return through pointers, are results here. *)

From stdpp Require Import base list numbers option.
From Stdlib Require Import ZArith Lia.
From S2P Require Import Prelude Encoder Decoder Blocks Name.
Open Scope Z_scope.

Definition ndn_Tlv_Name : Z := 7.

(** ** Encoding *)

(** [(unsigned int)component->otherTypeCode] for an other code. *)
Definition component_tlv_type (component : Component) : Z :=
  match type_ component with
  | OTHER_CODE => otherTypeCode_ component mod 2 ^ 32
  | t => type_code t
  end.

Definition encodeTlvNameComponent (component : Component) : writer :=
  match type_ component with
  | OTHER_CODE =>
      if otherTypeCode_ component <? 0
      then fun _ => Err NDN_ERROR_Name_component_otherTypeCode_must_be_non_negative
      else writeBlobTlv (component_tlv_type component) (value_ component)
  | _ => writeBlobTlv (component_tlv_type component) (value_ component)
  end.

(** The first loop of [encodeTlvName]. *)
Definition nameValueLength (name : Name) : Z :=
  fold_left (fun len c => wrap64 (len + sizeOfBlobTlv (component_tlv_type c) (value_ c))) name 0.

(** The second loop: the offset before the final component is [signedPortionEndOffset]. *)
Fixpoint encode_components (name : Name) (signedPortionEndOffset : Z) : Out Z :=
  match name with
  | [] => mret signedPortionEndOffset
  | [c] =>
      signedPortionEndOffset ← get_encoder_offset;
      _ ← write (encodeTlvNameComponent c);
      mret signedPortionEndOffset
  | c :: name =>
      _ ← write (encodeTlvNameComponent c);
      encode_components name signedPortionEndOffset
  end.

Definition encodeTlvName (name : Name) : Out (Z * Z) :=
  _ ← write (writeTypeAndLength ndn_Tlv_Name (nameValueLength name));
  signedPortionBeginOffset ← get_encoder_offset;
  signedPortionEndOffset ← encode_components name signedPortionBeginOffset;
  mret (signedPortionBeginOffset, signedPortionEndOffset).

(** ** Decoding *)

(** The expected type of [readBlobTlv] is an [unsigned int]. *)
Definition decodeTlvNameComponent : Dec Component :=
  saveOffset ← get_offset;
  type ← readVarNumber;
  _ ← seek saveOffset;
  value ← readBlob (type mod 2 ^ 32);
  mret (if type =? 1 then mkComponent IMPLICIT_SHA256_DIGEST (-1) value
        else if type =? 2 then mkComponent PARAMETERS_SHA256_DIGEST (-1) value
        else if type =? 8 then mkComponent GENERIC (-1) value
        else mkComponent OTHER_CODE (to_int32 type) value).

(** The loop; [name] is what is decoded so far, in an array with room for [maxComponents]. *)
Fixpoint decode_components (fuel : nat) (maxComponents endOffset : Z) (name : Name)
    (signedPortionEndOffset : Z) : Dec (Name * Z) := fun self =>
  if d_offset self <? endOffset then
    match fuel with
    | O => Err OutOfFuel
    | S fuel =>
        (if zlen name >=? maxComponents then
           throw NDN_ERROR_attempt_to_add_a_component_past_the_maximum_number_of_components_allowed_in_the_name
         else
           c ← decodeTlvNameComponent;
           decode_components fuel maxComponents endOffset (name ++ [c]) (d_offset self)) self
    end
  else Ok (name, signedPortionEndOffset, self).

(** Every turn appends a component, so the array bounds the turns. *)
Definition decodeTlvName (maxComponents : Z) : Dec (Name * (Z * Z)) :=
  nested ndn_Tlv_Name (fun endOffset =>
    signedPortionBeginOffset ← get_offset;
    '(name, signedPortionEndOffset) ←
      decode_components (S (Z.to_nat maxComponents)) maxComponents endOffset [] signedPortionBeginOffset;
    mret (name, (signedPortionBeginOffset, signedPortionEndOffset))).

(** ** What is encoded *)

Definition component_block (c : Component) : Block := (component_tlv_type c, value_ c).
Definition name_blocks (name : Name) : list Block := map component_block name.
Definition name_block (name : Name) : Block := (ndn_Tlv_Name, blocks_bytes (name_blocks name)).
Definition name_tlv (name : Name) : list Z := block_bytes (name_block name).

Lemma component_tlv_type_ok c : component_ok c -> 0 <= component_tlv_type c < 2 ^ 32.
Proof.
  intros [_ Hc]. unfold component_tlv_type. destruct (type_ c); cbn in *; try lia.
  apply Z.mod_pos_bound. lia.
Qed.

Lemma name_blocks_ok name : Forall component_ok name -> Forall type_ok (name_blocks name).
Proof.
  intros H. apply Forall_map. revert H. apply Forall_impl. intros c Hc.
  pose proof (component_tlv_type_ok c Hc). unfold type_ok. cbn. lia.
Qed.

Lemma emits_component c :
  component_ok c -> zlen (block_bytes (component_block c)) < 2 ^ 64 ->
  Emits (encodeTlvNameComponent c) (block_bytes (component_block c)).
Proof.
  intros [_ Hc] Hl. unfold encodeTlvNameComponent. pose proof (emits_writeBlobTlv _ _ Hl) as He.
  destruct (type_ c); try exact He. now destruct (Z.ltb_spec (otherTypeCode_ c) 0); [lia |].
Qed.

Lemma blocks_bytes_last_le a b : zlen (block_bytes b) <= zlen (blocks_bytes (a ++ [b])).
Proof. rewrite blocks_bytes_app, length_app. cbn. rewrite app_nil_r. lia. Qed.

Lemma nameValueLength_ok name :
  zlen (blocks_bytes (name_blocks name)) < 2 ^ 64 ->
  nameValueLength name = zlen (blocks_bytes (name_blocks name)).
Proof.
  induction name as [| c name IH] using rev_ind; [easy |]. unfold nameValueLength, name_blocks in *.
  rewrite fold_left_app, map_app, blocks_bytes_app, length_app, Nat2Z.inj_add. cbn [map fold_left].
  intros Hl. rewrite IH by lia. unfold blocks_bytes in *. cbn [map concat] in *. rewrite app_nil_r in *.
  unfold block_bytes, component_block, sizeOfBlobTlv in *. cbn [fst snd] in *.
  rewrite zlen_tlv_bytes in *. rewrite !sizeOfVarNumber_bytes.
  pose proof (zlen_varNumber_bytes (component_tlv_type c)).
  pose proof (zlen_varNumber_bytes (zlen (value_ c))).
  rewrite (wrap64_small (_ + _ + _)) by lia. now rewrite wrap64_small by lia.
Qed.

Lemma emits_encode_components name o :
  Forall component_ok name -> zlen (blocks_bytes (name_blocks name)) < 2 ^ 64 ->
  Emits (only (encode_components name o)) (blocks_bytes (name_blocks name)).
Proof.
  revert o. induction name as [| c name IH]; intros o Hn Hl; [apply emits_ret |].
  pose proof (List.Forall_inv Hn) as Hc. pose proof (List.Forall_inv_tail Hn) as Hn'.
  unfold name_blocks in *. cbn [map] in *. unfold blocks_bytes in *. cbn [map concat] in *.
  rewrite length_app in Hl.
  assert (Hec : Emits (only (write (encodeTlvNameComponent c))) (block_bytes (component_block c))).
  { apply emits_write, emits_component; [easy | lia]. }
  destruct name as [| c' name].
  - rewrite <- (app_nil_l (_ ++ _)). apply emits_bind; [apply emits_offset |]. intros o'.
    apply emits_bind; [easy |]. intros _. apply emits_ret.
  - apply emits_bind; [easy |]. intros _. apply IH; [easy | lia].
Qed.

(** The offset of the final component, for components from the offset [o]. *)
Definition final_offset (name : Name) (o : Z) : Z := o + zlen (blocks_bytes (name_blocks (removelast name))).

Lemma returns_encode_components name o s :
  Forall component_ok name -> zlen (blocks_bytes (name_blocks name)) < 2 ^ 64 ->
  Returns o (encode_components name s) (blocks_bytes (name_blocks name))
    (match name with [] => s | _ => final_offset name o end).
Proof.
  revert o s. induction name as [| c name IH]; intros o s Hn Hl; [apply returns_ret |].
  pose proof (List.Forall_inv Hn) as Hc. pose proof (List.Forall_inv_tail Hn) as Hn'.
  change (blocks_bytes (name_blocks (c :: name)))
    with (block_bytes (component_block c) ++ blocks_bytes (name_blocks name)) in *.
  rewrite length_app in Hl.
  assert (Hec : Emits (only (write (encodeTlvNameComponent c))) (block_bytes (component_block c))).
  { apply emits_write, emits_component; [easy | lia]. }
  destruct name as [| c' name].
  - unfold final_offset. cbn. rewrite Z.add_0_r.
    apply (returns_bind _ _ _ [] _ o); [apply emits_offset | apply returns_offset |].
    eapply returns_bind; [exact Hec | apply returns_write | apply returns_ret].
  - eapply returns_bind; [exact Hec | apply returns_write |].
    replace (final_offset (c :: c' :: name) o)
      with (final_offset (c' :: name) (o + zlen (block_bytes (component_block c)))).
    + apply (IH _ s); [easy | lia].
    + unfold final_offset. cbn [removelast]. unfold name_blocks, blocks_bytes. cbn [map concat].
      rewrite length_app. lia.
Qed.

Lemma emits_name name :
  Forall component_ok name -> zlen (name_tlv name) < 2 ^ 64 ->
  Emits (only (encodeTlvName name)) (name_tlv name).
Proof.
  intros Hn Hl. unfold name_tlv, block_bytes, name_block in *. cbn [fst snd] in *.
  pose proof (zlen_tlv_bytes ndn_Tlv_Name (blocks_bytes (name_blocks name))) as Ht.
  unfold tlv_bytes, encodeTlvName. rewrite nameValueLength_ok by lia. rewrite app_assoc.
  apply emits_bind; [apply emits_write, emits_writeTypeAndLength |]. intros _.
  rewrite <- (app_nil_l (blocks_bytes _)). apply emits_bind; [apply emits_offset |]. intros o.
  rewrite <- (app_nil_r (blocks_bytes _)). apply emits_bind; [| intros; apply emits_ret].
  apply emits_encode_components; [easy | lia].
Qed.

(** The signed portion of a name whose value begins at [o]. *)
Definition name_signed (name : Name) (o : Z) : Z * Z :=
  (o, match name with [] => o | _ => final_offset name o end).

Definition name_value_offset (name : Name) (o : Z) : Z :=
  o + header_size ndn_Tlv_Name (zlen (blocks_bytes (name_blocks name))).

Lemma returns_name name o :
  Forall component_ok name -> zlen (name_tlv name) < 2 ^ 64 ->
  Returns o (encodeTlvName name) (name_tlv name) (name_signed name (name_value_offset name o)).
Proof.
  intros Hn Hl. unfold name_tlv, block_bytes, name_block in *. cbn [fst snd] in *.
  pose proof (zlen_tlv_bytes ndn_Tlv_Name (blocks_bytes (name_blocks name))) as Ht.
  unfold tlv_bytes, encodeTlvName. rewrite nameValueLength_ok by lia. rewrite app_assoc.
  eapply returns_bind; [apply emits_write, emits_writeTypeAndLength | apply returns_write |].
  rewrite length_app, Nat2Z.inj_add. fold (header_size ndn_Tlv_Name (zlen (blocks_bytes (name_blocks name)))).
  fold (name_value_offset name o). rewrite <- (app_nil_l (blocks_bytes _)).
  eapply returns_bind; [apply emits_offset | apply returns_offset |].
  rewrite <- (app_nil_r (blocks_bytes _)). cbn [length]. rewrite Z.add_0_r.
  eapply returns_bind; [apply emits_encode_components; [easy | lia] |
    apply returns_encode_components; [easy | lia] | apply returns_ret].
Qed.

(** ** Reading it back *)

Lemma reads_component c e bs :
  component_ok c -> Reads decodeTlvNameComponent c e (component_block c :: bs) bs.
Proof.
  intros Hc d rest Hd. pose proof (component_tlv_type_ok c Hc) as Ht.
  destruct (reads_blob (component_tlv_type c) (value_ c) e bs d rest Hd) as (d' & Hb & Hd' & Hi).
  exists d'. split; [| easy]. unfold decodeTlvNameComponent.
  destruct (at_block _ _ _ _ _ Hd) as [Htok Hr]. rewrite tlv_bytes_app in Hr.
  rewrite (dec_bind_ok get_offset _ _ _ _ eq_refl).
  rewrite (dec_bind_ok _ _ _ _ _ (readVarNumber_at _ _ _ (at_ok _ _ _ _ Hd) Htok Hr)).
  rewrite (dec_bind_ok (seek (d_offset d)) _ _ tt d) by now destruct d.
  cbn [component_block fst] in *. rewrite Z.mod_small by lia.
  rewrite (dec_bind_ok _ _ _ _ _ Hb). unfold mret, Dec_ret. do 2 f_equal.
  destruct Hc as [_ Hc]. unfold component_tlv_type in *. destruct c as [t code v]. cbn in *.
  destruct t; cbn; subst; try easy. destruct Hc as (Hcr & H1 & H2 & H8).
  rewrite Z.mod_small by lia. rewrite (proj2 (Z.eqb_neq _ _) H1), (proj2 (Z.eqb_neq _ _) H2),
    (proj2 (Z.eqb_neq _ _) H8), to_int32_small by lia. easy.
Qed.

Lemma reads_components name e acc s max fuel :
  Forall component_ok name -> zlen acc + zlen name <= max -> (length name < fuel)%nat ->
  Reads (decode_components fuel max e acc s)
    (acc ++ name, match name with [] => s
       | _ => final_offset name (e - zlen (blocks_bytes (name_blocks name))) end)
    e (name_blocks name) [].
Proof.
  revert acc s fuel. induction name as [| c name IH]; intros acc s fuel Hn Hm Hf d rest Hd.
  - exists d. split; [| easy]. rewrite app_nil_r. pose proof (at_end _ _ _ _ Hd) as He. cbn in He.
    destruct fuel; cbn [decode_components];
      (destruct (Z.ltb_spec (d_offset d) e); [lia | easy]).
  - destruct fuel as [| fuel]; [easy |]. cbn [decode_components length] in *.
    pose proof (at_not_end _ _ _ _ _ Hd) as Hlt. rewrite (proj2 (Z.ltb_lt _ _) Hlt).
    destruct (Z.geb_spec (zlen acc) max); [lia |].
    destruct (reads_component c e _ (List.Forall_inv Hn) d rest Hd) as (d1 & H1 & Hd1 & Hi1).
    rewrite (dec_bind_ok _ _ _ _ _ H1).
    destruct (IH (acc ++ [c]) (d_offset d) fuel) with (d := d1) (rest := rest)
      as (d2 & H2 & Hd2 & Hi2);
      [exact (List.Forall_inv_tail Hn) | rewrite length_app; cbn; lia | lia | exact Hd1 |].
    exists d2. rewrite H2. split; [| split; [easy | congruence]]. rewrite <- app_assoc.
    do 3 f_equal. pose proof (at_end _ _ _ _ Hd) as He. destruct name as [| c' name].
    + unfold final_offset. cbn in *. lia.
    + unfold final_offset. unfold name_blocks, blocks_bytes.
      change (removelast (c :: c' :: name)) with (c :: removelast (c' :: name)).
      cbn [map concat]. rewrite !length_app. lia.
Qed.

(** The name and the offsets of its signed portion, for a name whose block ends at [e]. *)
Lemma reads_name name max e bs :
  Forall component_ok name -> zlen name <= max ->
  Reads (decodeTlvName max)
    (name, name_signed name (e - zlen (blocks_bytes (name_blocks name)) - zlen (blocks_bytes bs)))
    e (name_block name :: bs) bs.
Proof.
  intros Hn Hm. unfold decodeTlvName, name_block.
  replace (e - zlen (blocks_bytes (name_blocks name)) - zlen (blocks_bytes bs))
    with (e - zlen (blocks_bytes bs) - zlen (blocks_bytes (name_blocks name))) by lia.
  apply (reads_nested_at _ _ (fun e => (name, name_signed name (e - zlen (blocks_bytes (name_blocks name)))))).
  - now apply name_blocks_ok.
  - intros e1. eapply reads_bind; [apply reads_offset |].
    eapply reads_bind; [apply (reads_components name e1 []); [easy | cbn; lia | lia] |].
    cbn [app]. apply reads_ret.
Qed.

(** ** Termination *)

Lemma never_ret {A} (a : A) : never_out_of_fuel (mret a).
Proof. easy. Qed.

Lemma never_readTypeAndLength t : never_out_of_fuel (readTypeAndLength t).
Proof.
  apply never_bind; [apply never_readVarNumber |]. intros type. destruct (negb _); [easy |].
  apply never_bind; [apply never_readVarNumber |]. intros len. apply never_bind; [| easy].
  intros d. unfold check_length. now destruct (_ >? _).
Qed.

Lemma never_readBlob t : never_out_of_fuel (readBlob t).
Proof.
  apply never_bind; [apply never_bind; [apply never_readTypeAndLength | easy] |].
  intros s d. unfold get_blob, slice_bytes. destruct (s_value s); [| easy]. now destruct (_ <=? _).
Qed.

Lemma never_decodeTlvNameComponent : never_out_of_fuel decodeTlvNameComponent.
Proof.
  apply never_bind; [easy |]. intros o. apply never_bind; [apply never_readVarNumber |]. intros type.
  apply never_bind; [easy |]. intros _. apply never_bind; [apply never_readBlob | easy].
Qed.

(** On every input, also one whose lengths wrap the offset, the array bounds the turns. *)
Lemma decode_components_ends fuel max e name s d :
  zlen name <= max < zlen name + Z.of_nat fuel ->
  match decode_components fuel max e name s d with
  | Ok (_, d') => e <= d_offset d'
  | Err err => err <> OutOfFuel
  end.
Proof.
  revert name s d. induction fuel as [| fuel IH]; intros name s d Hm; [lia |]. cbn [decode_components].
  destruct (Z.ltb_spec (d_offset d) e); [| easy].
  destruct (Z.geb_spec (zlen name) max); [easy |].
  unfold mbind, Dec_bind. pose proof (never_decodeTlvNameComponent d) as Hc.
  destruct (decodeTlvNameComponent d) as [[c d1] | err]; [| congruence].
  apply IH. rewrite length_app. cbn. lia.
Qed.

Lemma finish_past_end e d : e <= d_offset d -> finishNestedTlvs e d <> Err OutOfFuel.
Proof.
  intros He. unfold finishNestedTlvs, skipRemainingNestedTlvs. destruct (negb _); [| easy].
  cbn [skip_loop]. rewrite (proj2 (Z.ltb_ge _ _) He). now destruct (negb _).
Qed.

(** ** Properties *)

Lemma name_bytes_split name :
  blocks_bytes (name_blocks name)
  = blocks_bytes (name_blocks (removelast name)) ++
    match rev name with c :: _ => block_bytes (component_block c) | [] => [] end.
Proof.
  induction name as [| c name IH] using rev_ind; [easy |].
  rewrite removelast_last, rev_unit. unfold name_blocks. rewrite map_app, blocks_bytes_app.
  unfold blocks_bytes at 2. cbn. now rewrite app_nil_r.
Qed.

Lemma name_signed_shift name o k :
  name_signed name (name_value_offset name (o + k)) =
  (o + (name_signed name (name_value_offset name k)).1, o + (name_signed name (name_value_offset name k)).2).
Proof. unfold name_signed, name_value_offset, final_offset. cbn [fst snd]. destruct name; f_equal; lia. Qed.

(** The signed portion of a name within other bytes. *)
Lemma name_signed_bytes name pre rest :
  let '(begin, end_) := name_signed name (name_value_offset name (zlen pre)) in
  sub_bytes (pre ++ name_tlv name ++ rest) begin (end_ - begin)
  = blocks_bytes (name_blocks (removelast name)).
Proof.
  unfold name_signed, name_value_offset, name_tlv, block_bytes, name_block, tlv_bytes. cbn [fst snd].
  pose proof (name_bytes_split name) as Hsplit. set (v := blocks_bytes (name_blocks name)) in *.
  replace (_ ++ rest) with (varNumber_bytes ndn_Tlv_Name ++ varNumber_bytes (zlen v) ++ v ++ rest)
    by now rewrite <- !app_assoc.
  rewrite Hsplit at 2. rewrite <- app_assoc, (app_assoc pre), (app_assoc (pre ++ _)).
  apply sub_bytes_app; [unfold header_size; rewrite !length_app; lia |].
  destruct name; [cbn; lia |]. unfold final_offset. lia.
Qed.

(** Names on the wire. A name is encoded as one block and decoded, anywhere in a message, as the same
    name. The encoder and the decoder report the same signed portion, which is the encodings of
    all the components but the last. *)
Theorem name_tlv_roundtrip (name : Name) (n max : Z) (pre rest : list Z) :
  Forall component_ok name -> zlen name <= max -> 0 <= n < 2 ^ 63 ->
  zlen (pre ++ name_tlv name ++ rest) < 2 ^ 63 ->
  exists bs b e, run_out n (encodeTlvName name) = Ok (bs, (b, e)) /\
    decodeTlvName max (decoder_at pre bs rest)
    = Ok (name, (zlen pre + b, zlen pre + e), mkDecoder (pre ++ bs ++ rest) (zlen pre + zlen bs)) /\
    sub_bytes bs b (e - b) = blocks_bytes (name_blocks (removelast name)).
Proof.
  intros Hok Hm Hn Hl.
  assert (Hs : zlen (name_tlv name) < 2 ^ 63) by (rewrite !length_app in Hl; lia).
  exists (name_tlv name). unfold name_tlv in *.
  pose proof (zlen_tlv_header ndn_Tlv_Name (blocks_bytes (name_blocks name))) as Hh.
  exists (name_value_offset name 0), (name_signed name (name_value_offset name 0)).2. split; [| split].
  - apply run_out_ok; [easy | apply emits_name; unfold name_tlv; auto; lia | | easy].
    apply (returns_name name 0); unfold name_tlv; auto; lia.
  - apply reads_decoder_at; [easy | unfold type_ok, name_block, ndn_Tlv_Name; cbn; lia |].
    pose proof (reads_name name max (zlen pre + zlen (block_bytes (name_block name))) [] Hok Hm) as H.
    cbn [blocks_bytes map concat length] in H.
    replace (zlen pre + name_value_offset name 0, _) with
      (name_signed name (zlen pre + zlen (block_bytes (name_block name))
         - zlen (blocks_bytes (name_blocks name)) - Z.of_nat 0)); [exact H |].
    unfold name_signed, name_value_offset, final_offset, name_block, block_bytes. cbn [fst snd].
    rewrite Hh. destruct name; f_equal; lia.
  - pose proof (name_signed_bytes name [] []) as H. cbn [length app] in H. rewrite app_nil_r in H.
    exact H.
Qed.

(** Decoding a name terminates. On every input, also one with lengths that wrap the offset, the loop over
    the components ends, because the array of components is bounded, and so does the decoder. *)
Theorem decodeTlvName_terminates (max : Z) (d : Decoder) :
  0 <= max -> decodeTlvName max d <> Err OutOfFuel.
Proof.
  intros Hm. unfold decodeTlvName, nested, readNestedTlvsStart. unfold mbind, Dec_bind.
  pose proof (never_readTypeAndLength ndn_Tlv_Name d) as Hh.
  destruct (readTypeAndLength ndn_Tlv_Name d) as [[len d1] | err];
    [| intros [= ->]; now apply Hh].
  cbn -[decode_components].
  set (e := wrap64 (d_offset d1 + len)).
  pose proof (decode_components_ends (S (Z.to_nat max)) max e [] (d_offset d1) d1 ltac:(cbn; lia)) as Hl.
  destruct (decode_components _ _ _ _ _ d1) as [[[name s] d2] | err];
    [| intros [= ->]; now apply Hl].
  cbn -[finishNestedTlvs]. pose proof (finish_past_end e d2 Hl) as Hf.
  destruct (finishNestedTlvs e d2) as [[[] d3] | err]; [easy |]. intros [= ->]. now apply Hf.
Qed.

(** ** The type of a decoded name *)

(** The results of a decoder on an input of bytes, which it does not change. *)
Definition Gives {A} (P : A -> Prop) (m : Dec A) : Prop :=
  forall d a d', bytes_ok (input d) -> m d = Ok (a, d') -> P a /\ input d' = input d.

Lemma gives_bind {A B} (P : A -> Prop) (Q : B -> Prop) (m : Dec A) (f : A -> Dec B) :
  Gives P m -> (forall a, P a -> Gives Q (f a)) -> Gives Q (m ≫= f).
Proof.
  intros Hm Hf d b d' Hd H. unfold mbind, Dec_bind in H. destruct (m d) as [[a d1] |] eqn:E; [| easy].
  destruct (Hm d a d1 Hd E) as [Ha Hi]. rewrite <- Hi in Hd |- *. now apply (Hf a Ha d1 b d').
Qed.

Lemma gives_ret {A} (P : A -> Prop) (a : A) : P a -> Gives P (mret a).
Proof. intros Ha d x d' _ [= <- <-]. easy. Qed.

Lemma gives_offset : Gives (fun _ => True) get_offset.
Proof. intros d a d' _ [= <- <-]. easy. Qed.

Lemma byte_at_ok l i : bytes_ok l -> is_byte (byte_at l i).
Proof.
  intros Hl. unfold byte_at. destruct (l !! Z.to_nat i) as [b |] eqn:E; [| now unfold is_byte; cbn].
  exact (Forall_lookup_1 _ _ _ _ Hl E).
Qed.

Lemma sub_bytes_ok l i n : bytes_ok l -> bytes_ok (sub_bytes l i n).
Proof. intros. now apply Forall_take, Forall_drop. Qed.

Lemma gives_read_be n : 0 <= n <= 8 -> Gives (fun v => 0 <= v < 2 ^ 64) (read_be n).
Proof.
  intros Hn d v d' Hd. unfold read_be. destruct (_ >? _); [easy |]. intros [= <- <-]. split; [| easy].
  pose proof (be_decode_range _ (sub_bytes_ok _ (d_offset d) n Hd)) as Hr.
  assert (zlen (sub_bytes (input d) (d_offset d) n) <= 8) by (unfold sub_bytes; rewrite length_take; lia).
  assert (256 ^ zlen (sub_bytes (input d) (d_offset d) n) <= 256 ^ 8) by (apply Z.pow_le_mono_r; lia). lia.
Qed.

Lemma gives_readVarNumber : Gives (fun v => 0 <= v < 2 ^ 64) readVarNumber.
Proof.
  apply (gives_bind is_byte).
  - intros d b d' Hd. unfold read_octet. destruct (_ >=? _); [easy |]. intros [= <- <-].
    split; [now apply byte_at_ok | easy].
  - intros b Hb. unfold is_byte in Hb. destruct (b <? 253); [apply gives_ret; lia |].
    unfold readExtendedVarNumber. destruct (b =? 253); [| destruct (b =? 254)]; now apply gives_read_be.
Qed.

Lemma gives_check_length n : Gives (fun _ => True) (check_length n).
Proof. intros d a d' _. unfold check_length. destruct (_ >? _); [easy |]. now intros [= <- <-]. Qed.

Lemma gives_readTypeAndLength t : Gives (fun _ => True) (readTypeAndLength t).
Proof.
  apply (gives_bind _ _ _ _ gives_readVarNumber). intros type _. destruct (negb _); [now intros d |].
  apply (gives_bind _ _ _ _ gives_readVarNumber). intros len _.
  apply (gives_bind _ _ _ _ (gives_check_length len)). intros _ _. now apply gives_ret.
Qed.

Lemma gives_readBlob t : Gives bytes_ok (readBlob t).
Proof.
  apply (gives_bind (fun _ => True)).
  - apply (gives_bind _ _ _ _ (gives_readTypeAndLength t)). intros len _.
    apply (gives_bind _ _ _ _ gives_offset). intros o _.
    apply (gives_bind (fun _ => True)); [| intros; now apply gives_ret].
    intros d a d' _ [= <- <-]. easy.
  - intros s _ d bs d' Hd. unfold get_blob, slice_bytes. destruct (s_value s); [| now intros [= <- <-]].
    destruct (_ <=? _); [| easy]. intros [= <- <-]. split; [now apply sub_bytes_ok | easy].
Qed.

(** The type that [readBlob] expects is the one it reads. *)
Lemma readBlob_type t d type d1 bs d2 :
  readVarNumber d = Ok (type, d1) -> readBlob t d = Ok (bs, d2) -> type = t.
Proof.
  intros H1. unfold readBlob, readBlobTlv, readTypeAndLength, mbind, Dec_bind. rewrite H1.
  destruct (Z.eqb_spec type t); [easy | discriminate].
Qed.

(** A component that a decoder makes: an other type code of 2^31 or more has become negative. *)
Definition component_typed (c : Component) : Prop :=
  component_ok c \/ bytes_ok (value_ c) /\ type_ c = OTHER_CODE /\ - 2 ^ 31 <= otherTypeCode_ c < 0.

Lemma gives_decodeTlvNameComponent : Gives component_typed decodeTlvNameComponent.
Proof.
  intros d c d' Hd. unfold decodeTlvNameComponent, mbind, Dec_bind. cbn [get_offset].
  destruct (readVarNumber d) as [[type d1] |] eqn:Ht; [| easy]. cbn [Decoder.seek].
  destruct (gives_readVarNumber _ _ _ Hd Ht) as [Hr Hi]. rewrite Hi.
  replace (mkDecoder (input d) (d_offset d)) with d by now destruct d.
  destruct (readBlob (type mod 2 ^ 32) d) as [[bs d2] |] eqn:Hb; [| easy]. intros [= <- <-].
  destruct (gives_readBlob _ _ _ _ Hd Hb) as [Hbs Hi2]. split; [| easy].
  pose proof (readBlob_type _ _ _ _ _ _ Ht Hb) as Htt.
  pose proof (Z.mod_pos_bound type (2 ^ 32) ltac:(lia)) as Hm. rewrite <- Htt in Hm.
  unfold component_typed, component_ok.
  destruct (Z.eqb_spec type 1); [now left |]. destruct (Z.eqb_spec type 2); [now left |].
  destruct (Z.eqb_spec type 8); [now left |]. cbn [type_ value_ otherTypeCode_].
  unfold to_int32. rewrite Z.mod_small by lia. destruct (Z.ltb_spec type (2 ^ 31)); [left | right];
    (split; [easy |]); [lia | split; [easy | lia]].
Qed.

Lemma gives_decode_components fuel max e name s :
  Forall component_typed name -> zlen name <= max ->
  Gives (fun r => Forall component_typed r.1 /\ zlen r.1 <= max) (decode_components fuel max e name s).
Proof.
  revert name s. induction fuel as [| fuel IH]; intros name s Hn Hm d r d' Hd; cbn [decode_components];
    (destruct (d_offset d <? e); [| now intros [= <- <-]]); [easy |].
  destruct (Z.geb_spec (zlen name) max); [easy |].
  assert (Hg : Gives (fun r => Forall component_typed r.1 /\ zlen r.1 <= max)
    (c ← decodeTlvNameComponent; decode_components fuel max e (name ++ [c]) (d_offset d))).
  { apply (gives_bind component_typed _ _ _ gives_decodeTlvNameComponent).
    intros c Hc. apply IH; [now apply Forall_app_2; [| constructor] | rewrite length_app; cbn; lia]. }
  intros H1. exact (Hg d r d' Hd H1).
Qed.

Lemma gives_finish e : Gives (fun _ => True) (finishNestedTlvs e).
Proof.
  assert (Hone : forall c, Gives (fun _ => True) (skip_one c)).
  { intros c. apply (gives_bind _ _ _ _ gives_readVarNumber). intros type _.
    apply (gives_bind _ _ _ _ gives_readVarNumber). intros len _. cbv zeta.
    match goal with |- context [if ?b then _ else _] => destruct b end; [now intros d |].
    intros d a d' _. unfold skip_checked. destruct (_ >? _); [easy |]. now intros [= <- <-]. }
  assert (Hloop : forall fuel, Gives (fun _ => True) (skip_loop fuel e false)).
  { induction fuel as [| fuel IH]; intros d a d' Hd; cbn [skip_loop];
      (destruct (d_offset d <? e); [| now intros [= <- <-]]); [easy |].
    exact (gives_bind _ _ _ (fun _ => skip_loop fuel e false) (Hone false) (fun _ _ => IH) d a d' Hd). }
  intros d a d' Hd. unfold finishNestedTlvs, skipRemainingNestedTlvs.
  destruct (negb _); [| now intros [= <- <-]].
  destruct (skip_loop _ e false d) as [[u d1] |] eqn:E; [| easy].
  destruct (Hloop _ _ _ _ Hd E) as [_ Hi]. destruct (negb _); [easy |]. now intros [= <- <-].
Qed.

(** C32: the type of a decoded name. Whatever the bytes, a name that is decoded has at most the
    components that the array has room for, and each is one that the library can make: its value is
    bytes, a special type has no other code, and an other code is not the code of a special type, so
    that it can be encoded again, but for the codes from 2^31, which become negative. *)
Theorem decodeTlvName_typed (max : Z) (d d' : Decoder) (name : Name) (signedPortion : Z * Z) :
  0 <= max -> bytes_ok (input d) -> decodeTlvName max d = Ok (name, signedPortion, d') ->
  Forall component_typed name /\ zlen name <= max.
Proof.
  intros Hm Hd H.
  assert (Hg : Gives (fun r => Forall component_typed r.1 /\ zlen r.1 <= max) (decodeTlvName max)).
  { apply (gives_bind (fun _ => True)).
    { apply (gives_bind _ _ _ _ (gives_readTypeAndLength _)). intros len _.
      apply (gives_bind _ _ _ _ gives_offset). intros o _. now apply gives_ret. }
    intros e _. apply (gives_bind (fun r => Forall component_typed r.1 /\ zlen r.1 <= max)).
    - apply (gives_bind _ _ _ _ gives_offset). intros b _.
      eapply gives_bind; [apply gives_decode_components; [apply List.Forall_nil | easy] |].
      intros [name1 s1] Hn. now apply gives_ret.
    - intros r Hr. apply (gives_bind _ _ _ _ (gives_finish e)). intros _ _. now apply gives_ret. }
  now destruct (Hg _ _ _ Hd H).
Qed.

(** ** Witnesses *)

Definition example_name : Name :=
  [generic [97; 98]; mkComponent OTHER_CODE 300 [0]; mkComponent IMPLICIT_SHA256_DIGEST (-1) (repeat 7 32)].

Lemma name_tlv_roundtrip_witness :
  exists bs b e, run_out 16 (encodeTlvName example_name) = Ok (bs, (b, e)) /\
    decodeTlvName 100 (decoder_at [1] bs [2])
    = Ok (example_name, (zlen [1] + b, zlen [1] + e), mkDecoder ([1] ++ bs ++ [2]) (zlen [1] + zlen bs)) /\
    sub_bytes bs b (e - b) = blocks_bytes (name_blocks (removelast example_name)).
Proof.
  apply (name_tlv_roundtrip example_name 16 100 [1] [2]); [| cbn; lia | lia | vm_compute; reflexivity].
  unfold example_name, component_ok, is_byte. repeat constructor; (lia || (cbn; lia)).
Defined.

Lemma decodeTlvName_terminates_witness :
  decodeTlvName 100 (mkDecoder [7; 255; 255; 255; 255; 255; 255; 255; 255; 255] 0) <> Err OutOfFuel.
Proof. apply (decodeTlvName_terminates 100). lia. Defined.

Lemma decodeTlvName_typed_witness :
  exists name, decodeTlvName 100 (TlvDecoder_initialize [7; 10; 8; 1; 97; 254; 128; 0; 0; 0; 1; 5])
    = Ok (name, (2, 5), mkDecoder [7; 10; 8; 1; 97; 254; 128; 0; 0; 0; 1; 5] 12) /\
  Forall component_typed name /\ zlen name <= 100.
Proof.
  eexists. split; [vm_compute; reflexivity |].
  apply (decodeTlvName_typed 100 (TlvDecoder_initialize [7; 10; 8; 1; 97; 254; 128; 0; 0; 0; 1; 5])
    (mkDecoder [7; 10; 8; 1; 97; 254; 128; 0; 0; 0; 1; 5] 12) _ (2, 5)); [lia | | vm_compute; reflexivity].
  repeat constructor; unfold is_byte; cbn; lia.
Defined.
