(* ===== verification/NameUri.v ===== *)
(** * Names as URIs

    The parser [Name::set(const char* )] and the printer [Name::toUri] of src/name.cpp, with
    [toHex] and [ndn_trim] of src/common.cpp. A C++ string is the list of its bytes. The
    [ostringstream] that the printer threads through the components is kept with the format
    flags that its number output depends on. *)

From stdpp Require Import base list numbers option strings.
From Stdlib Require Import ZArith Lia.
From S2P Require Import Prelude Order Encoder Name.
Open Scope Z_scope.

(** The bytes of a literal of the source. *)
Definition chars (s : string) : list Z :=
  map (fun a => Z.of_nat (Ascii.nat_of_ascii a)) (String.list_ascii_of_string s).

(** ** Strings *)

(** [WHITESPACE_CHARS]. *)
Definition is_whitespace (c : Z) : bool :=
  (c =? 32) || (c =? 9) || (c =? 10) || (c =? 13).

Fixpoint trimLeft (str : list Z) : list Z :=
  match str with
  | [] => []
  | c :: t => if is_whitespace c then trimLeft t else str
  end.

Definition trimRight (str : list Z) : list Z := rev (trimLeft (rev str)).

Definition ndn_trim (str : list Z) : list Z := trimRight (trimLeft str).

(** The bytes before the first [c], and those after it when there is one. *)
Fixpoint split_at (c : Z) (s : list Z) : list Z * option (list Z) :=
  match s with
  | [] => ([], None)
  | b :: t =>
      if b =? c then ([], Some t)
      else let '(l, r) := split_at c t in (b :: l, r)
  end.

Fixpoint is_prefix (p s : list Z) : bool :=
  match p, s with
  | [], _ => true
  | a :: p, b :: s => (a =? b) && is_prefix p s
  | _ :: _, [] => false
  end.

(** ** Hexadecimal *)

Definition fromHexChar (c : Z) : Z :=
  if (48 <=? c) && (c <=? 57) then c - 48
  else if (65 <=? c) && (c <=? 70) then c - 65 + 10
  else if (97 <=? c) && (c <=? 102) then c - 97 + 10
  else -1.

(** [None] is the null [Blob] for invalid digits. A last digit without a second is ignored. *)
Fixpoint fromHex (s : list Z) : option (list Z) :=
  match s with
  | [] => Some []
  | c :: t =>
      if c =? 32 then fromHex t
      else
        match t with
        | [] => Some []
        | d :: u =>
            let hi := fromHexChar c in
            let lo := fromHexChar d in
            if (hi <? 0) || (lo <? 0) then None
            else match fromHex u with Some r => Some (16 * hi + lo :: r) | None => None end
        end
  end.

Fixpoint unescape (s : list Z) : list Z :=
  match s with
  | c :: ((d :: e :: u) as t) =>
      if c =? 37 then
        let hi := fromHexChar d in
        let lo := fromHexChar e in
        (if (hi <? 0) || (lo <? 0) then [c; d; e] else [16 * hi + lo]) ++ unescape u
      else c :: unescape t
  | c :: t => c :: unescape t
  | [] => []
  end.

(** ** The output stream *)

Record ostringstream := mkStream {
  str : list Z;
  hex : bool;
  uppercase : bool
}.

Definition empty_stream : ostringstream := mkStream [] false false.

Definition put (bs : list Z) (s : ostringstream) : ostringstream :=
  mkStream (str s ++ bs) (hex s) (uppercase s).

Definition set_flags (h u : bool) (s : ostringstream) : ostringstream :=
  mkStream (str s) h u.

Definition digit_char (u : bool) (d : Z) : Z :=
  if d <? 10 then 48 + d else if u then 55 + d else 87 + d.

(** The digits of [n] in [base], most significant first. *)
Fixpoint digits (fuel : nat) (base n : Z) (u : bool) : list Z :=
  match fuel with
  | O => []
  | S fuel =>
      if n <? base then [digit_char u n]
      else digits fuel base (n / base) u ++ [digit_char u (n mod base)]
  end.

(** [<<] of a number that is not negative, below 2^32: 10 digits are enough. *)
Definition put_number (n : Z) (s : ostringstream) : ostringstream :=
  put (digits 10 (if hex s then 16 else 10) n (uppercase s)) s.

(** The two hexadecimal digits of each byte. *)
Definition put_hex_byte (x : Z) (s : ostringstream) : ostringstream :=
  put_number x (if x <? 16 then put [48] s else s).

(** [toHex(array, length, result)] sets the flags and leaves them set. *)
Definition toHex (array : list Z) (result : ostringstream) : ostringstream :=
  match array with
  | [] => result
  | _ => fold_left (fun s x => put_hex_byte x s) array (set_flags true false result)
  end.

(** ** Printing *)

Definition is_unescaped (x : Z) : bool :=
  ((0x30 <=? x) && (x <=? 0x39)) || ((0x41 <=? x) && (x <=? 0x5a)) ||
  ((0x61 <=? x) && (x <=? 0x7a)) || (x =? 0x2b) || (x =? 0x2d) || (x =? 0x2e) || (x =? 0x5f).

Definition put_escaped (s : ostringstream) (x : Z) : ostringstream :=
  if is_unescaped x then put [x] s else put_hex_byte x (put [37] s).

(** [Name::toEscapedString(value, result)]. *)
Definition toEscapedString (value : list Z) (result : ostringstream) : ostringstream :=
  let gotNonDot := existsb (fun b => negb (b =? 0x2e)) value in
  if negb gotNonDot then put (replicate (length value) 0x2e) (put (chars "...") result)
  else
    let result' := fold_left put_escaped value (set_flags true true result) in
    set_flags (hex result) (uppercase result) result'.

(** [Name::Component::toEscapedString(result)]. *)
Definition component_toEscapedString (c : Component) (result : ostringstream)
  : ostringstream :=
  match type_ c with
  | IMPLICIT_SHA256_DIGEST => toHex (value_ c) (put (chars "sha256digest=") result)
  | PARAMETERS_SHA256_DIGEST => toHex (value_ c) (put (chars "params-sha256=") result)
  | GENERIC => toEscapedString (value_ c) result
  | OTHER_CODE =>
      toEscapedString (value_ c) (put (chars "=") (put_number (otherTypeCode_ c) result))
  end.

Definition toUri (self : Name) (includeScheme : bool) : list Z :=
  match self with
  | [] => if includeScheme then chars "ndn:/" else chars "/"
  | _ =>
      str (fold_left (fun s c => component_toEscapedString c (put (chars "/") s)) self
             (if includeScheme then put (chars "ndn:") empty_stream else empty_stream))
  end.

(** ** Parsing *)

(** [Name::fromEscapedString] of a part of a string: [None] is the null [Blob]. *)
Definition fromEscapedString (escaped : list Z) : option (list Z) :=
  let value := unescape (ndn_trim escaped) in
  if negb (existsb (fun b => negb (b =? 0x2e)) value) then
    if zlen value <=? 2 then None else Some (drop 3 value)
  else Some value.

Definition is_space (c : Z) : bool := (c =? 32) || ((9 <=? c) && (c <=? 13)).

Fixpoint skip_space (s : list Z) : list Z :=
  match s with
  | c :: t => if is_space c then skip_space t else s
  | [] => []
  end.

Fixpoint read_digits (acc : Z) (s : list Z) : Z :=
  match s with
  | c :: t => if (48 <=? c) && (c <=? 57) then read_digits (acc * 10 + (c - 48)) t else acc
  | [] => acc
  end.

(** [::atoi]: [strtol] in base 10, which stops at the limits of [long], as an [int]. *)
Definition atoi (s : list Z) : Z :=
  let limit z := Z.max (- 2 ^ 63) (Z.min (2 ^ 63 - 1) z) in
  to_int32 (limit
    match skip_space s with
    | c :: t =>
        if c =? 45 then - read_digits 0 t
        else if c =? 43 then read_digits 0 t
        else read_digits 0 (c :: t)
    | [] => 0
    end).

(** The type of a component with [typeString] before the [=]. *)
Definition parse_type (typeString : list Z) : result exn (ComponentType * Z) :=
  otherTypeCode ←
    (if bool_decide (typeString = chars "0") then mret 0
     else
       let n := atoi typeString in
       if n =? 0 then Err (RuntimeError "Can't parse decimal Name Component type: ")
       else mret n);
  mret (if otherTypeCode =? 8 then (GENERIC, otherTypeCode)
        else if otherTypeCode =? 1 then (IMPLICIT_SHA256_DIGEST, otherTypeCode)
        else if otherTypeCode =? 2 then (PARAMETERS_SHA256_DIGEST, otherTypeCode)
        else (OTHER_CODE, otherTypeCode)).

(** The digest constructors on the result of [fromHex]: the null [Blob] has size 0. *)
Definition parse_digest (make : list Z -> result exn Component) (hexString : list Z)
  : result exn (option Component) :=
  c ← make (default [] (fromHex hexString)); mret (Some c).

(** The component in [segment], the bytes of the URI up to the next [/]; [None] when it is
    ignored. *)
Definition parse_component (segment : list Z) : result exn (option Component) :=
  if is_prefix (chars "sha256digest=") segment then
    parse_digest fromImplicitSha256Digest (drop 13 segment)
  else if is_prefix (chars "params-sha256=") segment then
    parse_digest fromParametersSha256Digest (drop 14 segment)
  else
    '(type, otherTypeCode, escaped) ←
      match split_at 61 segment with
      | (typeString, Some rest) =>
          '(type, code) ← parse_type typeString; mret (type, code, rest)
      | (_, None) => mret (GENERIC, -1, segment)
      end;
    match fromEscapedString escaped with
    | Some value => c ← make_component value type otherTypeCode; mret (Some c)
    | None =>
        (* The constructor runs on the null Blob as well, and can throw. *)
        _ ← make_component [] type otherTypeCode; mret None
    end.

(** The loop over the components of the URI. *)
Fixpoint parse_components (fuel : nat) (uri : list Z) (self : Name) : result exn Name :=
  match fuel with
  | O => Err (Failed OutOfFuel)
  | S fuel =>
      match uri with
      | [] => Ok self
      | _ =>
          let '(segment, rest) := split_at 47 uri in
          component ← parse_component segment;
          parse_components fuel (default [] rest)
            (match component with Some c => append self c | None => self end)
      end
  end.

(** Omit the leading protocol, when its colon comes before any slash. *)
Definition strip_scheme (uri : list Z) : list Z :=
  match split_at 58 uri with
  | (before, Some rest) => if existsb (fun b => b =? 47) before then uri else ndn_trim rest
  | (_, None) => uri
  end.

(** Trim the leading slash and possibly the authority; [None] when there is only an
    authority. *)
Definition strip_slash (uri : list Z) : option (list Z) :=
  match uri with
  | a :: t =>
      if a =? 47 then
        match t with
        | b :: u =>
            if b =? 47 then
              match split_at 47 u with
              | (_, Some rest) => Some (ndn_trim rest)
              | (_, None) => None
              end
            else Some (ndn_trim t)
        | [] => Some (ndn_trim t)
        end
      else Some uri
  | [] => Some uri
  end.

(** [Name::set(uri)]. The URI is a C string, so it has no zero byte. Each turn of the loop
    takes at least one byte: [parse_components_enough]. *)
Definition name_set (uri : list Z) : result exn Name :=
  let uri := ndn_trim uri in
  match uri with
  | [] => Ok []
  | _ =>
      match strip_slash (strip_scheme uri) with
      | None => Ok []
      | Some uri => parse_components (S (length uri)) uri []
      end
  end.

(** ** The text of a name

    What the printer writes, as a function of the hexadecimal flag it starts with. *)

Definition hex_byte (u : bool) (x : Z) : list Z :=
  [digit_char u (x / 16); digit_char u (x mod 16)].

Definition escape_byte (x : Z) : list Z :=
  if is_unescaped x then [x] else 37 :: hex_byte true x.

Definition value_text (value : list Z) : list Z :=
  if existsb (fun b => negb (b =? 0x2e)) value then concat (map escape_byte value)
  else chars "..." ++ replicate (length value) 0x2e.

Definition component_text (h : bool) (c : Component) : list Z :=
  match type_ c with
  | IMPLICIT_SHA256_DIGEST => chars "sha256digest=" ++ concat (map (hex_byte false) (value_ c))
  | PARAMETERS_SHA256_DIGEST => chars "params-sha256=" ++ concat (map (hex_byte false) (value_ c))
  | GENERIC => value_text (value_ c)
  | OTHER_CODE =>
      digits 10 (if h then 16 else 10) (otherTypeCode_ c) false ++ chars "=" ++
      value_text (value_ c)
  end.

(** The flag after a component: a digest that is not empty sets it. *)
Definition is_digest (c : Component) : bool :=
  match type_ c with
  | IMPLICIT_SHA256_DIGEST | PARAMETERS_SHA256_DIGEST => negb (bool_decide (value_ c = []))
  | _ => false
  end.

Fixpoint name_text (h : bool) (n : Name) : list Z :=
  match n with
  | [] => []
  | c :: n => 47 :: component_text h c ++ name_text (h || is_digest c) n
  end.

(** A stream with the given text and hexadecimal flag, in lower case. *)
Definition stream_at (bs : list Z) (h : bool) : ostringstream := mkStream bs h false.

Lemma put_stream_at l bs h : put l (stream_at bs h) = stream_at (bs ++ l) h.
Proof. reflexivity. Qed.

Lemma digits_hex_byte u x : 0 <= x < 256 -> 16 <= x -> digits 10 16 x u = hex_byte u x.
Proof.
  intros Hx Hlo. cbn [digits]. destruct (Z.ltb_spec x 16); [lia |].
  destruct (Z.ltb_spec (x / 16) 16); [easy |]. pose proof (Z.div_lt_upper_bound x 16 16). lia.
Qed.

Lemma put_hex_byte_eq x bs u :
  0 <= x < 256 -> put_hex_byte x (mkStream bs true u) = mkStream (bs ++ hex_byte u x) true u.
Proof.
  intros Hx. unfold put_hex_byte, put_number. destruct (Z.ltb_spec x 16) as [H | H].
  - unfold put. cbn [str hex uppercase]. rewrite <- app_assoc. f_equal. f_equal. unfold hex_byte.
    rewrite (Z.div_small x 16), (Z.mod_small x 16) by lia. cbn [digits].
    now destruct (Z.ltb_spec x 16); [| lia].
  - unfold put. cbn [str hex uppercase]. now rewrite digits_hex_byte.
Qed.

Lemma toHex_eq v bs h :
  bytes_ok v ->
  toHex v (stream_at bs h) =
  stream_at (bs ++ concat (map (hex_byte false) v)) (h || negb (bool_decide (v = []))).
Proof.
  intros Hv. destruct v as [| x v].
  - cbn. now rewrite app_nil_r, orb_false_r.
  - unfold toHex. rewrite bool_decide_eq_false_2, orb_true_r by easy.
    unfold set_flags, stream_at. cbn [str]. generalize dependent (x :: v). clear x v.
    intros v Hv. revert bs. induction Hv as [| x v Hx Hv IH]; intros bs; cbn [fold_left map concat].
    + now rewrite app_nil_r.
    + rewrite put_hex_byte_eq, IH, <- app_assoc by easy. easy.
Qed.

Lemma fold_put_escaped v bs :
  bytes_ok v ->
  fold_left put_escaped v (mkStream bs true true) =
  mkStream (bs ++ concat (map escape_byte v)) true true.
Proof.
  intros Hv. revert bs. induction Hv as [| x v Hx Hv IH]; intros bs; cbn [fold_left map concat].
  - now rewrite app_nil_r.
  - unfold put_escaped at 2, escape_byte at 1. destruct (is_unescaped x).
    + unfold put at 1. cbn [str hex uppercase]. now rewrite IH, <- app_assoc.
    + unfold put at 1. cbn [str hex uppercase].
      rewrite put_hex_byte_eq, IH by easy. now rewrite <- !app_assoc.
Qed.

Lemma toEscapedString_eq v bs h :
  bytes_ok v -> toEscapedString v (stream_at bs h) = stream_at (bs ++ value_text v) h.
Proof.
  intros Hv. unfold toEscapedString, value_text, stream_at. destruct (existsb _ v).
  - cbn [negb set_flags str hex uppercase]. unfold set_flags. cbn [str hex uppercase].
    now rewrite fold_put_escaped.
  - cbn [negb]. unfold put. cbn [str hex uppercase]. now rewrite <- app_assoc.
Qed.

Lemma component_toEscapedString_eq c bs h :
  bytes_ok (value_ c) ->
  component_toEscapedString c (stream_at bs h) =
  stream_at (bs ++ component_text h c) (h || is_digest c).
Proof.
  intros Hv. unfold component_toEscapedString, component_text, is_digest.
  destruct (type_ c); unfold put_number; cbn [put str hex uppercase stream_at];
    rewrite ?orb_false_r, ?app_assoc; try (now apply toEscapedString_eq); now apply toHex_eq.
Qed.

Lemma fold_text n bs h :
  Forall component_ok n ->
  str (fold_left (fun s c => component_toEscapedString c (put (chars "/") s)) n (stream_at bs h))
  = bs ++ name_text h n.
Proof.
  intros Hok. revert bs h. induction Hok as [| d l Hd Hl IH]; intros bs h; [symmetry; apply app_nil_r |].
  cbn [fold_left name_text]. rewrite put_stream_at, component_toEscapedString_eq by apply Hd.
  now rewrite IH, <- !app_assoc.
Qed.

Lemma toUri_text n scheme :
  n <> [] -> Forall component_ok n ->
  toUri n scheme = (if scheme then chars "ndn:" else []) ++ name_text false n.
Proof.
  intros Hn Hok. destruct n as [| c n]; [easy |].
  transitivity (str (fold_left (fun s c => component_toEscapedString c (put (chars "/") s)) (c :: n)
    (stream_at (if scheme then chars "ndn:" else []) false))); [now destruct scheme |].
  now apply fold_text.
Qed.

(** ** Reading the text back *)

(** What the printer writes for a value: no separator and no whitespace. *)
Definition plain (c : Z) : Prop := is_unescaped c = true \/ c = 37.

Lemma is_unescaped_spec c :
  is_unescaped c = true <->
  48 <= c <= 57 \/ 65 <= c <= 90 \/ 97 <= c <= 122 \/ c = 43 \/ c = 45 \/ c = 46 \/ c = 95.
Proof.
  unfold is_unescaped. rewrite !orb_true_iff, !andb_true_iff, !Z.leb_le, !Z.eqb_eq. lia.
Qed.

Lemma plain_range c :
  plain c -> c <> 47 /\ c <> 58 /\ c <> 61 /\ c <> 32 /\ c <> 9 /\ c <> 10 /\ c <> 13.
Proof. intros [H%is_unescaped_spec | H]; lia. Qed.

Lemma digit_char_spec u d :
  0 <= d < 16 -> plain (digit_char u d) /\ fromHexChar (digit_char u d) = d.
Proof.
  intros H. assert (Hd : d = 0 \/ d = 1 \/ d = 2 \/ d = 3 \/ d = 4 \/ d = 5 \/ d = 6 \/ d = 7 \/
    d = 8 \/ d = 9 \/ d = 10 \/ d = 11 \/ d = 12 \/ d = 13 \/ d = 14 \/ d = 15) by lia.
  unfold plain. destruct u; repeat destruct Hd as [-> | Hd]; subst; split; auto.
Qed.

Lemma byte_nibbles x : is_byte x -> 0 <= x / 16 < 16 /\ 0 <= x mod 16 < 16.
Proof.
  unfold is_byte. intros H. split; [| apply Z.mod_pos_bound; lia].
  split; [apply Z.div_pos; lia | apply Z.div_lt_upper_bound; lia].
Qed.

Lemma plain_hex_byte u x : is_byte x -> Forall plain (hex_byte u x).
Proof. intros [H1 H2]%byte_nibbles. unfold hex_byte. rewrite !Forall_cons, Forall_nil.
  repeat split; now apply digit_char_spec.
Qed.

Lemma plain_hex u v : bytes_ok v -> Forall plain (concat (map (hex_byte u) v)).
Proof.
  induction 1 as [| x v Hx Hv IH]; [constructor |]. cbn [map concat].
  apply Forall_app. split; [now apply plain_hex_byte | easy].
Qed.

Lemma plain_value_text v : bytes_ok v -> Forall plain (value_text v).
Proof.
  intros Hv. unfold value_text. destruct (existsb _ v).
  - induction Hv as [| x v Hx Hv IH]; [constructor |]. cbn [map concat]. apply Forall_app.
    split; [| easy]. unfold escape_byte. destruct (is_unescaped x) eqn:E.
    + apply Forall_singleton. now left.
    + constructor; [now right | now apply plain_hex_byte].
  - apply Forall_app. split; [repeat (apply List.Forall_cons; [now left |]); constructor |].
    apply Forall_replicate. now left.
Qed.

Lemma plain_digits fuel base n u :
  1 < base <= 16 -> 0 <= n -> Forall plain (digits fuel base n u).
Proof.
  intros Hb. revert n. induction fuel as [| fuel IH]; intros n Hn; [constructor |]. cbn.
  destruct (Z.ltb_spec n base); [apply Forall_singleton, digit_char_spec; lia |].
  apply Forall_app. split; [apply IH, Z.div_pos; lia |].
  pose proof (Z.mod_pos_bound n base). apply Forall_singleton, digit_char_spec. lia.
Qed.

Lemma unescape_escape v rest :
  bytes_ok v -> unescape (concat (map escape_byte v) ++ rest) = v ++ unescape rest.
Proof.
  induction 1 as [| x v Hx Hv IH]; [easy |]. cbn [map concat]. rewrite <- app_assoc.
  change ((x :: v) ++ unescape rest) with (x :: v ++ unescape rest). rewrite <- IH.
  generalize (concat (map escape_byte v) ++ rest). intros s. unfold escape_byte.
  destruct (is_unescaped x) eqn:E.
  - apply is_unescaped_spec in E. cbn [app unescape].
    destruct s as [| d [| e u]]; [easy | easy |].
    now destruct (Z.eqb_spec x 37); [lia |].
  - destruct (byte_nibbles x Hx) as [[H1 H2] [H3 H4]].
    cbn [app unescape hex_byte]. rewrite Z.eqb_refl.
    rewrite (proj2 (digit_char_spec true (x / 16) ltac:(easy))),
      (proj2 (digit_char_spec true (x mod 16) ltac:(easy))).
    rewrite (proj2 (Z.ltb_ge _ _) H1), (proj2 (Z.ltb_ge _ _) H3). cbn [orb app].
    now rewrite <- Z.div_mod by easy.
Qed.

Lemma fromHex_hex u v : bytes_ok v -> fromHex (concat (map (hex_byte u) v)) = Some v.
Proof.
  induction 1 as [| x v Hx Hv IH]; [easy |].
  destruct (byte_nibbles x Hx) as [[H1 H2] [H3 H4]].
  destruct (digit_char_spec u (x / 16)) as [Hp Hd]; [easy |]. apply plain_range in Hp.
  cbn [map concat hex_byte app fromHex]. destruct (Z.eqb_spec (digit_char u (x / 16)) 32); [lia |].
  rewrite Hd, (proj2 (digit_char_spec u (x mod 16) ltac:(easy))).
  rewrite (proj2 (Z.ltb_ge _ _) H1), (proj2 (Z.ltb_ge _ _) H3), IH. cbn [orb].
  now rewrite <- Z.div_mod by easy.
Qed.

Definition solid (c : Z) : Prop := is_whitespace c = false.

Lemma trimLeft_solid s : Forall solid s -> trimLeft s = s.
Proof. intros H. destruct H as [| c s Hc Hs]; [easy |]. cbn. now rewrite Hc. Qed.

Lemma ndn_trim_solid s : Forall solid s -> ndn_trim s = s.
Proof.
  intros H. unfold ndn_trim, trimRight. rewrite (trimLeft_solid s), trimLeft_solid by
    (easy || now apply Forall_rev). apply rev_involutive.
Qed.

Lemma not_white c : c <> 32 -> c <> 9 -> c <> 10 -> c <> 13 -> solid c.
Proof.
  intros. unfold solid, is_whitespace.
  rewrite !(proj2 (Z.eqb_neq _ _)) by easy. easy.
Qed.

Lemma plain_solid s : Forall plain s -> Forall solid s.
Proof. intros Hs. eapply Forall_impl; [exact Hs |]. intros c H%plain_range. apply not_white; lia. Qed.

Lemma existsb_replicate_false (p : Z -> bool) n b : p b = false -> existsb p (replicate n b) = false.
Proof. intros H. induction n; cbn; now rewrite ?H. Qed.

Lemma all_dots v :
  existsb (fun b => negb (b =? 0x2e)) v = false -> v = replicate (length v) 0x2e.
Proof.
  induction v as [| b v IH]; [easy |]. cbn. intros [H1 H2]%orb_false_iff.
  apply negb_false_iff, Z.eqb_eq in H1 as ->. now rewrite <- IH.
Qed.

Lemma unescape_dots n : unescape (replicate n 0x2e) = replicate n 0x2e.
Proof.
  induction n as [| n IH]; [easy |]. cbn [replicate].
  destruct n as [| [| n]]; [easy | easy |]. cbn [replicate] in *.
  change (unescape (0x2e :: 0x2e :: 0x2e :: replicate n 0x2e))
    with (0x2e :: unescape (0x2e :: 0x2e :: replicate n 0x2e)).
  now rewrite IH.
Qed.

Lemma fromEscapedString_text v : bytes_ok v -> fromEscapedString (value_text v) = Some v.
Proof.
  intros Hv. unfold fromEscapedString.
  rewrite ndn_trim_solid by now apply plain_solid, plain_value_text.
  unfold value_text. destruct (existsb _ v) eqn:E.
  - rewrite <- (app_nil_r (concat _)), unescape_escape by easy. cbn [unescape].
    now rewrite app_nil_r, E.
  - change (chars "...") with (replicate 3 0x2e). rewrite <- replicate_add, unescape_dots.
    rewrite existsb_replicate_false by easy. cbn [negb].
    destruct (Z.leb_spec (zlen (replicate (3 + length v) 0x2e)) 2) as [H | H].
    + rewrite length_replicate in H. lia.
    + rewrite drop_replicate. f_equal. rewrite (all_dots v E) at 2. f_equal. lia.
Qed.

Lemma split_at_app c l r : c ∉ l -> split_at c (l ++ c :: r) = (l, Some r).
Proof.
  induction l as [| b l IH]; cbn; intros H; [now rewrite Z.eqb_refl |].
  apply not_elem_of_cons in H as [H1 H2].
  rewrite (proj2 (Z.eqb_neq b c)), IH by congruence. easy.
Qed.

Lemma split_at_none c l : c ∉ l -> split_at c l = (l, None).
Proof.
  induction l as [| b l IH]; cbn; intros H; [easy |].
  apply not_elem_of_cons in H as [H1 H2].
  rewrite (proj2 (Z.eqb_neq b c)), IH by congruence. easy.
Qed.

Lemma plain_notin c s : Forall plain s -> ~ plain c -> c ∉ s.
Proof. intros H Hc Hin. rewrite Forall_forall in H. now apply Hc, H. Qed.

Lemma not_plain c : c = 47 \/ c = 58 \/ c = 61 -> ~ plain c.
Proof. intros H Hp%plain_range. lia. Qed.

Definition decimal (c : Z) : Prop := 48 <= c <= 57.

Lemma decimal_digits fuel n u : 0 <= n -> Forall decimal (digits fuel 10 n u).
Proof.
  revert n. induction fuel as [| fuel IH]; intros n Hn; [constructor |]. cbn. unfold digit_char.
  destruct (Z.ltb_spec n 10); [apply Forall_singleton; unfold decimal; lia |].
  apply Forall_app. split; [apply IH, Z.div_pos; lia |].
  pose proof (Z.mod_pos_bound n 10). apply Forall_singleton. unfold decimal.
  destruct (Z.ltb_spec (n mod 10) 10); lia.
Qed.

Lemma read_digits_app acc l r :
  Forall decimal l -> read_digits acc (l ++ r) = read_digits (read_digits acc l) r.
Proof.
  intros H. revert acc. induction H as [| c l Hc Hl IH]; intros acc; [easy |]. cbn.
  unfold decimal in Hc. rewrite (proj2 (Z.leb_le 48 c)), (proj2 (Z.leb_le c 57)) by lia. apply IH.
Qed.

Lemma read_digit acc d u : 0 <= d < 10 -> read_digits acc [digit_char u d] = acc * 10 + d.
Proof.
  intros H. unfold digit_char. rewrite (proj2 (Z.ltb_lt d 10)) by lia. cbn [read_digits].
  rewrite (proj2 (Z.leb_le 48 (48 + d))), (proj2 (Z.leb_le (48 + d) 57)) by lia. cbn [andb]. lia.
Qed.

Lemma read_digits_digits fuel n u :
  0 <= n < 10 ^ Z.of_nat fuel -> read_digits 0 (digits fuel 10 n u) = n.
Proof.
  revert n. induction fuel as [| fuel IH]; intros n Hn; [cbn in *; lia |]. cbn [digits].
  destruct (Z.ltb_spec n 10); [rewrite read_digit; lia |].
  rewrite read_digits_app by (apply decimal_digits, Z.div_pos; lia).
  rewrite IH.
  - pose proof (Z.mod_pos_bound n 10). rewrite read_digit by lia.
    pose proof (Z.div_mod n 10). lia.
  - split; [apply Z.div_pos; lia |]. apply Z.div_lt_upper_bound; [lia |].
    rewrite Nat2Z.inj_succ, Z.pow_succ_r in Hn by lia. lia.
Qed.

Lemma digits_nonempty fuel base n u : exists c t, digits (S fuel) base n u = c :: t.
Proof.
  cbn. destruct (n <? base); [eauto |].
  destruct (digits fuel base (n / base) u); cbn; eauto.
Qed.

Lemma atoi_digits n : 0 <= n < 2 ^ 31 -> atoi (digits 10 10 n false) = n.
Proof.
  intros H. assert (E : read_digits 0 (digits 10 10 n false) = n) by (apply read_digits_digits; cbn; lia).
  pose proof (decimal_digits 10 n false ltac:(lia)) as Hd. unfold atoi.
  destruct (digits_nonempty 9 10 n false) as (c & t & Ht). rewrite Ht in *.
  apply List.Forall_inv in Hd as Hc. unfold decimal in Hc. cbn [skip_space].
  unfold is_space. rewrite (proj2 (Z.eqb_neq c 32)), (proj2 (Z.leb_gt c 13)), andb_false_r by lia.
  cbn [orb]. rewrite (proj2 (Z.eqb_neq c 45)), (proj2 (Z.eqb_neq c 43)), E by lia.
  rewrite Z.min_r, Z.max_r by lia. apply to_int32_small. lia.
Qed.

(** A code below 10 has the same digits in both bases. *)
Lemma digits_small n : 0 <= n < 10 -> digits 10 16 n false = digits 10 10 n false.
Proof. intros H. cbn [digits]. now rewrite (proj2 (Z.ltb_lt n 16)), (proj2 (Z.ltb_lt n 10)) by lia. Qed.

Lemma parse_type_digits n :
  0 <= n < 2 ^ 31 -> n <> 1 -> n <> 2 -> n <> 8 ->
  parse_type (digits 10 10 n false) = Ok (OTHER_CODE, n).
Proof.
  intros Hn H1 H2 H8. unfold parse_type.
  rewrite atoi_digits by easy. case_bool_decide as Hz.
  - apply (f_equal (read_digits 0)) in Hz. rewrite read_digits_digits in Hz by (cbn; lia).
    now subst.
  - destruct (Z.eqb_spec n 0) as [-> |]; [now contradiction Hz |]. cbn.
    now rewrite !(proj2 (Z.eqb_neq _ _)) by easy.
Qed.

Lemma is_prefix_notin c p s : c ∈ p -> c ∉ s -> is_prefix p s = false.
Proof.
  revert s. induction p as [| a p IH]; intros s Hp Hs; [now apply not_elem_of_nil in Hp |].
  destruct s as [| b s]; [easy |]. cbn. apply not_elem_of_cons in Hs as [Hb Hs].
  apply elem_of_cons in Hp as [<- | Hp].
  - now rewrite (proj2 (Z.eqb_neq _ _)).
  - rewrite IH by easy. apply andb_false_r.
Qed.

Lemma is_prefix_head a p b s : a <> b -> is_prefix (a :: p) (b :: s) = false.
Proof. intros H. cbn. now rewrite (proj2 (Z.eqb_neq a b)). Qed.

Lemma is_prefix_app p s : is_prefix p (p ++ s) = true.
Proof. induction p as [| a p IH]; [easy |]. cbn. now rewrite Z.eqb_refl. Qed.

(** What the printer can write so that it can be read back: digests of the digest size, and no
    type code in hexadecimal that would read differently. *)
Definition digest_ok (c : Component) : Prop :=
  match type_ c with
  | IMPLICIT_SHA256_DIGEST | PARAMETERS_SHA256_DIGEST => zlen (value_ c) = 32
  | _ => True
  end.

Definition code_readable (h : bool) (c : Component) : Prop :=
  type_ c = OTHER_CODE -> h = true -> otherTypeCode_ c < 10.

Lemma other_text h c :
  component_ok c -> type_ c = OTHER_CODE -> code_readable h c ->
  component_text h c = digits 10 10 (otherTypeCode_ c) false ++ 61 :: value_text (value_ c).
Proof.
  intros [Hv Hc] Ht Hr. unfold component_text. rewrite Ht in *. destruct h; [| easy].
  rewrite digits_small; [easy |]. specialize (Hr Ht eq_refl). lia.
Qed.

Lemma parse_digest_text make v :
  bytes_ok v ->
  parse_digest make (concat (map (hex_byte false) v)) = (c ← make v; mret (Some c)).
Proof. intros Hv. unfold parse_digest. now rewrite fromHex_hex. Qed.

Lemma parse_component_text h c :
  component_ok c -> digest_ok c -> code_readable h c ->
  parse_component (component_text h c) = Ok (Some c).
Proof.
  intros Hok Hd Hr. pose proof (other_text h c Hok) as Ho.
  destruct c as [type code v]. destruct Hok as [Hv Hc].
  pose proof (plain_value_text v Hv) as Hp.
  pose proof (plain_notin 61 _ Hp (not_plain 61 ltac:(lia))) as H61.
  unfold digest_ok in Hd. unfold component_text in *. cbn [type_ value_ otherTypeCode_] in *.
  destruct type; subst.
  - unfold parse_component. rewrite is_prefix_app.
    change 13%nat with (length (chars "sha256digest=")). rewrite drop_app_length.
    rewrite parse_digest_text by easy. unfold fromImplicitSha256Digest. now rewrite Hd.
  - unfold parse_component. change (is_prefix (chars "sha256digest=") _) with false.
    rewrite is_prefix_app.
    change 14%nat with (length (chars "params-sha256=")). rewrite drop_app_length.
    rewrite parse_digest_text by easy. unfold fromParametersSha256Digest. now rewrite Hd.
  - unfold parse_component. rewrite !(is_prefix_notin 61) by
      (easy || apply list_elem_of_In; cbn; tauto).
    rewrite split_at_none by easy. cbn. now rewrite fromEscapedString_text.
  - rewrite Ho by easy. destruct Hc as (Hn & H1 & H2 & H8). unfold parse_component.
    pose proof (decimal_digits 10 code false ltac:(lia)) as Hdec.
    assert (Hno : 61 ∉ digits 10 10 code false).
    { intros Hin. rewrite Forall_forall in Hdec. apply Hdec in Hin. unfold decimal in Hin. lia. }
    rewrite split_at_app, parse_type_digits by easy. cbn [mbind result_bind].
    destruct (digits_nonempty 9 10 code false) as (b & t & Hb). rewrite Hb in *.
    apply List.Forall_inv in Hdec. unfold decimal in Hdec.
    change (chars "sha256digest=") with (115 :: chars "ha256digest=").
    change (chars "params-sha256=") with (112 :: chars "arams-sha256=").
    cbn [app]. rewrite !is_prefix_head by lia. cbn [mbind result_bind mret result_ret].
    rewrite fromEscapedString_text by easy. unfold make_component.
    now rewrite (proj2 (Z.eqb_neq _ _)), (proj2 (Z.ltb_ge _ _)) by lia.
Qed.

Lemma component_text_chars h c :
  component_ok c -> Forall (fun b => plain b \/ b = 61) (component_text h c).
Proof.
  intros [Hv Hc].
  assert (Hpl : forall s, Forall plain s -> Forall (fun b => plain b \/ b = 61) s).
  { intros s Hs. eapply Forall_impl; [exact Hs |]. auto. }
  unfold component_text. destruct (type_ c).
  1,2: apply Forall_app; split; [| now apply Hpl, plain_hex];
    repeat (apply List.Forall_cons; [first [now left; left | now right] |]); constructor.
  - now apply Hpl, plain_value_text.
  - apply Forall_app. split; [apply Hpl, plain_digits; destruct h; lia |].
    apply List.Forall_cons; [now right | now apply Hpl, plain_value_text].
Qed.

Lemma value_text_nonempty v : bytes_ok v -> value_text v <> [].
Proof.
  intros Hv E. apply fromEscapedString_text in Hv. now rewrite E in Hv.
Qed.

Lemma component_text_nonempty h c : component_ok c -> component_text h c <> [].
Proof.
  intros [Hv Hc]. unfold component_text. destruct (type_ c); [easy | easy | |].
  - now apply value_text_nonempty.
  - destruct (digits_nonempty 9 (if h then 16 else 10) (otherTypeCode_ c) false) as (b & t & ->).
    easy.
Qed.

(** ** The loop over the components *)

Fixpoint codes_readable (h : bool) (n : Name) : Prop :=
  match n with
  | [] => True
  | c :: n => code_readable h c /\ codes_readable (h || is_digest c) n
  end.

Lemma notin_chars c s : Forall (fun b => plain b \/ b = 61) s -> c = 47 \/ c = 58 -> c ∉ s.
Proof.
  intros H Hc Hin. rewrite Forall_forall in H. destruct (H c Hin) as [Hp | ->]; [| lia].
  now apply (not_plain c); [lia |].
Qed.

Lemma parse_components_text n h c fuel self :
  Forall component_ok (c :: n) -> Forall digest_ok (c :: n) -> codes_readable h (c :: n) ->
  (length (component_text h c ++ name_text (h || is_digest c) n) < fuel)%nat ->
  parse_components fuel (component_text h c ++ name_text (h || is_digest c) n) self
  = Ok (self ++ c :: n).
Proof.
  revert h c fuel self. induction n as [| d n IH]; intros h c [| fuel] self Hok Hd [Hr Hrs] Hf; try lia;
    apply Forall_cons in Hok as [Hc Hok]; apply Forall_cons in Hd as [Hdc Hd].
  all: pose proof (component_text_nonempty h c Hc) as Hne;
    pose proof (notin_chars 47 _ (component_text_chars h c Hc) ltac:(lia)) as H47.
  all: cbn [parse_components name_text]; cbn [name_text] in Hf; rewrite length_app in Hf;
    destruct (component_text h c ++ _) eqn:E; [now apply app_eq_nil in E |]; rewrite <- E; clear E.
  - rewrite app_nil_r, split_at_none, parse_component_text by easy. cbn.
    destruct fuel; [| easy]. cbn in Hf. destruct (component_text h c); [easy |]. cbn in Hf. lia.
  - rewrite split_at_app, parse_component_text by easy. cbn [mbind result_bind default from_option id].
    cbn [length] in Hf.
    rewrite IH by (easy || lia).
    unfold append. now rewrite <- app_assoc.
Qed.

Lemma name_text_chars h n :
  Forall component_ok n -> Forall (fun b => plain b \/ b = 61 \/ b = 47) (name_text h n).
Proof.
  intros H. revert h. induction H as [| c n Hc Hn IH]; intros h; [constructor |].
  apply List.Forall_cons; [now right; right |]. apply Forall_app. split; [| apply IH].
  eapply Forall_impl; [now apply component_text_chars |]. cbn. tauto.
Qed.

Lemma name_text_solid h n : Forall component_ok n -> Forall solid (name_text h n).
Proof.
  intros H. eapply Forall_impl; [now apply name_text_chars |].
  intros b [Hp%plain_range | [-> | ->]]; [| easy | easy]. apply not_white; lia.
Qed.

Lemma strip_scheme_ndn t : strip_scheme (chars "ndn:" ++ t) = ndn_trim t.
Proof. reflexivity. Qed.

Lemma name_set_text h c n :
  Forall component_ok (c :: n) -> Forall digest_ok (c :: n) -> codes_readable h (c :: n) ->
  name_set (name_text h (c :: n)) = Ok (c :: n) /\
  name_set (chars "ndn:" ++ name_text h (c :: n)) = Ok (c :: n).
Proof.
  intros Hok Hd Hr. pose proof (name_text_solid h _ Hok) as Hs.
  pose proof (Forall_inv Hok) as Hc.
  assert (Hslash : strip_slash (name_text h (c :: n)) =
    Some (component_text h c ++ name_text (h || is_digest c) n)).
  { cbn [name_text strip_slash]. rewrite ndn_trim_solid by exact (Forall_inv_tail Hs).
    pose proof (component_text_nonempty h c Hc) as Hne.
    pose proof (notin_chars 47 _ (component_text_chars h c Hc) ltac:(lia)) as H47.
    destruct (component_text h c) as [| b t]; [easy |]. apply not_elem_of_cons in H47 as [H47 _].
    cbn [app strip_slash]. now rewrite (proj2 (Z.eqb_neq b 47)) by congruence. }
  assert (H58 : 58 ∉ name_text h (c :: n)).
  { intros Hin. pose proof (name_text_chars h _ Hok) as Hch. rewrite Forall_forall in Hch.
    destruct (Hch 58 Hin) as [Hp%plain_range | [? | ?]]; lia. }
  pose proof (parse_components_text n h c _ [] Hok Hd Hr (Nat.lt_succ_diag_r _)) as Hloop.
  unfold name_set. split.
  - rewrite ndn_trim_solid by easy. unfold strip_scheme. rewrite split_at_none by easy.
    rewrite Hslash. now rewrite Hloop.
  - rewrite ndn_trim_solid by (apply Forall_app; split; [repeat constructor | easy]).
    rewrite strip_scheme_ndn, ndn_trim_solid, Hslash, Hloop by easy. easy.
Qed.

(** A computation that does not run out of fuel. *)
Definition ended {A} (r : result exn A) : Prop := r <> Err (Failed OutOfFuel).

Lemma ended_ok {A} (a : A) : ended (Ok a).
Proof. easy. Qed.

Lemma ended_bind {A B} (m : result exn A) (f : A -> result exn B) :
  ended m -> (forall a, ended (f a)) -> ended (m ≫= f).
Proof. unfold ended. intros Hm Hf. destruct m as [a | e]; [apply Hf | cbn; congruence]. Qed.

Create HintDb ended.
#[local] Hint Resolve ended_ok ended_bind : ended.
#[local] Hint Extern 1 (ended (Err _)) => discriminate : ended.
#[local] Hint Extern 1 (ended (mret _)) => discriminate : ended.

Lemma make_component_ended v t c : ended (make_component v t c).
Proof. unfold make_component. repeat case_match; auto with ended. Qed.

Lemma parse_type_ended s : ended (parse_type s).
Proof. unfold parse_type. apply ended_bind; [| auto with ended]. repeat case_match; auto with ended. Qed.

Lemma parse_digest_ended make s : (forall v, ended (make v)) -> ended (parse_digest make s).
Proof. intros H. unfold parse_digest. auto with ended. Qed.

#[local] Hint Resolve make_component_ended parse_type_ended : ended.

Lemma parse_component_fuel segment : ended (parse_component segment).
Proof.
  unfold parse_component. case_match; [| case_match].
  1,2: apply parse_digest_ended; intros v;
    unfold fromImplicitSha256Digest, fromParametersSha256Digest; case_match; auto with ended.
  apply ended_bind.
  - destruct (split_at 61 segment) as [? [rest |]]; [| auto with ended].
    apply ended_bind; [auto with ended |]. intros [? ?]. auto with ended.
  - intros [[? ?] ?]. case_match; auto with ended.
Qed.

Lemma split_at_length c s l r : split_at c s = (l, Some r) -> (length r < length s)%nat.
Proof.
  revert l. induction s as [| b s IH]; intros l H; [easy |]. cbn in H.
  destruct (b =? c); [simplify_eq; cbn; lia |].
  destruct (split_at c s) as [l' [r' |]]; simplify_eq. cbn. specialize (IH _ eq_refl). lia.
Qed.

Lemma parse_components_enough fuel uri self :
  (length uri < fuel)%nat -> ended (parse_components fuel uri self).
Proof.
  revert uri self. induction fuel as [| fuel IH]; intros uri self Hf; [lia |].
  destruct uri as [| b uri]; [easy |]. cbn [parse_components].
  destruct (split_at 47 (b :: uri)) as [segment rest] eqn:E.
  apply ended_bind; [apply parse_component_fuel |]. intros c.
  apply IH. destruct rest as [r |]; [| cbn in *; lia].
  apply split_at_length in E. cbn [default from_option id]. lia.
Qed.

(** ** Properties *)

Lemma name_set_toUri (n : Name) (includeScheme : bool) :
  Forall component_ok n -> Forall digest_ok n -> codes_readable false n ->
  name_set (toUri n includeScheme) = Ok n.
Proof.
  intros Hok Hd Hr. destruct n as [| c n]; [now destruct includeScheme |].
  rewrite toUri_text by easy. destruct includeScheme; now apply name_set_text.
Qed.

(** C35: URI round trip. A name, whose values are bytes and whose digests have 32 bytes, and in which no component with a type
    code from 10 on follows a digest, is printed as a URI, with or without the scheme, and is read back as the same
    name: every byte of every value survives the escaping, and so do empty components, components
    of periods, digests and types given by a number. (A digest leaves the stream in hexadecimal, so a type code from 10 on after
    it is read as another one.) *)
Theorem uri_roundtrip (n : Name) (includeScheme : bool) :
  Forall component_ok n -> Forall digest_ok n -> codes_readable false n ->
  name_set (toUri n includeScheme) = Ok n.
Proof. apply name_set_toUri. Qed.

(** Hexadecimal type codes. [toHex] leaves the stream in hexadecimal, so a type code after a digest
    is printed in hexadecimal and read back as another type. *)
Theorem uri_type_after_digest :
  exists n n', Forall component_ok n /\ Forall digest_ok n /\
    name_set (toUri n false) = Ok n' /\ component_compare (default (generic []) (n !! 1%nat))
      (default (generic []) (n' !! 1%nat)) <> 0.
Proof.
  exists [mkComponent IMPLICIT_SHA256_DIGEST (-1) (replicate 32 0); mkComponent OTHER_CODE 32 [97]].
  exists [mkComponent IMPLICIT_SHA256_DIGEST (-1) (replicate 32 0); mkComponent OTHER_CODE 20 [97]].
  split; [| split; [| split]].
  - repeat constructor; cbn; lia.
  - repeat constructor.
  - vm_compute. reflexivity.
  - vm_compute. discriminate.
Qed.

(** The parser terminates. On every input the loop over the components ends within its bound, with a
    name or with one of the errors that the source throws. *)
Theorem name_set_terminates (uri : list Z) : ended (name_set uri).
Proof.
  unfold name_set. destruct (ndn_trim uri); [easy |].
  destruct (strip_slash _); [| easy]. apply parse_components_enough. lia.
Qed.

(** ** Witnesses *)

Lemma uri_roundtrip_witness :
  let n := [generic [97; 47; 0]; generic [46; 46]; mkComponent OTHER_CODE 32 [61];
            mkComponent IMPLICIT_SHA256_DIGEST (-1) (replicate 32 171)] in
  name_set (toUri n true) = Ok n.
Proof.
  intros n. apply (uri_roundtrip n true).
  - repeat constructor; cbn; lia.
  - repeat constructor.
  - repeat split; intros H1 H2; (discriminate H1 || discriminate H2).
Defined.
