(* ===== verification/ChangeCounter.v ===== *)
(** * Change counts

    The protocol by which a packet object knows that its cached encoding is out of date:
    [ChangeCounter<T>] of include/ndn-ind/util/change-counter.hpp and the [getChangeCount]
    of the objects it tracks. [ChangeCounted] is the interface between the two: what an object
    with a change count gives, and what its counts promise to whoever recorded one. Counts are
    unbounded integers here; the 64-bit counts of the source do not wrap before 2^64 changes. *)

From stdpp Require Import base list numbers option.
From Stdlib Require Import ZArith Lia.
From S2P Require Import Prelude Name.
Open Scope Z_scope.

(** ** The interface *)

(** An object of type [T] that stands for a value of type [V]: its field [changeCount_], and the
    method [getChangeCount], which can bring the field up to date. *)
Class ChangeCounted (T V : Type) := {
  value_of : T -> V;
  count_of : T -> Z;
  getChangeCount : T -> Z * T
}.

Class ChangeCountedLaws (T V : Type) `{ChangeCounted T V} := {
  gcc_field (x : T) : count_of (getChangeCount x).2 = (getChangeCount x).1;
  gcc_idem (x : T) : getChangeCount (getChangeCount x).2 = getChangeCount x;
  gcc_value (x : T) : value_of (getChangeCount x).2 = value_of x;
  gcc_le (x : T) : count_of x <= (getChangeCount x).1
}.

(** [later x y]: whoever recorded a count of [x] and sees it again at [y] has the same value. This
    is what every method that changes an object must ensure. *)
Definition later {T V} `{ChangeCounted T V} (x y : T) : Prop :=
  count_of x <= count_of y /\
  forall recorded, recorded <= count_of x -> (getChangeCount y).1 = recorded ->
    (getChangeCount x).1 = recorded /\ value_of x = value_of y.

Section Later.
Context {T V : Type} `{ChangeCountedLaws T V}.
Implicit Types x y z : T.

Lemma later_refl x : later x x.
Proof. split; [lia | easy]. Qed.

Lemma later_trans x y z : later x y -> later y z -> later x z.
Proof.
  intros [Hxy Hx] [Hyz Hy]. split; [lia |]. intros r Hr Hz.
  destruct (Hy r ltac:(lia) Hz) as [Hyr Hv]. destruct (Hx r Hr Hyr) as [Hxr Hw].
  split; [easy | congruence].
Qed.

Lemma later_getChangeCount x : later x (getChangeCount x).2.
Proof using All.
  split; [rewrite gcc_field; apply gcc_le |]. intros r _ Hr. rewrite gcc_idem in Hr.
  now rewrite gcc_value.
Qed.

(** A method that increments the count beyond any recorded one. *)
Lemma later_increment x y : count_of x < count_of y -> later x y.
Proof using All.
  intros Hlt. split; [lia |]. intros r Hr Hy. pose proof (gcc_le y). lia.
Qed.
End Later.

(** ** ChangeCounter *)

Record ChangeCounter (T : Type) := mkCounter {
  target_ : T;
  local_ : Z
}.
Arguments mkCounter {T}.
Arguments target_ {T}.
Arguments local_ {T}.

Section ChangeCounter.
Context {T V : Type} `{ChangeCounted T V}.

(** The constructors, and [set] with a target whose assignment copies it. *)
Definition counter_set (target : T) : ChangeCounter T :=
  let '(count, target) := getChangeCount target in mkCounter target count.

(** A change of the target through the reference that [get] returns. *)
Definition counter_modify (f : T -> T) (self : ChangeCounter T) : ChangeCounter T :=
  mkCounter (f (target_ self)) (local_ self).

Definition checkChanged (self : ChangeCounter T) : bool * ChangeCounter T :=
  let '(targetChangeCount, target) := getChangeCount (target_ self) in
  if negb (local_ self =? targetChangeCount) then (true, mkCounter target targetChangeCount)
  else (false, mkCounter target (local_ self)).

(** The local count was recorded from this target or an earlier one. *)
Definition counter_ok (self : ChangeCounter T) : Prop := local_ self <= count_of (target_ self).

Definition counter_value (self : ChangeCounter T) : V := value_of (target_ self).

Definition pending (self : ChangeCounter T) : bool :=
  negb (local_ self =? (getChangeCount (target_ self)).1).

Context `{!ChangeCountedLaws T V}.

Lemma checkChanged_spec self :
  let self' := (checkChanged self).2 in
  (checkChanged self).1 = pending self /\ pending self' = false /\
  checkChanged self' = (false, self') /\
  counter_value self' = counter_value self /\ counter_ok self'.
Proof using All.
  unfold checkChanged, pending, counter_value, counter_ok.
  pose proof (gcc_idem (target_ self)) as Hi. pose proof (gcc_value (target_ self)) as Hv.
  pose proof (gcc_field (target_ self)) as Hf.
  destruct (getChangeCount (target_ self)) as [c t] eqn:E. cbn in Hi, Hv, Hf |- *.
  destruct (Z.eqb_spec (local_ self) c) as [Hl | Hl]; cbn [negb fst snd target_ local_];
    rewrite ?Hi; cbn [fst]; rewrite ?Hl, ?Z.eqb_refl; cbn [negb];
    repeat split; (congruence || lia).
Qed.

Lemma counter_set_spec target :
  counter_ok (counter_set target) /\ pending (counter_set target) = false /\
  counter_value (counter_set target) = value_of target.
Proof using All.
  unfold counter_set, counter_ok, pending, counter_value.
  pose proof (gcc_idem target) as Hi. pose proof (gcc_value target) as Hv.
  pose proof (gcc_field target) as Hf.
  destruct (getChangeCount target) as [c t]. cbn in *. rewrite Hi. cbn [fst].
  rewrite Z.eqb_refl. repeat split; (congruence || lia).
Qed.

(** What the protocol gives: a change that is not seen did not change the value. *)
Lemma modify_not_pending f self :
  counter_ok self -> later (target_ self) (f (target_ self)) ->
  counter_ok (counter_modify f self) /\
  (pending (counter_modify f self) = false ->
   pending self = false /\ counter_value (counter_modify f self) = counter_value self).
Proof using All.
  intros Hok [Hle Hl]. unfold counter_ok, pending, counter_modify, counter_value in *.
  cbn [target_ local_]. split; [lia |]. intros Hp%negb_false_iff%Z.eqb_eq.
  destruct (Hl (local_ self) Hok ltac:(easy)) as [He Hv]. rewrite He, Z.eqb_refl. easy.
Qed.
End ChangeCounter.

(** ** Objects whose methods increment a count *)

Record Counted (A : Type) := mkCounted {
  counted_value : A;
  changeCount_ : Z
}.
Arguments mkCounted {A}.
Arguments counted_value {A}.
Arguments changeCount_ {A}.

#[export] Instance Counted_counted A : ChangeCounted (Counted A) A := {
  value_of := counted_value;
  count_of := changeCount_;
  getChangeCount x := (changeCount_ x, x)
}.

#[export] Instance Counted_laws A : ChangeCountedLaws (Counted A) A.
Proof. split; intros x; cbn; (reflexivity || lia). Qed.

(** A method that changes the value and increments the count. *)
Definition increment_with {A} (f : A -> A) (x : Counted A) : Counted A :=
  mkCounted (f (counted_value x)) (changeCount_ x + 1).

Lemma increment_with_later {A} (f : A -> A) x : later x (increment_with f x).
Proof. apply later_increment. cbn. lia. Qed.

(** The assignment that C++ generates copies the count with the value. *)
Definition assign {A} (other self : Counted A) : Counted A := other.

Create HintDb later.
#[export] Hint Resolve increment_with_later : later.

(** ** Objects with tracked children

    [getChangeCount] of an object with children calls [checkChanged] on each of them and
    increments its own count when one has changed. [Children] is a group of counters; a pair of
    groups is a group. *)

Class Children (C W : Type) := {
  children_value : C -> W;
  children_pending : C -> bool;
  checkAll : C -> bool * C;
  children_ok : C -> Prop
}.

Class ChildrenLaws (C W : Type) `{Children C W} := {
  checkAll_changed (c : C) : (checkAll c).1 = children_pending c;
  checkAll_again (c : C) : checkAll (checkAll c).2 = (false, (checkAll c).2);
  checkAll_value (c : C) : children_value (checkAll c).2 = children_value c;
  checkAll_ok (c : C) : children_ok (checkAll c).2
}.

#[export] Instance counter_children T V `{ChangeCounted T V} : Children (ChangeCounter T) V := {
  children_value := counter_value;
  children_pending := pending;
  checkAll := checkChanged;
  children_ok := counter_ok
}.

#[export] Instance counter_children_laws T V `{ChangeCountedLaws T V} :
  ChildrenLaws (ChangeCounter T) V.
Proof. split; intros c; cbn; apply (checkChanged_spec c). Qed.

#[export] Instance pair_children C W D U `{Children C W} `{Children D U} :
  Children (C * D) (W * U) := {
  children_value c := (children_value c.1, children_value c.2);
  children_pending c := children_pending c.1 || children_pending c.2;
  checkAll c :=
    let '(changed1, c1) := checkAll c.1 in
    let '(changed2, c2) := checkAll c.2 in
    (changed2 || changed1, (c1, c2));
  children_ok c := children_ok c.1 /\ children_ok c.2
}.

#[export] Instance pair_children_laws C W D U `{ChildrenLaws C W} `{ChildrenLaws D U} :
  ChildrenLaws (C * D) (W * U).
Proof.
  split; intros [c d]; cbn;
    pose proof (checkAll_changed c); pose proof (checkAll_changed d);
    pose proof (checkAll_again c); pose proof (checkAll_again d);
    pose proof (checkAll_value c); pose proof (checkAll_value d);
    pose proof (checkAll_ok c); pose proof (checkAll_ok d);
    destruct (checkAll c) as [b1 c1], (checkAll d) as [b2 d2]; cbn in *.
  - subst. apply orb_comm.
  - repeat match goal with E : checkAll _ = _ |- _ => rewrite E; clear E end. easy.
  - congruence.
  - easy.
Qed.

(** One group of children after another: the changes that are not seen changed nothing. *)
Definition children_later {C W} `{Children C W} (c d : C) : Prop :=
  children_ok c -> children_ok d /\
  (children_pending d = false -> children_pending c = false /\ children_value d = children_value c).

Lemma children_later_refl {C W} `{Children C W} (c : C) : children_later c c.
Proof. easy. Qed.

Lemma children_later_pair {C W D U} `{Children C W} `{Children D U} (c c' : C) (d d' : D) :
  children_later c c' -> children_later d d' -> children_later (c, d) (c', d').
Proof.
  intros Hc Hd [Ok1 Ok2]. destruct (Hc Ok1) as [Ok1' Hc'], (Hd Ok2) as [Ok2' Hd'].
  split; [easy |]. cbn. intros [H1 H2]%orb_false_iff.
  destruct (Hc' H1) as [-> ->], (Hd' H2) as [-> ->]. easy.
Qed.

(** A change of a child through its reference. *)
Lemma children_later_modify {T V} `{ChangeCountedLaws T V} f (c : ChangeCounter T) :
  later (target_ c) (f (target_ c)) -> children_later c (counter_modify f c).
Proof. intros Hf Hok. now apply modify_not_pending. Qed.

Lemma children_later_set {T V} `{ChangeCountedLaws T V} (t : T) (c : ChangeCounter T) :
  counter_value c = value_of t -> pending c = false -> children_later c (counter_set t).
Proof.
  intros Hv Hp _. destruct (counter_set_spec t) as (Ho & _ & Hs). split; [exact Ho |].
  intros _. cbn. now rewrite Hs.
Qed.

(** An object with its own fields, its children and its count. *)
Record Composite (A C : Type) := mkComposite {
  own_ : A;
  children_ : C;
  composite_count_ : Z
}.
Arguments mkComposite {A C}.
Arguments own_ {A C}.
Arguments children_ {A C}.
Arguments composite_count_ {A C}.

#[export] Instance Composite_counted A C W `{Children C W} : ChangeCounted (Composite A C) (A * W) := {
  value_of x := (own_ x, children_value (children_ x));
  count_of := composite_count_;
  getChangeCount x :=
    let '(changed, children) := checkAll (children_ x) in
    let count := if changed : bool then composite_count_ x + 1 else composite_count_ x in
    (count, mkComposite (own_ x) children count)
}.

#[export] Instance Composite_laws A C W `{ChildrenLaws C W} :
  ChangeCountedLaws (Composite A C) (A * W).
Proof.
  split; intros [a c n]; cbn; pose proof (checkAll_again c); pose proof (checkAll_value c);
    destruct (checkAll c) as [b c1]; cbn in *.
  - easy.
  - repeat match goal with E : checkAll _ = _ |- _ => rewrite E; clear E end. easy.
  - congruence.
  - destruct b; lia.
Qed.

Section Composite.
Context {A C W : Type} `{ChildrenLaws C W}.
Implicit Types x : Composite A C.

(** A setter: change the fields or the children, and [++changeCount_]. *)
Definition composite_set (f : A -> A) (g : C -> C) (x : Composite A C) : Composite A C :=
  mkComposite (f (own_ x)) (g (children_ x)) (composite_count_ x + 1).

(** A change of a child through its reference. *)
Definition composite_modify (g : C -> C) (x : Composite A C) : Composite A C :=
  mkComposite (own_ x) (g (children_ x)) (composite_count_ x).

Lemma composite_set_later f g x : later x (composite_set f g x).
Proof using All. apply later_increment. cbn. lia. Qed.

Lemma composite_gcc x :
  (getChangeCount x).1 = composite_count_ x + Z.b2z (children_pending (children_ x)).
Proof using All.
  cbn. pose proof (checkAll_changed (children_ x)) as Hc.
  destruct (checkAll (children_ x)) as [b c]. cbn in *. subst. destruct (children_pending _); cbn; lia.
Qed.

Lemma composite_modify_later g x :
  children_ok (children_ x) -> children_later (children_ x) (g (children_ x)) ->
  later x (composite_modify g x).
Proof using All.
  intros Hok Hl. destruct (Hl Hok) as [Hok' Hp]. split; [cbn; lia |].
  intros r Hr. rewrite !composite_gcc. cbn [composite_modify children_ composite_count_ count_of
    Composite_counted] in *. intros He. destruct (children_pending (g (children_ x))) eqn:E;
    [cbn in He; lia |].
  destruct (Hp eq_refl) as [-> Hv]. cbn in *. split; [lia |]. now rewrite Hv.
Qed.

Lemma composite_gcc_ok x : children_ok (children_ (getChangeCount x).2).
Proof using All.
  cbn. pose proof (checkAll_ok (children_ x)) as Hc. now destruct (checkAll (children_ x)).
Qed.
End Composite.

(** ** The cached encoding

    [getDefaultWireEncoding], [setDefaultWireEncoding] and [wireEncode] of Interest, Data and
    DelegationSet: the encoding in the default wire format, with the change count at which it
    was stored. Formats are the addresses of the [WireFormat] objects, 0 for none. *)

Record Cached (T : Type) := mkCached {
  object_ : T;
  defaultWireEncoding_ : option (list Z);
  defaultWireEncodingFormat_ : Z;
  getDefaultWireEncodingChangeCount_ : Z
}.
Arguments mkCached {T}.
Arguments object_ {T}.
Arguments defaultWireEncoding_ {T}.
Arguments defaultWireEncodingFormat_ {T}.
Arguments getDefaultWireEncodingChangeCount_ {T}.

Section Cached.
Context {T V : Type} `{ChangeCounted T V}.
Implicit Types x : Cached T.

Definition getDefaultWireEncoding (x : Cached T) : Cached T :=
  let '(count, object) := getChangeCount (object_ x) in
  if negb (getDefaultWireEncodingChangeCount_ x =? count) then mkCached object None 0 count
  else mkCached object (defaultWireEncoding_ x) (defaultWireEncodingFormat_ x) count.

Definition setDefaultWireEncoding (encoding : option (list Z)) (format : Z) (x : Cached T)
  : Cached T :=
  let '(count, object) := getChangeCount (object_ x) in mkCached object encoding format count.

(** [encode] is the virtual method of the [WireFormat]; [default] is
    [WireFormat::getDefaultWireFormat()]. *)
Definition wireEncode (default : Z) (encode : Z -> T -> list Z) (format : Z) (x : Cached T)
  : list Z * Cached T :=
  let x := getDefaultWireEncoding x in
  match defaultWireEncoding_ x with
  | Some encoding =>
      if defaultWireEncodingFormat_ x =? format then (encoding, x)
      else
        let encoding := encode format (object_ x) in
        (encoding, if format =? default then setDefaultWireEncoding (Some encoding) format x else x)
  | None =>
      let encoding := encode format (object_ x) in
      (encoding, if format =? default then setDefaultWireEncoding (Some encoding) format x else x)
  end.

(** A method of the object. *)
Definition with_object (f : T -> T) (x : Cached T) : Cached T :=
  mkCached (f (object_ x)) (defaultWireEncoding_ x) (defaultWireEncodingFormat_ x)
    (getDefaultWireEncodingChangeCount_ x).

(** [good format value bytes]: the bytes are an encoding of the value. *)
Context (good : Z -> V -> list Z -> Prop).

(** While the count is the one that was stored, the encoding is of the current value. *)
Definition cache_ok (x : Cached T) : Prop :=
  getDefaultWireEncodingChangeCount_ x <= count_of (object_ x) /\
  ((getChangeCount (object_ x)).1 = getDefaultWireEncodingChangeCount_ x ->
   forall encoding, defaultWireEncoding_ x = Some encoding ->
   good (defaultWireEncodingFormat_ x) (value_of (object_ x)) encoding).

Context `{!ChangeCountedLaws T V}.

Lemma with_object_ok f x : cache_ok x -> later (object_ x) (f (object_ x)) -> cache_ok (with_object f x).
Proof using All.
  intros [Hle Hg] [Hc Hl]. split; [cbn; lia |]. cbn. intros He encoding Hs.
  destruct (Hl _ Hle He) as [He' <-]. now apply Hg.
Qed.

(** A change of an object whose count has moved since the encoding was stored. *)
Lemma with_object_moved f x :
  getDefaultWireEncodingChangeCount_ x < count_of (f (object_ x)) -> cache_ok (with_object f x).
Proof using All.
  intros Hlt. split; [cbn; lia |]. cbn. intros He. pose proof (gcc_le (f (object_ x))). lia.
Qed.

Lemma getDefaultWireEncoding_ok x :
  cache_ok x ->
  let x' := getDefaultWireEncoding x in
  cache_ok x' /\ object_ x' = (getChangeCount (object_ x)).2 /\
  (forall encoding, defaultWireEncoding_ x' = Some encoding ->
   good (defaultWireEncodingFormat_ x') (value_of (object_ x)) encoding).
Proof using All.
  intros [Hle Hg]. unfold getDefaultWireEncoding, cache_ok.
  pose proof (gcc_field (object_ x)) as Hf. pose proof (gcc_idem (object_ x)) as Hi.
  pose proof (gcc_value (object_ x)) as Hv.
  destruct (getChangeCount (object_ x)) as [count object]. cbn in Hf, Hi, Hv, Hg.
  destruct (Z.eqb_spec (getDefaultWireEncodingChangeCount_ x) count) as [He | He]; cbn;
    rewrite ?Hi, Hv; repeat split; try (easy || lia); intros; auto.
Qed.

Lemma setDefaultWireEncoding_ok encoding format x :
  (forall bytes, encoding = Some bytes -> good format (value_of (object_ x)) bytes) ->
  cache_ok (setDefaultWireEncoding encoding format x).
Proof using All.
  intros Hg. unfold setDefaultWireEncoding, cache_ok.
  pose proof (gcc_field (object_ x)) as Hf. pose proof (gcc_value (object_ x)) as Hv.
  destruct (getChangeCount (object_ x)) as [count object]. cbn in *. rewrite Hv.
  split; [lia |]. intros _ bytes Hb. now apply Hg.
Qed.

(** What [wireEncode] promises: an encoding of the current value. *)
Lemma wireEncode_ok default encode format x :
  cache_ok x -> (forall object, good format (value_of object) (encode format object)) ->
  let '(bytes, x') := wireEncode default encode format x in
  good format (value_of (object_ x)) bytes /\ cache_ok x' /\
  value_of (object_ x') = value_of (object_ x).
Proof using All.
  intros Hok He. destruct (getDefaultWireEncoding_ok x Hok) as (Hok' & Ho & Hg). cbv zeta in *.
  assert (Hv : value_of (object_ (getDefaultWireEncoding x)) = value_of (object_ x))
    by now rewrite Ho, gcc_value.
  unfold wireEncode. set (x' := getDefaultWireEncoding x) in *.
  assert (Hencode : good format (value_of (object_ x)) (encode format (object_ x')) /\
    cache_ok (if format =? default
              then setDefaultWireEncoding (Some (encode format (object_ x'))) format x' else x') /\
    value_of (object_ (if format =? default
              then setDefaultWireEncoding (Some (encode format (object_ x'))) format x' else x'))
    = value_of (object_ x)).
  { rewrite <- Hv. split; [apply He |]. destruct (format =? default); [| easy].
    split; [apply setDefaultWireEncoding_ok; intros ? [= <-]; apply He |].
    unfold setDefaultWireEncoding. pose proof (gcc_value (object_ x')) as Hgv.
    now destruct (getChangeCount (object_ x')). }
  destruct (defaultWireEncoding_ x') as [encoding |] eqn:E; [| exact Hencode].
  destruct (Z.eqb_spec (defaultWireEncodingFormat_ x') format) as [<- |]; [| exact Hencode].
  split; [now apply Hg | easy].
Qed.
End Cached.

(** The getters and setters of the cache bring the counters of the children up to date. *)
Section Settles.
Context {A C W : Type} `{ChildrenLaws C W}.
Implicit Types x : Cached (Composite A C).

Lemma set_settles encoding format x :
  children_ok (children_ (object_ (setDefaultWireEncoding encoding format x))).
Proof using All.
  unfold setDefaultWireEncoding. pose proof (composite_gcc_ok (object_ x)) as Hc.
  destruct (getChangeCount (object_ x)). exact Hc.
Qed.

Lemma get_settles x : children_ok (children_ (object_ (getDefaultWireEncoding x))).
Proof using All.
  unfold getDefaultWireEncoding. pose proof (composite_gcc_ok (object_ x)) as Hc.
  destruct (getChangeCount (object_ x)) as [c o]. now destruct (negb _).
Qed.

Lemma wireEncode_settles default encode format x :
  children_ok (children_ (object_ (wireEncode default encode format x).2)).
Proof using All.
  unfold wireEncode. destruct (defaultWireEncoding_ (getDefaultWireEncoding x));
    repeat case_match; cbn [snd]; auto using get_settles, set_settles.
Qed.
End Settles.
