(* ===== verification/ValidityPeriod.v ===== *)
(** * Validity periods

    The [ndn_ValidityPeriod] of src/c/security/validity-period.h and the C++ class over it
    (src/security/validity-period.cpp). The times are doubles that hold whole milliseconds since 1970. *)

From stdpp Require Import base list numbers option strings.
From Stdlib Require Import ZArith Lia.
From S2P Require Import Prelude ChangeCounter.
Open Scope Z_scope.

(** The largest finite double. *)
Definition DBL_MAX : Z := (2 ^ 53 - 1) * 2 ^ 971.

(** [notBefore] and [notAfter]. *)
Abbreviation Period := (Z * Z)%type.

Definition no_period : Period := (DBL_MAX, - DBL_MAX).

Definition ValidityPeriod_hasPeriod (self : Period) : bool :=
  negb ((self.1 =? DBL_MAX) && (self.2 =? - DBL_MAX)).

(** The beginning is rounded up to a whole second and the end down. *)
Definition ValidityPeriod_setPeriod (notBefore notAfter : Z) : Period :=
  (- (- notBefore / 1000) * 1000, notAfter / 1000 * 1000).

Definition ValidityPeriod_equals (self other : Period) : bool :=
  (self.1 =? other.1) && (self.2 =? other.2).

Definition ValidityPeriod_isValid (self : Period) (time : Z) : bool :=
  (self.1 <=? time) && (time <=? self.2).

(** [ValidityPeriod::isValid()] at the time [now], which is rounded up to a whole second. *)
Definition ValidityPeriod_isValid_now (self : Period) (now : Z) : bool :=
  ValidityPeriod_isValid self (- (- now / 1000) * 1000).

(** The C++ object with its change count. *)
Abbreviation ValidityPeriod := (Counted Period).

Definition setPeriod (notBefore notAfter : Z) : ValidityPeriod -> ValidityPeriod :=
  increment_with (fun _ => ValidityPeriod_setPeriod notBefore notAfter).
Definition ValidityPeriod_clear : ValidityPeriod -> ValidityPeriod :=
  increment_with (fun _ => no_period).

(** The times for which a signature can be encoded: none, or two times up to about the year 8300. *)
Definition encodable_time (ms : Z) : Prop := 0 <= ms <= 200000000000000 /\ ms mod 1000 = 0.
Definition encodable_period (p : Period) : Prop :=
  p = no_period \/ encodable_time p.1 /\ encodable_time p.2.

Lemma no_period_none : ValidityPeriod_hasPeriod no_period = false.
Proof. vm_compute. reflexivity. Qed.

Lemma encodable_period_has p :
  encodable_time p.1 -> ValidityPeriod_hasPeriod p = true.
Proof.
  unfold encodable_time, ValidityPeriod_hasPeriod. intros [H _].
  replace (p.1 =? DBL_MAX) with false; [easy |]. symmetry. apply Z.eqb_neq.
  assert (200000000000000 < DBL_MAX) by (vm_compute; reflexivity). lia.
Qed.

(** A period with whole seconds is valid at a time of whole seconds exactly when the unrounded one is. *)
Lemma setPeriod_isValid notBefore notAfter time :
  time mod 1000 = 0 ->
  ValidityPeriod_isValid (ValidityPeriod_setPeriod notBefore notAfter) time =
  (notBefore <=? time) && (time <=? notAfter).
Proof.
  intros H. unfold ValidityPeriod_isValid, ValidityPeriod_setPeriod. cbn [fst snd].
  f_equal; apply eq_bool_prop_intro; rewrite !Is_true_true, !Z.leb_le;
    Z.to_euclidean_division_equations; lia.
Qed.
