(* ===== verification/IsoTime.v ===== *)
(** * ISO time strings

    [ndn_toIsoString] without a fraction and [ndn_fromIsoString] of src/c/util/time.c, as the TLV
    encoding of a validity period uses them. [gmtime], [timegm], [sprintf] and [sscanf] of the C
    library are modelled for what the two functions ask of them; times are whole milliseconds. *)

From stdpp Require Import base list numbers option.
From Stdlib Require Import ZArith Lia.
From S2P Require Import Prelude ValidityPeriod.
Open Scope Z_scope.

(** ** The calendar *)

Definition is_leap (y : Z) : bool :=
  ((y mod 4 =? 0) && negb (y mod 100 =? 0)) || (y mod 400 =? 0).

Definition days_in_year (y : Z) : Z := if is_leap y then 366 else 365.

Definition month_lengths (y : Z) : list Z :=
  [31; if is_leap y then 29 else 28; 31; 30; 31; 30; 31; 31; 30; 31; 30; 31].

(** [struct tm] in UTC; the month and the year are those of the calendar. *)
Record tm := mkTm {
  tm_year : Z;
  tm_mon : Z;
  tm_mday : Z;
  tm_hour : Z;
  tm_min : Z;
  tm_sec : Z
}.

(** The year and the day in it, for a count of days since the beginning of the year [y]. *)
Fixpoint find_year (fuel : nat) (y days : Z) : Z * Z :=
  match fuel with
  | O => (y, days)
  | S fuel => if days <? days_in_year y then (y, days) else find_year fuel (y + 1) (days - days_in_year y)
  end.

(** The month, from [m], and the day in it. *)
Fixpoint find_month (lengths : list Z) (m days : Z) : Z * Z :=
  match lengths with
  | len :: lengths => if days <? len then (m, days) else find_month lengths (m + 1) (days - len)
  | [] => (m, days)
  end.

(** [gmtime]. A year has at least 365 days. *)
Definition gmtime (seconds : Z) : tm :=
  let days := seconds / 86400 in
  let s := seconds mod 86400 in
  let '(y, yday) := find_year (S (Z.to_nat (days / 365))) 1970 days in
  let '(m, mday) := find_month (month_lengths y) 1 yday in
  mkTm y m (mday + 1) (s / 3600) (s / 60 mod 60) (s mod 60).

(** The leap years before the year [y], and the days from 1970 to it. *)
Definition leaps_before (y : Z) : Z := (y - 1) / 4 - (y - 1) / 100 + (y - 1) / 400.
Definition days_to_year (y : Z) : Z := 365 * (y - 1970) + (leaps_before y - leaps_before 1970).

(** [timegm], which also takes a month outside 1 to 12 into account. *)
Definition timegm (t : tm) : Z :=
  let y := tm_year t + (tm_mon t - 1) / 12 in
  let m := (tm_mon t - 1) mod 12 in
  let days := days_to_year y + foldr Z.add 0 (take (Z.to_nat m) (month_lengths y)) + (tm_mday t - 1) in
  days * 86400 + tm_hour t * 3600 + tm_min t * 60 + tm_sec t.

(** ** Printing and scanning *)

(** [%0wd] for a number of at most [w] digits. *)
Fixpoint print_d (w : nat) (n : Z) : list Z :=
  match w with O => [] | S w => print_d w (n / 10) ++ [48 + n mod 10] end.

Definition is_digit_char (c : Z) : bool := (48 <=? c) && (c <=? 57).

(** At most [w] digits, onto the number [acc]. *)
Fixpoint scan_digits (w : nat) (acc : Z) (s : list Z) : Z * list Z :=
  match w, s with
  | S w, c :: s' => if is_digit_char c then scan_digits w (acc * 10 + (c - 48)) s' else (acc, s)
  | _, _ => (acc, s)
  end.

Fixpoint scan_space (s : list Z) : list Z :=
  match s with
  | c :: t => if (c =? 32) || ((9 <=? c) && (c <=? 13)) then scan_space t else s
  | [] => []
  end.

(** [%wd]: white space, a sign, digits; [None] when nothing matches. *)
Definition scan_d (w : nat) (s : list Z) : option (Z * list Z) :=
  let number neg w s :=
    match s with
    | c :: _ => if is_digit_char c then
                  let '(n, rest) := scan_digits w 0 s in Some (if neg : bool then - n else n, rest)
                else None
    | [] => None
    end in
  match scan_space s with
  | c :: s' => if c =? 45 then number true (pred w) s'
               else if c =? 43 then number false (pred w) s' else number false w (c :: s')
  | [] => None
  end.

(** [%lf] on the at most two characters of the seconds, as milliseconds; [None] when nothing is
    converted. The item is the longest prefix of a number, and an exponent or a hexadecimal number that is
    cut off is not a number. *)
Definition scan_seconds (s : list Z) : option Z :=
  let number (neg : bool) s :=
    let signed n := if neg then - n else n in
    match s with
    | [] => None
    | [c] => if is_digit_char c then Some (signed ((c - 48) * 1000)) else None
    | c :: d :: _ =>
        if c =? 46 then if is_digit_char d then Some (signed ((d - 48) * 100)) else None
        else if negb (is_digit_char c) then None
        else if is_digit_char d then Some (signed (((c - 48) * 10 + (d - 48)) * 1000))
        else if (d =? 101) || (d =? 69) then None
        else if (c =? 48) && ((d =? 120) || (d =? 88)) then None
        else Some (signed ((c - 48) * 1000))
    end in
  match scan_space s with
  | c :: s' => if c =? 45 then number true s'
               else if c =? 43 then number false s' else number false (c :: s')
  | [] => None
  end.

(** ** The two functions *)

Definition ndn_toIsoString (milliseconds : Z) : result ndn_Error (list Z) :=
  if milliseconds <? 0 then Err NDN_ERROR_Calendar_time_value_out_of_range
  else if milliseconds >? 200000000000000 then Err NDN_ERROR_Calendar_time_value_out_of_range
  else
    let seconds := (milliseconds + 500) / 1000 in
    let gmt := gmtime seconds in
    Ok (print_d 4 (tm_year gmt) ++ print_d 2 (tm_mon gmt) ++ print_d 2 (tm_mday gmt) ++ [84] ++
        print_d 2 (tm_hour gmt) ++ print_d 2 (tm_min gmt) ++ print_d 2 (tm_sec gmt)).

(** [sscanf "%4d%2d%2dT%2d%2d"]: a field that is not reached keeps its value. *)
Definition scan_date (s : list Z) (t : tm) : tm :=
  match scan_d 4 s with
  | None => t
  | Some (y, s) =>
      let t := mkTm y (tm_mon t) (tm_mday t) (tm_hour t) (tm_min t) (tm_sec t) in
      match scan_d 2 s with
      | None => t
      | Some (m, s) =>
          let t := mkTm y m (tm_mday t) (tm_hour t) (tm_min t) (tm_sec t) in
          match scan_d 2 s with
          | None => t
          | Some (d, s) =>
              let t := mkTm y m d (tm_hour t) (tm_min t) (tm_sec t) in
              match s with
              | c :: s =>
                  if c =? 84 then
                    match scan_d 2 s with
                    | None => t
                    | Some (h, s) =>
                        match scan_d 2 s with
                        | None => mkTm y m d h (tm_min t) (tm_sec t)
                        | Some (mi, s) => mkTm y m d h mi (tm_sec t)
                        end
                    end
                  else t
              | [] => t
              end
          end
      end
  end.

(** The fields start as those of [gmtime(0)], where C has 70 for the year and 0 for the month.
    The results of the scans are not checked: the seconds of a string that is too short are read
    past its end, and seconds that are not a number are not initialized. *)
Definition ndn_fromIsoString (isoString : list Z) : result failure Z :=
  let tm1 := scan_date isoString (mkTm 70 0 1 0 0 0) in
  if zlen isoString <? 13 then Err UndefinedBehaviour
  else
    match scan_seconds (drop 13 isoString) with
    | None => Err UndefinedBehaviour
    | Some ms =>
        let tm1 := mkTm (tm_year tm1) (tm_mon tm1) (tm_mday tm1) (tm_hour tm1) (tm_min tm1) 0 in
        Ok (timegm tm1 * 1000 + ms)
    end.

(** ** The calendar is exact *)

Lemma days_in_year_pos y : 365 <= days_in_year y <= 366.
Proof. unfold days_in_year. destruct (is_leap y); lia. Qed.

Lemma div_next k y : 0 < k -> y / k = (y - 1) / k + (if y mod k =? 0 then 1 else 0).
Proof.
  intros Hk. pose proof (Z.div_mod y k ltac:(lia)). pose proof (Z.mod_pos_bound y k Hk).
  destruct (Z.eqb_spec (y mod k) 0) as [E | E].
  - rewrite <- (Z.div_unique (y - 1) k (y / k - 1) (k - 1)); lia.
  - rewrite <- (Z.div_unique (y - 1) k (y / k) (y mod k - 1)); lia.
Qed.

Lemma leaps_before_next y : leaps_before (y + 1) = leaps_before y + (if is_leap y then 1 else 0).
Proof.
  unfold leaps_before, is_leap. replace (y + 1 - 1) with y by lia.
  rewrite (div_next 4 y), (div_next 100 y), (div_next 400 y) by lia.
  assert (H1 : y mod 400 = 0 -> y mod 100 = 0) by (Z.to_euclidean_division_equations; lia).
  assert (H2 : y mod 100 = 0 -> y mod 4 = 0) by (Z.to_euclidean_division_equations; lia).
  destruct (Z.eqb_spec (y mod 4) 0), (Z.eqb_spec (y mod 100) 0), (Z.eqb_spec (y mod 400) 0);
    cbn [andb orb negb]; tauto || lia.
Qed.

Lemma days_to_year_next y : days_to_year (y + 1) = days_to_year y + days_in_year y.
Proof.
  unfold days_to_year, days_in_year. rewrite leaps_before_next. destruct (is_leap y); lia.
Qed.

Lemma find_year_spec fuel y days :
  0 <= days < Z.of_nat fuel * 365 ->
  let '(y', d') := find_year fuel y days in
  y <= y' /\ 0 <= d' < days_in_year y' /\ days_to_year y' + d' = days_to_year y + days.
Proof.
  revert y days. induction fuel as [| fuel IH]; intros y days H; [lia |]. cbn [find_year].
  pose proof (days_in_year_pos y).
  destruct (Z.ltb_spec days (days_in_year y)); [lia |].
  specialize (IH (y + 1) (days - days_in_year y) ltac:(lia)).
  destruct (find_year fuel (y + 1) (days - days_in_year y)) as [y' d'].
  rewrite days_to_year_next in IH. lia.
Qed.

Lemma find_month_spec lengths m days :
  0 <= days < foldr Z.add 0 lengths ->
  let '(m', d') := find_month lengths m days in
  m <= m' < m + zlen lengths /\ 0 <= d' /\
  foldr Z.add 0 (take (Z.to_nat (m' - m)) lengths) + d' = days /\
  Exists (fun len => d' < len) lengths.
Proof.
  revert m days.
  induction lengths as [| len lengths IH]; intros m days H;
    cbn [foldr] in H; [lia |].
  cbn [find_month length]. rewrite Nat2Z.inj_succ. destruct (Z.ltb_spec days len).
  - rewrite Z.sub_diag. change (Z.to_nat 0) with 0%nat. cbn [take foldr].
    repeat (split; [lia |]). now left.
  - specialize (IH (m + 1) (days - len) ltac:(lia)).
    destruct (find_month lengths (m + 1) (days - len)) as [m' d'].
    destruct IH as (Hm & Hd & Hs & He). split; [lia |]. split; [easy |].
    split; [| now right]. replace (Z.to_nat (m' - m)) with (S (Z.to_nat (m' - (m + 1)))) by lia.
    cbn [take foldr]. lia.
Qed.

Lemma month_lengths_sum y : foldr Z.add 0 (month_lengths y) = days_in_year y.
Proof. unfold month_lengths, days_in_year. now destruct (is_leap y). Qed.

(** [timegm] inverts [gmtime], whose fields are in their ranges. *)
Lemma gmtime_spec seconds :
  0 <= seconds ->
  let t := gmtime seconds in
  timegm t = seconds /\ 1970 <= tm_year t /\ 1 <= tm_mon t <= 12 /\ 1 <= tm_mday t <= 31 /\
  0 <= tm_hour t < 24 /\ 0 <= tm_min t < 60 /\ 0 <= tm_sec t < 60 /\
  days_to_year (tm_year t) <= seconds / 86400.
Proof.
  intros H. unfold gmtime. set (days := seconds / 86400).
  assert (Hdays : 0 <= days) by (apply Z.div_pos; lia).
  pose proof (find_year_spec (S (Z.to_nat (days / 365))) 1970 days) as Hy.
  destruct (find_year _ _ _) as [y yday]. destruct Hy as (Hy & Hyd & Hsum).
  { pose proof (Z.div_mod days 365). pose proof (Z.mod_pos_bound days 365). lia. }
  pose proof (find_month_spec (month_lengths y) 1 yday) as Hm.
  destruct (find_month _ _ _) as [m mday]. destruct Hm as (Hm & Hd & Hs & He).
  { now rewrite month_lengths_sum. }
  change (zlen (month_lengths y)) with 12 in Hm.
  assert (Hmd : mday < 31).
  { unfold month_lengths in He. repeat (apply Exists_cons in He as [He | He]; [destruct (is_leap y); lia |]).
    inversion He. }
  assert (H70 : days_to_year 1970 = 0) by reflexivity.
  cbn [tm_year tm_mon tm_mday tm_hour tm_min tm_sec timegm].
  pose proof (Z.div_mod seconds 86400). pose proof (Z.mod_pos_bound seconds 86400).
  set (s := seconds mod 86400) in *. fold days in H0 |- *. repeat split; try lia.
  - unfold timegm. cbn [tm_year tm_mon tm_mday tm_hour tm_min tm_sec].
    rewrite (Z.div_small (m - 1) 12), (Z.mod_small (m - 1) 12), Z.add_0_r by lia.
    replace (days_to_year y + foldr Z.add 0 (take (Z.to_nat (m - 1)) (month_lengths y)) + (mday + 1 - 1))
      with days by lia.
    subst s. clear -H0. Z.to_euclidean_division_equations; lia.
  - Z.to_euclidean_division_equations; lia.
  - Z.to_euclidean_division_equations; lia.
  - Z.to_euclidean_division_equations; lia.
  - Z.to_euclidean_division_equations; lia.
  - Z.to_euclidean_division_equations; lia.
  - Z.to_euclidean_division_equations; lia.
Qed.

(** ** Scanning what was printed *)

Lemma div_10_bound n w : 0 <= n < 10 ^ Z.of_nat (S w) -> 0 <= n / 10 < 10 ^ Z.of_nat w.
Proof.
  intros [H1 H2]. rewrite Nat2Z.inj_succ, Z.pow_succ_r in H2 by lia.
  split; [apply Z.div_pos; lia | apply Z.div_lt_upper_bound; lia].
Qed.

Lemma is_digit_char_mod n : is_digit_char (48 + n mod 10) = true.
Proof. pose proof (Z.mod_pos_bound n 10). unfold is_digit_char. lia. Qed.

Lemma print_d_length w n : length (print_d w n) = w.
Proof.
  revert n. induction w as [| w IH]; intros n; [easy |]. cbn [print_d].
  rewrite length_app, IH. cbn. lia.
Qed.

Lemma print_d_head w n : exists d s, print_d (S w) n = d :: s /\ is_digit_char d = true.
Proof.
  revert n. induction w as [| w IH]; intros n.
  - cbn. exists (48 + n mod 10), []. split; [easy | apply is_digit_char_mod].
  - destruct (IH (n / 10)) as (d & s & E & H). cbn [print_d] in *. rewrite E.
    cbn. now exists d, (s ++ [48 + n mod 10]).
Qed.

Lemma scan_digits_print w : forall k acc n rest,
  0 <= n < 10 ^ Z.of_nat w ->
  scan_digits (w + k) acc (print_d w n ++ rest) = scan_digits k (acc * 10 ^ Z.of_nat w + n) rest.
Proof.
  induction w as [| w IH]; intros k acc n rest H.
  - cbn in *. f_equal. lia.
  - cbn [print_d]. rewrite <- app_assoc, Nat.add_succ_comm, IH by now apply div_10_bound.
    cbn [app scan_digits]. rewrite is_digit_char_mod. f_equal.
    rewrite Nat2Z.inj_succ, Z.pow_succ_r by lia. pose proof (Z.div_mod n 10). lia.
Qed.

Lemma digit_not_space d s : is_digit_char d = true -> scan_space (d :: s) = d :: s.
Proof. unfold is_digit_char. cbn. intros H. destruct (d =? 32) eqn:?, (9 <=? d) eqn:?, (d <=? 13) eqn:?; cbn; lia || easy. Qed.

Lemma scan_d_print w n rest :
  0 <= n < 10 ^ Z.of_nat (S w) -> scan_d (S w) (print_d (S w) n ++ rest) = Some (n, rest).
Proof.
  intros H. pose proof (scan_digits_print (S w) 0 0 n rest H) as E. rewrite Nat.add_0_r in E.
  destruct (print_d_head w n) as (d & s & Ed & Hd). rewrite Ed in *. cbn [app] in *.
  unfold scan_d. rewrite digit_not_space by easy. rewrite Hd, E.
  replace (d =? 45) with false by (unfold is_digit_char in Hd; lia).
  replace (d =? 43) with false by (unfold is_digit_char in Hd; lia).
  cbn [scan_digits]. now destruct rest.
Qed.

Lemma scan_seconds_print n : 0 <= n < 100 -> scan_seconds (print_d 2 n) = Some (n * 1000).
Proof.
  intros H. cbn [print_d app]. set (c := 48 + n / 10 mod 10). set (d := 48 + n mod 10).
  assert (Hc : is_digit_char c = true) by apply is_digit_char_mod.
  assert (Hd : is_digit_char d = true) by apply is_digit_char_mod.
  unfold scan_seconds. rewrite digit_not_space by easy. rewrite Hc, Hd. cbn [negb].
  unfold is_digit_char in Hc.
  replace (c =? 45) with false by lia. replace (c =? 43) with false by lia.
  replace (c =? 46) with false by lia. f_equal. subst c d.
  rewrite (Z.mod_small (n / 10)) by (Z.to_euclidean_division_equations; lia).
  pose proof (Z.div_mod n 10). lia.
Qed.

Lemma scan_date_print y m d h mi rest t :
  0 <= y < 10000 -> 0 <= m < 100 -> 0 <= d < 100 -> 0 <= h < 100 -> 0 <= mi < 100 ->
  scan_date (print_d 4 y ++ print_d 2 m ++ print_d 2 d ++ [84] ++ print_d 2 h ++ print_d 2 mi ++ rest) t =
  mkTm y m d h mi (tm_sec t).
Proof.
  intros. unfold scan_date. rewrite !scan_d_print by easy. cbn [app]. rewrite Z.eqb_refl.
  now rewrite !scan_d_print by easy.
Qed.

Lemma days_to_year_lower y : 1970 <= y -> 365 * (y - 1970) - 477 <= days_to_year y.
Proof.
  intros H. unfold days_to_year. change (leaps_before 1970) with 477. unfold leaps_before.
  Z.to_euclidean_division_equations; lia.
Qed.

(** Printing a time to the second and reading it back gives the time, rounded to the second; the
    times that are refused are those before 1970 and after about the year 8300. *)
Lemma iso_time_roundtrip ms :
  match ndn_toIsoString ms with
  | Ok s => 0 <= ms <= 200000000000000 /\ length s = 15%nat /\
            ndn_fromIsoString s = Ok ((ms + 500) / 1000 * 1000)
  | Err e => e = NDN_ERROR_Calendar_time_value_out_of_range /\ (ms < 0 \/ 200000000000000 < ms)
  end.
Proof.
  unfold ndn_toIsoString. destruct (Z.ltb_spec ms 0). { split; [easy | lia]. }
  destruct (Z.gtb_spec ms 200000000000000). { split; [easy | lia]. }
  set (seconds := (ms + 500) / 1000).
  assert (Hs : 0 <= seconds <= 200000000000) by (subst seconds; Z.to_euclidean_division_equations; lia).
  pose proof (gmtime_spec seconds (proj1 Hs)) as G. set (t := gmtime seconds) in *.
  destruct G as (Ht & Hy & Hm & Hd & Hh & Hmi & Hse & Hdays).
  pose proof (days_to_year_lower _ Hy).
  assert (Hy4 : 0 <= tm_year t < 10000) by (Z.to_euclidean_division_equations; lia).
  split; [lia |]. split. { rewrite !length_app, !print_d_length. easy. }
  unfold ndn_fromIsoString. rewrite scan_date_print by lia. rewrite !length_app, !print_d_length.
  cbn [Z.ltb]. cbn [plus length]. change (Z.of_nat 15 <? 13) with false. cbn iota.
  replace (drop 13 _) with (print_d 2 (tm_sec t)).
  2: { rewrite !app_assoc, drop_app_length'; [easy |]. rewrite !length_app, !print_d_length. easy. }
  rewrite scan_seconds_print by lia. cbn [tm_year tm_mon tm_mday tm_hour tm_min].
  f_equal. rewrite <- Ht. unfold timegm. cbn [tm_year tm_mon tm_mday tm_hour tm_min tm_sec]. lia.
Qed.

(** The string of a time of whole seconds. *)
Definition iso_string (ms : Z) : list Z := match ndn_toIsoString ms with Ok s => s | Err _ => [] end.

Lemma iso_string_ok ms :
  encodable_time ms ->
  ndn_toIsoString ms = Ok (iso_string ms) /\ zlen (iso_string ms) = 15 /\
  ndn_fromIsoString (iso_string ms) = Ok ms.
Proof.
  intros [Hr Hm]. pose proof (iso_time_roundtrip ms) as H. unfold iso_string.
  destruct (ndn_toIsoString ms) as [s | e]; [| lia]. destruct H as (_ & Hl & ->).
  split; [easy |]. split; [lia |]. f_equal. Z.to_euclidean_division_equations; lia.
Qed.
