(* ===== verification/Exclude.v ===== *)
(** * Exclude

    The selector [Exclude] of src/exclude.cpp: a list of components and of [ANY] entries, and the
    components that it excludes. *)

From stdpp Require Import base list numbers option strings.
From Stdlib Require Import ZArith Lia.
From S2P Require Import Prelude Order Name NameUri ChangeCounter.
Open Scope Z_scope.

(** ** The entries *)

Inductive ExcludeType := EXCLUDE_COMPONENT | EXCLUDE_ANY.

(** An entry of type [ANY] has the component of the default constructor. *)
Record Entry := mkEntry {
  entry_type : ExcludeType;
  entry_component : Component
}.

Definition any_entry : Entry := mkEntry EXCLUDE_ANY (generic []).
Definition component_entry (c : Component) : Entry := mkEntry EXCLUDE_COMPONENT c.

Abbreviation Exclude := (list Entry).

(** The object, with its change count. *)
Definition ExcludeObject : Type := Counted Exclude.

Definition appendAny : ExcludeObject -> ExcludeObject :=
  increment_with (fun entries => entries ++ [any_entry]).
Definition appendComponent (c : Component) : ExcludeObject -> ExcludeObject :=
  increment_with (fun entries => entries ++ [component_entry c]).
Definition exclude_clear : ExcludeObject -> ExcludeObject := increment_with (fun _ => []).

(** ** Matching *)

Definition component_gt (a b : Component) : bool := component_compare a b >? 0.
Definition component_lt (a b : Component) : bool := component_compare a b <? 0.

(** The loop that looks for the upper bound, "possibly skipping over multiple ANY in a row". *)
Fixpoint find_upperBound (entries : Exclude) : option Entry :=
  match entries with
  | [] => None
  | e :: entries =>
      match entry_type e with
      | EXCLUDE_COMPONENT => Some e
      | EXCLUDE_ANY => find_upperBound entries
      end
  end.

(** The loop over the entries. [previous] is [&entries_[i - 1]], null at the first entry;
    [skip] says that [i] was set to the upper bound, so the entries up to it are passed over. *)
Fixpoint matches_from (skip : bool) (previous : option Entry) (entries : Exclude)
    (component : Component) : bool :=
  match entries with
  | [] => false
  | e :: entries =>
      match entry_type e with
      | EXCLUDE_ANY =>
          if skip then matches_from true (Some e) entries component
          else
            match find_upperBound entries with
            | Some upperBound =>
                match previous with
                | Some lowerBound =>
                    if component_gt component (entry_component lowerBound) &&
                       component_lt component (entry_component upperBound)
                    then true
                    else matches_from true (Some e) entries component
                | None =>
                    if component_lt component (entry_component upperBound) then true
                    else matches_from true (Some e) entries component
                end
            | None =>
                match previous with
                | Some lowerBound =>
                    if component_gt component (entry_component lowerBound) then true
                    else matches_from false (Some e) entries component
                | None => true
                end
            end
      | EXCLUDE_COMPONENT =>
          if component_equals component (entry_component e) then true
          else matches_from false (Some e) entries component
      end
  end.

Definition exclude_matches (entries_ : Exclude) (component : Component) : bool :=
  matches_from false None entries_ component.

(** [Exclude::toUri]. *)
Fixpoint exclude_put (first : bool) (entries : Exclude) (result : ostringstream) : ostringstream :=
  match entries with
  | [] => result
  | e :: entries =>
      let result := if first then result else put (chars ",") result in
      exclude_put false entries
        (match entry_type e with
         | EXCLUDE_ANY => put (chars "*") result
         | EXCLUDE_COMPONENT => component_toEscapedString (entry_component e) result
         end)
  end.

Definition exclude_toUri (entries_ : Exclude) : list Z :=
  str (exclude_put true entries_ empty_stream).

(** ** What an exclude stands for *)

(** An [ANY] stands for the open interval between the component before it and the one after
    it, unbounded where there is none; a component stands for itself. *)
Definition above (lower : option Component) (c : Component) : Prop :=
  match lower with Some l => component_compare l c < 0 | None => True end.

Definition below (upper : option Component) (c : Component) : Prop :=
  match upper with Some u => component_compare c u < 0 | None => True end.

Definition next_component (entries : Exclude) : option Component :=
  option_map entry_component (find_upperBound entries).

Inductive excluded : option Component -> Exclude -> Component -> Prop :=
| excluded_here lower c entries :
    excluded lower (component_entry c :: entries) c
| excluded_after lower c x entries :
    excluded (Some x) entries c -> excluded lower (component_entry x :: entries) c
| excluded_between lower c entries :
    above lower c -> below (next_component entries) c -> excluded lower (any_entry :: entries) c
| excluded_any lower c entries :
    excluded lower entries c -> excluded lower (any_entry :: entries) c.

(** The entries that the constructors give, on well-formed components. *)
Definition entry_ok (e : Entry) : Prop :=
  match entry_type e with
  | EXCLUDE_ANY => e = any_entry
  | EXCLUDE_COMPONENT => component_ok (entry_component e)
  end.

(** No two [ANY] at the end. *)
Fixpoint single_tail (entries : Exclude) : Prop :=
  match entries with
  | [] => True
  | e :: entries =>
      (entry_type e = EXCLUDE_ANY -> find_upperBound entries = None -> entries = []) /\
      single_tail entries
  end.

Lemma component_gt_above l c : component_gt c l = true <-> component_compare l c < 0.
Proof. unfold component_gt. rewrite Z.gtb_lt, (tc_antisym (cmp := component_compare) c l). lia. Qed.

Lemma component_lt_below c u : component_lt c u = true <-> component_compare c u < 0.
Proof. unfold component_lt. now rewrite Z.ltb_lt. Qed.

Lemma entry_cases e : entry_ok e ->
  e = any_entry \/ exists x, e = component_entry x /\ component_ok x.
Proof. destruct e as [[] x]; unfold entry_ok; cbn; [right; now exists x | now left]. Qed.

Lemma split_upperBound entries e :
  Forall entry_ok entries -> find_upperBound entries = Some e ->
  exists l k x, entries = l ++ component_entry x :: k /\ Forall (eq any_entry) l /\
    e = component_entry x /\ component_ok x /\ Forall entry_ok k.
Proof.
  induction 1 as [| d entries Hd Hok IH]; cbn; intros He; [easy |].
  destruct (entry_cases d Hd) as [-> | (x & -> & Hx)]; cbn in He.
  - destruct (IH He) as (l & k & x & -> & Hl & Hr). exists (any_entry :: l), k, x. auto.
  - injection He as <-. exists [], entries, x. auto.
Qed.

Lemma matches_skip l x k previous c :
  Forall (eq any_entry) l ->
  matches_from true previous (l ++ component_entry x :: k) c
  = component_equals c x || matches_from false (Some (component_entry x)) k c.
Proof.
  intros Hl. revert previous. induction Hl as [| e l He Hl IH]; intros previous; cbn.
  - now destruct (component_equals c x).
  - rewrite <- He. apply IH.
Qed.

Lemma excluded_skipped lower l x k c :
  Forall (eq any_entry) l -> c = x \/ excluded (Some x) k c ->
  excluded lower (l ++ component_entry x :: k) c.
Proof.
  intros Hl Hc. induction Hl as [| e l He Hl IH]; cbn.
  - destruct Hc as [-> | Hc]; [apply excluded_here | now apply excluded_after].
  - rewrite <- He. now apply excluded_any.
Qed.

Lemma next_component_anys l x k :
  Forall (eq any_entry) l -> next_component (l ++ component_entry x :: k) = Some x.
Proof. induction 1 as [| e l <- Hl IH]; [easy | exact IH]. Qed.

(** After the test of the interval, the entries up to the upper bound add nothing. *)
Lemma excluded_skip lower l x k c :
  Forall (eq any_entry) l -> ~ (above lower c /\ below (Some x) c) ->
  excluded lower (l ++ component_entry x :: k) c -> c = x \/ excluded (Some x) k c.
Proof.
  intros Hl Hn. induction Hl as [| e l <- Hl IH]; cbn; intros Hex.
  - inversion Hex; subst; auto.
  - inversion Hex as [| | ? ? ? Ha Hb |]; subst; [| auto].
    rewrite next_component_anys in Hb by easy. now contradict Hn.
Qed.

(** The bound that [previous] gives to an [ANY] at the head of [entries]. *)
Definition lower_bound (previous : option Entry) : option Component :=
  option_map entry_component previous.

Definition lower_test (previous : option Entry) (c : Component) : bool :=
  match previous with Some e => component_gt c (entry_component e) | None => true end.

Lemma lower_test_above previous c : lower_test previous c = true <-> above (lower_bound previous) c.
Proof. destruct previous; cbn; [apply component_gt_above | easy]. Qed.

Lemma matches_any previous entries c :
  matches_from false previous (any_entry :: entries) c =
  match find_upperBound entries with
  | Some u => (lower_test previous c && component_lt c (entry_component u)) ||
              matches_from true (Some any_entry) entries c
  | None => lower_test previous c ||
            match previous with
            | Some _ => matches_from false (Some any_entry) entries c
            | None => false
            end
  end.
Proof.
  cbn. destruct (find_upperBound entries), previous; cbn;
    repeat case_match; rewrite ?andb_true_r, ?orb_false_r in *; cbn; congruence.
Qed.

Lemma excluded_unbounded lower entries c :
  find_upperBound entries = None -> Forall entry_ok entries -> excluded lower entries c ->
  above lower c.
Proof.
  intros Hn Hok Hex. induction Hex as [lower c entries | lower c x entries Hex _
    | lower c entries Ha Hb | lower c entries Hex IH]; cbn in Hn; try discriminate.
  - exact Ha.
  - apply IH; [easy | exact (List.Forall_inv_tail Hok)].
Qed.

Lemma matches_from_excluded n entries previous c :
  (length entries <= n)%nat -> component_ok c -> Forall entry_ok entries -> single_tail entries ->
  (match previous with Some p => entry_type p = EXCLUDE_COMPONENT | None => True end) ->
  matches_from false previous entries c = true <-> excluded (lower_bound previous) entries c.
Proof.
  revert entries previous. induction n as [| n IH]; intros entries previous Hn Hc Hok Hs Hp.
  { destruct entries; [| cbn in Hn; lia]. split; [easy |]. inversion 1. }
  destruct entries as [| e entries]; [split; [easy | inversion 1] |].
  pose proof (List.Forall_inv_tail Hok) as Hok'. destruct Hs as [Hs1 Hs2]. cbn in Hn.
  destruct (entry_cases e (List.Forall_inv Hok)) as [-> | (x & -> & Hx)].
  - rewrite matches_any. destruct (find_upperBound entries) as [u |] eqn:Hu.
    + destruct (split_upperBound _ _ Hok' Hu) as (l & k & x & -> & Hl & -> & Hx & Hk).
      rewrite matches_skip, !orb_true_iff, andb_true_iff, lower_test_above, component_lt_below by easy.
      rewrite component_equals_eq by easy.
      rewrite (IH k (Some (component_entry x))) by
        (easy || (rewrite length_app in Hn; cbn in Hn; lia) ||
         (clear - Hs2; induction l; cbn in Hs2; tauto)).
      split.
      * intros [[Ha Hb] | Hr]; [apply excluded_between; [easy | now rewrite next_component_anys] |].
        now apply excluded_any, excluded_skipped.
      * intros Hex. inversion Hex as [| | ? ? ? Ha Hb | ? ? ? Hex']; subst.
        { rewrite next_component_anys in Hb by easy. now left. }
        destruct (lower_test previous c && component_lt c x) eqn:E.
        { apply andb_true_iff in E as [E1%lower_test_above E2%component_lt_below]. now left. }
        right. apply (excluded_skip _ _ _ _ _ Hl) in Hex'; [easy |].
        rewrite <- lower_test_above. cbn [below]. rewrite <- component_lt_below.
        rewrite <- andb_true_iff. congruence.
    + rewrite (Hs1 eq_refl eq_refl) in *. cbn [matches_from].
      replace (match previous with Some _ => false | None => false end) with false
        by now destruct previous.
      rewrite orb_false_r, lower_test_above. split.
      * intros Ha. now apply excluded_between.
      * intros Hex. inversion Hex as [| | | ? ? ? Hex']; subst; [easy |]. inversion Hex'.
  - cbn. fold (orb (component_equals c x) (matches_from false (Some (component_entry x)) entries c)).
    rewrite orb_true_iff, component_equals_eq by easy.
    rewrite (IH entries (Some (component_entry x))) by (easy || lia). split.
    + intros [-> | Hr]; [apply excluded_here | now apply excluded_after].
    + inversion 1; subst; auto.
Qed.

(** ** Properties *)

(** Excluded components. [matches] accepts exactly the listed components and those in an open interval
    that an [ANY] stands for, between the components around it, in the canonical order. The list
    need not be sorted, but it must not end in two [ANY]. *)
Theorem exclude_matches_excluded (entries : Exclude) (c : Component) :
  component_ok c -> Forall entry_ok entries -> single_tail entries ->
  exclude_matches entries c = true <-> excluded None entries c.
Proof.
  intros Hc Hok Hs. exact (matches_from_excluded (length entries) entries None c (le_n _) Hc Hok Hs I).
Qed.

(** Two [ANY] at the end. The second takes its lower bound from the first, which has the empty
    component, so every component that is not empty is excluded. *)
Theorem exclude_double_any :
  let a := generic [97] in
  let entries := counted_value (appendAny (appendAny (appendComponent (generic [98]) (mkCounted [] 0)))) in
  exclude_matches entries a = true /\ ~ excluded None entries a.
Proof.
  split; [reflexivity |]. cbn. intros H.
  repeat match goal with
  | H : excluded _ _ _ |- _ => inversion H; subst; clear H
  | H : above _ _ |- _ => revert H; vm_compute; discriminate
  end.
Qed.

(** ** Witnesses *)

Lemma exclude_matches_excluded_witness :
  exclude_matches [component_entry (generic [97]); any_entry; component_entry (generic [100])]
    (generic [98]) = true /\
  excluded None [component_entry (generic [97]); any_entry; component_entry (generic [100])]
    (generic [98]).
Proof.
  split; [reflexivity |]. apply exclude_matches_excluded; [| | | reflexivity].
  - repeat constructor; cbn; lia.
  - repeat constructor; cbn; lia.
  - repeat split; easy.
Defined.
