(* ===== verification/DelegationSet.v ===== *)
(** * DelegationSet

    The sorted list of preferences and names of src/delegation-set.cpp. *)

From stdpp Require Import base list numbers option strings sorting.
From Stdlib Require Import ZArith Lia.
From S2P Require Import Prelude Order Name ChangeCounter.
Open Scope Z_scope.

Record Delegation := mkDelegation {
  preference_ : Z;
  delegation_name_ : Name
}.

(** [Delegation::compare]. *)
Definition delegation_compare (self other : Delegation) : result exn Z :=
  if preference_ self <? preference_ other then Ok (-1)
  else if preference_ self >? preference_ other then Ok 1
  else name_compare (delegation_name_ self) (delegation_name_ other).

Definition same_name (name : Name) (d : Delegation) : bool :=
  name_equals (delegation_name_ d) name.

(** [remove]: the list without the entries with the name, and whether there was one. The loop
    goes backwards and erases in place; each entry is kept or erased on its own. *)
Fixpoint delegations_remove (name : Name) (delegations_ : list Delegation)
  : list Delegation * bool :=
  match delegations_ with
  | [] => ([], false)
  | d :: delegations =>
      let '(kept, wasRemoved) := delegations_remove name delegations in
      if same_name name d then (kept, true) else (d :: kept, wasRemoved)
  end.

(** Insert before the first entry that is not less. *)
Fixpoint delegations_insert (newDelegation : Delegation) (delegations_ : list Delegation)
  : result exn (list Delegation) :=
  match delegations_ with
  | [] => Ok [newDelegation]
  | d :: delegations =>
      c ← delegation_compare d newDelegation;
      if c >=? 0 then Ok (newDelegation :: d :: delegations)
      else
        delegations ← delegations_insert newDelegation delegations;
        mret (d :: delegations)
  end.

Definition DelegationSet : Type := Counted (list Delegation).

Definition delegationSet_remove (name : Name) (self : DelegationSet) : bool * DelegationSet :=
  let '(kept, wasRemoved) := delegations_remove name (counted_value self) in
  (wasRemoved, mkCounted kept (if wasRemoved then changeCount_ self + 1 else changeCount_ self)).

Definition delegationSet_add (preference : Z) (name : Name) (self : DelegationSet)
  : result exn DelegationSet :=
  let '(_, self) := delegationSet_remove name self in
  delegations ← delegations_insert (mkDelegation preference name) (counted_value self);
  mret (mkCounted delegations (changeCount_ self + 1)).

Definition delegationSet_addUnsorted (d : Delegation) : DelegationSet -> DelegationSet :=
  increment_with (fun delegations => delegations ++ [d]).

Definition delegationSet_clear : DelegationSet -> DelegationSet := increment_with (fun _ => []).

Definition delegationSet_get (self : DelegationSet) (i : Z) : result exn Delegation :=
  match counted_value self !! Z.to_nat i with
  | Some d => Ok d
  | None => Err (RuntimeError "DelegationSet::get: Index is out of bounds")
  end.

Fixpoint find_from (i : Z) (name : Name) (delegations : list Delegation) : Z :=
  match delegations with
  | [] => -1
  | d :: delegations => if same_name name d then i else find_from (i + 1) name delegations
  end.

Definition delegationSet_find (name : Name) (self : DelegationSet) : Z :=
  find_from 0 name (counted_value self).

(** [operator=] copies the list of the other object, not its count. *)
Definition delegationSet_assign (other self : DelegationSet) : DelegationSet :=
  mkCounted (counted_value other) (changeCount_ self).

(** ** The order *)

Definition delegation_lex (a b : Delegation) : Z :=
  if preference_ a <? preference_ b then -1
  else if preference_ a >? preference_ b then 1
  else name_lex (delegation_name_ a) (delegation_name_ b).

Definition delegation_fits (d : Delegation) : Prop := name_fits (delegation_name_ d).

Lemma delegation_compare_lex a b :
  delegation_fits a -> delegation_fits b -> delegation_compare a b = Ok (delegation_lex a b).
Proof.
  intros Ha Hb. unfold delegation_compare, delegation_lex.
  destruct (_ <? _); [easy |]. destruct (_ >? _); [easy |]. now apply name_compare_lex.
Qed.

#[export] Instance delegation_total : TotalCompare delegation_lex.
Proof.
  unfold delegation_lex. split.
  - intros a. now rewrite Z.ltb_irrefl, Z.gtb_ltb, Z.ltb_irrefl, tc_refl.
  - intros a b. rewrite !Z.gtb_ltb. pose proof (tc_antisym (cmp := name_lex)
      (delegation_name_ a) (delegation_name_ b)).
    destruct (Z.ltb_spec (preference_ a) (preference_ b)),
      (Z.ltb_spec (preference_ b) (preference_ a)); lia.
  - intros a b c. rewrite !Z.gtb_ltb. pose proof (tc_trans (cmp := name_lex)
      (delegation_name_ a) (delegation_name_ b) (delegation_name_ c)).
    destruct (Z.ltb_spec (preference_ a) (preference_ b)),
      (Z.ltb_spec (preference_ b) (preference_ a)), (Z.ltb_spec (preference_ b) (preference_ c)),
      (Z.ltb_spec (preference_ c) (preference_ b)), (Z.ltb_spec (preference_ a) (preference_ c)),
      (Z.ltb_spec (preference_ c) (preference_ a)); lia.
Qed.

Definition delegation_le (a b : Delegation) : Prop := delegation_lex a b <= 0.

Lemma delegations_remove_filter name l :
  (delegations_remove name l).1 = filter (fun d => same_name name d = false) l /\
  (delegations_remove name l).2 = existsb (same_name name) l.
Proof.
  induction l as [| d l [IH1 IH2]]; [easy |]. cbn [delegations_remove].
  destruct (delegations_remove name l) as [kept was]. cbn [fst snd] in IH1, IH2. subst.
  rewrite filter_cons. cbn [existsb].
  destruct (same_name name d) eqn:E; case_decide; congruence || easy.
Qed.

Lemma delegations_insert_spec d l :
  delegation_fits d -> Forall delegation_fits l -> StronglySorted delegation_le l ->
  exists l1 l2, l = l1 ++ l2 /\ delegations_insert d l = Ok (l1 ++ d :: l2) /\
    StronglySorted delegation_le (l1 ++ d :: l2).
Proof.
  intros Hd. induction l as [| e l IH]; intros Hl Hs.
  - exists [], []. repeat constructor.
  - cbn. apply StronglySorted_inv in Hs as [Hs He].
    rewrite delegation_compare_lex by (easy || exact (List.Forall_inv Hl)).
    cbn [mbind result_bind]. destruct (Z.geb_spec (delegation_lex e d) 0) as [Hge | Hlt].
    + exists [], (e :: l). split; [easy |]. split; [easy |]. cbn.
      assert (Hde : delegation_le d e)
        by (unfold delegation_le; rewrite (tc_antisym (cmp := delegation_lex) e d); lia).
      constructor; [now constructor |]. constructor; [easy |].
      eapply Forall_impl; [exact He |]. intros x Hx. now apply (tc_trans d e x).
    + destruct (IH (List.Forall_inv_tail Hl) Hs) as (l1 & l2 & -> & -> & Hs').
      exists (e :: l1), l2. split; [easy |]. split; [easy |]. cbn. constructor; [exact Hs' |].
      rewrite Forall_app in *. destruct He as [He1 He2]. split; [easy |].
      constructor; [unfold delegation_le; lia | easy].
Qed.

Lemma find_from_app name l1 d l2 i :
  Forall (fun d => same_name name d = false) l1 -> same_name name d = true ->
  find_from i name (l1 ++ d :: l2) = i + zlen l1.
Proof.
  intros H Hd. revert i. induction H as [| e l1 He Hl IH]; intros i; cbn.
  - rewrite Hd. lia.
  - rewrite He, IH. lia.
Qed.

(** The methods on the object that the change count follows. *)
Lemma delegationSet_remove_later name self : later self (delegationSet_remove name self).2.
Proof.
  unfold delegationSet_remove. pose proof (delegations_remove_filter name (counted_value self)) as [H1 H2].
  destruct (delegations_remove name (counted_value self)) as [kept was]. cbn [fst snd] in *.
  destruct was; [apply later_increment; cbn; lia |].
  replace kept with (counted_value self); [destruct self; apply later_refl |].
  subst kept. symmetry. clear -H2. induction (counted_value self) as [| d l IH]; [easy |].
  cbn in H2. symmetry in H2. apply orb_false_iff in H2 as [Hd Hl]. rewrite filter_cons.
  case_decide; [| congruence]. f_equal. now apply IH.
Qed.

Lemma delegationSet_add_later preference name self self' :
  delegationSet_add preference name self = Ok self' -> later self self'.
Proof.
  unfold delegationSet_add. pose proof (delegationSet_remove_later name self) as Hr.
  destruct (delegationSet_remove name self) as [was r]. cbn [snd] in Hr.
  destruct (delegations_insert _ _) as [l |]; [| easy]. cbn. intros [= <-].
  eapply later_trans; [exact Hr |]. apply later_increment. cbn. lia.
Qed.

#[export] Hint Resolve delegationSet_remove_later delegationSet_add_later : later.

(** ** Properties *)

(** Adding a delegation. On a sorted set, [add] gives a sorted set with exactly one delegation of the
    name, the new one, and the delegations of the other names unchanged; [find] finds it, and
    [remove] takes it away again. *)
Theorem delegation_add (p : Z) (name : Name) (self : DelegationSet) :
  name_fits name -> Forall delegation_fits (counted_value self) ->
  StronglySorted delegation_le (counted_value self) ->
  let others := filter (fun d => same_name name d = false) (counted_value self) in
  exists l1 l2 self', delegationSet_add p name self = Ok self' /\
    others = l1 ++ l2 /\ counted_value self' = l1 ++ mkDelegation p name :: l2 /\
    StronglySorted delegation_le (counted_value self') /\
    delegationSet_get self' (delegationSet_find name self') = Ok (mkDelegation p name) /\
    counted_value (delegationSet_remove name self').2 = others.
Proof.
  intros Hn Hf Hs others. assert (Ho : Forall (fun d => same_name name d = false) others).
  { apply Forall_forall. intros d Hd. now apply list_elem_of_filter in Hd as [Hd _]. }
  assert (Hof : Forall delegation_fits others).
  { apply Forall_forall. intros d Hd. apply list_elem_of_filter in Hd as [_ Hd].
    rewrite Forall_forall in Hf. now apply Hf. }
  destruct (delegations_insert_spec (mkDelegation p name) others Hn Hof) as (l1 & l2 & He & Hi & Hso);
    [now apply StronglySorted_filter |].
  exists l1, l2, (mkCounted (l1 ++ mkDelegation p name :: l2)
    ((if (delegations_remove name (counted_value self)).2 then changeCount_ self + 1
      else changeCount_ self) + 1)).
  assert (Hrem : (delegations_remove name (counted_value self)).1 = others)
    by apply delegations_remove_filter.
  split; [| split; [exact He | split; [easy | split; [exact Hso |]]]].
  - unfold delegationSet_add, delegationSet_remove.
    destruct (delegations_remove name (counted_value self)) as [kept was]. cbn [fst snd] in *.
    subst kept. cbn [counted_value]. now rewrite Hi.
  - rewrite He in Ho. apply Forall_app in Ho as [Ho1 Ho2].
    assert (Hsame : same_name name (mkDelegation p name) = true).
    { unfold same_name. cbn. now apply name_equals_values. }
    split.
    + unfold delegationSet_find, delegationSet_get. cbn [counted_value].
      rewrite (find_from_app name l1 (mkDelegation p name) l2 0) by easy.
      rewrite Z.add_0_l, Nat2Z.id. now rewrite list_lookup_middle.
    + unfold delegationSet_remove. cbn [counted_value].
      pose proof (delegations_remove_filter name (l1 ++ mkDelegation p name :: l2)) as [Hk _].
      destruct (delegations_remove name (l1 ++ mkDelegation p name :: l2)) as [kept was].
      cbn [fst] in Hk. subst kept.
      cbn [snd counted_value]. rewrite He, filter_app, filter_cons_False by congruence.
      now rewrite !filter_all.
Qed.

(** ** Witnesses *)

Lemma delegation_add_witness :
  let self := mkCounted [mkDelegation 1 [generic [97]]; mkDelegation 5 [generic [98]]] 2 in
  exists self', delegationSet_add 3 [generic [97]] self = Ok self' /\
    StronglySorted delegation_le (counted_value self').
Proof.
  intros self.
  destruct (delegation_add 3 [generic [97]] self) as (l1 & l2 & self' & Ha & _ & _ & Hs & _).
  - unfold name_fits. cbn. lia.
  - repeat constructor.
  - repeat constructor; unfold delegation_le; cbn; lia.
  - exists self'. split; [exact Ha | exact Hs].
Defined.
