(* ===== verification/Data.v ===== *)
(** * Key locators, signatures and Data packets

    The objects [KeyLocator], [Signature], [MetaInfo] and [Data] of src/key-locator.cpp,
    src/*-signature.cpp, src/meta-info.cpp and src/data.cpp, with their change counts, and the
    cached encoding and full name of a Data packet. *)

From stdpp Require Import base list numbers option strings.
From Stdlib Require Import ZArith Lia.
From S2P Require Import Prelude Order Name ChangeCounter ValidityPeriod.
Open Scope Z_scope.

(** A [Blob]: null or bytes. *)
Abbreviation Blob := (option (list Z)).

Abbreviation NameObject := (Counted Name).

Definition name_obj_append (c : Component) : NameObject -> NameObject :=
  increment_with (fun n => append n c).
Definition name_obj_clear : NameObject -> NameObject := increment_with (fun _ => []).

(** [append(const Name&)]. *)
Definition name_obj_appendName (name : Name) (x : NameObject) : NameObject :=
  fold_left (fun x c => name_obj_append c x) name x.

(** [Name::set(uri)] on an object: [clear], and [append] of each component of the URI. *)
Definition name_obj_set (components : Name) (x : NameObject) : NameObject :=
  name_obj_appendName components (name_obj_clear x).

(** ** KeyLocator *)

(** The type is -1 for none. *)
Inductive KeyLocatorType := KL_NONE | KEYNAME | KEY_LOCATOR_DIGEST.

#[export] Instance KeyLocatorType_eq_dec : EqDecision KeyLocatorType.
Proof. solve_decision. Defined.

Record KeyLocatorFields := mkKeyLocatorFields {
  kl_type_ : KeyLocatorType;
  keyData_ : Blob
}.

Abbreviation KeyLocator := (Composite KeyLocatorFields (ChangeCounter NameObject)).
Abbreviation KeyLocatorValue := (KeyLocatorFields * Name)%type.

Definition KeyLocator_new : KeyLocator :=
  mkComposite (mkKeyLocatorFields KL_NONE None) (counter_set (mkCounted [] 0)) 0.

Definition KeyLocator_setType (type : KeyLocatorType) : KeyLocator -> KeyLocator :=
  composite_set (fun f => mkKeyLocatorFields type (keyData_ f)) id.
Definition KeyLocator_setKeyData (keyData : Blob) : KeyLocator -> KeyLocator :=
  composite_set (fun f => mkKeyLocatorFields (kl_type_ f) keyData) id.
Definition KeyLocator_setKeyName (keyName : NameObject) : KeyLocator -> KeyLocator :=
  composite_set id (fun _ => counter_set keyName).

(** [clear]: [setKeyName] increments the count, and [clear] once more. *)
Definition KeyLocator_clear (x : KeyLocator) : KeyLocator :=
  composite_set id id
    (KeyLocator_setKeyName (mkCounted [] 0)
       (mkComposite (mkKeyLocatorFields KL_NONE None) (children_ x) (composite_count_ x))).

(** A change through [getKeyName()]. *)
Definition KeyLocator_getKeyName (f : NameObject -> NameObject) : KeyLocator -> KeyLocator :=
  composite_modify (counter_modify f).

Definition blob_equals (a b : Blob) : bool := bool_decide (a = b).

Definition KeyLocator_equals (self other : KeyLocatorValue) : bool :=
  if negb (bool_decide (kl_type_ self.1 = kl_type_ other.1)) then false
  else
    match kl_type_ self.1 with
    | KEYNAME => name_equals self.2 other.2
    | KEY_LOCATOR_DIGEST => blob_equals (keyData_ self.1) (keyData_ other.1)
    | KL_NONE => true
    end.

(** ** Signatures *)

(** The key locator of the three types that have one; the validity period; the signature bits;
    and for a generic signature the encoding of its SignatureInfo and its type code. *)
Inductive SignatureFields :=
| Sha256WithRsaSignature (signature_ : Blob)
| Sha256WithEcdsaSignature (signature_ : Blob)
| HmacWithSha256Signature (signature_ : Blob)
| DigestSha256Signature (signature_ : Blob)
| GenericSignature (signature_ signatureInfoEncoding_ : Blob) (typeCode_ : Z).

(** All the signature objects have the same shape here: a type without a key locator or without a
    validity period never touches that child. *)
Abbreviation Signature := (Composite SignatureFields
  (ChangeCounter KeyLocator * ChangeCounter ValidityPeriod)).
Abbreviation SignatureValue := (SignatureFields * (KeyLocatorValue * Period))%type.

Definition Signature_new (fields : SignatureFields) : Signature :=
  mkComposite fields (counter_set KeyLocator_new, counter_set (mkCounted no_period 0)) 0.

Definition setSignatureBits (signature : Blob) : Signature -> Signature :=
  composite_set (fun f =>
    match f with
    | Sha256WithRsaSignature _ => Sha256WithRsaSignature signature
    | Sha256WithEcdsaSignature _ => Sha256WithEcdsaSignature signature
    | HmacWithSha256Signature _ => HmacWithSha256Signature signature
    | DigestSha256Signature _ => DigestSha256Signature signature
    | GenericSignature _ info code => GenericSignature signature info code
    end) id.

Definition Signature_setKeyLocator (keyLocator : KeyLocator) : Signature -> Signature :=
  composite_set id (fun c => (counter_set keyLocator, c.2)).

Definition canGetFromSignature (signature : SignatureValue) : bool :=
  match signature.1 with
  | Sha256WithRsaSignature _ | Sha256WithEcdsaSignature _ | HmacWithSha256Signature _ => true
  | _ => false
  end.

Definition getFromSignature (signature : SignatureValue) : result exn KeyLocatorValue :=
  match signature.1 with
  | Sha256WithRsaSignature _ | Sha256WithEcdsaSignature _ | HmacWithSha256Signature _ =>
      Ok signature.2.1
  | _ => Err (RuntimeError "KeyLocator::getFromSignature: Signature type does not have a KeyLocator")
  end.

(** ** MetaInfo *)

Record MetaInfoFields := mkMetaInfoFields {
  timestamp_ : Z;
  mi_type_ : Z;
  mi_otherTypeCode_ : Z;
  freshnessPeriod_ : Z;
  finalBlockId_ : Component
}.

Abbreviation MetaInfo := (Counted MetaInfoFields).

Definition MetaInfo_setType (type : Z) : MetaInfo -> MetaInfo :=
  increment_with (fun f => mkMetaInfoFields (timestamp_ f) type (mi_otherTypeCode_ f)
    (freshnessPeriod_ f) (finalBlockId_ f)).
Definition MetaInfo_setFreshnessPeriod (freshnessPeriod : Z) : MetaInfo -> MetaInfo :=
  increment_with (fun f => mkMetaInfoFields (timestamp_ f) (mi_type_ f) (mi_otherTypeCode_ f)
    freshnessPeriod (finalBlockId_ f)).
Definition MetaInfo_setFinalBlockId (finalBlockId : Component) : MetaInfo -> MetaInfo :=
  increment_with (fun f => mkMetaInfoFields (timestamp_ f) (mi_type_ f) (mi_otherTypeCode_ f)
    (freshnessPeriod_ f) finalBlockId).
Definition MetaInfo_setTimestamp (timestamp : Z) : MetaInfo -> MetaInfo :=
  increment_with (fun f => mkMetaInfoFields timestamp (mi_type_ f) (mi_otherTypeCode_ f)
    (freshnessPeriod_ f) (finalBlockId_ f)).
Definition MetaInfo_setOtherTypeCode (otherTypeCode : Z) (x : MetaInfo) : result exn MetaInfo :=
  if otherTypeCode <? 0 then Err (RuntimeError "MetaInfo other type code must be non-negative")
  else Ok (increment_with (fun f => mkMetaInfoFields (timestamp_ f) (mi_type_ f) otherTypeCode
    (freshnessPeriod_ f) (finalBlockId_ f)) x).

(** ** Data *)

Abbreviation DataChildren := (ChangeCounter Signature * (ChangeCounter NameObject * ChangeCounter MetaInfo))%type.
Abbreviation DataObject := (Composite Blob DataChildren).
Abbreviation DataValue := (Blob * (SignatureValue * (Name * MetaInfoFields)))%type.

Definition data_name (d : DataValue) : Name := d.2.2.1.
Definition data_signature (d : DataValue) : SignatureValue := d.2.1.
Definition data_metaInfo (d : DataValue) : MetaInfoFields := d.2.2.2.
Definition data_content (d : DataValue) : Blob := d.1.

Record Data := mkData {
  data_cached : Cached DataObject;
  defaultFullName_ : Name
}.

Definition data_value (d : Data) : DataValue := value_of (object_ (data_cached d)).

Definition data_method (f : DataObject -> DataObject) (d : Data) : Data :=
  mkData (with_object f (data_cached d)) (defaultFullName_ d).

Definition Data_setSignature (signature : Signature) : Data -> Data :=
  data_method (composite_set id (fun c => (counter_set signature, c.2))).
Definition Data_setName (name : NameObject) : Data -> Data :=
  data_method (composite_set id (fun c => (c.1, (counter_set name, c.2.2)))).
Definition Data_setMetaInfo (metaInfo : MetaInfo) : Data -> Data :=
  data_method (composite_set id (fun c => (c.1, (c.2.1, counter_set metaInfo)))).
Definition Data_setContent (content : Blob) : Data -> Data :=
  data_method (composite_set (fun _ => content) id).

(** Changes through [getSignature()], [getName()] and [getMetaInfo()]. *)
Definition Data_getSignature (f : Signature -> Signature) : Data -> Data :=
  data_method (composite_modify (fun c => (counter_modify f c.1, c.2))).
Definition Data_getName (f : NameObject -> NameObject) : Data -> Data :=
  data_method (composite_modify (fun c => (c.1, (counter_modify f c.2.1, c.2.2)))).
Definition Data_getMetaInfo (f : MetaInfo -> MetaInfo) : Data -> Data :=
  data_method (composite_modify (fun c => (c.1, (c.2.1, counter_modify f c.2.2)))).

Definition Data_new (name : Name) (metaInfo : MetaInfoFields) : Data :=
  mkData (mkCached (mkComposite None
    (counter_set (Signature_new (Sha256WithRsaSignature None)),
     (counter_set (mkCounted name 0), counter_set (mkCounted metaInfo 0))) 0) None 0 0) [].

Section WireFormat.
(** [WireFormat::getDefaultWireFormat()], the virtual methods [encodeData] and [decodeData] of a
    wire format, and the SHA-256 function of the crypto library. *)
Context (default : Z) (encodeData : Z -> DataValue -> list Z).
Context (decodeData : Z -> list Z -> DataObject -> DataObject) (sha256 : list Z -> list Z).

Definition Data_wireEncode (format : Z) (d : Data) : list Z * Data :=
  let '(encoding, cached) :=
    wireEncode default (fun f o => encodeData f (value_of o)) format (data_cached d) in
  (encoding, mkData cached (defaultFullName_ d)).

Definition Data_wireDecode (input : list Z) (format : Z) (d : Data) : Data :=
  let cached := with_object (decodeData format input) (data_cached d) in
  mkData (if format =? default then setDefaultWireEncoding (Some input) default cached
          else setDefaultWireEncoding None 0 cached) (defaultFullName_ d).

(** The name with the digest of the whole packet. *)
Definition full_name (format : Z) (v : DataValue) : Name :=
  append (data_name v) (mkComponent IMPLICIT_SHA256_DIGEST (-1) (sha256 (encodeData format v))).

Definition getFullName (format : Z) (d : Data) : Name * Data :=
  let cached := getDefaultWireEncoding (data_cached d) in
  if negb (bool_decide (defaultWireEncoding_ cached = None)) &&
     (zlen (defaultFullName_ d) >? 0) && (defaultWireEncodingFormat_ cached =? format)
  then (defaultFullName_ d, mkData cached (defaultFullName_ d))
  else
    let '(encoding, d) := Data_wireEncode format (mkData cached (defaultFullName_ d)) in
    let fullName := append (data_name (data_value d))
      (mkComponent IMPLICIT_SHA256_DIGEST (-1) (sha256 encoding)) in
    (fullName, if format =? default then mkData (data_cached d) fullName else d).
End WireFormat.

(** ** The methods as steps *)

(** What the child objects promise when one of their methods is called through a reference. *)
Lemma name_obj_appendName_later name x : later x (name_obj_appendName name x).
Proof.
  unfold name_obj_appendName. revert x. induction name as [| c name IH]; intros x; cbn;
    [apply later_refl |].
  eapply later_trans; [| apply IH]. apply increment_with_later.
Qed.

Lemma name_obj_set_later components x : later x (name_obj_set components x).
Proof. eapply later_trans; [apply increment_with_later | apply name_obj_appendName_later]. Qed.

Lemma KeyLocator_setType_later t x : later x (KeyLocator_setType t x).
Proof. apply composite_set_later. Qed.

Lemma KeyLocator_setKeyData_later b x : later x (KeyLocator_setKeyData b x).
Proof. apply composite_set_later. Qed.

Lemma KeyLocator_setKeyName_later n x : later x (KeyLocator_setKeyName n x).
Proof. apply composite_set_later. Qed.

Lemma KeyLocator_clear_later x : later x (KeyLocator_clear x).
Proof. apply later_increment. cbn. lia. Qed.

Lemma KeyLocator_getKeyName_later f x :
  counter_ok (children_ x) -> later (target_ (children_ x)) (f (target_ (children_ x))) ->
  later x (KeyLocator_getKeyName f x).
Proof. intros Hok Hf. apply composite_modify_later; [exact Hok | now apply children_later_modify]. Qed.

#[export] Hint Resolve name_obj_appendName_later name_obj_set_later KeyLocator_setType_later
  KeyLocator_setKeyData_later KeyLocator_setKeyName_later KeyLocator_clear_later
  KeyLocator_getKeyName_later : later.

Section DataSteps.
Context (default : Z) (encodeData : Z -> DataValue -> list Z).
Context (decodeData : Z -> list Z -> DataObject -> DataObject) (sha256 : list Z -> list Z).

(** The calls on a Data packet. The last three change a child through its reference, by
    methods that keep what the child promises. *)
Inductive data_step (d : Data) : Data -> Prop :=
| step_setSignature s : data_step d (Data_setSignature s d)
| step_setName n : data_step d (Data_setName n d)
| step_setMetaInfo m : data_step d (Data_setMetaInfo m d)
| step_setContent b : data_step d (Data_setContent b d)
| step_wireEncode format : data_step d (Data_wireEncode default encodeData format d).2
| step_wireDecode input format : data_step d (Data_wireDecode default decodeData input format d)
| step_getFullName format : data_step d (getFullName default encodeData sha256 format d).2
| step_getSignature f :
    (forall s, later s (f s)) -> data_step d (Data_getSignature f d)
| step_getName f : (forall n, later n (f n)) -> data_step d (Data_getName f d)
| step_getMetaInfo f : (forall m, later m (f m)) -> data_step d (Data_getMetaInfo f d).

Inductive data_reach : Data -> Prop :=
| reach_new name metaInfo : data_reach (Data_new name metaInfo)
| reach_step d d' : data_reach d -> data_step d d' -> data_reach d'.

(** An encoding of a value: what the format writes for it, or a packet that the format reads as
    it. *)
Definition data_encoding (format : Z) (v : DataValue) (bytes : list Z) : Prop :=
  bytes = encodeData format v \/ exists o, value_of (decodeData format bytes o) = v.

Definition data_ok (d : Data) : Prop :=
  cache_ok data_encoding (data_cached d) /\ children_ok (children_ (object_ (data_cached d))).

Lemma data_method_ok f d :
  later (object_ (data_cached d)) (f (object_ (data_cached d))) ->
  children_ok (children_ (f (object_ (data_cached d)))) -> data_ok d -> data_ok (data_method f d).
Proof. intros Hf Hc [Hok _]. split; [apply with_object_ok; [apply _ | easy | easy] | exact Hc]. Qed.

Lemma counter_set_ok {T V} `{ChangeCountedLaws T V} (t : T) : counter_ok (counter_set t).
Proof. apply counter_set_spec. Qed.

Lemma Data_modify_ok g d :
  (forall c, children_later c (g c)) -> data_ok d -> data_ok (data_method (composite_modify g) d).
Proof.
  intros Hg Hd. pose proof Hd as [_ Hc].
  apply data_method_ok; [now apply composite_modify_later | | exact Hd]. now apply Hg.
Qed.

Lemma Data_wireEncode_ok format d :
  data_ok d ->
  let '(bytes, d') := Data_wireEncode default encodeData format d in
  data_encoding format (data_value d) bytes /\ data_ok d' /\ data_value d' = data_value d.
Proof.
  intros [Hok _]. unfold Data_wireEncode, data_ok, data_value.
  pose proof (wireEncode_ok data_encoding default (fun f o => encodeData f (value_of o)) format
    (data_cached d) Hok (fun o => or_introl eq_refl)) as Hw.
  pose proof (wireEncode_settles default (fun f o => encodeData f (value_of o)) format (data_cached d)) as Hs.
  destruct (wireEncode _ _ _ _) as [bytes x]. cbn [data_cached snd] in *. tauto.
Qed.

Lemma get_ok d : data_ok d ->
  data_ok (mkData (getDefaultWireEncoding (data_cached d)) (defaultFullName_ d)) /\
  data_value (mkData (getDefaultWireEncoding (data_cached d)) (defaultFullName_ d)) = data_value d.
Proof.
  intros [Hok _]. destruct (getDefaultWireEncoding_ok _ _ Hok) as (Hok' & Ho & _). split.
  - split; [exact Hok' | apply get_settles].
  - unfold data_value. cbn [data_cached]. rewrite Ho. apply gcc_value.
Qed.

Lemma data_step_ok d d' : data_ok d -> data_step d d' -> data_ok d'.
Proof.
  intros Hd Hs. pose proof Hd as [_ Hc]. destruct Hc as (Hc1 & Hc2 & Hc3).
  destruct Hs as [s | n | m | b | format | input format | format | f Hf | f Hf | f Hf].
  1,2,3,4: apply data_method_ok; [apply composite_set_later | | exact Hd];
    split; [| split]; cbn [composite_set children_ fst snd id]; (exact (counter_set_ok _) || easy).
  - pose proof (Data_wireEncode_ok format d Hd) as H.
    destruct (Data_wireEncode _ _ _ _). cbn. tauto.
  - unfold Data_wireDecode. destruct (Z.eqb_spec format default) as [-> |].
    + split; [| apply set_settles]. apply setDefaultWireEncoding_ok; [apply _ |]. intros bytes [= <-].
      right. now eexists.
    + split; [| apply set_settles]. apply setDefaultWireEncoding_ok; [apply _ | discriminate].
  - destruct (get_ok d Hd) as [Hg _]. unfold getFullName.
    destruct (_ && _); [exact Hg |].
    pose proof (Data_wireEncode_ok format _ Hg) as H.
    destruct (Data_wireEncode _ _ _ _) as [bytes d1]. cbn [snd].
    destruct (format =? default); apply H.
  - apply (Data_modify_ok (fun c => (counter_modify f c.1, c.2))); [| exact Hd].
    intros [c1 c2]. apply children_later_pair; [now apply children_later_modify | easy].
  - apply (Data_modify_ok (fun c => (c.1, (counter_modify f c.2.1, c.2.2)))); [| exact Hd].
    intros [c1 [c2 c3]]. apply children_later_pair; [easy |].
    apply children_later_pair; [now apply children_later_modify | easy].
  - apply (Data_modify_ok (fun c => (c.1, (c.2.1, counter_modify f c.2.2)))); [| exact Hd].
    intros [c1 [c2 c3]]. apply children_later_pair; [easy |].
    apply children_later_pair; [easy | now apply children_later_modify].
Qed.

Lemma data_reach_ok d : data_reach d -> data_ok d.
Proof.
  induction 1 as [name metaInfo | d d' _ IH Hs]; [| now apply (data_step_ok d)].
  split; [split; [easy | discriminate] |]. cbn. unfold counter_ok. cbn. lia.
Qed.
End DataSteps.

(** ** Properties *)

(** C36: the encoding is current. A Data packet is changed by any calls of its methods, and its name, meta info and signature
    through the references that it gives out, by any changes after which a recorded change count tells whether the value
    changed ([later]); the assignment of a whole Name through its reference is not one of these and is left out. Then [wireEncode] returns the encoding of the
    packet as it is, or the bytes from which a packet of the same values was decoded, never a cached encoding of
    other values, and does not change the values. *)
Theorem data_wireEncode_current (default : Z) (encodeData : Z -> DataValue -> list Z)
    (decodeData : Z -> list Z -> DataObject -> DataObject) (sha256 : list Z -> list Z)
    (d : Data) (format : Z) :
  data_reach default encodeData decodeData sha256 d ->
  let '(bytes, d') := Data_wireEncode default encodeData format d in
  (bytes = encodeData format (data_value d) \/
   exists o, value_of (decodeData format bytes o) = data_value d) /\
  data_value d' = data_value d.
Proof.
  intros H. apply data_reach_ok in H.
  pose proof (Data_wireEncode_ok default encodeData decodeData sha256 format d H) as Hw.
  destruct (Data_wireEncode _ _ _ _). unfold data_encoding in Hw. tauto.
Qed.

(** Assignment through a reference. The assignment of a Name copies the change count with the
    components, so it can go unseen: here two names with one component each, and the encoding of
    the first is returned for the second. *)
Theorem data_assign_name_stale :
  let encodeData := fun (_ : Z) (v : DataValue) => concat (map value_ (data_name v)) in
  let metaInfo := mkMetaInfoFields (-1) 0 (-1) (-1) (generic []) in
  let a := name_obj_append (generic [97]) (mkCounted [] 0) in
  let b := name_obj_append (generic [98]) (mkCounted [] 0) in
  let d := (Data_wireEncode 1 encodeData 1 (Data_setName a (Data_new [] metaInfo))).2 in
  let d' := Data_getName (assign b) d in
  data_name (data_value d') = [generic [98]] /\
  (Data_wireEncode 1 encodeData 1 d').1 = [97] /\ encodeData 1 (data_value d') = [98].
Proof. repeat split; reflexivity. Qed.

(** Stale full name. [getFullName] takes a cached encoding that is not null for a sign that its cached
    name is current, but [wireEncode] gives the packet a new cached encoding and leaves the
    name: the digest is the one of the old content. *)
Theorem data_fullName_stale :
  let encodeData := fun (_ : Z) (v : DataValue) => default [] (data_content v) in
  let metaInfo := mkMetaInfoFields (-1) 0 (-1) (-1) (generic []) in
  let d := Data_setContent (Some [1]) (Data_new [] metaInfo) in
  let d1 := (getFullName 1 encodeData id 1 d).2 in
  let d2 := (Data_wireEncode 1 encodeData 1 (Data_setContent (Some [2]) d1)).2 in
  (getFullName 1 encodeData id 1 d2).1 = full_name encodeData id 1 (data_value d1) /\
  (getFullName 1 encodeData id 1 d2).1 <> full_name encodeData id 1 (data_value d2).
Proof. split; vm_compute; [reflexivity | discriminate]. Qed.

(** ** Witnesses *)

Lemma data_wireEncode_current_witness :
  let encodeData := fun (_ : Z) (v : DataValue) => default [] (data_content v) in
  let d := Data_setContent (Some [5]) (Data_new [] (mkMetaInfoFields (-1) 0 (-1) (-1) (generic []))) in
  (Data_wireEncode 1 encodeData 1 d).1 = [5] /\
  data_value (Data_wireEncode 1 encodeData 1 d).2 = data_value d.
Proof.
  intros encodeData d. split; [reflexivity |].
  assert (Hr : data_reach 1 encodeData (fun _ _ o => o) id d)
    by (eapply reach_step; [apply reach_new | apply step_setContent]).
  exact (proj2 (data_wireEncode_current 1 encodeData (fun _ _ o => o) id d 1 Hr)).
Defined.
