(* ===== verification/TlvData.v ===== *)
(** * The TLV encoding of Data packets

    src/c/encoding/tlv/tlv-key-locator.c, tlv-signature-info.c and tlv-data.c, over the C structures of
    include/ndn-ind/c/data-types.h. A structure with pre-allocated arrays is its contents; the room for
    the components of names is an argument of the decoder. *)

From stdpp Require Import base list numbers option.
From Stdlib Require Import ZArith Lia.
From S2P Require Import Prelude Encoder Decoder Blocks Name TlvName ValidityPeriod IsoTime Data.
Open Scope Z_scope.
Open Scope ndn_scope.

(** ** The type codes of include/ndn-ind/c/encoding and src/c/encoding/tlv/tlv.h *)

Definition ndn_Tlv_Data : Z := 6.
Definition ndn_Tlv_MetaInfo : Z := 20.
Definition ndn_Tlv_Content : Z := 21.
Definition ndn_Tlv_SignatureInfo : Z := 22.
Definition ndn_Tlv_SignatureValue : Z := 23.
Definition ndn_Tlv_ContentType : Z := 24.
Definition ndn_Tlv_FreshnessPeriod : Z := 25.
Definition ndn_Tlv_FinalBlockId : Z := 26.
Definition ndn_Tlv_SignatureType : Z := 27.
Definition ndn_Tlv_KeyLocator : Z := 28.
Definition ndn_Tlv_KeyLocatorDigest : Z := 29.
Definition ndn_Tlv_ValidityPeriod_ValidityPeriod : Z := 253.
Definition ndn_Tlv_ValidityPeriod_NotBefore : Z := 254.
Definition ndn_Tlv_ValidityPeriod_NotAfter : Z := 255.

#[export] Hint Unfold ndn_Tlv_Name name_block ndn_Tlv_Data ndn_Tlv_MetaInfo ndn_Tlv_Content
  ndn_Tlv_SignatureInfo ndn_Tlv_SignatureValue ndn_Tlv_ContentType ndn_Tlv_FreshnessPeriod
  ndn_Tlv_FinalBlockId ndn_Tlv_SignatureType ndn_Tlv_KeyLocator ndn_Tlv_KeyLocatorDigest
  ndn_Tlv_ValidityPeriod_ValidityPeriod ndn_Tlv_ValidityPeriod_NotBefore
  ndn_Tlv_ValidityPeriod_NotAfter : tlv.

Definition ndn_SignatureType_DigestSha256Signature : Z := 0.
Definition ndn_SignatureType_Sha256WithRsaSignature : Z := 1.
Definition ndn_SignatureType_Sha256WithEcdsaSignature : Z := 3.
Definition ndn_SignatureType_HmacWithSha256Signature : Z := 4.
Definition ndn_SignatureType_Generic : Z := 32767.

Definition ndn_ContentType_BLOB : Z := 0.
Definition ndn_ContentType_LINK : Z := 1.
Definition ndn_ContentType_KEY : Z := 2.
Definition ndn_ContentType_NACK : Z := 3.
Definition ndn_ContentType_OTHER_CODE : Z := 32767.

(** The bytes of a blob; those of a null blob are none. *)
Definition blob_bytes (b : Blob) : list Z := default [] b.

(** A result of the C library inside a decoder. *)
Definition of_result {A} (r : result failure A) : Dec A := fun d =>
  match r with Ok a => Ok (a, d) | Err e => Err e end.

(** ** Key locators *)

(** The fields of [ndn_KeyLocator] are those of a [KeyLocatorValue]; -1 is [KL_NONE]. *)
Definition ndn_KeyLocator_initial : KeyLocatorValue := (mkKeyLocatorFields KL_NONE None, []).

Definition encodeTlvKeyLocatorValue (keyLocator : KeyLocatorValue) : writer :=
  match kl_type_ keyLocator.1 with
  | KL_NONE => fun self => Ok self
  | KEYNAME => only (encodeTlvName keyLocator.2)
  | KEY_LOCATOR_DIGEST =>
      if zlen (blob_bytes (keyData_ keyLocator.1)) >? 0
      then writeBlobTlv ndn_Tlv_KeyLocatorDigest (blob_bytes (keyData_ keyLocator.1))
      else fun _ => Err NDN_ERROR_unrecognized_ndn_KeyLocatorType
  end.

(** The early return for an empty key locator is at its end, where [finishNestedTlvs] does nothing. *)
Definition decodeTlvKeyLocator (maxComponents expectedType : Z) : Dec KeyLocatorValue :=
  nested expectedType (fun endOffset =>
    offset ← get_offset;
    if offset =? endOffset then mret ndn_KeyLocator_initial
    else
      gotExpectedType ← peekType ndn_Tlv_Name endOffset;
      if gotExpectedType : bool then
        '(keyName, _) ← decodeTlvName maxComponents;
        mret (mkKeyLocatorFields KEYNAME None, keyName)
      else
        gotExpectedType ← peekType ndn_Tlv_KeyLocatorDigest endOffset;
        if gotExpectedType : bool then
          keyData ← readBlob ndn_Tlv_KeyLocatorDigest;
          mret (mkKeyLocatorFields KEY_LOCATOR_DIGEST (Some keyData), [])
        else throw NDN_ERROR_decodeKeyLocator_unrecognized_key_locator_type).

(** ** Signature info *)

(** [ndn_Signature]: one structure for all the types of signatures. *)
Record ndn_Signature := mkSignature {
  sig_type : Z;
  sig_signature : Blob;
  sig_signatureInfoEncoding : Blob;
  sig_genericTypeCode : Z;
  sig_keyLocator : KeyLocatorValue;
  sig_validityPeriod : Period
}.

(** [ndn_Signature_initialize] and [ndn_Signature_clear]. *)
Definition ndn_Signature_initial : ndn_Signature :=
  mkSignature (-1) None None (-1) ndn_KeyLocator_initial no_period.

(** One time of the period: the code is the same for both. *)
Definition encode_time (type ms : Z) : writer :=
  match ndn_toIsoString ms with
  | Err e => fun _ => Err e
  | Ok isoString => writeOptionalBlobTlv type (Some isoString)
  end.

Definition encodeValidityPeriodValue (validityPeriod : Period) : writer :=
  encode_time ndn_Tlv_ValidityPeriod_NotBefore validityPeriod.1 >;>
  encode_time ndn_Tlv_ValidityPeriod_NotAfter validityPeriod.2.

Definition encode_validityPeriod (validityPeriod : Period) : writer :=
  if ValidityPeriod_hasPeriod validityPeriod then
    writeNestedTlv ndn_Tlv_ValidityPeriod_ValidityPeriod (encodeValidityPeriodValue validityPeriod) false
  else fun self => Ok self.

Definition encodeSignatureWithKeyLocatorAndValidityPeriodValue (signature : ndn_Signature) : writer :=
  writeNonNegativeIntegerTlv ndn_Tlv_SignatureType (sig_type signature) >;>
  writeNestedTlv ndn_Tlv_KeyLocator (encodeTlvKeyLocatorValue (sig_keyLocator signature)) false >;>
  encode_validityPeriod (sig_validityPeriod signature).

Definition encodeDigestSha256Value (signature : ndn_Signature) : writer :=
  writeNonNegativeIntegerTlv ndn_Tlv_SignatureType ndn_SignatureType_DigestSha256Signature >;>
  encode_validityPeriod (sig_validityPeriod signature).

(** The test decoding of a generic signature. *)
Definition test_signatureInfo : Dec unit :=
  endOffset ← readNestedTlvsStart ndn_Tlv_SignatureInfo;
  _ ← readNonNegativeIntegerTlv ndn_Tlv_SignatureType;
  finishNestedTlvsSkipCritical endOffset.

Definition has_keyLocator (type : Z) : bool :=
  (type =? ndn_SignatureType_Sha256WithRsaSignature) ||
  (type =? ndn_SignatureType_Sha256WithEcdsaSignature) ||
  (type =? ndn_SignatureType_HmacWithSha256Signature).

Definition encodeTlvSignatureInfo (signatureInfo : ndn_Signature) : writer :=
  let type := sig_type signatureInfo in
  if type =? ndn_SignatureType_Generic then
    let encoding := blob_bytes (sig_signatureInfoEncoding signatureInfo) in
    match test_signatureInfo (TlvDecoder_initialize encoding) with
    | Err _ => fun _ =>
        Err NDN_ERROR_The_Generic_signature_encoding_is_not_a_valid_NDN_TLV_SignatureInfo
    | Ok _ => writeArray encoding
    end
  else if has_keyLocator type then
    writeNestedTlv ndn_Tlv_SignatureInfo
      (encodeSignatureWithKeyLocatorAndValidityPeriodValue signatureInfo) false
  else if type =? ndn_SignatureType_DigestSha256Signature then
    writeNestedTlv ndn_Tlv_SignatureInfo (encodeDigestSha256Value signatureInfo) false
  else fun _ => Err NDN_ERROR_encodeSignatureInfo_unrecognized_SignatureType.

(** One time of the period. *)
Definition decode_time (type : Z) : Dec Z :=
  isoString ← readBlob type;
  if zlen isoString >? 15 then throw NDN_ERROR_Calendar_time_value_out_of_range
  else of_result (ndn_fromIsoString isoString).

Definition decodeValidityPeriod : Dec Period :=
  nested ndn_Tlv_ValidityPeriod_ValidityPeriod (fun _ =>
    notBefore ← decode_time ndn_Tlv_ValidityPeriod_NotBefore;
    notAfter ← decode_time ndn_Tlv_ValidityPeriod_NotAfter;
    mret (notBefore, notAfter)).

Definition decode_optional_validityPeriod (endOffset : Z) : Dec Period :=
  gotExpectedType ← peekType ndn_Tlv_ValidityPeriod_ValidityPeriod endOffset;
  if gotExpectedType : bool then decodeValidityPeriod else mret no_period.

Definition decodeTlvSignatureInfo (maxKeyComponents : Z) : Dec ndn_Signature :=
  beginOffset ← get_offset;
  nested ndn_Tlv_SignatureInfo (fun endOffset =>
    signatureType ← readNonNegativeIntegerTlv ndn_Tlv_SignatureType;
    if has_keyLocator signatureType then
      keyLocator ← decodeTlvKeyLocator maxKeyComponents ndn_Tlv_KeyLocator;
      validityPeriod ← decode_optional_validityPeriod endOffset;
      mret (mkSignature signatureType None None (-1) keyLocator validityPeriod)
    else if signatureType =? ndn_SignatureType_DigestSha256Signature then
      validityPeriod ← decode_optional_validityPeriod endOffset;
      mret (mkSignature ndn_SignatureType_DigestSha256Signature None None (-1)
              ndn_KeyLocator_initial validityPeriod)
    else
      encoding ← slice_blob beginOffset endOffset;
      _ ← finishNestedTlvsSkipCritical endOffset;
      mret (mkSignature ndn_SignatureType_Generic None (Some encoding) (to_int32 signatureType)
              ndn_KeyLocator_initial no_period)).

(** ** MetaInfo *)

(** The fields of [ndn_MetaInfo] are those of [MetaInfoFields]: times are nanoseconds, and the final
    block ID is a component. *)
Definition ndn_MetaInfo_initial : MetaInfoFields :=
  mkMetaInfoFields (-1000000) ndn_ContentType_BLOB (-1) (-1000000) (generic []).

Definition is_known_contentType (type : Z) : bool :=
  (type =? ndn_ContentType_LINK) || (type =? ndn_ContentType_KEY) || (type =? ndn_ContentType_NACK).

Definition encode_contentType (metaInfo : MetaInfoFields) : writer :=
  let type := mi_type_ metaInfo in
  if negb ((type <? 0) || (type =? ndn_ContentType_BLOB)) then
    if is_known_contentType type then writeNonNegativeIntegerTlv ndn_Tlv_ContentType type
    else if type =? ndn_ContentType_OTHER_CODE then
      writeNonNegativeIntegerTlv ndn_Tlv_ContentType (wrap64 (mi_otherTypeCode_ metaInfo))
    else fun _ => Err NDN_ERROR_unrecognized_ndn_ContentType
  else fun self => Ok self.

(** The length of the FinalBlockId is that of a component with the number of the type's [enum]. *)
Definition encode_finalBlockId (finalBlockId : Component) : writer :=
  if zlen (value_ finalBlockId) >? 0 then
    writeTypeAndLength ndn_Tlv_FinalBlockId
      (sizeOfBlobTlv (type_code (type_ finalBlockId)) (value_ finalBlockId)) >;>
    encodeTlvNameComponent finalBlockId
  else fun self => Ok self.

Definition encodeMetaInfoValue (metaInfo : MetaInfoFields) : writer :=
  encode_contentType metaInfo >;>
  writeOptionalNonNegativeIntegerTlvFromDouble ndn_Tlv_FreshnessPeriod (freshnessPeriod_ metaInfo) >;>
  encode_finalBlockId (finalBlockId_ metaInfo).

(** The type and, for a type that is not known, its code; the code of a known type is left as it was. *)
Definition decoded_contentType (type otherTypeCode : Z) : Z * Z :=
  if (type <? 0) || (type =? ndn_ContentType_BLOB) then (ndn_ContentType_BLOB, otherTypeCode)
  else if is_known_contentType type then (type, otherTypeCode)
  else (ndn_ContentType_OTHER_CODE, type).

Definition decodeMetaInfo (self : MetaInfoFields) : Dec MetaInfoFields :=
  nested ndn_Tlv_MetaInfo (fun endOffset =>
    type ← readOptionalNonNegativeIntegerTlv ndn_Tlv_ContentType endOffset;
    freshnessPeriod ← readOptionalNonNegativeIntegerTlvAsDouble ndn_Tlv_FreshnessPeriod endOffset;
    gotExpectedType ← peekType ndn_Tlv_FinalBlockId endOffset;
    finalBlockId ← (if gotExpectedType : bool
                    then nested ndn_Tlv_FinalBlockId (fun _ => decodeTlvNameComponent)
                    else mret (generic []));
    let '(type, otherTypeCode) := decoded_contentType type (mi_otherTypeCode_ self) in
    mret (mkMetaInfoFields (-1000000) type otherTypeCode freshnessPeriod finalBlockId)).

(** ** Data *)

Record ndn_Data := mkNdnData {
  d_signature : ndn_Signature;
  d_name : Name;
  d_metaInfo : MetaInfoFields;
  d_content : Blob
}.

Definition ndn_Data_initial : ndn_Data :=
  mkNdnData ndn_Signature_initial [] ndn_MetaInfo_initial None.

Definition encodeDataValue (data : ndn_Data) : Out (Z * Z) :=
  signedPortionBeginOffset ← get_encoder_offset;
  _ ← encodeTlvName (d_name data);
  _ ← write (writeNestedTlv ndn_Tlv_MetaInfo (encodeMetaInfoValue (d_metaInfo data)) false);
  _ ← write (writeBlobTlv ndn_Tlv_Content (blob_bytes (d_content data)));
  _ ← write (encodeTlvSignatureInfo (d_signature data));
  signedPortionEndOffset ← get_encoder_offset;
  _ ← write (writeBlobTlv ndn_Tlv_SignatureValue (blob_bytes (sig_signature (d_signature data))));
  mret (signedPortionBeginOffset, signedPortionEndOffset).

Definition encodeTlvData (data : ndn_Data) : Out (Z * Z) :=
  writeNestedTlvOut ndn_Tlv_Data (encodeDataValue data) false.

Definition set_signature (s : ndn_Signature) (signature : list Z) : ndn_Signature :=
  mkSignature (sig_type s) (Some signature) (sig_signatureInfoEncoding s) (sig_genericTypeCode s)
    (sig_keyLocator s) (sig_validityPeriod s).

Definition decodeTlvData (maxComponents maxKeyComponents : Z) (self : ndn_Data) :
    Dec (ndn_Data * (Z * Z)) :=
  nested ndn_Tlv_Data (fun endOffset =>
    signedPortionBeginOffset ← get_offset;
    '(name, _) ← decodeTlvName maxComponents;
    gotExpectedType ← peekType ndn_Tlv_MetaInfo endOffset;
    metaInfo ← (if gotExpectedType : bool then decodeMetaInfo (d_metaInfo self)
                else mret ndn_MetaInfo_initial);
    content ← readOptionalBlob ndn_Tlv_Content endOffset;
    signatureInfo ← decodeTlvSignatureInfo maxKeyComponents;
    signedPortionEndOffset ← get_offset;
    signature ← readBlob ndn_Tlv_SignatureValue;
    mret (mkNdnData (set_signature signatureInfo signature) name metaInfo content,
          (signedPortionBeginOffset, signedPortionEndOffset))).

(** ** What is encoded, and what it decodes to *)

Lemma zlen_value_le t v : zlen v <= zlen (tlv_bytes t v).
Proof. rewrite zlen_tlv_bytes. pose proof (zlen_varNumber_bytes t).
  pose proof (zlen_varNumber_bytes (zlen v)). lia.
Qed.

Lemma blocks_bytes_app_le a b :
  zlen (blocks_bytes a) <= zlen (blocks_bytes (a ++ b)) /\
  zlen (blocks_bytes b) <= zlen (blocks_bytes (a ++ b)).
Proof. rewrite blocks_bytes_app, length_app. lia. Qed.

Lemma blocks_bytes_cons_le b bs :
  zlen b.2 <= zlen (block_bytes b) /\ zlen (block_bytes b) <= zlen (blocks_bytes (b :: bs)) /\
  zlen (blocks_bytes bs) <= zlen (blocks_bytes (b :: bs)).
Proof.
  rewrite blocks_bytes_cons, length_app. pose proof (zlen_value_le b.1 b.2). unfold block_bytes. lia.
Qed.

(** Key locators. *)
Definition keyLocator_blocks (k : KeyLocatorValue) : list Block :=
  match kl_type_ k.1 with
  | KL_NONE => []
  | KEYNAME => [name_block k.2]
  | KEY_LOCATOR_DIGEST => [(ndn_Tlv_KeyLocatorDigest, blob_bytes (keyData_ k.1))]
  end.

Definition keyLocator_ok (max : Z) (k : KeyLocatorValue) : Prop :=
  match kl_type_ k.1 with
  | KL_NONE => True
  | KEYNAME => Forall component_ok k.2 /\ zlen k.2 <= max
  | KEY_LOCATOR_DIGEST => blob_bytes (keyData_ k.1) <> []
  end.

(** Only the field that the type speaks of is on the wire. *)
Definition keyLocator_decoded (k : KeyLocatorValue) : KeyLocatorValue :=
  match kl_type_ k.1 with
  | KL_NONE => ndn_KeyLocator_initial
  | KEYNAME => (mkKeyLocatorFields KEYNAME None, k.2)
  | KEY_LOCATOR_DIGEST =>
      (mkKeyLocatorFields KEY_LOCATOR_DIGEST (Some (blob_bytes (keyData_ k.1))), [])
  end.

Lemma keyLocator_types k : Forall type_ok (keyLocator_blocks k).
Proof. unfold keyLocator_blocks. destruct (kl_type_ k.1); block_types. Qed.

Lemma emits_keyLocator max k :
  keyLocator_ok max k -> zlen (blocks_bytes (keyLocator_blocks k)) < 2 ^ 64 ->
  Emits (encodeTlvKeyLocatorValue k) (blocks_bytes (keyLocator_blocks k)).
Proof.
  unfold keyLocator_ok, keyLocator_blocks, encodeTlvKeyLocatorValue.
  destruct (kl_type_ k.1); intros Hk; rewrite ?blocks_bytes_one; intros Hl.
  - apply emits_nothing.
  - now apply emits_name.
  - destruct (Z.gtb_spec (zlen (blob_bytes (keyData_ k.1))) 0); [now apply emits_writeBlobTlv |].
    destruct (blob_bytes _); [easy | cbn in *; lia].
Qed.

Lemma reads_keyLocator max t k e bs :
  keyLocator_ok max k ->
  Reads (decodeTlvKeyLocator max t) (keyLocator_decoded k) e
    ((t, blocks_bytes (keyLocator_blocks k)) :: bs) bs.
Proof.
  intros Hk. apply reads_nested; [apply keyLocator_types |]. intros e1.
  eapply reads_bind; [apply reads_offset |]. cbv beta.
  unfold keyLocator_ok, keyLocator_blocks, keyLocator_decoded in *.
  destruct (kl_type_ k.1).
  - cbn [blocks_bytes map concat length]. rewrite Z.sub_0_r, Z.eqb_refl. apply reads_ret.
  - destruct Hk as [Hn Hm]. pose proof (zlen_block_bytes (name_block k.2)) as Hlen.
    rewrite blocks_bytes_one. unfold block_bytes in Hlen.
    rewrite (proj2 (Z.eqb_neq _ _)) by lia.
    eapply reads_bind; [apply reads_peek_same |]. cbv beta iota.
    eapply reads_bind; [now apply reads_name |]. cbv beta iota. apply reads_ret.
  - pose proof (zlen_block_bytes (ndn_Tlv_KeyLocatorDigest, blob_bytes (keyData_ k.1))) as Hlen.
    rewrite blocks_bytes_one. unfold block_bytes in Hlen.
    rewrite (proj2 (Z.eqb_neq _ _)) by lia.
    eapply reads_bind; [now apply reads_peek_other |]. cbv beta iota.
    eapply reads_bind; [apply reads_peek_same |]. cbv beta iota.
    eapply reads_bind; [apply reads_blob | apply reads_ret].
Qed.

(** Validity periods. *)
Definition period_value (p : Period) : list Block :=
  [(ndn_Tlv_ValidityPeriod_NotBefore, iso_string p.1);
   (ndn_Tlv_ValidityPeriod_NotAfter, iso_string p.2)].
Definition period_blocks (p : Period) : list Block :=
  if ValidityPeriod_hasPeriod p
  then [(ndn_Tlv_ValidityPeriod_ValidityPeriod, blocks_bytes (period_value p))] else [].

Lemma period_types p : Forall type_ok (period_blocks p) /\ Forall type_ok (period_value p).
Proof.
  unfold period_blocks, period_value. destruct (ValidityPeriod_hasPeriod p); split; block_types.
Qed.

Lemma emits_time t ms :
  encodable_time ms -> Emits (encode_time t ms) (tlv_bytes t (iso_string ms)).
Proof.
  intros H. destruct (iso_string_ok ms H) as (E & Hl & _). unfold encode_time. rewrite E.
  pose proof (emits_writeOptionalBlobTlv t (Some (iso_string ms))) as He. cbn [default] in He.
  destruct (iso_string ms) as [| c s]; [easy |]. apply He. rewrite zlen_tlv_bytes.
  pose proof (zlen_varNumber_bytes t). pose proof (zlen_varNumber_bytes (zlen (c :: s))). cbn -[Z.pow] in *. lia.
Qed.

Lemma emits_period p :
  encodable_period p -> Emits (encode_validityPeriod p) (blocks_bytes (period_blocks p)).
Proof.
  unfold encode_validityPeriod, period_blocks. intros [-> | [H1 H2]].
  - rewrite no_period_none. apply emits_nothing.
  - rewrite encodable_period_has by easy. rewrite blocks_bytes_one. cbn [fst snd].
    apply (emits_writeNestedTlv _ _ _ false). unfold encodeValidityPeriodValue, period_value.
    rewrite blocks_bytes_cons, blocks_bytes_one. cbn [fst snd].
    apply emits_andThen; now apply emits_time.
Qed.

Lemma reads_time t ms e bs :
  encodable_time ms -> Reads (decode_time t) ms e ((t, iso_string ms) :: bs) bs.
Proof.
  intros H. destruct (iso_string_ok ms H) as (_ & Hl & E). eapply reads_bind; [apply reads_blob |].
  cbv beta. rewrite Hl. cbn [Z.gtb Z.compare]. rewrite E. intros d rest Hd. now exists d.
Qed.

Lemma reads_optional_period p e bs :
  encodable_period p -> other_type ndn_Tlv_ValidityPeriod_ValidityPeriod bs ->
  Reads (decode_optional_validityPeriod e) p e (period_blocks p ++ bs) bs.
Proof.
  unfold period_blocks. intros [-> | [H1 H2]] Ho.
  - rewrite no_period_none. eapply reads_bind; [now apply reads_peek_other | apply reads_ret].
  - rewrite encodable_period_has by easy. eapply reads_bind; [apply reads_peek_same |]. cbv beta iota.
    apply reads_nested; [apply period_types |]. intros e1.
    eapply reads_bind; [now apply reads_time |]. eapply reads_bind; [now apply reads_time |].
    destruct p. apply reads_ret.
Qed.

(** Signature info. *)
Definition signature_value (s : ndn_Signature) : list Block :=
  nni_block ndn_Tlv_SignatureType (sig_type s) ::
  (if has_keyLocator (sig_type s)
   then [(ndn_Tlv_KeyLocator, blocks_bytes (keyLocator_blocks (sig_keyLocator s)))] else []) ++
  period_blocks (sig_validityPeriod s).

(** A generic signature has its encoding: a signature info of another type with any blocks after it. *)
Definition generic_block (s : ndn_Signature) (b : Block) : Prop :=
  exists t extra, b = (ndn_Tlv_SignatureInfo, blocks_bytes (nni_block ndn_Tlv_SignatureType t :: extra)) /\
    sig_signatureInfoEncoding s = Some (block_bytes b) /\ sig_genericTypeCode s = to_int32 t /\
    0 <= t < 2 ^ 64 /\ has_keyLocator t = false /\ t <> ndn_SignatureType_DigestSha256Signature /\
    Forall type_ok extra.

(** The block of a signature that can be encoded. *)
Definition signature_block (max : Z) (s : ndn_Signature) (b : Block) : Prop :=
  sig_type s = ndn_SignatureType_Generic /\ generic_block s b \/
  b = (ndn_Tlv_SignatureInfo, blocks_bytes (signature_value s)) /\ encodable_period (sig_validityPeriod s) /\
  (has_keyLocator (sig_type s) = true /\ keyLocator_ok max (sig_keyLocator s) \/
   sig_type s = ndn_SignatureType_DigestSha256Signature).

Definition signature_decoded (s : ndn_Signature) : ndn_Signature :=
  if sig_type s =? ndn_SignatureType_Generic then
    mkSignature ndn_SignatureType_Generic None (sig_signatureInfoEncoding s) (sig_genericTypeCode s)
      ndn_KeyLocator_initial no_period
  else if has_keyLocator (sig_type s) then
    mkSignature (sig_type s) None None (-1) (keyLocator_decoded (sig_keyLocator s)) (sig_validityPeriod s)
  else mkSignature ndn_SignatureType_DigestSha256Signature None None (-1) ndn_KeyLocator_initial
         (sig_validityPeriod s).

Lemma has_keyLocator_cases t :
  has_keyLocator t = true -> t = 1 \/ t = 3 \/ t = 4.
Proof.
  unfold has_keyLocator, ndn_SignatureType_Sha256WithRsaSignature,
    ndn_SignatureType_Sha256WithEcdsaSignature, ndn_SignatureType_HmacWithSha256Signature.
  rewrite !orb_true_iff, !Z.eqb_eq. lia.
Qed.

Lemma signature_value_types s : Forall type_ok (signature_value s).
Proof.
  unfold signature_value. pose proof (proj1 (period_types (sig_validityPeriod s))).
  destruct (has_keyLocator (sig_type s)); block_types; easy.
Qed.

(** The test decoding succeeds, and so does the reading of a generic signature info. *)
Lemma test_signatureInfo_ok s b :
  generic_block s b -> zlen (block_bytes b) < 2 ^ 63 ->
  exists d, test_signatureInfo (TlvDecoder_initialize (block_bytes b)) = Ok (tt, d).
Proof.
  intros (t & extra & -> & _ & _ & Ht & _ & _ & Hx) Hl.
  pose proof (at_decoder_at [] (ndn_Tlv_SignatureInfo, blocks_bytes (nni_block ndn_Tlv_SignatureType t :: extra)) [])
    as Hat. cbn [app length] in Hat. rewrite app_nil_r in Hat.
  specialize (Hat Hl ltac:(block_types)).
  unfold decoder_at in Hat. cbn [app length] in Hat. rewrite app_nil_r in Hat.
  destruct (at_inside _ _ _ _ _ _ Hat) as (d1 & e1 & H1 & Hd1 & _).
  { now apply List.Forall_cons; [block_types |]. }
  destruct (reads_nni ndn_Tlv_SignatureType t e1 extra Ht d1 _ Hd1) as (d2 & H2 & Hd2 & _).
  destruct (reads_skip_all e1 extra d2 _ Hd2) as (d3 & H3 & _). exists d3.
  unfold test_signatureInfo. change (TlvDecoder_initialize (block_bytes ?b)) with
    (mkDecoder (block_bytes b) 0).
  now rewrite (dec_bind_ok _ _ _ _ _ H1), (dec_bind_ok _ _ _ _ _ H2).
Qed.

Lemma emits_signatureInfo max s b :
  signature_block max s b -> zlen (block_bytes b) < 2 ^ 63 ->
  Emits (encodeTlvSignatureInfo s) (block_bytes b).
Proof.
  unfold encodeTlvSignatureInfo. intros [[Hg Hb] | (-> & Hp & Hs)] Hl.
  - rewrite Hg. destruct (test_signatureInfo_ok s b Hb Hl) as (d & Hd).
    destruct Hb as (t & extra & Heq & -> & _). rewrite Z.eqb_refl.
    change (blob_bytes (Some (block_bytes b))) with (block_bytes b). rewrite Hd. apply emits_writeArray.
  - pose proof (blocks_bytes_cons_le (ndn_Tlv_SignatureInfo, blocks_bytes (signature_value s)) []) as Hle.
    cbn [snd] in Hle. unfold block_bytes. cbn [fst snd].
    replace (sig_type s =? ndn_SignatureType_Generic) with false.
    2: { symmetry. apply Z.eqb_neq. unfold ndn_SignatureType_Generic.
         destruct Hs as [[Hs _] | Hs]; [apply has_keyLocator_cases in Hs; lia | now rewrite Hs]. }
    pose proof (emits_period _ Hp) as He. destruct Hs as [[Hk Hkl] | Hd].
    + rewrite Hk. apply (emits_writeNestedTlv _ _ _ false).
      unfold signature_value in *. rewrite Hk in *. cbn [app] in *.
      set (kb := (ndn_Tlv_KeyLocator, blocks_bytes (keyLocator_blocks (sig_keyLocator s)))) in *.
      pose proof (blocks_bytes_cons_le (nni_block ndn_Tlv_SignatureType (sig_type s))
        (kb :: period_blocks (sig_validityPeriod s))).
      pose proof (blocks_bytes_cons_le kb (period_blocks (sig_validityPeriod s))).
      rewrite !blocks_bytes_cons. apply emits_andThen; [apply emits_writeNonNegativeIntegerTlv |].
      apply emits_andThen; [| easy]. apply (emits_writeNestedTlv _ _ _ false).
      apply (emits_keyLocator max); [easy |]. subst kb. cbn [snd] in *. lia.
    + rewrite Hd. change (has_keyLocator ndn_SignatureType_DigestSha256Signature) with false.
      rewrite Z.eqb_refl. cbn iota. apply (emits_writeNestedTlv _ _ _ false).
      unfold signature_value. rewrite Hd.
      change (has_keyLocator ndn_SignatureType_DigestSha256Signature) with false. cbn [app].
      rewrite blocks_bytes_cons. apply emits_andThen; [apply emits_writeNonNegativeIntegerTlv | easy].
Qed.

Lemma reads_optional_period_end p e : encodable_period p -> Reads (decode_optional_validityPeriod e) p e (period_blocks p) [].
Proof. intros H. rewrite <- (app_nil_r (period_blocks p)). now apply reads_optional_period. Qed.

Lemma reads_signatureInfo max s b e bs :
  signature_block max s b ->
  Reads (decodeTlvSignatureInfo max) (signature_decoded s) e (b :: bs) bs.
Proof.
  intros [[Hg (t & extra & -> & Henc & Hcode & Ht & Hk & Hd & Hx)] | (-> & Hp & Hs)].
  - (* The offset of the beginning of the block is needed for its bytes. *)
    intros d rest Hat.
    destruct (at_inside _ _ _ _ _ _ Hat) as (d1 & e1 & H1 & Hd1 & Hi1 & He1 & Hout).
    { now apply List.Forall_cons; [block_types |]. }
    destruct (reads_nni ndn_Tlv_SignatureType t e1 extra Ht d1 _ Hd1) as (d2 & H2 & Hd2 & Hi2).
    destruct (reads_skip_all e1 extra d2 _ Hd2) as (d3 & H3 & Hd3 & Hi3).
    exists d3. split; [| split; [now apply Hout | congruence]].
    unfold decodeTlvSignatureInfo, nested. rewrite (dec_bind_ok get_offset _ _ _ _ eq_refl).
    rewrite (dec_bind_ok _ _ _ _ _ H1).
    rewrite (dec_bind_ok _ _ _ (mkSignature ndn_SignatureType_Generic None
      (sig_signatureInfoEncoding s) (to_int32 t) ndn_KeyLocator_initial no_period) d3).
    + rewrite (dec_bind_ok _ _ _ _ _ (finish_at _ _ _ Hd3)). unfold signature_decoded.
      now rewrite Hg, Hcode.
    + rewrite (dec_bind_ok _ _ _ _ _ H2), Hk, (proj2 (Z.eqb_neq _ _) Hd).
      rewrite He1 at 1. cbn [fst snd] in *.
      rewrite (dec_bind_ok _ _ _ _ _ (slice_blob_at _ _ _ _ _ d2 Hat ltac:(congruence))).
      rewrite (dec_bind_ok _ _ _ _ _ H3). now rewrite Henc.
  - unfold decodeTlvSignatureInfo. eapply reads_bind; [apply reads_offset |]. cbv beta.
    apply reads_nested; [apply signature_value_types |]. intros e1.
    unfold signature_value, signature_decoded.
    eapply reads_bind; [apply reads_nni |].
    { destruct Hs as [[Hs _] | ->]; [apply has_keyLocator_cases in Hs; lia | easy]. }
    cbv beta. destruct Hs as [[Hk Hkl] | Hd].
    + rewrite Hk. replace (sig_type s =? ndn_SignatureType_Generic) with false.
      2: { symmetry. apply Z.eqb_neq. unfold ndn_SignatureType_Generic.
           apply has_keyLocator_cases in Hk. lia. }
      cbn [app]. eapply reads_bind; [now apply reads_keyLocator |]. cbv beta.
      eapply reads_bind; [now apply reads_optional_period_end | apply reads_ret].
    + rewrite Hd. change (has_keyLocator ndn_SignatureType_DigestSha256Signature) with false.
      cbn [app]. eapply reads_bind; [now apply reads_optional_period_end | apply reads_ret].
Qed.

(** MetaInfo. *)
Definition contentType_code (m : MetaInfoFields) : Z :=
  if (mi_type_ m <? 0) || (mi_type_ m =? ndn_ContentType_BLOB) then -1
  else if is_known_contentType (mi_type_ m) then mi_type_ m else mi_otherTypeCode_ m.

Definition finalBlockId_blocks (c : Component) : list Block :=
  if zlen (value_ c) >? 0 then [(ndn_Tlv_FinalBlockId, block_bytes (component_block c))] else [].

Definition metaInfo_value (m : MetaInfoFields) : list Block :=
  opt_nni ndn_Tlv_ContentType (contentType_code m) ++
  opt_double ndn_Tlv_FreshnessPeriod (freshnessPeriod_ m) ++ finalBlockId_blocks (finalBlockId_ m).

(** The final block ID of a C++ packet is generic: its type is lost in [MetaInfo::get]. *)
Record metaInfo_ok (m : MetaInfoFields) : Prop := {
  mi_type_ok : mi_type_ m <= 0 \/ is_known_contentType (mi_type_ m) = true \/
    mi_type_ m = ndn_ContentType_OTHER_CODE /\ 0 <= mi_otherTypeCode_ m < 2 ^ 31;
  mi_freshness_ok : freshnessPeriod_ m < 2 ^ 63;
  mi_finalBlockId_ok : component_ok (finalBlockId_ m);
  mi_finalBlockId_type : type_ (finalBlockId_ m) <> OTHER_CODE
}.

Definition metaInfo_decoded (self m : MetaInfoFields) : MetaInfoFields :=
  let '(type, otherTypeCode) := decoded_contentType (contentType_code m) (mi_otherTypeCode_ self) in
  mkMetaInfoFields (-1000000) type otherTypeCode
    (if freshnessPeriod_ m >=? 0 then (freshnessPeriod_ m + 500000) / 1000000 * 1000000 else -1000000)
    (if zlen (value_ (finalBlockId_ m)) >? 0 then finalBlockId_ m else generic []).

Lemma is_known_contentType_cases t : is_known_contentType t = true -> 1 <= t <= 3.
Proof.
  unfold is_known_contentType, ndn_ContentType_LINK, ndn_ContentType_KEY, ndn_ContentType_NACK.
  rewrite !orb_true_iff, !Z.eqb_eq. lia.
Qed.

Lemma contentType_code_range m : metaInfo_ok m -> -1 <= contentType_code m < 2 ^ 31.
Proof.
  intros [Ht _ _ _]. unfold contentType_code, ndn_ContentType_BLOB in *.
  destruct (Z.ltb_spec (mi_type_ m) 0), (Z.eqb_spec (mi_type_ m) 0); cbn [orb]; try lia.
  destruct (is_known_contentType (mi_type_ m)) eqn:Hk.
  - apply is_known_contentType_cases in Hk. lia.
  - destruct Ht as [| [|]]; lia || easy.
Qed.

Lemma emits_contentType m :
  metaInfo_ok m ->
  Emits (encode_contentType m) (blocks_bytes (opt_nni ndn_Tlv_ContentType (contentType_code m))).
Proof.
  intros Hm. pose proof (contentType_code_range m Hm) as Hr. pose proof Hm as [Ht _ _ _].
  pose proof (emits_opt_nni ndn_Tlv_ContentType (contentType_code m)) as He.
  unfold encode_contentType, contentType_code, writeOptionalNonNegativeIntegerTlv in *.
  destruct ((mi_type_ m <? 0) || (mi_type_ m =? ndn_ContentType_BLOB)) eqn:Hb; cbn [negb]; [exact He |].
  rewrite orb_false_iff, Z.ltb_ge, Z.eqb_neq in Hb. unfold ndn_ContentType_BLOB in *.
  destruct (is_known_contentType (mi_type_ m)) eqn:Hk.
  - destruct (Z.geb_spec (mi_type_ m) 0); [exact He | lia].
  - destruct Ht as [Ht | [Ht | [Ht Ho]]]; [lia | easy |].
    rewrite (proj2 (Z.eqb_eq _ _) Ht), wrap64_small by lia.
    destruct (Z.geb_spec (mi_otherTypeCode_ m) 0); [exact He | lia].
Qed.

Lemma sizeOfBlobTlv_block c :
  component_ok c -> zlen (block_bytes (component_block c)) < 2 ^ 64 ->
  sizeOfBlobTlv (component_tlv_type c) (value_ c) = zlen (block_bytes (component_block c)).
Proof.
  intros Hc Hl. unfold block_bytes, component_block, sizeOfBlobTlv in *. cbn [fst snd] in *.
  rewrite zlen_tlv_bytes in *. rewrite !sizeOfVarNumber_bytes.
  rewrite wrap64_small; [easy |]. pose proof (zlen_varNumber_bytes (component_tlv_type c)).
  pose proof (zlen_varNumber_bytes (zlen (value_ c))). lia.
Qed.

Lemma emits_finalBlockId c :
  component_ok c -> type_ c <> OTHER_CODE -> zlen (blocks_bytes (finalBlockId_blocks c)) < 2 ^ 64 ->
  Emits (encode_finalBlockId c) (blocks_bytes (finalBlockId_blocks c)).
Proof.
  intros Hc Ht. unfold encode_finalBlockId, finalBlockId_blocks.
  destruct (zlen (value_ c) >? 0); [| intros; apply emits_nothing].
  rewrite blocks_bytes_one. cbn [fst snd]. intros Hl.
  pose proof (zlen_value_le ndn_Tlv_FinalBlockId (block_bytes (component_block c))).
  replace (type_code (type_ c)) with (component_tlv_type c)
    by (unfold component_tlv_type; destruct (type_ c); easy).
  rewrite (sizeOfBlobTlv_block c Hc) by lia. unfold tlv_bytes. rewrite app_assoc.
  apply emits_andThen; [apply emits_writeTypeAndLength | apply emits_component; [easy | lia]].
Qed.

Lemma emits_metaInfo m :
  metaInfo_ok m -> zlen (blocks_bytes (metaInfo_value m)) < 2 ^ 64 ->
  Emits (encodeMetaInfoValue m) (blocks_bytes (metaInfo_value m)).
Proof.
  intros Hm. unfold encodeMetaInfoValue, metaInfo_value. rewrite !blocks_bytes_app, !length_app. intros Hl.
  pose proof Hm as [_ _ Hc Ht].
  apply emits_andThen; [now apply emits_contentType |].
  apply emits_andThen; [apply emits_opt_double | apply emits_finalBlockId; easy || lia].
Qed.

Lemma metaInfo_types m : Forall type_ok (metaInfo_value m).
Proof. unfold metaInfo_value, finalBlockId_blocks. destruct (_ >? 0); block_types. Qed.

Lemma reads_finalBlockId c e bs :
  component_ok c -> other_type ndn_Tlv_FinalBlockId bs ->
  Reads (gotExpectedType ← peekType ndn_Tlv_FinalBlockId e;
         if gotExpectedType : bool then nested ndn_Tlv_FinalBlockId (fun _ => decodeTlvNameComponent)
         else mret (generic []))
    (if zlen (value_ c) >? 0 then c else generic []) e (finalBlockId_blocks c ++ bs) bs.
Proof.
  intros Hc Ho. unfold finalBlockId_blocks. destruct (zlen (value_ c) >? 0).
  - eapply reads_bind; [apply reads_peek_same |]. cbv beta iota. cbn [app].
    replace (block_bytes (component_block c)) with (blocks_bytes [component_block c])
      by apply blocks_bytes_one.
    apply reads_nested; [| intros e1; now apply reads_component].
    apply List.Forall_cons; [| apply List.Forall_nil].
    pose proof (component_tlv_type_ok c Hc). unfold type_ok. cbn. lia.
  - eapply reads_bind; [now apply reads_peek_other | apply reads_ret].
Qed.

Lemma reads_assoc {A B C} (m : Dec A) (f : A -> Dec B) (g : B -> Dec C) c e bs bs' :
  Reads ((m ≫= f) ≫= g) c e bs bs' -> Reads (m ≫= fun a => f a ≫= g) c e bs bs'.
Proof.
  intros H d rest Hd. destruct (H d rest Hd) as (d' & He & Hat).
  exists d'. split; [| easy]. rewrite <- He. unfold mbind, Dec_bind. now destruct (m d) as [[] |].
Qed.

Lemma reads_metaInfo self m e bs :
  metaInfo_ok m ->
  Reads (decodeMetaInfo self) (metaInfo_decoded self m) e
    ((ndn_Tlv_MetaInfo, blocks_bytes (metaInfo_value m)) :: bs) bs.
Proof.
  intros Hm. pose proof (contentType_code_range m Hm) as Hr. pose proof Hm as [_ Hf Hc _].
  apply reads_nested; [apply metaInfo_types |]. intros e1. unfold metaInfo_value.
  eapply reads_bind; [apply reads_opt_nni; [lia | unfold finalBlockId_blocks; destruct (_ >? 0); block_types] |].
  replace (if contentType_code m >=? 0 then contentType_code m else -1) with (contentType_code m)
    by (destruct (Z.geb_spec (contentType_code m) 0); lia).
  cbv beta.
  eapply reads_bind; [apply reads_opt_double; [lia | unfold finalBlockId_blocks; destruct (_ >? 0); block_types] |].
  cbv beta. apply reads_assoc. rewrite <- (app_nil_r (finalBlockId_blocks _)).
  eapply reads_bind; [now apply reads_finalBlockId |]. cbv beta. unfold metaInfo_decoded.
  destruct (decoded_contentType _ _). apply reads_ret.
Qed.

(** ** Data packets *)

(** The blocks of a Data packet whose signature info is the block [b]: those that are signed, and all. *)
Definition data_signed (d : ndn_Data) (b : Block) : list Block :=
  [name_block (d_name d); (ndn_Tlv_MetaInfo, blocks_bytes (metaInfo_value (d_metaInfo d)));
   (ndn_Tlv_Content, blob_bytes (d_content d)); b].
Definition data_value_blocks (d : ndn_Data) (b : Block) : list Block :=
  data_signed d b ++ [(ndn_Tlv_SignatureValue, blob_bytes (sig_signature (d_signature d)))].
Definition data_block (d : ndn_Data) (b : Block) : Block :=
  (ndn_Tlv_Data, blocks_bytes (data_value_blocks d b)).

Record data_ok (max maxKey : Z) (d : ndn_Data) (b : Block) : Prop := {
  data_name_ok : Forall component_ok (d_name d);
  data_name_fits : zlen (d_name d) <= max;
  data_metaInfo_ok : metaInfo_ok (d_metaInfo d);
  data_signature_ok : signature_block maxKey (d_signature d) b
}.

(** What a decoder that starts with the structure [self] makes of the packet: fields that the type
    does not use are lost, a null blob comes back empty, durations are whole milliseconds. *)
Definition data_decoded (self d : ndn_Data) : ndn_Data :=
  mkNdnData (set_signature (signature_decoded (d_signature d)) (blob_bytes (sig_signature (d_signature d))))
    (d_name d) (metaInfo_decoded (d_metaInfo self) (d_metaInfo d)) (Some (blob_bytes (d_content d))).

Lemma signature_block_type max s b : signature_block max s b -> b.1 = ndn_Tlv_SignatureInfo.
Proof. intros [(_ & t & extra & -> & _) | [-> _]]; easy. Qed.

Lemma data_types d b : b.1 = ndn_Tlv_SignatureInfo -> Forall type_ok (data_value_blocks d b).
Proof. intros Hb. unfold data_value_blocks, data_signed. block_types; rewrite Hb; block_types. Qed.

Lemma data_lens d b :
  let l := zlen (blocks_bytes (data_value_blocks d b)) in
  zlen (blocks_bytes (data_signed d b)) <= l /\
  zlen (name_tlv (d_name d)) <= l /\
  zlen (blocks_bytes (metaInfo_value (d_metaInfo d))) <= l /\
  zlen (tlv_bytes ndn_Tlv_Content (blob_bytes (d_content d))) <= l /\ zlen (block_bytes b) <= l /\
  zlen (tlv_bytes ndn_Tlv_SignatureValue (blob_bytes (sig_signature (d_signature d)))) <= l.
Proof.
  unfold data_value_blocks, data_signed. cbv zeta. rewrite blocks_bytes_app, blocks_bytes_one.
  rewrite !blocks_bytes_cons, !length_app. cbn [fst snd blocks_bytes map concat length].
  pose proof (zlen_value_le ndn_Tlv_MetaInfo (blocks_bytes (metaInfo_value (d_metaInfo d)))).
  unfold name_tlv, block_bytes. repeat split; lia.
Qed.

Lemma emits_data_value max maxKey d b :
  data_ok max maxKey d b -> zlen (blocks_bytes (data_value_blocks d b)) < 2 ^ 63 ->
  Emits (only (encodeDataValue d)) (blocks_bytes (data_value_blocks d b)).
Proof.
  intros [Hn _ Hm Hs] Hl. pose proof (data_lens d b) as (Hl0 & Hl1 & Hl2 & Hl3 & Hl4 & Hl5).
  unfold data_value_blocks, data_signed, encodeDataValue. cbn [app].
  rewrite !blocks_bytes_cons. cbn [fst snd].
  apply emits_offset_bind. intros o.
  apply emits_bind; [apply emits_name; [easy | lia] |]. intros _.
  apply emits_bind; [apply emits_write, (emits_writeNestedTlv _ _ _ false), emits_metaInfo; easy || lia |].
  intros _. apply emits_bind; [apply emits_write, emits_writeBlobTlv; lia |]. intros _.
  apply emits_bind; [apply emits_write, (emits_signatureInfo maxKey); easy || lia |]. intros _.
  apply emits_offset_bind. intros o'. apply emits_bind; [apply emits_write, emits_writeBlobTlv; lia |].
  intros _. apply emits_ret.
Qed.

Lemma returns_data_value max maxKey d b o :
  data_ok max maxKey d b -> zlen (blocks_bytes (data_value_blocks d b)) < 2 ^ 63 ->
  Returns o (encodeDataValue d) (blocks_bytes (data_value_blocks d b))
    (o, o + zlen (blocks_bytes (data_signed d b))).
Proof.
  intros [Hn _ Hm Hs] Hl. pose proof (data_lens d b) as (Hl0 & Hl1 & Hl2 & Hl3 & Hl4 & Hl5).
  unfold data_value_blocks, data_signed, encodeDataValue. cbn [app].
  rewrite !blocks_bytes_cons. cbn [fst snd].
  apply returns_offset_bind.
  eapply returns_bind; [apply emits_name; [easy | lia] | apply returns_name; [easy | lia] |].
  eapply returns_bind;
    [apply emits_write, (emits_writeNestedTlv _ _ _ false), emits_metaInfo; easy || lia | apply returns_write |].
  eapply returns_bind; [apply emits_write, emits_writeBlobTlv; lia | apply returns_write |].
  eapply returns_bind; [apply emits_write, (emits_signatureInfo maxKey); easy || lia | apply returns_write |].
  apply returns_offset_bind.
  eapply returns_bind; [apply emits_write, emits_writeBlobTlv; lia | apply returns_write |].
  match goal with |- Returns _ (mret (_, ?x)) _ (_, ?y) => replace x with y; [apply returns_ret |] end.
  unfold name_tlv, block_bytes, blocks_bytes. cbn [map concat length fst snd]. rewrite !length_app.
  unfold block_bytes. cbn [length fst snd]. lia.
Qed.

Lemma reads_data max maxKey self d b e bs :
  data_ok max maxKey d b ->
  let s := e - zlen (blocks_bytes bs) - zlen (blocks_bytes (data_value_blocks d b)) in
  Reads (decodeTlvData max maxKey self)
    (data_decoded self d, (s, s + zlen (blocks_bytes (data_signed d b)))) e (data_block d b :: bs) bs.
Proof.
  intros [Hn Hf Hm Hs]. cbv zeta.
  apply (reads_nested_at _ _ (fun e => (data_decoded self d,
    (e - zlen (blocks_bytes (data_value_blocks d b)),
     e - zlen (blocks_bytes (data_value_blocks d b)) + zlen (blocks_bytes (data_signed d b)))))).
  { now apply data_types, (signature_block_type maxKey (d_signature d)). }
  intros e1. pose proof (signature_block_type _ _ _ Hs) as Hb.
  eapply reads_bind; [apply reads_offset |]. cbv beta.
  set (s := e1 - _). unfold data_value_blocks, data_signed. cbn [app].
  eapply reads_bind; [now apply reads_name |]. cbv beta iota.
  eapply reads_bind; [apply reads_peek_same |]. cbv beta iota.
  eapply reads_bind; [now apply reads_metaInfo |]. cbv beta.
  eapply reads_bind; [apply reads_optional_blob |]. cbv beta.
  eapply reads_bind; [exact (reads_signatureInfo _ _ _ _ _ Hs) |]. cbv beta.
  eapply reads_bind; [apply reads_offset |]. cbv beta.
  eapply reads_bind; [apply reads_blob |]. cbv beta.
  match goal with |- Reads (mret (_, (_, ?x))) (_, (_, ?y)) _ _ _ => replace x with y; [apply reads_ret |] end.
  subst s. unfold data_value_blocks. rewrite blocks_bytes_app, length_app. unfold data_signed. lia.
Qed.

(** A Data packet on the wire. A packet with well formed names, whose signature can be encoded, is
    encoded and then decoded, anywhere in a message, as the same packet, but for the fields that
    have no place on the wire. Both sides report the same signed portion, which is the name, the
    meta info, the content and the signature info: what is signed is what is verified. *)
Lemma data_roundtrip_at (max maxKey n : Z) (self d : ndn_Data) (b : Block) (pre rest : list Z) :
  data_ok max maxKey d b -> 0 <= n < 2 ^ 63 ->
  zlen (pre ++ block_bytes (data_block d b) ++ rest) < 2 ^ 63 ->
  exists bs begin end_, run_out n (encodeTlvData d) = Ok (bs, (begin, end_)) /\
    decodeTlvData max maxKey self (decoder_at pre bs rest)
    = Ok (data_decoded self d, (zlen pre + begin, zlen pre + end_),
          mkDecoder (pre ++ bs ++ rest) (zlen pre + zlen bs)) /\
    sub_bytes bs begin (end_ - begin) = blocks_bytes (data_signed d b).
Proof.
  intros Hok Hn Hl. set (value := blocks_bytes (data_value_blocks d b)).
  assert (Hs : zlen (block_bytes (data_block d b)) < 2 ^ 63) by (rewrite !length_app in Hl; lia).
  pose proof (zlen_tlv_header ndn_Tlv_Data value) as Hh. unfold block_bytes, data_block in Hs, Hl.
  cbn [fst snd] in Hs, Hl. fold value in Hs, Hl.
  pose proof (zlen_value_le ndn_Tlv_Data value) as Hv.
  set (h := header_size ndn_Tlv_Data (zlen value)) in *.
  exists (tlv_bytes ndn_Tlv_Data value), h, (h + zlen (blocks_bytes (data_signed d b))).
  assert (He : Emits (only (encodeDataValue d)) value) by (apply (emits_data_value max maxKey); subst value; easy || lia).
  split; [| split].
  - apply run_out_ok; [easy | now apply (emits_nested_out _ _ _ false) | | easy].
    apply returns_nested; [exact He |]. rewrite Z.add_0_l. fold h.
    apply (returns_data_value max maxKey); subst value; easy || lia.
  - apply (reads_decoder_at _ _ pre (ndn_Tlv_Data, value)); [easy | block_types |].
    pose proof (reads_data max maxKey self d b
      (zlen pre + zlen (block_bytes (data_block d b))) [] Hok) as H. cbv zeta in H.
    unfold block_bytes, data_block in *. cbn [fst snd blocks_bytes map concat length] in H |- *.
    fold value in H |- *. rewrite Hh in H |- *.
    replace (zlen pre + (h + zlen value) - Z.of_nat 0 - zlen value) with (zlen pre + h) in H by lia.
    now rewrite Z.add_assoc.
  - subst h value. unfold data_value_blocks. rewrite blocks_bytes_app. apply sub_bytes_value. lia.
Qed.

(** A packet alone in its buffer. *)
Lemma data_roundtrip_here max maxKey n self d b :
  data_ok max maxKey d b -> 0 <= n < 2 ^ 63 -> zlen (block_bytes (data_block d b)) < 2 ^ 63 ->
  exists bs begin end_, run_out n (encodeTlvData d) = Ok (bs, (begin, end_)) /\
    decodeTlvData max maxKey self (TlvDecoder_initialize bs)
    = Ok (data_decoded self d, (begin, end_), mkDecoder bs (zlen bs)) /\
    sub_bytes bs begin (end_ - begin) = blocks_bytes (data_signed d b).
Proof.
  intros Hok Hn Hl.
  destruct (data_roundtrip_at max maxKey n self d b [] [] Hok Hn) as (bs & begin & end_ & H1 & H2 & H3).
  { cbn [app]. now rewrite app_nil_r. }
  exists bs, begin, end_. split; [easy |]. split; [| easy].
  unfold decoder_at in H2. cbn [app length] in H2. rewrite app_nil_r in H2. exact H2.
Qed.

(** A packet signed with RSA, with a validity period, a freshness period and a final block. *)
Definition example_signature : ndn_Signature :=
  mkSignature ndn_SignatureType_Sha256WithRsaSignature (Some [170; 187]) None (-1)
    (mkKeyLocatorFields KEYNAME None, example_name) (1000000000, 1500000000).
Definition example_data : ndn_Data :=
  mkNdnData example_signature example_name
    (mkMetaInfoFields (-1000000) ndn_ContentType_OTHER_CODE 9 10000000000 (generic [0; 7])) (Some [104; 105]).
