(* ===== verification/TlvInterest.v ===== *)
(** * The TLV encoding of Interest packets

    src/c/encoding/tlv/tlv-interest.c over the C structure [ndn_Interest] of
    include/ndn-ind/c/interest-types.h: the formats v0.2 (with selectors) and v0.3, and the decoder
    that tries v0.3 first. *)

From stdpp Require Import base list numbers option.
From Stdlib Require Import ZArith Lia.
From S2P Require Import Prelude Encoder Decoder Blocks Name TlvName Exclude Data TlvData.
Open Scope Z_scope.
Open Scope ndn_scope.

Definition ndn_Tlv_Interest : Z := 5.
Definition ndn_Tlv_Selectors : Z := 9.
Definition ndn_Tlv_Nonce : Z := 10.
Definition ndn_Tlv_InterestLifetime : Z := 12.
Definition ndn_Tlv_MinSuffixComponents : Z := 13.
Definition ndn_Tlv_MaxSuffixComponents : Z := 14.
Definition ndn_Tlv_PublisherPublicKeyLocator : Z := 15.
Definition ndn_Tlv_Exclude : Z := 16.
Definition ndn_Tlv_ChildSelector : Z := 17.
Definition ndn_Tlv_MustBeFresh : Z := 18.
Definition ndn_Tlv_Any : Z := 19.
Definition ndn_Tlv_ForwardingHint : Z := 30.
Definition ndn_Tlv_SelectedDelegation : Z := 32.
Definition ndn_Tlv_CanBePrefix : Z := 33.
Definition ndn_Tlv_HopLimit : Z := 34.
Definition ndn_Tlv_ApplicationParameters : Z := 36.

#[export] Hint Unfold ndn_Tlv_Interest ndn_Tlv_Selectors ndn_Tlv_Nonce ndn_Tlv_InterestLifetime
  ndn_Tlv_MinSuffixComponents ndn_Tlv_MaxSuffixComponents ndn_Tlv_PublisherPublicKeyLocator
  ndn_Tlv_Exclude ndn_Tlv_ChildSelector ndn_Tlv_MustBeFresh ndn_Tlv_Any ndn_Tlv_ForwardingHint
  ndn_Tlv_SelectedDelegation ndn_Tlv_CanBePrefix ndn_Tlv_HopLimit ndn_Tlv_ApplicationParameters : tlv.

(** [ndn_Interest]; the lifetime is in nanoseconds. *)
Record ndn_Interest := mkNdnInterest {
  i_name : Name;
  i_minSuffixComponents : Z;
  i_maxSuffixComponents : Z;
  i_keyLocator : KeyLocatorValue;
  i_exclude : Exclude;
  i_childSelector : Z;
  i_mustBeFresh : bool;
  i_interestLifetime : Z;
  i_nonce : Blob;
  i_forwardingHintWireEncoding : Blob;
  i_applicationParameters : Blob;
  i_linkWireEncoding : Blob;
  i_selectedDelegationIndex : Z
}.

(** [ndn_Interest_getCanBePrefix]. *)
Definition getCanBePrefix (self : ndn_Interest) : bool := negb (i_maxSuffixComponents self =? 1).

(** ** Encoding *)

Definition encode_entry (entry : Entry) : writer :=
  match entry_type entry with
  | EXCLUDE_COMPONENT => encodeTlvNameComponent (entry_component entry)
  | EXCLUDE_ANY => writeTypeAndLength ndn_Tlv_Any 0
  end.

Fixpoint encodeExcludeValue (exclude : Exclude) : writer :=
  match exclude with
  | [] => fun self => Ok self
  | entry :: exclude => encode_entry entry >;> encodeExcludeValue exclude
  end.

Definition encodeSelectorsValue (interest : ndn_Interest) : writer :=
  writeOptionalNonNegativeIntegerTlv ndn_Tlv_MinSuffixComponents (i_minSuffixComponents interest) >;>
  writeOptionalNonNegativeIntegerTlv ndn_Tlv_MaxSuffixComponents (i_maxSuffixComponents interest) >;>
  writeNestedTlv ndn_Tlv_PublisherPublicKeyLocator
    (encodeTlvKeyLocatorValue (i_keyLocator interest)) true >;>
  (if zlen (i_exclude interest) >? 0
   then writeNestedTlv ndn_Tlv_Exclude (encodeExcludeValue (i_exclude interest)) false
   else fun self => Ok self) >;>
  writeOptionalNonNegativeIntegerTlv ndn_Tlv_ChildSelector (i_childSelector interest) >;>
  (if i_mustBeFresh interest then writeTypeAndLength ndn_Tlv_MustBeFresh 0 else fun self => Ok self).

(** The four bytes of the nonce: a shorter one is padded with random bytes, a longer one truncated.
    Each of the two passes of the encoder draws its own [random] bytes; only those of the second are
    written. *)
Definition nonce_bytes (random : list Z) (nonce : Blob) : list Z :=
  let nonce := blob_bytes nonce in
  if zlen nonce =? 0 then take 4 random
  else if zlen nonce <? 4 then nonce ++ take (4 - length nonce) random
  else take 4 nonce.

Definition has_bytes (b : Blob) : bool := zlen (blob_bytes b) >? 0.

Definition encode_forwardingHintV02 (interest : ndn_Interest) : writer :=
  if has_bytes (i_forwardingHintWireEncoding interest) then
    if i_selectedDelegationIndex interest >=? 0 then fun _ =>
      Err NDN_ERROR_An_Interest_may_not_have_a_selected_delegation_when_encoding_a_forwarding_hint
    else
      match i_linkWireEncoding interest with
      | Some _ => fun _ =>
          Err NDN_ERROR_An_Interest_may_not_have_a_link_object_when_encoding_a_forwarding_hint
      | None => writeBlobTlv ndn_Tlv_ForwardingHint (blob_bytes (i_forwardingHintWireEncoding interest))
      end
  else fun self => Ok self.

Definition encode_afterNameV02 (random : list Z) (interest : ndn_Interest) : writer :=
  writeNestedTlv ndn_Tlv_Selectors (encodeSelectorsValue interest) true >;>
  writeBlobTlv ndn_Tlv_Nonce (nonce_bytes random (i_nonce interest)) >;>
  writeOptionalNonNegativeIntegerTlvFromDouble ndn_Tlv_InterestLifetime (i_interestLifetime interest) >;>
  encode_forwardingHintV02 interest >;>
  match i_linkWireEncoding interest with
  | Some link => writeArray link
  | None => fun self => Ok self
  end >;>
  writeOptionalNonNegativeIntegerTlv ndn_Tlv_SelectedDelegation (i_selectedDelegationIndex interest).

Definition encode_afterNameV03 (random : list Z) (interest : ndn_Interest) : writer :=
  (if getCanBePrefix interest then writeTypeAndLength ndn_Tlv_CanBePrefix 0 else fun self => Ok self) >;>
  (if i_mustBeFresh interest then writeTypeAndLength ndn_Tlv_MustBeFresh 0 else fun self => Ok self) >;>
  writeOptionalBlobTlv ndn_Tlv_ForwardingHint (i_forwardingHintWireEncoding interest) >;>
  writeBlobTlv ndn_Tlv_Nonce (nonce_bytes random (i_nonce interest)) >;>
  writeOptionalNonNegativeIntegerTlvFromDouble ndn_Tlv_InterestLifetime (i_interestLifetime interest) >;>
  writeOptionalBlobTlv ndn_Tlv_ApplicationParameters (i_applicationParameters interest).

(** The value: the name, whose offsets are those of the signed portion, and what is after it. *)
Definition encode_value (name : Name) (afterName : writer) : Out (Z * Z) :=
  signedPortion ← encodeTlvName name;
  _ ← write afterName;
  mret signedPortion.

Definition encodeInterestValueV02 (random : list Z) (interest : ndn_Interest) : Out (Z * Z) :=
  encode_value (i_name interest) (encode_afterNameV02 random interest).
Definition encodeInterestValueV03 (random : list Z) (interest : ndn_Interest) : Out (Z * Z) :=
  encode_value (i_name interest) (encode_afterNameV03 random interest).

Definition encodeTlvInterestV0_2 (random : list Z) (interest : ndn_Interest) : Out (Z * Z) :=
  writeNestedTlvOut ndn_Tlv_Interest (encodeInterestValueV02 random interest) false.
Definition encodeTlvInterestV0_3 (random : list Z) (interest : ndn_Interest) : Out (Z * Z) :=
  writeNestedTlvOut ndn_Tlv_Interest (encodeInterestValueV03 random interest) false.

(** [ndn_Tlv0_2WireFormat_encodeInterest]: an Interest with application parameters needs v0.3. *)
Definition Tlv0_2WireFormat_encodeInterest (random : list Z) (interest : ndn_Interest) : Out (Z * Z) :=
  if has_bytes (i_applicationParameters interest)
  then encodeTlvInterestV0_3 random interest else encodeTlvInterestV0_2 random interest.

(** ** Decoding *)

(** [ndn_Exclude_appendAny] and [ndn_Exclude_appendComponent], on an array with room for [maxEntries]. *)
Definition append_entry (maxEntries : Z) (exclude : Exclude) (entry : Entry) : Dec Exclude :=
  if zlen exclude >=? maxEntries then
    throw NDN_ERROR_cannot_add_an_entry_past_the_maximum_number_of_entries_allowed_in_the_exclude
  else mret (exclude ++ [entry]).

(** One turn of the loop. The room for a component is made before it is decoded. *)
Definition decode_entry (maxEntries endOffset : Z) (exclude : Exclude) : Dec Exclude :=
  gotExpectedTag ← peekType ndn_Tlv_Any endOffset;
  if gotExpectedTag : bool then
    _ ← readBooleanTlv ndn_Tlv_Any endOffset;
    append_entry maxEntries exclude any_entry
  else
    _ ← append_entry maxEntries exclude (component_entry (generic []));
    component ← decodeTlvNameComponent;
    mret (exclude ++ [component_entry component]).

(** The loop; every turn appends an entry. *)
Fixpoint decode_entries (fuel : nat) (maxEntries endOffset : Z) (exclude : Exclude) : Dec Exclude :=
  fun self =>
  if d_offset self <? endOffset then
    match fuel with
    | O => Err OutOfFuel
    | S fuel =>
        (exclude ← decode_entry maxEntries endOffset exclude;
         decode_entries fuel maxEntries endOffset exclude) self
    end
  else Ok (exclude, self).

Definition decodeExclude (maxEntries : Z) : Dec Exclude :=
  nested ndn_Tlv_Exclude (fun endOffset =>
    decode_entries (S (Z.to_nat maxEntries)) maxEntries endOffset []).

(** What [decodeSelectors] sets. *)
Record Selectors := mkSelectors {
  s_minSuffixComponents : Z;
  s_maxSuffixComponents : Z;
  s_keyLocator : KeyLocatorValue;
  s_exclude : Exclude;
  s_childSelector : Z;
  s_mustBeFresh : bool
}.

Definition no_selectors : Selectors := mkSelectors (-1) (-1) ndn_KeyLocator_initial [] (-1) false.

(** The room for the components of a name, the entries of the exclude and the components of a key name. *)
Record Room := mkRoom { maxName : Z; maxExclude : Z; maxKeyName : Z }.

Definition decodeSelectors (room : Room) : Dec Selectors :=
  nested ndn_Tlv_Selectors (fun endOffset =>
    minSuffixComponents ← readOptionalNonNegativeIntegerTlv ndn_Tlv_MinSuffixComponents endOffset;
    maxSuffixComponents ← readOptionalNonNegativeIntegerTlv ndn_Tlv_MaxSuffixComponents endOffset;
    gotExpectedType ← peekType ndn_Tlv_PublisherPublicKeyLocator endOffset;
    keyLocator ← (if gotExpectedType : bool
                  then decodeTlvKeyLocator (maxKeyName room) ndn_Tlv_PublisherPublicKeyLocator
                  else mret ndn_KeyLocator_initial);
    gotExpectedType ← peekType ndn_Tlv_Exclude endOffset;
    exclude ← (if gotExpectedType : bool then decodeExclude (maxExclude room) else mret []);
    childSelector ← readOptionalNonNegativeIntegerTlv ndn_Tlv_ChildSelector endOffset;
    mustBeFresh ← readBooleanTlv ndn_Tlv_MustBeFresh endOffset;
    mret (mkSelectors minSuffixComponents maxSuffixComponents keyLocator exclude childSelector mustBeFresh)).

(** The bytes of the Link, which is a Data packet. *)
Definition decode_link (endOffset : Z) : Dec Blob :=
  gotExpectedType ← peekType ndn_Tlv_Data endOffset;
  if gotExpectedType : bool then
    linkBeginOffset ← get_offset;
    linkEndOffset ← readNestedTlvsStart ndn_Tlv_Data;
    _ ← seek linkEndOffset;
    link ← slice_blob linkBeginOffset linkEndOffset;
    mret (Some link)
  else mret None.

Definition decodeTlvInterestV02 (room : Room) : Dec (ndn_Interest * (Z * Z)) :=
  nested ndn_Tlv_Interest (fun endOffset =>
    '(name, signedPortion) ← decodeTlvName (maxName room);
    gotExpectedType ← peekType ndn_Tlv_Selectors endOffset;
    s ← (if gotExpectedType : bool then decodeSelectors room else mret no_selectors);
    nonce ← readBlob ndn_Tlv_Nonce;
    interestLifetime ← readOptionalNonNegativeIntegerTlvAsDouble ndn_Tlv_InterestLifetime endOffset;
    forwardingHint ← readOptionalBlob ndn_Tlv_ForwardingHint endOffset;
    link ← decode_link endOffset;
    selectedDelegationIndex ← readOptionalNonNegativeIntegerTlv ndn_Tlv_SelectedDelegation endOffset;
    if (selectedDelegationIndex >=? 0) && bool_decide (link = None) then
      throw NDN_ERROR_Interest_has_a_selected_delegation_but_no_link_object
    else
      mret (mkNdnInterest name (s_minSuffixComponents s) (s_maxSuffixComponents s) (s_keyLocator s)
              (s_exclude s) (s_childSelector s) (s_mustBeFresh s) interestLifetime (Some nonce)
              forwardingHint None link selectedDelegationIndex, signedPortion)).

Definition decodeInterestValueV03 (room : Room) (endOffset : Z) : Dec (ndn_Interest * (Z * Z)) :=
  '(name, signedPortion) ← decodeTlvName (maxName room);
  canBePrefix ← readBooleanTlv ndn_Tlv_CanBePrefix endOffset;
  mustBeFresh ← readBooleanTlv ndn_Tlv_MustBeFresh endOffset;
  forwardingHint ← readOptionalBlob ndn_Tlv_ForwardingHint endOffset;
  nonce ← readOptionalBlob ndn_Tlv_Nonce endOffset;
  interestLifetime ← readOptionalNonNegativeIntegerTlvAsDouble ndn_Tlv_InterestLifetime endOffset;
  _ ← readOptionalBlobTlv ndn_Tlv_HopLimit endOffset;
  applicationParameters ← readOptionalBlob ndn_Tlv_ApplicationParameters endOffset;
  mret (mkNdnInterest name (-1) (if canBePrefix : bool then -1 else 1) ndn_KeyLocator_initial []
          (-1) mustBeFresh interestLifetime nonce forwardingHint applicationParameters None (-1),
        signedPortion).

Definition decodeTlvInterestV03 (room : Room) : Dec (ndn_Interest * (Z * Z)) :=
  nested ndn_Tlv_Interest (decodeInterestValueV03 room).

(** An error of v0.3 is returned when v0.2 fails too; what is not an error code is not caught. *)
Definition decodeTlvInterest (room : Room) : Dec (ndn_Interest * (Z * Z)) := fun decoder =>
  match decodeTlvInterestV03 room decoder with
  | Err (Error errorV03) =>
      match decodeTlvInterestV02 room decoder with
      | Err (Error _) => Err (Error errorV03)
      | r => r
      end
  | r => r
  end.

(** ** What is encoded *)

Definition entry_block (e : Entry) : Block :=
  match entry_type e with
  | EXCLUDE_COMPONENT => component_block (entry_component e)
  | EXCLUDE_ANY => (ndn_Tlv_Any, [])
  end.

Definition exclude_blocks (exclude : Exclude) : list Block := map entry_block exclude.

(** On the wire a component with the type code of ANY is an ANY. *)
Definition entry_wire_ok (e : Entry) : Prop :=
  match entry_type e with
  | EXCLUDE_COMPONENT => component_ok (entry_component e) /\
      component_tlv_type (entry_component e) <> ndn_Tlv_Any
  | EXCLUDE_ANY => e = any_entry
  end.

Definition selectors_value (i : ndn_Interest) : list Block :=
  opt_nni ndn_Tlv_MinSuffixComponents (i_minSuffixComponents i) ++
  opt_nni ndn_Tlv_MaxSuffixComponents (i_maxSuffixComponents i) ++
  opt_nested ndn_Tlv_PublisherPublicKeyLocator (keyLocator_blocks (i_keyLocator i)) ++
  opt_nested ndn_Tlv_Exclude (exclude_blocks (i_exclude i)) ++
  opt_nni ndn_Tlv_ChildSelector (i_childSelector i) ++
  opt_flag ndn_Tlv_MustBeFresh (i_mustBeFresh i).

Definition link_blocks (link : Blob) : list Block :=
  match link with Some bs => [(ndn_Tlv_Data, bs)] | None => [] end.

(** The blocks after the selectors of v0.2; [link] is the value of the Data packet of the link. *)
Definition v02_tail (random : list Z) (i : ndn_Interest) (link : Blob) : list Block :=
  [(ndn_Tlv_Nonce, nonce_bytes random (i_nonce i))] ++
  opt_double ndn_Tlv_InterestLifetime (i_interestLifetime i) ++
  opt_blob ndn_Tlv_ForwardingHint (i_forwardingHintWireEncoding i) ++ link_blocks link ++
  opt_nni ndn_Tlv_SelectedDelegation (i_selectedDelegationIndex i).

Definition v02_value (random : list Z) (i : ndn_Interest) (link : Blob) : list Block :=
  name_block (i_name i) :: opt_nested ndn_Tlv_Selectors (selectors_value i) ++ v02_tail random i link.

Definition v03_tail (random : list Z) (i : ndn_Interest) : list Block :=
  opt_flag ndn_Tlv_CanBePrefix (getCanBePrefix i) ++
  opt_flag ndn_Tlv_MustBeFresh (i_mustBeFresh i) ++
  opt_blob ndn_Tlv_ForwardingHint (i_forwardingHintWireEncoding i) ++
  [(ndn_Tlv_Nonce, nonce_bytes random (i_nonce i))] ++
  opt_double ndn_Tlv_InterestLifetime (i_interestLifetime i) ++
  opt_blob ndn_Tlv_ApplicationParameters (i_applicationParameters i).

Definition v03_value (random : list Z) (i : ndn_Interest) : list Block :=
  name_block (i_name i) :: v03_tail random i.

(** *** Well formed Interests *)

Record v03_ok (room : Room) (i : ndn_Interest) : Prop := {
  i_name_ok : Forall component_ok (i_name i);
  i_name_fits : zlen (i_name i) <= maxName room;
  i_lifetime_ok : i_interestLifetime i < 2 ^ 63
}.

Record selectors_ok (room : Room) (i : ndn_Interest) : Prop := {
  i_min_ok : i_minSuffixComponents i < 2 ^ 31;
  i_max_ok : i_maxSuffixComponents i < 2 ^ 31;
  i_childSelector_ok : i_childSelector i < 2 ^ 31;
  i_keyLocator_ok : keyLocator_ok (maxKeyName room) (i_keyLocator i);
  i_exclude_ok : Forall entry_wire_ok (i_exclude i);
  i_exclude_fits : zlen (i_exclude i) <= maxExclude room
}.

(** A forwarding hint goes without a link; a selected delegation needs a link, which is a block. *)
Record delegation_ok (i : ndn_Interest) (link : Blob) : Prop := {
  i_link_ok : i_linkWireEncoding i =
    match link with Some v => Some (tlv_bytes ndn_Tlv_Data v) | None => None end;
  i_selected_ok : i_selectedDelegationIndex i < 2 ^ 31;
  i_selected_link : 0 <= i_selectedDelegationIndex i -> link <> None;
  i_forwardingHint_ok : has_bytes (i_forwardingHintWireEncoding i) = true ->
    i_selectedDelegationIndex i < 0 /\ link = None
}.

Definition round_lifetime (ns : Z) : Z :=
  if ns >=? 0 then (ns + 500000) / 1000000 * 1000000 else -1000000.

Definition round_index (v : Z) : Z := if v >=? 0 then v else -1.

Definition v02_decoded (random : list Z) (i : ndn_Interest) : ndn_Interest :=
  mkNdnInterest (i_name i) (round_index (i_minSuffixComponents i)) (round_index (i_maxSuffixComponents i))
    (keyLocator_decoded (i_keyLocator i)) (i_exclude i) (round_index (i_childSelector i)) (i_mustBeFresh i)
    (round_lifetime (i_interestLifetime i)) (Some (nonce_bytes random (i_nonce i)))
    (some_blob (i_forwardingHintWireEncoding i)) None (i_linkWireEncoding i)
    (round_index (i_selectedDelegationIndex i)).

Definition v03_decoded (random : list Z) (i : ndn_Interest) : ndn_Interest :=
  mkNdnInterest (i_name i) (-1) (if getCanBePrefix i then -1 else 1) ndn_KeyLocator_initial [] (-1)
    (i_mustBeFresh i) (round_lifetime (i_interestLifetime i)) (Some (nonce_bytes random (i_nonce i)))
    (some_blob (i_forwardingHintWireEncoding i)) (some_blob (i_applicationParameters i)) None (-1).

(** ** The exclude *)

Lemma exclude_types ex : Forall entry_wire_ok ex -> Forall type_ok (exclude_blocks ex).
Proof.
  intros H. apply Forall_map. revert H. apply Forall_impl. intros e He. unfold entry_wire_ok, entry_block in *.
  destruct (entry_type e); [| block_types].
  pose proof (component_tlv_type_ok _ (proj1 He)). unfold type_ok. cbn. lia.
Qed.

Lemma emits_exclude ex :
  Forall entry_wire_ok ex -> zlen (blocks_bytes (exclude_blocks ex)) < 2 ^ 64 ->
  Emits (encodeExcludeValue ex) (blocks_bytes (exclude_blocks ex)).
Proof.
  induction ex as [| e ex IH]; intros Hok Hl; [apply emits_nothing |].
  cbn [exclude_blocks map encodeExcludeValue] in *. fold (exclude_blocks ex) in *.
  pose proof (blocks_bytes_cons_le (entry_block e) (exclude_blocks ex)).
  rewrite blocks_bytes_cons. apply emits_andThen.
  - pose proof (List.Forall_inv Hok) as He. unfold entry_wire_ok, encode_entry, entry_block in *.
    destruct (entry_type e).
    + apply emits_component; [easy |]. unfold block_bytes in *. lia.
    + unfold tlv_bytes. cbn [fst snd]. rewrite app_nil_r. apply emits_writeTypeAndLength.
  - apply IH; [exact (List.Forall_inv_tail Hok) | lia].
Qed.

Lemma reads_entry max e acc en bs :
  entry_wire_ok en -> zlen acc < max ->
  Reads (decode_entry max e acc) (acc ++ [en]) e (entry_block en :: bs) bs.
Proof.
  intros Hen Hm. unfold decode_entry, append_entry, entry_wire_ok, entry_block in *.
  destruct (Z.geb_spec (zlen acc) max); [lia |].
  destruct en as [[|] c]; cbn [entry_type entry_component] in *.
  - destruct Hen as [Hc Ha]. eapply reads_bind; [now apply reads_peek_other |]. cbv beta iota.
    eapply reads_bind; [apply reads_ret |]. cbv beta.
    eapply reads_bind; [now apply reads_component | apply reads_ret].
  - eapply reads_bind; [apply reads_peek_same |]. cbv beta iota.
    eapply reads_bind; [apply reads_boolean |]. rewrite <- Hen. apply reads_ret.
Qed.

Lemma reads_entries ex e acc max fuel :
  Forall entry_wire_ok ex -> zlen acc + zlen ex <= max -> (length ex < fuel)%nat ->
  Reads (decode_entries fuel max e acc) (acc ++ ex) e (exclude_blocks ex) [].
Proof.
  revert acc fuel. induction ex as [| en ex IH]; intros acc fuel Hn Hm Hf d rest Hd.
  - exists d. split; [| easy]. rewrite app_nil_r. pose proof (at_end _ _ _ _ Hd) as He. cbn in He.
    destruct fuel; cbn [decode_entries]; (destruct (Z.ltb_spec (d_offset d) e); [lia | easy]).
  - destruct fuel as [| fuel]; [easy |]. cbn [decode_entries length] in *.
    pose proof (at_not_end _ _ _ _ _ Hd) as Hlt. rewrite (proj2 (Z.ltb_lt _ _) Hlt).
    replace (acc ++ en :: ex) with ((acc ++ [en]) ++ ex) by now rewrite <- app_assoc.
    apply (reads_bind _ (decode_entries fuel max e) (acc ++ [en]) _ e (exclude_blocks (en :: ex))
      (exclude_blocks ex)); [| | exact Hd].
    + apply reads_entry; [exact (List.Forall_inv Hn) | lia].
    + apply IH; [exact (List.Forall_inv_tail Hn) | rewrite length_app; cbn; lia | lia].
Qed.

Lemma reads_exclude max ex e bs :
  Forall entry_wire_ok ex -> zlen ex <= max ->
  Reads (decodeExclude max) ex e ((ndn_Tlv_Exclude, blocks_bytes (exclude_blocks ex)) :: bs) bs.
Proof.
  intros Hok Hm. apply reads_nested; [now apply exclude_types |]. intros e1.
  apply (reads_entries ex e1 []); cbn; auto; lia.
Qed.

(** ** The selectors *)

Lemma selectors_types i room : selectors_ok room i -> Forall type_ok (selectors_value i).
Proof. intros H. unfold selectors_value. nested_types. Qed.

Lemma opt_nested_le t value :
  zlen (blocks_bytes value) <= zlen (blocks_bytes (opt_nested t value)).
Proof.
  destruct value as [| b value]; [easy |]. cbn [opt_nested]. rewrite blocks_bytes_one. cbn [fst snd].
  apply zlen_value_le.
Qed.

Lemma emits_exclude_selector ex :
  Forall entry_wire_ok ex -> zlen (blocks_bytes (exclude_blocks ex)) < 2 ^ 64 ->
  Emits (if zlen ex >? 0 then writeNestedTlv ndn_Tlv_Exclude (encodeExcludeValue ex) false
         else fun self => Ok self) (blocks_bytes (opt_nested ndn_Tlv_Exclude (exclude_blocks ex))).
Proof.
  intros Hok Hl. destruct ex as [| en ex]; [apply emits_nothing |]. cbn [exclude_blocks map opt_nested].
  destruct (Z.gtb_spec (zlen (en :: ex)) 0); [| cbn in *; lia].
  rewrite blocks_bytes_one. now apply (emits_writeNestedTlv _ _ _ false), emits_exclude.
Qed.

Lemma emits_selectors room i :
  selectors_ok room i -> zlen (blocks_bytes (selectors_value i)) < 2 ^ 64 ->
  Emits (encodeSelectorsValue i) (blocks_bytes (selectors_value i)).
Proof.
  intros [_ _ _ Hk He _]. unfold selectors_value, encodeSelectorsValue.
  rewrite !blocks_bytes_app, !length_app. intros Hl.
  pose proof (opt_nested_le ndn_Tlv_PublisherPublicKeyLocator (keyLocator_blocks (i_keyLocator i))).
  pose proof (opt_nested_le ndn_Tlv_Exclude (exclude_blocks (i_exclude i))).
  repeat apply emits_andThen; try apply emits_opt_nni; try apply emits_opt_flag.
  - rewrite <- nested_bytes_opt. apply emits_writeNestedTlv, (emits_keyLocator (maxKeyName room)); easy || lia.
  - apply emits_exclude_selector; easy || lia.
Qed.

(** Reading a nested selector that may be absent, in which case it has its initial value. *)
Lemma reads_opt_nested {A B} t (body : Dec A) (k : A -> Dec B) a none value b e bs bs' :
  other_type t bs -> (value = [] -> a = none) ->
  (forall bs, Reads body a e ((t, blocks_bytes value) :: bs) bs) ->
  Reads (k a) b e bs bs' ->
  Reads (gotExpectedType ← peekType t e;
         x ← (if gotExpectedType : bool then body else mret none); k x)
    b e (opt_nested t value ++ bs) bs'.
Proof.
  intros Ho Hnone Hbody Hk. destruct value as [| v value]; cbn [opt_nested app].
  - eapply reads_bind; [now apply reads_peek_other |]. cbv beta iota. rewrite (Hnone eq_refl) in Hk.
    eapply reads_bind; [apply reads_ret | exact Hk].
  - eapply reads_bind; [apply reads_peek_same |]. cbv beta iota.
    eapply reads_bind; [apply Hbody | exact Hk].
Qed.

Lemma keyLocator_blocks_nil k : keyLocator_blocks k = [] -> keyLocator_decoded k = ndn_KeyLocator_initial.
Proof. unfold keyLocator_blocks, keyLocator_decoded. now destruct (kl_type_ k.1). Qed.

Definition selectors_decoded (i : ndn_Interest) : Selectors :=
  mkSelectors (round_index (i_minSuffixComponents i)) (round_index (i_maxSuffixComponents i))
    (keyLocator_decoded (i_keyLocator i)) (i_exclude i) (round_index (i_childSelector i)) (i_mustBeFresh i).

Lemma reads_selectors room i e bs :
  selectors_ok room i ->
  Reads (decodeSelectors room) (selectors_decoded i) e
    ((ndn_Tlv_Selectors, blocks_bytes (selectors_value i)) :: bs) bs.
Proof.
  intros Hi. pose proof Hi as [Hmin Hmax Hcs Hk He Hf].
  apply reads_nested; [now apply (selectors_types i room) |]. intros e1. unfold selectors_value.
  eapply reads_bind; [apply reads_opt_nni; [easy | nested_types] |]. cbv beta.
  eapply reads_bind; [apply reads_opt_nni; [easy | nested_types] |]. cbv beta.
  eapply reads_opt_nested; [nested_types | apply keyLocator_blocks_nil | intros; now apply reads_keyLocator |].
  cbv beta.
  apply (reads_opt_nested _ _ _ (i_exclude i)); [nested_types | | intros; now apply reads_exclude |].
  { intros H. apply (f_equal (@length Block)) in H. unfold exclude_blocks in H. rewrite length_map in H.
    now destruct (i_exclude i). }
  cbv beta. eapply reads_bind; [apply reads_opt_nni; [easy | nested_types] |]. cbv beta.
  rewrite <- (app_nil_r (opt_flag _ _)).
  eapply reads_bind; [now apply reads_opt_flag | apply reads_ret].
Qed.

(** ** The packet around the blocks after the name *)

(** The Interest with the blocks [tail] after the name. *)
Definition interest_block (name : Name) (tail : list Block) : Block :=
  (ndn_Tlv_Interest, blocks_bytes (name_block name :: tail)).

Lemma emits_value name w tail :
  Forall component_ok name -> zlen (blocks_bytes (name_block name :: tail)) < 2 ^ 63 ->
  Emits w (blocks_bytes tail) ->
  Emits (only (encode_value name w)) (blocks_bytes (name_block name :: tail)) /\
  forall o, Returns o (encode_value name w) (blocks_bytes (name_block name :: tail))
    (name_signed name (name_value_offset name o)).
Proof.
  intros Hn Hl Hw. pose proof (blocks_bytes_cons_le (name_block name) tail).
  assert (zlen (name_tlv name) < 2 ^ 64) by (unfold name_tlv; lia).
  rewrite blocks_bytes_cons. unfold encode_value. rewrite <- (app_nil_r (blocks_bytes tail)). split.
  - apply emits_bind; [now apply emits_name |]. intros signedPortion.
    apply emits_bind; [now apply emits_write | intros _; apply emits_ret].
  - intros o. eapply returns_bind; [now apply emits_name | now apply returns_name |].
    eapply returns_bind; [now apply emits_write | apply returns_write | apply returns_ret].
Qed.

(** Any decoder that reads the value reads the packet that was encoded, with the same signed portion. *)
Lemma interest_packet name w tail n {A} (m : Dec (A * (Z * Z))) (a : A) pre rest :
  Forall component_ok name -> Emits w (blocks_bytes tail) -> Forall type_ok tail -> 0 <= n < 2 ^ 63 ->
  zlen (pre ++ block_bytes (interest_block name tail) ++ rest) < 2 ^ 63 ->
  (forall e bs, let s := e - zlen (blocks_bytes bs) - zlen (blocks_bytes (name_block name :: tail)) in
    Reads m (a, name_signed name (name_value_offset name s)) e (interest_block name tail :: bs) bs) ->
  exists bs begin end_,
    run_out n (writeNestedTlvOut ndn_Tlv_Interest (encode_value name w) false) = Ok (bs, (begin, end_)) /\
    m (decoder_at pre bs rest)
    = Ok (a, (zlen pre + begin, zlen pre + end_), mkDecoder (pre ++ bs ++ rest) (zlen pre + zlen bs)) /\
    sub_bytes bs begin (end_ - begin) = blocks_bytes (name_blocks (removelast name)).
Proof.
  intros Hn Hw Ht Hn0 Hl Hm. set (value := blocks_bytes (name_block name :: tail)) in *.
  assert (Hs : zlen (tlv_bytes ndn_Tlv_Interest value) < 2 ^ 63)
    by (rewrite !length_app in Hl; unfold block_bytes in Hl; cbn [interest_block fst snd] in Hl; subst value; lia).
  pose proof (zlen_tlv_header ndn_Tlv_Interest value) as Hh.
  pose proof (zlen_value_le ndn_Tlv_Interest value) as Hv.
  set (h := header_size ndn_Tlv_Interest (zlen value)) in *.
  destruct (emits_value name w tail Hn ltac:(subst value; lia) Hw) as [He Hret].
  destruct (name_signed name (name_value_offset name h)) as [begin end_] eqn:Hsig.
  exists (tlv_bytes ndn_Tlv_Interest value), begin, end_. split; [| split].
  - apply run_out_ok; [easy | now apply (emits_nested_out _ _ _ false) | | easy].
    apply returns_nested; [exact He |]. rewrite Z.add_0_l. fold h. rewrite <- Hsig. apply Hret.
  - apply (reads_decoder_at _ _ pre (ndn_Tlv_Interest, value)); [easy | block_types |].
    specialize (Hm (zlen pre + zlen (block_bytes (interest_block name tail))) []). cbv zeta in Hm.
    change (interest_block name tail) with (ndn_Tlv_Interest, value) in *.
    replace (_ - zlen (blocks_bytes []) - zlen value) with (zlen pre + h) in Hm
      by (change (blocks_bytes []) with (@nil Z); unfold block_bytes; cbn [fst snd length]; lia).
    now rewrite name_signed_shift, Hsig in Hm.
  - pose proof (name_signed_bytes name (varNumber_bytes ndn_Tlv_Interest ++ varNumber_bytes (zlen value))
      (blocks_bytes tail)) as Hb.
    rewrite length_app, Nat2Z.inj_add in Hb. change (zlen ?a + zlen ?b) with (header_size ndn_Tlv_Interest (zlen value)) in Hb.
    fold h in Hb. rewrite Hsig, <- app_assoc in Hb. exact Hb.
Qed.

(** ** Format v0.3 *)

Lemma emits_v03 random i :
  zlen (blocks_bytes (v03_tail random i)) < 2 ^ 63 ->
  Emits (encode_afterNameV03 random i) (blocks_bytes (v03_tail random i)).
Proof.
  unfold v03_tail, encode_afterNameV03. rewrite !blocks_bytes_app, !length_app. intros Hl.
  repeat apply emits_andThen; try apply emits_opt_flag; try apply emits_opt_double;
    try (apply emits_opt_blob; lia).
  rewrite blocks_bytes_one in *. apply emits_writeBlobTlv. cbn [fst snd] in *. lia.
Qed.

Lemma v03_types random i : Forall type_ok (v03_tail random i).
Proof. unfold v03_tail. nested_types. Qed.

Lemma reads_no_hopLimit e bs :
  other_type ndn_Tlv_HopLimit bs ->
  Reads (readOptionalBlobTlv ndn_Tlv_HopLimit e) (mkSlice None 0) e bs bs.
Proof. intros H. eapply reads_bind; [now apply reads_peek_other | apply reads_ret]. Qed.

Lemma name_offset_end name tail e :
  name_value_offset name (e - zlen (blocks_bytes (name_block name :: tail)))
  = e - zlen (blocks_bytes (name_blocks name)) - zlen (blocks_bytes tail).
Proof.
  unfold name_value_offset. rewrite blocks_bytes_cons, length_app. unfold name_block. cbn [fst snd].
  pose proof (zlen_tlv_header ndn_Tlv_Name (blocks_bytes (name_blocks name))). lia.
Qed.

Lemma reads_v03 room random i e bs :
  v03_ok room i ->
  let s := e - zlen (blocks_bytes bs) - zlen (blocks_bytes (v03_value random i)) in
  Reads (decodeTlvInterestV03 room)
    (v03_decoded random i, name_signed (i_name i) (name_value_offset (i_name i) s))
    e (interest_block (i_name i) (v03_tail random i) :: bs) bs.
Proof.
  intros [Hn Hf Hlt]. cbv zeta.
  apply (reads_nested_at _ _ (fun e => (v03_decoded random i,
    name_signed (i_name i) (name_value_offset (i_name i) (e - zlen (blocks_bytes (v03_value random i))))))).
  { apply List.Forall_cons; [block_types | apply v03_types]. }
  intros e1. unfold v03_value. rewrite name_offset_end.
  eapply reads_bind; [now apply reads_name |]. cbv beta iota.
  generalize (name_signed (i_name i) (e1 - zlen (blocks_bytes (name_blocks (i_name i)))
    - zlen (blocks_bytes (v03_tail random i)))). intros signed. unfold v03_tail.
  eapply reads_bind; [apply reads_opt_flag; nested_types |]. cbv beta.
  eapply reads_bind; [apply reads_opt_flag; nested_types |]. cbv beta.
  eapply reads_bind; [apply reads_opt_blob; nested_types |]. cbv beta.
  eapply reads_bind; [apply reads_optional_blob |]. cbv beta.
  eapply reads_bind; [apply reads_opt_double; [easy | nested_types] |]. cbv beta.
  eapply reads_bind; [apply reads_no_hopLimit; nested_types |]. cbv beta.
  rewrite <- (app_nil_r (opt_blob ndn_Tlv_ApplicationParameters _)).
  eapply reads_bind; [now apply reads_opt_blob |]. cbv beta.
  apply reads_ret.
Qed.

(** The bytes of the blocks after the name fit, when the packet does. *)
Lemma tail_fits pre name tail rest n :
  zlen (pre ++ block_bytes (interest_block name tail) ++ rest) < n -> zlen (blocks_bytes tail) < n.
Proof.
  rewrite !length_app. unfold interest_block.
  pose proof (blocks_bytes_cons_le (ndn_Tlv_Interest, blocks_bytes (name_block name :: tail)) []).
  pose proof (blocks_bytes_cons_le (name_block name) tail). cbn [snd] in *. lia.
Qed.

(** An Interest in format v0.3 on the wire. It is decoded, anywhere in a message, as the same Interest
    without the selectors of v0.2, with the nonce of four bytes that was sent, and with the signed
    portion that the encoder reported, which is the name without its last component. *)
Lemma v03_roundtrip_at (room : Room) (n : Z) (random : list Z) (i : ndn_Interest) (pre rest : list Z) :
  v03_ok room i -> 0 <= n < 2 ^ 63 ->
  zlen (pre ++ block_bytes (interest_block (i_name i) (v03_tail random i)) ++ rest) < 2 ^ 63 ->
  exists bs begin end_, run_out n (encodeTlvInterestV0_3 random i) = Ok (bs, (begin, end_)) /\
    decodeTlvInterest room (decoder_at pre bs rest)
    = Ok (v03_decoded random i, (zlen pre + begin, zlen pre + end_),
          mkDecoder (pre ++ bs ++ rest) (zlen pre + zlen bs)) /\
    sub_bytes bs begin (end_ - begin) = blocks_bytes (name_blocks (removelast (i_name i))).
Proof.
  intros Hok Hn Hl. pose proof Hok as [Hname _ _].
  destruct (interest_packet (i_name i) (encode_afterNameV03 random i) (v03_tail random i) n
    (decodeTlvInterestV03 room) (v03_decoded random i) pre rest)
    as (bs & b & e & Henc & Hdec & Hsig); try easy.
  - apply emits_v03. apply tail_fits in Hl. lia.
  - apply v03_types.
  - intros e bs. apply (reads_v03 room random i e bs Hok).
  - exists bs, b, e. split; [exact Henc |]. split; [| exact Hsig].
    unfold decodeTlvInterest. now rewrite Hdec.
Qed.

(** An Interest alone in its buffer. *)
Lemma v03_roundtrip_here room n random i :
  v03_ok room i -> 0 <= n < 2 ^ 63 ->
  zlen (block_bytes (interest_block (i_name i) (v03_tail random i))) < 2 ^ 63 ->
  exists bs begin end_, run_out n (encodeTlvInterestV0_3 random i) = Ok (bs, (begin, end_)) /\
    decodeTlvInterest room (TlvDecoder_initialize bs)
    = Ok (v03_decoded random i, (begin, end_), mkDecoder bs (zlen bs)) /\
    sub_bytes bs begin (end_ - begin) = blocks_bytes (name_blocks (removelast (i_name i))).
Proof.
  intros Hok Hn Hl. destruct (v03_roundtrip_at room n random i [] [] Hok Hn) as (bs & b & e & H1 & H2 & H3).
  { cbn [app]. now rewrite app_nil_r. }
  exists bs, b, e. split; [easy |]. split; [| easy].
  unfold decoder_at in H2. cbn [app length] in H2. rewrite app_nil_r in H2. exact H2.
Qed.

(** ** Format v0.2 *)

Lemma emits_forwardingHintV02 i link :
  delegation_ok i link -> zlen (blocks_bytes (opt_blob ndn_Tlv_ForwardingHint (i_forwardingHintWireEncoding i))) < 2 ^ 64 ->
  Emits (encode_forwardingHintV02 i)
    (blocks_bytes (opt_blob ndn_Tlv_ForwardingHint (i_forwardingHintWireEncoding i))).
Proof.
  intros [Hl _ _ Hf] Hlen. unfold encode_forwardingHintV02, has_bytes in *.
  destruct (i_forwardingHintWireEncoding i) as [[| b bs] |]; cbn [blob_bytes default] in *;
    try apply emits_nothing.
  destruct (Z.gtb_spec (zlen (b :: bs)) 0); [| cbn in *; lia]. destruct (Hf eq_refl) as [Hs ->].
  destruct (Z.geb_spec (i_selectedDelegationIndex i) 0); [lia |]. rewrite Hl.
  cbn [opt_blob] in *. rewrite blocks_bytes_one in *. now apply emits_writeBlobTlv.
Qed.

Lemma emits_link i link :
  delegation_ok i link ->
  Emits (match i_linkWireEncoding i with Some link => writeArray link | None => fun self => Ok self end)
    (blocks_bytes (link_blocks link)).
Proof.
  intros [-> _ _ _]. destruct link; [| apply emits_nothing].
  cbn [link_blocks]. rewrite blocks_bytes_one. apply emits_writeArray.
Qed.

Definition v02_rest (random : list Z) (i : ndn_Interest) (link : Blob) : list Block :=
  opt_nested ndn_Tlv_Selectors (selectors_value i) ++ v02_tail random i link.

Lemma emits_v02 room random i link :
  selectors_ok room i -> delegation_ok i link -> zlen (blocks_bytes (v02_rest random i link)) < 2 ^ 63 ->
  Emits (encode_afterNameV02 random i) (blocks_bytes (v02_rest random i link)).
Proof.
  intros Hs Hd. unfold v02_rest, v02_tail, encode_afterNameV02. rewrite !blocks_bytes_app, !length_app. intros Hl.
  pose proof (opt_nested_le ndn_Tlv_Selectors (selectors_value i)).
  apply emits_andThen.
  { rewrite <- nested_bytes_opt. apply emits_writeNestedTlv, (emits_selectors room); easy || lia. }
  apply emits_andThen. { rewrite blocks_bytes_one in *. apply emits_writeBlobTlv. cbn [fst snd] in *. lia. }
  apply emits_andThen; [apply emits_opt_double |].
  apply emits_andThen; [apply (emits_forwardingHintV02 i link); easy || lia |].
  apply emits_andThen; [now apply emits_link | apply emits_opt_nni].
Qed.

Ltac link_types := unfold link_blocks; match goal with l : Blob |- _ => destruct l end; nested_types.

Lemma v02_types random i link : Forall type_ok (v02_rest random i link).
Proof. unfold v02_rest, v02_tail. link_types. Qed.

Lemma reads_link link e bs :
  other_type ndn_Tlv_Data bs ->
  Reads (decode_link e) (match link with Some v => Some (tlv_bytes ndn_Tlv_Data v) | None => None end) e
    (link_blocks link ++ bs) bs.
Proof.
  intros Ho. destruct link as [v |]; cbn [link_blocks app].
  - eapply reads_bind; [apply reads_peek_same |]. cbv beta iota. intros d rest Hd.
    destruct (at_block _ _ _ _ _ Hd) as [Ht Hr]. cbn [fst snd] in *.
    pose proof (at_next _ _ _ _ _ Hd) as Hn. cbn [fst snd] in Hn.
    exists (adv d (zlen (tlv_bytes ndn_Tlv_Data v))). split; [| easy].
    rewrite (dec_bind_ok get_offset _ _ _ _ eq_refl).
    rewrite (dec_bind_ok _ _ _ _ _ (readNestedTlvsStart_at _ _ _ _ (at_ok _ _ _ _ Hd) Ht Hr)).
    rewrite (dec_bind_ok (Decoder.seek _) _ (adv d _) tt (adv d (zlen (tlv_bytes ndn_Tlv_Data v))) eq_refl).
    pose proof (slice_blob_at _ _ _ _ _ (adv d (zlen (tlv_bytes ndn_Tlv_Data v))) Hd eq_refl) as Hb.
    cbn [fst snd] in Hb. now rewrite (dec_bind_ok _ _ _ _ _ Hb).
  - eapply reads_bind; [now apply reads_peek_other | apply reads_ret].
Qed.

Lemma opt_nni_nil t v : opt_nni t v = [] -> round_index v = -1.
Proof. unfold opt_nni, round_index. now destruct (v >=? 0). Qed.

Lemma opt_nested_nil t value : opt_nested t value = [] -> value = [].
Proof. now destruct value. Qed.

Lemma selectors_nil i : selectors_value i = [] -> selectors_decoded i = no_selectors.
Proof.
  unfold selectors_value. intros H.
  apply app_eq_nil in H as [H1 H]. apply app_eq_nil in H as [H2 H]. apply app_eq_nil in H as [H3 H].
  apply app_eq_nil in H as [H4 H]. apply app_eq_nil in H as [H5 H6].
  apply opt_nested_nil in H3, H4. apply map_eq_nil in H4. apply keyLocator_blocks_nil in H3.
  unfold selectors_decoded, no_selectors. rewrite H3, H4.
  rewrite (opt_nni_nil _ _ H1), (opt_nni_nil _ _ H2), (opt_nni_nil _ _ H5).
  f_equal. now destruct (i_mustBeFresh i).
Qed.

Lemma reads_v02 room random i link e bs :
  v03_ok room i -> selectors_ok room i -> delegation_ok i link ->
  let s := e - zlen (blocks_bytes bs) - zlen (blocks_bytes (name_block (i_name i) :: v02_rest random i link)) in
  Reads (decodeTlvInterestV02 room)
    (v02_decoded random i, name_signed (i_name i) (name_value_offset (i_name i) s))
    e (interest_block (i_name i) (v02_rest random i link) :: bs) bs.
Proof.
  intros [Hn Hf Hlt] Hs [Hl Hsd Hsl Hfh]. cbv zeta.
  apply (reads_nested_at _ _ (fun e => (v02_decoded random i,
    name_signed (i_name i) (name_value_offset (i_name i)
      (e - zlen (blocks_bytes (name_block (i_name i) :: v02_rest random i link))))))).
  { apply List.Forall_cons; [block_types | apply v02_types]. }
  intros e1. rewrite name_offset_end.
  eapply reads_bind; [now apply reads_name |]. cbv beta iota.
  generalize (name_signed (i_name i) (e1 - zlen (blocks_bytes (name_blocks (i_name i)))
    - zlen (blocks_bytes (v02_rest random i link)))). intros signed. unfold v02_rest, v02_tail.
  eapply (reads_opt_nested _ _ _ (selectors_decoded i));
    [link_types | | intros; now apply (reads_selectors room i) |].
  { apply selectors_nil. }
  cbv beta.
  eapply reads_bind; [apply reads_blob |]. cbv beta.
  eapply reads_bind; [apply reads_opt_double; [easy | link_types] |]. cbv beta.
  eapply reads_bind; [apply reads_opt_blob; link_types |]. cbv beta.
  eapply reads_bind; [apply reads_link; nested_types |]. cbv beta.
  rewrite <- (app_nil_r (opt_nni _ _)).
  eapply reads_bind; [now apply reads_opt_nni |]. cbv beta.
  fold (round_index (i_selectedDelegationIndex i)). rewrite <- Hl.
  destruct ((round_index (i_selectedDelegationIndex i) >=? 0) && bool_decide (i_linkWireEncoding i = None)) eqn:Hb.
  - apply andb_true_iff in Hb as [Hb1 Hb2]. apply bool_decide_eq_true in Hb2.
    unfold round_index in Hb1. destruct (Z.geb_spec (i_selectedDelegationIndex i) 0); [| easy].
    specialize (Hsl H). destruct link; congruence.
  - apply reads_ret.
Qed.

(** The Interests of v0.2 that are not Interests of v0.3: some block that v0.3 does not read is critical. *)
Definition needs_v02 (i : ndn_Interest) : Prop :=
  selectors_value i <> [] \/ has_bytes (i_forwardingHintWireEncoding i) = true \/
  i_linkWireEncoding i <> None.

(** What v0.3 reads of an Interest of v0.2: up to the selectors, or else up to the lifetime. *)
Lemma v03_stops_at_selectors room name v left e :
  Forall component_ok name -> zlen name <= maxName room ->
  exists a, Reads (decodeInterestValueV03 room e) a e
    (name_block name :: (ndn_Tlv_Selectors, v) :: left) ((ndn_Tlv_Selectors, v) :: left).
Proof.
  intros Hn Hf. unfold decodeInterestValueV03. eexists.
  eapply reads_bind; [now apply reads_name |]. cbv beta iota.
  eapply reads_bind; [now apply reads_boolean_other |]. cbv beta.
  eapply reads_bind; [now apply reads_boolean_other |]. cbv beta.
  eapply reads_bind; [now apply reads_optional_blob_other |]. cbv beta.
  eapply reads_bind; [now apply reads_optional_blob_other |]. cbv beta.
  eapply reads_bind; [eapply reads_bind; [now apply reads_peek_other | apply reads_ret] |]. cbv beta.
  eapply reads_bind; [now apply reads_no_hopLimit |]. cbv beta.
  eapply reads_bind; [now apply reads_optional_blob_other | apply reads_ret].
Qed.

Definition v03_of_v02 (i : ndn_Interest) (nonce : list Z) : ndn_Interest :=
  mkNdnInterest (i_name i) (-1) 1 ndn_KeyLocator_initial [] (-1) false
    (round_lifetime (i_interestLifetime i)) (Some nonce) None None None (-1).

Lemma v03_stops_after_lifetime room i nonce left e :
  v03_ok room i -> Forall (fun b => b.1 = ndn_Tlv_ForwardingHint \/ b.1 = ndn_Tlv_Data) (take 1 left) ->
  let tail := [(ndn_Tlv_Nonce, nonce)] ++ opt_double ndn_Tlv_InterestLifetime (i_interestLifetime i) ++ left in
  Reads (decodeInterestValueV03 room e)
    (v03_of_v02 i nonce, name_signed (i_name i)
       (name_value_offset (i_name i) (e - zlen (blocks_bytes (name_block (i_name i) :: tail)))))
    e (name_block (i_name i) :: tail) left.
Proof.
  intros [Hn Hf Hlt] Hleft. cbv zeta. rewrite name_offset_end. unfold decodeInterestValueV03.
  assert (Hother : forall t, t <> ndn_Tlv_ForwardingHint -> t <> ndn_Tlv_Data -> other_type t left).
  { intros t H1 H2. destruct left as [| b left]; [easy |]. apply List.Forall_inv in Hleft. cbn.
    destruct Hleft; congruence. }
  eapply reads_bind; [now apply reads_name |].
  match goal with |- context [name_signed ?n ?o] => generalize (name_signed n o) end.
  intros signed. cbv beta iota.
  eapply reads_bind; [now apply reads_boolean_other |]. cbv beta.
  eapply reads_bind; [now apply reads_boolean_other |]. cbv beta.
  eapply reads_bind; [now apply reads_optional_blob_other |]. cbv beta.
  eapply reads_bind; [apply reads_optional_blob |]. cbv beta.
  eapply reads_bind; [apply reads_opt_double; [easy | now apply Hother] |]. cbv beta.
  eapply reads_bind; [apply reads_no_hopLimit; now apply Hother |]. cbv beta.
  eapply reads_bind; [apply reads_optional_blob_other; now apply Hother |]. apply reads_ret.
Qed.

(** The blocks that v0.3 leaves begin with a critical one. *)
Lemma v02_left i link :
  delegation_ok i link -> needs_v02 i -> selectors_value i = [] ->
  exists b left, opt_blob ndn_Tlv_ForwardingHint (i_forwardingHintWireEncoding i) ++ link_blocks link ++
      opt_nni ndn_Tlv_SelectedDelegation (i_selectedDelegationIndex i) = b :: left /\
    (b.1 = ndn_Tlv_ForwardingHint \/ b.1 = ndn_Tlv_Data).
Proof.
  intros [Hl _ _ _] [H | [H | H]] Hs; [easy | |].
  - unfold has_bytes in H. destruct (i_forwardingHintWireEncoding i) as [[| x l] |]; [easy | | easy].
    do 2 eexists. split; [reflexivity | now left].
  - rewrite Hl in H. destruct link as [v |]; [| easy].
    destruct (i_forwardingHintWireEncoding i) as [[| x l] |]; do 2 eexists;
      (split; [reflexivity |]); cbn; auto.
Qed.

Lemma v03_rejects_v02 room random i link e bs :
  v03_ok room i -> delegation_ok i link -> needs_v02 i ->
  Rejects (decodeTlvInterestV03 room) e (interest_block (i_name i) (v02_rest random i link) :: bs).
Proof.
  intros Hi Hd Hneed. pose proof Hi as [Hn Hf _].
  assert (Ht : Forall type_ok (name_block (i_name i) :: v02_rest random i link))
    by (apply List.Forall_cons; [block_types | apply v02_types]).
  unfold v02_rest in *. destruct (selectors_value i) as [| sb sv] eqn:Hs.
  - destruct (v02_left i link Hd Hneed Hs) as (b & left & El & Hb).
    cbn [opt_nested app] in *. unfold v02_tail in *. rewrite El in *.
    apply (rejects_nested_critical _ _ _ b left); [exact Ht | | left; unfold ndn_Tlv_ForwardingHint, ndn_Tlv_Data in Hb; lia].
    intros e1. eexists. apply (v03_stops_after_lifetime room i _ (b :: left) e1 Hi).
    apply List.Forall_cons; [exact Hb | apply List.Forall_nil].
  - cbn [opt_nested app] in *.
    apply (rejects_nested_critical _ _ _ (ndn_Tlv_Selectors, blocks_bytes (sb :: sv)) (v02_tail random i link));
      [exact Ht | | left; cbn; unfold ndn_Tlv_Selectors; lia].
    intros e1. now apply v03_stops_at_selectors.
Qed.

(** An Interest in format v0.2 on the wire. With a selector, a forwarding hint or a link it is not an
    Interest of v0.3, and the decoder, which tries v0.3 first, falls back on v0.2 and gives the same
    Interest, anywhere in a message, but for the application parameters, which v0.2 has not. *)
Theorem interest_v02_roundtrip (room : Room) (n : Z) (random : list Z) (i : ndn_Interest) (link : Blob)
    (pre rest : list Z) :
  v03_ok room i -> selectors_ok room i -> delegation_ok i link -> needs_v02 i -> 0 <= n < 2 ^ 63 ->
  zlen (pre ++ block_bytes (interest_block (i_name i) (v02_rest random i link)) ++ rest) < 2 ^ 63 ->
  exists bs begin end_, run_out n (encodeTlvInterestV0_2 random i) = Ok (bs, (begin, end_)) /\
    decodeTlvInterest room (decoder_at pre bs rest)
    = Ok (v02_decoded random i, (zlen pre + begin, zlen pre + end_),
          mkDecoder (pre ++ bs ++ rest) (zlen pre + zlen bs)) /\
    sub_bytes bs begin (end_ - begin) = blocks_bytes (name_blocks (removelast (i_name i))).
Proof.
  intros Hok Hs Hd Hneed Hn Hl. pose proof Hok as [Hname _ _].
  destruct (interest_packet (i_name i) (encode_afterNameV02 random i) (v02_rest random i link) n
    (decodeTlvInterest room) (v02_decoded random i) pre rest)
    as (bs & b & e & Henc & Hdec & Hsig); try easy.
  - apply (emits_v02 room); [easy | easy |]. now apply tail_fits in Hl.
  - apply v02_types.
  - intros e bs. cbv zeta. intros d rest' Hat.
    destruct (v03_rejects_v02 room random i link e bs Hok Hd Hneed d rest' Hat) as (err & Herr).
    destruct (reads_v02 room random i link e bs Hok Hs Hd d rest' Hat) as (d' & Hr & Hd').
    exists d'. split; [| exact Hd']. unfold decodeTlvInterest. now rewrite Herr, Hr.
  - exists bs, b, e. now split; [exact Henc | split].
Qed.

(** An Interest of v0.2 without selectors, forwarding hint and link says that its name can be a
    prefix, since it has no MaxSuffixComponents. The decoder takes it for an Interest of v0.3 without
    CanBePrefix: decoded, it has MaxSuffixComponents 1 and matches its exact name only. *)
Theorem interest_v02_decoded_as_v03 (room : Room) (n : Z) (random : list Z) (i : ndn_Interest)
    (pre rest : list Z) :
  v03_ok room i -> selectors_ok room i -> delegation_ok i None -> selectors_value i = [] ->
  has_bytes (i_forwardingHintWireEncoding i) = false -> 0 <= n < 2 ^ 63 ->
  zlen (pre ++ block_bytes (interest_block (i_name i) (v02_rest random i None)) ++ rest) < 2 ^ 63 ->
  getCanBePrefix i = true /\
  exists bs signed d, run_out n (encodeTlvInterestV0_2 random i) = Ok (bs, signed) /\
    (decodeTlvInterest room (decoder_at pre bs rest)) =
      Ok (v03_of_v02 i (nonce_bytes random (i_nonce i)), d, mkDecoder (pre ++ bs ++ rest) (zlen pre + zlen bs)) /\
    getCanBePrefix (v03_of_v02 i (nonce_bytes random (i_nonce i))) = false.
Proof.
  intros Hok Hs Hd Hsel Hfh Hn Hl. pose proof Hok as [Hname _ _]. split.
  { unfold selectors_value in Hsel. apply app_eq_nil in Hsel as [_ H]. apply app_eq_nil in H as [H _].
    apply opt_nni_nil in H. unfold round_index in H. unfold getCanBePrefix.
    destruct (Z.geb_spec (i_maxSuffixComponents i) 0); [lia |]. now rewrite (proj2 (Z.eqb_neq _ _)) by lia. }
  destruct (interest_packet (i_name i) (encode_afterNameV02 random i) (v02_rest random i None) n
    (decodeTlvInterestV03 room) (v03_of_v02 i (nonce_bytes random (i_nonce i))) pre rest)
    as (bs & b & e & Henc & Hdec & _); try easy.
  - apply (emits_v02 room); [easy | easy |]. now apply tail_fits in Hl.
  - apply v02_types.
  - intros e bs. cbv zeta.
    apply (reads_nested_at _ _ (fun e => (v03_of_v02 i (nonce_bytes random (i_nonce i)),
      name_signed (i_name i) (name_value_offset (i_name i)
        (e - zlen (blocks_bytes (name_block (i_name i) :: v02_rest random i None))))))).
    { apply List.Forall_cons; [block_types | apply v02_types]. }
    intros e1. unfold v02_rest. rewrite Hsel. cbn [opt_nested app]. unfold v02_tail.
    replace (opt_blob ndn_Tlv_ForwardingHint (i_forwardingHintWireEncoding i)) with (@nil Block)
      by (unfold has_bytes in Hfh; now destruct (i_forwardingHintWireEncoding i) as [[|] |]).
    replace (opt_nni ndn_Tlv_SelectedDelegation (i_selectedDelegationIndex i)) with (@nil Block).
    2: { destruct Hd as [_ _ Hsd _]. unfold opt_nni. destruct (Z.geb_spec (i_selectedDelegationIndex i) 0);
           [specialize (Hsd H); congruence | easy]. }
    apply (v03_stops_after_lifetime room i _ [] e1 Hok). apply List.Forall_nil.
  - exists bs, (b, e). eexists. split; [exact Henc |]. split; [| easy].
    unfold decodeTlvInterest. now rewrite Hdec.
Qed.

(** An Interest with the selectors of v0.2 and a link, and one that has neither. *)
Definition example_interest : ndn_Interest :=
  mkNdnInterest example_name 1 2 (mkKeyLocatorFields KEY_LOCATOR_DIGEST (Some [7; 8]), [])
    [component_entry (generic [1]); any_entry] 1 true 4000000000 (Some [1; 2; 3]) None None
    (Some (tlv_bytes ndn_Tlv_Data [])) 0.
Definition example_plain : ndn_Interest :=
  mkNdnInterest example_name (-1) (-1) ndn_KeyLocator_initial [] (-1) false 4000000000 (Some [1; 2; 3; 4])
    None None None (-1).

Definition example_room : Room := mkRoom 100 100 100.

Lemma example_name_ok : Forall component_ok example_name.
Proof. unfold example_name, component_ok, is_byte. repeat constructor; (lia || (cbn; lia)). Defined.

Lemma interest_v02_roundtrip_witness :
  exists bs begin end_, run_out 8 (encodeTlvInterestV0_2 [9; 9; 9; 9] example_interest) = Ok (bs, (begin, end_)) /\
    decodeTlvInterest example_room (decoder_at [1] bs [2])
    = Ok (v02_decoded [9; 9; 9; 9] example_interest, (zlen [1] + begin, zlen [1] + end_),
          mkDecoder ([1] ++ bs ++ [2]) (zlen [1] + zlen bs)) /\
    sub_bytes bs begin (end_ - begin) = blocks_bytes (name_blocks (removelast example_name)).
Proof.
  apply (interest_v02_roundtrip example_room 8 [9; 9; 9; 9] example_interest (Some [])).
  - split; [exact example_name_ok | cbn; lia | cbn; lia].
  - split; try (cbn; lia); [cbn; easy |]. repeat constructor; cbn; unfold is_byte; (lia || easy).
  - split; (easy || (cbn; lia)).
  - left. discriminate.
  - lia.
  - vm_compute; reflexivity.
Defined.

Lemma interest_v02_decoded_as_v03_witness :
  getCanBePrefix example_plain = true /\
  exists bs signed d, run_out 8 (encodeTlvInterestV0_2 [] example_plain) = Ok (bs, signed) /\
    decodeTlvInterest example_room (decoder_at [1] bs [2])
    = Ok (v03_of_v02 example_plain (nonce_bytes [] (i_nonce example_plain)), d,
          mkDecoder ([1] ++ bs ++ [2]) (zlen [1] + zlen bs)) /\
    getCanBePrefix (v03_of_v02 example_plain (nonce_bytes [] (i_nonce example_plain))) = false.
Proof.
  apply (interest_v02_decoded_as_v03 example_room 8 [] example_plain); try (easy || lia || (vm_compute; reflexivity)).
  - split; [exact example_name_ok | cbn; lia | cbn; lia].
Defined.
