(* ===== verification/TlvControl.v ===== *)
(** * The TLV encoding of management messages

    src/c/encoding/tlv/tlv-control-parameters.c, tlv-control-response.c, tlv-delegation-set.c and
    tlv-encrypted-content.c, with the registration options of src/c/registration-options.c. *)

From stdpp Require Import base list numbers option.
From Stdlib Require Import ZArith Lia.
From S2P Require Import Prelude Encoder Decoder Blocks Name TlvName Data TlvData.
Open Scope Z_scope.
Open Scope ndn_scope.

Definition ndn_Tlv_NfdCommand_ControlResponse : Z := 101.
Definition ndn_Tlv_NfdCommand_StatusCode : Z := 102.
Definition ndn_Tlv_NfdCommand_StatusText : Z := 103.
Definition ndn_Tlv_ControlParameters_ControlParameters : Z := 104.
Definition ndn_Tlv_ControlParameters_FaceId : Z := 105.
Definition ndn_Tlv_ControlParameters_Uri : Z := 114.
Definition ndn_Tlv_ControlParameters_LocalUri : Z := 129.
Definition ndn_Tlv_ControlParameters_LocalControlFeature : Z := 110.
Definition ndn_Tlv_ControlParameters_Origin : Z := 111.
Definition ndn_Tlv_ControlParameters_Cost : Z := 106.
Definition ndn_Tlv_ControlParameters_Capacity : Z := 131.
Definition ndn_Tlv_ControlParameters_Count : Z := 132.
Definition ndn_Tlv_ControlParameters_BaseCongestionMarkingInterval : Z := 135.
Definition ndn_Tlv_ControlParameters_DefaultCongestionThreshold : Z := 136.
Definition ndn_Tlv_ControlParameters_Mtu : Z := 137.
Definition ndn_Tlv_ControlParameters_Flags : Z := 108.
Definition ndn_Tlv_ControlParameters_Mask : Z := 112.
Definition ndn_Tlv_ControlParameters_Strategy : Z := 107.
Definition ndn_Tlv_ControlParameters_ExpirationPeriod : Z := 109.
Definition ndn_Tlv_Link_Preference : Z := 30.
Definition ndn_Tlv_Link_Delegation : Z := 31.
Definition ndn_Tlv_Encrypt_EncryptedContent : Z := 130.
Definition ndn_Tlv_Encrypt_EncryptionAlgorithm : Z := 131.
Definition ndn_Tlv_Encrypt_EncryptedPayload : Z := 132.
Definition ndn_Tlv_Encrypt_InitialVector : Z := 133.
Definition ndn_Tlv_Encrypt_EncryptedPayloadKey : Z := 134.

#[export] Hint Unfold ndn_Tlv_NfdCommand_ControlResponse ndn_Tlv_NfdCommand_StatusCode
  ndn_Tlv_NfdCommand_StatusText ndn_Tlv_ControlParameters_ControlParameters
  ndn_Tlv_ControlParameters_FaceId ndn_Tlv_ControlParameters_Uri ndn_Tlv_ControlParameters_LocalUri
  ndn_Tlv_ControlParameters_LocalControlFeature ndn_Tlv_ControlParameters_Origin
  ndn_Tlv_ControlParameters_Cost ndn_Tlv_ControlParameters_Capacity ndn_Tlv_ControlParameters_Count
  ndn_Tlv_ControlParameters_BaseCongestionMarkingInterval
  ndn_Tlv_ControlParameters_DefaultCongestionThreshold ndn_Tlv_ControlParameters_Mtu
  ndn_Tlv_ControlParameters_Flags ndn_Tlv_ControlParameters_Mask ndn_Tlv_ControlParameters_Strategy
  ndn_Tlv_ControlParameters_ExpirationPeriod ndn_Tlv_Link_Preference ndn_Tlv_Link_Delegation
  ndn_Tlv_Encrypt_EncryptedContent ndn_Tlv_Encrypt_EncryptionAlgorithm
  ndn_Tlv_Encrypt_EncryptedPayload ndn_Tlv_Encrypt_InitialVector
  ndn_Tlv_Encrypt_EncryptedPayloadKey : tlv.

(** ** Registration options *)

Record RegistrationOptions := mkRegistrationOptions {
  childInherit : bool;
  capture : bool;
  ro_origin : Z
}.

Definition RegistrationOptions_initialize : RegistrationOptions := mkRegistrationOptions true false (-1).

Definition ndn_NfdForwardingFlags_CHILD_INHERIT : Z := 1.
Definition ndn_NfdForwardingFlags_CAPTURE : Z := 2.

Definition getNfdForwardingFlags (self : RegistrationOptions) : Z :=
  let result := 0 in
  let result := if childInherit self then Z.lor result ndn_NfdForwardingFlags_CHILD_INHERIT else result in
  if capture self then Z.lor result ndn_NfdForwardingFlags_CAPTURE else result.

(** The origin is left as it is. *)
Definition setNfdForwardingFlags (self : RegistrationOptions) (nfdForwardingFlags : Z) : RegistrationOptions :=
  mkRegistrationOptions
    (negb (Z.land nfdForwardingFlags ndn_NfdForwardingFlags_CHILD_INHERIT =? 0))
    (negb (Z.land nfdForwardingFlags ndn_NfdForwardingFlags_CAPTURE =? 0))
    (ro_origin self).

(** ** Control parameters *)

(** The expiration period is in nanoseconds. *)
Record ndn_ControlParameters := mkControlParameters {
  cp_hasName : bool;
  cp_name : Name;
  cp_faceId : Z;
  cp_uri : Blob;
  cp_localControlFeature : Z;
  cp_origin : Z;
  cp_cost : Z;
  cp_flags : RegistrationOptions;
  cp_strategy : Name;
  cp_expirationPeriod : Z
}.

Definition encodeStrategyValue (controlParameters : ndn_ControlParameters) : writer :=
  only (encodeTlvName (cp_strategy controlParameters)).

Definition encode_flags (flags : RegistrationOptions) : writer :=
  if negb (getNfdForwardingFlags flags =? getNfdForwardingFlags RegistrationOptions_initialize)
  then writeNonNegativeIntegerTlv ndn_Tlv_ControlParameters_Flags (getNfdForwardingFlags flags)
  else fun self => Ok self.

Definition encodeControlParametersValue (controlParameters : ndn_ControlParameters) : writer :=
  (if cp_hasName controlParameters then only (encodeTlvName (cp_name controlParameters))
   else fun self => Ok self) >;>
  writeOptionalNonNegativeIntegerTlv ndn_Tlv_ControlParameters_FaceId (cp_faceId controlParameters) >;>
  writeOptionalBlobTlv ndn_Tlv_ControlParameters_Uri (cp_uri controlParameters) >;>
  writeOptionalNonNegativeIntegerTlv ndn_Tlv_ControlParameters_LocalControlFeature
    (cp_localControlFeature controlParameters) >;>
  writeOptionalNonNegativeIntegerTlv ndn_Tlv_ControlParameters_Origin (cp_origin controlParameters) >;>
  writeOptionalNonNegativeIntegerTlv ndn_Tlv_ControlParameters_Cost (cp_cost controlParameters) >;>
  encode_flags (cp_flags controlParameters) >;>
  (if negb (zlen (cp_strategy controlParameters) =? 0) then
     writeNestedTlv ndn_Tlv_ControlParameters_Strategy (encodeStrategyValue controlParameters) false
   else fun self => Ok self) >;>
  writeOptionalNonNegativeIntegerTlvFromDouble ndn_Tlv_ControlParameters_ExpirationPeriod
    (cp_expirationPeriod controlParameters).

Definition encodeTlvControlParameters (controlParameters : ndn_ControlParameters) : writer :=
  writeNestedTlv ndn_Tlv_ControlParameters_ControlParameters
    (encodeControlParametersValue controlParameters) false.

Definition decode_optional_name (maxComponents endOffset : Z) : Dec (bool * Name) :=
  gotExpectedType ← peekType ndn_Tlv_Name endOffset;
  if gotExpectedType : bool then '(name, _) ← decodeTlvName maxComponents; mret (true, name)
  else mret (false, []).

Definition decode_flags (self : RegistrationOptions) (endOffset : Z) : Dec RegistrationOptions :=
  gotExpectedType ← peekType ndn_Tlv_ControlParameters_Flags endOffset;
  if gotExpectedType : bool then
    flags ← readNonNegativeIntegerTlv ndn_Tlv_ControlParameters_Flags;
    mret (setNfdForwardingFlags self (to_int32 flags))
  else mret RegistrationOptions_initialize.

Definition decode_strategy (maxComponents endOffset : Z) : Dec Name :=
  gotExpectedType ← peekType ndn_Tlv_ControlParameters_Strategy endOffset;
  if gotExpectedType : bool then
    nested ndn_Tlv_ControlParameters_Strategy (fun _ =>
      '(strategy, _) ← decodeTlvName maxComponents; mret strategy)
  else mret [].

(** [maxName] and [maxStrategy] are the room for the components of the two names; [flags] are the
    flags of the structure that is decoded into. *)
Definition decodeTlvControlParameters (maxName maxStrategy : Z) (flags : RegistrationOptions) :
    Dec ndn_ControlParameters :=
  nested ndn_Tlv_ControlParameters_ControlParameters (fun endOffset =>
    '(hasName, name) ← decode_optional_name maxName endOffset;
    faceId ← readOptionalNonNegativeIntegerTlv ndn_Tlv_ControlParameters_FaceId endOffset;
    uri ← readOptionalBlob ndn_Tlv_ControlParameters_Uri endOffset;
    _ ← skipOptionalTlv ndn_Tlv_ControlParameters_LocalUri endOffset;
    localControlFeature ←
      readOptionalNonNegativeIntegerTlv ndn_Tlv_ControlParameters_LocalControlFeature endOffset;
    origin ← readOptionalNonNegativeIntegerTlv ndn_Tlv_ControlParameters_Origin endOffset;
    cost ← readOptionalNonNegativeIntegerTlv ndn_Tlv_ControlParameters_Cost endOffset;
    _ ← skipOptionalTlv ndn_Tlv_ControlParameters_Capacity endOffset;
    _ ← skipOptionalTlv ndn_Tlv_ControlParameters_Count endOffset;
    _ ← skipOptionalTlv ndn_Tlv_ControlParameters_BaseCongestionMarkingInterval endOffset;
    _ ← skipOptionalTlv ndn_Tlv_ControlParameters_DefaultCongestionThreshold endOffset;
    _ ← skipOptionalTlv ndn_Tlv_ControlParameters_Mtu endOffset;
    flags ← decode_flags flags endOffset;
    _ ← skipOptionalTlv ndn_Tlv_ControlParameters_Mask endOffset;
    strategy ← decode_strategy maxStrategy endOffset;
    expirationPeriod ←
      readOptionalNonNegativeIntegerTlvAsDouble ndn_Tlv_ControlParameters_ExpirationPeriod endOffset;
    mret (mkControlParameters hasName name faceId uri localControlFeature origin cost flags strategy
            expirationPeriod)).

(** ** Control responses *)

Record ndn_ControlResponse := mkControlResponse {
  cr_statusCode : Z;
  cr_statusText : Blob;
  cr_body : option ndn_ControlParameters
}.

(** The status code is an [int] that is converted to 64 bits without a sign. *)
Definition encodeControlResponseValue (controlResponse : ndn_ControlResponse) : writer :=
  writeNonNegativeIntegerTlv ndn_Tlv_NfdCommand_StatusCode (wrap64 (cr_statusCode controlResponse)) >;>
  writeBlobTlv ndn_Tlv_NfdCommand_StatusText (blob_bytes (cr_statusText controlResponse)) >;>
  match cr_body controlResponse with
  | Some body => encodeTlvControlParameters body
  | None => fun self => Ok self
  end.

Definition encodeTlvControlResponse (controlResponse : ndn_ControlResponse) : writer :=
  writeNestedTlv ndn_Tlv_NfdCommand_ControlResponse (encodeControlResponseValue controlResponse) false.

Definition decodeTlvControlResponse (maxName maxStrategy : Z) (flags : RegistrationOptions) :
    Dec ndn_ControlResponse :=
  nested ndn_Tlv_NfdCommand_ControlResponse (fun endOffset =>
    statusCode ← readNonNegativeIntegerTlv ndn_Tlv_NfdCommand_StatusCode;
    statusText ← readBlob ndn_Tlv_NfdCommand_StatusText;
    gotExpectedType ← peekType ndn_Tlv_ControlParameters_ControlParameters endOffset;
    body ← (if gotExpectedType : bool
            then body ← decodeTlvControlParameters maxName maxStrategy flags; mret (Some body)
            else mret None);
    mret (mkControlResponse (to_int32 statusCode) (Some statusText) body)).

(** ** Delegations *)

Record ndn_DelegationSet_Delegation := mkTlvDelegation {
  dg_preference : Z;
  dg_name : Name
}.

Definition encodeDelegationValue (delegation : ndn_DelegationSet_Delegation) : writer :=
  writeNonNegativeIntegerTlv ndn_Tlv_Link_Preference (wrap64 (dg_preference delegation)) >;>
  only (encodeTlvName (dg_name delegation)).

Definition encodeTlvDelegationSet_Delegation (delegation : ndn_DelegationSet_Delegation) : writer :=
  writeNestedTlv ndn_Tlv_Link_Delegation (encodeDelegationValue delegation) false.

Definition decodeTlvDelegationSet_Delegation (maxName : Z) : Dec ndn_DelegationSet_Delegation :=
  nested ndn_Tlv_Link_Delegation (fun _ =>
    unsignedPreference ← readNonNegativeIntegerTlv ndn_Tlv_Link_Preference;
    '(name, _) ← decodeTlvName maxName;
    mret (mkTlvDelegation (to_int32 unsignedPreference) name)).

(** ** Encrypted content *)

Record ndn_EncryptedContent := mkEncryptedContent {
  ec_algorithmType : Z;
  ec_keyLocator : KeyLocatorValue;
  ec_initialVector : Blob;
  ec_payload : Blob;
  ec_payloadKey : Blob
}.

(** Version 1 is only decoded here. *)
Definition decodeTlvEncryptedContent (maxKeyName : Z) : Dec ndn_EncryptedContent :=
  nested ndn_Tlv_Encrypt_EncryptedContent (fun endOffset =>
    keyLocator ← decodeTlvKeyLocator maxKeyName ndn_Tlv_KeyLocator;
    algorithmType ← readNonNegativeIntegerTlv ndn_Tlv_Encrypt_EncryptionAlgorithm;
    initialVector ← readOptionalBlob ndn_Tlv_Encrypt_InitialVector endOffset;
    payload ← readBlob ndn_Tlv_Encrypt_EncryptedPayload;
    mret (mkEncryptedContent (to_int32 algorithmType) keyLocator initialVector (Some payload) None)).

Definition encodeEncryptedContentV2Value (encryptedContent : ndn_EncryptedContent) : writer :=
  writeBlobTlv ndn_Tlv_Encrypt_EncryptedPayload (blob_bytes (ec_payload encryptedContent)) >;>
  writeOptionalBlobTlv ndn_Tlv_Encrypt_InitialVector (ec_initialVector encryptedContent) >;>
  writeOptionalBlobTlv ndn_Tlv_Encrypt_EncryptedPayloadKey (ec_payloadKey encryptedContent) >;>
  match kl_type_ (ec_keyLocator encryptedContent).1 with
  | KEYNAME => only (encodeTlvName (ec_keyLocator encryptedContent).2)
  | _ => fun self => Ok self
  end >;>
  writeOptionalNonNegativeIntegerTlv ndn_Tlv_Encrypt_EncryptionAlgorithm
    (ec_algorithmType encryptedContent).

Definition encodeTlvEncryptedContentV2 (encryptedContent : ndn_EncryptedContent) : writer :=
  writeNestedTlv ndn_Tlv_Encrypt_EncryptedContent (encodeEncryptedContentV2Value encryptedContent) false.

Definition decodeTlvEncryptedContentV2 (maxKeyName : Z) : Dec ndn_EncryptedContent :=
  nested ndn_Tlv_Encrypt_EncryptedContent (fun endOffset =>
    payload ← readBlob ndn_Tlv_Encrypt_EncryptedPayload;
    initialVector ← readOptionalBlob ndn_Tlv_Encrypt_InitialVector endOffset;
    payloadKey ← readOptionalBlob ndn_Tlv_Encrypt_EncryptedPayloadKey endOffset;
    '(hasName, keyName) ← decode_optional_name maxKeyName endOffset;
    let keyLocator :=
      if hasName : bool then (mkKeyLocatorFields KEYNAME None, keyName) else ndn_KeyLocator_initial in
    algorithmType ← readOptionalNonNegativeIntegerTlv ndn_Tlv_Encrypt_EncryptionAlgorithm endOffset;
    mret (mkEncryptedContent algorithmType keyLocator initialVector (Some payload) payloadKey)).

(** ** What is encoded *)

Lemma to_int32_wrap64 z : - 2 ^ 31 <= z < 2 ^ 31 -> to_int32 (wrap64 z) = z.
Proof.
  intros H. rewrite <- (to_int32_small z H) at 2. unfold to_int32, wrap64.
  now replace ((z mod 2 ^ 64) mod 2 ^ 32) with (z mod 2 ^ 32) by (Z.to_euclidean_division_equations; lia).
Qed.

Lemma flags_roundtrip flags :
  setNfdForwardingFlags flags (getNfdForwardingFlags flags) = flags /\ 0 <= getNfdForwardingFlags flags < 4.
Proof. destruct flags as [[] [] o]; split; (reflexivity || easy). Qed.

Definition flags_blocks (flags : RegistrationOptions) : list Block :=
  if getNfdForwardingFlags flags =? 1 then []
  else [nni_block ndn_Tlv_ControlParameters_Flags (getNfdForwardingFlags flags)].

Definition strategy_blocks (strategy : Name) : list Block :=
  match strategy with
  | [] => []
  | _ => [(ndn_Tlv_ControlParameters_Strategy, blocks_bytes [name_block strategy])]
  end.

Definition optional_name_blocks (hasName : bool) (name : Name) : list Block :=
  if hasName then [name_block name] else [].

Definition controlParameters_value (c : ndn_ControlParameters) : list Block :=
  optional_name_blocks (cp_hasName c) (cp_name c) ++
  opt_nni ndn_Tlv_ControlParameters_FaceId (cp_faceId c) ++
  opt_blob ndn_Tlv_ControlParameters_Uri (cp_uri c) ++
  opt_nni ndn_Tlv_ControlParameters_LocalControlFeature (cp_localControlFeature c) ++
  opt_nni ndn_Tlv_ControlParameters_Origin (cp_origin c) ++
  opt_nni ndn_Tlv_ControlParameters_Cost (cp_cost c) ++
  flags_blocks (cp_flags c) ++ strategy_blocks (cp_strategy c) ++
  opt_double ndn_Tlv_ControlParameters_ExpirationPeriod (cp_expirationPeriod c).

Definition controlParameters_block (c : ndn_ControlParameters) : Block :=
  (ndn_Tlv_ControlParameters_ControlParameters, blocks_bytes (controlParameters_value c)).
#[export] Hint Unfold controlParameters_block : tlv.

Record controlParameters_ok (maxName maxStrategy : Z) (c : ndn_ControlParameters) : Prop := {
  cp_name_ok : cp_hasName c = true -> Forall component_ok (cp_name c) /\ zlen (cp_name c) <= maxName;
  cp_strategy_ok : Forall component_ok (cp_strategy c) /\ zlen (cp_strategy c) <= maxStrategy;
  cp_faceId_ok : cp_faceId c < 2 ^ 31;
  cp_localControlFeature_ok : cp_localControlFeature c < 2 ^ 31;
  cp_origin_ok : cp_origin c < 2 ^ 31;
  cp_cost_ok : cp_cost c < 2 ^ 31;
  cp_expirationPeriod_ok : cp_expirationPeriod c < 2 ^ 63
}.

(** An integer or a duration that is omitted is decoded as none. *)
Definition optional_index (v : Z) : Z := if v >=? 0 then v else -1.
Definition optional_duration (ns : Z) : Z :=
  if ns >=? 0 then (ns + 500000) / 1000000 * 1000000 else -1000000.

(** The origin of the flags is not on the wire; default flags leave it at none. *)
Definition flags_decoded (self flags : RegistrationOptions) : RegistrationOptions :=
  if getNfdForwardingFlags flags =? 1 then RegistrationOptions_initialize
  else mkRegistrationOptions (childInherit flags) (capture flags) (ro_origin self).

Definition controlParameters_decoded (self : RegistrationOptions) (c : ndn_ControlParameters) :
    ndn_ControlParameters :=
  mkControlParameters (cp_hasName c) (if cp_hasName c then cp_name c else []) (optional_index (cp_faceId c))
    (some_blob (cp_uri c)) (optional_index (cp_localControlFeature c)) (optional_index (cp_origin c))
    (optional_index (cp_cost c)) (flags_decoded self (cp_flags c)) (cp_strategy c)
    (optional_duration (cp_expirationPeriod c)).

Ltac control_types :=
  unfold controlParameters_value, flags_blocks, strategy_blocks, optional_name_blocks;
  repeat match goal with
  | |- context [if ?b then _ else _] => lazymatch type of b with bool => destruct b end
  | |- context [match ?l with nil => _ | cons _ _ => _ end] => destruct l
  end; nested_types.

Lemma emits_optional_name (hasName : bool) name :
  (hasName = true -> Forall component_ok name) -> zlen (blocks_bytes (optional_name_blocks hasName name)) < 2 ^ 64 ->
  Emits (if hasName then only (encodeTlvName name) else fun self => Ok self)
    (blocks_bytes (optional_name_blocks hasName name)).
Proof.
  intros Hn. destruct hasName; cbn [optional_name_blocks]; [| intros; apply emits_nothing].
  rewrite blocks_bytes_one. now apply emits_name, Hn.
Qed.

Lemma emits_flags flags : Emits (encode_flags flags) (blocks_bytes (flags_blocks flags)).
Proof.
  unfold encode_flags, flags_blocks. change (getNfdForwardingFlags RegistrationOptions_initialize) with 1.
  destruct (_ =? 1); cbn [negb]; [apply emits_nothing |].
  rewrite blocks_bytes_one. apply emits_writeNonNegativeIntegerTlv.
Qed.

Lemma emits_strategy c :
  Forall component_ok (cp_strategy c) -> zlen (blocks_bytes (strategy_blocks (cp_strategy c))) < 2 ^ 64 ->
  Emits (if negb (zlen (cp_strategy c) =? 0)
         then writeNestedTlv ndn_Tlv_ControlParameters_Strategy (encodeStrategyValue c) false
         else fun self => Ok self) (blocks_bytes (strategy_blocks (cp_strategy c))).
Proof.
  unfold encodeStrategyValue, strategy_blocks. destruct (cp_strategy c) as [| x s]; intros Hs Hl.
  - apply emits_nothing.
  - cbn [length Z.of_nat Z.eqb negb]. rewrite blocks_bytes_one in *. cbn [fst snd] in *.
    pose proof (zlen_value_le ndn_Tlv_ControlParameters_Strategy (blocks_bytes [name_block (x :: s)])).
    apply (emits_writeNestedTlv _ _ _ false). rewrite blocks_bytes_one in *.
    apply emits_name; [easy |]. unfold name_tlv, name_block, block_bytes in *. cbn [fst snd] in *. lia.
Qed.

Lemma emits_controlParameters maxName maxStrategy c :
  controlParameters_ok maxName maxStrategy c -> zlen (block_bytes (controlParameters_block c)) < 2 ^ 63 ->
  Emits (encodeTlvControlParameters c) (block_bytes (controlParameters_block c)).
Proof.
  intros [Hn [Hs _] _ _ _ _ _] Hl.
  pose proof (zlen_value_le ndn_Tlv_ControlParameters_ControlParameters (blocks_bytes (controlParameters_value c))).
  unfold block_bytes, controlParameters_block in *. cbn [fst snd] in *.
  apply (emits_writeNestedTlv _ _ _ false).
  unfold encodeControlParametersValue, controlParameters_value in *. rewrite !blocks_bytes_app, !length_app in *.
  apply emits_andThen; [apply emits_optional_name; [intros; now apply Hn | lia] |].
  apply emits_andThen; [apply emits_opt_nni |].
  apply emits_andThen; [apply emits_opt_blob; lia |].
  do 3 (apply emits_andThen; [apply emits_opt_nni |]).
  apply emits_andThen; [apply emits_flags |].
  apply emits_andThen; [apply emits_strategy; easy || lia | apply emits_opt_double].
Qed.

Lemma reads_optional_name max (hasName : bool) name e bs :
  (hasName = true -> Forall component_ok name /\ zlen name <= max) -> other_type ndn_Tlv_Name bs ->
  Reads (decode_optional_name max e) (hasName, if hasName then name else []) e
    (optional_name_blocks hasName name ++ bs) bs.
Proof.
  intros Hn Ho. unfold decode_optional_name. destruct hasName; cbn [optional_name_blocks app].
  - destruct (Hn eq_refl). eapply reads_bind; [apply reads_peek_same |]. cbv beta iota.
    eapply reads_bind; [now apply reads_name |]. cbv beta iota. apply reads_ret.
  - eapply reads_bind; [now apply reads_peek_other | apply reads_ret].
Qed.

Lemma reads_flags self flags e bs :
  other_type ndn_Tlv_ControlParameters_Flags bs ->
  Reads (decode_flags self e) (flags_decoded self flags) e (flags_blocks flags ++ bs) bs.
Proof.
  intros Ho. unfold decode_flags, flags_blocks, flags_decoded. destruct (_ =? 1); cbn [app].
  - eapply reads_bind; [now apply reads_peek_other | apply reads_ret].
  - destruct (flags_roundtrip flags) as [Hf Hr].
    eapply reads_bind; [apply reads_peek_same |]. cbv beta iota.
    eapply reads_bind; [apply reads_nni; lia |]. cbv beta. rewrite to_int32_small by lia.
    replace (mkRegistrationOptions (childInherit flags) _ _) with
      (setNfdForwardingFlags self (getNfdForwardingFlags flags)); [apply reads_ret |].
    unfold setNfdForwardingFlags in *. apply (f_equal childInherit) in Hf as H1.
    apply (f_equal capture) in Hf as H2. cbn [childInherit capture] in *. now rewrite H1, H2.
Qed.

Lemma reads_strategy max strategy e bs :
  Forall component_ok strategy -> zlen strategy <= max -> other_type ndn_Tlv_ControlParameters_Strategy bs ->
  Reads (decode_strategy max e) strategy e (strategy_blocks strategy ++ bs) bs.
Proof.
  intros Hs Hm Ho. unfold decode_strategy, strategy_blocks. destruct strategy as [| c s]; cbn [app].
  - eapply reads_bind; [now apply reads_peek_other | apply reads_ret].
  - eapply reads_bind; [apply reads_peek_same |]. cbv beta iota.
    apply reads_nested; [block_types |]. intros e1.
    eapply reads_bind; [now apply reads_name |]. cbv beta iota. apply reads_ret.
Qed.

(** One step of a decoder over a field that the lemma reads. *)
Ltac reads_field lem := eapply reads_bind; [apply lem; easy || control_types |]; cbv beta iota.

Lemma reads_controlParameters maxName maxStrategy self c e bs :
  controlParameters_ok maxName maxStrategy c ->
  Reads (decodeTlvControlParameters maxName maxStrategy self) (controlParameters_decoded self c) e
    (controlParameters_block c :: bs) bs.
Proof.
  intros [Hn [Hs Hsm] ? ? ? ? ?]. apply reads_nested; [control_types |]. intros e1.
  unfold controlParameters_value.
  reads_field reads_optional_name.
  reads_field reads_opt_nni.
  reads_field reads_opt_blob.
  reads_field reads_skip_optional_other.
  do 3 reads_field reads_opt_nni.
  do 5 reads_field reads_skip_optional_other.
  reads_field reads_flags.
  reads_field reads_skip_optional_other.
  reads_field reads_strategy.
  rewrite <- (app_nil_r (opt_double _ _)).
  reads_field reads_opt_double. apply reads_ret.
Qed.

(** Control responses. *)
Definition controlResponse_value (r : ndn_ControlResponse) : list Block :=
  [nni_block ndn_Tlv_NfdCommand_StatusCode (wrap64 (cr_statusCode r));
   (ndn_Tlv_NfdCommand_StatusText, blob_bytes (cr_statusText r))] ++
  match cr_body r with Some c => [controlParameters_block c] | None => [] end.

Definition controlResponse_block (r : ndn_ControlResponse) : Block :=
  (ndn_Tlv_NfdCommand_ControlResponse, blocks_bytes (controlResponse_value r)).

Record controlResponse_ok (maxName maxStrategy : Z) (r : ndn_ControlResponse) : Prop := {
  cr_statusCode_ok : - 2 ^ 31 <= cr_statusCode r < 2 ^ 31;
  cr_body_ok : match cr_body r with Some c => controlParameters_ok maxName maxStrategy c | None => True end
}.

Definition controlResponse_decoded (self : RegistrationOptions) (r : ndn_ControlResponse) : ndn_ControlResponse :=
  mkControlResponse (cr_statusCode r) (Some (blob_bytes (cr_statusText r)))
    (match cr_body r with Some c => Some (controlParameters_decoded self c) | None => None end).

Lemma emits_controlResponse maxName maxStrategy r :
  controlResponse_ok maxName maxStrategy r -> zlen (block_bytes (controlResponse_block r)) < 2 ^ 63 ->
  Emits (encodeTlvControlResponse r) (block_bytes (controlResponse_block r)).
Proof.
  intros [_ Hb] Hl.
  pose proof (zlen_value_le ndn_Tlv_NfdCommand_ControlResponse (blocks_bytes (controlResponse_value r))).
  unfold block_bytes, controlResponse_block in *. cbn [fst snd] in *. apply (emits_writeNestedTlv _ _ _ false).
  unfold encodeControlResponseValue, controlResponse_value in *. cbn [app] in *.
  rewrite !blocks_bytes_cons, !length_app in *. cbn [fst snd] in *.
  apply emits_andThen; [apply emits_writeNonNegativeIntegerTlv |].
  apply emits_andThen; [apply emits_writeBlobTlv; lia |].
  destruct (cr_body r) as [c |]; [| apply emits_nothing]. rewrite blocks_bytes_one in *.
  apply (emits_controlParameters maxName maxStrategy); [easy |]. unfold block_bytes. lia.
Qed.

Lemma reads_controlResponse maxName maxStrategy self r e bs :
  controlResponse_ok maxName maxStrategy r ->
  Reads (decodeTlvControlResponse maxName maxStrategy self) (controlResponse_decoded self r) e
    (controlResponse_block r :: bs) bs.
Proof.
  intros [Hc Hb]. apply reads_nested; [unfold controlResponse_value; destruct (cr_body r); block_types |].
  intros e1. unfold controlResponse_value, controlResponse_decoded. cbn [app].
  eapply reads_bind; [apply reads_nni, wrap64_range |]. cbv beta.
  eapply reads_bind; [apply reads_blob |]. cbv beta. rewrite to_int32_wrap64 by easy. apply reads_assoc.
  destruct (cr_body r) as [c |].
  - eapply reads_bind; [eapply reads_bind; [apply reads_peek_same |]; cbv beta iota | apply reads_ret].
    eapply reads_bind; [now apply reads_controlParameters | apply reads_ret].
  - eapply reads_bind; [eapply reads_bind; [now apply reads_peek_other |] |]; apply reads_ret.
Qed.

(** A control response on the wire, with the control parameters it may carry. It is decoded, anywhere in
    a message, as the same response: every status code of an [int], negative ones included, is
    kept, and of the parameters all fields but the origin of the registration options, which is not on
    the wire; durations are whole milliseconds. *)
Theorem controlResponse_roundtrip (maxName maxStrategy n : Z) (self : RegistrationOptions)
    (r : ndn_ControlResponse) (pre rest : list Z) :
  controlResponse_ok maxName maxStrategy r -> 0 <= n < 2 ^ 63 ->
  zlen (pre ++ block_bytes (controlResponse_block r) ++ rest) < 2 ^ 63 ->
  exists bs, TlvEncoder_run n (encodeTlvControlResponse r) = Ok bs /\
    decodeTlvControlResponse maxName maxStrategy self (decoder_at pre bs rest)
    = Ok (controlResponse_decoded self r, mkDecoder (pre ++ bs ++ rest) (zlen pre + zlen bs)).
Proof.
  intros Hr Hn Hl. apply (block_roundtrip _ _ _ (controlResponse_block r)); try easy.
  - now apply (emits_controlResponse maxName maxStrategy).
  - intros. now apply reads_controlResponse.
Qed.

(** Delegations. *)
Definition delegation_value (d : ndn_DelegationSet_Delegation) : list Block :=
  [nni_block ndn_Tlv_Link_Preference (wrap64 (dg_preference d)); name_block (dg_name d)].
Definition delegation_block (d : ndn_DelegationSet_Delegation) : Block :=
  (ndn_Tlv_Link_Delegation, blocks_bytes (delegation_value d)).
#[export] Hint Unfold delegation_block : tlv.

Record tlv_delegation_ok (maxName : Z) (d : ndn_DelegationSet_Delegation) : Prop := {
  dg_preference_ok : - 2 ^ 31 <= dg_preference d < 2 ^ 31;
  dg_name_ok : Forall component_ok (dg_name d);
  dg_name_fits : zlen (dg_name d) <= maxName
}.

Lemma emits_delegation maxName d :
  tlv_delegation_ok maxName d -> zlen (block_bytes (delegation_block d)) < 2 ^ 63 ->
  Emits (encodeTlvDelegationSet_Delegation d) (block_bytes (delegation_block d)).
Proof.
  intros [_ Hn _] Hl. pose proof (zlen_value_le ndn_Tlv_Link_Delegation (blocks_bytes (delegation_value d))).
  unfold block_bytes, delegation_block in *. cbn [fst snd] in *. apply (emits_writeNestedTlv _ _ _ false).
  unfold encodeDelegationValue, delegation_value in *.
  rewrite !blocks_bytes_cons, !length_app in *. rewrite app_nil_r. cbn [fst snd] in *.
  apply emits_andThen; [apply emits_writeNonNegativeIntegerTlv |].
  apply emits_name; [easy |]. unfold name_tlv, name_block, block_bytes in *. cbn [fst snd] in *. lia.
Qed.

Lemma reads_delegation maxName d e bs :
  tlv_delegation_ok maxName d ->
  Reads (decodeTlvDelegationSet_Delegation maxName) d e (delegation_block d :: bs) bs.
Proof.
  intros [Hp Hn Hm]. apply reads_nested; [unfold delegation_value; block_types |]. intros e1.
  unfold delegation_value. eapply reads_bind; [apply reads_nni, wrap64_range |]. cbv beta.
  eapply reads_bind; [now apply reads_name |]. cbv beta iota.
  rewrite to_int32_wrap64 by easy. destruct d. apply reads_ret.
Qed.

(** Encrypted content. *)
Definition encryptedContent_value (c : ndn_EncryptedContent) : list Block :=
  (ndn_Tlv_Encrypt_EncryptedPayload, blob_bytes (ec_payload c)) ::
  opt_blob ndn_Tlv_Encrypt_InitialVector (ec_initialVector c) ++
  opt_blob ndn_Tlv_Encrypt_EncryptedPayloadKey (ec_payloadKey c) ++
  optional_name_blocks (bool_decide (kl_type_ (ec_keyLocator c).1 = KEYNAME)) (ec_keyLocator c).2 ++
  opt_nni ndn_Tlv_Encrypt_EncryptionAlgorithm (ec_algorithmType c).
Definition encryptedContent_block (c : ndn_EncryptedContent) : Block :=
  (ndn_Tlv_Encrypt_EncryptedContent, blocks_bytes (encryptedContent_value c)).

Record encryptedContent_ok (maxKeyName : Z) (c : ndn_EncryptedContent) : Prop := {
  ec_algorithmType_ok : ec_algorithmType c < 2 ^ 31;
  ec_keyName_ok : kl_type_ (ec_keyLocator c).1 = KEYNAME ->
    Forall component_ok (ec_keyLocator c).2 /\ zlen (ec_keyLocator c).2 <= maxKeyName
}.

(** Only a key name is on the wire. *)
Definition encryptedContent_decoded (c : ndn_EncryptedContent) : ndn_EncryptedContent :=
  mkEncryptedContent (optional_index (ec_algorithmType c))
    (if bool_decide (kl_type_ (ec_keyLocator c).1 = KEYNAME)
     then (mkKeyLocatorFields KEYNAME None, (ec_keyLocator c).2) else ndn_KeyLocator_initial)
    (some_blob (ec_initialVector c)) (Some (blob_bytes (ec_payload c))) (some_blob (ec_payloadKey c)).

Lemma emits_encryptedContent maxKeyName c :
  encryptedContent_ok maxKeyName c -> zlen (block_bytes (encryptedContent_block c)) < 2 ^ 63 ->
  Emits (encodeTlvEncryptedContentV2 c) (block_bytes (encryptedContent_block c)).
Proof.
  intros [_ Hn] Hl.
  pose proof (zlen_value_le ndn_Tlv_Encrypt_EncryptedContent (blocks_bytes (encryptedContent_value c))).
  unfold block_bytes, encryptedContent_block in *. cbn [fst snd] in *. apply (emits_writeNestedTlv _ _ _ false).
  unfold encodeEncryptedContentV2Value, encryptedContent_value in *.
  rewrite !blocks_bytes_cons, !blocks_bytes_app, !length_app in *. cbn [fst snd] in *.
  apply emits_andThen; [apply emits_writeBlobTlv; lia |].
  do 2 (apply emits_andThen; [apply emits_opt_blob; lia |]).
  apply emits_andThen; [| apply emits_opt_nni].
  pose proof (emits_optional_name (bool_decide (kl_type_ (ec_keyLocator c).1 = KEYNAME)) (ec_keyLocator c).2) as He.
  destruct (kl_type_ (ec_keyLocator c).1) eqn:Hk; apply He; try lia; intros; now apply Hn.
Qed.

Lemma reads_encryptedContent maxKeyName c e bs :
  encryptedContent_ok maxKeyName c ->
  Reads (decodeTlvEncryptedContentV2 maxKeyName) (encryptedContent_decoded c) e
    (encryptedContent_block c :: bs) bs.
Proof.
  intros [Ha Hn]. apply reads_nested; [unfold encryptedContent_value; control_types |]. intros e1.
  unfold encryptedContent_value. eapply reads_bind; [apply reads_blob |]. cbv beta.
  do 2 reads_field reads_opt_blob.
  eapply reads_bind; [apply reads_optional_name; [| control_types] |]; cbv beta iota.
  { intros Hk. apply Hn. now apply bool_decide_eq_true in Hk. }
  rewrite <- (app_nil_r (opt_nni _ _)). reads_field reads_opt_nni.
  unfold encryptedContent_decoded. destruct (bool_decide _); apply reads_ret.
Qed.

(** A delegation and an encrypted content of version 2 on the wire are decoded as they were, but for a
    key locator that is not a key name. *)
Lemma delegation_roundtrip max n d pre rest :
  tlv_delegation_ok max d -> 0 <= n < 2 ^ 63 -> zlen (pre ++ block_bytes (delegation_block d) ++ rest) < 2 ^ 63 ->
  exists bs, TlvEncoder_run n (encodeTlvDelegationSet_Delegation d) = Ok bs /\
    decodeTlvDelegationSet_Delegation max (decoder_at pre bs rest)
    = Ok (d, mkDecoder (pre ++ bs ++ rest) (zlen pre + zlen bs)).
Proof.
  intros Hd Hn Hl. apply (block_roundtrip _ _ _ (delegation_block d)); try easy.
  - now apply (emits_delegation max).
  - intros. now apply reads_delegation.
Qed.

Lemma encryptedContent_roundtrip max n c pre rest :
  encryptedContent_ok max c -> 0 <= n < 2 ^ 63 ->
  zlen (pre ++ block_bytes (encryptedContent_block c) ++ rest) < 2 ^ 63 ->
  exists bs, TlvEncoder_run n (encodeTlvEncryptedContentV2 c) = Ok bs /\
    decodeTlvEncryptedContentV2 max (decoder_at pre bs rest)
    = Ok (encryptedContent_decoded c, mkDecoder (pre ++ bs ++ rest) (zlen pre + zlen bs)).
Proof.
  intros Hc Hn Hl. apply (block_roundtrip _ _ _ (encryptedContent_block c)); try easy.
  - now apply (emits_encryptedContent max).
  - intros. now apply reads_encryptedContent.
Qed.

(** ** Witnesses *)

Definition example_controlParameters : ndn_ControlParameters :=
  mkControlParameters true example_name 7 (Some [117]) (-1) 255 10 (mkRegistrationOptions true true (-1))
    [generic [1]] 3600000000000.
Definition example_controlResponse : ndn_ControlResponse :=
  mkControlResponse (-1) (Some [79; 75]) (Some example_controlParameters).

Lemma controlResponse_roundtrip_witness :
  exists bs, TlvEncoder_run 8 (encodeTlvControlResponse example_controlResponse) = Ok bs /\
    decodeTlvControlResponse 100 100 RegistrationOptions_initialize (decoder_at [1] bs [2])
    = Ok (controlResponse_decoded RegistrationOptions_initialize example_controlResponse,
          mkDecoder ([1] ++ bs ++ [2]) (zlen [1] + zlen bs)).
Proof.
  apply (controlResponse_roundtrip 100 100 8); [| lia | vm_compute; reflexivity].
  split; [cbn; lia |]. cbn.
  split; cbn; try lia; [intros _ |]; (split; [| lia]);
    unfold example_name, component_ok, is_byte; repeat constructor; (lia || (cbn; lia)).
Defined.
