(* ===== verification/TlvLpPacket.v ===== *)
(** * LpPackets

    The decoder of the link protocol packets of src/c/encoding/tlv/tlv-lp-packet.c, with the header
    fields of src/c/lp and src/c/network-nack_c.c. *)

From stdpp Require Import base list numbers option.
From Stdlib Require Import ZArith Lia.
From S2P Require Import Prelude Encoder Decoder Blocks Data.
Open Scope Z_scope.
Open Scope ndn_scope.

Definition ndn_Tlv_LpPacket_LpPacket : Z := 100.
Definition ndn_Tlv_LpPacket_Fragment : Z := 80.
Definition ndn_Tlv_LpPacket_Nack : Z := 800.
Definition ndn_Tlv_LpPacket_NackReason : Z := 801.
Definition ndn_Tlv_LpPacket_IncomingFaceId : Z := 817.
Definition ndn_Tlv_LpPacket_CongestionMark : Z := 832.
Definition ndn_Tlv_LpPacket_IGNORE_MIN : Z := 800.
Definition ndn_Tlv_LpPacket_IGNORE_MAX : Z := 959.

#[export] Hint Unfold ndn_Tlv_LpPacket_LpPacket ndn_Tlv_LpPacket_Fragment ndn_Tlv_LpPacket_Nack
  ndn_Tlv_LpPacket_NackReason ndn_Tlv_LpPacket_IncomingFaceId ndn_Tlv_LpPacket_CongestionMark : tlv.

Definition ndn_NetworkNackReason_NONE : Z := 0.
Definition ndn_NetworkNackReason_CONGESTION : Z := 50.
Definition ndn_NetworkNackReason_DUPLICATE : Z := 100.
Definition ndn_NetworkNackReason_NO_ROUTE : Z := 150.
Definition ndn_NetworkNackReason_OTHER_CODE : Z := 32767.

Inductive HeaderField :=
  | IncomingFaceId (faceId : Z)
  | NetworkNack (reason otherReasonCode : Z)
  | CongestionMark (congestionMark : Z).

#[export] Instance HeaderField_eq_dec : EqDecision HeaderField.
Proof. solve_decision. Defined.

Record ndn_LpPacket := mkLpPacket {
  lp_fragmentWireEncoding : Blob;
  lp_headerFields : list HeaderField
}.

(** [ndn_LpPacket_clear]. *)
Definition ndn_LpPacket_initial : ndn_LpPacket := mkLpPacket None [].

(** [ndn_NetworkNack_getFirstHeader]: the reason and the other code of the first Nack. *)
Fixpoint NetworkNack_getFirstHeader (headerFields : list HeaderField) : option (Z * Z) :=
  match headerFields with
  | NetworkNack reason otherReasonCode :: _ => Some (reason, otherReasonCode)
  | _ :: headerFields => NetworkNack_getFirstHeader headerFields
  | [] => None
  end.

Fixpoint IncomingFaceId_getFirstHeader (headerFields : list HeaderField) : option Z :=
  match headerFields with
  | IncomingFaceId faceId :: _ => Some faceId
  | _ :: headerFields => IncomingFaceId_getFirstHeader headerFields
  | [] => None
  end.

Fixpoint CongestionMark_getFirstHeader (headerFields : list HeaderField) : option Z :=
  match headerFields with
  | CongestionMark mark :: _ => Some mark
  | _ :: headerFields => CongestionMark_getFirstHeader headerFields
  | [] => None
  end.

(** [ndn_LpPacket_addEmptyHeaderField]: the field is added before its value is read. *)
Definition add_field (maxHeaderFields : Z) (self : ndn_LpPacket) (read : Dec HeaderField) : Dec ndn_LpPacket :=
  if zlen (lp_headerFields self) >=? maxHeaderFields then
    throw NDN_ERROR_cannot_add_an_entry_past_the_maximum_number_of_entries_allowed_in_the_LpPacket
  else
    field ← read;
    mret (mkLpPacket (lp_fragmentWireEncoding self) (lp_headerFields self ++ [field])).

(** The code that the type keeps, as the enumeration and the other code. *)
Definition nack_of_code (code : Z) : HeaderField :=
  if (code <? 0) || (code =? ndn_NetworkNackReason_NONE) then NetworkNack ndn_NetworkNackReason_NONE (-1)
  else if (code =? ndn_NetworkNackReason_CONGESTION) || (code =? ndn_NetworkNackReason_DUPLICATE) ||
          (code =? ndn_NetworkNackReason_NO_ROUTE) then NetworkNack code (-1)
  else NetworkNack ndn_NetworkNackReason_OTHER_CODE code.

Definition canIgnore (fieldType : Z) : bool :=
  (fieldType >=? ndn_Tlv_LpPacket_IGNORE_MIN) && (fieldType <=? ndn_Tlv_LpPacket_IGNORE_MAX) &&
  (Z.land fieldType 3 =? 0).

(** The header of a field: its type as an [int], its length and the offset of its end. *)
Definition read_field_header : Dec (Z * Z * Z) :=
  fieldTypeVarNumber ← readVarNumber;
  fieldLength ← readVarNumber;
  offset ← get_offset;
  _ ← check_length fieldLength;
  mret (to_int32 fieldTypeVarNumber, fieldLength, wrap64 (offset + fieldLength)).

(** A field that is not the fragment. *)
Definition decode_header_field (maxHeaderFields : Z) (self : ndn_LpPacket)
    (fieldType fieldLength fieldEndOffset : Z) : Dec ndn_LpPacket :=
  self ← (if fieldType =? ndn_Tlv_LpPacket_Nack then
            add_field maxHeaderFields self
              (code ← readOptionalNonNegativeIntegerTlv ndn_Tlv_LpPacket_NackReason fieldEndOffset;
               mret (nack_of_code code))
          else if fieldType =? ndn_Tlv_LpPacket_IncomingFaceId then
            add_field maxHeaderFields self
              (faceId ← readNonNegativeInteger fieldLength; mret (IncomingFaceId faceId))
          else if fieldType =? ndn_Tlv_LpPacket_CongestionMark then
            add_field maxHeaderFields self
              (mark ← readNonNegativeInteger fieldLength; mret (CongestionMark mark))
          else if negb (canIgnore fieldType) then throw NDN_ERROR_did_not_get_the_expected_TLV_type
          else _ ← seek fieldEndOffset; mret self);
  _ ← finishNestedTlvs fieldEndOffset;
  mret self.

(** One turn; the flag tells that the fragment was read, which ends the loop. *)
Definition decode_field (maxHeaderFields : Z) (self : ndn_LpPacket) : Dec (bool * ndn_LpPacket) :=
  '(fieldType, fieldLength, fieldEndOffset) ← read_field_header;
  if fieldType =? ndn_Tlv_LpPacket_Fragment then
    offset ← get_offset;
    fragment ← slice_blob offset fieldEndOffset;
    _ ← seek fieldEndOffset;
    mret (true, mkLpPacket (Some fragment) (lp_headerFields self))
  else
    self ← decode_header_field maxHeaderFields self fieldType fieldLength fieldEndOffset;
    mret (false, self).

Fixpoint decode_fields (fuel : nat) (maxHeaderFields endOffset : Z) (self : ndn_LpPacket) : Dec ndn_LpPacket :=
  fun decoder =>
  if d_offset decoder <? endOffset then
    match fuel with
    | O => Err OutOfFuel
    | S fuel =>
        ('(fragment, self) ← decode_field maxHeaderFields self;
         if fragment : bool then mret self
         else decode_fields fuel maxHeaderFields endOffset self) decoder
    end
  else Ok (self, decoder).

(** A field takes at least two bytes, unless its length wraps the offset. *)
Definition decodeTlvLpPacket (maxHeaderFields : Z) : Dec ndn_LpPacket := fun decoder =>
  nested ndn_Tlv_LpPacket_LpPacket (fun endOffset =>
    decode_fields (S (length (input decoder))) maxHeaderFields endOffset ndn_LpPacket_initial) decoder.

(** ** Well formed packets *)

(** What a reason code on the wire stands for, as the reason of the enumeration and the other code: the
    table of the NDNLPv2 specification. *)
Inductive nack_reason : Z -> Z -> Z -> Prop :=
| reason_none : nack_reason 0 ndn_NetworkNackReason_NONE (-1)
| reason_congestion : nack_reason 50 ndn_NetworkNackReason_CONGESTION (-1)
| reason_duplicate : nack_reason 100 ndn_NetworkNackReason_DUPLICATE (-1)
| reason_no_route : nack_reason 150 ndn_NetworkNackReason_NO_ROUTE (-1)
| reason_other (code : Z) :
    0 < code < 2 ^ 31 -> code <> 50 -> code <> 100 -> code <> 150 ->
    nack_reason code ndn_NetworkNackReason_OTHER_CODE code.

(** The types of header fields that a receiver skips: from 800 to 959 with the two lowest bits zero, other
    than those of the Nack and of the congestion mark. *)
Definition ignorable (type : Z) : Prop :=
  800 <= type <= 959 /\ type mod 4 = 0 /\ type <> 800 /\ type <> 832.

(** The blocks of header fields, with the fields they stand for. *)
Inductive field_block : Block -> list HeaderField -> Prop :=
| nack_field (code reason otherReasonCode : Z) :
    nack_reason code reason otherReasonCode ->
    field_block (800, block_bytes (nni_block 801 code)) [NetworkNack reason otherReasonCode]
| nack_field_empty : field_block (800, []) [NetworkNack ndn_NetworkNackReason_NONE (-1)]
| face_field (faceId : Z) : 0 <= faceId < 2 ^ 64 ->
    field_block (nni_block 817 faceId) [IncomingFaceId faceId]
| mark_field (mark : Z) : 0 <= mark < 2 ^ 64 ->
    field_block (nni_block 832 mark) [CongestionMark mark]
| ignored_field (type : Z) (value : list Z) : ignorable type -> field_block (type, value) [].

Lemma nack_of_code_reason code reason otherReasonCode :
  nack_reason code reason otherReasonCode ->
  0 <= code < 2 ^ 31 /\ nack_of_code code = NetworkNack reason otherReasonCode.
Proof.
  destruct 1 as [| | | | code Hc H50 H100 H150]; [split; [lia | reflexivity] .. |].
  split; [lia |]. unfold nack_of_code, ndn_NetworkNackReason_NONE, ndn_NetworkNackReason_CONGESTION,
    ndn_NetworkNackReason_DUPLICATE, ndn_NetworkNackReason_NO_ROUTE.
  apply Z.eqb_neq in H50, H100, H150. rewrite H50, H100, H150.
  destruct (Z.ltb_spec code 0); [lia |]. destruct (Z.eqb_spec code 0); [lia | easy].
Qed.

Lemma ignorable_canIgnore type : ignorable type -> canIgnore type = true.
Proof.
  unfold ignorable, canIgnore, ndn_Tlv_LpPacket_IGNORE_MIN, ndn_Tlv_LpPacket_IGNORE_MAX.
  rewrite !andb_true_iff, Z.eqb_eq, Z.geb_le, Z.leb_le. intros (H & Hm & _).
  change 3 with (Z.ones 2). rewrite Z.land_ones by lia. change (2 ^ 2) with 4. lia.
Qed.

Lemma field_block_type b hs :
  field_block b hs -> 800 <= b.1 <= 959.
Proof. intros [| | | | ? ? H]; cbn; try lia. apply H. Qed.

Lemma read_field_header_at d t v rest :
  dec_ok d -> 0 <= t < 2 ^ 31 -> remaining d = tlv_bytes t v ++ rest ->
  read_field_header d
  = Ok ((t, zlen v, d_offset d + zlen (tlv_bytes t v)), adv d (header_size t (zlen v))).
Proof.
  intros Hd Ht Hr. assert (Ht' : 0 <= t < 2 ^ 64) by lia.
  destruct (at_block_header d t v rest Hd Ht' Hr) as (_ & Hd2 & Hr2).
  rewrite tlv_bytes_app in Hr. destruct (adv_ok _ _ _ Hd Hr) as [Hd1 Hr1].
  pose proof (inputLength_remaining _ Hd2) as Hl. rewrite Hr2, length_app in Hl. pose proof Hd2 as [Ho2 Hm2].
  assert (Hv : 0 <= zlen v < 2 ^ 64) by (unfold inputLength in *; cbn in *; lia).
  unfold read_field_header. rewrite (dec_bind_ok _ _ _ _ _ (readVarNumber_at _ _ _ Hd Ht' Hr)).
  rewrite (dec_bind_ok _ _ _ _ _ (readVarNumber_at _ _ _ Hd1 Hv Hr1)), adv_adv.
  fold (header_size t (zlen v)). rewrite (dec_bind_ok get_offset _ _ _ _ eq_refl).
  rewrite (dec_bind_ok _ _ _ _ _ (check_length_at _ (zlen v) Hd2 ltac:(lia) ltac:(rewrite Hr2, length_app; lia))).
  rewrite to_int32_small, wrap64_small by (unfold inputLength in *; lia).
  rewrite zlen_tlv_header. unfold mret, Dec_ret, adv. cbn [d_offset]. do 3 f_equal. lia.
Qed.

Lemma finish_here e d : d_offset d = e -> finishNestedTlvs e d = Ok (tt, d).
Proof. intros <-. unfold finishNestedTlvs. now rewrite Z.eqb_refl. Qed.

Definition add_fields (self : ndn_LpPacket) (fields : list HeaderField) : ndn_LpPacket :=
  mkLpPacket (lp_fragmentWireEncoding self) (lp_headerFields self ++ fields).

(** The reason of a Nack, which may be left out. *)
Lemma read_nack d code v rest :
  dec_ok d -> code < 2 ^ 31 -> v = blocks_bytes (opt_nni ndn_Tlv_LpPacket_NackReason code) ->
  remaining d = tlv_bytes ndn_Tlv_LpPacket_Nack v ++ rest ->
  (code ← readOptionalNonNegativeIntegerTlv ndn_Tlv_LpPacket_NackReason
     (d_offset d + zlen (tlv_bytes ndn_Tlv_LpPacket_Nack v)); mret (nack_of_code code))
    (adv d (header_size ndn_Tlv_LpPacket_Nack (zlen v)))
  = Ok (nack_of_code code, adv d (zlen (tlv_bytes ndn_Tlv_LpPacket_Nack v))).
Proof.
  intros Hd Hc -> Hr. set (v := blocks_bytes _) in *. set (e := d_offset d + zlen (tlv_bytes _ v)).
  destruct (at_block_header d ndn_Tlv_LpPacket_Nack v rest Hd ltac:(easy) Hr) as (_ & Hd1 & Hr1).
  destruct (reads_opt_nni ndn_Tlv_LpPacket_NackReason code e [] Hc I
    (adv d (header_size ndn_Tlv_LpPacket_Nack (zlen v))) rest) as (d2 & Hread & Hat & Hin).
  { rewrite app_nil_r. split; [exact Hd1 | unfold opt_nni; destruct (_ >=? 0); block_types | exact Hr1 |].
    fold v. subst e. rewrite zlen_tlv_header. unfold adv. cbn [d_offset]. lia. }
  rewrite (dec_bind_ok _ _ _ _ _ Hread).
  replace (adv d (zlen (tlv_bytes ndn_Tlv_LpPacket_Nack v))) with d2.
  - destruct (Z.geb_spec code 0); [easy |]. unfold nack_of_code.
    now rewrite (proj2 (Z.ltb_lt code 0)) by lia.
  - pose proof (at_end _ _ _ _ Hat) as He. cbn in He. destruct d2 as [i o]. cbn in Hin, He. subst i.
    unfold adv. f_equal. subst e. lia.
Qed.

(** The body of a field, from its value to its end. *)
Lemma decode_header_field_at max self b hs d rest :
  field_block b hs -> dec_ok d -> remaining d = block_bytes b ++ rest ->
  zlen (lp_headerFields self) + zlen hs <= max ->
  decode_header_field max self b.1 (zlen b.2) (d_offset d + zlen (block_bytes b))
    (adv d (header_size b.1 (zlen b.2)))
  = Ok (add_fields self hs, adv d (zlen (block_bytes b))).
Proof.
  intros Hb Hd Hr Hroom. unfold block_bytes in *. set (e := d_offset d + zlen (tlv_bytes b.1 b.2)).
  pose proof (field_block_type b hs Hb) as Ht.
  destruct (at_block_header d b.1 b.2 rest Hd ltac:(lia) Hr) as (_ & Hd1 & Hr1).
  assert (Hend : adv (adv d (header_size b.1 (zlen b.2))) (zlen b.2) = adv d (zlen (tlv_bytes b.1 b.2)))
    by now rewrite adv_adv, zlen_tlv_header.
  assert (Hfin : finishNestedTlvs e (adv d (zlen (tlv_bytes b.1 b.2))) = Ok (tt, adv d (zlen (tlv_bytes b.1 b.2))))
    by now apply finish_here.
  assert (Hadd : forall h m, zlen (lp_headerFields self) + 1 <= max ->
    m (adv d (header_size b.1 (zlen b.2))) = Ok (h, adv d (zlen (tlv_bytes b.1 b.2))) ->
    add_field max self m (adv d (header_size b.1 (zlen b.2)))
    = Ok (add_fields self [h], adv d (zlen (tlv_bytes b.1 b.2)))).
  { intros h m Hm Hok. unfold add_field. destruct (Z.geb_spec (zlen (lp_headerFields self)) max); [lia |].
    now rewrite (dec_bind_ok _ _ _ _ _ Hok). }
  unfold decode_header_field. rewrite (dec_bind_ok _ _ _ (add_fields self hs) (adv d (zlen (tlv_bytes b.1 b.2))));
    [now rewrite (dec_bind_ok _ _ _ _ _ Hfin) |].
  destruct Hb as [code reason other Hc | | f Hf | m Hm | t v Hi]; cbn [fst snd nni_block length] in *.
  - (* The reason is an optional block. *)
    apply nack_of_code_reason in Hc as [Hc Hnack].
    apply (Hadd (NetworkNack reason other)); [exact Hroom |]. rewrite <- Hnack.
    apply (read_nack d code _ rest); [easy | lia | | exact Hr].
    unfold opt_nni. destruct (Z.geb_spec code 0); [now rewrite blocks_bytes_one | lia].
  - apply (Hadd (NetworkNack ndn_NetworkNackReason_NONE (-1))); [exact Hroom |].
    now apply (read_nack d (-1) [] rest).
  - apply (Hadd (IncomingFaceId f)); [exact Hroom |].
    now rewrite (dec_bind_ok _ _ _ _ _ (readNonNegativeInteger_at _ f rest Hd1 Hf Hr1)), Hend.
  - apply (Hadd (CongestionMark m)); [exact Hroom |].
    now rewrite (dec_bind_ok _ _ _ _ _ (readNonNegativeInteger_at _ m rest Hd1 Hm Hr1)), Hend.
  - rewrite (ignorable_canIgnore t Hi). destruct Hi as (Hi & Hmod & Hnack & Hmark).
    replace (t =? ndn_Tlv_LpPacket_Nack) with false by (symmetry; now apply Z.eqb_neq).
    replace (t =? ndn_Tlv_LpPacket_IncomingFaceId) with false.
    2: { symmetry. apply Z.eqb_neq. intros ->. discriminate. }
    replace (t =? ndn_Tlv_LpPacket_CongestionMark) with false by (symmetry; now apply Z.eqb_neq).
    unfold add_fields. rewrite app_nil_r. destruct self. reflexivity.
Qed.

Lemma reads_header_field max self b hs e bs :
  field_block b hs -> zlen (lp_headerFields self) + zlen hs <= max ->
  Reads (decode_field max self) (false, add_fields self hs) e (b :: bs) bs.
Proof.
  intros Hb Hroom d rest Hat. pose proof (field_block_type b hs Hb) as Ht.
  destruct (at_block _ _ _ _ _ Hat) as [_ Hr]. pose proof (at_ok _ _ _ _ Hat) as Hd.
  eexists. split; [| split; [exact (at_next _ _ _ _ _ Hat) | easy]].
  unfold decode_field.
  rewrite (dec_bind_ok _ _ _ _ _ (read_field_header_at d b.1 b.2 _ Hd ltac:(lia) Hr)).
  replace (b.1 =? ndn_Tlv_LpPacket_Fragment) with false
    by (symmetry; apply Z.eqb_neq; unfold ndn_Tlv_LpPacket_Fragment; lia).
  now rewrite (dec_bind_ok _ _ _ _ _ (decode_header_field_at max self b hs d _ Hb Hd Hr Hroom)).
Qed.

Lemma reads_fragment max self fragment e bs :
  Reads (decode_field max self) (true, mkLpPacket (Some fragment) (lp_headerFields self)) e
    ((ndn_Tlv_LpPacket_Fragment, fragment) :: bs) bs.
Proof.
  intros d rest Hat. destruct (at_block _ _ _ _ _ Hat) as [_ Hr]. pose proof (at_ok _ _ _ _ Hat) as Hd.
  cbn [fst snd] in Hr. eexists. split; [| split; [exact (at_next _ _ _ _ _ Hat) | easy]]. cbn [fst snd].
  unfold decode_field.
  rewrite (dec_bind_ok _ _ _ _ _ (read_field_header_at d ndn_Tlv_LpPacket_Fragment fragment _ Hd ltac:(easy) Hr)).
  cbn [Z.eqb ndn_Tlv_LpPacket_Fragment Pos.eqb].
  rewrite (dec_bind_ok get_offset _ _ _ _ eq_refl).
  destruct (at_block_header d ndn_Tlv_LpPacket_Fragment fragment _ Hd ltac:(easy) Hr) as (_ & Hd1 & Hr1).
  set (d1 := adv d (header_size ndn_Tlv_LpPacket_Fragment (zlen fragment))) in *.
  replace (d_offset d + zlen (tlv_bytes ndn_Tlv_LpPacket_Fragment fragment)) with (d_offset d1 + zlen fragment).
  2: { rewrite zlen_tlv_header. subst d1. unfold adv. cbn [d_offset]. lia. }
  rewrite (dec_bind_ok _ _ _ _ _ (slice_blob_bytes d1 fragment _ d1 Hd1 Hr1 eq_refl)).
  unfold mbind, Dec_bind, Decoder.seek. subst d1. unfold adv, mret, Dec_ret. cbn [d_offset input].
  rewrite zlen_tlv_header. do 3 f_equal. lia.
Qed.

(** An LpPacket with header fields and an optional fragment, which ends it. *)
Definition fragment_blocks (fragment : Blob) : list Block :=
  match fragment with Some f => [(ndn_Tlv_LpPacket_Fragment, f)] | None => [] end.
Definition lp_value (fields : list (Block * list HeaderField)) (fragment : Blob) : list Block :=
  map fst fields ++ fragment_blocks fragment.
Definition lp_block (fields : list (Block * list HeaderField)) (fragment : Blob) : Block :=
  (ndn_Tlv_LpPacket_LpPacket, blocks_bytes (lp_value fields fragment)).

Abbreviation fields_ok := (Forall (fun f : Block * list HeaderField => field_block f.1 f.2)).
Abbreviation header_fields fields := (concat (map (@snd Block (list HeaderField)) fields)).

Lemma lp_value_types fields fragment : fields_ok fields -> Forall type_ok (lp_value fields fragment).
Proof.
  intros Hf. apply Forall_app. split; [| destruct fragment; cbn; block_types].
  induction Hf as [| [b hs] fields Hb _ IH]; constructor; [| easy].
  apply field_block_type in Hb. unfold type_ok. cbn in *. lia.
Qed.

Lemma reads_fields fields max fragment self fuel e :
  fields_ok fields -> (length (lp_value fields fragment) <= fuel)%nat ->
  zlen (lp_headerFields self) + zlen (header_fields fields) <= max ->
  lp_fragmentWireEncoding self = None ->
  Reads (decode_fields fuel max e self) (mkLpPacket fragment (lp_headerFields self ++ header_fields fields)) e
    (lp_value fields fragment) [].
Proof.
  intros Hf. revert self fuel. induction Hf as [| [b hs] fields Hb _ IH]; intros self fuel Hfuel Hroom Hnone d rest Hat.
  - unfold lp_value in *. cbn [map app concat] in *. rewrite app_nil_r.
    destruct fragment as [f |]; cbn [fragment_blocks length] in *.
    + destruct fuel as [| fuel]; [lia |]. cbn [decode_fields].
      rewrite (proj2 (Z.ltb_lt _ _) (at_not_end _ _ _ _ _ Hat)).
      destruct (reads_fragment max self f e [] d rest Hat) as (d1 & H1 & Hat1 & Hi1).
      exists d1. now rewrite (dec_bind_ok _ _ _ _ _ H1).
    + exists d. split; [| easy]. pose proof (at_end _ _ _ _ Hat) as He. cbn in He.
      destruct self as [fr hf]. cbn in *. subst fr.
      destruct fuel; cbn [decode_fields]; now rewrite (proj2 (Z.ltb_ge _ _)) by lia.
  - unfold lp_value in Hat, Hfuel. cbn [map app length concat fst snd] in *.
    change (map fst fields ++ fragment_blocks fragment) with (lp_value fields fragment) in *.
    destruct fuel as [| fuel]; [lia |]. rewrite length_app in Hroom.
    pose proof (reads_header_field max self b hs e (lp_value fields fragment) Hb ltac:(lia)) as H1.
    destruct (H1 d rest Hat) as (d1 & Hd1 & Hat1 & Hi1).
    destruct (IH (add_fields self hs) fuel ltac:(lia)) with (d := d1) (rest := rest)
      as (d2 & Hd2 & Hat2 & Hi2); [cbn; rewrite length_app; lia | easy | easy |].
    exists d2. split; [| split; [easy | congruence]]. cbn [decode_fields].
    rewrite (proj2 (Z.ltb_lt _ _) (at_not_end _ _ _ _ _ Hat)), (dec_bind_ok _ _ _ _ _ Hd1), Hd2.
    cbn [lp_headerFields add_fields]. now rewrite app_assoc.
Qed.

Lemma reads_lpPacket fields max fragment e bs :
  fields_ok fields -> zlen (header_fields fields) <= max ->
  Reads (decodeTlvLpPacket max) (mkLpPacket fragment (header_fields fields)) e (lp_block fields fragment :: bs) bs.
Proof.
  intros Hf Hroom d rest Hat. unfold decodeTlvLpPacket.
  apply (reads_nested ndn_Tlv_LpPacket_LpPacket _ (mkLpPacket fragment (header_fields fields)) (lp_value fields fragment) e bs);
    [now apply lp_value_types | | exact Hat].
  intros e1. apply (reads_fields fields max fragment ndn_LpPacket_initial); [easy | | easy | easy].
  destruct (at_block _ _ _ _ _ Hat) as [_ Hr]. unfold lp_block in Hr. cbn [fst snd] in Hr.
  pose proof (length_blocks (lp_value fields fragment)) as Hlb.
  pose proof (zlen_tlv_header ndn_Tlv_LpPacket_LpPacket (blocks_bytes (lp_value fields fragment))) as Hh.
  apply (f_equal (@length Z)) in Hr. unfold remaining in Hr. rewrite length_drop, length_app in Hr.
  pose proof (zlen_varNumber_bytes ndn_Tlv_LpPacket_LpPacket). unfold header_size in Hh.
  unfold blocks_bytes in *. lia.
Qed.

(** C33: an LpPacket whose header fields are Nacks, incoming face identifiers, congestion marks and fields of a
    type that a receiver may ignore (800 to 959, the two lowest bits zero), with or without a fragment, is decoded,
    anywhere in a message, when the array has room for the fields: to the bytes of the fragment and to the
    fields in their order, an ignored one leaving none. A Nack gives NONE when it has no reason or the code 0,
    CONGESTION for 50, DUPLICATE for 100, NO_ROUTE for 150, and for another code below 2^31 the other code
    itself; codes from 2^31 on, which do not fit the [int] of the decoder, are left out. *)
Theorem lpPacket_decoded (max : Z) (fields : list (Block * list HeaderField)) (fragment : Blob)
    (pre rest : list Z) :
  fields_ok fields -> zlen (header_fields fields) <= max ->
  zlen (pre ++ block_bytes (lp_block fields fragment) ++ rest) < 2 ^ 63 ->
  decodeTlvLpPacket max (decoder_at pre (block_bytes (lp_block fields fragment)) rest)
  = Ok (mkLpPacket fragment (header_fields fields),
        mkDecoder (pre ++ block_bytes (lp_block fields fragment) ++ rest)
          (zlen pre + zlen (block_bytes (lp_block fields fragment)))).
Proof.
  intros Hf Hroom Hl. apply reads_decoder_at; [easy | easy |]. now apply reads_lpPacket.
Qed.

(** Decoding an LpPacket may never end. The length of a field that can be ignored may wrap the offset
    back to the field itself: on this packet of 14 bytes the loop reads the same field for ever,
    whatever the bound on its turns. *)
Theorem lpPacket_diverges (max : Z) :
  let packet := [100; 12; 253; 3; 48; 255; 255; 255; 255; 255; 255; 255; 255; 244] in
  (forall fuel, decode_fields fuel max 14 ndn_LpPacket_initial (mkDecoder packet 2) = Err OutOfFuel) /\
  decodeTlvLpPacket max (TlvDecoder_initialize packet) = Err OutOfFuel.
Proof.
  intros packet.
  assert (H : forall fuel, decode_fields fuel max 14 ndn_LpPacket_initial (mkDecoder packet 2) = Err OutOfFuel).
  { intros fuel. induction fuel as [| fuel IH]; [easy |]. cbn [decode_fields].
    change (d_offset (mkDecoder packet 2) <? 14) with true.
    now rewrite (dec_bind_ok _ _ _ (false, ndn_LpPacket_initial) (mkDecoder packet 2)) by (vm_compute; reflexivity). }
  split; [exact H |]. unfold decodeTlvLpPacket, nested.
  rewrite (dec_bind_ok (readNestedTlvsStart _) _ _ 14 (mkDecoder packet 2)) by (vm_compute; reflexivity).
  unfold mbind at 1, Dec_bind at 1. now rewrite H.
Qed.

(** ** Witness *)

Lemma lpPacket_decoded_witness :
  let fields := [((816, [5]), []); (nni_block 817 300, [IncomingFaceId 300]);
                 ((800, [253; 3; 33; 1; 150]), [NetworkNack ndn_NetworkNackReason_NO_ROUTE (-1)]);
                 ((800, [253; 3; 33; 1; 7]), [NetworkNack ndn_NetworkNackReason_OTHER_CODE 7])] in
  decodeTlvLpPacket 5 (decoder_at [1] (block_bytes (lp_block fields (Some [5; 0]))) [2])
  = Ok (mkLpPacket (Some [5; 0]) [IncomingFaceId 300; NetworkNack 150 (-1); NetworkNack 32767 7],
        mkDecoder ([1] ++ block_bytes (lp_block fields (Some [5; 0])) ++ [2])
          (zlen [1] + zlen (block_bytes (lp_block fields (Some [5; 0]))))).
Proof.
  intros fields. apply (lpPacket_decoded 5 fields (Some [5; 0]) [1] [2]); [| cbn; lia | vm_compute; reflexivity].
  apply List.Forall_cons; [apply ignored_field; repeat split; lia |].
  apply List.Forall_cons; [now apply face_field |].
  apply List.Forall_cons; [exact (nack_field 150 _ _ reason_no_route) |].
  apply List.Forall_cons; [| apply List.Forall_nil].
  apply (nack_field 7 _ _ (reason_other 7 ltac:(lia) ltac:(lia) ltac:(lia) ltac:(lia))).
Defined.
