(* ===== verification/Interest.v ===== *)
(** * Interest packets

    The object [Interest] of src/interest.cpp and include/ndn-ind/interest.hpp: its setters with
    their change counts, the nonce that a change invalidates, the cached encoding, the copies, and
    the matching of names and Data packets. The deprecated [link_] object is left out: only its
    wire encoding is kept. *)

From stdpp Require Import base list numbers option strings.
From Stdlib Require Import ZArith Lia.
From S2P Require Import Prelude Order Name NameUri ChangeCounter Exclude DelegationSet Data.
Open Scope Z_scope.

(** ** The object *)

(** Times are in nanoseconds; -1 stands for an omitted integer. *)
Record InterestFields := mkInterestFields {
  minSuffixComponents_ : Z;
  maxSuffixComponents_ : Z;
  didSetCanBePrefix_ : bool;
  childSelector_ : Z;
  mustBeFresh_ : bool;
  interestLifetime_ : Z;
  applicationParameters_ : Blob;
  linkWireEncoding_ : Blob;
  selectedDelegationIndex_ : Z
}.

Abbreviation InterestChildren := (ChangeCounter NameObject * (ChangeCounter KeyLocator *
  (ChangeCounter ExcludeObject * ChangeCounter DelegationSet)))%type.
Abbreviation InterestObject := (Composite InterestFields InterestChildren).
Abbreviation InterestValue :=
  (InterestFields * (Name * (KeyLocatorValue * (Exclude * list Delegation))))%type.

Definition interest_name (i : InterestValue) : Name := i.2.1.
Definition interest_keyLocator (i : InterestValue) : KeyLocatorValue := i.2.2.1.
Definition interest_exclude (i : InterestValue) : Exclude := i.2.2.2.1.
Definition interest_forwardingHint (i : InterestValue) : list Delegation := i.2.2.2.2.

Record Interest := mkInterest {
  interest_cached : Cached InterestObject;
  nonce_ : Blob;
  getNonceChangeCount_ : Z
}.

Definition interest_object (i : Interest) : InterestObject := object_ (interest_cached i).
Definition interest_value (i : Interest) : InterestValue := value_of (interest_object i).

(** The constructors with a name; [construct]. *)
Definition Interest_new (name : Name) (defaultCanBePrefix didSetDefault : bool) : Interest :=
  mkInterest (mkCached (mkComposite
    (mkInterestFields (-1) (if defaultCanBePrefix then -1 else 1) didSetDefault (-1) false
      (-1000000) None None (-1))
    (counter_set (mkCounted name 0), (counter_set KeyLocator_new, (counter_set (mkCounted [] 0),
     counter_set (mkCounted [] 0)))) 0) None 0 0) None 0.

(** *** Setters *)

Definition interest_method (f : InterestObject -> InterestObject) (i : Interest) : Interest :=
  mkInterest (with_object f (interest_cached i)) (nonce_ i) (getNonceChangeCount_ i).

Definition set_fields (f : InterestFields -> InterestFields) : Interest -> Interest :=
  interest_method (composite_set f id).

Definition setName (name : NameObject) : Interest -> Interest :=
  interest_method (composite_set id (fun c => (counter_set name, c.2))).

Definition setMinSuffixComponents (v : Z) : Interest -> Interest :=
  set_fields (fun f => mkInterestFields v (maxSuffixComponents_ f) (didSetCanBePrefix_ f)
    (childSelector_ f) (mustBeFresh_ f) (interestLifetime_ f) (applicationParameters_ f)
    (linkWireEncoding_ f) (selectedDelegationIndex_ f)).

Definition setMaxSuffixComponents (v : Z) : Interest -> Interest :=
  set_fields (fun f => mkInterestFields (minSuffixComponents_ f) v (didSetCanBePrefix_ f)
    (childSelector_ f) (mustBeFresh_ f) (interestLifetime_ f) (applicationParameters_ f)
    (linkWireEncoding_ f) (selectedDelegationIndex_ f)).

Definition setCanBePrefix (canBePrefix : bool) : Interest -> Interest :=
  set_fields (fun f => mkInterestFields (minSuffixComponents_ f) (if canBePrefix then -1 else 1) true
    (childSelector_ f) (mustBeFresh_ f) (interestLifetime_ f) (applicationParameters_ f)
    (linkWireEncoding_ f) (selectedDelegationIndex_ f)).

Definition setChildSelector (v : Z) : Interest -> Interest :=
  set_fields (fun f => mkInterestFields (minSuffixComponents_ f) (maxSuffixComponents_ f)
    (didSetCanBePrefix_ f) v (mustBeFresh_ f) (interestLifetime_ f) (applicationParameters_ f)
    (linkWireEncoding_ f) (selectedDelegationIndex_ f)).

Definition setMustBeFresh (v : bool) : Interest -> Interest :=
  set_fields (fun f => mkInterestFields (minSuffixComponents_ f) (maxSuffixComponents_ f)
    (didSetCanBePrefix_ f) (childSelector_ f) v (interestLifetime_ f) (applicationParameters_ f)
    (linkWireEncoding_ f) (selectedDelegationIndex_ f)).

Definition setInterestLifetime (v : Z) : Interest -> Interest :=
  set_fields (fun f => mkInterestFields (minSuffixComponents_ f) (maxSuffixComponents_ f)
    (didSetCanBePrefix_ f) (childSelector_ f) (mustBeFresh_ f) v (applicationParameters_ f)
    (linkWireEncoding_ f) (selectedDelegationIndex_ f)).

Definition setApplicationParameters (v : Blob) : Interest -> Interest :=
  set_fields (fun f => mkInterestFields (minSuffixComponents_ f) (maxSuffixComponents_ f)
    (didSetCanBePrefix_ f) (childSelector_ f) (mustBeFresh_ f) (interestLifetime_ f) v
    (linkWireEncoding_ f) (selectedDelegationIndex_ f)).

Definition setLinkWireEncoding (v : Blob) : Interest -> Interest :=
  set_fields (fun f => mkInterestFields (minSuffixComponents_ f) (maxSuffixComponents_ f)
    (didSetCanBePrefix_ f) (childSelector_ f) (mustBeFresh_ f) (interestLifetime_ f)
    (applicationParameters_ f) v (selectedDelegationIndex_ f)).

Definition setSelectedDelegationIndex (v : Z) : Interest -> Interest :=
  set_fields (fun f => mkInterestFields (minSuffixComponents_ f) (maxSuffixComponents_ f)
    (didSetCanBePrefix_ f) (childSelector_ f) (mustBeFresh_ f) (interestLifetime_ f)
    (applicationParameters_ f) (linkWireEncoding_ f) v).

Definition setKeyLocator (keyLocator : KeyLocator) : Interest -> Interest :=
  interest_method (composite_set id (fun c => (c.1, (counter_set keyLocator, c.2.2)))).

Definition setExclude (exclude : ExcludeObject) : Interest -> Interest :=
  interest_method (composite_set id (fun c => (c.1, (c.2.1, (counter_set exclude, c.2.2.2))))).

(** [forwardingHint_ = forwardingHint] assigns a new counter: the target by the [operator=] of
    DelegationSet, which keeps the count of the old target, and the local count of the new. *)
Definition setForwardingHint (forwardingHint : DelegationSet) : Interest -> Interest :=
  interest_method (composite_set id (fun c => (c.1, (c.2.1, (c.2.2.1,
    mkCounter (delegationSet_assign forwardingHint (target_ c.2.2.2))
      (local_ (counter_set forwardingHint))))))).

(** *** Changes through the references that the getters return *)

Definition getName_modify (f : NameObject -> NameObject) : Interest -> Interest :=
  interest_method (composite_modify (fun c => (counter_modify f c.1, c.2))).
Definition getKeyLocator_modify (f : KeyLocator -> KeyLocator) : Interest -> Interest :=
  interest_method (composite_modify (fun c => (c.1, (counter_modify f c.2.1, c.2.2)))).
Definition getExclude_modify (f : ExcludeObject -> ExcludeObject) : Interest -> Interest :=
  interest_method (composite_modify (fun c => (c.1, (c.2.1, (counter_modify f c.2.2.1, c.2.2.2))))).
Definition getForwardingHint_modify (f : DelegationSet -> DelegationSet) : Interest -> Interest :=
  interest_method (composite_modify (fun c => (c.1, (c.2.1, (c.2.2.1, counter_modify f c.2.2.2))))).

(** *** The nonce *)

(** [getChangeCount] on the Interest. *)
Definition interest_settle (i : Interest) : Z * Interest :=
  let '(count, object) := getChangeCount (interest_object i) in
  (count, mkInterest (with_object (fun _ => object) (interest_cached i)) (nonce_ i)
            (getNonceChangeCount_ i)).

Definition getNonce (i : Interest) : Blob * Interest :=
  let '(count, i) := interest_settle i in
  if negb (getNonceChangeCount_ i =? count) then (None, mkInterest (interest_cached i) None count)
  else (nonce_ i, i).

Definition setNonce (nonce : Blob) (i : Interest) : Interest :=
  let '(count, i) := interest_settle (set_fields id i) in mkInterest (interest_cached i) nonce count.

Definition blob_size (b : Blob) : Z := zlen (default [] b).

(** [refreshNonce]: draw random bytes until they differ from the nonce. [draws] is what the random
    generator gives, in order; the loop does not end when all of them are the nonce. *)
Definition refreshNonce (draws : list (list Z)) (i : Interest) : result failure Interest :=
  let '(currentNonce, i) := getNonce i in
  if blob_size currentNonce =? 0 then Ok i
  else
    match list_find (fun newNonce => Some newNonce <> currentNonce) draws with
    | Some (_, newNonce) => Ok (setNonce (Some newNonce) i)
    | None => Err OutOfFuel
    end.

(** *** Encoding *)

Section WireFormat.
(** [encodeInterest] of a wire format, which gets the fields and [nonce_] as it is, and
    [decodeInterest]. *)
Context (default : Z) (encodeInterest : Z -> InterestValue -> Blob -> list Z).
Context (decodeInterest : Z -> list Z -> Interest -> Interest).

Definition interest_wireEncode (format : Z) (i : Interest) : list Z * Interest :=
  let '(encoding, cached) :=
    wireEncode default (fun f o => encodeInterest f (value_of o) (nonce_ i)) format
      (interest_cached i) in
  (encoding, mkInterest cached (nonce_ i) (getNonceChangeCount_ i)).

Definition interest_wireDecode (input : list Z) (format : Z) (i : Interest) : Interest :=
  let i := decodeInterest format input i in
  mkInterest
    (if format =? default then setDefaultWireEncoding (Some input) default (interest_cached i)
     else setDefaultWireEncoding None 0 (interest_cached i))
    (nonce_ i) (getNonceChangeCount_ i).
End WireFormat.

(** *** Copies *)

(** The copy constructor: the counters are copied with their local counts, and then the default
    encoding of the other, whose change count is brought up to date for it. *)
Definition interest_copy (interest : Interest) : Interest :=
  let encoding := getDefaultWireEncoding (interest_cached interest) in
  let object := mkComposite (own_ (interest_object interest)) (children_ (interest_object interest)) 0 in
  mkInterest
    (setDefaultWireEncoding (defaultWireEncoding_ encoding) (defaultWireEncodingFormat_ encoding)
       (mkCached object None 0 0))
    (nonce_ interest) 0.

(** [operator=]: the setters in the order of the source. *)
Definition interest_assign (interest self : Interest) : Interest :=
  let f := own_ (interest_object interest) in
  let c := children_ (interest_object interest) in
  let self := setName (target_ c.1) self in
  let self := setMinSuffixComponents (minSuffixComponents_ f) self in
  let self := setMaxSuffixComponents (maxSuffixComponents_ f) self in
  let direct g i := interest_method (fun o => mkComposite (g (own_ o)) (children_ o)
                                              (composite_count_ o)) i in
  let self := direct (fun f0 => mkInterestFields (minSuffixComponents_ f0) (maxSuffixComponents_ f0)
    (didSetCanBePrefix_ f) (childSelector_ f0) (mustBeFresh_ f0) (interestLifetime_ f0)
    (applicationParameters_ f0) (linkWireEncoding_ f0) (selectedDelegationIndex_ f0)) self in
  let self := setKeyLocator (target_ c.2.1) self in
  let self := setExclude (target_ c.2.2.1) self in
  let self := setChildSelector (childSelector_ f) self in
  let self := direct (fun f0 => mkInterestFields (minSuffixComponents_ f0) (maxSuffixComponents_ f0)
    (didSetCanBePrefix_ f0) (childSelector_ f0) (mustBeFresh_ f) (interestLifetime_ f0)
    (applicationParameters_ f0) (linkWireEncoding_ f0) (selectedDelegationIndex_ f0)) self in
  let self := setInterestLifetime (interestLifetime_ f) self in
  let self := setNonce (nonce_ interest) self in
  let self := direct (fun f0 => mkInterestFields (minSuffixComponents_ f0) (maxSuffixComponents_ f0)
    (didSetCanBePrefix_ f0) (childSelector_ f0) (mustBeFresh_ f0) (interestLifetime_ f0)
    (applicationParameters_ f0) (linkWireEncoding_ f) (selectedDelegationIndex_ f0)) self in
  let self := setSelectedDelegationIndex (selectedDelegationIndex_ f) self in
  let encoding := getDefaultWireEncoding (interest_cached interest) in
  mkInterest
    (setDefaultWireEncoding (defaultWireEncoding_ encoding) (defaultWireEncodingFormat_ encoding)
       (interest_cached self))
    (nonce_ self) (getNonceChangeCount_ self).

(** ** Matching *)

Definition matchesName (i : InterestValue) (name : Name) : result exn bool :=
  let f := i.1 in
  let suffix := zlen name + 1 - zlen (interest_name i) in
  if negb (name_match (interest_name i) name) then Ok false
  else if (minSuffixComponents_ f >=? 0) && negb (suffix >=? minSuffixComponents_ f) then Ok false
  else if (maxSuffixComponents_ f >=? 0) && negb (suffix <=? maxSuffixComponents_ f) then Ok false
  else if (zlen (interest_exclude i) >? 0) && (zlen name >? zlen (interest_name i)) then
    component ← name_get name (zlen (interest_name i));
    mret (negb (exclude_matches (interest_exclude i) component))
  else Ok true.

Definition isImplicitSha256Digest (c : Component) : bool :=
  bool_decide (type_ c = IMPLICIT_SHA256_DIGEST).

(** The part of [matchesData] on the prefix and the exclude, for the full name of the data. *)
Definition matches_prefix (interestName dataName fullName : Name) : result exn bool :=
  if zlen interestName =? zlen dataName + 1 then
    last ← name_get interestName (-1);
    if isImplicitSha256Digest last then mret (name_equals interestName fullName) else mret false
  else Ok (name_match interestName dataName).

Definition matches_exclude (exclude : Exclude) (interestNameLength : Z) (dataName fullName : Name)
  : result exn bool :=
  let fullNameLength := zlen dataName + 1 in
  if (zlen exclude >? 0) && (fullNameLength >? interestNameLength) then
    component ← (if interestNameLength =? fullNameLength - 1
                 then name_get fullName interestNameLength
                 else name_get dataName interestNameLength);
    mret (negb (exclude_matches exclude component))
  else Ok true.

Definition matches_keyLocator (keyLocator : KeyLocatorValue) (signature : SignatureValue)
  : result exn bool :=
  if bool_decide (kl_type_ keyLocator.1 = KL_NONE) then Ok true
  else if negb (canGetFromSignature signature) then Ok false
  else other ← getFromSignature signature; mret (KeyLocator_equals keyLocator other).

(** [matchesData]; [fullName] is what [getFullName] returns for the data. *)
Definition matchesData (i : InterestValue) (data : DataValue) (fullName : Name) : result exn bool :=
  let f := i.1 in
  let interestNameLength := zlen (interest_name i) in
  let fullNameLength := zlen (data_name data) + 1 in
  let hasMinSuffixComponents := minSuffixComponents_ f >=? 0 in
  let minSuffixComponents := if hasMinSuffixComponents then minSuffixComponents_ f else 0 in
  let hasMaxSuffixComponents := maxSuffixComponents_ f >=? 0 in
  if negb (interestNameLength + minSuffixComponents <=? fullNameLength) then Ok false
  else if hasMaxSuffixComponents &&
          negb (interestNameLength + maxSuffixComponents_ f >=? fullNameLength) then Ok false
  else
    prefix ← matches_prefix (interest_name i) (data_name data) fullName;
    if negb prefix then mret false
    else
      exclude ← matches_exclude (interest_exclude i) interestNameLength (data_name data) fullName;
      if negb exclude then mret false
      else matches_keyLocator (interest_keyLocator i) (data_signature data).

(** ** The methods as steps *)

Section InterestSteps.
Context (default : Z) (encodeInterest : Z -> InterestValue -> Blob -> list Z).
Context (decodeInterest : Z -> list Z -> Interest -> Interest).

Definition interest_encoding (format : Z) (v : InterestValue) (bytes : list Z) : Prop :=
  (exists nonce, bytes = encodeInterest format v nonce) \/
  exists i, interest_value (decodeInterest format bytes i) = v.

(** The calls on an Interest: a setter of fields and children, which increments the count;
    methods of a child through its reference; the nonce; encoding and decoding. *)
Inductive interest_step (i : Interest) : Interest -> Prop :=
| istep_fields f : interest_step i (set_fields f i)
| istep_setName n : interest_step i (setName n i)
| istep_setKeyLocator k : interest_step i (setKeyLocator k i)
| istep_setExclude e : interest_step i (setExclude e i)
| istep_setForwardingHint h : interest_step i (setForwardingHint h i)
| istep_getName f : (forall n, later n (f n)) -> interest_step i (getName_modify f i)
| istep_getKeyLocator f : (forall k, later k (f k)) -> interest_step i (getKeyLocator_modify f i)
| istep_getExclude f : (forall e, later e (f e)) -> interest_step i (getExclude_modify f i)
| istep_getForwardingHint f :
    (forall h, later h (f h)) -> interest_step i (getForwardingHint_modify f i)
| istep_setNonce nonce : interest_step i (setNonce nonce i)
| istep_getNonce : interest_step i (getNonce i).2
| istep_refreshNonce draws i' : refreshNonce draws i = Ok i' -> interest_step i i'
| istep_wireEncode format :
    interest_step i (interest_wireEncode default encodeInterest format i).2
| istep_wireDecode input format :
    interest_step i (interest_wireDecode default decodeInterest input format i).

Inductive interest_reach : Interest -> Prop :=
| ireach_new name canBePrefix didSet : interest_reach (Interest_new name canBePrefix didSet)
| ireach_step i i' : interest_reach i -> interest_step i i' -> interest_reach i'.

(** The cache is right, and either the children's counters are too, or the count has moved
    since the encoding was stored (after [setForwardingHint]). *)
Definition cached_interest_ok (x : Cached InterestObject) : Prop :=
  cache_ok interest_encoding x /\
  (children_ok (children_ (object_ x)) \/
   getDefaultWireEncodingChangeCount_ x < count_of (object_ x)).

Definition interest_ok (i : Interest) : Prop := cached_interest_ok (interest_cached i).

Lemma set_cached_ok f g x :
  cached_interest_ok x -> cached_interest_ok (with_object (composite_set f g) x).
Proof.
  intros [[Hle Hg] _]. split; [| right; cbn in *; lia].
  apply with_object_moved; [apply _ |]. cbn in *. lia.
Qed.

Lemma modify_cached_ok g x :
  (forall c, children_later c (g c)) ->
  cached_interest_ok x -> cached_interest_ok (with_object (composite_modify g) x).
Proof.
  intros Hg [Hc [Hok | Hlt]].
  - split; [| left; now apply Hg]. apply with_object_ok; [apply _ | easy |].
    now apply composite_modify_later.
  - split; [| now right]. apply with_object_moved; [apply _ | exact Hlt].
Qed.

Lemma settle_cached_ok x :
  cached_interest_ok x ->
  cached_interest_ok (with_object (fun _ => (getChangeCount (object_ x)).2) x).
Proof.
  intros [Hc _]. split; [| left; apply composite_gcc_ok].
  apply with_object_ok; [apply _ | easy | apply later_getChangeCount].
Qed.

Lemma interest_settle_eq i :
  interest_settle i = ((getChangeCount (interest_object i)).1,
    mkInterest (with_object (fun _ => (getChangeCount (interest_object i)).2) (interest_cached i))
      (nonce_ i) (getNonceChangeCount_ i)).
Proof. unfold interest_settle. now destruct (getChangeCount (interest_object i)). Qed.

Lemma setNonce_ok nonce i : interest_ok i -> interest_ok (setNonce nonce i).
Proof.
  intros Hi. unfold setNonce, set_fields. rewrite interest_settle_eq.
  apply settle_cached_ok, set_cached_ok, Hi.
Qed.

Lemma getNonce_ok i : interest_ok i -> interest_ok (getNonce i).2.
Proof.
  intros Hi. unfold getNonce. rewrite interest_settle_eq.
  destruct (negb _); apply settle_cached_ok, Hi.
Qed.

Lemma set_encoding_ok encoding format x :
  (forall bytes, encoding = Some bytes -> interest_encoding format (value_of (object_ x)) bytes) ->
  cached_interest_ok (setDefaultWireEncoding encoding format x).
Proof.
  intros H. split; [apply setDefaultWireEncoding_ok; [apply _ | exact H] |]. left.
  apply set_settles.
Qed.

Lemma interest_wireEncode_ok format i :
  interest_ok i ->
  let '(bytes, i') := interest_wireEncode default encodeInterest format i in
  interest_encoding format (interest_value i) bytes /\ interest_ok i' /\
  interest_value i' = interest_value i.
Proof.
  intros [Hc _]. unfold interest_wireEncode, interest_value, interest_object, interest_ok.
  set (enc := fun f (o : InterestObject) => encodeInterest f (value_of o) (nonce_ i)).
  assert (He : forall o, interest_encoding format (value_of o) (enc format o))
    by (intros o; left; now exists (nonce_ i)).
  pose proof (wireEncode_ok interest_encoding default enc format _ Hc He) as Hw.
  assert (Hs : children_ok (children_ (object_ (wireEncode default enc format (interest_cached i)).2))).
  { apply wireEncode_settles. }
  destruct (wireEncode default enc format (interest_cached i)) as [bytes x].
  cbn [interest_cached snd] in *. split; [easy |]. split; [| easy]. split; [easy | now left].
Qed.
Lemma interest_modify_ok g i :
  (forall c, children_later c (g c)) -> interest_ok i ->
  interest_ok (interest_method (composite_modify g) i).
Proof. intros Hg Hi. now apply modify_cached_ok. Qed.

Lemma interest_step_ok i i' : interest_ok i -> interest_step i i' -> interest_ok i'.
Proof.
  intros Hi Hs. destruct Hs as [f | n | k | e | h | f Hf | f Hf | f Hf | f Hf | nonce |
    | draws i' Hr | format | input format].
  1-5: now apply set_cached_ok.
  1-4: apply interest_modify_ok; [| exact Hi]; intros [c1 [c2 [c3 c4]]];
    repeat (apply children_later_pair; [first [now apply children_later_modify | easy] |]);
    first [now apply children_later_modify | easy].
  - now apply setNonce_ok.
  - now apply getNonce_ok.
  - unfold refreshNonce in Hr. pose proof (getNonce_ok i Hi) as Hg.
    destruct (getNonce i) as [nonce i1]. cbn [snd] in Hg.
    destruct (blob_size nonce =? 0); [now injection Hr as <- |].
    destruct (list_find _ draws) as [[? draw] |]; [| easy]. injection Hr as <-.
    now apply setNonce_ok.
  - pose proof (interest_wireEncode_ok format i Hi) as H.
    destruct (interest_wireEncode _ _ _ _). cbn. tauto.
  - unfold interest_wireDecode, interest_ok. cbn [interest_cached].
    destruct (Z.eqb_spec format default) as [-> |]; apply set_encoding_ok; [| discriminate].
    intros bytes [= <-]. right. now eexists.
Qed.

Lemma interest_reach_ok i : interest_reach i -> interest_ok i.
Proof.
  induction 1 as [name canBePrefix didSet | i i' _ IH Hs]; [| now apply (interest_step_ok i)].
  split; [split; [easy | discriminate] |]. left. cbn. unfold counter_ok. cbn. lia.
Qed.
End InterestSteps.

(** ** The nonce *)

(** A copy has the fields and the children of the original. *)
Lemma interest_copy_value i : interest_value (interest_copy i) = interest_value i.
Proof.
  unfold interest_copy, interest_value, interest_object, setDefaultWireEncoding. cbn [interest_cached object_].
  match goal with |- context [getChangeCount ?x] => pose proof (gcc_value x) as H; destruct (getChangeCount x) end.
  cbn [interest_cached object_ snd] in *. exact H.
Qed.

(** The settled object of [interest_settle]. *)
Lemma settle_again i : interest_settle (interest_settle i).2 = interest_settle i.
Proof.
  rewrite !interest_settle_eq. unfold interest_object. cbn [snd interest_cached object_ with_object].
  now rewrite !(gcc_idem (T := InterestObject)).
Qed.

Lemma getNonce_eq i :
  (getNonce i).1 = (if ((getChangeCount (interest_object i)).1 =? getNonceChangeCount_ i)
                    then nonce_ i else None).
Proof.
  unfold getNonce. rewrite interest_settle_eq. cbn [getNonceChangeCount_ nonce_ fst snd].
  rewrite Z.eqb_sym. now destruct (_ =? _).
Qed.

(** What [setNonce] leaves: the count is settled and recorded. *)
Lemma setNonce_spec nonce i :
  nonce_ (setNonce nonce i) = nonce /\
  getNonceChangeCount_ (setNonce nonce i) = count_of (interest_object (setNonce nonce i)) /\
  (getChangeCount (interest_object (setNonce nonce i))).1 = getNonceChangeCount_ (setNonce nonce i).
Proof.
  unfold setNonce. rewrite interest_settle_eq. set (j := set_fields id i).
  cbn [nonce_ getNonceChangeCount_ interest_cached]. split; [easy |].
  change (interest_object (mkInterest (with_object _ (interest_cached j)) nonce _))
    with (getChangeCount (interest_object j)).2.
  pose proof (gcc_field (interest_object j)) as Hf. pose proof (gcc_idem (interest_object j)) as Hi.
  split; [now symmetry | now rewrite Hi].
Qed.

(** ** Matching *)

Lemma name_get_lookup (n : Name) (i : Z) c :
  0 <= i -> n !! Z.to_nat i = Some c -> name_get n i = Ok c.
Proof.
  intros Hi Hc. pose proof (lookup_lt_Some _ _ _ Hc) as Hlt. unfold name_get.
  rewrite (proj2 (Z.geb_le i 0)) by lia.
  destruct (Z.geb_spec i (zlen n)); [lia |]. now rewrite Hc.
Qed.

Definition exclude_ok (e : Exclude) : Prop := Forall entry_ok e /\ single_tail e.

(** The suffix of the full name after the interest name respects the exclude. *)
Definition not_excluded (e : Exclude) (fullName : Name) (n : nat) : Prop :=
  forall c, fullName !! n = Some c -> ~ excluded None e c.

(** What it means that a Data packet with the given full name matches. *)
Record data_matches (i : InterestValue) (data : DataValue) (fullName : Name) : Prop := {
  dm_min : 0 <= minSuffixComponents_ i.1 ->
    minSuffixComponents_ i.1 <= zlen fullName - zlen (interest_name i);
  dm_max : 0 <= maxSuffixComponents_ i.1 ->
    zlen fullName - zlen (interest_name i) <= maxSuffixComponents_ i.1;
  dm_prefix : exists b1 b2, fullName = b1 ++ b2 /\ map value_ b1 = map value_ (interest_name i);
  dm_digest : zlen (interest_name i) = zlen fullName ->
    exists p c, interest_name i = p ++ [c] /\ type_ c = IMPLICIT_SHA256_DIGEST;
  dm_exclude : not_excluded (interest_exclude i) fullName (length (interest_name i));
  dm_keyLocator : kl_type_ (interest_keyLocator i).1 <> KL_NONE ->
    canGetFromSignature (data_signature data) = true /\
    KeyLocator_equals (interest_keyLocator i) (data_signature data).2.1 = true
}.

Lemma prefix_snoc (a b : Name) (d : Component) :
  (exists b1 b2, b ++ [d] = b1 ++ b2 /\ map value_ b1 = map value_ a) <->
  (zlen a <= zlen b /\ exists b1 b2, b = b1 ++ b2 /\ map value_ b1 = map value_ a) \/
  (zlen a = zlen b + 1 /\ map value_ (b ++ [d]) = map value_ a).
Proof.
  split.
  - intros (b1 & b2 & E & Hm). pose proof (f_equal length Hm) as Hl. rewrite !length_map in Hl.
    destruct b2 as [| x b2 _] using rev_ind.
    + right. rewrite app_nil_r in E. subst b1. rewrite length_app in Hl. cbn in Hl. split; [lia | easy].
    + left. rewrite app_assoc in E. apply app_inj_tail in E as [-> <-].
      rewrite length_app. split; [lia |]. eauto.
  - intros [[_ (b1 & b2 & -> & Hm)] | [_ Hm]].
    + exists b1, (b2 ++ [d]). now rewrite app_assoc.
    + exists (b ++ [d]), []. now rewrite app_nil_r.
Qed.

Lemma matches_prefix_spec (a b : Name) (d : Component) :
  zlen a <= zlen b + 1 ->
  exists r, matches_prefix a b (b ++ [d]) = Ok r /\
    (r = true <-> (exists b1 b2, b ++ [d] = b1 ++ b2 /\ map value_ b1 = map value_ a) /\
       (zlen a = zlen b + 1 -> exists p c, a = p ++ [c] /\ type_ c = IMPLICIT_SHA256_DIGEST)).
Proof.
  intros Hle. unfold matches_prefix. setoid_rewrite prefix_snoc.
  destruct (Z.eqb_spec (zlen a) (zlen b + 1)) as [He | He].
  - destruct a as [| c p _] using rev_ind; [cbn in He; lia |].
    rewrite name_get_last. cbn [mbind result_bind]. unfold isImplicitSha256Digest.
    assert (Hlast : (exists p0 c0, p ++ [c] = p0 ++ [c0] /\ type_ c0 = IMPLICIT_SHA256_DIGEST) <->
      type_ c = IMPLICIT_SHA256_DIGEST).
    { split; [| eauto]. intros (p0 & c0 & E & Ht). now apply app_inj_tail in E as [_ ->]. }
    case_bool_decide as Ht; eexists; (split; [reflexivity |]); rewrite ?name_equals_values; split.
    + intros Hv. split; [right; split; [exact He | now symmetry] | intros _; now apply Hlast].
    + intros [[[Hlt _] | [_ Hv]] _]; [lia | now symmetry].
    + easy.
    + intros [_ Hd]. specialize (Hd He). now apply Hlast in Hd.
  - eexists. split; [reflexivity |]. rewrite name_match_prefix. split.
    + intros H. split; [left; split; [lia | exact H] | lia].
    + now intros [[[_ H] | [? _]] _]; [| lia].
Qed.

Lemma exclude_nil_not_excluded fullName n : not_excluded [] fullName n.
Proof. intros c _ H. inversion H. Qed.

Lemma exclude_at (e : Exclude) (n : Name) (k : Z) :
  exclude_ok e -> Forall component_ok n -> 0 <= k < zlen n ->
  exists c, name_get n k = Ok c /\
    (negb (exclude_matches e c) = true <-> not_excluded e n (Z.to_nat k)).
Proof.
  intros [Ho Ht] Hn Hk. destruct (lookup_lt_is_Some_2 n (Z.to_nat k)) as [c Hc]; [lia |].
  exists c. split; [apply name_get_lookup; [lia | exact Hc] |].
  assert (Hcok : component_ok c) by (eapply Forall_lookup_1; eassumption).
  rewrite negb_true_iff, <- not_true_iff_false.
  rewrite (matches_from_excluded (length e) e None c) by easy. split.
  - intros Hx d Hd. now rewrite Hc in Hd; injection Hd as <-.
  - intros Hx. now apply Hx.
Qed.

Lemma zlen_zero {A} (l : list A) : zlen l = 0 -> l = [].
Proof. destruct l; [easy | cbn; lia]. Qed.

Lemma matches_exclude_spec (e : Exclude) (a b : Name) (d : Component) :
  exclude_ok e -> Forall component_ok (b ++ [d]) -> zlen a <= zlen b + 1 ->
  exists r, matches_exclude e (zlen a) b (b ++ [d]) = Ok r /\
    (r = true <-> not_excluded e (b ++ [d]) (length a)).
Proof.
  intros He Hok Hle. unfold matches_exclude.
  assert (Hlen : zlen (b ++ [d]) = zlen b + 1) by (rewrite length_app; cbn; lia).
  destruct (Z.gtb_spec (zlen e) 0) as [Hpos | Hz].
  2: { exists true. split; [easy |]. rewrite (zlen_zero e) by lia.
       split; [intros _; apply exclude_nil_not_excluded | easy]. }
  destruct (Z.gtb_spec (zlen b + 1) (zlen a)) as [Hgt | Heq]; cbn [andb].
  - destruct (exclude_at e (b ++ [d]) (zlen a) He Hok) as (c & Hc & Hm); [lia |].
    rewrite Nat2Z.id in Hm.
    assert (Hget : (if zlen a =? zlen b + 1 - 1 then name_get (b ++ [d]) (zlen a)
                    else name_get b (zlen a)) = Ok c).
    { destruct (Z.eqb_spec (zlen a) (zlen b + 1 - 1)); [exact Hc |].
      destruct (lookup_lt_is_Some_2 b (length a)) as [c' Hc']; [lia |].
      assert (E : (b ++ [d]) !! Z.to_nat (zlen a) = Some c') by (rewrite Nat2Z.id; now apply lookup_app_l_Some).
      pose proof (name_get_lookup (b ++ [d]) (zlen a) c' ltac:(lia) E) as E'.
      rewrite E' in Hc. injection Hc as <-.
      apply name_get_lookup; [lia |]. now rewrite Nat2Z.id. }
    rewrite Hget. cbn. eexists. split; [reflexivity | exact Hm].
  - exists true. split; [easy |]. split; [| easy]. intros _ c Hc.
    apply lookup_lt_Some in Hc. rewrite length_app in Hc. cbn in Hc. lia.
Qed.

Lemma matches_keyLocator_spec k s :
  exists r, matches_keyLocator k s = Ok r /\
    (r = true <-> (kl_type_ k.1 <> KL_NONE ->
       canGetFromSignature s = true /\ KeyLocator_equals k s.2.1 = true)).
Proof.
  unfold matches_keyLocator, canGetFromSignature, getFromSignature.
  case_bool_decide as Ht; [now exists true |].
  destruct s.1; cbn; eexists; (split; [reflexivity |]); try (now split; [| intros H; apply H in Ht]).
  all: split; [easy |]; intros H; now apply H in Ht as [? _].
Qed.

(** ** Properties *)

(** The encoding of an Interest. After any calls on an Interest, also through the references to its
    name, key locator, exclude and forwarding hint, [wireEncode] returns an encoding of the fields
    as they are, with some nonce. *)
Theorem interest_wireEncode_current (default : Z)
    (encodeInterest : Z -> InterestValue -> Blob -> list Z)
    (decodeInterest : Z -> list Z -> Interest -> Interest) (i : Interest) (format : Z) :
  interest_reach default encodeInterest decodeInterest i ->
  let '(bytes, i') := interest_wireEncode default encodeInterest format i in
  ((exists nonce, bytes = encodeInterest format (interest_value i) nonce) \/
   exists j, interest_value (decodeInterest format bytes j) = interest_value i) /\
  interest_value i' = interest_value i.
Proof.
  intros H. apply interest_reach_ok in H.
  pose proof (interest_wireEncode_ok default encodeInterest decodeInterest format i H) as Hw.
  destruct (interest_wireEncode _ _ _ _). unfold interest_encoding in Hw. tauto.
Qed.

(** The nonce. [getNonce] returns the nonce that was set, until a field or a child is set: then it
    returns none. *)
Theorem nonce_cleared (nonce : Blob) (i : Interest) (f : InterestFields -> InterestFields)
    (g : InterestChildren -> InterestChildren) :
  (getNonce (setNonce nonce i)).1 = nonce /\
  (getNonce (interest_method (composite_set f g) (setNonce nonce i))).1 = None.
Proof.
  destruct (setNonce_spec nonce i) as (Hn & Hc & Hg). rewrite !getNonce_eq. split.
  - now rewrite Hg, Z.eqb_refl.
  - set (j := setNonce nonce i) in *.
    change (getNonceChangeCount_ (interest_method _ j)) with (getNonceChangeCount_ j).
    pose proof (gcc_le (interest_object (interest_method (composite_set f g) j))) as Hle.
    rewrite (proj2 (Z.eqb_neq _ _)); [easy |].
    assert (count_of (interest_object (interest_method (composite_set f g) j))
      = count_of (interest_object j) + 1) by reflexivity. lia.
Qed.

(** C34: matching Data. For a Data packet of well formed components with its implicit digest, and an Interest whose exclude filter has
    at most one ANY after its last component, [matchesData] returns, and accepts exactly when the full name
    (the name with the digest) continues the name of the Interest, comparing the values of the components and not their
    types, within the bounds on the suffix; when a name of the Interest as long as the full name ends with a component of
    the type of an implicit digest; when the next component is not excluded; and when the key
    locator is the one that is asked for, if one is. *)
Theorem matchesData_spec (i : InterestValue) (data : DataValue) (digest : Component) :
  exclude_ok (interest_exclude i) -> Forall component_ok (data_name data ++ [digest]) ->
  let fullName := data_name data ++ [digest] in
  exists b, matchesData i data fullName = Ok b /\ (b = true <-> data_matches i data fullName).
Proof.
  intros He Hok fullName. unfold matchesData.
  set (a := interest_name i). set (n := data_name data). fold n in Hok, fullName.
  assert (Hlen : zlen fullName = zlen n + 1) by (unfold fullName; rewrite length_app; cbn; lia).
  set (min := minSuffixComponents_ i.1). set (max := maxSuffixComponents_ i.1).
  assert (Hfalse : forall P : Prop, (data_matches i data fullName -> False) ->
    (false = true <-> data_matches i data fullName)) by (split; [easy | tauto]).
  destruct (Z.leb_spec (zlen a + (if min >=? 0 then min else 0)) (zlen n + 1)) as [Hmin | Hmin];
    cbn [negb].
  2: { exists false. split; [easy |]. apply (Hfalse True). intros [D1 _ D2 _ _ _].
       fold a min in D1, D2. destruct D2 as (b1 & b2 & E & Hm).
       apply (f_equal length) in E, Hm. rewrite !length_map in Hm. rewrite length_app in E.
       destruct (Z.geb_spec min 0); lia. }
  destruct ((max >=? 0) && negb (zlen a + max >=? zlen n + 1)) eqn:Hmax.
  { exists false. split; [easy |]. apply (Hfalse True). intros [_ D _ _ _ _].
    fold a max in D. apply andb_true_iff in Hmax as [H1 H2].
    rewrite Z.geb_leb in H1, H2. apply Z.leb_le in H1. apply negb_true_iff, Z.leb_gt in H2. lia. }
  assert (Hle : zlen a <= zlen n + 1) by (destruct (Z.geb_spec min 0); lia).
  destruct (matches_prefix_spec a n digest Hle) as (p & Hp & Hpt). fold fullName in Hp, Hpt.
  rewrite Hp. cbn [mbind result_bind].
  destruct p; cbn [negb].
  2: { exists false. split; [easy |]. apply (Hfalse True). intros [_ _ D1 D2 _ _].
       assert (false = true) by (apply Hpt; split; [exact D1 | intros; apply D2; fold a; lia]). easy. }
  destruct (matches_exclude_spec (interest_exclude i) a n digest He Hok Hle) as (x & Hx & Hxt).
  fold fullName in Hx, Hxt. rewrite Hx. cbn [mbind result_bind]. destruct x; cbn [negb].
  2: { exists false. split; [easy |]. apply (Hfalse True). intros [_ _ _ _ D _].
       assert (false = true) by now apply Hxt. easy. }
  destruct (matches_keyLocator_spec (interest_keyLocator i) (data_signature data)) as (k & Hk & Hkt).
  exists k. split; [exact Hk |]. rewrite Hkt. apply proj1 in Hpt, Hxt.
  destruct (Hpt eq_refl) as [P1 P2]. specialize (Hxt eq_refl). split.
  - intros Hkl. split; fold a min max; try assumption; rewrite ?Hlen.
    + destruct (Z.geb_spec min 0); lia.
    + intros Hm. apply andb_false_iff in Hmax as [H1 | H1];
        [rewrite Z.geb_leb in H1; apply Z.leb_gt in H1; lia |].
      apply negb_false_iff in H1. rewrite Z.geb_leb in H1. apply Z.leb_le in H1. lia.
    + exact P2.
  - now intros [].
Qed.

(** Two matchers. For a name that is longer than the one of the Interest, [matchesName] gives what
    [matchesData] gives for a Data packet with that name, when no key locator is asked for. *)
Theorem matchesName_matchesData (i : InterestValue) (data : DataValue) (digest : Component) :
  zlen (interest_name i) < zlen (data_name data) ->
  kl_type_ (interest_keyLocator i).1 = KL_NONE ->
  matchesName i (data_name data) = matchesData i data (data_name data ++ [digest]).
Proof.
  intros Hlt Hk. unfold matchesName, matchesData, matches_prefix, matches_exclude, matches_keyLocator.
  rewrite bool_decide_eq_true_2 by exact Hk.
  set (a := interest_name i) in *. set (n := data_name data) in *.
  rewrite (proj2 (Z.eqb_neq (zlen a) (zlen n + 1))), (proj2 (Z.eqb_neq (zlen a) (zlen n + 1 - 1))) by lia.
  rewrite !Z.gtb_ltb, (proj2 (Z.ltb_lt (zlen a) (zlen n))), (proj2 (Z.ltb_lt (zlen a) (zlen n + 1))) by lia.
  set (min := minSuffixComponents_ i.1). set (max := maxSuffixComponents_ i.1).
  cbn [mbind result_bind].
  assert (Hmin : (min >=? 0) && negb (zlen n + 1 - zlen a >=? min)
    = negb (zlen a + (if min >=? 0 then min else 0) <=? zlen n + 1)).
  { rewrite !Z.geb_leb. destruct (Z.leb_spec 0 min); cbn [andb]; f_equal;
      [| symmetry; apply negb_false_iff, Z.leb_le; lia].
    destruct (Z.leb_spec min (zlen n + 1 - zlen a)), (Z.leb_spec (zlen a + min) (zlen n + 1)); lia. }
  assert (Hmax : (max >=? 0) && negb (zlen n + 1 - zlen a <=? max)
    = (max >=? 0) && negb (zlen a + max >=? zlen n + 1)).
  { rewrite !Z.geb_leb. f_equal. f_equal.
    destruct (Z.leb_spec (zlen n + 1 - zlen a) max), (Z.leb_spec (zlen n + 1) (zlen a + max)); lia. }
  rewrite Hmin, Hmax. rewrite andb_true_r.
  generalize ((max >=? 0) && negb (zlen a + max >=? zlen n + 1)),
    (negb (zlen a + (if min >=? 0 then min else 0) <=? zlen n + 1)). intros bmax bmin.
  destruct bmin, bmax, (name_match a n); cbn [negb]; try easy.
  destruct (0 <? zlen (interest_exclude i)); [| easy].
  destruct (name_get n (zlen a)) as [c |]; [| easy]. cbn. now destruct (exclude_matches _ c).
Qed.

(** Assignment. [operator=] does not copy the application parameters and the forwarding hint, and it sets
    the selected delegation index after the nonce, so the nonce is gone; but it takes the cached
    encoding of the other Interest, so [wireEncode] returns an encoding with them. *)
Theorem interest_assign_drops :
  let encodeInterest := fun (_ : Z) (v : InterestValue) (nonce : Blob) =>
    default [] (applicationParameters_ v.1) ++ default [] nonce in
  let i := setNonce (Some [1; 2; 3; 4]) (setApplicationParameters (Some [9]) (Interest_new [] true true)) in
  let i := (interest_wireEncode 1 encodeInterest 1 i).2 in
  let self := interest_assign i (Interest_new [] true true) in
  applicationParameters_ (interest_value self).1 = None /\ (getNonce self).1 = None /\
  (interest_wireEncode 1 encodeInterest 1 self).1 = [9; 1; 2; 3; 4] /\
  encodeInterest 1 (interest_value self) (getNonce self).1 = [].
Proof. repeat split; vm_compute; reflexivity. Qed.

(** A copy brings the nonce back. After a change [getNonce] returns none for the Interest, but the old
    nonce for its copy, so an Interest that is changed and expressed again has the old nonce. *)
Theorem interest_copy_nonce :
  let i := setMustBeFresh true (setNonce (Some [1; 2; 3; 4]) (Interest_new [] true true)) in
  (getNonce i).1 = None /\ (getNonce (interest_copy i)).1 = Some [1; 2; 3; 4].
Proof. split; vm_compute; reflexivity. Qed.

(** ** Witnesses *)

Lemma interest_wireEncode_current_witness :
  let encodeInterest := fun (_ : Z) (v : InterestValue) (nonce : Blob) =>
    concat (map value_ (interest_name v)) ++ default [] nonce in
  let i := getName_modify (name_obj_append (generic [98])) (setNonce (Some [1; 2; 3; 4])
             (Interest_new [generic [97]] true true)) in
  (interest_wireEncode 1 encodeInterest 1 i).1 = [97; 98; 1; 2; 3; 4] /\
  interest_value (interest_wireEncode 1 encodeInterest 1 i).2 = interest_value i.
Proof.
  intros encodeInterest i. split; [vm_compute; reflexivity |].
  assert (Hr : interest_reach 1 encodeInterest (fun _ _ j => j) i).
  { eapply ireach_step; [eapply ireach_step; [apply ireach_new | apply istep_setNonce] |].
    apply istep_getName. intros n. apply increment_with_later. }
  exact (proj2 (interest_wireEncode_current 1 encodeInterest (fun _ _ j => j) i 1 Hr)).
Defined.

Lemma matchesData_spec_witness :
  let i := interest_value (Interest_new [generic [97]] true true) in
  let data := data_value (Data_new [generic [97]; generic [98]]
                            (mkMetaInfoFields (-1) 0 (-1) (-1) (generic []))) in
  let digest := mkComponent IMPLICIT_SHA256_DIGEST (-1) (replicate 32 0) in
  data_matches i data (data_name data ++ [digest]).
Proof.
  intros i data digest.
  destruct (matchesData_spec i data digest) as (b & Hb & Hm).
  - split; constructor.
  - repeat constructor; cbn; lia.
  - apply Hm. vm_compute in Hb. now injection Hb as <-.
Defined.

Lemma matchesName_matchesData_witness :
  let i := interest_value (Interest_new [generic [97]] true true) in
  let data := data_value (Data_new [generic [97]; generic [98]]
                            (mkMetaInfoFields (-1) 0 (-1) (-1) (generic []))) in
  matchesName i (data_name data) = matchesData i data (data_name data ++ [generic [0]]).
Proof.
  intros i data. apply (matchesName_matchesData i data (generic [0])); [cbn; lia | reflexivity].
Defined.
