(* ===== verification/WireFormat.v ===== *)
(** * The wire formats of the packet objects

    The methods of Tlv0_3WireFormat (src/encoding/tlv-0_3-wire-format.cpp), which copy a C++ object
    to a C structure with room for 100 components, run the C encoder or decoder, and copy back: the
    [get] and [set] methods of names, key locators, signatures, MetaInfo, Data, Interest, Exclude and
    DelegationSet. A [throw runtime_error(ndn_getErrorString(error))] is [Failed] with the error. The
    cache that a DelegationSet has for its own encoding is left out. *)

From stdpp Require Import base list numbers option strings.
From Stdlib Require Import ZArith Lia.
From S2P Require Import Prelude Encoder Decoder Blocks Name TlvName ChangeCounter ValidityPeriod Exclude.
From S2P Require Import DelegationSet Data TlvData TlvInterest TlvControl Interest.
Open Scope Z_scope.

Definition throw_failure {A} (r : result failure A) : result exn A :=
  match r with Ok a => Ok a | Err f => Err (Failed f) end.
Definition throw_error {A} (r : result ndn_Error A) : result exn A :=
  match r with Ok a => Ok a | Err e => Err (Failed (Error e)) end.

(** The size of the arrays of components and of exclude entries. *)
Definition max_components : Z := 100.

(** ** Names *)

(** [Name::Component::get] into a new component: the error for a digest of another size is ignored. *)
Definition Component_get (self : Component) : Component :=
  match type_ self with
  | PARAMETERS_SHA256_DIGEST =>
      if zlen (value_ self) =? 32 then mkComponent PARAMETERS_SHA256_DIGEST (-1) (value_ self) else generic []
  | OTHER_CODE => mkComponent OTHER_CODE (otherTypeCode_ self) (value_ self)
  | type => mkComponent type (-1) (value_ self)
  end.

(** The loop of [Name::get]. *)
Fixpoint Name_get (self nameLite : Name) : result exn Name :=
  match self with
  | [] => Ok nameLite
  | component :: self =>
      if zlen nameLite >=? max_components then
        Err (Failed (Error
          NDN_ERROR_attempt_to_add_a_component_past_the_maximum_number_of_components_allowed_in_the_name))
      else Name_get self (nameLite ++ [Component_get component])
  end.

(** [Tlv0_3WireFormat::encodeName] and [decodeName]. *)
Definition encodeName (name : Name) : result exn (list Z) :=
  nameLite ← Name_get name [];
  '(encoding, _) ← throw_error (run_out 256 (encodeTlvName nameLite));
  mret encoding.

Definition decodeName (input : list Z) (name : NameObject) : result exn NameObject :=
  '(nameLite, _, _) ← throw_failure (decodeTlvName max_components (TlvDecoder_initialize input));
  mret (name_obj_set nameLite name).

(** ** Key locators and signatures *)

Definition KeyLocator_get (self : KeyLocatorValue) : result exn KeyLocatorValue :=
  keyName ← Name_get self.2 []; mret (self.1, keyName).

Definition KeyLocator_set (keyLocatorLite : KeyLocatorValue) (self : KeyLocator) : KeyLocator :=
  let self := KeyLocator_setType (kl_type_ keyLocatorLite.1) self in
  let self := KeyLocator_setKeyData (keyData_ keyLocatorLite.1) self in
  if bool_decide (kl_type_ keyLocatorLite.1 = KEYNAME)
  then KeyLocator_getKeyName (name_obj_set keyLocatorLite.2) self
  else KeyLocator_getKeyName name_obj_clear self.

(** [Signature::get] of the five classes, into a structure that is initialized. *)
Definition Signature_get (self : SignatureValue) : result exn ndn_Signature :=
  let '(fields, (keyLocator, validityPeriod)) := self in
  match fields with
  | Sha256WithRsaSignature signature =>
      keyLocator ← KeyLocator_get keyLocator;
      mret (mkSignature ndn_SignatureType_Sha256WithRsaSignature signature None (-1) keyLocator validityPeriod)
  | Sha256WithEcdsaSignature signature =>
      keyLocator ← KeyLocator_get keyLocator;
      mret (mkSignature ndn_SignatureType_Sha256WithEcdsaSignature signature None (-1) keyLocator validityPeriod)
  | HmacWithSha256Signature signature =>
      keyLocator ← KeyLocator_get keyLocator;
      mret (mkSignature ndn_SignatureType_HmacWithSha256Signature signature None (-1) keyLocator no_period)
  | DigestSha256Signature signature =>
      mret (mkSignature ndn_SignatureType_DigestSha256Signature signature None (-1) ndn_KeyLocator_initial
              validityPeriod)
  | GenericSignature signature signatureInfoEncoding typeCode =>
      mret (mkSignature ndn_SignatureType_Generic signature signatureInfoEncoding typeCode
              ndn_KeyLocator_initial no_period)
  end.

(** The new signature object of a type. *)
Definition new_signature (type : Z) : result exn Signature :=
  if type =? ndn_SignatureType_Sha256WithRsaSignature then Ok (Signature_new (Sha256WithRsaSignature None))
  else if type =? ndn_SignatureType_Sha256WithEcdsaSignature then
    Ok (Signature_new (Sha256WithEcdsaSignature None))
  else if type =? ndn_SignatureType_HmacWithSha256Signature then
    Ok (Signature_new (HmacWithSha256Signature None))
  else if type =? ndn_SignatureType_DigestSha256Signature then Ok (Signature_new (DigestSha256Signature None))
  else if type =? ndn_SignatureType_Generic then Ok (Signature_new (GenericSignature None None (-1)))
  else Err (RuntimeError "dataLite.getSignature().getType() has an unrecognized value").

Definition set_keyLocator (keyLocator : KeyLocatorValue) : Signature -> Signature :=
  composite_modify (fun c => (counter_modify (KeyLocator_set keyLocator) c.1, c.2)).
Definition set_validityPeriod (validityPeriod : Period) : Signature -> Signature :=
  composite_modify (fun c => (c.1, counter_modify (increment_with (fun _ => validityPeriod)) c.2)).
Definition setSignatureInfoEncoding (signatureInfoEncoding : Blob) (typeCode : Z) : Signature -> Signature :=
  composite_set (fun f =>
    match f with
    | GenericSignature signature _ _ => GenericSignature signature signatureInfoEncoding typeCode
    | f => f
    end) id.

(** [Signature::set], on an object of the type of the structure. *)
Definition Signature_set (signatureLite : ndn_Signature) (self : Signature) : Signature :=
  let self := setSignatureBits (sig_signature signatureLite) self in
  match own_ self with
  | Sha256WithRsaSignature _ | Sha256WithEcdsaSignature _ =>
      set_validityPeriod (sig_validityPeriod signatureLite) (set_keyLocator (sig_keyLocator signatureLite) self)
  | HmacWithSha256Signature _ => set_keyLocator (sig_keyLocator signatureLite) self
  | DigestSha256Signature _ => set_validityPeriod (sig_validityPeriod signatureLite) self
  | GenericSignature _ _ _ =>
      setSignatureInfoEncoding (sig_signatureInfoEncoding signatureLite) (sig_genericTypeCode signatureLite) self
  end.

(** ** MetaInfo *)

(** The final block ID loses its type. *)
Definition MetaInfo_get (self : MetaInfoFields) : MetaInfoFields :=
  mkMetaInfoFields (timestamp_ self) (mi_type_ self) (mi_otherTypeCode_ self) (freshnessPeriod_ self)
    (generic (value_ (finalBlockId_ self))).

(** [fromMilliseconds]: the conversion of a double to [int64_t]. *)
Definition fromMilliseconds (nanoseconds : Z) : result exn Z :=
  if (- 2 ^ 63 <=? nanoseconds) && (nanoseconds <? 2 ^ 63) then Ok nanoseconds else Err (Failed UndefinedBehaviour).

(** The type code is set directly, without its check. *)
Definition MetaInfo_set (metaInfoLite : MetaInfoFields) (self : MetaInfo) : result exn MetaInfo :=
  timestamp ← fromMilliseconds (timestamp_ metaInfoLite);
  freshnessPeriod ← fromMilliseconds (freshnessPeriod_ metaInfoLite);
  let self := MetaInfo_setType (mi_type_ metaInfoLite)
    (mkCounted (mkMetaInfoFields timestamp (mi_type_ (counted_value self)) (mi_otherTypeCode_ metaInfoLite)
       (freshnessPeriod_ (counted_value self)) (finalBlockId_ (counted_value self))) (changeCount_ self)) in
  mret (MetaInfo_setFinalBlockId (generic (value_ (finalBlockId_ metaInfoLite)))
          (MetaInfo_setFreshnessPeriod freshnessPeriod self)).

(** ** Data *)

Definition Data_get (self : DataValue) : result exn ndn_Data :=
  signature ← Signature_get (data_signature self);
  name ← Name_get (data_name self) [];
  mret (mkNdnData signature name (MetaInfo_get (data_metaInfo self)) (data_content self)).

(** The children are set through their references; [setContent] increments the count. *)
Definition Data_set (dataLite : ndn_Data) (self : DataObject) : result exn DataObject :=
  signature ← new_signature (sig_type (d_signature dataLite));
  metaInfo ← MetaInfo_set (d_metaInfo dataLite) (target_ (children_ self).2.2);
  mret (composite_set (fun _ => d_content dataLite) (fun c =>
    (counter_modify (Signature_set (d_signature dataLite)) (counter_set signature),
     (counter_modify (name_obj_set (d_name dataLite)) c.2.1, counter_modify (fun _ => metaInfo) c.2.2))) self).

(** [Tlv0_3WireFormat::encodeData] and [decodeData], with the offsets of the signed portion. *)
Definition encodeData (data : DataValue) : result exn (list Z * (Z * Z)) :=
  dataLite ← Data_get data;
  throw_error (run_out 1500 (encodeTlvData dataLite)).

Definition decodeData (input : list Z) (data : DataObject) : result exn (DataObject * (Z * Z)) :=
  '(dataLite, signedPortion, _) ←
    throw_failure (decodeTlvData max_components max_components ndn_Data_initial (TlvDecoder_initialize input));
  data ← Data_set dataLite data;
  mret (data, signedPortion).

(** [encodeSignatureInfo], [encodeSignatureValue] and [decodeSignatureInfoAndValue]. *)
Definition encodeSignatureInfo (signature : SignatureValue) : result exn (list Z) :=
  signatureLite ← Signature_get signature;
  throw_error (TlvEncoder_run 256 (encodeTlvSignatureInfo signatureLite)).

Definition encodeSignatureValue (signature : SignatureValue) : result exn (list Z) :=
  signatureLite ← Signature_get signature;
  throw_error (TlvEncoder_run 300
    (writeBlobTlv ndn_Tlv_SignatureValue (blob_bytes (sig_signature signatureLite)))).

Definition decodeSignatureInfoAndValue (signatureInfo signatureValue : list Z) : result exn Signature :=
  '(signatureLite, _) ←
    throw_failure (decodeTlvSignatureInfo max_components (TlvDecoder_initialize signatureInfo));
  '(bits, _) ← throw_failure (readBlob ndn_Tlv_SignatureValue (TlvDecoder_initialize signatureValue));
  result ← new_signature (sig_type signatureLite);
  mret (Signature_set (set_signature signatureLite bits) result).

(** ** Control parameters and responses

    The values of the C++ objects are those of the structures; their strings are never null. *)

Definition ControlParameters_get (self : ndn_ControlParameters) : result exn ndn_ControlParameters :=
  name ← Name_get (cp_name self) [];
  strategy ← Name_get (cp_strategy self) [];
  mret (mkControlParameters (cp_hasName self) name (cp_faceId self) (Some (blob_bytes (cp_uri self)))
          (cp_localControlFeature self) (cp_origin self) (cp_cost self) (cp_flags self) strategy
          (cp_expirationPeriod self)).

Definition ControlParameters_set (lite : ndn_ControlParameters) : result exn ndn_ControlParameters :=
  expirationPeriod ← fromMilliseconds (cp_expirationPeriod lite);
  mret (mkControlParameters (cp_hasName lite) (cp_name lite) (cp_faceId lite) (Some (blob_bytes (cp_uri lite)))
          (cp_localControlFeature lite) (cp_origin lite) (cp_cost lite) (cp_flags lite) (cp_strategy lite)
          expirationPeriod).

Definition encodeControlParameters (controlParameters : ndn_ControlParameters) : result exn (list Z) :=
  lite ← ControlParameters_get controlParameters;
  throw_error (TlvEncoder_run 256 (encodeTlvControlParameters lite)).

Definition decodeControlParameters (input : list Z) : result exn ndn_ControlParameters :=
  '(lite, _) ← throw_failure (decodeTlvControlParameters max_components max_components
                                RegistrationOptions_initialize (TlvDecoder_initialize input));
  ControlParameters_set lite.

Definition ControlResponse_get (self : ndn_ControlResponse) : result exn ndn_ControlResponse :=
  body ← match cr_body self with
         | Some body => body ← ControlParameters_get body; mret (Some body)
         | None => mret None
         end;
  mret (mkControlResponse (cr_statusCode self) (Some (blob_bytes (cr_statusText self))) body).

Definition ControlResponse_set (lite : ndn_ControlResponse) : result exn ndn_ControlResponse :=
  body ← match cr_body lite with
         | Some body => body ← ControlParameters_set body; mret (Some body)
         | None => mret None
         end;
  mret (mkControlResponse (cr_statusCode lite) (Some (blob_bytes (cr_statusText lite))) body).

Definition encodeControlResponse (controlResponse : ndn_ControlResponse) : result exn (list Z) :=
  lite ← ControlResponse_get controlResponse;
  throw_error (TlvEncoder_run 256 (encodeTlvControlResponse lite)).

Definition decodeControlResponse (input : list Z) : result exn ndn_ControlResponse :=
  '(lite, _) ← throw_failure (decodeTlvControlResponse max_components max_components
                                RegistrationOptions_initialize (TlvDecoder_initialize input));
  ControlResponse_set lite.

(** ** Delegation sets *)

(** [ndn_Tlv0_2WireFormat_encodeDelegationSet_Delegation]: the encoding is put in the output at the
    offset; its length is returned. *)
Definition encodeDelegationSet_Delegation (delegation : ndn_DelegationSet_Delegation)
    (output : DynamicUInt8Array) (offset : Z) : result ndn_Error (DynamicUInt8Array * Z) :=
  encoder ← Encoder.seek offset (TlvEncoder_initialize output);
  encoder ← encodeTlvDelegationSet_Delegation delegation encoder;
  mret (Encoder.output encoder, wrap64 (Encoder.offset encoder - offset)).

(** The loop of [Tlv0_3WireFormat::encodeDelegationSet]. *)
Fixpoint encode_delegations (delegations : list Delegation) (output : DynamicUInt8Array)
    (encodingLength : Z) : result exn (DynamicUInt8Array * Z) :=
  match delegations with
  | [] => Ok (output, encodingLength)
  | delegation :: delegations =>
      name ← Name_get (delegation_name_ delegation) [];
      '(output, delegationEncodingLength) ← throw_error
        (encodeDelegationSet_Delegation (mkTlvDelegation (preference_ delegation) name) output encodingLength);
      encode_delegations delegations output (wrap64 (encodingLength + delegationEncodingLength))
  end.

Definition encodeDelegationSet (delegationSet : list Delegation) : result exn (list Z) :=
  '(output, encodingLength) ← encode_delegations delegationSet (DynamicUInt8Vector 256) 0;
  mret (finish output encodingLength).

(** Each delegation is decoded by a decoder of its own on the rest of the input, until the input is
    used up. A delegation takes at least two bytes. *)
Fixpoint decode_delegations (fuel : nat) (input : list Z) (delegationSet : DelegationSet) :
    result exn DelegationSet :=
  match input with
  | [] => Ok delegationSet
  | _ =>
      match fuel with
      | O => Err (Failed OutOfFuel)
      | S fuel =>
          '(delegation, decoder) ←
            throw_failure (decodeTlvDelegationSet_Delegation max_components (TlvDecoder_initialize input));
          decode_delegations fuel (drop (Z.to_nat (d_offset decoder)) input)
            (delegationSet_addUnsorted (mkDelegation (dg_preference delegation) (dg_name delegation)) delegationSet)
      end
  end.

Definition decodeDelegationSet (input : list Z) (delegationSet : DelegationSet) : result exn DelegationSet :=
  decode_delegations (S (length input)) input (delegationSet_clear delegationSet).

(** ** Exclude *)

(** [Exclude::get]. *)
Fixpoint Exclude_get (self excludeLite : Exclude) : result exn Exclude :=
  match self with
  | [] => Ok excludeLite
  | entry :: self =>
      if zlen excludeLite >=? max_components then
        Err (Failed (Error
          NDN_ERROR_cannot_add_an_entry_past_the_maximum_number_of_entries_allowed_in_the_exclude))
      else
        Exclude_get self (excludeLite ++
          [match entry_type entry with
           | EXCLUDE_COMPONENT => component_entry (Component_get (entry_component entry))
           | EXCLUDE_ANY => any_entry
           end])
  end.

(** [Exclude::set]. *)
Definition Exclude_set (excludeLite : Exclude) (self : ExcludeObject) : ExcludeObject :=
  fold_left (fun self entry =>
    match entry_type entry with
    | EXCLUDE_COMPONENT => appendComponent (entry_component entry) self
    | EXCLUDE_ANY => appendAny self
    end) excludeLite (exclude_clear self).

(** ** Interest *)

(** [Interest::get] also takes the nonce as it is. The link is its wire encoding. *)
Definition Interest_get (self : InterestValue) (nonce : Blob) : result exn ndn_Interest :=
  let f := self.1 in
  name ← Name_get (interest_name self) [];
  keyLocator ← KeyLocator_get (interest_keyLocator self);
  exclude ← Exclude_get (interest_exclude self) [];
  forwardingHint ← (if zlen (interest_forwardingHint self) >? 0
                    then encoding ← encodeDelegationSet (interest_forwardingHint self); mret (Some encoding)
                    else mret None);
  mret (mkNdnInterest name (minSuffixComponents_ f) (maxSuffixComponents_ f) keyLocator exclude
          (childSelector_ f) (mustBeFresh_ f) (interestLifetime_ f) nonce forwardingHint
          (applicationParameters_ f) (linkWireEncoding_ f) (selectedDelegationIndex_ f)).

(** The forwarding hint: an error in its decoding leaves it empty. *)
Definition set_forwardingHint (encoding : Blob) (self : DelegationSet) : result exn DelegationSet :=
  match encoding with
  | Some encoding =>
      match decodeDelegationSet encoding self with
      | Err (Failed OutOfFuel) => Err (Failed OutOfFuel)
      | Err (Failed UndefinedBehaviour) => Err (Failed UndefinedBehaviour)
      | Err _ => Ok (delegationSet_clear self)
      | Ok self => Ok self
      end
  | None => Ok (delegationSet_clear self)
  end.

(** A field that is set directly, without a change of the count. *)
Definition direct (f : InterestFields -> InterestFields) : Interest -> Interest :=
  interest_method (fun o => mkComposite (f (own_ o)) (children_ o) (composite_count_ o)).

Definition Interest_set (interestLite : ndn_Interest) (self : Interest) : result exn Interest :=
  let self := getName_modify (name_obj_set (i_name interestLite)) self in
  let self := setMinSuffixComponents (i_minSuffixComponents interestLite) self in
  let self := setMaxSuffixComponents (i_maxSuffixComponents interestLite) self in
  let self := direct (fun f => mkInterestFields (minSuffixComponents_ f) (maxSuffixComponents_ f) true
    (childSelector_ f) (mustBeFresh_ f) (interestLifetime_ f) (applicationParameters_ f)
    (linkWireEncoding_ f) (selectedDelegationIndex_ f)) self in
  let self := getKeyLocator_modify (KeyLocator_set (i_keyLocator interestLite)) self in
  let self := getExclude_modify (Exclude_set (i_exclude interestLite)) self in
  let self := setChildSelector (i_childSelector interestLite) self in
  interestLifetime ← fromMilliseconds (i_interestLifetime interestLite);
  let self := setInterestLifetime interestLifetime
    (direct (fun f => mkInterestFields (minSuffixComponents_ f) (maxSuffixComponents_ f)
       (didSetCanBePrefix_ f) (childSelector_ f) (i_mustBeFresh interestLite) (interestLifetime_ f)
       (applicationParameters_ f) (linkWireEncoding_ f) (selectedDelegationIndex_ f)) self) in
  let self := direct (fun f => mkInterestFields (minSuffixComponents_ f) (maxSuffixComponents_ f)
    (didSetCanBePrefix_ f) (childSelector_ f) (mustBeFresh_ f) (interestLifetime_ f)
    (i_applicationParameters interestLite) (linkWireEncoding_ f) (selectedDelegationIndex_ f)) self in
  hint ← set_forwardingHint (i_forwardingHintWireEncoding interestLite)
           (target_ (children_ (interest_object self)).2.2.2);
  let self := getForwardingHint_modify (fun _ => hint) self in
  let self := setLinkWireEncoding (i_linkWireEncoding interestLite) self in
  let self := setSelectedDelegationIndex (i_selectedDelegationIndex interestLite) self in
  let '(count, self) := interest_settle self in
  mret (mkInterest (interest_cached self) (i_nonce interestLite) count).

(** [encodeInterest] of the two wire formats: v0.2 uses v0.3 for an Interest with parameters. *)
Definition encodeInterest (v03 : bool) (random : list Z) (interest : InterestValue) (nonce : Blob) :
    result exn (list Z * (Z * Z)) :=
  interestLite ← Interest_get interest nonce;
  throw_error (run_out 256 (if v03 then encodeTlvInterestV0_3 random interestLite
                            else Tlv0_2WireFormat_encodeInterest random interestLite)).

Definition interest_room : Room := mkRoom max_components max_components max_components.

(** The forwarding hint is decoded before [set], for its errors. *)
Definition decodeInterest (input : list Z) (interest : Interest) : result exn (Interest * (Z * Z)) :=
  '(interestLite, signedPortion, _) ←
    throw_failure (decodeTlvInterest interest_room (TlvDecoder_initialize input));
  _ ← match i_forwardingHintWireEncoding interestLite with
      | Some encoding => decodeDelegationSet encoding (mkCounted [] 0)
      | None => mret (mkCounted [] 0)
      end;
  interest ← Interest_set interestLite interest;
  mret (interest, signedPortion).

(** ** What is read back *)

Lemma name_obj_appendName_value name x :
  counted_value (name_obj_appendName name x) = counted_value x ++ name.
Proof.
  unfold name_obj_appendName. revert x. induction name as [| c name IH]; intros x; cbn; [now rewrite app_nil_r |].
  rewrite IH. cbn. unfold append. now rewrite <- app_assoc.
Qed.

Lemma name_obj_set_value name x : counted_value (name_obj_set name x) = name.
Proof. apply name_obj_appendName_value. Qed.

(** A name that the arrays have room for, and whose digests have their size. *)
Definition digest_ok (c : Component) : Prop :=
  type_ c = PARAMETERS_SHA256_DIGEST -> zlen (value_ c) = 32.
Definition wire_name (name : Name) : Prop :=
  Forall component_ok name /\ Forall digest_ok name /\ zlen name <= max_components.

Lemma Component_get_ok c : component_ok c -> digest_ok c -> Component_get c = c.
Proof.
  destruct c as [t o v]. unfold component_ok, digest_ok, Component_get. cbn. intros [_ Ht] Hd.
  destruct t; cbn in *; subst; try reflexivity. now rewrite (Hd eq_refl).
Qed.

Lemma Name_get_app name lite :
  Forall component_ok name -> Forall digest_ok name -> zlen lite + zlen name <= max_components ->
  Name_get name lite = Ok (lite ++ name).
Proof.
  intros Hc. revert lite. induction Hc as [| c name Hc _ IH]; intros lite Hd Hl; cbn [Name_get length] in *.
  - now rewrite app_nil_r.
  - destruct (Z.geb_spec (zlen lite) max_components); [lia |].
    rewrite (Component_get_ok c Hc (List.Forall_inv Hd)), IH; [now rewrite <- app_assoc | exact (List.Forall_inv_tail Hd) |].
    rewrite length_app. cbn [length]. lia.
Qed.

Lemma Name_get_ok name : wire_name name -> Name_get name [] = Ok name.
Proof. intros (Hc & Hd & Hl). now rewrite Name_get_app. Qed.

(** A name of more components than the arrays have room for is not encoded. *)
Lemma Name_get_too_long name lite :
  max_components < zlen lite + zlen name -> zlen lite <= max_components ->
  Name_get name lite = Err (Failed (Error
    NDN_ERROR_attempt_to_add_a_component_past_the_maximum_number_of_components_allowed_in_the_name)).
Proof.
  revert lite. induction name as [| c name IH]; intros lite Hn Hl; cbn [Name_get length] in *; [lia |].
  destruct (Z.geb_spec (zlen lite) max_components); [easy |]. apply IH; rewrite length_app; cbn [length]; lia.
Qed.

Lemma KeyLocator_get_ok k : wire_name k.2 -> KeyLocator_get k = Ok k.
Proof. destruct k as [f n]. unfold KeyLocator_get. cbn. intros H. now rewrite Name_get_ok. Qed.

(** The structure for a signature, when its key name fits. *)
Definition signature_lite (s : SignatureValue) : ndn_Signature :=
  let '(fields, (k, p)) := s in
  match fields with
  | Sha256WithRsaSignature bits => mkSignature ndn_SignatureType_Sha256WithRsaSignature bits None (-1) k p
  | Sha256WithEcdsaSignature bits => mkSignature ndn_SignatureType_Sha256WithEcdsaSignature bits None (-1) k p
  | HmacWithSha256Signature bits => mkSignature ndn_SignatureType_HmacWithSha256Signature bits None (-1) k no_period
  | DigestSha256Signature bits =>
      mkSignature ndn_SignatureType_DigestSha256Signature bits None (-1) ndn_KeyLocator_initial p
  | GenericSignature bits info code =>
      mkSignature ndn_SignatureType_Generic bits info code ndn_KeyLocator_initial no_period
  end.

Definition signature_fits (s : SignatureValue) : Prop :=
  canGetFromSignature s = true -> wire_name s.2.1.2.

Lemma Signature_get_ok s : signature_fits s -> Signature_get s = Ok (signature_lite s).
Proof.
  destruct s as [fields [k p]]. unfold signature_fits, canGetFromSignature, Signature_get. cbn [fst snd].
  intros H. destruct fields; try reflexivity; rewrite (KeyLocator_get_ok k (H eq_refl)); reflexivity.
Qed.

Definition data_lite (v : DataValue) : ndn_Data :=
  mkNdnData (signature_lite (data_signature v)) (data_name v) (MetaInfo_get (data_metaInfo v)) (data_content v).

Lemma Data_get_ok v :
  wire_name (data_name v) -> signature_fits (data_signature v) -> Data_get v = Ok (data_lite v).
Proof. intros Hn Hs. unfold Data_get. rewrite Signature_get_ok by easy. cbn. now rewrite Name_get_ok. Qed.

(** What a signature is after it was sent. *)
Definition signature_received (s : SignatureValue) : SignatureValue :=
  let '(fields, (k, p)) := s in
  match fields with
  | Sha256WithRsaSignature bits => (Sha256WithRsaSignature (Some (blob_bytes bits)), (keyLocator_decoded k, p))
  | Sha256WithEcdsaSignature bits => (Sha256WithEcdsaSignature (Some (blob_bytes bits)), (keyLocator_decoded k, p))
  | HmacWithSha256Signature bits =>
      (HmacWithSha256Signature (Some (blob_bytes bits)), (keyLocator_decoded k, no_period))
  | DigestSha256Signature bits => (DigestSha256Signature (Some (blob_bytes bits)), (ndn_KeyLocator_initial, p))
  | GenericSignature bits info code =>
      (GenericSignature (Some (blob_bytes bits)) info code, (ndn_KeyLocator_initial, no_period))
  end.

(** What meta info is after it was sent: the same number as content type, a freshness period rounded to
    milliseconds, and the value of the final block as a generic component, whatever its type was. *)
Definition contentType_number (m : MetaInfoFields) : Z :=
  if mi_type_ m <=? 0 then 0
  else if mi_type_ m =? ndn_ContentType_OTHER_CODE then mi_otherTypeCode_ m else mi_type_ m.

Definition metaInfo_received (m : MetaInfoFields) : MetaInfoFields :=
  let number := contentType_number m in
  let type := if number <=? 3 then number else ndn_ContentType_OTHER_CODE in
  mkMetaInfoFields (-1000000) type (if number <=? 3 then -1 else number)
    (if freshnessPeriod_ m >=? 0 then (freshnessPeriod_ m + 500000) / 1000000 * 1000000 else -1000000)
    (generic (value_ (finalBlockId_ m))).

Definition data_received (v : DataValue) : DataValue :=
  (Some (blob_bytes (data_content v)),
   (signature_received (data_signature v), (data_name v, metaInfo_received (data_metaInfo v)))).

Lemma KeyLocator_set_value k x :
  value_of (KeyLocator_set (keyLocator_decoded k) x) = keyLocator_decoded k.
Proof.
  unfold KeyLocator_set, keyLocator_decoded.
  destruct (kl_type_ k.1); cbn [fst snd kl_type_ ndn_KeyLocator_initial];
    case_bool_decide; try easy.
  cbn -[name_obj_set]. now rewrite name_obj_set_value.
Qed.

(** The signature object that the decoder makes. *)
Lemma Signature_set_value s :
  exists x, new_signature (sig_type (signature_decoded (signature_lite s))) = Ok x /\
    value_of (Signature_set (set_signature (signature_decoded (signature_lite s))
                (blob_bytes (sig_signature (signature_lite s)))) (target_ (counter_set x)))
    = signature_received s.
Proof.
  destruct s as [fields [k p]]. destruct fields; eexists; (split; [reflexivity |]);
    cbn -[KeyLocator_set keyLocator_decoded]; try reflexivity;
    match goal with |- context [KeyLocator_set (keyLocator_decoded k) ?x] =>
      pose proof (KeyLocator_set_value k x) as Hk
    end; cbn -[KeyLocator_set keyLocator_decoded] in Hk; now rewrite Hk.
Qed.

Lemma MetaInfo_set_value m x :
  metaInfo_ok m -> freshnessPeriod_ m < 2 ^ 63 - 1000000 ->
  exists y, MetaInfo_set (metaInfo_decoded ndn_MetaInfo_initial m) x = Ok y /\
    counted_value y = MetaInfo_get (metaInfo_decoded ndn_MetaInfo_initial m).
Proof.
  intros Hm Hf. unfold MetaInfo_set. set (m' := metaInfo_decoded ndn_MetaInfo_initial m).
  assert (Ht : timestamp_ m' = -1000000) by (subst m'; unfold metaInfo_decoded; now destruct (decoded_contentType _ _)).
  assert (Hr : -1000000 <= freshnessPeriod_ m' < 2 ^ 63).
  { subst m'. unfold metaInfo_decoded. destruct (decoded_contentType _ _). cbn [freshnessPeriod_].
    destruct (Z.geb_spec (freshnessPeriod_ m) 0); [| lia]. Z.to_euclidean_division_equations; lia. }
  assert (Hms : forall ns, -1000000 <= ns < 2 ^ 63 -> fromMilliseconds ns = Ok ns).
  { intros ns Hns. unfold fromMilliseconds. destruct (Z.leb_spec (- 2 ^ 63) ns); [| lia].
    now destruct (Z.ltb_spec ns (2 ^ 63)); [| lia]. }
  rewrite (Hms (timestamp_ m')), (Hms (freshnessPeriod_ m')) by lia. eexists. split; [reflexivity |].
  reflexivity.
Qed.

Lemma MetaInfo_get_decoded self m :
  MetaInfo_get (metaInfo_decoded self (MetaInfo_get m)) = metaInfo_decoded self (MetaInfo_get m).
Proof.
  unfold metaInfo_decoded. destruct (decoded_contentType _ _). unfold MetaInfo_get at 1. cbn [timestamp_ mi_type_
    mi_otherTypeCode_ freshnessPeriod_ finalBlockId_ MetaInfo_get value_ generic]. f_equal.
  now destruct (zlen (value_ (finalBlockId_ m)) >? 0).
Qed.

Lemma metaInfo_received_decoded m :
  metaInfo_ok (MetaInfo_get m) -> metaInfo_decoded ndn_MetaInfo_initial (MetaInfo_get m) = metaInfo_received m.
Proof.
  intros [Ht _ _ _]. change (mi_type_ (MetaInfo_get m)) with (mi_type_ m) in Ht.
  change (mi_otherTypeCode_ (MetaInfo_get m)) with (mi_otherTypeCode_ m) in Ht.
  unfold metaInfo_decoded, metaInfo_received.
  replace (decoded_contentType _ _) with
    (if contentType_number m <=? 3 then contentType_number m else ndn_ContentType_OTHER_CODE,
     if contentType_number m <=? 3 then -1 else contentType_number m).
  - cbn. f_equal. destruct (Z.gtb_spec (zlen (value_ (finalBlockId_ m))) 0); [easy |].
    now destruct (value_ (finalBlockId_ m)).
  - unfold contentType_number, contentType_code, decoded_contentType. cbn [MetaInfo_get mi_type_ mi_otherTypeCode_].
    change (mi_otherTypeCode_ ndn_MetaInfo_initial) with (-1). unfold ndn_ContentType_BLOB.
    destruct Ht as [Ht | [Hk | [Ht Ho]]].
    + rewrite (proj2 (Z.leb_le _ _) Ht). replace ((mi_type_ m <? 0) || (mi_type_ m =? 0)) with true; [easy |].
      symmetry. apply orb_true_iff. rewrite Z.ltb_lt, Z.eqb_eq. lia.
    + rewrite Hk. assert (Hr : mi_type_ m = 1 \/ mi_type_ m = 2 \/ mi_type_ m = 3)
        by (apply is_known_contentType_cases in Hk; lia).
      now destruct Hr as [-> | [-> | ->]].
    + rewrite Ht. change (is_known_contentType ndn_ContentType_OTHER_CODE) with false. cbn match.
      set (n := mi_otherTypeCode_ m) in *. change (ndn_ContentType_OTHER_CODE <=? 0) with false.
      change (ndn_ContentType_OTHER_CODE =? ndn_ContentType_OTHER_CODE) with true. cbn [orb Z.ltb Z.eqb Z.compare ndn_ContentType_OTHER_CODE].
      destruct (Z.leb_spec n 3) as [Hn | Hn].
      * assert (Hr : n = 0 \/ n = 1 \/ n = 2 \/ n = 3) by lia. now destruct Hr as [-> | [-> | [-> | ->]]].
      * destruct (Z.ltb_spec n 0), (Z.eqb_spec n 0); try lia. cbn [orb].
        destruct (is_known_contentType n) eqn:Hk; [apply is_known_contentType_cases in Hk; lia | easy].
Qed.

Lemma Data_set_value v o :
  metaInfo_ok (MetaInfo_get (data_metaInfo v)) -> freshnessPeriod_ (data_metaInfo v) < 2 ^ 63 - 1000000 ->
  exists o', Data_set (data_decoded ndn_Data_initial (data_lite v)) o = Ok o' /\
    value_of o' = data_received v /\ later o o'.
Proof.
  intros Hm Hf. unfold Data_set, data_decoded. cbn [d_signature d_metaInfo d_name d_content data_lite ndn_Data_initial].
  destruct (Signature_set_value (data_signature v)) as (s & Hs & Hsv).
  destruct (MetaInfo_set_value (MetaInfo_get (data_metaInfo v)) (target_ (children_ o).2.2) Hm Hf) as (m & Hmi & Hmv).
  change (sig_type (set_signature ?s ?b)) with (sig_type s). rewrite Hs. cbn [mbind result_bind].
  rewrite Hmi. cbn [mbind result_bind]. eexists. split; [reflexivity |]. split; [| apply composite_set_later].
  rewrite MetaInfo_get_decoded, metaInfo_received_decoded in Hmv by easy. unfold data_received. rewrite <- Hsv, <- Hmv.
  rewrite <- (name_obj_set_value (data_name v) (target_ (children_ o).2.1)) at 1. reflexivity.
Qed.

(** A Data object that can be encoded; the block is its signature info. *)
Record data_sendable (v : DataValue) (b : Block) : Prop := {
  ds_name : wire_name (data_name v);
  ds_keyName : signature_fits (data_signature v);
  ds_signature : signature_block max_components (signature_lite (data_signature v)) b;
  ds_metaInfo : metaInfo_ok (MetaInfo_get (data_metaInfo v));
  ds_freshness : freshnessPeriod_ (data_metaInfo v) < 2 ^ 63 - 1000000;
  ds_size : zlen (block_bytes (data_block (data_lite v) b)) < 2 ^ 63
}.

(** What is encoded and decoded, before the fields are set in an object. *)
Lemma data_encoded (v : DataValue) (b : Block) :
  data_sendable v b ->
  exists bytes signedPortion d, encodeData v = Ok (bytes, signedPortion) /\
    decodeTlvData max_components max_components ndn_Data_initial (TlvDecoder_initialize bytes)
    = Ok (data_decoded ndn_Data_initial (data_lite v), signedPortion, d) /\
    sub_bytes bytes signedPortion.1 (signedPortion.2 - signedPortion.1) = blocks_bytes (data_signed (data_lite v) b).
Proof.
  intros [Hn Hk Hs Hm Hf Hl]. pose proof Hn as (Hc & _ & Hmax).
  assert (Hok : TlvData.data_ok max_components max_components (data_lite v) b) by now split.
  destruct (data_roundtrip_here max_components max_components 1500 ndn_Data_initial (data_lite v) b Hok
    ltac:(lia) Hl) as (bytes & begin & end_ & Henc & Hdec & Hsig).
  exists bytes, (begin, end_), (mkDecoder bytes (zlen bytes)). split; [| easy].
  unfold encodeData. rewrite Data_get_ok by easy. cbn [mbind result_bind]. now rewrite Henc.
Qed.

(** C4: a Data packet from one application to another. A Data object whose names have at most 100 components and whose signature
    and meta info can be encoded is encoded; the bytes, decoded into any Data object, change it to a packet with the same
    name, content and content type. The freshness period is rounded to a millisecond. The value of the final block is
    kept, but not its component type: it arrives as a generic component. The signature arrives
    with its bits and, but for a digest and a generic signature, its key locator; a null content or null bits
    arrive as empty. The two sides agree on the signed portion. *)
Theorem data_wire_roundtrip (v : DataValue) (b : Block) (o : DataObject) :
  data_sendable v b ->
  exists bytes signedPortion o', encodeData v = Ok (bytes, signedPortion) /\
    decodeData bytes o = Ok (o', signedPortion) /\ value_of o' = data_received v /\ later o o' /\
    sub_bytes bytes signedPortion.1 (signedPortion.2 - signedPortion.1)
    = blocks_bytes (data_signed (data_lite v) b).
Proof.
  intros Hv. destruct (Data_set_value v o (ds_metaInfo _ _ Hv) (ds_freshness _ _ Hv)) as (o' & Hset & Ho & Hlater).
  destruct (data_encoded v b Hv) as (bytes & signed & d & Henc & Hdec & Hsig). exists bytes, signed, o'. split_and!; try easy.
  unfold decodeData. rewrite Hdec. cbn [throw_failure mbind result_bind]. now rewrite Hset.
Qed.

(** ** Delegation sets *)

Definition tlv_delegation (d : Delegation) : ndn_DelegationSet_Delegation :=
  mkTlvDelegation (preference_ d) (delegation_name_ d).
Definition delegations_bytes (l : list Delegation) : list Z :=
  blocks_bytes (map (fun d => delegation_block (tlv_delegation d)) l).
Definition delegation_sendable (d : Delegation) : Prop :=
  - 2 ^ 31 <= preference_ d < 2 ^ 31 /\ wire_name (delegation_name_ d).

Lemma delegation_sendable_ok d :
  delegation_sendable d -> tlv_delegation_ok max_components (tlv_delegation d).
Proof. intros (Hp & Hc & _ & Hm). now split. Qed.

(** A delegation is appended to the bytes that are already in the output. *)
Lemma encodeDelegationSet_Delegation_ok d out acc :
  tlv_delegation_ok max_components d -> grows (realloc out) -> zlen acc <= zlen (array out) ->
  take (length acc) (array out) = acc -> zlen acc + zlen (block_bytes (delegation_block d)) < 2 ^ 63 ->
  exists out', encodeDelegationSet_Delegation d out (zlen acc)
    = Ok (out', zlen (block_bytes (delegation_block d))) /\
    grows (realloc out') /\
    let acc' := acc ++ block_bytes (delegation_block d) in
    zlen acc' <= zlen (array out') /\ take (length acc') (array out') = acc'.
Proof.
  intros Hd Hg Hroom Hacc Hl. unfold encodeDelegationSet_Delegation, Encoder.seek, ensureLength.
  cbn [enableOutput TlvEncoder_initialize output]. destruct (Z.geb_spec (zlen (array out)) (zlen acc)); [| lia].
  cbn [mbind result_bind mret result_ret].
  destruct (emits_delegation max_components d Hd ltac:(lia) (mkEncoder out (zlen acc) true)) as [Hok _];
    cbn [offset enableOutput output]; try lia.
  destruct Hok as (e' & -> & [Ho _ Hr Hf _ _ Hb]); [now right |].
  cbn [offset output mbind result_bind mret result_ret] in *. rewrite Nat2Z.id, Hacc in Hb.
  eexists. split; [rewrite Ho, wrap64_small by lia; do 2 f_equal; lia |]. rewrite Hr. split; [easy |].
  cbv zeta. rewrite length_app. split; [lia |]. rewrite <- Hb. f_equal. lia.
Qed.

Lemma encode_delegations_ok l out acc :
  Forall delegation_sendable l -> grows (realloc out) -> zlen acc <= zlen (array out) ->
  take (length acc) (array out) = acc -> zlen acc + zlen (delegations_bytes l) < 2 ^ 63 ->
  exists out', encode_delegations l out (zlen acc) = Ok (out', zlen (acc ++ delegations_bytes l)) /\
    zlen (acc ++ delegations_bytes l) <= zlen (array out') /\
    take (length (acc ++ delegations_bytes l)) (array out') = acc ++ delegations_bytes l.
Proof.
  intros H. revert out acc. induction H as [| d l Hd _ IH]; intros out acc Hg Hroom Hacc Hl; cbn [encode_delegations].
  - unfold delegations_bytes. cbn. rewrite app_nil_r. now exists out.
  - unfold delegations_bytes in *. cbn [map] in *. rewrite blocks_bytes_cons in *.
    rewrite app_assoc. rewrite length_app in Hl. unfold block_bytes in IH.
    rewrite Name_get_ok by apply Hd. cbn [mbind result_bind]. fold (tlv_delegation d).
    destruct (encodeDelegationSet_Delegation_ok (tlv_delegation d) out acc) as (out1 & -> & Hg1 & Hr1 & Ht1);
      try easy; [now apply delegation_sendable_ok | unfold block_bytes; lia |].
    cbn [throw_error mbind result_bind]. unfold block_bytes in *.
    rewrite wrap64_small by lia. rewrite <- Nat2Z.inj_add, <- length_app.
    apply IH; try easy. rewrite length_app. lia.
Qed.

Lemma encodeDelegationSet_ok l :
  Forall delegation_sendable l -> zlen (delegations_bytes l) < 2 ^ 63 ->
  encodeDelegationSet l = Ok (delegations_bytes l).
Proof.
  intros Hl Hs. unfold encodeDelegationSet. change 0 with (zlen (@nil Z)) at 1.
  destruct (encode_delegations_ok l (DynamicUInt8Vector 256) []) as (out & -> & Hr & Ht); try easy; [apply vector_grows |].
  cbn [app mbind result_bind mret result_ret] in *. f_equal. unfold finish, vector_resize.
  rewrite Nat2Z.id, Ht. replace (_ - _)%nat with O by lia. apply app_nil_r.
Qed.

Lemma decode_delegations_ok l fuel set :
  Forall delegation_sendable l -> zlen (delegations_bytes l) < 2 ^ 63 -> (length l < fuel)%nat ->
  exists set', decode_delegations fuel (delegations_bytes l) set = Ok set' /\
    counted_value set' = counted_value set ++ l.
Proof.
  intros H. revert fuel set. induction H as [| d l Hd _ IH]; intros fuel set Hl Hf.
  - exists set. rewrite app_nil_r. now destruct fuel.
  - destruct fuel as [| fuel]; [easy |]. cbn [length] in Hf.
    unfold delegations_bytes in *. cbn [map] in *. rewrite blocks_bytes_cons in *.
    rewrite length_app in Hl. set (b := delegation_block (tlv_delegation d)) in *.
    set (more := blocks_bytes _) in *.
    assert (Hread : decodeTlvDelegationSet_Delegation max_components (decoder_at [] (block_bytes b) more)
      = Ok (tlv_delegation d, mkDecoder (block_bytes b ++ more) (zlen (block_bytes b)))).
    { apply (reads_decoder_at _ _ [] b more); [cbn [app]; unfold block_bytes; rewrite length_app; lia | subst b; block_types |].
      now apply reads_delegation, delegation_sendable_ok. }
    change (decoder_at [] (block_bytes b) more) with (TlvDecoder_initialize (block_bytes b ++ more)) in Hread.
    assert (Hne : exists x r, block_bytes b ++ more = x :: r).
    { pose proof (zlen_tlv_bytes b.1 b.2) as Hh. pose proof (zlen_varNumber_bytes b.1). unfold block_bytes.
      destruct (tlv_bytes b.1 b.2) eqn:E; [cbn in Hh; lia | now do 2 eexists]. }
    unfold block_bytes in *. destruct Hne as (x & r & Hne). rewrite Hne in *. cbn [decode_delegations].
    rewrite Hread. cbn [throw_failure mbind result_bind d_offset].
    rewrite <- Hne, Nat2Z.id, drop_app_length.
    destruct (IH fuel (delegationSet_addUnsorted (mkDelegation (preference_ d) (delegation_name_ d)) set))
      as (set' & Hset & Hv); [lia | lia |].
    exists set'. split; [exact Hset |]. rewrite Hv. cbn. rewrite <- app_assoc. now destruct d.
Qed.

Lemma delegations_bytes_length l : (length l <= length (delegations_bytes l))%nat.
Proof.
  induction l as [| d l IH]; [easy |]. unfold delegations_bytes in *. cbn [map length].
  rewrite blocks_bytes_cons, length_app. pose proof (zlen_tlv_bytes
    (delegation_block (tlv_delegation d)).1 (delegation_block (tlv_delegation d)).2).
  pose proof (zlen_varNumber_bytes (delegation_block (tlv_delegation d)).1). lia.
Qed.

(** The set that was encoded is decoded into any set, and its order is kept. *)
Lemma delegationSet_roundtrip l set :
  Forall delegation_sendable l -> zlen (delegations_bytes l) < 2 ^ 63 ->
  exists bytes set', encodeDelegationSet l = Ok bytes /\ decodeDelegationSet bytes set = Ok set' /\
    counted_value set' = l.
Proof.
  intros Hl Hs. pose proof (delegations_bytes_length l).
  destruct (decode_delegations_ok l (S (length (delegations_bytes l))) (delegationSet_clear set) Hl Hs ltac:(lia))
    as (set' & Hset & Hv).
  exists (delegations_bytes l), set'. split; [now apply encodeDelegationSet_ok |]. now split.
Qed.

(** ** Interests *)

Lemma Exclude_set_value ex x :
  Forall entry_wire_ok ex -> counted_value (Exclude_set ex x) = ex.
Proof.
  intros H. unfold Exclude_set. enough (Hf : forall y, counted_value (fold_left (fun self entry =>
    match entry_type entry with
    | EXCLUDE_COMPONENT => appendComponent (entry_component entry) self
    | EXCLUDE_ANY => appendAny self
    end) ex y) = counted_value y ++ ex) by now rewrite Hf.
  induction H as [| [t c] ex He _ IH]; intros y; cbn [fold_left]; [now rewrite app_nil_r |].
  rewrite IH. unfold entry_wire_ok in He. cbn [entry_type entry_component] in *.
  destruct t; [| rewrite He]; cbn; now rewrite <- app_assoc.
Qed.

Lemma interest_settle_value i : interest_value (interest_settle i).2 = interest_value i.
Proof. rewrite interest_settle_eq. apply gcc_value. Qed.

(** The value of an Interest object after [Interest::set]. *)
Lemma Interest_set_value lite k hint self :
  fromMilliseconds (i_interestLifetime lite) = Ok (i_interestLifetime lite) ->
  i_keyLocator lite = keyLocator_decoded k -> Forall entry_wire_ok (i_exclude lite) ->
  (forall set, exists set', set_forwardingHint (i_forwardingHintWireEncoding lite) set = Ok set' /\
     counted_value set' = hint) ->
  exists self', Interest_set lite self = Ok self' /\ nonce_ self' = i_nonce lite /\
    interest_value self' =
      (mkInterestFields (i_minSuffixComponents lite) (i_maxSuffixComponents lite) true (i_childSelector lite)
         (i_mustBeFresh lite) (i_interestLifetime lite) (i_applicationParameters lite)
         (i_linkWireEncoding lite) (i_selectedDelegationIndex lite),
       (i_name lite, (i_keyLocator lite, (i_exclude lite, hint)))).
Proof.
  intros Hl Hk He Hh. unfold Interest_set. rewrite Hl. cbn [mbind result_bind].
  match goal with |- context [set_forwardingHint _ ?x] => destruct (Hh x) as (set' & -> & Hv) end.
  cbn [mbind result_bind].
  match goal with |- context [interest_settle ?x] =>
    pose proof (interest_settle_value x) as Hs; destruct (interest_settle x) as [count i'] end.
  eexists. split; [reflexivity |]. split; [reflexivity |].
  unfold interest_value, interest_object in *. cbn [interest_cached fst snd] in *. rewrite Hs.
  rewrite <- Hv. rewrite Hk at 2. rewrite <- (KeyLocator_set_value k) with
    (x := target_ (children_ (object_ (interest_cached self))).2.1), <- Hk.
  rewrite <- (name_obj_set_value (i_name lite) (target_ (children_ (object_ (interest_cached self))).1)) at 2.
  rewrite <- (Exclude_set_value (i_exclude lite) (target_ (children_ (object_ (interest_cached self))).2.2.1) He) at 2.
  reflexivity.
Qed.

(** An Interest object that v0.3 can encode. Its selectors, which v0.3 does not send, have to fit
    too, since [Interest::get] copies them. *)
Record interest_sendable (v : InterestValue) : Prop := {
  is_name : wire_name (interest_name v);
  is_keyName : wire_name (interest_keyLocator v).2;
  is_exclude : zlen (interest_exclude v) <= max_components;
  is_hint : Forall delegation_sendable (interest_forwardingHint v);
  is_hint_size : zlen (delegations_bytes (interest_forwardingHint v)) < 2 ^ 63;
  is_lifetime : interestLifetime_ v.1 < 2 ^ 63 - 1000000
}.

Lemma Exclude_get_ok ex lite :
  zlen lite + zlen ex <= max_components -> exists lite', Exclude_get ex lite = Ok lite'.
Proof.
  revert lite. induction ex as [| e ex IH]; intros lite Hl; cbn [Exclude_get length] in *; [now eexists |].
  destruct (Z.geb_spec (zlen lite) max_components); [lia |]. apply IH. rewrite length_app. cbn [length]. lia.
Qed.

Definition hint_encoding (hint : list Delegation) : Blob :=
  match hint with [] => None | _ => Some (delegations_bytes hint) end.

(** The structure for an Interest, but for its exclude. *)
Definition interest_lite (v : InterestValue) (nonce : Blob) (exclude : Exclude) : ndn_Interest :=
  mkNdnInterest (interest_name v) (minSuffixComponents_ v.1) (maxSuffixComponents_ v.1)
    (interest_keyLocator v) exclude (childSelector_ v.1) (mustBeFresh_ v.1) (interestLifetime_ v.1) nonce
    (hint_encoding (interest_forwardingHint v)) (applicationParameters_ v.1) (linkWireEncoding_ v.1)
    (selectedDelegationIndex_ v.1).

Lemma Interest_get_ok v nonce :
  interest_sendable v -> exists exclude, Interest_get v nonce = Ok (interest_lite v nonce exclude).
Proof.
  intros [Hn Hk He Hh Hs _]. unfold Interest_get. rewrite Name_get_ok by easy. cbn [mbind result_bind].
  rewrite KeyLocator_get_ok by easy. cbn [mbind result_bind].
  destruct (Exclude_get_ok (interest_exclude v) []) as (ex & ->); [cbn [length]; lia |]. cbn [mbind result_bind].
  exists ex. unfold interest_lite, hint_encoding.
  destruct (interest_forwardingHint v) as [| d hint]; [easy |].
  destruct (Z.gtb_spec (zlen (d :: hint)) 0); [| cbn in *; lia].
  now rewrite encodeDelegationSet_ok.
Qed.

Lemma some_hint hint : some_blob (hint_encoding hint) = hint_encoding hint.
Proof.
  destruct hint as [| d hint]; [easy |]. cbn [hint_encoding].
  pose proof (delegations_bytes_length (d :: hint)). now destruct (delegations_bytes (d :: hint)).
Qed.

Lemma decode_hint hint set :
  Forall delegation_sendable hint -> zlen (delegations_bytes hint) < 2 ^ 63 ->
  exists set', decodeDelegationSet (delegations_bytes hint) set = Ok set' /\ counted_value set' = hint.
Proof.
  intros Hh Hs. destruct (delegationSet_roundtrip hint set Hh Hs) as (bytes & set' & Henc & Hset & Hv).
  rewrite encodeDelegationSet_ok in Henc by easy. injection Henc as ->. now exists set'.
Qed.

Lemma set_forwardingHint_value hint set :
  Forall delegation_sendable hint -> zlen (delegations_bytes hint) < 2 ^ 63 ->
  exists set', set_forwardingHint (hint_encoding hint) set = Ok set' /\ counted_value set' = hint.
Proof.
  intros Hh Hs. destruct hint as [| d hint]; [now eexists |]. cbn [hint_encoding set_forwardingHint].
  destruct (decode_hint (d :: hint) set Hh Hs) as (set' & -> & Hv). now exists set'.
Qed.

(** What arrives of an Interest: the selectors of v0.2 and the link are not sent. *)
Definition interest_received (v : InterestValue) : InterestValue :=
  (mkInterestFields (-1) (if negb (maxSuffixComponents_ v.1 =? 1) then -1 else 1) true (-1) (mustBeFresh_ v.1)
     (round_lifetime (interestLifetime_ v.1)) (some_blob (applicationParameters_ v.1)) None (-1),
   (interest_name v, (ndn_KeyLocator_initial, ([], interest_forwardingHint v)))).

Lemma round_lifetime_ok ns :
  ns < 2 ^ 63 - 1000000 -> fromMilliseconds (round_lifetime ns) = Ok (round_lifetime ns).
Proof.
  intros H. unfold fromMilliseconds. replace (_ && _) with true; [easy |]. symmetry.
  apply andb_true_intro. unfold round_lifetime. destruct (Z.geb_spec ns 0); [| easy].
  rewrite Z.leb_le, Z.ltb_lt. Z.to_euclidean_division_equations; lia.
Qed.

(** C5: an Interest from one application to another. An Interest object that fits is encoded in the
    format v0.3, and the bytes, decoded into any Interest object, give it the name, CanBePrefix,
    MustBeFresh, the forwarding hint with its delegations in order, the application parameters, and the
    lifetime up to a millisecond of the one sent, and a nonce of four bytes: those of the sender if it
    had four. Both sides agree on the signed portion, all components of the name but the last. *)
Theorem interest_wire_roundtrip (random : list Z) (v : InterestValue) (nonce : Blob) (self : Interest) :
  interest_sendable v ->
  zlen (block_bytes (interest_block (interest_name v) (v03_tail random (interest_lite v nonce [])))) < 2 ^ 63 ->
  exists bytes signed self', encodeInterest true random v nonce = Ok (bytes, signed) /\
    decodeInterest bytes self = Ok (self', signed) /\ interest_value self' = interest_received v /\
    nonce_ self' = Some (nonce_bytes random nonce) /\
    sub_bytes bytes signed.1 (signed.2 - signed.1) = blocks_bytes (name_blocks (removelast (interest_name v))).
Proof.
  intros Hv Hl. destruct (Interest_get_ok v nonce Hv) as (ex & Hget). pose proof Hv as [[Hc [_ Hm]] _ _ Hh Hs Ht].
  set (lite := interest_lite v nonce ex) in *.
  destruct (v03_roundtrip_here interest_room 256 random lite) as (bytes & b & e & Henc & Hdec & Hsig);
    [now split; try (cbn; lia) | lia | exact Hl |].
  destruct (Interest_set_value (v03_decoded random lite) ndn_KeyLocator_initial (interest_forwardingHint v) self)
    as (self' & Hset & Hnonce & Hval).
  - now apply round_lifetime_ok.
  - easy.
  - apply List.Forall_nil.
  - intros set. cbn [v03_decoded i_forwardingHintWireEncoding lite interest_lite]. rewrite some_hint.
    now apply set_forwardingHint_value.
  - exists bytes, (b, e), self'. split; [| split; [| split; [| now split]]].
    + unfold encodeInterest. rewrite Hget. cbn [mbind result_bind]. now rewrite Henc.
    + unfold decodeInterest. rewrite Hdec. cbn [throw_failure mbind result_bind].
      rewrite Hset. cbn [v03_decoded i_forwardingHintWireEncoding lite interest_lite]. rewrite some_hint.
      unfold hint_encoding. destruct (interest_forwardingHint v) as [| d hint]; [easy |].
      now destruct (decode_hint (d :: hint) (mkCounted [] 0) Hh Hs) as (set' & -> & _).
    + rewrite Hval. cbn [v03_decoded lite interest_lite i_forwardingHintWireEncoding i_minSuffixComponents
        i_maxSuffixComponents i_childSelector i_mustBeFresh i_interestLifetime i_applicationParameters
        i_linkWireEncoding i_selectedDelegationIndex i_name i_keyLocator i_exclude getCanBePrefix].
      reflexivity.
Qed.

(** ** Witnesses *)

Definition example_data_value : DataValue :=
  (d_content example_data,
   ((Sha256WithRsaSignature (sig_signature example_signature),
     (sig_keyLocator example_signature, sig_validityPeriod example_signature)),
    (example_name, d_metaInfo example_data))).

Lemma example_wire_name : wire_name example_name.
Proof.
  split; [exact example_name_ok |]. split; [| now vm_compute].
  unfold example_name, digest_ok. repeat (apply List.Forall_cons; [easy |]). apply List.Forall_nil.
Defined.

Lemma data_wire_roundtrip_witness :
  exists b o, let v := example_data_value in
  exists bytes signedPortion o', encodeData v = Ok (bytes, signedPortion) /\
    decodeData bytes o = Ok (o', signedPortion) /\ value_of o' = data_received v /\ later o o' /\
    sub_bytes bytes signedPortion.1 (signedPortion.2 - signedPortion.1)
    = blocks_bytes (data_signed (data_lite v) b).
Proof.
  exists (ndn_Tlv_SignatureInfo, blocks_bytes (signature_value (signature_lite (data_signature example_data_value)))).
  exists (object_ (data_cached (Data_new [] (mkMetaInfoFields (-1000000) 0 (-1) (-1000000) (generic []))))).
  apply data_wire_roundtrip. split.
  - exact example_wire_name.
  - intros _. exact example_wire_name.
  - right. split; [reflexivity |].
    split; [right; unfold encodable_time; vm_compute; intuition congruence |]. left. split; [reflexivity |].
    split; [exact example_name_ok | now vm_compute].
  - split; [right; right; vm_compute; intuition congruence | vm_compute; reflexivity | | discriminate].
    split; [repeat constructor; unfold is_byte; lia | reflexivity].
  - vm_compute. reflexivity.
  - vm_compute. reflexivity.
Defined.

Definition example_interest_value : InterestValue :=
  (mkInterestFields 1 2 true 1 true 4000000000 (Some [5]) None (-1),
   (example_name, (ndn_KeyLocator_initial, ([any_entry],
     [mkDelegation 10 example_name; mkDelegation (-1) [generic [7]]])))).

Lemma interest_wire_roundtrip_witness :
  let v := example_interest_value in
  exists bytes signed self', encodeInterest true [9; 9; 9; 9] v (Some [1]) = Ok (bytes, signed) /\
    decodeInterest bytes (Interest_new [] true true) = Ok (self', signed) /\
    interest_value self' = interest_received v /\
    nonce_ self' = Some (nonce_bytes [9; 9; 9; 9] (Some [1])) /\
    sub_bytes bytes signed.1 (signed.2 - signed.1) = blocks_bytes (name_blocks (removelast (interest_name v))).
Proof.
  apply interest_wire_roundtrip; [| vm_compute; reflexivity].
  split.
  - exact example_wire_name.
  - split; [apply List.Forall_nil | split; [apply List.Forall_nil | now vm_compute]].
  - now vm_compute.
  - apply List.Forall_cons; [split; [cbn; lia | exact example_wire_name] |].
    apply List.Forall_cons; [split; [cbn; lia |] | apply List.Forall_nil].
    split; [| split; [| now vm_compute]]; (apply List.Forall_cons; [| apply List.Forall_nil]);
      [split; [constructor; [unfold is_byte; lia | constructor] | reflexivity] | easy].
  - vm_compute. reflexivity.
  - vm_compute. reflexivity.
Defined.
