(* ===== verification/ContentCache.v ===== *)
(** * The memory content cache

    src/util/memory-content-cache.cpp: Data packets are kept with the time when they are removed and the
    time when they are no longer fresh, Interests are answered from the cache, and the Interests that
    could not be answered may be kept until a Data packet for them is added. *)

From stdpp Require Import base list numbers option strings gmap sorting.
From Stdlib Require Import ZArith Lia.
From S2P Require Import Prelude Order Actions Name NameUri Exclude Data Interest.
Open Scope Z_scope.

(** Times are nanoseconds of the system clock. *)
Record Content := mkContent {
  content_name_ : Name;
  dataEncoding_ : list Z
}.

Record StaleTimeContent := mkStaleTimeContent {
  stale_content : Content;
  cacheRemovalTime_ : Z;
  freshnessExpiryTime_ : Z
}.

(** A face is a number. *)
Record PendingInterest := mkPendingInterest {
  pending_interest : InterestValue;
  pending_face : Z;
  timeoutPeriodStart_ : Z;
  timeoutTime_ : Z
}.

Inductive OnInterestCallback :=
| StorePendingInterest
| UserCallback (id : Z).

(** The key of the callbacks is the URI of the prefix. *)
Record MemoryContentCache := mkCache {
  cleanupInterval_ : Z;
  nextCleanupTime_ : Z;
  interestFilterIdList_ : list Z;
  registeredPrefixIdList_ : list Z;
  noStaleTimeCache_ : list Content;
  staleTimeCache_ : list StaleTimeContent;
  mc_pendingInterestTable_ : list PendingInterest;
  onDataNotFoundForPrefix_ : gmap (list Z) (option OnInterestCallback);
  onContentRemoved_ : option Z;
  isDoingCleanup_ : bool;
  minimumCacheLifetime_ : Z
}.

(** Calls of the face, and of the callbacks of the application. *)
Inductive CacheCall :=
| FaceSend (face : Z) (encoding : list Z)
| UnsetInterestFilter (id : Z)
| RemoveRegisteredPrefix (id : Z)
| CallOnDataNotFound (id : Z) (prefix : Name) (interest : InterestValue) (face : Z)
| CallOnContentRemoved (id : Z) (contentList : list Content).

Abbreviation CacheOp := (Act MemoryContentCache CacheCall).

Definition Cache_new (now cleanupInterval : Z) : MemoryContentCache :=
  mkCache cleanupInterval (now + cleanupInterval) [] [] [] [] [] ∅ None false 0.

(** *** Setters of the fields *)

Definition set_contents (stale : list StaleTimeContent) (noStale : list Content)
    (c : MemoryContentCache) : MemoryContentCache :=
  mkCache (cleanupInterval_ c) (nextCleanupTime_ c) (interestFilterIdList_ c) (registeredPrefixIdList_ c)
    noStale stale (mc_pendingInterestTable_ c) (onDataNotFoundForPrefix_ c) (onContentRemoved_ c)
    (isDoingCleanup_ c) (minimumCacheLifetime_ c).
Definition set_pendingInterests (table : list PendingInterest) (c : MemoryContentCache) : MemoryContentCache :=
  mkCache (cleanupInterval_ c) (nextCleanupTime_ c) (interestFilterIdList_ c) (registeredPrefixIdList_ c)
    (noStaleTimeCache_ c) (staleTimeCache_ c) table (onDataNotFoundForPrefix_ c) (onContentRemoved_ c)
    (isDoingCleanup_ c) (minimumCacheLifetime_ c).
Definition set_registrations (filters prefixes : list Z) (callbacks : gmap (list Z) (option OnInterestCallback))
    (c : MemoryContentCache) : MemoryContentCache :=
  mkCache (cleanupInterval_ c) (nextCleanupTime_ c) filters prefixes
    (noStaleTimeCache_ c) (staleTimeCache_ c) (mc_pendingInterestTable_ c) callbacks (onContentRemoved_ c)
    (isDoingCleanup_ c) (minimumCacheLifetime_ c).
Definition set_cleanup (nextCleanupTime : Z) (isDoingCleanup : bool) (c : MemoryContentCache) : MemoryContentCache :=
  mkCache (cleanupInterval_ c) nextCleanupTime (interestFilterIdList_ c) (registeredPrefixIdList_ c)
    (noStaleTimeCache_ c) (staleTimeCache_ c) (mc_pendingInterestTable_ c) (onDataNotFoundForPrefix_ c)
    (onContentRemoved_ c) isDoingCleanup (minimumCacheLifetime_ c).
Definition set_options (onContentRemoved : option Z) (minimumCacheLifetime : Z)
    (c : MemoryContentCache) : MemoryContentCache :=
  mkCache (cleanupInterval_ c) (nextCleanupTime_ c) (interestFilterIdList_ c) (registeredPrefixIdList_ c)
    (noStaleTimeCache_ c) (staleTimeCache_ c) (mc_pendingInterestTable_ c) (onDataNotFoundForPrefix_ c)
    onContentRemoved (isDoingCleanup_ c) minimumCacheLifetime.

Definition setOnContentRemoved (onContentRemoved : option Z) : CacheOp unit :=
  self_modify (fun c => set_options onContentRemoved (minimumCacheLifetime_ c) c).
Definition setMinimumCacheLifetime (minimumCacheLifetime : Z) : CacheOp unit :=
  self_modify (fun c => set_options (onContentRemoved_ c) minimumCacheLifetime c).

(** *** Prefixes and filters *)

(** The id is what the face returns. *)
Definition registerPrefix (prefix : Name) (onDataNotFound : option OnInterestCallback)
    (registeredPrefixId : Z) : CacheOp unit :=
  self_modify (fun c => set_registrations (interestFilterIdList_ c)
    (registeredPrefixIdList_ c ++ [registeredPrefixId])
    (<[toUri prefix false := onDataNotFound]> (onDataNotFoundForPrefix_ c)) c).

(** Both overloads; [prefix] is the one of the filter. *)
Definition cache_setInterestFilter (prefix : Name) (onDataNotFound : option OnInterestCallback)
    (interestFilterId : Z) : CacheOp unit :=
  self_modify (fun c => set_registrations (interestFilterIdList_ c ++ [interestFilterId])
    (registeredPrefixIdList_ c)
    (<[toUri prefix false := onDataNotFound]> (onDataNotFoundForPrefix_ c)) c).

Definition unregisterAll : CacheOp unit :=
  c ← self_get;
  _ ← performs (map UnsetInterestFilter (interestFilterIdList_ c));
  _ ← performs (map RemoveRegisteredPrefix (registeredPrefixIdList_ c));
  self_modify (set_registrations [] [] ∅).

(** *** Pending Interests *)

Definition isTimedOut (now : Z) (p : PendingInterest) : bool := now >=? timeoutTime_ p.

(** The constructor of [PendingInterest]. *)
Definition pendingInterest_new (now : Z) (interest : InterestValue) (face : Z) : PendingInterest :=
  let interestLifetime := interestLifetime_ interest.1 in
  let interestLifetime := if interestLifetime <? 0 then seconds 4 else interestLifetime in
  mkPendingInterest interest face now (now + interestLifetime).

Definition storePendingInterest (now : Z) (interest : InterestValue) (face : Z) : CacheOp unit :=
  self_modify (fun c =>
    set_pendingInterests (mc_pendingInterestTable_ c ++ [pendingInterest_new now interest face]) c).

(** [matchesName], which returns for every name: [matchesName_name_matches]. *)
Definition name_matches (interest : InterestValue) (name : Name) : bool :=
  match matchesName interest name with Ok b => b | Err _ => false end.

(** The loop backwards of [getPendingInterestsForName] and [getPendingInterestsWithPrefix]: the table
    without the entries that timed out, and the entries that are selected, the last one first. *)
Fixpoint pending_loop (now : Z) (select : PendingInterest -> bool) (table : list PendingInterest) :
    list PendingInterest * list PendingInterest :=
  match table with
  | [] => ([], [])
  | p :: table =>
      let '(table, selected) := pending_loop now select table in
      if isTimedOut now p then (table, selected)
      else (p :: table, if select p then selected ++ [p] else selected)
  end.

Definition getPendingInterestsForName (now : Z) (name : Name) : CacheOp (list PendingInterest) :=
  c ← self_get;
  let '(table, pendingInterests) :=
    pending_loop now (fun p => name_matches (pending_interest p) name) (mc_pendingInterestTable_ c) in
  _ ← self_modify (set_pendingInterests table);
  mret pendingInterests.

Definition getPendingInterestsWithPrefix (now : Z) (prefix : Name) : CacheOp (list PendingInterest) :=
  c ← self_get;
  let '(table, pendingInterests) :=
    pending_loop now (fun p => name_match prefix (interest_name (pending_interest p)))
      (mc_pendingInterestTable_ c) in
  _ ← self_modify (set_pendingInterests table);
  mret pendingInterests.

(** [Face::send]. *)
Definition face_send (face : Z) (encoding : list Z) : CacheOp unit :=
  if zlen encoding >? getMaxNdnPacketSize then
    throw_exn (RuntimeError "The encoded packet size exceeds the maximum limit getMaxNdnPacketSize()")
  else perform (FaceSend face encoding).

(** The loop backwards of [add]. The flag tells that the send threw, which ends the loop. *)
Fixpoint satisfy_loop (now : Z) (name : Name) (encoding : list Z) (table : list PendingInterest) :
    list PendingInterest * list CacheCall * bool :=
  match table with
  | [] => ([], [], false)
  | p :: table =>
      let '(table, sent, stopped) := satisfy_loop now name encoding table in
      if stopped : bool then (p :: table, sent, true)
      else if isTimedOut now p then (table, sent, false)
      else if name_matches (pending_interest p) name then
        if zlen encoding >? getMaxNdnPacketSize then (p :: table, sent, true)
        else (table, sent ++ [FaceSend (pending_face p) encoding], false)
      else (p :: table, sent, false)
  end.

(** *** The contents *)

(** The constructor of [StaleTimeContent]. *)
Definition staleTimeContent_new (content : Content) (freshnessPeriod now minimumCacheLifetime : Z) : StaleTimeContent :=
  mkStaleTimeContent content (now + Z.max freshnessPeriod minimumCacheLifetime) (now + freshnessPeriod).

Definition isPastRemovalTime (now : Z) (s : StaleTimeContent) : bool := cacheRemovalTime_ s <=? now.
Definition isFresh (now : Z) (s : StaleTimeContent) : bool := freshnessExpiryTime_ s >? now.

(** [lower_bound] and [insert]: before the first content that is not removed earlier. *)
Fixpoint stale_insert (content : StaleTimeContent) (cache : list StaleTimeContent) : list StaleTimeContent :=
  match cache with
  | [] => [content]
  | c :: cache =>
      if cacheRemovalTime_ c <? cacheRemovalTime_ content then c :: stale_insert content cache
      else content :: c :: cache
  end.

(** The loop of [doCleanup]: what is removed from the front, and the rest. *)
Fixpoint cleanup_loop (now : Z) (cache : list StaleTimeContent) :
    list StaleTimeContent * list StaleTimeContent :=
  match cache with
  | [] => ([], [])
  | c :: cache' =>
      if isPastRemovalTime now c then
        let '(removed, rest) := cleanup_loop now cache' in (c :: removed, rest)
      else ([], cache)
  end.

Section MemoryContentCache.
(** [wireEncode] of the Data packets, and the packets that the application adds from its
    [onContentRemoved] callback. *)
Context (wireEncode : DataValue -> result exn (list Z)).
Context (contentRemoved : Z -> list Content -> list DataValue).

(** [add] after its clean up. *)
Definition add_content (now : Z) (data : DataValue) : CacheOp unit :=
  encoding ← returns (wireEncode data);
  let content := mkContent (data_name data) encoding in
  let freshnessPeriod := freshnessPeriod_ (data_metaInfo data) in
  _ ← self_modify (fun c =>
    if freshnessPeriod >=? 0 then
      set_contents (stale_insert (staleTimeContent_new content freshnessPeriod now (minimumCacheLifetime_ c))
                      (staleTimeCache_ c)) (noStaleTimeCache_ c) c
    else set_contents (staleTimeCache_ c) (noStaleTimeCache_ c ++ [content]) c);
  c ← self_get;
  let '(table, sent, _) := satisfy_loop now (data_name data) encoding (mc_pendingInterestTable_ c) in
  _ ← self_modify (set_pendingInterests table);
  performs sent.

(** The callback adds packets while [isDoingCleanup_] is set, so there is no clean up in them. An
    exception in one ends the callback and is logged. *)
Definition call_onContentRemoved (now : Z) (contentList : list Content) : CacheOp unit :=
  c ← self_get;
  match onContentRemoved_ c with
  | None => mret tt
  | Some id =>
      _ ← perform (CallOnContentRemoved id contentList);
      catch (for_each (add_content now) (contentRemoved id contentList)) (fun _ => mret tt)
  end.

Definition doCleanup (now : Z) : CacheOp unit :=
  c ← self_get;
  if isDoingCleanup_ c then mret tt
  else
    _ ← self_modify (fun c => set_cleanup (nextCleanupTime_ c) true c);
    removed ← (if now >=? nextCleanupTime_ c then
                 let '(removed, rest) := cleanup_loop now (staleTimeCache_ c) in
                 _ ← self_modify (fun c => set_contents rest (noStaleTimeCache_ c) c);
                 _ ← self_modify (fun c => set_cleanup (now + cleanupInterval_ c) (isDoingCleanup_ c) c);
                 mret (map stale_content removed)
               else mret []);
    _ ← (if zlen removed >? 0 then call_onContentRemoved now removed else mret tt);
    self_modify (fun c => set_cleanup (nextCleanupTime_ c) false c).

Definition cache_add (now : Z) (data : DataValue) : CacheOp unit :=
  _ ← doCleanup now; add_content now data.

(** *** Answering an Interest *)

(** Both arrays, with whether each content is fresh. *)
Definition all_contents (now : Z) (c : MemoryContentCache) : list (Content * bool) :=
  map (fun s => (stale_content s, isFresh now s)) (staleTimeCache_ c) ++
  map (fun content => (content, true)) (noStaleTimeCache_ c).

Definition is_candidate (interest : InterestValue) (x : Content * bool) : bool :=
  name_matches interest (content_name_ x.1) && negb (mustBeFresh_ interest.1 && negb x.2).

(** The component after the name of the Interest, empty when there is none. *)
Definition child_component (interest : InterestValue) (content : Content) : Component :=
  if zlen (content_name_ content) >? zlen (interest_name interest) then
    match name_get (content_name_ content) (zlen (interest_name interest)) with
    | Ok component => component
    | Err _ => generic []
    end
  else generic [].

Definition better_match (interest : InterestValue) (component : Component)
    (selected : option (Component * list Z)) : bool :=
  match selected with
  | None => true
  | Some (selectedComponent, _) =>
      if childSelector_ interest.1 =? 0 then component_lt component selectedComponent
      else component_gt component selectedComponent
  end.

(** The loop over the contents: the encoding that is sent at once when there is no child selector, or
    else the one selected in the end. *)
Fixpoint select_loop (interest : InterestValue) (contents : list (Content * bool))
    (selected : option (Component * list Z)) : option (list Z) :=
  match contents with
  | [] => match selected with Some (_, encoding) => Some encoding | None => None end
  | x :: contents =>
      if is_candidate interest x then
        if childSelector_ interest.1 <? 0 then Some (dataEncoding_ x.1)
        else
          let component := child_component interest x.1 in
          select_loop interest contents
            (if better_match interest component selected then Some (component, dataEncoding_ x.1) else selected)
      else select_loop interest contents selected
  end.

(** [later] is the clock when the pending Interest is stored. *)
Definition onInterest (now later : Z) (prefix : Name) (interest : InterestValue) (face : Z) : CacheOp unit :=
  _ ← doCleanup now;
  c ← self_get;
  match select_loop interest (all_contents now c) None with
  | Some encoding => face_send face encoding
  | None =>
      match onDataNotFoundForPrefix_ c !! toUri prefix false with
      | Some (Some StorePendingInterest) => storePendingInterest later interest face
      | Some (Some (UserCallback id)) => perform (CallOnDataNotFound id prefix interest face)
      | _ => mret tt
      end
  end.
End MemoryContentCache.

(** ** The contents are sorted by their removal time *)

Definition removed_before (a b : StaleTimeContent) : Prop := cacheRemovalTime_ a <= cacheRemovalTime_ b.

(** The invariant between two calls. *)
Record cache_ok (c : MemoryContentCache) : Prop := {
  cache_sorted : StronglySorted removed_before (staleTimeCache_ c);
  cache_idle : isDoingCleanup_ c = false
}.

Lemma stale_insert_perm x l : stale_insert x l ≡ₚ x :: l.
Proof.
  induction l as [| y l IH]; [easy |]. cbn. destruct (_ <? _); [| easy]. rewrite IH. apply Permutation_swap.
Qed.

Lemma stale_insert_sorted x l :
  StronglySorted removed_before l -> StronglySorted removed_before (stale_insert x l).
Proof.
  induction 1 as [| y l Hl IH Hy]; cbn; [repeat constructor |].
  destruct (Z.ltb_spec (cacheRemovalTime_ y) (cacheRemovalTime_ x)).
  - constructor; [exact IH |]. rewrite stale_insert_perm. constructor; [unfold removed_before; lia | exact Hy].
  - constructor; [now constructor |]. constructor; [exact H |].
    eapply Forall_impl; [exact Hy |]. unfold removed_before in *. lia.
Qed.

Lemma cleanup_loop_filter now l :
  StronglySorted removed_before l ->
  cleanup_loop now l = (filter (fun s => isPastRemovalTime now s = true) l,
                        filter (fun s => isPastRemovalTime now s = false) l).
Proof.
  induction 1 as [| y l Hl IH Hy]; [easy |]. cbn [cleanup_loop]. rewrite !filter_cons.
  destruct (isPastRemovalTime now y) eqn:E; cbn [decide]; repeat case_decide; try easy.
  - now rewrite IH.
  - assert (Hall : Forall (fun s => isPastRemovalTime now s = false) l).
    { eapply Forall_impl; [exact Hy |]. unfold isPastRemovalTime, removed_before in *. intros z Hz.
      apply Z.leb_gt in E. apply Z.leb_gt. lia. }
    f_equal; [| f_equal].
    + symmetry. apply filter_none. eapply Forall_impl; [exact Hall |]. congruence.
    + symmetry. now apply filter_all.
Qed.

Definition sorted_cache (c : MemoryContentCache) : Prop := StronglySorted removed_before (staleTimeCache_ c).

Section Invariant.
Context (wireEncode : DataValue -> result exn (list Z)) (contentRemoved : Z -> list Content -> list DataValue).

Lemma add_content_sorted now data : keeps sorted_cache (add_content wireEncode now data).
Proof.
  unfold add_content. keeps_step; [keeps_step |]. cbv zeta. keeps_step.
  - keeps_step. intros c Hc. unfold sorted_cache in *. destruct (_ >=? 0); cbn; [| exact Hc].
    now apply stale_insert_sorted.
  - apply keeps_get_bind. intros c Hc. now destruct (satisfy_loop _ _ _ _) as [[table sent] stopped].
Qed.

Lemma call_onContentRemoved_sorted now l :
  keeps sorted_cache (call_onContentRemoved wireEncode contentRemoved now l).
Proof.
  unfold call_onContentRemoved. apply keeps_get_bind. intros c Hc. revert c Hc.
  enough (forall o, keeps sorted_cache (match o with
    | None => mret tt
    | Some id => _ ← perform (CallOnContentRemoved id l);
        catch (for_each (add_content wireEncode now) (contentRemoved id l)) (fun _ => mret tt)
    end)) as H by (intros c; apply (H (onContentRemoved_ c))).
  intros [id |]; repeat keeps_step. apply add_content_sorted.
Qed.

Lemma doCleanup_sorted now : keeps sorted_cache (doCleanup wireEncode contentRemoved now).
Proof.
  unfold doCleanup. apply keeps_get_bind. intros c Hc. destruct (isDoingCleanup_ c); [exact Hc |].
  revert c Hc.
  enough (forall rest removed (due : bool), StronglySorted removed_before rest ->
    keeps sorted_cache (
      _ ← self_modify (fun c => set_cleanup (nextCleanupTime_ c) true c);
      removed ← (if due then
                   _ ← self_modify (fun c => set_contents rest (noStaleTimeCache_ c) c);
                   _ ← self_modify (fun c => set_cleanup (now + cleanupInterval_ c) (isDoingCleanup_ c) c);
                   mret (map stale_content removed)
                 else mret []);
      _ ← (if zlen removed >? 0 then call_onContentRemoved wireEncode contentRemoved now removed else mret tt);
      self_modify (fun c => set_cleanup (nextCleanupTime_ c) false c))) as H.
  { intros c Hc. pose proof (cleanup_loop_filter now _ Hc) as Hl.
    destruct (cleanup_loop now (staleTimeCache_ c)) as [removed rest]. injection Hl as Hremoved Hrest.
    apply (H rest removed (now >=? nextCleanupTime_ c)); [| exact Hc].
    rewrite Hrest. now apply StronglySorted_filter. }
  intros rest removed due Hrest. repeat keeps_step; try easy.
  - destruct due; repeat keeps_step; easy.
  - destruct (_ >? 0); [apply call_onContentRemoved_sorted | keeps_step].
Qed.

Lemma call_onContentRemoved_result now l c :
  result_of (call_onContentRemoved wireEncode contentRemoved now l c) = Ok tt.
Proof.
  unfold call_onContentRemoved, mbind, Act_bind, self_get, result_of.
  destruct (onContentRemoved_ c) as [id |]; [| easy]. unfold perform, catch.
  destruct (for_each _ _ _) as [[s1 c1] [[] | e]]; reflexivity.
Qed.

(** The clean up always ends, and is over when it ends. *)
Lemma doCleanup_result now c :
  isDoingCleanup_ c = false ->
  result_of (doCleanup wireEncode contentRemoved now c) = Ok tt /\
  isDoingCleanup_ (state_of (doCleanup wireEncode contentRemoved now c)) = false.
Proof.
  intros Hc. unfold doCleanup, mbind, Act_bind, self_get, self_modify, mret, Act_ret, result_of, state_of.
  rewrite Hc. destruct (now >=? nextCleanupTime_ c).
  - destruct (cleanup_loop now (staleTimeCache_ c)) as [removed rest]. destruct (_ >? 0); [| easy].
    match goal with |- context [call_onContentRemoved _ _ _ ?l ?s] =>
      pose proof (call_onContentRemoved_result now l s) as Hr;
      destruct (call_onContentRemoved wireEncode contentRemoved now l s) as [[s1 c1] r1] end.
    cbn in Hr. now rewrite Hr.
  - easy.
Qed.

Lemma doCleanup_ok now c : cache_ok c -> cache_ok (state_of (doCleanup wireEncode contentRemoved now c)).
Proof. intros [Hs Hi]. split; [now apply doCleanup_sorted | now apply doCleanup_result]. Qed.

Lemma add_content_idle now data c :
  isDoingCleanup_ (state_of (add_content wireEncode now data c)) = isDoingCleanup_ c.
Proof.
  unfold add_content, returns, mbind, Act_bind, self_get, self_modify, performs, state_of.
  destruct (wireEncode data); [| easy]. destruct (_ >=? 0);
    now match goal with |- context [satisfy_loop ?a ?b ?c ?d] => destruct (satisfy_loop a b c d) as [[] ?] end.
Qed.

Lemma cache_add_ok now data c : cache_ok c -> cache_ok (state_of (cache_add wireEncode contentRemoved now data c)).
Proof.
  intros Hc. pose proof (doCleanup_ok now c Hc) as [Hs Hi]. pose proof (doCleanup_result now c (cache_idle _ Hc)) as [Hr _].
  unfold cache_add, mbind, Act_bind, state_of, result_of in *.
  destruct (doCleanup _ _ now c) as [[c1 calls1] r]. cbn in *. rewrite Hr.
  pose proof (add_content_sorted now data c1 Hs) as H1. pose proof (add_content_idle now data c1) as H2.
  unfold state_of in *. destruct (add_content _ now data c1) as [[c2 calls2] r2]. cbn in *. split; [exact H1 | congruence].
Qed.

Lemma cache_onInterest_ok now later prefix interest face c :
  cache_ok c -> cache_ok (state_of (onInterest wireEncode contentRemoved now later prefix interest face c)).
Proof.
  intros Hc. pose proof (doCleanup_ok now c Hc) as [Hs Hi]. pose proof (doCleanup_result now c (cache_idle _ Hc)) as [Hr _].
  unfold onInterest, mbind, Act_bind, self_get, state_of, result_of in *.
  destruct (doCleanup _ _ now c) as [[c1 calls1] r]. cbn in *. rewrite Hr.
  destruct (select_loop _ _ _) as [e |].
  - unfold face_send. now destruct (_ >? _).
  - now destruct (onDataNotFoundForPrefix_ c1 !! toUri prefix false) as [[[| id] |] |].
Qed.

(** Every cache that an application can have, between two calls. *)
Inductive cache_reach : MemoryContentCache -> Prop :=
| cache_new now interval : cache_reach (Cache_new now interval)
| cache_option c id lifetime : cache_reach c ->
    cache_reach (state_of ((_ ← setOnContentRemoved id; setMinimumCacheLifetime lifetime) c))
| cache_register c prefix callback id : cache_reach c -> cache_reach (state_of (registerPrefix prefix callback id c))
| cache_filter c prefix callback id : cache_reach c ->
    cache_reach (state_of (cache_setInterestFilter prefix callback id c))
| cache_unregister c : cache_reach c -> cache_reach (state_of (unregisterAll c))
| cache_store c now interest face : cache_reach c ->
    cache_reach (state_of (storePendingInterest now interest face c))
| cache_pending c now name : cache_reach c -> cache_reach (state_of (getPendingInterestsForName now name c))
| cache_with_prefix c now prefix : cache_reach c ->
    cache_reach (state_of (getPendingInterestsWithPrefix now prefix c))
| cache_added c now data : cache_reach c -> cache_reach (state_of (cache_add wireEncode contentRemoved now data c))
| cache_asked c now later prefix interest face : cache_reach c ->
    cache_reach (state_of (onInterest wireEncode contentRemoved now later prefix interest face c)).

Lemma cache_reach_ok c : cache_reach c -> cache_ok c.
Proof.
  induction 1 as [now interval | c id t _ [] | c p cb id _ [] | c p cb id _ [] | c _ [] | c now i f _ []
    | c now n _ [] | c now n _ [] | c now data _ IH | c now later p i f _ IH].
  - split; [constructor | easy].
  - now split.
  - now split.
  - now split.
  - now split.
  - now split.
  - unfold getPendingInterestsForName, mbind, Act_bind, self_get, state_of.
    destruct (pending_loop _ _ _); now split.
  - unfold getPendingInterestsWithPrefix, mbind, Act_bind, self_get, state_of.
    destruct (pending_loop _ _ _); now split.
  - now apply cache_add_ok.
  - now apply cache_onInterest_ok.
Qed.
End Invariant.

(** *** What the clean up removes *)

Definition past (now : Z) (s : StaleTimeContent) : Prop := isPastRemovalTime now s = true.
Definition kept (now : Z) (s : StaleTimeContent) : Prop := isPastRemovalTime now s = false.

#[export] Instance past_dec now s : Decision (past now s) := bool_eq_dec (isPastRemovalTime now s) true.
#[export] Instance kept_dec now s : Decision (kept now s) := bool_eq_dec (isPastRemovalTime now s) false.

(** The cache and the calls after a clean up whose callback adds nothing. *)
Definition cleaned (now : Z) (c : MemoryContentCache) : MemoryContentCache :=
  if now >=? nextCleanupTime_ c then
    set_cleanup (now + cleanupInterval_ c) false
      (set_contents (filter (fun s => isPastRemovalTime now s = false) (staleTimeCache_ c)) (noStaleTimeCache_ c) c)
  else c.

Definition cleanup_calls (now : Z) (c : MemoryContentCache) : list CacheCall :=
  if now >=? nextCleanupTime_ c then
    match filter (fun s => isPastRemovalTime now s = true) (staleTimeCache_ c), onContentRemoved_ c with
    | [], _ | _, None => []
    | removed, Some id => [CallOnContentRemoved id (map stale_content removed)]
    end
  else [].

Lemma doCleanup_quiet wireEncode contentRemoved now c :
  cache_ok c -> (forall id l, contentRemoved id l = []) ->
  doCleanup wireEncode contentRemoved now c = (cleaned now c, cleanup_calls now c, Ok tt).
Proof.
  intros [Hs Hi] Hq. unfold doCleanup, cleaned, cleanup_calls, mbind, Act_bind, self_get, self_modify, mret, Act_ret.
  rewrite Hi. destruct (now >=? nextCleanupTime_ c).
  - rewrite (cleanup_loop_filter now _ Hs).
    destruct (filter (fun s => isPastRemovalTime now s = true) (staleTimeCache_ c)) as [| x l]; [now destruct c |].
    destruct (Z.gtb_spec (zlen (map stale_content (x :: l))) 0); [| cbn in *; lia].
    unfold call_onContentRemoved, mbind, Act_bind, self_get, perform, catch. cbn [onContentRemoved_ set_cleanup set_contents].
    destruct (onContentRemoved_ c) as [id |] eqn:E; [rewrite Hq |]; now destruct c.
  - destruct c. cbn in *. now subst.
Qed.

(** *** Which content answers an Interest *)

(** The first child is the leftmost one for the child selector 0, the rightmost one for others. *)
Definition child_order (interest : InterestValue) (a b : Component) : Z :=
  if childSelector_ interest.1 =? 0 then component_compare a b else component_compare b a.

Lemma child_order_refl i a : child_order i a a = 0.
Proof. unfold child_order. destruct (_ =? 0); apply tc_refl. Qed.

Lemma child_order_trans i a b c : child_order i a b <= 0 -> child_order i b c <= 0 -> child_order i a c <= 0.
Proof. unfold child_order. destruct (_ =? 0); intros H1 H2; now apply (tc_trans _ b). Qed.

Lemma better_match_order i component selectedComponent encoding :
  better_match i component (Some (selectedComponent, encoding)) = (child_order i component selectedComponent <? 0).
Proof.
  unfold better_match, child_order, component_lt, component_gt. destruct (_ =? 0); [easy |].
  rewrite (tc_antisym (cmp := component_compare) component selectedComponent), Z.gtb_ltb.
  destruct (Z.ltb_spec 0 (component_compare component selectedComponent)),
    (Z.ltb_spec (- component_compare component selectedComponent) 0); lia.
Qed.

(** The content [x] answers the Interest: of the contents that match it and are fresh enough, it is the
    first one, or its child comes first. *)
Definition answers (i : InterestValue) (contents : list (Content * bool)) (x : Content * bool) : Prop :=
  x ∈ contents /\ is_candidate i x = true /\
  if childSelector_ i.1 <? 0 then
    exists before after, contents = before ++ x :: after /\ Forall (fun y => is_candidate i y = false) before
  else forall y, y ∈ contents -> is_candidate i y = true ->
    child_order i (child_component i x.1) (child_component i y.1) <= 0.

Lemma select_first i contents :
  (childSelector_ i.1 <? 0) = true ->
  match select_loop i contents None with
  | Some encoding => exists x, answers i contents x /\ encoding = dataEncoding_ x.1
  | None => Forall (fun y => is_candidate i y = false) contents
  end.
Proof.
  intros Hc. unfold answers. rewrite Hc. induction contents as [| x contents IH]; cbn [select_loop]; [constructor |].
  rewrite Hc. destruct (is_candidate i x) eqn:Hx.
  - exists x. split; [| easy]. split; [constructor | split; [easy |]]. now exists [], contents.
  - destruct (select_loop i contents None) as [encoding |].
    + destruct IH as (y & (Hy & Hcy & before & after & -> & Hb) & ->). exists y. split; [| easy].
      split; [now constructor |]. split; [easy |]. exists (x :: before), after. split; [easy |]. now constructor.
    + now constructor.
Qed.

Lemma select_best i contents selected :
  (childSelector_ i.1 <? 0) = false ->
  match select_loop i contents selected with
  | Some encoding =>
      (exists x, x ∈ contents /\ is_candidate i x = true /\ encoding = dataEncoding_ x.1 /\
         (forall y, y ∈ contents -> is_candidate i y = true ->
            child_order i (child_component i x.1) (child_component i y.1) <= 0) /\
         match selected with Some (s, _) => child_order i (child_component i x.1) s <= 0 | None => True end) \/
      (exists s, selected = Some (s, encoding) /\ forall y, y ∈ contents -> is_candidate i y = true ->
         child_order i s (child_component i y.1) <= 0)
  | None => selected = None /\ Forall (fun y => is_candidate i y = false) contents
  end.
Proof.
  intros Hc. revert selected. induction contents as [| x contents IH]; intros selected; cbn [select_loop].
  - destruct selected as [[s encoding] |]; [| now split]. right. exists s. split; [easy |].
    intros y Hy. now apply elem_of_nil in Hy.
  - rewrite Hc. destruct (is_candidate i x) eqn:Hx.
    + set (selected' := if better_match i _ selected then _ else _). specialize (IH selected').
      assert (Hs : match selected' with
        | Some (s, _) => child_order i s (child_component i x.1) <= 0 /\
            match selected with Some (s0, _) => child_order i s s0 <= 0 | None => True end
        | None => False end).
      { subst selected'. destruct selected as [[s0 e0] |].
        - rewrite better_match_order. destruct (Z.ltb_spec (child_order i (child_component i x.1) s0) 0).
          + rewrite child_order_refl. lia.
          + rewrite child_order_refl. split; [| lia]. unfold child_order in *.
            destruct (childSelector_ i.1 =? 0); rewrite (tc_antisym (cmp := component_compare)); lia.
        - cbn. now rewrite child_order_refl. }
      destruct (select_loop i contents selected') as [encoding |].
      * destruct IH as [(y & Hy & Hcy & He & Hbest & Hsel) | (s & Es & Hbest)].
        -- left. exists y. destruct selected' as [[s1 e1] |]; [| easy]. destruct Hs as [Hs1 Hs2].
           split; [now constructor |]. split; [easy |]. split; [easy |]. split.
           ++ intros z Hz Hcz. apply elem_of_cons in Hz as [-> | Hz]; [| now apply Hbest].
              now apply (child_order_trans i _ s1).
           ++ destruct selected as [[s0 e0] |]; [| easy]. now apply (child_order_trans i _ s1).
        -- rewrite Es in Hs. destruct Hs as [Hs1 Hs2].
           subst selected'. destruct (better_match i (child_component i x.1) selected).
           ++ injection Es as <- <-. left. exists x. split; [constructor |]. split; [easy |]. split; [easy |].
              split; [| easy]. intros z Hz Hcz. apply elem_of_cons in Hz as [-> | Hz]; [| now apply Hbest].
              now rewrite child_order_refl.
           ++ right. exists s. split; [exact Es |]. intros z Hz Hcz.
              apply elem_of_cons in Hz as [-> | Hz]; [easy | now apply Hbest].
      * destruct IH as [Hnone _]. rewrite Hnone in Hs. easy.
    + specialize (IH selected). destruct (select_loop i contents selected) as [encoding |].
      * destruct IH as [(y & Hy & Hcy & He & Hbest & Hsel) | (s & Es & Hbest)].
        -- left. exists y. split; [now constructor |]. split; [easy |]. split; [easy |]. split; [| easy].
           intros z Hz Hcz. apply elem_of_cons in Hz as [-> | Hz]; [congruence | now apply Hbest].
        -- right. exists s. split; [easy |]. intros z Hz Hcz.
           apply elem_of_cons in Hz as [-> | Hz]; [congruence | now apply Hbest].
      * split; [easy |]. now constructor.
Qed.

Lemma select_answers i contents :
  match select_loop i contents None with
  | Some encoding => exists x, answers i contents x /\ encoding = dataEncoding_ x.1
  | None => Forall (fun y => is_candidate i y = false) contents
  end.
Proof.
  destruct (childSelector_ i.1 <? 0) eqn:Hc; [now apply select_first |].
  pose proof (select_best i contents None Hc) as H.
  destruct (select_loop i contents None) as [encoding |]; [| apply H].
  destruct H as [(x & Hx & Hcx & He & Hbest & _) | (s & ? & _)]; [| easy].
  exists x. split; [| easy]. unfold answers. now rewrite Hc.
Qed.

(** *** Pending Interests *)

Lemma matchesName_name_matches i name : matchesName i name = Ok (name_matches i name).
Proof.
  unfold name_matches, matchesName. destruct (negb _); [easy |]. do 2 (destruct (_ && negb _); [easy |]).
  destruct ((_ >? 0) && (zlen name >? zlen (interest_name i))) eqn:E; [| easy].
  apply andb_true_iff in E as [_ E]. rewrite Z.gtb_ltb in E. apply Z.ltb_lt in E. unfold name_get.
  destruct (Z.geb_spec (zlen (interest_name i)) 0); [| lia].
  destruct (Z.geb_spec (zlen (interest_name i)) (zlen name)); [lia |]. rewrite Nat2Z.id.
  destruct (lookup_lt_is_Some_2 name (length (interest_name i))) as [c ->]; [lia |]. easy.
Qed.

Definition waiting (now : Z) (p : PendingInterest) : Prop := isTimedOut now p = false.

#[export] Instance waiting_dec now p : Decision (waiting now p) := bool_eq_dec (isTimedOut now p) false.

Lemma pending_loop_spec now select table :
  pending_loop now select table
  = (filter (waiting now) table, reverse (filter (fun p => waiting now p /\ select p = true) table)).
Proof.
  induction table as [| p table IH]; [easy |]. cbn [pending_loop]. rewrite IH, !filter_cons.
  repeat case_decide; unfold waiting in *; destruct (isTimedOut now p), (select p); intuition (try congruence);
    now rewrite reverse_cons.
Qed.

(** A Data packet that can be sent answers the Interests that wait for it, the last one first. *)
Lemma satisfy_loop_spec now name encoding table :
  zlen encoding <= getMaxNdnPacketSize ->
  satisfy_loop now name encoding table
  = (filter (fun p => waiting now p /\ name_matches (pending_interest p) name = false) table,
     map (fun p => FaceSend (pending_face p) encoding)
       (reverse (filter (fun p => waiting now p /\ name_matches (pending_interest p) name = true) table)),
     false).
Proof.
  intros Hl. induction table as [| p table IH]; [easy |]. cbn [satisfy_loop]. rewrite IH, !filter_cons.
  destruct (Z.gtb_spec (zlen encoding) getMaxNdnPacketSize); [lia |]. 
  repeat case_decide; unfold waiting in *; destruct (isTimedOut now p), (name_matches (pending_interest p) name);
    intuition (try congruence); now rewrite reverse_cons, map_app.
Qed.

(** ** Properties *)

(** C29: cleaning up the cache. For a cache that calls of the application have made, of an application whose callback for
    removed contents, if it has one, adds nothing to the cache while it is called: a clean up that is due
    removes exactly the contents whose removal time has come, in the order of those times, tells the
    callback of them, and leaves the others and all contents that do not go stale; a clean up that is
    not due does nothing. *)
Theorem cache_cleanup (wireEncode : DataValue -> result exn (list Z))
    (contentRemoved : Z -> list Content -> list DataValue) (now : Z) (c : MemoryContentCache) :
  cache_reach wireEncode contentRemoved c -> (forall id l, contentRemoved id l = []) ->
  let '(c', calls, r) := doCleanup wireEncode contentRemoved now c in
  let removed := filter (past now) (staleTimeCache_ c) in
  r = Ok tt /\ noStaleTimeCache_ c' = noStaleTimeCache_ c /\
  mc_pendingInterestTable_ c' = mc_pendingInterestTable_ c /\
  if now >=? nextCleanupTime_ c then
    staleTimeCache_ c' = filter (kept now) (staleTimeCache_ c) /\
    calls = (if bool_decide (removed = []) then [] else
             match onContentRemoved_ c with
             | Some id => [CallOnContentRemoved id (map stale_content removed)] | None => [] end) /\
    StronglySorted removed_before removed
  else c' = c /\ calls = [].
Proof.
  intros Hc Hq. apply cache_reach_ok in Hc. rewrite (doCleanup_quiet _ _ now c Hc Hq). unfold cleaned, cleanup_calls.
  destruct (now >=? nextCleanupTime_ c); [| easy]. cbn [noStaleTimeCache_ mc_pendingInterestTable_ set_cleanup set_contents staleTimeCache_].
  do 4 (split; [easy |]). split; [| apply StronglySorted_filter, Hc].
  unfold past. now destruct (filter _ (staleTimeCache_ c)) as [| x l], (onContentRemoved_ c).
Qed.

(** C28: answering an Interest from the cache, of an application whose callback for removed contents adds nothing to the cache.
    After the clean up, when no content matches the Interest and
    is as fresh as it asks for, nothing is sent and the callback of the prefix, if there is one, is called, which may be to keep the Interest.
    When some do, one is selected: the first content in the
    cache, or with a child selector the one whose component after the name of the Interest comes
    first, or last, in the canonical order. Exactly this packet is sent, to the face that asked, unless its encoding is larger
    than the limit for packets: then nothing is sent and an exception is thrown. *)
Theorem cache_onInterest (wireEncode : DataValue -> result exn (list Z))
    (contentRemoved : Z -> list Content -> list DataValue) (now later : Z) (prefix : Name)
    (interest : InterestValue) (face : Z) (c : MemoryContentCache) :
  cache_reach wireEncode contentRemoved c -> (forall id l, contentRemoved id l = []) ->
  let c1 := cleaned now c in
  let answer := onInterest wireEncode contentRemoved now later prefix interest face c in
  (exists x, answers interest (all_contents now c1) x /\
     answer = if zlen (dataEncoding_ x.1) >? getMaxNdnPacketSize
              then (c1, cleanup_calls now c,
                    Err (RuntimeError "The encoded packet size exceeds the maximum limit getMaxNdnPacketSize()"))
              else (c1, cleanup_calls now c ++ [FaceSend face (dataEncoding_ x.1)], Ok tt)) \/
  (Forall (fun x => is_candidate interest x = false) (all_contents now c1) /\
   answer =
     match onDataNotFoundForPrefix_ c !! toUri prefix false with
     | Some (Some StorePendingInterest) =>
         (set_pendingInterests (mc_pendingInterestTable_ c ++ [pendingInterest_new later interest face]) c1,
          cleanup_calls now c, Ok tt)
     | Some (Some (UserCallback id)) =>
         (c1, cleanup_calls now c ++ [CallOnDataNotFound id prefix interest face], Ok tt)
     | _ => (c1, cleanup_calls now c, Ok tt)
     end).
Proof.
  intros Hc Hq. apply cache_reach_ok in Hc. cbv zeta. unfold onInterest.
  rewrite (act_bind_ok _ _ _ _ _ _ (doCleanup_quiet _ _ now c Hc Hq)), act_get_bind.
  pose proof (select_answers interest (all_contents now (cleaned now c))) as Hs.
  destruct (select_loop interest (all_contents now (cleaned now c)) None) as [encoding |].
  - destruct Hs as (x & Hx & ->). left. exists x. split; [exact Hx |]. unfold face_send.
    destruct (_ >? _); cbn; [now rewrite app_nil_r | easy].
  - right. split; [exact Hs |].
    replace (onDataNotFoundForPrefix_ (cleaned now c)) with (onDataNotFoundForPrefix_ c)
      by (unfold cleaned; now destruct (now >=? _)).
    replace (mc_pendingInterestTable_ c) with (mc_pendingInterestTable_ (cleaned now c))
      by (unfold cleaned; now destruct (now >=? _)).
    destruct (onDataNotFoundForPrefix_ c !! toUri prefix false) as [[[| id] |] |]; cbn; now rewrite ?app_nil_r.
Qed.

(** Adding a Data packet. It goes into the cache, and every Interest that was kept, has not timed out
    and matches its name is answered with it, once, on the face it came from, and forgotten; the
    Interests that timed out are forgotten too, and the others are kept in their order. *)
Theorem cache_add_satisfies (wireEncode : DataValue -> result exn (list Z))
    (contentRemoved : Z -> list Content -> list DataValue) (now : Z) (data : DataValue) (encoding : list Z)
    (c : MemoryContentCache) :
  cache_reach wireEncode contentRemoved c -> (forall id l, contentRemoved id l = []) ->
  wireEncode data = Ok encoding -> zlen encoding <= getMaxNdnPacketSize ->
  let '(c', calls, r) := cache_add wireEncode contentRemoved now data c in
  let content := mkContent (data_name data) encoding in
  let matches := fun p => name_matches (pending_interest p) (data_name data) in
  r = Ok tt /\
  calls = cleanup_calls now c ++
    map (fun p => FaceSend (pending_face p) encoding)
      (reverse (filter (fun p => waiting now p /\ matches p = true) (mc_pendingInterestTable_ c))) /\
  mc_pendingInterestTable_ c'
  = filter (fun p => waiting now p /\ matches p = false) (mc_pendingInterestTable_ c) /\
  if freshnessPeriod_ (data_metaInfo data) >=? 0 then
    noStaleTimeCache_ c' = noStaleTimeCache_ c /\
    staleTimeCache_ c' ≡ₚ staleTimeContent_new content (freshnessPeriod_ (data_metaInfo data)) now
      (minimumCacheLifetime_ c) :: staleTimeCache_ (cleaned now c)
  else
    noStaleTimeCache_ c' = noStaleTimeCache_ c ++ [content] /\ staleTimeCache_ c' = staleTimeCache_ (cleaned now c).
Proof.
  intros Hc Hq He Hl. apply cache_reach_ok in Hc. unfold cache_add.
  rewrite (act_bind_ok _ _ _ _ _ _ (doCleanup_quiet _ _ now c Hc Hq)). cbv zeta.
  assert (Hsame : mc_pendingInterestTable_ (cleaned now c) = mc_pendingInterestTable_ c /\
    minimumCacheLifetime_ (cleaned now c) = minimumCacheLifetime_ c /\
    noStaleTimeCache_ (cleaned now c) = noStaleTimeCache_ c) by (unfold cleaned; now destruct (now >=? _)).
  destruct Hsame as (Hp & Hm & Hn). set (c1 := cleaned now c) in *.
  unfold add_content, mbind, Act_bind, returns, self_get, self_modify, performs. rewrite He. cbv zeta.
  destruct (freshnessPeriod_ (data_metaInfo data) >=? 0);
    cbn [mc_pendingInterestTable_ set_contents]; rewrite satisfy_loop_spec by easy; rewrite Hp.
  - split; [easy |]. split; [now rewrite ?app_nil_r |]. split; [easy |]. split; [exact Hn |].
    cbn [staleTimeCache_ set_pendingInterests set_contents]. rewrite Hm. apply stale_insert_perm.
  - split; [easy |]. split; [now rewrite ?app_nil_r |]. split; [easy |]. split; [| easy].
    cbn [noStaleTimeCache_ set_pendingInterests set_contents]. now rewrite Hn.
Qed.

(** ** Witnesses *)

(** A cache whose application keeps the Interests that it cannot answer, with a packet that goes stale. *)
Definition example_encode (d : DataValue) : result exn (list Z) := Ok (default [] (data_content d)).
Definition example_nothing (_ : Z) (_ : list Content) : list DataValue := [].
Definition example_packet (freshness : Z) : DataValue :=
  (Some [1; 2], ((DigestSha256Signature None, ((mkKeyLocatorFields KL_NONE None, []), (0, 0))),
    ([generic [97]; generic [98]], mkMetaInfoFields (-1) 0 (-1) freshness (generic [])))).
Definition example_request : InterestValue :=
  (mkInterestFields (-1) (-1) true 0 true 4000 None None (-1),
   ([generic [97]], ((mkKeyLocatorFields KL_NONE None, []), ([], [])))).
Definition example_cache : MemoryContentCache :=
  state_of (cache_add example_encode example_nothing 10 (example_packet 500)
    (state_of (registerPrefix [] (Some StorePendingInterest) 1
      (state_of ((_ ← setOnContentRemoved (Some 7); setMinimumCacheLifetime 0) (Cache_new 0 1000)))))).
Definition example_waiting : MemoryContentCache :=
  state_of (onInterest example_encode example_nothing 600 600 [] example_request 3 example_cache).

Lemma example_cache_reach : cache_reach example_encode example_nothing example_cache.
Proof. apply cache_added, cache_register, cache_option, cache_new. Defined.

Lemma example_waiting_reach : cache_reach example_encode example_nothing example_waiting.
Proof. apply cache_asked, example_cache_reach. Defined.

Lemma cache_cleanup_witness :
  staleTimeCache_ example_cache <> [] /\
  exists c', doCleanup example_encode example_nothing 1000 example_cache
    = (c', [CallOnContentRemoved 7 [mkContent [generic [97]; generic [98]] [1; 2]]], Ok tt) /\
    staleTimeCache_ c' = [].
Proof.
  split; [discriminate |].
  pose proof (cache_cleanup example_encode example_nothing 1000 example_cache example_cache_reach
    (fun _ _ => eq_refl)) as H.
  destruct (doCleanup example_encode example_nothing 1000 example_cache) as [[c' calls] r].
  destruct H as (-> & _ & _ & H). vm_compute in H. destruct H as (H1 & -> & _). now exists c'.
Defined.

Lemma cache_onInterest_witness :
  calls_of (onInterest example_encode example_nothing 300 300 [] example_request 3 example_cache)
  = [FaceSend 3 [1; 2]].
Proof.
  destruct (cache_onInterest example_encode example_nothing 300 300 [] example_request 3 example_cache
    example_cache_reach (fun _ _ => eq_refl)) as [(x & (Hin & _) & ->) | (Hf & _)].
  - vm_compute in Hin. apply list_elem_of_singleton in Hin as ->. vm_compute. reflexivity.
  - vm_compute in Hf. apply List.Forall_inv in Hf. discriminate.
Defined.

Lemma cache_add_satisfies_witness :
  calls_of (cache_add example_encode example_nothing 700 (example_packet (-1)) example_waiting)
  = [FaceSend 3 [1; 2]].
Proof.
  pose proof (cache_add_satisfies example_encode example_nothing 700 (example_packet (-1)) [1; 2] example_waiting
    example_waiting_reach (fun _ _ => eq_refl) eq_refl ltac:(vm_compute; discriminate)) as H.
  destruct (cache_add _ _ 700 _ example_waiting) as [[c' calls] r]. destruct H as (_ & -> & _).
  vm_compute. reflexivity.
Defined.
