(* ===== verification/SegmentFetcher.v ===== *)
(** * Fetching segments and expressing again

    The segment fetcher of src/util/segment-fetcher.cpp, which expresses one Interest after the other for
    the segments of an object and puts their contents together, and
    src/util/exponential-re-express.cpp, which expresses an Interest that timed out again with twice
    the lifetime. *)

From stdpp Require Import base list numbers option strings.
From Stdlib Require Import ZArith Lia.
From S2P Require Import Prelude Actions Encoder Name ChangeCounter Data TlvData Interest.
Open Scope Z_scope.

(** ** The segment fetcher *)

Inductive ErrorCode := INTEREST_TIMEOUT | DATA_HAS_NO_SEGMENT | SEGMENT_VERIFICATION_FAILED.

(** Calls of the face and of the application, which gets a message too; an exception in a callback of the
    application is logged. *)
Inductive FetchCall :=
| ExpressInterest (interest : Interest)
| CallOnComplete (content : list Z)
| CallOnError (errorCode : ErrorCode).

(** The state is [contentParts_]. *)
Abbreviation FetchOp := (Act (list Blob) FetchCall).

Definition endsWithSegmentNumber (name : Name) : bool :=
  (zlen name >=? 1) && match name_get name (-1) with Ok component => isSegment component | Err _ => false end.

Definition fetchFirstSegment (baseInterest : Interest) : FetchOp unit :=
  perform (ExpressInterest (setMustBeFresh true (setChildSelector 1 (interest_copy baseInterest)))).

Definition fetchNextSegment (originalInterest : Interest) (dataName : Name) (segment : Z) : FetchOp unit :=
  component ← returns (fromSegment segment);
  perform (ExpressInterest
    (setName (mkCounted (append (getPrefix dataName (-1)) component) 0)
       (setMustBeFresh false (setChildSelector 0 (interest_copy originalInterest))))).

(** The total size is an [int]. *)
Definition total_size (parts : list Blob) : Z :=
  fold_left (fun totalSize part => to_int32 (totalSize + zlen (blob_bytes part))) parts 0.

(** The loop that copies the parts, which does not look at the size of the buffer. *)
Fixpoint copy_parts (parts : list Blob) (content : list Z) (offset : Z) : result exn (list Z) :=
  match parts with
  | [] => Ok content
  | part :: parts =>
      let value := blob_bytes part in
      if offset + zlen value <=? zlen content
      then copy_parts parts (memcpy_at content offset value) (offset + zlen value)
      else Err (Failed UndefinedBehaviour)
  end.

Definition concatenate (parts : list Blob) : result exn (list Z) :=
  let totalSize := total_size parts in
  if totalSize <? 0 then Err (RuntimeError "cannot create std::vector larger than max_size()")
  else copy_parts parts (replicate (Z.to_nat totalSize) 0) 0.

Definition onValidationFailed : FetchOp unit := perform (CallOnError SEGMENT_VERIFICATION_FAILED).

Definition fetch_onTimeout : FetchOp unit := perform (CallOnError INTEREST_TIMEOUT).

(** The end of [onVerified], for the segment that is expected. *)
Definition save_content (data : DataValue) (originalInterest : Interest) (currentSegment : Z) : FetchOp unit :=
  _ ← self_modify (fun contentParts => contentParts ++ [data_content data]);
  let finalBlockId := finalBlockId_ (data_metaInfo data) in
  if zlen (value_ finalBlockId) >? 0 then
    match toSegment finalBlockId with
    | Err _ => perform (CallOnError DATA_HAS_NO_SEGMENT)
    | Ok finalSegmentNumber =>
        if currentSegment =? finalSegmentNumber then
          contentParts ← self_get;
          content ← returns (concatenate contentParts);
          perform (CallOnComplete content)
        else fetchNextSegment originalInterest (data_name data) (wrap64 (currentSegment + 1))
    end
  else fetchNextSegment originalInterest (data_name data) (wrap64 (currentSegment + 1)).

Definition onVerified (data : DataValue) (originalInterest : Interest) : FetchOp unit :=
  if negb (endsWithSegmentNumber (data_name data)) then perform (CallOnError DATA_HAS_NO_SEGMENT)
  else
    last ← returns (name_get (data_name data) (-1));
    match toSegment last with
    | Err _ => perform (CallOnError DATA_HAS_NO_SEGMENT)
    | Ok currentSegment =>
        contentParts ← self_get;
        let expectedSegmentNumber := zlen contentParts in
        if negb (currentSegment =? expectedSegmentNumber)
        then fetchNextSegment originalInterest (data_name data) expectedSegmentNumber
        else save_content data originalInterest currentSegment
    end.

Section Fetch.
(** [verifySegment_] of the application. *)
Context (verifySegment : DataValue -> bool).

Definition onSegmentReceived (originalInterest : Interest) (data : DataValue) : FetchOp unit :=
  if negb (verifySegment data) then onValidationFailed else onVerified data originalInterest.

(** ** A fetch

    The face concludes an Interest that was expressed with a Data packet or with a timeout, once (theorem
    [one_outcome] of the node). *)
Inductive Conclusion := Received (data : DataValue) | TimedOut.

Record Fetch := mkFetch {
  f_contentParts : list Blob;
  f_pending : option Interest;
  f_outcome : list FetchCall
}.

(** A handler makes at most one call: an Interest that is now pending, or the outcome. *)
Definition conclude (f : Fetch) (c : Conclusion) : Fetch :=
  match f_pending f with
  | None => f
  | Some interest =>
      let '(contentParts, calls, _) :=
        match c with
        | Received data => onSegmentReceived interest data (f_contentParts f)
        | TimedOut => fetch_onTimeout (f_contentParts f)
        end in
      match calls with
      | [ExpressInterest interest] => mkFetch contentParts (Some interest) (f_outcome f)
      | calls => mkFetch contentParts None (f_outcome f ++ calls)
      end
  end.

(** [fetch], and the conclusions of its Interests. *)
Definition fetch_start (baseInterest : Interest) : Fetch :=
  match fetchFirstSegment baseInterest [] with
  | (contentParts, [ExpressInterest interest], _) => mkFetch contentParts (Some interest) []
  | (contentParts, calls, _) => mkFetch contentParts None calls
  end.
Definition fetch (baseInterest : Interest) (conclusions : list Conclusion) : Fetch :=
  fold_left conclude conclusions (fetch_start baseInterest).

(** ** The content that is put together *)

Lemma drop_copied content offset v n :
  0 <= offset -> offset + zlen v <= zlen content ->
  drop (Z.to_nat offset + length v + n) (memcpy_at content offset v) = drop (Z.to_nat offset + length v + n) content.
Proof.
  intros. unfold memcpy_at. rewrite app_assoc, drop_app_ge by (rewrite length_app, length_take; lia).
  rewrite drop_drop. f_equal. rewrite length_app, length_take. lia.
Qed.

Lemma copy_parts_concat parts content offset r :
  0 <= offset <= zlen content -> copy_parts parts content offset = Ok r ->
  let bs := concat (map blob_bytes parts) in
  r = take (Z.to_nat offset) content ++ bs ++ drop (Z.to_nat offset + length bs) content /\
  offset + zlen bs <= zlen content.
Proof.
  cbv zeta. revert content offset. induction parts as [| part parts IH]; intros content offset Ho; cbn [copy_parts map concat].
  - intros [= <-]. cbn [app length]. rewrite Nat.add_0_r, take_drop. split; [easy | lia].
  - destruct (Z.leb_spec (offset + zlen (blob_bytes part)) (zlen content)) as [Hle |]; [| easy]. intros H.
    set (v := blob_bytes part) in *. set (bs := concat (map blob_bytes parts)) in *.
    assert (Hlen : length (memcpy_at content offset v) = length content) by (apply length_memcpy_at; lia).
    destruct (IH (memcpy_at content offset v) (offset + zlen v) ltac:(lia) H) as [-> Hl]. rewrite Hlen in Hl.
    split; [| rewrite length_app; lia].
    rewrite (take_memcpy_at content offset v) by lia.
    replace (Z.to_nat (offset + zlen v)) with (Z.to_nat offset + length v)%nat by lia.
    rewrite drop_copied by lia. now rewrite length_app, <- !app_assoc, Nat.add_assoc.
Qed.

Lemma to_int32_le z : - 2 ^ 31 <= z -> to_int32 z <= z /\ - 2 ^ 31 <= to_int32 z < 2 ^ 31.
Proof.
  intros Hz. unfold to_int32. pose proof (Z.mod_pos_bound z (2 ^ 32) ltac:(lia)).
  pose proof (Z.div_mod z (2 ^ 32) ltac:(lia)).
  destruct (Z.ltb_spec (z mod 2 ^ 32) (2 ^ 31)); nia.
Qed.

Definition contents_of (parts : list Blob) : list Z := concat (map blob_bytes parts).

Lemma total_size_from parts t :
  - 2 ^ 31 <= t ->
  let total := fold_left (fun totalSize part => to_int32 (totalSize + zlen (blob_bytes part))) parts t in
  total <= t + zlen (contents_of parts) /\ (0 <= t -> t + zlen (contents_of parts) < 2 ^ 31 ->
    total = t + zlen (contents_of parts)).
Proof.
  revert t. induction parts as [| part parts IH]; intros t Ht; cbn [fold_left contents_of map concat]; [cbn; lia |].
  set (n := zlen (blob_bytes part)). destruct (to_int32_le (t + n) ltac:(lia)) as [Hle Hr].
  destruct (IH (to_int32 (t + n)) ltac:(lia)) as [H1 H2]. unfold contents_of in *. cbn [map concat].
  rewrite length_app. split; [lia |]. intros Ht0 Hs.
  assert (Hsame : to_int32 (t + n) = t + n) by (apply to_int32_small; lia). rewrite H2; lia.
Qed.

Lemma concatenate_sound parts content : concatenate parts = Ok content -> content = contents_of parts.
Proof.
  unfold concatenate. destruct (total_size_from parts 0 ltac:(lia)) as [Hle _]. fold (total_size parts) in Hle.
  destruct (Z.ltb_spec (total_size parts) 0); [easy |]. intros Hc.
  apply copy_parts_concat in Hc as [-> Hl]; [| cbn; lia]. rewrite length_replicate in Hl.
  fold (contents_of parts) in *. cbn [take app Z.to_nat Nat.add].
  rewrite drop_ge; [now rewrite app_nil_r |]. rewrite length_replicate. lia.
Qed.

Lemma copy_parts_fits parts content offset :
  0 <= offset -> offset + zlen (contents_of parts) <= zlen content ->
  exists r, copy_parts parts content offset = Ok r.
Proof.
  revert content offset. induction parts as [| part parts IH]; intros content offset Ho Hl; cbn [copy_parts]; [now eexists |].
  unfold contents_of in *. cbn [map concat] in Hl. rewrite length_app in Hl.
  destruct (Z.leb_spec (offset + zlen (blob_bytes part)) (zlen content)); [| lia].
  apply IH; [lia |]. rewrite length_memcpy_at; lia.
Qed.

Lemma concatenate_complete parts :
  zlen (contents_of parts) < 2 ^ 31 -> concatenate parts = Ok (contents_of parts).
Proof.
  intros Hl. unfold concatenate. destruct (total_size_from parts 0 ltac:(lia)) as [_ Heq].
  fold (total_size parts) in Heq. specialize (Heq ltac:(lia) ltac:(lia)).
  destruct (Z.ltb_spec (total_size parts) 0); [lia |].
  destruct (copy_parts_fits parts (replicate (Z.to_nat (total_size parts)) 0) 0) as [r Hr]; [lia | |].
  { rewrite length_replicate. lia. }
  rewrite Hr. f_equal. apply concatenate_sound. unfold concatenate.
  now destruct (Z.ltb_spec (total_size parts) 0); [lia |].
Qed.

(** ** What a fetch delivers *)

(** The packet of a segment: verified, and named with its number. *)
Definition is_segment_of (k : Z) (data : DataValue) : Prop :=
  verifySegment data = true /\ isSegment (List.last (data_name data) (generic [])) = true /\
  toSegment (List.last (data_name data) (generic [])) = Ok k.

(** The parts are the contents of packets that arrived, in the order of their segments, from 0. *)
Definition parts_of (ds : list DataValue) (parts : list Blob) : Prop :=
  parts = map data_content ds /\ forall k d, ds !! k = Some d -> is_segment_of (Z.of_nat k) d.

Definition received (conclusions : list Conclusion) : list DataValue :=
  omap (fun c => match c with Received d => Some d | TimedOut => None end) conclusions.

(** The state of a fetch after conclusions: it is pending without an outcome, or it is over with at most
    one; complete content is that of all segments up to the final one. *)
Record fetch_ok (conclusions : list Conclusion) (f : Fetch) : Prop := {
  fo_parts : exists ds, ds `sublist_of` received conclusions /\ parts_of ds (f_contentParts f);
  fo_once : match f_pending f with Some _ => f_outcome f = [] | None => (length (f_outcome f) <= 1)%nat end;
  fo_complete : forall content, CallOnComplete content ∈ f_outcome f ->
    exists ds d, ds ++ [d] `sublist_of` received conclusions /\ parts_of (ds ++ [d]) (f_contentParts f) /\
      content = contents_of (map data_content (ds ++ [d])) /\
      toSegment (finalBlockId_ (data_metaInfo d)) = Ok (zlen ds)
}.

Lemma name_get_List_last name : 1 <= zlen name -> name_get name (-1) = Ok (List.last name (generic [])).
Proof.
  intros Hl. destruct (exists_last (l := name)) as (front & c & ->); [now intros -> |].
  rewrite last_last. unfold name_get. rewrite length_app. cbn [length Z.geb Z.compare].
  destruct (Z.ltb_spec (-1) (- Z.of_nat (length front + 1))); [lia |].
  rewrite list_lookup_middle; [easy | lia].
Qed.

Lemma fetchNextSegment_calls i name k parts :
  let '(parts', calls, r) := fetchNextSegment i name k parts in
  parts' = parts /\ (calls = [] \/ exists i', calls = [ExpressInterest i']).
Proof.
  unfold fetchNextSegment, returns, mbind, Act_bind, perform. destruct (fromSegment k); cbn; eauto.
Qed.

(** What the handler of a packet does. *)
Definition handled (d : DataValue) (parts parts' : list Blob) (calls : list FetchCall) : Prop :=
  (calls = [] \/ exists call, calls = [call]) /\
  ((parts' = parts /\ forall content, CallOnComplete content ∉ calls) \/
   (parts' = parts ++ [data_content d] /\ is_segment_of (zlen parts) d /\
    forall content, CallOnComplete content ∈ calls ->
      content = contents_of parts' /\ toSegment (finalBlockId_ (data_metaInfo d)) = Ok (zlen parts))).

Lemma not_complete_one call content :
  (forall c, call <> CallOnComplete c) -> CallOnComplete content ∉ [call].
Proof. intros H Hin. apply list_elem_of_singleton in Hin. now apply (H content). Qed.

Lemma next_not_complete calls content :
  (calls = [] \/ exists i', calls = [ExpressInterest i']) -> CallOnComplete content ∉ calls.
Proof. intros [-> | [i ->]]; [apply not_elem_of_nil | now apply not_complete_one]. Qed.

Lemma save_content_handled d i parts :
  is_segment_of (zlen parts) d ->
  let '(parts', calls, r) := save_content d i (zlen parts) parts in handled d parts parts' calls.
Proof.
  intros Hd. unfold save_content. set (parts1 := parts ++ [data_content d]).
  assert (Hnext : let '(parts', calls, r) := fetchNextSegment i (data_name d) (wrap64 (zlen parts + 1)) parts1 in
    handled d parts parts' calls).
  { pose proof (fetchNextSegment_calls i (data_name d) (wrap64 (zlen parts + 1)) parts1) as H.
    destruct (fetchNextSegment _ _ _ _) as [[parts' calls] r]. destruct H as [-> Hc].
    split; [destruct Hc as [-> | [i' ->]]; eauto |]. right. split; [easy |]. split; [easy |].
    intros content Hin. now apply (next_not_complete calls content) in Hin. }
  unfold mbind, Act_bind, self_modify, self_get, returns, perform. fold parts1.
  destruct (zlen (value_ _) >? 0); [| destruct (fetchNextSegment _ _ _ _) as [[]]; now cbn].
  destruct (toSegment _) as [final |] eqn:Hf; [destruct (Z.eqb_spec (zlen parts) final) as [<- | _] |].
  - destruct (concatenate parts1) as [content |] eqn:Hc; cbn.
    + split; [eauto |]. right. split; [easy |]. split; [easy |]. intros content' Hin.
      apply list_elem_of_singleton in Hin as [= ->]. split; [now apply concatenate_sound | exact Hf].
    + split; [now left |]. right. split; [easy |]. split; [easy |]. intros content' Hin. now apply elem_of_nil in Hin.
  - destruct (fetchNextSegment _ _ _ _) as [[]]; now cbn.
  - cbn. split; [eauto |]. right. split; [easy |]. split; [easy |]. intros content' Hin.
    now apply not_complete_one in Hin.
Qed.

Lemma onSegmentReceived_handled i d parts :
  let '(parts', calls, r) := onSegmentReceived i d parts in handled d parts parts' calls.
Proof.
  unfold onSegmentReceived, onValidationFailed, onVerified.
  assert (Herr : forall code, handled d parts parts [CallOnError code])
    by (intros code; split; [eauto |]; left; split; [easy | intros; now apply not_complete_one]).
  destruct (verifySegment d) eqn:Hv; cbn [negb]; [| apply Herr].
  destruct (endsWithSegmentNumber (data_name d)) eqn:Hs; cbn [negb]; [| apply Herr].
  unfold endsWithSegmentNumber in Hs. apply andb_true_iff in Hs as [Hlen Hseg].
  rewrite Z.geb_leb in Hlen. apply Z.leb_le in Hlen. rewrite name_get_List_last in * by easy.
  unfold mbind, Act_bind, returns, self_get.
  destruct (toSegment _) as [k |] eqn:Hk; [| apply Herr].
  destruct (Z.eqb_spec k (zlen parts)) as [-> | Hne]; cbn [negb].
  - pose proof (save_content_handled d i parts ltac:(now split)) as H.
    destruct (save_content d i (zlen parts) parts) as [[parts' calls] r]. now cbn.
  - pose proof (fetchNextSegment_calls i (data_name d) (zlen parts) parts) as H.
    destruct (fetchNextSegment _ _ _ _) as [[parts' calls] r]. cbn. destruct H as [-> Hc].
    split; [destruct Hc as [-> | [i' ->]]; eauto |]. left. split; [easy |].
    intros content. now apply next_not_complete.
Qed.

Lemma received_snoc cs c : received (cs ++ [c]) = received cs ++ received [c].
Proof. unfold received. apply omap_app. Qed.

Lemma parts_of_snoc ds parts d :
  parts_of ds parts -> is_segment_of (zlen parts) d -> parts_of (ds ++ [d]) (parts ++ [data_content d]).
Proof.
  intros [-> Hk] Hd. split; [now rewrite map_app |]. rewrite length_map in Hd. intros k d' H.
  apply lookup_app_Some in H as [H | [Hle H]]; [now apply Hk |].
  apply list_lookup_singleton_Some in H as [H <-]. now replace (Z.of_nat k) with (zlen ds) by lia.
Qed.

Lemma handled_ok cs f d calls parts' :
  fetch_ok cs f -> f_pending f <> None -> handled d (f_contentParts f) parts' calls ->
  fetch_ok (cs ++ [Received d])
    match calls with
    | [ExpressInterest interest] => mkFetch parts' (Some interest) (f_outcome f)
    | calls => mkFetch parts' None (f_outcome f ++ calls)
    end.
Proof.
  intros [(ds & Hsub & Hparts) Honce _] Hp [Hone Hcases].
  destruct (f_pending f); [| easy]. rewrite Honce. clear Hp Honce.
  assert (Hnow : exists ds', ds' `sublist_of` received (cs ++ [Received d]) /\ parts_of ds' parts').
  { rewrite received_snoc. destruct Hcases as [[-> _] | (-> & Hd & _)].
    - exists ds. split; [now apply sublist_inserts_r | easy].
    - exists (ds ++ [d]). split; [now apply sublist_app | now apply parts_of_snoc]. }
  assert (Hcomplete : forall content, CallOnComplete content ∈ calls ->
    exists ds d', ds ++ [d'] `sublist_of` received (cs ++ [Received d]) /\ parts_of (ds ++ [d']) parts' /\
      content = contents_of (map data_content (ds ++ [d'])) /\
      toSegment (finalBlockId_ (data_metaInfo d')) = Ok (zlen ds)).
  { intros content Hin. destruct Hcases as [[_ Hno] | (-> & Hd & Hyes)]; [now apply Hno in Hin |].
    destruct (Hyes content Hin) as [-> Hf]. exists ds, d. rewrite received_snoc.
    split; [now apply sublist_app |]. split; [now apply parts_of_snoc |].
    destruct Hparts as [Hp _]. rewrite Hp in *. rewrite length_map in Hf. rewrite map_app. now split. }
  destruct Hone as [-> | [[i1 | content | code] ->]]; split; cbn [f_contentParts f_pending f_outcome app length]; auto;
    intros content' Hin; try now apply elem_of_nil in Hin.
Qed.

Lemma conclude_ok cs f c : fetch_ok cs f -> fetch_ok (cs ++ [c]) (conclude f c).
Proof.
  intros Hf. unfold conclude. destruct (f_pending f) as [i |] eqn:Hp.
  - destruct c as [d |].
    + pose proof (onSegmentReceived_handled i d (f_contentParts f)) as H.
      destruct (onSegmentReceived i d (f_contentParts f)) as [[parts' calls] r].
      apply handled_ok; [exact Hf | congruence | exact H].
    + destruct Hf as [(ds & Hsub & Hparts) Honce _]. rewrite Hp in Honce. cbn. rewrite Honce.
      split; cbn; auto; [| intros content Hin; now apply not_complete_one in Hin].
      exists ds. split; [rewrite received_snoc; now apply sublist_inserts_r | easy].
  - destruct Hf as [(ds & Hsub & Hparts) Honce Hc]. split.
    + exists ds. split; [rewrite received_snoc; now apply sublist_inserts_r | easy].
    + exact Honce.
    + intros content Hin. destruct (Hc content Hin) as (ds' & d' & Hs & Hrest). exists ds', d'.
      split; [rewrite received_snoc; now apply sublist_inserts_r | easy].
Qed.

Lemma fetch_all_ok base cs : fetch_ok cs (fetch base cs).
Proof.
  induction cs as [| c cs IH] using rev_ind.
  - split; [exists [] | easy | intros content Hin; now apply elem_of_nil in Hin]. split; [constructor |].
    split; [easy |]. intros k d H. discriminate.
  - unfold fetch in *. rewrite fold_left_app. now apply conclude_ok.
Qed.
End Fetch.

(** C25: what a fetch delivers. Whatever packets and timeouts conclude the Interests of a fetch, and in
    whatever order, the application is called back at most once, and no Interest is pending then;
    complete content is the contents of packets that arrived and were verified, one for each segment
    from 0, in their order, up to the one that names itself as the final segment. *)
Theorem fetch_sound (verifySegment : DataValue -> bool) (baseInterest : Interest)
    (conclusions : list Conclusion) :
  let f := fetch verifySegment baseInterest conclusions in
  match f_pending f with Some _ => f_outcome f = [] | None => (length (f_outcome f) <= 1)%nat end /\
  forall content, f_outcome f = [CallOnComplete content] ->
    exists ds d, ds ++ [d] `sublist_of` received conclusions /\
      (forall k d', (ds ++ [d]) !! k = Some d' -> is_segment_of verifySegment (Z.of_nat k) d') /\
      toSegment (finalBlockId_ (data_metaInfo d)) = Ok (zlen ds) /\
      content = contents_of (map data_content (ds ++ [d])).
Proof.
  cbv zeta. pose proof (fetch_all_ok verifySegment baseInterest conclusions) as [_ Honce Hc]. split; [exact Honce |].
  intros content Hout. destruct (Hc content) as (ds & d & Hs & [_ Hk] & Hcontent & Hf).
  - rewrite Hout. now constructor.
  - now exists ds, d.
Qed.

(** ** Fetching a published object *)

Definition segment_component (k : Z) : Component := generic (0 :: nonNegativeInteger_bytes k).

Lemma fromSegment_component k : fromSegment k = Ok (segment_component k).
Proof. apply fromNumberWithMarker_bytes. unfold is_byte. lia. Qed.

Lemma toSegment_component k : 0 <= k < 2 ^ 64 -> toSegment (segment_component k) = Ok k.
Proof.
  intros Hk. unfold toSegment, toNumberWithMarker, segment_component. cbn [generic value_].
  rewrite Z.eqb_refl. now rewrite bytes_to_number_mod, be_decode_nonNegativeInteger, Z.mod_small.
Qed.

Section Published.
(** An object with the segments [ds] under a name: each packet is verified, named with its number, and the
    last one says that it is the final one; the others may say so too. *)
Context (verifySegment : DataValue -> bool) (object : Name) (ds : list DataValue).

Record published : Prop := {
  pub_some : ds <> [];
  pub_fits : name_fits (object ++ [generic []]);
  pub_verified : Forall (fun d => verifySegment d = true) ds;
  pub_name : forall k d, ds !! k = Some d -> data_name d = object ++ [segment_component (Z.of_nat k)];
  pub_final : forall k d, ds !! k = Some d ->
    value_ (finalBlockId_ (data_metaInfo d)) = [] /\ S k <> length ds \/
    finalBlockId_ (data_metaInfo d) = segment_component (zlen ds - 1);
  pub_size : zlen (contents_of (map data_content ds)) < 2 ^ 31;
  pub_count : zlen ds < 2 ^ 31
}.

Context (Hpub : published).

Lemma getPrefix_segment k : getPrefix (object ++ [segment_component k]) (-1) = object.
Proof.
  pose proof (pub_fits Hpub) as Hf. unfold name_fits in Hf. rewrite length_app in Hf. cbn [length] in Hf.
  rewrite getPrefix_spec.
  - rewrite length_app. cbn [length]. destruct (Z.ltb_spec (-1) 0); [| lia].
    replace (Z.to_nat _) with (length object) by lia. apply take_app_length.
  - unfold name_fits. rewrite length_app. cbn [length]. lia.
  - rewrite length_app. cbn. lia.
Qed.

(** The Interest for the segment [n]: its exact name, and it need not be fresh. *)
Definition asks (n : Z) (i : Interest) : Prop :=
  interest_name (interest_value i) = object ++ [segment_component n] /\
  childSelector_ (interest_value i).1 = 0 /\ mustBeFresh_ (interest_value i).1 = false.

Lemma next_interest i k n parts :
  exists i', fetchNextSegment i (object ++ [segment_component k]) n parts = (parts, [ExpressInterest i'], Ok tt) /\
    asks n i'.
Proof.
  unfold fetchNextSegment. rewrite fromSegment_component, getPrefix_segment. eexists. split; [reflexivity |].
  split; [reflexivity | now split].
Qed.

(** One turn: the packet that was asked for arrives. *)
Lemma segment_turn k d i :
  ds !! k = Some d ->
  let parts := map data_content (take k ds) in
  if decide (S k = length ds) then
    onSegmentReceived verifySegment i d parts
    = (map data_content ds, [CallOnComplete (contents_of (map data_content ds))], Ok tt)
  else
    exists i', onSegmentReceived verifySegment i d parts
      = (map data_content (take (S k) ds), [ExpressInterest i'], Ok tt) /\ asks (Z.of_nat (S k)) i'.
Proof.
  intros Hd. cbv zeta. pose proof (lookup_lt_Some _ _ _ Hd) as Hk. pose proof (pub_count Hpub) as Hcount.
  assert (Hparts : zlen (map data_content (take k ds)) = Z.of_nat k) by (rewrite length_map, length_take; lia).
  assert (Hnext : map data_content (take k ds) ++ [data_content d] = map data_content (take (S k) ds))
    by (now rewrite (take_S_r _ _ _ Hd), map_app).
  unfold onSegmentReceived. rewrite (Forall_lookup_1 _ _ _ _ (pub_verified Hpub) Hd). cbn [negb].
  unfold onVerified, endsWithSegmentNumber. rewrite (pub_name Hpub _ _ Hd), !name_get_List_last
    by (rewrite length_app; cbn; lia). rewrite last_last.
  replace (zlen (object ++ [segment_component (Z.of_nat k)]) >=? 1) with true
    by (symmetry; rewrite Z.geb_leb; apply Z.leb_le; rewrite length_app; cbn; lia). cbn [andb].
  replace (isSegment (segment_component (Z.of_nat k))) with true by easy. cbn [negb].
  rewrite act_returns_bind.
  rewrite toSegment_component by lia. rewrite act_get_bind, Hparts, Z.eqb_refl. cbn [negb].
  unfold save_content. rewrite act_modify_bind, Hnext, (pub_name Hpub _ _ Hd).
  rewrite wrap64_small by lia.
  assert (Hgo : exists i', fetchNextSegment i (object ++ [segment_component (Z.of_nat k)]) (Z.of_nat k + 1)
      (map data_content (take (S k) ds)) = (map data_content (take (S k) ds), [ExpressInterest i'], Ok tt) /\
      asks (Z.of_nat (S k)) i').
  { replace (Z.of_nat (S k)) with (Z.of_nat k + 1) by lia. apply next_interest. }
  destruct (pub_final Hpub _ _ Hd) as [[Hf Hne] | Hf]; rewrite Hf.
  - destruct (decide (S k = length ds)); [easy |]. destruct Hgo as (i' & Hi & Ha). exists i'. split; [exact Hi | exact Ha].
  - rewrite toSegment_component by lia. replace (zlen (value_ _) >? 0) with true by easy.
    destruct (decide (S k = length ds)) as [He | Hne].
    + rewrite (proj2 (Z.eqb_eq (Z.of_nat k) (zlen ds - 1))) by lia.
      rewrite act_get_bind. rewrite (firstn_all2 ds) by lia.
      rewrite concatenate_complete by apply Hpub. reflexivity.
    + rewrite (proj2 (Z.eqb_neq (Z.of_nat k) (zlen ds - 1))) by lia.
      destruct Hgo as (i' & Hi & Ha). exists i'. split; [now rewrite Hi | exact Ha].
Qed.

(** The fetch that waits for the segment [k]. *)
Definition waits (k : nat) (f : Fetch) : Prop :=
  f_contentParts f = map data_content (take k ds) /\ f_outcome f = [] /\ f_pending f <> None.

Lemma conclude_turn k d f :
  ds !! k = Some d -> waits k f ->
  let f' := conclude verifySegment f (Received d) in
  if decide (S k = length ds) then
    f' = mkFetch (map data_content ds) None [CallOnComplete (contents_of (map data_content ds))]
  else waits (S k) f' /\ exists i, f_pending f' = Some i /\ asks (Z.of_nat (S k)) i.
Proof.
  intros Hd (Hparts & Hout & Hp). cbv zeta. unfold conclude. destruct (f_pending f) as [i |]; [| easy].
  rewrite Hparts, Hout. pose proof (segment_turn k d i Hd) as H. cbv zeta in H.
  destruct (decide (S k = length ds)); [now rewrite H |].
  destruct H as (i' & -> & Ha). split; [now split |]. now exists i'.
Qed.

Lemma conclude_rest f k :
  (k < length ds)%nat -> waits k f ->
  fold_left (conclude verifySegment) (map Received (drop k ds)) f
  = mkFetch (map data_content ds) None [CallOnComplete (contents_of (map data_content ds))].
Proof.
  intros Hk. remember (length ds - k)%nat as m eqn:Hm. revert k f Hk Hm.
  induction m as [| m IH]; intros k f Hk Hm Hw; [lia |].
  destruct (lookup_lt_is_Some_2 ds k Hk) as [d Hd]. rewrite (drop_S _ _ _ Hd). cbn [map fold_left].
  pose proof (conclude_turn k d f Hd Hw) as H. cbv zeta in H. destruct (decide (S k = length ds)) as [He | Hne].
  - rewrite H, He, drop_all. reflexivity.
  - apply IH; [lia | lia | apply H].
Qed.

Lemma conclude_asks f n k :
  (n + k < length ds)%nat -> waits n f -> (0 < k)%nat ->
  exists i, f_pending (fold_left (conclude verifySegment) (map Received (take k (drop n ds))) f) = Some i /\
    asks (Z.of_nat (n + k)) i.
Proof.
  revert n f. induction k as [| k IH]; intros n f Hn Hw Hk; [lia |].
  destruct (lookup_lt_is_Some_2 ds n ltac:(lia)) as [d Hd]. rewrite (drop_S _ _ _ Hd). cbn [take map fold_left].
  pose proof (conclude_turn n d f Hd Hw) as H. cbv zeta in H. destruct (decide (S n = length ds)); [lia |].
  destruct H as [Hw' (i & Hi & Ha)]. destruct k as [| k].
  - cbn [take map fold_left]. exists i. split; [exact Hi |]. now replace (n + 1)%nat with (S n) by lia.
  - replace (n + S (S k))%nat with (S n + S k)%nat by lia. apply IH; [lia | exact Hw' | lia].
Qed.

(** Another segment than the first arrives at the start: the first one is asked for. *)
Lemma conclude_other j d f :
  ds !! j = Some d -> (0 < j)%nat -> waits 0 f ->
  let f' := conclude verifySegment f (Received d) in
  waits 0 f' /\ exists i, f_pending f' = Some i /\ asks 0 i.
Proof.
  intros Hd Hj (Hparts & Hout & Hp). cbv zeta. unfold conclude. destruct (f_pending f) as [i |]; [| easy].
  pose proof (lookup_lt_Some _ _ _ Hd) as Hlt. pose proof (pub_count Hpub) as Hcount. rewrite Hparts, Hout.
  destruct (next_interest i (Z.of_nat j) 0 (map data_content (take 0 ds))) as (i' & Hi & Ha).
  replace (onSegmentReceived verifySegment i d (map data_content (take 0 ds)))
    with (map data_content (take 0 ds), [ExpressInterest i'], Ok tt : result exn unit).
  - split; [now split |]. now exists i'.
  - symmetry. unfold onSegmentReceived. rewrite (Forall_lookup_1 _ _ _ _ (pub_verified Hpub) Hd). cbn [negb].
    unfold onVerified, endsWithSegmentNumber. rewrite (pub_name Hpub _ _ Hd), !name_get_List_last
      by (rewrite length_app; cbn; lia). rewrite last_last.
    replace (zlen (object ++ [segment_component (Z.of_nat j)]) >=? 1) with true
      by (symmetry; rewrite Z.geb_leb; apply Z.leb_le; rewrite length_app; cbn; lia). cbn [andb].
    replace (isSegment (segment_component (Z.of_nat j))) with true by easy. cbn [negb].
    rewrite act_returns_bind, toSegment_component by lia. rewrite act_get_bind.
    rewrite (proj2 (Z.eqb_neq (Z.of_nat j) (zlen (map data_content (take 0 ds))))) by (rewrite take_0; cbn; lia).
    exact Hi.
Qed.

(** The first answer may be any segment. *)
Definition first_answer (j : nat) (d : DataValue) : list DataValue := if decide (j = 0%nat) then [] else [d].

Lemma fetch_started baseInterest j d :
  ds !! j = Some d ->
  let f := fold_left (conclude verifySegment) (map Received (first_answer j d)) (fetch_start baseInterest) in
  waits 0 f /\ (first_answer j d <> [] -> exists i, f_pending f = Some i /\ asks 0 i).
Proof.
  intros Hd. cbv zeta. assert (Hw0 : waits 0 (fetch_start baseInterest)) by (now split).
  unfold first_answer. destruct (decide (j = 0%nat)) as [-> | Hj]; [now split |].
  destruct (conclude_other j d _ Hd ltac:(lia) Hw0) as [H1 H2]. now split.
Qed.

Lemma fetch_complete baseInterest j d :
  ds !! j = Some d ->
  fetch verifySegment baseInterest (map Received (first_answer j d ++ ds)) =
  mkFetch (map data_content ds) None [CallOnComplete (contents_of (map data_content ds))].
Proof.
  intros Hd. destruct (fetch_started baseInterest j d Hd) as [Hw _]. unfold fetch. rewrite map_app, fold_left_app.
  pose proof (conclude_rest _ 0 ltac:(apply lookup_lt_Some in Hd; lia) Hw) as Hrest. now rewrite drop_0 in Hrest.
Qed.
End Published.

(** C26: fetching a published object. When the first Interest is answered with any segment of the object, and
    each later one with the segment it asks for by its exact name, the fetch asks for the segments in
    their order, once each, and for the first one again when another came, and the application gets
    the contents of all segments, put together. *)
Theorem fetch_object (verifySegment : DataValue -> bool) (object : Name) (ds : list DataValue)
    (baseInterest : Interest) (j : nat) (d : DataValue) :
  published verifySegment object ds -> ds !! j = Some d ->
  let start := first_answer j d in
  let f := fetch verifySegment baseInterest (map Received (start ++ ds)) in
  f_pending f = None /\ f_outcome f = [CallOnComplete (contents_of (map data_content ds))] /\
  forall k, (k < length ds)%nat -> start <> [] \/ (0 < k)%nat ->
    exists i, f_pending (fetch verifySegment baseInterest (map Received (start ++ take k ds))) = Some i /\
      asks object (Z.of_nat k) i.
Proof.
  intros Hpub Hd. cbv zeta. rewrite (fetch_complete verifySegment object ds Hpub baseInterest j d Hd).
  split; [easy |]. split; [easy |]. intros k Hk Hcase.
  destruct (fetch_started verifySegment object ds Hpub baseInterest j d Hd) as [Hw Ha].
  unfold fetch. rewrite map_app, fold_left_app. destruct k as [| k].
  - destruct Hcase as [Hs | ?]; [| lia]. now apply Ha.
  - destruct (conclude_asks verifySegment object ds Hpub _ 0 (S k) ltac:(lia) Hw ltac:(lia)) as (i & Hi & Hask).
    rewrite drop_0 in Hi. now exists i.
Qed.

(** ** Expressing again *)

Inductive ReExpressCall :=
| CallCallerOnTimeout (interest : Interest)
| ExpressAgain (interest : Interest).

(** [ExponentialReExpress::onTimeout]; the callback of the caller may be null. The doubled lifetime is an
    [int64_t]. *)
Definition reExpress_onTimeout (maxInterestLifetime : Z) (callerOnTimeout : bool) (interest : Interest) :
    result exn (list ReExpressCall) :=
  let caller := if callerOnTimeout then [CallCallerOnTimeout interest] else [] in
  let interestLifetime := interestLifetime_ (interest_value interest).1 in
  if interestLifetime <? 0 then Ok caller
  else
    let nextInterestLifetime := interestLifetime * 2 in
    if nextInterestLifetime >=? 2 ^ 63 then Err (Failed UndefinedBehaviour)
    else if nextInterestLifetime >? maxInterestLifetime then Ok caller
    else Ok [ExpressAgain (setInterestLifetime nextInterestLifetime (interest_copy interest))].

(** The Interest that is pending after [n] timeouts in a row, or the one that the caller is told of. *)
Fixpoint after_timeouts (maxInterestLifetime : Z) (n : nat) (interest : Interest) : result exn ReExpressCall :=
  match n with
  | O => Ok (ExpressAgain interest)
  | S n =>
      calls ← reExpress_onTimeout maxInterestLifetime true interest;
      match calls with
      | [ExpressAgain interest] => after_timeouts maxInterestLifetime n interest
      | call :: _ => Ok call
      | [] => Err (Failed UndefinedBehaviour)
      end
  end.

Lemma reExpress_value v i :
  interest_value (setInterestLifetime v (interest_copy i))
  = (mkInterestFields (minSuffixComponents_ (interest_value i).1) (maxSuffixComponents_ (interest_value i).1)
       (didSetCanBePrefix_ (interest_value i).1) (childSelector_ (interest_value i).1)
       (mustBeFresh_ (interest_value i).1) v (applicationParameters_ (interest_value i).1)
       (linkWireEncoding_ (interest_value i).1) (selectedDelegationIndex_ (interest_value i).1),
     (interest_value i).2).
Proof.
  pose proof (interest_copy_value i) as H. rewrite <- H.
  unfold setInterestLifetime, set_fields, interest_method, interest_value, interest_object. reflexivity.
Qed.

(** The Interest with another lifetime. *)
Definition with_lifetime (v : Z) (i : InterestValue) : InterestValue :=
  (mkInterestFields (minSuffixComponents_ i.1) (maxSuffixComponents_ i.1) (didSetCanBePrefix_ i.1)
     (childSelector_ i.1) (mustBeFresh_ i.1) v (applicationParameters_ i.1) (linkWireEncoding_ i.1)
     (selectedDelegationIndex_ i.1), i.2).

(** Expressing again. The Interest after [n] timeouts is the first one with [2^n] times its lifetime,
    as long as that is within the maximum; after the timeout that would go over it, the caller is told
    of the last Interest, and nothing is pending. So an Interest with a lifetime is expressed again at
    most as often as its lifetime can be doubled. *)
Theorem reExpress_doubles (maxInterestLifetime : Z) (interest : Interest) (n : nat) :
  let lifetime := interestLifetime_ (interest_value interest).1 in
  0 < lifetime <= maxInterestLifetime -> maxInterestLifetime < 2 ^ 62 -> lifetime * 2 ^ Z.of_nat n <= maxInterestLifetime ->
  exists last, after_timeouts maxInterestLifetime n interest = Ok (ExpressAgain last) /\
    interest_value last = with_lifetime (lifetime * 2 ^ Z.of_nat n) (interest_value interest) /\
    (maxInterestLifetime < lifetime * 2 ^ Z.of_nat (n + 1) ->
     forall m, (n < m)%nat -> after_timeouts maxInterestLifetime m interest = Ok (CallCallerOnTimeout last)).
Proof.
  cbv zeta. intros Hl Hmax. revert interest Hl. induction n as [| n IH]; intros interest Hl Hn.
  - exists interest. split; [easy |]. split.
    + unfold with_lifetime. rewrite Z.mul_1_r. destruct (interest_value interest) as [[] ?]. reflexivity.
    + intros Hover m Hm. destruct m as [| m]; [lia |]. cbn [after_timeouts]. unfold reExpress_onTimeout.
      destruct (Z.ltb_spec (interestLifetime_ (interest_value interest).1) 0); [lia |].
      destruct (Z.geb_spec (interestLifetime_ (interest_value interest).1 * 2) (2 ^ 63)); [lia |].
      destruct (Z.gtb_spec (interestLifetime_ (interest_value interest).1 * 2) maxInterestLifetime); [easy |].
      change (2 ^ Z.of_nat (0 + 1)) with 2 in Hover. lia.
  - set (next := setInterestLifetime (interestLifetime_ (interest_value interest).1 * 2) (interest_copy interest)).
    replace (2 ^ Z.of_nat (S n)) with (2 * 2 ^ Z.of_nat n) in * by (rewrite Nat2Z.inj_succ, Z.pow_succ_r; lia).
    assert (Hpos : 0 < 2 ^ Z.of_nat n) by (apply Z.pow_pos_nonneg; lia).
    assert (Hstep : reExpress_onTimeout maxInterestLifetime true interest = Ok [ExpressAgain next]).
    { unfold reExpress_onTimeout.
      destruct (Z.ltb_spec (interestLifetime_ (interest_value interest).1) 0); [lia |].
      destruct (Z.geb_spec (interestLifetime_ (interest_value interest).1 * 2) (2 ^ 63)); [lia |].
      destruct (Z.gtb_spec (interestLifetime_ (interest_value interest).1 * 2) maxInterestLifetime); [nia | easy]. }
    assert (Hnext : interestLifetime_ (interest_value next).1 = interestLifetime_ (interest_value interest).1 * 2)
      by reflexivity.
    destruct (IH next) as (last & Hlast & Hv & Hend); rewrite ?Hnext; [nia | nia |].
    exists last. split; [cbn [after_timeouts]; rewrite Hstep; exact Hlast |]. split.
    + rewrite Hv, Hnext. unfold next. rewrite reExpress_value. unfold with_lifetime. cbn. now rewrite Z.mul_assoc.
    + intros Hover m Hm. destruct m as [| m]; [lia |]. cbn [after_timeouts]. rewrite Hstep. apply Hend; [| lia].
      rewrite Hnext. replace (S n + 1)%nat with (S (n + 1)) in Hover by lia.
      rewrite (Nat2Z.inj_succ (n + 1)), Z.pow_succ_r in Hover by lia. lia.
Qed.

(** An Interest with the lifetime 0 is expressed again for ever. *)
Lemma reExpress_zero maxInterestLifetime n interest :
  interestLifetime_ (interest_value interest).1 = 0 -> 0 <= maxInterestLifetime ->
  exists last, after_timeouts maxInterestLifetime n interest = Ok (ExpressAgain last).
Proof.
  revert interest. induction n as [| n IH]; intros interest Hl Hm; [now eexists |].
  cbn [after_timeouts]. unfold reExpress_onTimeout. rewrite Hl.
  change (0 <? 0) with false. change (0 * 2 >=? 2 ^ 63) with false. cbv iota zeta.
  destruct (Z.gtb_spec (0 * 2) maxInterestLifetime); [lia |]. now apply IH.
Qed.

(** ** Witnesses *)

Definition example_segment (k : Z) (content : list Z) (final : Component) : DataValue :=
  (Some content, ((DigestSha256Signature None, ((mkKeyLocatorFields KL_NONE None, []), (0, 0))),
    ([generic [97]; segment_component k], mkMetaInfoFields (-1) 0 (-1) 1000 final))).
Definition example_object : list DataValue :=
  [example_segment 0 [1; 2] (generic []); example_segment 1 [3] (segment_component 1)].

Lemma example_published : published (fun _ => true) [generic [97]] example_object.
Proof.
  split.
  - discriminate.
  - unfold name_fits. cbn. lia.
  - repeat constructor.
  - intros [| [| k]] d H; cbn in H; try (injection H as <-); [reflexivity | reflexivity | discriminate].
  - intros [| [| k]] d H; cbn in H; try (injection H as <-); [left; now split | now right | discriminate].
  - vm_compute. reflexivity.
  - vm_compute. reflexivity.
Defined.

Lemma fetch_object_witness :
  f_outcome (fetch (fun _ => true) (Interest_new [generic [97]] true true)
    (map Received (example_segment 1 [3] (segment_component 1) :: example_object)))
  = [CallOnComplete [1; 2; 3]].
Proof.
  destruct (fetch_object (fun _ => true) [generic [97]] example_object (Interest_new [generic [97]] true true) 1 _
    example_published eq_refl) as (_ & H & _). exact H.
Defined.

Lemma fetch_sound_witness :
  let f := fetch (fun _ => true) (Interest_new [generic [97]] true true) (map Received example_object) in
  f_outcome f = [CallOnComplete [1; 2; 3]] /\
  exists ds d, ds ++ [d] `sublist_of` received (map Received example_object) /\
    (forall k d', (ds ++ [d]) !! k = Some d' -> is_segment_of (fun _ => true) (Z.of_nat k) d') /\
    toSegment (finalBlockId_ (data_metaInfo d)) = Ok (zlen ds) /\
    [1; 2; 3] = contents_of (map data_content (ds ++ [d])).
Proof.
  cbv zeta. split; [vm_compute; reflexivity |].
  apply (fetch_sound (fun _ => true) (Interest_new [generic [97]] true true) (map Received example_object)).
  vm_compute. reflexivity.
Defined.

Lemma reExpress_doubles_witness :
  let i := setInterestLifetime 100 (Interest_new [] true true) in
  exists last, after_timeouts 1000 3 i = Ok (ExpressAgain last) /\
    interest_value last = with_lifetime 800 (interest_value i) /\
    after_timeouts 1000 4 i = Ok (CallCallerOnTimeout last).
Proof.
  cbv zeta. destruct (reExpress_doubles 1000 (setInterestLifetime 100 (Interest_new [] true true)) 3)
    as (last & H1 & H2 & H3); [cbn; lia | lia | cbn; lia |].
  exists last. split; [exact H1 |]. split; [exact H2 |]. apply H3; [cbn; lia | lia].
Defined.
