(* ===== verification/Iblt.v ===== *)
(** * The invertible Bloom lookup table

    src/sync/detail/invertible-bloom-lookup-table.cpp, with the hash function of
    contrib/murmur-hash: a table that holds a set of 32-bit keys as sums, so that the difference of
    two sets can be listed from the difference of their tables. *)

From stdpp Require Import base list numbers option strings gmap sorting.
From Stdlib Require Import ZArith Lia.
From S2P Require Import Prelude Encoder.
Open Scope Z_scope.

(** ** MurmurHash3

    32-bit arithmetic; the words of the data are little endian. *)

Definition wrap32 (z : Z) : Z := z mod 2 ^ 32.

Definition ROTL32 (x r : Z) : Z := wrap32 (Z.lor (Z.shiftl x r) (Z.shiftr x (32 - r))).

Definition murmur_c1 : Z := 0xcc9e2d51.
Definition murmur_c2 : Z := 0x1b873593.

Definition murmur_scramble (k : Z) : Z := wrap32 (ROTL32 (wrap32 (k * murmur_c1)) 15 * murmur_c2).

Definition le_word (b0 b1 b2 b3 : Z) : Z :=
  Z.lor b0 (Z.lor (Z.shiftl b1 8) (Z.lor (Z.shiftl b2 16) (Z.shiftl b3 24))).

(** The body, over the blocks of four bytes, and the tail. *)
Fixpoint murmur_body (h1 : Z) (data : list Z) : Z :=
  match data with
  | b0 :: b1 :: b2 :: b3 :: data =>
      let h1 := Z.lxor h1 (murmur_scramble (le_word b0 b1 b2 b3)) in
      murmur_body (wrap32 (ROTL32 h1 13 * 5 + 0xe6546b64)) data
  | [b0; b1; b2] => Z.lxor h1 (murmur_scramble (Z.lxor (Z.lxor (Z.shiftl b2 16) (Z.shiftl b1 8)) b0))
  | [b0; b1] => Z.lxor h1 (murmur_scramble (Z.lxor (Z.shiftl b1 8) b0))
  | [b0] => Z.lxor h1 (murmur_scramble b0)
  | [] => h1
  end.

Definition murmur_finish (h1 dataToHashLength : Z) : Z :=
  let h1 := Z.lxor h1 (wrap32 dataToHashLength) in
  let h1 := Z.lxor h1 (Z.shiftr h1 16) in
  let h1 := wrap32 (h1 * 0x85ebca6b) in
  let h1 := Z.lxor h1 (Z.shiftr h1 13) in
  let h1 := wrap32 (h1 * 0xc2b2ae35) in
  Z.lxor h1 (Z.shiftr h1 16).

Definition ndn_murmurHash3 (nHashSeed : Z) (dataToHash : list Z) : Z :=
  murmur_finish (murmur_body nHashSeed dataToHash) (zlen dataToHash).

(** [CryptoLite::murmurHash3] of an integer: of its four bytes in memory. *)
Definition le_bytes (value : Z) : list Z :=
  [Z.land 0xFF value; Z.land 0xFF (Z.shiftr value 8); Z.land 0xFF (Z.shiftr value 16); Z.land 0xFF (Z.shiftr value 24)].
Definition murmurHash3 (nHashSeed value : Z) : Z := ndn_murmurHash3 nHashSeed (le_bytes value).

(** Published values of the algorithm. *)
Example murmur_empty : ndn_murmurHash3 1 [] = 0x514E28B7.
Proof. vm_compute. reflexivity. Qed.
Example murmur_words : ndn_murmurHash3 0 [0xff; 0xff; 0xff; 0xff] = 0x76293B50.
Proof. vm_compute. reflexivity. Qed.
Example murmur_tail : ndn_murmurHash3 0 [0x21; 0x43; 0x65] = 0x7E4A8634.
Proof. vm_compute. reflexivity. Qed.

(** ** The table *)

Definition N_HASH : Z := 3.
Definition N_HASHCHECK : Z := 11.

(** The count is an [int32_t], the sums are [uint32_t]. *)
Record HashTableEntry := mkEntry {
  count_ : Z;
  keySum_ : Z;
  keyCheck_ : Z
}.

#[export] Instance HashTableEntry_eq_dec : EqDecision HashTableEntry.
Proof. solve_decision. Defined.

Abbreviation HashTable := (list HashTableEntry).

Definition empty_entry : HashTableEntry := mkEntry 0 0 0.

Definition isPure (e : HashTableEntry) : bool :=
  ((count_ e =? 1) || (count_ e =? -1)) && (keyCheck_ e =? murmurHash3 N_HASHCHECK (keySum_ e)).

Definition isEmpty (e : HashTableEntry) : bool := (count_ e =? 0) && (keySum_ e =? 0) && (keyCheck_ e =? 0).

(** The constructor. *)
Definition table_size (expectedNEntries : Z) : Z :=
  let nEntries := expectedNEntries + expectedNEntries / 2 in
  let remainder := nEntries mod N_HASH in
  if negb (remainder =? 0) then nEntries + (N_HASH - remainder) else nEntries.
Definition InvertibleBloomLookupTable (expectedNEntries : Z) : HashTable :=
  replicate (Z.to_nat (table_size expectedNEntries)) empty_entry.

(** The change of an entry; the overflow of the count, which is undefined, wraps. *)
Definition bump (plusOrMinus key : Z) (e : HashTableEntry) : HashTableEntry :=
  mkEntry (to_int32 (count_ e + plusOrMinus)) (Z.lxor (keySum_ e) key)
    (Z.lxor (keyCheck_ e) (murmurHash3 N_HASHCHECK key)).

(** [hashTable_.at(i)], changed. *)
Definition at_entry (f : HashTableEntry -> HashTableEntry) (i : Z) (t : HashTable) : result exn HashTable :=
  match t !! Z.to_nat i with
  | Some e => Ok (<[Z.to_nat i := f e]> t)
  | None => Err (RuntimeError "vector::at")
  end.

(** The loop over the hash functions; without buckets it divides by zero. *)
Definition update (plusOrMinus key : Z) (t : HashTable) : result exn HashTable :=
  let bucketsPerHash := zlen t / N_HASH in
  if bucketsPerHash =? 0 then Err (Failed UndefinedBehaviour)
  else
    t ← at_entry (bump plusOrMinus key) (murmurHash3 0 key mod bucketsPerHash) t;
    t ← at_entry (bump plusOrMinus key) (bucketsPerHash + murmurHash3 1 key mod bucketsPerHash) t;
    at_entry (bump plusOrMinus key) (2 * bucketsPerHash + murmurHash3 2 key mod bucketsPerHash) t.

Definition iblt_insert (key : Z) (t : HashTable) : result exn HashTable := update 1 key t.
Definition iblt_erase (key : Z) (t : HashTable) : result exn HashTable := update (-1) key t.

Definition subtract (e1 e2 : HashTableEntry) : HashTableEntry :=
  mkEntry (to_int32 (count_ e1 - count_ e2)) (Z.lxor (keySum_ e1) (keySum_ e2))
    (Z.lxor (keyCheck_ e1) (keyCheck_ e2)).

Definition difference (t other : HashTable) : result exn HashTable :=
  if negb (zlen t =? zlen other) then
    Err (RuntimeError "IBLT difference: Both tables must be the same size")
  else Ok (zip_with subtract t other).

Definition iblt_equals (t other : HashTable) : bool := bool_decide (t = other).

(** *** Listing the entries *)

(** The table that is peeled, and the keys that were found. *)
Record Peeled := mkPeeled {
  peeled_table : HashTable;
  positive : gset Z;
  negative : gset Z;
  nErased : Z
}.

(** One turn of the inner loop, at entry [i]. *)
Definition peel_entry (p : Peeled) (i : nat) : result exn Peeled :=
  match peeled_table p !! i with
  | None => Ok p
  | Some e =>
      if isPure e then
        t ← update (- count_ e) (keySum_ e) (peeled_table p);
        mret (if count_ e =? 1 then mkPeeled t ({[keySum_ e]} ∪ positive p) (negative p) (nErased p + 1)
              else mkPeeled t (positive p) ({[keySum_ e]} ∪ negative p) (nErased p + 1))
      else Ok p
  end.

(** The inner loop, over all entries, from [nErased = 0]. *)
Fixpoint peel_entries (entries : list nat) (p : Peeled) : result exn Peeled :=
  match entries with
  | [] => Ok p
  | i :: entries => p ← peel_entry p i; peel_entries entries p
  end.

Definition peel_pass (p : Peeled) : result exn Peeled :=
  peel_entries (seq 0 (length (peeled_table p))) (mkPeeled (peeled_table p) (positive p) (negative p) 0).

(** The loop that ends when a pass erases nothing. *)
Fixpoint peel (fuel : nat) (p : Peeled) : result exn Peeled :=
  match fuel with
  | O => Err (Failed OutOfFuel)
  | S fuel =>
      p ← peel_pass p;
      if nErased p >? 0 then peel fuel p else mret p
  end.

(** The result is whether all were peeled, and the keys. *)
Definition listEntries (fuel : nat) (t : HashTable) : result exn (bool * gset Z * gset Z) :=
  p ← peel fuel (mkPeeled t ∅ ∅ 0);
  mret (forallb isEmpty (peeled_table p), positive p, negative p).

(** *** The encoding

    [zlibCompress] and [zlibDecompress] are of zlib. *)

Definition encode_tableEntry (e : HashTableEntry) : list Z :=
  le_bytes (count_ e) ++ le_bytes (keySum_ e) ++ le_bytes (keyCheck_ e).

Fixpoint decode_words (bytes : list Z) : list Z :=
  match bytes with
  | b0 :: b1 :: b2 :: b3 :: bytes =>
      wrap32 (Z.shiftl b3 24 + Z.shiftl b2 16 + Z.shiftl b1 8 + b0) :: decode_words bytes
  | _ => []
  end.

Section Encoding.
Context (zlibCompress : list Z -> list Z) (zlibDecompress : list Z -> result exn (list Z)).

Definition iblt_encode (t : HashTable) : list Z := zlibCompress (concat (map encode_tableEntry t)).

Definition iblt_decode (encoding : list Z) : result exn (list Z) :=
  ibltValues ← zlibDecompress encoding; mret (decode_words ibltValues).

(** The loop of [initialize]: an entry with the count 0 is left as it is. *)
Fixpoint fill_entries (values : list Z) (t : HashTable) : HashTable :=
  match values, t with
  | count :: keySum :: keyCheck :: values, e :: t =>
      (if negb (count =? 0) then mkEntry (to_int32 count) keySum keyCheck else e) :: fill_entries values t
  | _, t => t
  end.

Definition initialize (encoding : list Z) (t : HashTable) : result exn HashTable :=
  values ← iblt_decode encoding;
  if negb (3 * zlen t =? zlen values) then
    Err (RuntimeError "The received Invertible Bloom Filter cannot be decoded")
  else mret (fill_entries values t).
End Encoding.

(** ** The table as a sum of keys *)

(** Whether a key is counted in the entry [j] of a table of [size] entries. *)
Definition in_bucket (size key : Z) (j : nat) : bool :=
  let b := size / N_HASH in
  (Z.of_nat j =? murmurHash3 0 key mod b) || (Z.of_nat j =? b + murmurHash3 1 key mod b) ||
  (Z.of_nat j =? 2 * b + murmurHash3 2 key mod b).

(** The entry [j] for signed keys, and the table of them. *)
Fixpoint cell (size : Z) (ks : list (Z * Z)) (j : nat) : HashTableEntry :=
  match ks with
  | [] => empty_entry
  | (sign, key) :: ks => if in_bucket size key j then bump sign key (cell size ks j) else cell size ks j
  end.
Definition table_of (size : nat) (ks : list (Z * Z)) : HashTable :=
  map (cell (Z.of_nat size) ks) (seq 0 size).

Lemma length_table_of size ks : length (table_of size ks) = size.
Proof. unfold table_of. now rewrite length_map, length_seq. Qed.

Lemma table_of_lookup size ks j :
  (j < size)%nat -> table_of size ks !! j = Some (cell (Z.of_nat size) ks j).
Proof.
  intros Hj. unfold table_of. rewrite list_lookup_fmap, lookup_seq_lt by easy. reflexivity.
Qed.

Lemma to_int32_add a b : to_int32 (to_int32 a + b) = to_int32 (a + b).
Proof.
  unfold to_int32. f_equal; f_equal; cbv zeta; f_equal;
  (destruct (Z.ltb_spec (a mod 2 ^ 32) (2 ^ 31));
    [now rewrite Zplus_mod_idemp_l |
     rewrite <- (Zplus_mod_idemp_l (a mod 2 ^ 32 - 2 ^ 32)); rewrite Zminus_mod, Z_mod_same_full, Z.sub_0_r;
     rewrite !Zmod_mod; now rewrite Zplus_mod_idemp_l]).
Qed.

Lemma bump_comm s k s' k' e : bump s k (bump s' k' e) = bump s' k' (bump s k e).
Proof.
  unfold bump. cbn. rewrite !to_int32_add. f_equal.
  - f_equal. lia.
  - rewrite !Z.lxor_assoc. f_equal. apply Z.lxor_comm.
  - rewrite !Z.lxor_assoc. f_equal. apply Z.lxor_comm.
Qed.

Definition count_ok (e : HashTableEntry) : Prop := - 2 ^ 31 <= count_ e < 2 ^ 31.

Lemma cell_count size ks j : count_ok (cell size ks j).
Proof.
  unfold count_ok. induction ks as [| [s k] ks IH]; cbn [cell]; [cbn; lia |].
  destruct (in_bucket size k j); [apply to_int32_range | exact IH].
Qed.

Lemma bump_cancel s k e : count_ok e -> bump s k (bump (- s) k e) = e.
Proof.
  intros He. unfold bump. cbn. rewrite to_int32_add. rewrite !Z.lxor_assoc, !Z.lxor_nilpotent, !Z.lxor_0_r.
  replace (count_ e + - s + s) with (count_ e) by lia. rewrite to_int32_small by exact He. now destruct e.
Qed.

Lemma cell_perm size ks ks' j : ks ≡ₚ ks' -> cell size ks j = cell size ks' j.
Proof.
  induction 1 as [| [s k] ks ks' _ IH | [s k] [s' k'] ks | ks ks' ks'' _ IH1 _ IH2]; cbn [cell].
  - easy.
  - now rewrite IH.
  - destruct (in_bucket size k j), (in_bucket size k' j); try easy. apply bump_comm.
  - congruence.
Qed.

Lemma table_of_perm size ks ks' : ks ≡ₚ ks' -> table_of size ks = table_of size ks'.
Proof. intros H. unfold table_of. apply map_ext. intros j. now apply cell_perm. Qed.

Lemma cell_cancel size s k ks j : cell size ((s, k) :: (- s, k) :: ks) j = cell size ks j.
Proof. cbn [cell]. destruct (in_bucket size k j); [apply bump_cancel, cell_count | easy]. Qed.

Lemma table_of_cancel size s k ks : table_of size ((s, k) :: (- s, k) :: ks) = table_of size ks.
Proof. unfold table_of. apply map_ext. intros j. apply cell_cancel. Qed.

(** *** The operations on such tables *)

Lemma insert_alter {A} (f : A -> A) i (t : list A) e : t !! i = Some e -> <[i := f e]> t = alter f i t.
Proof.
  intros He. apply list_eq. intros j. destruct (decide (i = j)) as [<- |].
  - rewrite list_lookup_insert_eq, list_lookup_alter_eq, He by (now apply lookup_lt_Some in He). reflexivity.
  - now rewrite list_lookup_insert_ne, list_lookup_alter_ne by easy.
Qed.

Lemma at_entry_alter f i t :
  0 <= i < zlen t -> at_entry f i t = Ok (alter f (Z.to_nat i) t).
Proof.
  intros Hi. unfold at_entry. destruct (lookup_lt_is_Some_2 t (Z.to_nat i)) as [e He]; [lia |].
  rewrite He. f_equal. now apply insert_alter.
Qed.

(** Three changes of different entries are one change of all of them. *)
Lemma alter_three {A} (f : A -> A) i0 i1 i2 (t : list A) :
  0 <= i0 < i1 -> i1 < i2 ->
  alter f (Z.to_nat i2) (alter f (Z.to_nat i1) (alter f (Z.to_nat i0) t)) =
  imap (fun j e => if (Z.of_nat j =? i0) || (Z.of_nat j =? i1) || (Z.of_nat j =? i2) then f e else e) t.
Proof.
  intros H0 H1. apply list_eq. intros j. rewrite list_lookup_imap, !list_lookup_alter.
  repeat case_decide; destruct (Z.eqb_spec (Z.of_nat j) i0), (Z.eqb_spec (Z.of_nat j) i1),
    (Z.eqb_spec (Z.of_nat j) i2); try lia; subst j || idtac; now destruct (t !! _).
Qed.

(** The three entries of a key are in the three parts of the table. *)
Lemma buckets_range size key (b := size / N_HASH) :
  0 < b ->
  0 <= murmurHash3 0 key mod b < b /\ b <= b + murmurHash3 1 key mod b < 2 * b /\
  2 * b <= 2 * b + murmurHash3 2 key mod b < size.
Proof.
  intros Hb. pose proof (Z.mul_div_le size N_HASH) as Hle. fold b in Hle. unfold N_HASH in Hle.
  specialize (Hle ltac:(lia)). pose proof (Z.mod_pos_bound (murmurHash3 0 key) b Hb).
  pose proof (Z.mod_pos_bound (murmurHash3 1 key) b Hb). pose proof (Z.mod_pos_bound (murmurHash3 2 key) b Hb).
  repeat split; lia.
Qed.

Lemma update_alter s k t :
  0 < zlen t / N_HASH ->
  update s k t = Ok (imap (fun j e => if in_bucket (zlen t) k j then bump s k e else e) t).
Proof.
  intros Hb. destruct (buckets_range (zlen t) k Hb) as (H0 & H1 & H2). unfold update, in_bucket.
  set (b := zlen t / N_HASH) in *. rewrite (proj2 (Z.eqb_neq b 0)) by lia.
  set (i0 := murmurHash3 0 k mod b) in *. set (i1 := b + murmurHash3 1 k mod b) in *.
  set (i2 := 2 * b + murmurHash3 2 k mod b) in *. clearbody i0 i1 i2 b.
  rewrite at_entry_alter by lia. cbn [mbind result_bind]. rewrite at_entry_alter by (rewrite length_alter; lia).
  cbn [mbind result_bind]. rewrite at_entry_alter by (rewrite !length_alter; lia).
  rewrite alter_three by lia. reflexivity.
Qed.

Lemma update_table s k size ks :
  (3 <= size)%nat -> update s k (table_of size ks) = Ok (table_of size ((s, k) :: ks)).
Proof.
  intros Hs. rewrite update_alter by (rewrite length_table_of; apply Z.div_str_pos; unfold N_HASH; lia).
  f_equal. apply list_eq. intros j. rewrite list_lookup_imap. destruct (decide (j < size)%nat) as [Hj | Hj].
  - rewrite !table_of_lookup by easy. cbn [fmap option_fmap option_map cell]. now rewrite length_table_of.
  - rewrite !(proj2 (lookup_ge_None _ j)) by (rewrite length_table_of; lia). reflexivity.
Qed.

(** The keys with the opposite signs. *)
Definition neg (ks : list (Z * Z)) : list (Z * Z) := map (fun '(s, k) => (- s, k)) ks.

Lemma to_int32_sub a b : to_int32 (a - to_int32 b) = to_int32 (a - b).
Proof.
  assert (H : forall x, to_int32 x = to_int32 (x mod 2 ^ 32)).
  { intros x. unfold to_int32. now rewrite Zmod_mod. }
  rewrite (H (a - to_int32 b)), (H (a - b)). f_equal. unfold to_int32.
  destruct (Z.ltb_spec (b mod 2 ^ 32) (2 ^ 31)).
  - apply Zminus_mod_idemp_r.
  - replace (a - (b mod 2 ^ 32 - 2 ^ 32)) with (a - b mod 2 ^ 32 + 1 * 2 ^ 32) by lia.
    rewrite Z_mod_plus_full. apply Zminus_mod_idemp_r.
Qed.

Lemma subtract_cell size ks1 ks2 j :
  subtract (cell size ks1 j) (cell size ks2 j) = cell size (neg ks2 ++ ks1) j.
Proof.
  induction ks2 as [| [s k] ks2 IH].
  - unfold subtract. cbn. rewrite Z.sub_0_r, !Z.lxor_0_r, to_int32_small by apply cell_count.
    now destruct (cell size ks1 j).
  - change (neg ((s, k) :: ks2)) with ((- s, k) :: neg ks2). cbn [app cell].
    destruct (in_bucket size k j); [| exact IH]. rewrite <- IH. unfold subtract, bump. cbn. f_equal.
    + rewrite to_int32_sub, to_int32_add. f_equal. lia.
    + now rewrite !Z.lxor_assoc.
    + now rewrite !Z.lxor_assoc.
Qed.

Lemma difference_table size ks1 ks2 :
  difference (table_of size ks1) (table_of size ks2) = Ok (table_of size (neg ks2 ++ ks1)).
Proof.
  unfold difference. rewrite !length_table_of, Z.eqb_refl. cbn [negb]. f_equal.
  apply list_eq. intros j. rewrite lookup_zip_with. destruct (decide (j < size)%nat) as [Hj | Hj].
  - rewrite !table_of_lookup by easy. cbn. f_equal. apply subtract_cell.
  - rewrite !(proj2 (lookup_ge_None _ j)) by (rewrite length_table_of; lia). reflexivity.
Qed.

(** ** Listing the entries *)

(** The lists of some of the elements of a list, in order. *)
Fixpoint sublists {A} (l : list A) : list (list A) :=
  match l with
  | [] => [[]]
  | x :: l => map (cons x) (sublists l) ++ sublists l
  end.

Lemma sublists_complete {A} (l1 l2 : list A) : sublist l1 l2 -> l1 ∈ sublists l2.
Proof.
  induction 1; cbn.
  - now constructor.
  - apply elem_of_app. left. now apply list_elem_of_fmap_2.
  - apply elem_of_app. now right.
Qed.

Definition keys_at (size : nat) (ks : list (Z * Z)) (j : nat) : list (Z * Z) :=
  List.filter (fun x => in_bucket (Z.of_nat size) x.2 j) ks.

(** No group of the keys makes an entry that passes for the entry of one key, or a table that passes
    for the empty one: what the check hashes are for. *)
Definition collision_free (size : nat) (ks : list (Z * Z)) : bool :=
  forallb (fun ks =>
    forallb (fun j => implb (isPure (cell (Z.of_nat size) ks j)) (Nat.eqb (length (keys_at size ks j)) 1)) (seq 0 size) &&
    implb (forallb isEmpty (table_of size ks)) (bool_decide (ks = []))) (sublists ks).

Definition signed (P N : gset Z) : list (Z * Z) := map (pair 1) (elements P) ++ map (pair (-1)) (elements N).

Lemma cell_filter size ks j : cell (Z.of_nat size) ks j = cell (Z.of_nat size) (keys_at size ks j) j.
Proof.
  induction ks as [| [s k] ks IH]; [easy |]. cbn [keys_at List.filter cell snd].
  destruct (in_bucket (Z.of_nat size) k j) eqn:E; cbn [cell]; rewrite ?E; now rewrite IH.
Qed.

(** The entry of one key. *)
Lemma cell_one size ks j s k :
  keys_at size ks j = [(s, k)] -> s = 1 \/ s = -1 ->
  cell (Z.of_nat size) ks j = mkEntry s k (murmurHash3 N_HASHCHECK k).
Proof.
  intros H Hs. rewrite cell_filter, H. cbn [cell].
  assert (E : in_bucket (Z.of_nat size) k j = true).
  { assert (Hin : In (s, k) (keys_at size ks j)) by (rewrite H; now left).
    apply filter_In in Hin as [_ Hin]. exact Hin. }
  rewrite E. unfold bump. cbn [count_ keySum_ keyCheck_ empty_entry]. rewrite !Z.lxor_0_l. f_equal.
  now destruct Hs as [-> | ->].
Qed.

Lemma isPure_one s k : s = 1 \/ s = -1 -> isPure (mkEntry s k (murmurHash3 N_HASHCHECK k)) = true.
Proof. intros Hs. unfold isPure. cbn. rewrite Z.eqb_refl. now destruct Hs as [-> | ->]. Qed.

Lemma elem_of_signed P N s k : (s, k) ∈ signed P N <-> (s = 1 /\ k ∈ P) \/ (s = -1 /\ k ∈ N).
Proof.
  unfold signed. rewrite elem_of_app, !list_elem_of_fmap. setoid_rewrite elem_of_elements. split.
  - intros [(k' & [= -> ->] & Hk) | (k' & [= -> ->] & Hk)]; tauto.
  - intros [[-> Hk] | [-> Hk]]; [left | right]; now exists k.
Qed.

Lemma signed_NoDup P N : NoDup (signed P N).
Proof.
  unfold signed. apply NoDup_app. repeat split.
  - apply NoDup_fmap; [intros x y [= ->]; easy | apply NoDup_elements].
  - intros [s k] H1 H2. apply list_elem_of_fmap in H1 as (? & [= -> ->] & _).
    apply list_elem_of_fmap in H2 as (? & [=] & _).
  - apply NoDup_fmap; [intros x y [= ->]; easy | apply NoDup_elements].
Qed.

Section Peeling.
Context (size : nat) (P N : gset Z).
Hypothesis Hsize : (3 <= size)%nat.
Hypothesis Hfree : collision_free size (signed P N) = true.

(** The keys [ks] are left, the others were found. *)
Record left_keys (ks : list (Z * Z)) (p : Peeled) : Prop := {
  left_table : peeled_table p = table_of size ks;
  left_sub : sublist ks (signed P N);
  left_positive : forall k, k ∈ P <-> k ∈ positive p \/ (1, k) ∈ ks;
  left_positive_new : forall k, k ∈ positive p -> (1, k) ∉ ks;
  left_negative : forall k, k ∈ N <-> k ∈ negative p \/ (-1, k) ∈ ks;
  left_negative_new : forall k, k ∈ negative p -> (-1, k) ∉ ks
}.

Lemma left_free ks :
  sublist ks (signed P N) ->
  (forall j, (j < size)%nat -> isPure (cell (Z.of_nat size) ks j) = true -> length (keys_at size ks j) = 1%nat) /\
  (forallb isEmpty (table_of size ks) = true -> ks = []).
Proof.
  intros Hsub%sublists_complete. unfold collision_free in Hfree. rewrite forallb_forall in Hfree.
  apply list_elem_of_In, Hfree in Hsub. apply andb_true_iff in Hsub as [H1 H2]. split.
  - intros j Hj Hp. rewrite forallb_forall in H1. specialize (H1 j ltac:(apply in_seq; lia)).
    rewrite Hp in H1. now apply Nat.eqb_eq.
  - intros He. rewrite He in H2. now apply bool_decide_eq_true in H2.
Qed.

Lemma left_sign ks s k : sublist ks (signed P N) -> (s, k) ∈ ks -> s = 1 \/ s = -1.
Proof. intros Hsub Hin. apply (sublist_subseteq _ _ Hsub) in Hin. apply elem_of_signed in Hin. tauto. Qed.

Lemma left_pure ks j :
  sublist ks (signed P N) -> (j < size)%nat ->
  isPure (cell (Z.of_nat size) ks j) = true <-> length (keys_at size ks j) = 1%nat.
Proof.
  intros Hsub Hj. split; [now apply left_free |]. intros Hl.
  destruct (keys_at size ks j) as [| [s k] [|]] eqn:E; try easy.
  assert (Hs : s = 1 \/ s = -1).
  { apply (left_sign ks s k Hsub). apply list_elem_of_In.
    assert (Hin : In (s, k) (keys_at size ks j)) by (rewrite E; now left). now apply filter_In in Hin as [Hin _]. }
  rewrite (cell_one size ks j s k E Hs). now apply isPure_one.
Qed.

(** One of the keys that are left. *)
Lemma left_split ks s k :
  sublist ks (signed P N) -> (s, k) ∈ ks ->
  exists ks', (ks ≡ₚ (s, k) :: ks') /\ sublist ks' (signed P N) /\ ((s, k) ∉ ks') /\
    forall x, x ∈ ks <-> x = (s, k) \/ x ∈ ks'.
Proof.
  intros Hsub Hin. apply list_elem_of_split in Hin as (l1 & l2 & ->). exists (l1 ++ l2).
  assert (Hp : l1 ++ (s, k) :: l2 ≡ₚ (s, k) :: l1 ++ l2) by (symmetry; apply Permutation_middle).
  pose proof (sublist_NoDup _ _ (signed_NoDup P N) Hsub) as Hnd. rewrite Hp in Hnd. apply NoDup_cons in Hnd as [Hni _].
  repeat split.
  - exact Hp.
  - etransitivity; [| exact Hsub]. apply sublist_app; [easy |]. now constructor.
  - exact Hni.
  - rewrite Hp. now rewrite elem_of_cons.
  - rewrite Hp. now rewrite elem_of_cons.
Qed.

Lemma table_erase ks ks' s k :
  ks ≡ₚ (s, k) :: ks' -> update (- s) k (table_of size ks) = Ok (table_of size ks').
Proof.
  intros Hp. rewrite (table_of_perm size ks _ Hp), update_table by exact Hsize. f_equal.
  pose proof (table_of_cancel size (- s) k ks') as H. now rewrite Z.opp_involutive in H.
Qed.

Lemma peel_entry_left ks p j :
  left_keys ks p -> (j < size)%nat ->
  exists ks' p', peel_entry p j = Ok p' /\ left_keys ks' p' /\
    ((p' = p /\ ks' = ks /\ length (keys_at size ks j) <> 1%nat) \/
     (nErased p' = nErased p + 1 /\ (length ks' < length ks)%nat)).
Proof.
  intros [Ht Hsub Hp Hpn Hn Hnn] Hj. unfold peel_entry. rewrite Ht, table_of_lookup by exact Hj.
  pose proof (left_pure ks j Hsub Hj) as Hpure. destruct (isPure (cell (Z.of_nat size) ks j)).
  2: { exists ks, p. split; [easy |]. split; [now constructor |]. left. intuition congruence. }
  destruct (keys_at size ks j) as [| [s k] [|]] eqn:E; try (now destruct Hpure as [H _]; specialize (H eq_refl)).
  assert (Hin : (s, k) ∈ ks).
  { apply list_elem_of_In. assert (Hin : In (s, k) (keys_at size ks j)) by (rewrite E; now left).
    now apply filter_In in Hin as [Hin _]. }
  pose proof (left_sign ks s k Hsub Hin) as Hs. rewrite (cell_one size ks j s k E Hs). cbn [count_ keySum_].
  destruct (left_split ks s k Hsub Hin) as (ks' & Hperm & Hsub' & Hni & Hel).
  rewrite (table_erase ks ks' s k Hperm). cbn [mbind result_bind mret result_ret].
  assert (Hlen : (length ks' < length ks)%nat) by (rewrite Hperm; cbn; lia).
  exists ks'. destruct Hs as [-> | ->]; cbn [Z.eqb Pos.eqb]; eexists; (split; [reflexivity |]; split; [| right; cbn; lia]).
  - constructor; cbn; try easy; intros k'; try intros Hk'; specialize (Hp k'); specialize (Hn k');
      specialize (Hpn k'); specialize (Hnn k'); pose proof (Hel (1, k')); pose proof (Hel (-1, k'));
      rewrite ?elem_of_union, ?elem_of_singleton in *;
      destruct (decide (k' = k)) as [-> |]; intuition congruence.
  - constructor; cbn; try easy; intros k'; try intros Hk'; specialize (Hp k'); specialize (Hn k');
      specialize (Hpn k'); specialize (Hnn k'); pose proof (Hel (1, k')); pose proof (Hel (-1, k'));
      rewrite ?elem_of_union, ?elem_of_singleton in *;
      destruct (decide (k' = k)) as [-> |]; intuition congruence.
Qed.

Lemma peel_entries_left js : forall ks p,
  left_keys ks p -> Forall (fun j => (j < size)%nat) js ->
  exists ks' p', peel_entries js p = Ok p' /\ left_keys ks' p' /\
    ((p' = p /\ ks' = ks /\ Forall (fun j => length (keys_at size ks j) <> 1%nat) js) \/
     (nErased p < nErased p' /\ (length ks' < length ks)%nat)).
Proof.
  induction js as [| j js IH]; intros ks p Hl Hjs; cbn [peel_entries].
  - exists ks, p. split; [easy |]. split; [easy |]. now left.
  - apply Forall_cons in Hjs as [Hj Hjs]. destruct (peel_entry_left ks p j Hl Hj) as (ks1 & p1 & -> & Hl1 & H1).
    cbn [mbind result_bind]. destruct (IH ks1 p1 Hl1 Hjs) as (ks2 & p2 & -> & Hl2 & H2).
    exists ks2, p2. split; [easy |]. split; [easy |].
    destruct H1 as [(-> & -> & H1) | H1], H2 as [(-> & -> & H2) | H2]; [left | right ..]; try lia.
    repeat split. now constructor.
Qed.

Lemma peel_left fuel : forall ks p,
  left_keys ks p -> (length ks < fuel)%nat ->
  exists ks' p', peel fuel p = Ok p' /\ left_keys ks' p' /\
    forall j, (j < size)%nat -> length (keys_at size ks' j) <> 1%nat.
Proof.
  induction fuel as [| fuel IH]; intros ks p Hl Hf; [lia |]. cbn [peel]. unfold peel_pass.
  assert (Hlen : length (peeled_table p) = size) by (destruct Hl as [-> _ _ _ _ _]; apply length_table_of).
  rewrite Hlen.
  destruct (peel_entries_left (seq 0 size) ks (mkPeeled (peeled_table p) (positive p) (negative p) 0))
    as (ks1 & p1 & -> & Hl1 & H1).
  - destruct Hl. now constructor.
  - apply Forall_forall. intros j Hj%elem_of_seq. lia.
  - cbn [mbind result_bind nErased] in *. destruct H1 as [(-> & -> & H1) | [H1 H2]].
    + cbn. eexists _, _. split; [reflexivity |]. split; [exact Hl1 |]. intros j Hj.
      rewrite Forall_forall in H1. apply H1, elem_of_seq. lia.
    + rewrite (proj2 (Z.gtb_lt _ _) H1). apply (IH ks1 p1 Hl1). lia.
Qed.

Lemma keys_at_perm ks ks' j : ks ≡ₚ ks' -> length (keys_at size ks j) = length (keys_at size ks' j).
Proof.
  unfold keys_at. induction 1 as [| x ks ks' _ IH | x y ks | ks ks' ks'' _ IH1 _ IH2]; cbn [List.filter]; try congruence;
    repeat case_match; cbn; congruence.
Qed.

Lemma sublist_signed ks : sublist ks (signed P N) -> ks = [] <-> forall s k, (s, k) ∉ ks.
Proof.
  intros _. split; [intros -> ? ? H; now apply elem_of_nil in H |]. intros H. destruct ks as [| [s k] ks]; [easy |].
  destruct (H s k). now left.
Qed.

(** What is listed, of the table of the keys. *)
Lemma listEntries_left fuel :
  (base.size P + base.size N < fuel)%nat ->
  exists complete pos neg,
    listEntries fuel (table_of size (signed P N)) = Ok (complete, pos, neg) /\
    pos ⊆ P /\ neg ⊆ N /\ (complete = true <-> pos = P /\ neg = N) /\
    forall j, (j < size)%nat -> length (keys_at size (signed (P ∖ pos) (N ∖ neg)) j) <> 1%nat.
Proof.
  intros Hf. destruct (peel_left fuel (signed P N) (mkPeeled (table_of size (signed P N)) ∅ ∅ 0))
    as (ks & p & Hpeel & [Ht Hsub Hp Hpn Hn Hnn] & Hcore).
  - constructor; cbn; try easy; intros k; rewrite ?elem_of_signed; try set_solver; intuition congruence.
  - unfold signed. rewrite length_app, !length_map. exact Hf.
  - unfold listEntries. rewrite Hpeel. cbn [mbind result_bind mret result_ret]. rewrite Ht.
    assert (Hel : forall s k, (s, k) ∈ ks -> (s = 1 /\ k ∈ P) \/ (s = -1 /\ k ∈ N)).
    { intros s k Hin. apply elem_of_signed. now apply (sublist_subseteq _ _ Hsub). }
    eexists _, _, _. split; [reflexivity |]. split; [| split; [| split]].
    + intros k Hk. apply Hp. now left.
    + intros k Hk. apply Hn. now left.
    + split.
      * intros Hc. apply (proj2 (left_free ks Hsub)) in Hc as ->. split; apply set_eq; intros k; [rewrite Hp | rewrite Hn];
        rewrite elem_of_nil; tauto.
      * intros [HP HN]. enough (ks = []) as ->.
        { apply forallb_forall. intros e (j & <- & _)%in_map_iff. reflexivity. }
        apply (sublist_signed ks Hsub). intros s k Hin. destruct (Hel s k Hin) as [[-> Hk] | [-> Hk]].
        -- apply (Hpn k); [now rewrite HP | easy].
        -- apply (Hnn k); [now rewrite HN | easy].
    + intros j Hj. erewrite keys_at_perm; [apply (Hcore j Hj) |]. apply NoDup_Permutation.
      * apply signed_NoDup.
      * apply (sublist_NoDup _ _ (signed_NoDup P N) Hsub).
      * intros [s k]. rewrite elem_of_signed, !elem_of_difference. specialize (Hp k). specialize (Hn k).
        specialize (Hpn k). specialize (Hnn k). specialize (Hel s k). split.
        -- intros [(-> & H1 & H2) | (-> & H1 & H2)]; tauto.
        -- intros Hin. destruct (Hel Hin) as [[-> Hk] | [-> Hk]]; tauto.
Qed.

End Peeling.

(** *** The difference of two sets *)

Fixpoint insert_all (keys : list Z) (t : HashTable) : result exn HashTable :=
  match keys with
  | [] => Ok t
  | key :: keys => t ← iblt_insert key t; insert_all keys t
  end.

Lemma insert_all_table size keys : forall ks,
  (3 <= size)%nat ->
  insert_all keys (table_of size ks) = Ok (table_of size (map (pair 1) keys ++ ks)).
Proof.
  induction keys as [| k keys IH]; intros ks Hs; [easy |]. cbn [insert_all]. unfold iblt_insert.
  rewrite update_table by exact Hs. cbn [mbind result_bind]. rewrite IH by exact Hs. f_equal.
  apply table_of_perm. symmetry. cbn. apply Permutation_middle.
Qed.

Lemma table_of_common size ks l : table_of size (neg ks ++ ks ++ l) = table_of size l.
Proof.
  induction ks as [| [s k] ks IH]; [easy |]. rewrite <- IH.
  rewrite <- (table_of_cancel size s k (neg ks ++ ks ++ l)). apply table_of_perm.
  change (neg ((s, k) :: ks)) with ((- s, k) :: neg ks). cbn [app].
  rewrite <- Permutation_middle. apply Permutation_swap.
Qed.

Lemma elements_split (A B : gset Z) : elements A ≡ₚ elements (A ∩ B) ++ elements (A ∖ B).
Proof.
  rewrite <- elements_disj_union by set_solver. f_equiv. intros k.
  rewrite elem_of_union, elem_of_intersection, elem_of_difference. destruct (decide (k ∈ B)); tauto.
Qed.

Lemma difference_signed size (A B : gset Z) :
  difference (table_of size (map (pair 1) (elements A))) (table_of size (map (pair 1) (elements B))) =
  Ok (table_of size (signed (A ∖ B) (B ∖ A))).
Proof.
  rewrite difference_table. f_equal. unfold signed.
  set (C := map (pair 1) (elements (A ∩ B))). rewrite <- (table_of_common size C (_ ++ map (pair (-1)) _)). apply table_of_perm.
  assert (HA : map (pair 1) (elements A) ≡ₚ C ++ map (pair 1) (elements (A ∖ B))).
  { unfold C. rewrite <- map_app. apply Permutation_map, elements_split. }
  assert (HB : neg (map (pair 1) (elements B)) ≡ₚ neg C ++ map (pair (-1)) (elements (B ∖ A))).
  { unfold C, neg. rewrite !map_map, (intersection_comm_L A B), <- map_app. cbn.
    apply Permutation_map, elements_split. }
  rewrite HA, HB, <- !app_assoc. apply Permutation_app_head. rewrite Permutation_app_comm, <- !app_assoc.
  reflexivity.
Qed.

Lemma table_size_min n : 1 <= n -> (3 <= Z.to_nat (table_size n))%nat.
Proof.
  intros Hn. unfold table_size, N_HASH. pose proof (Z.div_pos n 2 ltac:(lia) ltac:(lia)).
  set (m := n + n / 2) in *. assert (Hm : 1 <= m) by lia. clearbody m.
  destruct (Z.eqb_spec (m mod 3) 0); cbn [negb]; Z.to_euclidean_division_equations; lia.
Qed.

Lemma empty_table size : replicate size empty_entry = table_of size [].
Proof. unfold table_of. cbn. symmetry. rewrite <- (length_seq size 0) at 2. apply const_fmap. now intros. Qed.

(** C31: the difference of the table of a set [A] and the table of a set [B] lists elements of [A ∖ B] and of
    [B ∖ A] only, it is reported as complete exactly when all of both are listed, and what is not
    listed could not be: no entry of the table is of just one of these keys. The tables are of the same
    [expectedNEntries], made from the empty table by inserting the keys, and the check hashes tell the
    entries of one key from the other ones. The listing ends after at most as many passes as
    there are differences, and one. *)
Theorem iblt_difference (expectedNEntries : Z) (A B : gset Z) (fuel : nat) :
  1 <= expectedNEntries ->
  collision_free (Z.to_nat (table_size expectedNEntries)) (signed (A ∖ B) (B ∖ A)) = true ->
  (base.size (A ∖ B) + base.size (B ∖ A) < fuel)%nat ->
  exists tA tB d complete pos neg,
    insert_all (elements A) (InvertibleBloomLookupTable expectedNEntries) = Ok tA /\
    insert_all (elements B) (InvertibleBloomLookupTable expectedNEntries) = Ok tB /\
    difference tA tB = Ok d /\
    listEntries fuel d = Ok (complete, pos, neg) /\
    pos ⊆ A ∖ B /\ neg ⊆ B ∖ A /\ (complete = true <-> pos = A ∖ B /\ neg = B ∖ A) /\
    forall j, (j < length d)%nat ->
      length (keys_at (length d) (signed ((A ∖ B) ∖ pos) ((B ∖ A) ∖ neg)) j) <> 1%nat.
Proof.
  intros Hn%table_size_min Hfree Hf. unfold InvertibleBloomLookupTable. set (size := Z.to_nat _) in *.
  destruct (listEntries_left size (A ∖ B) (B ∖ A) Hn Hfree fuel Hf) as (complete & pos & ng & Hl & H).
  rewrite empty_table, !insert_all_table, !app_nil_r by exact Hn.
  eexists _, _, _, complete, pos, ng. split; [reflexivity |]. split; [reflexivity |]. rewrite difference_signed.
  split; [reflexivity |]. rewrite length_table_of. now split.
Qed.

(** Two sets that share a key. *)
Lemma iblt_difference_witness :
  exists tA tB d complete pos neg,
    insert_all (elements ({[17; 400]} : gset Z)) (InvertibleBloomLookupTable 4) = Ok tA /\
    insert_all (elements ({[400; 99; 5]} : gset Z)) (InvertibleBloomLookupTable 4) = Ok tB /\
    difference tA tB = Ok d /\ listEntries 4 d = Ok (complete, pos, neg) /\
    pos ⊆ {[17]} /\ neg ⊆ {[99; 5]}.
Proof.
  destruct (iblt_difference 4 {[17; 400]} {[400; 99; 5]} 4) as (tA & tB & d & complete & pos & ng & H1 & H2 & H3 & H4 & H5 & H6 & _).
  - lia.
  - vm_compute. reflexivity.
  - vm_compute. lia.
  - exists tA, tB, d, complete, pos, ng. repeat split; try assumption; set_solver.
Defined.

(** ** A table on which the listing does not end

    An entry that looks like the entry of one key, at an index that is not of this key: it is not
    emptied by erasing the key. *)

Definition misplaced_key : Z := 1.

Definition misplaced_bytes : list Z :=
  concat (map encode_tableEntry
    (replicate 5 empty_entry ++ [mkEntry 1 misplaced_key (murmurHash3 N_HASHCHECK misplaced_key)])).

Definition misplaced_entry (count : Z) : HashTableEntry :=
  mkEntry count misplaced_key (murmurHash3 N_HASHCHECK misplaced_key).

(** The state at the start, after the first pass and after every other one. *)
Definition misplaced_0 : Peeled := mkPeeled (replicate 5 empty_entry ++ [misplaced_entry 1]) ∅ ∅ 0.
Definition misplaced_1 : Peeled :=
  mkPeeled
    [misplaced_entry (-1); empty_entry; misplaced_entry (-1); empty_entry; misplaced_entry (-1); misplaced_entry 1]
    {[misplaced_key]} ∅ 1.
Definition misplaced_2 : Peeled := mkPeeled (peeled_table misplaced_1) {[misplaced_key]} {[misplaced_key]} 2.

Lemma misplaced_passes :
  peel_pass misplaced_0 = Ok misplaced_1 /\ peel_pass misplaced_1 = Ok misplaced_2 /\
  peel_pass misplaced_2 = Ok misplaced_2.
Proof. vm_compute. auto. Qed.

Lemma peel_next fuel p p' :
  peel_pass p = Ok p' -> (nErased p' >? 0) = true -> peel (S fuel) p = peel fuel p'.
Proof. intros Hp Hn. cbn [peel]. rewrite Hp. cbn [mbind result_bind]. now rewrite Hn. Qed.

Lemma misplaced_peel fuel : peel fuel misplaced_2 = Err (Failed OutOfFuel).
Proof.
  induction fuel as [| fuel IH]; [easy |]. now rewrite (peel_next fuel _ _ (proj2 (proj2 misplaced_passes)) eq_refl).
Qed.

Lemma misplaced_start fuel : peel fuel misplaced_0 = Err (Failed OutOfFuel).
Proof.
  destruct misplaced_passes as (H0 & H1 & _). destruct fuel as [| [| fuel]]; [easy | |].
  - now rewrite (peel_next 0 _ _ H0 eq_refl).
  - rewrite (peel_next _ _ _ H0 eq_refl), (peel_next _ _ _ H1 eq_refl). apply misplaced_peel.
Qed.

Lemma misplaced_initialize zlibDecompress encoding :
  zlibDecompress encoding = Ok misplaced_bytes ->
  initialize zlibDecompress encoding (InvertibleBloomLookupTable 4) = Ok (peeled_table misplaced_0).
Proof. intros Hz. unfold initialize, iblt_decode. rewrite Hz. vm_compute. reflexivity. Qed.

(** [listEntries] does not end on every table: the table of six entries that [initialize] makes of
    these received bytes is accepted, and no number of passes lists it. A table comes from the
    network in the name of a sync Interest. *)
Theorem listEntries_diverges (zlibDecompress : list Z -> result exn (list Z)) (encoding : list Z) :
  zlibDecompress encoding = Ok misplaced_bytes ->
  exists t, initialize zlibDecompress encoding (InvertibleBloomLookupTable 4) = Ok t /\
    forall fuel, listEntries fuel t = Err (Failed OutOfFuel).
Proof.
  intros Hz. exists (peeled_table misplaced_0). split; [now apply misplaced_initialize |]. intros fuel.
  unfold listEntries. change (mkPeeled _ ∅ ∅ 0) with misplaced_0. now rewrite misplaced_start.
Qed.

Lemma listEntries_diverges_witness :
  exists t, initialize (fun bytes => Ok bytes) misplaced_bytes (InvertibleBloomLookupTable 4) = Ok t /\
    listEntries 1000 t = Err (Failed OutOfFuel).
Proof.
  destruct (listEntries_diverges (fun bytes => Ok bytes) misplaced_bytes eq_refl) as (t & H1 & H2).
  exists t. split; [exact H1 | apply H2].
Defined.

(** ** The encoding *)

(** An entry of a table: the fields have their widths, and an entry that counts no key is empty. *)
Definition entry_ok (e : HashTableEntry) : Prop :=
  - 2 ^ 31 <= count_ e < 2 ^ 31 /\ 0 <= keySum_ e < 2 ^ 32 /\ 0 <= keyCheck_ e < 2 ^ 32.

Lemma decode_le_bytes v bytes : decode_words (le_bytes v ++ bytes) = v mod 2 ^ 32 :: decode_words bytes.
Proof.
  unfold le_bytes. cbn [app decode_words]. f_equal. unfold wrap32.
  rewrite !(Z.land_comm 0xFF), !land_255, !Z.shiftl_mul_pow2, !Z.shiftr_div_pow2 by lia.
  change (2 ^ 8) with 256. change (2 ^ 16) with 65536. change (2 ^ 24) with 16777216.
  change (2 ^ 32) with 4294967296.
  Z.to_euclidean_division_equations. lia.
Qed.

Lemma decode_encode_entries t :
  decode_words (concat (map encode_tableEntry t)) =
  concat (map (fun e => [count_ e mod 2 ^ 32; keySum_ e mod 2 ^ 32; keyCheck_ e mod 2 ^ 32]) t).
Proof.
  induction t as [| e t IH]; [easy |]. cbn [map concat]. unfold encode_tableEntry at 1.
  now rewrite <- !app_assoc, !decode_le_bytes, IH.
Qed.

Lemma to_int32_mod z : to_int32 (z mod 2 ^ 32) = to_int32 z.
Proof. unfold to_int32. now rewrite Zmod_mod. Qed.

Lemma fill_entries_encoded t :
  Forall (fun e => entry_ok e /\ (count_ e = 0 -> e = empty_entry)) t ->
  fill_entries (decode_words (concat (map encode_tableEntry t))) (replicate (length t) empty_entry) = t.
Proof.
  rewrite decode_encode_entries. induction 1 as [| e t [(Hc & Hs & Hk) Hz] _ IH]; [easy |].
  cbn [map concat app length replicate fill_entries]. rewrite IH. f_equal.
  assert (Hm : count_ e mod 2 ^ 32 = 0 <-> count_ e = 0) by (Z.to_euclidean_division_equations; lia).
  destruct (Z.eqb_spec (count_ e mod 2 ^ 32) 0) as [H0 | H0]; cbn [negb].
  - symmetry. tauto.
  - rewrite to_int32_mod, to_int32_small, !Z.mod_small by lia. now destruct e.
Qed.

Lemma length_encoded t : zlen (decode_words (concat (map encode_tableEntry t))) = 3 * zlen t.
Proof.
  rewrite decode_encode_entries. induction t as [| e t IH]; [easy |]. cbn [map concat app length]. lia.
Qed.

Lemma initialize_encoded zlibCompress zlibDecompress t :
  (forall bytes, zlibDecompress (zlibCompress bytes) = Ok bytes) ->
  Forall (fun e => entry_ok e /\ (count_ e = 0 -> e = empty_entry)) t ->
  initialize zlibDecompress (iblt_encode zlibCompress t) (replicate (length t) empty_entry) = Ok t.
Proof.
  intros Hz Ht. unfold initialize, iblt_decode, iblt_encode. rewrite Hz. cbn [mbind result_bind mret result_ret].
  rewrite length_encoded, length_replicate, Z.eqb_refl. cbn [negb]. f_equal. now apply fill_entries_encoded.
Qed.

(** *** The tables of sets of keys *)

Lemma lxor_range n a b : 0 <= n -> 0 <= a < 2 ^ n -> 0 <= b < 2 ^ n -> 0 <= Z.lxor a b < 2 ^ n.
Proof.
  intros Hn Ha Hb. assert (H0 : 0 <= Z.lxor a b) by (apply Z.lxor_nonneg; lia). split; [exact H0 |].
  destruct (Z.eq_dec (Z.lxor a b) 0) as [-> | Hne]; [now apply Z.pow_pos_nonneg |].
  apply Z.log2_lt_pow2; [lia |]. pose proof (Z.log2_lxor a b ltac:(lia) ltac:(lia)).
  assert (Hl : forall x, 0 <= x < 2 ^ n -> Z.lxor a b <> 0 -> Z.log2 x < n \/ x = 0).
  { intros x Hx _. destruct (Z.eq_dec x 0); [now right | left; apply Z.log2_lt_pow2; lia]. }
  destruct (Hl a Ha Hne) as [Hla | ->], (Hl b Hb Hne) as [Hlb | ->]; rewrite ?Z.lxor_0_l, ?Z.lxor_0_r in *; lia.
Qed.

Lemma murmur_finish_range h len : 0 <= murmur_finish h len < 2 ^ 32.
Proof.
  unfold murmur_finish. cbv zeta. set (h2 := wrap32 (_ * 0xc2b2ae35)).
  assert (H : 0 <= h2 < 2 ^ 32) by (apply Z.mod_pos_bound; lia). clearbody h2.
  apply lxor_range; [lia | lia |]. rewrite Z.shiftr_div_pow2 by lia. change (2 ^ 16) with 65536.
  Z.to_euclidean_division_equations. lia.
Qed.

(** The entry of keys that are all counted positively: its count is their number. *)
Lemma cell_positive size keys j :
  Forall (fun k => 0 <= k < 2 ^ 32) keys -> zlen keys < 2 ^ 31 ->
  let e := cell size (map (pair 1) keys) j in
  entry_ok e /\ 0 <= count_ e <= zlen keys /\ (count_ e = 0 -> e = empty_entry).
Proof.
  cbv zeta. induction 1 as [| k keys Hk _ IH]; cbn [map cell length]; intros Hl.
  - unfold entry_ok. repeat split; easy.
  - destruct IH as ((H1 & H2 & H3) & H4 & H5); [lia |]. destruct (in_bucket size k j).
    + unfold entry_ok, bump. cbn [count_ keySum_ keyCheck_]. rewrite to_int32_small by lia.
      pose proof (lxor_range 32 (keySum_ (cell size (map (pair 1) keys) j)) k ltac:(lia) H2 Hk).
      pose proof (lxor_range 32 (keyCheck_ (cell size (map (pair 1) keys) j)) (murmurHash3 N_HASHCHECK k)
        ltac:(lia) H3 (murmur_finish_range _ _)).
      repeat split; lia.
    + repeat split; try tauto; lia.
Qed.

(** A table made from the empty table by inserting 32-bit keys (fewer than 2^31) is what
    [initialize] reads from its encoding, where zlib decompresses what it compressed. *)
Theorem iblt_roundtrip zlibCompress zlibDecompress (expectedNEntries : Z) (keys : list Z) :
  (forall bytes, zlibDecompress (zlibCompress bytes) = Ok bytes) ->
  1 <= expectedNEntries -> Forall (fun k => 0 <= k < 2 ^ 32) keys -> zlen keys < 2 ^ 31 ->
  exists t, insert_all keys (InvertibleBloomLookupTable expectedNEntries) = Ok t /\
    initialize zlibDecompress (iblt_encode zlibCompress t) (InvertibleBloomLookupTable expectedNEntries) = Ok t.
Proof.
  intros Hz Hn%table_size_min Hk Hl. unfold InvertibleBloomLookupTable. set (size := Z.to_nat _) in *.
  exists (table_of size (map (pair 1) keys)). split.
  - rewrite empty_table, insert_all_table, app_nil_r by exact Hn. reflexivity.
  - rewrite <- (length_table_of size (map (pair 1) keys)) at 2. apply initialize_encoded; [exact Hz |].
    apply Forall_forall. intros e (j & -> & _)%list_elem_of_fmap.
    destruct (cell_positive (Z.of_nat size) keys j Hk Hl) as (H1 & _ & H2). now split.
Qed.

Lemma iblt_roundtrip_witness :
  exists t, insert_all [3; 1000000; 77] (InvertibleBloomLookupTable 5) = Ok t /\
    initialize (fun bytes => Ok (rev bytes)) (iblt_encode (@rev Z) t) (InvertibleBloomLookupTable 5) = Ok t.
Proof.
  apply (iblt_roundtrip (@rev Z) (fun bytes => Ok (rev bytes)) 5 [3; 1000000; 77]).
  - intros bytes. f_equal. apply rev_involutive.
  - lia.
  - repeat constructor; lia.
  - cbn. lia.
Defined.
