(* ===== verification/Publisher.v ===== *)
(** * Publishing an object in segments

    The storage src/in-memory-storage/in-memory-storage-retaining.cpp and the publisher
    src/sync/detail/psync-segment-publisher.cpp, which cuts content into Data packets, sends the one that
    was asked for and keeps them all for a while. *)

From stdpp Require Import base list numbers option strings gmap sorting.
From Stdlib Require Import ZArith Lia.
From S2P Require Import Prelude Order Actions Encoder Name ChangeCounter Data Interest SegmentFetcher.
Open Scope Z_scope.

(** ** Maps by name

    A [std::map] with names as keys is a finite map: of the names that the constructors make, [compare]
    is zero for equal names only ([component_compare_eq]). It is iterated in the order of names. *)

#[export] Instance ComponentType_countable : Countable ComponentType.
Proof.
  refine (inj_countable' (fun t => type_code t) (fun z =>
    if decide (z = 1) then IMPLICIT_SHA256_DIGEST else if decide (z = 2) then PARAMETERS_SHA256_DIGEST
    else if decide (z = 8) then GENERIC else OTHER_CODE) _). now intros [].
Defined.

#[export] Instance Component_countable : Countable Component.
Proof.
  refine (inj_countable' (fun c => (type_ c, otherTypeCode_ c, value_ c)) (fun '(t, o, v) => mkComponent t o v) _).
  now intros [].
Defined.

Definition name_le (a b : Name) : Prop := name_lex a b <= 0.
#[export] Instance name_le_dec a b : Decision (name_le a b).
Proof. unfold name_le. apply _. Defined.

Definition key_le {V} (a b : Name * V) : Prop := name_le a.1 b.1.
#[export] Instance key_le_dec {V} (a b : Name * V) : Decision (key_le a b).
Proof. unfold key_le. apply _. Defined.

(** The entries of a map in the order of the iteration. *)
Definition in_order {V} (m : gmap Name V) : list (Name * V) := merge_sort key_le (map_to_list m).

Lemma elem_of_in_order {V} (m : gmap Name V) k v : (k, v) ∈ in_order m <-> m !! k = Some v.
Proof. unfold in_order. rewrite merge_sort_Permutation. apply elem_of_map_to_list. Qed.

(** ** The storage *)

(** Packets by their full name. *)
Abbreviation Storage := (gmap Name DataValue).

Section Storage.
(** [Data::getFullName], whose encoding and SHA-256 are parameters in the model of Data. *)
Context (getFullName : DataValue -> Name).

Definition storage_insert (data : DataValue) (cache_ : Storage) : Storage := <[getFullName data := data]> cache_.

(** The first packet with the name as a prefix. *)
Definition storage_find (name : Name) (cache_ : Storage) : option DataValue :=
  match List.filter (fun e => name_match name e.1) (in_order cache_) with
  | [] => None
  | e :: _ => Some e.2
  end.

(** From the lower bound of the prefix, as long as it is a prefix. *)
Fixpoint skip_before (prefix : Name) (entries : list (Name * DataValue)) : list (Name * DataValue) :=
  match entries with
  | [] => []
  | e :: entries' => if name_lex e.1 prefix <? 0 then skip_before prefix entries' else entries
  end.
Fixpoint erase_while (prefix : Name) (entries : list (Name * DataValue)) (cache_ : Storage) : Storage :=
  match entries with
  | [] => cache_
  | e :: entries => if name_match prefix e.1 then erase_while prefix entries (delete e.1 cache_) else cache_
  end.
Definition storage_remove (prefix : Name) (cache_ : Storage) : Storage :=
  erase_while prefix (skip_before prefix (in_order cache_)) cache_.

(** ** The publisher *)

Inductive PublisherCall :=
| PutData (data : DataValue)
| CallLaterRemove (delay : Z) (name : Name).

Abbreviation PublisherOp := (Act Storage PublisherCall).

(** A half of the maximum packet size. *)
Definition maxPacketSize : Z := getMaxNdnPacketSize / 2.

(** [sign] of the key chain, and the clock. *)
Context (sign : DataValue -> DataValue).

Definition MetaInfo_initial : MetaInfoFields := mkMetaInfoFields (-1) 0 (-1) (-1) (generic []).

Definition segment_data (segmentName : Name) (content : list Z) (freshnessPeriod : Z) (finalBlockId : Component) :
    DataValue :=
  let data := Data_new segmentName MetaInfo_initial in
  let data := Data_setContent (Some content) data in
  let data := Data_getMetaInfo (MetaInfo_setFreshnessPeriod freshnessPeriod) data in
  data_value (Data_getMetaInfo (MetaInfo_setFinalBlockId finalBlockId) data).

(** One turn of the loop; the segment is not empty, except the first one of empty content. *)
Definition publish_segment (segmentPrefix : Name) (interestSegment segmentNo freshnessPeriod : Z)
    (finalBlockId : Component) (segment : list Z) : PublisherOp unit :=
  component ← returns (fromSegment segmentNo);
  let segmentName := append segmentPrefix component in
  let data := sign (segment_data segmentName segment freshnessPeriod finalBlockId) in
  _ ← (if interestSegment =? segmentNo then perform (PutData data) else mret tt);
  _ ← self_modify (storage_insert data);
  perform (CallLaterRemove freshnessPeriod segmentName).

(** The loop, which makes at least one segment; the bound on the turns is the size of the content. *)
Fixpoint publish_loop (fuel : nat) (segmentPrefix : Name) (interestSegment segmentNo freshnessPeriod : Z)
    (finalBlockId : Component) (content : list Z) : PublisherOp unit :=
  match fuel with
  | O => throw_exn (Failed OutOfFuel)
  | S fuel =>
      let n := Z.to_nat maxPacketSize in
      _ ← publish_segment segmentPrefix interestSegment segmentNo freshnessPeriod finalBlockId (take n content);
      match drop n content with
      | [] => mret tt
      | content =>
          publish_loop fuel segmentPrefix interestSegment (wrap64 (segmentNo + 1)) freshnessPeriod finalBlockId content
      end
  end.

Definition interest_segment (interestName : Name) : result exn Z :=
  last ← name_get interestName (-1);
  if isSegment last then toSegment last else mret 0.

Definition publish (now : Z) (interestName dataName : Name) (content : list Z) (freshnessPeriod : Z) :
    PublisherOp unit :=
  interestSegment ← returns (interest_segment interestName);
  let totalSegments := zlen content / maxPacketSize in
  finalBlockId ← returns (fromSegment totalSegments);
  version ← returns (fromVersion now);
  publish_loop (S (length content)) (append dataName version) interestSegment 0 freshnessPeriod finalBlockId content.

Definition replyFromStore (interestName : Name) : PublisherOp bool :=
  cache_ ← self_get;
  match storage_find interestName cache_ with
  | Some data => _ ← perform (PutData data); mret true
  | None => mret false
  end.
End Storage.

(** ** What is published *)

(** The content in pieces of at most [maxPacketSize] bytes, at least one. *)
Fixpoint segments_of (fuel : nat) (content : list Z) : list (list Z) :=
  match fuel with
  | O => []
  | S fuel =>
      let n := Z.to_nat maxPacketSize in
      take n content ::
      match drop n content with
      | [] => []
      | content => segments_of fuel content
      end
  end.
Definition segments (content : list Z) : list (list Z) := segments_of (S (length content)) content.

Lemma segments_concat fuel : forall content,
  (length content < fuel)%nat -> concat (segments_of fuel content) = content.
Proof.
  induction fuel as [| fuel IH]; intros content Hf; [lia |]. cbn [segments_of].
  set (n := Z.to_nat maxPacketSize). assert (Hn : (0 < n)%nat) by (vm_compute; lia). clearbody n.
  rewrite <- (take_drop n content) at 3. destruct (drop n content) as [| b rest] eqn:E; cbn [concat]; [easy |].
  rewrite IH; [easy |]. rewrite <- E, length_drop.
  destruct content; [now rewrite drop_nil in E | cbn in *; lia].
Qed.

(** The number of segments: what is left over makes one more. *)
Lemma segments_length fuel : forall content,
  (length content < fuel)%nat ->
  zlen (segments_of fuel content) =
  if decide (content <> [] /\ zlen content mod maxPacketSize = 0) then zlen content / maxPacketSize
  else zlen content / maxPacketSize + 1.
Proof.
  induction fuel as [| fuel IH]; intros content Hf; [lia |]. cbn [segments_of].
  change maxPacketSize with 4400 in *. change (Z.to_nat 4400) with 4400%nat. remember 4400%nat as n eqn:Hn.
  assert (Hd : length (drop n content) = (length content - n)%nat) by apply length_drop.
  destruct (drop n content) as [| b rest] eqn:E; cbn [length] in *.
  - destruct content as [| b content]; [easy |]. assert (0 < length (b :: content))%nat by (cbn; lia).
    set (l := zlen (b :: content)) in *. assert (Hl : 0 < l <= 4400) by lia. change (Z.of_nat 1) with 1.
    assert (Hne : b :: content <> []) by easy. clearbody l.
    case_decide as Hc; [destruct Hc as [_ Hc] | assert (l mod 4400 <> 0) by tauto; clear Hc];
      Z.to_euclidean_division_equations; lia.
  - rewrite Nat2Z.inj_succ. rewrite IH by (cbn; lia). cbn [length].
    set (m := Z.of_nat (S (length rest))) in *.
    assert (Hl : zlen content = m + 1 * 4400) by lia.
    rewrite Hl, Z_mod_plus_full, Z.div_add by lia.
    assert (content <> []) by (intros ->; cbn in Hl; lia).
    repeat case_decide; try lia; exfalso; intuition congruence.
Qed.

Section Published.
Context (getFullName : DataValue -> Name) (sign : DataValue -> DataValue).
Context (segmentPrefix : Name) (freshnessPeriod : Z) (finalBlockId : Component).

Definition packet_of (k : Z) (segment : list Z) : DataValue :=
  sign (segment_data (append segmentPrefix (segment_component k)) segment freshnessPeriod finalBlockId).

Fixpoint packets_from (k : Z) (segs : list (list Z)) : list DataValue :=
  match segs with
  | [] => []
  | segment :: segs => packet_of k segment :: packets_from (k + 1) segs
  end.

Fixpoint publish_calls (interestSegment k : Z) (segs : list (list Z)) : list PublisherCall :=
  match segs with
  | [] => []
  | segment :: segs =>
      (if interestSegment =? k then [PutData (packet_of k segment)] else []) ++
      CallLaterRemove freshnessPeriod (append segmentPrefix (segment_component k)) ::
      publish_calls interestSegment (k + 1) segs
  end.

Definition insert_packets (packets : list DataValue) (s : Storage) : Storage :=
  fold_left (fun s d => storage_insert getFullName d s) packets s.

Lemma publish_segment_spec interestSegment k segment s :
  publish_segment getFullName sign segmentPrefix interestSegment k freshnessPeriod finalBlockId segment s =
  (storage_insert getFullName (packet_of k segment) s,
   (if interestSegment =? k then [PutData (packet_of k segment)] else []) ++
   [CallLaterRemove freshnessPeriod (append segmentPrefix (segment_component k))], Ok tt).
Proof.
  unfold publish_segment. rewrite fromSegment_component, act_returns_bind. cbv zeta. unfold packet_of.
  now destruct (interestSegment =? k).
Qed.

Lemma publish_loop_spec fuel : forall k content interestSegment s,
  (length content < fuel)%nat -> 0 <= k -> k + zlen content < 2 ^ 64 ->
  publish_loop getFullName sign fuel segmentPrefix interestSegment k freshnessPeriod finalBlockId content s =
  (insert_packets (packets_from k (segments_of fuel content)) s,
   publish_calls interestSegment k (segments_of fuel content), Ok tt).
Proof.
  induction fuel as [| fuel IH]; intros k content interestSegment s Hf Hk Hw; [lia |].
  cbn [publish_loop segments_of]. set (n := Z.to_nat maxPacketSize) in *.
  assert (Hn : (0 < n)%nat) by (vm_compute; lia). clearbody n.
  rewrite (act_bind_ok _ _ _ _ _ _ (publish_segment_spec interestSegment k (take n content) s)).
  destruct (drop n content) as [| b rest] eqn:E.
  - cbn. now destruct (interestSegment =? k).
  - assert (Hl : (length (b :: rest) < length content)%nat).
    { rewrite <- E, length_drop. destruct content; [now rewrite drop_nil in E | cbn; lia]. }
    rewrite wrap64_small by lia. rewrite IH by lia. cbn [packets_from publish_calls insert_packets fold_left].
    now rewrite <- app_assoc.
Qed.

Lemma packets_lookup segs : forall k j,
  packets_from k segs !! j = packet_of (k + Z.of_nat j) <$> segs !! j.
Proof.
  induction segs as [| c segs IH]; intros k j; [easy |]. destruct j as [| j]; cbn [packets_from lookup list_lookup].
  - cbn. now rewrite Z.add_0_r.
  - change ((c :: segs) !! S j) with (segs !! j). change (packets_from k (c :: segs) !! S j) with (packets_from (k + 1) segs !! j).
    rewrite IH. replace (k + 1 + Z.of_nat j) with (k + Z.of_nat (S j)) by lia. reflexivity.
Qed.

Lemma packets_length segs : forall k, length (packets_from k segs) = length segs.
Proof. induction segs as [| c segs IH]; intros k; cbn; [easy | now rewrite IH]. Qed.
End Published.

(** ** From the publisher to a fetch *)

Definition version_component (now : Z) : Component := generic (0xFD :: nonNegativeInteger_bytes now).

Lemma fromVersion_component now : fromVersion now = Ok (version_component now).
Proof. apply fromNumberWithMarker_bytes. unfold is_byte. lia. Qed.

Lemma publish_calls_put sign prefix fresh final n segs d : forall k,
  PutData d ∈ publish_calls sign prefix fresh final n k segs <->
  k <= n /\ packets_from sign prefix fresh final k segs !! Z.to_nat (n - k) = Some d.
Proof.
  induction segs as [| c segs IH]; intros k; cbn [publish_calls packets_from].
  - rewrite elem_of_nil, lookup_nil. split; [easy | now intros [_ ?]].
  - rewrite elem_of_app, elem_of_cons, IH. destruct (Z.eqb_spec n k) as [-> | Hne].
    + rewrite Z.sub_diag. cbn. rewrite list_elem_of_singleton. split.
      * intros [[= ->] | [? | [? _]]]; [split; [lia | easy] | easy | lia].
      * intros [_ [= ->]]. now left.
    + rewrite elem_of_nil. destruct (Z_lt_dec k n) as [Hlt | Hge].
      * replace (Z.to_nat (n - k)) with (S (Z.to_nat (n - (k + 1)))) by lia. cbn. intuition (congruence || lia).
      * split; [intros [? | [? | [? _]]] | intros [? _]]; try easy; lia.
Qed.

Section FromPublisher.
Context (sign : DataValue -> DataValue) (verifySegment : DataValue -> bool).
(** Signing sets the signature only, and what is signed is verified. *)
Hypothesis sign_keeps : forall d,
  data_name (sign d) = data_name d /\ data_content (sign d) = data_content d /\
  data_metaInfo (sign d) = data_metaInfo d.
Hypothesis sign_verified : forall d, verifySegment (sign d) = true.

Context (now : Z) (dataName : Name) (content : list Z) (freshnessPeriod : Z).

Definition segmentPrefix_of : Name := append dataName (version_component now).
Definition finalBlockId_of : Component := segment_component (zlen content / maxPacketSize).

(** The packets that are published. *)
Definition published_packets : list DataValue :=
  packets_from sign segmentPrefix_of freshnessPeriod finalBlockId_of 0 (segments content).

Lemma publish_spec getFullName interestName interestSegment s :
  interest_segment interestName = Ok interestSegment -> zlen content < 2 ^ 63 ->
  publish getFullName sign now interestName dataName content freshnessPeriod s =
  (insert_packets getFullName published_packets s,
   publish_calls sign segmentPrefix_of freshnessPeriod finalBlockId_of interestSegment 0 (segments content), Ok tt).
Proof.
  intros Hi Hc. unfold publish. rewrite Hi, act_returns_bind, fromSegment_component, act_returns_bind,
    fromVersion_component, act_returns_bind.
  apply publish_loop_spec; lia.
Qed.

Lemma packet_fields k segment :
  let d := packet_of sign segmentPrefix_of freshnessPeriod finalBlockId_of k segment in
  data_name d = append segmentPrefix_of (segment_component k) /\ data_content d = Some segment /\
  finalBlockId_ (data_metaInfo d) = finalBlockId_of.
Proof.
  cbv zeta. unfold packet_of. destruct (sign_keeps (segment_data (append segmentPrefix_of (segment_component k)) segment
    freshnessPeriod finalBlockId_of)) as (-> & -> & ->). now split.
Qed.

Lemma packet_lookup j d :
  published_packets !! j = Some d ->
  exists segment, segments content !! j = Some segment /\
    d = packet_of sign segmentPrefix_of freshnessPeriod finalBlockId_of (Z.of_nat j) segment.
Proof.
  unfold published_packets. rewrite packets_lookup, Z.add_0_l. intros (segment & -> & Hs)%fmap_Some. now exists segment.
Qed.

Lemma contents_of_packets_from k segs :
  contents_of (map data_content (packets_from sign segmentPrefix_of freshnessPeriod finalBlockId_of k segs)) = concat segs.
Proof.
  revert k. induction segs as [| c segs IH]; intros k; [easy |]. unfold contents_of in IH |- *. cbn [packets_from map concat].
  rewrite IH. destruct (packet_fields k c) as (_ & -> & _). reflexivity.
Qed.

Lemma contents_of_packets : contents_of (map data_content published_packets) = content.
Proof. unfold published_packets. rewrite contents_of_packets_from. apply segments_concat, Nat.lt_succ_diag_r. Qed.

Lemma length_packets :
  zlen published_packets =
  if decide (content <> [] /\ zlen content mod maxPacketSize = 0) then zlen content / maxPacketSize
  else zlen content / maxPacketSize + 1.
Proof. unfold published_packets, segments. rewrite packets_length. apply (segments_length (S (length content)) content), Nat.lt_succ_diag_r. Qed.

Lemma packets_published :
  name_fits (segmentPrefix_of ++ [generic []]) -> zlen content < 2 ^ 31 ->
  content = [] \/ zlen content mod maxPacketSize <> 0 ->
  published verifySegment segmentPrefix_of published_packets.
Proof.
  intros Hfits Hsize Hrest. pose proof length_packets as Hlen. rewrite decide_False in Hlen by tauto.
  change maxPacketSize with 4400 in Hlen, Hrest.
  assert (Hle : zlen content / 4400 + 1 < 2 ^ 31) by (Z.to_euclidean_division_equations; lia). split.
  - easy.
  - exact Hfits.
  - apply Forall_forall. intros d Hd. apply list_elem_of_lookup in Hd as [j Hj].
    apply packet_lookup in Hj as (segment & _ & ->). apply sign_verified.
  - intros k d Hk. apply packet_lookup in Hk as (segment & _ & ->).
    now destruct (packet_fields (Z.of_nat k) segment) as (-> & _ & _).
  - intros k d Hk. right. apply packet_lookup in Hk as (segment & _ & ->).
    destruct (packet_fields (Z.of_nat k) segment) as (_ & _ & ->). unfold finalBlockId_of.
    f_equal. change maxPacketSize with 4400. lia.
  - rewrite contents_of_packets. exact Hsize.
  - lia.
Qed.
End FromPublisher.

(** C27: published content arrives. Content whose size is not a multiple of the size of a segment, or is zero, is
    published in segments of which the one that was asked for is sent at once and all are kept; a
    fetch whose first Interest is answered with any of them, and the later ones with the segment
    they ask for, gives the application the content. *)
Theorem publish_fetch (getFullName : DataValue -> Name) (sign : DataValue -> DataValue)
    (verifySegment : DataValue -> bool) (now : Z) (interestName dataName : Name) (content : list Z)
    (freshnessPeriod interestSegment : Z) (s : Storage) :
  (forall d, data_name (sign d) = data_name d /\ data_content (sign d) = data_content d /\
    data_metaInfo (sign d) = data_metaInfo d) ->
  (forall d, verifySegment (sign d) = true) ->
  interest_segment interestName = Ok interestSegment ->
  name_fits (append dataName (version_component now) ++ [generic []]) ->
  zlen content < 2 ^ 31 -> content = [] \/ zlen content mod maxPacketSize <> 0 ->
  exists packets calls,
    publish getFullName sign now interestName dataName content freshnessPeriod s =
      (insert_packets getFullName packets s, calls, Ok tt) /\
    (forall d, PutData d ∈ calls <-> 0 <= interestSegment /\ packets !! Z.to_nat interestSegment = Some d) /\
    forall baseInterest j d, packets !! j = Some d ->
      f_outcome (fetch verifySegment baseInterest (map Received (first_answer j d ++ packets)))
      = [CallOnComplete content].
Proof.
  intros Hkeeps Hver Hi Hfits Hsize Hrest.
  exists (published_packets sign now dataName content freshnessPeriod).
  eexists. split; [apply publish_spec; [exact Hi | lia] |]. split.
  - intros d. rewrite publish_calls_put, Z.sub_0_r. reflexivity.
  - intros baseInterest j d Hd.
    rewrite (fetch_complete verifySegment _ _ (packets_published sign verifySegment Hkeeps Hver now dataName
      content freshnessPeriod Hfits Hsize Hrest) baseInterest j d Hd).
    cbn [f_outcome]. now rewrite (contents_of_packets sign Hkeeps).
Qed.

(** Content of just the size of some segments does not arrive. The final segment is computed as the size
    divided by the size of a segment, one more than the last one there is: of content whose size is
    a positive multiple of the size of a segment no fetch is complete, whatever packets of it arrive,
    and how often. *)
Theorem publish_multiple_incomplete (sign : DataValue -> DataValue) (verifySegment : DataValue -> bool)
    (now : Z) (dataName : Name) (content : list Z) (freshnessPeriod : Z)
    (baseInterest : Interest) (conclusions : list Conclusion) :
  (forall d, data_name (sign d) = data_name d /\ data_content (sign d) = data_content d /\
    data_metaInfo (sign d) = data_metaInfo d) ->
  content <> [] -> zlen content mod maxPacketSize = 0 -> zlen content < 2 ^ 63 ->
  (forall d, Received d ∈ conclusions -> d ∈ published_packets sign now dataName content freshnessPeriod) ->
  forall received, CallOnComplete received ∉ f_outcome (fetch verifySegment baseInterest conclusions).
Proof.
  intros Hkeeps Hne Hmod Hsize Hall content' Hin.
  pose proof (fetch_all_ok verifySegment baseInterest conclusions) as [_ _ Hc].
  destruct (Hc content' Hin) as (ds & d & Hsub & [_ Hseg] & _ & Hfinal).
  destruct (Hseg (length ds) d) as (_ & _ & Hk); [now rewrite list_lookup_middle |].
  assert (Hd : d ∈ published_packets sign now dataName content freshnessPeriod).
  { apply Hall. assert (Hr : d ∈ received conclusions)
      by (apply (sublist_subseteq _ _ Hsub), elem_of_app; right; now left).
    unfold received in Hr. apply list_elem_of_omap in Hr as ([d' |] & Hd' & [= ->]). exact Hd'. }
  apply list_elem_of_lookup in Hd as [j Hj]. pose proof (lookup_lt_Some _ _ _ Hj) as Hlt.
  pose proof (length_packets sign now dataName content freshnessPeriod) as Hlen. rewrite decide_True in Hlen by tauto.
  apply packet_lookup in Hj as (segment & _ & ->).
  destruct (packet_fields sign Hkeeps now dataName content freshnessPeriod (Z.of_nat j) segment) as (Hname & _ & Hf).
  rewrite Hf in Hfinal. rewrite Hname in Hk. unfold append in Hk. rewrite last_last in Hk.
  unfold finalBlockId_of in Hfinal. change maxPacketSize with 4400 in *.
  assert (Hb : 0 <= zlen content / 4400 < 2 ^ 63) by (Z.to_euclidean_division_equations; lia).
  rewrite toSegment_component in Hfinal by lia. rewrite toSegment_component in Hk by lia.
  injection Hfinal as Hfinal. injection Hk as Hk. lia.
Qed.

(** *** Instances *)

Definition example_sign (d : DataValue) : DataValue := (d.1, ((DigestSha256Signature (Some [1]), d.2.1.2), d.2.2)).
Definition example_fullName (d : DataValue) : Name := append (data_name d) (mkComponent IMPLICIT_SHA256_DIGEST (-1) [7]).

Lemma publish_fetch_witness :
  exists packets calls,
    publish example_fullName example_sign 1000 [generic [115]] [generic [115]] [1; 2; 3] 0 ∅ =
      (insert_packets example_fullName packets ∅, calls, Ok tt) /\
    forall baseInterest j d, packets !! j = Some d ->
      f_outcome (fetch (fun _ => true) baseInterest (map Received (first_answer j d ++ packets)))
      = [CallOnComplete [1; 2; 3]].
Proof.
  destruct (publish_fetch example_fullName example_sign (fun _ => true) 1000 [generic [115]] [generic [115]] [1; 2; 3] 0 0 ∅)
    as (packets & calls & H1 & _ & H3).
  - intros d. now split.
  - reflexivity.
  - reflexivity.
  - unfold name_fits. vm_compute. reflexivity.
  - cbn. lia.
  - right. vm_compute. discriminate.
  - exists packets, calls. now split.
Defined.

Lemma publish_multiple_incomplete_witness :
  let packets := published_packets example_sign 1000 [generic [115]] (replicate 4400 7) 0 in
  CallOnComplete (replicate 4400 7) ∉
    f_outcome (fetch (fun _ => true) (Interest_new [generic [115]] true true) (map Received packets)).
Proof.
  apply (publish_multiple_incomplete example_sign (fun _ => true) 1000 [generic [115]] (replicate 4400 7) 0).
  - intros d. now split.
  - discriminate.
  - vm_compute. reflexivity.
  - rewrite length_replicate. lia.
  - intros d Hd. apply list_elem_of_fmap in Hd as (d' & [= ->] & Hd'). exact Hd'.
Defined.
