(* ===== verification/PSyncState.v ===== *)
(** * The content of sync packets

    src/sync/detail/psync-state.cpp: a sequence of names in one TLV block. *)

From stdpp Require Import base list numbers option strings.
From Stdlib Require Import ZArith Lia.
From S2P Require Import Prelude Encoder Decoder Blocks Name TlvName WireFormat.
Open Scope Z_scope.

Definition Tlv_PSyncContent : Z := 128.

(** The error of a name is thrown through the encoder: [get] has this one only. *)
Definition encode_content_name (name : Name) : writer :=
  match Name_get name [] with
  | Ok nameLite => only (encodeTlvName nameLite)
  | Err _ => fun _ =>
      Err NDN_ERROR_attempt_to_add_a_component_past_the_maximum_number_of_components_allowed_in_the_name
  end.

Fixpoint encodeContent (content_ : list Name) : writer :=
  match content_ with
  | [] => fun encoder => Ok encoder
  | name :: content_ => andThen (encode_content_name name) (encodeContent content_)
  end.

Definition state_wireEncode (content_ : list Name) : result exn (list Z) :=
  throw_error (TlvEncoder_run 256 (writeNestedTlv Tlv_PSyncContent (encodeContent content_) false)).

(** The loop ends at the end of the input. A name takes at least two bytes. *)
Fixpoint decodeContent (fuel : nat) (inputLength : Z) (content_ : list Name) : Dec (list Name) := fun decoder =>
  if d_offset decoder <? inputLength then
    match fuel with
    | O => Err OutOfFuel
    | S fuel =>
        ('(name, _) ← decodeTlvName max_components; decodeContent fuel inputLength (content_ ++ [name])) decoder
    end
  else Ok (content_, decoder).

Definition state_wireDecode (input : list Z) : result exn (list Name) :=
  '(content, _) ← throw_failure
    ((endOffset ← readNestedTlvsStart Tlv_PSyncContent;
      content ← decodeContent (S (length input)) (zlen input) [];
      _ ← finishNestedTlvs endOffset;
      mret content) (TlvDecoder_initialize input));
  mret content.

(** ** Round trip *)

Definition content_blocks (content : list Name) : list Block := map name_block content.

Lemma zlen_name_tlv name : 2 <= zlen (name_tlv name).
Proof.
  unfold name_tlv, block_bytes. rewrite zlen_tlv_bytes. pose proof (zlen_varNumber_bytes (name_block name).1).
  pose proof (zlen_varNumber_bytes (zlen (name_block name).2)). lia.
Qed.

Lemma emits_encodeContent content :
  Forall wire_name content -> zlen (blocks_bytes (content_blocks content)) < 2 ^ 63 ->
  Emits (encodeContent content) (blocks_bytes (content_blocks content)).
Proof.
  induction 1 as [| name content Hn _ IH]; intros Hl.
  - apply emits_nothing.
  - cbn [content_blocks map encodeContent] in *. rewrite blocks_bytes_cons in *. rewrite length_app in Hl.
    fold (content_blocks content) in *. apply emits_andThen; [| apply IH; lia].
    unfold encode_content_name. rewrite Name_get_ok by exact Hn. apply emits_name; [apply Hn |].
    unfold name_tlv, block_bytes. lia.
Qed.

Lemma reads_decodeContent content e acc fuel :
  Forall wire_name content -> (length content < fuel)%nat ->
  Reads (decodeContent fuel e acc) (acc ++ content) e (content_blocks content) [].
Proof.
  intros H. revert acc fuel. induction H as [| name content Hn _ IH]; intros acc fuel Hf d rest Hd.
  - exists d. rewrite app_nil_r. split; [| easy]. pose proof (at_end _ _ _ _ Hd) as He. cbn in He.
    destruct fuel; cbn [decodeContent]; (destruct (Z.ltb_spec (d_offset d) e); [lia | easy]).
  - destruct fuel as [| fuel]; [easy |]. cbn [decodeContent length content_blocks map] in *.
    pose proof (at_not_end _ _ _ _ _ Hd) as Hlt. rewrite (proj2 (Z.ltb_lt _ _) Hlt).
    destruct (reads_name name max_components e (map name_block content)) with (d := d) (rest := rest)
      as (d1 & H1 & Hd1 & Hi1); [apply Hn | apply Hn | exact Hd |].
    rewrite (dec_bind_ok _ _ _ _ _ H1).
    destruct (IH (acc ++ [name]) fuel ltac:(lia) d1 rest Hd1) as (d2 & H2 & Hd2 & Hi2).
    exists d2. rewrite H2, <- app_assoc. split; [easy |]. split; [easy | congruence].
Qed.

(** The encoding of a state. *)
Definition state_bytes (content : list Name) : list Z :=
  tlv_bytes Tlv_PSyncContent (blocks_bytes (content_blocks content)).

Definition state_ok (content : list Name) : Prop :=
  Forall wire_name content /\ zlen (state_bytes content) < 2 ^ 63.

Lemma state_wireEncode_ok content : state_ok content -> state_wireEncode content = Ok (state_bytes content).
Proof.
  intros [Hn Hl]. unfold state_wireEncode, state_bytes in *. pose proof (zlen_tlv_bytes Tlv_PSyncContent
    (blocks_bytes (content_blocks content))) as Ht.
  pose proof (zlen_varNumber_bytes Tlv_PSyncContent). pose proof (zlen_varNumber_bytes (zlen (blocks_bytes (content_blocks content)))).
  pose proof (emits_writeNestedTlv Tlv_PSyncContent _ _ false (emits_encodeContent content Hn ltac:(lia))) as He.
  rewrite (TlvEncoder_run_emits 256 _ _ ltac:(lia) He); [easy | exact Hl].
Qed.

Lemma content_blocks_ok content : Forall type_ok (content_blocks content).
Proof. apply Forall_map, Forall_forall. intros name _. unfold type_ok. cbn. unfold ndn_Tlv_Name. lia. Qed.

Lemma content_length content : (length content <= length (blocks_bytes (content_blocks content)))%nat.
Proof.
  induction content as [| name content IH]; [easy |]. cbn [content_blocks map length].
  rewrite blocks_bytes_cons, length_app. pose proof (zlen_name_tlv name). unfold name_tlv, block_bytes in *.
  unfold content_blocks in IH. lia.
Qed.

Lemma state_wireDecode_ok content : state_ok content -> state_wireDecode (state_bytes content) = Ok content.
Proof.
  intros [Hn Hl]. set (b := (Tlv_PSyncContent, blocks_bytes (content_blocks content)) : Block).
  assert (Hb : state_bytes content = block_bytes b) by easy.
  assert (Hat : At (TlvDecoder_initialize (state_bytes content)) (zlen (block_bytes b)) [b] []).
  { pose proof (at_decoder_at [] b []) as H. cbn [app length] in H. rewrite app_nil_r in H. unfold decoder_at in H.
    cbn [app] in H. rewrite app_nil_r in H. apply H; [now rewrite <- Hb | now vm_compute]. }
  destruct (at_inside _ _ _ _ _ _ Hat (content_blocks_ok content)) as (d1 & e1 & Hs & Hd1 & Hi1 & He & Hout).
  assert (Hend : e1 = zlen (state_bytes content)) by (rewrite He; reflexivity).
  pose proof (content_length content) as Hlen. pose proof (zlen_tlv_bytes Tlv_PSyncContent
    (blocks_bytes (content_blocks content))) as Ht. fold (state_bytes content) in Ht.
  destruct (reads_decodeContent content e1 [] (S (length (state_bytes content))) Hn ltac:(lia) d1 _ Hd1)
    as (d2 & H2 & Hd2 & Hi2).
  unfold state_wireDecode. rewrite (dec_bind_ok _ _ _ _ _ Hs), <- Hend, (dec_bind_ok _ _ _ _ _ H2),
    (dec_bind_ok _ _ _ _ _ (finish_at _ _ _ Hd2)). reflexivity.
Qed.

(** What is encoded is decoded. *)
Lemma state_roundtrip content :
  state_ok content -> exists bytes, state_wireEncode content = Ok bytes /\ state_wireDecode bytes = Ok content.
Proof. intros H. exists (state_bytes content). split; [now apply state_wireEncode_ok | now apply state_wireDecode_ok]. Qed.
