(* ===== verification/PSync.v ===== *)
(** * Full synchronization of names

    The producer base of src/sync/psync-producer-base.cpp and the full synchronization of
    src/sync/full-psync2017.cpp: a node sends the table of the names it has in the name of a sync Interest,
    and a node that has names the table has not answers with them. *)

From stdpp Require Import base list numbers option strings gmap sorting.
From Stdlib Require Import ZArith Lia.
From S2P Require Import Prelude Actions Encoder Name NameUri ChangeCounter Data WireFormat Interest SegmentFetcher.
From S2P Require Import Iblt Publisher PSyncState.
Open Scope Z_scope.

(** [isRemoved_] is a field of the object that the table and the delayed call share. *)
Record PendingEntryInfoFull := mkPendingEntry {
  pe_iblt_ : HashTable;
  isRemoved_ : bool
}.

Inductive LaterCall :=
| LaterSendSyncInterest
| LaterRemovePending (name : Name) (entry : nat)
| LaterRemoveStored (name : Name).

(** Calls of the face, and of the application: a fetch is started with an Interest of a name and a lifetime;
    the last one is of the synchronization with users. *)
Inductive PSyncCall :=
| SyncPut (data : DataValue)
| SyncLater (delay : Z) (call : LaterCall)
| FetchSync (interestName : Name) (interestLifetime : Z)
| CallOnNamesUpdate (names : list Name)
| CallOnUpdate (updates : list (Name * Z * Z)).

Section PSync.
(** The state of the application that the callbacks are of. *)
Context {U : Type}.

(** The pending entries are indices of the objects that were made. *)
Record FullPSync := mkFullPSync {
  iblt_ : HashTable;
  nameToHash_ : gmap Name Z;
  hashToName_ : gmap Z Name;
  pendingEntries_ : gmap Name nat;
  entry_objects : list PendingEntryInfoFull;
  outstandingInterestName_ : Name;
  storage_ : Storage;
  app_ : U
}.

Abbreviation PSyncOp := (Act FullPSync PSyncCall).

Definition set_tables (iblt : HashTable) (nameToHash : gmap Name Z) (hashToName : gmap Z Name) (s : FullPSync) : FullPSync :=
  mkFullPSync iblt nameToHash hashToName (pendingEntries_ s) (entry_objects s) (outstandingInterestName_ s)
    (storage_ s) (app_ s).
Definition set_pending (pendingEntries : gmap Name nat) (objects : list PendingEntryInfoFull) (s : FullPSync) : FullPSync :=
  mkFullPSync (iblt_ s) (nameToHash_ s) (hashToName_ s) pendingEntries objects (outstandingInterestName_ s)
    (storage_ s) (app_ s).
Definition set_outstanding (name : Name) (s : FullPSync) : FullPSync :=
  mkFullPSync (iblt_ s) (nameToHash_ s) (hashToName_ s) (pendingEntries_ s) (entry_objects s) name (storage_ s) (app_ s).
Definition set_storage (storage : Storage) (s : FullPSync) : FullPSync :=
  mkFullPSync (iblt_ s) (nameToHash_ s) (hashToName_ s) (pendingEntries_ s) (entry_objects s)
    (outstandingInterestName_ s) storage (app_ s).
Definition set_app (app : U) (s : FullPSync) : FullPSync :=
  mkFullPSync (iblt_ s) (nameToHash_ s) (hashToName_ s) (pendingEntries_ s) (entry_objects s)
    (outstandingInterestName_ s) (storage_ s) app.

(** *** The producer base *)

Definition FullPSync_new (expectedNEntries : Z) (app : U) : FullPSync :=
  mkFullPSync (InvertibleBloomLookupTable expectedNEntries) ∅ ∅ ∅ [] [] ∅ app.

Definition hash_of (name : Name) : Z := ndn_murmurHash3 N_HASHCHECK (toUri name false).

Definition insertIntoIblt (name : Name) : PSyncOp unit :=
  let newHash := hash_of name in
  _ ← self_modify (fun s =>
    set_tables (iblt_ s) (<[name := newHash]> (nameToHash_ s)) (<[newHash := name]> (hashToName_ s)) s);
  s ← self_get;
  iblt ← returns (iblt_insert newHash (iblt_ s));
  self_modify (set_tables iblt (nameToHash_ s) (hashToName_ s)).

Definition removeFromIblt (name : Name) : PSyncOp unit :=
  s ← self_get;
  match nameToHash_ s !! name with
  | None => mret tt
  | Some hash =>
      _ ← self_modify (set_tables (iblt_ s) (delete name (nameToHash_ s)) (delete hash (hashToName_ s)));
      iblt ← returns (iblt_erase hash (iblt_ s));
      self_modify (fun s => set_tables iblt (nameToHash_ s) (hashToName_ s) s)
  end.

(** [hashToName_[hash]], which makes an entry with an empty name when there is none. *)
Definition name_of_hash (hash : Z) : PSyncOp Name :=
  s ← self_get;
  match hashToName_ s !! hash with
  | Some name => mret name
  | None =>
      _ ← self_modify (set_tables (iblt_ s) (nameToHash_ s) (<[hash := []]> (hashToName_ s)));
      mret []
  end.

(** A set of hashes is iterated in ascending order. *)
Definition ascending (hashes : gset Z) : list Z := merge_sort Z.le (elements hashes).

(** *** Parameters

    [threshold_] is a half of [expectedNEntries]. The callbacks of the application are null when they
    are [None]. zlib, the full name of a packet and signing are outside; [passes] bounds the passes
    of listing a table. *)
Context (expectedNEntries syncInterestLifetime_ syncReplyFreshnessPeriod_ : Z) (syncPrefix_ : Name).
Context (zlibCompress : list Z -> list Z) (zlibDecompress : list Z -> result exn (list Z)).
Context (getFullName : DataValue -> Name) (sign : DataValue -> DataValue) (passes : nat).
Context (canAddToSyncData : option (Name -> gset Z -> PSyncOp bool)).
Context (canAddReceivedName : option (Name -> PSyncOp bool)).
Context (onNamesUpdate : list Name -> PSyncOp unit).

Definition threshold_ : Z := expectedNEntries / 2.

(** An operation of the publisher, on the storage of the node. *)
Definition with_publisher {A} (m : Act Storage PublisherCall A) : PSyncOp A := fun s =>
  let '(storage, calls, r) := m (storage_ s) in
  (set_storage storage s,
   map (fun c => match c with
                 | PutData data => SyncPut data
                 | CallLaterRemove delay name => SyncLater delay (LaterRemoveStored name)
                 end) calls, r).

(** [delay] is the half of the lifetime with the random jitter. *)
Definition sendSyncInterest (delay : Z) : PSyncOp unit :=
  s ← self_get;
  let syncInterestName := append syncPrefix_ (generic (iblt_encode zlibCompress (iblt_ s))) in
  _ ← self_modify (set_outstanding syncInterestName);
  _ ← perform (SyncLater delay LaterSendSyncInterest);
  perform (FetchSync syncInterestName syncInterestLifetime_).

(** [Name::hash] of a name of one component. *)
Definition blob_hash (value : list Z) : Z := fold_left (fun result b => wrap64 (31 * result + b)) value 1.
Definition component_hash (c : Component) : Z := wrap64 (37 * component_code c + blob_hash (value_ c)).
Definition name_hash (name : Name) : Z :=
  wrap64 (fold_left (fun hashCode c => to_int32 (37 * hashCode + component_hash c)) name 0).

(** [now] is the clock in milliseconds. *)
Definition sendSyncData (now delay : Z) (name : Name) (content : list Z) : PSyncOp unit :=
  s ← self_get;
  let nameWithIblt := append [] (generic (iblt_encode zlibCompress (iblt_ s))) in
  component ← returns (fromNumber (name_hash nameWithIblt) GENERIC (-1));
  let dataName := append name component in
  if name_equals (outstandingInterestName_ s) name then
    _ ← self_modify (set_outstanding []);
    _ ← with_publisher (publish getFullName sign now name dataName content syncReplyFreshnessPeriod_);
    sendSyncInterest delay
  else with_publisher (publish getFullName sign now name dataName content syncReplyFreshnessPeriod_).

(** The names to send, of the hashes that the other node does not have. *)
Fixpoint add_contents (check : Name -> PSyncOp bool) (hashes : list Z) (content : list Name) : PSyncOp (list Name) :=
  match hashes with
  | [] => mret content
  | hash :: hashes =>
      name ← name_of_hash hash;
      s ← self_get;
      match nameToHash_ s !! name with
      | Some _ => add ← check name; add_contents check hashes (if add : bool then content ++ [name] else content)
      | None => add_contents check hashes content
      end
  end.

Definition check_add (negative : gset Z) (name : Name) : PSyncOp bool :=
  match canAddToSyncData with Some can => can name negative | None => mret true end.

Definition sizes (positive negative : gset Z) : Z := Z.of_nat (size positive) + Z.of_nat (size negative).
Definition undecodable (positive negative : gset Z) : bool :=
  (sizes positive negative >=? threshold_) || (sizes positive negative =? 0).

(** The Interest is pending until its lifetime is over; the entry of its name is replaced. *)
Definition add_pending (iblt : HashTable) (interestName fullInterestName : Name) (interestLifetime : Z) : PSyncOp unit :=
  s ← self_get;
  let entry := length (entry_objects s) in
  _ ← self_modify (set_pending (<[interestName := entry]> (pendingEntries_ s))
        (entry_objects s ++ [mkPendingEntry iblt false]));
  perform (SyncLater interestLifetime (LaterRemovePending fullInterestName entry)).

(** The answer to a table, for the Interest [fullInterestName]. *)
Definition answer_sync (now delay : Z) (iblt : HashTable) (interestName fullInterestName : Name)
    (interestLifetime : Z) : PSyncOp unit :=
  s ← self_get;
  d ← returns (difference (iblt_ s) iblt);
  '(complete, positive, negative) ← returns (listEntries passes d);
  if negb complete && undecodable positive negative then
    let content := map fst (in_order (nameToHash_ s)) in
    if zlen content >? 0 then
      bytes ← returns (state_wireEncode content);
      with_publisher (publish getFullName sign now fullInterestName fullInterestName bytes syncReplyFreshnessPeriod_)
    else mret tt
  else
    content ← add_contents (check_add negative) (ascending positive) [];
    if zlen content >? 0 then
      bytes ← returns (state_wireEncode content);
      sendSyncData now delay interestName bytes
    else add_pending iblt interestName fullInterestName interestLifetime.

Definition onSyncInterest (now delay : Z) (prefixName fullInterestName : Name) (interestLifetime : Z) : PSyncOp unit :=
  replied ← with_publisher (replyFromStore fullInterestName);
  if replied : bool then mret tt
  else
    let nameWithoutSyncPrefix := getSubName fullInterestName (zlen prefixName) (zlen fullInterestName) in
    let interestName :=
      if zlen nameWithoutSyncPrefix =? 1 then Some fullInterestName
      else if zlen nameWithoutSyncPrefix =? 3 then Some (getPrefix fullInterestName (-2))
      else None in
    match interestName with
    | None => mret tt
    | Some interestName =>
        ibltName ← returns (name_get interestName (-1));
        match initialize zlibDecompress (value_ ibltName) (InvertibleBloomLookupTable expectedNEntries) with
        | Err _ => mret tt
        | Ok iblt => answer_sync now delay iblt interestName fullInterestName interestLifetime
        end
    end.

(** [isRemoved_ = true], of the object. *)
Definition mark_removed (entry : nat) (objects : list PendingEntryInfoFull) : list PendingEntryInfoFull :=
  alter (fun e => mkPendingEntry (pe_iblt_ e) true) entry objects.
Definition erase_pending (name : Name) (entry : nat) : PSyncOp unit :=
  self_modify (fun s => set_pending (delete name (pendingEntries_ s)) (mark_removed entry (entry_objects s)) s).

(** One turn of the loop over the pending entries, in the order of their names. *)
Definition satisfy_entry (now delay : Z) (x : Name * nat) : PSyncOp unit :=
  s ← self_get;
  match entry_objects s !! x.2 with
  | None => throw_exn (Failed UndefinedBehaviour)
  | Some e =>
      d ← returns (difference (iblt_ s) (pe_iblt_ e));
      '(complete, positive, negative) ← returns (listEntries passes d);
      if negb complete && undecodable positive negative then erase_pending x.1 x.2
      else
        content ← add_contents (fun _ => mret true) (ascending positive) [];
        if zlen content >? 0 then
          bytes ← returns (state_wireEncode content);
          _ ← sendSyncData now delay x.1 bytes;
          erase_pending x.1 x.2
        else mret tt
  end.

Definition satisfyPendingInterests (now delay : Z) : PSyncOp unit :=
  s ← self_get;
  for_each (satisfy_entry now delay) (in_order (pendingEntries_ s)).

Definition publishName (now delay : Z) (name : Name) : PSyncOp unit :=
  s ← self_get;
  match nameToHash_ s !! name with
  | Some _ => mret tt
  | None => _ ← insertIntoIblt name; satisfyPendingInterests now delay
  end.

Definition removeName (name : Name) : PSyncOp unit := removeFromIblt name.

Definition deletePendingInterests (interestName : Name) : PSyncOp unit :=
  s ← self_get;
  match pendingEntries_ s !! interestName with
  | None => mret tt
  | Some entry => erase_pending interestName entry
  end.

Definition check_received (name : Name) : PSyncOp bool :=
  match canAddReceivedName with Some can => can name | None => mret true end.

(** The names that are new, which are inserted. *)
Fixpoint receive_names (content names : list Name) : PSyncOp (list Name) :=
  match content with
  | [] => mret names
  | name :: content =>
      s ← self_get;
      match nameToHash_ s !! name with
      | Some _ => receive_names content names
      | None =>
          add ← check_received name;
          if add : bool then _ ← insertIntoIblt name; receive_names content (names ++ [name])
          else receive_names content names
      end
  end.

(** An exception in the callback of the application is logged. *)
Definition onSyncData (delay : Z) (encodedContent : list Z) (interestName : Name) : PSyncOp unit :=
  _ ← deletePendingInterests interestName;
  content ← returns (state_wireDecode encodedContent);
  names ← receive_names content [];
  if zlen names >? 0 then
    _ ← catch (_ ← perform (CallOnNamesUpdate names); onNamesUpdate names) (fun _ => mret tt);
    sendSyncInterest delay
  else mret tt.

Definition delayedRemovePendingEntry (name : Name) (entry : nat) : PSyncOp unit :=
  s ← self_get;
  match entry_objects s !! entry with
  | None => throw_exn (Failed UndefinedBehaviour)
  | Some e =>
      if isRemoved_ e then mret tt
      else self_modify (fun s => set_pending (delete name (pendingEntries_ s)) (mark_removed entry (entry_objects s)) s)
  end.
End PSync.
Arguments FullPSync : clear implicits.

(** ** The invariant

    The table is that of the hashes of the names, and unless two names that were known to the node have the
    same hash, each name is found from its hash. *)

Section Invariant.
Context {U : Type} (expectedNEntries : Z) (known : Name -> Prop).
Hypothesis Hexpected : 1 <= expectedNEntries.

Definition psync_size : nat := Z.to_nat (table_size expectedNEntries).
Definition hashes_of (m : gmap Name Z) : list Z := map snd (map_to_list m).
Definition hash_injective : Prop := forall a b, known a -> known b -> hash_of a = hash_of b -> a = b.

Record psync_ok (s : FullPSync U) : Prop := {
  ok_table : iblt_ s = table_of psync_size (map (pair 1) (hashes_of (nameToHash_ s)));
  ok_hash : forall name hash, nameToHash_ s !! name = Some hash -> hash = hash_of name /\ known name;
  ok_back : hash_injective -> forall name hash, nameToHash_ s !! name = Some hash -> hashToName_ s !! hash = Some name
}.

Lemma psync_size_min : (3 <= psync_size)%nat.
Proof. now apply table_size_min. Qed.

Lemma psync_new_ok (app : U) : psync_ok (FullPSync_new expectedNEntries app).
Proof.
  split; cbn.
  - unfold InvertibleBloomLookupTable, hashes_of. rewrite map_to_list_empty. apply empty_table.
  - intros name hash H. now rewrite lookup_empty in H.
  - intros _ name hash H. now rewrite lookup_empty in H.
Qed.

(** The node after a name is inserted, and after one is removed. *)
Definition inserted (name : Name) (s : FullPSync U) : FullPSync U :=
  let nameToHash := <[name := hash_of name]> (nameToHash_ s) in
  set_tables (table_of psync_size (map (pair 1) (hashes_of nameToHash))) nameToHash
    (<[hash_of name := name]> (hashToName_ s)) s.

Lemma insertIntoIblt_eq name s :
  psync_ok s -> nameToHash_ s !! name = None -> insertIntoIblt name s = (inserted name s, [], Ok tt).
Proof.
  intros [Ht _ _] Hn. unfold insertIntoIblt. cbv zeta. rewrite act_modify_bind, act_get_bind. cbn.
  unfold iblt_insert. rewrite Ht, update_table, act_returns_bind by apply psync_size_min.
  unfold self_modify, inserted, set_tables. cbn. do 3 f_equal.
  apply table_of_perm. unfold hashes_of. now rewrite (map_to_list_insert _ _ _ Hn).
Qed.

Lemma inserted_ok name s : known name -> psync_ok s -> psync_ok (inserted name s).
Proof.
  intros Hk [Ht Hh Hb]. split; cbn.
  - reflexivity.
  - intros n h [[<- <-] | [_ H]]%lookup_insert_Some; [easy | now apply Hh].
  - intros Hinj n h [[<- <-] | [Hne H]]%lookup_insert_Some; [apply lookup_insert_eq |].
    destruct (Hh n h H) as [-> Hkn]. rewrite lookup_insert_ne; [now apply Hb |].
    intros He. apply Hne. now apply Hinj.
Qed.

Definition removed (name : Name) (hash : Z) (s : FullPSync U) : FullPSync U :=
  let nameToHash := delete name (nameToHash_ s) in
  set_tables (table_of psync_size (map (pair 1) (hashes_of nameToHash))) nameToHash (delete hash (hashToName_ s)) s.

Lemma removeFromIblt_eq name s :
  psync_ok s ->
  removeFromIblt name s =
  (match nameToHash_ s !! name with Some hash => removed name hash s | None => s end, [], Ok tt).
Proof.
  intros [Ht _ _]. unfold removeFromIblt. rewrite act_get_bind. destruct (nameToHash_ s !! name) as [hash |] eqn:Hn; [| easy].
  rewrite act_modify_bind. unfold iblt_erase. rewrite Ht, update_table, act_returns_bind by apply psync_size_min.
  unfold self_modify, removed, set_tables. cbn. do 3 f_equal.
  rewrite <- (table_of_cancel psync_size (-1) hash (map (pair 1) (hashes_of (delete name (nameToHash_ s))))).
  apply table_of_perm.
  unfold hashes_of. rewrite <- (map_to_list_delete _ _ _ Hn). reflexivity.
Qed.

Lemma removed_ok name hash s : nameToHash_ s !! name = Some hash -> psync_ok s -> psync_ok (removed name hash s).
Proof.
  intros Hn [Ht Hh Hb]. split; cbn.
  - reflexivity.
  - intros n h [_ H]%lookup_delete_Some. now apply Hh.
  - intros Hinj n h [Hne H]%lookup_delete_Some. destruct (Hh n h H) as [-> Hkn], (Hh name hash Hn) as [-> Hkn'].
    rewrite lookup_delete_ne; [now apply Hb |]. intros He. apply Hne. now apply Hinj.
Qed.

(** What does not change the tables keeps the invariant. *)
Lemma psync_ok_same s s' :
  iblt_ s' = iblt_ s -> nameToHash_ s' = nameToHash_ s -> hashToName_ s' = hashToName_ s -> psync_ok s -> psync_ok s'.
Proof. intros H1 H2 H3 [Ht Hh Hb]. split; rewrite ?H1, ?H2, ?H3; assumption. Qed.

Lemma keeps_removeFromIblt name : keeps psync_ok (removeFromIblt (U := U) name).
Proof.
  intros s Hs. rewrite removeFromIblt_eq by easy. destruct (nameToHash_ s !! name) eqn:Hn; [| exact Hs].
  now apply removed_ok.
Qed.

Lemma keeps_name_of_hash hash : keeps psync_ok (name_of_hash (U := U) hash).
Proof.
  apply keeps_get_bind. intros s Hs. destruct (hashToName_ s !! hash) eqn:E; [exact Hs |].
  rewrite act_modify_bind. destruct Hs as [Ht Hh Hb]. split; cbn; try assumption. intros Hinj n h Hn.
  rewrite lookup_insert_ne; [now apply Hb |]. intros ->. specialize (Hb Hinj n h Hn). congruence.
Qed.

Lemma psync_keeps_same {A} (m : Act (FullPSync U) PSyncCall A) :
  (forall s, iblt_ (state_of (m s)) = iblt_ s /\ nameToHash_ (state_of (m s)) = nameToHash_ s /\
    hashToName_ (state_of (m s)) = hashToName_ s) -> keeps psync_ok m.
Proof. intros H s Hs. destruct (H s) as (H1 & H2 & H3). now apply (psync_ok_same s). Qed.

Lemma keeps_with_publisher {A} (m : Act Storage PublisherCall A) : keeps psync_ok (with_publisher (U := U) m).
Proof. apply psync_keeps_same. intros s. unfold with_publisher. now destruct (m (storage_ s)) as [[st c] r]. Qed.

Section Operations.
Context (syncInterestLifetime_ syncReplyFreshnessPeriod_ : Z) (syncPrefix_ : Name).
Context (zlibCompress : list Z -> list Z) (zlibDecompress : list Z -> result exn (list Z)).
Context (getFullName : DataValue -> Name) (sign : DataValue -> DataValue) (passes : nat).
Context (canAddToSyncData : option (Name -> gset Z -> Act (FullPSync U) PSyncCall bool)).
Context (canAddReceivedName : option (Name -> Act (FullPSync U) PSyncCall bool)).
Context (onNamesUpdate : list Name -> Act (FullPSync U) PSyncCall unit).

(** The callbacks of the application may publish and remove names. *)
Hypothesis keeps_canAddToSyncData :
  forall can name negative, canAddToSyncData = Some can -> keeps psync_ok (can name negative).
Hypothesis keeps_canAddReceivedName : forall can name, canAddReceivedName = Some can ->
  keeps (fun s => psync_ok s /\ nameToHash_ s !! name = None) (can name).
Hypothesis keeps_onNamesUpdate : forall names, keeps psync_ok (onNamesUpdate names).

Abbreviation PSyncOp := (Act (FullPSync U) PSyncCall).
Abbreviation op_sendSyncInterest := (sendSyncInterest (U := U) syncInterestLifetime_ syncPrefix_ zlibCompress).
Abbreviation op_sendSyncData := (sendSyncData (U := U) syncInterestLifetime_ syncReplyFreshnessPeriod_ syncPrefix_
  zlibCompress getFullName sign).
Abbreviation op_answer_sync := (answer_sync (U := U) expectedNEntries syncInterestLifetime_ syncReplyFreshnessPeriod_
  syncPrefix_ zlibCompress getFullName sign passes canAddToSyncData).
Abbreviation op_onSyncInterest := (onSyncInterest (U := U) expectedNEntries syncInterestLifetime_
  syncReplyFreshnessPeriod_ syncPrefix_ zlibCompress zlibDecompress getFullName sign passes canAddToSyncData).
Abbreviation op_satisfyPendingInterests := (satisfyPendingInterests (U := U) expectedNEntries syncInterestLifetime_
  syncReplyFreshnessPeriod_ syncPrefix_ zlibCompress getFullName sign passes).
Abbreviation op_publishName := (publishName (U := U) expectedNEntries syncInterestLifetime_
  syncReplyFreshnessPeriod_ syncPrefix_ zlibCompress getFullName sign passes).
Abbreviation op_onSyncData := (onSyncData (U := U) syncInterestLifetime_ syncPrefix_ zlibCompress canAddReceivedName
  onNamesUpdate).

(** A step of an operation that keeps the invariant: changes of other fields, or a lemma. *)
Ltac psync_step :=
  lazymatch goal with
  | |- keeps _ (self_get ≫= _) => apply keeps_get; intros ? ?
  | |- keeps _ (self_modify _) => apply keeps_modify; intros ? ?; eapply psync_ok_same; [.. | eassumption]; easy
  | |- keeps _ (with_publisher _) => apply keeps_with_publisher
  | |- keeps _ (name_of_hash _) => apply keeps_name_of_hash
  | |- keeps _ (if ?b then _ else _) => destruct b
  | |- keeps _ (let '(_, _) := ?x in _) => destruct x
  | |- keeps _ (match ?x with _ => _ end) => destruct x eqn:?
  | |- _ => keeps_step
  end.
Ltac psync_steps := repeat psync_step.

Lemma keeps_sendSyncInterest delay : keeps psync_ok (op_sendSyncInterest delay).
Proof. unfold sendSyncInterest. psync_steps. Qed.

Lemma keeps_sendSyncData now delay name content : keeps psync_ok (op_sendSyncData now delay name content).
Proof. unfold sendSyncData. psync_steps. apply keeps_sendSyncInterest. Qed.

Lemma keeps_add_contents check hashes : (forall name, keeps psync_ok (check name)) ->
  forall content, keeps psync_ok (add_contents (U := U) check hashes content).
Proof.
  intros Hc. induction hashes as [| hash hashes IH]; intros content; cbn [add_contents]; psync_steps; auto.
Qed.

Lemma keeps_check_add negative name : keeps psync_ok (check_add canAddToSyncData negative name).
Proof. unfold check_add. psync_steps. now eapply keeps_canAddToSyncData. Qed.

Lemma keeps_answer_sync now delay iblt name full lifetime : keeps psync_ok (op_answer_sync now delay iblt name full lifetime).
Proof.
  unfold answer_sync, add_pending. psync_steps; try apply keeps_sendSyncData.
  apply keeps_add_contents. apply keeps_check_add.
Qed.

Lemma keeps_onSyncInterest now delay prefix name lifetime : keeps psync_ok (op_onSyncInterest now delay prefix name lifetime).
Proof. unfold onSyncInterest. psync_steps. apply keeps_answer_sync. Qed.

Lemma psync_keeps_satisfyPendingInterests now delay : keeps psync_ok (op_satisfyPendingInterests now delay).
Proof.
  unfold satisfyPendingInterests, satisfy_entry, erase_pending. psync_steps; try apply keeps_sendSyncData.
  apply keeps_add_contents. intros. psync_steps.
Qed.

Lemma keeps_publishName now delay name : known name -> keeps psync_ok (op_publishName now delay name).
Proof.
  intros Hk. unfold publishName. apply keeps_get_bind. intros s Hs. destruct (nameToHash_ s !! name) eqn:Hn; [exact Hs |].
  rewrite (act_bind_ok _ _ _ _ _ _ (insertIntoIblt_eq name s Hs Hn)).
  pose proof (psync_keeps_satisfyPendingInterests now delay _ (inserted_ok name s Hk Hs)) as H.
  unfold state_of in *. now destruct (op_satisfyPendingInterests _ _ _) as [[s1 c1] r1].
Qed.

Lemma keeps_receive_names content : Forall known content -> forall names,
  keeps psync_ok (receive_names (U := U) canAddReceivedName content names).
Proof.
  induction 1 as [| name content Hk _ IH]; intros names; cbn [receive_names]; [psync_step |].
  apply keeps_get_bind. intros s Hs. destruct (nameToHash_ s !! name) eqn:Hn; [now apply IH |].
  enough (keeps (fun s => psync_ok s /\ nameToHash_ s !! name = None) (check_received canAddReceivedName name)) as Hcheck.
  - specialize (Hcheck s (conj Hs Hn)). unfold state_of, mbind, Act_bind in *.
    destruct (check_received canAddReceivedName name s) as [[s1 c1] [add | e]]; cbn in *; [| apply Hcheck].
    destruct Hcheck as [Hs1 Hn1]. destruct add.
    + rewrite insertIntoIblt_eq by easy. specialize (IH (names ++ [name]) _ (inserted_ok name s1 Hk Hs1)). unfold state_of in IH.
      now destruct (receive_names canAddReceivedName content (names ++ [name]) (inserted name s1)) as [[s2 c2] r2].
    + specialize (IH names s1 Hs1). unfold state_of in IH.
      now destruct (receive_names canAddReceivedName content names s1) as [[s2 c2] r2].
  - unfold check_received. destruct canAddReceivedName as [can |] eqn:Ec; [now apply keeps_canAddReceivedName |]. keeps_step.
Qed.

Lemma keeps_onSyncData delay bytes name :
  (forall content, state_wireDecode bytes = Ok content -> Forall known content) ->
  keeps psync_ok (op_onSyncData delay bytes name).
Proof.
  intros Hk. unfold onSyncData, deletePendingInterests, erase_pending. apply keeps_bind; [psync_steps |]. intros _.
  destruct (state_wireDecode bytes) as [content |] eqn:E.
  - intros s Hs. rewrite act_returns_bind. revert s Hs.
    change (keeps psync_ok (names ← receive_names (U := U) canAddReceivedName content [];
      if zlen names >? 0 then
        _ ← catch (_ ← perform (CallOnNamesUpdate names); onNamesUpdate names) (fun _ => mret tt);
        op_sendSyncInterest delay
      else mret tt)).
    apply keeps_bind; [now apply keeps_receive_names, Hk |]. intros names. psync_steps; auto using keeps_sendSyncInterest.
  - now intros s Hs.
Qed.

Lemma keeps_delayedRemovePendingEntry name entry : keeps psync_ok (delayedRemovePendingEntry (U := U) name entry).
Proof. unfold delayedRemovePendingEntry. psync_steps. Qed.

(** *** Reachable nodes *)

Inductive psync_step : FullPSync U -> FullPSync U -> Prop :=
| step_publishName now delay name s : known name -> psync_step s (state_of (op_publishName now delay name s))
| step_removeName name s : psync_step s (state_of (removeName name s))
| step_sendSyncInterest delay s : psync_step s (state_of (op_sendSyncInterest delay s))
| step_onSyncInterest now delay prefix name lifetime s :
    psync_step s (state_of (op_onSyncInterest now delay prefix name lifetime s))
| step_onSyncData delay bytes name s :
    (forall content, state_wireDecode bytes = Ok content -> Forall known content) ->
    psync_step s (state_of (op_onSyncData delay bytes name s))
| step_removePending name entry s : psync_step s (state_of (delayedRemovePendingEntry name entry s))
| step_removeStored name s : psync_step s (set_storage (storage_remove name (storage_ s)) s).

Inductive psync_reach (app : U) : FullPSync U -> Prop :=
| psync_start : psync_reach app (FullPSync_new expectedNEntries app)
| psync_next s s' : psync_reach app s -> psync_step s s' -> psync_reach app s'.

Lemma psync_step_ok s s' : psync_step s s' -> psync_ok s -> psync_ok s'.
Proof.
  intros [] Hs.
  - now apply keeps_publishName.
  - now apply keeps_removeFromIblt.
  - now apply keeps_sendSyncInterest.
  - now apply keeps_onSyncInterest.
  - now apply keeps_onSyncData.
  - now apply keeps_delayedRemovePendingEntry.
  - eapply psync_ok_same; [.. | exact Hs]; easy.
Qed.

Lemma psync_reach_ok app s : psync_reach app s -> psync_ok s.
Proof. induction 1 as [| s s' _ IH Hstep]; [apply psync_new_ok | now apply (psync_step_ok s)]. Qed.

End Operations.
End Invariant.

(** C30: the tables of a node. Whatever names a node publishes, removes and receives, its table is the one that
    inserting the hashes of its names into the empty table gives, each hash is the one of its name,
    and each name is found from its hash unless two names that were known to the node have the same
    hash. The callbacks of the application may publish and remove names, too, but the one that is
    asked whether a received name can be added must not add it itself. *)
Theorem psync_tables {U} (expectedNEntries syncInterestLifetime syncReplyFreshnessPeriod : Z) (known : Name -> Prop)
    syncPrefix zlibCompress zlibDecompress getFullName sign passes canAddToSyncData canAddReceivedName onNamesUpdate
    (app : U) (s : FullPSync U) :
  1 <= expectedNEntries ->
  (forall can name negative, canAddToSyncData = Some can -> keeps (psync_ok expectedNEntries known) (can name negative)) ->
  (forall can name, canAddReceivedName = Some can ->
    keeps (fun s => psync_ok expectedNEntries known s /\ nameToHash_ s !! name = None) (can name)) ->
  (forall names, keeps (psync_ok expectedNEntries known) (onNamesUpdate names)) ->
  psync_reach expectedNEntries known syncInterestLifetime syncReplyFreshnessPeriod syncPrefix zlibCompress
    zlibDecompress getFullName sign passes canAddToSyncData canAddReceivedName onNamesUpdate app s ->
  insert_all (hashes_of (nameToHash_ s)) (InvertibleBloomLookupTable expectedNEntries) = Ok (iblt_ s) /\
  (forall name hash, nameToHash_ s !! name = Some hash -> hash = hash_of name /\ known name) /\
  (hash_injective known -> forall name hash, nameToHash_ s !! name = Some hash -> hashToName_ s !! hash = Some name).
Proof.
  intros He H1 H2 H3 Hr.
  pose proof (psync_reach_ok _ known He _ _ _ _ _ _ _ _ _ _ _ H1 H2 H3 app s Hr) as [Ht Hh Hb].
  split; [| now split]. unfold InvertibleBloomLookupTable.
  rewrite empty_table, insert_all_table, app_nil_r by now apply table_size_min. now rewrite Ht.
Qed.

(** *** A node without callbacks *)

Definition no_update {U} (names : list Name) : Act (FullPSync U) PSyncCall unit := mret tt.

(** Names of which two have been published, and one was removed. *)
Definition example_known (name : Name) : Prop := name = [generic [97]] \/ name = [generic [98]].

Lemma psync_tables_witness :
  let publish name := publishName (U := unit) 4 0 0 [generic [115]] (fun b => b) example_fullName example_sign 10 0 0 [generic name] in
  let s := state_of (removeName [generic [97]] (state_of (publish [98] (state_of (publish [97] (FullPSync_new 4 tt)))))) in
  insert_all (hashes_of (nameToHash_ s)) (InvertibleBloomLookupTable 4) = Ok (iblt_ s) /\
  nameToHash_ s !! [generic [98]] = Some (hash_of [generic [98]]).
Proof.
  cbv zeta. split; [| vm_compute; reflexivity].
  eapply (psync_tables 4 0 0 example_known [generic [115]] (fun b => b) (fun b => Ok b) example_fullName example_sign 10
    None None no_update tt).
  - lia.
  - discriminate.
  - discriminate.
  - intros names. apply keeps_ret.
  - eapply psync_next; [| apply step_removeName].
    eapply psync_next; [| apply step_publishName; now right].
    eapply psync_next; [| apply step_publishName; now left].
    apply psync_start.
Defined.
