(* ===== verification/PSyncExchange.v ===== *)
(** * Two nodes that exchange names

    What the sync Interest of one node makes another one send, and what the first node has then. *)

From stdpp Require Import base list numbers option strings gmap sorting.
From Stdlib Require Import ZArith Lia.
From S2P Require Import Prelude Actions Encoder Blocks Name NameUri TlvName ChangeCounter Data WireFormat Interest.
From S2P Require Import SegmentFetcher Iblt Publisher PSyncState PSync.
Open Scope Z_scope.

Definition has {U} (s : FullPSync U) (name : Name) : Prop := is_Some (nameToHash_ s !! name).

(** The names that the second node does not have. *)
Definition names_to_send {U V} (a : FullPSync U) (b : FullPSync V) : list Name :=
  List.filter (fun name => bool_decide (nameToHash_ b !! name = None)) (map fst (map_to_list (nameToHash_ a))).

(** ** The hashes of a node *)

Section Hashes.
Context {U : Type} (expectedNEntries : Z) (known : Name -> Prop).
Hypothesis Hexpected : 1 <= expectedNEntries.
Hypothesis Hinj : hash_injective known.

Definition hash_set (s : FullPSync U) : gset Z := list_to_set (hashes_of (nameToHash_ s)).

Lemma elem_of_hashes m hash : hash ∈ hashes_of m <-> exists name, m !! name = Some hash.
Proof.
  unfold hashes_of. rewrite list_elem_of_fmap. split.
  - intros ([name h] & -> & H). apply elem_of_map_to_list in H. now exists name.
  - intros [name H]. exists (name, hash). split; [easy |]. now apply elem_of_map_to_list.
Qed.

Lemma elem_of_hash_set (s : FullPSync U) hash : hash ∈ hash_set s <-> exists name, nameToHash_ s !! name = Some hash.
Proof. unfold hash_set. rewrite elem_of_list_to_set. apply elem_of_hashes. Qed.

Lemma hashes_NoDup (s : FullPSync U) : psync_ok expectedNEntries known s -> NoDup (hashes_of (nameToHash_ s)).
Proof.
  intros [_ Hh _]. unfold hashes_of. apply NoDup_fmap_2_strong; [| apply NoDup_map_to_list].
  intros [n1 h1] [n2 h2] H1%elem_of_map_to_list H2%elem_of_map_to_list. cbn. intros ->.
  destruct (Hh _ _ H1) as [E1 K1], (Hh _ _ H2) as [E2 K2]. f_equal. apply Hinj; congruence.
Qed.

Lemma iblt_hash_set (s : FullPSync U) :
  psync_ok expectedNEntries known s ->
  iblt_ s = table_of (psync_size expectedNEntries) (map (pair 1) (elements (hash_set s))).
Proof.
  intros Hs. rewrite (ok_table _ _ _ Hs). apply table_of_perm, Permutation_map. symmetry.
  apply elements_list_to_set. now apply hashes_NoDup.
Qed.

(** The node finds the names of its hashes. *)
Lemma add_contents_spec (check : Name -> Act (FullPSync U) PSyncCall bool) s hashes names : forall content,
  (forall name, check name s = (s, [], Ok true)) ->
  Forall2 (fun hash name => hashToName_ s !! hash = Some name /\ has s name) hashes names ->
  add_contents check hashes content s = (s, [], Ok (content ++ names)).
Proof.
  intros content Hc H. revert content. induction H as [| hash name hashes names [Hn [h Hh]] _ IH]; intros content; cbn [add_contents].
  - now rewrite app_nil_r.
  - unfold name_of_hash. assert (Hname : (s0 ← self_get;
      match hashToName_ s0 !! hash with
      | Some name => mret name
      | None => _ ← self_modify (set_tables (iblt_ s0) (nameToHash_ s0) (<[hash := []]> (hashToName_ s0))); mret []
      end) s = (s, [] : list PSyncCall, Ok name)) by (rewrite act_get_bind, Hn; reflexivity).
    rewrite (act_bind_ok _ _ _ _ _ _ Hname), act_get_bind, Hh, (act_bind_ok _ _ _ _ _ _ (Hc name)), IH.
    now rewrite <- app_assoc.
Qed.

(** The hashes in ascending order are those of some names. *)
Lemma names_of_hashes (s : FullPSync U) (hashes : gset Z) :
  psync_ok expectedNEntries known s -> hashes ⊆ hash_set s ->
  exists names, Forall2 (fun hash name => hashToName_ s !! hash = Some name /\ has s name) (ascending hashes) names /\
    Forall2 (fun hash name => nameToHash_ s !! name = Some hash) (ascending hashes) names.
Proof.
  intros Hs Hsub. assert (Hall : Forall (fun hash => hash ∈ hash_set s) (ascending hashes)).
  { apply Forall_forall. intros hash. unfold ascending. rewrite merge_sort_Permutation, elem_of_elements. apply Hsub. }
  induction Hall as [| hash l Hh _ (names & H1 & H2)]; [now exists [] |].
  apply elem_of_hash_set in Hh as [name Hn]. exists (name :: names).
  split; constructor; try assumption. split; [now apply (ok_back _ _ _ Hs Hinj) | now exists hash].
Qed.

(** ** Receiving new names *)

Definition received_state (content : list Name) (s : FullPSync U) : FullPSync U :=
  fold_left (fun s name => inserted expectedNEntries name s) content s.

Lemma received_has content : forall s name, has (received_state content s) name <-> has s name \/ name ∈ content.
Proof.
  induction content as [| n content IH]; intros s name; cbn [received_state fold_left].
  - rewrite elem_of_nil. tauto.
  - fold (received_state content (inserted expectedNEntries n s)). rewrite IH, elem_of_cons. unfold has, inserted, set_tables.
    cbn [nameToHash_]. rewrite lookup_insert_is_Some. split.
    + intros [[-> | [_ H]] | H]; tauto.
    + intros [H | [-> | H]]; [destruct (decide (n = name)) |..]; tauto.
Qed.

Lemma receive_names_spec content : forall s names,
  psync_ok expectedNEntries known s -> NoDup content -> Forall known content ->
  Forall (fun name => nameToHash_ s !! name = None) content ->
  receive_names None content names s = (received_state content s, [], Ok (names ++ content)).
Proof.
  induction content as [| n content IH]; intros s names Hs Hnd Hk Hnew; cbn [receive_names].
  - now rewrite app_nil_r.
  - apply NoDup_cons in Hnd as [Hni Hnd]. apply Forall_cons in Hk as [Hk Hks]. apply Forall_cons in Hnew as [Hn Hnew].
    rewrite act_get_bind, Hn. cbn [check_received]. rewrite act_ret_bind.
    rewrite (act_bind_ok _ _ _ _ _ _ (insertIntoIblt_eq expectedNEntries known Hexpected n s Hs Hn)).
    rewrite IH; [| now apply inserted_ok | easy | easy |].
    + cbn [received_state fold_left]. now rewrite <- app_assoc.
    + apply Forall_forall. intros x Hx. rewrite Forall_forall in Hnew. cbn. rewrite lookup_insert_ne; [now apply Hnew |].
      now intros ->.
Qed.
End Hashes.

(** ** What is sent *)

Section Sent.
Context {U V : Type} (expectedNEntries : Z) (known : Name -> Prop).
Hypothesis Hexpected : 1 <= expectedNEntries.
Hypothesis Hinj : hash_injective known.
Context (a : FullPSync U) (b : FullPSync V).
Hypothesis Ha : psync_ok expectedNEntries known a.
Hypothesis Hb : psync_ok expectedNEntries known b.

Lemma names_to_send_NoDup : NoDup (names_to_send a b).
Proof.
  unfold names_to_send. apply NoDup_ListNoDup, List.NoDup_filter, NoDup_ListNoDup. apply NoDup_fst_map_to_list.
Qed.

Lemma elem_of_names_to_send name : name ∈ names_to_send a b <-> has a name /\ nameToHash_ b !! name = None.
Proof.
  unfold names_to_send. rewrite list_elem_of_In, filter_In, bool_decide_eq_true, <- list_elem_of_In, list_elem_of_fmap.
  split.
  - intros [([n h] & -> & Hin) Hn]. apply elem_of_map_to_list in Hin. split; [now exists h | easy].
  - intros [[h Hh] Hn]. split; [| easy]. exists (name, h). split; [easy | now apply elem_of_map_to_list].
Qed.

(** A hash of the difference is the hash of a name to send. *)
Lemma hash_difference name hash :
  nameToHash_ a !! name = Some hash -> hash ∉ hash_set b <-> nameToHash_ b !! name = None.
Proof.
  intros Hn. rewrite elem_of_hash_set. destruct (ok_hash _ _ _ Ha _ _ Hn) as [-> Hk]. split.
  - intros Hnot. destruct (nameToHash_ b !! name) as [h |] eqn:E; [| easy]. destruct Hnot. exists name.
    destruct (ok_hash _ _ _ Hb _ _ E) as [-> _]. exact E.
  - intros Hnone (name' & H'). destruct (ok_hash _ _ _ Hb _ _ H') as [Hh Hk'].
    apply Hinj in Hh; [| easy | easy]. congruence.
Qed.

Lemma sent_names names :
  Forall2 (fun hash name => nameToHash_ a !! name = Some hash) (ascending (hash_set a ∖ hash_set b)) names ->
  names ≡ₚ names_to_send a b.
Proof.
  intros H. apply NoDup_Permutation.
  - assert (Hnd : NoDup (ascending (hash_set a ∖ hash_set b)))
      by (unfold ascending; rewrite merge_sort_Permutation; apply NoDup_elements).
    induction H as [| hash name l names Hn HF IH]; [constructor |].
    apply NoDup_cons in Hnd as [Hni Hnd]. constructor; [| now apply IH]. intros Hin.
    apply list_elem_of_lookup in Hin as [i Hi]. destruct (Forall2_lookup_r _ _ _ _ _ HF Hi) as (h & Hl & Hh).
    apply Hni. replace hash with h by congruence. now apply list_elem_of_lookup_2 in Hl.
  - apply names_to_send_NoDup.
  - intros name. rewrite elem_of_names_to_send. split.
    + intros [i Hi]%list_elem_of_lookup. destruct (Forall2_lookup_r _ _ _ _ _ H Hi) as (h & Hl & Hh).
      apply list_elem_of_lookup_2 in Hl. unfold ascending in Hl.
      rewrite merge_sort_Permutation, elem_of_elements, elem_of_difference in Hl.
      split; [now exists h |]. now apply (hash_difference name h).
    + intros [[h Hh] Hn]. assert (Hin : h ∈ ascending (hash_set a ∖ hash_set b)).
      { unfold ascending. rewrite merge_sort_Permutation, elem_of_elements, elem_of_difference.
        split; [apply elem_of_hash_set; now exists name | now apply (hash_difference name h)]. }
      apply list_elem_of_lookup in Hin as [i Hi]. destruct (Forall2_lookup_l _ _ _ _ _ H Hi) as (name' & Hl & Hh').
      replace name with name'; [now apply list_elem_of_lookup_2 in Hl |].
      destruct (ok_hash _ _ _ Ha _ _ Hh) as [-> Hk], (ok_hash _ _ _ Ha _ _ Hh') as [E Hk']. now apply Hinj.
Qed.

(** The listing of the difference, when it is complete. *)
Lemma listed_difference d passes pos neg :
  difference (iblt_ a) (iblt_ b) = Ok d ->
  collision_free (psync_size expectedNEntries) (signed (hash_set a ∖ hash_set b) (hash_set b ∖ hash_set a)) = true ->
  (size (hash_set a ∖ hash_set b) + size (hash_set b ∖ hash_set a) < passes)%nat ->
  listEntries passes d = Ok (true, pos, neg) -> pos = hash_set a ∖ hash_set b.
Proof.
  intros Hd Hfree Hpasses Hlist.
  rewrite (iblt_hash_set _ _ Hinj a Ha), (iblt_hash_set _ _ Hinj b Hb), difference_signed in Hd. injection Hd as <-.
  destruct (listEntries_left _ _ _ (psync_size_min _ Hexpected) Hfree passes Hpasses)
    as (complete & pos' & neg' & Hl & _ & _ & Hc & _).
  rewrite Hl in Hlist. injection Hlist as -> -> ->. now apply Hc.
Qed.
End Sent.

(** *** The size of a state does not depend on the order *)

Lemma blocks_bytes_perm l l' : l ≡ₚ l' -> zlen (blocks_bytes l) = zlen (blocks_bytes l').
Proof.
  induction 1 as [| x l l' _ IH | x y l | l l' l'' _ IH1 _ IH2]; [easy | | | congruence];
    rewrite !blocks_bytes_cons, !length_app; lia.
Qed.

Lemma zlen_state_bytes_perm l l' : l ≡ₚ l' -> zlen (state_bytes l) = zlen (state_bytes l').
Proof.
  intros H. unfold state_bytes. rewrite !zlen_tlv_bytes.
  rewrite (blocks_bytes_perm (content_blocks l) (content_blocks l')); [easy | now apply Permutation_map].
Qed.

Lemma state_ok_perm l l' : l ≡ₚ l' -> state_ok l -> state_ok l'.
Proof. intros H [H1 H2]. split; [now rewrite <- H | now rewrite <- (zlen_state_bytes_perm _ _ H)]. Qed.

(** ** The answer of a node *)

Section Answer.
Context {U : Type} (expectedNEntries lifetime freshness : Z) (syncPrefix : Name).
Context (zlibCompress : list Z -> list Z) (zlibDecompress : list Z -> result exn (list Z)).
Context (getFullName : DataValue -> Name) (sign : DataValue -> DataValue) (passes : nat).
Hypothesis zlib_roundtrip : forall bytes, zlibDecompress (zlibCompress bytes) = Ok bytes.
(** A zlib stream does not begin with the marker of a segment. *)
Hypothesis zlib_no_marker : forall bytes, isSegment (generic (zlibCompress bytes)) = false.

Definition sync_name (t : HashTable) : Name := append syncPrefix (generic (iblt_encode zlibCompress t)).

Definition sync_data_name (t : HashTable) (name : Name) : Name :=
  append name (mkComponent GENERIC (-1)
    (nonNegativeInteger_bytes (name_hash (append [] (generic (iblt_encode zlibCompress t)))))).

(** The packets of an answer. *)
Definition sync_packets (now : Z) (own other : HashTable) (content : list Z) : list DataValue :=
  published_packets sign now (sync_data_name own (sync_name other)) content freshness.

Lemma interest_segment_sync t : interest_segment (sync_name t) = Ok 0.
Proof.
  unfold interest_segment, sync_name, append. rewrite name_get_last. cbn [mbind result_bind].
  unfold iblt_encode. now rewrite zlib_no_marker.
Qed.

Lemma with_publisher_publish now name dataName content (s : FullPSync U) :
  interest_segment name = Ok 0 -> zlen content < 2 ^ 63 ->
  let packets := published_packets sign now dataName content freshness in
  exists calls,
    with_publisher (publish getFullName sign now name dataName content freshness) s =
      (set_storage (insert_packets getFullName packets (storage_ s)) s, calls, Ok tt) /\
    forall d, packets !! 0%nat = Some d -> SyncPut d ∈ calls.
Proof.
  intros Hi Hl. cbv zeta. unfold with_publisher.
  rewrite (publish_spec sign now dataName content freshness getFullName name 0 (storage_ s) Hi Hl).
  eexists. split; [reflexivity |]. intros d Hd. apply list_elem_of_fmap. exists (PutData d). split; [easy |].
  apply publish_calls_put. split; [lia | exact Hd].
Qed.

Lemma sendSyncData_spec now delay t content (s : FullPSync U) :
  zlen content < 2 ^ 63 ->
  let packets := sync_packets now (iblt_ s) t content in
  exists s' calls,
    sendSyncData lifetime freshness syncPrefix zlibCompress getFullName sign now delay (sync_name t) content s = (s', calls, Ok tt) /\
    storage_ s' = insert_packets getFullName packets (storage_ s) /\ nameToHash_ s' = nameToHash_ s /\
    forall d, packets !! 0%nat = Some d -> SyncPut d ∈ calls.
Proof.
  intros Hl. cbv zeta. unfold sendSyncData. rewrite act_get_bind, fromNumber_bytes, act_returns_bind by easy.
  fold (sync_data_name (iblt_ s) (sync_name t)). destruct (name_equals (outstandingInterestName_ s) (sync_name t)).
  - rewrite act_modify_bind.
    destruct (with_publisher_publish now (sync_name t) (sync_data_name (iblt_ s) (sync_name t)) content
      (set_outstanding [] s) (interest_segment_sync t) Hl) as (calls & Hp & Hput).
    rewrite (act_bind_ok _ _ _ _ _ _ Hp). cbn. eexists _, _. split; [reflexivity |]. split; [easy |]. split; [easy |].
    intros d Hd. apply elem_of_app. left. now apply Hput.
  - destruct (with_publisher_publish now (sync_name t) (sync_data_name (iblt_ s) (sync_name t)) content s
      (interest_segment_sync t) Hl) as (calls & Hp & Hput).
    rewrite Hp. eexists _, _. split; [reflexivity |]. now split.
Qed.

(** A sync Interest is answered for the table that its name encodes. *)
Lemma onSyncInterest_answers now delay t interestLifetime (s : FullPSync U) :
  zlen syncPrefix < 2 ^ 31 - 10 -> storage_find (sync_name t) (storage_ s) = None ->
  initialize zlibDecompress (iblt_encode zlibCompress t) (InvertibleBloomLookupTable expectedNEntries) = Ok t ->
  onSyncInterest expectedNEntries lifetime freshness syncPrefix zlibCompress zlibDecompress getFullName sign passes None
    now delay syncPrefix (sync_name t) interestLifetime s =
  answer_sync expectedNEntries lifetime freshness syncPrefix zlibCompress getFullName sign passes None
    now delay t (sync_name t) (sync_name t) interestLifetime s.
Proof.
  intros Hf Hfind Ht. unfold onSyncInterest.
  assert (Hreply : with_publisher (replyFromStore (sync_name t)) s = (s, [], Ok false)).
  { unfold with_publisher, replyFromStore. rewrite act_get_bind, Hfind. cbn. unfold set_storage. now destruct s. }
  rewrite (act_bind_ok _ _ _ _ _ _ Hreply). cbv iota zeta.
  assert (Hlen : zlen (sync_name t) = zlen syncPrefix + 1) by (unfold sync_name, append; rewrite length_app; cbn; lia).
  rewrite getSubName_spec by (unfold name_fits; lia).
  destruct (Z.ltb_spec (zlen syncPrefix) 0); [lia |]. rewrite !Nat2Z.id.
  assert (Hdrop : drop (length syncPrefix) (sync_name t) = [generic (iblt_encode zlibCompress t)])
    by apply drop_app_length.
  assert (Hget : name_get (sync_name t) (-1) = Ok (generic (iblt_encode zlibCompress t))) by apply name_get_last.
  rewrite Hdrop, take_ge by (cbn [length]; lia). change (zlen [_] =? 1) with true. cbv iota.
  rewrite Hget, act_returns_bind. cbn [value_ generic]. rewrite Ht.
  now destruct (answer_sync _ _ _ _ _ _ _ _ _ _ _ _ _ _ _ s) as [[s' c'] r'].
Qed.
End Answer.

(** *** The names that the other node does not have are sent *)

Section Sends.
Context {U V : Type} (expectedNEntries lifetime freshness : Z) (known : Name -> Prop) (syncPrefix : Name).
Context (zlibCompress : list Z -> list Z) (getFullName : DataValue -> Name) (sign : DataValue -> DataValue) (passes : nat).
Hypothesis Hexpected : 1 <= expectedNEntries.
Hypothesis Hinj : hash_injective known.
Hypothesis zlib_no_marker : forall bytes, isSegment (generic (zlibCompress bytes)) = false.
Context (a : FullPSync U) (b : FullPSync V).
Hypothesis Ha : psync_ok expectedNEntries known a.
Hypothesis Hb : psync_ok expectedNEntries known b.

(** The difference of the tables can be listed. *)
Definition decodable : Prop :=
  collision_free (psync_size expectedNEntries) (signed (hash_set a ∖ hash_set b) (hash_set b ∖ hash_set a)) = true /\
  (size (hash_set a ∖ hash_set b) + size (hash_set b ∖ hash_set a) < passes)%nat /\
  exists d pos neg, difference (iblt_ a) (iblt_ b) = Ok d /\ listEntries passes d = Ok (true, pos, neg).

Lemma answer_sync_sends now delay interestLifetime :
  decodable -> names_to_send a b <> [] -> state_ok (names_to_send a b) ->
  exists content a' calls,
    content ≡ₚ names_to_send a b /\
    answer_sync expectedNEntries lifetime freshness syncPrefix zlibCompress getFullName sign passes None now delay
      (iblt_ b) (sync_name syncPrefix zlibCompress (iblt_ b)) (sync_name syncPrefix zlibCompress (iblt_ b))
      interestLifetime a = (a', calls, Ok tt) /\
    let packets := sync_packets freshness syncPrefix zlibCompress sign now (iblt_ a) (iblt_ b) (state_bytes content) in
    storage_ a' = insert_packets getFullName packets (storage_ a) /\ nameToHash_ a' = nameToHash_ a /\
    forall d, packets !! 0%nat = Some d -> SyncPut d ∈ calls.
Proof.
  intros (Hfree & Hpasses & d & pos & neg & Hd & Hl) Hne Hok.
  pose proof (listed_difference _ known Hexpected Hinj a b Ha Hb d passes pos neg Hd Hfree Hpasses Hl) as ->.
  destruct (names_of_hashes expectedNEntries known Hinj a (hash_set a ∖ hash_set b) Ha ltac:(set_solver))
    as (content & Hfind & Hnames).
  pose proof (sent_names expectedNEntries known Hinj a b Ha Hb content Hnames) as Hperm.
  pose proof (state_ok_perm _ _ (symmetry Hperm) Hok) as Hcok. destruct Hcok as [Hwire Hsize].
  destruct (sendSyncData_spec lifetime freshness syncPrefix zlibCompress getFullName sign zlib_no_marker now delay (iblt_ b)
    (state_bytes content) a Hsize) as (a' & calls & Hsend & Hst & Hn & Hput).
  exists content, a', calls. split; [exact Hperm |]. split; [| now split].
  unfold answer_sync. rewrite act_get_bind, Hd, act_returns_bind, Hl, act_returns_bind. cbn [negb andb].
  assert (Hadd : add_contents (check_add None neg) (ascending (hash_set a ∖ hash_set b)) [] a = (a, [], Ok content))
    by (apply (add_contents_spec (check_add None neg) a _ content []); [now intros | exact Hfind]).
  rewrite (act_bind_ok _ _ _ _ _ _ Hadd).
  assert (Hpos : (zlen content >? 0) = true).
  { apply Z.gtb_lt. rewrite Hperm. destruct (names_to_send a b); [easy | cbn; lia]. }
  rewrite Hpos, state_wireEncode_ok by now split. rewrite act_returns_bind, Hsend. reflexivity.
Qed.
End Sends.

(** The table of a node is read from its encoding. *)
Lemma own_iblt_read {U} expectedNEntries known zlibCompress zlibDecompress (s : FullPSync U) :
  1 <= expectedNEntries -> psync_ok expectedNEntries known s ->
  (forall bytes, zlibDecompress (zlibCompress bytes) = Ok bytes) ->
  Z.of_nat (size (nameToHash_ s)) < 2 ^ 31 ->
  initialize zlibDecompress (iblt_encode zlibCompress (iblt_ s)) (InvertibleBloomLookupTable expectedNEntries) = Ok (iblt_ s).
Proof.
  intros He [Ht Hh _] Hz Hsize. unfold InvertibleBloomLookupTable. rewrite Ht.
  pose proof (initialize_encoded zlibCompress zlibDecompress
    (table_of (psync_size expectedNEntries) (map (pair 1) (hashes_of (nameToHash_ s)))) Hz) as H.
  rewrite length_table_of in H. apply H. apply Forall_forall. intros e (j & -> & _)%list_elem_of_fmap.
  destruct (cell_positive (Z.of_nat (psync_size expectedNEntries)) (hashes_of (nameToHash_ s)) j) as (H1 & _ & H2).
  - apply Forall_forall. intros hash (name & Hn)%elem_of_hashes. destruct (Hh _ _ Hn) as [-> _]. apply murmur_finish_range.
  - unfold hashes_of. now rewrite length_map, length_map_to_list.
  - now split.
Qed.

(** ** The node that asked *)

Section Receives.
Context {V : Type} (expectedNEntries lifetime : Z) (known : Name -> Prop) (syncPrefix : Name).
Context (zlibCompress : list Z -> list Z) (onNamesUpdate : list Name -> Act (FullPSync V) PSyncCall unit).
Hypothesis Hexpected : 1 <= expectedNEntries.
Hypothesis update_keeps : forall names s, nameToHash_ (state_of (onNamesUpdate names s)) = nameToHash_ s.

Lemma deletePendingInterests_spec name (s : FullPSync V) :
  psync_ok expectedNEntries known s ->
  exists s', deletePendingInterests name s = (s', [], Ok tt) /\ nameToHash_ s' = nameToHash_ s /\
    psync_ok expectedNEntries known s'.
Proof.
  intros Hs. unfold deletePendingInterests. rewrite act_get_bind. destruct (pendingEntries_ s !! name).
  - eexists. split; [reflexivity |]. split; [easy |]. eapply psync_ok_same; [.. | exact Hs]; easy.
  - now exists s.
Qed.

Lemma onSyncData_receives delay content name (s : FullPSync V) :
  psync_ok expectedNEntries known s -> state_ok content -> content <> [] -> NoDup content -> Forall known content ->
  Forall (fun name => nameToHash_ s !! name = None) content ->
  let r := onSyncData lifetime syncPrefix zlibCompress None onNamesUpdate delay (state_bytes content) name s in
  CallOnNamesUpdate content ∈ calls_of r /\ forall n, has (state_of r) n <-> has s n \/ n ∈ content.
Proof.
  intros Hs Hok Hne Hnd Hk Hnew. cbv zeta. unfold onSyncData.
  destruct (deletePendingInterests_spec name s Hs) as (s1 & Hdel & Hsame & Hs1).
  rewrite (act_bind_ok _ _ _ _ _ _ Hdel), state_wireDecode_ok, act_returns_bind by exact Hok.
  assert (Hnew1 : Forall (fun name => nameToHash_ s1 !! name = None) content) by now rewrite Hsame.
  rewrite (act_bind_ok _ _ _ _ _ _ (receive_names_spec expectedNEntries known Hexpected content s1 [] Hs1 Hnd Hk Hnew1)).
  rewrite app_nil_l. replace (zlen content >? 0) with true by (symmetry; apply Z.gtb_lt; destruct content; [easy | cbn; lia]).
  set (s2 := received_state expectedNEntries content s1).
  assert (Hs2 : forall n, has s2 n <-> has s n \/ n ∈ content).
  { intros n. unfold s2. rewrite (received_has expectedNEntries content s1 n). unfold has. now rewrite Hsame. }
  pose proof (update_keeps content s2) as Hu. unfold state_of, calls_of in *.
  unfold catch, mbind, Act_bind, perform, sendSyncInterest, self_get, self_modify, mret, Act_ret, mbind, Act_bind.
  destruct (onNamesUpdate content s2) as [[s3 c3] [[] | e]]; cbn in *;
    (split; [now left |]); intros n; unfold has in *; cbn; rewrite Hu; apply Hs2.
Qed.
End Receives.

(** ** The exchange *)

(** C19: an exchange between two nodes. The node [b] sends a sync Interest, and [a], which has names that [b] does
    not have, gets it. The applications are not asked which names to send or to take ([canAdd] callbacks are not set), the one
    of [b] does not change the names when it is told of them, and [a] has nothing stored for this Interest. When
    the tables are of the same size, the difference can be listed, the
    32-bit hashes of the names differ, and the names to send can be encoded and have less than 2^31 bytes, not a multiple of the size of a
    packet, [a] publishes packets, the first of which it sends at once,
    from which a fetch gives [b] the names that it does not have, and only those; after [b] has
    handled them the application of [b] is told of them, and [b] has all names that [a] or [b] had. Decompression is assumed to
    undo compression, whose result is not a segment number, and signing to leave name, content and meta info. *)
Theorem psync_exchange {U V} (expectedNEntries lifetime freshness : Z) (known : Name -> Prop) (syncPrefix : Name)
    zlibCompress zlibDecompress getFullName sign passes (onNamesUpdate : list Name -> Act (FullPSync V) PSyncCall unit)
    (a : FullPSync U) (b : FullPSync V) (now delay : Z) :
  1 <= expectedNEntries -> zlen syncPrefix < 2 ^ 31 - 10 ->
  (forall bytes, zlibDecompress (zlibCompress bytes) = Ok bytes) ->
  (forall bytes, isSegment (generic (zlibCompress bytes)) = false) ->
  (forall d, data_name (sign d) = data_name d /\ data_content (sign d) = data_content d /\
    data_metaInfo (sign d) = data_metaInfo d) ->
  (forall names s, nameToHash_ (state_of (onNamesUpdate names s)) = nameToHash_ s) ->
  hash_injective known -> psync_ok expectedNEntries known a -> psync_ok expectedNEntries known b ->
  Z.of_nat (size (nameToHash_ b)) < 2 ^ 31 ->
  decodable expectedNEntries passes a b ->
  names_to_send a b <> [] -> state_ok (names_to_send a b) ->
  zlen (state_bytes (names_to_send a b)) < 2 ^ 31 -> zlen (state_bytes (names_to_send a b)) mod maxPacketSize <> 0 ->
  let interestName := sync_name syncPrefix zlibCompress (iblt_ b) in
  storage_find interestName (storage_ a) = None ->
  exists b1 calls content a' answer packets,
    sendSyncInterest lifetime syncPrefix zlibCompress delay b = (b1, calls, Ok tt) /\
    FetchSync interestName lifetime ∈ calls /\
    onSyncInterest expectedNEntries lifetime freshness syncPrefix zlibCompress zlibDecompress getFullName sign passes
      None now delay syncPrefix interestName lifetime a = (a', answer, Ok tt) /\
    nameToHash_ a' = nameToHash_ a /\ storage_ a' = insert_packets getFullName packets (storage_ a) /\
    (forall d, packets !! 0%nat = Some d -> SyncPut d ∈ answer) /\
    (forall baseInterest j d, packets !! j = Some d ->
      f_outcome (fetch (fun _ => true) baseInterest (map Received (first_answer j d ++ packets)))
      = [CallOnComplete content]) /\
    let r := onSyncData lifetime syncPrefix zlibCompress None onNamesUpdate delay content interestName b1 in
    (exists names, names ≡ₚ names_to_send a b /\ CallOnNamesUpdate names ∈ calls_of r) /\
    forall name, has (state_of r) name <-> has a name \/ has b name.
Proof.
  intros He Hprefix Hz Hzm Hsign Hu Hinj Ha Hb Hsize Hdec Hne Hok Hl31 Hmod interestName Hfind.
  destruct (answer_sync_sends expectedNEntries lifetime freshness known syncPrefix zlibCompress getFullName sign passes
    He Hinj Hzm a b Ha Hb now delay lifetime Hdec Hne Hok) as (names & a' & answer & Hperm & Hans & Hst & Hsame & Hput).
  rewrite <- (onSyncInterest_answers expectedNEntries lifetime freshness syncPrefix zlibCompress zlibDecompress getFullName
    sign passes now delay (iblt_ b) lifetime a Hprefix Hfind (own_iblt_read _ known _ _ b He Hb Hz Hsize)) in Hans.
  rewrite <- (zlen_state_bytes_perm _ _ Hperm) in Hl31, Hmod.
  eexists _, _, (state_bytes names), a', answer, _. split; [reflexivity |]. split; [right; now left |].
  split; [exact Hans |]. split; [exact Hsame |]. split; [exact Hst |]. split; [exact Hput |].
  assert (Hcontent : forall n, n ∈ names <-> has a n /\ nameToHash_ b !! n = None)
    by (intros n; rewrite Hperm; apply elem_of_names_to_send).
  split.
  - intros baseInterest j d Hd.
    assert (Hpub : published (fun _ => true) (segmentPrefix_of now (sync_data_name zlibCompress (iblt_ a) interestName))
      (sync_packets freshness syncPrefix zlibCompress sign now (iblt_ a) (iblt_ b) (state_bytes names))).
    { apply packets_published; try easy; [| now right]. unfold name_fits, segmentPrefix_of, sync_data_name, interestName, sync_name, append.
      rewrite !length_app. cbn [length]. lia. }
    rewrite (fetch_complete _ _ _ Hpub baseInterest j d Hd). cbn [f_outcome]. unfold sync_packets.
    now rewrite (contents_of_packets sign Hsign).
  - cbv zeta. destruct (onSyncData_receives expectedNEntries lifetime known syncPrefix zlibCompress onNamesUpdate He Hu delay
      names interestName (set_outstanding interestName b)) as [Hcall Hhas].
    + eapply psync_ok_same; [.. | exact Hb]; easy.
    + exact (state_ok_perm _ _ (symmetry Hperm) Hok).
    + intros ->. apply Hne. now apply Permutation_nil in Hperm.
    + rewrite Hperm. apply names_to_send_NoDup.
    + apply Forall_forall. intros n Hn%Hcontent. destruct Hn as [[h Hh] _]. now apply (ok_hash _ _ _ Ha) in Hh.
    + apply Forall_forall. intros n Hn%Hcontent. apply Hn.
    + split; [now exists names |]. intros n. etransitivity; [exact (Hhas n) |].
      rewrite Hcontent. unfold has. cbn.
      split; [intros [H | [H _]]; tauto |]. intros [H | H]; [| now left].
      destruct (nameToHash_ b !! n) as [h |]; [left; now exists h | right; now split].
Qed.

(** *** Two nodes *)

Definition example_compress (bytes : list Z) : list Z := 0x78 :: bytes.
Definition example_decompress (bytes : list Z) : result exn (list Z) :=
  match bytes with 0x78 :: bytes => Ok bytes | _ => Err (RuntimeError "zlibDecompress: Error during inflate") end.

Definition example_names (name : Name) : Prop := name ∈ [[generic [97]]; [generic [98]]; [generic [99]]].
Definition example_publish (c : Z) (s : FullPSync unit) : FullPSync unit :=
  state_of (publishName 4 0 0 [generic [115]] example_compress example_fullName example_sign 10 0 0 [generic [c]] s).
Definition example_a : FullPSync unit := example_publish 98 (example_publish 97 (FullPSync_new 4 tt)).
Definition example_b : FullPSync unit := example_publish 99 (example_publish 98 (FullPSync_new 4 tt)).

Lemma example_publish_ok c s :
  example_names [generic [c]] -> psync_ok 4 example_names s -> psync_ok 4 example_names (example_publish c s).
Proof. intros Hc Hs. apply keeps_publishName; [lia | exact Hc | exact Hs]. Qed.

Lemma example_injective : hash_injective example_names.
Proof.
  unfold hash_injective, example_names. intros n m Hn Hm. rewrite !elem_of_cons, elem_of_nil in Hn, Hm.
  destruct Hn as [-> | [-> | [-> | []]]], Hm as [-> | [-> | [-> | []]]]; vm_compute; intros H; congruence.
Qed.

Lemma example_a_ok : psync_ok 4 example_names example_a.
Proof.
  apply example_publish_ok; [| apply example_publish_ok; [| apply psync_new_ok]];
    unfold example_names; rewrite !elem_of_cons; auto.
Qed.

Lemma example_b_ok : psync_ok 4 example_names example_b.
Proof.
  apply example_publish_ok; [| apply example_publish_ok; [| apply psync_new_ok]];
    unfold example_names; rewrite !elem_of_cons; auto.
Qed.

Lemma example_state_ok : names_to_send example_a example_b = [[generic [97]]] /\ state_ok [[generic [97]]].
Proof.
  split; [vm_compute; reflexivity |]. split; [| vm_compute; reflexivity].
  apply Forall_singleton. split; [| split; [| vm_compute; discriminate]]; apply Forall_singleton.
  - split; [apply Forall_singleton; unfold is_byte; lia | reflexivity].
  - discriminate.
Qed.

Definition listing (passes : nat) (t t' : HashTable) : result exn (bool * gset Z * gset Z) :=
  d ← difference t t'; listEntries passes d.

Lemma listing_complete passes t t' :
  match listing passes t t' with Ok (true, _, _) => true | _ => false end = true ->
  exists d pos neg, difference t t' = Ok d /\ listEntries passes d = Ok (true, pos, neg).
Proof.
  unfold listing. destruct (difference t t') as [d |]; [| easy]. cbn [mbind result_bind].
  destruct (listEntries passes d) as [[[[|] pos] neg] |] eqn:E; try easy. intros _. now exists d, pos, neg.
Qed.

Lemma psync_exchange_witness :
  let interestName := sync_name [generic [115]] example_compress (iblt_ example_b) in
  exists content a' answer,
    onSyncInterest 4 0 0 [generic [115]] example_compress example_decompress example_fullName example_sign 10 None 0 0
      [generic [115]] interestName 0 example_a = (a', answer, Ok tt) /\
    let b' := state_of (onSyncData 0 [generic [115]] example_compress None no_update 0 content interestName
      (state_of (sendSyncInterest 0 [generic [115]] example_compress 0 example_b))) in
    has b' [generic [97]] /\ has b' [generic [98]] /\ has b' [generic [99]].
Proof.
  cbv zeta.
  destruct (psync_exchange 4 0 0 example_names [generic [115]] example_compress example_decompress example_fullName example_sign 10
    no_update example_a example_b 0 0) as (b1 & calls & content & a' & answer & packets & Hsend & _ & Hanswer & _ & _ & _ & _ & _ & Hhas).
  - lia.
  - cbn. lia.
  - now intros.
  - now intros.
  - intros d. now split.
  - now intros.
  - apply example_injective.
  - apply example_a_ok.
  - apply example_b_ok.
  - vm_compute. reflexivity.
  - split; [vm_compute; reflexivity |]. split; [vm_compute; lia |].
    apply listing_complete. vm_compute. reflexivity.
  - rewrite (proj1 example_state_ok). discriminate.
  - rewrite (proj1 example_state_ok). apply example_state_ok.
  - vm_compute. reflexivity.
  - vm_compute. discriminate.
  - vm_compute. reflexivity.
  - exists content, a', answer. split; [exact Hanswer |]. rewrite Hsend. cbn [state_of fst].
    rewrite !Hhas. unfold has.
    split; [left | split; [left | right]]; vm_compute; eexists; reflexivity.
Defined.

(** ** The end of a pending Interest *)

(** The entry of a sync Interest that could not be answered is removed by a delayed call for the name of the
    Interest. For a name that ends with the table this is the name of the entry, and the entry is
    removed. For the other form, with a version and a segment, it is another name: the entry stays, marked
    as removed, so that no later call removes it. And when a second Interest with the name replaced the
    entry, the call for the first one removes the entry of the second one. *)
Theorem pending_removal {U} (s : FullPSync U) (iblt iblt' : HashTable) (name full : Name) (lifetime lifetime' : Z) :
  let n := length (entry_objects s) in
  let s1 := state_of (add_pending iblt name full lifetime s) in
  let s2 := state_of (add_pending iblt' name full lifetime' s1) in
  let over s := state_of (delayedRemovePendingEntry full n s) in
  calls_of (add_pending iblt name full lifetime s) = [SyncLater lifetime (LaterRemovePending full n)] /\
  pendingEntries_ s1 !! name = Some n /\
  (full = name -> pendingEntries_ (over s1) = delete name (pendingEntries_ s)) /\
  (full <> name -> pendingEntries_ (over s1) !! name = Some n /\
    entry_objects (over s1) !! n = Some (mkPendingEntry iblt true) /\
    forall name', state_of (delayedRemovePendingEntry name' n (over s1)) = over s1) /\
  pendingEntries_ s2 !! name = Some (S n) /\
  (full = name -> pendingEntries_ (over s2) !! name = None).
Proof.
  cbv zeta. set (n := length (entry_objects s)).
  assert (H1 : add_pending iblt name full lifetime s =
    (set_pending (<[name := n]> (pendingEntries_ s)) (entry_objects s ++ [mkPendingEntry iblt false]) s,
     [SyncLater lifetime (LaterRemovePending full n)], Ok tt)) by reflexivity.
  rewrite H1. cbn [state_of calls_of fst snd]. set (s1 := set_pending _ _ s).
  assert (Hn : entry_objects s1 !! n = Some (mkPendingEntry iblt false)) by (cbn; now apply list_lookup_middle).
  assert (Hover : state_of (delayedRemovePendingEntry full n s1) =
    set_pending (delete full (pendingEntries_ s1)) (mark_removed n (entry_objects s1)) s1).
  { unfold delayedRemovePendingEntry. now rewrite act_get_bind, Hn. }
  assert (Hmark : mark_removed n (entry_objects s1) !! n = Some (mkPendingEntry iblt true))
    by (unfold mark_removed; now rewrite list_lookup_alter_eq, Hn).
  split; [easy |]. split; [apply lookup_insert_eq |]. rewrite Hover. repeat split.
  - intros ->. cbn. apply delete_insert_eq.
  - cbn. rewrite lookup_delete_ne by easy. apply lookup_insert_eq.
  - exact Hmark.
  - intros name'. unfold delayedRemovePendingEntry. rewrite act_get_bind. cbn [entry_objects set_pending]. now rewrite Hmark.
  - unfold add_pending. rewrite act_get_bind, act_modify_bind. cbn. rewrite lookup_insert_eq, length_app. cbn.
    f_equal. unfold n. lia.
  - intros ->. unfold delayedRemovePendingEntry, add_pending. rewrite !act_get_bind, act_modify_bind. cbn [state_of perform fst].
    cbn [entry_objects set_pending]. rewrite lookup_app_l by (apply lookup_lt_Some in Hn; exact Hn). rewrite Hn.
    cbn. apply lookup_delete_eq.
Qed.
