(* ===== verification/PSyncUsers.v ===== *)
(** * Full synchronization of the sequence numbers of users

    src/sync/full-psync2017-with-users.cpp and src/sync/detail/psync-user-prefixes.cpp: a user is a prefix with
    a sequence number, and the names that are synchronized are the prefixes with their numbers. *)

From stdpp Require Import base list numbers option strings gmap sorting.
From Stdlib Require Import ZArith Lia.
From S2P Require Import Prelude Actions Encoder Name NameUri Data WireFormat Iblt Publisher PSyncState PSync.
Open Scope Z_scope.

(** ** PSyncUserPrefixes *)

(** The sequence numbers are of the type [int]. *)
Abbreviation UserPrefixes := (gmap Name Z).

Definition isUserNode (prefix : Name) (prefixes_ : UserPrefixes) : bool :=
  match prefixes_ !! prefix with Some _ => true | None => false end.

Definition getSequenceNo (prefix : Name) (prefixes_ : UserPrefixes) : Z :=
  match prefixes_ !! prefix with Some sequenceNo => sequenceNo | None => -1 end.

Definition addUserNode (prefix : Name) (prefixes_ : UserPrefixes) : bool * UserPrefixes :=
  if negb (isUserNode prefix prefixes_) then (true, <[prefix := 0]> prefixes_) else (false, prefixes_).

Definition prefixes_removeUserNode (prefix : Name) (prefixes_ : UserPrefixes) : UserPrefixes :=
  match prefixes_ !! prefix with Some _ => delete prefix prefixes_ | None => prefixes_ end.

(** The result, the old number and the map. *)
Definition prefixes_updateSequenceNo (prefix : Name) (sequenceNo : Z) (prefixes_ : UserPrefixes) :
    bool * Z * UserPrefixes :=
  match prefixes_ !! prefix with
  | None => (false, 0, prefixes_)
  | Some oldSequenceNo =>
      if oldSequenceNo >=? sequenceNo then (false, oldSequenceNo, prefixes_)
      else (true, oldSequenceNo, <[prefix := sequenceNo]> prefixes_)
  end.

(** [prefixes_[prefix]], which makes an entry with zero when there is none. *)
Definition prefixes_at (prefix : Name) (prefixes_ : UserPrefixes) : Z * UserPrefixes :=
  match prefixes_ !! prefix with
  | Some sequenceNo => (sequenceNo, prefixes_)
  | None => (0, <[prefix := 0]> prefixes_)
  end.

(** ** FullPSync2017WithUsers *)

Abbreviation UsersOp := (Act (FullPSync UserPrefixes) PSyncCall).

Definition on_prefixes {A} (f : UserPrefixes -> A * UserPrefixes) : UsersOp A := fun s =>
  let '(a, prefixes) := f (app_ s) in (set_app prefixes s, [], Ok a).

(** [Name(prefix).appendNumber(sequenceNo)]; the number is converted to [uint64_t]. *)
Definition user_name (prefix : Name) (sequenceNo : Z) : result exn Name :=
  component ← fromNumber (wrap64 sequenceNo) GENERIC (-1);
  mret (append prefix component).

Definition remove_user_name (prefix : Name) (sequenceNo : Z) : UsersOp unit :=
  name ← returns (user_name prefix sequenceNo); removeName name.

Definition users_removeUserNode (prefix : Name) : UsersOp unit :=
  s ← self_get;
  if isUserNode prefix (app_ s) then
    sequenceNo ← on_prefixes (prefixes_at prefix);
    _ ← on_prefixes (fun p => (tt, prefixes_removeUserNode prefix p));
    remove_user_name prefix sequenceNo
  else mret tt.

(** The prefix and the sequence number of a received name, as an [int]. *)
Definition received_number (name : Name) : result exn (Name * Z) :=
  last ← name_get name (-1);
  mret (getPrefix name (-1), to_int32 (toNumber last)).

Definition canAddReceivedName (name : Name) : UsersOp bool :=
  '(prefix, sequenceNo) ← returns (received_number name);
  s ← self_get;
  if negb (isUserNode prefix (app_ s)) then mret true
  else
    oldSequenceNo ← on_prefixes (prefixes_at prefix);
    if oldSequenceNo <? sequenceNo then
      _ ← (if negb (oldSequenceNo =? 0) then remove_user_name prefix oldSequenceNo else mret tt);
      mret true
    else mret false.

Fixpoint add_updates (names : list Name) (updates : list (Name * Z * Z)) : UsersOp (list (Name * Z * Z)) :=
  match names with
  | [] => mret updates
  | name :: names =>
      '(prefix, sequenceNo) ← returns (received_number name);
      oldSequenceNo ← on_prefixes (prefixes_at prefix);
      _ ← on_prefixes (fun p => (tt, <[prefix := sequenceNo]> p));
      add_updates names (updates ++ [(prefix, to_int32 (oldSequenceNo + 1), sequenceNo)])
  end.

Section Users.
(** [onUpdate_] of the application. *)
Context (onUpdate : list (Name * Z * Z) -> UsersOp unit).

Definition users_onNamesUpdate (names : list Name) : UsersOp unit :=
  updates ← add_updates names [];
  catch (_ ← perform (CallOnUpdate updates); onUpdate updates) (fun _ => mret tt).

(** The next sequence number of the user is not one that the other node has already. *)
Definition isNotFutureHash (name : Name) (negative : gset Z) : UsersOp bool :=
  let prefix := getPrefix name (-1) in
  sequenceNo ← on_prefixes (prefixes_at prefix);
  next ← returns (user_name prefix (to_int32 (sequenceNo + 1)));
  mret (negb (bool_decide (hash_of next ∈ negative))).

Definition users_updateSequenceNo (prefix : Name) (sequenceNo : Z) : UsersOp bool :=
  '(updated, oldSequenceNo) ← on_prefixes (fun p =>
    let '(updated, old, p) := prefixes_updateSequenceNo prefix sequenceNo p in ((updated, old), p));
  if negb updated then mret false
  else
    _ ← (if negb (oldSequenceNo =? 0) then remove_user_name prefix oldSequenceNo else mret tt);
    mret true.

Context (expectedNEntries syncInterestLifetime_ syncReplyFreshnessPeriod_ : Z) (syncPrefix_ : Name).
Context (zlibCompress : list Z -> list Z).
Context (getFullName : DataValue -> Name) (sign : DataValue -> DataValue) (passes : nat).

Definition users_publishName (now delay : Z) (prefix : Name) (sequenceNo : Z) : UsersOp unit :=
  s ← self_get;
  if negb (isUserNode prefix (app_ s)) then mret tt
  else
    newSequenceNo ← (if sequenceNo >=? 0 then mret sequenceNo
                     else old ← on_prefixes (prefixes_at prefix); mret (to_int32 (old + 1)));
    updated ← users_updateSequenceNo prefix newSequenceNo;
    if updated : bool then
      name ← returns (user_name prefix newSequenceNo);
      publishName expectedNEntries syncInterestLifetime_ syncReplyFreshnessPeriod_ syncPrefix_ zlibCompress getFullName
        sign passes now delay name
    else mret tt.
End Users.

(** ** Publishing a sequence number *)

Definition has_name (s : FullPSync UserPrefixes) (name : Name) : Prop := is_Some (nameToHash_ s !! name).

Section Publishing.
Implicit Types (m : gmap Name Z) (u : UserPrefixes).
Context (expectedNEntries lifetime freshness : Z) (known : Name -> Prop) (syncPrefix : Name) (zlibCompress : list Z -> list Z).
Context (getFullName : DataValue -> Name) (sign : DataValue -> DataValue) (passes : nat).

(** Answering pending Interests changes neither the names nor the users. *)
Definition same_names (m : gmap Name Z) (u : UserPrefixes) (s : FullPSync UserPrefixes) : Prop :=
  nameToHash_ s = m /\ app_ s = u.

Ltac same_step :=
  lazymatch goal with
  | |- keeps _ (self_get ≫= _) => apply keeps_get; intros ? ?
  | |- keeps _ (self_modify _) => apply keeps_modify; intros ? [<- <-]; now split
  | |- keeps _ (if ?b then _ else _) => destruct b
  | |- keeps _ (let '(_, _) := ?x in _) => destruct x
  | |- keeps _ (match ?x with _ => _ end) => destruct x eqn:?
  | |- _ => keeps_step
  end.

Lemma same_with_publisher {A} m u (op : Act Storage PublisherCall A) : keeps (same_names m u) (with_publisher op).
Proof. intros s [<- <-]. unfold with_publisher. now destruct (op (storage_ s)) as [[st c] r]. Qed.

Lemma same_name_of_hash m u hash : keeps (same_names m u) (name_of_hash hash).
Proof.
  unfold name_of_hash. apply keeps_get_bind. intros s [<- <-]. destruct (hashToName_ s !! hash); now split.
Qed.

Lemma same_add_contents m u hashes : forall content,
  keeps (same_names m u) (add_contents (fun _ => mret true) hashes content).
Proof.
  induction hashes as [| hash hashes IH]; intros content; cbn [add_contents]; repeat same_step; auto using same_name_of_hash.
Qed.

Lemma same_sendSyncData m u now delay name content :
  keeps (same_names m u) (sendSyncData lifetime freshness syncPrefix zlibCompress getFullName sign now delay name content).
Proof. unfold sendSyncData, sendSyncInterest. repeat (same_step || apply same_with_publisher). Qed.

Lemma same_satisfyPendingInterests m u now delay :
  keeps (same_names m u) (satisfyPendingInterests expectedNEntries lifetime freshness syncPrefix zlibCompress getFullName
    sign passes now delay).
Proof.
  unfold satisfyPendingInterests, satisfy_entry, erase_pending.
  repeat same_step; auto using same_sendSyncData, same_add_contents.
Qed.

Hypothesis Hexpected : 1 <= expectedNEntries.

Lemma publishName_names now delay name s :
  psync_ok expectedNEntries known s ->
  let s' := state_of (publishName expectedNEntries lifetime freshness syncPrefix zlibCompress getFullName sign passes
    now delay name s) in
  app_ s' = app_ s /\ has_name s' name /\ forall n, n <> name -> nameToHash_ s' !! n = nameToHash_ s !! n.
Proof.
  intros Hs. cbv zeta. unfold publishName. rewrite act_get_bind. destruct (nameToHash_ s !! name) eqn:E.
  - split; [easy |]. split; [| easy]. now exists z.
  - rewrite (act_bind_ok _ _ _ _ _ _ (insertIntoIblt_eq expectedNEntries known Hexpected name s Hs E)).
    pose proof (same_satisfyPendingInterests _ _ now delay (inserted expectedNEntries name s) (conj eq_refl eq_refl)) as [Hm Hu].
    unfold state_of in *. destruct (satisfyPendingInterests _ _ _ _ _ _ _ _ _ _ _) as [[s1 c1] r1]. cbn in *.
    rewrite Hm. split; [exact Hu |]. split.
    + unfold has_name. rewrite Hm. exists (hash_of name). apply lookup_insert_eq.
    + intros n Hn. now apply lookup_insert_ne.
Qed.

(** The name of a user with a number. *)
Definition numbered (prefix : Name) (sequenceNo : Z) : Name :=
  append prefix (mkComponent GENERIC (-1) (nonNegativeInteger_bytes (wrap64 sequenceNo))).

Lemma user_name_numbered prefix sequenceNo : user_name prefix sequenceNo = Ok (numbered prefix sequenceNo).
Proof. unfold user_name. now rewrite fromNumber_bytes. Qed.

Lemma numbered_inj prefix n k : 0 <= n < 2 ^ 31 -> 0 <= k < 2 ^ 31 -> numbered prefix n = numbered prefix k -> n = k.
Proof.
  intros Hn Hm. unfold numbered, append. rewrite !wrap64_small by lia. intros H. apply app_inv_head in H. injection H as H.
  apply (f_equal be_decode) in H. rewrite !be_decode_nonNegativeInteger in H by lia. exact H.
Qed.

Lemma removeName_names (name : Name) (s : FullPSync UserPrefixes) :
  psync_ok expectedNEntries known s ->
  exists s', removeName name s = (s', [], Ok tt) /\ psync_ok expectedNEntries known s' /\ app_ s' = app_ s /\
    nameToHash_ s' = delete name (nameToHash_ s).
Proof.
  intros Hs. unfold removeName. rewrite (removeFromIblt_eq expectedNEntries known Hexpected name s Hs).
  destruct (nameToHash_ s !! name) as [hash |] eqn:E.
  - eexists. split; [reflexivity |]. split; [now apply removed_ok |]. now split.
  - exists s. split; [easy |]. split; [easy |]. split; [easy |]. now rewrite delete_id.
Qed.

Lemma updateSequenceNo_greater (prefix : Name) (sequenceNo old : Z) (s : FullPSync UserPrefixes) :
  psync_ok expectedNEntries known s -> app_ s !! prefix = Some old -> old < sequenceNo ->
  exists s', users_updateSequenceNo prefix sequenceNo s = (s', [], Ok true) /\ psync_ok expectedNEntries known s' /\
    app_ s' = <[prefix := sequenceNo]> (app_ s) /\
    nameToHash_ s' = if old =? 0 then nameToHash_ s else delete (numbered prefix old) (nameToHash_ s).
Proof.
  intros Hs Hold Hlt. unfold users_updateSequenceNo.
  assert (H1 : on_prefixes (fun p => let '(updated, old, p) := prefixes_updateSequenceNo prefix sequenceNo p in ((updated, old), p)) s
    = (set_app (<[prefix := sequenceNo]> (app_ s)) s, [], Ok (true, old))).
  { unfold on_prefixes, prefixes_updateSequenceNo. rewrite Hold. destruct (Z.geb_spec old sequenceNo); [lia |]. reflexivity. }
  rewrite (act_bind_ok _ _ _ _ _ _ H1). cbn [negb]. set (s1 := set_app _ s).
  assert (Hs1 : psync_ok expectedNEntries known s1) by (eapply psync_ok_same; [.. | exact Hs]; easy).
  destruct (old =? 0); cbn [negb].
  - exists s1. split; [reflexivity |]. now split.
  - destruct (removeName_names (numbered prefix old) s1 Hs1) as (s2 & Hr & Hs2 & Ha & Hn). exists s2.
    unfold remove_user_name. rewrite user_name_numbered.
    assert (H2 : (name ← returns (Ok (numbered prefix old)); removeName name) s1 = (s2, [] : list PSyncCall, Ok tt))
      by now rewrite act_returns_bind.
    rewrite (act_bind_ok _ _ _ _ _ _ H2). split; [reflexivity |]. split; [exact Hs2 |]. now rewrite Ha.
Qed.
End Publishing.

(** Publishing for a user. A sequence number that is not greater than the one of the user changes nothing. A
    greater one, or the next one when none is given, replaces it: the node has the prefix with the
    new number and no longer the one with the old number, and the other names and users stay. *)
Theorem users_publish (expectedNEntries lifetime freshness : Z) (known : Name -> Prop) (syncPrefix : Name)
    (zlibCompress : list Z -> list Z) (getFullName : DataValue -> Name) (sign : DataValue -> DataValue) (passes : nat)
    (now delay : Z) (prefix : Name) (sequenceNo old : Z) (s : FullPSync UserPrefixes) :
  1 <= expectedNEntries -> psync_ok expectedNEntries known s ->
  app_ s !! prefix = Some old -> 0 <= old < 2 ^ 31 - 1 -> sequenceNo < 2 ^ 31 ->
  let new := if sequenceNo >=? 0 then sequenceNo else old + 1 in
  let s' := state_of (users_publishName expectedNEntries lifetime freshness syncPrefix zlibCompress getFullName sign
    passes now delay prefix sequenceNo s) in
  if new <=? old then s' = s
  else
    app_ s' = <[prefix := new]> (app_ s) /\ has_name s' (numbered prefix new) /\
    (old <> 0 -> ~ has_name s' (numbered prefix old)) /\
    forall name, name <> numbered prefix new -> name <> numbered prefix old -> nameToHash_ s' !! name = nameToHash_ s !! name.
Proof.
  intros He Hs Hold Hrange Hseq. cbv zeta. set (new := if sequenceNo >=? 0 then sequenceNo else old + 1).
  assert (Hnew : new < 2 ^ 31) by (unfold new; destruct (sequenceNo >=? 0); lia).
  unfold users_publishName. rewrite act_get_bind. unfold isUserNode. rewrite Hold. cbn [negb].
  assert (Hnum : (if sequenceNo >=? 0 then mret sequenceNo
     else old ← on_prefixes (prefixes_at prefix); mret (to_int32 (old + 1))) s = (s, [] : list PSyncCall, Ok new)).
  { unfold new. destruct (sequenceNo >=? 0); [easy |]. unfold mbind, Act_bind, on_prefixes, prefixes_at. rewrite Hold.
    unfold mret, Act_ret, set_app. rewrite to_int32_small by lia. now destruct s. }
  rewrite (act_bind_ok _ _ _ _ _ _ Hnum). destruct (Z.leb_spec new old) as [Hle | Hlt].
  - unfold users_updateSequenceNo, mbind, Act_bind, on_prefixes, prefixes_updateSequenceNo. rewrite Hold.
    destruct (Z.geb_spec old new); [| lia]. cbn. unfold set_app. now destruct s.
  - destruct (updateSequenceNo_greater expectedNEntries known He prefix new old s Hs Hold Hlt) as (s1 & H1 & Hs1 & Ha1 & Hn1).
    rewrite (act_bind_ok _ _ _ _ _ _ H1). rewrite user_name_numbered, act_returns_bind.
    pose proof (publishName_names expectedNEntries lifetime freshness known syncPrefix zlibCompress getFullName sign passes
      He now delay (numbered prefix new) s1 Hs1) as (Ha & Hhas & Hother). cbv zeta in *.
    unfold state_of in *. destruct (publishName _ _ _ _ _ _ _ _ _ _ _ s1) as [[s2 c2] r2]. cbn in *.
    assert (Hne : numbered prefix old <> numbered prefix new).
    { intros H. apply numbered_inj in H; lia. }
    split; [congruence |]. split; [exact Hhas |]. split.
    + intros Hz. unfold has_name. rewrite Hother, Hn1 by easy. rewrite (proj2 (Z.eqb_neq old 0) Hz), lookup_delete_eq.
      apply is_Some_None.
    + intros name Hn Ho. rewrite Hother, Hn1 by easy. destruct (old =? 0); [easy |]. now apply lookup_delete_ne.
Qed.

(** *** A node with one user *)

Definition example_user : Name := [generic [117]].
Definition example_users : FullPSync UserPrefixes := FullPSync_new 4 {[example_user := 0]}.

Lemma users_publish_witness :
  let s' := state_of (users_publishName 4 0 0 [generic [115]] (fun b => b) example_fullName example_sign 10 0 0
    example_user (-1) example_users) in
  app_ s' = <[example_user := 1]> (app_ example_users) /\ has_name s' (numbered example_user 1).
Proof.
  destruct (users_publish 4 0 0 (fun _ => True) [generic [115]] (fun b => b) example_fullName example_sign 10 0 0
    example_user (-1) 0 example_users) as (H1 & H2 & _).
  - lia.
  - apply psync_new_ok.
  - vm_compute. reflexivity.
  - lia.
  - lia.
  - now split.
Defined.

(** Two numbers of a new user in one packet. A node gets a packet with the numbers 2 and 1 of a user that it does not
    know, in this order. It accepts both, since the number of the user is only set when all names
    were accepted; afterwards it has both names, and the number of the user is 1, not 2. *)
Theorem users_two_numbers :
  let content := [numbered example_user 2; numbered example_user 1] in
  let r := onSyncData 0 [generic [115]] (fun b => b) (Some canAddReceivedName) (users_onNamesUpdate (fun _ => mret tt)) 0
    (state_bytes content) [generic [115]; generic [116]] (FullPSync_new 4 (∅ : UserPrefixes)) in
  result_of r = Ok tt /\ has_name (state_of r) (numbered example_user 2) /\ has_name (state_of r) (numbered example_user 1) /\
  getSequenceNo example_user (app_ (state_of r)) = 1 /\
  CallOnUpdate [(example_user, 1, 2); (example_user, 3, 1)] ∈ calls_of r.
Proof.
  cbv zeta. split; [vm_compute; reflexivity |]. split; [vm_compute; eexists; reflexivity |].
  split; [vm_compute; eexists; reflexivity |]. split; [vm_compute; reflexivity |].
  assert (H : nth_error (calls_of (onSyncData 0 [generic [115]] (fun b => b) (Some canAddReceivedName)
    (users_onNamesUpdate (fun _ => mret tt)) 0 (state_bytes [numbered example_user 2; numbered example_user 1])
    [generic [115]; generic [116]] (FullPSync_new 4 (∅ : UserPrefixes)))) 1 =
    Some (CallOnUpdate [(example_user, 1, 2); (example_user, 3, 1)])) by (vm_compute; reflexivity).
  apply list_elem_of_In. exact (nth_error_In _ _ H).
Qed.
