(* ===== verification/DigestTree.v ===== *)
(** * The digest tree of ChronoSync

    src/sync/digest-tree.cpp and digest-tree.hpp: what is known of every producer, in the order of the data prefixes and
    session numbers, with a digest of all of it. *)

From stdpp Require Import base sorting list numbers option strings.
From Stdlib Require Import ZArith Lia.
From S2P Require Import Prelude Order NameUri.
Open Scope Z_scope.

Section DigestTree.
(** SHA-256. *)
Context (sha256 : list Z -> list Z).

Record TreeNode := mkTreeNode {
  dataPrefix_ : list Z;
  node_sessionNo_ : Z;
  node_sequenceNo_ : Z;
  digest_ : list Z
}.

Record DigestTree := mkDigestTree { digestNode_ : list TreeNode; root_ : list Z }.

Definition DigestTree_new : DigestTree := mkDigestTree [] (chars "00").

(** The loop over four bytes. *)
Fixpoint little_endian_bytes (n : nat) (value : Z) : list Z :=
  match n with
  | O => []
  | S n => value mod 256 :: little_endian_bytes n (value / 256)
  end.
Definition int32ToLittleEndian (value : Z) : list Z := little_endian_bytes 4 (value mod 2 ^ 32).

Definition hex_string (array : list Z) : list Z := str (toHex array empty_stream).

Definition recomputeDigest (dataPrefix : list Z) (sessionNo sequenceNo : Z) : list Z :=
  let sequenceDigest := sha256 (int32ToLittleEndian sessionNo ++ int32ToLittleEndian sequenceNo) in
  let nameDigest := sha256 dataPrefix in
  hex_string (sha256 (nameDigest ++ sequenceDigest)).

Definition TreeNode_new (dataPrefix : list Z) (sessionNo sequenceNo : Z) : TreeNode :=
  mkTreeNode dataPrefix sessionNo sequenceNo (recomputeDigest dataPrefix sessionNo sequenceNo).
Definition setSequenceNo (sequenceNo : Z) (node : TreeNode) : TreeNode :=
  TreeNode_new (dataPrefix_ node) (node_sessionNo_ node) sequenceNo.

(** [std::string::compare], and the comparison of nodes. *)
Definition string_compare (a b : list Z) : Z := lex Z.sub a b.
Definition nodeCompare_ (node1 node2 : TreeNode) : bool :=
  let nameComparison := string_compare (dataPrefix_ node1) (dataPrefix_ node2) in
  if negb (nameComparison =? 0) then nameComparison <? 0 else node_sessionNo_ node1 <? node_sessionNo_ node2.

Definition fromHexChar (c : Z) : Z :=
  if (c >=? 48) && (c <=? 57) then c - 48
  else if (c >=? 65) && (c <=? 70) then c - 65 + 10
  else if (c >=? 97) && (c <=? 102) then c - 97 + 10
  else -1.

(** What [SHA256_UpdateHex] adds to the digest; an odd digit at the end is left out. *)
Fixpoint hex_data (hex : list Z) : list Z :=
  match hex with
  | a :: b :: hex => (16 * fromHexChar a + fromHexChar b) mod 256 :: hex_data hex
  | _ => []
  end.

Definition recomputeRoot (nodes : list TreeNode) : list Z :=
  hex_string (sha256 (concat (map (fun node => hex_data (digest_ node)) nodes))).

(** [find]: an index, or -1. *)
Fixpoint find_node (i : Z) (nodes : list TreeNode) (dataPrefix : list Z) (sessionNo : Z) : Z :=
  match nodes with
  | [] => -1
  | node :: nodes =>
      if bool_decide (dataPrefix_ node = dataPrefix) && (node_sessionNo_ node =? sessionNo) then i
      else find_node (i + 1) nodes dataPrefix sessionNo
  end.
Definition digest_find (dataPrefix : list Z) (sessionNo : Z) (tree : DigestTree) : Z :=
  find_node 0 (digestNode_ tree) dataPrefix sessionNo.

(** The nodes with one inserted at its [std::lower_bound]. *)
Fixpoint insert_node (temp : TreeNode) (nodes : list TreeNode) : list TreeNode :=
  match nodes with
  | [] => [temp]
  | node :: nodes => if nodeCompare_ node temp then node :: insert_node temp nodes else temp :: node :: nodes
  end.

Definition tree_update (dataPrefix : list Z) (sessionNo sequenceNo : Z) (tree : DigestTree) : DigestTree * bool :=
  let nodes := digestNode_ tree in
  let index := digest_find dataPrefix sessionNo tree in
  if index >=? 0 then
    match nodes !! Z.to_nat index with
    | Some node =>
        if node_sequenceNo_ node <? sequenceNo then
          let nodes := <[Z.to_nat index := setSequenceNo sequenceNo node]> nodes in
          (mkDigestTree nodes (recomputeRoot nodes), true)
        else (tree, false)
    | None => (tree, false)
    end
  else
    let nodes := insert_node (TreeNode_new dataPrefix sessionNo sequenceNo) nodes in
    (mkDigestTree nodes (recomputeRoot nodes), true).

(** ** What a tree holds

    The nodes are sorted, with the digests of their fields, and the root is the digest of them all. *)

Definition key (node : TreeNode) : list Z * Z := (dataPrefix_ node, node_sessionNo_ node).
Definition key_less (a b : list Z * Z) : Prop := string_compare a.1 b.1 < 0 \/ a.1 = b.1 /\ a.2 < b.2.

Lemma Zsub_total : TotalCompare Z.sub.
Proof. split; intros; lia. Qed.
#[local] Existing Instance Zsub_total.

Lemma string_compare_zero a b : string_compare a b = 0 <-> a = b.
Proof.
  unfold string_compare. rewrite lex_zero_eq. split; [| intros ->; induction b; constructor; [lia | easy]].
  induction 1 as [| x y a b Hx _ IH]; [easy |]. f_equal; [lia | easy].
Qed.

Lemma nodeCompare_less a b : nodeCompare_ a b = true <-> key_less (key a) (key b).
Proof.
  unfold nodeCompare_, key_less, key. cbn [fst snd]. destruct (Z.eqb_spec (string_compare (dataPrefix_ a) (dataPrefix_ b)) 0) as [E | E]; cbn [negb].
  - rewrite E, Z.ltb_lt. apply string_compare_zero in E. split; [now right | intros [? | [_ ?]]; [lia | easy]].
  - rewrite Z.ltb_lt. split; [now left |]. intros [? | [Hx _]]; [easy |]. apply string_compare_zero in Hx. easy.
Qed.

Lemma key_less_trans a b c : key_less a b -> key_less b c -> key_less a c.
Proof.
  unfold key_less, string_compare. intros [H1 | [-> H1]] [H2 | [E2 H2]].
  - left. now apply (cmp_lt_trans (cmp := lex Z.sub) _ b.1).
  - left. now rewrite <- E2.
  - now left.
  - right. split; [easy | lia].
Qed.

Lemma key_less_irrefl a : ~ key_less a a.
Proof. unfold key_less, string_compare. rewrite (tc_refl (cmp := lex Z.sub)). intros [? | [_ ?]]; lia. Qed.

Lemma key_less_total a b : key_less a b \/ a = b \/ key_less b a.
Proof.
  unfold key_less, string_compare. pose proof (tc_antisym (cmp := lex Z.sub) a.1 b.1).
  destruct (Z.lt_trichotomy (lex Z.sub a.1 b.1) 0) as [? | [E | ?]]; [now do 2 left | | do 2 right; left; lia].
  apply string_compare_zero in E. destruct a as [a i], b as [b j]. cbn in *. subst b.
  destruct (Z.lt_trichotomy i j) as [? | [-> | ?]]; [left | right; left | do 2 right]; auto.
Qed.

Record tree_ok (t : DigestTree) : Prop := {
  to_sorted : StronglySorted (fun a b => key_less (key a) (key b)) (digestNode_ t);
  to_nodes : Forall (fun n => n = TreeNode_new (dataPrefix_ n) (node_sessionNo_ n) (node_sequenceNo_ n)) (digestNode_ t);
  to_root : root_ t = match digestNode_ t with [] => chars "00" | nodes => recomputeRoot nodes end
}.

Lemma tree_ok_new : tree_ok DigestTree_new.
Proof. split; constructor. Qed.

Definition is_key (p : list Z) (s : Z) (n : TreeNode) : bool := bool_decide (dataPrefix_ n = p) && (node_sessionNo_ n =? s).

Lemma is_key_true p s n : is_key p s n = true <-> key n = (p, s).
Proof.
  unfold is_key, key. rewrite andb_true_iff, bool_decide_eq_true, Z.eqb_eq. split; [now intros [-> ->] | now intros [= -> ->]].
Qed.

(** The sequence number that the tree has for a producer. *)
Definition sequence_known (t : DigestTree) (p : list Z) (s : Z) : option Z :=
  node_sequenceNo_ <$> List.find (is_key p s) (digestNode_ t).

Lemma find_node_spec p s nodes i :
  0 <= i ->
  match List.find (is_key p s) nodes with
  | Some n => exists j, find_node i nodes p s = i + Z.of_nat j /\ nodes !! j = Some n /\ key n = (p, s)
  | None => find_node i nodes p s = -1
  end.
Proof.
  revert i. induction nodes as [| n nodes IH]; intros i Hi; cbn [find_node List.find]; [easy |].
  fold (is_key p s n). destruct (is_key p s n) eqn:E.
  - exists 0%nat. split; [cbn; lia |]. split; [easy |]. now apply is_key_true.
  - specialize (IH (i + 1) ltac:(lia)). destruct (List.find _ nodes) as [m |]; [| easy].
    destruct IH as (j & -> & Hj & Hk). exists (S j). split; [lia |]. easy.
Qed.

Lemma find_app {A} (f : A -> bool) l l' :
  List.find f (l ++ l') = match List.find f l with Some a => Some a | None => List.find f l' end.
Proof. induction l as [| a l IH]; cbn; [easy |]. now destruct (f a). Qed.

(** Sorted nodes with the same sequence numbers are the same. *)
Lemma nodes_in p s nodes :
  StronglySorted (fun a b => key_less (key a) (key b)) nodes ->
  forall n, n ∈ nodes -> key n = (p, s) -> List.find (is_key p s) nodes = Some n.
Proof.
  intros Hs. induction Hs as [| m nodes Hs IH Hm]; intros n Hn Hk; [now apply elem_of_nil in Hn |]. cbn [List.find].
  destruct (is_key p s m) eqn:E.
  - apply elem_of_cons in Hn as [-> | Hn]; [easy |]. rewrite Forall_forall in Hm. specialize (Hm n Hn). apply is_key_true in E.
    rewrite E, Hk in Hm. now apply key_less_irrefl in Hm.
  - apply elem_of_cons in Hn as [-> | Hn]; [| now apply IH]. apply is_key_true in Hk. congruence.
Qed.

Lemma find_in p s nodes n : List.find (is_key p s) nodes = Some n -> n ∈ nodes /\ key n = (p, s).
Proof. intros H. apply List.find_some in H as [Hin Hk]. split; [now apply list_elem_of_In | now apply is_key_true]. Qed.

Lemma tree_ext t t' : tree_ok t -> tree_ok t' -> (forall p s, sequence_known t p s = sequence_known t' p s) -> t = t'.
Proof.
  intros [Hs Hn Hr] [Hs' Hn' Hr'] Hx.
  assert (E : digestNode_ t = digestNode_ t').
  { apply (StronglySorted_unique_strong (fun a b => key_less (key a) (key b))); [| easy | easy |].
    - intros a b _ _ H1 H2. exfalso. now apply (key_less_irrefl (key a)), (key_less_trans _ (key b)).
    - assert (Hnd : forall l, StronglySorted (fun a b => key_less (key a) (key b)) l -> NoDup l).
      { induction 1 as [| a l _ IH Ha]; constructor; [| easy]. intros Hin. rewrite Forall_forall in Ha. now apply (key_less_irrefl (key a)), Ha. }
      apply NoDup_Permutation; [now apply Hnd | now apply Hnd |].
      assert (Hsub : forall l l', StronglySorted (fun a b => key_less (key a) (key b)) l ->
        Forall (fun n => n = TreeNode_new (dataPrefix_ n) (node_sessionNo_ n) (node_sequenceNo_ n)) l ->
        Forall (fun n => n = TreeNode_new (dataPrefix_ n) (node_sessionNo_ n) (node_sequenceNo_ n)) l' ->
        (forall p s, node_sequenceNo_ <$> List.find (is_key p s) l = node_sequenceNo_ <$> List.find (is_key p s) l') -> forall n, n ∈ l -> n ∈ l').
      { intros l l' Hl Hf Hf' Heq n Hin. specialize (Heq (dataPrefix_ n) (node_sessionNo_ n)).
        rewrite (nodes_in _ _ l Hl n Hin eq_refl) in Heq. destruct (List.find _ l') as [m |] eqn:Em; [| easy].
        apply find_in in Em as [Hm Hk]. injection Heq as Heq. rewrite Forall_forall in Hf, Hf'.
        rewrite (Hf n Hin), Heq. injection Hk as <- <-. now rewrite <- (Hf' m Hm). }
      intros n. split; (apply Hsub; try easy); intros p s; symmetry; apply (Hx p s). }
  destruct t as [nodes root], t' as [nodes' root']. cbn in *. subst. reflexivity.
Qed.

(** *** An update *)

Abbreviation nodes_sorted := (StronglySorted (fun a b => key_less (key a) (key b))).

Lemma sorted_keys l l' : key <$> l = key <$> l' -> nodes_sorted l -> nodes_sorted l'.
Proof.
  intros E Hs. revert l' E. induction Hs as [| a l Hs IH Ha]; intros [| b l'] E; try easy; [constructor |].
  rewrite !fmap_cons in E. assert (Eb : key b = key a) by congruence. apply (f_equal tail) in E. cbn [tail] in E.
  constructor; [now apply IH |]. rewrite Eb. apply Forall_forall. intros c Hc.
  assert (Hk : key c ∈ key <$> l') by now apply list_elem_of_fmap_2. rewrite <- E in Hk. apply list_elem_of_fmap in Hk as (d & -> & Hd).
  rewrite Forall_forall in Ha. now apply Ha.
Qed.

Lemma insert_node_in n m l : n ∈ insert_node m l <-> n = m \/ n ∈ l.
Proof.
  induction l as [| a l IH]; cbn [insert_node]; [rewrite list_elem_of_singleton; split; [auto |]; intros [? | H]; [easy | now apply elem_of_nil in H] |].
  destruct (nodeCompare_ a m); rewrite !elem_of_cons; [rewrite IH |]; tauto.
Qed.

Lemma insert_node_sorted m l : nodes_sorted l -> (forall n, n ∈ l -> key n <> key m) -> nodes_sorted (insert_node m l).
Proof.
  intros Hs. induction Hs as [| a l Hs IH Ha]; intros Hk; cbn [insert_node]; [repeat constructor |].
  destruct (nodeCompare_ a m) eqn:E.
  - apply nodeCompare_less in E. constructor; [apply IH; intros n Hn; apply Hk; now constructor |].
    apply Forall_forall. intros n [-> | Hn]%insert_node_in; [easy |]. rewrite Forall_forall in Ha. now apply Ha.
  - assert (Hlt : key_less (key m) (key a)).
    { destruct (key_less_total (key m) (key a)) as [? | [Eq | Hx]]; [easy | | apply nodeCompare_less in Hx; congruence].
      destruct (Hk a); [constructor | easy]. }
    constructor; [now constructor |]. apply Forall_forall. intros n [-> | Hn]%elem_of_cons; [easy |].
    rewrite Forall_forall in Ha. now apply (key_less_trans _ (key a)), Ha.
Qed.

Lemma sequence_known_in t p s q : tree_ok t -> sequence_known t p s = Some q <-> TreeNode_new p s q ∈ digestNode_ t.
Proof.
  intros [Hs Hn _]. unfold sequence_known. split.
  - destruct (List.find _ _) as [n |] eqn:E; [| easy]. intros [= <-]. apply find_in in E as [Hin Hk].
    rewrite Forall_forall in Hn. injection Hk as <- <-. now rewrite <- (Hn n Hin).
  - intros Hin. now rewrite (nodes_in p s _ Hs _ Hin eq_refl).
Qed.

(** The later of two sequence numbers. *)
Definition later_of (old : option Z) (q : Z) : option Z :=
  match old with Some q' => Some (Z.max q' q) | None => Some q end.

Lemma tree_update_ok p s q t : tree_ok t ->
  tree_ok (tree_update p s q t).1 /\
  (forall p' s', sequence_known (tree_update p s q t).1 p' s' =
     if decide (p' = p /\ s' = s) then later_of (sequence_known t p s) q else sequence_known t p' s') /\
  ((tree_update p s q t).2 = true <-> sequence_known t p s <> later_of (sequence_known t p s) q).
Proof.
  intros Ht. pose proof Ht as [Hs Hn Hr]. unfold tree_update, digest_find. pose proof (find_node_spec p s (digestNode_ t) 0 ltac:(lia)) as Hf.
  unfold sequence_known at 2 4 5. destruct (List.find (is_key p s) (digestNode_ t)) as [n |] eqn:E.
  - destruct Hf as (j & Ej & Hj & Hk). rewrite Ej. cbn [Z.add]. destruct (Z.geb_spec (0 + Z.of_nat j) 0); [| lia].
    replace (Z.to_nat (0 + Z.of_nat j)) with j by lia. rewrite Hj. cbn [fmap option_fmap option_map later_of].
    assert (Hseq : sequence_known t p s = Some (node_sequenceNo_ n)) by (unfold sequence_known; now rewrite E).
    destruct (Z.ltb_spec (node_sequenceNo_ n) q) as [Hlt | Hge]; cbn [fst snd].
    + set (m := setSequenceNo q n). set (nodes := <[j := m]> (digestNode_ t)).
      assert (Hm : m = TreeNode_new p s q) by (unfold m, setSequenceNo; now injection Hk as -> ->).
      assert (Hok : tree_ok (mkDigestTree nodes (recomputeRoot nodes))).
      { split; cbn.
        - apply (sorted_keys (digestNode_ t)); [| easy]. unfold nodes. rewrite list_fmap_insert. symmetry. apply list_insert_id.
          rewrite list_lookup_fmap, Hj. cbn. now rewrite Hk, Hm.
        - unfold nodes. apply Forall_insert; [easy |]. now rewrite Hm.
        - destruct nodes eqn:En; [| easy]. apply (f_equal length) in En. unfold nodes in En. rewrite length_insert in En.
          pose proof (lookup_lt_Some _ _ _ Hj). cbn in En. lia. }
      split; [easy |]. split.
      * intros p' s'. pose proof (lookup_lt_Some _ _ _ Hj) as Hlen. unfold sequence_known. cbn [digestNode_]. destruct (decide _) as [[-> ->] | Hne].
        { rewrite (nodes_in p s nodes (to_sorted _ Hok) m); [| | now rewrite Hm].
          - rewrite Hm. cbn. f_equal. lia.
          - apply (list_elem_of_lookup_2 _ j). unfold nodes. now apply list_lookup_insert_eq. }
        assert (Hkey : forall x, key x = (p, s) -> is_key p' s' x = false).
        { intros x Hx. apply not_true_iff_false. rewrite is_key_true. intros Hx'. destruct Hne. rewrite Hx in Hx'. now injection Hx' as -> ->. }
        unfold nodes. rewrite <- (take_drop_middle _ _ _ Hj) at 2. rewrite insert_take_drop by easy. rewrite !find_app.
        cbn [List.find]. now rewrite (Hkey n Hk), (Hkey m) by now rewrite Hm.
      * split; [intros _ | easy]. intros [= Hx]. lia.
    + split; [easy |]. split.
      * intros p' s'. destruct (decide _) as [[-> ->] |]; [| easy]. rewrite Hseq. f_equal. lia.
      * split; [easy |]. intros Hx. destruct Hx. f_equal. lia.
  - rewrite Hf. cbn [Z.geb Z.compare fst snd fmap option_fmap option_map later_of]. set (m := TreeNode_new p s q).
    assert (Hno : forall n, n ∈ digestNode_ t -> key n <> (p, s)).
    { intros n Hin Hk. now rewrite (nodes_in p s _ Hs n Hin Hk) in E. }
    assert (Hok : tree_ok (mkDigestTree (insert_node m (digestNode_ t)) (recomputeRoot (insert_node m (digestNode_ t))))).
    { split; cbn.
      - now apply insert_node_sorted.
      - apply Forall_forall. intros n [-> | Hin]%insert_node_in; [easy |]. rewrite Forall_forall in Hn. now apply Hn.
      - destruct (insert_node m _) eqn:En; [| easy]. assert (Hin : m ∈ insert_node m (digestNode_ t)) by (apply insert_node_in; now left).
        rewrite En in Hin. now apply elem_of_nil in Hin. }
    split; [easy |]. split; [| easy]. intros p' s'. apply option_eq. intros q'. rewrite sequence_known_in by easy. cbn [digestNode_].
    rewrite insert_node_in. destruct (decide _) as [[-> ->] | Hne].
    + split; [intros [[= ->] | Hin]; [easy | now apply Hno in Hin] |]. intros [= <-]. now left.
    + rewrite sequence_known_in by easy. split; [intros [[= -> -> _] |]; [tauto | easy] | now right].
Qed.

(** ** Convergence *)

(** An update: the data prefix, the session number and the sequence number. *)
Abbreviation Update := (list Z * Z * Z)%type.

Definition update_all (l : list Update) (t : DigestTree) : DigestTree :=
  fold_left (fun t u => (tree_update u.1.1 u.1.2 u.2 t).1) l t.

Definition latest_from (o : option Z) (l : list Update) (p : list Z) (s : Z) : option Z :=
  fold_left (fun o u => if decide (p = u.1.1 /\ s = u.1.2) then later_of o u.2 else o) l o.

Lemma update_all_ok l t : tree_ok t ->
  tree_ok (update_all l t) /\ forall p s, sequence_known (update_all l t) p s = latest_from (sequence_known t p s) l p s.
Proof.
  revert t. induction l as [| [[p s] q] l IH]; intros t Ht; cbn; [easy |].
  destruct (tree_update_ok p s q t Ht) as (Hok & Hseq & _). destruct (IH _ Hok) as [H1 H2]. split; [easy |].
  intros p' s'. rewrite H2, Hseq. now destruct (decide _) as [[-> ->] |].
Qed.

Lemma latest_from_spec o l p s q :
  latest_from o l p s = Some q <->
  (o = Some q \/ (p, s, q) ∈ l) /\ (forall q', o = Some q' \/ (p, s, q') ∈ l -> q' <= q).
Proof.
  revert o. induction l as [| [[p' s'] r] l IH]; intros o.
  - cbn. split; [intros ->; split; [now left |]; intros q' [[= ->] | H]; [lia | now apply elem_of_nil in H] |].
    intros [[H | H] _]; [easy | now apply elem_of_nil in H].
  - change (latest_from o ((p', s', r) :: l) p s) with (latest_from (if decide (p = p' /\ s = s') then later_of o r else o) l p s).
    rewrite IH. destruct (decide (p = p' /\ s = s')) as [[-> ->] | Hne].
    + setoid_rewrite elem_of_cons. destruct o as [x |]; cbn [later_of].
      * split.
        -- intros [H1 H2]. pose proof (H2 (Z.max x r) (or_introl eq_refl)). split.
           ++ destruct H1 as [[= <-] | ?]; [| now right; right]. destruct (Z.max_spec x r) as [[_ ->] | [_ ->]]; [right; left | left]; easy.
           ++ intros q' [[= ->] | [[= ->] | ?]]; [lia | lia | now apply H2; right].
        -- intros [H1 H2]. split.
           ++ destruct H1 as [[= ->] | [[= ->] | ?]]; [left | left | now right].
              ** specialize (H2 r (or_intror (or_introl eq_refl))). f_equal. lia.
              ** specialize (H2 x (or_introl eq_refl)). f_equal. lia.
           ++ intros q' [[= <-] | ?]; [| apply H2; tauto]. pose proof (H2 x (or_introl eq_refl)). pose proof (H2 r (or_intror (or_introl eq_refl))). lia.
      * split.
        -- intros [H1 H2]. split; [right; destruct H1 as [[= <-] | ?]; auto |]. intros q' [? | [[= ->] | ?]]; [easy | apply H2; now left | apply H2; now right].
        -- intros [H1 H2]. split; [destruct H1 as [? | [[= ->] | ?]]; [easy | now left | now right] |]. intros q' [[= ->] | ?]; apply H2; auto.
    + setoid_rewrite elem_of_cons. split; intros [H1 H2]; (split; [naive_solver |]); intros q' Hq'; apply H2; naive_solver.
Qed.

(** C22: the digest tree converges. After any updates in any order, repeated or not, the tree has for every producer the
    latest sequence number it was updated with; so two peers that were told the same things have the same tree and the
    same root digest, whatever the order in which they were told. *)
Theorem digest_tree_converges (l l' : list Update) :
  (forall p s q, sequence_known (update_all l DigestTree_new) p s = Some q <->
     (p, s, q) ∈ l /\ forall q', (p, s, q') ∈ l -> q' <= q) /\
  ((forall u, u ∈ l <-> u ∈ l') -> update_all l DigestTree_new = update_all l' DigestTree_new).
Proof.
  pose proof (update_all_ok l _ tree_ok_new) as [H1 H2]. pose proof (update_all_ok l' _ tree_ok_new) as [H1' H2'].
  assert (Hl : forall k p s q, latest_from None k p s = Some q <-> (p, s, q) ∈ k /\ forall q', (p, s, q') ∈ k -> q' <= q).
  { intros k p s q. rewrite latest_from_spec. naive_solver. }
  split.
  - intros p s q. rewrite H2. apply Hl.
  - intros Hu. apply tree_ext; [easy | easy |]. intros p s. rewrite H2, H2'. apply option_eq. intros q. rewrite !Hl. now setoid_rewrite Hu.
Qed.
End DigestTree.

(** ** Examples *)

(** Two peers are told in another order; the toy digest is its input. *)
Example two_orders :
  let a := chars "/a" in let b := chars "/b" in let id := fun bytes : list Z => bytes in
  update_all id [(a, 1, 5); (b, 1, 2); (a, 1, 3)] DigestTree_new
  = update_all id [(b, 1, 2); (a, 1, 3); (a, 1, 5); (b, 1, 2)] DigestTree_new.
Proof. vm_compute. reflexivity. Qed.
