(* ===== verification/ChronoSync.v ===== *)
(** * ChronoSync

    src/sync/chrono-sync2013.cpp: every participant has a digest tree and a log of its roots with what led to them. The
    messages are those of the protocol buffers of src/sync/sync-state.proto, whose encoding is a parameter, as are signing
    and the callbacks of the application, which may call the object again. What the face and the content cache are told
    is recorded; a delay is an Interest that is not answered. *)

From stdpp Require Import base list numbers option strings.
From Stdlib Require Import ZArith Lia.
From S2P Require Import Prelude Order Actions Name NameUri ChangeCounter Data TlvData Publisher DigestTree.
Open Scope Z_scope.

Inductive ActionType := SyncState_UPDATE | SyncState_DELETE | SyncState_OTHER.

#[export] Instance ActionType_eq_dec : EqDecision ActionType.
Proof. solve_decision. Defined.

(** [Sync::SyncState]; the numbers are [uint64], zero when they are left out. *)
Record SyncStateMsg := mkSyncStateMsg {
  ss_name : list Z;
  ss_type : ActionType;
  ss_seq : Z;
  ss_session : Z;
  application_info : Blob
}.

(** [ChronoSync2013::SyncState], which the application gets. *)
Record SyncState := mkSyncState {
  dataPrefixUri_ : list Z;
  state_sessionNo_ : Z;
  state_sequenceNo_ : Z;
  applicationInfo_ : Blob
}.

(** [DigestLogEntry]. *)
Record DigestLogEntry := mkDigestLogEntry { log_digest_ : list Z; log_data_ : list SyncStateMsg }.

Record ChronoSync := mkChronoSync {
  digestLog_ : list DigestLogEntry;
  digestTree_ : DigestTree;
  sequenceNo_ : Z;
  enabled_ : bool
}.

(** What to do with the answer to an Interest, and when there is none. *)
Inductive ChronoTimeout := TimeoutSync | TimeoutInitial | TimeoutJudgeRecovery (syncDigest : list Z).

Inductive ChronoCall :=
  | ChronoRegisterPrefix (prefix : Name)
  | ChronoExpress (name : Name) (interestLifetime : Z) (timeout : ChronoTimeout)
  | ChronoCacheAdd (data : DataValue)
  | ChronoStorePending (interestName : Name)
  | ChronoPut (data : DataValue)
  | ChronoUnregisterAll.

Abbreviation ChronoOp := (Act ChronoSync ChronoCall).

Definition set_log (log : list DigestLogEntry) (s : ChronoSync) : ChronoSync :=
  mkChronoSync log (digestTree_ s) (sequenceNo_ s) (enabled_ s).
Definition set_tree (tree : DigestTree) (s : ChronoSync) : ChronoSync :=
  mkChronoSync (digestLog_ s) tree (sequenceNo_ s) (enabled_ s).
Definition set_sequenceNo (sequenceNo : Z) (s : ChronoSync) : ChronoSync :=
  mkChronoSync (digestLog_ s) (digestTree_ s) sequenceNo (enabled_ s).

Section ChronoSync.
Context (sha256 : list Z -> list Z) (serialize : list SyncStateMsg -> list Z) (parse : list Z -> list SyncStateMsg).
Context (sign : DataValue -> result exn DataValue).
Context (applicationDataPrefixUri_ : list Z) (applicationBroadcastPrefix_ : Name).
Context (sessionNo_ syncLifetime_ initialPreviousSequenceNo_ : Z).
Context (onReceivedSyncState : list SyncState -> bool -> ChronoOp unit) (onInitialized : ChronoOp unit).

Definition ChronoSync_new : ChronoSync := mkChronoSync [] DigestTree_new initialPreviousSequenceNo_ true.

Definition no_digest : list Z := chars "00".
Definition seconds (n : Z) : Z := n * 1000000000.

Definition initialize : ChronoOp unit :=
  _ ← self_modify (fun s => set_log (digestLog_ s ++ [mkDigestLogEntry no_digest []]) s);
  _ ← perform (ChronoRegisterPrefix applicationBroadcastPrefix_);
  perform (ChronoExpress (append applicationBroadcastPrefix_ (generic no_digest)) (seconds 1) TimeoutInitial).

(** An index, or -1. *)
Fixpoint logFind_from (i : Z) (log : list DigestLogEntry) (digest : list Z) : Z :=
  match log with
  | [] => -1
  | entry :: log => if bool_decide (digest = log_digest_ entry) then i else logFind_from (i + 1) log digest
  end.
Definition logFind (digest : list Z) (s : ChronoSync) : Z := logFind_from 0 (digestLog_ s) digest.

(** A message of one update; an [int] becomes an [uint64]. *)
Definition update_message (name : list Z) (seq session : Z) (info : Blob) : SyncStateMsg :=
  mkSyncStateMsg name SyncState_UPDATE (wrap64 seq) (wrap64 session) info.
Definition own_message (seq : Z) : list SyncStateMsg := [update_message applicationDataPrefixUri_ seq sessionNo_ None].

(** The loop of [update]. *)
Definition update_one (content : SyncStateMsg) : ChronoOp unit :=
  match ss_type content with
  | SyncState_UPDATE =>
      s ← self_get;
      let '(tree, updated) := tree_update sha256 (ss_name content) (to_int32 (ss_session content)) (to_int32 (ss_seq content)) (digestTree_ s) in
      _ ← self_modify (set_tree tree);
      if updated && bool_decide (applicationDataPrefixUri_ = ss_name content)
      then self_modify (set_sequenceNo (to_int32 (ss_seq content))) else mret tt
  | _ => mret tt
  end.

Definition update_content (content : list SyncStateMsg) : ChronoOp bool :=
  _ ← for_each update_one content;
  s ← self_get;
  let root := root_ (digestTree_ s) in
  if logFind root s =? -1 then
    _ ← self_modify (fun s => set_log (digestLog_ s ++ [mkDigestLogEntry root content]) s);
    mret true
  else mret false.

Definition getProducerPrefixes (s : ChronoSync) : list (list Z * Z) :=
  map (fun node => (dataPrefix_ node, node_sessionNo_ node)) (digestNode_ (digestTree_ s)).

Definition getProducerSequenceNo (dataPrefix : list Z) (sessionNo : Z) (s : ChronoSync) : Z :=
  let index := digest_find dataPrefix sessionNo (digestTree_ s) in
  if index <? 0 then -1
  else match digestNode_ (digestTree_ s) !! Z.to_nat index with
       | Some node => node_sequenceNo_ node
       | None => -1
       end.

(** A new Data packet. *)
Definition content_data (name : Name) (content : list SyncStateMsg) : Data :=
  Data_setContent (Some (serialize content)) (Data_new name MetaInfo_initial).

Definition broadcastSyncState (digest : list Z) (syncMessage : list SyncStateMsg) : ChronoOp unit :=
  data ← returns (sign (data_value (content_data (append applicationBroadcastPrefix_ (generic digest)) syncMessage)));
  perform (ChronoCacheAdd data).

(** [++sequenceNo_], of an [int]. *)
Definition increment_sequenceNo : ChronoOp unit :=
  s ← self_get;
  if sequenceNo_ s =? 2 ^ 31 - 1 then throw_exn (Failed UndefinedBehaviour)
  else self_modify (set_sequenceNo (sequenceNo_ s + 1)).

(** An Interest of the broadcast prefix and the root. *)
Definition express_sync : ChronoOp unit :=
  s ← self_get;
  perform (ChronoExpress (append applicationBroadcastPrefix_ (generic (root_ (digestTree_ s)))) syncLifetime_ TimeoutSync).

Definition publishNextSequenceNo (applicationInfo : Blob) : ChronoOp unit :=
  _ ← increment_sequenceNo;
  s ← self_get;
  let info := match applicationInfo with Some (_ :: _) => applicationInfo | _ => None end in
  let syncMessage := [update_message applicationDataPrefixUri_ (sequenceNo_ s) sessionNo_ info] in
  _ ← broadcastSyncState (root_ (digestTree_ s)) syncMessage;
  updated ← update_content syncMessage;
  if negb updated then throw_exn (RuntimeError "ChronoSync: update did not create a new digest log entry")
  else express_sync.

(** An exception of the application is logged; undefined behaviour is not caught. *)
Definition call_application (m : ChronoOp unit) : ChronoOp unit :=
  try_catch m (mret tt).

Definition processRecoveryInterest (interestName : Name) (syncDigest : list Z) : ChronoOp unit :=
  s ← self_get;
  if negb (logFind syncDigest s =? -1) then
    let tempContent := map (fun node => update_message (dataPrefix_ node) (node_sequenceNo_ node) (node_sessionNo_ node) None)
                         (digestNode_ (digestTree_ s)) in
    match tempContent with
    | [] => mret tt
    | _ =>
        last ← returns (name_get interestName (-1));
        let data := content_data interestName tempContent in
        let data := if bool_decide (str (component_toEscapedString last empty_stream) = no_digest)
                    then Data_getMetaInfo (MetaInfo_setFreshnessPeriod (seconds 1)) data else data in
        data ← returns (sign (data_value data));
        perform (ChronoPut data)
    end
  else mret tt.

(** The lists of names, sequence numbers and session numbers of [processSyncInterest], with another one; the names are
    compared without the sessions. *)
Fixpoint merge_state (name : list Z) (sequenceNo sessionNo : Z) (l : list (list Z * Z * Z)) : list (list Z * Z * Z) :=
  match l with
  | [] => [(name, sequenceNo, sessionNo)]
  | e :: l => if bool_decide (e.1.1 = name) then (e.1.1, sequenceNo, sessionNo) :: l else e :: merge_state name sequenceNo sessionNo l
  end.

Definition merge_message (tree : DigestTree) (l : list (list Z * Z * Z)) (temp : SyncStateMsg) : list (list Z * Z * Z) :=
  match ss_type temp with
  | SyncState_UPDATE =>
      if negb (digest_find (ss_name temp) (to_int32 (ss_session temp)) tree =? -1)
      then merge_state (ss_name temp) (to_int32 (ss_seq temp)) (to_int32 (ss_session temp)) l else l
  | _ => l
  end.

Definition later_states (index : Z) (s : ChronoSync) : list (list Z * Z * Z) :=
  fold_left (merge_message (digestTree_ s)) (concat (map log_data_ (drop (Z.to_nat (index + 1)) (digestLog_ s)))) [].

Definition processSyncInterest (index : Z) (syncDigest : list Z) : ChronoOp bool :=
  s ← self_get;
  match map (fun e => update_message e.1.1 e.1.2 e.2 None) (later_states index s) with
  | [] => mret false
  | tempContent =>
      data ← returns (sign (data_value (content_data (append applicationBroadcastPrefix_ (generic syncDigest)) tempContent)));
      _ ← perform (ChronoPut data);
      mret true
  end.

(** The escaped component of a name. *)
Definition escaped_component (name : Name) (i : Z) : result exn (list Z) :=
  component ← name_get name i; mret (str (component_toEscapedString component empty_stream)).

Definition onInterest (interestName : Name) : ChronoOp unit :=
  s ← self_get;
  if negb (enabled_ s) then mret tt
  else
    let size := zlen applicationBroadcastPrefix_ in
    syncDigest ← returns (escaped_component interestName size);
    let isRecovery := zlen interestName =? size + 2 in
    syncDigest ← (if isRecovery then returns (escaped_component interestName (size + 1)) else mret syncDigest);
    if isRecovery || bool_decide (syncDigest = no_digest) then processRecoveryInterest interestName syncDigest
    else
      _ ← perform (ChronoStorePending interestName);
      if negb (bool_decide (syncDigest = root_ (digestTree_ s))) then
        let index := logFind syncDigest s in
        if index =? -1 then
          perform (ChronoExpress [generic (chars "local"); generic (chars "timeout")] (seconds 2) (TimeoutJudgeRecovery syncDigest))
        else _ ← processSyncInterest index syncDigest; mret tt
      else mret tt.

(** The loop of [initialOndata] over the content. *)
Definition initial_own (content : SyncStateMsg) : ChronoOp unit :=
  if bool_decide (ss_name content = applicationDataPrefixUri_) && (ss_session content =? wrap64 sessionNo_) then
    updated ← update_content [mkSyncStateMsg applicationDataPrefixUri_ SyncState_UPDATE (wrap64 (ss_seq content + 1)) (wrap64 sessionNo_) None];
    if updated : bool then call_application onInitialized else mret tt
  else mret tt.

Definition initialOndata (content : list SyncStateMsg) : ChronoOp unit :=
  _ ← update_content content;
  s ← self_get;
  let digest := root_ (digestTree_ s) in
  _ ← for_each initial_own content;
  s ← self_get;
  _ ← broadcastSyncState digest (own_message (if sequenceNo_ s >=? 0 then sequenceNo_ s else 0));
  s ← self_get;
  if digest_find applicationDataPrefixUri_ sessionNo_ (digestTree_ s) =? -1 then
    _ ← increment_sequenceNo;
    s ← self_get;
    updated ← update_content (own_message (sequenceNo_ s));
    if updated : bool then call_application onInitialized else mret tt
  else mret tt.

(** What the application is told of the content. *)
Definition sync_states (content : list SyncStateMsg) : list SyncState :=
  flat_map (fun m => match ss_type m with
                     | SyncState_UPDATE =>
                         [mkSyncState (ss_name m) (to_int32 (ss_session m)) (to_int32 (ss_seq m))
                            (match application_info m with Some (_ :: _) => application_info m | _ => None end)]
                     | _ => []
                     end) content.

Definition onData (interestName : Name) (data : DataValue) : ChronoOp unit :=
  s ← self_get;
  if negb (enabled_ s) then mret tt
  else
    let content := parse (blob_bytes (data_content data)) in
    isRecovery ←
      (if bool_decide (root_ (digestTree_ s) = no_digest) then _ ← initialOndata content; mret true
       else _ ← update_content content; mret (zlen interestName =? zlen applicationBroadcastPrefix_ + 2));
    _ ← call_application (onReceivedSyncState (sync_states content) isRecovery);
    express_sync.

Definition sendRecovery (syncDigest : list Z) : ChronoOp unit :=
  perform (ChronoExpress (append (append applicationBroadcastPrefix_ (generic (chars "recovery"))) (generic syncDigest)) syncLifetime_ TimeoutSync).

Definition judgeRecovery (syncDigest : list Z) : ChronoOp unit :=
  s ← self_get;
  if negb (enabled_ s) then mret tt
  else
    let index2 := logFind syncDigest s in
    if negb (index2 =? -1) then
      if negb (bool_decide (syncDigest = root_ (digestTree_ s))) then _ ← processSyncInterest index2 syncDigest; mret tt
      else mret tt
    else sendRecovery syncDigest.

Definition syncTimeout (interestName : Name) : ChronoOp unit :=
  s ← self_get;
  if negb (enabled_ s) then mret tt
  else
    component ← returns (escaped_component interestName (zlen applicationBroadcastPrefix_));
    if bool_decide (component = root_ (digestTree_ s)) then perform (ChronoExpress interestName syncLifetime_ TimeoutSync)
    else mret tt.

Definition initialTimeOut : ChronoOp unit :=
  s ← self_get;
  if negb (enabled_ s) then mret tt
  else
    _ ← increment_sequenceNo;
    s ← self_get;
    if initialPreviousSequenceNo_ =? 2 ^ 31 - 1 then throw_exn (Failed UndefinedBehaviour)
    else if negb (sequenceNo_ s =? initialPreviousSequenceNo_ + 1) then mret tt
    else
      _ ← update_content (own_message (sequenceNo_ s));
      _ ← call_application onInitialized;
      express_sync.

Definition shutdown : ChronoOp unit :=
  _ ← self_modify (fun s => mkChronoSync (digestLog_ s) (digestTree_ s) (sequenceNo_ s) false);
  perform ChronoUnregisterAll.
End ChronoSync.
