(* ===== verification/ChronoSyncSpec.v ===== *)
(** * What the participants of ChronoSync know

    The state that every operation keeps, the history of a participant, and the recovery by which one of them learns what
    another knows. *)

From stdpp Require Import base countable list numbers option strings.
From Stdlib Require Import ZArith Lia.
From S2P Require Import Prelude Order Actions Name NameUri ChangeCounter Data TlvData TlvControl Publisher DigestTree ChronoSync.
Open Scope Z_scope.

Definition in_int32 (z : Z) : Prop := - 2 ^ 31 <= z < 2 ^ 31.

(** The updates of a message. *)
Definition updates (content : list SyncStateMsg) : list (list Z * Z * Z) :=
  flat_map (fun m => match ss_type m with
                     | SyncState_UPDATE => [(ss_name m, to_int32 (ss_session m), to_int32 (ss_seq m))]
                     | _ => []
                     end) content.

Definition log_digests (s : ChronoSync) : list (list Z) := log_digest_ <$> digestLog_ s.

Section Spec.
Context (sha256 : list Z -> list Z).

(** What every operation keeps. *)
Record chrono_ok (s : ChronoSync) : Prop := {
  co_tree : tree_ok sha256 (digestTree_ s);
  co_range : forall p i q, sequence_known (digestTree_ s) p i = Some q -> in_int32 i /\ in_int32 q;
  co_log : NoDup (log_digests s);
  co_root : root_ (digestTree_ s) ∈ log_digests s;
  co_sequenceNo : in_int32 (sequenceNo_ s)
}.

(** A later state of a participant: it has forgotten nothing. *)
Record later (s s' : ChronoSync) : Prop := {
  later_log : digestLog_ s `prefix_of` digestLog_ s';
  later_seq : forall p i q, sequence_known (digestTree_ s) p i = Some q ->
                exists q', sequence_known (digestTree_ s') p i = Some q' /\ q <= q'
}.

Lemma chrono_later_refl s : later s s.
Proof. split; [easy |]. intros p i q H. now exists q. Qed.

Lemma chrono_later_trans s1 s2 s3 : later s1 s2 -> later s2 s3 -> later s1 s3.
Proof.
  intros [L1 Q1] [L2 Q2]. split; [now transitivity (digestLog_ s2) |].
  intros p i q H. destruct (Q1 _ _ _ H) as (q' & H' & ?). destruct (Q2 _ _ _ H') as (q'' & ? & ?). exists q''. split; [easy | lia].
Qed.

Definition grown (s0 s : ChronoSync) : Prop := chrono_ok s /\ later s0 s.

Lemma logFind_from_absent log digest i : 0 <= i -> logFind_from i log digest = -1 <-> digest ∉ log_digest_ <$> log.
Proof.
  revert i. induction log as [| e log IH]; intros i Hi; cbn [logFind_from fmap list_fmap].
  - split; [intros _ H; now apply elem_of_nil in H | easy].
  - rewrite not_elem_of_cons. destruct (bool_decide_reflect (digest = log_digest_ e)) as [-> | Hne]; [split; [lia | tauto] |].
    rewrite IH by lia. tauto.
Qed.

Lemma logFind_absent digest s : (logFind digest s =? -1) = bool_decide (digest ∉ log_digests s).
Proof.
  unfold logFind. pose proof (logFind_from_absent (digestLog_ s) digest 0 ltac:(lia)) as H. unfold log_digests.
  apply Bool.eq_iff_eq_true. now rewrite Z.eqb_eq, bool_decide_eq_true.
Qed.

Section Participant.
Context (serialize : list SyncStateMsg -> list Z) (parse : list Z -> list SyncStateMsg).
Context (sign : DataValue -> result exn DataValue).
Context (applicationDataPrefixUri_ : list Z) (applicationBroadcastPrefix_ : Name).
Context (sessionNo_ syncLifetime_ initialPreviousSequenceNo_ : Z).

Abbreviation updates_of := (for_each (update_one sha256 applicationDataPrefixUri_)).
Abbreviation update_with := (update_content sha256 applicationDataPrefixUri_).

(** The loop of [update]. *)
Lemma update_loop content s :
  exists s', updates_of content s = (s', [], Ok tt) /\ digestTree_ s' = update_all sha256 (updates content) (digestTree_ s) /\
    digestLog_ s' = digestLog_ s /\ enabled_ s' = enabled_ s /\ (in_int32 (sequenceNo_ s) -> in_int32 (sequenceNo_ s')).
Proof.
  revert s. induction content as [| m content IH]; intros s; [now exists s |]. cbn [for_each].
  assert (H1 : exists s1, update_one sha256 applicationDataPrefixUri_ m s = (s1, [], Ok tt) /\
    digestTree_ s1 = update_all sha256 (updates [m]) (digestTree_ s) /\ digestLog_ s1 = digestLog_ s /\ enabled_ s1 = enabled_ s /\
    (in_int32 (sequenceNo_ s) -> in_int32 (sequenceNo_ s1))).
  { unfold update_one, updates. cbn [flat_map]. destruct (ss_type m); [| now exists s ..]. rewrite act_get_bind. cbn [app update_all fold_left fst snd].
    destruct (tree_update sha256 _ _ _ _) as [tree updated]. rewrite act_modify_bind. cbn [fst].
    destruct (updated && _); eexists; (split; [reflexivity |]); repeat split; try easy; cbn; intros; try apply to_int32_range; apply H. }
  destruct H1 as (s1 & E1 & Ht & Hl & He & Hr).
  rewrite (act_bind_silent _ _ _ _ _ E1). destruct (IH s1) as (s' & -> & Ht' & Hl' & He' & Hr'). exists s'.
  split; [easy |]. split; [| rewrite Hl', He', Hl, He; auto].
  rewrite Ht', Ht. unfold updates, update_all. rewrite <- fold_left_app, <- flat_map_app. easy.
Qed.

Lemma updates_range content p i q : (p, i, q) ∈ updates content -> in_int32 i /\ in_int32 q.
Proof.
  unfold updates. rewrite list_elem_of_In, in_flat_map. intros (m & _ & Hm). destruct (ss_type m); [| easy ..].
  destruct Hm as [[= <- <- <-] | []]. split; apply to_int32_range.
Qed.

Lemma latest_from_none o l p i : latest_from o l p i = None -> o = None.
Proof. revert o. induction l as [| u l IH]; intros o E; cbn in E; [easy |]. apply IH in E. destruct (decide _); [destruct o |]; easy. Qed.

(** What [update] does. *)
Lemma update_content_run content s :
  exists s' updated, update_with content s = (s', [], Ok updated) /\
    digestTree_ s' = update_all sha256 (updates content) (digestTree_ s) /\ enabled_ s' = enabled_ s /\
    (updated = true <-> root_ (digestTree_ s') ∉ log_digests s) /\
    digestLog_ s' = digestLog_ s ++ (if updated : bool then [mkDigestLogEntry (root_ (digestTree_ s')) content] else []) /\
    (in_int32 (sequenceNo_ s) -> in_int32 (sequenceNo_ s')).
Proof.
  destruct (update_loop content s) as (s1 & E & Ht & Hl & He & Hr). unfold update_content.
  rewrite (act_bind_silent _ _ _ _ _ E), act_get_bind, logFind_absent. replace (log_digests s1) with (log_digests s) by (unfold log_digests; now rewrite Hl).
  case_bool_decide as Hd; [rewrite act_modify_bind |]; eexists _, _; (split; [reflexivity |]); cbn [digestTree_ digestLog_ enabled_ sequenceNo_ set_log];
    rewrite <- Ht; refine (conj _ (conj _ (conj _ (conj _ Hr)))); try easy; now rewrite Hl, ?app_nil_r.
Qed.

Lemma chrono_ok_update content s : chrono_ok s -> grown s (state_of (update_with content s)).
Proof.
  intros [Ct Cr Cl Cx Cs]. destruct (update_content_run content s) as (s' & updated & -> & Ht & _ & Hu & Hl & Hr). cbn [state_of fst].
  destruct (update_all_ok sha256 (updates content) _ Ct) as [Hok Hseq]. rewrite <- Ht in Hok, Hseq.
  assert (Hlog : log_digests s' = log_digests s ++ (if updated then [root_ (digestTree_ s')] else [])).
  { unfold log_digests. rewrite Hl, fmap_app. now destruct updated. }
  split; [split |].
  - easy.
  - intros p i q. rewrite Hseq, (latest_from_spec sha256). intros [[H | H] _]; [now apply Cr in H | now apply updates_range in H].
  - rewrite Hlog. destruct updated; [| now rewrite app_nil_r]. apply NoDup_app. split; [easy |]. split; [| apply NoDup_singleton].
    intros x Hx ->%list_elem_of_singleton. now apply Hu.
  - rewrite Hlog. destruct updated; [apply elem_of_app; right; now constructor |]. rewrite app_nil_r. apply dec_stable. intros Hn. now apply Hu in Hn.
  - now apply Hr.
  - split; [rewrite Hl; now apply prefix_app_r |]. intros p i q Hq. rewrite Hseq, Hq.
    destruct (latest_from (Some q) (updates content) p i) as [q' |] eqn:E.
    + exists q'. split; [easy |]. apply (latest_from_spec sha256) in E as [_ E]. apply E. now left.
    + now apply latest_from_none in E.
Qed.
(** *** Every operation keeps it *)

Context (onReceivedSyncState : list SyncState -> bool -> Act ChronoSync ChronoCall unit) (onInitialized : Act ChronoSync ChronoCall unit).

Section Grown.
Context (s0 : ChronoSync).
Context (received_ok : forall states isRecovery, keeps (grown s0) (onReceivedSyncState states isRecovery)).
Context (initialized_ok : keeps (grown s0) onInitialized).

Lemma keeps_update content : keeps (grown s0) (update_with content).
Proof.
  intros s [Hs Hl]. destruct (chrono_ok_update content s Hs) as [H1 H2]. split; [easy |]. now apply (chrono_later_trans _ s).
Qed.

(** An operation that changes the number or the flag only. *)
Lemma grown_fields s s' : digestLog_ s' = digestLog_ s -> digestTree_ s' = digestTree_ s -> in_int32 (sequenceNo_ s') ->
  grown s0 s -> grown s0 s'.
Proof.
  intros El Et Hq [[Ct Cr Cl Cx Cs] [Hl Hs]]. split; split; unfold log_digests in *; now rewrite ?El, ?Et.
Qed.

Lemma keeps_increment : keeps (grown s0) increment_sequenceNo.
Proof.
  apply keeps_get. intros s Hs. destruct (Z.eqb_spec (sequenceNo_ s) (2 ^ 31 - 1)); [apply keeps_throw |]. apply keeps_modify.
  intros s1 H1. apply (grown_fields s1); [easy .. | | easy]. cbn. pose proof (co_sequenceNo _ (proj1 Hs)) as H. unfold in_int32 in *. lia.
Qed.

Lemma keeps_call m : keeps (grown s0) m -> keeps (grown s0) (call_application m).
Proof. intros Hm. apply keeps_catch; [easy |]. intros e. destruct (is_exception e); auto with keeps. Qed.

Hint Resolve keeps_update keeps_increment keeps_call : keeps.

(** The parts of an operation. *)
Ltac grows_step :=
  match goal with
  | |- keeps _ (self_get ≫= _) => apply keeps_get; intros
  | |- keeps _ (_ ≫= _) => apply keeps_bind; [| intros]
  | |- keeps _ (if ?b then _ else _) => destruct b
  | |- keeps _ (match ?x with _ => _ end) => destruct x
  | |- keeps _ (for_each _ _) => apply keeps_for_each; intros
  | |- keeps _ (call_application _) => apply keeps_call
  | |- keeps _ _ => solve [auto with keeps nocore | apply received_ok]
  end.
Ltac grows := cbv zeta; repeat (grows_step; cbv zeta).

Lemma keeps_broadcast digest message : keeps (grown s0) (broadcastSyncState serialize sign applicationBroadcastPrefix_ digest message).
Proof. unfold broadcastSyncState. grows. Qed.

Lemma keeps_express : keeps (grown s0) (express_sync applicationBroadcastPrefix_ syncLifetime_).
Proof. unfold express_sync. grows. Qed.
Hint Resolve keeps_broadcast keeps_express : keeps.

Lemma keeps_publish info :
  keeps (grown s0) (publishNextSequenceNo sha256 serialize sign applicationDataPrefixUri_ applicationBroadcastPrefix_ sessionNo_ syncLifetime_ info).
Proof. unfold publishNextSequenceNo. grows. Qed.

Lemma keeps_syncInterest index digest : keeps (grown s0) (processSyncInterest serialize sign applicationBroadcastPrefix_ index digest).
Proof. unfold processSyncInterest. grows. Qed.

Lemma keeps_recoveryInterest name digest : keeps (grown s0) (processRecoveryInterest serialize sign name digest).
Proof. unfold processRecoveryInterest. grows. Qed.
Hint Resolve keeps_syncInterest keeps_recoveryInterest : keeps.

Lemma keeps_onInterest name : keeps (grown s0) (onInterest serialize sign applicationBroadcastPrefix_ name).
Proof. unfold onInterest. grows. Qed.

Lemma keeps_initialOndata content :
  keeps (grown s0) (initialOndata sha256 serialize sign applicationDataPrefixUri_ applicationBroadcastPrefix_ sessionNo_ onInitialized content).
Proof. unfold initialOndata, initial_own. grows. Qed.
Hint Resolve keeps_initialOndata : keeps.

Lemma keeps_onData name data :
  keeps (grown s0) (onData sha256 serialize parse sign applicationDataPrefixUri_ applicationBroadcastPrefix_ sessionNo_ syncLifetime_
                      onReceivedSyncState onInitialized name data).
Proof. unfold onData. grows. Qed.

Lemma keeps_judge digest : keeps (grown s0) (judgeRecovery serialize sign applicationBroadcastPrefix_ syncLifetime_ digest).
Proof. unfold judgeRecovery, sendRecovery. grows. Qed.

Lemma keeps_timeout name : keeps (grown s0) (syncTimeout applicationBroadcastPrefix_ syncLifetime_ name).
Proof. unfold syncTimeout. grows. Qed.

Lemma keeps_initialTimeOut :
  keeps (grown s0) (initialTimeOut sha256 applicationDataPrefixUri_ applicationBroadcastPrefix_ sessionNo_ syncLifetime_
                      initialPreviousSequenceNo_ onInitialized).
Proof. unfold initialTimeOut. grows. Qed.

Lemma keeps_shutdown : keeps (grown s0) shutdown.
Proof.
  unfold shutdown. apply keeps_bind; [| auto with keeps]. apply keeps_modify. intros s Hs.
  apply (grown_fields s); [easy .. | apply Hs | easy].
Qed.
End Grown.

(** ** The history of a participant *)

(** What happens to it after [initialize]. *)
Inductive ChronoEvent :=
  | EventPublish (applicationInfo : Blob)
  | EventInterest (interestName : Name)
  | EventData (interestName : Name) (data : DataValue)
  | EventSyncTimeout (interestName : Name)
  | EventJudgeRecovery (syncDigest : list Z)
  | EventInitialTimeout
  | EventShutdown.

Definition chrono_event (e : ChronoEvent) : Act ChronoSync ChronoCall unit :=
  match e with
  | EventPublish info => publishNextSequenceNo sha256 serialize sign applicationDataPrefixUri_ applicationBroadcastPrefix_ sessionNo_ syncLifetime_ info
  | EventInterest name => onInterest serialize sign applicationBroadcastPrefix_ name
  | EventData name data => onData sha256 serialize parse sign applicationDataPrefixUri_ applicationBroadcastPrefix_ sessionNo_ syncLifetime_
                             onReceivedSyncState onInitialized name data
  | EventSyncTimeout name => syncTimeout applicationBroadcastPrefix_ syncLifetime_ name
  | EventJudgeRecovery digest => judgeRecovery serialize sign applicationBroadcastPrefix_ syncLifetime_ digest
  | EventInitialTimeout => initialTimeOut sha256 applicationDataPrefixUri_ applicationBroadcastPrefix_ sessionNo_ syncLifetime_
                             initialPreviousSequenceNo_ onInitialized
  | EventShutdown => shutdown
  end.

(** Events after each other, whether they throw or not. *)
Definition chrono_events (l : list ChronoEvent) (s : ChronoSync) : ChronoSync :=
  fold_left (fun s e => state_of (chrono_event e s)) l s.

Definition chrono_start : ChronoSync :=
  state_of (initialize applicationBroadcastPrefix_ (ChronoSync_new initialPreviousSequenceNo_)).

Lemma chrono_start_ok : in_int32 initialPreviousSequenceNo_ -> chrono_ok chrono_start.
Proof.
  intros H. split; cbn; [apply tree_ok_new | easy | apply NoDup_singleton | now constructor | easy].
Qed.

Lemma chrono_events_grown l s :
  (forall s0 states isRecovery, keeps (grown s0) (onReceivedSyncState states isRecovery)) -> (forall s0, keeps (grown s0) onInitialized) ->
  chrono_ok s -> grown s (chrono_events l s).
Proof.
  intros Hr Hi Hs. assert (H : grown s s) by (split; [easy | apply chrono_later_refl]). unfold chrono_events. revert H. generalize s at 2 4. intros s1 H1.
  revert s1 H1. induction l as [| e l IH]; intros s1 H1; [easy |]. cbn [fold_left]. apply IH.
  assert (He : keeps (grown s) (chrono_event e)); [| now apply He].
  destruct e; cbn [chrono_event]; eauto using keeps_publish, keeps_onInterest, keeps_onData, keeps_timeout, keeps_judge, keeps_initialTimeOut, keeps_shutdown.
Qed.

(** C21: a participant forgets nothing. Whatever happens to it after [initialize] - publications, Interests, data from
    anybody, timeouts, recoveries, shutdown, with operations that throw and callbacks that call it again - its tree stays
    sorted with the right digests; its log names no root twice, always has the current root, and has every root that the
    participant ever had; and the sequence number known of a producer never decreases. *)
Theorem chrono_history (received_ok : forall s0 states isRecovery, keeps (grown s0) (onReceivedSyncState states isRecovery))
  (initialized_ok : forall s0, keeps (grown s0) onInitialized) (Hprevious : in_int32 initialPreviousSequenceNo_)
  (past future : list ChronoEvent) :
  let then_ := chrono_events past chrono_start in
  let now := chrono_events (past ++ future) chrono_start in
  chrono_ok now /\ later then_ now /\ logFind (root_ (digestTree_ then_)) now <> -1.
Proof.
  cbv zeta. unfold chrono_events. rewrite fold_left_app. fold (chrono_events past chrono_start).
  destruct (chrono_events_grown past _ received_ok initialized_ok (chrono_start_ok Hprevious)) as [H1 _].
  destruct (chrono_events_grown future _ received_ok initialized_ok H1) as [H2 H3]. unfold chrono_events in H2, H3 |- *.
  split; [exact H2 |]. split; [exact H3 |]. apply Z.eqb_neq. rewrite logFind_absent. apply bool_decide_eq_false_2. intros Hn. apply Hn.
  destruct H3 as [[k Hk] _]. unfold log_digests. rewrite Hk, fmap_app. apply elem_of_app. left. apply (co_root _ H1).
Qed.
End Participant.
(** ** Digests in names *)

(** A component that is printed as it is. *)
Definition plain (v : list Z) : Prop := Forall (fun b => is_unescaped b = true) v /\ existsb (fun b => negb (b =? 0x2e)) v = true.

Lemma plain_printed v : plain v -> str (component_toEscapedString (generic v) empty_stream) = v.
Proof.
  intros [Hv Hd]. assert (Hb : bytes_ok v).
  { eapply Forall_impl; [exact Hv |]. intros b H. unfold is_unescaped in H. unfold is_byte. lia. }
  change empty_stream with (stream_at [] false). rewrite component_toEscapedString_eq by easy. cbn. unfold value_text. rewrite Hd. cbn [negb].
  clear Hd Hb. induction Hv as [| b v Hb _ IH]; [easy |]. cbn [map concat]. unfold escape_byte at 1. now rewrite Hb, IH.
Qed.

Context (sha256_digest : forall bytes, bytes_ok (sha256 bytes) /\ sha256 bytes <> []).

Lemma hex_char_unescaped d : 0 <= d < 16 -> is_unescaped (digit_char false d) = true /\ digit_char false d <> 0x2e.
Proof. intros H. unfold is_unescaped, digit_char. destruct (Z.ltb_spec d 10); lia. Qed.

Lemma hex_string_plain v : bytes_ok v -> v <> [] -> plain (hex_string v).
Proof.
  intros Hv Hne. unfold hex_string. change empty_stream with (stream_at [] false). rewrite toHex_eq by easy. cbn [str stream_at app].
  assert (Hb : forall x, is_byte x -> exists a b, hex_byte false x = [digit_char false a; digit_char false b] /\ 0 <= a < 16 /\ 0 <= b < 16).
  { intros x Hx. unfold is_byte in Hx. exists (x / 16), (x mod 16). split; [easy |]. split; [| now apply Z.mod_pos_bound].
    split; [apply Z.div_pos | apply Z.div_lt_upper_bound]; lia. }
  split.
  - induction Hv as [| x v Hx _ IH]; [easy |]. cbn [map concat]. destruct (Hb x Hx) as (a & b & -> & Ha & Hb').
    repeat constructor; [now apply hex_char_unescaped .. |]. destruct v; [constructor | now apply IH].
  - destruct Hv as [| x v Hx _]; [easy |]. cbn [map concat]. destruct (Hb x Hx) as (a & b & -> & Ha & _). cbn [app existsb].
    pose proof (proj2 (hex_char_unescaped a Ha)). now destruct (Z.eqb_spec (digit_char false a) 0x2e).
Qed.

Lemma root_plain t : tree_ok sha256 t -> plain (root_ t).
Proof.
  intros [_ _ ->]. destruct (digestNode_ t); [split; [repeat constructor | reflexivity] |]. apply hex_string_plain; apply sha256_digest.
Qed.

(** ** Recovery *)

(** The content that [processRecoveryInterest] sends. *)
Definition recovery_content (t : DigestTree) : list SyncStateMsg :=
  map (fun node => update_message (dataPrefix_ node) (node_sequenceNo_ node) (node_sessionNo_ node) None) (digestNode_ t).

Lemma recovery_updates s p i q : chrono_ok s ->
  (p, i, q) ∈ updates (recovery_content (digestTree_ s)) <-> sequence_known (digestTree_ s) p i = Some q.
Proof.
  intros [Ht Hr _ _ _]. assert (Hn : forall n, n ∈ digestNode_ (digestTree_ s) -> n = TreeNode_new sha256 (dataPrefix_ n) (node_sessionNo_ n) (node_sequenceNo_ n) /\
    in_int32 (node_sessionNo_ n) /\ in_int32 (node_sequenceNo_ n)).
  { intros n Hn. pose proof (to_nodes _ _ Ht) as Hf. rewrite Forall_forall in Hf. specialize (Hf n Hn). split; [easy |].
    apply (Hr (dataPrefix_ n)). apply (sequence_known_in sha256); [easy |]. now rewrite <- Hf. }
  rewrite (sequence_known_in sha256) by easy. unfold updates, recovery_content. rewrite !list_elem_of_In, in_flat_map. setoid_rewrite in_map_iff. split.
  - intros (m & (n & <- & Hin) & [Hm | []]). apply list_elem_of_In in Hin. destruct (Hn n Hin) as (E & Hi & Hq). cbn in Hm.
    rewrite !to_int32_wrap64 in Hm by easy. injection Hm as <- <- <-. apply list_elem_of_In. now rewrite <- E.
  - intros Hin. eexists. split; [exists (TreeNode_new sha256 p i q); split; [reflexivity | easy] |]. left. apply list_elem_of_In in Hin.
    destruct (Hn _ Hin) as (_ & Hi & Hq). cbn in *. now rewrite !to_int32_wrap64.
Qed.

(** What two participants know together. *)
Definition best_of (a b : option Z) : option Z :=
  match a, b with Some x, Some y => Some (Z.max x y) | Some x, None => Some x | None, b => b end.

Lemma recovery_joins s t p i : chrono_ok s -> tree_ok sha256 t ->
  sequence_known (update_all sha256 (updates (recovery_content (digestTree_ s))) t) p i
  = best_of (sequence_known t p i) (sequence_known (digestTree_ s) p i).
Proof.
  intros Hs Ht. destruct (update_all_ok sha256 (updates (recovery_content (digestTree_ s))) t Ht) as [_ ->].
  apply option_eq. intros q. rewrite (latest_from_spec sha256). setoid_rewrite (fun q => recovery_updates s p i q Hs).
  destruct (sequence_known t p i) as [x |], (sequence_known (digestTree_ s) p i) as [y |]; cbn [best_of]; split.
  - intros [H1 H2]. pose proof (H2 x (or_introl eq_refl)). pose proof (H2 y (or_intror eq_refl)). destruct H1 as [[= <-] | [= <-]]; f_equal; lia.
  - intros [= <-]. split; [destruct (Z.max_spec x y) as [[_ ->] | [_ ->]]; auto | intros q' [[= <-] | [= <-]]; lia].
  - intros [[[= <-] | ?] _]; easy.
  - intros [= <-]. split; [now left | intros q' [[= <-] | ?]; [lia | easy]].
  - intros [[? | [= <-]] _]; easy.
  - intros [= <-]. split; [now right | intros q' [? | [= <-]]; [easy | lia]].
  - intros [[? | ?] _]; easy.
  - easy.
Qed.

Section Conversation.
Context (serialize : list SyncStateMsg -> list Z) (parse : list Z -> list SyncStateMsg).
Context (sign : DataValue -> result exn DataValue) (applicationBroadcastPrefix_ : Name).

Lemma digest_component name digest rest : plain digest ->
  escaped_component (name ++ generic digest :: rest) (zlen name) = Ok digest.
Proof.
  intros H. unfold escaped_component, name_get. rewrite length_app. cbn [length].
  destruct (Z.geb_spec (zlen name) 0); [| lia]. destruct (Z.geb_spec (zlen name) (Z.of_nat (length name + S (length rest)))); [lia |].
  rewrite Nat2Z.id, list_lookup_middle by easy.
  transitivity (Ok (E := exn) (str (component_toEscapedString (generic digest) empty_stream))); [reflexivity | now rewrite plain_printed].
Qed.

(** The answer to a recovery Interest. *)
Lemma recovery_answer s digest : chrono_ok s -> enabled_ s = true -> plain digest -> digest ∈ log_digests s -> digestNode_ (digestTree_ s) <> [] ->
  (forall d, exists d', sign d = Ok d' /\ data_content d' = data_content d) ->
  let name := append (append applicationBroadcastPrefix_ (generic (chars "recovery"))) (generic digest) in
  exists data, onInterest serialize sign applicationBroadcastPrefix_ name s = (s, [ChronoPut data], Ok tt) /\
    data_content data = Some (serialize (recovery_content (digestTree_ s))).
Proof.
  intros Hs He Hp Hd Hn Hsign. cbv zeta. unfold append. rewrite <- app_assoc. cbn [app]. unfold onInterest. rewrite act_get_bind, He. cbn [negb].
  rewrite digest_component by (split; [repeat constructor | reflexivity]). rewrite act_returns_bind, length_app. cbn [length].
  destruct (Z.eqb_spec (Z.of_nat (length applicationBroadcastPrefix_ + 2)) (zlen applicationBroadcastPrefix_ + 2)) as [_ |]; [| lia].
  pose proof (digest_component (applicationBroadcastPrefix_ ++ [generic (chars "recovery")]) digest [] Hp) as Hg.
  rewrite <- app_assoc, length_app in Hg. cbn [app length] in Hg. replace (Z.of_nat (length applicationBroadcastPrefix_ + 1)) with (zlen applicationBroadcastPrefix_ + 1) in Hg by lia.
  rewrite Hg, act_returns_bind. cbn [orb]. unfold processRecoveryInterest. rewrite act_get_bind, logFind_absent, bool_decide_eq_false_2 by tauto. cbn [negb].
  fold (recovery_content (digestTree_ s)). destruct (recovery_content (digestTree_ s)) as [| m content] eqn:Ec.
  { destruct Hn. unfold recovery_content in Ec. now apply map_eq_nil in Ec. }
  change (applicationBroadcastPrefix_ ++ [generic (chars "recovery"); generic digest])
    with (applicationBroadcastPrefix_ ++ [generic (chars "recovery")] ++ [generic digest]).
  rewrite app_assoc, name_get_last, act_returns_bind. cbv zeta.
  match goal with |- context [sign ?d] => destruct (Hsign d) as (data & Esign & Edata) end.
  rewrite Esign, act_returns_bind. exists data. split; [easy |]. rewrite Edata. now destruct (bool_decide _).
Qed.

(** What is left after an operation that keeps the state. *)
Lemma state_of_bind {S E A B} (m : Act S E A) (f : A -> Act S E B) s :
  (forall a s1, state_of (f a s1) = s1) -> state_of ((m ≫= f) s) = state_of (m s).
Proof.
  intros Hf. unfold mbind, Act_bind, state_of in *. destruct (m s) as [[s1 c1] [a | e]]; [| easy].
  specialize (Hf a s1). now destruct (f a s1) as [[s2 c2] r].
Qed.

Lemma state_of_call m s : state_of (call_application m s) = state_of (m s).
Proof. unfold call_application, try_catch, catch, state_of. destruct (m s) as [[s1 c1] [a | e]]; [easy |]. now destruct (is_exception e). Qed.

(** C20: a recovery, between participants in states that every operation keeps ([chrono_ok]). A participant [a] that has started, so that its tree is not empty (its root is not the digest of the
    empty tree, which is in its log), gets a sync Interest for a root that is not in its log. It waits for two
    seconds, and then asks with a recovery Interest. A participant [b] with that root answers with all it knows. When [a] gets
    the answer, and its application's callback for the new states changes nothing of the participant, it
    knows of every producer the later of the sequence numbers that the two had; so when it knew nothing
    that [b] did not, the two have the same tree and the same root. Signing is assumed to leave the content, and the
    message of [b] to be parsed as it was serialized; both participants are enabled. *)
Theorem recovery_conversation (applicationDataPrefixUri_ : list Z) (sessionNo_ syncLifetime_ : Z)
  (onReceivedSyncState : list SyncState -> bool -> Act ChronoSync ChronoCall unit) (onInitialized : Act ChronoSync ChronoCall unit)
  (received_quiet : forall states isRecovery s, state_of (onReceivedSyncState states isRecovery s) = s)
  (Hsign : forall d, exists d', sign d = Ok d' /\ data_content d' = data_content d)
  (a b : ChronoSync) (Ha : chrono_ok a) (Hb : chrono_ok b)
  (Hparse : parse (serialize (recovery_content (digestTree_ b))) = recovery_content (digestTree_ b))
  (enabled_a : enabled_ a = true) (enabled_b : enabled_ b = true)
  (Hstarted : no_digest ∈ log_digests a) (Hroot : root_ (digestTree_ a) <> no_digest)
  (Hunknown : root_ (digestTree_ b) ∉ log_digests a) :
  let digest := root_ (digestTree_ b) in
  let recovery := append (append applicationBroadcastPrefix_ (generic (chars "recovery"))) (generic digest) in
  onInterest serialize sign applicationBroadcastPrefix_ (append applicationBroadcastPrefix_ (generic digest)) a
  = (a, [ChronoStorePending (append applicationBroadcastPrefix_ (generic digest));
         ChronoExpress [generic (chars "local"); generic (chars "timeout")] (seconds 2) (TimeoutJudgeRecovery digest)], Ok tt) /\
  judgeRecovery serialize sign applicationBroadcastPrefix_ syncLifetime_ digest a
  = (a, [ChronoExpress recovery syncLifetime_ TimeoutSync], Ok tt) /\
  exists data, onInterest serialize sign applicationBroadcastPrefix_ recovery b = (b, [ChronoPut data], Ok tt) /\
    let a' := state_of (onData sha256 serialize parse sign applicationDataPrefixUri_ applicationBroadcastPrefix_ sessionNo_ syncLifetime_
                          onReceivedSyncState onInitialized recovery data a) in
    chrono_ok a' /\
    (forall p i, sequence_known (digestTree_ a') p i = best_of (sequence_known (digestTree_ a) p i) (sequence_known (digestTree_ b) p i)) /\
    ((forall p i q, sequence_known (digestTree_ a) p i = Some q -> exists q', sequence_known (digestTree_ b) p i = Some q' /\ q <= q') ->
     digestTree_ a' = digestTree_ b).
Proof.
  cbv zeta. pose proof (root_plain _ (co_tree _ Hb)) as Hp.
  assert (Hn : root_ (digestTree_ b) <> no_digest) by now intros E; rewrite E in Hunknown.
  split; [| split].
  - unfold onInterest. rewrite act_get_bind, enabled_a. cbn [negb]. unfold append. rewrite (digest_component _ _ [] Hp), act_returns_bind, length_app.
    cbn [length]. destruct (Z.eqb_spec (Z.of_nat (length applicationBroadcastPrefix_ + 1)) (zlen applicationBroadcastPrefix_ + 2)); [lia |].
    rewrite act_ret_bind, bool_decide_eq_false_2 by easy. cbn [orb]. rewrite bool_decide_eq_false_2, logFind_absent, bool_decide_eq_true_2; [reflexivity | easy |].
    intros E. apply Hunknown. rewrite E. apply (co_root _ Ha).
  - unfold judgeRecovery. rewrite act_get_bind, enabled_a, logFind_absent, bool_decide_eq_true_2 by easy. reflexivity.
  - assert (Hnodes : digestNode_ (digestTree_ b) <> []) by (intros E; apply Hn; now rewrite (to_root _ _ (co_tree _ Hb)), E).
    destruct (recovery_answer b _ Hb enabled_b Hp (co_root _ Hb) Hnodes Hsign) as (data & Eanswer & Edata). exists data. split; [exact Eanswer |].
    unfold onData. rewrite act_get_bind, enabled_a, Edata. cbn [negb blob_bytes default from_option id]. rewrite Hparse, bool_decide_eq_false_2 by easy.
    set (c := recovery_content (digestTree_ b)). destruct (update_content_run applicationDataPrefixUri_ c a) as (a1 & updated & Eu & Et & _).
    pose proof (chrono_ok_update applicationDataPrefixUri_ c a Ha) as [Ha1 _]. rewrite Eu in Ha1. cbn [state_of fst] in Ha1.
    match goal with |- context [state_of (?m a)] => assert (Es : state_of (m a) = a1) end.
    { rewrite (act_bind_silent _ _ a a1 (zlen (append (append applicationBroadcastPrefix_ (generic (chars "recovery"))) (generic (root_ (digestTree_ b))))
        =? zlen applicationBroadcastPrefix_ + 2)).
      - rewrite state_of_bind; [| now intros]. now rewrite state_of_call, received_quiet.
      - now rewrite (act_bind_silent _ _ _ _ _ Eu). }
    rewrite Es. split; [exact Ha1 |]. assert (Hjoin : forall p i, sequence_known (digestTree_ a1) p i = best_of (sequence_known (digestTree_ a) p i) (sequence_known (digestTree_ b) p i)).
    { intros p i. rewrite Et. now apply recovery_joins, co_tree. }
    split; [exact Hjoin |]. intros Hle. apply (tree_ext sha256); [apply Ha1 | apply Hb |]. intros p i. rewrite Hjoin. specialize (Hle p i).
    destruct (sequence_known (digestTree_ a) p i) as [q |]; [| now destruct (sequence_known (digestTree_ b) p i)].
    destruct (Hle q eq_refl) as (q' & -> & Hq). cbn. f_equal. lia.
Qed.
End Conversation.
End Spec.

(** ** Examples

    A toy digest, and a codec that writes a whole message as one number. *)

Definition toy_digest (bytes : list Z) : list Z := map (fun b => b mod 256) bytes ++ [1].

Definition message_tuple (m : SyncStateMsg) : list Z * Z * Z * Z * option (list Z) :=
  (ss_name m, match ss_type m with SyncState_UPDATE => 0 | SyncState_DELETE => 1 | SyncState_OTHER => 2 end, ss_seq m, ss_session m, application_info m).
Definition tuple_message (t : list Z * Z * Z * Z * option (list Z)) : SyncStateMsg :=
  let '(name, type, seq, session, info) := t in
  mkSyncStateMsg name (if type =? 0 then SyncState_UPDATE else if type =? 1 then SyncState_DELETE else SyncState_OTHER) seq session info.

Definition toy_serialize (c : list SyncStateMsg) : list Z := [Zpos (encode (map message_tuple c))].
Definition toy_parse (l : list Z) : list SyncStateMsg :=
  match l with [Zpos p] => default [] (map tuple_message <$> decode p) | _ => [] end.

Lemma toy_parse_serialize c : toy_parse (toy_serialize c) = c.
Proof.
  unfold toy_parse, toy_serialize. rewrite decode_encode. cbn. rewrite map_map. rewrite <- (map_id c) at 2. apply map_ext.
  now intros [? [] ? ? ?].
Qed.

Definition toy_group : Name := [generic (chars "group")].
Definition quiet (states : list SyncState) (isRecovery : bool) : Act ChronoSync ChronoCall unit := mret tt.

(** A participant that is alone at first; its callbacks do nothing, or it publishes when it hears of others. *)
Definition peer_events (prefix : list Z) (session : Z) (received : list SyncState -> bool -> Act ChronoSync ChronoCall unit) (l : list ChronoEvent) : ChronoSync :=
  chrono_events toy_digest toy_serialize toy_parse Ok prefix toy_group session (seconds 5) (-1) received (mret tt) l (chrono_start toy_group (-1)).
Definition peer_publish (prefix : list Z) (session : Z) : Act ChronoSync ChronoCall unit :=
  publishNextSequenceNo toy_digest toy_serialize Ok prefix toy_group session (seconds 5) None.

Lemma toy_digest_ok bytes : bytes_ok (toy_digest bytes) /\ toy_digest bytes <> [].
Proof.
  unfold toy_digest. split; [| now destruct bytes]. apply bytes_ok_app. split; [| repeat constructor; lia].
  apply Forall_map. apply Forall_true. intros x. apply Z.mod_pos_bound. lia.
Qed.

Lemma peer_ok prefix session l : chrono_ok toy_digest (peer_events prefix session quiet l).
Proof.
  apply (chrono_events_grown toy_digest toy_serialize toy_parse Ok prefix toy_group session (seconds 5) (-1) quiet (mret tt)); intros.
  - apply keeps_ret.
  - apply keeps_ret.
  - apply chrono_start_ok. unfold in_int32. lia.
Qed.

Definition told (name : list Z) (session seq : Z) : DataValue :=
  data_value (content_data toy_serialize toy_group [update_message name seq session None]).

(** A participant that publishes whenever it hears from another one. *)
Lemma chrono_history_witness :
  let a := chars "/a" in
  chrono_ok toy_digest (peer_events a 7 (fun _ _ => peer_publish a 7)
    ([EventInitialTimeout; EventData toy_group (told (chars "/b") 3 4)] ++ [EventPublish None; EventShutdown])).
Proof.
  cbv zeta. apply (chrono_history toy_digest toy_serialize toy_parse Ok (chars "/a") toy_group 7 (seconds 5) (-1) (fun _ _ => peer_publish (chars "/a") 7) (mret tt)).
  - intros s0 _ _. apply keeps_publish.
  - intros s0. apply keeps_ret.
  - unfold in_int32. lia.
Defined.

(** Two participants that were alone, one of which asks the other. *)
Lemma recovery_conversation_witness :
  let a := peer_events (chars "/a") 7 quiet [EventInitialTimeout] in
  let b := peer_events (chars "/b") 8 quiet [EventInitialTimeout; EventPublish None] in
  let recovery := append (append toy_group (generic (chars "recovery"))) (generic (root_ (digestTree_ b))) in
  exists data, calls_of (onInterest toy_serialize Ok toy_group recovery b) = [ChronoPut data] /\
    let a' := state_of (onData toy_digest toy_serialize toy_parse Ok (chars "/a") toy_group 7 (seconds 5) quiet (mret tt) recovery data a) in
    sequence_known (digestTree_ a') (chars "/b") 8 = Some 1 /\ sequence_known (digestTree_ a') (chars "/a") 7 = Some 0.
Proof.
  cbv zeta. destruct (recovery_conversation toy_digest toy_digest_ok toy_serialize toy_parse Ok toy_group (chars "/a") 7 (seconds 5) quiet (mret tt)
    (fun _ _ _ => eq_refl) (fun d => ex_intro _ d (conj eq_refl eq_refl))
    (peer_events (chars "/a") 7 quiet [EventInitialTimeout]) (peer_events (chars "/b") 8 quiet [EventInitialTimeout; EventPublish None])
    (peer_ok _ _ _) (peer_ok _ _ _) (toy_parse_serialize _)) as (_ & _ & data & E & Hdata).
  - vm_compute. reflexivity.
  - vm_compute. reflexivity.
  - apply (bool_decide_unpack _). vm_compute. exact I.
  - intros H. vm_compute in H. discriminate H.
  - apply (bool_decide_unpack _). vm_compute. exact I.
  - exists data. split; [now rewrite E |]. cbv zeta in Hdata. destruct Hdata as (_ & Hjoin & _). rewrite !Hjoin. vm_compute. split; reflexivity.
Defined.

(** [update] does not look at the session of a message for the participant's own prefix: an earlier session of it sets
    the sequence number back, and the next publication has nothing new. *)
Example own_session_mixed_up :
  let a := chars "/a" in
  let s := peer_events a 7 quiet [EventInitialTimeout; EventPublish None; EventPublish None] in
  let s' := peer_events a 7 quiet [EventInitialTimeout; EventPublish None; EventPublish None; EventData toy_group (told a 6 0)] in
  sequenceNo_ s = 2 /\ sequenceNo_ s' = 0 /\
  result_of (peer_publish a 7 s') = Err (RuntimeError "ChronoSync: update did not create a new digest log entry").
Proof. vm_compute. repeat split. Qed.

(** [processSyncInterest] has one entry for each prefix, that of the last session in the log. *)
Example other_session_left_out :
  let s := peer_events (chars "/a") 7 quiet [EventInitialTimeout; EventData toy_group (told (chars "/b") 1 5); EventData toy_group (told (chars "/b") 2 9)] in
  later_states 1 s = [(chars "/b", 9, 2)] /\ sequence_known (digestTree_ s) (chars "/b") 1 = Some 5.
Proof. vm_compute. repeat split. Qed.

(** A message that has an old sequence number next to a new one is logged as it is, and the old number is sent. *)
Example old_number_sent :
  let mixed := data_value (content_data toy_serialize toy_group
                 [update_message (chars "/c") 1 3 None; update_message (chars "/b") 2 1 None]) in
  let s := peer_events (chars "/a") 7 quiet [EventInitialTimeout; EventData toy_group (told (chars "/b") 1 5); EventData toy_group mixed] in
  later_states 1 s = [(chars "/b", 2, 1); (chars "/c", 1, 3)] /\ sequence_known (digestTree_ s) (chars "/b") 1 = Some 5.
Proof. vm_compute. repeat split. Qed.
