(* ===== verification/Tables.v ===== *)
(** * The tables of a face

    [PendingInterestTable], [InterestFilterTable], [RegisteredPrefixTable] and
    [DelayedCallTable] of src/impl. A [shared_ptr] to an entry of the pending interest table is
    its position in [entries], the store of all the entries that were made; the [isRemoved] flag
    is in the store, where every holder of the pointer sees it. *)

From stdpp Require Import base list numbers option strings sorting.
From Stdlib Require Import ZArith Lia.
From S2P Require Import Prelude Order Name ChangeCounter Exclude DelegationSet Data Interest.
Open Scope Z_scope.

(** ** Erasing from a vector

    The loops over [table_] go from the last entry to the first and erase the entries that
    satisfy a test: what was erased, in the order of the loop, and what is left. *)

Fixpoint extract {A} (test : A -> bool) (table : list A) : list A * list A :=
  match table with
  | [] => ([], [])
  | x :: table =>
      let '(found, kept) := extract test table in
      if test x then (found ++ [x], kept) else (found, x :: kept)
  end.

(** [erase] of the first element that [::find] finds. *)
Fixpoint erase_first (id : Z) (l : list Z) : list Z :=
  match l with
  | [] => []
  | x :: l => if x =? id then l else x :: erase_first id l
  end.

Definition find_id (id : Z) (l : list Z) : bool := existsb (Z.eqb id) l.

Lemma extract_spec {A} (test : A -> bool) l :
  extract test l = (rev (filter (fun x => test x = true) l), filter (fun x => test x = false) l).
Proof.
  induction l as [| x l IH]; [easy |]. cbn [extract]. rewrite IH, !filter_cons.
  destruct (test x) eqn:E; repeat case_decide; (congruence || easy).
Qed.

Lemma find_id_spec id l : find_id id l = true <-> id ∈ l.
Proof.
  unfold find_id. rewrite existsb_exists. split.
  - intros (x & Hx & He). apply Z.eqb_eq in He as ->. now apply list_elem_of_In.
  - intros H. exists id. split; [now apply list_elem_of_In | apply Z.eqb_refl].
Qed.

Lemma extract_none {A} (test : A -> bool) l :
  (forall x, x ∈ l -> test x = false) -> extract test l = ([], l).
Proof.
  intros H. induction l as [| x l IH]; [easy |]. cbn. rewrite IH.
  - now rewrite H by apply list_elem_of_here.
  - intros y Hy. now apply H, list_elem_of_further.
Qed.

Lemma extract_one {A} (test : A -> bool) l x r :
  test x = true -> Forall (fun y => test y = false) l -> Forall (fun y => test y = false) r ->
  extract test (l ++ x :: r) = ([x], l ++ r).
Proof.
  intros Hx Hl Hr. induction Hl as [| y l Hy Hl IH]; cbn.
  - rewrite extract_none by (apply Forall_forall, Hr). now rewrite Hx.
  - now rewrite IH, Hy.
Qed.

Lemma erase_first_app id l : id ∉ l -> erase_first id (l ++ [id]) = l.
Proof.
  induction l as [| x l IH]; cbn; intros H; [now rewrite Z.eqb_refl |].
  apply not_elem_of_cons in H as [Hne H]. rewrite (proj2 (Z.eqb_neq x id)) by congruence.
  now rewrite IH.
Qed.

(** ** PendingInterestTable *)

Module Pit.
(** The two callbacks that can be empty are flags; the callback itself is known by the pointer.
    [wire] is the wire encoding that the interest was sent with. *)
Record Entry := mkEntry {
  pendingInterestId_ : Z;
  interest_ : InterestValue;
  wire_ : list Z;
  hasOnTimeout : bool;
  hasOnNetworkNack : bool
}.

Record Table := mkTable {
  entries : list (Entry * bool);
  table_ : list nat;
  removeRequests_ : list Z
}.

Definition empty : Table := mkTable [] [] [].

Definition entry_at (self : Table) (p : nat) : option Entry := fst <$> entries self !! p.
Definition isRemoved (self : Table) (p : nat) : bool :=
  default false (snd <$> entries self !! p).

(** [setIsRemoved] of the entries, in the store. *)
Definition mark (entries : list (Entry * bool)) (ps : list nat) : list (Entry * bool) :=
  fold_left (fun es p => alter (fun e => (e.1, true)) p es) ps entries.

Definition add (entry : Entry) (self : Table) : option nat * Table :=
  if find_id (pendingInterestId_ entry) (removeRequests_ self) then
    (None, mkTable (entries self) (table_ self)
             (erase_first (pendingInterestId_ entry) (removeRequests_ self)))
  else
    let p := length (entries self) in
    (Some p, mkTable (entries self ++ [(entry, false)]) (table_ self ++ [p]) (removeRequests_ self)).

(** The entries of the table that satisfy a test on their content, taken out and marked. *)
Definition test_entry (test : Entry -> bool) (self : Table) (p : nat) : bool :=
  match entry_at self p with Some e => test e | None => false end.

Definition take_out (test : Entry -> bool) (self : Table) : list nat * Table :=
  let '(found, kept) := extract (test_entry test self) (table_ self) in
  (found, mkTable (mark (entries self) found) kept (removeRequests_ self)).

(** The [matchesData] of each pending interest; it does not throw. *)
Definition matches (data : DataValue) (fullName : Name) (e : Entry) : bool :=
  match matchesData (interest_ e) data fullName with Ok b => b | Err _ => false end.

Definition extractEntriesForExpressedInterest (data : DataValue) (fullName : Name)
  : Table -> list nat * Table := take_out (matches data fullName).

Definition extractEntriesForNackInterest (encoding : list Z) : Table -> list nat * Table :=
  take_out (fun e => hasOnNetworkNack e && bool_decide (wire_ e = encoding)).

Definition removePendingInterest (pendingInterestId : Z) (self : Table) : Table :=
  let '(found, self) := take_out (fun e => pendingInterestId_ e =? pendingInterestId) self in
  match found with
  | [] =>
      if find_id pendingInterestId (removeRequests_ self) then self
      else mkTable (entries self) (table_ self) (removeRequests_ self ++ [pendingInterestId])
  | _ => self
  end.

(** The search by pointer equality. *)
Fixpoint erase_pointer (p : nat) (table : list nat) : option (list nat) :=
  match table with
  | [] => None
  | q :: table =>
      if decide (q = p) then Some table
      else match erase_pointer p table with Some t => Some (q :: t) | None => None end
  end.

Definition removeEntry (p : nat) (self : Table) : bool * Table :=
  if isRemoved self p then (false, self)
  else
    match erase_pointer p (table_ self) with
    | Some table => (true, mkTable (mark (entries self) [p]) table (removeRequests_ self))
    | None => (false, self)
    end.

(** *** The invariant

    The table has no pointer twice, and an entry is in it exactly until it is marked. *)
Record ok (self : Table) : Prop := {
  ok_nodup : NoDup (table_ self);
  ok_live p : p ∈ table_ self <-> (p < length (entries self))%nat /\ isRemoved self p = false
}.

Lemma mark_cons es p ps : mark es (p :: ps) = mark (alter (fun e => (e.1, true)) p es) ps.
Proof. reflexivity. Qed.

Lemma mark_length es ps : length (mark es ps) = length es.
Proof.
  revert es. induction ps as [| p ps IH]; intros es; [easy |].
  now rewrite mark_cons, IH, length_alter.
Qed.

Lemma mark_lookup es ps p :
  mark es ps !! p = (fun e => (e.1, bool_decide (p ∈ ps) || e.2)) <$> es !! p.
Proof.
  revert es. induction ps as [| q ps IH]; intros es.
  - unfold mark. cbn. rewrite bool_decide_eq_false_2 by apply not_elem_of_nil.
    destruct (es !! p) as [[e b] |]; easy.
  - rewrite mark_cons, IH. destruct (decide (p = q)) as [-> | Hne].
    + rewrite list_lookup_alter, decide_True by easy. rewrite (bool_decide_eq_true_2 (q ∈ q :: ps)) by apply list_elem_of_here.
      destruct (es !! q) as [[e b] |]; [| easy].
      cbn [fmap option_fmap option_map fst snd]. now rewrite orb_true_r.
    + rewrite list_lookup_alter, decide_False by congruence.
      replace (bool_decide (p ∈ q :: ps)) with (bool_decide (p ∈ ps)); [easy |].
      apply bool_decide_ext. rewrite elem_of_cons. tauto.
Qed.

Lemma isRemoved_mark es t r ps p :
  isRemoved (mkTable (mark es ps) t r) p
  = (bool_decide (p ∈ ps) && bool_decide (p < length es)%nat) || isRemoved (mkTable es t r) p.
Proof.
  unfold isRemoved. cbn [entries]. rewrite mark_lookup.
  destruct (es !! p) as [[e b] |] eqn:E; cbn.
  - apply lookup_lt_Some in E. rewrite (bool_decide_eq_true_2 (p < length es)%nat) by exact E.
    now rewrite andb_true_r.
  - apply lookup_ge_None in E. rewrite (bool_decide_eq_false_2 (p < length es)%nat) by lia.
    now rewrite andb_false_r.
Qed.

Lemma entry_at_mark es t r t' r' ps p :
  entry_at (mkTable (mark es ps) t r) p = entry_at (mkTable es t' r') p.
Proof.
  unfold entry_at. cbn [entries]. rewrite mark_lookup. now destruct (es !! p) as [[e b] |].
Qed.

(** What taking entries out does to the table. *)
Record taken (test : Entry -> bool) (self : Table) (found : list nat) (self' : Table) : Prop := {
  taken_found : found = rev (filter (fun p => test_entry test self p = true) (table_ self));
  taken_kept : table_ self' = filter (fun p => test_entry test self p = false) (table_ self);
  taken_entry p : entry_at self' p = entry_at self p;
  taken_length : length (entries self') = length (entries self);
  taken_removed p : isRemoved self' p = bool_decide (p ∈ found) || isRemoved self p;
  taken_requests : removeRequests_ self' = removeRequests_ self
}.

Lemma in_filter {A} (P : A -> Prop) `{forall x, Decision (P x)} x (l : list A) :
  x ∈ filter P l <-> P x /\ x ∈ l.
Proof. apply list_elem_of_filter. Qed.

Lemma in_rev_elem {A} (x : A) (l : list A) : x ∈ rev l <-> x ∈ l.
Proof. rewrite !list_elem_of_In. symmetry. apply in_rev. Qed.

Lemma take_out_taken test self :
  ok self -> let '(found, self') := take_out test self in taken test self found self' /\ ok self'.
Proof.
  intros [Hnd Hl]. unfold take_out. rewrite extract_spec.
  set (found := rev _). set (kept := filter _ (table_ self)).
  assert (Hf : forall p, p ∈ found <-> test_entry test self p = true /\ p ∈ table_ self).
  { intros p. unfold found. rewrite in_rev_elem. now rewrite in_filter. }
  assert (Hrem : forall p, isRemoved (mkTable (mark (entries self) found) kept (removeRequests_ self)) p
    = bool_decide (p ∈ found) || isRemoved self p).
  { intros p. rewrite isRemoved_mark. destruct (decide (p ∈ found)) as [Hin | Hin].
    - pose proof Hin as Hin'. apply Hf in Hin' as [_ Hin']. apply Hl in Hin' as [Hlt _].
      now rewrite (bool_decide_eq_true_2 (p ∈ found)), (bool_decide_eq_true_2 (p < _)%nat) by easy.
    - now rewrite bool_decide_eq_false_2. }
  split.
  - split; cbn [table_ removeRequests_ entries]; auto using mark_length.
    intros p. apply (entry_at_mark _ _ _ (table_ self) (removeRequests_ self)).
  - split; cbn [table_ entries].
    + apply NoDup_filter, Hnd.
    + intros p. rewrite mark_length. unfold kept. rewrite Hrem, orb_false_iff, in_filter, Hl.
      rewrite bool_decide_eq_false, Hf, Hl. destruct (test_entry test self p); intuition congruence.
Qed.

Lemma add_ok e self :
  ok self ->
  let '(r, self') := add e self in
  ok self' /\
  match r with
  | Some p => p = length (entries self) /\ table_ self' = table_ self ++ [p] /\
      entry_at self' p = Some e /\ isRemoved self' p = false /\
      entries self' = entries self ++ [(e, false)]
  | None => table_ self' = table_ self /\ entries self' = entries self
  end.
Proof.
  intros [Hnd Hl]. unfold add. destruct (find_id _ _).
  { split; [now split |]. easy. }
  assert (Hnew : forall p, (p < length (entries self))%nat ->
    (entries self ++ [(e, false)]) !! p = entries self !! p) by (intros; now apply lookup_app_l).
  assert (Hlast : (entries self ++ [(e, false)]) !! length (entries self) = Some (e, false))
    by now apply list_lookup_middle.
  split; [split; cbn [table_ entries] |].
  - apply NoDup_app. split; [exact Hnd |]. split; [| apply NoDup_singleton].
    intros p Hp ->%list_elem_of_singleton. apply Hl in Hp. lia.
  - intros p. rewrite elem_of_app, list_elem_of_singleton, Hl, length_app. cbn [length].
    unfold isRemoved. cbn [entries]. destruct (decide (p < length (entries self))%nat).
    + rewrite Hnew by easy. split; [intros [[_ ?] | ?]; [split; [lia | easy] | lia] | tauto].
    + split; [intros [? | ->]; [lia |]; rewrite Hlast; split; [lia | easy] | intros; right; lia].
  - unfold entry_at, isRemoved. cbn [table_ entries]. now rewrite Hlast.
Qed.

Lemma erase_pointer_spec p t :
  match erase_pointer p t with
  | Some t' => exists l r, t = l ++ p :: r /\ t' = l ++ r
  | None => p ∉ t
  end.
Proof.
  induction t as [| q t IH]; cbn; [apply not_elem_of_nil |]. case_decide as Hq.
  - subst. now exists [], t.
  - destruct (erase_pointer p t) as [t' |].
    + destruct IH as (l & r & -> & ->). now exists (q :: l), r.
    + rewrite not_elem_of_cons. split; [congruence | exact IH].
Qed.

(** [removeEntry] succeeds exactly on an entry that is in the table. *)
Lemma removeEntry_ok p self :
  ok self ->
  let '(b, self') := removeEntry p self in
  ok self' /\ (b = true <-> p ∈ table_ self) /\
  (forall q, q ∈ table_ self' <-> q ∈ table_ self /\ q <> p) /\
  (forall q, isRemoved self' q = isRemoved self q || (b && bool_decide (q = p))) /\
  (forall q, entry_at self' q = entry_at self q) /\ length (entries self') = length (entries self).
Proof.
  intros [Hnd Hl]. unfold removeEntry. destruct (isRemoved self p) eqn:Hr.
  { assert (Hp : p ∉ table_ self) by (rewrite Hl, Hr; intuition congruence).
    split; [now split |]. split; [now split |]. split; [intros q; split; [intros Hq | tauto] |].
    - split; [easy | congruence].
    - repeat split. intros q. now rewrite orb_false_r. }
  pose proof (erase_pointer_spec p (table_ self)) as He. destruct (erase_pointer p _) as [t |].
  2: { split; [now split |]. split; [now split |]. split; [intros q; split; [intros Hq | tauto] |].
       - split; [easy | congruence].
       - repeat split. intros q. now rewrite orb_false_r. }
  destruct He as (l & r & Ht & ->). rewrite Ht in Hnd, Hl.
  assert (Hplt : (p < length (entries self))%nat)
    by (apply Hl, elem_of_app; right; apply list_elem_of_here).
  apply NoDup_app in Hnd as (Hndl & Hdisj & Hndr%NoDup_cons). destruct Hndr as [Hpr Hndr].
  assert (Hpl : p ∉ l) by (intros Hp; apply (Hdisj p Hp), list_elem_of_here).
  assert (Hin : forall q, q ∈ l ++ r <-> q ∈ l ++ p :: r /\ q <> p).
  { intros q. rewrite !elem_of_app, elem_of_cons. split.
    - intros [Hq | Hq]; split; auto; congruence.
    - tauto. }
  assert (Hrem : forall q, isRemoved (mkTable (mark (entries self) [p]) (l ++ r) (removeRequests_ self)) q
    = isRemoved self q || (true && bool_decide (q = p))).
  { intros q. rewrite isRemoved_mark, orb_comm. unfold isRemoved at 1. cbn [entries]. f_equal. cbn [andb].
    destruct (decide (q = p)) as [-> | Hne].
    - rewrite !bool_decide_eq_true_2; auto. apply list_elem_of_here.
    - rewrite (bool_decide_eq_false_2 (q = p)), (bool_decide_eq_false_2 (q ∈ [p])); auto.
      now rewrite list_elem_of_singleton. }
  split; [| split; [| split; [| split; [| split]]]].
  - split; cbn [table_ entries].
    + apply NoDup_app. split; [exact Hndl |]. split; [| exact Hndr].
      intros x Hx Hx'. apply (Hdisj x Hx). now apply list_elem_of_further.
    + intros q. rewrite mark_length, Hin, Hl, Hrem, orb_false_iff. cbn [andb].
      rewrite bool_decide_eq_false. tauto.
  - rewrite Ht. split; [intros _; apply elem_of_app; right; apply list_elem_of_here | easy].
  - cbn [table_]. intros q. now rewrite Ht.
  - exact Hrem.
  - intros q. apply (entry_at_mark _ _ _ (table_ self) (removeRequests_ self)).
  - cbn [entries]. apply mark_length.
Qed.
End Pit.

(** ** InterestFilterTable *)

Module Filters.
(** The filter of include/ndn-ind/interest-filter.hpp; the regex is the pattern that
    [makePattern] made. *)
Record InterestFilter := mkFilter {
  prefix_ : Name;
  regexFilterPattern_ : option (list Z)
}.

(** [makePattern]: the regex anchored at both ends. *)
Definition makePattern (regexFilter : list Z) : list Z :=
  match regexFilter with
  | [] => [94; 36]
  | c :: _ =>
      let pattern := if negb (c =? 94) then 94 :: regexFilter else regexFilter in
      if negb (default 0 (last pattern) =? 36) then pattern ++ [36] else pattern
  end.

Record Entry := mkEntry {
  interestFilterId_ : Z;
  filter_ : InterestFilter
}.

Section Matcher.
(** [NdnRegexTopMatcher(pattern).match(name)], the matcher of src/util/regex. *)
Context (topMatcher : list Z -> Name -> bool).

Definition doesMatch (self : InterestFilter) (name : Name) : bool :=
  if zlen name <? zlen (prefix_ self) then false
  else
    match regexFilterPattern_ self with
    | Some pattern =>
        if negb (name_match (prefix_ self) name) then false
        else topMatcher pattern (getSubName name (zlen (prefix_ self)) (2 ^ 64 - 1))
    | None => name_match (prefix_ self) name
    end.

Definition getMatchedFilters (name : Name) (table_ : list Entry) : list Entry :=
  filter (fun e => doesMatch (filter_ e) name = true) table_.
End Matcher.

Definition setInterestFilter (id : Z) (f : InterestFilter) (table_ : list Entry) : list Entry :=
  table_ ++ [mkEntry id f].

Definition unsetInterestFilter (id : Z) (table_ : list Entry) : list Entry :=
  (extract (fun e => interestFilterId_ e =? id) table_).2.

Lemma unset_spec id table :
  unsetInterestFilter id table = filter (fun e => (interestFilterId_ e =? id) = false) table.
Proof. unfold unsetInterestFilter. now rewrite extract_spec. Qed.
End Filters.

(** ** RegisteredPrefixTable *)

Module Prefixes.
Record Entry := mkEntry {
  registeredPrefixId_ : Z;
  prefix_ : Name;
  relatedInterestFilterId_ : Z
}.

Record Table := mkTable {
  table_ : list Entry;
  removeRequests_ : list Z
}.

Definition add (entry : Entry) (self : Table) : bool * Table :=
  if find_id (registeredPrefixId_ entry) (removeRequests_ self) then
    (false, mkTable (table_ self) (erase_first (registeredPrefixId_ entry) (removeRequests_ self)))
  else (true, mkTable (table_ self ++ [entry]) (removeRequests_ self)).

(** The related filters of the erased entries are unset on the way, in the table of filters that
    this one refers to. *)
Definition unset_related (found : list Entry) (filters : list Filters.Entry) : list Filters.Entry :=
  fold_left (fun filters e =>
    if relatedInterestFilterId_ e >? 0
    then Filters.unsetInterestFilter (relatedInterestFilterId_ e) filters else filters)
    found filters.

Definition removeRegisteredPrefix (id : Z) (self : Table) (filters : list Filters.Entry)
  : Table * list Filters.Entry :=
  let '(found, kept) := extract (fun e => registeredPrefixId_ e =? id) (table_ self) in
  let filters := unset_related found filters in
  match found with
  | [] =>
      (mkTable kept (if find_id id (removeRequests_ self) then removeRequests_ self
                     else removeRequests_ self ++ [id]), filters)
  | _ => (mkTable kept (removeRequests_ self), filters)
  end.
End Prefixes.

(** ** DelayedCallTable *)

Module DelayedCalls.
Section Calls.
(** The callbacks. *)
Context {C : Type}.

Record Entry := mkEntry {
  callTime_ : Z;
  callback_ : C
}.

(** [insert] at the [lower_bound]: before the first entry whose call time is not less. *)
Fixpoint callLater (entry : Entry) (table_ : list Entry) : list Entry :=
  match table_ with
  | [] => [entry]
  | e :: table =>
      if callTime_ e <? callTime_ entry then e :: callLater entry table else entry :: e :: table
  end.

(** One turn of the loop of [callTimedOut]: the entry at the front, when it is due. *)
Definition next_due (now : Z) (table_ : list Entry) : option (C * list Entry) :=
  match table_ with
  | e :: table => if callTime_ e <=? now then Some (callback_ e, table) else None
  | [] => None
  end.

Definition sorted (table_ : list Entry) : Prop :=
  StronglySorted (fun a b => callTime_ a <= callTime_ b) table_.

Lemma callLater_in entry table x : x ∈ callLater entry table <-> x = entry \/ x ∈ table.
Proof.
  induction table as [| e table IH]; cbn.
  - rewrite list_elem_of_singleton, elem_of_nil. tauto.
  - destruct (_ <? _); rewrite ?elem_of_cons, ?IH; tauto.
Qed.

Lemma callLater_sorted entry table : sorted table -> sorted (callLater entry table).
Proof.
  unfold sorted. induction table as [| e table IH]; cbn; intros Hs; [repeat constructor |].
  apply StronglySorted_inv in Hs as [Hs He]. destruct (Z.ltb_spec (callTime_ e) (callTime_ entry)).
  - constructor; [now apply IH |]. apply Forall_forall. intros x [-> | Hx]%callLater_in; [lia |].
    rewrite Forall_forall in He. now apply He.
  - constructor; [now constructor |]. constructor; [lia |]. eapply Forall_impl; [exact He |].
    cbn. lia.
Qed.

Lemma next_due_sorted now table c table' :
  sorted table -> next_due now table = Some (c, table') -> sorted table'.
Proof.
  unfold sorted. destruct table as [| e table]; cbn; [easy |]. destruct (_ <=? _); [| easy].
  intros Hs [= <- <-]. now apply StronglySorted_inv in Hs.
Qed.

(** When the loop stops, nothing in the table is due. *)
Lemma next_due_none now table :
  sorted table -> next_due now table = None -> Forall (fun e => now < callTime_ e) table.
Proof.
  unfold sorted. destruct table as [| e table]; cbn; [constructor |].
  destruct (Z.leb_spec (callTime_ e) now) as [| Hlt]; [easy |]. intros Hs _.
  apply StronglySorted_inv in Hs as [_ He]. constructor; [exact Hlt |].
  eapply Forall_impl; [exact He |]. cbn. lia.
Qed.
End Calls.
Arguments Entry : clear implicits.
End DelayedCalls.

(** ** Properties *)

(** The pending interest table. Taking out the entries that match gives each of them once, in the reverse
    order of the table, marks exactly those as removed, and leaves the others in their order; an
    entry that was taken out is not removed again. *)
Theorem pit_take_out (test : Pit.Entry -> bool) (self : Pit.Table) :
  Pit.ok self ->
  let '(found, self') := Pit.take_out test self in
  Pit.ok self' /\ NoDup found /\
  found = rev (filter (fun p => Pit.test_entry test self p = true) (Pit.table_ self)) /\
  Pit.table_ self' = filter (fun p => Pit.test_entry test self p = false) (Pit.table_ self) /\
  (forall p, p ∈ found -> Pit.isRemoved self' p = true /\ Pit.removeEntry p self' = (false, self')) /\
  (forall p, p ∉ found -> Pit.isRemoved self' p = Pit.isRemoved self p).
Proof.
  intros Hok. pose proof (Pit.take_out_taken test self Hok) as Ht.
  destruct (Pit.take_out test self) as [found self']. destruct Ht as [[Hf Hk He Hl Hr Hq] Hok'].
  split; [exact Hok' |]. split.
  { rewrite Hf. apply NoDup_ListNoDup, List.NoDup_rev, NoDup_ListNoDup, NoDup_filter, Hok. }
  split; [exact Hf |]. split; [exact Hk |]. split.
  - intros p Hp. assert (E : Pit.isRemoved self' p = true)
      by (rewrite Hr, bool_decide_eq_true_2; easy).
    split; [exact E |]. unfold Pit.removeEntry. now rewrite E.
  - intros p Hp. now rewrite Hr, bool_decide_eq_false_2.
Qed.

(** Removal before addition. [removePendingInterest] of an id that is not in the table makes the next [add]
    with that id return null, once; the one after it adds an entry. *)
Theorem pit_remove_before_add (e : Pit.Entry) (self : Pit.Table) :
  Pit.ok self -> Pit.pendingInterestId_ e ∉ Pit.removeRequests_ self ->
  (forall p d, p ∈ Pit.table_ self -> Pit.entry_at self p = Some d ->
     Pit.pendingInterestId_ d <> Pit.pendingInterestId_ e) ->
  let self1 := Pit.removePendingInterest (Pit.pendingInterestId_ e) self in
  exists self2 self3 p, Pit.add e self1 = (None, self2) /\
    Pit.table_ self2 = Pit.table_ self /\ Pit.removeRequests_ self2 = Pit.removeRequests_ self /\
    Pit.add e self2 = (Some p, self3) /\ p ∈ Pit.table_ self3.
Proof.
  intros Hok Hreq Hno. set (id := Pit.pendingInterestId_ e) in *.
  assert (Hfind : find_id id (Pit.removeRequests_ self) = false)
    by (apply not_true_iff_false; now rewrite find_id_spec).
  assert (H1 : Pit.removePendingInterest id self =
    Pit.mkTable (Pit.entries self) (Pit.table_ self) (Pit.removeRequests_ self ++ [id])).
  { unfold Pit.removePendingInterest, Pit.take_out. rewrite extract_none.
    - cbn [rev Pit.removeRequests_ Pit.entries Pit.table_]. now rewrite Hfind.
    - intros p Hp. unfold Pit.test_entry. destruct (Pit.entry_at self p) as [d |] eqn:E; [| easy].
      apply Z.eqb_neq. now apply (Hno p). }
  rewrite H1. unfold Pit.add. fold id. cbn [Pit.removeRequests_ Pit.entries Pit.table_].
  rewrite (proj2 (find_id_spec id (_ ++ [id]))) by (apply elem_of_app; right; apply list_elem_of_here).
  rewrite erase_first_app by easy. do 3 eexists. split; [reflexivity |].
  split; [reflexivity |]. split; [reflexivity |].
  cbn [Pit.removeRequests_ Pit.entries Pit.table_]. rewrite Hfind. split; [reflexivity |].
  apply elem_of_app. right. apply list_elem_of_here.
Qed.

(** Removing a registered prefix. It takes the entry and the filter that was set with it out of their
    tables, and leaves the other prefixes and filters. *)
Theorem remove_registered_prefix (e : Prefixes.Entry) (self : Prefixes.Table)
    (l r : list Prefixes.Entry) (filters : list Filters.Entry) :
  Prefixes.table_ self = l ++ e :: r -> 0 < Prefixes.relatedInterestFilterId_ e ->
  Forall (fun d => Prefixes.registeredPrefixId_ d <> Prefixes.registeredPrefixId_ e) (l ++ r) ->
  let '(self', filters') :=
    Prefixes.removeRegisteredPrefix (Prefixes.registeredPrefixId_ e) self filters in
  Prefixes.table_ self' = l ++ r /\ Prefixes.removeRequests_ self' = Prefixes.removeRequests_ self /\
  filters' = filter (fun f => (Filters.interestFilterId_ f =? Prefixes.relatedInterestFilterId_ e) = false)
    filters.
Proof.
  intros Ht Hpos Hother. unfold Prefixes.removeRegisteredPrefix. rewrite Ht.
  apply Forall_app in Hother as [Hl Hr].
  rewrite extract_one; cbn.
  - rewrite Z.gtb_ltb, (proj2 (Z.ltb_lt _ _)) by easy. now rewrite Filters.unset_spec.
  - apply Z.eqb_refl.
  - eapply Forall_impl; [exact Hl |]. intros d Hd. now apply Z.eqb_neq.
  - eapply Forall_impl; [exact Hr |]. intros d Hd. now apply Z.eqb_neq.
Qed.

(** Delayed calls. A call goes into the table in the order of the call times; the loop of
    [callTimedOut] takes the entries at the front while they are due, each gives a sorted rest,
    and when it stops no entry that is due is left. *)
Theorem delayed_calls {C} (entry : DelayedCalls.Entry C) (table : list (DelayedCalls.Entry C)) (now : Z) :
  DelayedCalls.sorted table ->
  DelayedCalls.sorted (DelayedCalls.callLater entry table) /\
  (forall x, x ∈ DelayedCalls.callLater entry table <-> x = entry \/ x ∈ table) /\
  match DelayedCalls.next_due now table with
  | Some (c, rest) => DelayedCalls.sorted rest /\
      exists e, table = e :: rest /\ DelayedCalls.callback_ e = c /\ DelayedCalls.callTime_ e <= now
  | None => Forall (fun e => now < DelayedCalls.callTime_ e) table
  end.
Proof.
  intros Hs. split; [now apply DelayedCalls.callLater_sorted |].
  split; [intros x; apply DelayedCalls.callLater_in |].
  destruct (DelayedCalls.next_due now table) as [[c rest] |] eqn:E.
  - split; [now apply (DelayedCalls.next_due_sorted now table c) |].
    destruct table as [| e table]; cbn in E; [easy |].
    destruct (Z.leb_spec (DelayedCalls.callTime_ e) now); [| easy]. injection E as <- <-. eauto.
  - now apply DelayedCalls.next_due_none.
Qed.

(** ** Witnesses *)

(** A table with two pending interests. *)
Definition two_pending : Pit.Table :=
  let e id := Pit.mkEntry id (interest_value (Interest_new [generic [97]] true true)) [] true false in
  (Pit.add (e 2) (Pit.add (e 1) Pit.empty).2).2.

Lemma two_pending_ok : Pit.ok two_pending.
Proof.
  pose proof (Pit.add_ok (Pit.mkEntry 1 (interest_value (Interest_new [generic [97]] true true)) [] true false)
    Pit.empty) as H1.
  destruct H1 as [H1 _].
  { split; [constructor |]. intros p. rewrite elem_of_nil. cbn. split; [easy | lia]. }
  apply (Pit.add_ok (Pit.mkEntry 2 (interest_value (Interest_new [generic [97]] true true)) [] true false)
    _ H1).
Qed.

Lemma pit_take_out_witness :
  (Pit.take_out (fun _ => true) two_pending).1 = [1%nat; 0%nat] /\
  Pit.ok (Pit.take_out (fun _ => true) two_pending).2.
Proof.
  split; [reflexivity |]. exact (proj1 (pit_take_out (fun _ => true) two_pending two_pending_ok)).
Defined.

Lemma pit_remove_before_add_witness :
  let e := Pit.mkEntry 3 (interest_value (Interest_new [] true true)) [] true false in
  exists self2, Pit.add e (Pit.removePendingInterest 3 two_pending) = (None, self2).
Proof.
  intros e. destruct (pit_remove_before_add e two_pending two_pending_ok) as (self2 & _ & _ & H & _).
  - apply not_elem_of_nil.
  - intros p d Hp. cbn in Hp. rewrite !elem_of_cons, elem_of_nil in Hp.
    destruct Hp as [-> | [-> | []]]; vm_compute; intros [= <-]; discriminate.
  - exists self2. exact H.
Defined.

Lemma remove_registered_prefix_witness :
  let e := Prefixes.mkEntry 4 [generic [97]] 5 in
  let filters := [Filters.mkEntry 5 (Filters.mkFilter [generic [97]] None);
                  Filters.mkEntry 6 (Filters.mkFilter [] None)] in
  (Prefixes.removeRegisteredPrefix 4 (Prefixes.mkTable [e] []) filters).2
  = [Filters.mkEntry 6 (Filters.mkFilter [] None)].
Proof.
  intros e filters.
  exact (proj2 (proj2 (remove_registered_prefix e (Prefixes.mkTable [e] []) [] [] filters
    eq_refl ltac:(cbn; lia) ltac:(constructor)))).
Defined.

Lemma delayed_calls_witness :
  DelayedCalls.sorted (DelayedCalls.callLater (DelayedCalls.mkEntry 5 tt)
    [DelayedCalls.mkEntry 3 tt; DelayedCalls.mkEntry 7 tt]).
Proof.
  apply (delayed_calls (DelayedCalls.mkEntry 5 tt)
    [DelayedCalls.mkEntry 3 tt; DelayedCalls.mkEntry 7 tt] 0).
  repeat constructor; cbn; lia.
Defined.
