(* ===== verification/Node.v ===== *)
(** * The node of a face

    The class [Node] of src/node.cpp: expressing interests, the connection state, the dispatch of
    received packets to the tables of Tables.v, timeouts, and the registration of prefixes. An
    operation is a state transformer that also gives the calls it makes to the outside, in
    order, and the exception it throws, if any. A callback of the application is such a call; what
    the application does in it is a later operation, which is how the C++ code behaves: no
    operation reads the state after it has called back, except [callTimedOut], whose turns are
    operations of their own. *)

From stdpp Require Import base list numbers option strings sorting.
From Stdlib Require Import ZArith Lia.
From S2P Require Import Prelude Order Name NameUri ChangeCounter Exclude DelegationSet Data Interest Tables.
Open Scope Z_scope.

(** ** State *)

Inductive ConnectStatus := UNCONNECTED | CONNECT_REQUESTED | CONNECT_COMPLETE.

(** The copy of an Interest that a call expresses, with its nonce. *)
Record InterestCopy := mkInterestCopy {
  ic_value : InterestValue;
  ic_nonce : Blob
}.

(** The arguments of [expressInterestHelper] that a callback on connection keeps. *)
Record Request := mkRequest {
  r_pendingInterestId : Z;
  r_interest : InterestCopy;
  r_onTimeout : bool;
  r_onNetworkNack : bool
}.

(** What the delayed call table holds: [processInterestTimeout] of an entry, or a callback of the
    application. *)
Inductive DelayedCallback :=
| InterestTimeout (p : nat)
| ApplicationCallback (id : Z).

Record Node := mkNode {
  pendingInterestTable_ : Pit.Table;
  interestFilterTable_ : list Filters.Entry;
  registeredPrefixTable_ : Prefixes.Table;
  delayedCallTable_ : list (DelayedCalls.Entry DelayedCallback);
  lastEntryId_ : Z;
  connectStatus_ : ConnectStatus;
  onConnectedCallbacks_ : list Request;
  interestLoopbackEnabled_ : bool
}.

Definition Node_new : Node :=
  mkNode Pit.empty [] (Prefixes.mkTable [] []) [] 0 UNCONNECTED [] false.

(** Calls to the outside: the transport, and the callbacks, by the entry that has them. *)
Inductive Call :=
| TransportConnect
| TransportSend (encoding : list Z)
| CallOnData (p : nat) (data : DataValue)
| CallOnTimeout (p : nat)
| CallOnNetworkNack (p : nat)
| CallOnInterest (interestFilterId : Z) (interest : InterestCopy)
| CallDelayed (id : Z)
| CallOnRegisterFailed (prefix : Name)
| CallOnRegisterSuccess (prefix : Name) (registeredPrefixId : Z).

(** ** Operations *)

Definition Op (A : Type) : Type := Node -> Node * list Call * result exn A.

#[export] Instance Op_ret : MRet Op := fun _ a n => (n, [], Ok a).
#[export] Instance Op_bind : MBind Op := fun _ _ f m n =>
  let '(n1, calls1, r) := m n in
  match r with
  | Err e => (n1, calls1, Err e)
  | Ok a => let '(n2, calls2, r2) := f a n1 in (n2, calls1 ++ calls2, r2)
  end.

Definition get_node : Op Node := fun n => (n, [], Ok n).
Definition modify (f : Node -> Node) : Op unit := fun n => (f n, [], Ok tt).
Definition call (c : Call) : Op unit := fun n => (n, [c], Ok tt).
Definition calls (cs : list Call) : Op unit := fun n => (n, cs, Ok tt).
Definition throw {A} (message : string) : Op A := fun n => (n, [], Err (RuntimeError message)).

Definition set_pit (t : Pit.Table) (n : Node) : Node :=
  mkNode t (interestFilterTable_ n) (registeredPrefixTable_ n) (delayedCallTable_ n) (lastEntryId_ n)
    (connectStatus_ n) (onConnectedCallbacks_ n) (interestLoopbackEnabled_ n).
Definition set_filters (t : list Filters.Entry) (n : Node) : Node :=
  mkNode (pendingInterestTable_ n) t (registeredPrefixTable_ n) (delayedCallTable_ n) (lastEntryId_ n)
    (connectStatus_ n) (onConnectedCallbacks_ n) (interestLoopbackEnabled_ n).
Definition set_prefixes (t : Prefixes.Table) (n : Node) : Node :=
  mkNode (pendingInterestTable_ n) (interestFilterTable_ n) t (delayedCallTable_ n) (lastEntryId_ n)
    (connectStatus_ n) (onConnectedCallbacks_ n) (interestLoopbackEnabled_ n).
Definition set_delayed (t : list (DelayedCalls.Entry DelayedCallback)) (n : Node) : Node :=
  mkNode (pendingInterestTable_ n) (interestFilterTable_ n) (registeredPrefixTable_ n) t
    (lastEntryId_ n) (connectStatus_ n) (onConnectedCallbacks_ n) (interestLoopbackEnabled_ n).
Definition set_lastEntryId (v : Z) (n : Node) : Node :=
  mkNode (pendingInterestTable_ n) (interestFilterTable_ n) (registeredPrefixTable_ n)
    (delayedCallTable_ n) v (connectStatus_ n) (onConnectedCallbacks_ n) (interestLoopbackEnabled_ n).
Definition set_connection (s : ConnectStatus) (cs : list Request) (n : Node) : Node :=
  mkNode (pendingInterestTable_ n) (interestFilterTable_ n) (registeredPrefixTable_ n)
    (delayedCallTable_ n) (lastEntryId_ n) s cs (interestLoopbackEnabled_ n).
Definition setInterestLoopbackEnabled (b : bool) : Op unit :=
  modify (fun n => mkNode (pendingInterestTable_ n) (interestFilterTable_ n) (registeredPrefixTable_ n)
    (delayedCallTable_ n) (lastEntryId_ n) (connectStatus_ n) (onConnectedCallbacks_ n) b).

(** [Name("/local/timeout")]. *)
Definition timeoutPrefix_ : Name := [generic (chars "local"); generic (chars "timeout")].

Section Node.
(** The wire encodings of an Interest and of a Data packet in the default format, the full name of a
    Data packet, the regex matcher of the filters, and whether the transport is asynchronous. *)
Context (encodeInterest : InterestCopy -> list Z) (encodeData : DataValue -> list Z).
Context (fullName : DataValue -> Name) (topMatcher : list Z -> Name -> bool) (isAsync : bool).

Definition getNextEntryId : Op Z := fun n =>
  let id := wrap64 (lastEntryId_ n + 1) in (set_lastEntryId id n, [], Ok id).

(** The callbacks are called in the order of the table; an exception in one is logged. *)
Definition dispatchInterest (interest : InterestCopy) : Op unit :=
  n ← get_node;
  let matchedFilters :=
    Filters.getMatchedFilters topMatcher (interest_name (ic_value interest)) (interestFilterTable_ n) in
  calls (map (fun e => CallOnInterest (Filters.interestFilterId_ e) interest) matchedFilters).

(** Both overloads; the second one, for loopback, uses the result. *)
Definition satisfyPendingInterests (data : DataValue) : Op bool :=
  n ← get_node;
  let '(pitEntries, pit) :=
    Pit.extractEntriesForExpressedInterest data (fullName data) (pendingInterestTable_ n) in
  _ ← modify (set_pit pit);
  _ ← calls (map (fun p => CallOnData p data) pitEntries);
  mret (negb (bool_decide (pitEntries = []))).

Definition send (encoding : list Z) : Op unit :=
  if zlen encoding >? getMaxNdnPacketSize then
    throw "The encoded packet size exceeds the maximum limit getMaxNdnPacketSize()"
  else call (TransportSend encoding).

Definition putData (data : DataValue) : Op unit :=
  n ← get_node;
  hasApplicationMatch ←
    (if interestLoopbackEnabled_ n then satisfyPendingInterests data else mret false);
  if hasApplicationMatch : bool then mret tt
  else
    let encoding := encodeData data in
    if zlen encoding >? getMaxNdnPacketSize then
      throw "The encoded Data packet size exceeds the maximum limit getMaxNdnPacketSize()"
    else send encoding.

Definition putNack (encoding : list Z) : Op unit :=
  if zlen encoding >? getMaxNdnPacketSize then
    throw "The encoded Nack packet size exceeds the maximum limit getMaxNdnPacketSize()"
  else send encoding.

Definition pit_entry (r : Request) : Pit.Entry :=
  Pit.mkEntry (r_pendingInterestId r) (ic_value (r_interest r)) (encodeInterest (r_interest r))
    (r_onTimeout r) (r_onNetworkNack r).

Definition callLater (now delay : Z) (callback : DelayedCallback) : Op unit :=
  modify (fun n => set_delayed
    (DelayedCalls.callLater (DelayedCalls.mkEntry (now + delay) callback) (delayedCallTable_ n)) n).

Definition has_timer (e : Pit.Entry) : bool :=
  Pit.hasOnTimeout e || (interestLifetime_ (Pit.interest_ e).1 >=? 0).

Definition timer_delay (e : Pit.Entry) : Z :=
  let lifetime := interestLifetime_ (Pit.interest_ e).1 in
  if lifetime <? 0 then seconds 4 else lifetime.

(** The end of the helper: an Interest with the timeout prefix is not sent. *)
Definition sendInterest (interestCopy : InterestCopy) : Op unit :=
  if negb (name_match timeoutPrefix_ (interest_name (ic_value interestCopy))) then
    let encoding := encodeInterest interestCopy in
    if zlen encoding >? getMaxNdnPacketSize then
      throw "The encoded interest size exceeds the maximum limit getMaxNdnPacketSize()"
    else
      _ ← call (TransportSend encoding);
      n ← get_node;
      if interestLoopbackEnabled_ n then dispatchInterest interestCopy else mret tt
  else mret tt.

Definition expressInterestHelper (now : Z) (r : Request) : Op unit :=
  n ← get_node;
  let '(pendingInterest, pit) := Pit.add (pit_entry r) (pendingInterestTable_ n) in
  _ ← modify (set_pit pit);
  match pendingInterest with
  | None => mret tt
  | Some p =>
      _ ← (if has_timer (pit_entry r)
           then callLater now (timer_delay (pit_entry r)) (InterestTimeout p) else mret tt);
      sendInterest (r_interest r)
  end.

(** The nonce is set when there is none; [newNonce] is what [refreshNonce] draws. *)
Definition with_nonce (newNonce : list Z) (i : InterestCopy) : InterestCopy :=
  if blob_size (ic_nonce i) =? 0 then mkInterestCopy (ic_value i) (Some newNonce) else i.

Definition expressInterest (now : Z) (newNonce : list Z) (r : Request) : Op unit :=
  let r := mkRequest (r_pendingInterestId r) (with_nonce newNonce (r_interest r)) (r_onTimeout r)
    (r_onNetworkNack r) in
  n ← get_node;
  match connectStatus_ n with
  | CONNECT_COMPLETE => expressInterestHelper now r
  | status =>
      if negb isAsync then
        _ ← call TransportConnect;
        _ ← expressInterestHelper now r;
        modify (fun n => set_connection CONNECT_COMPLETE (onConnectedCallbacks_ n) n)
      else
        match status with
        | UNCONNECTED =>
            _ ← modify (fun n => set_connection CONNECT_REQUESTED (onConnectedCallbacks_ n ++ [r]) n);
            call TransportConnect
        | _ => modify (fun n => set_connection CONNECT_REQUESTED (onConnectedCallbacks_ n ++ [r]) n)
        end
  end.

(** [Face::expressInterest]. *)
Definition face_expressInterest (now : Z) (newNonce : list Z) (interest : InterestCopy)
    (onTimeout onNetworkNack : bool) : Op Z :=
  id ← getNextEntryId;
  _ ← expressInterest now newNonce (mkRequest id interest onTimeout onNetworkNack);
  mret id.

Fixpoint for_each {A} (f : A -> Op unit) (l : list A) : Op unit :=
  match l with
  | [] => mret tt
  | x :: l => _ ← f x; for_each f l
  end.

Definition onConnected (now : Z) : Op unit :=
  n ← get_node;
  _ ← for_each (expressInterestHelper now) (onConnectedCallbacks_ n);
  modify (set_connection CONNECT_COMPLETE []).

Definition removePendingInterest (id : Z) : Op unit :=
  modify (fun n => set_pit (Pit.removePendingInterest id (pendingInterestTable_ n)) n).

Definition setInterestFilter (id : Z) (f : Filters.InterestFilter) : Op unit :=
  modify (fun n => set_filters (Filters.setInterestFilter id f (interestFilterTable_ n)) n).

Definition unsetInterestFilter (id : Z) : Op unit :=
  modify (fun n => set_filters (Filters.unsetInterestFilter id (interestFilterTable_ n)) n).

Definition removeRegisteredPrefix (id : Z) : Op unit :=
  modify (fun n =>
    let '(prefixes, filters) :=
      Prefixes.removeRegisteredPrefix id (registeredPrefixTable_ n) (interestFilterTable_ n) in
    set_filters filters (set_prefixes prefixes n)).

(** A received element after it is decoded: the Interest or the Data packet in it, and whether its
    LpPacket has a network Nack. *)
Inductive Packet :=
| InterestPacket (interest : InterestCopy)
| DataPacket (data : DataValue)
| OtherPacket.

Definition onReceivedElement (networkNack : bool) (packet : Packet) : Op unit :=
  if networkNack then
    match packet with
    | InterestPacket interest =>
        n ← get_node;
        let '(pitEntries, pit) :=
          Pit.extractEntriesForNackInterest (encodeInterest interest) (pendingInterestTable_ n) in
        _ ← modify (set_pit pit);
        _ ← calls (map CallOnNetworkNack pitEntries);
        mret tt
    | _ => mret tt
    end
  else
    match packet with
    | InterestPacket interest => dispatchInterest interest
    | DataPacket data => _ ← satisfyPendingInterests data; mret tt
    | OtherPacket => mret tt
    end.

Definition processInterestTimeout (p : nat) : Op unit :=
  n ← get_node;
  let '(removed, pit) := Pit.removeEntry p (pendingInterestTable_ n) in
  _ ← modify (set_pit pit);
  if removed : bool then
    match Pit.entry_at pit p with
    | Some e => if Pit.hasOnTimeout e then call (CallOnTimeout p) else mret tt
    | None => mret tt
    end
  else mret tt.

(** One turn of the loop of [callTimedOut]; it returns false when the loop ends. *)
Definition callTimedOut_turn (now : Z) : Op bool :=
  n ← get_node;
  match DelayedCalls.next_due now (delayedCallTable_ n) with
  | None => mret false
  | Some (callback, table) =>
      _ ← modify (set_delayed table);
      _ ← match callback with
          | InterestTimeout p => processInterestTimeout p
          | ApplicationCallback id => call (CallDelayed id)
          end;
      mret true
  end.

(** [RegisterResponse]: the response to the command, [None] when it does not decode, or its
    timeout. *)
Record RegisterInfo := mkRegisterInfo {
  ri_prefix : Name;
  ri_registeredPrefixId : Z;
  ri_onInterest : bool;
  ri_onRegisterSuccess : bool
}.

Definition registerResponse_onData (info : RegisterInfo) (statusCode : option Z) : Op unit :=
  match statusCode with
  | None => call (CallOnRegisterFailed (ri_prefix info))
  | Some code =>
      if negb (code =? 200) then call (CallOnRegisterFailed (ri_prefix info))
      else
        stop ←
          (if negb (ri_registeredPrefixId info =? 0) then
             interestFilterId ←
               (if ri_onInterest info then
                  id ← getNextEntryId;
                  _ ← setInterestFilter id (Filters.mkFilter (ri_prefix info) None);
                  mret id
                else mret 0);
             n ← get_node;
             let '(added, prefixes) := Prefixes.add
               (Prefixes.mkEntry (ri_registeredPrefixId info) (ri_prefix info) interestFilterId)
               (registeredPrefixTable_ n) in
             _ ← modify (set_prefixes prefixes);
             if negb added then
               _ ← (if interestFilterId >? 0 then unsetInterestFilter interestFilterId else mret tt);
               mret true
             else mret false
           else mret false);
        if stop : bool then mret tt
        else if ri_onRegisterSuccess info
        then call (CallOnRegisterSuccess (ri_prefix info) (ri_registeredPrefixId info))
        else mret tt
  end.

Definition registerResponse_onTimeout (info : RegisterInfo) : Op unit :=
  call (CallOnRegisterFailed (ri_prefix info)).
End Node.

(** ** Outcomes

    The callbacks that conclude a pending interest, and how often they are called. *)

Definition outcome_of (c : Call) : option nat :=
  match c with
  | CallOnData p _ | CallOnTimeout p | CallOnNetworkNack p => Some p
  | _ => None
  end.

Definition outcomes (p : nat) (cs : list Call) : nat :=
  length (filter (fun c => outcome_of c = Some p) cs).

Lemma outcomes_app p a b : outcomes p (a ++ b) = (outcomes p a + outcomes p b)%nat.
Proof. unfold outcomes. now rewrite filter_app, length_app. Qed.

Lemma outcomes_none p cs : Forall (fun c => outcome_of c = None) cs -> outcomes p cs = 0%nat.
Proof.
  intros H. unfold outcomes. induction H as [| c cs Hc Hcs IH]; [easy |].
  rewrite filter_cons_False; [exact IH | congruence].
Qed.

Lemma outcomes_map p (f : nat -> Call) ps :
  (forall q, outcome_of (f q) = Some q) -> NoDup ps ->
  outcomes p (map f ps) = (if decide (p ∈ ps) then 1 else 0)%nat.
Proof.
  intros Hf Hnd. unfold outcomes. induction Hnd as [| q ps Hq Hnd IH]; [easy |]. cbn [map].
  rewrite filter_cons, Hf. destruct (decide (Some q = Some p)) as [[= ->] | Hne].
  - cbn [length]. rewrite IH, decide_False by easy. now rewrite decide_True by apply list_elem_of_here.
  - rewrite IH. destruct (decide (p ∈ ps)); case_decide as Hd; try easy.
    + exfalso. apply Hd. now apply list_elem_of_further.
    + exfalso. apply elem_of_cons in Hd as [-> | Hd]; [congruence | easy].
Qed.

Abbreviation removed n p := (Pit.isRemoved (pendingInterestTable_ n) p).

(** [n'] after the calls [cs] from [n]: the table is well formed, an entry that is removed stays
    so and is not called back, one that is called back is called once and is removed. *)
Record moves (n : Node) (cs : list Call) (n' : Node) : Prop := {
  mv_ok : Pit.ok (pendingInterestTable_ n');
  mv_removed p : removed n p = true -> removed n' p = true /\ outcomes p cs = 0%nat;
  mv_live p : removed n' p = false -> outcomes p cs = 0%nat;
  mv_once p : (outcomes p cs <= 1)%nat
}.

Lemma moves_trans n1 a n2 b n3 : moves n1 a n2 -> moves n2 b n3 -> moves n1 (a ++ b) n3.
Proof.
  intros [_ Ha1 Ha2 Ha3] [Hok Hb1 Hb2 Hb3]. split; [exact Hok | | |]; intros p; rewrite outcomes_app.
  - intros Hr. destruct (Ha1 p Hr) as [Hr2 ->]. destruct (Hb1 p Hr2) as [Hr3 ->]. easy.
  - intros Hr. rewrite (Hb2 p Hr), (Ha2 p); [easy |].
    destruct (removed n2 p) eqn:E; [| easy]. destruct (Hb1 p E). congruence.
  - destruct (removed n2 p) eqn:E.
    + destruct (Hb1 p E) as [_ ->]. rewrite Nat.add_0_r. apply Ha3.
    + rewrite (Ha2 p E). apply Hb3.
Qed.

(** An operation that does not touch the pending interests and concludes none. *)
Lemma moves_same n n' cs :
  Pit.ok (pendingInterestTable_ n) -> pendingInterestTable_ n' = pendingInterestTable_ n ->
  Forall (fun c => outcome_of c = None) cs -> moves n cs n'.
Proof.
  intros Hok He Hc. split; rewrite ?He; auto; intros p; rewrite ?(outcomes_none p cs Hc); auto.
Qed.

Definition good {A} (op : Op A) : Prop :=
  forall n, Pit.ok (pendingInterestTable_ n) -> let '(n', cs, _) := op n in moves n cs n'.

Lemma good_bind {A B} (m : Op A) (f : A -> Op B) :
  good m -> (forall a, good (f a)) -> good (m ≫= f).
Proof.
  intros Hm Hf n Hn. unfold mbind, Op_bind. specialize (Hm n Hn).
  destruct (m n) as [[n1 cs1] [a | e]]; [| exact Hm]. specialize (Hf a n1 (mv_ok _ _ _ Hm)).
  destruct (f a n1) as [[n2 cs2] r]. exact (moves_trans _ _ _ _ _ Hm Hf).
Qed.

Lemma good_ret {A} (a : A) : good (mret a).
Proof. intros n Hn. now apply moves_same. Qed.

Lemma good_get : good get_node.
Proof. intros n Hn. now apply moves_same. Qed.

Lemma good_throw {A} s : good (@throw A s).
Proof. intros n Hn. now apply moves_same. Qed.

Lemma good_modify f :
  (forall n, pendingInterestTable_ (f n) = pendingInterestTable_ n) -> good (modify f).
Proof. intros Hf n Hn. now apply moves_same. Qed.

Lemma good_calls cs : Forall (fun c => outcome_of c = None) cs -> good (calls cs).
Proof. intros Hc n Hn. now apply moves_same. Qed.

Lemma good_call c : outcome_of c = None -> good (call c).
Proof. intros Hc n Hn. apply moves_same; [easy | easy |]. now constructor. Qed.

Create HintDb good.
#[export] Hint Resolve good_bind good_ret good_get good_throw good_modify good_calls good_call : good.

Ltac run_op := unfold mbind, Op_bind, mret, Op_ret, get_node, modify, calls, call; cbv beta iota zeta.

(** Taking entries out of the table and calling each of them back. *)
Lemma good_take_out test (f : nat -> Call) {A} (k : list nat -> A) :
  (forall q, outcome_of (f q) = Some q) ->
  good (n ← get_node;
        let '(found, pit) := Pit.take_out test (pendingInterestTable_ n) in
        _ ← modify (set_pit pit); _ ← calls (map f found); mret (k found)).
Proof.
  intros Hf n Hn. pose proof (Pit.take_out_taken test _ Hn) as Ht.
  run_op. destruct (Pit.take_out test (pendingInterestTable_ n)) as [found pit].
  destruct Ht as [[Hfound Hk _ _ Hr _] Hok]. cbn [app].
  assert (Hnd : NoDup found).
  { rewrite Hfound. apply NoDup_ListNoDup, List.NoDup_rev, NoDup_ListNoDup, NoDup_filter, Hn. }
  assert (Hlive : forall p, p ∈ found -> removed n p = false).
  { intros p Hp. rewrite Hfound in Hp. apply Pit.in_rev_elem, Pit.in_filter in Hp as [_ Hp].
    now apply Hn in Hp. }
  rewrite app_nil_r. split; cbn [pendingInterestTable_ set_pit]; [exact Hok | | |]; intros p;
    rewrite (outcomes_map p f found Hf Hnd); rewrite ?Hr.
  - intros Hp. rewrite Hp, orb_true_r. split; [easy |]. case_decide as Hd; [| easy].
    rewrite (Hlive p Hd) in Hp. easy.
  - intros [Hp _]%orb_false_iff. apply bool_decide_eq_false in Hp. now rewrite decide_False.
  - case_decide; lia.
Qed.

(** A change of the table of pending interests that calls nothing. *)
Lemma good_pit {A} (f : Pit.Table -> Pit.Table) (K : Op A) :
  (forall t, Pit.ok t -> Pit.ok (f t) /\
     forall p, Pit.isRemoved t p = true -> Pit.isRemoved (f t) p = true) ->
  good K -> good (_ ← modify (fun n => set_pit (f (pendingInterestTable_ n)) n); K).
Proof.
  intros Hf HK. apply good_bind; [| easy]. intros n Hn. destruct (Hf _ Hn) as [Hok Hr].
  split; cbn [pendingInterestTable_ set_pit]; auto.
Qed.

Lemma good_add {A} e (K : option nat -> Op A) :
  (forall r, good (K r)) ->
  good (n ← get_node;
        let '(r, pit) := Pit.add e (pendingInterestTable_ n) in
        _ ← modify (set_pit pit); K r).
Proof.
  intros HK n Hn. pose proof (Pit.add_ok e _ Hn) as Ha. unfold mbind, Op_bind, get_node.
  destruct (Pit.add e (pendingInterestTable_ n)) as [r pit]. destruct Ha as [Hok Ha].
  set (n1 := set_pit pit n). specialize (HK r n1 Hok). unfold modify.
  destruct (K r n1) as [[n2 cs] res] eqn:E. fold n1. rewrite E. cbn [app].
  change cs with ([] ++ cs). apply (moves_trans n [] n1); [| exact HK].
  split; cbn [pendingInterestTable_ n1 set_pit]; auto. intros p Hp. split; [| easy].
  destruct r as [q |].
  - destruct Ha as (_ & _ & _ & _ & He). unfold Pit.isRemoved in *. rewrite He.
    destruct (Pit.entries (pendingInterestTable_ n) !! p) eqn:El; [| easy].
    now rewrite (lookup_app_l_Some _ _ _ _ El).
  - destruct Ha as [_ He]. unfold Pit.isRemoved in *. now rewrite He.
Qed.

Lemma removePendingInterest_pit id t :
  Pit.ok t -> Pit.ok (Pit.removePendingInterest id t) /\
  forall p, Pit.isRemoved t p = true -> Pit.isRemoved (Pit.removePendingInterest id t) p = true.
Proof.
  intros Ht. unfold Pit.removePendingInterest.
  pose proof (Pit.take_out_taken (fun e => Pit.pendingInterestId_ e =? id) t Ht) as H.
  destruct (Pit.take_out _ t) as [found t']. destruct H as [[_ _ _ _ Hr _] Hok].
  assert (Hmono : forall p, Pit.isRemoved t p = true -> Pit.isRemoved t' p = true)
    by (intros p Hp; now rewrite Hr, Hp, orb_true_r).
  destruct found; [| easy]. destruct (find_id id (Pit.removeRequests_ t')); [easy |].
  split; [| exact Hmono]. destruct Hok as [H1 H2]. now split.
Qed.

Lemma removePendingInterest_table id n :
  Pit.ok (pendingInterestTable_ n) ->
  (forall p, p ∈ Pit.table_ (Pit.removePendingInterest id (pendingInterestTable_ n)) ->
     p ∈ Pit.table_ (pendingInterestTable_ n)) /\
  forall p, Pit.entry_at (Pit.removePendingInterest id (pendingInterestTable_ n)) p
            = Pit.entry_at (pendingInterestTable_ n) p.
Proof.
  intros Hn. unfold Pit.removePendingInterest.
  pose proof (Pit.take_out_taken (fun e => Pit.pendingInterestId_ e =? id) _ Hn) as H.
  destruct (Pit.take_out _ _) as [found t']. destruct H as [[_ Hk He _ _ _] _].
  assert (Hp : forall p, p ∈ Pit.table_ t' -> p ∈ Pit.table_ (pendingInterestTable_ n))
    by (intros p Hp; rewrite Hk in Hp; now apply Pit.in_filter in Hp).
  destruct found; [| easy]. now destruct (find_id id (Pit.removeRequests_ t')).
Qed.

Lemma good_processInterestTimeout p : good (processInterestTimeout p).
Proof.
  intros n Hn. pose proof (Pit.removeEntry_ok p _ Hn) as Hr.
  unfold processInterestTimeout. run_op.
  destruct (Pit.removeEntry p (pendingInterestTable_ n)) as [b pit].
  destruct Hr as (Hok & Hb & Ht & Hrem & _).
  assert (Hsilent : moves n [] (set_pit pit n)).
  { split; cbn [pendingInterestTable_ set_pit]; auto. intros q Hq. now rewrite Hrem, Hq. }
  destruct b; [| exact Hsilent].
  destruct (Pit.entry_at pit p) as [e |]; [| exact Hsilent].
  destruct (Pit.hasOnTimeout e); [| exact Hsilent]. cbn [app].
  assert (Hlive : removed n p = false) by now apply Hn, Hb.
  assert (Ho : forall q, outcomes q [CallOnTimeout p] = if decide (q = p) then 1%nat else 0%nat).
  { intros q. unfold outcomes. rewrite filter_cons. cbn [outcome_of].
    destruct (decide (q = p)) as [-> |]; case_decide; congruence || easy. }
  split; cbn [pendingInterestTable_ set_pit]; [exact Hok | | |]; intros q; rewrite Ho; rewrite ?Hrem.
  - intros Hq. rewrite Hq. split; [easy |]. case_decide; [congruence | easy].
  - intros [_ Hq]%orb_false_iff. cbn [andb] in Hq. apply bool_decide_eq_false in Hq.
    now rewrite decide_False.
  - case_decide; lia.
Qed.

#[export] Hint Resolve good_processInterestTimeout : good.

Section Good.
Context (encodeInterest : InterestCopy -> list Z) (encodeData : DataValue -> list Z).
Context (fullName : DataValue -> Name) (topMatcher : list Z -> Name -> bool) (isAsync : bool).

Lemma good_dispatchInterest i : good (dispatchInterest topMatcher i).
Proof.
  apply good_bind; [apply good_get |]. intros n. apply good_calls.
  apply Forall_forall. intros c Hc. apply list_elem_of_In, List.in_map_iff in Hc as (e & <- & _). easy.
Qed.

Lemma good_satisfyPendingInterests data : good (satisfyPendingInterests fullName data).
Proof.
  apply (good_take_out (Pit.matches data (fullName data)) (fun p => CallOnData p data)
    (fun found => negb (bool_decide (found = [])))). easy.
Qed.

Lemma good_send bs : good (send bs).
Proof. unfold send. destruct (_ >? _); auto with good. Qed.

Hint Resolve good_dispatchInterest good_satisfyPendingInterests good_send : good.

Lemma good_putData data : good (putData encodeData fullName data).
Proof.
  apply good_bind; [auto with good |]. intros n. apply good_bind.
  - destruct (interestLoopbackEnabled_ n); auto with good.
  - intros []; [auto with good |]. cbv zeta.
    destruct (zlen (encodeData data) >? getMaxNdnPacketSize); auto with good.
Qed.

Lemma good_sendInterest r : good (sendInterest encodeInterest topMatcher r).
Proof.
  unfold sendInterest. destruct (negb _); [| auto with good]. cbv zeta.
  destruct (zlen _ >? _); [auto with good |].
  apply good_bind; [auto with good |]. intros _. apply good_bind; [auto with good |]. intros n.
  destruct (interestLoopbackEnabled_ n); auto with good.
Qed.

Lemma good_expressInterestHelper now r : good (expressInterestHelper encodeInterest topMatcher now r).
Proof.
  apply good_add. intros [p |]; [| auto with good].
  apply good_bind; [unfold callLater; destruct (has_timer _); auto with good |]. intros _.
  apply good_sendInterest.
Qed.

Hint Resolve good_expressInterestHelper : good.

Lemma good_for_each {B} (f : B -> Op unit) l : (forall x, good (f x)) -> good (for_each f l).
Proof. intros Hf. induction l; cbn [for_each]; auto with good. Qed.

Lemma good_expressInterest now nonce r :
  good (expressInterest encodeInterest topMatcher isAsync now nonce r).
Proof.
  unfold expressInterest. apply good_bind; [auto with good |]. intros n.
  destruct (connectStatus_ n); [| | auto with good]; destruct (negb isAsync); auto 8 with good.
Qed.

Lemma good_onConnected now : good (onConnected encodeInterest topMatcher now).
Proof.
  apply good_bind; [auto with good |]. intros n.
  apply good_bind; [apply good_for_each; auto with good |]. auto with good.
Qed.

Lemma good_onReceivedElement nack packet :
  good (onReceivedElement encodeInterest fullName topMatcher nack packet).
Proof.
  unfold onReceivedElement. destruct nack, packet; auto with good.
  apply (good_take_out (fun e => Pit.hasOnNetworkNack e && bool_decide (Pit.wire_ e = encodeInterest interest))
    CallOnNetworkNack (fun _ => tt)). easy.
Qed.

Lemma good_callTimedOut_turn now : good (callTimedOut_turn now).
Proof.
  apply good_bind; [auto with good |]. intros n.
  destruct (DelayedCalls.next_due now (delayedCallTable_ n)) as [[[p | id] table] |]; auto with good.
Qed.

Lemma good_registerResponse info code : good (registerResponse_onData info code).
Proof.
  unfold registerResponse_onData. destruct code as [code |]; [| auto with good].
  destruct (negb (code =? 200)); [auto with good |]. apply good_bind.
  - destruct (negb _); [| auto with good]. apply good_bind.
    + destruct (ri_onInterest info); [| auto with good].
      apply good_bind; [intros n Hn; now apply moves_same |]. intros id.
      apply good_bind; [unfold setInterestFilter; auto with good | auto with good].
    + intros id. apply good_bind; [auto with good |]. intros n.
      destruct (Prefixes.add _ _) as [added prefixes].
      apply good_bind; [auto with good |]. intros _. destruct (negb added); [| auto with good].
      apply good_bind; [| auto with good]. unfold unsetInterestFilter.
      destruct (id >? 0); auto with good.
  - intros []; [auto with good |]. destruct (ri_onRegisterSuccess info); auto with good.
Qed.
End Good.

(** ** Timers

    Every pending interest that can time out has its call in the delayed call table. *)

Definition scheduled (n : Node) (p : nat) : Prop :=
  exists d, d ∈ delayedCallTable_ n /\ DelayedCalls.callback_ d = InterestTimeout p.

Record timed (n : Node) : Prop := {
  tm_sorted : DelayedCalls.sorted (delayedCallTable_ n);
  tm_scheduled p e : p ∈ Pit.table_ (pendingInterestTable_ n) ->
    Pit.entry_at (pendingInterestTable_ n) p = Some e -> has_timer e = true -> scheduled n p
}.

Definition keeps {A} (op : Op A) : Prop :=
  forall n, Pit.ok (pendingInterestTable_ n) -> timed n -> timed (op n).1.1.

(** The table only loses entries and the delayed calls are the same. *)
Definition calm {A} (op : Op A) : Prop :=
  forall n, Pit.ok (pendingInterestTable_ n) -> let n' := (op n).1.1 in
    delayedCallTable_ n' = delayedCallTable_ n /\
    (forall p, p ∈ Pit.table_ (pendingInterestTable_ n') -> p ∈ Pit.table_ (pendingInterestTable_ n)) /\
    forall p, Pit.entry_at (pendingInterestTable_ n') p = Pit.entry_at (pendingInterestTable_ n) p.

Lemma calm_keeps {A} (op : Op A) : calm op -> keeps op.
Proof.
  intros Hc n Hn [Hs Ht]. destruct (Hc n Hn) as (Hd & Hp & He). split.
  - now rewrite Hd.
  - intros p e Hin Hat Htm. rewrite He in Hat. destruct (Ht p e (Hp p Hin) Hat Htm) as (d & Hdd & Hcb).
    exists d. now rewrite Hd.
Qed.

Lemma node_keeps_bind {A B} (m : Op A) (f : A -> Op B) :
  good m -> keeps m -> (forall a, keeps (f a)) -> keeps (m ≫= f).
Proof.
  intros Hg Hm Hf n Hn Ht. unfold mbind, Op_bind. specialize (Hg n Hn). specialize (Hm n Hn Ht).
  destruct (m n) as [[n1 cs1] [a | e]]; [| exact Hm]. specialize (Hf a n1 (mv_ok _ _ _ Hg) Hm).
  destruct (f a n1) as [[n2 cs2] r]. exact Hf.
Qed.

Lemma calm_same {A} (op : Op A) :
  (forall n, delayedCallTable_ (op n).1.1 = delayedCallTable_ n /\
     pendingInterestTable_ (op n).1.1 = pendingInterestTable_ n) -> calm op.
Proof. intros H n Hn. destruct (H n) as [Hd Hp]. cbv zeta. now rewrite Hp. Qed.

Lemma node_keeps_same {A} (op : Op A) :
  (forall n, delayedCallTable_ (op n).1.1 = delayedCallTable_ n /\
     pendingInterestTable_ (op n).1.1 = pendingInterestTable_ n) -> keeps op.
Proof. intros H. now apply calm_keeps, calm_same. Qed.

Lemma calm_take_out test (f : nat -> Call) {A} (k : list nat -> A) :
  calm (n ← get_node;
        let '(found, pit) := Pit.take_out test (pendingInterestTable_ n) in
        _ ← modify (set_pit pit); _ ← calls (map f found); mret (k found)).
Proof.
  intros n Hn. pose proof (Pit.take_out_taken test _ Hn) as Ht. run_op.
  destruct (Pit.take_out test (pendingInterestTable_ n)) as [found pit].
  destruct Ht as [[_ Hk He _ _ _] _]. cbn [fst set_pit delayedCallTable_ pendingInterestTable_].
  split; [easy |]. split; [| exact He]. intros p Hp. rewrite Hk in Hp. now apply Pit.in_filter in Hp.
Qed.

Lemma processInterestTimeout_eq p n :
  Pit.ok (pendingInterestTable_ n) ->
  let n' := (processInterestTimeout p n).1.1 in
  delayedCallTable_ n' = delayedCallTable_ n /\
  (forall q, q ∈ Pit.table_ (pendingInterestTable_ n') <->
     q ∈ Pit.table_ (pendingInterestTable_ n) /\ q <> p) /\
  forall q, Pit.entry_at (pendingInterestTable_ n') q = Pit.entry_at (pendingInterestTable_ n) q.
Proof.
  intros Hn. pose proof (Pit.removeEntry_ok p _ Hn) as Hr. unfold processInterestTimeout. run_op.
  destruct (Pit.removeEntry p (pendingInterestTable_ n)) as [b pit].
  destruct Hr as (_ & _ & Ht & _ & He & _). destruct b; [| easy].
  destruct (Pit.entry_at pit p) as [e |]; [| easy]. now destruct (Pit.hasOnTimeout e).
Qed.

Lemma keeps_callTimedOut_turn now : keeps (callTimedOut_turn now).
Proof.
  intros n Hn [Hs Ht]. unfold callTimedOut_turn. unfold mbind at 1, Op_bind at 1, get_node.
  destruct (DelayedCalls.next_due now (delayedCallTable_ n)) as [[callback table] |] eqn:E;
    [| now split].
  pose proof (DelayedCalls.next_due_sorted _ _ _ _ Hs E) as Hs'.
  assert (Hd : exists d, delayedCallTable_ n = d :: table /\ DelayedCalls.callback_ d = callback).
  { unfold DelayedCalls.next_due in E. destruct (delayedCallTable_ n) as [| d t]; [easy |].
    destruct (_ <=? now); [| easy]. injection E as <- <-. eauto. }
  destruct Hd as (d & Hd & Hcb). set (n1 := set_delayed table n).
  assert (Hother : forall p e, p ∈ Pit.table_ (pendingInterestTable_ n) ->
    Pit.entry_at (pendingInterestTable_ n) p = Some e -> has_timer e = true ->
    callback <> InterestTimeout p -> scheduled n1 p).
  { intros p e Hp He Htm Hne. destruct (Ht p e Hp He Htm) as (x & Hx & Hxc). rewrite Hd in Hx.
    apply elem_of_cons in Hx as [-> | Hx]; [congruence |]. now exists x. }
  destruct callback as [p | id].
  - destruct (processInterestTimeout_eq p n1 Hn) as (H1 & H2 & H3). cbv zeta in *. run_op.
    change (set_delayed table n) with n1.
    destruct (processInterestTimeout p n1) as [[n2 cs] [[] | e]]; cbn [fst] in *;
      (split; [now rewrite H1 |]); intros q e' Hq He' Htm; apply H2 in Hq as [Hq Hne];
      rewrite H3 in He'; (destruct (Hother q e' Hq He' Htm) as (x & Hx & Hxc); [congruence |]);
      exists x; now rewrite H1.
  - run_op. cbn [fst app]. split; [exact Hs' |]. intros p e Hp He Htm. now apply (Hother p e).
Qed.

Create HintDb keeps.
#[export] Hint Resolve node_keeps_bind keeps_callTimedOut_turn : keeps.
#[export] Hint Extern 2 (keeps (mret _)) => apply node_keeps_same; split; reflexivity : keeps.
#[export] Hint Extern 2 (keeps get_node) => apply node_keeps_same; split; reflexivity : keeps.
#[export] Hint Extern 2 (keeps (throw _)) => apply node_keeps_same; split; reflexivity : keeps.
#[export] Hint Extern 2 (keeps (call _)) => apply node_keeps_same; split; reflexivity : keeps.
#[export] Hint Extern 2 (keeps (calls _)) => apply node_keeps_same; split; reflexivity : keeps.
#[export] Hint Extern 2 (keeps (modify _)) => apply node_keeps_same; split; reflexivity : keeps.

(** The new entry and its timer. *)
Lemma timed_add e now n r pit :
  Pit.ok (pendingInterestTable_ n) -> timed n -> Pit.add e (pendingInterestTable_ n) = (r, pit) ->
  timed (match r with
         | Some p =>
             (if has_timer e then callLater now (timer_delay e) (InterestTimeout p) else mret tt)
               (set_pit pit n)
         | None => (set_pit pit n, [], Ok tt)
         end).1.1.
Proof.
  intros Hn [Hs Ht] Ha. pose proof (Pit.add_ok e _ Hn) as H. rewrite Ha in H. destruct H as [_ H].
  assert (Hold : forall p, p ∈ Pit.table_ (pendingInterestTable_ n) -> forall d,
    Pit.entries pit = Pit.entries (pendingInterestTable_ n) ++ d ->
    Pit.entry_at pit p = Pit.entry_at (pendingInterestTable_ n) p).
  { intros p Hp d Hd. apply Hn in Hp as [Hlt _]. unfold Pit.entry_at. rewrite Hd.
    now rewrite lookup_app_l. }
  destruct r as [p |].
  - destruct H as (_ & Htab & Hat & _ & Hent).
    assert (Hcases : forall q d, q ∈ Pit.table_ pit -> Pit.entry_at pit q = Some d -> has_timer d = true ->
      scheduled n q \/ (q = p /\ d = e)).
    { intros q d Hq Hd Htm. rewrite Htab in Hq.
      apply elem_of_app in Hq as [Hq | ->%list_elem_of_singleton]; [left | right; split; congruence].
      apply (Ht q d Hq); [| exact Htm]. now rewrite <- (Hold q Hq _ Hent). }
    destruct (has_timer e) eqn:Etm.
    + unfold callLater, modify. cbn [fst]. split.
      * apply DelayedCalls.callLater_sorted, Hs.
      * intros q d Hq Hd Htm. destruct (Hcases q d Hq Hd Htm) as [(x & Hx & Hxc) | [-> ->]].
        -- exists x. split; [apply DelayedCalls.callLater_in; now right | exact Hxc].
        -- eexists. split; [apply DelayedCalls.callLater_in; now left | easy].
    + cbn [fst mret Op_ret]. split; [exact Hs |]. intros q d Hq Hd Htm.
      destruct (Hcases q d Hq Hd Htm) as [Hsc | [-> ->]]; [exact Hsc | congruence].
  - destruct H as [Htab Hent]. cbn [fst]. split; [exact Hs |]. intros q d Hq Hd Htm.
    cbn [pendingInterestTable_ set_pit] in *. rewrite Htab in Hq. apply (Ht q d Hq); [| exact Htm].
    rewrite <- (Hold q Hq []); [easy | now rewrite app_nil_r].
Qed.

Section Keeps.
Context (encodeInterest : InterestCopy -> list Z) (encodeData : DataValue -> list Z).
Context (fullName : DataValue -> Name) (topMatcher : list Z -> Name -> bool) (isAsync : bool).

Lemma node_keeps_satisfyPendingInterests data : keeps (satisfyPendingInterests fullName data).
Proof.
  apply calm_keeps, (calm_take_out (Pit.matches data (fullName data)) (fun p => CallOnData p data)
    (fun found => negb (bool_decide (found = [])))).
Qed.

Lemma keeps_dispatchInterest i : keeps (dispatchInterest topMatcher i).
Proof. apply node_keeps_same. now split. Qed.

Hint Resolve node_keeps_satisfyPendingInterests keeps_dispatchInterest : keeps.
Hint Resolve good_dispatchInterest good_satisfyPendingInterests good_send
  good_expressInterestHelper : good.
Hint Extern 1 (good _) => solve [auto with good] : keeps.

Lemma keeps_sendInterest r : keeps (sendInterest encodeInterest topMatcher r).
Proof.
  unfold sendInterest. destruct (negb _); [| auto with keeps]. cbv zeta.
  destruct (zlen _ >? _); [auto with keeps |].
  apply node_keeps_bind; [auto with good | auto with keeps |]. intros _.
  apply node_keeps_bind; [auto with good | auto with keeps |]. intros n.
  destruct (interestLoopbackEnabled_ n); auto with keeps.
Qed.

Lemma keeps_expressInterestHelper now r :
  keeps (expressInterestHelper encodeInterest topMatcher now r).
Proof.
  intros n Hn Ht. pose proof (Pit.add_ok (pit_entry encodeInterest r) _ Hn) as Hok.
  destruct (Pit.add (pit_entry encodeInterest r) (pendingInterestTable_ n)) as [q pit] eqn:Ha.
  pose proof (timed_add _ now n q pit Hn Ht Ha) as Htimed. destruct Hok as [Hok _].
  unfold expressInterestHelper. unfold mbind at 1, Op_bind at 1, get_node. rewrite Ha.
  destruct q as [p |]; [| exact Htimed].
  unfold mbind at 1, Op_bind at 1, modify.
  unfold mbind at 1, Op_bind at 1.
  set (n1 := set_pit pit n) in *.
  set (timer := if has_timer _ then _ else _) in *.
  assert (Htok : let '(n2, _, res) := timer n1 in
    Pit.ok (pendingInterestTable_ n2) /\ timed n2 /\ res = Ok tt).
  { unfold timer in *. destruct (has_timer _); (split; [exact Hok | split; [exact Htimed | easy]]). }
  destruct (timer n1) as [[n2 cs2] res]. destruct Htok as (Hok2 & Ht2 & ->).
  pose proof (keeps_sendInterest (r_interest r) n2 Hok2 Ht2) as Hk.
  destruct (sendInterest encodeInterest topMatcher (r_interest r) n2) as [[n3 cs3] res3]. exact Hk.
Qed.
End Keeps.

(** ** The node as a transition system *)

Section Steps.
Context (encodeInterest : InterestCopy -> list Z) (encodeData : DataValue -> list Z).
Context (fullName : DataValue -> Name) (topMatcher : list Z -> Name -> bool) (isAsync : bool).

(** What the application calls, also from within its callbacks, and what the transport and the
    event loop call. *)
Inductive operation : Op unit -> Prop :=
| op_expressInterest now nonce interest onTimeout onNack :
    operation (_ ← face_expressInterest encodeInterest topMatcher isAsync now nonce interest
                     onTimeout onNack; mret tt)
| op_onConnected now : operation (onConnected encodeInterest topMatcher now)
| op_removePendingInterest id : operation (removePendingInterest id)
| op_setInterestFilter id f : operation (setInterestFilter id f)
| op_unsetInterestFilter id : operation (unsetInterestFilter id)
| op_removeRegisteredPrefix id : operation (removeRegisteredPrefix id)
| op_setInterestLoopbackEnabled b : operation (setInterestLoopbackEnabled b)
| op_callLater now delay id : operation (callLater now delay (ApplicationCallback id))
| op_putData data : operation (putData encodeData fullName data)
| op_putNack encoding : operation (putNack encoding)
| op_onReceivedElement nack packet :
    operation (onReceivedElement encodeInterest fullName topMatcher nack packet)
| op_callTimedOut now : operation (_ ← callTimedOut_turn now; mret tt)
| op_registerResponse info code : operation (registerResponse_onData info code).

(** The states that the node reaches, with all the calls made on the way. *)
Inductive reach : Node -> list Call -> Prop :=
| reach_new : reach Node_new []
| reach_step n tr op : reach n tr -> operation op ->
    reach (op n).1.1 (tr ++ (op n).1.2).

Lemma operation_good op : operation op -> good op.
Proof.
  intros []; auto using good_onConnected, good_putData, good_onReceivedElement,
    good_registerResponse with good; try (apply good_modify; now intros).
  - apply good_bind; [| auto with good]. apply good_bind; [intros n Hn; now apply moves_same |].
    intros id. apply good_bind; [apply good_expressInterest | auto with good].
  - intros n Hn.
    destruct (removePendingInterest_pit id _ Hn) as [Hok Hr].
    unfold removePendingInterest, modify. split; cbn [pendingInterestTable_ set_pit]; auto.
  - apply good_modify. intros n. now destruct (Prefixes.removeRegisteredPrefix _ _ _).
  - unfold putNack. destruct (_ >? _); auto using good_send with good.
  - apply good_bind; [apply good_callTimedOut_turn | auto with good].
Qed.

Lemma keeps_send bs : keeps (send bs).
Proof. unfold send. destruct (_ >? _); auto with keeps. Qed.

Lemma keeps_registerResponse info code : keeps (registerResponse_onData info code).
Proof.
  apply node_keeps_same. intros n. unfold registerResponse_onData.
  destruct code as [code |]; [| now split]. destruct (negb (code =? 200)); [now split |].
  unfold setInterestFilter, unsetInterestFilter, getNextEntryId. run_op.
  destruct (negb _), (ri_onInterest info); cbn [set_lastEntryId set_filters registeredPrefixTable_];
    try destruct (Prefixes.add _ _) as [[] prefixes]; cbn [negb];
    try destruct (_ >? 0); cbv beta iota zeta; try destruct (ri_onRegisterSuccess info); now split.
Qed.

Lemma node_keeps_for_each {B} (f : B -> Op unit) l :
  (forall x, good (f x)) -> (forall x, keeps (f x)) -> keeps (for_each f l).
Proof.
  intros Hg Hf. induction l; cbn [for_each]; [auto with keeps |].
  apply node_keeps_bind; auto.
Qed.

Lemma operation_keeps op : operation op -> keeps op.
Proof.
  intros Hop. destruct Hop; auto with keeps; try (apply node_keeps_same; now split).
  - apply node_keeps_bind; [| | auto with keeps].
    + apply good_bind; [intros n Hn; now apply moves_same |]. intros id.
      apply good_bind; [apply good_expressInterest | auto with good].
    + apply node_keeps_bind; [intros n Hn; now apply moves_same | apply node_keeps_same; now split |].
      intros id. apply node_keeps_bind; [apply good_expressInterest | | auto with keeps].
      unfold expressInterest. apply node_keeps_bind; [auto with good | auto with keeps |]. intros n.
      pose proof good_expressInterestHelper. pose proof keeps_expressInterestHelper.
      destruct (connectStatus_ n), (negb isAsync); auto 8 with good keeps;
        repeat (apply node_keeps_bind; [auto with good | auto with keeps |]; intros []); auto with keeps.
  - apply node_keeps_bind; [auto with good | auto with keeps |]. intros n.
    apply node_keeps_bind; [apply good_for_each, good_expressInterestHelper | |].
    + apply node_keeps_for_each; [apply good_expressInterestHelper | apply keeps_expressInterestHelper].
    + intros _. apply node_keeps_same. now split.
  - intros n Hn [Hs Ht]. unfold removePendingInterest, modify. cbn [fst].
    destruct (removePendingInterest_table id _ Hn) as [Hp He]. split; [exact Hs |].
    intros p e Hin Hat Htm. cbn [set_pit pendingInterestTable_] in *. rewrite He in Hat.
    exact (Ht p e (Hp p Hin) Hat Htm).
  - apply node_keeps_same. intros n. unfold removeRegisteredPrefix, modify. cbn [fst].
    now destruct (Prefixes.removeRegisteredPrefix _ _ _).
  - intros n Hn [Hs Ht]. split; [now apply DelayedCalls.callLater_sorted |].
    intros p e Hin Hat Htm. destruct (Ht p e Hin Hat Htm) as (x & Hx & Hxc).
    exists x. split; [apply DelayedCalls.callLater_in; now right | exact Hxc].
  - apply node_keeps_bind; [auto with good | auto with keeps |]. intros n. apply node_keeps_bind.
    + destruct (interestLoopbackEnabled_ n); auto using good_satisfyPendingInterests with good.
    + destruct (interestLoopbackEnabled_ n); auto using node_keeps_satisfyPendingInterests with keeps.
    + intros []; [auto with keeps |]. cbv zeta.
      destruct (zlen (encodeData data) >? getMaxNdnPacketSize); [auto with keeps |].
      apply keeps_send.
  - unfold putNack. destruct (_ >? _); [auto with keeps | apply keeps_send].
  - unfold onReceivedElement. destruct nack, packet; auto using keeps_dispatchInterest with keeps.
    + apply calm_keeps, (calm_take_out
        (fun e => Pit.hasOnNetworkNack e && bool_decide (Pit.wire_ e = encodeInterest interest))
        CallOnNetworkNack (fun _ => tt)).
    + apply node_keeps_bind; [apply good_satisfyPendingInterests |
        apply node_keeps_satisfyPendingInterests | auto with keeps].
  - apply node_keeps_bind; [apply good_callTimedOut_turn | auto with keeps | auto with keeps].
  - apply keeps_registerResponse.
Qed.

Lemma reach_invariant n tr :
  reach n tr -> Pit.ok (pendingInterestTable_ n) /\ timed n /\
  forall p, (outcomes p tr <= 1)%nat /\ (removed n p = false -> outcomes p tr = 0%nat).
Proof.
  induction 1 as [| n tr op _ (Hok & Ht & Ho) Hop].
  - split; [split; [constructor |] |].
    + intros p. unfold Pit.isRemoved. cbn. rewrite elem_of_nil. split; [easy | lia].
    + split; [split; [constructor |] |]; [intros p e Hp; now apply elem_of_nil in Hp |].
      intros p. split; [apply Nat.le_0_l | easy].
  - pose proof (operation_good op Hop n Hok) as Hg. pose proof (operation_keeps op Hop n Hok Ht) as Hk.
    destruct (op n) as [[n' cs] r]. cbn [fst snd] in *. destruct Hg as [Hok' Hr Hl H1].
    split; [exact Hok' |]. split; [exact Hk |]. intros p. rewrite outcomes_app.
    destruct (Ho p) as [Ho1 Ho2]. destruct (removed n p) eqn:E.
    + destruct (Hr p E) as [E' ->]. rewrite E'. split; [lia | easy].
    + rewrite (Ho2 eq_refl). split; [apply H1 | apply Hl].
Qed.
End Steps.

(** ** Properties *)

Section Properties.
Context (encodeInterest : InterestCopy -> list Z) (encodeData : DataValue -> list Z).
Context (fullName : DataValue -> Name) (topMatcher : list Z -> Name -> bool) (isAsync : bool).

(** C1: one outcome. In every run, an expressed interest is concluded at most once, by data, a timeout or
    a network Nack, and never while it is in the table of pending interests. *)
Theorem one_outcome (n : Node) (tr : list Call) (p : nat) :
  reach encodeInterest encodeData fullName topMatcher isAsync n tr ->
  (outcomes p tr <= 1)%nat /\
  (p ∈ Pit.table_ (pendingInterestTable_ n) -> outcomes p tr = 0%nat).
Proof.
  intros Hr. destruct (reach_invariant _ _ _ _ _ _ _ Hr) as (Hok & _ & Ho).
  destruct (Ho p) as [H1 H0]. split; [exact H1 |]. intros Hp. apply H0. now apply Hok in Hp.
Qed.

(** C2: timeouts are not lost. When the loop of [callTimedOut] stops, no interest with a timer that is due
    is pending: each one that is left has its timeout scheduled for later. *)
Theorem pending_has_timer (n : Node) (tr : list Call) (now : Z) (p : nat) (e : Pit.Entry) :
  reach encodeInterest encodeData fullName topMatcher isAsync n tr ->
  (callTimedOut_turn now n).2 = Ok false ->
  p ∈ Pit.table_ (pendingInterestTable_ n) -> Pit.entry_at (pendingInterestTable_ n) p = Some e ->
  has_timer e = true ->
  exists d, d ∈ delayedCallTable_ n /\ DelayedCalls.callback_ d = InterestTimeout p /\
    now < DelayedCalls.callTime_ d.
Proof.
  intros Hr Hstop Hp He Htm. destruct (reach_invariant _ _ _ _ _ _ _ Hr) as (Hok & [Hs Ht] & _).
  destruct (Ht p e Hp He Htm) as (d & Hd & Hc). exists d. split; [exact Hd |]. split; [exact Hc |].
  assert (Hnone : DelayedCalls.next_due now (delayedCallTable_ n) = None).
  { revert Hstop. unfold callTimedOut_turn. unfold mbind at 1, Op_bind at 1, get_node.
    destruct (DelayedCalls.next_due now (delayedCallTable_ n)) as [[c t] |]; [| easy].
    unfold mbind, Op_bind, modify. destruct c as [q | id]; [| easy].
    destruct (processInterestTimeout q _) as [[n1 cs1] [[] | e1]]; easy. }
  pose proof (DelayedCalls.next_due_none now _ Hs Hnone) as Hall.
  rewrite Forall_forall in Hall. now apply Hall.
Qed.

(** Expressing an interest. On a connected node, when the removal of its id was not asked for before, the helper
    puts the interest in the table, schedules its timeout after its lifetime (4 s when it has
    none), sends its encoding unless it has the timeout prefix, and throws when the encoding is
    over the maximum size, with the interest left pending. *)
Theorem expressInterest_registers (n : Node) (now : Z) (r : Request) :
  Pit.ok (pendingInterestTable_ n) -> interestLoopbackEnabled_ n = false ->
  r_pendingInterestId r ∉ Pit.removeRequests_ (pendingInterestTable_ n) ->
  let e := pit_entry encodeInterest r in
  let p := length (Pit.entries (pendingInterestTable_ n)) in
  let bytes := encodeInterest (r_interest r) in
  let '(n', cs, res) := expressInterestHelper encodeInterest topMatcher now r n in
  Pit.table_ (pendingInterestTable_ n') = Pit.table_ (pendingInterestTable_ n) ++ [p] /\
  Pit.entry_at (pendingInterestTable_ n') p = Some e /\
  delayedCallTable_ n' =
    (if has_timer e
     then DelayedCalls.callLater (DelayedCalls.mkEntry (now + timer_delay e) (InterestTimeout p))
            (delayedCallTable_ n)
     else delayedCallTable_ n) /\
  (if name_match timeoutPrefix_ (interest_name (ic_value (r_interest r))) then cs = [] /\ res = Ok tt
   else if zlen bytes >? 8800 then cs = [] /\ res <> Ok tt
   else cs = [TransportSend bytes] /\ res = Ok tt).
Proof.
  intros Hok Hloop Hreq e p bytes. pose proof (Pit.add_ok e _ Hok) as Ha.
  unfold expressInterestHelper, sendInterest, callLater, dispatchInterest, throw. run_op. fold e.
  destruct (Pit.add e (pendingInterestTable_ n)) as [q pit] eqn:E.
  assert (Hq : q = Some p).
  { unfold Pit.add in E. destruct (find_id _ _) eqn:F; [now apply find_id_spec in F |].
    now injection E as <- <-. }
  subst q. destruct Ha as (_ & _ & Htab & Hat & _). fold bytes.
  destruct (has_timer e), (name_match timeoutPrefix_ _); cbn [negb];
    try change (zlen bytes >? getMaxNdnPacketSize) with (zlen bytes >? 8800);
    try destruct (zlen bytes >? 8800); cbn [set_pit set_delayed interestLoopbackEnabled_];
    rewrite ?Hloop; cbn [app]; repeat split; auto; discriminate.
Qed.

(** Registering a prefix. A response with status 200 adds the prefix and, in the combined form, a filter with
    a new id, and reports success; but when the prefix was removed before, nothing is left in
    the tables, the removal request is used up, and no callback is called. *)
Theorem register_response (n : Node) (info : RegisterInfo) :
  ri_registeredPrefixId info <> 0 -> ri_onInterest info = true -> ri_onRegisterSuccess info = true ->
  0 <= lastEntryId_ n < 2 ^ 64 - 1 ->
  Forall (fun f => Filters.interestFilterId_ f <= lastEntryId_ n) (interestFilterTable_ n) ->
  let id := ri_registeredPrefixId info in
  let filterId := lastEntryId_ n + 1 in
  let requests := Prefixes.removeRequests_ (registeredPrefixTable_ n) in
  let '(n', cs, res) := registerResponse_onData info (Some 200) n in
  res = Ok tt /\
  if find_id id requests then
    interestFilterTable_ n' = interestFilterTable_ n /\
    Prefixes.table_ (registeredPrefixTable_ n') = Prefixes.table_ (registeredPrefixTable_ n) /\
    Prefixes.removeRequests_ (registeredPrefixTable_ n') = erase_first id requests /\ cs = []
  else
    interestFilterTable_ n' = interestFilterTable_ n ++
      [Filters.mkEntry filterId (Filters.mkFilter (ri_prefix info) None)] /\
    Prefixes.table_ (registeredPrefixTable_ n') =
      Prefixes.table_ (registeredPrefixTable_ n) ++ [Prefixes.mkEntry id (ri_prefix info) filterId] /\
    cs = [CallOnRegisterSuccess (ri_prefix info) id].
Proof.
  intros Hid Hin Hsucc Hlast Hall id filterId requests.
  unfold registerResponse_onData, setInterestFilter, unsetInterestFilter, getNextEntryId. run_op.
  change (negb (200 =? 200)) with false. rewrite (proj2 (Z.eqb_neq _ _)) by easy. cbn [negb].
  rewrite Hin, Hsucc, wrap64_small by lia. unfold Prefixes.add.
  cbn [set_lastEntryId set_filters registeredPrefixTable_ Prefixes.registeredPrefixId_].
  fold id requests. destruct (find_id id requests); cbn [negb].
  - fold filterId. rewrite (proj2 (Z.ltb_lt 0 filterId)) || rewrite Z.gtb_ltb, (proj2 (Z.ltb_lt 0 filterId)) by lia.
    cbn. repeat split. rewrite Filters.unset_spec. unfold Filters.setInterestFilter.
    rewrite filter_app, filter_cons_False by (cbn; rewrite Z.eqb_refl; easy).
    rewrite app_nil_r. apply filter_all. eapply Forall_impl; [exact Hall |].
    cbn. intros f Hf. apply Z.eqb_neq. lia.
  - cbn. repeat split.
Qed.
End Properties.

(** ** Witnesses *)

(** An environment where packets are encoded as their names. *)
Definition name_bytes (i : InterestCopy) : list Z := concat (map value_ (interest_name (ic_value i))).
Definition data_bytes (d : DataValue) : list Z := concat (map value_ (data_name d)).
Definition digest_name (d : DataValue) : Name :=
  data_name d ++ [mkComponent IMPLICIT_SHA256_DIGEST (-1) (replicate 32 0)].
Definition no_regex (_ : list Z) (_ : Name) : bool := false.

Definition interest_a : InterestCopy :=
  mkInterestCopy (interest_value (Interest_new [generic [97]] true true)) None.

(** One interest is expressed at time 0, on a transport that connects at once. *)
Definition express_a : Op unit :=
  _ ← face_expressInterest name_bytes no_regex false 0 [1; 2; 3; 4] interest_a true false; mret tt.

Definition node_a : Node := (express_a Node_new).1.1.
Definition trace_a : list Call := (express_a Node_new).1.2.

Lemma reach_a : reach name_bytes data_bytes digest_name no_regex false node_a trace_a.
Proof.
  exact (reach_step _ _ _ _ _ Node_new [] express_a (reach_new _ _ _ _ _)
    (op_expressInterest _ _ _ _ _ 0 [1; 2; 3; 4] interest_a true false)).
Qed.

(** The timeout is called at 4 seconds. *)
Definition timeout_a : Op unit := _ ← callTimedOut_turn (seconds 4); mret tt.

Lemma one_outcome_witness :
  (timeout_a node_a).1.2 = [CallOnTimeout 0] /\
  (outcomes 0 (trace_a ++ (timeout_a node_a).1.2) <= 1)%nat.
Proof.
  split; [vm_compute; reflexivity |].
  apply (one_outcome name_bytes data_bytes digest_name no_regex false (timeout_a node_a).1.1
    (trace_a ++ (timeout_a node_a).1.2) 0).
  apply reach_step; [exact reach_a | apply op_callTimedOut].
Defined.

Lemma pending_has_timer_witness :
  exists d, d ∈ delayedCallTable_ node_a /\ DelayedCalls.callback_ d = InterestTimeout 0 /\
    seconds 1 < DelayedCalls.callTime_ d.
Proof.
  apply (pending_has_timer name_bytes data_bytes digest_name no_regex false node_a trace_a (seconds 1) 0
    (pit_entry name_bytes (mkRequest 1 (with_nonce [1; 2; 3; 4] interest_a) true false)) reach_a).
  - vm_compute. reflexivity.
  - vm_compute. apply list_elem_of_here.
  - vm_compute. reflexivity.
  - vm_compute. reflexivity.
Defined.

Lemma expressInterest_registers_witness :
  Pit.table_ (pendingInterestTable_ (expressInterestHelper name_bytes no_regex 7
    (mkRequest 2 interest_a true false) node_a).1.1) = [0%nat; 1%nat].
Proof.
  refine (proj1 (expressInterest_registers name_bytes no_regex node_a 7
    (mkRequest 2 interest_a true false) _ _ _)).
  - exact (proj1 (reach_invariant _ _ _ _ _ _ _ reach_a)).
  - reflexivity.
  - vm_compute. apply not_elem_of_nil.
Defined.

Lemma register_response_witness :
  let info := mkRegisterInfo [generic [97]] 3 true true in
  (registerResponse_onData info (Some 200) node_a).1.2 = [CallOnRegisterSuccess [generic [97]] 3].
Proof.
  intros info. pose proof (register_response node_a info) as H. vm_compute in H |- *.
  apply H; try discriminate; try reflexivity; [split; [discriminate | reflexivity] | constructor].
Defined.
