(* ===== verification/Regex.v ===== *)
(** * Name regular expressions: matching

    The matchers of src/util/regex, as they are after they have been compiled: a tree of pattern lists,
    back references, repetitions and component sets. Matching tries the longest part first and goes back.
    A matcher that is a back reference keeps the components that it matched in the last call; these
    results are the state. What the other matchers keep is never read, except by the top matcher. The
    regular expressions of a component are those of the C++ library, a parameter.

    [lang] is the set of component sequences that a matcher stands for; [match_lang] relates the two. *)

From stdpp Require Import base list numbers option sets.
From Stdlib Require Import ZArith Lia.
From S2P Require Import Prelude Actions Encoder Name NameUri.
Open Scope Z_scope.

(** [regex_lib]: the constructor, which may throw, [mark_count], and [regex_match] with the text of each
    sub match, the whole match first. *)
Class RegexLib := {
  Regex : Type;
  regex_new : list Z -> option Regex;
  mark_count : Regex -> nat;
  regex_match : Regex -> list Z -> option (list (list Z))
}.

(** The match results of the back references, by their numbers in the manager. *)
Abbreviation Refs := (list (list Component)).

Abbreviation Match A := (Act Refs Empty_set A).

Definition set_ref (i : nat) (result : list Component) : Match unit := self_modify (fun refs => <[i := result]> refs).

Section Regex.
Context `{RegexLib}.

(** [NdnRegexComponentMatcher]; [firstRef_] is the number of the first of its pseudo matchers. *)
Record ComponentMatcher := mkComponentMatcher {
  expr_ : list Z;
  componentRegex_ : Regex;
  firstRef_ : nat
}.

Inductive Matcher :=
| PatternList (matchers_ : list Matcher)
| Backref (ref : nat) (matchers_ : list Matcher)
| RepeatMatcher (matcher : Matcher) (repeatMin_ repeatMax_ : Z)
| ComponentSet (components_ : list ComponentMatcher) (isInclusion_ : bool).

Definition escaped (c : Component) : list Z := str (component_toEscapedString c empty_stream).

(** The pseudo matchers [i .. i + n - 1] get the sub matches. *)
Fixpoint set_pseudo (first i n : nat) (subResult : list (list Z)) : Match unit :=
  match n with
  | O => mret tt
  | S n =>
      _ ← set_ref (first + i - 1) [generic (default [] (subResult !! i))];
      set_pseudo first (S i) n subResult
  end.

(** [NdnRegexComponentMatcher::match], with the flag for an exact match, which nothing clears. *)
Definition component_match (self : ComponentMatcher) (name : Name) (offset : nat) : Match bool :=
  c ← returns (name_get name (Z.of_nat offset));
  match expr_ self with
  | [] => mret true
  | _ =>
      match regex_match (componentRegex_ self) (escaped c) with
      | Some subResult =>
          _ ← set_pseudo (firstRef_ self) 1 (mark_count (componentRegex_ self)) subResult;
          mret true
      | None => mret false
      end
  end.

Fixpoint any_component (components_ : list ComponentMatcher) (name : Name) (offset : nat) : Match bool :=
  match components_ with
  | [] => mret false
  | m :: ms => b ← component_match m name offset; if (b : bool) then mret true else any_component ms name offset
  end.

Definition component_set_match (components_ : list ComponentMatcher) (isInclusion_ : bool) (name : Name)
    (offset len : nat) : Match bool :=
  if negb (len =? 1)%nat then mret false
  else
    isMatched ← any_component components_ name offset;
    mret (if isInclusion_ then isMatched else negb isMatched).

(** [while (tried >= 0)] with [tried] counted down. *)
Fixpoint try_down (tried : nat) (attempt : nat -> Match bool) : Match bool :=
  b ← attempt tried;
  if (b : bool) then mret true
  else match tried with O => mret false | S tried => try_down tried attempt end.

(** [NdnRegexMatcherBase::recursiveMatch] over the [match] methods of [matchers_]. *)
Fixpoint recursiveMatch (matchers_ : list (nat -> nat -> Match bool)) (offset len : nat) : Match bool :=
  match matchers_ with
  | [] => mret (len =? 0)%nat
  | matcher :: rest =>
      try_down len (fun tried =>
        b ← matcher offset tried;
        if (b : bool) then recursiveMatch rest (offset + tried) (len - tried) else mret false)
  end.

(** [NdnRegexRepeatMatcher::recursiveMatch]. *)
Fixpoint repeat_recursiveMatch (fuel : nat) (matcher : nat -> nat -> Match bool) (repeatMin_ repeatMax_ repeat : Z)
    (offset len : nat) : Match bool :=
  if (0 <? len)%nat && (repeatMax_ <=? repeat) then mret false
  else if (len =? 0)%nat && (repeat <? repeatMin_) then mret false
  else if (len =? 0)%nat then mret true
  else
    match fuel with
    | O => throw_exn (Failed OutOfFuel)
    | S fuel =>
        try_down len (fun tried =>
          b ← matcher offset tried;
          if (b : bool) then
            repeat_recursiveMatch fuel matcher repeatMin_ repeatMax_ (repeat + 1) (offset + tried) (len - tried)
          else mret false)
    end.

(** [for (i = offset; i < offset + len; ++i) matchResult_.push_back(name.get(i))] *)
Fixpoint get_components (name : Name) (offset len : nat) : result exn (list Component) :=
  match len with
  | O => mret []
  | S len =>
      c ← name_get name (Z.of_nat offset);
      cs ← get_components name (S offset) len;
      mret (c :: cs)
  end.

(** The [match] methods. The fuel of a repetition is the number of repetitions that it may have. *)
Fixpoint match_ (self : Matcher) (name : Name) (offset len : nat) : Match bool :=
  match self with
  | PatternList ms => recursiveMatch (map (fun m => match_ m name) ms) offset len
  | Backref i ms =>
      _ ← set_ref i [];
      b ← recursiveMatch (map (fun m => match_ m name) ms) offset len;
      if (b : bool) then
        matchResult ← returns (get_components name offset len);
        _ ← set_ref i matchResult;
        mret true
      else mret false
  | RepeatMatcher m repeatMin repeatMax =>
      if (repeatMin =? 0) && (len =? 0)%nat then mret true
      else repeat_recursiveMatch (Z.to_nat repeatMax) (match_ m name) repeatMin repeatMax 0 offset len
  | ComponentSet components isInclusion => component_set_match components isInclusion name offset len
  end.

(** ** The language of a matcher *)

(** Whether a component matcher accepts a component. *)
Definition accepts (self : ComponentMatcher) (c : Component) : bool :=
  match expr_ self with
  | [] => true
  | _ => if regex_match (componentRegex_ self) (escaped c) is Some _ then true else false
  end.

(** The concatenation of languages. *)
Fixpoint concat_lang (ls : list (list Component -> Prop)) (w : list Component) : Prop :=
  match ls with
  | [] => w = []
  | l :: ls => exists u v, w = u ++ v /\ l u /\ concat_lang ls v
  end.

(** What a matcher stands for. A repetition of a part that matches the empty sequence does not itself
    match the empty sequence, unless it may be left out. *)
Fixpoint lang (self : Matcher) (w : list Component) : Prop :=
  match self with
  | PatternList ms | Backref _ ms => concat_lang (map lang ms) w
  | RepeatMatcher m repeatMin repeatMax =>
      (w = [] /\ repeatMin = 0) \/
      (w <> [] /\ exists parts, Forall (lang m) parts /\ w = concat parts /\
         repeatMin <= Z.of_nat (length parts) <= repeatMax)
  | ComponentSet components isInclusion =>
      exists c, w = [c] /\ existsb (fun m => accepts m c) components = isInclusion
  end.

(** The numbers of the back references in a matcher. *)
Fixpoint groups (self : Matcher) : list nat :=
  match self with
  | PatternList ms => concat (map groups ms)
  | Backref i ms => i :: concat (map groups ms)
  | RepeatMatcher m _ _ => groups m
  | ComponentSet components _ => concat (map (fun m => seq (firstRef_ m) (mark_count (componentRegex_ m))) components)
  end.

Abbreviation Captures := (list (nat * list Component)).

Fixpoint concat_captures (ls : list (list Component -> Captures -> Prop)) (w : list Component) (sigma : Captures)
  : Prop :=
  match ls with
  | [] => w = [] /\ sigma = []
  | l :: ls => exists u v sigma1 sigma2,
      w = u ++ v /\ sigma = sigma1 ++ sigma2 /\ l u sigma1 /\ concat_captures ls v sigma2
  end.

(** What the parenthesised parts of a matcher capture when it stands for [w]: the captures of the last
    repetition, which is not empty, and none for a repetition that is left out. The sub matches of
    the components are not listed. *)
Fixpoint captures (self : Matcher) (w : list Component) (sigma : Captures) : Prop :=
  match self with
  | PatternList ms => concat_captures (map captures ms) w sigma
  | Backref i ms => exists sigma1, sigma = (i, w) :: sigma1 /\ concat_captures (map captures ms) w sigma1
  | RepeatMatcher m repeatMin repeatMax =>
      (w = [] /\ repeatMin = 0 /\ sigma = []) \/
      (exists parts part, Forall (lang m) (parts ++ [part]) /\ w = concat (parts ++ [part]) /\ part <> [] /\
         repeatMin <= Z.of_nat (length (parts ++ [part])) <= repeatMax /\ captures m part sigma)
  | ComponentSet _ _ => lang self w /\ sigma = []
  end.

(** The results that the back references hold are those of [sigma]. *)
Definition holds (sigma : Captures) (refs : Refs) : Prop := forall i w, (i, w) ∈ sigma -> refs !! i = Some w.

(** ** Runs of a matcher

    [run] returns whether [L] holds, changes only the results in [T], and leaves results with [C] when it
    returns true. *)
Definition runs (T : list nat) (L : Prop) (C : Refs -> Prop) (run : Match bool) : Prop :=
  forall s, Forall (fun i => i < length s)%nat T ->
  exists s' b, run s = (s', [], Ok b) /\ length s' = length s /\ (forall i, i ∉ T -> s' !! i = s !! i) /\
    if (b : bool) then L /\ C s' else ~ L.

Definition only (T : list nat) (C : Refs -> Prop) : Prop :=
  forall s s', length s' = length s -> (forall i, i ∉ T -> s' !! i = s !! i) -> C s -> C s'.

Lemma runs_ret (b : bool) T L (C : Refs -> Prop) :
  (if b then L /\ forall s, C s else ~ L) -> runs T L C (mret b).
Proof. intros HL s Hs. exists s, b. destruct b; naive_solver. Qed.

Lemma runs_weaken T T' L L' (C C' : Refs -> Prop) run :
  runs T L C run -> T ⊆ T' -> (L <-> L') -> (forall s, L -> C s -> C' s) -> runs T' L' C' run.
Proof.
  intros Hr HT HL HC s Hs. destruct (Hr s) as (s' & b & He & Hlen & Hf & Hb).
  - rewrite Forall_forall in *. intros i Hi. now apply Hs, HT.
  - exists s', b. split_and!; auto. destruct b; naive_solver.
Qed.

(** One matcher and then, when it matches, what follows. *)
Lemma runs_then T1 T2 L1 L2 (C1 C2 : Refs -> Prop) run1 run2 :
  runs T1 L1 C1 run1 -> (L1 -> runs T2 L2 C2 run2) -> only T2 C1 ->
  runs (T1 ++ T2) (L1 /\ L2) (fun s => C1 s /\ C2 s) (b ← run1; if (b : bool) then run2 else mret false).
Proof.
  intros H1 H2 Hon s Hs. apply Forall_app in Hs as [Hs1 Hs2].
  destruct (H1 s Hs1) as (s1 & b1 & He1 & Hlen1 & Hf1 & Hb1). rewrite (act_bind_ok _ _ _ _ _ _ He1).
  destruct b1.
  - destruct Hb1 as [HL1 HC1]. destruct (H2 HL1 s1) as (s2 & b2 & He2 & Hlen2 & Hf2 & Hb2).
    { now rewrite Hlen1. }
    rewrite He2. exists s2, b2. split_and!; [easy | lia | |].
    + intros i Hi. rewrite not_elem_of_app in Hi. rewrite Hf2, Hf1 by easy. easy.
    + destruct b2; [| naive_solver]. destruct Hb2. split; [easy |]. split; [| easy].
      now apply (Hon s1).
  - exists s1, false. split_and!; [easy | easy | | naive_solver].
    intros i Hi. rewrite not_elem_of_app in Hi. now apply Hf1.
Qed.

Lemma runs_try_down T (L : nat -> Prop) (C : nat -> Refs -> Prop) attempt n :
  (forall t, (t <= n)%nat -> runs T (L t) (C t) (attempt t)) ->
  runs T (exists t, (t <= n)%nat /\ L t) (fun s => exists t, (t <= n)%nat /\ L t /\ C t s) (try_down n attempt).
Proof.
  induction n as [| n IH]; intros Ha s Hs; cbn [try_down];
    destruct (Ha _ (le_n _) s Hs) as (s1 & b1 & He1 & Hlen1 & Hf1 & Hb1);
    rewrite (act_bind_ok _ _ _ _ _ _ He1); destruct b1.
  - exists s1, true. naive_solver.
  - exists s1, false. split_and!; [easy | easy | easy |]. intros (t & Ht & HL).
    replace t with 0%nat in HL by lia. auto.
  - exists s1, true. naive_solver.
  - destruct (IH (fun t Ht => Ha t ltac:(lia)) s1) as (s2 & b2 & He2 & Hlen2 & Hf2 & Hb2).
    { now rewrite Hlen1. }
    rewrite He2. exists s2, b2. split_and!; [easy | lia | |].
    + intros i Hi. rewrite Hf2, Hf1 by easy. easy.
    + destruct b2.
      * destruct Hb2 as [(t & Ht & HL) (t' & Ht' & HL' & HC')].
        split; [exists t; split; [lia | easy] | exists t'; split_and!; [lia | easy | easy]].
      * intros (t & Ht & HL). destruct (decide (t = S n)) as [-> |]; [auto |].
        apply Hb2. exists t. split; [lia | easy].
Qed.

(** *** Parts of a name *)

Definition slice (name : Name) (offset len : nat) : list Component := take len (drop offset name).

Lemma slice_app name offset len u v :
  (offset + len <= length name)%nat ->
  slice name offset len = u ++ v <->
  (length u <= len)%nat /\ slice name offset (length u) = u /\ slice name (offset + length u) (len - length u) = v.
Proof.
  intros Hlen. unfold slice. split.
  - intros Hw. assert (Hu : (length u <= len)%nat).
    { apply (f_equal length) in Hw. rewrite length_take, length_drop, length_app in Hw. lia. }
    split; [easy |]. split.
    + apply (f_equal (take (length u))) in Hw. rewrite take_take, take_app_length in Hw.
      now replace (length u `min` len)%nat with (length u) in Hw by lia.
    + apply (f_equal (drop (length u))) in Hw. now rewrite skipn_firstn_comm, drop_drop, drop_app_length in Hw.
  - intros (Hu & H1 & H2). rewrite <- H2. rewrite <- H1 at 1.
    rewrite <- drop_drop, <- skipn_firstn_comm.
    replace (length u) with (length u `min` len)%nat at 1 by lia. rewrite <- take_take. symmetry. apply take_drop.
Qed.

Lemma length_slice name offset len : (offset + len <= length name)%nat -> length (slice name offset len) = len.
Proof. intros. unfold slice. rewrite length_take, length_drop. lia. Qed.

Lemma slice_split name offset len t :
  (offset + len <= length name)%nat -> (t <= len)%nat ->
  slice name offset len = slice name offset t ++ slice name (offset + t) (len - t).
Proof. intros Hlen Ht. apply slice_app; [easy |]. rewrite length_slice by lia. easy. Qed.

Lemma name_get_at name i c : name !! i = Some c -> name_get name (Z.of_nat i) = Ok c.
Proof.
  intros Hc. pose proof (lookup_lt_Some _ _ _ Hc). unfold name_get.
  rewrite (proj2 (Z.geb_le _ _)) by lia. destruct (Z.geb_spec (Z.of_nat i) (zlen name)); [lia |].
  now rewrite Nat2Z.id, Hc.
Qed.

Lemma slice_S name offset len c :
  name !! offset = Some c -> slice name offset (S len) = c :: slice name (S offset) len.
Proof. intros Hc. unfold slice. now rewrite (drop_S _ _ _ Hc). Qed.

Lemma get_components_slice name offset len :
  (offset + len <= length name)%nat -> get_components name offset len = Ok (slice name offset len).
Proof.
  revert offset. induction len as [| len IH]; intros offset Hlen; [easy |]. cbn [get_components].
  destruct (lookup_lt_is_Some_2 name offset ltac:(lia)) as [c Hc].
  rewrite (name_get_at _ _ _ Hc), (slice_S _ _ _ _ Hc). cbn. rewrite IH by lia. easy.
Qed.

(** *** The components *)

Lemma set_pseudo_run first n i sub s :
  (1 <= i)%nat ->
  exists s', set_pseudo first i n sub s = (s', [], Ok tt) /\ length s' = length s /\
    forall j, j ∉ seq (first + i - 1) n -> s' !! j = s !! j.
Proof.
  revert i s. induction n as [| n IH]; intros i s Hi; [now exists s |]. cbn [set_pseudo seq].
  unfold set_ref. rewrite act_modify_bind.
  destruct (IH (S i) (<[(first + i - 1)%nat := [generic (default [] (sub !! i))]]> s) ltac:(lia))
    as (s' & He & Hl & Hf).
  exists s'. rewrite length_insert in Hl. split_and!; [easy | easy |]. intros j Hj.
  rewrite not_elem_of_cons in Hj. destruct Hj as [Hj1 Hj2].
  rewrite Hf; [now apply list_lookup_insert_ne |].
  now replace (first + S i - 1)%nat with (S (first + i - 1)) by lia.
Qed.

Lemma component_match_runs self name offset c :
  name !! offset = Some c ->
  runs (seq (firstRef_ self) (mark_count (componentRegex_ self))) (accepts self c = true) (fun _ => True)
    (component_match self name offset).
Proof.
  intros Hc s _. unfold component_match, accepts. rewrite (name_get_at _ _ _ Hc), act_returns_bind.
  destruct (expr_ self); [exists s, true; naive_solver |].
  destruct (regex_match _ _) as [sub |]; [| exists s, false; naive_solver].
  destruct (set_pseudo_run (firstRef_ self) (mark_count (componentRegex_ self)) 1 sub s (le_n _))
    as (s' & He & Hl & Hf).
  rewrite (act_bind_ok _ _ _ _ _ _ He). exists s', true. split_and!; [easy | easy | | easy | easy].
  now replace (firstRef_ self + 1 - 1)%nat with (firstRef_ self) in Hf by lia.
Qed.

Lemma any_component_runs ms name offset c :
  name !! offset = Some c ->
  runs (concat (map (fun m => seq (firstRef_ m) (mark_count (componentRegex_ m))) ms))
    (existsb (fun m => accepts m c) ms = true) (fun _ => True) (any_component ms name offset).
Proof.
  intros Hc. induction ms as [| m ms IH]; [now apply runs_ret |]. cbn [any_component map concat existsb].
  intros s Hs. apply Forall_app in Hs as [Hs1 Hs2].
  destruct (component_match_runs m name offset c Hc s Hs1) as (s1 & b1 & He1 & Hl1 & Hf1 & Hb1).
  rewrite (act_bind_ok _ _ _ _ _ _ He1). destruct b1.
  - exists s1, true. split_and!; [easy | easy | | now rewrite (proj1 Hb1) | easy].
    intros i Hi. apply Hf1. now rewrite not_elem_of_app in Hi.
  - destruct (IH s1) as (s2 & b2 & He2 & Hl2 & Hf2 & Hb2); [now rewrite Hl1 |].
    rewrite He2. exists s2, b2. split_and!; [easy | lia | |].
    + intros i Hi. rewrite not_elem_of_app in Hi. rewrite Hf2, Hf1 by easy. easy.
    + apply not_true_is_false in Hb1. now rewrite Hb1.
Qed.

(** *** Sequences and repetitions *)

(** A matcher with the groups [T] decides [l] on each part of a name, and its back references then hold
    captures in [c]. *)
Record matches_as (name : Name) (run : nat -> nat -> Match bool) (T : list nat) (l : list Component -> Prop)
    (c : list Component -> Captures -> Prop) : Prop := {
  as_runs : forall offset len, (offset + len <= length name)%nat ->
    runs T (l (slice name offset len)) (fun s => exists sigma, c (slice name offset len) sigma /\ holds sigma s)
      (run offset len);
  as_groups : forall w sigma, c w sigma -> sigma.*1 ⊆ T
}.

Lemma holds_only T T' (c : Captures -> Prop) :
  T ## T' -> (forall sigma, c sigma -> sigma.*1 ⊆ T) -> only T' (fun s => exists sigma, c sigma /\ holds sigma s).
Proof.
  intros Hd Hc s s' _ Hf (sigma & Hs & Hh). exists sigma. split; [easy |]. intros i w Hi.
  rewrite Hf; [now apply Hh |]. intros Hi'. apply (Hd i); [| easy].
  apply (Hc _ Hs), list_elem_of_fmap. now exists (i, w).
Qed.

Lemma holds_app sigma1 sigma2 s : holds sigma1 s -> holds sigma2 s -> holds (sigma1 ++ sigma2) s.
Proof. intros H1 H2 i w Hi. apply elem_of_app in Hi as [Hi | Hi]; auto. Qed.

Lemma concat_captures_groups name (runs_ : list (nat -> nat -> Match bool)) Ts ls cs w sigma :
  Forall2 (fun run x => matches_as name run x.1 x.2.1 x.2.2) runs_ (zip Ts (zip ls cs)) ->
  length Ts = length runs_ -> length ls = length runs_ -> length cs = length runs_ ->
  concat_captures cs w sigma -> sigma.*1 ⊆ concat Ts.
Proof.
  revert Ts ls cs w sigma. induction runs_ as [| run runs_ IH]; intros [| T Ts] [| l ls] [| c cs] w sigma Hall HT Hl Hc;
    try discriminate; cbn; [now intros [-> ->] |].
  intros (u & v & sigma1 & sigma2 & -> & -> & H1 & H2). apply Forall2_cons_1 in Hall as [Ha Hall].
  cbn in Ha. rewrite fmap_app. pose proof (as_groups _ _ _ _ _ Ha _ _ H1).
  assert (sigma2.*1 ⊆ concat Ts) by (eapply IH; eauto). set_solver.
Qed.

Lemma recursiveMatch_as name runs_ Ts ls cs :
  Forall2 (fun run x => matches_as name run x.1 x.2.1 x.2.2) runs_ (zip Ts (zip ls cs)) ->
  length Ts = length runs_ -> length ls = length runs_ -> length cs = length runs_ -> NoDup (concat Ts) ->
  matches_as name (recursiveMatch runs_) (concat Ts) (concat_lang ls) (concat_captures cs).
Proof.
  intros Hall HT Hl Hc Hnd. split; [| intros; eapply concat_captures_groups; eassumption].
  revert Ts ls cs Hall HT Hl Hc Hnd.
  induction runs_ as [| run runs_ IH]; intros [| T Ts] [| l ls] [| c cs] Hall HT Hl Hc Hnd offset len Hlen;
    try discriminate; cbn [concat recursiveMatch concat_lang concat_captures].
  - apply runs_ret. destruct (Nat.eqb_spec len 0) as [-> | Hne].
    + split; [easy |]. intros s. exists []. split; [easy |]. intros i w Hi. now apply elem_of_nil in Hi.
    + intros Hw. apply (f_equal length) in Hw. rewrite length_slice in Hw by easy. cbn in Hw. lia.
  - apply Forall2_cons_1 in Hall as [Ha Hall]. cbn in Ha, HT, Hl, Hc. apply NoDup_app in Hnd as (Hn1 & Hdis & Hn2).
    pose proof (fun o n Ho => IH Ts ls cs Hall ltac:(lia) ltac:(lia) ltac:(lia) Hn2 o n Ho) as Hrest.
    eapply runs_weaken; [apply runs_try_down | easy | |].
    + intros t Ht. apply runs_then; [apply (as_runs _ _ _ _ _ Ha); lia | intros _; apply Hrest; lia |].
      apply holds_only with T; [exact Hdis | apply (as_groups _ _ _ _ _ Ha)].
    + cbn beta. split.
      * intros (t & Ht & H1 & H2). exists (slice name offset t), (slice name (offset + t) (len - t)).
        split_and!; [| easy | easy]. now apply slice_split.
      * intros (u & v & Hw & H1 & H2). apply slice_app in Hw as (Hu & Hw1 & Hw2); [| easy].
        exists (length u). split; [easy |]. now rewrite Hw1, Hw2.
    + intros s _ (t & Ht & _ & (sigma1 & H1 & Hh1) & (sigma2 & H2 & Hh2)). exists (sigma1 ++ sigma2).
      split; [| now apply holds_app]. exists (slice name offset t), (slice name (offset + t) (len - t)), sigma1, sigma2.
      split_and!; try easy. now apply slice_split.
Qed.

Lemma concat_nonempty {A} (parts : list (list A)) : concat (filter (fun p => p <> []) parts) = concat parts.
Proof.
  induction parts as [| p parts IH]; [easy |]. rewrite filter_cons.
  case_decide as Hp; cbn [concat]; [now rewrite IH |]. now subst p.
Qed.

Lemma concat_empty {A} (parts : list (list A)) : concat (filter (fun p => p = []) parts) = [].
Proof.
  induction parts as [| p parts IH]; [easy |]. rewrite filter_cons. case_decide as Hp; [now subst |]. easy.
Qed.

Section Repeat.
Context (name : Name) (run : nat -> nat -> Match bool) (T : list nat) (l : list Component -> Prop)
  (c : list Component -> Captures -> Prop) (Has : matches_as name run T l c) (mn mx : Z).

(** [w] is made of parts, the last of which is [part] and not empty, which bring the repetitions into the range. *)
Definition repeats (rep : Z) (w : list Component) (parts : list (list Component)) (part : list Component) : Prop :=
  Forall l (parts ++ [part]) /\ w = concat (parts ++ [part]) /\ part <> [] /\
  mn <= rep + Z.of_nat (length (parts ++ [part])) <= mx.

Definition tail_lang (rep : Z) (w : list Component) : Prop :=
  (w = [] /\ mn <= rep) \/ exists parts part, repeats rep w parts part.

Definition tail_captures (rep : Z) (w : list Component) (s : Refs) : Prop :=
  w = [] \/ exists parts part, repeats rep w parts part /\ exists sigma, c part sigma /\ holds sigma s.

Lemma repeats_nonempty rep w parts part : repeats rep w parts part -> w <> [].
Proof.
  intros (_ & -> & Hp & _) He. rewrite concat_app in He. apply app_eq_nil in He as [_ He]. cbn in He.
  now rewrite app_nil_r in He.
Qed.

Lemma tail_lang_nil rep : tail_lang rep [] <-> mn <= rep.
Proof.
  split; [| now left]. intros [[_ Hr] | (parts & part & Hr)]; [easy |]. now apply repeats_nonempty in Hr.
Qed.

Lemma repeats_one rep w : l w -> w <> [] -> mn <= rep + 1 <= mx -> repeats rep w [] w.
Proof. intros. split_and!; cbn; auto using Forall_nil, Forall_cons; [now rewrite app_nil_r | lia | lia]. Qed.

Lemma repeats_more rep u v parts part :
  l u -> repeats (rep + 1) v parts part -> repeats rep (u ++ v) (u :: parts) part.
Proof.
  intros Hu (Hall & -> & Hp & Hn). unfold repeats. cbn [app concat length]. rewrite Forall_cons.
  split_and!; [easy | easy | easy | easy | lia | lia].
Qed.

(** A part and what follows it. *)
Lemma tail_lang_step rep w :
  w <> [] -> rep < mx ->
  tail_lang rep w <-> exists u v, w = u ++ v /\ l u /\ tail_lang (rep + 1) v.
Proof.
  intros Hw Hrep. split.
  - intros [[-> _] | ([| u parts] & part & Hall & -> & Hp & Hn)]; [easy | |].
    + exists part, []. cbn in *. rewrite Forall_singleton in Hall. rewrite tail_lang_nil.
      rewrite app_nil_r. split_and!; [easy | easy | lia].
    + exists u, (concat (parts ++ [part])). cbn in *. apply Forall_cons in Hall as [Hu Hall].
      split_and!; [easy | easy |]. right. exists parts, part. split_and!; cbn; auto; lia.
  - intros (u & v & -> & Hu & [[-> Hm] | (parts & part & Hr)]).
    + rewrite app_nil_r in *. right. exists [], u. apply repeats_one; auto. lia.
    + right. exists (u :: parts), part. now apply repeats_more.
Qed.

(** One attempt: a part, then the rest. *)
Lemma repeat_attempt_runs rep offset len t (next : Match bool) :
  (offset + len <= length name)%nat -> (t <= len)%nat -> (0 < len)%nat -> rep < mx ->
  runs (if (len - t =? 0)%nat then [] else T) (tail_lang (rep + 1) (slice name (offset + t) (len - t)))
    (tail_captures (rep + 1) (slice name (offset + t) (len - t))) next ->
  runs T (l (slice name offset t) /\ tail_lang (rep + 1) (slice name (offset + t) (len - t)))
    (tail_captures rep (slice name offset len))
    (b ← run offset t; if (b : bool) then next else mret false).
Proof using Has.
  intros Hlen Ht Hpos Hrep Hnext. pose proof (as_runs _ _ _ _ _ Has offset t ltac:(lia)) as Hrun.
  assert (Hw : slice name offset len = slice name offset t ++ slice name (offset + t) (len - t)) by now apply slice_split.
  destruct (Nat.eqb_spec (len - t) 0) as [H0 | Hne].
  - eapply runs_weaken; [eapply runs_then; [exact Hrun | intros _; exact Hnext |] | | easy |].
    + intros s s' _ Hf (sigma & H1 & H2). exists sigma. split; [easy |]. intros i x Hi. rewrite Hf by apply not_elem_of_nil.
      now apply H2.
    + now rewrite app_nil_r.
    + intros s [Hl Hm] [Hc _]. right. exists [], (slice name offset len). replace t with len in * by lia.
      split; [| easy]. rewrite Nat.sub_diag in Hm. apply tail_lang_nil in Hm.
      apply repeats_one; [easy | | lia]. intros He. apply (f_equal length) in He. rewrite length_slice in He by easy.
      cbn in He. lia.
  - eapply runs_weaken with (C := fun s => True /\ tail_captures (rep + 1) (slice name (offset + t) (len - t)) s).
    + eapply runs_then; [| intros _; exact Hnext | easy]. eapply runs_weaken; [exact Hrun | easy | easy | easy].
    + set_solver.
    + easy.
    + intros s [Hl _] [_ [He | (parts & part & Hr & Hc)]].
      * apply (f_equal length) in He. rewrite length_slice in He by lia. cbn in He. lia.
      * right. exists (slice name offset t :: parts), part. rewrite Hw. split; [now apply repeats_more | easy].
Qed.

Lemma repeat_recursiveMatch_runs fuel rep offset len :
  (offset + len <= length name)%nat -> mx - rep <= Z.of_nat fuel ->
  runs (if (len =? 0)%nat then [] else T) (tail_lang rep (slice name offset len))
    (tail_captures rep (slice name offset len)) (repeat_recursiveMatch fuel run mn mx rep offset len).
Proof using Has.
  revert rep offset len. induction fuel as [| fuel IH]; intros rep offset len Hlen Hfuel;
    (destruct (Nat.eqb_spec len 0) as [-> | Hne];
     [replace (slice name offset 0) with (@nil Component) by easy |]); cbn [repeat_recursiveMatch].
  all: change (0 <? 0)%nat with false; cbn [andb Nat.eqb].
  1, 3: destruct (Z.ltb_spec rep mn); apply runs_ret; rewrite tail_lang_nil; [lia |]; split; [lia | now left].
  all: rewrite (proj2 (Nat.ltb_lt 0 len)), (proj2 (Nat.eqb_neq len 0)) by lia; cbn [andb].
  all: assert (Hw : slice name offset len <> []) by
    (intros He; apply (f_equal length) in He; rewrite length_slice in He by easy; cbn in He; lia).
  all: destruct (Z.leb_spec mx rep) as [Hm | Hm];
    [apply runs_ret; intros [[He _] | (parts & part & _ & _ & _ & Hn)];
     [easy | rewrite length_app in Hn; cbn in Hn; lia] |].
  - lia.
  - eapply runs_weaken; [apply runs_try_down | easy | |].
    + intros t Ht. apply (repeat_attempt_runs rep offset len); [lia | lia | lia | lia |]. apply IH; lia.
    + cbn beta. rewrite tail_lang_step by easy. split.
      * intros (t & Ht & H1 & H2). exists (slice name offset t), (slice name (offset + t) (len - t)).
        split_and!; [now apply slice_split | easy | easy].
      * intros (u & v & Hu & H1 & H2). apply slice_app in Hu as (Hu & Hu1 & Hu2); [| easy].
        exists (length u). now rewrite Hu1, Hu2.
    + now intros s _ (t & _ & _ & Hc).
Qed.

(** The order of the empty parts does not matter. *)
Lemma tail_lang_parts w :
  w <> [] ->
  tail_lang 0 w <-> exists parts, Forall l parts /\ w = concat parts /\ mn <= Z.of_nat (length parts) <= mx.
Proof.
  intros Hw. split; [intros [[He _] | (parts & part & Hall & He & _ & Hn)]; [easy |]; now exists (parts ++ [part]) |].
  intros (parts & Hall & -> & Hn). right.
  destruct (exists_last (l := filter (fun p => p <> []) parts)) as (init & part & Ho).
  { intros He. apply Hw. now rewrite <- concat_nonempty, He. }
  exists (filter (fun p => p = []) parts ++ init), part. unfold repeats. rewrite <- app_assoc, <- Ho.
  split_and!.
  - rewrite Forall_forall in Hall. apply Forall_app. rewrite !Forall_forall.
    split; intros p Hp; apply list_elem_of_filter in Hp as [_ Hp]; auto.
  - now rewrite concat_app, concat_empty, concat_nonempty.
  - assert (Hp : part ∈ filter (fun p => p <> []) parts) by (rewrite Ho; apply elem_of_app; right; left).
    now apply list_elem_of_filter in Hp.
  - assert (Hlen : length (filter (fun p => p = []) parts ++ filter (fun p => p <> []) parts) = length parts)
      by (rewrite (filter_app_complement (fun p => p = [])); easy).
    lia.
  - assert (Hlen : length (filter (fun p => p = []) parts ++ filter (fun p => p <> []) parts) = length parts)
      by (rewrite (filter_app_complement (fun p => p = [])); easy).
    lia.
Qed.
End Repeat.

(** *** All matchers *)

Lemma matcher_induction (P : Matcher -> Prop) :
  (forall ms, Forall P ms -> P (PatternList ms)) ->
  (forall i ms, Forall P ms -> P (Backref i ms)) ->
  (forall m repeatMin repeatMax, P m -> P (RepeatMatcher m repeatMin repeatMax)) ->
  (forall components isInclusion, P (ComponentSet components isInclusion)) ->
  forall m, P m.
Proof.
  intros Hl Hb Hr Hc. fix IH 1. intros [ms | i ms | m mn mx | cs incl].
  - apply Hl. induction ms; constructor; auto.
  - apply Hb. induction ms; constructor; auto.
  - apply Hr, IH.
  - apply Hc.
Qed.

Abbreviation Good name m := (matches_as name (match_ m name) (groups m) (lang m) (captures m)).

Lemma matchers_as name ms :
  Forall (fun m => NoDup (groups m) -> Good name m) ms -> NoDup (concat (map groups ms)) ->
  matches_as name (recursiveMatch (map (fun m => match_ m name) ms)) (concat (map groups ms))
    (concat_lang (map lang ms)) (concat_captures (map captures ms)).
Proof.
  intros Hall Hnd. apply recursiveMatch_as; rewrite ?length_map; try easy.
  induction Hall as [| m ms Hm Hall IH]; cbn; [constructor |].
  apply NoDup_app in Hnd as (H1 & _ & H2). constructor; [now apply Hm | now apply IH].
Qed.

Lemma component_set_as name components isInclusion : Good name (ComponentSet components isInclusion).
Proof.
  split; [| now intros w sigma [_ ->]]. intros offset len Hlen. cbn [match_ lang captures groups].
  unfold component_set_match. destruct (Nat.eqb_spec len 1) as [-> | Hne]; cbn [negb].
  - destruct (lookup_lt_is_Some_2 name offset ltac:(lia)) as [c Hc]. intros s Hs.
    destruct (any_component_runs components name offset c Hc s Hs) as (s1 & b & He & Hl & Hf & Hb).
    rewrite (act_bind_ok _ _ _ _ _ _ He), (slice_S _ _ _ _ Hc).
    exists s1, (Bool.eqb b isInclusion). replace (slice name (S offset) 0) with (@nil Component) by easy.
    assert (Hx : existsb (fun m => accepts m c) components = b).
    { destruct b; [now destruct Hb | now apply not_true_is_false]. }
    split_and!; [now destruct isInclusion, b | easy | easy |].
    destruct (Bool.eqb_spec b isInclusion) as [Hi | Hi].
    + assert (HL : exists c0, [c] = [c0] /\ existsb (fun m => accepts m c0) components = isInclusion)
        by (exists c; split; [easy | congruence]).
      split; [easy |]. exists []. split; [easy |]. intros i w Hw. now apply elem_of_nil in Hw.
    + intros (c' & [= <-] & Hc'). congruence.
  - apply runs_ret. intros (c & Hw & _). apply (f_equal length) in Hw. rewrite length_slice in Hw by easy. now cbn in Hw.
Qed.

Lemma backref_as name i ms :
  Forall (fun m => NoDup (groups m) -> Good name m) ms -> NoDup (groups (Backref i ms)) -> Good name (Backref i ms).
Proof.
  intros Hall Hnd. cbn [groups] in Hnd. apply NoDup_cons in Hnd as [Hi Hnd]. pose proof (matchers_as name ms Hall Hnd) as Has.
  split; cbn [match_ lang captures groups].
  - intros offset len Hlen s Hs. apply Forall_cons in Hs as [His Hs]. unfold set_ref. rewrite act_modify_bind.
    destruct (as_runs _ _ _ _ _ Has offset len Hlen (<[i := []]> s)) as (s1 & b & He & Hl & Hf & Hb).
    { now rewrite length_insert. }
    rewrite length_insert in Hl. rewrite (act_bind_ok _ _ _ _ _ _ He). destruct b.
    + rewrite get_components_slice, act_returns_bind, act_modify_bind by easy.
      exists (<[i := slice name offset len]> s1), true. rewrite length_insert. destruct Hb as [HL (sigma & Hc & Hh)].
      split_and!; [easy | easy | | easy |].
      * intros j Hj. rewrite not_elem_of_cons in Hj. rewrite list_lookup_insert_ne, Hf, list_lookup_insert_ne by naive_solver.
        easy.
      * exists ((i, slice name offset len) :: sigma). split; [now exists sigma |]. intros j w Hj.
        apply elem_of_cons in Hj as [[= -> ->] | Hj].
        -- apply list_lookup_insert_eq. lia.
        -- rewrite list_lookup_insert_ne; [now apply Hh |]. intros ->.
           apply Hi, (as_groups _ _ _ _ _ Has _ _ Hc), list_elem_of_fmap. now exists (j, w).
    + exists s1, false. split_and!; [easy | easy | | easy]. intros j Hj. rewrite not_elem_of_cons in Hj.
      rewrite Hf, list_lookup_insert_ne by naive_solver. easy.
  - intros w sigma (sigma1 & -> & Hc). pose proof (as_groups _ _ _ _ _ Has _ _ Hc). cbn. set_solver.
Qed.

Lemma repeat_as name m mn mx : Good name m -> 0 <= mn -> Good name (RepeatMatcher m mn mx).
Proof.
  intros Has Hmn. split; cbn [match_ lang captures groups].
  - intros offset len Hlen.
    destruct ((mn =? 0) && (len =? 0)%nat) eqn:Hskip.
    { apply andb_true_iff in Hskip as [->%Z.eqb_eq ->%Nat.eqb_eq].
      replace (slice name offset 0) with (@nil Component) by easy. apply runs_ret. split; [now left |].
      intros s. exists []. split; [now left |]. intros i w Hi. now apply elem_of_nil in Hi. }
    assert (Hno : ~ (slice name offset len = [] /\ mn = 0)).
    { intros [He ->]. apply (f_equal length) in He. rewrite length_slice in He by easy. cbn in He. now subst. }
    eapply runs_weaken; [apply (repeat_recursiveMatch_runs name _ _ _ _ Has); lia | | |].
    + destruct (_ =? 0)%nat; set_solver.
    + destruct (decide (slice name offset len = [])) as [He | Hne].
      * rewrite He, tail_lang_nil. split; [intros; exfalso; apply Hno; split; [easy | lia] |].
        intros [[_ ->] | [Hx _]]; [lia | now destruct Hx].
      * rewrite tail_lang_parts by easy. naive_solver.
    + intros s [[He Hm] | HL] Hc; [exfalso; apply Hno; split; [easy | lia] |].
      destruct HL as (parts & part & Hr). apply repeats_nonempty in Hr.
      destruct Hc as [He | (parts' & part' & (Hall & Hw & Hp & Hn) & sigma & Hc & Hh)]; [easy |].
      exists sigma. split; [| easy]. right. exists parts', part'. split_and!; auto; lia.
  - intros w sigma [(_ & _ & ->) | (parts & part & _ & _ & _ & _ & Hc)]; [easy |].
    now apply (as_groups _ _ _ _ _ Has _ _ Hc).
Qed.

(** The bounds of the repetitions are not negative: [repeatMin_] is a [size_t]. *)
Fixpoint bounded (self : Matcher) : Prop :=
  match self with
  | PatternList ms | Backref _ ms => foldr (fun m P => bounded m /\ P) True ms
  | RepeatMatcher m repeatMin _ => 0 <= repeatMin /\ bounded m
  | ComponentSet _ _ => True
  end.

Lemma matcher_as name m : NoDup (groups m) -> bounded m -> Good name m.
Proof.
  revert m. apply (matcher_induction (fun m => NoDup (groups m) -> bounded m -> Good name m)).
  - intros ms Hall Hnd Hb. cbn in Hnd. apply matchers_as; [| easy]. cbn in Hb. clear Hnd.
    induction Hall; constructor; naive_solver.
  - intros i ms Hall Hnd Hb. apply backref_as; [| easy]. cbn in Hb. clear Hnd.
    induction Hall; constructor; naive_solver.
  - intros m mn mx IH Hnd [Hmn Hb]. cbn in Hnd. apply repeat_as; auto.
  - intros cs incl _ _. apply component_set_as.
Qed.

(** Matching names. A compiled matcher, in whatever state its back references were left, returns for
    every name, without an exception, and returns true exactly when the name is in the language of the
    expression: sequences, groups, component sets and the repetitions with their least and most numbers.
    After a match the back references hold what the groups captured: the part that a group matched, in the
    last repetition when it is repeated. *)
Theorem match_language (m : Matcher) (name : Name) (refs : Refs) :
  NoDup (groups m) -> bounded m -> Forall (fun i => i < length refs)%nat (groups m) ->
  exists refs' b, match_ m name 0 (length name) refs = (refs', [], Ok b) /\ (b = true <-> lang m name) /\
    (b = true -> exists sigma, captures m name sigma /\ forall i w, (i, w) ∈ sigma -> refs' !! i = Some w).
Proof.
  intros Hnd Hb Hr. destruct (as_runs _ _ _ _ _ (matcher_as name m Hnd Hb) 0%nat (length name) (le_n _) refs Hr)
    as (refs' & b & He & _ & _ & Hres).
  replace (slice name 0 (length name)) with name in Hres by (unfold slice; cbn; now rewrite firstn_all).
  exists refs', b. split; [easy |]. destruct b; [| naive_solver]. destruct Hres as [HL HC]. split; [easy | intros _; exact HC].
Qed.
End Regex.
