(* ===== verification/RegexSyntax.v ===== *)
(** * Name regular expressions: the compilers and the top matcher

    The [compile] methods of src/util/regex, which cut an expression into parts and make the matchers of
    Regex.v, and [NdnRegexTopMatcher] with its anchors, the two attempts of [match], [expand] and
    [fromName]. The abstract syntax [Atom] is the documented form of an expression; [compile_print]
    relates it to the compilers. *)

From stdpp Require Import base list numbers option strings.
From Stdlib Require Import ZArith Lia.
From S2P Require Import Prelude Actions Encoder Name NameUri Regex.
Open Scope Z_scope.

(** ** Characters *)

Abbreviation DOLLAR := 36.
Abbreviation LPAREN := 40.
Abbreviation RPAREN := 41.
Abbreviation STAR := 42.
Abbreviation PLUS := 43.
Abbreviation COMMA := 44.
Abbreviation LANGLE := 60.
Abbreviation RANGLE := 62.
Abbreviation QUESTION := 63.
Abbreviation LBRACKET := 91.
Abbreviation BACKSLASH := 92.
Abbreviation RBRACKET := 93.
Abbreviation CARET := 94.
Abbreviation LBRACE := 123.
Abbreviation RBRACE := 125.

(** [expr[i]] of a [std::string], which is 0 at its end. *)
Definition char_at (expr : list Z) (i : nat) : Z := default 0 (expr !! i).

Definition substr (expr : list Z) (start n : nat) : list Z := take n (drop start expr).

(** An [NdnRegexMatcherBase::Error], without the expression that its text may end with. *)
Definition regex_error (what : string) : exn := Exception "NdnRegexMatcherBase::Error" what.

(** ** Cutting an expression *)

(** How many characters there are up to the one that closes the last of [opened] brackets. *)
Fixpoint close (left right : Z) (opened : nat) (s : list Z) : option nat :=
  match s with
  | [] => None
  | c :: s =>
      let opened := if c =? left then S opened else opened in
      let opened := if c =? right then pred opened else opened in
      if (opened =? 0)%nat then Some 1%nat else S <$> close left right opened s
  end.

Definition extractSubPattern (left right : Z) (expr : list Z) (index : nat) : result exn nat :=
  match close left right 1 (drop index expr) with
  | Some n => Ok (index + n)%nat
  | None => Err (regex_error "Parenthesis mismatch")
  end.

Fixpoint to_brace (s : list Z) : option nat :=
  match s with
  | [] => None
  | c :: s => if c =? RBRACE then Some 1%nat else S <$> to_brace s
  end.

Definition extractRepetition (expr : list Z) (index : nat) : result exn nat :=
  if (index =? length expr)%nat then Ok index
  else
    let c := char_at expr index in
    if (c =? PLUS) || (c =? QUESTION) || (c =? STAR) then Ok (S index)
    else if c =? LBRACE then
      match to_brace (drop index expr) with
      | Some n => Ok (index + n)%nat
      | None => Err (regex_error "Missing right brace bracket")
      end
    else Ok index.

(** ** Repetitions *)

Definition MAX_REPETITIONS : Z := 32767.

(** [[0-9]+] *)
Definition is_number (s : list Z) : bool :=
  match s with [] => false | _ => forallb (fun c => (48 <=? c) && (c <=? 57)) s end.

(** What [repeatStruct] holds between its braces. *)
Definition in_braces (repeatStruct : list Z) : option (list Z) :=
  match repeatStruct, last repeatStruct with
  | c :: s, Some d => if (c =? LBRACE) && (d =? RBRACE) && (1 <=? length s)%nat then Some (removelast s) else None
  | _, _ => None
  end.

(** The four forms of [repeatStruct]; [min] and [max] are of type [size_t]. *)
Definition parse_range (repeatStruct : list Z) : option (Z * Z) :=
  match in_braces repeatStruct with
  | None => None
  | Some body =>
      match split_at COMMA body with
      | (l, Some r) =>
          if is_number l && is_number r then Some (wrap64 (atoi l), wrap64 (atoi r))
          else if bool_decide (l = []) && is_number r then Some (0, wrap64 (atoi r))
          else if is_number l && bool_decide (r = []) then Some (wrap64 (atoi l), MAX_REPETITIONS)
          else None
      | (l, None) => if is_number l then Some (wrap64 (atoi l), wrap64 (atoi l)) else None
      end
  end.

(** [NdnRegexRepeatMatcher::parseRepetition]: [repeatMin_] and [repeatMax_], which the constructor sets to 0. *)
Definition parseRepetition (expr : list Z) (indicator_ : nat) : result exn (Z * Z) :=
  if (length expr =? indicator_)%nat then Ok (1, 1)
  else if (length expr =? indicator_ + 1)%nat then
    let c := char_at expr indicator_ in
    Ok (if c =? QUESTION then (0, 1)
        else if c =? PLUS then (1, MAX_REPETITIONS)
        else if c =? STAR then (0, MAX_REPETITIONS)
        else (0, 0))
  else
    match parse_range (drop indicator_ expr) with
    | None => Err (regex_error "Error: RegexRepeatMatcher.ParseRepetition(): Unrecognized format ")
    | Some (min, max) =>
        if (min >? MAX_REPETITIONS) || (max >? MAX_REPETITIONS) || (min >? max) then
          Err (regex_error "Error: RegexRepeatMatcher.ParseRepetition(): Wrong number ")
        else Ok (min, max)
    end.

(** ** The form of an expression *)

Inductive Repetition :=
| Once
| Optional
| Plus
| Star
| Exactly (n : Z)
| Between (min max : Z)
| AtLeast (min : Z)
| AtMost (max : Z).

(** [<text>], [[<text>...]] or [[^<text>...]], and [(...)] with its parts and their repetitions. *)
Inductive Atom :=
| AComponent (text : list Z)
| ASet (inclusion : bool) (texts : list (list Z))
| AGroup (items : list (Atom * Repetition)).

Abbreviation Items := (list (Atom * Repetition)).

Definition print_number (n : Z) : list Z := digits 10 10 n false.

Definition print_repetition (r : Repetition) : list Z :=
  match r with
  | Once => []
  | Optional => [QUESTION]
  | Plus => [PLUS]
  | Star => [STAR]
  | Exactly n => [LBRACE] ++ print_number n ++ [RBRACE]
  | Between a b => [LBRACE] ++ (print_number a ++ COMMA :: print_number b) ++ [RBRACE]
  | AtLeast a => [LBRACE] ++ (print_number a ++ [COMMA]) ++ [RBRACE]
  | AtMost b => [LBRACE] ++ (COMMA :: print_number b) ++ [RBRACE]
  end.

Definition bounds (r : Repetition) : Z * Z :=
  match r with
  | Once => (1, 1)
  | Optional => (0, 1)
  | Plus => (1, MAX_REPETITIONS)
  | Star => (0, MAX_REPETITIONS)
  | Exactly n => (n, n)
  | Between a b => (a, b)
  | AtLeast a => (a, MAX_REPETITIONS)
  | AtMost b => (0, b)
  end.

Definition print_text (text : list Z) : list Z := LANGLE :: text ++ [RANGLE].

Fixpoint print_atom (a : Atom) : list Z :=
  match a with
  | AComponent text => print_text text
  | ASet inclusion texts =>
      LBRACKET :: ((if inclusion then [] else [CARET]) ++ concat (map print_text texts)) ++ [RBRACKET]
  | AGroup items => LPAREN :: concat (map (fun x => print_atom x.1 ++ print_repetition x.2) items) ++ [RPAREN]
  end.

Definition print_item (x : Atom * Repetition) : list Z := print_atom x.1 ++ print_repetition x.2.
Definition print (items : Items) : list Z := concat (map print_item items).

(** The level of the brackets after [s]; none when it closes the bracket around it. *)
Fixpoint level (left right : Z) (opened : nat) (s : list Z) : option nat :=
  match s with
  | [] => Some opened
  | c :: s =>
      let opened := if c =? left then S opened else opened in
      let opened := if c =? right then pred opened else opened in
      if (opened =? 0)%nat then None else level left right opened s
  end.

(** [s] closes what it opens. *)
Definition neutral (left right : Z) (s : list Z) : bool := bool_decide (level left right 1 s = Some 1%nat).

Definition text_ok (text : list Z) : bool :=
  neutral LANGLE RANGLE text && neutral LBRACKET RBRACKET text && neutral LPAREN RPAREN text.

Definition repetition_ok (r : Repetition) : bool :=
  (0 <=? (bounds r).1) && ((bounds r).1 <=? (bounds r).2) && ((bounds r).2 <=? MAX_REPETITIONS).

Fixpoint atom_ok (a : Atom) : bool :=
  match a with
  | AComponent text => text_ok text
  | ASet _ texts => forallb text_ok texts
  | AGroup items => forallb (fun x => atom_ok x.1 && repetition_ok x.2) items
  end.

Definition items_ok (items : Items) : bool := forallb (fun x => atom_ok x.1 && repetition_ok x.2) items.

(** ** The compilers

    They take the number of back references that the manager has, and return the number after. *)

Section Compile.
Context `{RegexLib}.

(** [NdnRegexComponentMatcher::compile]. *)
Definition compile_component (expr : list Z) (refs : nat) : result exn (ComponentMatcher * nat) :=
  match regex_new expr with
  | None => Err (Exception "regex_error" "")
  | Some r => Ok (mkComponentMatcher expr r refs, (refs + mark_count r)%nat)
  end.

Definition extractComponent (expr : list Z) (index : nat) : result exn nat :=
  match close LANGLE RANGLE 1 (drop index expr) with
  | Some n => Ok (index + n)%nat
  | None => Err (regex_error "Error: angle brackets mismatch")
  end.

Definition compileSingleComponent (expr : list Z) (refs : nat) : result exn (list ComponentMatcher * nat) :=
  end_ ← extractComponent expr 1;
  if negb (length expr =? end_)%nat then Err (regex_error "Component expr error ")
  else
    '(component, refs) ← compile_component (substr expr 1 (end_ - 2)) refs;
    mret ([component], refs).

(** The loop of [compileMultipleComponents]; each round goes on by at least two characters. *)
Fixpoint compileMultipleComponents (fuel : nat) (expr : list Z) (index lastIndex refs : nat)
  : result exn (list ComponentMatcher * nat) :=
  if (index <? lastIndex)%nat then
    match fuel with
    | O => Err (Failed OutOfFuel)
    | S fuel =>
        if negb (char_at expr index =? LANGLE) then Err (regex_error "Component expr error ")
        else
          let tempIndex := S index in
          index ← extractComponent expr tempIndex;
          '(component, refs) ← compile_component (substr expr tempIndex (index - tempIndex - 1)) refs;
          '(components, refs) ← compileMultipleComponents fuel expr index lastIndex refs;
          mret (component :: components, refs)
    end
  else if negb (index =? lastIndex)%nat then Err (regex_error "Not sufficient expr to parse ")
  else Ok ([], refs).

(** [NdnRegexComponentSetMatcher::compile]. *)
Definition compile_component_set (expr : list Z) (refs : nat) : result exn (Matcher * nat) :=
  if (length expr <? 2)%nat then Err (regex_error "Regexp compile error (cannot parse )")
  else if char_at expr 0 =? LANGLE then
    '(components, refs) ← compileSingleComponent expr refs;
    mret (ComponentSet components true, refs)
  else if char_at expr 0 =? LBRACKET then
    let lastIndex := (length expr - 1)%nat in
    if negb (char_at expr lastIndex =? RBRACKET) then Err (regex_error "Regexp compile error (no matching ']' in )")
    else
      let excluded := char_at expr 1 =? CARET in
      '(components, refs) ←
        compileMultipleComponents (length expr) expr (if excluded then 2 else 1)%nat lastIndex refs;
      mret (ComponentSet components (negb excluded), refs)
  else Err (regex_error "Regexp compile error (cannot parse )").

Section Nested.
(** [NdnRegexPatternListMatcher::compile] for a part of the expression. *)
Context (compile_list : list Z -> nat -> result exn (list Matcher * nat)).

(** [pushRef] and then [lateCompile] of an [NdnRegexBackrefMatcher]. *)
Definition compile_backref (expr : list Z) (refs : nat) : result exn (Matcher * nat) :=
  if (length expr <? 2)%nat then Err (regex_error "Unrecognized format: ")
  else
    let lastIndex := (length expr - 1)%nat in
    if (char_at expr 0 =? LPAREN) && (char_at expr lastIndex =? RPAREN) then
      '(ms, refs') ← compile_list (substr expr 1 (lastIndex - 1)) (S refs);
      mret (Backref refs [PatternList ms], refs')
    else Err (regex_error "Unrecognized format: ").

(** [NdnRegexRepeatMatcher::compile]. *)
Definition compile_repeat (expr : list Z) (indicator_ refs : nat) : result exn (Matcher * nat) :=
  '(matcher, refs) ←
    (if char_at expr 0 =? LPAREN then compile_backref (substr expr 0 indicator_) refs
     else compile_component_set (substr expr 0 indicator_) refs);
  '(min, max) ← parseRepetition expr indicator_;
  mret (RepeatMatcher matcher min max, refs).

Definition extractPattern (expr : list Z) (index refs : nat) : result exn (Matcher * nat * nat) :=
  let start := index in
  let c := char_at expr index in
  if c =? LPAREN then
    indicator ← extractSubPattern LPAREN RPAREN expr (S index);
    end_ ← extractRepetition expr indicator;
    '(matcher, refs) ←
      (if (indicator =? end_)%nat then compile_backref (substr expr start (end_ - start)) refs
       else compile_repeat (substr expr start (end_ - start)) (indicator - start) refs);
    mret (matcher, end_, refs)
  else if (c =? LANGLE) || (c =? LBRACKET) then
    indicator ← extractSubPattern c (if c =? LANGLE then RANGLE else RBRACKET) expr (S index);
    end_ ← extractRepetition expr indicator;
    '(matcher, refs) ← compile_repeat (substr expr start (end_ - start)) (indicator - start) refs;
    mret (matcher, end_, refs)
  else Err (regex_error "Unexpected syntax").
End Nested.

(** [NdnRegexPatternListMatcher::compile]: its loop, and the nested lists, within [fuel]. *)
Fixpoint compile_from (fuel : nat) (expr : list Z) (index refs : nat) : result exn (list Matcher * nat) :=
  if (index <? length expr)%nat then
    match fuel with
    | O => Err (Failed OutOfFuel)
    | S fuel =>
        '(matcher, next, refs) ← extractPattern (fun sub => compile_from fuel sub 0) expr index refs;
        '(matchers, refs) ← compile_from fuel expr next refs;
        mret (matcher :: matchers, refs)
    end
  else Ok ([], refs).

(** Each step of the recursion leaves a shorter rest of the expression. *)
Definition compile_list (expr : list Z) (refs : nat) : result exn (list Matcher * nat) :=
  compile_from (length expr) expr 0 refs.

(** ** NdnRegexTopMatcher *)

Record TopMatcher := mkTopMatcher {
  expand_ : list Z;
  primaryMatcher_ : Matcher;
  primaryRefs_ : Refs;
  secondaryMatcher_ : option Matcher;
  secondaryRefs_ : Refs;
  isSecondaryUsed_ : bool;
  matchResult_ : list Component
}.

Definition any_components : list Z := chars "<.*>*".

(** The constructor. [expr[expr.size() - 1]] of an empty string is out of bounds. *)
Definition TopMatcher_new (expr expand : list Z) : result exn TopMatcher :=
  match last expr with
  | None => Err (Failed UndefinedBehaviour)
  | Some c =>
      let expr := if negb (c =? DOLLAR) then expr ++ any_components else removelast expr in
      '(secondary, expr, secondaryRefs) ←
        (if negb (char_at expr 0 =? CARET) then
           '(ms, n) ← compile_list (any_components ++ expr) 0; mret (Some (PatternList ms), expr, n)
         else mret (None, drop 1 expr, 0%nat));
      '(ms, primaryRefs) ← compile_list expr 0;
      mret (mkTopMatcher expand (PatternList ms) (replicate primaryRefs []) secondary (replicate secondaryRefs [])
              false [])
  end.

(** [match(name)]. [matchResult_] of the pattern list that matched is the whole name. *)
Definition top_match (self : TopMatcher) (name : Name) : TopMatcher * result exn bool :=
  let '(refs1, _, r1) := match_ (primaryMatcher_ self) name 0 (length name) (primaryRefs_ self) in
  let after refs2 used found :=
    mkTopMatcher (expand_ self) (primaryMatcher_ self) refs1 (secondaryMatcher_ self) refs2 used found in
  match r1 with
  | Err e => (after (secondaryRefs_ self) false [], Err e)
  | Ok true => (after (secondaryRefs_ self) false name, Ok true)
  | Ok false =>
      match secondaryMatcher_ self with
      | None => (after (secondaryRefs_ self) false [], Ok false)
      | Some m =>
          let '(refs2, _, r2) := match_ m name 0 (length name) (secondaryRefs_ self) in
          match r2 with
          | Err e => (after refs2 false [], Err e)
          | Ok b => (after refs2 b (if (b : bool) then name else []), Ok b)
          end
      end
  end.

Fixpoint leading_digits (s : list Z) : nat :=
  match s with
  | c :: s => if (48 <=? c) && (c <=? 57) then S (leading_digits s) else O
  | [] => O
  end.

(** [getItemFromExpand]: the item at [offset] and the offset after it. *)
Definition getItemFromExpand (expand : list Z) (offset : nat) : result exn (list Z * nat) :=
  let wrong := Err (regex_error "Wrong format of expand string!") in
  if char_at expand offset =? BACKSLASH then
    if (length expand <=? S offset)%nat then wrong
    else
      let n := leading_digits (drop (S offset) expand) in
      if (n =? 0)%nat then wrong else Ok (substr expand offset (S n), (offset + S n)%nat)
  else if char_at expand offset =? LANGLE then
    if (length expand <=? S offset)%nat then wrong
    else
      match close LANGLE RANGLE 1 (drop (S offset) expand) with
      | None => wrong
      | Some n =>
          if (length expand <=? S offset + n)%nat then wrong
          else Ok (substr expand offset (S n), (offset + S n)%nat)
      end
  else wrong.

(** The loop of [expand]; an item is never empty. *)
Fixpoint expand_items (fuel : nat) (self : TopMatcher) (expand : list Z) (offset : nat) (result : Name)
  : Prelude.result exn Name :=
  if (offset <? length expand)%nat then
    match fuel with
    | O => Err (Failed OutOfFuel)
    | S fuel =>
        '(item, offset) ← getItemFromExpand expand offset;
        if char_at item 0 =? LANGLE then
          expand_items fuel self expand offset (result ++ [generic (substr item 1 (length item - 2))])
        else
          let index := wrap64 (atoi (drop 1 item)) in
          let refs := if isSecondaryUsed_ self then secondaryRefs_ self else primaryRefs_ self in
          if index =? 0 then expand_items fuel self expand offset (result ++ matchResult_ self)
          else if index <=? zlen refs then
            expand_items fuel self expand offset (result ++ default [] (refs !! (Z.to_nat index - 1)%nat))
          else Err (regex_error "Exceed the range of back reference")
    end
  else Ok result.

Definition expand (self : TopMatcher) (expandStr : list Z) : result exn Name :=
  let e := match expandStr with [] => expand_ self | _ => expandStr end in
  expand_items (length e) self e 0 [].

(** [convertSpecialChar]. *)
Definition is_special (c : Z) : bool :=
  bool_decide (c ∈ [46; LBRACKET; LBRACE; RBRACE; LPAREN; RPAREN; BACKSLASH; STAR; PLUS; QUESTION; 124; CARET; DOLLAR]).

Definition convertSpecialChar (s : list Z) : list Z :=
  concat (map (fun c => if is_special c then [BACKSLASH; c] else [c]) s).

Definition fromName (name : Name) (hasAnchor : bool) : result exn TopMatcher :=
  TopMatcher_new
    ([CARET] ++ concat (map (fun c => [LANGLE] ++ convertSpecialChar (escaped c) ++ [RANGLE]) name)
       ++ (if hasAnchor then [DOLLAR] else [])) [].
End Compile.


(** ** What an expression means *)

Section Meaning.
Context `{RegexLib}.

(** Whether the text of a component accepts a component. *)
Definition text_accepts (text : list Z) (c : Component) : bool :=
  match text with
  | [] => true
  | _ =>
      match regex_new text with
      | Some r => if regex_match r (escaped c) is Some _ then true else false
      | None => false
      end
  end.

(** From [mn] to [mx] times; the empty name only when it may be none at all. *)
Definition repeated (range : Z * Z) (l : list Component -> Prop) (w : list Component) : Prop :=
  (w = [] /\ range.1 = 0) \/
  (w <> [] /\ exists parts, Forall l parts /\ w = concat parts /\ range.1 <= Z.of_nat (length parts) <= range.2).

Definition item_lang (denotes : Atom -> list Component -> Prop) (x : Atom * Repetition) : list Component -> Prop :=
  match x with
  | (AGroup _ as a, Once) => denotes a
  | (a, r) => repeated (bounds r) (denotes a)
  end.

Fixpoint denotes (a : Atom) (w : list Component) : Prop :=
  match a with
  | AComponent text => exists c, w = [c] /\ text_accepts text c = true
  | ASet inclusion texts => exists c, w = [c] /\ existsb (fun text => text_accepts text c) texts = inclusion
  | AGroup items => concat_lang (map (item_lang denotes) items) w
  end.

Definition items_denote (items : Items) : list Component -> Prop := concat_lang (map (item_lang denotes) items).

Definition text_compiles (text : list Z) : bool := if regex_new text is Some _ then true else false.

Fixpoint atom_compiles (a : Atom) : bool :=
  match a with
  | AComponent text => text_compiles text
  | ASet _ texts => forallb text_compiles texts
  | AGroup items => forallb (fun x => atom_compiles x.1) items
  end.

Definition items_compile (items : Items) : bool := forallb (fun x => atom_compiles x.1) items.
End Meaning.

(** The matchers of an expression, when the library has the regular expressions of its components. *)
Section Build.
Context `{RegexLib}.

Definition build_component (text : list Z) (refs : nat) : option (ComponentMatcher * nat) :=
  r ← regex_new text; Some (mkComponentMatcher text r refs, (refs + mark_count r)%nat).

Fixpoint build_components (texts : list (list Z)) (refs : nat) : option (list ComponentMatcher * nat) :=
  match texts with
  | [] => Some ([], refs)
  | text :: texts =>
      '(c, refs) ← build_component text refs;
      '(cs, refs) ← build_components texts refs;
      Some (c :: cs, refs)
  end.

Definition build_item (build_atom : Atom -> nat -> option (Matcher * nat)) (x : Atom * Repetition) (refs : nat)
  : option (Matcher * nat) :=
  '(m, refs) ← build_atom x.1 refs;
  match x with
  | (AGroup _, Once) => Some (m, refs)
  | _ => Some (RepeatMatcher m (bounds x.2).1 (bounds x.2).2, refs)
  end.

Fixpoint build_atom (a : Atom) (refs : nat) : option (Matcher * nat) :=
  match a with
  | AComponent text => '(c, refs) ← build_component text refs; Some (ComponentSet [c] true, refs)
  | ASet inclusion texts => '(cs, refs) ← build_components texts refs; Some (ComponentSet cs inclusion, refs)
  | AGroup items =>
      '(ms, refs') ←
        (fix build (items : Items) (refs : nat) : option (list Matcher * nat) :=
           match items with
           | [] => Some ([], refs)
           | x :: items =>
               '(m, refs) ← build_item build_atom x refs;
               '(ms, refs) ← build items refs;
               Some (m :: ms, refs)
           end) items (S refs);
      Some (Backref refs [PatternList ms], refs')
  end.

Fixpoint build (items : Items) (refs : nat) : option (list Matcher * nat) :=
  match items with
  | [] => Some ([], refs)
  | x :: items =>
      '(m, refs) ← build_item build_atom x refs;
      '(ms, refs) ← build items refs;
      Some (m :: ms, refs)
  end.
End Build.
