(* ===== verification/RegexSpec.v ===== *)
(** * Name regular expressions: what they mean

    The compilers read the printed form of an expression back ([compile_print]), and the top matcher with
    its anchors matches the names of the language of the expression. *)

From stdpp Require Import base list numbers option sets strings.
From Stdlib Require Import ZArith Lia.
From S2P Require Import Prelude Actions Encoder Name NameUri Regex RegexSyntax.
Open Scope Z_scope.

(** ** Brackets *)

Lemma close_app l r d t s d' :
  level l r d t = Some d' -> close l r d (t ++ s) = (fun n => length t + n)%nat <$> close l r d' s.
Proof.
  revert d. induction t as [| c t IH]; intros d; cbn [level close app length].
  - intros [= ->]. now destruct (close l r d' s).
  - destruct (_ =? 0)%nat; [easy |]. intros Hl. rewrite (IH _ Hl). now destruct (close l r d' s).
Qed.

Lemma level_shift l r d t d' k : level l r d t = Some d' -> level l r (d + k) t = Some (d' + k)%nat.
Proof.
  revert d. induction t as [| c t IH]; intros d; cbn [level]; [now intros [= ->] |].
  destruct (c =? l), (c =? r), d as [| [| d]]; cbn [Nat.eqb Nat.pred Nat.add]; try easy;
    try (intros Hl; exact (IH _ Hl)).
Qed.

Lemma level_app l r d t s d' : level l r d t = Some d' -> level l r d (t ++ s) = level l r d' s.
Proof.
  revert d. induction t as [| c t IH]; intros d; cbn [level app]; [now intros [= ->] |].
  destruct (_ =? 0)%nat; [easy | apply IH].
Qed.

Lemma neutral_level l r s : neutral l r s = true <-> level l r 1 s = Some 1%nat.
Proof. unfold neutral. now rewrite bool_decide_eq_true. Qed.

Lemma neutral_app l r s t : neutral l r s = true -> neutral l r t = true -> neutral l r (s ++ t) = true.
Proof. rewrite !neutral_level. intros Hs Ht. now rewrite (level_app _ _ _ _ _ _ Hs). Qed.

Lemma neutral_wrap l r s : l <> r -> neutral l r s = true -> neutral l r (l :: s ++ [r]) = true.
Proof.
  rewrite !neutral_level. intros Hlr Hs. cbn [level]. rewrite Z.eqb_refl, (proj2 (Z.eqb_neq l r)) by easy.
  cbn [Nat.eqb]. rewrite (level_app _ _ _ _ _ _ (level_shift _ _ _ _ _ 1 Hs)). cbn [level Nat.add].
  rewrite Z.eqb_refl, (proj2 (Z.eqb_neq r l)) by easy. easy.
Qed.

Lemma neutral_free l r s : Forall (fun c => c <> l /\ c <> r) s -> neutral l r s = true.
Proof.
  intros Hs. apply neutral_level. induction Hs as [| c s [Hl Hr] Hs IH]; [easy |]. cbn [level].
  rewrite (proj2 (Z.eqb_neq c l)), (proj2 (Z.eqb_neq c r)) by easy. exact IH.
Qed.

Lemma neutral_concat l r {A} (f : A -> list Z) xs :
  Forall (fun x => neutral l r (f x) = true) xs -> neutral l r (concat (map f xs)) = true.
Proof. induction 1; cbn; [now apply neutral_free | now apply neutral_app]. Qed.

Lemma close_neutral l r t rest :
  l <> r -> neutral l r t = true -> close l r 1 (t ++ r :: rest) = Some (S (length t)).
Proof.
  intros Hlr Ht%neutral_level. rewrite (close_app _ _ _ _ _ _ Ht). cbn [close].
  rewrite Z.eqb_refl, (proj2 (Z.eqb_neq r l)) by easy. cbn. f_equal. lia.
Qed.

(** ** Characters of an expression *)

Lemma char_at_app pre c rest : char_at (pre ++ c :: rest) (length pre) = c.
Proof. unfold char_at. now rewrite list_lookup_middle. Qed.

Lemma substr_app pre t rest : substr (pre ++ t ++ rest) (length pre) (length t) = t.
Proof. unfold substr. now rewrite drop_app_length, take_app_length. Qed.

Lemma drop_app_S pre c (rest : list Z) : drop (S (length pre)) (pre ++ c :: rest) = rest.
Proof. change (c :: rest) with ([c] ++ rest). rewrite app_assoc. replace (S (length pre)) with (length (pre ++ [c])). apply drop_app_length. rewrite length_app. cbn. lia. Qed.

Lemma substr_cons c t rest : substr (c :: t ++ rest) 1 (length t) = t.
Proof. unfold substr. cbn [drop]. apply take_app_length. Qed.

(** ** Repetitions *)

Lemma print_number_decimal n : 0 <= n -> Forall decimal (print_number n).
Proof. apply decimal_digits. Qed.

Lemma is_number_print n : 0 <= n -> is_number (print_number n) = true.
Proof.
  intros Hn. pose proof (print_number_decimal n Hn) as Hd. unfold print_number in *.
  destruct (digits_nonempty 9 10 n false) as (c & t & He). rewrite He in *. unfold is_number.
  apply forallb_forall. intros x Hx. apply list_elem_of_In in Hx. rewrite Forall_forall in Hd.
  specialize (Hd x Hx). unfold decimal in Hd. apply andb_true_iff. split; apply Z.leb_le; lia.
Qed.

Lemma number_not n c : 0 <= n -> c < 48 \/ 57 < c -> c ∉ print_number n.
Proof.
  intros Hn Hc Hi. pose proof (print_number_decimal n Hn) as Hd. rewrite Forall_forall in Hd.
  specialize (Hd c Hi). unfold decimal in Hd. lia.
Qed.

Lemma atoi_number n : 0 <= n < 2 ^ 31 -> wrap64 (atoi (print_number n)) = n.
Proof. intros Hn. unfold print_number. rewrite atoi_digits by lia. apply wrap64_small. lia. Qed.

Lemma atoi_print n : 0 <= n <= MAX_REPETITIONS -> wrap64 (atoi (print_number n)) = n.
Proof. unfold MAX_REPETITIONS. intros Hn. apply atoi_number. lia. Qed.

Lemma in_braces_print body : in_braces ([LBRACE] ++ body ++ [RBRACE]) = Some body.
Proof.
  assert (Hl : last ([LBRACE] ++ body ++ [RBRACE]) = Some RBRACE) by (rewrite app_assoc; apply last_snoc).
  cbn [app] in *. unfold in_braces. rewrite Hl, !Z.eqb_refl, length_app. cbn [andb length].
  rewrite (proj2 (Nat.leb_le 1 (length body + 1))) by lia. now rewrite removelast_last.
Qed.

Lemma to_brace_print body rest :
  RBRACE ∉ body -> to_brace ([LBRACE] ++ body ++ [RBRACE] ++ rest) = Some (length body + 2)%nat.
Proof.
  intros Hb. change (to_brace ([LBRACE] ++ body ++ [RBRACE] ++ rest)) with (S <$> to_brace (body ++ RBRACE :: rest)).
  induction body as [| c body IH]; [easy |]. rewrite not_elem_of_cons in Hb. cbn [app to_brace].
  rewrite (proj2 (Z.eqb_neq c RBRACE)) by naive_solver. rewrite IH by easy. easy.
Qed.

Lemma repetition_range r :
  repetition_ok r = true -> 0 <= (bounds r).1 /\ (bounds r).1 <= (bounds r).2 /\ (bounds r).2 <= MAX_REPETITIONS.
Proof. unfold repetition_ok. rewrite !andb_true_iff, !Z.leb_le. lia. Qed.

(** A repetition in braces: what is between them, and how it is read. *)
Lemma braces_body r :
  repetition_ok r = true ->
  r = Once \/ r = Optional \/ r = Plus \/ r = Star \/
  exists body, print_repetition r = [LBRACE] ++ body ++ [RBRACE] /\ body <> [] /\ RBRACE ∉ body /\
    parse_range (print_repetition r) = Some (bounds r).
Proof.
  intros Hr%repetition_range. destruct r; auto; do 4 right; cbn [bounds fst snd] in Hr; cbn [print_repetition];
    eexists; (split; [reflexivity |]); unfold parse_range; rewrite in_braces_print.
  - rewrite split_at_none, is_number_print, atoi_print by (apply number_not || idtac; lia).
    split_and!; [| apply number_not; lia | easy]. intros He.
    pose proof (is_number_print n ltac:(lia)). now rewrite He in *.
  - rewrite split_at_app by (apply number_not; lia). rewrite !is_number_print, !atoi_print by lia.
    split_and!; [| | easy].
    + intros He. now apply (f_equal length) in He; rewrite length_app in He; cbn in He; lia.
    + rewrite not_elem_of_app, not_elem_of_cons. split_and!; [apply number_not; lia | easy | apply number_not; lia].
  - rewrite split_at_app by (apply number_not; lia). rewrite !is_number_print, !atoi_print by lia.
    split_and!; [| | now rewrite bool_decide_eq_false_2 by (intros He; pose proof (is_number_print min ltac:(lia)); now rewrite He in *)].
    + intros He. now apply (f_equal length) in He; rewrite length_app in He; cbn in He; lia.
    + rewrite not_elem_of_app, not_elem_of_cons. split_and!; [apply number_not; lia | easy | apply not_elem_of_nil].
  - cbn [split_at]. rewrite Z.eqb_refl. rewrite is_number_print, atoi_print by lia.
    split_and!; [easy | | easy]. rewrite not_elem_of_cons. split; [easy | apply number_not; lia].
Qed.

(** What can follow an item: the end, or the start of the next one. *)
Definition starts_item (rest : list Z) : Prop :=
  match rest with [] => True | c :: _ => c = LPAREN \/ c = LANGLE \/ c = LBRACKET end.

Lemma extractRepetition_print pre r rest :
  repetition_ok r = true -> starts_item rest ->
  extractRepetition (pre ++ print_repetition r ++ rest) (length pre) =
    Ok (length pre + length (print_repetition r))%nat.
Proof.
  intros Hr Hrest. unfold extractRepetition.
  destruct (braces_body r Hr) as [-> | [-> | [-> | [-> | (body & Hp & _ & Hb & _)]]]];
    cbn [print_repetition app length].
  - destruct rest as [| c rest].
    + rewrite app_nil_r, Nat.eqb_refl. f_equal. lia.
    + rewrite length_app. cbn [length]. rewrite (proj2 (Nat.eqb_neq _ _)), char_at_app by lia.
      cbn in Hrest. rewrite Nat.add_0_r. now destruct Hrest as [-> | [-> | ->]].
  - rewrite length_app. cbn [length]. rewrite (proj2 (Nat.eqb_neq _ _)), char_at_app by lia. cbn. f_equal. lia.
  - rewrite length_app. cbn [length]. rewrite (proj2 (Nat.eqb_neq _ _)), char_at_app by lia. cbn. f_equal. lia.
  - rewrite length_app. cbn [length]. rewrite (proj2 (Nat.eqb_neq _ _)), char_at_app by lia. cbn. f_equal. lia.
  - rewrite Hp, <- !app_assoc, drop_app_length, to_brace_print by easy. cbn [app].
    rewrite (proj2 (Nat.eqb_neq _ _)), char_at_app by (rewrite length_app; cbn; lia).
    cbn [orb Z.eqb Pos.eqb length]. f_equal. rewrite length_app. cbn [length]. lia.
Qed.

Lemma parseRepetition_print p r :
  repetition_ok r = true -> parseRepetition (p ++ print_repetition r) (length p) = Ok (bounds r).
Proof.
  intros Hr. pose proof (repetition_range r Hr) as Hrange. unfold parseRepetition.
  destruct (braces_body r Hr) as [-> | [-> | [-> | [-> | (body & Hp & Hne & _ & Hparse)]]]].
  1: cbn [print_repetition]; now rewrite app_nil_r, Nat.eqb_refl.
  1-3: cbn [print_repetition]; rewrite length_app; cbn [length];
    rewrite (proj2 (Nat.eqb_neq _ _)), Nat.eqb_refl, char_at_app by lia; easy.
  destruct (bounds r) as [mn mx]. rewrite drop_app_length, Hparse, Hp, !length_app. cbn [length fst snd] in *.
  destruct body as [| c body]; [easy |]. cbn [length].
  rewrite !(proj2 (Nat.eqb_neq _ _)) by lia.
  destruct (Z.gtb_spec mn MAX_REPETITIONS), (Z.gtb_spec mx MAX_REPETITIONS), (Z.gtb_spec mn mx); try lia. easy.
Qed.

(** ** Atoms *)

Lemma atom_induction (P : Atom -> Prop) :
  (forall text, P (AComponent text)) -> (forall inclusion texts, P (ASet inclusion texts)) ->
  (forall items, Forall (fun x => P x.1) items -> P (AGroup items)) -> forall a, P a.
Proof.
  intros Hc Hs Hg. fix IH 1. intros [text | incl texts | items]; [apply Hc | apply Hs |].
  apply Hg. induction items as [| [a r] items IHi]; constructor; [apply IH | exact IHi].
Qed.

Lemma text_ok_spec text :
  text_ok text = true <->
  neutral LANGLE RANGLE text = true /\ neutral LBRACKET RBRACKET text = true /\ neutral LPAREN RPAREN text = true.
Proof. unfold text_ok. rewrite !andb_true_iff. tauto. Qed.

(** Two brackets around what is neutral for other brackets. *)
Lemma neutral_around l r a b s :
  a <> l -> a <> r -> b <> l -> b <> r -> neutral l r s = true -> neutral l r (a :: s ++ [b]) = true.
Proof.
  intros. change (a :: s ++ [b]) with ([a] ++ s ++ [b]).
  repeat apply neutral_app; try easy; apply neutral_free; repeat constructor; easy.
Qed.

Lemma neutral_repetition l r x : repetition_ok x = true ->
  l = LPAREN /\ r = RPAREN -> neutral l r (print_repetition x) = true.
Proof.
  intros Hx%repetition_range [-> ->]. apply neutral_free. rewrite Forall_forall. intros c Hc.
  destruct x; cbn [print_repetition bounds fst snd] in *;
    repeat (rewrite ?elem_of_app, ?elem_of_cons in Hc); rewrite ?elem_of_nil in Hc;
    destruct_or? Hc; subst; try easy.
  all: match goal with H : _ ∈ print_number ?n |- _ =>
    pose proof (print_number_decimal n ltac:(lia)) as Hd; rewrite Forall_forall in Hd;
    specialize (Hd _ H); unfold decimal in Hd; lia end.
Qed.

Lemma neutral_texts l r texts :
  (forall text, text_ok text = true -> neutral l r (print_text text) = true) -> forallb text_ok texts = true ->
  neutral l r (concat (map print_text texts)) = true.
Proof.
  intros Ht Hok. apply neutral_concat. rewrite Forall_forall. intros t Hi. apply Ht.
  rewrite forallb_forall in Hok. apply Hok. now apply list_elem_of_In.
Qed.

Lemma neutral_atom a : atom_ok a = true -> neutral LPAREN RPAREN (print_atom a) = true.
Proof.
  revert a. apply (atom_induction (fun a => atom_ok a = true -> neutral LPAREN RPAREN (print_atom a) = true)); cbn.
  - intros text (_ & _ & Ht)%text_ok_spec. now apply neutral_around.
  - intros incl texts Hok. apply neutral_around; try easy. apply neutral_app.
    + destruct incl; apply neutral_free; repeat constructor; easy.
    + apply neutral_texts; [| easy]. intros t (_ & _ & Ht)%text_ok_spec. now apply neutral_around.
  - intros items IH Hok. apply neutral_wrap; [easy |]. apply neutral_concat.
    induction IH as [| [a r] items Ha _ IHi]; constructor; cbn in *.
    + rewrite !andb_true_iff in Hok. apply neutral_app; [now apply Ha | now apply neutral_repetition].
    + rewrite !andb_true_iff in Hok. now apply IHi.
Qed.

Lemma neutral_items items : items_ok items = true -> neutral LPAREN RPAREN (print items) = true.
Proof.
  intros Hok. apply neutral_concat. rewrite Forall_forall. intros [a r] Hi. unfold items_ok in Hok.
  rewrite forallb_forall in Hok. apply list_elem_of_In in Hi. specialize (Hok _ Hi). cbn in Hok.
  apply andb_true_iff in Hok as [Ha Hr]. apply neutral_app; [now apply neutral_atom | now apply neutral_repetition].
Qed.

(** The first character of an atom, and its length. *)
Lemma print_atom_shape a :
  exists c t, print_atom a = c :: t /\ (c = LPAREN \/ c = LANGLE \/ c = LBRACKET) /\ (1 <= length t)%nat.
Proof.
  destruct a; cbn [print_atom print_text]; eexists _, _; (split; [reflexivity |]); (split; [tauto |]);
    rewrite ?length_app; cbn; lia.
Qed.

Lemma starts_items items : starts_item (print items).
Proof.
  destruct items as [| [a r] items]; [exact I |]. cbn. unfold print_item. cbn [fst snd].
  destruct (print_atom_shape a) as (c & t & -> & Hc & _). exact Hc.
Qed.

(** ** The compilers on printed expressions *)

Section Compile.
Context `{RegexLib}.

Lemma compile_component_build text refs c refs' :
  build_component text refs = Some (c, refs') -> compile_component text refs = Ok (c, refs').
Proof.
  unfold build_component, compile_component. destruct (regex_new text); cbn; [| easy]. now intros [= <- <-].
Qed.

Lemma extractComponent_print pre text rest :
  text_ok text = true ->
  extractComponent (pre ++ print_text text ++ rest) (S (length pre)) = Ok (length pre + length (print_text text))%nat.
Proof.
  intros (Ht & _ & _)%text_ok_spec. unfold extractComponent, print_text. cbn [app]. rewrite drop_app_S, <- app_assoc.
  cbn [app]. rewrite close_neutral by easy. f_equal. cbn [length]. rewrite length_app. cbn. lia.
Qed.

Lemma compile_single text refs c refs' :
  text_ok text = true -> build_component text refs = Some (c, refs') ->
  compile_component_set (print_text text) refs = Ok (ComponentSet [c] true, refs').
Proof.
  intros Ht Hb. pose proof (extractComponent_print [] text [] Ht) as He. rewrite app_nil_r in He.
  cbn [length app] in He. unfold compile_component_set.
  assert (Hlen : length (print_text text) = (length text + 2)%nat).
  { unfold print_text. cbn [length]. rewrite length_app. cbn. lia. }
  rewrite Hlen, (proj2 (Nat.ltb_ge (length text + 2) 2)) by lia. change (char_at (print_text text) 0) with LANGLE.
  change (LANGLE =? LANGLE) with true. cbn match. unfold compileSingleComponent. rewrite He.
  cbn [mbind result_bind]. rewrite Nat.add_0_l, Nat.eqb_refl. cbn [negb].
  replace (substr (print_text text) 1 (length (print_text text) - 2)) with text.
  - rewrite (compile_component_build _ _ _ _ Hb). easy.
  - rewrite Hlen. replace (length text + 2 - 2)%nat with (length text) by lia. unfold print_text. now rewrite substr_cons.
Qed.

Lemma compile_multiple fuel pre texts refs cs refs' :
  forallb text_ok texts = true -> build_components texts refs = Some (cs, refs') -> (length texts <= fuel)%nat ->
  compileMultipleComponents fuel (pre ++ concat (map print_text texts) ++ [RBRACKET]) (length pre)
    (length pre + length (concat (map print_text texts))) refs = Ok (cs, refs').
Proof.
  revert fuel pre refs cs refs'. induction texts as [| text texts IH]; intros fuel pre refs cs refs' Hok Hb Hf.
  - cbn [map concat app length] in *. injection Hb as <- <-. destruct fuel; cbn [compileMultipleComponents];
      now rewrite Nat.add_0_r, Nat.ltb_irrefl, Nat.eqb_refl.
  - cbn [forallb] in Hok. apply andb_true_iff in Hok as [Ht Hok].
    cbn [build_components] in Hb. destruct (build_component text refs) as [[c refs1] |] eqn:Hc; [| easy].
    cbn [mbind option_bind] in Hb.
    destruct (build_components texts refs1) as [[cs1 refs2] |] eqn:Hcs; [| easy]. cbn in Hb. injection Hb as <- <-.
    destruct fuel as [| fuel]; [cbn in Hf; lia |]. cbn [compileMultipleComponents map concat].
    rewrite (proj2 (Nat.ltb_lt _ _)) by (unfold print_text; cbn [length app]; lia).
    rewrite <- app_assoc. rewrite extractComponent_print by easy.
    replace (char_at _ (length pre)) with LANGLE by (symmetry; apply char_at_app).
    cbn [negb Z.eqb Pos.eqb mbind result_bind].
    replace (substr _ (S (length pre)) _) with text; cycle 1.
    { unfold print_text at 1. cbn [app]. unfold substr. rewrite drop_app_S, <- app_assoc.
      replace (_ - _ - 1)%nat with (length text) by (unfold print_text; cbn [length]; rewrite length_app; cbn; lia).
      now rewrite take_app_length. }
    rewrite (compile_component_build _ _ _ _ Hc). cbn [mbind result_bind].
    rewrite app_assoc, length_app, Nat.add_assoc, <- length_app.
    rewrite (IH fuel (pre ++ print_text text) refs1 cs1 refs2) by (easy || (cbn in Hf; lia)). easy.
Qed.

Lemma texts_length texts : (length texts <= length (concat (map print_text texts)))%nat.
Proof.
  induction texts as [| t texts IH]; [easy |]. cbn [map concat length]. rewrite length_app.
  unfold print_text at 1. cbn [length]. lia.
Qed.

Lemma compile_set inclusion texts refs cs refs' :
  forallb text_ok texts = true -> build_components texts refs = Some (cs, refs') ->
  compile_component_set (print_atom (ASet inclusion texts)) refs = Ok (ComponentSet cs inclusion, refs').
Proof.
  intros Hok Hb. cbn [print_atom]. unfold compile_component_set.
  set (mark := if inclusion then [] else [CARET]). set (body := concat (map print_text texts)).
  assert (Hlen : length (LBRACKET :: (mark ++ body) ++ [RBRACKET]) = S (length (LBRACKET :: mark ++ body)))
    by (cbn [length]; rewrite !length_app; cbn; lia).
  rewrite Hlen. rewrite (proj2 (Nat.ltb_ge _ 2)) by (cbn; lia).
  change (char_at (LBRACKET :: (mark ++ body) ++ [RBRACKET]) 0) with LBRACKET.
  change (LBRACKET =? LANGLE) with false. change (LBRACKET =? LBRACKET) with true. cbn match.
  cbn [Nat.sub]. rewrite Nat.sub_0_r.
  replace (char_at _ (length (LBRACKET :: mark ++ body))) with RBRACKET
    by (symmetry; exact (char_at_app (LBRACKET :: mark ++ body) RBRACKET [])).
  change (negb (RBRACKET =? RBRACKET)) with false. cbn match.
  assert (Hex : (char_at (LBRACKET :: (mark ++ body) ++ [RBRACKET]) 1 =? CARET) = negb inclusion).
  { unfold mark, body. destruct inclusion; [| easy]. destruct texts; easy. }
  rewrite Hex, negb_involutive.
  pose proof (texts_length texts) as Htl. fold body in Htl.
  pose proof (compile_multiple (S (length (LBRACKET :: mark ++ body))) (LBRACKET :: mark) texts refs cs refs' Hok Hb)
    as Hm. fold body in Hm.
  replace ((LBRACKET :: mark) ++ body ++ [RBRACKET]) with (LBRACKET :: (mark ++ body) ++ [RBRACKET]) in Hm
    by (cbn; now rewrite <- app_assoc).
  replace (length (LBRACKET :: mark) + length body)%nat with (length (LBRACKET :: mark ++ body)) in Hm
    by (cbn; now rewrite length_app).
  replace (if negb inclusion then 2%nat else 1%nat) with (length (LBRACKET :: mark)) by (unfold mark; now destruct inclusion).
  rewrite Hm; [easy |]. cbn [length]. rewrite length_app. lia.
Qed.

Lemma build_group items refs :
  build_atom (AGroup items) refs = '(ms, refs') ← build items (S refs); Some (Backref refs [PatternList ms], refs').
Proof. reflexivity. Qed.

Lemma print_group items : print_atom (AGroup items) = LPAREN :: print items ++ [RPAREN].
Proof. reflexivity. Qed.

Lemma length_wrap (a b : Z) s : length (a :: s ++ [b]) = (length s + 2)%nat.
Proof. cbn [length]. rewrite length_app. cbn. lia. Qed.

Section Nested.
Context (comp : list Z -> nat -> result exn (list Matcher * nat)).

(** The compiler of a nested list reads back what is shorter than [n]. *)
Definition reads (n : nat) : Prop :=
  forall items refs ms refs', items_ok items = true -> (length (print items) < n)%nat ->
    build items refs = Some (ms, refs') -> comp (print items) refs = Ok (ms, refs').

Lemma compile_group items refs ms refs' n :
  reads n -> items_ok items = true -> (length (print items) < n)%nat -> build items (S refs) = Some (ms, refs') ->
  compile_backref comp (print_atom (AGroup items)) refs = Ok (Backref refs [PatternList ms], refs').
Proof.
  intros Hr Hok Hn Hb. rewrite print_group. unfold compile_backref. rewrite length_wrap.
  rewrite (proj2 (Nat.ltb_ge _ 2)) by lia. change (char_at (LPAREN :: print items ++ [RPAREN]) 0) with LPAREN.
  replace (length (print items) + 2 - 1)%nat with (length (LPAREN :: print items)) by (cbn; lia).
  replace (char_at _ (length (LPAREN :: print items))) with RPAREN
    by (symmetry; exact (char_at_app (LPAREN :: print items) RPAREN [])).
  change ((LPAREN =? LPAREN) && (RPAREN =? RPAREN)) with true. cbn match. cbn [length Nat.sub]. rewrite Nat.sub_0_r.
  now rewrite substr_cons, (Hr _ _ _ _ Hok Hn Hb).
Qed.

(** The matcher within a repetition. *)
Lemma compile_atom a refs m refs' n :
  reads n -> atom_ok a = true -> (length (print_atom a) <= n)%nat -> build_atom a refs = Some (m, refs') ->
  (if char_at (print_atom a) 0 =? LPAREN then compile_backref comp (print_atom a) refs
   else compile_component_set (print_atom a) refs) = Ok (m, refs').
Proof.
  intros Hr Hok Hn Hb. destruct a as [text | incl texts | items].
  - change (char_at (print_atom (AComponent text)) 0 =? LPAREN) with false. cbn [build_atom] in Hb.
    destruct (build_component text refs) as [[c refs1] |] eqn:Hc; [| easy]. cbn in Hb. injection Hb as <- <-.
    now apply compile_single.
  - change (char_at (print_atom (ASet incl texts)) 0 =? LPAREN) with false. cbn [build_atom] in Hb.
    destruct (build_components texts refs) as [[cs refs1] |] eqn:Hc; [| easy]. cbn in Hb. injection Hb as <- <-.
    now apply compile_set.
  - change (char_at (print_atom (AGroup items)) 0 =? LPAREN) with true. cbn match. rewrite build_group in Hb.
    destruct (build items (S refs)) as [[ms refs1] |] eqn:Hi; [| easy]. cbn in Hb. injection Hb as <- <-.
    apply (compile_group _ _ _ _ n); try easy. rewrite print_group, length_wrap in Hn. lia.
Qed.

Lemma compile_repeat_print a r refs m refs' n :
  reads n -> atom_ok a = true -> repetition_ok r = true -> (length (print_atom a) <= n)%nat ->
  build_atom a refs = Some (m, refs') ->
  compile_repeat comp (print_atom a ++ print_repetition r) (length (print_atom a)) refs =
    Ok (RepeatMatcher m (bounds r).1 (bounds r).2, refs').
Proof.
  intros Hr Ha Hrep Hn Hb. unfold compile_repeat.
  replace (substr _ 0 (length (print_atom a))) with (print_atom a) by (unfold substr; now rewrite drop_0, take_app_length).
  replace (char_at (print_atom a ++ _) 0) with (char_at (print_atom a) 0)
    by (destruct (print_atom_shape a) as (c & t & -> & _); reflexivity).
  rewrite (compile_atom _ _ _ _ _ Hr Ha Hn Hb). cbn [mbind result_bind].
  rewrite parseRepetition_print by easy. cbn [mbind result_bind]. now destruct (bounds r).
Qed.

(** Up to the bracket that closes an atom. *)
Lemma extract_atom pre a rest :
  atom_ok a = true ->
  exists c t, print_atom a = c :: t /\
    extractSubPattern c (if c =? LPAREN then RPAREN else if c =? LANGLE then RANGLE else RBRACKET)
      (pre ++ print_atom a ++ rest) (S (length pre)) = Ok (length pre + length (print_atom a))%nat.
Proof.
  assert (Hwrap : forall l r s, l <> r -> neutral l r s = true ->
    extractSubPattern l r (pre ++ (l :: s ++ [r]) ++ rest) (S (length pre)) = Ok (length pre + length (l :: s ++ [r]))%nat).
  { intros l r s Hlr Hs. unfold extractSubPattern. cbn [app]. rewrite drop_app_S, <- app_assoc. cbn [app].
    rewrite close_neutral, length_wrap by easy. f_equal. lia. }
  destruct a as [text | incl texts | items]; intros Hok.
  - apply text_ok_spec in Hok as (Ht & _ & _). eexists _, _. split; [reflexivity |]. apply (Hwrap LANGLE RANGLE); easy.
  - eexists _, _. split; [reflexivity |]. apply (Hwrap LBRACKET RBRACKET); [easy |]. apply neutral_app.
    + destruct incl; apply neutral_free; repeat constructor; easy.
    + apply neutral_texts; [| easy]. intros t (_ & Ht & _)%text_ok_spec. now apply neutral_around.
  - eexists _, _. split; [reflexivity |]. apply (Hwrap LPAREN RPAREN); [easy |]. now apply neutral_items.
Qed.

Lemma extractPattern_print pre x rest refs m refs' n :
  reads n -> atom_ok x.1 = true -> repetition_ok x.2 = true -> (length (print_atom x.1) <= n)%nat ->
  starts_item rest -> build_item build_atom x refs = Some (m, refs') ->
  extractPattern comp (pre ++ print_item x ++ rest) (length pre) refs =
    Ok (m, (length pre + length (print_item x))%nat, refs').
Proof.
  destruct x as [a r]. unfold print_item. cbn [fst snd]. intros Hr Ha Hrep Hn Hrest Hb. unfold build_item in Hb. cbn [fst snd] in Hb.
  destruct (build_atom a refs) as [[m1 refs1] |] eqn:Hba; [| easy]. cbn [mbind option_bind] in Hb.
  rewrite <- app_assoc. destruct (extract_atom pre a (print_repetition r ++ rest) Ha) as (c & t & Hshape & Hext).
  assert (Hend : extractRepetition (pre ++ print_atom a ++ print_repetition r ++ rest)
      (length pre + length (print_atom a)) = Ok (length pre + length (print_atom a ++ print_repetition r))%nat).
  { rewrite app_assoc, <- length_app, extractRepetition_print by easy. f_equal. rewrite !length_app. lia. }
  assert (Hsub : substr (pre ++ print_atom a ++ print_repetition r ++ rest) (length pre)
      (length pre + length (print_atom a ++ print_repetition r) - length pre) = print_atom a ++ print_repetition r).
  { replace (_ + _ - length pre)%nat with (length (print_atom a ++ print_repetition r)) by lia.
    now rewrite (app_assoc (print_atom a)), substr_app. }
  assert (Hrepeat := compile_repeat_print a r refs m1 refs1 n Hr Ha Hrep Hn Hba).
  unfold extractPattern.
  assert (Hc : char_at (pre ++ print_atom a ++ print_repetition r ++ rest) (length pre) = c)
    by (rewrite Hshape; apply char_at_app).
  rewrite Hc.
  destruct (print_atom_shape a) as (c' & t' & Hshape' & Hcase & _). rewrite Hshape in Hshape'.
  injection Hshape' as -> ->.
  assert (Hind : (length pre + length (print_atom a) - length pre = length (print_atom a))%nat) by lia.
  destruct Hcase as [-> | Hcase].
  - change (LPAREN =? LPAREN) with true in *. cbn match in *. rewrite Hext. cbn [mbind result_bind]. rewrite Hend. cbn [mbind result_bind].
    rewrite Hsub, Hind, Hrepeat.
    destruct a as [text | incl texts | items]; [easy | easy |].
    destruct r; try (rewrite (proj2 (Nat.eqb_neq _ _)) by (rewrite length_app; cbn; rewrite ?length_app; cbn; lia);
      cbn in Hb; injection Hb as <- <-; easy).
    cbn [print_repetition]. rewrite app_nil_r, Nat.eqb_refl. injection Hb as <- <-.
    rewrite build_group in Hba. destruct (build items (S refs)) as [[ms refs2] |] eqn:Hi; [| easy]. cbn in Hba. injection Hba as <- <-.
    rewrite (compile_group items refs ms refs2 n Hr Ha); [easy | | easy]. rewrite print_group, length_wrap in Hn. lia.
  - assert (Hx : (c' =? LPAREN) = false /\ (c' =? LANGLE) || (c' =? LBRACKET) = true /\
      match a with AGroup _ => False | _ => True end).
    { destruct Hcase as [-> | ->]; (split; [easy |]); (split; [easy |]); now destruct a. }
    destruct Hx as (Hx1 & Hx2 & Hx3). rewrite Hx1, Hx2 in *. rewrite Hext. cbn [mbind result_bind].
    rewrite Hend. cbn [mbind result_bind]. rewrite Hsub, Hind, Hrepeat.
    destruct a; [| | easy]; cbn in Hb; injection Hb as <- <-; easy.
Qed.
End Nested.

Lemma compile_from_print fuel pre items refs ms refs' :
  items_ok items = true -> (length (print items) <= fuel)%nat -> build items refs = Some (ms, refs') ->
  compile_from fuel (pre ++ print items) (length pre) refs = Ok (ms, refs').
Proof.
  revert pre items refs ms refs'. induction fuel as [fuel IH] using lt_wf_ind.
  intros pre [| x items] refs ms refs' Hok Hf Hb.
  - cbn in Hb. injection Hb as <- <-. change (print []) with (@nil Z). rewrite app_nil_r.
    destruct fuel; cbn [compile_from]; now rewrite Nat.ltb_irrefl.
  - cbn [items_ok forallb] in Hok. apply andb_true_iff in Hok as [Hx Hok]. apply andb_true_iff in Hx as [Ha Hr].
    change (print (x :: items)) with (print_item x ++ print items) in *. rewrite length_app in Hf.
    destruct (print_atom_shape x.1) as (c & t & Hshape & _ & Ht).
    assert (Hlen : length (print_item x) = (length (print_atom x.1) + length (print_repetition x.2))%nat)
      by (unfold print_item; now rewrite length_app).
    assert (Hatom : length (print_atom x.1) = S (length t)) by now rewrite Hshape.
    destruct fuel as [| fuel]; [lia |]. cbn [compile_from build] in *.
    rewrite (proj2 (Nat.ltb_lt _ _)) by (rewrite !length_app; lia).
    destruct (build_item build_atom x refs) as [[m refs1] |] eqn:Hb1; [| easy]. cbn [mbind option_bind] in Hb.
    destruct (build items refs1) as [[ms1 refs2] |] eqn:Hb2; [| easy]. cbn in Hb. injection Hb as <- <-.
    rewrite (extractPattern_print _ pre x (print items) refs m refs1 (S fuel)); try easy.
    + cbn [mbind result_bind]. rewrite app_assoc, <- length_app.
      rewrite (IH fuel (le_n _) (pre ++ print_item x) items refs1 ms1 refs2); [easy | easy | lia | easy].
    + intros items' refs0 ms0 refs0' Hok' Hl Hb'. apply (IH fuel (le_n _) [] items'); [easy | lia | easy].
    + lia.
    + apply starts_items.
Qed.

(** C24: Reading an expression back. The text of an expression is compiled to the matchers of its parts,
    numbered from left to right, with the repetitions as written. *)
Theorem compile_print items refs ms refs' :
  items_ok items = true -> build items refs = Some (ms, refs') -> compile_list (print items) refs = Ok (ms, refs').
Proof. intros Hok Hb. exact (compile_from_print _ [] items refs ms refs' Hok (le_n _) Hb). Qed.
End Compile.

(** ** The matchers of an expression *)

Lemma concat_lang_iff ls ls' w :
  Forall2 (fun l l' => forall v, l v <-> l' v) ls ls' -> concat_lang ls w <-> concat_lang ls' w.
Proof.
  intros Hall. revert w. induction Hall as [| l l' ls ls' Hl _ IH]; intros w; [easy |]. cbn [concat_lang].
  split; intros (u & v & Hw & Hu & Hv); exists u, v; (split; [easy |]); split; (now apply Hl) || now apply IH.
Qed.

(** The numbers [gs] are distinct, from [k] on and below [k']. *)
Definition numbered (k : nat) (gs : list nat) (k' : nat) : Prop :=
  (k <= k')%nat /\ NoDup gs /\ forall i, i ∈ gs -> (k <= i < k')%nat.

Lemma numbered_nil k : numbered k [] k.
Proof. split_and!; [lia | constructor |]. intros i Hi. now apply elem_of_nil in Hi. Qed.

Lemma numbered_app k gs1 k1 gs2 k2 : numbered k gs1 k1 -> numbered k1 gs2 k2 -> numbered k (gs1 ++ gs2) k2.
Proof.
  intros (Hk & Hn & Hr) (Hk' & Hn' & Hr'). split_and!; [lia | |].
  - apply NoDup_app. split_and!; [easy | | easy]. intros i Hi Hi'. specialize (Hr _ Hi). specialize (Hr' _ Hi'). lia.
  - intros i [Hi | Hi]%elem_of_app; [specialize (Hr _ Hi) | specialize (Hr' _ Hi)]; lia.
Qed.

Lemma numbered_seq k n : numbered k (seq k n) (k + n).
Proof. split_and!; [lia | apply NoDup_seq |]. intros i Hi%elem_of_seq. lia. Qed.

Lemma numbered_cons k gs k' : numbered (S k) gs k' -> numbered k (k :: gs) k'.
Proof.
  intros (Hk & Hn & Hr). split_and!; [lia | |].
  - constructor; [| easy]. intros Hi. specialize (Hr _ Hi). lia.
  - intros i [-> | Hi]%elem_of_cons; [lia |]. specialize (Hr _ Hi). lia.
Qed.

Section Build.
Context `{RegexLib}.

(** The matcher [m] stands for [l], and its groups are numbered from [k]. *)
Definition stands (k : nat) (m : Matcher) (k' : nat) (l : list Component -> Prop) : Prop :=
  numbered k (groups m) k' /\ bounded m /\ forall w, lang m w <-> l w.

Lemma build_components_stands texts k :
  forallb text_compiles texts = true ->
  exists cs k', build_components texts k = Some (cs, k') /\
    numbered k (concat (map (fun m => seq (firstRef_ m) (mark_count (componentRegex_ m))) cs)) k' /\
    forall c, existsb (fun m => accepts m c) cs = existsb (fun text => text_accepts text c) texts.
Proof.
  revert k. induction texts as [| text texts IH]; intros k Hc.
  - exists [], k. split_and!; [easy | apply numbered_nil | easy].
  - cbn [forallb] in Hc. apply andb_true_iff in Hc as [Ht Hc]. unfold text_compiles in Ht.
    destruct (regex_new text) as [r |] eqn:Hr; [| easy].
    destruct (IH (k + mark_count r)%nat Hc) as (cs & k' & Hb & Hn & He).
    exists (mkComponentMatcher text r k :: cs), k'. cbn [build_components]. unfold build_component. rewrite Hr.
    cbn [mbind option_bind]. rewrite Hb. split_and!; [easy | |].
    + cbn [map concat firstRef_ componentRegex_]. eapply numbered_app; [apply numbered_seq | exact Hn].
    + intros c. cbn [existsb]. rewrite He. f_equal. unfold accepts, text_accepts. cbn [expr_ componentRegex_].
      destruct text; [easy | now rewrite Hr].
Qed.

Lemma repeat_stands k m k' l range :
  stands k m k' l -> 0 <= range.1 -> stands k (RepeatMatcher m range.1 range.2) k' (repeated range l).
Proof.
  intros (Hn & Hb & Hl) Hr. split_and!; [exact Hn | now split |]. intros w. cbn [lang]. unfold repeated.
  assert (Hall : forall parts, Forall (lang m) parts <-> Forall l parts).
  { intros parts. rewrite !Forall_forall. naive_solver. }
  split; (intros [Hx | (Hw & parts & Hp & Hx)]; [now left | right; split; [easy |]; exists parts; split; [now apply Hall | easy]]).
Qed.

Lemma item_stands x k m k' :
  repetition_ok x.2 = true -> build_atom x.1 k = Some (m, k') -> stands k m k' (denotes x.1) ->
  exists m', build_item build_atom x k = Some (m', k') /\ stands k m' k' (item_lang denotes x).
Proof.
  intros Hr%repetition_range Hb Hs. unfold build_item. rewrite Hb. cbn [mbind option_bind].
  destruct x as [a r]. cbn [fst snd] in *.
  assert (Hrep : stands k (RepeatMatcher m (bounds r).1 (bounds r).2) k' (repeated (bounds r) (denotes a)))
    by (apply repeat_stands; [easy | lia]).
  destruct a; try (eexists; split; [reflexivity |]; exact Hrep).
  destruct r; (eexists; split; [reflexivity |]); assumption.
Qed.

Lemma build_stands items k :
  Forall (fun x => atom_ok x.1 = true -> atom_compiles x.1 = true -> forall k,
    exists m k', build_atom x.1 k = Some (m, k') /\ stands k m k' (denotes x.1)) items ->
  items_ok items = true -> items_compile items = true ->
  exists ms k', build items k = Some (ms, k') /\ stands k (PatternList ms) k' (items_denote items).
Proof.
  intros Hall. revert k. induction Hall as [| x items Hx _ IH]; intros k Hok Hc.
  - exists [], k. split; [easy |]. split_and!; [apply numbered_nil | exact I | easy].
  - cbn [items_ok items_compile forallb] in *. apply andb_true_iff in Hok as [Hok1 Hok]. apply andb_true_iff in Hok1 as [Ha Hr].
    apply andb_true_iff in Hc as [Hca Hc].
    destruct (Hx Ha Hca k) as (m1 & k1 & Hb1 & Hs1).
    destruct (item_stands x k m1 k1 Hr Hb1 Hs1) as (m & Hb & Hn & Hbd & Hl).
    destruct (IH k1 Hok Hc) as (ms & k2 & Hbs & Hns & Hbds & Hls).
    exists (m :: ms), k2. cbn [build]. rewrite Hb. cbn [mbind option_bind]. rewrite Hbs. split; [easy |].
    split_and!; [exact (numbered_app _ _ _ _ _ Hn Hns) | now split |].
    intros w. cbn [lang map concat_lang]. unfold items_denote. cbn [map concat_lang].
    split; intros (u & v & Hw & Hu & Hv); exists u, v; (split; [easy |]); (split; [now apply Hl | now apply Hls]).
Qed.

Lemma build_atom_stands a k :
  atom_ok a = true -> atom_compiles a = true ->
  exists m k', build_atom a k = Some (m, k') /\ stands k m k' (denotes a).
Proof.
  revert a k. apply (atom_induction (fun a => forall k, atom_ok a = true -> atom_compiles a = true ->
    exists m k', build_atom a k = Some (m, k') /\ stands k m k' (denotes a))).
  - intros text k _ Hc. destruct (build_components_stands [text] k) as (cs & k' & Hb & Hn & He); [cbn in *; now rewrite Hc |].
    cbn [build_components] in Hb. cbn [build_atom].
    destruct (build_component text k) as [[c k1] |]; [| easy]. cbn in Hb. injection Hb as <- <-.
    exists (ComponentSet [c] true), k1. split; [easy |]. split_and!; [exact Hn | exact I |].
    intros w. cbn [lang denotes]. split; intros (x & Hw & Hx); exists x; (split; [easy |]); specialize (He x); cbn in *;
      now rewrite !orb_false_r in *; congruence.
  - intros incl texts k _ Hc. destruct (build_components_stands texts k Hc) as (cs & k' & Hb & Hn & He).
    exists (ComponentSet cs incl), k'. cbn [build_atom]. rewrite Hb. split; [easy |]. split_and!; [exact Hn | exact I |].
    intros w. cbn [lang denotes]. split; intros (x & Hw & Hx); exists x; (split; [easy |]); specialize (He x); congruence.
  - intros items IH k Hok Hc.
    destruct (build_stands items (S k)) as (ms & k' & Hb & Hn & Hbd & Hl); [| exact Hok | exact Hc |].
    { eapply Forall_impl; [exact IH |]. intros x Hx Ha Hca k0. now apply Hx. }
    exists (Backref k [PatternList ms]), k'. rewrite build_group, Hb. split; [easy |]. split_and!.
    + cbn [groups map concat]. rewrite app_nil_r. now apply numbered_cons.
    + now split.
    + intros w. cbn [lang map concat_lang denotes]. split.
      * intros (u & v & -> & Hu & ->). rewrite app_nil_r. now apply Hl.
      * intros Hw. exists w, []. rewrite app_nil_r. split; [easy |]. split; [now apply Hl | easy].
Qed.

Lemma build_items_stands items k :
  items_ok items = true -> items_compile items = true ->
  exists ms k', build items k = Some (ms, k') /\ stands k (PatternList ms) k' (items_denote items).
Proof.
  intros. apply build_stands; try easy. apply Forall_forall. intros x _ Ha Hc k0. now apply build_atom_stands.
Qed.

(** The compiled list of an expression. *)
Lemma compile_list_stands items :
  items_ok items = true -> items_compile items = true ->
  exists ms n, compile_list (print items) 0 = Ok (ms, n) /\ stands 0 (PatternList ms) n (items_denote items).
Proof.
  intros Hok Hc. destruct (build_items_stands items 0 Hok Hc) as (ms & n & Hb & Hs). exists ms, n.
  split; [| easy]. exact (compile_from_print _ [] items 0 ms n Hok (le_n _) Hb).
Qed.
End Build.

(** ** The language of an expression

    The usual meaning of the syntax, with repetitions without a bound, and the expressions for which the
    matchers have it. *)

(** How many times a part may be repeated. *)
Definition times (r : Repetition) (n : Z) : Prop :=
  match r with
  | Once => n = 1
  | Optional => n <= 1
  | Plus => 1 <= n
  | Star => True
  | Exactly k => n = k
  | Between a b => a <= n <= b
  | AtLeast a => a <= n
  | AtMost b => n <= b
  end.

(** Whether an atom can match no components at all. *)
Fixpoint nullable (a : Atom) : bool :=
  match a with
  | AComponent _ | ASet _ _ => false
  | AGroup items => forallb (fun x => ((bounds x.2).1 <=? 0) || nullable x.1) items
  end.

(** No part that can match no components is to be repeated at least once. *)
Definition item_proper (atom_proper : Atom -> bool) (x : Atom * Repetition) : bool :=
  atom_proper x.1 &&
  match x.2 with Once => true | r => ((bounds r).1 <=? 0) || negb (nullable x.1) end.

Fixpoint atom_proper (a : Atom) : bool :=
  match a with
  | AComponent _ | ASet _ _ => true
  | AGroup items => forallb (item_proper atom_proper) items
  end.

Definition items_proper (items : Items) : bool := forallb (item_proper atom_proper) items.

Section Language.
Context `{RegexLib}.

(** A sequence that is cut into parts of [l], as many as [r] allows. *)
Definition repeats (r : Repetition) (l : list Component -> Prop) (w : list Component) : Prop :=
  exists parts, Forall l parts /\ w = concat parts /\ times r (Z.of_nat (length parts)).

Fixpoint language (a : Atom) (w : list Component) : Prop :=
  match a with
  | AComponent text => exists c, w = [c] /\ text_accepts text c = true
  | ASet inclusion texts => exists c, w = [c] /\ existsb (fun text => text_accepts text c) texts = inclusion
  | AGroup items => concat_lang (map (fun x => repeats x.2 (language x.1)) items) w
  end.

Definition items_language (items : Items) : list Component -> Prop :=
  concat_lang (map (fun x => repeats x.2 (language x.1)) items).

(** Parts that are empty can be left out, down to any number of parts. *)
Lemma fewer_parts (l : list Component -> Prop) parts mn :
  Forall l parts -> (mn <= length parts)%nat ->
  exists parts', Forall l parts' /\ concat parts' = concat parts /\
    (mn <= length parts' <= length parts)%nat /\ (length parts' <= Nat.max mn (length (concat parts)))%nat.
Proof.
  intros Hall. revert mn. induction Hall as [| p parts Hp Hall IH]; intros mn Hmn.
  { exists []. cbn in *. repeat split; (constructor || lia). }
  cbn [length] in Hmn. destruct (decide (p = [])) as [-> | Hne].
  - destruct (decide (mn <= length parts)%nat) as [Hle | Hgt].
    + destruct (IH mn Hle) as (ps & Hps & Hc & Hn & Hm). exists ps. cbn [concat app length]. repeat split; easy || lia.
    + exists ([] :: parts). cbn [concat app length]. repeat split; [now constructor | lia ..].
  - destruct (IH (pred mn)) as (ps & Hps & Hc & Hn & Hm); [lia |]. exists (p :: ps). cbn [concat length].
    rewrite Hc, length_app. assert (length p <> 0%nat) by now destruct p. repeat split; [now constructor | lia ..].
Qed.

Lemma times_bounds r n : repetition_ok r = true -> (bounds r).1 <= n <= (bounds r).2 -> times r n.
Proof. intros Hr%repetition_range. destruct r; cbn [bounds fst snd times] in *; lia. Qed.

Lemma times_least r n : 0 <= n -> times r n -> (bounds r).1 <= n.
Proof. destruct r; cbn [bounds fst snd times]; lia. Qed.

Lemma times_most r n m :
  repetition_ok r = true -> times r n -> m <= n -> m <= Z.max (bounds r).1 MAX_REPETITIONS -> m <= (bounds r).2.
Proof. intros Hr%repetition_range. destruct r; cbn [bounds fst snd times] in *; lia. Qed.

Lemma repeats_bounds r l w :
  repetition_ok r = true -> zlen w <= MAX_REPETITIONS -> repeats r l w ->
  exists parts, Forall l parts /\ w = concat parts /\ (bounds r).1 <= Z.of_nat (length parts) <= (bounds r).2.
Proof.
  intros Hr Hw (parts & Hall & -> & Ht). pose proof (repetition_range r Hr) as Hrange.
  pose proof (times_least r _ (Nat2Z.is_nonneg _) Ht) as Hleast.
  destruct (fewer_parts l parts (Z.to_nat (bounds r).1) Hall) as (ps & Hps & Hc & Hn & Hm); [lia |].
  exists ps. split; [easy |]. split; [easy |]. split; [lia |]. apply (times_most r (zlen parts)); (easy || lia).
Qed.

(** The repetition of the matchers is the one of the language, but for the empty sequence as
    repetitions of itself. *)
Lemma repeated_repeats r (l l' : list Component -> Prop) w :
  repetition_ok r = true -> zlen w <= MAX_REPETITIONS ->
  (forall v, zlen v <= MAX_REPETITIONS -> l v -> l' v) ->
  repeated (bounds r) l w -> repeats r l' w.
Proof.
  intros Hr Hw Hl [[-> H0] | (_ & parts & Hall & -> & Hn)].
  - exists []. split; [constructor |]. split; [easy |]. apply times_bounds; [easy |].
    apply repetition_range in Hr. cbn. lia.
  - exists parts. split; [| split; [easy | now apply times_bounds]].
    clear Hn. induction Hall as [| p parts Hp Hall IH]; [constructor |]. cbn in Hw. rewrite length_app in Hw.
    constructor; [apply Hl; [lia | easy] | apply IH; lia].
Qed.

Lemma repeats_repeated r (l l' : list Component -> Prop) w :
  repetition_ok r = true -> zlen w <= MAX_REPETITIONS ->
  (forall v, zlen v <= MAX_REPETITIONS -> l v -> l' v) -> ((bounds r).1 <= 0 \/ ~ l []) ->
  repeats r l w -> repeated (bounds r) l' w.
Proof.
  intros Hr Hw Hl Hnull Hrep. pose proof (repetition_range r Hr) as Hrange.
  destruct (repeats_bounds r l w Hr Hw Hrep) as (parts & Hall & -> & Hn).
  assert (Hall' : Forall l' parts).
  { clear Hn Hrep Hnull. induction Hall as [| p parts Hp Hall IH]; [constructor |]. cbn in Hw. rewrite length_app in Hw.
    constructor; [apply Hl; [lia | easy] | apply IH; lia]. }
  destruct (decide (concat parts = [])) as [He | Hne]; [left | right; split; [easy |]; now exists parts].
  split; [easy |]. destruct Hnull as [H0 | Hnil]; [lia |]. destruct parts as [| p parts]; [cbn in Hn; lia |].
  apply app_nil in He as [-> _]. now apply Forall_cons in Hall as [? _].
Qed.

Lemma concat_lang_impl {X} (f g : X -> list Component -> Prop) xs w :
  Forall (fun x => forall v, zlen v <= MAX_REPETITIONS -> f x v -> g x v) xs ->
  zlen w <= MAX_REPETITIONS -> concat_lang (map f xs) w -> concat_lang (map g xs) w.
Proof.
  intros Hall. revert w. induction Hall as [| x xs Hx _ IH]; intros w Hw; [easy |]. cbn [map concat_lang].
  intros (u & v & -> & Hu & Hv). rewrite length_app in Hw. exists u, v. split; [easy |].
  split; [apply Hx; [lia | easy] | apply IH; [lia | easy]].
Qed.

(** What the matchers accept is in the language. *)
Lemma item_lang_language x v :
  repetition_ok x.2 = true -> zlen v <= MAX_REPETITIONS ->
  (forall u, zlen u <= MAX_REPETITIONS -> denotes x.1 u -> language x.1 u) ->
  item_lang denotes x v -> repeats x.2 (language x.1) v.
Proof.
  intros Hr Hv Ha Hx. destruct x as [a r]. cbn [fst snd] in *.
  assert (Hcase : repeated (bounds r) (denotes a) v \/ (r = Once /\ denotes a v)) by (destruct a, r; auto).
  destruct Hcase as [Hrep | [-> Hd]]; [now apply repeated_repeats with (denotes a) |].
  exists [v]. split; [| cbn; now rewrite app_nil_r]. constructor; [now apply Ha | constructor].
Qed.

Lemma denotes_language a w :
  atom_ok a = true -> zlen w <= MAX_REPETITIONS -> denotes a w -> language a w.
Proof.
  revert a w. refine (atom_induction (fun a => forall w, _ -> _ -> _ -> _) _ _ _); [easy | easy |].
  intros items IH w Hok Hw. cbn [denotes language atom_ok] in *. apply concat_lang_impl; [| easy].
  rewrite forallb_forall in Hok. rewrite Forall_forall in *. intros x Hx v Hv.
  specialize (Hok x ltac:(now apply list_elem_of_In)). apply andb_true_iff in Hok as [Ha Hr].
  apply item_lang_language; [easy | easy |]. intros u Hu. now apply IH.
Qed.

Lemma items_denote_language items w :
  items_ok items = true -> zlen w <= MAX_REPETITIONS -> items_denote items w -> items_language items w.
Proof. exact (denotes_language (AGroup items) w). Qed.

(** Only a nullable atom has the empty sequence in its language. *)
Lemma language_nil a : language a [] -> nullable a = true.
Proof.
  revert a. apply (atom_induction (fun a => language a [] -> nullable a = true)).
  - intros text (c & Hc & _). discriminate.
  - intros inclusion texts (c & Hc & _). discriminate.
  - intros items IH. cbn [language nullable]. induction IH as [| x items Hx _ IHi]; [easy |]. cbn [map concat_lang forallb].
    intros (u & v & Huv & (parts & Hall & -> & Ht) & Hv). symmetry in Huv. apply app_nil in Huv as [Hu ->].
    rewrite (IHi Hv), andb_true_r, orb_true_iff, Z.leb_le. destruct parts as [| p parts].
    + left. now apply times_least in Ht.
    + right. apply Hx. apply app_nil in Hu as [-> _]. now apply Forall_cons in Hall as [? _].
Qed.

(** The language of a proper expression is what the matchers accept. *)
Lemma item_language_lang x v :
  repetition_ok x.2 = true -> item_proper atom_proper x = true -> zlen v <= MAX_REPETITIONS ->
  (forall u, atom_proper x.1 = true -> zlen u <= MAX_REPETITIONS -> language x.1 u -> denotes x.1 u) ->
  repeats x.2 (language x.1) v -> item_lang denotes x v.
Proof.
  intros Hr Hp Hv Ha Hx. destruct x as [a r]. unfold item_proper in Hp. cbn [fst snd] in *.
  apply andb_true_iff in Hp as [Hp Hnull].
  destruct (decide (nullable a = true /\ 1 <= (bounds r).1)) as [[Hn Hb] | Hno].
  - destruct r; cbn [bounds fst] in *; rewrite ?Hn, ?orb_false_r, ?Z.leb_le in Hnull; try (discriminate || lia).
    destruct a as [| | items]; [discriminate .. |]. cbn [item_lang]. destruct Hx as (parts & Hall & -> & Ht).
    destruct parts as [| p [| q parts]]; cbn in Ht; try lia. cbn [concat] in *. rewrite app_nil_r in *.
    apply Forall_cons in Hall as [Hall _]. exact (Ha p Hp Hv Hall).
  - assert (Hrep : repeated (bounds r) (denotes a) v).
    { apply repeats_repeated with (language a); [easy | easy | intros u; now apply Ha | | easy].
      destruct (decide ((bounds r).1 <= 0)); [now left | right]. intros Hl%language_nil. apply Hno. split; [easy | lia]. }
    destruct a as [| | items], r; try exact Hrep. cbn [item_lang]. destruct Hx as (parts & Hall & -> & Ht).
    destruct parts as [| p [| q parts]]; cbn in Ht; try lia. cbn [concat] in *. rewrite app_nil_r in *.
    apply Forall_cons in Hall as [Hall _]. exact (Ha p Hp Hv Hall).
Qed.

Lemma language_denotes a w :
  atom_ok a = true -> atom_proper a = true -> zlen w <= MAX_REPETITIONS -> language a w -> denotes a w.
Proof.
  revert a w. refine (atom_induction (fun a => forall w, _ -> _ -> _ -> _ -> _) _ _ _); [easy | easy |].
  intros items IH w Hok Hp Hw. cbn [denotes language atom_ok atom_proper] in *. apply concat_lang_impl; [| easy].
  rewrite forallb_forall in Hok, Hp. rewrite Forall_forall in *. intros x Hx v Hv.
  assert (Hin : List.In x items) by now apply list_elem_of_In.
  specialize (Hok x Hin). apply andb_true_iff in Hok as [Ha Hr].
  apply item_language_lang; [easy | now apply Hp | easy |]. intros u Hu Hlen. now apply IH.
Qed.

Lemma items_language_denote items w :
  items_ok items = true -> items_proper items = true -> zlen w <= MAX_REPETITIONS ->
  items_language items w -> items_denote items w.
Proof. exact (language_denotes (AGroup items) w). Qed.
End Language.

(** ** The top matcher *)

Section Top.
Context `{RegexLib}.

Lemma stands_runs m n l name refs :
  stands 0 m n l -> length refs = n ->
  exists refs' b, match_ m name 0 (length name) refs = (refs', [], Ok b) /\ length refs' = n /\ (b = true <-> l name).
Proof.
  intros ((_ & Hnd & Hr) & Hb & Hl) Hlen.
  destruct (as_runs _ _ _ _ _ (matcher_as name m Hnd Hb) 0%nat (length name) (le_n _) refs) as (refs' & b & He & Hlen' & _ & Hres).
  { apply Forall_forall. intros i Hi. specialize (Hr i Hi). lia. }
  exists refs', b. split; [easy |]. split; [lia |]. rewrite <- Hl.
  replace (slice name 0 (length name)) with name in Hres by (unfold slice; cbn; now rewrite firstn_all).
  destruct b; [| naive_solver]. now destruct Hres.
Qed.

(** A top matcher, in any state, whose two matchers stand for [l1] and for [l2]. *)
Definition ready (m : TopMatcher) (l1 : list Component -> Prop) (l2 : option (list Component -> Prop)) : Prop :=
  stands 0 (primaryMatcher_ m) (length (primaryRefs_ m)) l1 /\
  match secondaryMatcher_ m, l2 with
  | None, None => True
  | Some s, Some l => stands 0 s (length (secondaryRefs_ m)) l
  | _, _ => False
  end.

Lemma top_match_ready m l1 l2 name :
  ready m l1 l2 ->
  exists m' b, top_match m name = (m', Ok b) /\ ready m' l1 l2 /\
    (b = true <-> l1 name \/ match l2 with Some l => l name | None => False end).
Proof.
  intros [H1 H2]. unfold top_match.
  destruct (stands_runs _ _ _ name _ H1 eq_refl) as (refs1 & b1 & -> & Hl1 & Hb1). unfold ready.
  destruct b1.
  - eexists _, true. split; [reflexivity |]. cbn. rewrite Hl1. split; [easy | tauto].
  - destruct (secondaryMatcher_ m) as [s |], l2 as [l |]; try easy.
    + destruct (stands_runs _ _ _ name _ H2 eq_refl) as (refs2 & b2 & -> & Hl2 & Hb2).
      eexists _, b2. split; [reflexivity |]. cbn. rewrite Hl1, Hl2. split; [easy |]. naive_solver.
    + eexists _, false. split; [reflexivity |]. cbn. rewrite Hl1. split; [easy |]. naive_solver.
Qed.

(** [.*] accepts every component: no line ends occur in escaped text. *)
Definition any_text : Prop :=
  exists r, regex_new (chars ".*") = Some r /\ forall c, component_ok c -> regex_match r (escaped c) <> None.

Definition anything : Atom * Repetition := (AComponent (chars ".*"), Star).

Lemma print_anything items : any_components ++ print items = print (anything :: items).
Proof. reflexivity. Qed.

Lemma print_app items items' : print (items ++ items') = print items ++ print items'.
Proof. unfold print. now rewrite map_app, concat_app. Qed.

Lemma anything_lang w :
  any_text -> Forall component_ok w -> zlen w <= MAX_REPETITIONS -> item_lang denotes anything w.
Proof.
  intros (r & Hr & Hm) Hok Hlen. destruct w as [| c w]; [now left |]. right. split; [easy |].
  exists (map (fun c => [c]) (c :: w)). split_and!.
  - apply Forall_forall. intros p (x & -> & Hx)%list_elem_of_fmap. exists x. split; [easy |].
    unfold text_accepts. change (chars ".*") with [46; 42] in *. rewrite Hr.
    specialize (Hm x (proj1 (Forall_forall _ _) Hok x Hx)). now destruct (regex_match r (escaped x)).
  - clear. induction (c :: w) as [| x l IH]; [easy |]. cbn. now rewrite <- IH.
  - cbn [bounds fst]. lia.
  - rewrite length_map. exact Hlen.
Qed.

Lemma concat_lang_app ls ls' w :
  concat_lang (ls ++ ls') w <-> exists u v, w = u ++ v /\ concat_lang ls u /\ concat_lang ls' v.
Proof.
  revert w. induction ls as [| l ls IH]; intros w; cbn [app concat_lang].
  - split; [intros Hw; now exists [], w | now intros (u & v & -> & -> & Hv)].
  - split.
    + intros (u & v & -> & Hu & (v1 & v2 & -> & H1 & H2)%IH). exists (u ++ v1), v2. rewrite app_assoc.
      split; [easy |]. split; [| easy]. now exists u, v1.
    + intros (u & v & -> & (u1 & u2 & -> & H1 & H2) & Hv). exists u1, (u2 ++ v). rewrite app_assoc.
      split; [easy |]. split; [easy |]. apply IH. now exists u2, v.
Qed.

(** The last character of an expression is not an anchor. *)
Lemma last_print items : items <> [] -> exists s c, print items = s ++ [c] /\ c <> DOLLAR.
Proof.
  intros Hne. destruct (exists_last Hne) as (init & [a r] & ->). rewrite print_app. unfold print at 2. cbn [map concat].
  rewrite app_nil_r. unfold print_item. cbn [fst snd].
  assert (Ha : exists s c, print_atom a = s ++ [c] /\ c <> DOLLAR).
  { destruct a as [text | incl texts | sub]; cbn [print_atom]; unfold print_text;
      eexists (_ :: _), _; (split; [reflexivity | easy]). }
  destruct Ha as (s & c & -> & Hc). destruct r; cbn [print_repetition];
    rewrite ?app_nil_r, ?(app_assoc [LBRACE]), ?app_assoc; eexists _, _; (split; [reflexivity | easy]).
Qed.

Definition top_text (start stop : bool) (items : Items) : list Z :=
  (if start then [CARET] else []) ++ print items ++ (if stop then [DOLLAR] else []).

(** The expression of the primary matcher. *)
Definition extended (stop : bool) (items : Items) : Items := items ++ (if stop then [] else [anything]).

Lemma print_no_caret items : (char_at (print items) 0 =? CARET) = false.
Proof.
  pose proof (starts_items items) as Hs. destruct (print items) as [| c t]; [easy |].
  cbn in Hs. unfold char_at. cbn. now destruct Hs as [-> | [-> | ->]].
Qed.

Lemma top_text_end (start stop : bool) items :
  start || stop || negb (bool_decide (items = [])) = true ->
  exists c, last (top_text start stop items) = Some c /\
    (if negb (c =? DOLLAR) then top_text start stop items ++ any_components else removelast (top_text start stop items)) =
    (if start then [CARET] else []) ++ print (extended stop items).
Proof.
  intros Hne. unfold top_text, extended. rewrite print_app. destruct stop.
  - exists DOLLAR. change (print []) with (@nil Z). rewrite app_nil_r, app_assoc, last_snoc, Z.eqb_refl. cbn [negb].
    now rewrite removelast_last.
  - rewrite app_nil_r. change (print [anything]) with any_components. destruct (decide (items = [])) as [-> | Hi].
    + destruct start; [| easy]. now exists CARET.
    + destruct (last_print items Hi) as (s & c & -> & Hc). exists c. rewrite !app_assoc, last_snoc.
      rewrite (proj2 (Z.eqb_neq c DOLLAR)) by easy. easy.
Qed.

Lemma TopMatcher_new_ready (start stop : bool) items expand :
  items_ok items = true -> items_compile items = true -> any_text ->
  start || stop || negb (bool_decide (items = [])) = true ->
  exists m, TopMatcher_new (top_text start stop items) expand = Ok m /\
    ready m (items_denote (extended stop items))
      (if start then None else Some (items_denote (anything :: extended stop items))).
Proof.
  intros Hok Hc (r & Hr & _) Hne. destruct (top_text_end start stop items Hne) as (c & Hlast & Hexpr).
  unfold TopMatcher_new. rewrite Hlast, Hexpr. clear Hlast Hexpr c Hne.
  assert (Hany : items_ok [anything] = true /\ items_compile [anything] = true).
  { split; [easy |]. unfold items_compile, anything, text_compiles. cbn [forallb atom_compiles fst]. unfold text_compiles. now rewrite Hr. }
  assert (Hok' : items_ok (extended stop items) = true /\ items_compile (extended stop items) = true).
  { unfold extended, items_ok, items_compile in *. rewrite !forallb_app, Hok, Hc. destruct stop; [easy |].
    destruct Hany as [Ha Hb]. now rewrite Ha, Hb. }
  destruct (compile_list_stands (extended stop items)) as (ms & n & Hms & Hs); [easy | easy |].
  destruct start.
  - change (char_at ([CARET] ++ print (extended stop items)) 0) with CARET. change (negb (CARET =? CARET)) with false. cbn match.
    cbn [mbind result_bind mret result_ret]. change (drop 1 ([CARET] ++ print (extended stop items))) with (print (extended stop items)).
    rewrite Hms. eexists. split; [reflexivity |]. split; cbn; [now rewrite length_replicate | easy].
  - cbn [app]. rewrite print_no_caret. cbn [negb]. rewrite print_anything.
    destruct (compile_list_stands (anything :: extended stop items)) as (ms2 & n2 & Hms2 & Hs2).
    { destruct Hok' as [Ho _]. unfold items_ok in *. cbn [forallb]. now rewrite Ho. }
    { destruct Hok' as [_ Ho], Hany as [_ Ha]. unfold items_compile in *. cbn [forallb] in *.
      now rewrite Ho, andb_true_r in *. }
    rewrite Hms2. cbn [mbind result_bind mret result_ret]. rewrite Hms. eexists. split; [reflexivity |].
    split; cbn; now rewrite length_replicate.
Qed.

(** A matcher that has been used for [names] before. *)
Definition used (m : TopMatcher) (names : list Name) : TopMatcher := fold_left (fun m n => (top_match m n).1) names m.

Lemma used_ready m l1 l2 names : ready m l1 l2 -> ready (used m names) l1 l2.
Proof.
  revert m. induction names as [| n names IH]; intros m Hm; [easy |]. cbn. apply IH.
  destruct (top_match_ready m l1 l2 n Hm) as (m' & b & -> & Hm' & _). exact Hm'.
Qed.

Lemma extended_denote stop items w :
  any_text -> Forall component_ok w -> zlen w <= MAX_REPETITIONS ->
  items_denote (extended stop items) w <-> exists u v, w = u ++ v /\ items_denote items u /\ (stop = true -> v = []).
Proof.
  intros Hany Hok Hlen. unfold extended, items_denote. rewrite map_app, concat_lang_app.
  split; intros (u & v & -> & Hu & Hv); exists u, v; (split; [easy |]); (split; [easy |]).
  - intros ->. exact Hv.
  - destruct stop; [now apply Hv |]. exists v, []. rewrite app_nil_r. split; [easy |]. split; [| easy].
    apply Forall_app in Hok as [_ Hok]. rewrite length_app in Hlen. apply anything_lang; [easy | easy | lia].
Qed.

(** [match] in terms of what the matchers accept. *)
Lemma top_match_denotes (start stop : bool) items expand names name :
  items_ok items = true -> items_compile items = true -> any_text ->
  start || stop || negb (bool_decide (items = [])) = true ->
  Forall component_ok name -> zlen name <= MAX_REPETITIONS ->
  exists m m' b, TopMatcher_new (top_text start stop items) expand = Ok m /\
    top_match (used m names) name = (m', Ok b) /\
    (b = true <-> exists u v w, name = u ++ v ++ w /\ items_denote items v /\
       (start = true -> u = []) /\ (stop = true -> w = [])).
Proof.
  intros Hok Hc Hany Hne Hname Hlen. destruct (TopMatcher_new_ready start stop items expand Hok Hc Hany Hne) as (m & Hm & Hr).
  destruct (top_match_ready _ _ _ name (used_ready m _ _ names Hr)) as (m' & b & He & _ & Hb).
  exists m, m', b. split; [easy |]. split; [easy |]. rewrite Hb, extended_denote by easy. destruct start.
  - split.
    + intros [(u & v & -> & Hu & Hv) | []]. exists [], u, v. naive_solver.
    + intros (u & v & w & -> & Hv & Hu & Hw). left. rewrite (Hu eq_refl). now exists v, w.
  - split.
    + intros [(u & v & -> & Hu & Hv) | (x & y & -> & Hx & Hy)]; [exists [], u, v; naive_solver |].
      apply Forall_app in Hname as [Hx' Hy']. rewrite length_app in Hlen.
      apply extended_denote in Hy as (u & v & -> & Hu & Hv); [exists x, u, v; naive_solver | easy | easy | lia].
    + intros (u & v & w & -> & Hv & _ & Hw). right. apply Forall_app in Hname as [Hu' Hy'].
      rewrite length_app in Hlen. exists u, (v ++ w). split; [easy |]. split; [apply anything_lang; auto; lia |].
      apply extended_denote; [easy | easy | lia |]. now exists v, w.
Qed.

(** C23: What an expression matches. The text of an expression with [^] or [$] or without them makes a
    matcher; whatever names it was used for before, [match] does not fail. A name (of at most 32767 components)
    that matches has a part in the language of the expression, the part starting at the start of the name when
    there is a [^] and ending at its end when there is a [$]; the language is the usual one, with [+], [*]
    and [{n,}] without an upper bound. Conversely a name with such a part matches, when the expression does not
    ask for at least one repetition of a part that can match no components ([items_proper]); such a repetition,
    as [+] of a group that ends in a star, does not match the empty sequence, which the language allows.
    The library of regular expressions is assumed to have those of the components and one
    of the text of [anything] that accepts all components. *)
Theorem top_match_names (start stop : bool) items expand names name :
  items_ok items = true -> items_compile items = true -> any_text ->
  start || stop || negb (bool_decide (items = [])) = true ->
  Forall component_ok name -> zlen name <= MAX_REPETITIONS ->
  let part_in_language := exists u v w, name = u ++ v ++ w /\ items_language items v /\
       (start = true -> u = []) /\ (stop = true -> w = []) in
  exists m m' b, TopMatcher_new (top_text start stop items) expand = Ok m /\
    top_match (used m names) name = (m', Ok b) /\
    (b = true -> part_in_language) /\ (items_proper items = true -> part_in_language -> b = true).
Proof.
  intros Hok Hc Hany Hne Hname Hlen part.
  destruct (top_match_denotes start stop items expand names name) as (m & m' & b & Hm & He & Hb); try easy.
  exists m, m', b. split; [easy |]. split; [easy |]. rewrite Hb. unfold part.
  split; [| intros Hp]; intros (u & v & w & -> & Hv & Huw); exists u, v, w; (split; [easy |]); (split; [| easy]);
    rewrite !length_app in Hlen.
  - apply items_denote_language; [easy | lia | easy].
  - apply items_language_denote; [easy | easy | lia | easy].
Qed.

(** *** The expression of a name *)

(** The text of a component, with its special characters escaped, accepts just that component. *)
Definition literal_text : Prop :=
  forall c, component_ok c -> exists r, regex_new (convertSpecialChar (escaped c)) = Some r /\
    forall c', component_ok c' -> ((exists x, regex_match r (escaped c') = Some x) <-> escaped c' = escaped c).

Definition name_items (name : Name) : Items := map (fun c => (AComponent (convertSpecialChar (escaped c)), Once)) name.

Lemma escaped_text c : component_ok c -> escaped c = component_text false c.
Proof.
  intros Hc. unfold escaped. change empty_stream with (stream_at [] false).
  now rewrite component_toEscapedString_eq by apply Hc.
Qed.

Lemma convert_ok c : component_ok c -> text_ok (convertSpecialChar (escaped c)) = true.
Proof.
  intros Hc. rewrite escaped_text by easy. pose proof (component_text_chars false c Hc) as Hch.
  assert (Hfree : Forall (fun b => (b < 40 \/ 41 < b) /\ b <> 60 /\ b <> 62 /\ b <> 91 /\ b <> 93)
    (convertSpecialChar (component_text false c))).
  { unfold convertSpecialChar. induction Hch as [| b s Hb _ IH]; [constructor |]. cbn [map concat].
    apply Forall_app. split; [| exact IH].
    assert (Hx : (b < 40 \/ 41 < b) /\ b <> 60 /\ b <> 62 /\ b <> 91 /\ b <> 93)
      by (destruct Hb as [[Hb%is_unescaped_spec | ->] | ->]; lia).
    destruct (is_special b); repeat (apply List.Forall_cons; [lia |]); constructor. }
  apply text_ok_spec. split_and!; apply neutral_free; eapply Forall_impl; try exact Hfree; cbn; intros b Hb; lia.
Qed.

Lemma convert_nonempty c : component_ok c -> convertSpecialChar (escaped c) <> [].
Proof.
  intros Hc. rewrite escaped_text by easy. pose proof (component_text_nonempty false c Hc).
  destruct (component_text false c) as [| b s]; [easy |]. cbn. now destruct (is_special b).
Qed.

Lemma escaped_inj c c' :
  component_ok c -> component_ok c' -> digest_ok c -> digest_ok c' -> escaped c = escaped c' -> c = c'.
Proof.
  intros Hc Hc' Hd Hd' He. rewrite !escaped_text in He by easy.
  assert (Hp := parse_component_text false c Hc Hd ltac:(easy)).
  assert (Hp' := parse_component_text false c' Hc' Hd' ltac:(easy)). rewrite He in Hp. congruence.
Qed.

Lemma text_accepts_literal c c' :
  literal_text -> component_ok c -> component_ok c' -> digest_ok c -> digest_ok c' ->
  text_accepts (convertSpecialChar (escaped c)) c' = true <-> c' = c.
Proof.
  intros Hlit Hc Hc' Hd Hd'. destruct (Hlit c Hc) as (r & Hr & Hm). specialize (Hm c' Hc').
  pose proof (convert_nonempty c Hc) as Hne. unfold text_accepts. rewrite Hr.
  destruct (convertSpecialChar (escaped c)) as [| b s]; [easy |]. split.
  - intros Ha. apply escaped_inj; try easy. apply Hm. destruct (regex_match r (escaped c')) as [x |]; [now exists x | easy].
  - intros ->. destruct (proj2 Hm eq_refl) as [x ->]. easy.
Qed.

Lemma name_items_denote name v :
  literal_text -> Forall component_ok name -> Forall digest_ok name -> Forall component_ok v -> Forall digest_ok v ->
  items_denote (name_items name) v <-> v = name.
Proof.
  intros Hlit Hok Hd. revert v. induction Hok as [| c name Hc Hok IH]; intros v Hvok Hvd; [easy |].
  apply Forall_cons in Hd as [Hcd Hd]. unfold items_denote. cbn [name_items map concat_lang]. split.
  - intros (u & w & -> & Hu & Hw). apply Forall_app in Hvok as [Huok Hwok], Hvd as [Hud Hwd].
    apply IH in Hw as ->; [| easy | easy | easy]. destruct Hu as [[_ Hu] | (_ & parts & Hp & -> & Hn)]; [easy |].
    destruct parts as [| p [| q parts]]; [cbn in Hn; lia | | cbn [bounds fst snd length] in Hn; lia].
    apply Forall_singleton in Hp as (x & -> & Hx). cbn [concat app] in *. rewrite Forall_singleton in Huok, Hud.
    now apply text_accepts_literal in Hx as ->.
  - intros ->. apply Forall_cons in Hvok as [_ Hvok], Hvd as [_ Hvd]. exists [c], name. split; [easy |].
    split; [| now apply IH]. right. split; [easy |]. exists [[c]]. split_and!; try easy.
    apply Forall_singleton. exists c. split; [easy |]. now apply text_accepts_literal.
Qed.

(** The expression of a name. The matcher that fromName makes matches exactly the names that start with
    the name, and only the name itself when it is anchored. *)
Theorem fromName_matches prefix (hasAnchor : bool) names name :
  any_text -> literal_text -> Forall component_ok prefix -> Forall digest_ok prefix ->
  Forall component_ok name -> Forall digest_ok name -> zlen name <= MAX_REPETITIONS ->
  exists m m' b, fromName prefix hasAnchor = Ok m /\ top_match (used m names) name = (m', Ok b) /\
    (b = true <-> if hasAnchor then name = prefix else exists rest, name = prefix ++ rest).
Proof.
  intros Hany Hlit Hp Hpd Hn Hnd Hlen.
  assert (Htext : fromName prefix hasAnchor = TopMatcher_new (top_text true hasAnchor (name_items prefix)) []).
  { unfold fromName, top_text, name_items, print. rewrite map_map. unfold print_item. cbn [fst snd print_repetition print_atom].
    do 4 f_equal. apply map_ext. intros c. now rewrite app_nil_r. }
  assert (Hok : items_ok (name_items prefix) = true /\ items_compile (name_items prefix) = true).
  { clear Htext. unfold items_ok, items_compile, name_items. induction Hp as [| c p Hc Hp IH]; [easy |].
    apply Forall_cons in Hpd as [_ Hpd]. destruct (IH Hpd) as [H1 H2]. cbn [map forallb fst snd atom_ok atom_compiles].
    rewrite H1, H2, convert_ok by easy. destruct (Hlit c Hc) as (r & Hr & _). unfold text_compiles. now rewrite Hr. }
  destruct (TopMatcher_new_ready true hasAnchor (name_items prefix) []) as (m & Hm & Hr); try easy.
  destruct (top_match_ready _ _ _ name (used_ready m _ _ names Hr)) as (m' & b & He & _ & Hb).
  exists m, m', b. rewrite Htext. split; [easy |]. split; [easy |]. rewrite Hb, extended_denote by easy. split.
  - intros [(u & v & -> & Hu & Hv) | []]. apply Forall_app in Hn as [Hn _], Hnd as [Hnd _].
    apply name_items_denote in Hu as ->; try easy. destruct hasAnchor; [rewrite (Hv eq_refl); apply app_nil_r | now exists v].
  - intros Hx. left. destruct hasAnchor; [subst; exists prefix, []; rewrite app_nil_r | destruct Hx as (rest & ->); exists prefix, rest];
      (split; [easy |]); (split; [now apply name_items_denote | easy]).
Qed.

(** ** Expanding *)

Inductive ExpandItem := Literal (text : list Z) | Reference (n : Z).

Definition print_expand_item (e : ExpandItem) : list Z :=
  match e with Literal text => print_text text | Reference n => BACKSLASH :: print_number n end.

Definition print_expand (es : list ExpandItem) : list Z := concat (map print_expand_item es).

(** What an item stands for after a match. *)
Definition expands (m : TopMatcher) (e : ExpandItem) : option (list Component) :=
  let refs := if isSecondaryUsed_ m then secondaryRefs_ m else primaryRefs_ m in
  match e with
  | Literal text => Some [generic text]
  | Reference n => if n =? 0 then Some (matchResult_ m) else refs !! (Z.to_nat n - 1)%nat
  end.

Definition expand_item_ok (e : ExpandItem) : bool :=
  match e with
  | Literal text => neutral LANGLE RANGLE text
  | Reference n => (0 <=? n) && (n <? 2 ^ 31)
  end.

Lemma leading_digits_print n rest :
  0 <= n -> match rest with c :: _ => c < 48 \/ 57 < c | [] => True end ->
  leading_digits (print_number n ++ rest) = length (print_number n).
Proof.
  intros Hn Hrest. induction (print_number_decimal n Hn) as [| c s Hc _ IH]; cbn [app length leading_digits].
  - destruct rest as [| c rest]; [easy |]. cbn. destruct (Z.leb_spec 48 c), (Z.leb_spec c 57); cbn; easy || lia.
  - unfold decimal in Hc. rewrite (proj2 (Z.leb_le _ _)), (proj2 (Z.leb_le c 57)) by lia. cbn. now rewrite IH.
Qed.

Lemma print_expand_head es : match print_expand es with c :: _ => c < 48 \/ 57 < c | [] => True end.
Proof. destruct es as [| [text | n] es]; cbn; [easy | lia | lia]. Qed.

Lemma getItem_reference pre n rest :
  0 <= n -> match rest with c :: _ => c < 48 \/ 57 < c | [] => True end ->
  getItemFromExpand (pre ++ (BACKSLASH :: print_number n) ++ rest) (length pre) =
    Ok (BACKSLASH :: print_number n, (length pre + length (BACKSLASH :: print_number n))%nat).
Proof.
  intros Hn Hrest. unfold getItemFromExpand. cbn [app]. rewrite char_at_app, Z.eqb_refl, length_app. cbn [length].
  destruct (digits_nonempty 9 10 n false) as (c & t & He). fold (print_number n) in He.
  rewrite (proj2 (Nat.leb_gt _ _)) by (rewrite length_app, He; cbn; lia).
  rewrite drop_app_S, leading_digits_print by easy. rewrite (proj2 (Nat.eqb_neq _ _)) by (rewrite He; cbn; lia).
  change (BACKSLASH :: print_number n ++ rest) with ((BACKSLASH :: print_number n) ++ rest).
  change (S (length (print_number n))) with (length (BACKSLASH :: print_number n)). now rewrite substr_app.
Qed.

(** A literal is read when something follows it. *)
Lemma getItem_literal pre text rest :
  neutral LANGLE RANGLE text = true ->
  getItemFromExpand (pre ++ print_text text ++ rest) (length pre) =
    match rest with
    | [] => Err (regex_error "Wrong format of expand string!")
    | _ => Ok (print_text text, (length pre + length (print_text text))%nat)
    end.
Proof.
  intros Ht. unfold getItemFromExpand, print_text. cbn [app]. rewrite char_at_app, length_app.
  change (LANGLE =? BACKSLASH) with false. change (LANGLE =? LANGLE) with true. cbn match.
  rewrite (proj2 (Nat.leb_gt _ _)) by (cbn [length]; rewrite !length_app; cbn; lia).
  rewrite drop_app_S, <- app_assoc. cbn [app]. rewrite close_neutral by easy.
  destruct rest as [| c rest].
  - rewrite (proj2 (Nat.leb_le _ _)); [easy |]. cbn [length]. rewrite length_app. cbn. lia.
  - rewrite (proj2 (Nat.leb_gt _ _)) by (cbn [length]; rewrite length_app; cbn; lia).
    change (LANGLE :: text ++ RANGLE :: c :: rest) with (LANGLE :: text ++ [RANGLE] ++ c :: rest).
    rewrite app_assoc, (app_comm_cons _ _ LANGLE).
    replace (S (S (length text))) with (length (LANGLE :: text ++ [RANGLE])) by (cbn [length]; rewrite length_app; cbn; lia).
    now rewrite substr_app.
Qed.

(** Each literal has something after it. *)
Fixpoint followed (es : list ExpandItem) : bool :=
  match es with
  | [] => true
  | [Literal _] => false
  | _ :: es => followed es
  end.

Lemma expand_items_print fuel m pre es (result : Name) :
  forallb expand_item_ok es = true -> followed es = true -> (length es <= fuel)%nat ->
  expand_items fuel m (pre ++ print_expand es) (length pre) result =
    match mapM (expands m) es with
    | Some parts => Ok (result ++ concat parts)
    | None => Err (regex_error "Exceed the range of back reference")
    end.
Proof.
  revert pre es result. induction fuel as [| fuel IH]; intros pre [| e es] result Hok Hfol Hf; cbn in Hf; try lia.
  1, 2: change (print_expand []) with (@nil Z); rewrite app_nil_r; cbn [expand_items]; rewrite Nat.ltb_irrefl;
    cbn; now rewrite app_nil_r.
  cbn [forallb] in Hok. apply andb_true_iff in Hok as [He Hok].
  assert (Hfol' : followed es = true) by (destruct e, es; easy).
  change (print_expand (e :: es)) with (print_expand_item e ++ print_expand es).
  assert (Hnext : forall r, expand_items fuel m (pre ++ print_expand_item e ++ print_expand es)
      (length pre + length (print_expand_item e)) r =
    match mapM (expands m) es with
    | Some parts => Ok (r ++ concat parts)
    | None => Err (regex_error "Exceed the range of back reference")
    end).
  { intros r. rewrite app_assoc, <- length_app. apply IH; auto. lia. }
  cbn [expand_items]. rewrite (proj2 (Nat.ltb_lt _ _)) by (rewrite !length_app; destruct e; cbn; lia).
  change (mapM (expands m) (e :: es)) with (y ← expands m e; k ← mapM (expands m) es; Some (y :: k)).
  destruct e as [text | n]; cbn [print_expand_item] in *.
  - rewrite getItem_literal by easy.
    assert (Hne : exists c t, print_expand es = c :: t) by (destruct es as [| [] ]; [easy | |]; cbn; eauto).
    destruct Hne as (c & t & Hct). rewrite Hct in *. cbn [mbind result_bind].
    change (char_at (print_text text) 0 =? LANGLE) with true. cbn match. rewrite Hnext.
    replace (substr (print_text text) 1 (length (print_text text) - 2)) with text; cycle 1.
    { unfold print_text. rewrite length_wrap. replace (length text + 2 - 2)%nat with (length text) by lia. now rewrite substr_cons. }
    cbn [expands mbind option_bind]. destruct (mapM (expands m) es); [| easy]. cbn. now rewrite <- app_assoc.
  - cbn [expand_item_ok] in He. apply andb_true_iff in He as [Hn1%Z.leb_le Hn2%Z.ltb_lt].
    rewrite getItem_reference by (lia || apply print_expand_head). cbn [mbind result_bind].
    change (char_at (BACKSLASH :: print_number n) 0 =? LANGLE) with false. cbn match.
    change (drop 1 (BACKSLASH :: print_number n)) with (print_number n). rewrite atoi_number by lia. cbn [expands].
    destruct (Z.eqb_spec n 0) as [-> | Hn].
    + rewrite Hnext. cbn [mbind option_bind]. destruct (mapM (expands m) es); [| easy]. cbn. now rewrite <- app_assoc.
    + destruct (Z.leb_spec n (zlen (if isSecondaryUsed_ m then secondaryRefs_ m else primaryRefs_ m))) as [Hl | Hl].
      * destruct (lookup_lt_is_Some_2 (if isSecondaryUsed_ m then secondaryRefs_ m else primaryRefs_ m) (Z.to_nat n - 1)) as [w Hw]; [lia |].
        rewrite Hw, Hnext. cbn [default from_option mbind option_bind]. destruct (mapM (expands m) es); [| easy]. cbn. now rewrite <- app_assoc.
      * rewrite lookup_ge_None_2 by lia. easy.
Qed.

(** Expanding. The parts of an expand string are replaced: a literal by a component with its text, the
    reference 0 by the matched name, and another reference by what its group captured. A reference
    to a group that the expression does not have is an error. *)
Theorem expand_print m es :
  es <> [] -> forallb expand_item_ok es = true -> followed es = true ->
  expand m (print_expand es) =
    match mapM (expands m) es with
    | Some parts => Ok (concat parts)
    | None => Err (regex_error "Exceed the range of back reference")
    end.
Proof.
  intros Hne Hok Hf. unfold expand.
  assert (Hlen : (length es <= length (print_expand es))%nat).
  { clear. induction es as [| e es IH]; [easy |]. change (print_expand (e :: es)) with (print_expand_item e ++ print_expand es).
    rewrite length_app. destruct e; cbn [print_expand_item print_text length]; lia. }
  destruct (print_expand es) as [| c t] eqn:Hp; [destruct es; [easy | cbn in Hlen; lia] |].
  rewrite <- Hp in *. apply (expand_items_print _ m [] es []); auto.
Qed.

(** A literal at the end of the expand string is an error. *)
Theorem expand_literal_last m text :
  neutral LANGLE RANGLE text = true ->
  expand m (print_expand [Literal text]) = Err (regex_error "Wrong format of expand string!").
Proof.
  intros Ht. pose proof (getItem_literal [] text [] Ht) as He. cbn [length app] in He.
  assert (Hp : print_expand [Literal text] = print_text text) by apply app_nil_r.
  rewrite Hp, app_nil_r in *. unfold expand, print_text in *. cbn [expand_items length Nat.ltb Nat.leb]. now rewrite He.
Qed.
End Top.

(** *** Examples

    A small library of regular expressions: [.*], and literal text with escaped characters. *)

Fixpoint unquote (s : list Z) : list Z :=
  match s with
  | 92 :: c :: s => c :: unquote s
  | c :: s => c :: unquote s
  | [] => []
  end.

#[local] Instance literal_regex : RegexLib := {
  Regex := list Z;
  regex_new := Some;
  mark_count _ := O;
  regex_match r s := if bool_decide (r = chars ".*") || bool_decide (unquote r = s) then Some [s] else None
}.

Lemma literal_any : any_text.
Proof. exists (chars ".*"). split; [reflexivity |]. intros c _. cbn. now rewrite bool_decide_eq_true_2. Qed.

Lemma unquote_convert s : unquote (convertSpecialChar s) = s.
Proof.
  induction s as [| c s IH]; [easy |]. unfold convertSpecialChar in *. cbn [map concat].
  destruct (is_special c) eqn:Hc; cbn [app]; [cbn; now rewrite IH |].
  assert (c <> 92) by (intros ->; now vm_compute in Hc). rewrite <- IH at 2.
  destruct c as [| p | p]; try easy. do 7 (destruct p as [p | p |]; try easy).
Qed.

Lemma literal_literal : literal_text.
Proof.
  intros c Hc. exists (convertSpecialChar (escaped c)). split; [reflexivity |]. intros c' Hc'. cbn.
  rewrite unquote_convert.
  rewrite (bool_decide_eq_false_2 (convertSpecialChar (escaped c) = chars ".*")).
  - cbn [orb]. case_bool_decide; naive_solver.
  - intros He. apply (f_equal unquote) in He. rewrite unquote_convert, escaped_text in He by easy.
    pose proof (component_text_chars false c Hc) as Hch. rewrite He in Hch. vm_compute in Hch.
    apply Forall_cons in Hch as [_ Hch]. apply Forall_cons in Hch as [[[Hx | Hx] | Hx] _]; easy.
Qed.

Definition example_items : Items :=
  [(AGroup [(AComponent (chars "a"), Once); (AComponent [], Optional)], Between 1 2); (ASet false [chars "b"; chars "c"], Star)].

Definition example_name : Name := map (fun s => generic (chars s)) ["x"; "a"; "c"; "a"; "d"]%string.

Lemma regex_example_name_ok : Forall component_ok example_name.
Proof. unfold example_name. repeat constructor; vm_compute; easy. Qed.

Lemma top_match_names_witness :
  exists m m' b, TopMatcher_new (top_text false true example_items) [] = Ok m /\
    top_match (used m [[]; example_name]) example_name = (m', Ok b) /\
    (b = true <-> exists u v w, example_name = u ++ v ++ w /\ items_language example_items v /\
       (false = true -> u = []) /\ (true = true -> w = [])).
Proof.
  destruct (top_match_names false true example_items [] [[]; example_name] example_name)
    as (m & m' & b & Hm & He & Hs & Hc);
    [reflexivity | reflexivity | exact literal_any | reflexivity | exact regex_example_name_ok | vm_compute; discriminate |].
  exists m, m', b. split; [exact Hm |]. split; [exact He |]. split; [exact Hs | exact (Hc eq_refl)].
Defined.

Lemma fromName_matches_witness :
  exists m m' b, fromName (take 2 example_name) false = Ok m /\ top_match (used m [[]]) example_name = (m', Ok b) /\
    (b = true <-> exists rest, example_name = take 2 example_name ++ rest).
Proof.
  apply (fromName_matches (take 2 example_name) false [[]] example_name).
  - exact literal_any.
  - exact literal_literal.
  - apply Forall_take, regex_example_name_ok.
  - repeat constructor.
  - exact regex_example_name_ok.
  - repeat constructor.
  - vm_compute. discriminate.
Defined.

Lemma compile_print_witness :
  compile_list (print example_items) 0 = Ok (default ([], 0%nat) (build example_items 0)).
Proof.
  transitivity (@Ok exn _ ((default ([], 0%nat) (build example_items 0)).1, (default ([], 0%nat) (build example_items 0)).2)).
  - apply compile_print; vm_compute; reflexivity.
  - vm_compute. reflexivity.
Defined.

Lemma expand_print_witness :
  exists m, TopMatcher_new (chars "^<a>") [] = Ok m /\
    expand (top_match m (map (fun s => generic (chars s)) ["a"; "b"]%string)).1 (print_expand [Literal (chars "x"); Reference 0]) =
      Ok (map (fun s => generic (chars s)) ["x"; "a"; "b"]%string).
Proof.
  eexists. split; [vm_compute; reflexivity |]. rewrite expand_print; [vm_compute; reflexivity | easy | easy | easy].
Defined.

Definition example_matcher : Matcher :=
  PatternList [RepeatMatcher (Backref 0 [PatternList [ComponentSet [mkComponentMatcher (chars "a") (chars "a") 1] true]]) 0 2;
    RepeatMatcher (ComponentSet [mkComponentMatcher (chars "b") (chars "b") 1] false) 1 1].

Lemma match_language_witness :
  exists refs' b, match_ example_matcher example_name 0 (length example_name) [[]] = (refs', [], Ok b) /\
    (b = true <-> lang example_matcher example_name) /\
    (b = true -> exists sigma, captures example_matcher example_name sigma /\
       forall i w, (i, w) ∈ sigma -> refs' !! i = Some w).
Proof.
  apply (match_language example_matcher example_name [[]]).
  - vm_compute. repeat constructor; set_solver.
  - vm_compute. intuition discriminate.
  - vm_compute. repeat constructor.
Defined.

Definition run_match (expr : string) (uris : list string) : result exn (list (result exn bool * TopMatcher)) :=
  m ← TopMatcher_new (chars expr) [];
  Ok ((fix go (m : TopMatcher) (uris : list string) :=
         match uris with
         | [] => []
         | uri :: uris =>
             match name_set (chars uri) with
             | Ok n => let '(m', r) := top_match m n in (r, m') :: go m' uris
             | Err e => []
             end
         end) m uris).

Definition answers (r : result exn (list (result exn bool * TopMatcher))) : list (result exn bool) :=
  match r with Ok l => map fst l | Err _ => [] end.

Example match_examples :
  answers (run_match "^<a><b><c>" ["/a/b/c/d"; "/a/b/c"; "/a/b"]) = [Ok true; Ok true; Ok false] /\
  answers (run_match "<b><c>" ["/a/b/c/d"; "/a/b/c"; "/a/b"]) = [Ok true; Ok true; Ok false] /\
  answers (run_match "^[<a><b>]{2,}(<c>(<d>)?)*$" ["/a/b/c/d"; "/a/c"; "/a/b/c/c/d/c"; "/a/d"]) =
    [Ok true; Ok false; Ok true; Ok false].
Proof. vm_compute. auto. Qed.

(** One or more times a part that matches the empty name does not match the empty name. *)
Example repeated_empty :
  items_proper [(AGroup [(AComponent (chars "a"), Star)], Plus)] = false /\
  items_language [(AGroup [(AComponent (chars "a"), Star)], Plus)] [] /\
  answers (run_match "^(<a>*)$" ["/"; "/a"]) = [Ok true; Ok true] /\
  answers (run_match "^(<a>*)+$" ["/"; "/a"]) = [Ok false; Ok true].
Proof.
  split; [easy |]. split; [| split; vm_compute; reflexivity].
  exists [], []. split; [easy |]. split; [| easy]. exists [[]]. split_and!; [| easy | easy].
  constructor; [| constructor]. exists [], []. split; [easy |]. split; [| easy].
  exists []. split_and!; [constructor | easy | easy].
Qed.

(** A group that is left out keeps what it captured before: after [/a] and then [/] the group holds [a]. *)
Theorem stale_capture :
  exists m1 m2, run_match "^(<a>)?$" ["/a"; "/"] = Ok [(Ok true, m1); (Ok true, m2)] /\
    matchResult_ m2 = [] /\ expand m2 (print_expand [Reference 1]) = Ok [generic [97]].
Proof. do 2 eexists. vm_compute. split; [reflexivity |]. split; reflexivity. Qed.
