(* ===== verification/Oid.v ===== *)
(** * Object identifiers

    [OID] of src/encoding/oid.cpp: a list of numbers, and its text with dots. *)

From stdpp Require Import base list numbers option strings.
From Stdlib Require Import ZArith Lia.
From S2P Require Import Prelude NameUri.
Open Scope Z_scope.

Abbreviation OID := (list Z) (only parsing).

Definition DOT : Z := 46.

(** The constructor from a string: the numbers before each dot, with one dot more at the end. *)
Fixpoint oid_parts (fuel : nat) (str : list Z) : OID :=
  match fuel with
  | O => []
  | S fuel =>
      match split_at DOT str with
      | (part, Some rest) => atoi part :: oid_parts fuel rest
      | (_, None) => []
      end
  end.
Definition OID_of_string (oid : list Z) : OID := oid_parts (S (length oid)) (oid ++ [DOT]).

(** [<<] of an [int]. *)
Definition print_int (n : Z) : list Z := if n <? 0 then 45 :: digits 10 10 (- n) false else digits 10 10 n false.

(** [toString]. *)
Fixpoint oid_toString (oid : OID) : list Z :=
  match oid with
  | [] => []
  | [n] => print_int n
  | n :: oid => print_int n ++ DOT :: oid_toString oid
  end.

(** [equal]. *)
Fixpoint oid_equal (i j : OID) : bool :=
  match i, j with
  | [], [] => true
  | a :: i, b :: j => (a =? b) && oid_equal i j
  | _, _ => false
  end.

Definition is_int (n : Z) : Prop := - 2 ^ 31 <= n < 2 ^ 31.

Lemma oid_equal_eq i j : oid_equal i j = true <-> i = j.
Proof.
  revert j. induction i as [| a i IH]; intros [| b j]; cbn; try easy.
  rewrite andb_true_iff, Z.eqb_eq, IH. split; [intros [-> ->]; easy | intros [=]; easy].
Qed.

Lemma print_int_chars n : is_int n -> Forall (fun c => c = 45 \/ 48 <= c <= 57) (print_int n).
Proof.
  intros Hn. unfold print_int, is_int in *.
  assert (Hd : forall m, 0 <= m -> Forall (fun c => c = 45 \/ 48 <= c <= 57) (digits 10 10 m false)).
  { intros m Hm. eapply Forall_impl; [apply decimal_digits; lia |]. unfold decimal. cbn. intros c Hc. right. lia. }
  destruct (Z.ltb_spec n 0); [constructor; [now left |] |]; apply Hd; lia.
Qed.

Lemma print_int_no_dot n : is_int n -> DOT ∉ print_int n.
Proof. intros Hn Hin. pose proof (print_int_chars n Hn) as H. rewrite Forall_forall in H. specialize (H _ Hin). unfold DOT in H. lia. Qed.

Lemma atoi_print_int n : is_int n -> atoi (print_int n) = n.
Proof.
  intros Hn. unfold print_int, is_int in *. destruct (Z.ltb_spec n 0); [| apply atoi_digits; lia].
  unfold atoi. change (skip_space (45 :: digits 10 10 (- n) false)) with (45 :: digits 10 10 (- n) false).
  cbn iota beta. change (45 =? 45) with true. cbn iota. rewrite read_digits_digits by (cbn; lia).
  rewrite Z.min_r, Z.max_r by lia. rewrite Z.opp_involutive. now apply to_int32_small.
Qed.

Lemma oid_parts_text fuel oid : oid <> [] -> Forall is_int oid -> (length (oid_toString oid) < fuel)%nat ->
  oid_parts fuel (oid_toString oid ++ [DOT]) = oid.
Proof.
  intros Hne Ho. revert fuel. induction Ho as [| n oid Hn Ho IH]; intros [| fuel] Hf; [easy | easy | lia |].
  cbn [oid_toString] in *. destruct oid as [| m oid].
  - cbn [oid_parts]. rewrite split_at_app by now apply print_int_no_dot. rewrite atoi_print_int by easy.
    destruct fuel; [| easy]. apply print_int_chars in Hn as Hc. destruct (print_int n) eqn:E; [| cbn in Hf; lia].
    unfold print_int in E. destruct (n <? 0); [easy |]. now destruct (digits_nonempty 9 10 n false) as (c & t & Hx); rewrite Hx in E.
  - cbn [oid_parts]. rewrite <- app_assoc. cbn [app]. rewrite split_at_app by now apply print_int_no_dot.
    rewrite atoi_print_int by easy. f_equal. apply IH; [easy |]. rewrite length_app in Hf. cbn in *. lia.
Qed.

(** Reading the text of an object identifier gives it back; the empty one reads as [0]. *)
Lemma oid_text_roundtrip oid : oid <> [] -> Forall is_int oid -> OID_of_string (oid_toString oid) = oid.
Proof. intros Hne Ho. unfold OID_of_string. apply oid_parts_text; [easy | easy | lia]. Qed.

Example oid_example :
  OID_of_string (chars "1.2.840.113549.1.1.1") = [1; 2; 840; 113549; 1; 1; 1] /\ OID_of_string [] = [0].
Proof. now vm_compute. Qed.
