(* ===== verification/Der.v ===== *)
(** * DER

    The nodes of src/encoding/der/der-node.hpp and .cpp. A node that was decoded keeps the header as it was; a
    structure computes its header and size from its children. In the program a node is complete when it is
    added to another one, so the size is a function of the node and the cached [size_] is not kept. Sizes of
    objects in memory do not wrap. *)

From stdpp Require Import base list numbers option strings.
From Stdlib Require Import ZArith Lia.
From S2P Require Import Prelude NameUri IsoTime WireFormat Oid.
Open Scope Z_scope.

(** ** Node types *)

Definition DerNodeType_Boolean : Z := 1.
Definition DerNodeType_Integer : Z := 2.
Definition DerNodeType_BitString : Z := 3.
Definition DerNodeType_OctetString : Z := 4.
Definition DerNodeType_Null : Z := 5.
Definition DerNodeType_ObjectIdentifier : Z := 6.
Definition DerNodeType_Utf8String : Z := 12.
Definition DerNodeType_PrintableString : Z := 19.
Definition DerNodeType_Ia5String : Z := 22.
Definition DerNodeType_UtcTime : Z := 23.
Definition DerNodeType_GeneralizedTime : Z := 24.
Definition DerNodeType_Sequence : Z := 48.
Definition DerNodeType_Set : Z := 49.

(** [DerStructure::isExplicitNode] and [DerImplicitByteString::isImplicit]. *)
Definition isExplicitNode (nodeType : Z) : bool := Z.land nodeType 0xe0 =? 0xa0.
Definition isImplicit (type : Z) : bool := (Z.land type 0x20 =? 0) && negb (Z.land type 0xc0 =? 0).

(** What class [parse] makes of a type. *)
Definition is_structure (nodeType : Z) : bool :=
  (nodeType =? DerNodeType_Sequence) || (nodeType =? DerNodeType_Set) || isExplicitNode nodeType.
Definition is_leaf (nodeType : Z) : bool :=
  existsb (Z.eqb nodeType) [DerNodeType_Boolean; DerNodeType_Integer; DerNodeType_BitString;
    DerNodeType_OctetString; DerNodeType_Null; DerNodeType_ObjectIdentifier; DerNodeType_Utf8String;
    DerNodeType_PrintableString; DerNodeType_Ia5String; DerNodeType_UtcTime; DerNodeType_GeneralizedTime] ||
  isImplicit nodeType.

(** The classes derived from [DerByteString]. *)
Definition is_byteString (nodeType : Z) : bool :=
  existsb (Z.eqb nodeType) [DerNodeType_OctetString; DerNodeType_Utf8String; DerNodeType_PrintableString;
    DerNodeType_Ia5String] || isImplicit nodeType.

Inductive DerNode :=
| DerLeaf (nodeType_ : Z) (header_ payload_ : list Z)
| DerStructure (nodeType_ : Z) (nodeList_ : list DerNode).

Definition nodeType (t : DerNode) : Z := match t with DerLeaf type _ _ | DerStructure type _ => type end.

Definition decoding_error {A} (what : string) : result exn A := Err (Exception "DerDecodingException" what).
Definition encoding_error {A} (what : string) : result exn A := Err (Exception "DerEncodingException" what).

Definition getChildren (t : DerNode) : result exn (list DerNode) :=
  match t with
  | DerStructure _ nodeList => Ok nodeList
  | DerLeaf _ _ _ => decoding_error "getChildren: This DerNode is not DerSequence or DerSet"
  end.

Definition is_sequence (t : DerNode) : bool := nodeType t =? DerNodeType_Sequence.

Definition getSequence (children : list DerNode) (index : nat) : result exn DerNode :=
  match children !! index with
  | None => decoding_error "getSequence: Child index is out of bounds"
  | Some t =>
      if is_sequence t then Ok t else decoding_error "getSequence: Child DerNode is not a DerSequence"
  end.

(** The payload of a structure is empty. *)
Definition getPayload (t : DerNode) : list Z :=
  match t with DerLeaf _ _ payload => payload | DerStructure _ _ => [] end.

(** ** Encoding *)

(** The loop of [encodeHeader] over an [int], from the back; a negative one is never shifted to zero. *)
Fixpoint int_bytes (fuel : nat) (val : Z) (acc : list Z) : result exn (list Z) :=
  if val =? 0 then Ok acc
  else match fuel with
       | O => Err (Failed OutOfFuel)
       | S fuel => int_bytes fuel (Z.shiftr val 8) (Z.land val 255 :: acc)
       end.

Definition encodeHeader (nodeType size : Z) : result exn (list Z) :=
  if size <=? 127 then Ok [Z.land nodeType 255; Z.land size 255]
  else
    bytes ← int_bytes 4 (to_int32 size) [];
    mret (Z.land nodeType 255 :: Z.land (Z.lor 128 (zlen bytes)) 255 :: bytes).

(** A sum and a concatenation over the children. *)
Fixpoint sum_sizes (f : DerNode -> result exn nat) (l : list DerNode) : result exn nat :=
  match l with
  | [] => Ok 0%nat
  | n :: l => a ← f n; b ← sum_sizes f l; mret (a + b)%nat
  end.
Fixpoint concat_results (f : DerNode -> result exn (list Z)) (l : list DerNode) : result exn (list Z) :=
  match l with
  | [] => Ok []
  | n :: l => a ← f n; b ← concat_results f l; mret (a ++ b)
  end.

Fixpoint getSize (t : DerNode) : result exn nat :=
  match t with
  | DerLeaf _ header payload => Ok (length header + length payload)%nat
  | DerStructure type nodeList =>
      size ← sum_sizes getSize nodeList;
      header ← encodeHeader type (Z.of_nat size);
      mret (size + length header)%nat
  end.

Definition getHeaderSize (t : DerNode) : result exn nat :=
  match t with
  | DerLeaf _ header _ => Ok (length header)
  | DerStructure type nodeList =>
      size ← sum_sizes getSize nodeList;
      header ← encodeHeader type (Z.of_nat size);
      mret (length header)
  end.

Fixpoint der_encode (t : DerNode) : result exn (list Z) :=
  match t with
  | DerLeaf _ header payload => Ok (header ++ payload)
  | DerStructure type nodeList =>
      size ← sum_sizes getSize nodeList;
      header ← encodeHeader type (Z.of_nat size);
      children ← concat_results der_encode nodeList;
      mret (header ++ children)
  end.

(** ** Decoding *)

Definition too_small {A} : result exn A := decoding_error "DerNode::parse: The input length is too small".

(** The bytes of a long size. *)
Fixpoint read_size (lenCount : nat) (size : Z) (header rest : list Z) : result exn (Z * list Z) :=
  match lenCount with
  | O => Ok (size, header)
  | S lenCount =>
      match rest with
      | [] => too_small
      | b :: rest => read_size lenCount (wrap64 (256 * size + b)) (header ++ [b]) rest
      end
  end.

(** [decodeHeader]: the size and the header. *)
Definition decodeHeader (input : list Z) (startIdx : nat) : result exn (Z * list Z) :=
  match drop startIdx input with
  | nodeType :: sizeLen :: rest =>
      if negb (Z.land sizeLen 128 =? 0)
      then read_size (Z.to_nat (Z.land sizeLen 127)) 0 [nodeType; sizeLen] rest
      else Ok (sizeLen, [nodeType; sizeLen])
  | _ => too_small
  end.

(** [decode] of a node that is not a structure. The size is not compared with the length of the input. *)
Definition decode_leaf (input : list Z) (startIdx : nat) (type : Z) : result exn DerNode :=
  '(payloadSize, header) ← decodeHeader input startIdx;
  let rest := drop (startIdx + length header) input in
  if payloadSize <=? zlen rest then mret (DerLeaf type header (take (Z.to_nat payloadSize) rest))
  else Err (Failed UndefinedBehaviour).

(** [addChild]. *)
Definition addChild (type : Z) (nodeList : list DerNode) (node : DerNode) : result exn (list DerNode) :=
  if isExplicitNode type && (zlen nodeList >=? 1) then
    Err (RuntimeError "An explicit node can have only one child")
  else Ok (nodeList ++ [node]).

(** [parse], with the loop of [DerStructure::decode]. *)
Fixpoint der_parse (fuel : nat) (input : list Z) (startIdx : nat) : result exn DerNode :=
  match fuel with
  | O => Err (Failed OutOfFuel)
  | S fuel =>
      match drop startIdx input with
      | [] => too_small
      | type :: _ =>
          if is_structure type then
            '(size, header) ← decodeHeader input startIdx;
            nodeList ← parse_children fuel input type size (startIdx + length header) 0 [];
            mret (DerStructure type nodeList)
          else if is_leaf type then decode_leaf input startIdx type
          else decoding_error "Unimplemented DER type"
      end
  end
with parse_children (fuel : nat) (input : list Z) (type size : Z) (idx accSize : nat) (nodeList : list DerNode) :
    result exn (list DerNode) :=
  match fuel with
  | O => Err (Failed OutOfFuel)
  | S fuel =>
      if Z.of_nat accSize <? size then
        node ← der_parse fuel input idx;
        nodeSize ← getSize node;
        nodeList ← addChild type nodeList node;
        parse_children fuel input type size (idx + nodeSize) (accSize + nodeSize) nodeList
      else Ok nodeList
  end.

(** A node starts at least two bytes after the one around it or before it, each with two steps. *)
Definition enough_steps (input : list Z) : nat := (2 * length input + 2)%nat.
Definition DerNode_parse (input : list Z) (startIdx : nat) : result exn DerNode :=
  der_parse (enough_steps input) input startIdx.

(** ** The constructors of the nodes *)

Definition leaf_new (type : Z) (payload : list Z) : result exn DerNode :=
  header ← encodeHeader type (zlen payload);
  mret (DerLeaf type header payload).

(** [DerByteString]; a null pointer leaves the header empty. *)
Definition DerByteString_new (type : Z) (inputData : option (list Z)) : result exn DerNode :=
  match inputData with
  | Some inputData => leaf_new type inputData
  | None => Ok (DerLeaf type [] [])
  end.

Definition DerBoolean_new (value : bool) : result exn DerNode :=
  leaf_new DerNodeType_Boolean [if value then 255 else 0].

Definition DerBitString_new (input : list Z) (paddingLength : Z) : result exn DerNode :=
  leaf_new DerNodeType_BitString (Z.land paddingLength 255 :: input).

Definition DerNull_new : result exn DerNode := leaf_new DerNodeType_Null [].

(** The structures without children; [addChild] adds them. *)
Definition DerSequence_new : DerNode := DerStructure DerNodeType_Sequence [].
Definition DerSet_new : DerNode := DerStructure DerNodeType_Set [].
Definition DerExplicit_new (tag : Z) : result exn DerNode :=
  if tag >? 31 then decoding_error "The explicit tag must be less than or equal to 0x1f"
  else Ok (DerStructure (Z.lor 160 tag) []).

Definition DerImplicitByteString_new (type : Z) (inputData : option (list Z)) : result exn DerNode :=
  node ← DerByteString_new type inputData;
  if isImplicit type then mret node
  else Err (RuntimeError "DerImplicitByteString: The type is not for a non-structured IMPLICIT value").

(** *** Integers *)

Definition negative {A} : result exn A :=
  encoding_error "DerInteger: Negative integers are not currently supported".

(** The loop over an [int] that is not negative: at least one byte. *)
Fixpoint integer_bytes (fuel : nat) (integer : Z) (acc : list Z) : list Z :=
  match fuel with
  | O => acc
  | S fuel =>
      let acc := Z.land integer 255 :: acc in
      let integer := Z.shiftr integer 8 in
      if integer <=? 0 then acc else integer_bytes fuel integer acc
  end.

Definition DerInteger_new (integer : Z) : result exn DerNode :=
  if integer <? 0 then negative
  else
    let bytes := integer_bytes 4 integer [] in
    leaf_new DerNodeType_Integer (if byte_at bytes 0 >=? 128 then 0 :: bytes else bytes).

Definition DerInteger_of_bytes (inputData : list Z) : result exn DerNode :=
  if (zlen inputData >? 0) && (byte_at inputData 0 >=? 128) then negative
  else leaf_new DerNodeType_Integer inputData.

(** A result over the range of [int] is undefined. *)
Fixpoint integer_value (acc : Z) (payload : list Z) : result exn Z :=
  match payload with
  | [] => Ok acc
  | b :: payload =>
      if acc * 256 <? 2 ^ 31 then integer_value (acc * 256 + b) payload else Err (Failed UndefinedBehaviour)
  end.

Definition toIntegerVal (t : DerNode) : result exn Z :=
  if (zlen (getPayload t) >? 0) && (byte_at (getPayload t) 0 >=? 128) then
    decoding_error "DerInteger: Negative integers are not currently supported"
  else integer_value 0 (getPayload t).

(** *** Object identifiers *)

(** The bytes before the last one, from the back. *)
Fixpoint more_128 (fuel : nat) (value : Z) (acc : list Z) : list Z :=
  match fuel with
  | O => acc
  | S fuel =>
      if value =? 0 then acc
      else more_128 fuel (Z.shiftr value 7) (Z.lor (Z.land value 127) 128 :: acc)
  end.

Definition encode128 (value : Z) : list Z :=
  if value <? 128 then [Z.land value 127]
  else more_128 4 (Z.shiftr value 7) [Z.land value 127].

Definition firstNumber (value : OID) : result exn Z :=
  match value with
  | [] => encoding_error "No integer in OID"
  | a :: rest =>
      if negb ((0 <=? a) && (a <=? 2)) then encoding_error "First integer in OID is out of range"
      else
        match rest with
        | [] => Ok (a * 40)
        | b :: _ =>
            if negb ((0 <=? b) && (b <=? 39)) then encoding_error "Second integer in OID is out of range"
            else Ok (a * 40 + b)
        end
  end.

Definition DerOid_new (value : OID) : result exn DerNode :=
  first ← firstNumber value;
  leaf_new DerNodeType_ObjectIdentifier (encode128 first ++ concat (map encode128 (drop 2 value))).

(** [decode128], at the rest of the payload: the value and what follows. Reading past the end of the payload
    and going over the range of [int] are undefined. *)
Fixpoint decode128 (result : Z) (payload : list Z) : Prelude.result exn (Z * list Z) :=
  match payload with
  | [] => Err (Failed UndefinedBehaviour)
  | b :: rest =>
      if 128 * result >=? 2 ^ 31 then Err (Failed UndefinedBehaviour)
      else if negb (Z.land b 128 =? 0) then decode128 (128 * result + b - 128) rest
      else Ok (result * 128 + b, rest)
  end.

Fixpoint oid_components (fuel : nat) (payload : list Z) : result exn (list Z) :=
  match payload with
  | [] => Ok []
  | _ =>
      match fuel with
      | O => Err (Failed OutOfFuel)
      | S fuel =>
          '(n, rest) ← decode128 0 payload;
          components ← oid_components fuel rest;
          mret (n :: components)
      end
  end.

(** [DerOid::toVal]: the text of the identifier. *)
Definition oid_toVal (payload : list Z) : result exn (list Z) :=
  components ← oid_components (length payload) payload;
  match components with
  | [] => Err (Failed UndefinedBehaviour)
  | firstByte :: rest =>
      mret (print_int (Z.quot firstByte 40) ++ DOT :: print_int (Z.rem firstByte 40) ++
            concat (map (fun n => DOT :: print_int n) rest))
  end.

Definition toVal (t : DerNode) : result exn (list Z) :=
  if nodeType t =? DerNodeType_ObjectIdentifier then oid_toVal (getPayload t)
  else if is_byteString (nodeType t) then Ok (getPayload t)
  else der_encode t.

(** *** Times *)

(** [stoi] of at most two characters. *)
Definition stoi (s : list Z) : result exn Z :=
  match skip_space s with
  | c :: t =>
      let number s := match s with
                      | d :: _ => if is_digit_char d then Ok (read_digits 0 s) else Err (InvalidArgument "stoi")
                      | [] => Err (InvalidArgument "stoi")
                      end in
      if c =? 45 then n ← number t; mret (- n) else if c =? 43 then number t else number (c :: t)
  | [] => Err (InvalidArgument "stoi")
  end.

(** [substr]; a start after the end is an exception. *)
Definition substr_at (s : list Z) (pos n : nat) : result exn (list Z) :=
  if (length s <? pos)%nat then Err (Exception "std::out_of_range" "basic_string::substr")
  else Ok (take n (drop pos s)).

(** [fromIsoString], as a time point in nanoseconds. *)
Definition fromIsoString (isoString : list Z) : result exn Z :=
  match ndn_fromIsoString isoString with
  | Ok milliseconds => fromMilliseconds (milliseconds * 1000000)
  | Err f => Err (Failed f)
  end.

Definition UtcTime_toTimePoint (t : DerNode) : result exn Z :=
  let payloadString := getPayload t in
  year2Digits ← stoi (take 2 payloadString);
  let yearPrefix := if year2Digits >=? 50 then chars "19" else chars "20" in
  time ← substr_at payloadString 6 6;
  fromIsoString (yearPrefix ++ take 6 payloadString ++ [84] ++ time).

(** [toUtcTimeString] of a time of whole milliseconds: without the century and the [T]. *)
Definition toUtcTimeString (milliseconds : Z) : result exn (list Z) :=
  match ndn_toIsoString milliseconds with
  | Ok pTimeStr => Ok (take 6 (drop 2 pTimeStr) ++ drop 9 pTimeStr ++ [90])
  | Err _ => Err (RuntimeError "Calendar time value out of range")
  end.

Definition DerUtcTime_new (milliseconds : Z) : result exn DerNode :=
  derTime ← toUtcTimeString milliseconds;
  leaf_new DerNodeType_UtcTime derTime.

Definition GeneralizedTime_toMillisecondsSince1970 (t : DerNode) : result exn Z :=
  time ← substr_at (getPayload t) 8 6;
  fromIsoString (take 8 (getPayload t) ++ [84] ++ time).
