(* ===== verification/DerSpec.v ===== *)
(** * What DER promises

    A node that is encoded is parsed back; parsing ends; identifiers and times survive. *)

From stdpp Require Import base list numbers option strings.
From Stdlib Require Import ZArith Lia.
From S2P Require Import Prelude NameUri ValidityPeriod IsoTime WireFormat Oid Der.
Open Scope Z_scope.

(** Induction over the nodes of a tree. *)
Lemma DerNode_tree_ind (P : DerNode -> Prop) :
  (forall type header payload, P (DerLeaf type header payload)) ->
  (forall type nodeList, Forall P nodeList -> P (DerStructure type nodeList)) ->
  forall t, P t.
Proof.
  intros Hl Hs. fix IH 1. intros [type header payload | type nodeList]; [apply Hl |].
  apply Hs. induction nodeList as [| t nodeList IHl]; constructor; [apply IH | exact IHl].
Qed.

(** ** Headers *)

Lemma int_bytes_spec fuel val acc :
  0 <= val < 256 ^ Z.of_nat fuel ->
  exists bs, int_bytes fuel val acc = Ok (bs ++ acc) /\ be_decode bs = val /\ (length bs <= fuel)%nat /\ bytes_ok bs /\
    (0 < val -> bs <> []).
Proof.
  revert val acc. induction fuel as [| fuel IH]; intros val acc Hv; cbn [int_bytes].
  { replace val with 0 by (cbn in Hv; lia). exists []. split_and!; [easy | easy | cbn; lia | constructor | easy]. }
  destruct (Z.eqb_spec val 0) as [-> | Hne]; [exists []; split_and!; [easy | easy | cbn; lia | constructor | easy] |].
  rewrite land_255, Z.shiftr_div_pow2 by lia. change (2 ^ 8) with 256.
  rewrite Nat2Z.inj_succ, Z.pow_succ_r in Hv by lia.
  destruct (IH (val / 256) (val mod 256 :: acc)) as (bs & Hb & Hd & Hl & Hok & _).
  { split; [apply Z.div_pos; lia | apply Z.div_lt_upper_bound; lia]. }
  exists (bs ++ [val mod 256]). split_and!.
  - now rewrite Hb, <- app_assoc.
  - unfold be_decode in *. rewrite fold_left_app, Hd. cbn. pose proof (Z_div_mod_eq_full val 256). lia.
  - rewrite length_app. cbn. lia.
  - apply Forall_app. split; [easy |]. constructor; [| constructor]. unfold is_byte. pose proof (Z.mod_pos_bound val 256). lia.
  - now destruct bs.
Qed.

(** The header of a size below 2^31: the type, and one byte or the number of the bytes of the size with them. *)
Lemma encodeHeader_spec type size :
  is_byte type -> 0 <= size < 2 ^ 31 ->
  exists header, encodeHeader type size = Ok header /\ (2 <= length header <= 6)%nat /\ bytes_ok header /\
    ((size <= 127 /\ header = [type; size]) \/
     exists bs, header = type :: (128 + zlen bs) :: bs /\ be_decode bs = size /\ (1 <= length bs <= 4)%nat /\ bytes_ok bs).
Proof.
  intros Ht Hs. unfold encodeHeader. assert (Hland : forall b, is_byte b -> Z.land b 255 = b).
  { intros b Hb. rewrite land_255. now apply Z.mod_small. }
  rewrite (Hland type) by easy. destruct (Z.leb_spec size 127) as [Hle | Hgt].
  - exists [type; size]. rewrite Hland by (unfold is_byte; lia). split_and!; [easy | cbn; lia | cbn; lia | | now left].
    constructor; [easy | constructor; [unfold is_byte; lia | constructor]].
  - rewrite to_int32_small by lia.
    destruct (int_bytes_spec 4 size []) as (bs & Hb & Hd & Hl & Hok & Hne); [cbn; lia |]. rewrite app_nil_r in Hb.
    rewrite Hb. cbn [mbind result_bind mret result_ret].
    assert (Hlen : (1 <= length bs <= 4)%nat). { specialize (Hne ltac:(lia)). destruct bs; [easy | cbn in *; lia]. }
    assert (Hc : Z.land (Z.lor 128 (zlen bs)) 255 = 128 + zlen bs).
    { assert (Hcase : length bs = 1%nat \/ length bs = 2%nat \/ length bs = 3%nat \/ length bs = 4%nat) by lia.
      destruct Hcase as [-> | [-> | [-> | ->]]]; reflexivity. }
    rewrite Hc. exists (type :: (128 + zlen bs) :: bs). split_and!; [easy | cbn; lia | cbn; lia | | right; eauto].
    constructor; [easy | constructor; [unfold is_byte; lia | easy]].
Qed.

Lemma read_size_bytes bs : forall size header rest,
  bytes_ok bs -> 0 <= size -> fold_left (fun acc b => acc * 256 + b) bs size < 2 ^ 64 ->
  read_size (length bs) size header (bs ++ rest) = Ok (fold_left (fun acc b => acc * 256 + b) bs size, header ++ bs).
Proof.
  induction bs as [| b bs IH]; intros size header rest Hok Hs Hf; [cbn; now rewrite app_nil_r |].
  apply Forall_cons in Hok as [Hb Hok]. unfold is_byte in Hb. cbn [fold_left length read_size app] in *.
  assert (Hmono : forall l s, bytes_ok l -> 0 <= s -> s <= fold_left (fun acc b => acc * 256 + b) l s).
  { clear. induction l as [| c l IHl]; intros s Hl Hs; [cbn; lia |]. apply Forall_cons in Hl as [Hc Hl]. unfold is_byte in Hc.
    cbn. specialize (IHl (s * 256 + c) Hl). lia. }
  pose proof (Hmono bs (size * 256 + b) Hok) as Hm.
  replace (256 * size + b) with (size * 256 + b) by lia. rewrite wrap64_small by lia.
  rewrite IH by (easy || lia). now rewrite <- app_assoc.
Qed.

Lemma decodeHeader_encode type size header pre rest :
  is_byte type -> 0 <= size < 2 ^ 31 -> encodeHeader type size = Ok header ->
  decodeHeader (pre ++ header ++ rest) (length pre) = Ok (size, header).
Proof.
  intros Ht Hs He. destruct (encodeHeader_spec type size Ht Hs) as (h & Hh & _ & _ & Hcase).
  rewrite He in Hh. injection Hh as <-. unfold decodeHeader. rewrite drop_app_length.
  destruct Hcase as [[Hle ->] | (bs & -> & Hd & Hl & Hok)]; cbn [app].
  - replace (Z.land size 128) with 0; [easy |]. symmetry. apply Z.bits_inj'. intros i Hi.
    rewrite Z.land_spec, Z.bits_0. change 128 with (2 ^ 7). rewrite Z.pow2_bits_eqb by lia.
    destruct (Z.eqb_spec 7 i) as [<- |]; [| apply andb_false_r]. rewrite Z.testbit_odd, Z.shiftr_div_pow2 by lia.
    now rewrite Z.div_small by lia.
  - assert (Hcase : length bs = 1%nat \/ length bs = 2%nat \/ length bs = 3%nat \/ length bs = 4%nat) by lia.
    assert (Hf : Z.land (128 + zlen bs) 128 = 128 /\ Z.to_nat (Z.land (128 + zlen bs) 127) = length bs)
      by (destruct Hcase as [-> | [-> | [-> | ->]]]; split; reflexivity).
    destruct Hf as [-> ->]. cbn [Z.eqb negb].
    rewrite read_size_bytes; [unfold be_decode in Hd; now rewrite Hd | easy | easy | unfold be_decode in Hd; rewrite Hd; lia].
Qed.

(** ** Round trip *)

(** A node as its constructor makes it. *)
Fixpoint canonical (t : DerNode) : bool :=
  match t with
  | DerLeaf type header payload =>
      (0 <=? type) && (type <? 256) && is_leaf type && negb (is_structure type) &&
      match encodeHeader type (zlen payload) with Ok h => bool_decide (header = h) | Err _ => false end
  | DerStructure type nodeList =>
      (0 <=? type) && (type <? 256) && is_structure type &&
      negb (isExplicitNode type && (1 <? zlen nodeList)) && forallb canonical nodeList
  end.

Lemma concat_results_cons f t l bs :
  concat_results f (t :: l) = Ok bs <-> exists a b, f t = Ok a /\ concat_results f l = Ok b /\ bs = a ++ b.
Proof.
  cbn [concat_results]. rewrite bind_ok. split.
  - intros (a & Ha & (b & Hb & Hx)%bind_ok). injection Hx as <-. eauto.
  - intros (a & b & Ha & Hb & ->). exists a. split; [easy |]. rewrite bind_ok. eauto.
Qed.

(** The size of a node is that of its encoding. *)
Lemma getSize_encode t : forall bs, der_encode t = Ok bs -> getSize t = Ok (length bs).
Proof.
  induction t as [type header payload | type nodeList IH] using DerNode_tree_ind; intros bs He; cbn [der_encode getSize] in *.
  { injection He as <-. now rewrite length_app. }
  apply bind_ok in He as (size & Hsize & (header & Hh & (children & Hc & Hbs)%bind_ok)%bind_ok). injection Hbs as <-.
  assert (Hsum : forall l bs, Forall (fun t => forall bs, der_encode t = Ok bs -> getSize t = Ok (length bs)) l ->
    concat_results der_encode l = Ok bs -> sum_sizes getSize l = Ok (length bs)).
  { clear. induction l as [| t l IHl]; intros bs Hl Hb; [now injection Hb as <- |].
    apply Forall_cons in Hl as [Ht Hl]. apply concat_results_cons in Hb as (a & b & Ha & Hb & ->).
    cbn [sum_sizes]. rewrite (Ht a Ha). cbn [mbind result_bind]. rewrite (IHl b Hl Hb). cbn. now rewrite length_app. }
  rewrite Hsize, (Hsum nodeList children IH Hc) in *. injection Hsize as <-. cbn [mbind result_bind]. rewrite Hh.
  cbn. rewrite length_app. f_equal. lia.
Qed.

Lemma sum_sizes_encode l bs : concat_results der_encode l = Ok bs -> sum_sizes getSize l = Ok (length bs).
Proof.
  revert bs. induction l as [| t l IHl]; intros bs Hb; [now injection Hb as <- |].
  apply concat_results_cons in Hb as (a & b & Ha & Hb & ->).
  cbn [sum_sizes]. rewrite (getSize_encode t a Ha). cbn [mbind result_bind]. rewrite (IHl b Hb). cbn. now rewrite length_app.
Qed.

Lemma canonical_type t : canonical t = true -> is_byte (nodeType t).
Proof. destruct t; cbn; rewrite !andb_true_iff, ?Z.leb_le, ?Z.ltb_lt; unfold is_byte; intuition lia. Qed.

(** The encoding starts with the type. *)
Lemma der_encode_structure type nodeList bs :
  der_encode (DerStructure type nodeList) = Ok bs ->
  exists header children, encodeHeader type (zlen children) = Ok header /\
    concat_results der_encode nodeList = Ok children /\ bs = header ++ children.
Proof.
  cbn [der_encode]. intros (size & Hsize & (header & Hh & (children & Hc & Hbs)%bind_ok)%bind_ok)%bind_ok. injection Hbs as <-.
  rewrite (sum_sizes_encode _ _ Hc) in Hsize. injection Hsize as <-. eauto.
Qed.

Lemma decode_leaf_encode type header payload pre rest :
  is_byte type -> zlen payload < 2 ^ 31 -> encodeHeader type (zlen payload) = Ok header ->
  decode_leaf (pre ++ (header ++ payload) ++ rest) (length pre) type = Ok (DerLeaf type header payload).
Proof.
  intros Ht Hl Hh. unfold decode_leaf. rewrite <- app_assoc. rewrite (decodeHeader_encode type (zlen payload)) by (easy || lia).
  cbn [mbind result_bind]. rewrite (app_assoc pre header), <- length_app, drop_app_length, length_app.
  destruct (Z.leb_spec (zlen payload) (Z.of_nat (length payload + length rest))); [| lia].
  now rewrite Nat2Z.id, take_app_length.
Qed.

(** The two statements of the round trip: of a node, and of the children of one. *)
Definition parses (t : DerNode) : Prop := forall bs pre rest fuel,
  canonical t = true -> der_encode t = Ok bs -> zlen bs < 2 ^ 31 -> (2 * length bs <= fuel)%nat ->
  der_parse fuel (pre ++ bs ++ rest) (length pre) = Ok t.

Lemma header_length type size header :
  is_byte type -> 0 <= size < 2 ^ 31 -> encodeHeader type size = Ok header ->
  (2 <= length header <= 6)%nat /\ exists h, header = type :: h.
Proof.
  intros Ht Hs He. destruct (encodeHeader_spec type size Ht Hs) as (h & Hh & Hl & _ & Hcase). rewrite He in Hh. injection Hh as <-.
  split; [easy |]. destruct Hcase as [[_ ->] | (bs & -> & _)]; eauto.
Qed.

(** The encoding of a node starts with its type and has at least two bytes. *)
Lemma der_encode_starts t bs :
  canonical t = true -> der_encode t = Ok bs -> zlen bs < 2 ^ 31 -> exists b bs', bs = nodeType t :: b :: bs'.
Proof.
  intros Hc He Hl. pose proof (canonical_type t Hc) as Ht.
  assert (Hh : forall header size, 0 <= size < 2 ^ 31 -> encodeHeader (nodeType t) size = Ok header ->
    exists b h, header = nodeType t :: b :: h).
  { intros header size Hs Hh. destruct (header_length _ _ _ Ht Hs Hh) as [Hlen [h ->]].
    destruct h as [| b h]; [cbn in Hlen; lia | eauto]. }
  destruct t as [type header payload | type nodeList]; cbn [nodeType] in *.
  - cbn in He. injection He as <-. rewrite length_app in Hl. cbn in Hc. rewrite !andb_true_iff in Hc. destruct Hc as [_ Hc].
    destruct (encodeHeader type (zlen payload)) as [h |] eqn:E; [| easy]. apply bool_decide_eq_true in Hc as ->.
    destruct (Hh h (zlen payload)) as (b & h' & ->); [lia | easy | cbn; eauto].
  - apply der_encode_structure in He as (header & children & E & _ & ->). rewrite length_app in Hl.
    destruct (Hh header (zlen children)) as (b & h' & ->); [lia | easy | cbn; eauto].
Qed.

Lemma parse_children_encode type nodeList :
  Forall parses nodeList -> forallb canonical nodeList = true ->
  forall children bs pre rest fuel acc size,
  (isExplicitNode type = true -> (length (children ++ nodeList) <= 1)%nat) ->
  concat_results der_encode nodeList = Ok bs -> zlen bs < 2 ^ 31 -> (2 * length bs + 1 <= fuel)%nat ->
  size = Z.of_nat (acc + length bs) ->
  parse_children fuel (pre ++ bs ++ rest) type size (length pre) acc children = Ok (children ++ nodeList).
Proof.
  intros Hall. induction Hall as [| t nodeList Ht Hall IH]; intros Hc children bs pre rest fuel acc size Hx He Hl Hf ->.
  - injection He as <-. destruct fuel as [| fuel]; [cbn in Hf; lia |]. cbn [parse_children length].
    rewrite Nat.add_0_r, (proj2 (Z.ltb_ge _ _)), app_nil_r by lia. easy.
  - cbn [forallb] in Hc. apply andb_true_iff in Hc as [Hct Hc].
    apply concat_results_cons in He as (a & b & Ha & Hb & ->). rewrite (length_app a b) in Hl, Hf |- *.
    destruct (der_encode_starts t a) as (x & a' & Hxa); [easy | easy | lia |].
    assert (H2 : (2 <= length a)%nat) by (rewrite Hxa; cbn; lia).
    destruct fuel as [| fuel]; [lia |]. cbn [parse_children].
    rewrite (proj2 (Z.ltb_lt _ _)) by lia. rewrite <- (app_assoc a b rest).
    rewrite (Ht a pre (b ++ rest) fuel) by (easy || lia). cbn [mbind result_bind].
    rewrite (getSize_encode t a Ha). cbn [mbind result_bind].
    unfold addChild. destruct (isExplicitNode type && (zlen children >=? 1)) eqn:Ex.
    { apply andb_true_iff in Ex as [Ex Hge]. specialize (Hx Ex). rewrite length_app in Hx. cbn in Hx. lia. }
    cbn [mbind result_bind]. rewrite (app_assoc pre a), <- (length_app pre a).
    rewrite (IH Hc (children ++ [t]) b (pre ++ a) rest fuel (acc + length a)%nat); try easy; try lia.
    + now rewrite <- app_assoc.
    + intros Ex'. specialize (Hx Ex'). rewrite <- app_assoc. exact Hx.
Qed.

Lemma parses_all t : parses t.
Proof.
  induction t as [type header payload | type nodeList IH] using DerNode_tree_ind; intros bs pre rest fuel Hc He Hl Hf;
    pose proof (canonical_type _ Hc) as Ht; destruct (der_encode_starts _ _ Hc He Hl) as (b & bs' & Hbs); cbn [nodeType] in *;
    (destruct fuel as [| fuel]; [rewrite Hbs in Hf; cbn in Hf; lia |]); cbn [der_parse]; rewrite drop_app_length.
  - rewrite Hbs at 1. cbn [app]. cbn [der_encode] in He. injection He as <-. cbn [canonical] in Hc. rewrite !andb_true_iff in Hc.
    destruct Hc as [[[[_ _] Hleaf] Hns] Hh]. rewrite negb_true_iff in Hns. rewrite Hns, Hleaf.
    destruct (encodeHeader type (zlen payload)) as [h |] eqn:E; [| easy]. apply bool_decide_eq_true in Hh as ->.
    rewrite length_app in Hl. apply decode_leaf_encode; [easy | lia | easy].
  - rewrite Hbs at 1. cbn [app]. apply der_encode_structure in He as (header & children & E & Hch & ->).
    cbn [canonical] in Hc. rewrite !andb_true_iff in Hc. destruct Hc as [[[_ Hs] Hx] Hcs]. rewrite Hs.
    rewrite length_app in *. destruct (header_length type (zlen children) header) as [Hlen _]; [easy | lia | easy |].
    rewrite <- (app_assoc header children rest).
    rewrite (decodeHeader_encode type (zlen children)) by (easy || lia). cbn [mbind result_bind].
    rewrite (app_assoc pre header), <- length_app.
    rewrite (parse_children_encode type nodeList IH Hcs [] children (pre ++ header) rest fuel 0); [easy | | easy | lia | lia | easy].
    intros Ex. rewrite Ex in Hx. cbn [andb] in Hx. rewrite negb_true_iff in Hx. apply Z.ltb_ge in Hx. cbn. lia.
Qed.

(** C17: DER round trip. A node that is made by the constructors is encoded with its size, and parsing its
    encoding anywhere in a buffer gives the node. *)
Theorem der_roundtrip (t : DerNode) (bs before after : list Z) :
  canonical t = true -> der_encode t = Ok bs -> zlen bs < 2 ^ 31 ->
  getSize t = Ok (length bs) /\ DerNode_parse (before ++ bs ++ after) (length before) = Ok t.
Proof.
  intros Hc He Hl. split; [now apply getSize_encode |]. apply parses_all; [easy | easy | easy |].
  unfold enough_steps. rewrite !length_app. lia.
Qed.

Lemma der_roundtrip_witness :
  let t := DerStructure DerNodeType_Sequence [DerLeaf DerNodeType_Integer [2; 1] [5]; DerStructure DerNodeType_Set []] in
  getSize t = Ok (length [48; 5; 2; 1; 5; 49; 0]) /\ DerNode_parse ([9] ++ [48; 5; 2; 1; 5; 49; 0] ++ [7]) (length [9]) = Ok t.
Proof. intros t. apply (der_roundtrip t [48; 5; 2; 1; 5; 49; 0] [9] [7]); reflexivity. Defined.

(** ** Parsing ends *)

Definition ended {A} (r : result exn A) : Prop := r <> Err (Failed OutOfFuel).

Lemma ended_mbind {A B} (m : result exn A) (f : A -> result exn B) :
  ended m -> (forall a, m = Ok a -> ended (f a)) -> ended (m ≫= f).
Proof. unfold ended. destruct m as [a | e]; cbn; [auto | congruence]. Qed.

Lemma ended_err {A B} e : ended (A := A) (Err e) -> ended (A := B) (Err e).
Proof. unfold ended. congruence. Qed.

Lemma read_size_ended n size header rest : ended (read_size n size header rest).
Proof. revert size header rest. induction n as [| n IH]; intros size header [| b rest]; cbn; easy. Qed.

Lemma read_size_header n size header rest size' header' :
  read_size n size header rest = Ok (size', header') ->
  (length header <= length header' <= length header + length rest)%nat.
Proof.
  revert size header rest. induction n as [| n IH]; intros size header rest H; cbn in H; [injection H as <- <-; lia |].
  destruct rest as [| b rest]; [easy |]. apply IH in H. rewrite length_app in H. cbn in *. lia.
Qed.

Lemma decodeHeader_ended input i : ended (decodeHeader input i).
Proof. unfold decodeHeader. destruct (drop i input) as [| a [| b rest]]; try easy. destruct (negb _); [apply read_size_ended | easy]. Qed.

Lemma decodeHeader_length input i size header :
  decodeHeader input i = Ok (size, header) -> (2 <= length header)%nat /\ (i + length header <= length input)%nat.
Proof.
  unfold decodeHeader. destruct (drop i input) as [| a [| b rest]] eqn:E; try easy. intros H.
  pose proof (length_drop input i) as Hd. rewrite E in Hd. cbn in Hd.
  destruct (negb _); [apply read_size_header in H; cbn in H; lia | injection H as <- <-; cbn; lia].
Qed.

(** A size that is not too large is the size of a node. *)
Lemma int_bytes_ended size : 0 <= size < 2 ^ 31 -> exists h, encodeHeader 0 size = Ok h.
Proof. intros Hs. destruct (encodeHeader_spec 0 size) as (h & Hh & _); [unfold is_byte; lia | easy | eauto]. Qed.

Lemma encodeHeader_short type size :
  0 <= size < 2 ^ 31 -> exists h, encodeHeader type size = Ok h /\ (2 <= length h <= 6)%nat.
Proof.
  intros Hs. assert (Hb : is_byte (Z.land type 255)) by (rewrite land_255; apply Z.mod_pos_bound; lia).
  destruct (encodeHeader_spec (Z.land type 255) size Hb Hs) as (h & Hh & Hl & _).
  unfold encodeHeader in *. rewrite <- Z.land_assoc in Hh. change (Z.land 255 255) with 255 in Hh. eauto.
Qed.

Section Ends.
Context (input : list Z) (Hinput : 3 * zlen input < 2 ^ 31).

Definition node_ends (i : nat) (r : result exn DerNode) : Prop :=
  ended r /\ forall t, r = Ok t -> exists n, getSize t = Ok n /\ (2 <= n <= 3 * (length input - i))%nat.

Definition children_end (i acc : nat) (r : result exn (list DerNode)) : Prop :=
  ended r /\ forall l, r = Ok l -> exists s, sum_sizes getSize l = Ok s /\ (s <= acc + 3 * (length input - i))%nat.

Lemma sum_sizes_snoc l t s n :
  sum_sizes getSize l = Ok s -> getSize t = Ok n -> sum_sizes getSize (l ++ [t]) = Ok (s + n)%nat.
Proof.
  revert s. induction l as [| u l IH]; intros s Hl Ht.
  - injection Hl as <-. cbn [app sum_sizes]. rewrite Ht. cbn. f_equal. lia.
  - cbn [app sum_sizes] in *. apply bind_ok in Hl as (a & Ha & (b & Hb & Hs)%bind_ok). injection Hs as <-.
    rewrite Ha. cbn [mbind result_bind]. rewrite (IH b Hb Ht). cbn. f_equal. lia.
Qed.

Lemma decode_leaf_ends type i : node_ends i (decode_leaf input i type).
Proof.
  split.
  - apply ended_mbind; [apply decodeHeader_ended |]. intros [size header] _. cbv zeta. now destruct (size <=? _).
  - intros t Ht. unfold decode_leaf in Ht. apply bind_ok in Ht as ([size header] & Hh & Ht).
    apply decodeHeader_length in Hh as [Hl Hi]. destruct (Z.leb_spec size (zlen (drop (i + length header) input))) as [Hle |]; [| easy].
    injection Ht as <-. eexists. split; [reflexivity |]. rewrite length_take. rewrite length_drop in *. lia.
Qed.

Lemma parse_ends fuel :
  (forall i, (2 * (length input - i) + 1 <= fuel)%nat -> node_ends i (der_parse fuel input i)) /\
  (forall type size i acc l, (2 * (length input - i) + 2 <= fuel)%nat -> sum_sizes getSize l = Ok acc ->
     children_end i acc (parse_children fuel input type size i acc l)).
Proof.
  induction fuel as [| fuel [IHn IHc]]; [split; intros; lia |]. split.
  - intros i Hf. cbn [der_parse]. destruct (drop i input) as [| type rest]; [now split |].
    destruct (is_structure type); [| destruct (is_leaf type); [apply decode_leaf_ends | now split]].
    pose proof (decodeHeader_ended input i) as He. destruct (decodeHeader input i) as [[size header] | e] eqn:Hh; [| split; [exact (ended_err e He) | easy]].
    apply decodeHeader_length in Hh as [Hl Hi]. cbn [mbind result_bind].
    destruct (IHc type size (i + length header)%nat 0%nat []) as [Hend Hsum]; [lia | easy |].
    destruct (parse_children _ _ _ _ _ _ _) as [l | e]; [| split; [exact (ended_err e Hend) | easy]]. split; [easy |]. intros t [= <-].
    destruct (Hsum l eq_refl) as (s & Hs & Hle). cbn [getSize]. rewrite Hs. cbn [mbind result_bind].
    destruct (encodeHeader_short type (Z.of_nat s)) as (h & -> & Hh); [lia |]. eexists. split; [reflexivity | lia].
  - intros type size i acc l Hf Hl. cbn [parse_children]. destruct (Z.of_nat acc <? size); [| split; [easy |]; intros l' [= <-]; exists acc; split; [easy | lia]].
    destruct (IHn i) as [Hend Hnode]; [lia |]. destruct (der_parse fuel input i) as [t | e] eqn:Ht; [| split; [exact (ended_err e Hend) | easy]].
    destruct (Hnode t eq_refl) as (n & Hn & Hb). cbn [mbind result_bind]. rewrite Hn. cbn [mbind result_bind].
    unfold addChild. destruct (isExplicitNode type && _); [now split |]. cbn [mbind result_bind].
    destruct (IHc type size (i + n)%nat (acc + n)%nat (l ++ [t])) as [He Hs]; [lia | now apply sum_sizes_snoc |].
    split; [exact He |]. intros l' Hl'. destruct (Hs l' Hl') as (s & Hsum & Hle). exists s. split; [easy | lia].
Qed.
End Ends.

(** C18: parsing DER ends, whatever the input: it gives a node, throws, or reads out of the bounds of the buffer,
    and the model never runs out of steps. (Nodes of 2^31 bytes are left out: their headers are not made.) *)
Theorem der_parse_terminates (input : list Z) (i : nat) :
  3 * zlen input < 2 ^ 31 -> DerNode_parse input i <> Err (Failed OutOfFuel).
Proof. intros Hi. apply (parse_ends input Hi). unfold enough_steps. lia. Qed.

Lemma der_parse_terminates_witness : DerNode_parse [48; 4; 48; 2; 4] 0 <> Err (Failed OutOfFuel).
Proof. apply (der_parse_terminates [48; 4; 48; 2; 4] 0). reflexivity. Defined.

(** What goes wrong: a length is not compared with the input, and a header with more bytes than needed puts the
    next child at the wrong place. *)
Example der_overread : DerNode_parse [4; 100; 1] 0 = Err (Failed UndefinedBehaviour).
Proof. reflexivity. Qed.

(** A sequence of a sequence that has a long header, with a null in it, and a null. *)
Example der_misaligned : exists what,
  DerNode_parse [48; 7; 48; 129; 2; 5; 0; 5; 0] 0 = Err (Exception "DerDecodingException" what).
Proof. eexists. reflexivity. Qed.

(** ** Object identifiers *)

(** The identifiers that can be encoded: in X.690 the second number after a 2 can be greater. *)
Definition oid_ok (oid : list Z) : Prop :=
  match oid with
  | a :: b :: rest => 0 <= a <= 2 /\ 0 <= b <= 39 /\ Forall (fun n => 0 <= n < 2 ^ 31) rest
  | _ => False
  end.

Lemma land_127 z : Z.land z 127 = z mod 128.
Proof. change 127 with (Z.ones 7). now rewrite Z.land_ones. Qed.

Lemma lor_128 z : 0 <= z < 128 -> Z.lor z 128 = z + 128.
Proof.
  intros Hz. rewrite <- Z.lxor_lor, <- Z.add_nocarry_lxor; try easy.
  all: apply Z.bits_inj'; intros i Hi; rewrite Z.land_spec, Z.bits_0; change 128 with (2 ^ 7); rewrite Z.pow2_bits_eqb by lia;
    destruct (Z.eqb_spec 7 i) as [<- |]; [| apply andb_false_r]; rewrite Z.testbit_odd, Z.shiftr_div_pow2 by lia;
    now rewrite Z.div_small by lia.
Qed.

(** The bytes before the last one carry the number [value] on. *)
Lemma decode128_more fuel : forall value acc rest,
  0 <= value < 128 ^ Z.of_nat fuel -> 128 * value < 2 ^ 31 ->
  decode128 0 (more_128 fuel value acc ++ rest) = decode128 value (acc ++ rest).
Proof.
  induction fuel as [| fuel IH]; intros value acc rest Hv Hb; cbn [more_128].
  { replace value with 0 by (cbn in Hv; lia). easy. }
  destruct (Z.eqb_spec value 0) as [-> | Hne]; [easy |].
  rewrite Nat2Z.inj_succ, Z.pow_succ_r in Hv by lia. rewrite Z.shiftr_div_pow2, land_127 by lia. change (2 ^ 7) with 128.
  pose proof (Z.mod_pos_bound value 128 eq_refl) as Hm. pose proof (Z_div_mod_eq_full value 128) as Hdm.
  rewrite IH; [| split; [apply Z.div_pos; lia | apply Z.div_lt_upper_bound; lia] | lia].
  rewrite lor_128 by easy. cbn [app decode128].
  destruct (Z.geb_spec (128 * (value / 128)) (2 ^ 31)); [lia |].
  replace (Z.land (value mod 128 + 128) 128) with 128.
  - cbn [Z.eqb negb]. f_equal. lia.
  - symmetry. rewrite <- lor_128 by easy. apply Z.bits_inj'. intros i Hi. rewrite Z.land_spec, Z.lor_spec.
    destruct (Z.testbit 128 i); [now rewrite orb_true_r | apply andb_false_r].
Qed.

Lemma land_128_small b : 0 <= b < 128 -> Z.land b 128 = 0.
Proof.
  intros Hb. apply Z.bits_inj'. intros i Hi. rewrite Z.land_spec, Z.bits_0. change 128 with (2 ^ 7).
  rewrite Z.pow2_bits_eqb by lia. destruct (Z.eqb_spec 7 i) as [<- |]; [| apply andb_false_r].
  rewrite Z.testbit_odd, Z.shiftr_div_pow2 by lia. now rewrite Z.div_small by lia.
Qed.

Lemma decode128_encode n rest : 0 <= n < 2 ^ 31 -> decode128 0 (encode128 n ++ rest) = Ok (n, rest).
Proof.
  intros Hn. unfold encode128. rewrite land_127. pose proof (Z.mod_pos_bound n 128 eq_refl) as Hm.
  destruct (Z.ltb_spec n 128) as [Hlt | Hge].
  - cbn [app decode128]. rewrite Z.mod_small by lia. rewrite land_128_small by lia. reflexivity.
  - pose proof (Z_div_mod_eq_full n 128) as Hdm. rewrite Z.shiftr_div_pow2 by lia. change (2 ^ 7) with 128.
    rewrite decode128_more; [| split; [apply Z.div_pos; lia | apply Z.div_lt_upper_bound; cbn; lia] | lia].
    cbn [app decode128]. destruct (Z.geb_spec (128 * (n / 128)) (2 ^ 31)); [lia |].
    rewrite land_128_small by lia. cbn [Z.eqb negb]. do 2 f_equal. lia.
Qed.

Lemma encode128_nonempty n : encode128 n <> [].
Proof.
  unfold encode128. destruct (n <? 128); [easy |]. intros E. apply (f_equal (@length Z)) in E.
  assert (Hl : forall fuel v acc, (length acc <= length (more_128 fuel v acc))%nat).
  { induction fuel as [| fuel IH]; intros v acc; cbn [more_128]; [lia |]. destruct (v =? 0); [lia |].
    etransitivity; [| apply IH]. cbn. lia. }
  specialize (Hl 4%nat (Z.shiftr n 7) [Z.land n 127]). rewrite E in Hl. cbn in Hl. lia.
Qed.

Lemma oid_components_encode l fuel :
  Forall (fun n => 0 <= n < 2 ^ 31) l -> (length (concat (map encode128 l)) <= fuel)%nat ->
  oid_components fuel (concat (map encode128 l)) = Ok l.
Proof.
  intros Hl. revert fuel. induction Hl as [| n l Hn Hl IH]; intros fuel Hf; cbn [map concat] in *.
  { now destruct fuel. }
  rewrite length_app in Hf. pose proof (encode128_nonempty n) as Hne. destruct (encode128 n) as [| b e] eqn:E; [easy |].
  destruct fuel as [| fuel]; [cbn in Hf; lia |]. cbn [app oid_components]. rewrite app_comm_cons, <- E, decode128_encode by easy.
  cbn [mbind result_bind]. rewrite IH; [easy |]. cbn in Hf. lia.
Qed.

(** Object identifiers survive. The node of an identifier, whose second number is below 40, has the
    text of the identifier as its value, which reads as the identifier. *)
Theorem oid_roundtrip (oid : list Z) :
  oid_ok oid -> zlen (concat (map encode128 oid)) < 2 ^ 31 ->
  exists t, DerOid_new oid = Ok t /\ canonical t = true /\ toVal t = Ok (oid_toString oid) /\ OID_of_string (oid_toString oid) = oid.
Proof.
  intros Hoid Hlen. destruct oid as [| a [| b rest]]; [easy | easy |]. destruct Hoid as (Ha & Hb & Hr).
  assert (Hfirst : firstNumber (a :: b :: rest) = Ok (a * 40 + b)).
  { unfold firstNumber. destruct (Z.leb_spec 0 a), (Z.leb_spec a 2), (Z.leb_spec 0 b), (Z.leb_spec b 39); try lia. easy. }
  set (payload := encode128 (a * 40 + b) ++ concat (map encode128 rest)).
  assert (Hp : zlen payload < 2 ^ 31).
  { subst payload. rewrite length_app. cbn [map concat] in Hlen. rewrite !length_app in Hlen.
    assert (H1 : length (encode128 (a * 40 + b)) = 1%nat) by (unfold encode128; destruct (Z.ltb_spec (a * 40 + b) 128); [easy | lia]).
    pose proof (encode128_nonempty a) as Hne. destruct (encode128 a); [easy |]. cbn in *. lia. }
  destruct (encodeHeader_spec DerNodeType_ObjectIdentifier (zlen payload)) as (h & Hh & _); [unfold is_byte, DerNodeType_ObjectIdentifier; lia | lia |].
  exists (DerLeaf DerNodeType_ObjectIdentifier h payload). split_and!.
  - unfold DerOid_new. rewrite Hfirst. cbn [mbind result_bind drop]. rewrite drop_0. fold payload. unfold leaf_new. now rewrite Hh.
  - cbn [canonical]. rewrite Hh, bool_decide_true by easy. reflexivity.
  - unfold toVal. cbn [nodeType Z.eqb Pos.eqb getPayload]. change (DerNodeType_ObjectIdentifier =? DerNodeType_ObjectIdentifier) with true.
    cbn iota. unfold oid_toVal. subst payload.
    change (encode128 (a * 40 + b) ++ concat (map encode128 rest)) with (concat (map encode128 (a * 40 + b :: rest))).
    rewrite oid_components_encode by (constructor; [lia | easy] || easy). cbn [mbind result_bind].
    replace (Z.quot (a * 40 + b) 40) with a by (rewrite Z.quot_div_nonneg by lia; Z.to_euclidean_division_equations; lia).
    replace (Z.rem (a * 40 + b) 40) with b by (rewrite Z.rem_mod_nonneg by lia; Z.to_euclidean_division_equations; lia).
    change (oid_toString (a :: b :: rest)) with (print_int a ++ DOT :: oid_toString (b :: rest)).
    cbn [mret result_ret]. do 3 f_equal. clear. revert b. induction rest as [| n rest IH]; intros b; cbn [map concat]; [cbn; now rewrite app_nil_r |].
    change (oid_toString (b :: n :: rest)) with (print_int b ++ DOT :: oid_toString (n :: rest)).
    cbn [app]. do 2 f_equal. apply IH.
  - apply oid_text_roundtrip; [easy |]. unfold is_int. repeat constructor; try lia.
    eapply Forall_impl; [exact Hr |]. cbn. lia.
Qed.

Lemma oid_roundtrip_witness :
  exists t, DerOid_new [2; 5; 29; 311] = Ok t /\ canonical t = true /\ toVal t = Ok (oid_toString [2; 5; 29; 311]) /\
    OID_of_string (oid_toString [2; 5; 29; 311]) = [2; 5; 29; 311].
Proof.
  apply (oid_roundtrip [2; 5; 29; 311]); [| reflexivity].
  split; [lia |]. split; [lia |]. repeat constructor; reflexivity || discriminate.
Defined.

(** In X.690 [2.100] is encoded as the number 180, which is taken for [4.20]. *)
Example oid_of_180 : oid_toVal [129; 52] = Ok (chars "4.20").
Proof. reflexivity. Qed.

(** ** Times *)

(** Whole seconds from 1970 to 2049, the years that two digits can say. *)
Definition utc_time_ok (ms : Z) : Prop := encodable_time ms /\ ms < 2524608000000.

Lemma stoi_digits d e : 0 <= d < 10 -> 0 <= e < 10 -> stoi [48 + d; 48 + e] = Ok (10 * d + e).
Proof.
  intros Hd He. assert (Hc : forall n, 0 <= n < 10 -> is_space (48 + n) = false /\ is_digit_char (48 + n) = true).
  { intros n Hn. unfold is_space, is_digit_char. split; lia. }
  destruct (Hc d Hd) as [Hs Hg]. destruct (Hc e He) as [_ Hg'].
  unfold stoi. cbn [skip_space]. rewrite Hs, (proj2 (Z.eqb_neq _ 45)), (proj2 (Z.eqb_neq _ 43)), Hg by lia.
  unfold is_digit_char in *. cbn [read_digits]. rewrite Hg, Hg'. cbn. f_equal. lia.
Qed.

Lemma utc_year ms : utc_time_ok ms -> 1970 <= tm_year (gmtime (ms / 1000)) < 2050.
Proof.
  intros [[Hr Hm] Hlt]. destruct (gmtime_spec (ms / 1000)) as (_ & Hy & _ & _ & _ & _ & _ & Hd); [Z.to_euclidean_division_equations; lia |].
  split; [easy |]. apply Z.nle_gt. intros Hge.
  assert (Hdays : ms / 1000 / 86400 < 29220) by (Z.to_euclidean_division_equations; lia).
  assert (Hlow : 29220 <= days_to_year (tm_year (gmtime (ms / 1000)))).
  { unfold days_to_year. change (leaps_before 1970) with 477. unfold leaps_before.
    generalize dependent (tm_year (gmtime (ms / 1000))). clear. intros y _ _ Hy. Z.to_euclidean_division_equations; lia. }
  lia.
Qed.

Lemma utcTime_string ms :
  utc_time_ok ms -> exists s, toUtcTimeString ms = Ok s /\ length s = 13%nat /\
    forall header, UtcTime_toTimePoint (DerLeaf DerNodeType_UtcTime header s) = Ok (ms * 1000000).
Proof.
  intros Hok. pose proof (utc_year ms Hok) as Hy. destruct Hok as [Ht Hlt]. destruct (iso_string_ok ms Ht) as (Hp & _ & Hf).
  unfold toUtcTimeString. rewrite Hp. destruct Ht as [Hr Hm].
  unfold ndn_toIsoString in Hp. destruct (Z.ltb_spec ms 0); [lia |]. destruct (Z.gtb_spec ms 200000000000000); [lia |].
  replace ((ms + 500) / 1000) with (ms / 1000) in Hp by (Z.to_euclidean_division_equations; lia).
  set (t := gmtime (ms / 1000)) in *. cbv zeta in Hp. injection Hp as Hp. rewrite <- Hp in Hf |- *. cbn [print_d app take drop] in Hf |- *.
  eexists. split; [reflexivity |]. split; [reflexivity |]. intros header. unfold UtcTime_toTimePoint. cbn [getPayload take drop app].
  rewrite stoi_digits by (apply Z.mod_pos_bound; lia). cbn [mbind result_bind substr_at length Nat.ltb Nat.leb take drop].
  set (y := tm_year t) in *.
  assert (Hprefix : (if 10 * (y / 10 mod 10) + y mod 10 >=? 50 then chars "19" else chars "20") =
    [48 + y / 10 / 10 / 10 mod 10; 48 + y / 10 / 10 mod 10]).
  { change (chars "19") with [48 + 1; 48 + 9]. change (chars "20") with [48 + 2; 48 + 0].
    assert (Hcase : (y < 2000 /\ 50 <= 10 * (y / 10 mod 10) + y mod 10 /\ y / 10 / 10 / 10 mod 10 = 1 /\ y / 10 / 10 mod 10 = 9) \/
      (2000 <= y /\ 10 * (y / 10 mod 10) + y mod 10 < 50 /\ y / 10 / 10 / 10 mod 10 = 2 /\ y / 10 / 10 mod 10 = 0)).
    { clearbody y. clear -Hy. Z.to_euclidean_division_equations; lia. }
    destruct Hcase as [(_ & Hc & -> & ->) | (_ & Hc & -> & ->)];
      destruct (Z.geb_spec (10 * (y / 10 mod 10) + y mod 10) 50); (easy || lia). }
  rewrite Hprefix. cbn [app]. unfold fromIsoString. rewrite Hf. unfold fromMilliseconds.
  destruct (Z.leb_spec (- 2 ^ 63) (ms * 1000000)), (Z.ltb_spec (ms * 1000000) (2 ^ 63)); (easy || lia).
Qed.

(** Times survive. A time of whole seconds from 1970 to 2049 is encoded and read as the same time. *)
Theorem utcTime_roundtrip (ms : Z) :
  utc_time_ok ms ->
  exists t, DerUtcTime_new ms = Ok t /\ canonical t = true /\ UtcTime_toTimePoint t = Ok (ms * 1000000).
Proof.
  intros Hok. destruct (utcTime_string ms Hok) as (s & Hs & Hl & Ht). unfold DerUtcTime_new. rewrite Hs. cbn [mbind result_bind].
  unfold leaf_new. destruct (encodeHeader_spec DerNodeType_UtcTime (zlen s)) as (h & Hh & _);
    [unfold is_byte, DerNodeType_UtcTime; lia | lia |].
  rewrite Hh. eexists. split; [reflexivity |]. split; [| apply Ht]. cbn [canonical]. rewrite Hh, bool_decide_true by easy. reflexivity.
Qed.

Lemma utcTime_roundtrip_witness :
  exists t, DerUtcTime_new 1609459200000 = Ok t /\ canonical t = true /\
    UtcTime_toTimePoint t = Ok (1609459200000 * 1000000).
Proof. apply (utcTime_roundtrip 1609459200000). split; [split; [lia | reflexivity] | reflexivity]. Defined.

(** Beyond these years the century is lost: the first second of 2050 is read as that of 1950. *)
Example utc_2050 : exists t, DerUtcTime_new 2524608000000 = Ok t /\ UtcTime_toTimePoint t = Ok (-631152000000 * 1000000).
Proof. eexists. split; [vm_compute; reflexivity | vm_compute; reflexivity]. Qed.
