(* ===== verification/Certificates.v ===== *)
(** * Certificates and the verification of signatures

    [CertificateV2] (src/security/v2/certificate-v2.cpp), a Data packet with a naming convention that may
    encapsulate an X.509 certificate, and [VerificationHelpers] (src/security/verification-helpers.cpp).
    The parser of X.509 certificates, the reading of public keys and the cryptography are an interface, which
    X509.v implements over the cryptography alone. *)

From stdpp Require Import base list numbers option strings.
From Stdlib Require Import ZArith Lia.
From S2P Require Import Prelude Order Name ChangeCounter ValidityPeriod Exclude DelegationSet Data TlvData Interest WireFormat Der.
Open Scope Z_scope.

(** An encoding with the offsets of its signed portion. *)
Abbreviation SignedBlob := (list Z * (Z * Z))%type.

Definition signed_portion (e : SignedBlob) : list Z :=
  take (Z.to_nat (e.2.2 - e.2.1)) (drop (Z.to_nat e.2.1) e.1).

Inductive KeyType := KEY_TYPE_RSA | KEY_TYPE_EC.

(** What [X509CertificateInfo] holds. *)
Record X509CertificateInfo := mkX509CertificateInfo {
  x509_signedEncoding : SignedBlob;
  x509_serialNumber : list Z;
  x509_issuerName : Name;
  x509_validityPeriod : Period;
  x509_subjectName : Name;
  x509_publicKey : list Z;
  x509_signatureValue : list Z;
  x509_crlDistributionUri : list Z
}.

(** The interface: the constructors of [X509CertificateInfo] and of [PublicKey], the two verifiers of
    libcrypto, which may report an error, and SHA-256. *)
Class Crypto := {
  parse_x509 : list Z -> result exn X509CertificateInfo;
  public_key_type : list Z -> result exn KeyType;
  verify_rsa : forall signature buffer keyDer : list Z, option bool;
  verify_ecdsa : forall signature buffer keyDer : list Z, option bool;
  digest_sha256 : list Z -> list Z
}.

(** A Data packet with its cached encoding, if it has one: a packet that was received has the encoding
    in which it was received. *)
Record DataPacket := mkDataPacket {
  packet_value : DataValue;
  packet_encoding : option SignedBlob
}.

Definition packet_name (p : DataPacket) : Name := data_name (packet_value p).

Definition packet_wireEncode (p : DataPacket) : result exn SignedBlob :=
  match packet_encoding p with
  | Some e => Ok e
  | None => encodeData (packet_value p)
  end.

Record Certificate := mkCertificate {
  cert_data : DataPacket;
  x509Info_ : option X509CertificateInfo
}.

Definition cert_name (c : Certificate) : Name := packet_name (cert_data c).
Definition cert_signature (c : Certificate) : SignatureValue := data_signature (packet_value (cert_data c)).

(** [Signature::getSignature]. *)
Definition signature_bits (signature : SignatureValue) : list Z :=
  match signature.1 with
  | Sha256WithRsaSignature bits | Sha256WithEcdsaSignature bits | HmacWithSha256Signature bits
  | DigestSha256Signature bits | GenericSignature bits _ _ => blob_bytes bits
  end.

(** An Interest with its cached encoding. *)
Record InterestPacket := mkInterestPacket {
  ip_value : InterestValue;
  ip_nonce : Blob;
  ip_encoding : option SignedBlob
}.

Definition ip_name (i : InterestPacket) : Name := interest_name (ip_value i).

(** ** The naming convention *)

Definition KEY_COMPONENT : Component := generic [75; 69; 89].
Definition X509_COMPONENT : Component := generic [120; 53; 48; 57].
Definition ISSUER_ID_OFFSET : Z := -2.
Definition KEY_ID_OFFSET : Z := -3.
Definition KEY_COMPONENT_OFFSET : Z := -4.
Definition MIN_CERT_NAME_LENGTH : Z := 4.

Definition isEncapsulatedX509 (name : Name) : bool :=
  (zlen name =? 2) &&
  match name_get name 0 with Ok c => component_equals c X509_COMPONENT | Err _ => false end.

Definition isValidName (certificateName : Name) : bool :=
  if isEncapsulatedX509 certificateName then true
  else (zlen certificateName >=? MIN_CERT_NAME_LENGTH) &&
       match name_get certificateName KEY_COMPONENT_OFFSET with
       | Ok c => component_equals c KEY_COMPONENT
       | Err _ => false
       end.

Definition cert_error {A} (what : string) : result exn A := Err (Exception "CertificateV2::Error" what).

Definition checkFormat (data : DataValue) : result exn unit :=
  if negb (isValidName (data_name data)) then
    cert_error "The Data Name does not follow the certificate naming convention"
  else if negb (mi_type_ (data_metaInfo data) =? ndn_ContentType_KEY) then
    cert_error "The Data ContentType is not KEY"
  else if freshnessPeriod_ (data_metaInfo data) <? 0 then
    cert_error "The Data FreshnessPeriod is not set"
  else if zlen (blob_bytes (data_content data)) =? 0 then
    cert_error "The Data Content is empty"
  else Ok tt.

Definition invalid_name {A} : result exn A :=
  Err (InvalidArgument "Certificate name does not follow the naming conventions").

Definition extractIdentityFromCertName (certificateName : Name) : result exn Name :=
  if negb (isValidName certificateName) then invalid_name
  else Ok (getPrefix certificateName KEY_COMPONENT_OFFSET).

Definition extractKeyNameFromCertName (certificateName : Name) : result exn Name :=
  if negb (isValidName certificateName) then invalid_name
  else Ok (getPrefix certificateName (KEY_ID_OFFSET + 1)).

(** The check of the accessors of the parts of the name. *)
Definition check_cert_name {A} (c : Certificate) (a : result exn A) : result exn A :=
  if zlen (cert_name c) <? MIN_CERT_NAME_LENGTH then
    cert_error "The certificate has an encapsulated X.509 name, not an NDN cert name"
  else a.

Definition getKeyName (c : Certificate) : result exn Name :=
  check_cert_name c (Ok (getPrefix (cert_name c) (KEY_ID_OFFSET + 1))).
Definition getIdentity (c : Certificate) : result exn Name :=
  check_cert_name c (Ok (getPrefix (cert_name c) KEY_COMPONENT_OFFSET)).
Definition getKeyId (c : Certificate) : result exn Component :=
  check_cert_name c (name_get (cert_name c) KEY_ID_OFFSET).
Definition getIssuerId (c : Certificate) : result exn Component :=
  check_cert_name c (name_get (cert_name c) ISSUER_ID_OFFSET).

(** The names of keys ([PibKey] of src/security/pib/pib-key.cpp): an identity, KEY and the key id. *)
Definition MIN_KEY_NAME_LENGTH : Z := 2.

Definition isValidKeyName (keyName : Name) : bool :=
  (zlen keyName >? MIN_KEY_NAME_LENGTH) &&
  match name_get keyName (- MIN_KEY_NAME_LENGTH) with
  | Ok c => component_equals c KEY_COMPONENT
  | Err _ => false
  end.

Definition extractIdentityFromKeyName (keyName : Name) : result exn Name :=
  if negb (isValidKeyName keyName) then
    Err (InvalidArgument "Key name does not follow the naming conventions")
  else Ok (getPrefix keyName (- MIN_KEY_NAME_LENGTH)).

Definition constructKeyName (identityName : Name) (keyId : Component) : Name :=
  append (append identityName KEY_COMPONENT) keyId.

(** ** Verifying signatures *)

Section Crypto.
Context `{Crypto}.

(** The constructor from a Data packet: with a DigestSha256 signature the content may be an X.509
    certificate; the errors of the parser are ignored. *)
Definition find_x509Info (data : DataValue) : option X509CertificateInfo :=
  match (data_signature data).1 with
  | DigestSha256Signature _ =>
      match parse_x509 (blob_bytes (data_content data)) with Ok info => Some info | Err _ => None end
  | _ => None
  end.

Definition CertificateV2_of_data (p : DataPacket) : result exn Certificate :=
  let x509Info := find_x509Info (packet_value p) in
  _ ← checkFormat (packet_value p);
  mret (mkCertificate p x509Info).

(** The same constructor with a Data packet that is a certificate. *)
Definition CertificateV2_copy (c : Certificate) : result exn Certificate :=
  _ ← checkFormat (packet_value (cert_data c));
  mret c.

(** [CertificateV2()]. *)
Definition CertificateV2_object : DataObject :=
  object_ (data_cached (Data_getMetaInfo (MetaInfo_setType ndn_ContentType_KEY)
    (Data_new [] (mkMetaInfoFields (-1000000) 0 (-1) (-1) (generic []))))).

(** The Data packet that encapsulates an X.509 certificate, with its signature. *)
Definition encapsulate (info : X509CertificateInfo) (input : list Z) (signature : Blob) : DataValue :=
  (Some input, ((DigestSha256Signature signature, (value_of KeyLocator_new, no_period)),
   (x509_subjectName info,
    mkMetaInfoFields (-1000000) ndn_ContentType_KEY (-1) 3600000000000 (generic [])))).

Definition encapsulate_x509 (input : list Z) : result exn (list Z) :=
  info ← parse_x509 input;
  encoding ← encodeData (encapsulate info input None);
  let digest := digest_sha256 (signed_portion encoding) in
  signed ← encodeData (encapsulate info input (Some digest));
  mret signed.1.

(** [wireDecode] of a new [CertificateV2]. *)
Definition CertificateV2_wireDecode (input : list Z) : result exn Certificate :=
  input ← (match input with
           | b :: _ => if b =? DerNodeType_Sequence then encapsulate_x509 input else mret input
           | [] => mret input
           end);
  '(data, signedPortion) ← decodeData input CertificateV2_object;
  CertificateV2_of_data (mkDataPacket (value_of data) (Some (input, signedPortion))).

Definition getPublicKey (c : Certificate) : result exn (list Z) :=
  match x509Info_ c with
  | Some info => Ok (x509_publicKey info)
  | None =>
      let content := blob_bytes (data_content (packet_value (cert_data c))) in
      if zlen content =? 0 then cert_error "The public key is not set (the Data content is empty)"
      else Ok content
  end.

(** [ValidityPeriod::canGetFromSignature]. *)
Definition has_validityPeriod (signature : SignatureValue) : bool :=
  match signature.1 with HmacWithSha256Signature _ => false | _ => true end.

Definition getValidityPeriod (c : Certificate) : result exn Period :=
  match x509Info_ c with
  | Some info => Ok (x509_validityPeriod info)
  | None =>
      if negb (has_validityPeriod (cert_signature c)) then
        Err (InvalidArgument "The SignatureInfo does not have a ValidityPeriod")
      else Ok (cert_signature c).2.2
  end.

(** [ValidityPeriod::isValid()]: the time in nanoseconds is rounded to milliseconds and then up to
    seconds. *)
Definition round_ms (now : Z) : Z := (now + 500000) / 1000000.

Definition cert_isValid (c : Certificate) (now : Z) : result exn bool :=
  period ← getValidityPeriod c;
  mret (ValidityPeriod_isValid_now period (round_ms now)).

Definition hasIssuerName (c : Certificate) : result exn bool :=
  match x509Info_ c with
  | Some _ => Ok true
  | None =>
      if canGetFromSignature (cert_signature c) then
        keyLocator ← getFromSignature (cert_signature c);
        mret (bool_decide (kl_type_ keyLocator.1 = KEYNAME))
      else Ok false
  end.

Definition getIssuerName (c : Certificate) : result exn Name :=
  match x509Info_ c with
  | Some info => Ok (x509_issuerName info)
  | None => keyLocator ← getFromSignature (cert_signature c); mret keyLocator.2
  end.

(** [None] is a null blob. *)
Definition getSignedEncoding (c : Certificate) : option SignedBlob :=
  match x509Info_ c with
  | Some info => Some (x509_signedEncoding info)
  | None => match packet_wireEncode (cert_data c) with Ok e => Some e | Err _ => None end
  end.

Definition getSignatureValue (c : Certificate) : list Z :=
  match x509Info_ c with
  | Some info => x509_signatureValue info
  | None => signature_bits (cert_signature c)
  end.

Definition getX509SerialNumber (c : Certificate) : list Z :=
  match x509Info_ c with Some info => x509_serialNumber info | None => [] end.

(** [verifySignature] with a [PublicKey]. *)
Definition verifySignature_key (buffer signature publicKey : list Z) (type : KeyType) : bool :=
  match (match type with
         | KEY_TYPE_RSA => verify_rsa signature buffer publicKey
         | KEY_TYPE_EC => verify_ecdsa signature buffer publicKey
         end) with
  | Some verified => verified
  | None => false
  end.

Definition UnrecognizedKeyFormatException : string := "UnrecognizedKeyFormatException".

(** [f] of a [PublicKey]; an unrecognized key format means false. *)
Definition with_publicKey (publicKeyDer : list Z) (f : KeyType -> result exn bool) : result exn bool :=
  match public_key_type publicKeyDer with
  | Ok type => f type
  | Err (Exception class what) =>
      if bool_decide (class = UnrecognizedKeyFormatException) then Ok false
      else Err (Exception class what)
  | Err e => Err e
  end.

Definition verifySignature (buffer signature publicKeyDer : list Z) : result exn bool :=
  with_publicKey publicKeyDer (fun type => Ok (verifySignature_key buffer signature publicKeyDer type)).

(** What is signed and the signature, of a Data packet that is a certificate or not. *)
Definition packet_signed (data : DataPacket) : option (list Z * list Z) :=
  match packet_wireEncode data with
  | Ok e => Some (signed_portion e, signature_bits (data_signature (packet_value data)))
  | Err _ => None
  end.

Definition certificate_signed (c : Certificate) : option (list Z * list Z) :=
  match getSignedEncoding c with
  | Some e => Some (signed_portion e, getSignatureValue c)
  | None => None
  end.

Definition verify_signed (signed : option (list Z * list Z)) (publicKeyDer : list Z) : result exn bool :=
  with_publicKey publicKeyDer (fun type =>
    match signed with
    | None => Ok false
    | Some (buffer, signature) => Ok (verifySignature_key buffer signature publicKeyDer type)
    end).

Definition verifyDataSignature (signed : option (list Z * list Z)) (certificate : Certificate) :
    result exn bool :=
  publicKey ← getPublicKey certificate;
  verify_signed signed publicKey.

(** [extractSignature]: from the last two components of the name. *)
Definition extractSignature (interest : InterestPacket) : option Signature :=
  if zlen (ip_name interest) <? 2 then None
  else
    match (info ← name_get (ip_name interest) (-2);
           value ← name_get (ip_name interest) (-1);
           decodeSignatureInfoAndValue (value_ info) (value_ value)) with
    | Ok signature => Some signature
    | Err _ => None
    end.

(** [Interest::wireEncode]; [random] is for a nonce that is not set. *)
Definition interest_packet_wireEncode (random : list Z) (interest : InterestPacket) : result exn SignedBlob :=
  match ip_encoding interest with
  | Some e => Ok e
  | None => encodeInterest true random (ip_value interest) (ip_nonce interest)
  end.

Definition interest_signed (random : list Z) (interest : InterestPacket) : option (list Z * list Z) :=
  match extractSignature interest with
  | None => None
  | Some signature =>
      match interest_packet_wireEncode random interest with
      | Ok e => Some (signed_portion e, signature_bits (value_of signature))
      | Err _ => None
      end
  end.

(** [verifyInterestSignature] with a certificate. *)
Definition verifyInterestSignature (random : list Z) (interest : InterestPacket) (certificate : Certificate) :
    result exn bool :=
  publicKey ← getPublicKey certificate;
  verify_signed (interest_signed random interest) publicKey.

(** [verifyDigest] and its two uses. *)
Definition verifyDigest (buffer digest : list Z) : bool := 
  (zlen digest =? 32) && bool_decide (digest = digest_sha256 buffer).

Definition verifyDataDigest (data : DataPacket) : bool :=
  match packet_signed data with Some (buffer, digest) => verifyDigest buffer digest | None => false end.

Definition verifyInterestDigest (random : list Z) (interest : InterestPacket) : bool :=
  match interest_signed random interest with
  | Some (buffer, digest) => verifyDigest buffer digest
  | None => false
  end.
End Crypto.

(** A copy is the certificate. *)
Lemma copy_same c c' : CertificateV2_copy c = Ok c' -> c' = c.
Proof. unfold CertificateV2_copy. destruct (checkFormat _) as [[] |]; [now intros [= <-] | easy]. Qed.

(** ** A toy cryptography for the examples

    A key verifies the signatures that are equal to it. *)

Definition toy_crypto : Crypto := {|
  parse_x509 := fun bytes =>
    match bytes with
    | 48 :: serial =>
        Ok (mkX509CertificateInfo (bytes, (0, zlen bytes)) serial [generic [73]] (0, 4000000000000)
              [generic [83]] [1; 7] [1; 8] [])
    | _ => Err (RuntimeError "X509CertificateInfo: Cannot decode certificate")
    end;
  public_key_type := fun key =>
    match key with
    | 1 :: _ => Ok KEY_TYPE_RSA
    | _ => Err (Exception UnrecognizedKeyFormatException "Unrecognized OID")
    end;
  verify_rsa := fun signature _ key => Some (bool_decide (signature = key));
  verify_ecdsa := fun _ _ _ => None;
  digest_sha256 := fun bytes => take 32 (map (fun b => b mod 256) bytes ++ repeat 0 32)
|}.
#[local] Existing Instance toy_crypto.

(** A certificate for a name, with the name of the key locator, a key and a signature, valid from 1970 to 2096. *)
Definition toy_data (name issuer : Name) (key signature : list Z) : DataValue :=
  (Some key,
   ((Sha256WithRsaSignature (Some signature), ((mkKeyLocatorFields KEYNAME None, issuer), (0, 4000000000000))),
    (name, mkMetaInfoFields (-1000000) ndn_ContentType_KEY (-1) 3600000000000 (generic [])))).
Definition toy_certificate (name issuer : Name) (key signature : list Z) : Certificate :=
  mkCertificate (mkDataPacket (toy_data name issuer key signature) None) None.

(** An X.509 certificate that is encapsulated. *)
Definition toy_x509 (name : Name) (serial : Z) : Certificate :=
  let v := (Some [48; serial],
            ((DigestSha256Signature None, ((mkKeyLocatorFields KL_NONE None, []), no_period)),
             (name, mkMetaInfoFields (-1000000) ndn_ContentType_KEY (-1) 3600000000000 (generic [])))) in
  mkCertificate (mkDataPacket v None) (find_x509Info v).

(** /<identity>/KEY/k/i/v *)
Definition toy_key_name (identity : Name) : Name := identity ++ [KEY_COMPONENT; generic [107]].
Definition toy_cert_name (identity : Name) : Name := toy_key_name identity ++ [generic [105]; generic [118]].

Example toy_verifies :
  let c := toy_certificate (toy_cert_name [generic [97]]) (toy_key_name []) [1; 2] [1; 3] in
  let issuer := toy_certificate (toy_cert_name []) (toy_key_name []) [1; 3] [1; 3] in
  match CertificateV2_of_data (cert_data c) with
  | Ok c' => c' = c /\ verifyDataSignature (certificate_signed c) issuer = Ok true /\
             verifyDataSignature (certificate_signed c) c = Ok false
  | Err _ => False
  end.
Proof. vm_compute. auto. Qed.
