(* ===== verification/CertStorage.v ===== *)
(** * The storage of a validator

    The cache of certificates (src/security/v2/certificate-cache-v2.cpp), the cache of revocation lists
    (x509-crl-cache.cpp), the container of trust anchors with its groups (trust-anchor-container.cpp,
    trust-anchor-group.cpp) and [CertificateStorage] (certificate-storage.cpp). A time is a number of
    nanoseconds since 1970; an operation sees one time. *)

From stdpp Require Import base list numbers option strings.
From Stdlib Require Import ZArith Lia.
From S2P Require Import Prelude Order Actions Name ValidityPeriod Exclude Data Interest WireFormat Certificates NameMap.
Open Scope Z_scope.

(** [system_clock::time_point::max()]. *)
Definition time_max : Z := 2 ^ 63 - 1.

(** An element of the [NameMap] of a cache: what it holds and when it goes. *)
Record CacheEntry (A : Type) := mkCacheEntry { entry_value : A; removalTime_ : Z }.
Arguments mkCacheEntry {A}.
Arguments entry_value {A}.
Arguments removalTime_ {A}.

(** The end of a validity period as a time point; the conversion is undefined for a time far away. *)
Definition getNotAfter (period : Period) : result exn Z := fromMilliseconds (period.2 * 1000000).

(** ** What [refresh] does in both caches *)

Section Refresh.
Context {A : Type}.

Definition next_refresh (now : Z) (m : NameMap (CacheEntry A)) : Z :=
  fold_left (fun next e => if removalTime_ e.2 <=? now then next else Z.min next (removalTime_ e.2)) m time_max.

Definition refresh_names (now : Z) (m : NameMap (CacheEntry A)) : list Name :=
  omap (fun e => if removalTime_ e.2 <=? now then Some e.1 else None) m.

(** The map and [nextRefreshTime_]. *)
Definition cache_refresh (now : Z) (m : NameMap (CacheEntry A)) (nextRefreshTime : Z) :
    NameMap (CacheEntry A) * Z :=
  if now <? nextRefreshTime then (m, nextRefreshTime)
  else (fold_left map_erase (refresh_names now m) m, next_refresh now m).
End Refresh.

(** ** Certificate cache *)

Record CertificateCacheV2 := mkCertificateCacheV2 {
  certificatesByName_ : NameMap (CacheEntry Certificate);
  nextRefreshTime_ : Z;
  maxLifetime_ : Z;
  nowOffset_ : Z
}.

Definition CertificateCacheV2_new (maxLifetime : Z) : CertificateCacheV2 :=
  mkCertificateCacheV2 [] time_max maxLifetime 0.

Definition with_certificates (m : NameMap (CacheEntry Certificate)) (next : Z) (self : CertificateCacheV2) :=
  mkCertificateCacheV2 m next (maxLifetime_ self) (nowOffset_ self).

Definition certificate_refresh (now : Z) (self : CertificateCacheV2) : CertificateCacheV2 :=
  let '(m, next) := cache_refresh (now + nowOffset_ self) (certificatesByName_ self) (nextRefreshTime_ self) in
  with_certificates m next self.

(** [insert]. The refresh time is set before the certificate is copied, which may throw. *)
Definition certificate_insert (now : Z) (certificate : Certificate) (self : CertificateCacheV2) :
    CertificateCacheV2 * result exn unit :=
  match period ← getValidityPeriod certificate; getNotAfter period with
  | Err e => (self, Err e)
  | Ok notAfterTime =>
      let now := now + nowOffset_ self in
      if notAfterTime <? now then (self, Ok tt)
      else
        let removalTime := Z.min notAfterTime (now + maxLifetime_ self) in
        let next := if removalTime <? nextRefreshTime_ self then removalTime else nextRefreshTime_ self in
        match CertificateV2_copy certificate with
        | Err e => (with_certificates (certificatesByName_ self) next self, Err e)
        | Ok copy =>
            (with_certificates
               (map_set (certificatesByName_ self) (cert_name copy) (mkCacheEntry copy removalTime)) next self,
             Ok tt)
        end
  end.

(** The first entry from the lower bound of a prefix. *)
Definition find_with_prefix {V} (m : NameMap V) (cert : V -> Certificate) (prefix : Name) : option Certificate :=
  match lower_bound m prefix with
  | (_, e) :: _ => if negb (name_match prefix (cert_name (cert e))) then None else Some (cert e)
  | [] => None
  end.

Definition certificate_find_prefix (now : Z) (certificatePrefix : Name) (self : CertificateCacheV2) :
    CertificateCacheV2 * option Certificate :=
  let self := certificate_refresh now self in
  (self, find_with_prefix (certificatesByName_ self) entry_value certificatePrefix).

Section Matching.
Context `{Crypto}.

(** [getFullName] of a packet, with its current encoding. *)
Definition packet_fullName (p : DataPacket) : result exn Name :=
  encoding ← packet_wireEncode p;
  mret (packet_name p ++ [mkComponent IMPLICIT_SHA256_DIGEST (-1) (digest_sha256 encoding.1)]).

(** Where [matchesData] asks for the full name: it compares a digest at the end of the name of the
    Interest, or excludes the digest. *)
Definition needs_fullName (i : InterestValue) (p : DataPacket) : bool :=
  let n := zlen (interest_name i) in
  let full := zlen (packet_name p) + 1 in
  negb ((minSuffixComponents_ i.1 >=? 0) && (n + minSuffixComponents_ i.1 >? full)) &&
  negb ((maxSuffixComponents_ i.1 >=? 0) && (n + maxSuffixComponents_ i.1 <? full)) &&
  (((n =? full) &&
    match name_get (interest_name i) (-1) with Ok c => isImplicitSha256Digest c | Err _ => false end) ||
   ((zlen (interest_exclude i) >? 0) && (n =? full - 1) && name_match (interest_name i) (packet_name p))).

Definition packet_matches (i : InterestValue) (p : DataPacket) : result exn bool :=
  fullName ← (if needs_fullName i p then packet_fullName p else Ok (packet_name p));
  matchesData i (packet_value p) fullName.

(** The loop over the entries from the lower bound while the prefix matches. *)
Fixpoint find_matching {V} (cert : V -> Certificate) (interest : InterestValue) (m : NameMap V) :
    result exn (option Certificate) :=
  match m with
  | [] => Ok None
  | (_, e) :: m =>
      if negb (name_match (interest_name interest) (cert_name (cert e))) then Ok None
      else
        matches ← packet_matches interest (cert_data (cert e));
        if matches : bool then Ok (Some (cert e)) else find_matching cert interest m
  end.

Definition certificate_find (now : Z) (interest : InterestValue) (self : CertificateCacheV2) :
    CertificateCacheV2 * result exn (option Certificate) :=
  let self := certificate_refresh now self in
  (self, find_matching entry_value interest
           (lower_bound (certificatesByName_ self) (interest_name interest))).
End Matching.

Definition deleteCertificate (certificateName : Name) (self : CertificateCacheV2) : CertificateCacheV2 :=
  with_certificates (map_erase (certificatesByName_ self) certificateName) (nextRefreshTime_ self) self.

Definition certificate_clear (self : CertificateCacheV2) : CertificateCacheV2 :=
  with_certificates [] time_max self.

Definition setNowOffset_ (nowOffset : Z) (self : CertificateCacheV2) : CertificateCacheV2 :=
  mkCertificateCacheV2 (certificatesByName_ self) (nextRefreshTime_ self) (maxLifetime_ self) nowOffset.

(** ** Revocation lists *)

(** A revoked certificate: its serial number and the time. *)
Record RevokedCertificate := mkRevokedCertificate {
  revoked_serialNumber : list Z;
  revocationDate_ : Z
}.

(** What [X509CrlInfo] holds. *)
Record X509CrlInfo := mkX509CrlInfo {
  crl_issuerName : Name;
  thisUpdate_ : Z;
  nextUpdate_ : Z;
  revokedCertificates_ : list RevokedCertificate
}.

Record X509CrlCache := mkX509CrlCache {
  crlsByName_ : NameMap (CacheEntry X509CrlInfo);
  crl_nextRefreshTime_ : Z
}.

Definition X509CrlCache_new : X509CrlCache := mkX509CrlCache [] time_max.

Definition crl_refresh (now : Z) (self : X509CrlCache) : X509CrlCache :=
  let '(m, next) := cache_refresh now (crlsByName_ self) (crl_nextRefreshTime_ self) in mkX509CrlCache m next.

Definition crl_find (now : Z) (issuerName : Name) (self : X509CrlCache) : X509CrlCache * option X509CrlInfo :=
  let self := crl_refresh now self in
  (self, match map_find (crlsByName_ self) issuerName with Some e => Some (entry_value e) | None => None end).

Definition crl_insert (now : Z) (crlInfo : X509CrlInfo) (self : X509CrlCache) : X509CrlCache * bool :=
  if now <? thisUpdate_ crlInfo then (self, false)
  else if nextUpdate_ crlInfo <? now then (self, false)
  else
    let '(self, other) := crl_find now (crl_issuerName crlInfo) self in
    if match other with Some other => thisUpdate_ other >? thisUpdate_ crlInfo | None => false end
    then (self, false)
    else
      let next := if nextUpdate_ crlInfo <? crl_nextRefreshTime_ self then nextUpdate_ crlInfo
                  else crl_nextRefreshTime_ self in
      (mkX509CrlCache (map_set (crlsByName_ self) (crl_issuerName crlInfo)
                         (mkCacheEntry crlInfo (nextUpdate_ crlInfo))) next, true).

Definition crl_clear (self : X509CrlCache) : X509CrlCache := X509CrlCache_new.

(** ** Trust anchors *)

(** The names of the anchors of a group are a [std::set]. *)
Inductive AnchorGroup :=
| StaticTrustAnchorGroup (anchorNames_ : NameMap unit)
| DynamicTrustAnchorGroup (anchorNames_ : NameMap unit) (isDirectory_ : bool) (path_ : list Z)
    (refreshPeriod_ expireTime_ : Z).

Record TrustAnchorContainer := mkTrustAnchorContainer {
  groups_ : list (list Z * AnchorGroup);
  anchorsByName_ : NameMap Certificate
}.

Definition TrustAnchorContainer_new : TrustAnchorContainer := mkTrustAnchorContainer [] [].

(** The files that the dynamic groups read: [readCertificate] of a path, and the regular files of a
    directory. *)
Record Files := mkFiles {
  readCertificate : list Z -> option Certificate;
  readDirectory : list Z -> list (list Z)
}.

Definition anchor_error {A} (what : string) : result exn A :=
  Err (Exception "TrustAnchorContainer::Error" what).

(** [AnchorContainer::add] and [remove]. *)
Definition anchor_add (certificate : Certificate) (anchors : NameMap Certificate) :
    NameMap Certificate * result exn unit :=
  match CertificateV2_copy certificate with
  | Err e => (anchors, Err e)
  | Ok copy => (map_set anchors (cert_name copy) copy, Ok tt)
  end.

Definition anchor_remove (certificateName : Name) (anchors : NameMap Certificate) : NameMap Certificate :=
  map_erase anchors certificateName.

Definition names_count (names : NameMap unit) (name : Name) : bool :=
  match map_find names name with Some _ => true | None => false end.

(** [StaticTrustAnchorGroup::add], on the names of the group and the anchors of the container. *)
Definition static_add (now : Z) (certificate : Certificate) (names : NameMap unit)
    (anchors : NameMap Certificate) : NameMap unit * NameMap Certificate * result exn unit :=
  if names_count names (cert_name certificate) then (names, anchors, Ok tt)
  else
    match cert_isValid certificate now with
    | Err e => (names, anchors, Err e)
    | Ok false => (names, anchors, Ok tt)
    | Ok true =>
        let '(anchors, r) := anchor_add certificate anchors in
        (map_set names (cert_name certificate) tt, anchors, r)
    end.

Definition static_remove (certificateName : Name) (names : NameMap unit) (anchors : NameMap Certificate) :
    NameMap unit * NameMap Certificate :=
  (map_erase names certificateName, anchor_remove certificateName anchors).

(** [loadCertificate] of a dynamic group, on the names, the anchors and the old names. *)
Definition loadCertificate (files : Files) (now : Z) (file : list Z)
    (s : NameMap unit * NameMap Certificate * NameMap unit) :
    NameMap unit * NameMap Certificate * NameMap unit * result exn unit :=
  let '(names, anchors, oldAnchorNames) := s in
  match readCertificate files file with
  | None => (s, Ok tt)
  | Some certificate =>
      match cert_isValid certificate now with
      | Err e => (s, Err e)
      | Ok false => (s, Ok tt)
      | Ok true =>
          if negb (names_count names (cert_name certificate)) then
            let '(anchors, r) := anchor_add certificate anchors in
            (map_set names (cert_name certificate) tt, anchors, oldAnchorNames, r)
          else (names, anchors, map_erase oldAnchorNames (cert_name certificate), Ok tt)
      end
  end.

Fixpoint load_files (files : Files) (now : Z) (l : list (list Z))
    (s : NameMap unit * NameMap Certificate * NameMap unit) :
    NameMap unit * NameMap Certificate * NameMap unit * result exn unit :=
  match l with
  | [] => (s, Ok tt)
  | file :: l =>
      let '(s, r) := loadCertificate files now file s in
      match r with Ok _ => load_files files now l s | Err e => (s, Err e) end
  end.

(** [refresh] of a group; a static group does nothing. The expire time is set first. *)
Definition group_refresh (files : Files) (now : Z) (group : AnchorGroup) (anchors : NameMap Certificate) :
    AnchorGroup * NameMap Certificate * result exn unit :=
  match group with
  | StaticTrustAnchorGroup _ => (group, anchors, Ok tt)
  | DynamicTrustAnchorGroup names isDirectory path refreshPeriod expireTime =>
      if expireTime >? now then (group, anchors, Ok tt)
      else
        let paths := if negb isDirectory then [path]
                     else map (fun name => path ++ 47 :: name) (readDirectory files path) in
        let '(names, anchors, old, r) := load_files files now paths (names, anchors, names) in
        let finish names := DynamicTrustAnchorGroup names isDirectory path refreshPeriod (now + refreshPeriod) in
        match r with
        | Err e => (finish names, anchors, Err e)
        | Ok _ => (finish (fold_left map_erase (map fst old) names), fold_left map_erase (map fst old) anchors, Ok tt)
        end
  end.

Fixpoint refresh_groups (files : Files) (now : Z) (groups : list (list Z * AnchorGroup))
    (anchors : NameMap Certificate) : list (list Z * AnchorGroup) * NameMap Certificate * result exn unit :=
  match groups with
  | [] => ([], anchors, Ok tt)
  | (id, group) :: groups =>
      let '(group, anchors, r) := group_refresh files now group anchors in
      match r with
      | Err e => ((id, group) :: groups, anchors, Err e)
      | Ok _ =>
          let '(groups, anchors, r) := refresh_groups files now groups anchors in
          ((id, group) :: groups, anchors, r)
      end
  end.

Definition anchors_refresh (files : Files) (now : Z) (self : TrustAnchorContainer) :
    TrustAnchorContainer * result exn unit :=
  let '(groups, anchors, r) := refresh_groups files now (groups_ self) (anchorsByName_ self) in
  (mkTrustAnchorContainer groups anchors, r).

(** The map of the groups, in the order of [std::string]. *)
Definition id_compare (a b : list Z) : Z := lex Z.sub a b.

Fixpoint group_find (groups : list (list Z * AnchorGroup)) (id : list Z) : option AnchorGroup :=
  match groups with
  | [] => None
  | (id', group) :: groups => if bool_decide (id = id') then Some group else group_find groups id
  end.

Fixpoint group_set (groups : list (list Z * AnchorGroup)) (id : list Z) (group : AnchorGroup) :
    list (list Z * AnchorGroup) :=
  match groups with
  | [] => [(id, group)]
  | (id', g) :: rest =>
      if id_compare id id' <? 0 then (id, group) :: groups
      else if id_compare id id' =? 0 then (id, group) :: rest
      else (id', g) :: group_set rest id group
  end.

(** [insert] of a certificate into a static group. *)
Definition anchors_insert (now : Z) (groupId : list Z) (certificate : Certificate) (self : TrustAnchorContainer) :
    TrustAnchorContainer * result exn unit :=
  let group := match group_find (groups_ self) groupId with
               | Some group => group
               | None => StaticTrustAnchorGroup []
               end in
  match group with
  | DynamicTrustAnchorGroup _ _ _ _ _ =>
      (self, anchor_error "Cannot add a static anchor to the non-static anchor group")
  | StaticTrustAnchorGroup names =>
      let '(names, anchors, r) := static_add now certificate names (anchorsByName_ self) in
      (mkTrustAnchorContainer (group_set (groups_ self) groupId (StaticTrustAnchorGroup names)) anchors, r)
  end.

(** [insert] of a dynamic group. The group is put into the map after its first refresh; an exception of
    the refresh leaves the anchors that were loaded. *)
Definition anchors_insert_dynamic (files : Files) (now : Z) (groupId path : list Z) (refreshPeriod : Z)
    (isDirectory : bool) (self : TrustAnchorContainer) : TrustAnchorContainer * result exn unit :=
  match group_find (groups_ self) groupId with
  | Some _ => (self, anchor_error "Cannot create the dynamic group, because the group already exists")
  | None =>
      if refreshPeriod <=? 0 then
        (mkTrustAnchorContainer (groups_ self) (anchorsByName_ self),
         Err (RuntimeError "Refresh period for the dynamic group must be positive"))
      else
        let '(group, anchors, r) :=
          group_refresh files now (DynamicTrustAnchorGroup [] isDirectory path refreshPeriod 0) (anchorsByName_ self) in
        match r with
        | Err e => (mkTrustAnchorContainer (groups_ self) anchors, Err e)
        | Ok _ => (mkTrustAnchorContainer (group_set (groups_ self) groupId group) anchors, Ok tt)
        end
  end.

Definition anchors_clear (self : TrustAnchorContainer) : TrustAnchorContainer := TrustAnchorContainer_new.

Definition getGroup (groupId : list Z) (self : TrustAnchorContainer) : result exn AnchorGroup :=
  match group_find (groups_ self) groupId with
  | Some group => Ok group
  | None => anchor_error "Trust anchor group does not exist"
  end.

Definition anchors_find_prefix (files : Files) (now : Z) (keyName : Name) (self : TrustAnchorContainer) :
    TrustAnchorContainer * result exn (option Certificate) :=
  let '(self, r) := anchors_refresh files now self in
  (self, match r with Err e => Err e | Ok _ => Ok (find_with_prefix (anchorsByName_ self) id keyName) end).

Definition anchors_find `{Crypto} (files : Files) (now : Z) (interest : InterestValue) (self : TrustAnchorContainer) :
    TrustAnchorContainer * result exn (option Certificate) :=
  let '(self, r) := anchors_refresh files now self in
  (self, match r with
         | Err e => Err e
         | Ok _ => find_matching id interest (lower_bound (anchorsByName_ self) (interest_name interest))
         end).

(** ** CertificateStorage *)

Record CertificateStorage := mkCertificateStorage {
  trustAnchors_ : TrustAnchorContainer;
  verifiedCertificateCache_ : CertificateCacheV2;
  unverifiedCertificateCache_ : CertificateCacheV2;
  verifiedCrlCache_ : X509CrlCache
}.

(** The lifetimes of the two caches: one hour, and five minutes for unverified certificates. *)
Definition CertificateStorage_new : CertificateStorage :=
  mkCertificateStorage TrustAnchorContainer_new (CertificateCacheV2_new (3600 * 10 ^ 9))
    (CertificateCacheV2_new (300 * 10 ^ 9)) X509CrlCache_new.

Section Storage.
Context `{Crypto} {E : Type}.

Abbreviation Storing A := (Act CertificateStorage E A).

Definition on_anchors {A} (f : TrustAnchorContainer -> TrustAnchorContainer * result exn A) : Storing A := fun s =>
  let '(t, r) := f (trustAnchors_ s) in
  (mkCertificateStorage t (verifiedCertificateCache_ s) (unverifiedCertificateCache_ s) (verifiedCrlCache_ s), [], r).
Definition on_verified {A} (f : CertificateCacheV2 -> CertificateCacheV2 * result exn A) : Storing A := fun s =>
  let '(c, r) := f (verifiedCertificateCache_ s) in
  (mkCertificateStorage (trustAnchors_ s) c (unverifiedCertificateCache_ s) (verifiedCrlCache_ s), [], r).
Definition on_unverified {A} (f : CertificateCacheV2 -> CertificateCacheV2 * result exn A) : Storing A := fun s =>
  let '(c, r) := f (unverifiedCertificateCache_ s) in
  (mkCertificateStorage (trustAnchors_ s) (verifiedCertificateCache_ s) c (verifiedCrlCache_ s), [], r).
Definition on_crls {A} (f : X509CrlCache -> X509CrlCache * A) : Storing A := fun s =>
  let '(c, a) := f (verifiedCrlCache_ s) in
  (mkCertificateStorage (trustAnchors_ s) (verifiedCertificateCache_ s) (unverifiedCertificateCache_ s) c, [], Ok a).

(** A cache operation that cannot throw. *)
Definition total {A} (f : CertificateCacheV2 -> CertificateCacheV2 * A) (c : CertificateCacheV2) :
    CertificateCacheV2 * result exn A := let '(c, a) := f c in (c, Ok a).

Context (files : Files) (now : Z).

Definition findTrustedCertificate (interest : InterestValue) : Storing (option Certificate) :=
  certificate ← on_anchors (anchors_find files now interest);
  match certificate with
  | Some certificate => mret (Some certificate)
  | None => on_verified (certificate_find now interest)
  end.

Definition isCertificateKnown (certificatePrefix : Name) : Storing bool :=
  anchor ← on_anchors (anchors_find_prefix files now certificatePrefix);
  match anchor with
  | Some _ => mret true
  | None =>
      verified ← on_verified (total (certificate_find_prefix now certificatePrefix));
      match verified with
      | Some _ => mret true
      | None =>
          unverified ← on_unverified (total (certificate_find_prefix now certificatePrefix));
          mret (match unverified with Some _ => true | None => false end)
      end
  end.

Definition cacheUnverifiedCertificate (certificate : Certificate) : Storing unit :=
  on_unverified (certificate_insert now certificate).

Definition loadAnchor (groupId : list Z) (certificate : Certificate) : Storing unit :=
  on_anchors (anchors_insert now groupId certificate).

Definition loadAnchor_dynamic (groupId path : list Z) (refreshPeriod : Z) (isDirectory : bool) : Storing unit :=
  on_anchors (anchors_insert_dynamic files now groupId path refreshPeriod isDirectory).

Definition resetAnchors : Storing unit := on_anchors (fun t => (anchors_clear t, Ok tt)).

Definition resetVerifiedCertificates : Storing unit := on_verified (fun c => (certificate_clear c, Ok tt)).

(** A certificate that is not X.509 has no serial number. *)
Definition findRevokedCertificate (issuerName : Name) (serialNumber : list Z) :
    Storing (option RevokedCertificate) :=
  if zlen serialNumber =? 0 then mret None
  else
    crlInfo ← on_crls (crl_find now issuerName);
    mret (match crlInfo with
          | None => None
          | Some crlInfo =>
              list_find (fun entry => revoked_serialNumber entry = serialNumber) (revokedCertificates_ crlInfo)
                ≫= fun e => Some e.2
          end).

Definition revocation_of (certificate : Certificate) : Storing (option RevokedCertificate) :=
  issuerName ← returns (getIssuerName certificate);
  findRevokedCertificate issuerName (getX509SerialNumber certificate).

Definition cacheVerifiedCertificate (certificate : Certificate) : Storing bool :=
  revoked ← revocation_of certificate;
  match revoked with
  | Some _ => mret false
  | None => _ ← on_verified (certificate_insert now certificate); mret true
  end.

(** The names of the cached certificates of the issuer that the list revokes. *)
Fixpoint revoked_names (issuerName : Name) (entries : list (CacheEntry Certificate)) : Storing (list Name) :=
  match entries with
  | [] => mret []
  | entry :: entries =>
      certificateIssuer ← returns (getIssuerName (entry_value entry));
      if negb (name_equals certificateIssuer issuerName) then revoked_names issuerName entries
      else
        revoked ← revocation_of (entry_value entry);
        names ← revoked_names issuerName entries;
        mret (match revoked with Some _ => cert_name (entry_value entry) :: names | None => names end)
  end.

Definition cacheVerifiedCrl (crlInfo : X509CrlInfo) : Storing unit :=
  inserted ← on_crls (crl_insert now crlInfo);
  if negb inserted then mret tt
  else
    s ← self_get;
    certificatesToRemove ←
      revoked_names (crl_issuerName crlInfo) (map snd (certificatesByName_ (verifiedCertificateCache_ s)));
    for_each (fun name => on_verified (fun c => (deleteCertificate name c, Ok tt))) certificatesToRemove.

Definition setCacheNowOffset_ (nowOffset : Z) : Storing unit :=
  _ ← on_verified (fun c => (setNowOffset_ nowOffset c, Ok tt));
  on_unverified (fun c => (setNowOffset_ nowOffset c, Ok tt)).
End Storage.

(** ** What the caches promise *)

Section RefreshFacts.
Context {A : Type}.
Implicit Types m : NameMap (CacheEntry A).

(** The entries go at [nextRefreshTime] or later. *)
Definition entries_ok m (nextRefreshTime : Z) : Prop :=
  map_ok m /\ Forall (fun e => nextRefreshTime <= removalTime_ e.2) m.

Lemma entries_ok_nil : entries_ok [] time_max.
Proof. split; [apply map_ok_nil | constructor]. Qed.

Lemma next_refresh_le now m (e : Name * CacheEntry A) :
  e ∈ m -> now < removalTime_ e.2 -> next_refresh now m <= removalTime_ e.2.
Proof.
  intros He Hlt. unfold next_refresh. generalize time_max.
  assert (Hmono : forall m z, fold_left (fun next e =>
    if removalTime_ e.2 <=? now then next else Z.min next (removalTime_ e.2)) m z <= z).
  { clear. induction m as [| x m IH]; intros z; cbn; [lia |]. etransitivity; [apply IH |].
    destruct (removalTime_ x.2 <=? now); lia. }
  induction m as [| x m IH]; intros z; [now apply elem_of_nil in He |]. cbn.
  apply elem_of_cons in He as [<- | He]; [| now apply IH].
  rewrite (proj2 (Z.leb_gt _ _) Hlt). etransitivity; [apply Hmono | lia].
Qed.

Lemma refresh_names_elem now m name :
  name ∈ refresh_names now m <-> exists e, e ∈ m /\ e.1 = name /\ removalTime_ e.2 <= now.
Proof.
  unfold refresh_names. rewrite list_elem_of_omap. split.
  - intros (e & He & Hs). exists e. destruct (Z.leb_spec (removalTime_ e.2) now); [| easy].
    now injection Hs.
  - intros (e & He & <- & Hle). exists e. split; [easy |]. now rewrite (proj2 (Z.leb_le _ _) Hle).
Qed.

Lemma map_erase_all_ok (names : list Name) m : map_ok m -> map_ok (fold_left map_erase names m).
Proof.
  revert m. induction names as [| n names IH]; intros m Hm; cbn [fold_left]; [easy |].
  apply IH, map_erase_ok, Hm.
Qed.

Lemma map_erase_all_elem (names : list Name) m e :
  map_ok m -> Forall key_ok names -> e ∈ fold_left map_erase names m <-> e ∈ m /\ e.1 ∉ names.
Proof.
  revert m. induction names as [| n names IH]; intros m Hm Hn; cbn [fold_left].
  { rewrite elem_of_nil. tauto. }
  apply Forall_cons in Hn as [Hk Hn].
  rewrite IH, map_erase_elem, not_elem_of_cons by (easy || now apply map_erase_ok). tauto.
Qed.

(** After a refresh the cache holds what it held that has not expired. *)
Lemma cache_refresh_spec now m next :
  entries_ok m next ->
  let '(m', next') := cache_refresh now m next in
  entries_ok m' next' /\ forall e, e ∈ m' <-> e ∈ m /\ now < removalTime_ e.2.
Proof.
  intros [Hm Hn]. unfold cache_refresh. rewrite Forall_forall in Hn.
  destruct (Z.ltb_spec now next) as [Hlt | Hle].
  - split; [split; [easy | now apply Forall_forall] |]. intros e. split; [| tauto].
    intros He. split; [easy |]. specialize (Hn _ He). cbn in Hn. lia.
  - assert (Hk : Forall key_ok (refresh_names now m)).
    { apply Forall_forall. intros n (e & He & <- & _)%refresh_names_elem.
      destruct Hm as [Hkeys _]. rewrite Forall_forall in Hkeys. now apply Hkeys. }
    assert (Hspec : forall e, e ∈ fold_left map_erase (refresh_names now m) m <-> e ∈ m /\ now < removalTime_ e.2).
    { intros e. rewrite map_erase_all_elem by easy. split; intros [He Hx]; (split; [easy |]).
      - apply Z.nle_gt. intros Hle'. apply Hx, refresh_names_elem. eauto.
      - intros (e' & He' & Hee & Hle')%refresh_names_elem. destruct e as [k v], e' as [k' v']. cbn in *. subst k'.
        rewrite (map_ok_unique _ _ _ _ Hm He' He) in Hle'. lia. }
    split; [| easy]. split; [now apply map_erase_all_ok |].
    apply Forall_forall. intros e He. apply Hspec in He as [He Hlt]. now apply next_refresh_le.
Qed.
End RefreshFacts.

Lemma prefix_name_match (prefix name : Name) : prefix `prefix_of` name -> name_match prefix name = true.
Proof. intros [s ->]. apply name_match_prefix. exists prefix, s. split; reflexivity. Qed.

(** ** What [find_matching] finds *)

Section FindMatching.
Context `{Crypto} {V : Type} (cert : V -> Certificate).
Implicit Types m : NameMap V.

Lemma find_matching_some interest m c :
  find_matching cert interest m = Ok (Some c) ->
  exists e, e ∈ m /\ cert e.2 = c /\ name_match (interest_name interest) (cert_name c) = true /\
    packet_matches interest (cert_data c) = Ok true.
Proof.
  induction m as [| [k v] m IH]; cbn [find_matching]; [easy |].
  destruct (name_match _ (cert_name (cert v))) eqn:Hn; cbn [negb]; [| easy]. intros (matches & Hm & Hf)%bind_ok.
  destruct matches.
  - injection Hf as <-. exists (k, v). split_and!; [constructor | easy..].
  - destruct (IH Hf) as (e & He & Hx). exists e. split; [now constructor | easy].
Qed.

Lemma find_matching_none interest m :
  key_ok (interest_name interest) -> map_ok m ->
  Forall (fun e => 0 <= name_lex e.1 (interest_name interest)) m ->
  Forall (fun e => e.1 = cert_name (cert e.2)) m ->
  find_matching cert interest m = Ok None ->
  forall e, e ∈ m -> interest_name interest `prefix_of` e.1 ->
    packet_matches interest (cert_data (cert e.2)) = Ok false.
Proof.
  intros Hi. induction m as [| [k v] m IH]; intros Hm Hge Hn Hf e He Hp; [now apply elem_of_nil in He |].
  apply map_ok_cons in Hm as (Hk & Hlt & Hm). apply Forall_cons in Hge as [Hge0 Hge].
  apply Forall_cons in Hn as [Hn0 Hn]. rewrite Forall_forall in Hlt. cbn in *.
  assert (Hmatch : name_match (interest_name interest) (cert_name (cert v)) = true).
  { rewrite <- Hn0. apply prefix_name_match. apply elem_of_cons in He as [-> | He]; [easy |].
    destruct Hp as [s Hs]. apply between_prefix with s; [easy | easy | easy |].
    rewrite <- Hs. now apply Hlt. }
  rewrite Hmatch in Hf. cbn [negb] in Hf. apply bind_ok in Hf as (matches & Hx & Hf). destruct matches; [easy |].
  apply elem_of_cons in He as [-> | He]; [easy | now apply IH].
Qed.
End FindMatching.

Section CertificateCacheFacts.
Context `{Crypto}.

(** An entry is under the name of its certificate, and goes no later than the certificate expires. *)
Definition certificate_entry_ok (e : Name * CacheEntry Certificate) : Prop :=
  e.1 = cert_name (entry_value e.2) /\
  exists period notAfter, getValidityPeriod (entry_value e.2) = Ok period /\
    getNotAfter period = Ok notAfter /\ removalTime_ e.2 <= notAfter.

Definition cache_ok (c : CertificateCacheV2) : Prop :=
  entries_ok (certificatesByName_ c) (nextRefreshTime_ c) /\
  Forall certificate_entry_ok (certificatesByName_ c).

(** The caches that the operations make; a name that is inserted is one that can be compared. *)
Inductive cache_reach : CertificateCacheV2 -> Prop :=
| cache_new maxLifetime : cache_reach (CertificateCacheV2_new maxLifetime)
| cache_insert now certificate c :
    key_ok (cert_name certificate) -> cache_reach c -> cache_reach (certificate_insert now certificate c).1
| cache_find now interest c : cache_reach c -> cache_reach (certificate_find now interest c).1
| cache_find_prefix now prefix c : cache_reach c -> cache_reach (certificate_find_prefix now prefix c).1
| cache_delete name c : cache_reach c -> cache_reach (deleteCertificate name c)
| cache_clear c : cache_reach c -> cache_reach (certificate_clear c)
| cache_offset nowOffset c : cache_reach c -> cache_reach (setNowOffset_ nowOffset c).

Lemma certificate_refresh_spec now c :
  cache_ok c ->
  cache_ok (certificate_refresh now c) /\
  forall e, e ∈ certificatesByName_ (certificate_refresh now c) <->
    e ∈ certificatesByName_ c /\ now + nowOffset_ c < removalTime_ e.2.
Proof.
  intros [He Hf]. pose proof (cache_refresh_spec (now + nowOffset_ c) _ _ He) as Hr.
  unfold certificate_refresh. destruct (cache_refresh _ _ _) as [m next]. cbn [with_certificates certificatesByName_].
  destruct Hr as [Hok Hin]. split; [| easy]. split; [easy |]. cbn.
  rewrite Forall_forall in *. intros e Hx. apply Hf. now apply Hin.
Qed.

Lemma certificate_insert_ok now certificate c :
  key_ok (cert_name certificate) -> cache_ok c -> cache_ok (certificate_insert now certificate c).1.
Proof.
  intros Hk [[Hm Hn] Hf]. unfold certificate_insert, mbind, result_bind.
  destruct (getValidityPeriod certificate) as [period | e] eqn:Hp; [| easy].
  destruct (getNotAfter period) as [notAfter | e] eqn:Ha; [| easy].
  destruct (_ <? _); [easy |]. set (removal := Z.min notAfter _).
  set (next := if _ <? _ then _ else _).
  assert (Hnext : next <= removal /\ next <= nextRefreshTime_ c).
  { unfold next. destruct (Z.ltb_spec removal (nextRefreshTime_ c)); lia. }
  assert (Hn' : Forall (fun e => next <= removalTime_ e.2) (certificatesByName_ c)).
  { eapply Forall_impl; [exact Hn |]. cbn. intros e He. lia. }
  unfold CertificateV2_copy, mbind, result_bind. destruct (checkFormat _); [| easy].
  cbn [fst mret result_ret with_certificates]. split; [split; cbn |]; cbn [certificatesByName_].
  - now apply map_set_ok.
  - rewrite Forall_forall in *. intros e He. apply map_set_in in He as [-> | He]; [cbn; lia | now apply Hn'].
  - rewrite Forall_forall in *. intros e He. apply map_set_elem in He as [-> | [He _]]; [| now apply Hf | easy | easy].
    split; [easy |]. exists period, notAfter. cbn. split_and!; [easy | easy | lia].
Qed.

Lemma certificate_reach_ok c : cache_reach c -> cache_ok c.
Proof.
  intros Hr. induction Hr as [maxLifetime | now cert c Hk Hr IH | now i c Hr IH | now p c Hr IH | n c Hr IH | c Hr IH
    | o c Hr IH].
  - split; [apply entries_ok_nil | constructor].
  - now apply certificate_insert_ok.
  - now apply certificate_refresh_spec.
  - now apply certificate_refresh_spec.
  - destruct IH as [[Hm Hn] Hf]. rewrite Forall_forall in *. split; [split |]; cbn.
    + now apply map_erase_ok.
    + apply Forall_forall. intros e He%map_erase_in. now apply Hn.
    + apply Forall_forall. intros e He%map_erase_in. now apply Hf.
  - split; [apply entries_ok_nil | constructor].
  - exact IH.
Qed.

(** C10: finding a certificate in the cache. A certificate that is found has the prefix that the Interest
    asks for, matches the Interest, and was put into the cache when it had not expired, which it still has
    not at the time of the search. When none is found, no certificate of the cache that has the prefix,
    and is not yet to be removed, matches the Interest. *)
Theorem certificate_find_spec (now : Z) (interest : InterestValue) (cache : CertificateCacheV2) :
  cache_reach cache -> key_ok (interest_name interest) ->
  forall cache' r, certificate_find now interest cache = (cache', r) ->
  (forall certificate, r = Ok (Some certificate) ->
     (exists removalTime, (cert_name certificate, mkCacheEntry certificate removalTime) ∈ certificatesByName_ cache) /\
     name_match (interest_name interest) (cert_name certificate) = true /\
     packet_matches interest (cert_data certificate) = Ok true /\
     exists period notAfter, getValidityPeriod certificate = Ok period /\ getNotAfter period = Ok notAfter /\
       now + nowOffset_ cache < notAfter) /\
  (r = Ok None -> forall e, e ∈ certificatesByName_ cache -> now + nowOffset_ cache < removalTime_ e.2 ->
     interest_name interest `prefix_of` cert_name (entry_value e.2) ->
     packet_matches interest (cert_data (entry_value e.2)) = Ok false).
Proof.
  intros Hr Hi cache' r Hf. apply certificate_reach_ok in Hr. destruct (certificate_refresh_spec now cache Hr) as [Hok Hin].
  unfold certificate_find in Hf. injection Hf as <- <-. destruct Hok as [[Hm _] He].
  destruct (lower_bound_spec _ (interest_name interest) Hm (proj1 Hi)) as (before & Hb & Hbf & Hge & Hlm).
  rewrite Forall_forall in He. split.
  - intros certificate ([k [c removal]] & Hx & Hc & Hn & Hp)%find_matching_some. cbn in Hc. subst c.
    apply lower_bound_in in Hx. destruct (He _ Hx) as [Hk (period & notAfter & Hv & Ha & Hle)]. cbn in *. subst k.
    apply Hin in Hx as [Hx Hlt]. cbn in Hlt. split_and!; [now exists removal | easy | easy |].
    exists period, notAfter. split_and!; [easy | easy | lia].
  - intros Hnone e Hx Hlt Hp. pose proof (proj2 (Hin e) (conj Hx Hlt)) as Hx'.
    pose proof (proj1 (He _ Hx')) as Hk. rewrite <- Hk in Hp.
    eapply find_matching_none; [exact Hi | exact Hlm | exact Hge | | exact Hnone | | exact Hp].
    + apply Forall_forall. intros e' He'. apply He. now apply lower_bound_in in He'.
    + rewrite Hb in Hx'. apply elem_of_app in Hx' as [Hx' | Hx']; [| easy]. exfalso.
      rewrite Forall_forall in Hbf. specialize (Hbf _ Hx'). cbn in Hbf. destruct Hp as [s Hs].
      rewrite Hs in Hbf. rewrite <- (app_nil_r (interest_name interest)) in Hbf at 2.
      rewrite lex_app_same in Hbf. now destruct s.
Qed.

End CertificateCacheFacts.

#[local] Existing Instance toy_crypto.

(** An X.509 certificate in the cache is found by a prefix before its lifetime ends. *)
Lemma certificate_find_spec_witness :
  let c := toy_x509 [generic [97]; KEY_COMPONENT; generic [107]; generic [105]; generic [118]] 5 in
  let cache := (certificate_insert 1000 c (CertificateCacheV2_new 500)).1 in
  let interest := interest_value (Interest_new [generic [97]; KEY_COMPONENT] true true) in
  exists cache', certificate_find 1400 interest cache = (cache', Ok (Some c)) /\
    name_match (interest_name interest) (cert_name c) = true /\
    (certificate_find 1500 interest cache).2 = Ok None.
Proof.
  intros c cache interest. assert (Hr : cache_reach cache).
  { apply cache_insert; [| apply cache_new]. now apply (key_ok_generic [[97]; [75; 69; 89]; [107]; [105]; [118]]). }
  assert (Hk : key_ok (interest_name interest)) by now apply (key_ok_generic [[97]; [75; 69; 89]]).
  destruct (certificate_find 1400 interest cache) as [cache' r] eqn:Hf. exists cache'.
  assert (r = Ok (Some c)) as -> by (apply (f_equal snd) in Hf; cbn [snd] in Hf; rewrite <- Hf; now vm_compute).
  split; [easy |].
  destruct (certificate_find_spec 1400 interest cache Hr Hk cache' _ Hf) as [Hs _].
  destruct (Hs c eq_refl) as (_ & Hn & _). split; [exact Hn | now vm_compute].
Defined.
