(* ===== verification/X509.v ===== *)
(** * X.509 certificates and public keys

    [PublicKey], [X509CertificateInfo] and [X509CrlInfo] of src/security/certificate over the DER nodes. What
    libcrypto reads and verifies is a parameter; [x509_crypto] is the implementation of the interface that
    Certificates.v uses. *)

From stdpp Require Import base list numbers option strings.
From Stdlib Require Import ZArith Lia.
From S2P Require Import Prelude Name NameUri ValidityPeriod WireFormat Oid Der Certificates CertStorage.
Open Scope Z_scope.

Definition RSA_ENCRYPTION_OID : list Z := chars "1.2.840.113549.1.1.1".
Definition EC_ENCRYPTION_OID : list Z := chars "1.2.840.10045.2.1".
Definition PSEUDONYM_OID : list Z := chars "2.5.4.65".
Definition COMMON_NAME_OID : list Z := chars "2.5.4.3".
Definition SUBJECT_ALTERNATIVE_NAME_OID : list Z := chars "2.5.29.17".
Definition CRL_DISTRIBUTION_POINTS_OID : list Z := chars "2.5.29.31".
Definition GENERAL_NAME_URI_TYPE : Z := 0x86.

(** [try { m } catch (const std::exception&) { throw e }]; undefined behaviour is not caught. *)
Definition on_exception {A} (m : result exn A) (e : exn) : result exn A :=
  match m with
  | Err e' => if is_exception e' then Err e else Err e'
  | Ok a => Ok a
  end.

(** [dynamic_cast] of a child that is there. *)
Definition cast (p : Z -> bool) (t : DerNode) : option DerNode := if p (nodeType t) then Some t else None.
Definition child_of (p : Z -> bool) (l : list DerNode) (i : nat) : option DerNode := l !! i ≫= cast p.

Definition getTag (t : DerNode) : Z := Z.land (nodeType t) 31.

(** ** Public keys *)

Section PublicKey.
(** Whether libcrypto can decode the DER of a key. *)
Context (rsa_decode ec_decode : list Z -> bool).

Definition unrecognized {A} (what : string) : result exn A := Err (Exception UnrecognizedKeyFormatException what).

(** The identifier of the algorithm; only [DerDecodingException] is caught. *)
Definition key_oid (keyDer : list Z) : result exn (list Z) :=
  match (parsedNode ← DerNode_parse keyDer 0;
         rootChildren ← getChildren parsedNode;
         algorithmId ← getSequence rootChildren 0;
         algorithmIdChildren ← getChildren algorithmId;
         match algorithmIdChildren with
         | oid :: _ => toVal oid
         | [] => Err (Failed UndefinedBehaviour)
         end) with
  | Err (Exception class what) =>
      if bool_decide (class = "DerDecodingException") then unrecognized "PublicKey: Error decoding the public key"
      else Err (Exception class what)
  | r => r
  end.

(** The constructor of [PublicKey]. *)
Definition PublicKey_new (keyDer : list Z) : result exn KeyType :=
  oidString ← key_oid keyDer;
  if bool_decide (oidString = RSA_ENCRYPTION_OID) then
    if rsa_decode keyDer then Ok KEY_TYPE_RSA else unrecognized "Error decoding RSA public key DER"
  else if bool_decide (oidString = EC_ENCRYPTION_OID) then
    if ec_decode keyDer then Ok KEY_TYPE_EC else unrecognized "Error decoding EC public key DER"
  else unrecognized "PublicKey: Unrecognized OID".
End PublicKey.

(** ** Names *)

(** The value of an extension with the identifier [oidString]: a sequence of the identifier, perhaps whether it is
    critical, and the value. *)
Definition extension_value (oidString : list Z) (extension : DerNode) : result exn (option (list Z)) :=
  match extension with
  | DerStructure type extensionChildren =>
      if negb (type =? DerNodeType_Sequence) then Ok None
      else if (zlen extensionChildren <? 2) || (zlen extensionChildren >? 3) then Ok None
      else
        match child_of (Z.eqb DerNodeType_ObjectIdentifier) extensionChildren 0,
              last extensionChildren ≫= cast (Z.eqb DerNodeType_OctetString) with
        | Some oid, Some extensionValue =>
            val ← toVal oid;
            mret (if bool_decide (val = oidString) then Some (getPayload extensionValue) else None)
        | _, _ => Ok None
        end
  | DerLeaf _ _ _ => Ok None
  end.

(** A node that [makeName] takes for a URI. *)
Definition is_uri (t : DerNode) : bool := isImplicit (nodeType t) && (nodeType t =? GENERAL_NAME_URI_TYPE).

(** The first extension with the identifier in which [f] finds something; exceptions of [f] are ignored. *)
Fixpoint find_extension {A} (oidString : list Z) (f : list Z -> result exn (option A)) (extensions : list DerNode) :
    result exn (option A) :=
  match extensions with
  | [] => Ok None
  | extension :: extensions =>
      value ← extension_value oidString extension;
      match value with
      | None => find_extension oidString f extensions
      | Some value =>
          match f value with
          | Ok (Some a) => Ok (Some a)
          | Err (Failed failure) => Err (Failed failure)
          | _ => find_extension oidString f extensions
          end
      end
  end.

(** The name made from the URI in the Subject Alternative Names. *)
Definition alternative_name (value : list Z) : result exn (option Name) :=
  generalNames ← DerNode_parse value 0;
  generalNamesChildren ← getChildren generalNames;
  match list_find (fun t => is_uri t = true) generalNamesChildren with
  | Some (_, uri) => text ← toVal uri; name ← name_set text; mret (Some name)
  | None => Ok None
  end.

Definition X509_encapsulated (encoding : list Z) : Name := [X509_COMPONENT; generic encoding].

Definition makeName (x509Name : DerNode) (extensions : option DerNode) : result exn Name :=
  found ← match extensions with
          | None => Ok None
          | Some extensions =>
              extensionsChildren ← getChildren extensions;
              find_extension SUBJECT_ALTERNATIVE_NAME_OID alternative_name extensionsChildren
          end;
  match found with
  | Some name => mret name
  | None => encoding ← der_encode x509Name; mret (X509_encapsulated encoding)
  end.

(** [DerNode] objects built of children. *)
Fixpoint add_children (t : DerNode) (children : list DerNode) : result exn DerNode :=
  match t, children with
  | _, [] => Ok t
  | DerStructure type nodeList, child :: children =>
      nodeList ← addChild type nodeList child; add_children (DerStructure type nodeList) children
  | DerLeaf _ _ _, _ => Ok t
  end.
Definition sequence_of (children : list DerNode) : result exn DerNode := add_children DerSequence_new children.

(** The sequence of a set of the sequence of an identifier and a text: a name of one part. *)
Definition x509_name_of (oid text : list Z) : result exn DerNode :=
  oid ← DerOid_new (OID_of_string oid);
  value ← DerByteString_new DerNodeType_Utf8String (Some text);
  typeAndValue ← sequence_of [oid; value];
  component ← add_children DerSet_new [typeAndValue];
  sequence_of [component].

(** The extension that [makeX509Name] adds. *)
Definition alternative_names (uri : list Z) : result exn DerNode :=
  value ← DerImplicitByteString_new GENERAL_NAME_URI_TYPE (Some uri);
  generalNames ← sequence_of [value];
  generalNamesEncoding ← der_encode generalNames;
  oid ← DerOid_new (OID_of_string SUBJECT_ALTERNATIVE_NAME_OID);
  extensionValue ← DerByteString_new DerNodeType_OctetString (Some generalNamesEncoding);
  sequence_of [oid; extensionValue].

(** [makeX509Name]: the node, and the extensions with the one that is added. *)
Definition makeX509Name (name : Name) (extensions : option DerNode) : result exn (DerNode * option DerNode) :=
  if isEncapsulatedX509 name then
    component ← name_get name 1;
    node ← DerNode_parse (value_ component) 0;
    mret (node, extensions)
  else
    let uri := toUri name false in
    extensions ← match extensions with
                 | Some extensions =>
                     extension ← alternative_names uri;
                     extensions ← add_children extensions [extension];
                     mret (Some extensions)
                 | None => Ok None
                 end;
    node ← x509_name_of PSEUDONYM_OID uri;
    mret (node, extensions).

Definition makeX509NameOfCommonName (commonName : list Z) : result exn (list Z) :=
  root ← x509_name_of COMMON_NAME_OID commonName; der_encode root.

(** *** The distribution point of revocation lists *)

(** The only child of an explicit node with tag 0. *)
Definition explicit_0 (t : DerNode) : option DerNode :=
  match t with
  | DerStructure type [child] => if isExplicitNode type && (getTag t =? 0) then Some child else None
  | _ => None
  end.

Definition fullname_uri (t : DerNode) : option DerNode :=
  fullName ← explicit_0 t; value ← explicit_0 fullName; if is_uri value then Some value else None.

(** The first distribution point with a URI. A node without children is an exception. *)
Fixpoint distribution_uri (points : list DerNode) : result exn (option (list Z)) :=
  match points with
  | [] => Ok None
  | point :: points =>
      distributionPointChildren ← getChildren point;
      match list_find (fun t => is_Some (fullname_uri t)) distributionPointChildren with
      | Some (_, t) =>
          match fullname_uri t with Some value => text ← toVal value; mret (Some text) | None => Ok None end
      | None => distribution_uri points
      end
  end.

Definition findCrlDistributionUri (extensions : option DerNode) : result exn (list Z) :=
  match extensions with
  | None => Ok []
  | Some extensions =>
      extensionsChildren ← getChildren extensions;
      uri ← find_extension CRL_DISTRIBUTION_POINTS_OID (fun value =>
        distributionPointList ← DerNode_parse value 0;
        points ← getChildren distributionPointList;
        distribution_uri points) extensionsChildren;
      mret (default [] uri)
  end.

(** ** X509CertificateInfo *)

(** What certificates and revocation lists have in common: what is signed, its node, and the signature. *)
Definition signed_parts (encoding : list Z) : result exn (DerNode * SignedBlob * list Z) :=
  root ← DerNode_parse encoding 0;
  rootChildren ← getChildren root;
  if zlen rootChildren <? 3 then Err (RuntimeError "Expected 3 fields")
  else
    tbs ← getSequence rootChildren 0;
    _ ← getSequence rootChildren 1;
    match child_of (Z.eqb DerNodeType_BitString) rootChildren 2 with
    | Some signatureValueNode =>
        match getPayload signatureValueNode with
        | 0 :: signatureValue =>
            beginOffset ← getHeaderSize root;
            size ← getSize tbs;
            mret (tbs, (encoding, (Z.of_nat beginOffset, Z.of_nat (beginOffset + size))), signatureValue)
        | _ => Err (RuntimeError "Cannot decode signatureValue")
        end
    | None => Err (RuntimeError "Cannot decode signatureValue")
    end.

(** An element that the code does not check for. *)
Definition unchecked {A} (o : option A) : result exn A :=
  match o with Some a => Ok a | None => Err (Failed UndefinedBehaviour) end.

Definition utc_time (what : string) (t : DerNode) : result exn DerNode :=
  if nodeType t =? DerNodeType_UtcTime then Ok t else Err (RuntimeError what).

Definition decode_validity (validityChildren : list DerNode) : result exn Period :=
  notBefore ← unchecked (validityChildren !! 0%nat);
  notAfter ← unchecked (validityChildren !! 1%nat);
  notBefore ← utc_time "X509CertificateInfo: Cannot decode Validity" notBefore;
  notAfter ← utc_time "X509CertificateInfo: Cannot decode Validity" notAfter;
  notBefore ← UtcTime_toTimePoint notBefore;
  notAfter ← UtcTime_toTimePoint notAfter;
  mret (ValidityPeriod_setPeriod (notBefore / 1000000) (notAfter / 1000000)).

(** The extensions: the only child of the last field when that is explicit with tag 3. *)
Definition extensions_of (tbsChildren : list DerNode) : option DerNode :=
  match last tbsChildren with
  | Some (DerStructure type [extensions]) =>
      if isExplicitNode type && (Z.land type 31 =? 3) then Some extensions else None
  | _ => None
  end.

Definition decode_tbsCertificate (tbsCertificate : DerNode) (signed : SignedBlob) (signatureValue : list Z) :
    result exn X509CertificateInfo :=
  tbsChildren ← getChildren tbsCertificate;
  let versionOffset := match child_of isExplicitNode tbsChildren 0 with Some _ => 1%nat | None => 0%nat end in
  if (length tbsChildren <? 6 + versionOffset)%nat then Err (RuntimeError "X509CertificateInfo: Expected 6 TBSCertificate fields")
  else
    let field i := unchecked (tbsChildren !! (i + versionOffset)%nat) in
    serialNumber ← field 0%nat;
    issuer ← field 2%nat;
    issuerName ← makeName issuer None;
    validity ← getSequence tbsChildren (3 + versionOffset);
    validityChildren ← getChildren validity;
    validityPeriod ← decode_validity validityChildren;
    let extensions := extensions_of tbsChildren in
    subject ← field 4%nat;
    subjectName ← makeName subject extensions;
    key ← field 5%nat;
    publicKey ← der_encode key;
    crlDistributionUri ← findCrlDistributionUri extensions;
    mret (mkX509CertificateInfo signed (getPayload serialNumber) issuerName validityPeriod subjectName publicKey
            signatureValue crlDistributionUri).

(** The constructor from an encoding. *)
Definition X509CertificateInfo_decode (encoding : list Z) : result exn X509CertificateInfo :=
  '(tbsCertificate, signed, signatureValue) ←
    on_exception (signed_parts encoding) (RuntimeError "X509CertificateInfo: Cannot decode certificate");
  on_exception (decode_tbsCertificate tbsCertificate signed signatureValue)
    (RuntimeError "X509CertificateInfo: Cannot decode the TBSCertificate").

(** A time of a [ValidityPeriod], which is first made a time point. *)
Definition period_time (milliseconds : Z) : result exn DerNode :=
  _ ← fromMilliseconds (milliseconds * 1000000);
  DerUtcTime_new milliseconds.

(** The fields of a new certificate that is to be signed. *)
Definition make_tbsCertificate (algorithmIdentifier : DerNode) (issuerName : Name) (notBefore notAfter : Z)
    (subjectName : Name) (publicKey serialNumber : list Z) : result exn DerNode :=
  two ← DerInteger_new 2;
  version ← DerExplicit_new 0;
  version ← add_children version [two];
  serial ← (if (zlen serialNumber >? 0) && (byte_at serialNumber 0 >=? 128)
            then Err (RuntimeError "X509CertificateInfo: Negative serial numbers are not currently supported")
            else DerInteger_of_bytes serialNumber);
  '(issuer, _) ← makeX509Name issuerName None;
  notBefore ← period_time notBefore;
  notAfter ← period_time notAfter;
  validity ← sequence_of [notBefore; notAfter];
  '(subject, extensions) ← makeX509Name subjectName (Some DerSequence_new);
  key ← on_exception (DerNode_parse publicKey 0) (RuntimeError "X509CertificateInfo: publicKey encoding is invalid DER");
  explicit ← match extensions with
             | Some (DerStructure type (_ :: _)) =>
                 explicit ← DerExplicit_new 3;
                 explicit ← add_children explicit (option_list extensions);
                 mret [explicit]
             | _ => Ok []
             end;
  sequence_of ([version; serial; algorithmIdentifier; issuer; validity; subject; key] ++ explicit).

Definition X509CertificateInfo_new (issuerName : Name) (validityPeriod : Period) (subjectName : Name)
    (publicKey signatureValue serialNumber : list Z) : result exn X509CertificateInfo :=
  oid ← DerOid_new (OID_of_string RSA_ENCRYPTION_OID);
  null ← DerNull_new;
  algorithmIdentifier ← sequence_of [oid; null];
  tbsCertificate ← make_tbsCertificate algorithmIdentifier issuerName validityPeriod.1 validityPeriod.2 subjectName
                     publicKey serialNumber;
  signature ← DerBitString_new signatureValue 0;
  root ← sequence_of [tbsCertificate; algorithmIdentifier; signature];
  beginOffset ← getHeaderSize root;
  size ← getSize tbsCertificate;
  encoding ← der_encode root;
  mret (mkX509CertificateInfo (encoding, (Z.of_nat beginOffset, Z.of_nat (beginOffset + size))) serialNumber issuerName
          validityPeriod subjectName publicKey signatureValue []).

(** ** X509CrlInfo *)

(** The entries of the list; what is not a sequence is skipped. *)
Fixpoint revoked_entries (children : list DerNode) : result exn (list RevokedCertificate) :=
  match children with
  | [] => Ok []
  | DerStructure type fields :: children =>
      if negb (type =? DerNodeType_Sequence) then revoked_entries children
      else
        match fields with
        | serialNumber :: revocationDate :: _ =>
            if negb (nodeType serialNumber =? DerNodeType_Integer) then
              Err (RuntimeError "X509CrlInfo: Cannot get serial number from revokedCertificate")
            else
              revocationDate ← utc_time "X509CrlInfo: Cannot get revocation date from revokedCertificate" revocationDate;
              time ← UtcTime_toTimePoint revocationDate;
              entries ← revoked_entries children;
              mret (mkRevokedCertificate (getPayload serialNumber) time :: entries)
        | _ => Err (RuntimeError "X509CrlInfo: Cannot decode revokedCertificate sequence")
        end
  | DerLeaf _ _ _ :: children => revoked_entries children
  end.

Definition decode_tbsCertList (tbsCertList : DerNode) : result exn X509CrlInfo :=
  tbsChildren ← getChildren tbsCertList;
  let versionOffset := match child_of (Z.eqb DerNodeType_Integer) tbsChildren 0 with Some _ => 1%nat | None => 0%nat end in
  if (length tbsChildren <? 5 + versionOffset)%nat then Err (RuntimeError "X509CrlInfo: Expected 5 TBSCertList fields")
  else
    let field i := unchecked (tbsChildren !! (i + versionOffset)%nat) in
    issuer ← field 1%nat;
    issuerName ← makeName issuer None;
    thisUpdate ← field 2%nat;
    nextUpdate ← field 3%nat;
    thisUpdate ← utc_time "X509CrlInfo: Cannot decode thisUpdate and nextUpdate" thisUpdate;
    nextUpdate ← utc_time "X509CrlInfo: Cannot decode thisUpdate and nextUpdate" nextUpdate;
    thisUpdate ← UtcTime_toTimePoint thisUpdate;
    nextUpdate ← UtcTime_toTimePoint nextUpdate;
    list ← field 4%nat;
    revokedCertificatesChildren ← getChildren list;
    revokedCertificates ← revoked_entries revokedCertificatesChildren;
    mret (mkX509CrlInfo issuerName thisUpdate nextUpdate revokedCertificates).

(** The constructor: the signed encoding, the signature and what the list says. *)
Definition X509CrlInfo_decode (encoding : list Z) : result exn (SignedBlob * list Z * X509CrlInfo) :=
  '(tbsCertList, signed, signatureValue) ←
    on_exception (signed_parts encoding) (RuntimeError "X509CrlInfo: Cannot decode CRL");
  crl ← on_exception (decode_tbsCertList tbsCertList) (RuntimeError "X509CrlInfo: Cannot decode the TBSCertList");
  mret (signed, signatureValue, crl).

(** ** The interface *)

(** The cryptography of libcrypto. *)
Class Ciphers := {
  rsa_decode : list Z -> bool;
  ec_decode : list Z -> bool;
  rsa_verify : forall signature buffer keyDer : list Z, option bool;
  ecdsa_verify : forall signature buffer keyDer : list Z, option bool;
  sha256 : list Z -> list Z
}.

Definition x509_crypto (ciphers : Ciphers) : Crypto := {|
  parse_x509 := X509CertificateInfo_decode;
  public_key_type := PublicKey_new rsa_decode ec_decode;
  verify_rsa := rsa_verify;
  verify_ecdsa := ecdsa_verify;
  digest_sha256 := sha256
|}.
