(* ===== verification/X509Spec.v ===== *)
(** * What X.509 certificates promise *)

From stdpp Require Import base list numbers option strings.
From Stdlib Require Import ZArith Lia.
From S2P Require Import Prelude Name NameUri ValidityPeriod IsoTime WireFormat Oid Der DerSpec Certificates X509.
Open Scope Z_scope.

(** ** Building nodes *)

Lemma addChild_ok type l t : isExplicitNode type = false -> addChild type l t = Ok (l ++ [t]).
Proof. intros He. unfold addChild. now rewrite He. Qed.

Lemma add_children_ok type l l' :
  isExplicitNode type = false -> add_children (DerStructure type l) l' = Ok (DerStructure type (l ++ l')).
Proof.
  intros He. revert l. induction l' as [| t l' IH]; intros l; cbn [add_children]; [now rewrite app_nil_r |].
  rewrite addChild_ok by easy. cbn [mbind result_bind]. rewrite IH. now rewrite <- app_assoc.
Qed.

Lemma sequence_of_ok l : sequence_of l = Ok (DerStructure DerNodeType_Sequence l).
Proof. apply add_children_ok. reflexivity. Qed.

Lemma sequence_of_inv l t : sequence_of l = Ok t -> t = DerStructure DerNodeType_Sequence l.
Proof. rewrite sequence_of_ok. now intros [= <-]. Qed.

Definition leaf_type (type : Z) : bool := (0 <=? type) && (type <? 256) && is_leaf type && negb (is_structure type).

Lemma leaf_new_inv type payload t :
  leaf_type type = true -> leaf_new type payload = Ok t ->
  canonical t = true /\ exists header, t = DerLeaf type header payload.
Proof.
  intros Ht (h & Hh & Hx)%bind_ok. injection Hx as <-. split; [| eauto]. cbn [canonical]. rewrite Hh, bool_decide_true by easy.
  unfold leaf_type in Ht. now rewrite Ht.
Qed.

Lemma canonical_sequence l : canonical (DerStructure DerNodeType_Sequence l) = forallb canonical l.
Proof. reflexivity. Qed.

Lemma canonical_header type h payload : canonical (DerLeaf type h payload) = true -> encodeHeader type (zlen payload) = Ok h.
Proof.
  cbn [canonical]. rewrite !andb_true_iff. intros [_ Hh]. destruct (encodeHeader type (zlen payload)); [| easy].
  now apply bool_decide_eq_true in Hh as ->.
Qed.

(** An encoded node is read again. *)
Lemma parse_encoded t bs : canonical t = true -> der_encode t = Ok bs -> zlen bs < 2 ^ 31 -> DerNode_parse bs 0 = Ok t.
Proof.
  intros Hc He Hl. rewrite <- (app_nil_r bs) at 1. change (bs ++ []) with ([] ++ bs ++ []). 
  change 0%nat with (length (@nil Z)). apply parses_all; [easy | easy | easy |]. unfold enough_steps. rewrite !length_app. cbn. lia.
Qed.

Lemma concat_results_lookup l bs i t :
  concat_results der_encode l = Ok bs -> l !! i = Some t -> exists e, der_encode t = Ok e /\ (length e <= length bs)%nat.
Proof.
  revert bs i. induction l as [| u l IH]; intros bs i Hc Hi; [easy |].
  apply concat_results_cons in Hc as (a & b & Ha & Hb & ->). rewrite length_app.
  destruct i as [| i]; [injection Hi as <-; exists a; split; [easy | lia] |].
  destruct (IH b i Hb Hi) as (e & He & Hl). exists e. split; [easy | lia].
Qed.

(** The parts of an encoded node are encoded and shorter. *)
Lemma encode_child type l bs i t :
  der_encode (DerStructure type l) = Ok bs -> l !! i = Some t -> exists e, der_encode t = Ok e /\ (length e <= length bs)%nat.
Proof.
  intros He Hi. apply der_encode_structure in He as (h & children & _ & Hc & ->).
  destruct (concat_results_lookup _ _ _ _ Hc Hi) as (e & Ht & Hl). exists e. split; [easy |]. rewrite length_app. lia.
Qed.

(** ** Names *)

Lemma oid_node text t :
  DerOid_new (OID_of_string text) = Ok t -> canonical t = true /\ nodeType t = DerNodeType_ObjectIdentifier.
Proof.
  unfold DerOid_new. intros (first & _ & Hl)%bind_ok. apply leaf_new_inv in Hl as [Hc [h ->]]; [easy | reflexivity].
Qed.

Lemma byteString_node type text t :
  leaf_type type = true -> DerByteString_new type (Some text) = Ok t -> canonical t = true /\ exists h, t = DerLeaf type h text.
Proof. intros Ht Hn. now apply leaf_new_inv. Qed.

Lemma x509_name_canonical oid text t : x509_name_of oid text = Ok t -> canonical t = true.
Proof.
  intros (o & Ho & (v & Hv & (tv & Htv & (c & Hc & Ht)%bind_ok)%bind_ok)%bind_ok)%bind_ok.
  apply oid_node in Ho as [Ho _]. apply byteString_node in Hv as [Hv _]; [| reflexivity].
  apply sequence_of_inv in Htv as ->. unfold DerSet_new in Hc. rewrite add_children_ok in Hc by reflexivity. injection Hc as <-.
  apply sequence_of_inv in Ht as ->. cbn [app canonical forallb]. rewrite Ho, Hv. reflexivity.
Qed.

(** The extension with the alternative name holds the encoding of a sequence of the URI. *)
Lemma alternative_names_node uri t :
  alternative_names uri = Ok t ->
  exists oid uh general h, t = DerStructure DerNodeType_Sequence [oid; DerLeaf DerNodeType_OctetString h general] /\
    DerOid_new (OID_of_string SUBJECT_ALTERNATIVE_NAME_OID) = Ok oid /\
    canonical (DerStructure DerNodeType_Sequence [DerLeaf GENERAL_NAME_URI_TYPE uh uri]) = true /\
    der_encode (DerStructure DerNodeType_Sequence [DerLeaf GENERAL_NAME_URI_TYPE uh uri]) = Ok general /\
    canonical t = true.
Proof.
  intros (v & Hv & (g & Hg & (general & He & (oid & Ho & (o & Hoct & Ht)%bind_ok)%bind_ok)%bind_ok)%bind_ok)%bind_ok.
  unfold DerImplicitByteString_new in Hv. apply bind_ok in Hv as (v' & Hv & Hx). injection Hx as ->.
  apply byteString_node in Hv as [Hv [uh ->]]; [| reflexivity]. apply sequence_of_inv in Hg as ->.
  apply byteString_node in Hoct as [Hoct [h ->]]; [| reflexivity]. apply sequence_of_inv in Ht as ->.
  exists oid, uh, general, h. destruct (oid_node _ _ Ho) as [Hco _]. split_and!; [easy | easy | | easy |].
  - cbn [canonical forallb] in Hv |- *. rewrite Hv. reflexivity.
  - rewrite canonical_sequence. cbn [forallb]. now rewrite Hco, Hoct.
Qed.

Lemma extension_value_oid oid text h value :
  DerOid_new (OID_of_string SUBJECT_ALTERNATIVE_NAME_OID) = Ok oid ->
  extension_value text (DerStructure DerNodeType_Sequence [oid; DerLeaf DerNodeType_OctetString h value]) =
    Ok (if bool_decide (SUBJECT_ALTERNATIVE_NAME_OID = text) then Some value else None).
Proof.
  intros Ho. vm_compute in Ho. injection Ho as <-. unfold extension_value.
  set (oid := DerLeaf _ _ _). assert (Hv : toVal oid = Ok SUBJECT_ALTERNATIVE_NAME_OID) by reflexivity.
  assert (Hc : child_of (Z.eqb DerNodeType_ObjectIdentifier) [oid; DerLeaf DerNodeType_OctetString h value] 0 = Some oid) by reflexivity.
  rewrite Hc. cbn [last mbind option_bind length]. change (cast _ (DerLeaf DerNodeType_OctetString h value)) with
    (Some (DerLeaf DerNodeType_OctetString h value)). rewrite Hv. reflexivity.
Qed.

(** The name is read from the extension that was made for it. *)
Lemma makeName_alternative node uri name extension :
  alternative_names uri = Ok extension -> zlen uri < 2 ^ 30 -> name_set uri = Ok name ->
  makeName node (Some (DerStructure DerNodeType_Sequence [extension])) = Ok name /\
  findCrlDistributionUri (Some (DerStructure DerNodeType_Sequence [extension])) = Ok [].
Proof.
  intros Hext Hl Hn. apply alternative_names_node in Hext as (oid & uh & general & h & -> & Ho & Hc & He & _).
  split.
  - unfold makeName. cbn [getChildren mbind result_bind find_extension].
    rewrite (extension_value_oid _ _ _ _ Ho), bool_decide_true by easy. cbn [mbind result_bind].
    unfold alternative_name. rewrite (parse_encoded _ _ Hc He).
    + cbn [mbind result_bind getChildren list_find]. change (is_uri (DerLeaf GENERAL_NAME_URI_TYPE uh uri)) with true.
      rewrite decide_True by easy. cbn [mbind result_bind]. change (toVal (DerLeaf GENERAL_NAME_URI_TYPE uh uri)) with (@Ok exn _ uri).
      cbn [mbind result_bind]. now rewrite Hn.
    + apply der_encode_structure in He as (hd & ch & Hh & Hch & ->). cbn [concat_results der_encode mbind result_bind] in Hch.
      injection Hch as <-. rewrite app_nil_r in *. rewrite canonical_sequence in Hc. cbn [forallb] in Hc.
      apply andb_true_iff in Hc as [Hc _]. apply canonical_header in Hc.
      apply header_length in Hc as [Hu _]; [| unfold is_byte, GENERAL_NAME_URI_TYPE; lia | lia].
      rewrite length_app in Hh. apply header_length in Hh as [Hd _]; [| unfold is_byte, DerNodeType_Sequence; lia | lia].
      rewrite !length_app. lia.
  - unfold findCrlDistributionUri. cbn [getChildren mbind result_bind find_extension].
    rewrite (extension_value_oid _ _ _ _ Ho), bool_decide_false by easy. reflexivity.
Qed.

(** ** Round trip *)

(** An issuer that is no encapsulated X.509 name is put into a name of one part, and is read as that. *)
Definition read_issuer (issuer : Name) : result exn Name :=
  if isEncapsulatedX509 issuer then Ok issuer
  else
    node ← x509_name_of PSEUDONYM_OID (toUri issuer false);
    encoding ← der_encode node;
    mret (X509_encapsulated encoding).

Definition issuer_ok (issuer : Name) : Prop :=
  isEncapsulatedX509 issuer = false \/
  exists t e, canonical t = true /\ der_encode t = Ok e /\ zlen e < 2 ^ 30 /\ issuer = X509_encapsulated e.

Definition subject_ok (subject : Name) : Prop :=
  isEncapsulatedX509 subject = false /\ Forall component_ok subject /\ Forall NameUri.digest_ok subject /\
  codes_readable false subject.

(** The node of an issuer. *)
Lemma issuer_node issuer node extensions e :
  issuer_ok issuer -> makeX509Name issuer None = Ok (node, extensions) -> der_encode node = Ok e ->
  canonical node = true /\ read_issuer issuer = Ok (X509_encapsulated e).
Proof.
  intros Hi Hm He. unfold makeX509Name, read_issuer in *. destruct Hi as [Hi | (t & e' & Hc & He' & Hl & ->)].
  - rewrite Hi in *. cbn [mbind result_bind] in Hm. apply bind_ok in Hm as (n & Hn & Hx). injection Hx as -> <-.
    split; [now apply x509_name_canonical in Hn |]. rewrite Hn. cbn [mbind result_bind]. now rewrite He.
  - change (isEncapsulatedX509 (X509_encapsulated e')) with true in *. cbn iota in *.
    change (name_get (X509_encapsulated e') 1) with (@Ok exn _ (generic e')) in Hm. cbn [mbind result_bind value_ generic] in Hm.
    rewrite (parse_encoded t e' Hc He') in Hm by lia. injection Hm as -> <-. split; [easy |]. congruence.
Qed.

(** The nodes of the subject: its name, and the extension. *)
Lemma subject_nodes subject node extensions :
  subject_ok subject -> makeX509Name subject (Some DerSequence_new) = Ok (node, extensions) ->
  canonical node = true /\ exists extension, alternative_names (toUri subject false) = Ok extension /\
    extensions = Some (DerStructure DerNodeType_Sequence [extension]).
Proof.
  intros [Hi _] Hm. unfold makeX509Name in Hm. rewrite Hi in Hm.
  apply bind_ok in Hm as (ext & He & (n & Hn & Hx)%bind_ok). injection Hx as -> <-.
  apply bind_ok in He as (extension & Ha & (l & Hl & Hy)%bind_ok). injection Hy as <-.
  unfold DerSequence_new in Hl. rewrite add_children_ok in Hl by reflexivity. injection Hl as <-.
  split; [now apply x509_name_canonical in Hn | eauto].
Qed.

Lemma period_time_node ms t :
  utc_time_ok ms -> period_time ms = Ok t -> canonical t = true /\ nodeType t = DerNodeType_UtcTime /\
    UtcTime_toTimePoint t = Ok (ms * 1000000).
Proof.
  intros Ho (? & _ & Ht)%bind_ok. destruct (utcTime_string ms Ho) as (s & Hs & _ & Hr). unfold DerUtcTime_new in Ht.
  rewrite Hs in Ht. cbn [mbind result_bind] in Ht. apply leaf_new_inv in Ht as [Hc [h ->]]; [easy | reflexivity].
Qed.

(** The fields of a certificate that was made. *)
Record Fields := mkFields {
  f_version : DerNode; f_serialHeader : list Z; f_algorithm : DerNode; f_issuer : DerNode;
  f_notBefore : DerNode; f_notAfter : DerNode; f_subject : DerNode; f_key : DerNode; f_extension : DerNode
}.

Definition tbs_of (f : Fields) (serial : list Z) : DerNode :=
  DerStructure DerNodeType_Sequence
    [f_version f; DerLeaf DerNodeType_Integer (f_serialHeader f) serial; f_algorithm f; f_issuer f;
     DerStructure DerNodeType_Sequence [f_notBefore f; f_notAfter f]; f_subject f; f_key f;
     DerStructure 163 [DerStructure DerNodeType_Sequence [f_extension f]]].

Definition fields_ok (f : Fields) (issuer : Name) (period : Period) (subject : Name) (publicKey : list Z) : Prop :=
  f_version f = DerStructure 160 [DerLeaf DerNodeType_Integer [2; 1] [2]] /\ canonical (f_algorithm f) = true /\
  (exists x, makeX509Name issuer None = Ok (f_issuer f, x)) /\
  period_time period.1 = Ok (f_notBefore f) /\ period_time period.2 = Ok (f_notAfter f) /\
  canonical (f_subject f) = true /\ alternative_names (toUri subject false) = Ok (f_extension f) /\
  canonical (f_key f) = true /\ der_encode (f_key f) = Ok publicKey.

Definition key_ok (publicKey : list Z) : Prop :=
  exists key, canonical key = true /\ der_encode key = Ok publicKey /\ zlen publicKey < 2 ^ 31.

Lemma make_tbs_fields algorithm issuer notBefore notAfter subject publicKey serial tbs :
  canonical algorithm = true -> subject_ok subject -> key_ok publicKey ->
  make_tbsCertificate algorithm issuer notBefore notAfter subject publicKey serial = Ok tbs ->
  exists f, tbs = tbs_of f serial /\ fields_ok f issuer (notBefore, notAfter) subject publicKey /\
    canonical (DerLeaf DerNodeType_Integer (f_serialHeader f) serial) = true.
Proof.
  intros Ha Hs (key & Hk & Hke & Hkl) Hm. unfold make_tbsCertificate in Hm.
  change (DerInteger_new 2) with (@Ok exn _ (DerLeaf DerNodeType_Integer [2; 1] [2])) in Hm. cbn [mbind result_bind] in Hm.
  change (DerExplicit_new 0) with (@Ok exn _ (DerStructure 160 [])) in Hm. cbn [mbind result_bind] in Hm.
  change (add_children (DerStructure 160 []) [DerLeaf DerNodeType_Integer [2; 1] [2]]) with
    (@Ok exn _ (DerStructure 160 [DerLeaf DerNodeType_Integer [2; 1] [2]])) in Hm. cbn [mbind result_bind] in Hm.
  apply bind_ok in Hm as (ser & Hser & Hm). unfold DerInteger_of_bytes in Hser. destruct (_ && _) in Hser; [easy |].
  apply leaf_new_inv in Hser as [Hcs [sh ->]]; [| reflexivity].
  apply bind_ok in Hm as ([iss x] & Hi & Hm). apply bind_ok in Hm as (nb & Hnb & Hm). apply bind_ok in Hm as (na & Hna & Hm).
  rewrite sequence_of_ok in Hm. cbn [mbind result_bind] in Hm. apply bind_ok in Hm as ([sub ext] & Hsub & Hm).
  destruct (subject_nodes _ _ _ Hs Hsub) as [Hsc (extension & Hext & ->)].
  rewrite (parse_encoded key publicKey Hk Hke Hkl) in Hm. cbn [on_exception mbind result_bind option_list] in Hm.
  change (DerExplicit_new 3) with (@Ok exn _ (DerStructure 163 [])) in Hm. cbn [mbind result_bind] in Hm.
  change (add_children (DerStructure 163 []) (option_list (Some (DerStructure DerNodeType_Sequence [extension])))) with
    (@Ok exn _ (DerStructure 163 [DerStructure DerNodeType_Sequence [extension]])) in Hm. cbn [mbind result_bind mret result_ret] in Hm.
  rewrite sequence_of_ok in Hm. injection Hm as <-. cbn [app].
  exists (mkFields (DerStructure 160 [DerLeaf DerNodeType_Integer [2; 1] [2]]) sh algorithm iss nb na sub key extension).
  split_and!; [easy | | easy]. unfold fields_ok. cbn. split_and!; eauto.
Qed.

Lemma tbs_canonical f issuer period subject publicKey serial :
  fields_ok f issuer period subject publicKey -> canonical (f_issuer f) = true ->
  canonical (DerLeaf DerNodeType_Integer (f_serialHeader f) serial) = true ->
  utc_time_ok period.1 -> utc_time_ok period.2 -> canonical (tbs_of f serial) = true.
Proof.
  intros (Hv & Ha & _ & Hnb & Hna & Hs & He & Hk & _) Hi Hser H1 H2.
  apply period_time_node in Hnb as (Hnb & _); [| easy]. apply period_time_node in Hna as (Hna & _); [| easy].
  apply alternative_names_node in He as (? & ? & ? & ? & _ & _ & _ & _ & He).
  unfold tbs_of. rewrite canonical_sequence, Hv. cbn [forallb]. rewrite Hser, Ha, Hi, Hs, Hk, canonical_sequence. cbn [forallb].
  rewrite Hnb, Hna. cbn [canonical forallb]. rewrite He. reflexivity.
Qed.

(** The URI in the extension is shorter than the certificate. *)
Lemma extension_uri_length uri extension bs :
  alternative_names uri = Ok extension -> der_encode extension = Ok bs -> (length uri <= length bs)%nat.
Proof.
  intros (oid & uh & general & h & -> & _ & _ & He & _)%alternative_names_node Hb.
  apply (encode_child _ _ _ 1) with (t := DerLeaf DerNodeType_OctetString h general) in Hb as (e & Hx & Hl); [| reflexivity].
  cbn [der_encode] in Hx. injection Hx as <-.
  apply (encode_child _ _ _ 0) with (t := DerLeaf GENERAL_NAME_URI_TYPE uh uri) in He as (e & Hx & Hg); [| reflexivity].
  cbn [der_encode] in Hx. injection Hx as <-. rewrite length_app in *. lia.
Qed.

Lemma decode_validity_period period nb na :
  utc_time_ok period.1 -> utc_time_ok period.2 -> period_time period.1 = Ok nb -> period_time period.2 = Ok na ->
  decode_validity [nb; na] = Ok period.
Proof.
  intros H1 H2 Hnb Hna. destruct (period_time_node _ _ H1 Hnb) as (_ & Htb & Hb). destruct (period_time_node _ _ H2 Hna) as (_ & Hta & Ha).
  unfold decode_validity, utc_time. cbn [lookup list_lookup unchecked mbind result_bind]. rewrite Htb, Hta.
  change (DerNodeType_UtcTime =? DerNodeType_UtcTime) with true. cbn [mbind result_bind]. rewrite Hb, Ha. cbn [mbind result_bind mret result_ret]. rewrite !Z.div_mul by lia. unfold ValidityPeriod_setPeriod.
  destruct H1 as [[_ Hm1] _], H2 as [[_ Hm2] _]. destruct period as [p q]. cbn [fst snd] in *. f_equal. f_equal; Z.to_euclidean_division_equations; lia.
Qed.

Lemma decode_tbs_of f issuer period subject publicKey serial bs signed signature :
  fields_ok f issuer period subject publicKey -> issuer_ok issuer -> subject_ok subject ->
  utc_time_ok period.1 -> utc_time_ok period.2 -> der_encode (tbs_of f serial) = Ok bs -> zlen bs < 2 ^ 30 ->
  exists name, read_issuer issuer = Ok name /\ canonical (f_issuer f) = true /\
    decode_tbsCertificate (tbs_of f serial) signed signature =
      Ok (mkX509CertificateInfo signed serial name period subject publicKey signature []).
Proof.
  intros (Hv & Ha & [x Hi] & Hnb & Hna & Hs & Hext & Hk & Hke) Hio Hso H1 H2 He Hl. unfold tbs_of in He.
  destruct (encode_child _ _ _ 3 (f_issuer f) He) as (ie & Hie & _); [reflexivity |].
  destruct (issuer_node _ _ _ _ Hio Hi Hie) as [Hic Hir]. exists (X509_encapsulated ie). split_and!; [easy | easy |].
  assert (Hu : zlen (toUri subject false) < 2 ^ 30).
  { destruct (encode_child _ _ _ 7 (DerStructure 163 [DerStructure DerNodeType_Sequence [f_extension f]]) He) as (e1 & He1 & Hl1); [reflexivity |].
    destruct (encode_child _ _ _ 0 (DerStructure DerNodeType_Sequence [f_extension f]) He1) as (e2 & He2 & Hl2); [reflexivity |].
    destruct (encode_child _ _ _ 0 (f_extension f) He2) as (e3 & He3 & Hl3); [reflexivity |].
    pose proof (extension_uri_length _ _ _ Hext He3). lia. }
  destruct Hso as (_ & Hc & Hd & Hr).
  destruct (makeName_alternative (f_subject f) _ subject _ Hext Hu (name_set_toUri subject false Hc Hd Hr)) as [Hname Hcrl].
  unfold decode_tbsCertificate, tbs_of. cbn [getChildren mbind result_bind]. rewrite Hv.
  set (children := [_; _; _; _; _; _; _; _]).
  change (child_of isExplicitNode children 0) with (Some (DerStructure 160 [DerLeaf DerNodeType_Integer [2; 1] [2]])).
  change (extensions_of children) with (Some (DerStructure DerNodeType_Sequence [f_extension f])).
  subst children. cbn [length Nat.ltb Nat.leb Nat.add lookup list_lookup unchecked mbind result_bind getChildren getPayload].
  assert (Hin : makeName (f_issuer f) None = Ok (X509_encapsulated ie)).
  { unfold makeName. cbn [mbind result_bind]. now rewrite Hie. }
  rewrite Hin. cbn [mbind result_bind getSequence lookup list_lookup]. unfold is_sequence. cbn [nodeType].
  change (DerNodeType_Sequence =? DerNodeType_Sequence) with true. cbn [mbind result_bind getChildren].
  rewrite (decode_validity_period period) by easy. cbn [mbind result_bind].
  rewrite Hname. cbn [mbind result_bind]. rewrite Hke. cbn [mbind result_bind]. rewrite Hcrl. reflexivity.
Qed.

Lemma signed_parts_of tbs alg signature root bs sigNode :
  is_sequence tbs = true -> is_sequence alg = true ->
  DerBitString_new signature 0 = Ok sigNode ->
  root = DerStructure DerNodeType_Sequence [tbs; alg; sigNode] ->
  canonical root = true -> der_encode root = Ok bs -> zlen bs < 2 ^ 31 ->
  signed_parts bs =
    (beginOffset ← getHeaderSize root; size ← getSize tbs;
     mret (tbs, (bs, (Z.of_nat beginOffset, Z.of_nat (beginOffset + size))), signature)).
Proof.
  intros Ht Ha Hs -> Hc He Hl. apply leaf_new_inv in Hs as [_ [h ->]]; [| reflexivity]. unfold signed_parts.
  rewrite (parse_encoded _ _ Hc He Hl). cbn [mbind result_bind getChildren length Z.of_nat Z.ltb].
  unfold getSequence. cbn [lookup list_lookup]. rewrite Ht, Ha. reflexivity.
Qed.

(** C16: X.509 round trip. A certificate is made for an issuer, a validity period of whole seconds from 1970 to 2049,
    a subject, a public key, a signature and a serial number. The issuer is a name, or an encapsulated X.509 name of a
    canonical DER node; the subject is a name and not encapsulated, whose URI reads as itself: digests have 32 bytes, and no
    component with a type code from 10 on follows a digest; the public key is canonical DER; the encoding has less than 2^30 bytes. The
    certificate is read from its own encoding with the same
    portion to be signed, serial number, validity period, subject name, public key and signature, and with no distribution point;
    the issuer is read as the encapsulated X.509 name that the certificate has for it. *)
Theorem x509_roundtrip (issuer subject : Name) (period : Period) (publicKey signature serial : list Z)
    (info : X509CertificateInfo) :
  X509CertificateInfo_new issuer period subject publicKey signature serial = Ok info ->
  zlen (x509_signedEncoding info).1 < 2 ^ 30 ->
  utc_time_ok period.1 -> utc_time_ok period.2 -> key_ok publicKey -> issuer_ok issuer -> subject_ok subject ->
  exists name, read_issuer issuer = Ok name /\
    X509CertificateInfo_decode (x509_signedEncoding info).1 =
      Ok (mkX509CertificateInfo (x509_signedEncoding info) serial name period subject publicKey signature []).
Proof.
  intros Hnew Hl H1 H2 Hkey Hio Hso. unfold X509CertificateInfo_new in Hnew.
  apply bind_ok in Hnew as (oid & Ho & (null & Hn & (alg & Ha & Hnew)%bind_ok)%bind_ok).
  apply bind_ok in Hnew as (tbs & Ht & (sigNode & Hs & (root & Hr & Hnew)%bind_ok)%bind_ok).
  apply bind_ok in Hnew as (offset & Hoff & (size & Hsize & (bs & He & Hx)%bind_ok)%bind_ok). injection Hx as <-. cbn [x509_signedEncoding fst] in *.
  apply oid_node in Ho as [Ho _]. apply leaf_new_inv in Hn as [Hn _]; [| reflexivity].
  apply sequence_of_inv in Ha as ->, Hr as ->. set (alg := DerStructure _ [oid; null]) in *.
  assert (Ha : canonical alg = true) by (subst alg; rewrite canonical_sequence; cbn [forallb]; now rewrite Ho, Hn).
  destruct (make_tbs_fields _ _ _ _ _ _ _ _ Ha Hso Hkey Ht) as (f & -> & Hf & Hser). rewrite <- surjective_pairing in Hf.
  destruct (encode_child _ _ _ 0 (tbs_of f serial) He) as (tb & Htb & Hlt); [reflexivity |].
  destruct (decode_tbs_of f issuer period subject publicKey serial tb
    (bs, (Z.of_nat offset, Z.of_nat (offset + size))) signature Hf Hio Hso H1 H2 Htb) as (name & Hname & Hic & Hdec); [lia |].
  exists name. split; [easy |]. pose proof (leaf_new_inv DerNodeType_BitString _ _ (eq_refl true) Hs) as [Hsc _].
  unfold X509CertificateInfo_decode.
  rewrite (signed_parts_of (tbs_of f serial) alg signature _ bs sigNode (eq_refl _) (eq_refl _) Hs (eq_refl _)); [| | easy | lia].
  - rewrite Hoff, Hsize. cbn [mbind result_bind mret result_ret on_exception]. now rewrite Hdec.
  - rewrite canonical_sequence. cbn [forallb]. rewrite Ha, Hsc, (tbs_canonical f issuer period subject publicKey serial); easy.
Qed.

Definition example_key : DerNode :=
  DerStructure DerNodeType_Sequence
    [DerStructure DerNodeType_Sequence [DerLeaf DerNodeType_Null [5; 0] []]; DerLeaf DerNodeType_BitString [3; 2] [0; 7]].
Definition example_issuer : Name := [generic (chars "ndn"); generic (chars "CA")].
Definition example_subject : Name := [generic (chars "ndn"); generic (chars "KEY")].
Definition example_certificate : result exn X509CertificateInfo :=
  X509CertificateInfo_new example_issuer (1577836800000, 1609459200000) example_subject
    [48; 8; 48; 2; 5; 0; 3; 2; 0; 7] [1; 2] [5].

Lemma x509_roundtrip_witness :
  match example_certificate with
  | Ok info => exists name, read_issuer example_issuer = Ok name /\
      X509CertificateInfo_decode (x509_signedEncoding info).1 =
        Ok (mkX509CertificateInfo (x509_signedEncoding info) [5] name (1577836800000, 1609459200000) example_subject
              [48; 8; 48; 2; 5; 0; 3; 2; 0; 7] [1; 2] [])
  | Err _ => False
  end.
Proof.
  destruct example_certificate as [info | e] eqn:E; [| vm_compute in E; discriminate E].
  apply (x509_roundtrip example_issuer example_subject (1577836800000, 1609459200000)
           [48; 8; 48; 2; 5; 0; 3; 2; 0; 7] [1; 2] [5] info E).
  - vm_compute in E. injection E as <-. reflexivity.
  - split; [split; [cbn; lia | reflexivity] | reflexivity].
  - split; [split; [cbn; lia | reflexivity] | reflexivity].
  - exists example_key. split; [reflexivity |]. split; reflexivity.
  - left. reflexivity.
  - split; [reflexivity |]. split; [| split].
    + repeat constructor; cbn; lia.
    + repeat constructor.
    + repeat split; intros H1 H2; (discriminate H1 || discriminate H2).
Defined.
