(* ===== verification/CertStorageSpec.v ===== *)
(** * No revoked certificate stays in the cache of verified certificates

    The invariant of [CertificateStorage] on the revocation lists that it holds. *)

From stdpp Require Import base list numbers option strings sets.
From Stdlib Require Import ZArith Lia.
From S2P Require Import Prelude Order Actions Name ValidityPeriod Exclude Data Interest WireFormat Certificates NameMap CertStorage.
Open Scope Z_scope.

Section Spec.
Context `{Crypto} {E : Type}.

Definition crls_ok (c : X509CrlCache) : Prop := entries_ok (crlsByName_ c) (crl_nextRefreshTime_ c).

(** The list does not name the serial number. *)
Definition not_revoked (serialNumber : list Z) (crl : X509CrlInfo) : Prop :=
  forall r, r ∈ revokedCertificates_ crl -> revoked_serialNumber r <> serialNumber.

(** The certificate has an issuer, and no list of the issuer in the cache names it. *)
Definition unrevoked (crls : NameMap (CacheEntry X509CrlInfo)) (certificate : Certificate) : Prop :=
  exists issuer, getIssuerName certificate = Ok issuer /\ key_ok issuer /\
    (getX509SerialNumber certificate <> [] -> forall crl, (issuer, crl) ∈ crls ->
       not_revoked (getX509SerialNumber certificate) (entry_value crl)).

Definition storage_ok (s : CertificateStorage) : Prop :=
  cache_ok (verifiedCertificateCache_ s) /\ cache_ok (unverifiedCertificateCache_ s) /\
  crls_ok (verifiedCrlCache_ s) /\
  Forall (fun e => unrevoked (crlsByName_ (verifiedCrlCache_ s)) (entry_value e.2))
    (certificatesByName_ (verifiedCertificateCache_ s)).

Definition with_crls (c : X509CrlCache) (s : CertificateStorage) : CertificateStorage :=
  mkCertificateStorage (trustAnchors_ s) (verifiedCertificateCache_ s) (unverifiedCertificateCache_ s) c.

Definition crls_within (c c' : X509CrlCache) : Prop := forall e, e ∈ crlsByName_ c -> e ∈ crlsByName_ c'.

Lemma unrevoked_within c c' certificate :
  crls_within c c' -> unrevoked (crlsByName_ c') certificate -> unrevoked (crlsByName_ c) certificate.
Proof. intros Hc (issuer & Hi & Hk & Hu). exists issuer. split_and!; [easy | easy |]. intros Hs crl Hx. apply Hu; auto. Qed.

Lemma crl_refresh_spec now c :
  crls_ok c -> crls_ok (crl_refresh now c) /\
  forall e, e ∈ crlsByName_ (crl_refresh now c) <-> e ∈ crlsByName_ c /\ now < removalTime_ e.2.
Proof.
  intros Hc. pose proof (cache_refresh_spec now _ _ Hc) as Hr. unfold crl_refresh.
  now destruct (cache_refresh _ _ _) as [m next].
Qed.

Lemma crl_refresh_within now c : crls_ok c -> crls_within (crl_refresh now c) c.
Proof. intros Hc e He. now apply (crl_refresh_spec now c Hc) in He. Qed.

(** What [revocation_of] does: it may only drop lists that have expired. *)
Lemma revocation_of_spec now certificate issuer s :
  crls_ok (verifiedCrlCache_ s) -> getIssuerName certificate = Ok issuer -> key_ok issuer ->
  exists c r, revocation_of (E := E) now certificate s = (with_crls c s, [], Ok r) /\
    crls_ok c /\ crls_within c (verifiedCrlCache_ s) /\
    (r = None -> unrevoked (crlsByName_ c) certificate).
Proof.
  intros Hc Hi Hk. unfold revocation_of. rewrite Hi, act_returns_bind. unfold findRevokedCertificate.
  destruct (Z.eqb_spec (zlen (getX509SerialNumber certificate)) 0) as [He | Hne].
  - exists (verifiedCrlCache_ s), None. destruct s. split_and!; [easy | easy | now intros e |].
    intros _. exists issuer. split_and!; [easy | easy |]. intros Hs. now destruct (getX509SerialNumber certificate).
  - destruct (crl_refresh_spec now _ Hc) as [Hok Hin]. exists (crl_refresh now (verifiedCrlCache_ s)). eexists.
    split; [reflexivity |]. split_and!; [easy | now apply crl_refresh_within |].
    intros Hr. exists issuer. split_and!; [easy | easy |]. intros _ crl Hx.
    apply (map_find_elem _ _ _ (proj1 Hok) Hk) in Hx. unfold crl_find in Hr. cbn in Hr. rewrite Hx in Hr.
    destruct (list_find _ _) as [[i r] |] eqn:Hf; [easy |].
    intros x Hx'. apply list_find_None in Hf. rewrite Forall_forall in Hf. now apply Hf.
Qed.

(** [cacheVerifiedCertificate] keeps the invariant, and says so when the certificate is revoked. *)
Lemma cacheVerifiedCertificate_ok now certificate issuer s :
  storage_ok s -> key_ok (cert_name certificate) -> getIssuerName certificate = Ok issuer -> key_ok issuer ->
  storage_ok (state_of (cacheVerifiedCertificate (E := E) now certificate s)).
Proof.
  intros (Hv & Hu & Hc & Hf) Hk Hi Hki. unfold cacheVerifiedCertificate.
  destruct (revocation_of_spec now certificate issuer s Hc Hi Hki) as (c & r & Hr & Hc' & Hw & Hn).
  rewrite (act_bind_ok _ _ _ _ _ _ Hr).
  assert (Hf' : Forall (fun e => unrevoked (crlsByName_ c) (entry_value e.2))
    (certificatesByName_ (verifiedCertificateCache_ s))).
  { eapply Forall_impl; [exact Hf |]. intros e. now apply unrevoked_within. }
  destruct r as [r |]; [now cbn |]. specialize (Hn eq_refl).
  pose proof (certificate_insert_ok now certificate _ Hk Hv) as Hins.
  assert (Hall : Forall (fun e => unrevoked (crlsByName_ c) (entry_value e.2))
    (certificatesByName_ (certificate_insert now certificate (verifiedCertificateCache_ s)).1)).
  { rewrite Forall_forall in *. intros e He. unfold certificate_insert in He.
    destruct (_ ≫= _); [| now apply Hf']. destruct (_ <? _); [now apply Hf' |].
    unfold CertificateV2_copy, mbind, result_bind in He. destruct (checkFormat _); [| now apply Hf'].
    apply map_set_in in He as [-> | He]; [exact Hn | now apply Hf']. }
  unfold on_verified, with_crls, mbind, Act_bind, mret, Act_ret. cbn [verifiedCertificateCache_].
  destruct (certificate_insert _ _ _) as [cache [x | x]]; cbn in *; split_and!; assumption.
Qed.

Definition has_issuer (certificate : Certificate) : Prop :=
  exists issuer, getIssuerName certificate = Ok issuer /\ key_ok issuer.

(** The loop over the cached certificates. *)
Lemma revoked_names_spec now issuerName (entries : list (CacheEntry Certificate)) s :
  crls_ok (verifiedCrlCache_ s) -> Forall (fun e => has_issuer (entry_value e)) entries ->
  exists c names, revoked_names (E := E) now issuerName entries s = (with_crls c s, [], Ok names) /\
    crls_ok c /\ crls_within c (verifiedCrlCache_ s) /\
    Forall (fun e => forall issuer, getIssuerName (entry_value e) = Ok issuer -> name_equals issuer issuerName = true ->
      cert_name (entry_value e) ∈ names \/ unrevoked (crlsByName_ c) (entry_value e)) entries /\
    names ⊆ map (fun e => cert_name (entry_value e)) entries.
Proof.
  revert s. induction entries as [| e entries IH]; intros s Hc He; cbn [revoked_names].
  { exists (verifiedCrlCache_ s), []. destruct s. split_and!; [easy | easy | now intros e | constructor | set_solver]. }
  apply Forall_cons in He as [(issuer & Hi & Hk) He]. rewrite Hi, act_returns_bind.
  destruct (name_equals issuer issuerName) eqn:Heq; cbn [negb].
  - destruct (revocation_of_spec now (entry_value e) issuer s Hc Hi Hk) as (c & r & Hr & Hc' & Hw & Hn).
    rewrite (act_bind_ok _ _ _ _ _ _ Hr).
    destruct (IH (with_crls c s) Hc' He) as (c2 & names & Hl & Hc2 & Hw2 & Hf & Hsub).
    rewrite (act_bind_ok _ _ _ _ _ _ Hl). eexists c2, _. split; [reflexivity |].
    split_and!; [easy | intros x Hx; now apply Hw, Hw2 | | destruct r; set_solver]. apply Forall_cons. split.
    + intros issuer' _ _. destruct r; [left; constructor | right]. eapply unrevoked_within; [exact Hw2 | now apply Hn].
    + eapply Forall_impl; [exact Hf |]. intros e' Hx issuer' Hi' Heq'.
      destruct (Hx issuer' Hi' Heq') as [Hin | Hu]; [left | now right]. destruct r; [now constructor | easy].
  - destruct (IH s Hc He) as (c2 & names & Hl & Hc2 & Hw2 & Hf & Hsub). exists c2, names.
    split_and!; [exact Hl | easy | easy | | set_solver]. apply Forall_cons. split; [| easy].
    intros issuer' Hi'. congruence.
Qed.

Lemma delete_names_state names s :
  exists calls, for_each (E := E) (fun name => on_verified (fun c => (deleteCertificate name c, Ok tt))) names s =
    (mkCertificateStorage (trustAnchors_ s) (fold_left (fun c name => deleteCertificate name c) names (verifiedCertificateCache_ s))
       (unverifiedCertificateCache_ s) (verifiedCrlCache_ s), calls, Ok tt).
Proof.
  revert s. induction names as [| n names IH]; intros s; cbn [for_each fold_left]; [exists []; now destruct s |].
  unfold mbind at 1, Act_bind at 1, on_verified at 1. destruct (IH (mkCertificateStorage (trustAnchors_ s)
    (deleteCertificate n (verifiedCertificateCache_ s)) (unverifiedCertificateCache_ s) (verifiedCrlCache_ s))) as [calls ->].
  eauto.
Qed.

Lemma delete_all_certificates names c :
  certificatesByName_ (fold_left (fun c name => deleteCertificate name c) names c) =
  fold_left map_erase names (certificatesByName_ c) /\
  nextRefreshTime_ (fold_left (fun c name => deleteCertificate name c) names c) = nextRefreshTime_ c.
Proof. revert c. induction names as [| n names IH]; intros c; cbn; [easy |]. apply (IH (deleteCertificate n c)). Qed.

Lemma cache_ok_delete names c :
  cache_ok c -> cache_ok (fold_left (fun c name => deleteCertificate name c) names c).
Proof.
  revert c. induction names as [| n names IH]; intros c Hc; cbn [fold_left]; [easy |]. apply IH.
  destruct Hc as [[Hm Hn] Hf]. rewrite Forall_forall in *. split; [split |]; cbn.
  - now apply map_erase_ok.
  - apply Forall_forall. intros e He%map_erase_in. now apply Hn.
  - apply Forall_forall. intros e He%map_erase_in. now apply Hf.
Qed.

Lemma name_equals_refl n : name_equals n n = true.
Proof.
  unfold name_equals. rewrite Z.eqb_refl. cbn [negb].
  apply values_match_spec; [easy |]. now rewrite <- (length_map value_ n), firstn_all.
Qed.

(** What [insert] does to the lists. *)
Lemma crl_insert_spec now crlInfo c :
  crls_ok c -> key_ok (crl_issuerName crlInfo) ->
  let '(c', inserted) := crl_insert now crlInfo c in
  crls_ok c' /\
  forall e, e ∈ crlsByName_ c' ->
    e ∈ crlsByName_ c /\ (inserted = true -> e.1 <> crl_issuerName crlInfo) \/
    e.1 = crl_issuerName crlInfo /\ entry_value e.2 = crlInfo /\ inserted = true.
Proof.
  intros Hc Hk. unfold crl_insert, crl_find.
  assert (Hdrop : forall c', crls_within c' c -> forall e, e ∈ crlsByName_ c' ->
    e ∈ crlsByName_ c /\ (false = true -> e.1 <> crl_issuerName crlInfo) \/
    e.1 = crl_issuerName crlInfo /\ entry_value e.2 = crlInfo /\ false = true) by (intros c' Hw e He; left; auto).
  destruct (now <? _); [split; [easy | now apply Hdrop] |]. destruct (_ <? now); [split; [easy | now apply Hdrop] |].
  destruct (crl_refresh_spec now c Hc) as [[Hm Hn] Hin]. pose proof (crl_refresh_within now c Hc) as Hw.
  destruct (match _ with Some _ => _ | None => _ end) eqn:Hnewer; [split; [easy | now apply Hdrop] |].
  set (next := if _ <? _ then _ else _). split.
  - split; cbn; [now apply map_set_ok |]. rewrite Forall_forall in *. intros e He.
    assert (next <= nextUpdate_ crlInfo /\ next <= crl_nextRefreshTime_ (crl_refresh now c)) as [H1 H2].
    { unfold next. destruct (Z.ltb_spec (nextUpdate_ crlInfo) (crl_nextRefreshTime_ (crl_refresh now c))); lia. }
    apply map_set_in in He as [-> | He]; [cbn; lia |]. specialize (Hn _ He). cbn in *. lia.
  - intros e He. apply map_set_elem in He as [-> | [He Hne]]; [now right | | easy | easy]. left. split; [now apply Hw | easy].
Qed.

Lemma cacheVerifiedCrl_ok now crlInfo s :
  storage_ok s -> key_ok (crl_issuerName crlInfo) ->
  storage_ok (state_of (cacheVerifiedCrl (E := E) now crlInfo s)).
Proof.
  intros (Hv & Hu & Hc & Hf) Hk. unfold cacheVerifiedCrl.
  pose proof (crl_insert_spec now crlInfo _ Hc Hk) as Hins.
  unfold mbind at 1, Act_bind at 1, on_crls at 1. destruct (crl_insert now crlInfo _) as [c inserted].
  destruct Hins as [Hc' Hin]. change (mkCertificateStorage _ _ _ c) with (with_crls c s).
  destruct inserted; cbn [negb].
  2: { unfold mret, Act_ret. cbn. split_and!; try easy. cbn. eapply Forall_impl; [exact Hf |].
       intros e. apply unrevoked_within. intros x Hx. now destruct (Hin _ Hx) as [[? _] | (_ & _ & ?)]. }
  rewrite act_get_bind. cbn [verifiedCertificateCache_ with_crls].
  set (entries := map snd _).
  assert (Hiss : Forall (fun e => has_issuer (entry_value e)) entries).
  { unfold entries. rewrite Forall_map. eapply Forall_impl; [exact Hf |]. intros e (issuer & Hi & Hki & _). now exists issuer. }
  destruct (revoked_names_spec now (crl_issuerName crlInfo) entries (with_crls c s) Hc' Hiss) as (c2 & names & Hl & Hc2 & Hw2 & Hn & Hsub).
  rewrite (act_bind_ok _ _ _ _ _ _ Hl). destruct (delete_names_state names (with_crls c2 (with_crls c s))) as [calls ->].
  cbn [state_of fst with_crls trustAnchors_ verifiedCertificateCache_ unverifiedCertificateCache_ verifiedCrlCache_].
  unfold state_of. cbn. split_and!; [now apply cache_ok_delete | easy | easy |]. cbn.
  rewrite (proj1 (delete_all_certificates names _)). destruct Hv as [[Hm _] He]. rewrite Forall_forall in *.
  intros e Hx. cbn in Hw2.
  assert (Hnames : Forall key_ok names).
  { apply Forall_forall. intros n Hn'. apply Hsub in Hn' as (e' & -> & He')%list_elem_of_fmap.
    unfold entries in He'. apply list_elem_of_fmap in He' as (e'' & -> & He''). rewrite <- (proj1 (He _ He'')).
    destruct Hm as [Hkeys _]. rewrite Forall_forall in Hkeys. now apply Hkeys. }
  apply map_erase_all_elem in Hx as [Hx Hne]; [| easy | easy]. destruct (Hf _ Hx) as (issuer & Hi & Hki & Hold).
  destruct (He _ Hx) as [Hkey _]. rewrite Hkey in Hne.
  destruct (decide (issuer = crl_issuerName crlInfo)) as [-> | Hother].
  - assert (Hentry : e.2 ∈ entries) by (unfold entries; apply list_elem_of_fmap; now exists e).
    rewrite Forall_forall in Hn. now destruct (Hn _ Hentry _ Hi (name_equals_refl _)).
  - exists issuer. split_and!; [easy | easy |]. intros Hs crl Hcrl. apply Hold; [easy |]. apply Hw2 in Hcrl.
    destruct (Hin _ Hcrl) as [[? _] | (Hx' & _)]; [easy | now cbn in Hx'].
Qed.

(** ** The operations *)

(** A call of a method; the names in what it is given are ones that can be compared. *)
Inductive StorageCall :=
| FindTrusted (interest : InterestValue)
| IsKnown (certificatePrefix : Name)
| CacheUnverified (certificate : Certificate)
| LoadAnchor (groupId : list Z) (certificate : Certificate)
| LoadDynamic (groupId path : list Z) (refreshPeriod : Z) (isDirectory : bool)
| ResetAnchors
| ResetVerified
| FindRevoked (issuerName : Name) (serialNumber : list Z)
| CacheVerified (certificate : Certificate)
| CacheCrl (crlInfo : X509CrlInfo)
| SetOffset (nowOffset : Z).

Definition call_ok (call : StorageCall) : Prop :=
  match call with
  | CacheUnverified c => key_ok (cert_name c)
  | CacheVerified c => key_ok (cert_name c) /\ forall issuer, getIssuerName c = Ok issuer -> key_ok issuer
  | CacheCrl crlInfo => key_ok (crl_issuerName crlInfo)
  | _ => True
  end.

(** The storage after the call, also when it throws. *)
Definition run_call (files : Files) (now : Z) (call : StorageCall) (s : CertificateStorage) : CertificateStorage :=
  match call with
  | FindTrusted interest => state_of (findTrustedCertificate (E := E) files now interest s)
  | IsKnown prefix => state_of (isCertificateKnown (E := E) files now prefix s)
  | CacheUnverified c => state_of (cacheUnverifiedCertificate (E := E) now c s)
  | LoadAnchor groupId c => state_of (loadAnchor (E := E) now groupId c s)
  | LoadDynamic groupId path period isDirectory =>
      state_of (loadAnchor_dynamic (E := E) files now groupId path period isDirectory s)
  | ResetAnchors => state_of (resetAnchors (E := E) s)
  | ResetVerified => state_of (resetVerifiedCertificates (E := E) s)
  | FindRevoked issuerName serialNumber => state_of (findRevokedCertificate (E := E) now issuerName serialNumber s)
  | CacheVerified c => state_of (cacheVerifiedCertificate (E := E) now c s)
  | CacheCrl crlInfo => state_of (cacheVerifiedCrl (E := E) now crlInfo s)
  | SetOffset nowOffset => state_of (setCacheNowOffset_ (E := E) nowOffset s)
  end.

(** The storages that calls make, each with its files and its time. *)
Inductive storage_reach : CertificateStorage -> Prop :=
| storage_new : storage_reach CertificateStorage_new
| storage_call files now call s : call_ok call -> storage_reach s -> storage_reach (run_call files now call s).

(** An operation on the verified cache that keeps it and drops or keeps its entries. *)
Lemma storage_ok_verified s c :
  storage_ok s -> cache_ok c ->
  (forall e, e ∈ certificatesByName_ c -> e ∈ certificatesByName_ (verifiedCertificateCache_ s)) ->
  storage_ok (mkCertificateStorage (trustAnchors_ s) c (unverifiedCertificateCache_ s) (verifiedCrlCache_ s)).
Proof.
  intros (_ & Hu & Hc & Hf) Hok Hin. split_and!; [easy | easy | easy |]. cbn. rewrite Forall_forall in *. auto.
Qed.

Lemma storage_ok_unverified s c :
  storage_ok s -> cache_ok c ->
  storage_ok (mkCertificateStorage (trustAnchors_ s) (verifiedCertificateCache_ s) c (verifiedCrlCache_ s)).
Proof. now intros (Hv & _ & Hc & Hf) Hok. Qed.

Lemma storage_ok_anchors s t :
  storage_ok s ->
  storage_ok (mkCertificateStorage t (verifiedCertificateCache_ s) (unverifiedCertificateCache_ s) (verifiedCrlCache_ s)).
Proof. easy. Qed.

Lemma keeps_on_anchors {A} (f : TrustAnchorContainer -> TrustAnchorContainer * result exn A) :
  keeps storage_ok (on_anchors (E := E) f).
Proof. intros s Hs. unfold on_anchors. destruct (f _) as [t r]. now apply storage_ok_anchors. Qed.

Lemma keeps_on_verified {A} (f : CertificateCacheV2 -> CertificateCacheV2 * result exn A) :
  (forall c, cache_ok c -> cache_ok (f c).1 /\
     forall e, e ∈ certificatesByName_ (f c).1 -> e ∈ certificatesByName_ c) ->
  keeps storage_ok (on_verified (E := E) f).
Proof.
  intros Hf s Hs. unfold on_verified. destruct (Hf (verifiedCertificateCache_ s)) as [Hok Hin]; [apply Hs |].
  destruct (f _) as [c r]. now apply storage_ok_verified.
Qed.

Lemma keeps_on_unverified {A} (f : CertificateCacheV2 -> CertificateCacheV2 * result exn A) :
  (forall c, cache_ok c -> cache_ok (f c).1) -> keeps storage_ok (on_unverified (E := E) f).
Proof.
  intros Hf s Hs. unfold on_unverified. specialize (Hf (unverifiedCertificateCache_ s) ltac:(apply Hs)).
  destruct (f _) as [c r]. now apply storage_ok_unverified.
Qed.

Lemma keeps_findRevoked now issuerName serialNumber :
  keeps storage_ok (findRevokedCertificate (E := E) now issuerName serialNumber).
Proof.
  unfold findRevokedCertificate. destruct (_ =? 0); [apply keeps_ret |]. apply keeps_bind; [| intros a; apply keeps_ret].
  intros s (Hv & Hu & Hc & Hf). pose proof (crl_refresh_spec now _ Hc) as [Hok _].
  unfold on_crls. cbn. split_and!; [easy | easy | easy |]. cbn. eapply Forall_impl; [exact Hf |].
  intros e. now apply unrevoked_within, crl_refresh_within.
Qed.

Lemma refresh_subset now c :
  cache_ok c -> cache_ok (certificate_refresh now c) /\
    forall e, e ∈ certificatesByName_ (certificate_refresh now c) -> e ∈ certificatesByName_ c.
Proof. intros Hc. destruct (certificate_refresh_spec now c Hc) as [Hok Hin]. split; [easy |]. intros e He. now apply Hin. Qed.

Lemma storage_call_ok files now call s : call_ok call -> storage_ok s -> storage_ok (run_call files now call s).
Proof.
  intros Hcall. destruct call as [i | p | c | g c | g path period d | | | n sn | c | crl | o]; cbn [run_call].
  - apply keeps_bind; [apply keeps_on_anchors | intros [c |]; [apply keeps_ret |]].
    apply keeps_on_verified. intros c. apply refresh_subset.
  - apply keeps_bind; [apply keeps_on_anchors | intros [c |]; [apply keeps_ret |]].
    apply keeps_bind; [apply keeps_on_verified; intros c; apply refresh_subset | intros [c |]; [apply keeps_ret |]].
    apply keeps_bind; [apply keeps_on_unverified; intros c; apply refresh_subset | intros c; apply keeps_ret].
  - apply keeps_on_unverified. intros cache. now apply certificate_insert_ok.
  - apply keeps_on_anchors.
  - apply keeps_on_anchors.
  - apply keeps_on_anchors.
  - apply keeps_on_verified. intros c _. cbn. split; [split; [apply entries_ok_nil | constructor] | intros e He; now apply elem_of_nil in He].
  - apply keeps_findRevoked.
  - intros Hs. destruct Hcall as [Hk Hi]. destruct (getIssuerName c) as [issuer | e] eqn:He.
    + now apply cacheVerifiedCertificate_ok with issuer; [| | | apply Hi].
    + unfold cacheVerifiedCertificate, revocation_of, mbind, Act_bind, returns, state_of. now rewrite He.
  - intros Hs. now apply cacheVerifiedCrl_ok.
  - apply keeps_bind; [apply keeps_on_verified | intros _; apply keeps_on_unverified]; now intros c Hc.
Qed.

(** C9: revocation. However certificates, anchors and revocation lists are loaded, looked up and dropped, no
    certificate of the cache of verified certificates has a serial number that a list of its issuer in the
    cache revokes: a list drops the certificates that it revokes, and a certificate that is revoked is not
    put into the cache. *)
Theorem no_revoked_certificate (s : CertificateStorage) :
  storage_reach s ->
  forall name certificate removalTime issuer crl,
  (name, mkCacheEntry certificate removalTime) ∈ certificatesByName_ (verifiedCertificateCache_ s) ->
  getX509SerialNumber certificate <> [] -> getIssuerName certificate = Ok issuer ->
  (issuer, crl) ∈ crlsByName_ (verifiedCrlCache_ s) ->
  not_revoked (getX509SerialNumber certificate) (entry_value crl).
Proof.
  intros Hr name certificate removalTime issuer crl Hin Hs Hi Hcrl.
  assert (Hok : storage_ok s).
  { clear - Hr. induction Hr as [| files now call s Hcall Hr IH]; [| now apply storage_call_ok].
    split_and!; [| | apply entries_ok_nil | constructor]; (split; [apply entries_ok_nil | constructor]). }
  destruct Hok as (_ & _ & _ & Hf). rewrite Forall_forall in Hf. destruct (Hf _ Hin) as (issuer' & Hi' & _ & Hu).
  cbn in *. rewrite Hi in Hi'. injection Hi' as <-. now apply (Hu Hs crl).
Qed.
End Spec.

#[local] Existing Instance toy_crypto.

(** Of two certificates in the cache the list drops the one that it revokes. *)
Lemma no_revoked_certificate_witness :
  let name k := [generic [97]; KEY_COMPONENT; generic [k]; generic [105]; generic [118]] in
  let crl := mkX509CrlInfo [generic [73]] 500 (2 * 10 ^ 12) [mkRevokedCertificate [6] 400] in
  let calls := [CacheVerified (toy_x509 (name 1) 5); CacheVerified (toy_x509 (name 2) 6); CacheCrl crl;
                CacheVerified (toy_x509 (name 3) 6)] in
  let s := fold_left (fun s call => run_call (E := unit) (mkFiles (fun _ => None) (fun _ => [])) 1000 call s) calls
             CertificateStorage_new in
  map (fun e => e.1) (certificatesByName_ (verifiedCertificateCache_ s)) = [name 1] /\
  not_revoked [5] crl.
Proof.
  intros name crl calls s. split; [now vm_compute |].
  assert (Hr : storage_reach (E := unit) s).
  { assert (Hx : key_ok [generic [73]]) by now apply (key_ok_generic [[73]]).
    assert (Hn : forall k, k ∈ [1; 2; 3] -> key_ok (name k)).
    { intros k Hk. apply (key_ok_generic [[97]; [75; 69; 89]; [k]; [105]; [118]]).
      repeat (apply elem_of_cons in Hk as [-> | Hk]; [reflexivity |]). now apply elem_of_nil in Hk. }
    unfold s, calls. cbn [fold_left]. repeat (apply storage_call); [| | | | apply storage_new];
      first [exact Hx | split; [apply Hn; set_solver | intros issuer [= <-]; exact Hx]]. }
  apply (no_revoked_certificate s Hr (name 1) (toy_x509 (name 1) 5) (Z.min 4000000000000000000 (1000 + 3600 * 10 ^ 9)) [generic [73]]
    (mkCacheEntry crl (2 * 10 ^ 12))); [| easy | easy |]; vm_compute; constructor.
Defined.
