(* ===== verification/BoostInfo.v ===== *)
(** * Configuration files in the INFO format

    [BoostInfoTree] and [BoostInfoParser] of src/util/boost-info-parser.cpp. A C++ string is the list of its
    bytes. The parser walks through the tree with a pointer, which is here the path from the root; a null
    pointer is a case of its own. *)

From stdpp Require Import base list numbers option strings.
From Stdlib Require Import ZArith Lia.
From S2P Require Import Prelude NameUri.
Open Scope Z_scope.

(** The subtrees in the order of their first name, and the name under which the last child was added. *)
Inductive BoostInfoTree :=
| mkTree (value_ : list Z) (subtrees_ : list (list Z * list BoostInfoTree)) (lastChild_ : option (list Z)).

Definition tree_value (t : BoostInfoTree) : list Z := let '(mkTree value _ _) := t in value.
Definition tree_subtrees (t : BoostInfoTree) : list (list Z * list BoostInfoTree) :=
  let '(mkTree _ subtrees _) := t in subtrees.

Definition BoostInfoTree_new (value : list Z) : BoostInfoTree := mkTree value [] None.

(** [addSubtree], on the list of the subtrees. *)
Fixpoint add_to (subtrees : list (list Z * list BoostInfoTree)) (treeName : list Z) (newTree : BoostInfoTree) :
    list (list Z * list BoostInfoTree) :=
  match subtrees with
  | [] => [(treeName, [newTree])]
  | (name, trees) :: subtrees =>
      if bool_decide (name = treeName) then (name, trees ++ [newTree]) :: subtrees
      else (name, trees) :: add_to subtrees treeName newTree
  end.

Definition addSubtree (treeName : list Z) (newTree t : BoostInfoTree) : BoostInfoTree :=
  let '(mkTree value subtrees _) := t in mkTree value (add_to subtrees treeName newTree) (Some treeName).

Definition createSubtree (treeName value : list Z) (t : BoostInfoTree) : BoostInfoTree :=
  addSubtree treeName (BoostInfoTree_new value) t.

Fixpoint tree_find (subtrees : list (list Z * list BoostInfoTree)) (treeName : list Z) :
    option (list BoostInfoTree) :=
  match subtrees with
  | [] => None
  | (name, trees) :: subtrees =>
      if bool_decide (name = treeName) then Some trees else tree_find subtrees treeName
  end.

(** [split], with [getline]: a separator at the end begins no further part. *)
Fixpoint split_from (fuel : nat) (separator : Z) (input : list Z) : list (list Z) :=
  match fuel, input with
  | O, _ | _, [] => []
  | S fuel, _ =>
      let '(str, rest) := split_at separator input in
      str :: match rest with Some rest => split_from fuel separator rest | None => [] end
  end.
Definition split (input : list Z) (separator : Z) : list (list Z) := split_from (length input) separator input.

Definition SLASH : Z := 47.

Fixpoint skip_slashes (s : list Z) : list Z :=
  match s with c :: t => if c =? SLASH then skip_slashes t else s | [] => [] end.

Fixpoint join (path : list (list Z)) : list Z :=
  match path with
  | [] => []
  | [str] => str
  | str :: path => str ++ SLASH :: join path
  end.

(** [operator \[\]]: the subtrees at a path. *)
Fixpoint subtrees_at (fuel : nat) (keyIn : list Z) (t : BoostInfoTree) : list BoostInfoTree :=
  match fuel with
  | O => []
  | S fuel =>
      match split (skip_slashes keyIn) SLASH with
      | [] => [t]
      | name :: path =>
          match tree_find (tree_subtrees t) name with
          | None => []
          | Some subtrees =>
              match path with
              | [] => subtrees
              | _ => concat (map (subtrees_at fuel (join path)) subtrees)
              end
          end
      end
  end.

Definition get_subtrees (keyIn : list Z) (t : BoostInfoTree) : list BoostInfoTree :=
  subtrees_at (S (length keyIn)) keyIn t.

Definition getFirstValue (key : list Z) (t : BoostInfoTree) : option (list Z) :=
  match get_subtrees key t with tree :: _ => Some (tree_value tree) | [] => None end.

Definition spaces (n : nat) : list Z := repeat 32 n.

(** [prettyPrint]; the root has no parent. *)
Fixpoint prettyPrint (hasParent : bool) (indentLevel : nat) (t : BoostInfoTree) : list Z :=
  let '(mkTree value subtrees _) := t in
  (if hasParent then (if zlen value >? 0 then [34] ++ value ++ [34] else []) ++ [10] else []) ++
  match subtrees with
  | [] => []
  | _ =>
      (if hasParent then spaces indentLevel ++ chars "{" ++ [10] else []) ++
      concat (map (fun sub =>
        concat (map (fun child =>
          spaces (indentLevel + 2) ++ sub.1 ++ [32] ++ prettyPrint true (indentLevel + 2) child) sub.2)) subtrees) ++
      (if hasParent then spaces indentLevel ++ chars "}" ++ [10] else [])
  end.

(** ** Tokens *)

(** [strchr(" \t\n\r", c)], which also finds the null byte at the end of its string. *)
Definition is_white (c : Z) : bool := (c =? 32) || (c =? 9) || (c =? 10) || (c =? 13) || (c =? 0).

Definition BACKSLASH : Z := 92.
Definition QUOTE : Z := 34.

(** The token at the front, and what follows it. *)
Fixpoint read_token (inQuotation : bool) (token s : list Z) : list Z * list Z :=
  match s with
  | [] => (token, [])
  | c :: t =>
      if c =? BACKSLASH then
        match t with
        | [] => (token, [])
        | escaped :: t => read_token inQuotation (token ++ [escaped]) t
        end
      else if inQuotation then
        if c =? QUOTE then read_token false token t else read_token true (token ++ [c]) t
      else if c =? QUOTE then read_token true token t
      else if is_white c then (token, s)
      else read_token false (token ++ [c]) t
  end.

Fixpoint skip_white (s : list Z) : list Z :=
  match s with c :: t => if is_white c then skip_white t else s | [] => [] end.

Fixpoint shlex_from (fuel : nat) (s : list Z) : list (list Z) :=
  match fuel with
  | O => []
  | S fuel =>
      match skip_white s with
      | [] => []
      | s => let '(token, rest) := read_token false [] s in
             token :: match rest with [] => [] | _ => shlex_from fuel rest end
      end
  end.
Definition shlex_split (s : list Z) : list (list Z) := shlex_from (length s) s.

(** ** The parser *)

(** The pointer to the current tree: the trees from there to the root, or null. *)
Inductive Context :=
| At (current : BoostInfoTree) (parents : list BoostInfoTree)
| Null (root : BoostInfoTree).

(** The parent with the child, which is its last one, replaced. *)
Definition replace_last (trees : list BoostInfoTree) (t : BoostInfoTree) : list BoostInfoTree :=
  removelast trees ++ [t].

Fixpoint put_child (subtrees : list (list Z * list BoostInfoTree)) (name : list Z) (t : BoostInfoTree) :=
  match subtrees with
  | [] => []
  | (n, trees) :: subtrees =>
      if bool_decide (n = name) then (n, replace_last trees t) :: subtrees
      else (n, trees) :: put_child subtrees name t
  end.

Definition plug (child parent : BoostInfoTree) : BoostInfoTree :=
  let '(mkTree value subtrees lastChild) := parent in
  match lastChild with
  | Some name => mkTree value (put_child subtrees name child) lastChild
  | None => parent
  end.

Definition root_of (ctx : Context) : BoostInfoTree :=
  match ctx with
  | At current parents => fold_left plug parents current
  | Null root => root
  end.

Definition getLastChild (ctx : Context) : result exn Context :=
  match ctx with
  | Null _ => Err (Failed UndefinedBehaviour)
  | At (mkTree value subtrees lastChild as t) parents =>
      match lastChild with
      | None => Ok (Null (root_of ctx))
      | Some name =>
          match tree_find subtrees name ≫= last with
          | Some child => Ok (At child (t :: parents))
          | None => Err (Failed UndefinedBehaviour)
          end
      end
  end.

Definition getParent (ctx : Context) : result exn Context :=
  match ctx with
  | Null _ => Err (Failed UndefinedBehaviour)
  | At t [] => Ok (Null t)
  | At t (parent :: parents) => Ok (At (plug t parent) parents)
  end.

Definition create_in (key val : list Z) (ctx : Context) : result exn Context :=
  match ctx with
  | Null _ => Err (Failed UndefinedBehaviour)
  | At t parents => Ok (At (createSubtree key val t) parents)
  end.

Definition SEMICOLON : Z := 59.
Definition LBRACE : Z := 123.
Definition RBRACE : Z := 125.

Definition strip_comment (line : list Z) : list Z :=
  match split_at SEMICOLON line with
  | (before, Some _) => ndn_trim before
  | (_, None) => line
  end.

Section Parse.
(** What reads an included file into the tree. *)
Context (include : list Z -> Context -> result exn Context).

(** A line that may be cut in two at a brace; the parts are not cut again. *)
Fixpoint parseLine (cuts : nat) (lineIn : list Z) (context : Context) : result exn Context :=
  let line := strip_comment lineIn in
  if zlen line =? 0 then Ok context
  else
    let strings := shlex_split line in
    let isSectionStart := existsb (fun s => bool_decide (s = [LBRACE])) strings in
    let isSectionEnd := existsb (fun s => bool_decide (s = [RBRACE])) strings in
    if negb isSectionStart && negb isSectionEnd then
      match strings with
      | [] => Err (Failed UndefinedBehaviour)
      | key :: vals =>
          let val := match vals with val :: _ => val | [] => [] end in
          if bool_decide (key = chars "#include") then include val context else create_in key val context
      end
    else
      match cuts, split_at LBRACE line with
      | S cuts, (c :: firstPart, Some secondPart) =>
          ctx ← parseLine cuts (c :: firstPart) context;
          parseLine cuts (LBRACE :: secondPart) ctx
      | _, _ =>
          match line with
          | c :: _ =>
              if c =? LBRACE then getLastChild context
              else if c =? RBRACE then getParent context
              else Err (RuntimeError "BoostInfoParser: input line is malformed")
          | [] => Err (RuntimeError "BoostInfoParser: input line is malformed")
          end
      end.

Fixpoint read_lines (lines : list (list Z)) (ctx : Context) : result exn Context :=
  match lines with
  | [] => Ok ctx
  | line :: lines => ctx ← parseLine 1 (ndn_trim line) ctx; read_lines lines ctx
  end.
End Parse.

(** [read] of a stream, with files that include others to a depth. *)
Fixpoint read_stream (depth : nat) (files : list Z -> list Z) (contents : list Z) (ctx : Context) : result exn Context :=
  read_lines (fun name ctx =>
    match depth with
    | O => Err (Failed OutOfFuel)
    | S depth => read_stream depth files (files name) ctx
    end) (split contents 10) ctx.

(** [read] of a string or of the contents of a file, into a parser with a root. *)
Definition parser_read (depth : nat) (files : list Z -> list Z) (input : list Z) (root : BoostInfoTree) :
    result exn BoostInfoTree :=
  ctx ← read_stream depth files input (At root []);
  mret (root_of ctx).

Example parse_example :
  let text := chars "validator {
  rule { 
   id " ++ [34] ++ chars "x y" ++ [34] ++ chars " ; a comment
    filter
    {
      type name
      name /a
    }
  }
}" in
  match parser_read 0 (fun _ => []) text (BoostInfoTree_new []) with
  | Ok t => map tree_value (get_subtrees (chars "validator/rule/id") t) = [chars "x y"] /\
            map tree_value (get_subtrees (chars "/validator//rule/filter/name") t) = [chars "/a"]
  | Err _ => False
  end.
Proof. vm_compute. auto. Qed.
