(* ===== verification/Pib.v ===== *)
(** * The public information base

    [PibMemory] (src/security/pib/pib-memory.cpp), which stores identities, keys and certificates, and [Pib] with the
    containers and objects over it (pib.cpp, pib-identity.cpp, pib-key.cpp, pib-*-container.cpp and detail/), which keep
    copies of what they have loaded. A [PibIdentity] or [PibKey] of the application is a weak pointer to an object that
    a container owns; here it names the object, and is dead when the container does not have that object any more. *)

From stdpp Require Import base list numbers option strings.
From Stdlib Require Import ZArith Lia.
From S2P Require Import Prelude Order Actions Name Data TlvData Certificates NameMap.
Open Scope Z_scope.

(** An operation that calls nothing outside. *)
Abbreviation Op S A := (Act S Empty_set A).

Definition Pib_Error : string := "Pib::Error".
Definition pib_error {S A} (what : string) : Op S A := throw_exn (Exception Pib_Error what).
Definition invalid_argument {S A} (what : string) : Op S A := throw_exn (InvalidArgument what).

(** A [std::set] of names. *)
Abbreviation NameSet := (NameMap unit).
Definition set_insert (s : NameSet) (name : Name) : NameSet := map_set s name tt.
Definition has_name {V} (m : NameMap V) (name : Name) : bool := bool_decide (is_Some (map_find m name)).

(** [==] of two sets. *)
Definition same_names (a b : NameSet) : bool := bool_decide (map fst a = map fst b).

(** ** PibMemory *)

Record PibMemory := mkPibMemory {
  tpmLocator_ : list Z;
  hasDefaultIdentity_ : bool;
  defaultIdentityName_ : Name;
  mem_identityNames_ : NameSet;
  defaultKeyNames_ : NameMap Name;
  mem_keys_ : NameMap (list Z);
  defaultCertificateNames_ : NameMap Name;
  mem_certificates_ : NameMap Certificate
}.

Definition PibMemory_new : PibMemory := mkPibMemory [] false [] [] [] [] [] [].

Definition mem_setTpmLocator (tpmLocator : list Z) (m : PibMemory) : PibMemory :=
  mkPibMemory tpmLocator (hasDefaultIdentity_ m) (defaultIdentityName_ m) (mem_identityNames_ m) (defaultKeyNames_ m)
    (mem_keys_ m) (defaultCertificateNames_ m) (mem_certificates_ m).

Definition with_identities (has : bool) (default : Name) (names : NameSet) (m : PibMemory) : PibMemory :=
  mkPibMemory (tpmLocator_ m) has default names (defaultKeyNames_ m) (mem_keys_ m) (defaultCertificateNames_ m)
    (mem_certificates_ m).
Definition with_keys (defaults : NameMap Name) (keys : NameMap (list Z)) (m : PibMemory) : PibMemory :=
  mkPibMemory (tpmLocator_ m) (hasDefaultIdentity_ m) (defaultIdentityName_ m) (mem_identityNames_ m) defaults keys
    (defaultCertificateNames_ m) (mem_certificates_ m).
Definition with_mem_certificates (defaults : NameMap Name) (certificates : NameMap Certificate) (m : PibMemory) : PibMemory :=
  mkPibMemory (tpmLocator_ m) (hasDefaultIdentity_ m) (defaultIdentityName_ m) (mem_identityNames_ m)
    (defaultKeyNames_ m) (mem_keys_ m) defaults certificates.

(** *** Identities *)

Definition hasIdentity (identityName : Name) (m : PibMemory) : bool := has_name (mem_identityNames_ m) identityName.

Definition mem_addIdentity (identityName : Name) (m : PibMemory) : PibMemory :=
  let names := set_insert (mem_identityNames_ m) identityName in
  if negb (hasDefaultIdentity_ m) then with_identities true identityName names m
  else with_identities true (defaultIdentityName_ m) names m.

Definition mem_setDefaultIdentity (identityName : Name) (m : PibMemory) : PibMemory :=
  let m := mem_addIdentity identityName m in
  with_identities true identityName (mem_identityNames_ m) m.

Definition mem_getDefaultIdentity (m : PibMemory) : result exn Name :=
  if hasDefaultIdentity_ m then Ok (defaultIdentityName_ m)
  else Err (Exception Pib_Error "No default identity").

(** All but the TPM locator. *)
Definition clearIdentities (m : PibMemory) : PibMemory := mkPibMemory (tpmLocator_ m) false [] [] [] [] [] [].

(** *** Keys *)

Definition hasKey (keyName : Name) (m : PibMemory) : bool := has_name (mem_keys_ m) keyName.

Definition mem_addKey (identityName keyName : Name) (key : list Z) (m : PibMemory) : PibMemory :=
  let m := mem_addIdentity identityName m in
  with_keys
    (if negb (has_name (defaultKeyNames_ m) identityName) then map_set (defaultKeyNames_ m) identityName keyName
     else defaultKeyNames_ m)
    (map_set (mem_keys_ m) keyName key) m.

Definition mem_getKeyBits (keyName : Name) (m : PibMemory) : result exn (list Z) :=
  match map_find (mem_keys_ m) keyName with
  | Some key => Ok key
  | None => Err (Exception Pib_Error "Key not found")
  end.

(** The loop of [getKeysOfIdentity]: the names are compared with [==], which ignores the types of the components. *)
Fixpoint keys_of_identity (identityName : Name) (keys : NameMap (list Z)) (ids : NameSet) : result exn NameSet :=
  match keys with
  | [] => Ok ids
  | (keyName, _) :: keys =>
      identity ← extractIdentityFromKeyName keyName;
      keys_of_identity identityName keys (if name_equals identityName identity then set_insert ids keyName else ids)
  end.
Definition getKeysOfIdentity (identityName : Name) (m : PibMemory) : result exn NameSet :=
  keys_of_identity identityName (mem_keys_ m) [].

Definition setDefaultKeyOfIdentity (identityName keyName : Name) : Op PibMemory unit :=
  m ← self_get;
  if negb (hasKey keyName m) then pib_error "Key not found"
  else self_modify (fun m => with_keys (map_set (defaultKeyNames_ m) identityName keyName) (mem_keys_ m) m).

Definition getDefaultKeyOfIdentity (identityName : Name) (m : PibMemory) : result exn Name :=
  match map_find (defaultKeyNames_ m) identityName with
  | Some keyName => Ok keyName
  | None => Err (Exception Pib_Error "No default key for identity")
  end.

(** *** Certificates *)

(** The public key is read with the size of the content, which is longer when the content is an X.509 certificate. *)
Definition key_bits_of (certificate : Certificate) : result exn (list Z) :=
  publicKey ← getPublicKey certificate;
  let size := length (blob_bytes (data_content (packet_value (cert_data certificate)))) in
  if (length publicKey <? size)%nat then Err (Failed UndefinedBehaviour) else mret (take size publicKey).

Definition mem_addCertificate (certificate : Certificate) : Op PibMemory unit :=
  let certificateName := cert_name certificate in
  keyName ← returns (getKeyName certificate);
  identity ← returns (getIdentity certificate);
  key ← returns (key_bits_of certificate);
  _ ← self_modify (mem_addKey identity keyName key);
  copy ← returns (CertificateV2_copy certificate);
  self_modify (fun m => with_mem_certificates
    (if negb (has_name (defaultCertificateNames_ m) keyName) then map_set (defaultCertificateNames_ m) keyName certificateName
     else defaultCertificateNames_ m)
    (map_set (mem_certificates_ m) certificateName copy) m).

Definition mem_removeCertificate (certificateName : Name) : Op PibMemory unit :=
  _ ← self_modify (fun m => with_mem_certificates (defaultCertificateNames_ m)
                              (map_erase (mem_certificates_ m) certificateName) m);
  keyName ← returns (extractKeyNameFromCertName certificateName);
  self_modify (fun m =>
    match map_find (defaultCertificateNames_ m) keyName with
    | Some default =>
        if name_equals default certificateName
        then with_mem_certificates (map_erase (defaultCertificateNames_ m) keyName) (mem_certificates_ m) m else m
    | None => m
    end).

(** A copy of the certificate. *)
Definition mem_getCertificate (certificateName : Name) (m : PibMemory) : result exn Certificate :=
  match map_find (mem_certificates_ m) certificateName with
  | Some certificate => CertificateV2_copy certificate
  | None => Err (Exception Pib_Error "Certificate does not exist")
  end.

Fixpoint certificates_of_key (keyName : Name) (certificates : NameMap Certificate) (names : NameSet) : result exn NameSet :=
  match certificates with
  | [] => Ok names
  | (name, certificate) :: certificates =>
      key ← extractKeyNameFromCertName (cert_name certificate);
      certificates_of_key keyName certificates (if name_equals key keyName then set_insert names name else names)
  end.
Definition getCertificatesOfKey (keyName : Name) (m : PibMemory) : result exn NameSet :=
  certificates_of_key keyName (mem_certificates_ m) [].

Definition setDefaultCertificateOfKey (keyName certificateName : Name) : Op PibMemory unit :=
  m ← self_get;
  if negb (has_name (mem_certificates_ m) certificateName) then pib_error "Certificate does not exist"
  else self_modify (fun m => with_mem_certificates (map_set (defaultCertificateNames_ m) keyName certificateName)
                               (mem_certificates_ m) m).

Definition getDefaultCertificateOfKey (keyName : Name) (m : PibMemory) : result exn Certificate :=
  match map_find (defaultCertificateNames_ m) keyName with
  | Some certificateName =>
      match map_find (mem_certificates_ m) certificateName with
      | Some certificate => CertificateV2_copy certificate
      | None => Err (RuntimeError "certificate not found")
      end
  | None => Err (Exception Pib_Error "No default certificate for key")
  end.

(** *** Removing keys and identities *)

(** The default key of the identity is forgotten, whichever key it is. *)
Definition mem_removeKey (keyName : Name) : Op PibMemory unit :=
  identityName ← returns (extractIdentityFromKeyName keyName);
  _ ← self_modify (fun m => with_keys (map_erase (defaultKeyNames_ m) identityName) (map_erase (mem_keys_ m) keyName) m);
  m ← self_get;
  certificateNames ← returns (getCertificatesOfKey keyName m);
  for_each (fun e => mem_removeCertificate e.1) certificateNames.

Definition mem_removeIdentity (identityName : Name) : Op PibMemory unit :=
  _ ← self_modify (fun m =>
    let names := map_erase (mem_identityNames_ m) identityName in
    if name_equals identityName (defaultIdentityName_ m) then with_identities false [] names m
    else with_identities (hasDefaultIdentity_ m) (defaultIdentityName_ m) names m);
  m ← self_get;
  keyNames ← returns (getKeysOfIdentity identityName m);
  for_each (fun e => mem_removeKey e.1) keyNames.

(** ** The objects over it *)

(** [PibKeyImpl], with its [PibCertificateContainer]. The number tells one object from another. *)
Record PibKeyImpl := mkPibKeyImpl {
  ki_number : nat;
  ki_identityName_ : Name;
  ki_keyName_ : Name;
  keyEncoding_ : list Z;
  keyType_ : KeyType;
  ki_certificateNames_ : NameSet;
  ki_certificates_ : NameMap Certificate;
  defaultCertificate_ : option Certificate
}.

(** A weak pointer to a [PibIdentityImpl]: its name and number; and to a [PibKeyImpl]: the object that owns it, its name
    and number. *)
Abbreviation PibIdentity := (Name * nat)%type.
Record PibKey := mkPibKey { kh_owner : PibIdentity; kh_name : Name; kh_number : nat }.

(** [PibIdentityImpl], with its [PibKeyContainer]. *)
Record PibIdentityImpl := mkPibIdentityImpl {
  ii_number : nat;
  ii_identityName_ : Name;
  ii_keyNames_ : NameSet;
  ii_keys_ : NameMap PibKeyImpl;
  defaultKey_ : option PibKey
}.

(** [Pib], with its [PibIdentityContainer], and the number of the next object. *)
Record Pib := mkPib {
  pib_scheme_ : list Z;
  pib_location_ : list Z;
  pib_defaultIdentity_ : option PibIdentity;
  pib_identityNames_ : NameSet;
  pib_identities_ : NameMap PibIdentityImpl;
  pibImpl_ : PibMemory;
  next_number : nat
}.

Definition Pib_new (scheme location : list Z) (pibImpl : PibMemory) : Pib :=
  mkPib scheme location None (mem_identityNames_ pibImpl) [] pibImpl 0.

Definition set_pibImpl (m : PibMemory) (p : Pib) : Pib :=
  mkPib (pib_scheme_ p) (pib_location_ p) (pib_defaultIdentity_ p) (pib_identityNames_ p) (pib_identities_ p) m (next_number p).
Definition set_identities (names : NameSet) (identities : NameMap PibIdentityImpl) (p : Pib) : Pib :=
  mkPib (pib_scheme_ p) (pib_location_ p) (pib_defaultIdentity_ p) names identities (pibImpl_ p) (next_number p).
Definition set_pib_defaultIdentity (identity : option PibIdentity) (p : Pib) : Pib :=
  mkPib (pib_scheme_ p) (pib_location_ p) identity (pib_identityNames_ p) (pib_identities_ p) (pibImpl_ p) (next_number p).

(** A call of [pibImpl_], with or without a change. *)
Definition on_mem {A} (m : Op PibMemory A) : Op Pib A := fun p =>
  let '(mem, calls, r) := m (pibImpl_ p) in (set_pibImpl mem p, calls, r).
Definition read_mem {A} (f : PibMemory -> result exn A) : Op Pib A := p ← self_get; returns (f (pibImpl_ p)).

Definition new_number : Op Pib nat := fun p =>
  (mkPib (pib_scheme_ p) (pib_location_ p) (pib_defaultIdentity_ p) (pib_identityNames_ p) (pib_identities_ p) (pibImpl_ p)
     (S (next_number p)), [], Ok (next_number p)).

(** *** Weak pointers *)

Definition domain_error {S A} (what : string) : Op S A := throw_exn (Exception "std::domain_error" what).

Definition find_identity (h : PibIdentity) (p : Pib) : option PibIdentityImpl :=
  impl ← map_find (pib_identities_ p) h.1;
  if (ii_number impl =? h.2)%nat then Some impl else None.
Definition find_key (h : PibKey) (p : Pib) : option PibKeyImpl :=
  owner ← find_identity (kh_owner h) p;
  impl ← map_find (ii_keys_ owner) (kh_name h);
  if (ki_number impl =? kh_number h)%nat then Some impl else None.

(** [PibIdentity::lock] and [PibKey::lock]. *)
Definition lock_identity (h : PibIdentity) : Op Pib PibIdentityImpl :=
  p ← self_get;
  match find_identity h p with Some impl => mret impl | None => domain_error "Invalid Identity instance" end.
Definition lock_key (h : PibKey) : Op Pib PibKeyImpl :=
  p ← self_get;
  match find_key h p with Some impl => mret impl | None => domain_error "Invalid key instance" end.

(** A change of the object, which is there. *)
Definition set_identity (impl : PibIdentityImpl) (p : Pib) : Pib :=
  set_identities (pib_identityNames_ p) (map_set (pib_identities_ p) (ii_identityName_ impl) impl) p.
Definition change_identity (h : PibIdentity) (f : PibIdentityImpl -> PibIdentityImpl) : Op Pib unit :=
  self_modify (fun p => match find_identity h p with Some impl => set_identity (f impl) p | None => p end).
Definition set_key (key : PibKeyImpl) (impl : PibIdentityImpl) : PibIdentityImpl :=
  mkPibIdentityImpl (ii_number impl) (ii_identityName_ impl) (ii_keyNames_ impl)
    (map_set (ii_keys_ impl) (ki_keyName_ key) key) (defaultKey_ impl).
Definition change_key (h : PibKey) (f : PibKeyImpl -> PibKeyImpl) : Op Pib unit :=
  self_modify (fun p => match find_identity (kh_owner h) p, find_key h p with
                        | Some owner, Some key => set_identity (set_key (f key) owner) p
                        | _, _ => p
                        end).

Definition set_ii_names (names : NameSet) (impl : PibIdentityImpl) : PibIdentityImpl :=
  mkPibIdentityImpl (ii_number impl) (ii_identityName_ impl) names (ii_keys_ impl) (defaultKey_ impl).
Definition set_ii_keys (keys : NameMap PibKeyImpl) (impl : PibIdentityImpl) : PibIdentityImpl :=
  mkPibIdentityImpl (ii_number impl) (ii_identityName_ impl) (ii_keyNames_ impl) keys (defaultKey_ impl).
Definition set_defaultKey (key : option PibKey) (impl : PibIdentityImpl) : PibIdentityImpl :=
  mkPibIdentityImpl (ii_number impl) (ii_identityName_ impl) (ii_keyNames_ impl) (ii_keys_ impl) key.
Definition set_ki_certificates (names : NameSet) (certificates : NameMap Certificate) (key : PibKeyImpl) : PibKeyImpl :=
  mkPibKeyImpl (ki_number key) (ki_identityName_ key) (ki_keyName_ key) (keyEncoding_ key) (keyType_ key) names certificates
    (defaultCertificate_ key).
Definition set_defaultCertificate (certificate : option Certificate) (key : PibKeyImpl) : PibKeyImpl :=
  mkPibKeyImpl (ki_number key) (ki_identityName_ key) (ki_keyName_ key) (keyEncoding_ key) (keyType_ key)
    (ki_certificateNames_ key) (ki_certificates_ key) certificate.

(** ** Identities *)

(** The constructor of [PibIdentityImpl]; the container of the keys is made first. *)
Definition PibIdentityImpl_new (identityName : Name) (needInit : bool) : Op Pib PibIdentityImpl :=
  keyNames ← read_mem (getKeysOfIdentity identityName);
  _ ← (if needInit then on_mem (self_modify (mem_addIdentity identityName))
       else p ← self_get;
            if negb (hasIdentity identityName (pibImpl_ p)) then pib_error "Identity does not exist" else mret tt);
  number ← new_number;
  mret (mkPibIdentityImpl number identityName keyNames [] None).

(** [PibIdentityContainer::get] and [add]. *)
Definition identities_get (identityName : Name) : Op Pib PibIdentity :=
  p ← self_get;
  match map_find (pib_identities_ p) identityName with
  | Some impl => mret (ii_identityName_ impl, ii_number impl)
  | None =>
      impl ← PibIdentityImpl_new identityName false;
      _ ← self_modify (set_identity impl);
      mret (identityName, ii_number impl)
  end.

Definition identities_add (identityName : Name) : Op Pib PibIdentity :=
  p ← self_get;
  _ ← (if negb (has_name (pib_identityNames_ p) identityName) then
         _ ← self_modify (fun p => set_identities (set_insert (pib_identityNames_ p) identityName) (pib_identities_ p) p);
         impl ← PibIdentityImpl_new identityName true;
         self_modify (set_identity impl)
       else mret tt);
  identities_get identityName.

Definition identities_remove (identityName : Name) : Op Pib unit :=
  _ ← self_modify (fun p => set_identities (map_erase (pib_identityNames_ p) identityName)
                              (map_erase (pib_identities_ p) identityName) p);
  on_mem (mem_removeIdentity identityName).

Definition identities_reset : Op Pib unit :=
  self_modify (fun p => set_identities (mem_identityNames_ (pibImpl_ p)) [] p).

Definition identities_isConsistent (p : Pib) : bool := same_names (pib_identityNames_ p) (mem_identityNames_ (pibImpl_ p)).

(** [Pib]. *)
Definition Pib_reset : Op Pib unit :=
  _ ← on_mem (self_modify clearIdentities);
  _ ← on_mem (self_modify (mem_setTpmLocator []));
  _ ← self_modify (set_pib_defaultIdentity None);
  identities_reset.

Definition Pib_setTpmLocator (tpmLocator : list Z) : Op Pib unit :=
  p ← self_get;
  if bool_decide (tpmLocator = tpmLocator_ (pibImpl_ p)) then mret tt
  else
    _ ← Pib_reset;
    on_mem (self_modify (mem_setTpmLocator tpmLocator)).

Definition Pib_getTpmLocator : Op Pib (list Z) :=
  p ← self_get;
  if bool_decide (tpmLocator_ (pibImpl_ p) = []) then pib_error "TPM info does not exist"
  else mret (tpmLocator_ (pibImpl_ p)).

Definition PibIdentity_getName (h : PibIdentity) : Op Pib Name :=
  impl ← lock_identity h; mret (ii_identityName_ impl).

Definition Pib_removeIdentity (identityName : Name) : Op Pib unit :=
  p ← self_get;
  _ ← match pib_defaultIdentity_ p with
      | Some h =>
          name ← PibIdentity_getName h;
          if name_equals name identityName then self_modify (set_pib_defaultIdentity None) else mret tt
      | None => mret tt
      end;
  identities_remove identityName.

Definition Pib_setDefaultIdentity (identityName : Name) : Op Pib PibIdentity :=
  identity ← identities_add identityName;
  _ ← self_modify (set_pib_defaultIdentity (Some identity));
  _ ← on_mem (self_modify (mem_setDefaultIdentity identityName));
  mret identity.

Definition Pib_getDefaultIdentity : Op Pib PibIdentity :=
  p ← self_get;
  match pib_defaultIdentity_ p with
  | Some identity => mret identity
  | None =>
      identityName ← read_mem mem_getDefaultIdentity;
      identity ← identities_get identityName;
      _ ← self_modify (set_pib_defaultIdentity (Some identity));
      mret identity
  end.

Definition getAllIdentityNames (p : Pib) : list Name := map fst (pib_identityNames_ p).

(** ** Keys *)

Section Keys.
Context `{Crypto}.

Definition key_mismatch {A} : Op Pib A := invalid_argument "Key name does not match identity".

(** The check of the container that the key name is one of its identity. *)
Definition check_key_name (identityName keyName : Name) : Op Pib unit :=
  identity ← returns (extractIdentityFromKeyName keyName);
  if negb (name_equals identityName identity) then key_mismatch else mret tt.

Definition key_type_of (keyEncoding : list Z) : result exn KeyType :=
  match public_key_type keyEncoding with
  | Err (Exception class what) =>
      if bool_decide (class = UnrecognizedKeyFormatException) then Err (InvalidArgument "Invalid key encoding")
      else Err (Exception class what)
  | r => r
  end.

(** The constructors of [PibKeyImpl]: of a new key, which is added to [pibImpl_], and of one that is there. *)
Definition PibKeyImpl_new (keyName : Name) (keyEncoding : list Z) : Op Pib PibKeyImpl :=
  identityName ← returns (extractIdentityFromKeyName keyName);
  certificateNames ← read_mem (getCertificatesOfKey keyName);
  keyType ← returns (key_type_of keyEncoding);
  _ ← on_mem (self_modify (mem_addKey identityName keyName keyEncoding));
  number ← new_number;
  mret (mkPibKeyImpl number identityName keyName keyEncoding keyType certificateNames [] None).

Definition PibKeyImpl_load (keyName : Name) : Op Pib PibKeyImpl :=
  identityName ← returns (extractIdentityFromKeyName keyName);
  certificateNames ← read_mem (getCertificatesOfKey keyName);
  keyEncoding ← read_mem (mem_getKeyBits keyName);
  keyType ← returns (public_key_type keyEncoding);
  number ← new_number;
  mret (mkPibKeyImpl number identityName keyName keyEncoding keyType certificateNames [] None).

(** [PibKeyContainer] of an identity. *)
Definition keys_get (h : PibIdentity) (keyName : Name) : Op Pib PibKey :=
  impl ← lock_identity h;
  _ ← check_key_name (ii_identityName_ impl) keyName;
  match map_find (ii_keys_ impl) keyName with
  | Some key => mret (mkPibKey h (ki_keyName_ key) (ki_number key))
  | None =>
      key ← PibKeyImpl_load keyName;
      _ ← change_identity h (set_key key);
      mret (mkPibKey h keyName (ki_number key))
  end.

Definition keys_add (h : PibIdentity) (key : list Z) (keyName : Name) : Op Pib PibKey :=
  impl ← lock_identity h;
  _ ← check_key_name (ii_identityName_ impl) keyName;
  _ ← change_identity h (fun impl => set_ii_names (set_insert (ii_keyNames_ impl) keyName) impl);
  newKey ← PibKeyImpl_new keyName key;
  _ ← change_identity h (set_key newKey);
  keys_get h keyName.

Definition keys_remove (h : PibIdentity) (keyName : Name) : Op Pib unit :=
  impl ← lock_identity h;
  _ ← check_key_name (ii_identityName_ impl) keyName;
  _ ← change_identity h (fun impl => set_ii_keys (map_erase (ii_keys_ impl) keyName)
                                       (set_ii_names (map_erase (ii_keyNames_ impl) keyName) impl));
  on_mem (mem_removeKey keyName).

(** The keys that have been loaded. *)
Definition getKeyNames (impl : PibIdentityImpl) : list Name := map fst (ii_keys_ impl).

Definition keys_isConsistent (impl : PibIdentityImpl) (p : Pib) : result exn bool :=
  names ← getKeysOfIdentity (ii_identityName_ impl) (pibImpl_ p); mret (same_names (ii_keyNames_ impl) names).

(** [PibIdentityImpl]. *)
Definition PibKey_getName (k : PibKey) : Op Pib Name := key ← lock_key k; mret (ki_keyName_ key).

Definition identity_removeKey (h : PibIdentity) (keyName : Name) : Op Pib unit :=
  impl ← lock_identity h;
  _ ← match defaultKey_ impl with
      | Some key =>
          name ← PibKey_getName key;
          if name_equals name keyName then change_identity h (set_defaultKey None) else mret tt
      | None => mret tt
      end;
  keys_remove h keyName.

Definition identity_setDefaultKey (h : PibIdentity) (keyName : Name) : Op Pib PibKey :=
  impl ← lock_identity h;
  key ← keys_get h keyName;
  _ ← change_identity h (set_defaultKey (Some key));
  _ ← on_mem (setDefaultKeyOfIdentity (ii_identityName_ impl) keyName);
  mret key.

Definition identity_addDefaultKey (h : PibIdentity) (key : list Z) (keyName : Name) : Op Pib PibKey :=
  _ ← keys_add h key keyName; identity_setDefaultKey h keyName.

Definition identity_getDefaultKey (h : PibIdentity) : Op Pib PibKey :=
  impl ← lock_identity h;
  match defaultKey_ impl with
  | Some key => mret key
  | None =>
      keyName ← read_mem (getDefaultKeyOfIdentity (ii_identityName_ impl));
      key ← keys_get h keyName;
      _ ← change_identity h (set_defaultKey (Some key));
      mret key
  end.

(** ** Certificates *)

(** [PibCertificateContainer] of a key. *)
Definition certificates_add (k : PibKey) (certificate : Certificate) : Op Pib unit :=
  key ← lock_key k;
  keyName ← returns (getKeyName certificate);
  if negb (name_equals (ki_keyName_ key) keyName) then invalid_argument "The certificate name does not match the key name"
  else
    let certificateName := cert_name certificate in
    _ ← change_key k (fun key => set_ki_certificates (set_insert (ki_certificateNames_ key) certificateName)
                                   (ki_certificates_ key) key);
    copy ← returns (CertificateV2_copy certificate);
    _ ← change_key k (fun key => set_ki_certificates (ki_certificateNames_ key)
                                   (map_set (ki_certificates_ key) certificateName copy) key);
    on_mem (mem_addCertificate certificate).

Definition check_certificate_name (keyName certificateName : Name) : Op Pib unit :=
  if negb (isValidName certificateName) then invalid_argument "Certificate name is invalid or does not match key name"
  else
    name ← returns (extractKeyNameFromCertName certificateName);
    if negb (name_equals name keyName) then invalid_argument "Certificate name is invalid or does not match key name"
    else mret tt.

Definition certificates_remove (k : PibKey) (certificateName : Name) : Op Pib unit :=
  key ← lock_key k;
  _ ← check_certificate_name (ki_keyName_ key) certificateName;
  _ ← change_key k (fun key => set_ki_certificates (map_erase (ki_certificateNames_ key) certificateName)
                                 (map_erase (ki_certificates_ key) certificateName) key);
  on_mem (mem_removeCertificate certificateName).

Definition certificates_get (k : PibKey) (certificateName : Name) : Op Pib Certificate :=
  key ← lock_key k;
  match map_find (ki_certificates_ key) certificateName with
  | Some certificate => returns (CertificateV2_copy certificate)
  | None =>
      _ ← check_certificate_name (ki_keyName_ key) certificateName;
      certificate ← read_mem (mem_getCertificate certificateName);
      _ ← change_key k (fun key => set_ki_certificates (ki_certificateNames_ key)
                                     (map_set (ki_certificates_ key) certificateName certificate) key);
      returns (CertificateV2_copy certificate)
  end.

Definition certificates_isConsistent (key : PibKeyImpl) (p : Pib) : result exn bool :=
  names ← getCertificatesOfKey (ki_keyName_ key) (pibImpl_ p); mret (same_names (ki_certificateNames_ key) names).

(** [PibKeyImpl]. *)
Definition key_addCertificate (k : PibKey) (certificate : Certificate) : Op Pib unit := certificates_add k certificate.

Definition key_removeCertificate (k : PibKey) (certificateName : Name) : Op Pib unit :=
  key ← lock_key k;
  _ ← match defaultCertificate_ key with
      | Some certificate =>
          if name_equals (cert_name certificate) certificateName then change_key k (set_defaultCertificate None)
          else mret tt
      | None => mret tt
      end;
  certificates_remove k certificateName.

Definition key_setDefaultCertificate (k : PibKey) (certificateName : Name) : Op Pib Certificate :=
  key ← lock_key k;
  certificate ← certificates_get k certificateName;
  _ ← change_key k (set_defaultCertificate (Some certificate));
  _ ← on_mem (setDefaultCertificateOfKey (ki_keyName_ key) certificateName);
  mret certificate.

Definition key_getDefaultCertificate (k : PibKey) : Op Pib Certificate :=
  key ← lock_key k;
  match defaultCertificate_ key with
  | Some certificate => mret certificate
  | None =>
      certificate ← read_mem (getDefaultCertificateOfKey (ki_keyName_ key));
      _ ← change_key k (set_defaultCertificate (Some certificate));
      mret certificate
  end.
End Keys.
