(* ===== verification/PibSpec.v ===== *)
(** * What the PIB promises

    In the memory, the references between identities, keys and certificates are never dangling. PibContainers.v has the
    containers over it. *)

From stdpp Require Import base sorting list numbers option strings.
From Stdlib Require Import ZArith Lia.
From S2P Require Import Prelude Order Actions Name Data TlvData Certificates NameMap Pib.
Open Scope Z_scope.

(** ** Names that [==] tells apart

    [==] compares the values of the components, the maps also their types: the names here are of generic components. *)

Definition plain (n : Name) : Prop := name_fits n /\ Forall (fun c => c = generic (value_ c) /\ bytes_ok (value_ c)) n.

Lemma plain_key_ok n : plain n -> key_ok n.
Proof.
  intros [Hf Hc]. split; [easy |]. eapply Forall_impl; [exact Hc |]. intros c [-> Hb]. now split.
Qed.

Lemma plain_equals a b : plain a -> plain b -> name_equals a b = true <-> a = b.
Proof.
  intros [_ Ha] [_ Hb]. rewrite name_equals_values. split; [| now intros ->].
  revert b Hb. induction Ha as [| c a [Hc _] _ IH]; intros [| d b] Hb; cbn; try easy.
  apply Forall_cons in Hb as [[Hd _] Hb]. intros [= Hv Ht]. rewrite Hc, Hd, Hv. f_equal. now apply IH.
Qed.

Lemma plain_take n i : plain n -> plain (take i n).
Proof.
  intros [Hf Hc]. split; [| now apply Forall_take]. unfold name_fits in *. rewrite length_take. lia.
Qed.

Lemma plain_prefix n i : plain n -> - zlen n <= i < 2 ^ 31 -> plain (getPrefix n i).
Proof. intros Hn Hi. rewrite getPrefix_spec by (easy || apply Hn). now apply plain_take. Qed.

Lemma extractIdentity_plain k i : plain k -> extractIdentityFromKeyName k = Ok i -> plain i.
Proof.
  unfold extractIdentityFromKeyName, isValidKeyName. intros Hk. destruct (Z.gtb_spec (zlen k) MIN_KEY_NAME_LENGTH); [| easy].
  cbn [andb]. destruct (negb _); [easy |]. intros [= <-]. apply plain_prefix; [easy |]. unfold MIN_KEY_NAME_LENGTH in *. lia.
Qed.

(** ** Maps and sets *)

Definition has {V} (m : NameMap V) (n : Name) : Prop := exists v, (n, v) ∈ m.

Lemma has_name_has {V} (m : NameMap V) n : map_ok m -> key_ok n -> has_name m n = true <-> has m n.
Proof.
  intros Hm Hn. unfold has_name, has. rewrite bool_decide_eq_true. split.
  - intros [v Hv]. exists v. now apply map_find_elem.
  - intros [v Hv]. exists v. now apply map_find_elem.
Qed.

Lemma has_set {V} (m : NameMap V) k v n : map_ok m -> key_ok k -> has (map_set m k v) n <-> n = k \/ has m n.
Proof.
  intros Hm Hk. unfold has. setoid_rewrite (map_set_elem m k v); [| easy | easy]. split.
  - intros [x [[= -> ->] | [Hx _]]]; [now left | right; eauto].
  - destruct (decide (n = k)) as [-> | Hne]; [eauto |]. intros [-> | [x Hx]]; [easy | eauto].
Qed.

Lemma has_erase {V} (m : NameMap V) k n : map_ok m -> key_ok k -> has (map_erase m k) n <-> n <> k /\ has m n.
Proof.
  intros Hm Hk. unfold has. setoid_rewrite (map_erase_elem m k); [| easy | easy]. naive_solver.
Qed.

Lemma map_find_none {V} (m : NameMap V) n : map_ok m -> key_ok n -> map_find m n = None <-> ~ has m n.
Proof.
  intros Hm Hn. split.
  - intros Hf [v Hv]. apply (map_find_elem m n v Hm Hn) in Hv. congruence.
  - intros Hh. destruct (map_find m n) as [v |] eqn:E; [| easy]. apply (map_find_elem m n v Hm Hn) in E. destruct Hh. now exists v.
Qed.

(** Maps with the same entries are the same; and sets with the same names. *)
Lemma map_ext {V} (a b : NameMap V) : map_ok a -> map_ok b -> (forall e, e ∈ a <-> e ∈ b) -> a = b.
Proof.
  intros Ha Hb Hx.
  assert (Hnd : forall s : NameMap V, map_ok s -> NoDup s).
  { intros s. induction s as [| e s IH]; intros Hs; [constructor |]. apply map_ok_cons in Hs as (_ & Hlt & Hs).
    constructor; [| now apply IH]. intros He. rewrite Forall_forall in Hlt. specialize (Hlt e He).
    pose proof (tc_refl (cmp := name_lex) e.1). lia. }
  apply (StronglySorted_unique_strong (fun e e' : Name * V => name_lex e.1 e'.1 < 0)); [| apply Ha | apply Hb |].
  - intros x y _ _ H1 H2. pose proof (cmp_lt_trans (cmp := name_lex) _ _ _ H1 H2). pose proof (tc_refl (cmp := name_lex) x.1). lia.
  - apply NoDup_Permutation; [now apply Hnd | now apply Hnd | easy].
Qed.

Lemma nameset_ext (a b : NameSet) : map_ok a -> map_ok b -> (forall n, has a n <-> has b n) -> a = b.
Proof.
  intros Ha Hb Hx. apply map_ext; [easy | easy |].
  assert (Hin : forall (s : NameSet) e, e ∈ s <-> has s e.1).
  { intros s [n []]. unfold has. cbn. split; [eauto | intros [[] He]; exact He]. }
  intros e. now rewrite !Hin.
Qed.

Lemma map_set_twice {V} (m : NameMap V) k v v' : map_ok m -> key_ok k -> map_set (map_set m k v) k v' = map_set m k v'.
Proof.
  intros Hm Hk. pose proof (map_set_ok m k v Hm Hk). apply map_ext; [now apply map_set_ok | now apply map_set_ok |].
  intros e. rewrite !map_set_elem by easy. naive_solver.
Qed.

(** ** What is stored *)

Definition key_of (k i : Name) : Prop := extractIdentityFromKeyName k = Ok i.
Definition certificate_of (c k : Name) : Prop := extractKeyNameFromCertName c = Ok k.

Lemma key_of_plain k i : plain k -> key_of k i -> plain i.
Proof. apply extractIdentity_plain. Qed.

(** A certificate with a name of the naming convention and a key name that has an identity, in the format, and without
    an X.509 certificate in it. *)
Record good_certificate (c : Certificate) (k : Name) : Prop := {
  gc_plain : plain (cert_name c);
  gc_key : getKeyName c = Ok k;
  gc_valid : exists i, key_of k i;
  gc_format : checkFormat (packet_value (cert_data c)) = Ok tt;
  gc_x509 : x509Info_ c = None
}.

Lemma good_certificate_long c k : good_certificate c k -> 4 <= zlen (cert_name c).
Proof.
  intros H. pose proof (gc_key c k H) as Hk. unfold getKeyName, check_cert_name, MIN_CERT_NAME_LENGTH in Hk.
  destruct (Z.ltb_spec (zlen (cert_name c)) 4); [easy | lia].
Qed.

Lemma good_certificate_name c k : good_certificate c k -> k = getPrefix (cert_name c) (-2) /\ plain k.
Proof.
  intros H. pose proof (good_certificate_long c k H) as Hl. pose proof (gc_key c k H) as Hk. unfold getKeyName, check_cert_name, MIN_CERT_NAME_LENGTH in Hk.
  destruct (Z.ltb_spec (zlen (cert_name c)) 4); [easy |]. injection Hk as <-. split; [easy |].
  apply plain_prefix; [apply H | unfold KEY_ID_OFFSET; lia].
Qed.

Lemma good_certificate_of c k : good_certificate c k -> isValidName (cert_name c) = true /\ certificate_of (cert_name c) k.
Proof.
  intros H. pose proof (good_certificate_name c k H) as [-> _]. pose proof (gc_format _ _ H) as Hf. unfold checkFormat in Hf.
  fold (packet_name (cert_data c)) in Hf. fold (cert_name c) in Hf.
  unfold certificate_of, extractKeyNameFromCertName. destruct (isValidName (cert_name c)); [easy |]. discriminate Hf.
Qed.

Lemma good_certificate_copy c k : good_certificate c k -> CertificateV2_copy c = Ok c.
Proof. intros H. unfold CertificateV2_copy. now rewrite (gc_format _ _ H). Qed.

Lemma good_certificate_identity c k : good_certificate c k -> exists i, getIdentity c = Ok i /\ key_of k i.
Proof.
  intros H. pose proof (good_certificate_long c k H) as Hl. pose proof (good_certificate_name c k H) as [Hk Hp]. destruct (gc_valid _ _ H) as [i Hi].
  exists i. split; [| easy]. unfold getIdentity, check_cert_name, MIN_CERT_NAME_LENGTH.
  destruct (Z.ltb_spec (zlen (cert_name c)) 4); [lia |]. f_equal. unfold key_of, extractIdentityFromKeyName in Hi.
  destruct (negb _); [easy |]. injection Hi as <-. pose proof (gc_plain _ _ H) as [Hf Hc]. rewrite Hk.
  unfold KEY_COMPONENT_OFFSET, MIN_KEY_NAME_LENGTH. rewrite (getPrefix_spec (cert_name c) (-2)), (getPrefix_spec (cert_name c) (-4)) by (easy || lia).
  cbn [Z.ltb Z.compare]. rewrite getPrefix_spec.
  - rewrite length_take. destruct (Z.ltb_spec (- (2)) 0); [| lia]. rewrite take_take. f_equal. lia.
  - unfold name_fits in *. rewrite length_take. lia.
  - rewrite length_take. lia.
Qed.

Lemma good_certificate_bits c k : good_certificate c k ->
  exists bits, getPublicKey c = Ok bits /\ key_bits_of c = Ok bits.
Proof.
  intros H. pose proof (gc_format _ _ H) as Hf. unfold key_bits_of, getPublicKey. rewrite (gc_x509 _ _ H).
  unfold checkFormat in Hf. set (content := blob_bytes _) in *.
  destruct (zlen content =? 0); [repeat (destruct (negb _) in Hf; try discriminate Hf); destruct (_ <? 0) in Hf; discriminate Hf |].
  exists content. split; [easy |]. cbn [mbind result_bind]. rewrite Nat.ltb_irrefl. now rewrite firstn_all.
Qed.

(** Every key has its identity, every certificate its key; the defaults are there and belong to what they are the
    default of. While identities [I] and keys [K] are being removed, what belongs to them may still be there. *)
Record mem_ok_but (I K : Name -> Prop) (m : PibMemory) : Prop := {
  mo_ids : map_ok (mem_identityNames_ m);
  mo_defaultKeys : map_ok (defaultKeyNames_ m);
  mo_keys : map_ok (mem_keys_ m);
  mo_defaultCertificates : map_ok (defaultCertificateNames_ m);
  mo_certificates : map_ok (mem_certificates_ m);
  mo_id : forall i, has (mem_identityNames_ m) i -> plain i;
  mo_default : hasDefaultIdentity_ m = true -> has (mem_identityNames_ m) (defaultIdentityName_ m);
  mo_key : forall k, has (mem_keys_ m) k -> plain k /\ exists i, key_of k i /\ (has (mem_identityNames_ m) i \/ I i);
  mo_defaultKey : forall i k, (i, k) ∈ defaultKeyNames_ m -> key_of k i /\ has (mem_keys_ m) k;
  mo_certificate : forall c cert, (c, cert) ∈ mem_certificates_ m ->
    c = cert_name cert /\ exists k, good_certificate cert k /\ (has (mem_keys_ m) k \/ K k);
  mo_defaultCertificate : forall k c, (k, c) ∈ defaultCertificateNames_ m ->
    plain k /\ certificate_of c k /\ has (mem_certificates_ m) c
}.
Definition none : Name -> Prop := fun _ => False.
Abbreviation mem_ok := (mem_ok_but none none).

Lemma mem_ok_new : mem_ok PibMemory_new.
Proof.
  assert (He : forall V (n : Name) (v : V), (n, v) ∈ ([] : NameMap V) -> False) by (intros V n v Hx; now apply elem_of_nil in Hx).
  split; try apply map_ok_nil; unfold has; cbn; naive_solver.
Qed.

Section Mem.
Context {I K : Name -> Prop}.
Implicit Types m : PibMemory.

Lemma stored_plain m c cert : mem_ok_but I K m -> (c, cert) ∈ mem_certificates_ m -> plain c.
Proof. intros Hm Hc. destruct (mo_certificate _ _ _ Hm _ _ Hc) as (-> & k & Hg & _). apply Hg. Qed.

Lemma mem_addIdentity_ids i m n : mem_ok_but I K m -> plain i ->
  has (mem_identityNames_ (mem_addIdentity i m)) n <-> n = i \/ has (mem_identityNames_ m) n.
Proof.
  intros Hm Hi. rewrite <- (has_set (mem_identityNames_ m) i tt) by (apply Hm || now apply plain_key_ok).
  unfold mem_addIdentity. now destruct (negb _).
Qed.

Lemma mem_addIdentity_rest i m :
  defaultKeyNames_ (mem_addIdentity i m) = defaultKeyNames_ m /\ mem_keys_ (mem_addIdentity i m) = mem_keys_ m /\
  defaultCertificateNames_ (mem_addIdentity i m) = defaultCertificateNames_ m /\
  mem_certificates_ (mem_addIdentity i m) = mem_certificates_ m /\
  mem_identityNames_ (mem_addIdentity i m) = set_insert (mem_identityNames_ m) i /\
  tpmLocator_ (mem_addIdentity i m) = tpmLocator_ m.
Proof. unfold mem_addIdentity. now destruct (negb _). Qed.

Lemma mem_addIdentity_ok i m : mem_ok_but I K m -> plain i -> mem_ok_but I K (mem_addIdentity i m).
Proof.
  intros Hm Hi. pose proof (fun n => mem_addIdentity_ids i m n Hm Hi) as Hids. pose proof Hm as [].
  destruct (mem_addIdentity_rest i m) as (E1 & E2 & E3 & E4 & E5 & _). split; rewrite ?E1, ?E2, ?E3, ?E4; try easy.
  - rewrite E5. apply map_set_ok; [easy | now apply plain_key_ok].
  - intros n [-> | Hn]%Hids; auto.
  - intros _. apply Hids. unfold mem_addIdentity. destruct (hasDefaultIdentity_ m) eqn:E; cbn; auto.
  - intros k Hk. destruct (mo_key0 k Hk) as (Hp & j & Hj & Hx). split; [easy |]. exists j. split; [easy |]. rewrite Hids. tauto.
Qed.

Lemma mem_setDefaultIdentity_ok i m : mem_ok_but I K m -> plain i -> mem_ok_but I K (mem_setDefaultIdentity i m).
Proof.
  intros Hm Hi. pose proof (mem_addIdentity_ids i m i Hm Hi) as Hids. destruct (mem_addIdentity_ok i m Hm Hi). split; try easy.
  intros _. cbn. apply Hids. now left.
Qed.

Lemma mem_addKey_ok k i bits m :
  mem_ok_but I K m -> plain k -> key_of k i -> mem_ok_but I K (mem_addKey i k bits m).
Proof.
  intros Hm Hk Hi. pose proof (key_of_plain k i Hk Hi) as Hpi. pose proof (plain_key_ok k Hk) as Hkk. pose proof (plain_key_ok i Hpi) as Hii.
  pose proof (mem_addIdentity_ids i m i Hm Hpi) as Hids. destruct (mem_addIdentity_ok i m Hm Hpi). unfold mem_addKey.
  set (m1 := mem_addIdentity i m) in *. split; cbn; try easy.
  - destruct (negb _); [now apply map_set_ok | easy].
  - now apply map_set_ok.
  - intros k' [-> | Hk']%has_set; [| auto | easy | easy]. split; [easy |]. exists i. split; [easy |]. left. apply Hids. now left.
  - intros j k' Hj. rewrite has_set by easy. destruct (negb _).
    + apply map_set_elem in Hj as [[= -> ->] | [Hj _]]; [tauto | | easy | easy]. destruct (mo_defaultKey0 j k' Hj). tauto.
    + destruct (mo_defaultKey0 j k' Hj). tauto.
  - intros c cert Hc. destruct (mo_certificate0 c cert Hc) as (-> & k' & Hg & Hx). split; [easy |]. exists k'. split; [easy |].
    rewrite has_set by easy. tauto.
Qed.

Lemma setDefaultKeyOfIdentity_ok i k m :
  mem_ok_but I K m -> plain k -> key_of k i -> mem_ok_but I K (state_of (setDefaultKeyOfIdentity i k m)).
Proof.
  intros Hm Hk Hi. pose proof (key_of_plain k i Hk Hi) as Hpi. unfold setDefaultKeyOfIdentity. rewrite act_get_bind. destruct (hasKey k m) eqn:E; [| easy].
  apply has_name_has in E; [| apply Hm | now apply plain_key_ok]. destruct Hm. split; cbn; try easy.
  - apply map_set_ok; [easy | now apply plain_key_ok].
  - intros j k' [[= -> ->] | [Hj _]]%map_set_elem; [easy | auto | easy | now apply plain_key_ok].
Qed.

Lemma mem_addCertificate_run cert k bits m :
  good_certificate cert k -> key_bits_of cert = Ok bits -> exists i, key_of k i /\ mem_addCertificate cert m =
    (with_mem_certificates
       (if negb (has_name (defaultCertificateNames_ m) k) then map_set (defaultCertificateNames_ m) k (cert_name cert)
        else defaultCertificateNames_ m)
       (map_set (mem_certificates_ m) (cert_name cert) cert) (mem_addKey i k bits m), [], Ok tt).
Proof.
  intros Hg Hb. destruct (good_certificate_identity cert k Hg) as (i & Hi & Hki). exists i. split; [easy |].
  unfold mem_addCertificate. rewrite (gc_key _ _ Hg), act_returns_bind, Hi, act_returns_bind, Hb, act_returns_bind, act_modify_bind.
  rewrite (good_certificate_copy _ _ Hg), act_returns_bind. unfold self_modify.
  destruct (mem_addIdentity_rest i m) as (_ & _ & E3 & E4 & _). unfold mem_addKey. cbn. now rewrite E3, E4.
Qed.

Lemma mem_addCertificate_ok cert k m :
  mem_ok_but I K m -> good_certificate cert k -> mem_ok_but I K (state_of (mem_addCertificate cert m)).
Proof.
  intros Hm Hg. destruct (good_certificate_bits cert k Hg) as (bits & _ & Hb).
  destruct (mem_addCertificate_run cert k bits m Hg Hb) as (i & Hki & ->).
  pose proof (good_certificate_name cert k Hg) as [_ Hk]. pose proof (plain_key_ok _ Hk) as Hkk.
  pose proof (plain_key_ok _ (gc_plain _ _ Hg)) as Hcc.
  assert (Hkey : has (mem_keys_ (mem_addKey i k bits m)) k).
  { unfold mem_addKey. cbn. rewrite (proj1 (proj2 (mem_addIdentity_rest i m))). rewrite has_set by (apply Hm || easy). now left. }
  assert (Hc : mem_certificates_ (mem_addKey i k bits m) = mem_certificates_ m /\
    defaultCertificateNames_ (mem_addKey i k bits m) = defaultCertificateNames_ m).
  { unfold mem_addKey. cbn. split; apply mem_addIdentity_rest. }
  destruct Hc as [Ec Ed]. destruct (mem_addKey_ok k i bits m Hm Hk Hki). rewrite Ec in *. rewrite Ed in *.
  unfold state_of. cbn [fst snd]. split; cbn; try easy.
  - destruct (negb _); [now apply map_set_ok | easy].
  - now apply map_set_ok.
  - intros c cert' [[= -> ->] | [Hx _]]%map_set_elem; [| auto | easy | easy]. split; [easy |]. exists k. auto.
  - intros k' c Hx. rewrite has_set by easy. destruct (negb _).
    + apply map_set_elem in Hx as [[= -> ->] | [Hx _]]; [| destruct (mo_defaultCertificate0 k' c Hx); tauto | easy | easy].
      split; [easy |]. split; [now apply good_certificate_of | now left].
    + destruct (mo_defaultCertificate0 k' c Hx). tauto.
Qed.

Lemma setDefaultCertificateOfKey_ok k c m :
  mem_ok_but I K m -> plain k -> plain c -> certificate_of c k -> mem_ok_but I K (state_of (setDefaultCertificateOfKey k c m)).
Proof.
  intros Hm Hk Hc Hck. unfold setDefaultCertificateOfKey. rewrite act_get_bind.
  destruct (has_name (mem_certificates_ m) c) eqn:E; [| easy].
  apply has_name_has in E; [| apply Hm | now apply plain_key_ok]. destruct Hm. split; cbn; try easy.
  - apply map_set_ok; [easy | now apply plain_key_ok].
  - intros k' c' [[= -> ->] | [Hx _]]%map_set_elem; [easy | auto | easy | now apply plain_key_ok].
Qed.
End Mem.

(** *** Removing *)

(** What only concerns certificates changes nothing else. *)
Definition same_keys (m m' : PibMemory) : Prop :=
  tpmLocator_ m' = tpmLocator_ m /\ hasDefaultIdentity_ m' = hasDefaultIdentity_ m /\
  defaultIdentityName_ m' = defaultIdentityName_ m /\ mem_identityNames_ m' = mem_identityNames_ m /\
  defaultKeyNames_ m' = defaultKeyNames_ m /\ mem_keys_ m' = mem_keys_ m.

Lemma same_keys_refl m : same_keys m m.
Proof. easy. Qed.

Lemma same_keys_trans m1 m2 m3 : same_keys m1 m2 -> same_keys m2 m3 -> same_keys m1 m3.
Proof. unfold same_keys. intuition congruence. Qed.

(** An operation that removes certificates of which the names are in [l]. *)
Definition removes_certificates (I K : Name -> Prop) (l : list Name) (m : PibMemory) (x : PibMemory * list Empty_set * result exn unit) : Prop :=
  exists m', x = (m', [], Ok tt) /\ mem_ok_but I K m' /\ same_keys m m' /\
    forall c cert, (c, cert) ∈ mem_certificates_ m' <-> (c, cert) ∈ mem_certificates_ m /\ c ∉ l.

Section Remove.
Context {I K : Name -> Prop}.
Implicit Types m : PibMemory.

Lemma mem_removeCertificate_run c k m :
  mem_ok_but I K m -> plain c -> certificate_of c k -> plain k -> removes_certificates I K [c] m (mem_removeCertificate c m).
Proof.
  intros Hm Hc Hck Hk. pose proof (plain_key_ok c Hc) as Hcc. pose proof (plain_key_ok k Hk) as Hkk.
  unfold removes_certificates, mem_removeCertificate. rewrite act_modify_bind, Hck, act_returns_bind. unfold self_modify. cbn [defaultCertificateNames_ with_mem_certificates].
  set (dc := match map_find (defaultCertificateNames_ m) k with
             | Some d => if name_equals d c then map_erase (defaultCertificateNames_ m) k else defaultCertificateNames_ m
             | None => defaultCertificateNames_ m end).
  exists (with_mem_certificates dc (map_erase (mem_certificates_ m) c) m). pose proof Hm as [].
  assert (Hdc : forall k' c', (k', c') ∈ dc -> (k', c') ∈ defaultCertificateNames_ m /\ c' <> c).
  { intros k' c' Hx. assert (Hin : (k', c') ∈ defaultCertificateNames_ m).
    { subst dc. destruct (map_find _ _); [destruct (name_equals _ _) |]; try easy. now apply map_erase_in in Hx. }
    split; [easy |]. intros ->. destruct (mo_defaultCertificate0 _ _ Hin) as (_ & Hc' & _).
    assert (k' = k) as -> by (unfold certificate_of in *; congruence).
    apply (map_find_elem _ k c) in Hin; [| easy | easy]. subst dc. rewrite Hin in Hx. rewrite (proj2 (plain_equals c c Hc Hc) eq_refl) in Hx.
    apply map_erase_elem in Hx; [| easy | easy]. now destruct Hx. }
  split_and!.
  - subst dc. destruct (map_find _ _) as [d |]; [now destruct (name_equals d c) | easy].
  - split; cbn; try easy.
    + subst dc. destruct (map_find _ _); [destruct (name_equals _ _) |]; try easy. now apply map_erase_ok.
    + now apply map_erase_ok.
    + intros c' cert Hx%map_erase_in. auto.
    + intros k' c' [Hx Hne]%Hdc. destruct (mo_defaultCertificate0 _ _ Hx) as (? & ? & ?). split_and!; [easy | easy |]. now apply has_erase.
  - easy.
  - intros c' cert. cbn. rewrite map_erase_elem, list_elem_of_singleton by easy. easy.
Qed.

Lemma remove_certificates_run (l : NameSet) k m :
  mem_ok_but I K m -> plain k -> Forall (fun e => plain e.1 /\ certificate_of e.1 k) l ->
  removes_certificates I K (map fst l) m (for_each (fun e => mem_removeCertificate e.1) l m).
Proof.
  intros Hm Hk Hl. revert m Hm. induction Hl as [| [c u] l [Hc Hck] _ IH]; intros m Hm; cbn [for_each map fst] in *.
  - exists m. split; [easy |]. split; [easy |]. split; [apply same_keys_refl |]. intros c cert. split; [| easy]. intros Hx. split; [easy |].
    now apply not_elem_of_nil.
  - destruct (mem_removeCertificate_run c k m Hm Hc Hck Hk) as (m1 & E1 & Hm1 & Hs1 & H1).
    destruct (IH m1 Hm1) as (m2 & E2 & Hm2 & Hs2 & H2). exists m2. rewrite (act_bind_silent _ _ _ _ _ E1).
    split; [easy |]. split; [easy |]. split; [now apply (same_keys_trans m m1) |]. intros c' cert.
    rewrite H2, H1, list_elem_of_singleton, not_elem_of_cons. tauto.
Qed.

(** The certificates of a key are found. *)
Lemma certificates_of_key_spec k (certs : NameMap Certificate) (names : NameSet) :
  plain k -> map_ok names ->
  Forall (fun e : Name * Certificate => e.1 = cert_name e.2 /\ plain e.1 /\ exists k', plain k' /\ certificate_of e.1 k') certs ->
  exists names', certificates_of_key k certs names = Ok names' /\ map_ok names' /\
    forall c, has names' c <-> has names c \/ (has certs c /\ certificate_of c k).
Proof.
  intros Hk Hn Hc. revert names Hn. induction Hc as [| [c cert] certs (Hx & Hp & k' & Hk' & Hck) Hcs IH]; intros names Hn; cbn [certificates_of_key].
  - exists names. split; [easy |]. split; [easy |]. intros c. unfold has. split; [tauto |]. intros [? | [[v Hv] _]]; [easy | now apply elem_of_nil in Hv].
  - cbn [fst snd] in *. subst c. rewrite Hck. cbn [mbind result_bind].
    set (names1 := if name_equals k' k then _ else _).
    assert (Hn1 : map_ok names1) by (subst names1; destruct (name_equals k' k); [apply map_set_ok; [easy | now apply plain_key_ok] | easy]).
    destruct (IH names1 Hn1) as (names' & E & Hok & Hh). exists names'. split; [easy |]. split; [easy |]. intros c. rewrite Hh.
    assert (Hhas : has ((cert_name cert, cert) :: certs) c <-> c = cert_name cert \/ has certs c).
    { unfold has. setoid_rewrite elem_of_cons. split; [intros [v [[= -> ->] | Hv]]; eauto | intros [-> | [v Hv]]; eauto]. }
    rewrite Hhas. subst names1. destruct (name_equals k' k) eqn:Ek.
    + apply plain_equals in Ek as ->; [| easy | easy]. unfold set_insert. rewrite has_set by (easy || now apply plain_key_ok). naive_solver.
    + split; [naive_solver |]. intros [? | [[-> | ?] Hc]]; [tauto | | tauto]. unfold certificate_of in *. rewrite Hck in Hc. injection Hc as ->.
      rewrite (proj2 (plain_equals k k Hk Hk) eq_refl) in Ek. discriminate Ek.
Qed.

Lemma certificates_elements m : mem_ok_but I K m ->
  Forall (fun e : Name * Certificate => e.1 = cert_name e.2 /\ plain e.1 /\ exists k', plain k' /\ certificate_of e.1 k') (mem_certificates_ m).
Proof.
  intros Hm. apply Forall_forall. intros [c cert] Hx. destruct (mo_certificate _ _ _ Hm _ _ Hx) as (-> & k' & Hg & _). cbn.
  split; [easy |]. split; [apply Hg |]. exists k'. split; [now apply (good_certificate_name cert) | now apply good_certificate_of].
Qed.

Lemma getCertificatesOfKey_spec k m : mem_ok_but I K m -> plain k ->
  exists names, getCertificatesOfKey k m = Ok names /\ map_ok names /\
    forall c, has names c <-> has (mem_certificates_ m) c /\ certificate_of c k.
Proof.
  intros Hm Hk. destruct (certificates_of_key_spec k (mem_certificates_ m) [] Hk map_ok_nil (certificates_elements m Hm)) as (names & E & Hok & Hh).
  exists names. split; [easy |]. split; [easy |]. intros c. rewrite Hh. split; [intros [[v Hv] | ?]; [now apply elem_of_nil in Hv | easy] | tauto].
Qed.
End Remove.

(** The keys of an identity are found. *)
Lemma keys_of_identity_spec i (keys : NameMap (list Z)) (ids : NameSet) :
  plain i -> map_ok ids -> Forall (fun e => plain e.1 /\ exists j, plain j /\ key_of e.1 j) keys ->
  exists ids', keys_of_identity i keys ids = Ok ids' /\ map_ok ids' /\
    forall k, has ids' k <-> has ids k \/ (has keys k /\ key_of k i).
Proof.
  intros Hi Hids Hk. revert ids Hids. induction Hk as [| [k bits] keys (Hp & j & Hj & Hkj) Hks IH]; intros ids Hids; cbn [keys_of_identity].
  - exists ids. split; [easy |]. split; [easy |]. intros k. unfold has. split; [tauto |]. intros [? | [[v Hv] _]]; [easy | now apply elem_of_nil in Hv].
  - cbn [fst] in *. rewrite Hkj. cbn [mbind result_bind]. set (ids1 := if name_equals i j then _ else _).
    assert (Hids1 : map_ok ids1) by (subst ids1; destruct (name_equals i j); [apply map_set_ok; [easy | now apply plain_key_ok] | easy]).
    destruct (IH ids1 Hids1) as (ids' & E & Hok & Hh). exists ids'. split; [easy |]. split; [easy |]. intros k'. rewrite Hh.
    assert (Hhas : has ((k, bits) :: keys) k' <-> k' = k \/ has keys k').
    { unfold has. setoid_rewrite elem_of_cons. split; [intros [v [[= -> ->] | Hv]]; eauto | intros [-> | [v Hv]]; eauto]. }
    rewrite Hhas. subst ids1. destruct (name_equals i j) eqn:Ej.
    + apply plain_equals in Ej as <-; [| easy | easy]. unfold set_insert. rewrite has_set by (easy || now apply plain_key_ok). naive_solver.
    + split; [naive_solver |]. intros [? | [[-> | ?] Hc]]; [tauto | | tauto]. unfold key_of in *. rewrite Hkj in Hc. injection Hc as ->.
      rewrite (proj2 (plain_equals i i Hi Hi) eq_refl) in Ej. discriminate Ej.
Qed.

Lemma getKeysOfIdentity_spec {I K} i m : mem_ok_but I K m -> plain i ->
  exists names, getKeysOfIdentity i m = Ok names /\ map_ok names /\ forall k, has names k <-> has (mem_keys_ m) k /\ key_of k i.
Proof.
  intros Hm Hi. destruct (keys_of_identity_spec i (mem_keys_ m) [] Hi map_ok_nil) as (names & E & Hok & Hh).
  - apply Forall_forall. intros [k bits] Hx. destruct (mo_key _ _ _ Hm k) as (Hp & j & Hj & _); [now exists bits |].
    split; [easy |]. exists j. split; [now apply (key_of_plain k) | easy].
  - exists names. split; [easy |]. split; [easy |]. intros k. rewrite Hh. split; [intros [[v Hv] | ?]; [now apply elem_of_nil in Hv | easy] | tauto].
Qed.

(** What is left after keys are removed. *)
Definition removes_keys (I K : Name -> Prop) (R : Name -> Prop) (m : PibMemory) (x : PibMemory * list Empty_set * result exn unit) : Prop :=
  exists m', x = (m', [], Ok tt) /\ mem_ok_but I K m' /\
    tpmLocator_ m' = tpmLocator_ m /\ hasDefaultIdentity_ m' = hasDefaultIdentity_ m /\
    defaultIdentityName_ m' = defaultIdentityName_ m /\ mem_identityNames_ m' = mem_identityNames_ m /\
    (forall k bits, (k, bits) ∈ mem_keys_ m' <-> (k, bits) ∈ mem_keys_ m /\ ~ R k) /\
    (forall c cert, (c, cert) ∈ mem_certificates_ m' <-> (c, cert) ∈ mem_certificates_ m /\ ~ exists k, R k /\ certificate_of c k).

Lemma mem_removeKey_run {I K} k i m :
  mem_ok_but I K m -> plain k -> key_of k i -> removes_keys I K (eq k) m (mem_removeKey k m).
Proof.
  intros Hm Hk Hki. pose proof (key_of_plain k i Hk Hki) as Hi. pose proof (plain_key_ok k Hk) as Hkk. pose proof (plain_key_ok i Hi) as Hii.
  unfold removes_keys, mem_removeKey. rewrite Hki, act_returns_bind, act_modify_bind, act_get_bind.
  set (m1 := with_keys _ _ m).
  assert (Hm1 : mem_ok_but I (fun k' => k' = k \/ K k') m1).
  { destruct Hm. split; cbn; try easy.
    - now apply map_erase_ok.
    - now apply map_erase_ok.
    - intros k' [_ Hk']%has_erase; auto.
    - intros j k' [Hx Hne]%map_erase_elem; [| easy | easy]. cbn in Hne. destruct (mo_defaultKey0 j k' Hx) as [Hkj Hh]. split; [easy |].
      apply has_erase; [easy | easy |]. split; [| easy]. intros ->. apply Hne. unfold key_of in *. congruence.
    - intros c cert Hx. destruct (mo_certificate0 c cert Hx) as (-> & k' & Hg & Hh). split; [easy |]. exists k'. split; [easy |].
      rewrite has_erase by easy. destruct (decide (k' = k)); tauto. }
  destruct (getCertificatesOfKey_spec k m1 Hm1 Hk) as (names & E & Hok & Hn). rewrite E, act_returns_bind.
  assert (Hl : Forall (fun e : Name * () => plain e.1 /\ certificate_of e.1 k) names).
  { apply Forall_forall. intros [c u] Hc. assert (Hh : has names c) by now exists u. apply Hn in Hh as [[cert Hx] Hck].
    split; [now apply (stored_plain _ _ cert Hm1) | easy]. }
  destruct (remove_certificates_run names k m1 Hm1 Hk Hl) as (m' & E' & Hm' & (S1 & S2 & S3 & S4 & S5 & S6) & Hc).
  assert (Hin : forall c, c ∈ map fst names <-> has (mem_certificates_ m) c /\ certificate_of c k).
  { intros c. change (mem_certificates_ m) with (mem_certificates_ m1). rewrite <- Hn. unfold has. rewrite list_elem_of_fmap. split.
    - intros [[c' u] [-> Hx]]. eauto.
    - intros [u Hx]. now exists (c, u). }
  exists m'. assert (Hcerts : forall c cert, (c, cert) ∈ mem_certificates_ m' <-> (c, cert) ∈ mem_certificates_ m /\ ~ exists k', k = k' /\ certificate_of c k').
  { intros c cert. rewrite Hc, Hin. change (mem_certificates_ m1) with (mem_certificates_ m). unfold has. naive_solver. }
  split_and!; try easy.
  - destruct Hm'. split; try easy. intros c cert Hx. destruct (mo_certificate0 c cert Hx) as (-> & k' & Hg & [? | [-> | ?]]); eauto.
    apply Hcerts in Hx as [_ []]. exists k. split; [easy | now apply good_certificate_of].
  - intros k' bits. rewrite S6. cbn. rewrite map_erase_elem by (exact (mo_keys _ _ _ Hm) || easy). cbn. naive_solver.
Qed.

Lemma remove_keys_run {I K} (l : NameSet) i m :
  mem_ok_but I K m -> Forall (fun e => plain e.1 /\ key_of e.1 i) l ->
  removes_keys I K (fun k => k ∈ map fst l) m (for_each (fun e => mem_removeKey e.1) l m).
Proof.
  intros Hm Hl. revert m Hm. induction Hl as [| [k u] l [Hk Hki] _ IH]; intros m Hm; cbn [for_each map fst] in *.
  - exists m. split_and!; try easy; (intros; split; [intros; split; [easy |] | easy]).
    intros (k & Hk & _). now apply not_elem_of_nil in Hk.
  - destruct (mem_removeKey_run k i m Hm Hk Hki) as (m1 & E1 & Hm1 & A1 & A2 & A3 & A4 & H1 & C1).
    destruct (IH m1 Hm1) as (m2 & E2 & Hm2 & B1 & B2 & B3 & B4 & H2 & C2). exists m2. rewrite (act_bind_silent _ _ _ _ _ E1).
    split_and!; try (easy || congruence).
    + intros k' bits. rewrite H2, H1, elem_of_cons. naive_solver.
    + intros c cert. rewrite C2, C1. setoid_rewrite elem_of_cons. naive_solver.
Qed.

Lemma mem_removeIdentity_run i m : mem_ok m -> plain i ->
  exists m', mem_removeIdentity i m = (m', [], Ok tt) /\ mem_ok m' /\ tpmLocator_ m' = tpmLocator_ m /\
    (forall n, has (mem_identityNames_ m') n <-> n <> i /\ has (mem_identityNames_ m) n) /\
    (forall k bits, (k, bits) ∈ mem_keys_ m' <-> (k, bits) ∈ mem_keys_ m /\ ~ key_of k i) /\
    (forall c cert, (c, cert) ∈ mem_certificates_ m' <->
       (c, cert) ∈ mem_certificates_ m /\ ~ exists k, key_of k i /\ certificate_of c k).
Proof.
  intros Hm Hi. pose proof (plain_key_ok i Hi) as Hii. unfold mem_removeIdentity. rewrite act_modify_bind, act_get_bind. cbv zeta.
  set (m1 := if name_equals i _ then _ else _).
  assert (Hf : mem_identityNames_ m1 = map_erase (mem_identityNames_ m) i /\ defaultKeyNames_ m1 = defaultKeyNames_ m /\
    mem_keys_ m1 = mem_keys_ m /\ defaultCertificateNames_ m1 = defaultCertificateNames_ m /\
    mem_certificates_ m1 = mem_certificates_ m /\ tpmLocator_ m1 = tpmLocator_ m) by (subst m1; now destruct (name_equals i _)).
  destruct Hf as (F1 & F2 & F3 & F4 & F5 & F6).
  assert (Hm1 : mem_ok_but (eq i) none m1).
  { pose proof Hm as []. split; rewrite ?F1, ?F2, ?F3, ?F4, ?F5; try easy.
    - now apply map_erase_ok.
    - intros n [_ Hn]%has_erase; auto.
    - subst m1. destruct (name_equals i (defaultIdentityName_ m)) eqn:E; [discriminate |]. cbn. intros Hd. apply has_erase; [easy | easy |].
      split; [| auto]. intros Hx. rewrite Hx in E. rewrite (proj2 (plain_equals i i Hi Hi) eq_refl) in E. discriminate E.
    - intros k Hk. destruct (mo_key0 k Hk) as (Hp & j & Hj & [Hx | []]). split; [easy |]. exists j. split; [easy |].
      rewrite has_erase by easy. destruct (decide (i = j)); naive_solver. }
  destruct (getKeysOfIdentity_spec i m1 Hm1 Hi) as (names & E & Hok & Hn). rewrite E, act_returns_bind.
  assert (Hl : Forall (fun e : Name * () => plain e.1 /\ key_of e.1 i) names).
  { apply Forall_forall. intros [k u] Hk. assert (Hh : has names k) by now exists u. apply Hn in Hh as [Hh Hki].
    split; [now apply (mo_key _ _ _ Hm1) | easy]. }
  destruct (remove_keys_run names i m1 Hm1 Hl) as (m' & E' & Hm' & A1 & A2 & A3 & A4 & H1 & C1). rewrite E'.
  assert (Hin : forall k, k ∈ map fst names <-> has (mem_keys_ m) k /\ key_of k i).
  { intros k. rewrite <- F3, <- Hn. unfold has. rewrite list_elem_of_fmap. split; [intros [[? u] [-> ?]]; eauto | intros [u ?]; now exists (k, u)]. }
  assert (Hkeys : forall k bits, (k, bits) ∈ mem_keys_ m' <-> (k, bits) ∈ mem_keys_ m /\ ~ key_of k i).
  { intros k bits. rewrite H1, Hin, F3. unfold has. naive_solver. }
  exists m'. split_and!; try (easy || congruence).
  - destruct Hm'. split; try easy. intros k Hk. destruct (mo_key0 k Hk) as (Hp & j & Hj & Hx). split; [easy |]. exists j. split; [easy |].
    left. destruct Hx as [? | <-]; [easy |]. destruct Hk as [bits Hk]. now apply Hkeys in Hk as [_ []].
  - intros n. rewrite A4, F1, has_erase; [easy | apply Hm | easy].
  - intros c cert. rewrite C1, F5. setoid_rewrite Hin. split; [| naive_solver]. intros [Hx Hno]. split; [easy |]. intros (k & Hki & Hck).
    destruct (mo_certificate _ _ _ Hm c cert Hx) as (-> & k' & Hg & [Hh | []]). apply Hno. exists k'.
    pose proof (proj2 (good_certificate_of _ _ Hg)) as Hck'. unfold certificate_of in *. assert (k' = k) as -> by congruence. auto.
Qed.
