(* ===== verification/PibContainers.v ===== *)
(** * The containers of the PIB agree with what is stored

    Whatever is called, and whether it throws or not: the names in the containers of identities, keys and certificates
    are the names in the memory, and the objects that have been loaded hold what the memory holds. *)

From stdpp Require Import base sorting list numbers option strings.
From Stdlib Require Import ZArith Lia.
From S2P Require Import Prelude Order Actions Name Data TlvData Certificates NameMap Pib PibSpec.
Open Scope Z_scope.

(** ** What an operation ensures

    The invariant after it, also when it throws, and something about its result and the state. *)

Definition ensures {S A} (I : S -> Prop) (s : S) (m : Op S A) (Q : A -> S -> Prop) : Prop :=
  I (state_of (m s)) /\ forall a, result_of (m s) = Ok a -> Q a (state_of (m s)).

Section Ensures.
Context {S : Type} (I : S -> Prop).

Lemma ensures_run {A} (s s' : S) (m : Op S A) r (Q : A -> S -> Prop) :
  m s = (s', [], r) -> I s' -> (forall a, r = Ok a -> Q a s') -> ensures I s m Q.
Proof. intros E HI HQ. unfold ensures, state_of, result_of. now rewrite E. Qed.

Lemma ensures_bind {A B} s (m : Op S A) (f : A -> Op S B) Q R :
  ensures I s m Q -> (forall a s', I s' -> Q a s' -> ensures I s' (f a) R) -> ensures I s (m ≫= f) R.
Proof.
  unfold ensures, state_of, result_of, mbind, Act_bind. intros [HI HQ] Hf.
  destruct (m s) as [[s1 c1] [a | e]]; cbn in *; [| easy]. specialize (Hf a s1 HI (HQ a eq_refl)).
  destruct (f a s1) as [[s2 c2] r]. exact Hf.
Qed.

Lemma ensures_weaken {A} s (m : Op S A) (Q R : A -> S -> Prop) :
  ensures I s m Q -> (forall a s', I s' -> Q a s' -> R a s') -> ensures I s m R.
Proof. intros [HI HQ] HR. split; [easy |]. intros a E. now apply HR, HQ. Qed.

Lemma ensures_get {A} s (f : S -> Op S A) Q : ensures I s (f s) Q -> ensures I s (self_get ≫= f) Q.
Proof. unfold ensures. now rewrite act_get_bind. Qed.

Lemma ensures_ret {A} s (a : A) (Q : A -> S -> Prop) : I s -> Q a s -> ensures I s (mret a) Q.
Proof. intros HI HQ. split; [easy |]. now intros b [= <-]. Qed.

Lemma ensures_returns {A} s (r : result exn A) (Q : A -> S -> Prop) : I s -> (forall a, r = Ok a -> Q a s) -> ensures I s (returns r) Q.
Proof. intros HI HQ. now split. Qed.

Lemma ensures_throw {A} s e (Q : A -> S -> Prop) : I s -> ensures I s (throw_exn e) Q.
Proof. now split. Qed.

Lemma ensures_modify s (f : S -> S) (Q : unit -> S -> Prop) : I (f s) -> Q tt (f s) -> ensures I s (self_modify f) Q.
Proof. intros HI HQ. split; [easy |]. now intros [] _. Qed.

Lemma ensures_catch {A} s (m : Op S A) h Q :
  ensures I s m Q -> (forall e s', I s' -> ensures I s' (h e) Q) -> ensures I s (catch m h) Q.
Proof.
  unfold ensures, state_of, result_of, catch. intros [HI HQ] Hh.
  destruct (m s) as [[s1 c1] [a | e]]; cbn in *; [easy |]. specialize (Hh e s1 HI).
  now destruct (h e s1) as [[s2 c2] r].
Qed.

(** After a read, the state is the same. *)
Lemma ensures_returns_bind {A B} s (r : result exn A) (f : A -> Op S B) Q :
  I s -> (forall a, r = Ok a -> ensures I s (f a) Q) -> ensures I s (returns r ≫= f) Q.
Proof.
  intros HI Hf. destruct r as [a | e].
  - unfold ensures. rewrite act_returns_bind. now apply Hf.
  - now apply ensures_bind with (Q := fun _ _ => False); [apply ensures_returns |].
Qed.

Lemma ensures_silent {A B} s s1 (m : Op S A) (f : A -> Op S B) a Q :
  m s = (s1, [], Ok a) -> ensures I s1 (f a) Q -> ensures I s (m ≫= f) Q.
Proof. intros E. unfold ensures. now rewrite (act_bind_silent _ _ _ _ _ E). Qed.

Lemma ensures_modify_bind {A} s (g : S -> S) (f : unit -> Op S A) Q :
  ensures I (g s) (f tt) Q -> ensures I s (self_modify g ≫= f) Q.
Proof. unfold ensures. now rewrite act_modify_bind. Qed.

Lemma ensures_ret_bind {A B} s (a : A) (f : A -> Op S B) Q : ensures I s (f a) Q -> ensures I s (mret a ≫= f) Q.
Proof. unfold ensures. now rewrite act_ret_bind. Qed.

Lemma ensures_throw_bind {A B} s e (f : A -> Op S B) Q : I s -> ensures I s (throw_exn e ≫= f) Q.
Proof. intros HI. now apply ensures_bind with (Q := fun _ _ => False); [apply ensures_throw |]. Qed.
End Ensures.

(** ** The invariant *)

(** A handle of the application, dead or not. *)
Definition good_identity (h : PibIdentity) : Prop := plain h.1.
Definition good_key (k : PibKey) : Prop := good_identity (kh_owner k) /\ plain (kh_name k).

Section Containers.
Context `{Crypto}.

Record key_impl_ok (m : PibMemory) (n k : Name) (ki : PibKeyImpl) : Prop := {
  ko_name : ki_keyName_ ki = k;
  ko_identity : ki_identityName_ ki = n;
  ko_of : plain k /\ key_of k n;
  ko_bits : (k, keyEncoding_ ki) ∈ mem_keys_ m;
  ko_type : public_key_type (keyEncoding_ ki) = Ok (keyType_ ki);
  ko_names : map_ok (ki_certificateNames_ ki) /\
    forall c, has (ki_certificateNames_ ki) c <-> has (mem_certificates_ m) c /\ certificate_of c k;
  ko_certificates : map_ok (ki_certificates_ ki) /\
    forall c cert, (c, cert) ∈ ki_certificates_ ki -> certificate_of c k /\ (c, cert) ∈ mem_certificates_ m
}.

Record identity_impl_ok (m : PibMemory) (n : Name) (ii : PibIdentityImpl) : Prop := {
  io_name : ii_identityName_ ii = n;
  io_has : has (mem_identityNames_ m) n;
  io_names : map_ok (ii_keyNames_ ii) /\ forall k, has (ii_keyNames_ ii) k <-> has (mem_keys_ m) k /\ key_of k n;
  io_keys : map_ok (ii_keys_ ii);
  io_key : forall k ki, (k, ki) ∈ ii_keys_ ii -> key_impl_ok m n k ki;
  io_default : forall k, defaultKey_ ii = Some k -> good_key k /\ (kh_owner k).1 = n
}.

Record pib_ok (p : Pib) : Prop := {
  po_mem : mem_ok (pibImpl_ p);
  po_names : map_ok (pib_identityNames_ p) /\ forall n, has (pib_identityNames_ p) n <-> has (mem_identityNames_ (pibImpl_ p)) n;
  po_identities : map_ok (pib_identities_ p);
  po_identity : forall n ii, (n, ii) ∈ pib_identities_ p -> identity_impl_ok (pibImpl_ p) n ii;
  po_default : forall h, pib_defaultIdentity_ p = Some h -> good_identity h
}.

Lemma pib_ok_new scheme location m : mem_ok m -> pib_ok (Pib_new scheme location m).
Proof.
  intros Hm. split; cbn; [easy | | apply map_ok_nil | intros n ii Hx; now apply elem_of_nil in Hx | easy].
  split; [apply Hm | easy].
Qed.

Lemma po_plain p n : pib_ok p -> has (mem_identityNames_ (pibImpl_ p)) n -> plain n.
Proof. intros Hp. apply (mo_id _ _ _ (po_mem p Hp)). Qed.

(** Two memories agree on the keys of an identity. *)
Definition agree_on (n : Name) (m m' : PibMemory) : Prop :=
  (forall k bits, key_of k n -> (k, bits) ∈ mem_keys_ m' <-> (k, bits) ∈ mem_keys_ m) /\
  (forall k c cert, key_of k n -> certificate_of c k -> (c, cert) ∈ mem_certificates_ m' <-> (c, cert) ∈ mem_certificates_ m).

Lemma key_impl_ok_agree m m' n k ki :
  key_impl_ok m n k ki -> (forall bits, (k, bits) ∈ mem_keys_ m -> (k, bits) ∈ mem_keys_ m') ->
  (forall c cert, certificate_of c k -> (c, cert) ∈ mem_certificates_ m' <-> (c, cert) ∈ mem_certificates_ m) ->
  key_impl_ok m' n k ki.
Proof.
  intros Hk Hb Hc. destruct Hk as [H1 H2 H3 H4 H5 [H6 H6'] [H7 H7']]. split; auto.
  - split; [easy |]. intros c. rewrite H6'. unfold has. naive_solver.
  - split; [easy |]. intros c cert Hx. destruct (H7' c cert Hx) as [Hck Hin]. split; [easy | now apply Hc].
Qed.

Lemma identity_impl_ok_agree m m' n ii :
  identity_impl_ok m n ii -> agree_on n m m' -> has (mem_identityNames_ m') n -> identity_impl_ok m' n ii.
Proof.
  intros Hi [Hb Hc] Hn. destruct Hi as [H1 H2 [H3 H3'] H4 H5 H6]. split; auto.
  - split; [easy |]. intros k. rewrite H3'. unfold has. naive_solver.
  - intros k ki Hx. pose proof (ko_of _ _ _ _ (H5 k ki Hx)) as [_ Hkn]. apply (key_impl_ok_agree m); [auto | naive_solver |].
    intros c cert Hck. now apply (Hc k).
Qed.

(** An identity changes, and the memory for it alone. *)
Lemma pib_ok_change p m' n ii' number :
  pib_ok p -> mem_ok m' -> (forall n', has (mem_identityNames_ m') n' <-> has (mem_identityNames_ (pibImpl_ p)) n') ->
  (forall n', n' <> n -> agree_on n' (pibImpl_ p) m') -> identity_impl_ok m' n ii' ->
  pib_ok (mkPib (pib_scheme_ p) (pib_location_ p) (pib_defaultIdentity_ p) (pib_identityNames_ p)
            (map_set (pib_identities_ p) n ii') m' number).
Proof.
  intros Hp Hm Hids Ha Hi. assert (Hn : key_ok n) by (apply plain_key_ok, (mo_id _ _ _ Hm), Hi).
  destruct Hp as [Hpm [Hp1 Hp2] Hp3 Hp4 Hp5]. split; cbn; try easy.
  - split; [easy |]. intros n'. now rewrite Hp2, Hids.
  - now apply map_set_ok.
  - intros n' ii [[= -> ->] | [Hx Hne]]%map_set_elem; [easy | | easy | easy]. cbn in Hne.
    apply (identity_impl_ok_agree (pibImpl_ p)); [auto | auto |]. apply Hids, (Hp4 n' ii Hx).
Qed.

(** *** Handles *)

Lemma find_identity_some h p ii : pib_ok p -> good_identity h -> find_identity h p = Some ii ->
  (h.1, ii) ∈ pib_identities_ p /\ ii_identityName_ ii = h.1 /\ ii_number ii = h.2 /\ identity_impl_ok (pibImpl_ p) h.1 ii.
Proof.
  intros Hp Hh Hf. unfold find_identity in Hf. destruct (map_find (pib_identities_ p) h.1) as [ii' |] eqn:E; [| easy]. cbn [mbind option_bind] in Hf.
  destruct (Nat.eqb_spec (ii_number ii') h.2) as [Hnum |]; [| easy]. injection Hf as ->.
  apply (map_find_elem _ _ _ (po_identities p Hp) (plain_key_ok _ Hh)) in E. pose proof (po_identity p Hp _ _ E) as Hi.
  split; [easy |]. split; [apply Hi | easy].
Qed.

Lemma map_find_set {V} (m : NameMap V) n v : map_ok m -> key_ok n -> map_find (map_set m n v) n = Some v.
Proof. intros Hm Hn. apply map_find_elem; [now apply map_set_ok | easy |]. apply map_set_elem; auto. Qed.

Lemma find_identity_set h p ii : map_ok (pib_identities_ p) -> good_identity h -> ii_identityName_ ii = h.1 -> ii_number ii = h.2 ->
  find_identity h (set_identity ii p) = Some ii.
Proof.
  intros Hm Hh Hn Hnum. unfold find_identity, set_identity, set_identities. cbn.
  rewrite Hn, map_find_set by (easy || now apply plain_key_ok). cbn. rewrite Hnum. now rewrite Nat.eqb_refl.
Qed.

Lemma find_key_some k p ki : pib_ok p -> good_key k -> find_key k p = Some ki ->
  exists ii, find_identity (kh_owner k) p = Some ii /\ (kh_name k, ki) ∈ ii_keys_ ii /\ ki_number ki = kh_number k /\
    identity_impl_ok (pibImpl_ p) (kh_owner k).1 ii /\ key_impl_ok (pibImpl_ p) (kh_owner k).1 (kh_name k) ki.
Proof.
  intros Hp [Ho Hn] Hf. unfold find_key in Hf. destruct (find_identity (kh_owner k) p) as [ii |] eqn:E; [| easy]. cbn [mbind option_bind] in Hf.
  destruct (find_identity_some _ p ii Hp Ho E) as (Hin & Hname & Hnum & Hi).
  destruct (map_find (ii_keys_ ii) (kh_name k)) as [ki' |] eqn:Ek; [| easy]. cbn [mbind option_bind] in Hf.
  destruct (Nat.eqb_spec (ki_number ki') (kh_number k)); [| easy]. injection Hf as ->. exists ii. split; [easy |].
  apply (map_find_elem _ _ _ (io_keys _ _ _ Hi) (plain_key_ok _ Hn)) in Ek. split_and!; try easy. now apply Hi.
Qed.

(** A method of an object that is dead throws. *)
Lemma ensures_lock_identity {A} h p (f : PibIdentityImpl -> Op Pib A) Q :
  pib_ok p -> good_identity h ->
  (forall ii, find_identity h p = Some ii -> identity_impl_ok (pibImpl_ p) h.1 ii -> ensures pib_ok p (f ii) Q) ->
  ensures pib_ok p (lock_identity h ≫= f) Q.
Proof.
  intros Hp Hh Hf. destruct (find_identity h p) as [ii |] eqn:E.
  - assert (El : lock_identity h p = (p, [], Ok ii)) by (unfold lock_identity; now rewrite act_get_bind, E).
    apply (ensures_silent _ _ _ _ _ _ _ El). apply Hf; [easy |]. now apply (find_identity_some h p ii).
  - assert (El : lock_identity h p = (p, [], Err (Exception "std::domain_error" "Invalid Identity instance")))
      by (unfold lock_identity; now rewrite act_get_bind, E).
    apply ensures_bind with (Q := fun _ _ => False); [| easy]. now apply (ensures_run _ _ p _ _ _ El).
Qed.

Lemma ensures_lock_key {A} k p (f : PibKeyImpl -> Op Pib A) Q :
  pib_ok p -> good_key k -> (forall ki, find_key k p = Some ki -> key_impl_ok (pibImpl_ p) (kh_owner k).1 (kh_name k) ki -> ensures pib_ok p (f ki) Q) ->
  ensures pib_ok p (lock_key k ≫= f) Q.
Proof.
  intros Hp Hk Hf. destruct (find_key k p) as [ki |] eqn:E.
  - assert (El : lock_key k p = (p, [], Ok ki)) by (unfold lock_key; now rewrite act_get_bind, E).
    apply (ensures_silent _ _ _ _ _ _ _ El). apply Hf; [easy |]. now destruct (find_key_some k p ki Hp Hk E) as (? & ? & ? & ? & ? & ?).
  - assert (El : lock_key k p = (p, [], Err (Exception "std::domain_error" "Invalid key instance")))
      by (unfold lock_key; now rewrite act_get_bind, E).
    apply ensures_bind with (Q := fun _ _ => False); [| easy]. now apply (ensures_run _ _ p _ _ _ El).
Qed.

(** ** Identities *)

Lemma read_mem_ok {A B} (f : PibMemory -> result exn A) (a : A) (g : A -> Op Pib B) p :
  f (pibImpl_ p) = Ok a -> (read_mem f ≫= g) p = g a p.
Proof. intros E. apply act_bind_silent. unfold read_mem. now rewrite act_get_bind, E. Qed.

Lemma ensures_read_mem {A B} (f : PibMemory -> result exn A) (a : A) (g : A -> Op Pib B) p Q :
  f (pibImpl_ p) = Ok a -> ensures pib_ok p (g a) Q -> ensures pib_ok p (read_mem f ≫= g) Q.
Proof. intros E. unfold ensures. now rewrite (read_mem_ok _ a). Qed.

Lemma agree_on_addIdentity n i m : agree_on n m (mem_addIdentity i m).
Proof. destruct (mem_addIdentity_rest i m) as (_ & E2 & _ & E4 & _). unfold agree_on. now rewrite E2, E4. Qed.

Definition with_number (number : nat) (p : Pib) : Pib :=
  mkPib (pib_scheme_ p) (pib_location_ p) (pib_defaultIdentity_ p) (pib_identityNames_ p) (pib_identities_ p) (pibImpl_ p) number.

Lemma PibIdentityImpl_new_run n needInit p :
  mem_ok (pibImpl_ p) -> plain n -> (needInit = true \/ has (mem_identityNames_ (pibImpl_ p)) n) ->
  let m' := if needInit : bool then mem_addIdentity n (pibImpl_ p) else pibImpl_ p in
  exists ii, PibIdentityImpl_new n needInit p = (with_number (S (next_number p)) (set_pibImpl m' p), [], Ok ii) /\
    ii_number ii = next_number p /\ identity_impl_ok m' n ii.
Proof.
  intros Hm Hn Hi m'. destruct (getKeysOfIdentity_spec n _ Hm Hn) as (names & E & Hok & Hnames).
  unfold PibIdentityImpl_new. rewrite (read_mem_ok _ names) by easy.
  exists (mkPibIdentityImpl (next_number p) n names [] None). split; [| split; [easy |]].
  - destruct needInit; [easy |]. destruct Hi as [? | Hi]; [easy |].
    apply has_name_has in Hi; [| apply Hm | now apply plain_key_ok]. unfold hasIdentity.
    unfold mbind at 1, Act_bind at 1. rewrite act_get_bind, Hi. now destruct p.
  - assert (Hk : mem_keys_ m' = mem_keys_ (pibImpl_ p)) by (subst m'; destruct needInit; [apply mem_addIdentity_rest | easy]).
    split; cbn; rewrite ?Hk; try easy.
    + subst m'. destruct needInit; [apply (mem_addIdentity_ids n _ n Hm Hn); auto | now destruct Hi].
    + apply map_ok_nil.
Qed.

Lemma PibIdentityImpl_new_absent n p :
  mem_ok (pibImpl_ p) -> plain n -> ~ has (mem_identityNames_ (pibImpl_ p)) n -> exists what,
  PibIdentityImpl_new n false p = (p, [], Err (Exception Pib_Error what)).
Proof.
  intros Hm Hn Hi. destruct (getKeysOfIdentity_spec n _ Hm Hn) as (names & E & _). exists "Identity does not exist".
  unfold PibIdentityImpl_new. rewrite (read_mem_ok _ names) by easy. unfold mbind at 1, Act_bind at 1. rewrite act_get_bind. unfold hasIdentity.
  destruct (has_name _ n) eqn:Eh; [| easy]. apply has_name_has in Eh; [easy | apply Hm | now apply plain_key_ok].
Qed.

Definition is_identity (n : Name) (h : PibIdentity) (p : Pib) : Prop :=
  h.1 = n /\ plain n /\ exists ii, find_identity h p = Some ii.

Lemma identities_get_ok n p : pib_ok p -> plain n -> ensures pib_ok p (identities_get n) (is_identity n).
Proof.
  intros Hp Hn. pose proof (plain_key_ok n Hn) as Hk. unfold identities_get. apply ensures_get.
  destruct (map_find (pib_identities_ p) n) as [ii |] eqn:E.
  - pose proof E as Hx. apply map_find_elem in Hx; [| apply Hp | easy]. pose proof (po_identity p Hp n ii Hx) as Hi.
    apply ensures_ret; [easy |]. split; [apply Hi |]. split; [easy |]. exists ii. unfold find_identity. cbn.
    rewrite (io_name _ _ _ Hi), E. cbn. now rewrite Nat.eqb_refl.
  - assert (Hd : has (mem_identityNames_ (pibImpl_ p)) n \/ ~ has (mem_identityNames_ (pibImpl_ p)) n).
    { rewrite <- has_name_has by (easy || apply (po_mem p Hp)). destruct (has_name _ n); auto. }
    destruct Hd as [Hi | Hi].
    + destruct (PibIdentityImpl_new_run n false p (po_mem p Hp) Hn (or_intror Hi)) as (ii & En & Hnum & Hii). cbn in En, Hii.
      apply (ensures_silent _ _ _ _ _ _ _ En), ensures_modify_bind. split.
      * unfold state_of, set_identity, set_identities, mret, Act_ret. cbn. rewrite (io_name _ _ _ Hii). apply pib_ok_change; try easy. apply Hp.
      * intros h [= <-]. split; [easy |]. split; [easy |]. exists ii. unfold state_of, mret, Act_ret. cbn [fst snd].
        apply find_identity_set; try easy; [apply Hp | apply Hii].
    + destruct (PibIdentityImpl_new_absent n p (po_mem p Hp) Hn Hi) as [what En]. apply ensures_bind with (Q := fun _ _ => False); [| easy].
      now apply (ensures_run _ _ p _ _ _ En).
Qed.

Lemma identities_add_ok n p : pib_ok p -> plain n -> ensures pib_ok p (identities_add n) (is_identity n).
Proof.
  intros Hp Hn. pose proof (plain_key_ok n Hn) as Hk. unfold identities_add. apply ensures_get.
  apply ensures_bind with (Q := fun _ _ => True); [| intros _ p' Hp' _; now apply identities_get_ok].
  destruct (negb (has_name (pib_identityNames_ p) n)) eqn:E; [| now apply ensures_ret].
  apply ensures_modify_bind. set (p1 := set_identities _ _ p).
  destruct (PibIdentityImpl_new_run n true p1 (po_mem p Hp) Hn (or_introl eq_refl)) as (ii & En & Hnum & Hii). cbn in En, Hii.
  apply (ensures_silent _ _ _ _ _ _ _ En). split; [| now intros []]. unfold state_of, self_modify, set_identity, set_identities. cbn.
  rewrite (io_name _ _ _ Hii). pose proof Hp as [Hm [Hs1 Hs2] Hids Hid Hdef].
  pose proof (fun j => mem_addIdentity_ids n _ j Hm Hn) as Hin.
  split; cbn.
  - now apply mem_addIdentity_ok.
  - split; [now apply map_set_ok |]. intros j. unfold set_insert. rewrite Hin, has_set by easy. now rewrite Hs2.
  - now apply map_set_ok.
  - intros j ij [[= -> ->] | [Hx Hne]]%map_set_elem; [easy | | easy | easy].
    apply (identity_impl_ok_agree (pibImpl_ p)); [auto | apply agree_on_addIdentity |]. apply Hin. right. apply (Hid j ij Hx).
  - easy.
Qed.

Lemma key_of_functional k i j : key_of k i -> key_of k j -> i = j.
Proof. unfold key_of. congruence. Qed.
Lemma certificate_of_functional c k k' : certificate_of c k -> certificate_of c k' -> k = k'.
Proof. unfold certificate_of. congruence. Qed.

Lemma identities_remove_ok n p : pib_ok p -> plain n -> ensures pib_ok p (identities_remove n) (fun _ _ => True).
Proof.
  intros Hp Hn. pose proof (plain_key_ok n Hn) as Hk. unfold identities_remove. apply ensures_modify_bind.
  pose proof Hp as [Hm [Hs1 Hs2] Hids Hid Hdef].
  destruct (mem_removeIdentity_run n _ Hm Hn) as (m' & E & Hm' & _ & Hi & Hkeys & Hcerts).
  eapply ensures_run; [unfold on_mem; cbn; now rewrite E | | easy]. split; cbn; try easy.
  - split; [now apply map_erase_ok |]. intros j. rewrite has_erase by easy. now rewrite Hi, Hs2.
  - now apply map_erase_ok.
  - intros j ij [Hx Hne]%map_erase_elem; [| easy | easy]. cbn in Hne. apply (identity_impl_ok_agree (pibImpl_ p)); [auto | |].
    + split.
      * intros k bits Hkj. rewrite Hkeys. split; [tauto |]. intros Hin. split; [easy |]. intros Hkn. now apply Hne, (key_of_functional k).
      * intros k c cert Hkj Hck. rewrite Hcerts. split; [tauto |]. intros Hin. split; [easy |]. intros (k' & Hk' & Hck').
        pose proof (certificate_of_functional c k k' Hck Hck') as <-. now apply Hne, (key_of_functional k).
    + apply Hi. split; [easy | apply (Hid j ij Hx)].
Qed.

Lemma Pib_reset_ok p : pib_ok p -> ensures pib_ok p Pib_reset (fun _ _ => True).
Proof.
  intros Hp. eapply ensures_run; [unfold Pib_reset; cbn; reflexivity | | easy].
  destruct (pib_ok_new (pib_scheme_ p) (pib_location_ p) _ mem_ok_new). now split.
Qed.

Lemma pib_ok_memory p m' : pib_ok p -> mem_ok m' -> mem_keys_ m' = mem_keys_ (pibImpl_ p) ->
  mem_certificates_ m' = mem_certificates_ (pibImpl_ p) ->
  (forall n, has (mem_identityNames_ m') n <-> has (mem_identityNames_ (pibImpl_ p)) n) -> pib_ok (set_pibImpl m' p).
Proof.
  intros [Hm [Hs1 Hs2] Hids Hid Hdef] Hm' Ek Ec Hi. split; cbn; try easy.
  - split; [easy |]. intros n. now rewrite Hi.
  - intros n ii Hx. apply (identity_impl_ok_agree (pibImpl_ p)); [auto | unfold agree_on; now rewrite Ek, Ec |].
    apply Hi, (Hid n ii Hx).
Qed.

Lemma pib_ok_default h p : pib_ok p -> (forall h', h = Some h' -> good_identity h') -> pib_ok (set_pib_defaultIdentity h p).
Proof. intros [Hm Hs Hids Hid Hdef] Hh. now split. Qed.

Lemma Pib_setTpmLocator_ok l p : pib_ok p -> ensures pib_ok p (Pib_setTpmLocator l) (fun _ _ => True).
Proof.
  intros Hp. unfold Pib_setTpmLocator. apply ensures_get. destruct (bool_decide _); [now apply ensures_ret |].
  eapply ensures_bind; [now apply Pib_reset_ok |]. intros [] p' Hp' _. eapply ensures_run; [reflexivity | | easy].
  apply pib_ok_memory; try easy. now destruct (po_mem p' Hp').
Qed.

Lemma PibIdentity_getName_ok h p : pib_ok p -> good_identity h -> ensures pib_ok p (PibIdentity_getName h) (fun n p' => n = h.1 /\ plain n).
Proof.
  intros Hp Hh. unfold PibIdentity_getName. apply ensures_lock_identity; [easy | easy |]. intros ii _ Hi. apply ensures_ret; [easy |].
  now rewrite (io_name _ _ _ Hi).
Qed.

Lemma Pib_removeIdentity_ok n p : pib_ok p -> plain n -> ensures pib_ok p (Pib_removeIdentity n) (fun _ _ => True).
Proof.
  intros Hp Hn. unfold Pib_removeIdentity. apply ensures_get.
  apply ensures_bind with (Q := fun _ _ => True); [| intros; now apply identities_remove_ok].
  destruct (pib_defaultIdentity_ p) as [h |] eqn:E; [| now apply ensures_ret].
  eapply ensures_bind; [apply PibIdentity_getName_ok; [easy | now apply (po_default p Hp)] |]. intros name p' Hp' _.
  destruct (name_equals name n); [| now apply ensures_ret]. now apply ensures_modify; [apply pib_ok_default |].
Qed.

Lemma is_identity_has n h p : pib_ok p -> is_identity n h p -> has (mem_identityNames_ (pibImpl_ p)) n.
Proof.
  intros Hp (<- & Hn & ii & E). destruct (find_identity_some h p ii Hp Hn E) as (_ & _ & _ & Hi). apply Hi.
Qed.

Lemma Pib_setDefaultIdentity_ok n p : pib_ok p -> plain n -> ensures pib_ok p (Pib_setDefaultIdentity n) (is_identity n).
Proof.
  intros Hp Hn. unfold Pib_setDefaultIdentity. eapply ensures_bind; [now apply identities_add_ok |]. intros h p' Hp' Hh.
  apply ensures_modify_bind. set (p1 := set_pib_defaultIdentity _ p').
  assert (Hp1 : pib_ok p1) by (apply pib_ok_default; [easy |]; intros h' [= <-]; unfold good_identity; destruct Hh as (-> & ? & _); assumption).
  eapply ensures_bind with (Q := fun _ p2 => is_identity n h p2); [| intros [] p2 Hp2 H2; now apply ensures_ret].
  eapply ensures_run; [reflexivity | | now intros ? _].
  apply pib_ok_memory; [easy | | | |].
  - apply mem_setDefaultIdentity_ok; [apply Hp1 | easy].
  - apply mem_addIdentity_rest.
  - apply mem_addIdentity_rest.
  - intros j. cbn. rewrite (mem_addIdentity_ids n _ j (po_mem p' Hp') Hn). pose proof (is_identity_has n h p' Hp' Hh). naive_solver.
Qed.

Lemma Pib_getDefaultIdentity_ok p : pib_ok p -> ensures pib_ok p Pib_getDefaultIdentity (fun h _ => good_identity h).
Proof.
  intros Hp. unfold Pib_getDefaultIdentity. apply ensures_get.
  destruct (pib_defaultIdentity_ p) as [h |] eqn:E; [apply ensures_ret; [easy | now apply (po_default p Hp)] |].
  unfold read_mem. apply ensures_bind with (Q := fun n p' => p' = p /\ plain n).
  - apply ensures_get, ensures_returns; [easy |]. unfold mem_getDefaultIdentity. intros n Hn. split; [easy |].
    destruct (hasDefaultIdentity_ (pibImpl_ p)) eqn:Ed; [| easy]. injection Hn as <-.
    now apply (po_plain p), (mo_default _ _ _ (po_mem p Hp)).
  - intros n p' _ [-> Hn]. eapply ensures_bind; [now apply identities_get_ok |]. intros h p' Hp' (Hh & _ & _).
    assert (good_identity h) by (unfold good_identity; now rewrite Hh).
    apply ensures_modify_bind, ensures_ret; [| easy]. apply pib_ok_default; [easy |]. now intros h' [= <-].
Qed.

(** ** Keys *)

Lemma change_identity_run h f p ii : find_identity h p = Some ii -> change_identity h f p = (set_identity (f ii) p, [], Ok tt).
Proof. intros E. unfold change_identity, self_modify. now rewrite E. Qed.

Lemma pib_ok_set_identity h p ii ii' :
  pib_ok p -> good_identity h -> find_identity h p = Some ii -> identity_impl_ok (pibImpl_ p) h.1 ii' -> pib_ok (set_identity ii' p).
Proof.
  intros Hp Hh E Hi. unfold set_identity. rewrite (io_name _ _ _ Hi). apply pib_ok_change; try easy. apply Hp.
Qed.

Lemma identity_set_key m n k ki ii : identity_impl_ok m n ii -> key_impl_ok m n k ki -> identity_impl_ok m n (set_key ki ii).
Proof.
  intros [H1 H2 H3 H4 H5 H6] Hk. pose proof (plain_key_ok _ (proj1 (ko_of _ _ _ _ Hk))) as Hkk. split; cbn; try easy.
  - rewrite (ko_name _ _ _ _ Hk). now apply map_set_ok.
  - intros k' ki'. rewrite (ko_name _ _ _ _ Hk). intros [[= -> ->] | [Hx _]]%map_set_elem; auto.
Qed.

Lemma check_key_name_ok {A} n k p (f : unit -> Op Pib A) Q :
  pib_ok p -> plain n -> plain k -> (key_of k n -> ensures pib_ok p (f tt) Q) -> ensures pib_ok p (check_key_name n k ≫= f) Q.
Proof.
  intros Hp Hn Hk Hf. unfold check_key_name. destruct (extractIdentityFromKeyName k) as [i |] eqn:E; cycle 1.
  { apply ensures_bind with (Q := fun _ _ => False); [| easy]. now apply ensures_returns_bind. }
  pose proof (key_of_plain k i Hk E) as Hi.
  apply ensures_bind with (Q := fun _ p' => p' = p /\ key_of k n); [| intros [] p' _ [-> ?]; now apply Hf].
  apply ensures_returns_bind; [easy |]. intros i' [= <-]. destruct (name_equals n i) eqn:En; cbn [negb].
  - apply plain_equals in En as ->; [| easy | easy]. now apply ensures_ret.
  - now apply ensures_throw.
Qed.

Lemma PibKeyImpl_load_ok n k p :
  pib_ok p -> plain k -> key_of k n ->
  ensures pib_ok p (PibKeyImpl_load k) (fun ki p' => p' = with_number (S (next_number p)) p /\ key_impl_ok (pibImpl_ p) n k ki /\
    ki_number ki = next_number p).
Proof.
  intros Hp Hk Hkn. destruct (getCertificatesOfKey_spec k _ (po_mem p Hp) Hk) as (names & E & Hok & Hnames).
  unfold PibKeyImpl_load. apply ensures_returns_bind; [easy |]. intros i Hi. pose proof (key_of_functional k i n Hi Hkn) as ->.
  apply (ensures_read_mem _ names); [easy |].
  apply ensures_bind with (Q := fun bits p' => p' = p /\ (k, bits) ∈ mem_keys_ (pibImpl_ p)).
  { apply ensures_get, ensures_returns; [easy |]. unfold mem_getKeyBits. intros bits Hb. split; [easy |].
    destruct (map_find _ k) eqn:Ef; [| easy]. injection Hb as ->. apply map_find_elem in Ef; [easy | apply (po_mem p Hp) | now apply plain_key_ok]. }
  intros bits p' _ [-> Hb]. apply ensures_returns_bind; [easy |]. intros kt Hkt.
  eapply ensures_run; [reflexivity | now destruct Hp |]. intros ki [= <-]. split; [easy |]. split; [| easy].
  split; cbn; try easy. split; [apply map_ok_nil |]. intros c cert Hx. now apply elem_of_nil in Hx.
Qed.

Definition is_key (h : PibIdentity) (k : Name) (kh : PibKey) (p : Pib) : Prop :=
  kh_owner kh = h /\ kh_name kh = k /\ good_key kh /\ exists ki, find_key kh p = Some ki.

Lemma find_key_set h k p ii ki : pib_ok p -> good_identity h -> find_identity h p = Some ii -> key_impl_ok (pibImpl_ p) h.1 k ki ->
  find_key (mkPibKey h k (ki_number ki)) (set_identity (set_key ki ii) p) = Some ki.
Proof.
  intros Hp Hh E Hk. destruct (find_identity_some h p ii Hp Hh E) as (_ & Hn & Hnum & Hi). unfold find_key. cbn [kh_owner kh_name kh_number].
  rewrite find_identity_set by (easy || apply Hp). cbn. rewrite (ko_name _ _ _ _ Hk), map_find_set; [| apply Hi | apply plain_key_ok, Hk].
  cbn. now rewrite Nat.eqb_refl.
Qed.

Lemma keys_get_ok h k p : pib_ok p -> good_identity h -> plain k -> ensures pib_ok p (keys_get h k) (is_key h k).
Proof.
  intros Hp Hh Hk. unfold keys_get. apply ensures_lock_identity; [easy | easy |]. intros ii E Hi. rewrite (io_name _ _ _ Hi).
  apply check_key_name_ok; [easy | easy | easy |]. intros Hkn. destruct (map_find (ii_keys_ ii) k) as [ki |] eqn:Ef.
  - pose proof Ef as Hx. apply map_find_elem in Hx; [| apply Hi | now apply plain_key_ok]. pose proof (io_key _ _ _ Hi k ki Hx) as Hki.
    apply ensures_ret; [easy |]. rewrite (ko_name _ _ _ _ Hki). split_and!; try easy. exists ki. unfold find_key. cbn.
    rewrite E. cbn. rewrite Ef. cbn. now rewrite Nat.eqb_refl.
  - eapply ensures_bind; [now apply (PibKeyImpl_load_ok h.1) |]. intros ki p' Hp' (Ep & Hki & Hnum).
    assert (E' : find_identity h p' = Some ii) by now subst p'. assert (Hki' : key_impl_ok (pibImpl_ p') h.1 k ki) by now subst p'.
    apply (ensures_silent _ _ _ _ _ _ _ (change_identity_run h (set_key ki) p' ii E')).
    apply ensures_ret.
    + eapply pib_ok_set_identity; [easy | exact Hh | exact E' |]. apply (identity_set_key _ _ k); [now subst p' | easy].
    + split_and!; try easy. exists ki. now apply find_key_set.
Qed.

Lemma check_key_name_run k n p : plain n -> key_of k n -> check_key_name n k p = (p, [], Ok tt).
Proof.
  intros Hn Hk. unfold check_key_name. rewrite Hk, act_returns_bind. now rewrite (proj2 (plain_equals n n Hn Hn) eq_refl).
Qed.

Lemma lock_identity_run h p ii : find_identity h p = Some ii -> lock_identity h p = (p, [], Ok ii).
Proof. intros E. unfold lock_identity. now rewrite act_get_bind, E. Qed.
Lemma lock_key_run k p ki : find_key k p = Some ki -> lock_key k p = (p, [], Ok ki).
Proof. intros E. unfold lock_key. now rewrite act_get_bind, E. Qed.

(** The constructor of a new key, also while its name is already in the container. *)
Lemma PibKeyImpl_new_run n k bits kt p :
  mem_ok (pibImpl_ p) -> plain k -> key_of k n -> public_key_type bits = Ok kt ->
  let m' := mem_addKey n k bits (pibImpl_ p) in
  exists ki, PibKeyImpl_new k bits p = (with_number (S (next_number p)) (set_pibImpl m' p), [], Ok ki) /\
    keyEncoding_ ki = bits /\ key_impl_ok m' n k ki.
Proof.
  intros Hm Hk Hkn Ht m'. destruct (getCertificatesOfKey_spec k _ Hm Hk) as (names & E & Hok & Hnames).
  exists (mkPibKeyImpl (next_number p) n k bits kt names [] None). split; [| split; [easy |]].
  - unfold PibKeyImpl_new. rewrite Hkn, act_returns_bind, (read_mem_ok _ names) by easy. unfold key_type_of. rewrite Ht, act_returns_bind.
    reflexivity.
  - destruct (mem_addIdentity_rest n (pibImpl_ p)) as (_ & E2 & _ & E4 & _).
    split; cbn; rewrite ?E2, ?E4; try easy.
    + apply map_set_elem; [apply Hm | now apply plain_key_ok | now left].
    + split; [apply map_ok_nil |]. intros c cert Hx. now apply elem_of_nil in Hx.
Qed.

Lemma agree_on_addKey n i k bits m : mem_ok m -> plain k -> key_of k i -> n <> i -> agree_on n m (mem_addKey i k bits m).
Proof.
  intros Hm Hk Hki Hne. destruct (mem_addIdentity_rest i m) as (_ & E2 & _ & E4 & _). unfold agree_on, mem_addKey. cbn. rewrite E2, E4.
  split; [| easy]. intros k' bits' Hk'. rewrite map_set_elem by (apply Hm || now apply plain_key_ok). split; cycle 1.
  { intros Hx. right. split; [easy |]. cbn. intros ->. now apply Hne, (key_of_functional k). }
  intros [[= -> ->] | [Hx _]]; [| easy]. destruct Hne. now apply (key_of_functional k).
Qed.

(** The identity of the new key, in the memory that has the key. *)
Lemma identity_add_key n k bits ki ii m :
  mem_ok m -> identity_impl_ok m n ii -> let m' := mem_addKey n k bits m in
  key_impl_ok m' n k ki -> identity_impl_ok m' n (set_key ki (set_ii_names (set_insert (ii_keyNames_ ii) k) ii)).
Proof.
  intros Hm [H1 H2 [H3 H3'] H4 H5 H6] m' Hk. pose proof (ko_of _ _ _ _ Hk) as [Hpk Hkn]. pose proof (plain_key_ok _ Hpk) as Hkk.
  pose proof (mo_id _ _ _ Hm n H2) as Hn. destruct (mem_addIdentity_rest n m) as (_ & E2 & _ & E4 & _).
  split; cbn; rewrite ?(ko_name _ _ _ _ Hk); try easy.
  - apply (mem_addIdentity_ids n m n Hm Hn). now left.
  - rewrite E2. split; [now apply map_set_ok |]. intros k'. unfold set_insert. rewrite !has_set by (easy || apply Hm). rewrite H3'. naive_solver.
  - now apply map_set_ok.
  - intros k' ki' [[= -> ->] | [Hx Hne]]%map_set_elem; [easy | | easy | easy]. cbn in Hne.
    apply (key_impl_ok_agree m); [auto | |]; unfold m', mem_addKey; cbn; rewrite ?E2, ?E4; [| easy].
    intros bits' Hb. apply map_set_elem; [apply Hm | easy |]. now right.
Qed.

Definition has_bits (bits : list Z) (k : PibKey) (p : Pib) : Prop :=
  good_key k /\ exists ki, find_key k p = Some ki /\ keyEncoding_ ki = bits.

Lemma keys_add_ok h bits kt k p :
  pib_ok p -> good_identity h -> plain k -> public_key_type bits = Ok kt ->
  ensures pib_ok p (keys_add h bits k) (fun kh p' => is_key h k kh p' /\ has_bits bits kh p').
Proof.
  intros Hp Hh Hk Ht. unfold keys_add. apply ensures_lock_identity; [easy | easy |]. intros ii E Hi. rewrite (io_name _ _ _ Hi).
  apply check_key_name_ok; [easy | easy | easy |]. intros Hkn.
  apply (ensures_silent _ _ _ _ _ _ _ (change_identity_run _ _ _ _ E)).
  set (p1 := set_identity _ p). destruct (PibKeyImpl_new_run h.1 k bits kt p1 (po_mem p Hp) Hk Hkn Ht) as (ki & En & Hb & Hki).
  apply (ensures_silent _ _ _ _ _ _ _ En). set (p2 := with_number _ _).
  assert (E2 : find_identity h p2 = Some (set_ii_names (set_insert (ii_keyNames_ ii) k) ii)).
  { destruct (find_identity_some h p ii Hp Hh E) as (_ & Hn & Hnum & _).
    exact (find_identity_set h p (set_ii_names (set_insert (ii_keyNames_ ii) k) ii) (po_identities p Hp) Hh Hn Hnum). }
  apply (ensures_silent _ _ _ _ _ _ _ (change_identity_run h (set_key ki) p2 _ E2)).
  pose proof (identity_add_key h.1 k bits ki ii _ (po_mem p Hp) Hi Hki) as Hii. set (ii2 := set_key ki _) in *.
  set (p3 := set_identity ii2 p2).
  assert (Hp3 : pib_ok p3).
  { subst p3 p2 p1. unfold set_identity, set_identities. cbn. rewrite (io_name _ _ _ Hi), map_set_twice; [| apply Hp | now apply plain_key_ok].
    apply pib_ok_change; [easy | | | | easy].
    - now apply mem_addKey_ok; [apply Hp | |].
    - intros j. unfold mem_addKey. cbn. rewrite (mem_addIdentity_ids h.1 _ j (po_mem p Hp) Hh). pose proof (io_has _ _ _ Hi). naive_solver.
    - intros j Hne. now apply agree_on_addKey; [apply Hp | | |]. }
  assert (E3 : find_identity h p3 = Some ii2).
  { destruct (find_identity_some h p ii Hp Hh E) as (_ & Hn & Hnum & _). apply find_identity_set; try easy. apply map_set_ok; [apply Hp |].
    change (key_ok (ii_identityName_ ii)). rewrite (io_name _ _ _ Hi). now apply plain_key_ok. }
  assert (Em : map_find (ii_keys_ ii2) k = Some ki).
  { subst ii2. cbn. rewrite (ko_name _ _ _ _ Hki). apply map_find_set; [apply Hi | now apply plain_key_ok]. }
  apply (ensures_silent _ _ _ _ _ _ _ (lock_identity_run _ _ _ E3)). rewrite (io_name _ _ _ Hii).
  apply (ensures_silent _ _ _ _ _ _ _ (check_key_name_run k h.1 p3 Hh Hkn)). rewrite Em, (ko_name _ _ _ _ Hki).
  assert (Ek : find_key (mkPibKey h k (ki_number ki)) p3 = Some ki).
  { unfold find_key. cbn [kh_owner kh_name kh_number]. rewrite E3. cbn [mbind option_bind]. rewrite Em. cbn [mbind option_bind]. now rewrite Nat.eqb_refl. }
  split; [exact Hp3 |]. intros kh [= <-]. split; split_and!; try easy; now exists ki.
Qed.

Lemma keys_remove_ok h k p : pib_ok p -> good_identity h -> plain k -> ensures pib_ok p (keys_remove h k) (fun _ _ => True).
Proof.
  intros Hp Hh Hk. pose proof (plain_key_ok k Hk) as Hkk. unfold keys_remove. apply ensures_lock_identity; [easy | easy |]. intros ii E Hi.
  rewrite (io_name _ _ _ Hi). apply check_key_name_ok; [easy | easy | easy |]. intros Hkn.
  apply (ensures_silent _ _ _ _ _ _ _ (change_identity_run _ _ _ _ E)). set (p1 := set_identity _ p).
  destruct (mem_removeKey_run k h.1 (pibImpl_ p1) (po_mem p Hp) Hk Hkn) as (m' & Em & Hm' & _ & _ & _ & Ei & Hkeys & Hcerts).
  eapply ensures_run; [unfold on_mem; now rewrite Em | | easy].
  destruct Hi as [H1 H2 [H3 H3'] H4 H5 H6]. unfold p1, set_pibImpl, set_identity, set_identities. cbn. rewrite H1.
  apply pib_ok_change; try easy.
  - intros n. now rewrite Ei.
  - intros n Hne. split.
    + intros k' bits Hk'. rewrite Hkeys. split; [tauto |]. intros Hx. split; [easy |]. intros <-. now apply Hne, (key_of_functional k).
    + intros k' c cert Hk' Hc. rewrite Hcerts. split; [tauto |]. intros Hx. split; [easy |]. intros (k1 & <- & Hc1).
      pose proof (certificate_of_functional _ _ _ Hc Hc1) as ->. now apply Hne, (key_of_functional k).
  - split; cbn; rewrite ?Ei; try easy.
    + split; [now apply map_erase_ok |]. intros k'. rewrite has_erase, H3' by easy. unfold has. setoid_rewrite Hkeys. naive_solver.
    + now apply map_erase_ok.
    + intros k' ki [Hx Hne]%map_erase_elem; [| easy | easy]. cbn in Hne. apply (key_impl_ok_agree (pibImpl_ p)); [auto | |].
      * intros bits Hb. apply Hkeys. split; [easy |]. now intros ->.
      * intros c cert Hc. rewrite Hcerts. split; [tauto |]. intros Hx'. split; [easy |]. intros (k1 & <- & Hc1).
        now apply Hne, (certificate_of_functional c).
Qed.

Lemma change_identity_ok h f p : pib_ok p -> good_identity h ->
  (forall ii, find_identity h p = Some ii -> identity_impl_ok (pibImpl_ p) h.1 ii -> identity_impl_ok (pibImpl_ p) h.1 (f ii)) ->
  ensures pib_ok p (change_identity h f) (fun _ _ => True).
Proof.
  intros Hp Hh Hf. unfold change_identity. apply ensures_modify; [| easy]. destruct (find_identity h p) as [ii |] eqn:E; [| easy].
  apply (pib_ok_set_identity h p ii); try easy. now apply Hf, (find_identity_some h p ii).
Qed.

Lemma identity_set_default m n d ii : identity_impl_ok m n ii -> (forall k, d = Some k -> good_key k /\ (kh_owner k).1 = n) -> identity_impl_ok m n (set_defaultKey d ii).
Proof. intros [H1 H2 H3 H4 H5 H6] Hd. now split. Qed.

Lemma PibKey_getName_ok k p : pib_ok p -> good_key k -> ensures pib_ok p (PibKey_getName k) (fun n _ => n = kh_name k).
Proof.
  intros Hp Hk. unfold PibKey_getName. apply ensures_lock_key; [easy | easy |]. intros ki _ Hki. apply ensures_ret; [easy | apply Hki].
Qed.

Lemma identity_removeKey_ok h k p : pib_ok p -> good_identity h -> plain k -> ensures pib_ok p (identity_removeKey h k) (fun _ _ => True).
Proof.
  intros Hp Hh Hk. unfold identity_removeKey. apply ensures_lock_identity; [easy | easy |]. intros ii _ Hi.
  apply ensures_bind with (Q := fun _ _ => True); [| intros; now apply keys_remove_ok].
  destruct (defaultKey_ ii) as [d |] eqn:Ed; [| now apply ensures_ret].
  eapply ensures_bind; [apply PibKey_getName_ok; [easy | now apply (io_default _ _ _ Hi)] |]. intros name p' Hp' _.
  destruct (name_equals name k); [| now apply ensures_ret]. apply change_identity_ok; [easy | easy |]. intros. now apply identity_set_default.
Qed.

Lemma on_mem_default_ok h k p : pib_ok p -> plain k -> key_of k h ->
  ensures pib_ok p (on_mem (setDefaultKeyOfIdentity h k)) (fun _ _ => True).
Proof.
  intros Hp Hk Hkn. pose proof (setDefaultKeyOfIdentity_ok h k _ (po_mem p Hp) Hk Hkn) as Hm. revert Hm.
  unfold setDefaultKeyOfIdentity, on_mem, ensures, state_of, result_of. rewrite act_get_bind. destruct (negb _); cbn; intros Hm;
    (split; [now apply pib_ok_memory | easy]).
Qed.

(** The names of keys that are found are of the identity. *)
Lemma is_key_of h k kh p : pib_ok p -> is_key h k kh p -> key_of k h.1.
Proof.
  intros Hp (<- & <- & Hg & ki & E). destruct (find_key_some kh p ki Hp Hg E) as (_ & _ & _ & _ & _ & Hk). now apply (ko_of _ _ _ _ Hk).
Qed.

Lemma identity_setDefaultKey_ok h k p : pib_ok p -> good_identity h -> plain k ->
  ensures pib_ok p (identity_setDefaultKey h k) (fun kh _ => good_key kh /\ (kh_owner kh).1 = h.1).
Proof.
  intros Hp Hh Hk. unfold identity_setDefaultKey. apply ensures_lock_identity; [easy | easy |]. intros ii _ Hi. rewrite (io_name _ _ _ Hi).
  eapply ensures_bind; [now apply keys_get_ok |]. intros kh p1 Hp1 Hkh. pose proof (is_key_of _ _ _ _ Hp1 Hkh) as Hkn. destruct Hkh as (Ho & _ & Hg & _).
  apply ensures_bind with (Q := fun _ _ => True).
  { apply change_identity_ok; [easy | easy |]. intros. apply identity_set_default; [easy |]. intros ? [= <-]. now rewrite Ho. }
  intros [] p2 Hp2 _. eapply ensures_bind; [now apply on_mem_default_ok |]. intros [] p3 Hp3 _. apply ensures_ret; [easy | now rewrite Ho].
Qed.

Lemma identity_getDefaultKey_ok h p : pib_ok p -> good_identity h -> ensures pib_ok p (identity_getDefaultKey h) (fun kh _ => good_key kh /\ (kh_owner kh).1 = h.1).
Proof.
  intros Hp Hh. unfold identity_getDefaultKey. apply ensures_lock_identity; [easy | easy |]. intros ii _ Hi.
  destruct (defaultKey_ ii) as [d |] eqn:Ed; [apply ensures_ret; [easy | now apply (io_default _ _ _ Hi)] |]. rewrite (io_name _ _ _ Hi).
  apply ensures_bind with (Q := fun k p' => p' = p /\ plain k).
  { apply ensures_get, ensures_returns; [easy |]. unfold getDefaultKeyOfIdentity. intros k Hk. split; [easy |].
    destruct (map_find _ h.1) as [k' |] eqn:E; [| easy]. injection Hk as ->.
    apply map_find_elem in E; [| apply (po_mem p Hp) | now apply plain_key_ok].
    now apply (mo_key _ _ _ (po_mem p Hp)), (mo_defaultKey _ _ _ (po_mem p Hp) h.1). }
  intros k p' _ [-> Hk]. eapply ensures_bind; [now apply keys_get_ok |]. intros kh p1 Hp1 (Ho & _ & Hg & _).
  apply ensures_bind with (Q := fun _ _ => True); [| intros [] p2 Hp2 _; apply ensures_ret; [easy | now rewrite Ho]].
  apply change_identity_ok; [easy | easy |]. intros. apply identity_set_default; [easy |]. intros ? [= <-]. now rewrite Ho.
Qed.

(** ** Certificates *)

Lemma change_key_run k f p ii ki : find_identity (kh_owner k) p = Some ii -> find_key k p = Some ki ->
  change_key k f p = (set_identity (set_key (f ki) ii) p, [], Ok tt).
Proof. intros E Ek. unfold change_key, self_modify. now rewrite E, Ek. Qed.

(** A key changes, and the memory for it alone. *)
Lemma pib_ok_change_key k p m' ii ki ki' :
  pib_ok p -> good_key k -> find_key k p = Some ki -> find_identity (kh_owner k) p = Some ii ->
  mem_ok m' -> (forall n, has (mem_identityNames_ m') n <-> has (mem_identityNames_ (pibImpl_ p)) n) ->
  (forall k', has (mem_keys_ m') k' <-> has (mem_keys_ (pibImpl_ p)) k') ->
  (forall k' bits, k' <> kh_name k -> (k', bits) ∈ mem_keys_ m' <-> (k', bits) ∈ mem_keys_ (pibImpl_ p)) ->
  (forall k' c cert, k' <> kh_name k -> certificate_of c k' -> (c, cert) ∈ mem_certificates_ m' <-> (c, cert) ∈ mem_certificates_ (pibImpl_ p)) ->
  key_impl_ok m' (kh_owner k).1 (kh_name k) ki' ->
  pib_ok (set_pibImpl m' (set_identity (set_key ki' ii) p)).
Proof.
  intros Hp Hg Ek E Hm' Hids Hkeys Hbits Hcerts Hki'. destruct (find_key_some k p ki Hp Hg Ek) as (ii' & E' & _ & _ & Hi & Hki).
  assert (ii' = ii) as -> by congruence. pose proof (ko_of _ _ _ _ Hki) as [_ Hkn]. pose proof (plain_key_ok _ (proj2 Hg)) as Hkk.
  unfold set_pibImpl, set_identity, set_identities. cbn. rewrite (io_name _ _ _ Hi). apply pib_ok_change; try easy.
  - intros n Hne. assert (Hk : forall k', key_of k' n -> k' <> kh_name k) by (intros k' Hk' ->; now apply Hne, (key_of_functional (kh_name k))).
    split; eauto.
  - destruct Hi as [H1 H2 [H3 H3'] H4 H5 H6]. split; cbn; rewrite ?(ko_name _ _ _ _ Hki'); try easy.
    + now apply Hids.
    + split; [easy |]. intros k'. now rewrite H3', Hkeys.
    + now apply map_set_ok.
    + intros k' ki1 [[= -> ->] | [Hx Hne]]%map_set_elem; [easy | | easy | easy]. cbn in Hne.
      apply (key_impl_ok_agree (pibImpl_ p)); [auto | intros bits; now apply Hbits | intros c cert; now apply Hcerts].
Qed.

Lemma change_key_ok k f p : pib_ok p -> good_key k ->
  (forall ki, find_key k p = Some ki -> key_impl_ok (pibImpl_ p) (kh_owner k).1 (kh_name k) ki -> key_impl_ok (pibImpl_ p) (kh_owner k).1 (kh_name k) (f ki)) ->
  ensures pib_ok p (change_key k f) (fun _ _ => True).
Proof.
  intros Hp Hg Hf. unfold change_key. apply ensures_modify; [| easy]. destruct (find_identity (kh_owner k) p) as [ii |] eqn:E; [| easy].
  destruct (find_key k p) as [ki |] eqn:Ek; [| easy]. destruct (find_key_some k p ki Hp Hg Ek) as (_ & _ & _ & _ & _ & Hki).
  replace (set_identity _ p) with (set_pibImpl (pibImpl_ p) (set_identity (set_key (f ki) ii) p)) by easy.
  apply (pib_ok_change_key k p _ ii ki); try easy; [apply Hp | auto].
Qed.

Lemma find_key_after k p ii ki ki' :
  pib_ok p -> good_key k -> find_key k p = Some ki -> find_identity (kh_owner k) p = Some ii ->
  ki_keyName_ ki' = kh_name k -> ki_number ki' = kh_number k -> let p' := set_identity (set_key ki' ii) p in
  find_identity (kh_owner k) p' = Some (set_key ki' ii) /\ find_key k p' = Some ki' /\
  forall ki2, ki_keyName_ ki2 = kh_name k -> set_identity (set_key ki2 (set_key ki' ii)) p' = set_identity (set_key ki2 ii) p.
Proof.
  intros Hp Hg Ek E Hn Hnum p'. destruct (find_key_some k p ki Hp Hg Ek) as (ii' & E' & _ & _ & Hi & Hki).
  assert (ii' = ii) as -> by congruence. destruct (find_identity_some _ p ii Hp (proj1 Hg) E) as (_ & Hni & Hnumi & _).
  pose proof (plain_key_ok _ (proj2 Hg)) as Hkk.
  assert (E1 : find_identity (kh_owner k) p' = Some (set_key ki' ii)) by (apply find_identity_set; [apply Hp | apply Hg | easy | easy]).
  split; [easy |]. split.
  - unfold find_key. rewrite E1. cbn. rewrite Hn, map_find_set by (easy || apply Hi). cbn. rewrite Hnum. now rewrite Nat.eqb_refl.
  - intros ki2 Hn2. unfold p', set_identity, set_identities, set_key. cbn. rewrite Hn, Hn2, Hni, (map_set_twice (ii_keys_ ii)) by (easy || apply Hi).
    now rewrite map_set_twice by (apply Hp || exact (plain_key_ok _ (proj1 Hg))).
Qed.

(** Adding a certificate keeps what the key has when its public key is the one of the key. *)
Lemma certificates_add_ok k cert kn bits p :
  pib_ok p -> good_key k -> good_certificate cert kn -> getPublicKey cert = Ok bits -> has_bits bits k p ->
  ensures pib_ok p (certificates_add k cert) (fun _ p' => has_bits bits k p').
Proof.
  intros Hp Hg Hc Hb (_ & ki0 & Ek & Hki0). unfold certificates_add. apply ensures_lock_key; [easy | easy |]. intros ki Ek' Hki.
  assert (ki0 = ki) as -> by congruence. pose proof (good_certificate_name cert kn Hc) as [_ Hkn]. rewrite (gc_key _ _ Hc).
  apply ensures_returns_bind; [easy |]. intros ? [= <-]. rewrite (ko_name _ _ _ _ Hki). destruct (name_equals (kh_name k) kn) eqn:En; cbn [negb]; cycle 1.
  { now apply ensures_throw. }
  apply plain_equals in En as <-; [| apply Hg | easy].
  destruct (find_key_some k p ki Hp Hg Ek) as (ii & E & _ & Hnum & Hi & _).
  apply (ensures_silent _ _ _ _ _ _ _ (change_key_run _ _ _ _ _ E Ek)). rewrite (good_certificate_copy _ _ Hc).
  set (ki1 := set_ki_certificates _ _ ki). destruct (find_key_after k p ii ki ki1 Hp Hg Ek E (ko_name _ _ _ _ Hki) Hnum) as (E1 & Ek1 & Hset).
  eapply ensures_silent; [reflexivity |].
  apply (ensures_silent _ _ _ _ _ _ _ (change_key_run _ _ _ _ _ E1 Ek1)). set (ki2 := set_ki_certificates _ _ ki1).
  rewrite (Hset ki2 (ko_name _ _ _ _ Hki)).
  destruct (find_key_after k p ii ki ki2 Hp Hg Ek E (ko_name _ _ _ _ Hki) Hnum) as (_ & Ek2 & _).
  destruct (good_certificate_bits cert _ Hc) as (bits' & Hb1 & Hb2). assert (bits' = bits) as -> by congruence.
  destruct (mem_addCertificate_run cert _ bits (pibImpl_ p) Hc Hb2) as (i & Hki' & Em).
  pose proof (key_of_functional _ _ _ Hki' (proj2 (ko_of _ _ _ _ Hki))) as ->.
  pose proof (mem_addCertificate_ok cert _ (pibImpl_ p) (po_mem p Hp) Hc) as Hm'. rewrite Em in Hm'. unfold state_of in Hm'. cbn [fst snd] in Hm'.
  eapply ensures_run; [unfold on_mem; cbn [pibImpl_ set_identity set_identities]; now rewrite Em | | intros _ _; split; [easy |]; now exists ki2].
  pose proof (plain_key_ok _ (proj2 Hg)) as Hkk. pose proof (plain_key_ok _ (gc_plain _ _ Hc)) as Hcc.
  destruct (mem_addIdentity_rest (kh_owner k).1 (pibImpl_ p)) as (_ & E2 & _ & E4 & _).
  apply (pib_ok_change_key k p _ ii ki); try easy; cbn; rewrite ?E2.
  - intros n. unfold mem_addKey. cbn. rewrite (mem_addIdentity_ids _ _ n (po_mem p Hp) (proj1 Hg)). pose proof (io_has _ _ _ Hi). naive_solver.
  - intros k'. rewrite has_set by (easy || apply (po_mem p Hp)). pose proof (ko_bits _ _ _ _ Hki). unfold has. naive_solver.
  - intros k' b Hne. rewrite map_set_elem by (easy || apply (po_mem p Hp)). naive_solver.
  - intros k' c cert' Hne Hck. rewrite map_set_elem by (easy || apply (po_mem p Hp)). split; [intros [[= -> ->] | ?]; [| tauto] |].
    + destruct Hne. apply (certificate_of_functional _ _ _ Hck), good_certificate_of, Hc.
    + intros Hx. right. split; [easy |]. cbn. intros ->. destruct Hne. apply (certificate_of_functional _ _ _ Hck), good_certificate_of, Hc.
  - pose proof (proj2 (good_certificate_of _ _ Hc)) as Hof. destruct Hki as [H1 H2 H3 H4 H5 [H6 H6'] [H7 H7']].
    split; cbn; rewrite ?E2; try easy.
    + apply map_set_elem; [apply (po_mem p Hp) | easy | left; congruence].
    + split; [now apply map_set_ok |]. intros c. unfold set_insert. rewrite !has_set by (easy || apply (po_mem p Hp)). rewrite H6'. naive_solver.
    + split; [now apply map_set_ok |]. intros c cert'. rewrite !map_set_elem by (easy || apply (po_mem p Hp)). intros [[= -> ->] | [Hx Hne]]; [tauto |].
      destruct (H7' c cert' Hx). tauto.
Qed.

Lemma certificate_of_plain c k : plain c -> certificate_of c k -> plain k.
Proof.
  unfold certificate_of, extractKeyNameFromCertName. intros Hc. destruct (isValidName c) eqn:E; [| easy]. intros [= <-].
  apply plain_prefix; [easy |]. unfold KEY_ID_OFFSET, isValidName, isEncapsulatedX509, MIN_CERT_NAME_LENGTH in *.
  destruct (Z.eqb_spec (zlen c) 2); [lia |]. cbn in E. destruct (Z.geb_spec (zlen c) 4); [lia | easy].
Qed.

Lemma check_certificate_name_ok {A} k c p (f : unit -> Op Pib A) Q :
  pib_ok p -> plain k -> plain c -> (certificate_of c k -> ensures pib_ok p (f tt) Q) -> ensures pib_ok p (check_certificate_name k c ≫= f) Q.
Proof.
  intros Hp Hk Hc Hf. apply ensures_bind with (Q := fun _ p' => p' = p /\ certificate_of c k); [| intros [] p' _ [-> ?]; now apply Hf].
  unfold check_certificate_name. destruct (negb (isValidName c)); [now apply ensures_throw |].
  apply ensures_returns_bind; [easy |]. intros n Hn. destruct (name_equals n k) eqn:En; cbn [negb]; [| now apply ensures_throw].
  apply plain_equals in En as ->; [| now apply (certificate_of_plain c) | easy]. now apply ensures_ret.
Qed.

Lemma certificates_remove_ok k c p : pib_ok p -> good_key k -> plain c -> ensures pib_ok p (certificates_remove k c) (fun _ _ => True).
Proof.
  intros Hp Hg Hc. pose proof (plain_key_ok c Hc) as Hcc. unfold certificates_remove. apply ensures_lock_key; [easy | easy |]. intros ki Ek Hki.
  rewrite (ko_name _ _ _ _ Hki). apply check_certificate_name_ok; [easy | apply Hg | easy |]. intros Hck.
  destruct (find_key_some k p ki Hp Hg Ek) as (ii & E & _ & _ & _ & _).
  apply (ensures_silent _ _ _ _ _ _ _ (change_key_run _ _ _ _ _ E Ek)). set (ki' := set_ki_certificates _ _ ki).
  destruct (mem_removeCertificate_run c (kh_name k) (pibImpl_ p) (po_mem p Hp) Hc Hck (proj2 Hg)) as (m' & Em & Hm' & (S1 & S2 & S3 & S4 & S5 & S6) & Hcerts).
  eapply ensures_run; [unfold on_mem; cbn [pibImpl_ set_identity set_identities]; now rewrite Em | | easy].
  apply (pib_ok_change_key k p m' ii ki ki'); try easy; rewrite ?S4, ?S6; try easy.
  - intros k' c' cert Hne Hck'. rewrite Hcerts, list_elem_of_singleton. split; [tauto |]. intros Hx. split; [easy |]. intros ->.
    now apply Hne, (certificate_of_functional c).
  - destruct Hki as [H1 H2 H3 H4 H5 [H6 H6'] [H7 H7']]. split; rewrite ?S6; cbn; try easy.
    + split; [now apply map_erase_ok |]. intros c'. rewrite has_erase, H6' by easy. unfold has. setoid_rewrite Hcerts.
      setoid_rewrite list_elem_of_singleton. naive_solver.
    + split; [now apply map_erase_ok |]. intros c' cert [Hx Hne]%map_erase_elem; [| easy | easy]. rewrite Hcerts, list_elem_of_singleton.
      destruct (H7' c' cert Hx). tauto.
Qed.

Lemma certificates_get_ok k c p : pib_ok p -> good_key k -> plain c ->
  ensures pib_ok p (certificates_get k c) (fun _ _ => certificate_of c (kh_name k)).
Proof.
  intros Hp Hg Hc. pose proof (plain_key_ok c Hc) as Hcc. unfold certificates_get. apply ensures_lock_key; [easy | easy |]. intros ki Ek Hki.
  destruct (map_find (ki_certificates_ ki) c) as [cert |] eqn:Ef.
  { apply ensures_returns; [easy |]. intros _ _. pose proof (ko_certificates _ _ _ _ Hki) as [H1 H2].
    apply map_find_elem in Ef; [| easy | easy]. now destruct (H2 c cert Ef). }
  rewrite (ko_name _ _ _ _ Hki). apply check_certificate_name_ok; [easy | apply Hg | easy |]. intros Hck.
  apply ensures_bind with (Q := fun cert p' => p' = p /\ (c, cert) ∈ mem_certificates_ (pibImpl_ p)).
  { apply ensures_get, ensures_returns; [easy |]. unfold mem_getCertificate. intros cert Hx. split; [easy |].
    destruct (map_find (mem_certificates_ (pibImpl_ p)) c) as [cert' |] eqn:E; [| easy]. apply copy_same in Hx as ->. apply map_find_elem in E; [easy | apply (po_mem p Hp) | easy]. }
  intros cert p' _ [-> Hin]. eapply ensures_bind; [| intros [] p' Hp' _; now apply ensures_returns].
  apply change_key_ok; [easy | easy |]. intros ki' _ [H1 H2 H3 H4 H5 H6 [H7 H7']]. split; cbn; try easy.
  split; [now apply map_set_ok |]. intros c' cert'. rewrite map_set_elem by easy. intros [[= -> ->] | [Hx _]]; [easy | auto].
Qed.

Lemma key_set_default m n k d ki : key_impl_ok m n k ki -> key_impl_ok m n k (set_defaultCertificate d ki).
Proof. intros [H1 H2 H3 H4 H5 H6 H7]. now split. Qed.

Lemma key_removeCertificate_ok k c p : pib_ok p -> good_key k -> plain c -> ensures pib_ok p (key_removeCertificate k c) (fun _ _ => True).
Proof.
  intros Hp Hg Hc. unfold key_removeCertificate. apply ensures_lock_key; [easy | easy |]. intros ki _ _.
  apply ensures_bind with (Q := fun _ _ => True); [| intros; now apply certificates_remove_ok].
  destruct (defaultCertificate_ ki); [| now apply ensures_ret]. destruct (name_equals _ c); [| now apply ensures_ret].
  apply change_key_ok; [easy | easy |]. intros. now apply key_set_default.
Qed.

Lemma key_setDefaultCertificate_ok k c p : pib_ok p -> good_key k -> plain c -> ensures pib_ok p (key_setDefaultCertificate k c) (fun _ _ => True).
Proof.
  intros Hp Hg Hc. unfold key_setDefaultCertificate. apply ensures_lock_key; [easy | easy |]. intros ki _ Hki. rewrite (ko_name _ _ _ _ Hki).
  eapply ensures_bind; [now apply certificates_get_ok |]. intros cert p1 Hp1 Hck.
  apply ensures_bind with (Q := fun _ _ => True); [apply change_key_ok; [easy | easy |]; intros; now apply key_set_default |]. intros [] p2 Hp2 _.
  apply ensures_bind with (Q := fun _ _ => True); [| intros; now apply ensures_ret].
  pose proof (setDefaultCertificateOfKey_ok (kh_name k) c _ (po_mem p2 Hp2) (proj2 Hg) Hc Hck) as Hm. revert Hm.
  unfold setDefaultCertificateOfKey, on_mem, ensures, state_of, result_of. rewrite act_get_bind. destruct (negb _); cbn; intros Hm;
    (split; [now apply pib_ok_memory | easy]).
Qed.

Lemma key_getDefaultCertificate_ok k p : pib_ok p -> good_key k -> ensures pib_ok p (key_getDefaultCertificate k) (fun _ _ => True).
Proof.
  intros Hp Hg. unfold key_getDefaultCertificate. apply ensures_lock_key; [easy | easy |]. intros ki _ _.
  destruct (defaultCertificate_ ki); [now apply ensures_ret |].
  apply ensures_bind with (Q := fun _ p' => pib_ok p'); [now apply ensures_get, ensures_returns |]. intros cert p' Hp' _.
  eapply ensures_bind; [apply change_key_ok; [easy | easy |]; intros; now apply key_set_default |]. intros [] p2 Hp2 _. now apply ensures_ret.
Qed.

(** The containers then say that they are consistent. *)
Lemma same_names_eq (a b : NameSet) : a = b -> same_names a b = true.
Proof. intros ->. unfold same_names. now apply bool_decide_eq_true. Qed.

Lemma pib_ok_consistent p : pib_ok p ->
  identities_isConsistent p = true /\
  (forall n ii, (n, ii) ∈ pib_identities_ p -> keys_isConsistent ii p = Ok true) /\
  (forall n ii k ki, (n, ii) ∈ pib_identities_ p -> (k, ki) ∈ ii_keys_ ii -> certificates_isConsistent ki p = Ok true).
Proof.
  intros Hp. pose proof (po_names p Hp) as [Hn1 Hn2]. split; [| split].
  - apply same_names_eq. apply nameset_ext; [easy | apply (po_mem p Hp) | easy].
  - intros n ii Hx. pose proof (po_identity p Hp n ii Hx) as Hi. unfold keys_isConsistent. rewrite (io_name _ _ _ Hi).
    destruct (getKeysOfIdentity_spec n _ (po_mem p Hp) (po_plain p n Hp (io_has _ _ _ Hi))) as (names & -> & Hok & Hnames).
    cbn. f_equal. apply same_names_eq, nameset_ext; [apply Hi | easy |]. intros k. rewrite Hnames. apply Hi.
  - intros n ii k ki Hx Hkx. pose proof (io_key _ _ _ (po_identity p Hp n ii Hx) k ki Hkx) as Hki. unfold certificates_isConsistent.
    rewrite (ko_name _ _ _ _ Hki). destruct (getCertificatesOfKey_spec k _ (po_mem p Hp) (proj1 (ko_of _ _ _ _ Hki))) as (names & -> & Hok & Hnames).
    cbn. f_equal. apply same_names_eq, nameset_ext; [apply Hki | easy |]. intros c. rewrite Hnames. apply Hki.
Qed.
End Containers.
