(* ===== verification/KeyChain.v ===== *)
(** * The key chain

    [Tpm] with the back end in memory (src/security/tpm/tpm.cpp, tpm-back-end.cpp, tpm-back-end-memory.cpp),
    [SigningInfo] (signing-info.cpp), [KeyChain] (key-chain.cpp) and [CommandInterestSigner] over the PIB of Pib.v. Private
    keys, which are objects of libcrypto, and random numbers are parameters; the clock gives whole milliseconds. *)

From stdpp Require Import base list numbers option strings.
From Stdlib Require Import ZArith Lia.
From S2P Require Import Prelude Order Actions Encoder Name NameUri ValidityPeriod ChangeCounter Data TlvData Interest WireFormat Certificates NameMap Pib.
Open Scope Z_scope.

Inductive KeyIdType := KEY_ID_TYPE_USER_SPECIFIED | KEY_ID_TYPE_SHA256 | KEY_ID_TYPE_RANDOM.

#[export] Instance KeyIdType_eq_dec : EqDecision KeyIdType.
Proof. solve_decision. Defined.
#[export] Instance KeyType_eq_dec : EqDecision KeyType.
Proof. solve_decision. Defined.

(** The type is [None] for AES, which the TPM does not support. *)
Record KeyParams := mkKeyParams {
  kp_keyType_ : option KeyType;
  kp_size_ : Z;
  keyIdType_ : KeyIdType;
  keyId_ : Component
}.

(** The constructors of [KeyParams]. *)
Definition KeyParams_new (keyType : option KeyType) (size : Z) (keyIdType : KeyIdType) : result exn KeyParams :=
  if bool_decide (keyIdType = KEY_ID_TYPE_USER_SPECIFIED) then Err (RuntimeError "KeyParams: KeyIdType is USER_SPECIFIED")
  else Ok (mkKeyParams keyType size keyIdType (generic [])).
Definition KeyParams_with_keyId (keyType : option KeyType) (size : Z) (keyId : Component) : result exn KeyParams :=
  if zlen (value_ keyId) =? 0 then Err (RuntimeError "KeyParams: keyId is empty")
  else Ok (mkKeyParams keyType size KEY_ID_TYPE_USER_SPECIFIED keyId).

(** [TpmPrivateKey], and the random numbers: [generateRandomBytes] of 8 bytes is called again and again. *)
Class PrivateKeys := {
  PrivateKey : Type;
  generatePrivateKey : KeyParams -> result exn PrivateKey;
  derivePublicKey : PrivateKey -> result exn (list Z);
  private_sign : PrivateKey -> list Z -> result exn (list Z);
  private_decrypt : PrivateKey -> list Z -> result exn (list Z);
  export_key : PrivateKey -> option (list Z) -> result exn (list Z);
  import_key : list Z -> option (list Z) -> result exn PrivateKey;
  random_bytes : nat -> list Z;
  random_tries : nat;
  hmac_sha256 : forall key data : list Z, list Z
}.

(** ** Tpm *)

Section Tpm.
Context `{Crypto} `{PrivateKeys}.

Record TpmKeyHandle := mkTpmKeyHandle { th_keyName_ : Name; th_key_ : PrivateKey }.

(** [Tpm] with its handles, and the keys of the back end; and how many random numbers were taken. *)
Record Tpm := mkTpm {
  tpm_scheme_ : list Z;
  tpm_location_ : list Z;
  tpm_handles_ : NameMap TpmKeyHandle;
  backEnd_keys_ : NameMap PrivateKey;
  random_count : nat
}.

Definition Tpm_new (scheme location : list Z) (keys : NameMap PrivateKey) : Tpm := mkTpm scheme location [] keys 0.

Definition set_handles (handles : NameMap TpmKeyHandle) (t : Tpm) : Tpm :=
  mkTpm (tpm_scheme_ t) (tpm_location_ t) handles (backEnd_keys_ t) (random_count t).
Definition set_backEnd (keys : NameMap PrivateKey) (t : Tpm) : Tpm :=
  mkTpm (tpm_scheme_ t) (tpm_location_ t) (tpm_handles_ t) keys (random_count t).

Definition Tpm_Error : string := "Tpm::Error".
Definition BackEnd_Error : string := "TpmBackEnd::Error".
Definition throws {S A} (class what : string) : Op S A := throw_exn (Exception class what).

Definition getTpmLocator (t : Tpm) : list Z := tpm_scheme_ t ++ 58 :: tpm_location_ t.

Definition tpm_hasKey (keyName : Name) (t : Tpm) : bool := has_name (backEnd_keys_ t) keyName.

(** [findKey]: the handle is kept. *)
Definition findKey (keyName : Name) : Op Tpm (option TpmKeyHandle) :=
  t ← self_get;
  match map_find (tpm_handles_ t) keyName with
  | Some handle => mret (Some handle)
  | None =>
      match map_find (backEnd_keys_ t) keyName with
      | Some key =>
          let handle := mkTpmKeyHandle [] key in
          _ ← self_modify (fun t => set_handles (map_set (tpm_handles_ t) keyName handle) t);
          mret (Some handle)
      | None => mret None
      end
  end.

(** A key that is not found gives a null blob. *)
Definition with_handle (keyName : Name) (f : PrivateKey -> result exn (list Z)) : Op Tpm Blob :=
  handle ← findKey keyName;
  match handle with
  | Some handle => bytes ← returns (f (th_key_ handle)); mret (Some bytes)
  | None => mret None
  end.
Definition tpm_getPublicKey (keyName : Name) : Op Tpm Blob := with_handle keyName derivePublicKey.
Definition tpm_sign (data : list Z) (keyName : Name) : Op Tpm Blob := with_handle keyName (fun key => private_sign key data).
Definition tpm_decrypt (cipherText : list Z) (keyName : Name) : Op Tpm Blob :=
  with_handle keyName (fun key => private_decrypt key cipherText).

(** The loop that takes random key ids until there is no key with one. *)
Fixpoint random_keyId (tries : nat) (identityName : Name) : Op Tpm Component :=
  match tries with
  | O => throw_exn (Failed OutOfFuel)
  | S tries =>
      t ← self_get;
      let keyId := generic (random_bytes (random_count t)) in
      _ ← self_modify (fun t => mkTpm (tpm_scheme_ t) (tpm_location_ t) (tpm_handles_ t) (backEnd_keys_ t)
                                  (S (random_count t)));
      if tpm_hasKey (constructKeyName identityName keyId) t then random_keyId tries identityName else mret keyId
  end.

(** [TpmBackEnd::createKey], to the parameters with their key id. *)
Definition prepare_keyId (identityName : Name) (params : KeyParams) : Op Tpm KeyParams :=
  match keyIdType_ params with
  | KEY_ID_TYPE_USER_SPECIFIED =>
      t ← self_get;
      if tpm_hasKey (constructKeyName identityName (keyId_ params)) t then throws Tpm_Error "Key already exists"
      else mret params
  | KEY_ID_TYPE_SHA256 => mret params
  | KEY_ID_TYPE_RANDOM =>
      keyId ← random_keyId random_tries identityName;
      mret (mkKeyParams (kp_keyType_ params) (kp_size_ params) (keyIdType_ params) keyId)
  end.

(** [setKeyName]. *)
Definition new_keyName (key : PrivateKey) (identityName : Name) (params : KeyParams) : result exn Name :=
  keyId ← match keyIdType_ params with
          | KEY_ID_TYPE_USER_SPECIFIED => Ok (keyId_ params)
          | KEY_ID_TYPE_SHA256 => publicKey ← derivePublicKey key; mret (generic (digest_sha256 publicKey))
          | KEY_ID_TYPE_RANDOM =>
              if zlen (value_ (keyId_ params)) =? 0 then
                Err (RuntimeError "setKeyName: The keyId is empty for type RANDOM")
              else Ok (keyId_ params)
          end;
  mret (constructKeyName identityName keyId).

(** [TpmBackEndMemory::doCreateKey]. *)
Definition doCreateKey (identityName : Name) (params : KeyParams) : Op Tpm TpmKeyHandle :=
  key ← returns (generatePrivateKey params);
  keyName ← returns (new_keyName key identityName params);
  _ ← self_modify (fun t => set_backEnd (map_set (backEnd_keys_ t) keyName key) t);
  mret (mkTpmKeyHandle keyName key).

Definition tpm_createKey (identityName : Name) (params : KeyParams) : Op Tpm Name :=
  match kp_keyType_ params with
  | Some _ =>
      params ← prepare_keyId identityName params;
      keyHandle ← doCreateKey identityName params;
      let keyName := th_keyName_ keyHandle in
      _ ← self_modify (fun t => set_handles (map_set (tpm_handles_ t) keyName keyHandle) t);
      mret keyName
  | None => throws Tpm_Error "createKey: Unsupported key type"
  end.

Definition tpm_deleteKey (keyName : Name) : Op Tpm unit :=
  _ ← self_modify (fun t => set_handles (map_erase (tpm_handles_ t) keyName) t);
  self_modify (fun t => set_backEnd (map_erase (backEnd_keys_ t) keyName) t).

(** [exportKey] and [importKey] of the back end; without a password the key is not encrypted. *)
Definition exportPrivateKey (keyName : Name) (password : option (list Z)) : Op Tpm (list Z) :=
  t ← self_get;
  match map_find (backEnd_keys_ t) keyName with
  | Some key => returns (export_key key password)
  | None => throws BackEnd_Error "Key does not exist"
  end.

Definition importPrivateKey (keyName : Name) (pkcs8 : list Z) (password : option (list Z)) : Op Tpm unit :=
  t ← self_get;
  if tpm_hasKey keyName t then throws BackEnd_Error "Key already exists"
  else
    key ← returns (match import_key pkcs8 password with
                   | Err (Exception class what) =>
                       if bool_decide (class = "TpmPrivateKey::Error") then Err (Exception BackEnd_Error "Cannot import private key")
                       else Err (Exception class what)
                   | r => r
                   end);
    self_modify (fun t => set_backEnd (map_set (backEnd_keys_ t) keyName key) t).
End Tpm.

(** ** SigningInfo *)

Inductive SignerType := SIGNER_TYPE_NULL | SIGNER_TYPE_ID | SIGNER_TYPE_KEY | SIGNER_TYPE_CERT | SIGNER_TYPE_SHA256.

(** The only digest algorithm is SHA-256. *)
Record SigningInfo := mkSigningInfo {
  si_type_ : SignerType;
  si_name_ : Name;
  si_identity_ : option PibIdentity;
  si_key_ : option PibKey;
  si_validityPeriod_ : Period
}.

Definition digestSha256Identity : Name :=
  [generic (chars "localhost"); generic (chars "identity"); generic (chars "digest-sha256")].

Definition SigningInfo_new (signerType : SignerType) (signerName : Name) : SigningInfo :=
  mkSigningInfo signerType signerName None None no_period.
Definition setSigningIdentity (identityName : Name) : SigningInfo := SigningInfo_new SIGNER_TYPE_ID identityName.
Definition setSigningKeyName (keyName : Name) : SigningInfo := SigningInfo_new SIGNER_TYPE_KEY keyName.
Definition setSigningCertificateName (name : Name) : SigningInfo := SigningInfo_new SIGNER_TYPE_CERT name.
Definition setSha256Signing : SigningInfo := SigningInfo_new SIGNER_TYPE_SHA256 [].

(** With an object, whose name is read. *)
Definition setPibIdentity (identity : PibIdentity) : Op Pib SigningInfo :=
  name ← PibIdentity_getName identity; mret (mkSigningInfo SIGNER_TYPE_ID name (Some identity) None no_period).
Definition setPibKey (key : PibKey) : Op Pib SigningInfo :=
  name ← PibKey_getName key; mret (mkSigningInfo SIGNER_TYPE_KEY name None (Some key) no_period).

Definition si_setValidityPeriod (period : Period) (info : SigningInfo) : SigningInfo :=
  mkSigningInfo (si_type_ info) (si_name_ info) (si_identity_ info) (si_key_ info) period.

(** The constructor from a string, and [toString]. *)
Definition SigningInfo_of_string (signingString : list Z) : result exn SigningInfo :=
  match signingString with
  | [] => Ok (SigningInfo_new SIGNER_TYPE_NULL [])
  | _ =>
      match split_at 58 signingString with
      | (_, None) => Err (InvalidArgument "Invalid signing string cannot represent SigningInfo")
      | (scheme, Some nameArg) =>
          if bool_decide (scheme = chars "id") then
            if bool_decide (nameArg = toUri digestSha256Identity false) then Ok setSha256Signing
            else name ← name_set nameArg; mret (setSigningIdentity name)
          else if bool_decide (scheme = chars "key") then name ← name_set nameArg; mret (setSigningKeyName name)
          else if bool_decide (scheme = chars "cert") then name ← name_set nameArg; mret (setSigningCertificateName name)
          else Err (InvalidArgument "Invalid signing string scheme")
      end
  end.

Definition SigningInfo_toString (info : SigningInfo) : list Z :=
  match si_type_ info with
  | SIGNER_TYPE_NULL => []
  | SIGNER_TYPE_ID => chars "id:" ++ toUri (si_name_ info) false
  | SIGNER_TYPE_KEY => chars "key:" ++ toUri (si_name_ info) false
  | SIGNER_TYPE_CERT => chars "cert:" ++ toUri (si_name_ info) false
  | SIGNER_TYPE_SHA256 => chars "id:" ++ toUri digestSha256Identity false
  end.

(** ** KeyChain *)

Section KeyChain.
Context `{Crypto} `{PrivateKeys}.

Record KeyChain := mkKeyChain { kc_pib_ : Pib; kc_tpm_ : Tpm }.

Definition on_pib {A} (m : Op Pib A) : Op KeyChain A := fun k =>
  let '(pib, calls, r) := m (kc_pib_ k) in (mkKeyChain pib (kc_tpm_ k), calls, r).
Definition on_tpm {A} (m : Op Tpm A) : Op KeyChain A := fun k =>
  let '(tpm, calls, r) := m (kc_tpm_ k) in (mkKeyChain (kc_pib_ k) tpm, calls, r).

Definition KeyChain_Error : string := "KeyChain::Error".
Definition InvalidSigningInfoError : string := "InvalidSigningInfoError".
Definition signing_error {S A} (what : string) : Op S A := throws InvalidSigningInfoError what.

(** [try { m } catch (const Pib::Error&) { h }] *)
Definition catch_pib {S A} (m : Op S A) (h : Op S A) : Op S A :=
  catch m (fun e => match e with
                    | Exception class _ => if bool_decide (class = Pib_Error) then h else throw_exn e
                    | _ => throw_exn e
                    end).

Definition catch_all {S A} (m : Op S A) (h : Op S A) : Op S A := try_catch m h.

(** *** Signing *)

(** A new signature of the type for a key, with the name of the key and the validity period, whose times are first made
    time points. *)
Definition key_signature (keyType : KeyType) (keyName : Name) (period : Period) : result exn SignatureValue :=
  period ← (if ValidityPeriod_hasPeriod period then
              notBefore ← fromMilliseconds (period.1 * 1000000);
              notAfter ← fromMilliseconds (period.2 * 1000000);
              mret (ValidityPeriod_setPeriod (notBefore / 1000000) (notAfter / 1000000))
            else Ok no_period);
  mret (match keyType with
        | KEY_TYPE_RSA => Sha256WithRsaSignature None
        | KEY_TYPE_EC => Sha256WithEcdsaSignature None
        end, ((mkKeyLocatorFields KEYNAME None, keyName), period)).

Definition digest_signature : SignatureValue := (DigestSha256Signature None, (value_of KeyLocator_new, no_period)).

(** What the signing info names: nothing, an identity or a key. *)
Definition find_signer (params : SigningInfo) : Op Pib (option (PibIdentity + PibKey)) :=
  match si_type_ params with
  | SIGNER_TYPE_NULL =>
      catch_pib (identity ← Pib_getDefaultIdentity; mret (Some (inl identity))) (mret None)
  | SIGNER_TYPE_ID =>
      match si_identity_ params with
      | Some identity => mret (Some (inl identity))
      | None => catch_pib (identity ← identities_get (si_name_ params); mret (Some (inl identity)))
                  (signing_error "Signing identity does not exist")
      end
  | SIGNER_TYPE_KEY =>
      match si_key_ params with
      | Some key => mret (Some (inr key))
      | None =>
          identityName ← returns (extractIdentityFromKeyName (si_name_ params));
          catch_pib (identity ← identities_get identityName;
                     key ← keys_get identity (si_name_ params);
                     mret (Some (inr key)))
            (signing_error "Signing key does not exist")
      end
  | SIGNER_TYPE_CERT =>
      identityName ← returns (extractIdentityFromCertName (si_name_ params));
      catch_pib (identity ← identities_get identityName;
                 keyName ← returns (extractKeyNameFromCertName (si_name_ params));
                 key ← keys_get identity keyName;
                 mret (Some (inr key)))
        (signing_error "Signing certificate does not exist")
  | SIGNER_TYPE_SHA256 => mret None
  end.

(** The signature and the name of the key. *)
Definition prepareSignatureInfo (params : SigningInfo) : Op Pib (SignatureValue * Name) :=
  signer ← find_signer params;
  match signer with
  | None => mret (digest_signature, digestSha256Identity)
  | Some signer =>
      key ← match signer with
            | inl identity =>
                catch_pib (identity_getDefaultKey identity)
                  (_ ← PibIdentity_getName identity;
                   signing_error "Signing identity does not have default certificate")
            | inr key => mret key
            end;
      impl ← lock_key key;
      signatureInfo ← returns (key_signature (keyType_ impl) (ki_keyName_ impl) (si_validityPeriod_ params));
      mret (signatureInfo, ki_keyName_ impl)
  end.

(** The private [sign]; the blob is null when the TPM does not have the key. *)
Definition sign_buffer (buffer : list Z) (keyName : Name) : Op KeyChain Blob :=
  if name_equals keyName digestSha256Identity then mret (Some (digest_sha256 buffer))
  else on_tpm (tpm_sign buffer keyName).

Definition with_bits (bits : Blob) (signature : SignatureValue) : SignatureValue :=
  (match signature.1 with
   | Sha256WithRsaSignature _ => Sha256WithRsaSignature bits
   | Sha256WithEcdsaSignature _ => Sha256WithEcdsaSignature bits
   | HmacWithSha256Signature _ => HmacWithSha256Signature bits
   | DigestSha256Signature _ => DigestSha256Signature bits
   | GenericSignature _ info code => GenericSignature bits info code
   end, signature.2).
Definition with_signature (signature : SignatureValue) (data : DataValue) : DataValue :=
  (data_content data, (signature, (data_name data, data_metaInfo data))).

(** [sign] of a Data packet, which then has its encoding. What is left of the packet when this throws is not kept. *)
Definition sign_data (data : DataValue) (params : SigningInfo) : Op KeyChain DataPacket :=
  '(signatureInfo, keyName) ← on_pib (prepareSignatureInfo params);
  let data := with_signature signatureInfo data in
  encoding ← returns (encodeData data);
  bits ← sign_buffer (signed_portion encoding) keyName;
  let data := with_signature (with_bits bits signatureInfo) data in
  encoding ← returns (encodeData data);
  mret (mkDataPacket data (Some encoding)).

Definition with_name (name : Name) (interest : InterestValue) : InterestValue := (interest.1, (name, interest.2.2)).

(** [sign] of an Interest: the signature info and the signature are components of the name. *)
Definition sign_interest (random : list Z) (interest : InterestPacket) (params : SigningInfo) : Op KeyChain InterestPacket :=
  '(signatureInfo, keyName) ← on_pib (prepareSignatureInfo params);
  info ← returns (encodeSignatureInfo signatureInfo);
  let name := append (append (ip_name interest) (generic info)) (generic []) in
  let value := with_name name (ip_value interest) in
  encoding ← returns (encodeInterest true random value (ip_nonce interest));
  bits ← sign_buffer (signed_portion encoding) keyName;
  signature ← returns (encodeSignatureValue (with_bits bits signatureInfo));
  mret (mkInterestPacket (with_name (append (getPrefix name (-1)) (generic signature)) value) (ip_nonce interest) None).

Definition sign_bytes (buffer : list Z) (params : SigningInfo) : Op KeyChain Blob :=
  '(_, keyName) ← on_pib (prepareSignatureInfo params); sign_buffer buffer keyName.

(** *** HMAC *)

Definition signWithHmacWithSha256 (data : DataValue) (key : list Z) : result exn DataPacket :=
  encoding ← encodeData data;
  let data := with_signature (with_bits (Some (hmac_sha256 key (signed_portion encoding))) (data_signature data)) data in
  encoding ← encodeData data;
  mret (mkDataPacket data (Some encoding)).

Definition verify_hmac (key signature buffer : list Z) : bool :=
  (zlen signature =? 32) && bool_decide (signature = hmac_sha256 key buffer).

Definition verifyDataWithHmacWithSha256 (data : DataPacket) (key : list Z) : result exn bool :=
  encoding ← packet_wireEncode data;
  mret (verify_hmac key (signature_bits (data_signature (packet_value data))) (signed_portion encoding)).

Definition signInterestWithHmacWithSha256 (random : list Z) (interest : InterestPacket) (key : list Z) (keyName : Name) :
    result exn InterestPacket :=
  let signature := (HmacWithSha256Signature None, ((mkKeyLocatorFields KEYNAME None, keyName), no_period)) in
  info ← encodeSignatureInfo signature;
  let name := append (append (ip_name interest) (generic info)) (generic []) in
  let value := with_name name (ip_value interest) in
  encoding ← encodeInterest true random value (ip_nonce interest);
  bits ← encodeSignatureValue (with_bits (Some (hmac_sha256 key (signed_portion encoding))) signature);
  mret (mkInterestPacket (with_name (append (getPrefix name (-1)) (generic bits)) value) (ip_nonce interest) None).

Definition verifyInterestWithHmacWithSha256 (random : list Z) (interest : InterestPacket) (key : list Z) : result exn bool :=
  info ← name_get (ip_name interest) (-2);
  value ← name_get (ip_name interest) (-1);
  signature ← decodeSignatureInfoAndValue (value_ info) (value_ value);
  encoding ← interest_packet_wireEncode random interest;
  mret (verify_hmac key (signature_bits (value_of signature)) (signed_portion encoding)).

(** *** Keys and certificates *)

(** The validity of a self-signed certificate: 20 years from now. *)
Definition twenty_years : Z := 20 * 365 * 24 * 3600000.

(** The certificate of [selfSign] before it is signed; [hours(1)] in nanoseconds. *)
Definition unsigned_certificate (certificateName : Name) (publicKey : list Z) : DataValue :=
  (Some publicKey, (digest_signature,
    (certificateName, mkMetaInfoFields (-1000000) ndn_ContentType_KEY (-1) 3600000000000 (generic [])))).

Definition self_signed_name (keyName : Name) (now : Z) : result exn Name :=
  version ← fromVersion (wrap64 now); mret (append (append keyName (generic (chars "self"))) version).

(** [selfSign]; [now] is in milliseconds. *)
Definition selfSign (now : Z) (k : PibKey) : Op KeyChain Certificate :=
  key ← on_pib (lock_key k);
  certificateName ← returns (self_signed_name (ki_keyName_ key) now);
  info ← on_pib (setPibKey k);
  let info := si_setValidityPeriod (ValidityPeriod_setPeriod now (now + twenty_years)) info in
  packet ← sign_data (unsigned_certificate certificateName (keyEncoding_ key)) info;
  let certificate := mkCertificate packet None in
  _ ← on_pib (key_addCertificate k certificate);
  mret certificate.

Definition kc_createKey (now : Z) (identity : PibIdentity) (params : KeyParams) : Op KeyChain PibKey :=
  identityName ← on_pib (PibIdentity_getName identity);
  keyName ← on_tpm (tpm_createKey identityName params);
  publicKey ← on_tpm (tpm_getPublicKey keyName);
  key ← on_pib (keys_add identity (blob_bytes publicKey) keyName);
  _ ← selfSign now key;
  mret key.

Definition createIdentityV2 (now : Z) (identityName : Name) (params : KeyParams) : Op KeyChain PibIdentity :=
  id ← on_pib (identities_add identityName);
  key ← catch_pib (on_pib (identity_getDefaultKey id)) (kc_createKey now id params);
  _ ← catch_pib (_ ← on_pib (key_getDefaultCertificate key); mret tt) (_ ← selfSign now key; mret tt);
  mret id.

(** The TPM loses the keys that the identity object has loaded. *)
Definition deleteIdentity (identity : PibIdentity) : Op KeyChain unit :=
  identityName ← on_pib (PibIdentity_getName identity);
  impl ← on_pib (lock_identity identity);
  _ ← for_each (fun keyName => on_tpm (tpm_deleteKey keyName)) (getKeyNames impl);
  on_pib (Pib_removeIdentity identityName).

Definition kc_setDefaultIdentity (identity : PibIdentity) : Op KeyChain unit :=
  identityName ← on_pib (PibIdentity_getName identity);
  _ ← on_pib (Pib_setDefaultIdentity identityName);
  mret tt.

Definition check_key_identity (identity : PibIdentity) (k : PibKey) : Op KeyChain unit :=
  identityName ← on_pib (PibIdentity_getName identity);
  key ← on_pib (lock_key k);
  if negb (name_equals identityName (ki_identityName_ key)) then invalid_argument "Identity does not match key" else mret tt.

Definition deleteKey (identity : PibIdentity) (k : PibKey) : Op KeyChain unit :=
  keyName ← on_pib (PibKey_getName k);
  _ ← check_key_identity identity k;
  _ ← on_pib (identity_removeKey identity keyName);
  on_tpm (tpm_deleteKey keyName).

Definition kc_setDefaultKey (identity : PibIdentity) (k : PibKey) : Op KeyChain unit :=
  _ ← check_key_identity identity k;
  keyName ← on_pib (PibKey_getName k);
  _ ← on_pib (identity_setDefaultKey identity keyName);
  mret tt.

Definition kc_addCertificate (k : PibKey) (certificate : Certificate) : Op KeyChain unit :=
  key ← on_pib (lock_key k);
  keyName ← returns (getKeyName certificate);
  if negb (name_equals (ki_keyName_ key) keyName) then invalid_argument "Key does not match certificate"
  else
    publicKey ← returns (getPublicKey certificate);
    if negb (bool_decide (publicKey = keyEncoding_ key)) then invalid_argument "Key does not match certificate"
    else on_pib (key_addCertificate k certificate).

Definition kc_deleteCertificate (k : PibKey) (certificateName : Name) : Op KeyChain unit :=
  if negb (isValidName certificateName) then invalid_argument "Wrong certificate name"
  else on_pib (key_removeCertificate k certificateName).

Definition kc_setDefaultCertificate (k : PibKey) (certificate : Certificate) : Op KeyChain unit :=
  _ ← kc_addCertificate k certificate;
  _ ← on_pib (key_setDefaultCertificate k (cert_name certificate));
  mret tt.

(** *** Safe bags *)

(** A certificate and its private key. *)
Record SafeBag := mkSafeBag { sb_certificate_ : DataPacket; privateKeyBag_ : list Z }.

Definition exportSafeBag (certificate : Certificate) (password : option (list Z)) : Op KeyChain SafeBag :=
  keyName ← returns (getKeyName certificate);
  encryptedKey ← catch_all (on_tpm (exportPrivateKey keyName password)) (throws KeyChain_Error "Failed to export private key");
  mret (mkSafeBag (cert_data certificate) encryptedKey).

Definition importSafeBag (safeBag : SafeBag) (password : option (list Z)) : Op KeyChain unit :=
  certificate ← returns (CertificateV2_of_data (sb_certificate_ safeBag));
  identity ← returns (getIdentity certificate);
  keyName ← returns (getKeyName certificate);
  publicKeyBits ← returns (getPublicKey certificate);
  k ← self_get;
  if tpm_hasKey keyName (kc_tpm_ k) then throws KeyChain_Error "Private key already exists"
  else
    _ ← catch_pib (existingId ← on_pib (identities_get identity);
                   _ ← on_pib (keys_get existingId keyName);
                   throws KeyChain_Error "Public key already exists")
          (mret tt);
    _ ← catch_all (on_tpm (importPrivateKey keyName (privateKeyBag_ safeBag) password))
          (throws KeyChain_Error "Failed to import private key");
    let content := [1; 2; 3; 4] in
    signatureBits ← catch_all (on_tpm (tpm_sign content keyName))
                      (_ ← on_tpm (tpm_deleteKey keyName); throws KeyChain_Error "Invalid private key");
    keyType ← returns (public_key_type publicKeyBits);
    if negb (verifySignature_key content (blob_bytes signatureBits) publicKeyBits keyType) then
      _ ← on_tpm (tpm_deleteKey keyName);
      throws KeyChain_Error "Certificate and private key do not match"
    else
      id ← on_pib (identities_add identity);
      publicKey ← returns (getPublicKey certificate);
      key ← on_pib (keys_add id publicKey keyName);
      on_pib (key_addCertificate key certificate).

(** *** Command Interests *)

Record CommandInterestPreparer := mkCommandInterestPreparer { lastUsedTimestamp_ : Z; ci_nowOffset_ : Z }.

(** The loop that adds milliseconds until the timestamp is later than the last one used. *)
Definition next_timestamp (now lastUsedTimestamp : Z) : Z := if now <=? lastUsedTimestamp then lastUsedTimestamp + 1 else now.

Definition prepareCommandInterestName (now : Z) (random : list Z) (name : Name) (self : CommandInterestPreparer) :
    CommandInterestPreparer * result exn Name :=
  let timestamp := next_timestamp (now + ci_nowOffset_ self) (lastUsedTimestamp_ self) in
  (mkCommandInterestPreparer timestamp (ci_nowOffset_ self),
   bytes ← throw_error (TlvEncoder_run 8 (writeNonNegativeInteger (wrap64 timestamp)));
   mret (append (append name (generic bytes)) (generic random))).
End KeyChain.

(** ** Locators

    The schemes and what their factories make, the default schemes, and the locators of the environment or the
    configuration file (an empty one is not set) are parameters. *)

Section Locators.
Context `{Crypto} `{PrivateKeys}.
Context (pibFactories : list Z -> option (list Z -> PibMemory)) (tpmFactories : list Z -> option (list Z -> NameMap PrivateKey)).
Context (defaultPibScheme defaultTpmScheme clientPib clientTpm : list Z).

Definition COLON : Z := 58.
Definition locator (scheme location : list Z) : list Z := scheme ++ COLON :: location.

Definition parseLocatorUri (uri : list Z) : list Z * list Z :=
  match split_at COLON uri with
  | (scheme, Some location) => (scheme, location)
  | (scheme, None) => (scheme, [])
  end.

(** [parseAndCheckPibLocator] and [parseAndCheckTpmLocator]: with what the factory makes. *)
Definition parseAndCheck {F} (factories : list Z -> option F) (defaultScheme uri : list Z) : result exn (list Z * list Z * F) :=
  let '(scheme, location) := parseLocatorUri uri in
  let scheme := match scheme with [] => defaultScheme | _ => scheme end in
  match factories scheme with
  | Some factory => Ok (scheme, location, factory)
  | None => Err (Exception KeyChain_Error "scheme is not supported")
  end.
Definition parseAndCheckPibLocator := parseAndCheck pibFactories defaultPibScheme.
Definition parseAndCheckTpmLocator := parseAndCheck tpmFactories defaultTpmScheme.

Definition getDefaultPibLocator : result exn (list Z) :=
  let uri := match clientPib with [] => locator defaultPibScheme [] | _ => clientPib end in
  if bool_decide (uri = [COLON]) then Ok uri
  else '(scheme, location, _) ← parseAndCheckPibLocator uri; mret (locator scheme location).

Definition getDefaultTpmLocator : result exn (list Z) :=
  let uri := match clientTpm with [] => locator defaultTpmScheme [] | _ => clientTpm end in
  '(scheme, location, _) ← parseAndCheckTpmLocator uri; mret (locator scheme location).

Definition createPib (pibLocator : list Z) : result exn Pib :=
  '(scheme, location, factory) ← parseAndCheckPibLocator pibLocator; mret (Pib_new scheme location (factory location)).
Definition createTpm (tpmLocator : list Z) : result exn Tpm :=
  '(scheme, location, factory) ← parseAndCheckTpmLocator tpmLocator; mret (Tpm_new scheme location (factory location)).

(** What [construct] does when the PIB has another TPM locator: the PIB and the locator to use. *)
Definition resolve_mismatch (isDefault allowReset : bool) (canonicalTpmLocator : list Z) (pib : Pib) :
    result exn (Pib * list Z) :=
  let oldTpmLocator := tpmLocator_ (pibImpl_ pib) in
  if bool_decide (oldTpmLocator = []) then mret (pib, canonicalTpmLocator)
  else if isDefault then
    defaultTpm ← getDefaultTpmLocator;
    if negb (bool_decide (oldTpmLocator = defaultTpm)) then mret (state_of (Pib_reset pib), defaultTpm)
    else mret (pib, canonicalTpmLocator)
  else if negb (bool_decide (oldTpmLocator = canonicalTpmLocator)) then
    if allowReset : bool then mret (state_of (Pib_reset pib), canonicalTpmLocator)
    else Err (Exception "LocatorMismatchError" "The supplied TPM locator does not match the TPM locator in the PIB")
  else mret (pib, canonicalTpmLocator).

Definition construct (pibLocator tpmLocator : list Z) (allowReset : bool) : result exn KeyChain :=
  pibLocator ← match pibLocator with [] => getDefaultPibLocator | _ => Ok pibLocator end;
  tpmLocator ← match tpmLocator with [] => getDefaultTpmLocator | _ => Ok tpmLocator end;
  '(pibScheme, pibLocation, _) ← parseAndCheckPibLocator pibLocator;
  let canonicalPibLocator := locator pibScheme pibLocation in
  pib ← createPib canonicalPibLocator;
  '(tpmScheme, tpmLocation, _) ← parseAndCheckTpmLocator tpmLocator;
  defaultPib ← getDefaultPibLocator;
  '(pib, canonicalTpmLocator) ← resolve_mismatch (bool_decide (canonicalPibLocator = defaultPib)) allowReset
                                  (locator tpmScheme tpmLocation) pib;
  tpm ← createTpm canonicalTpmLocator;
  mret (mkKeyChain (state_of (Pib_setTpmLocator canonicalTpmLocator pib)) tpm).
End Locators.
