(* ===== verification/KeyChainSpec.v ===== *)
(** * What the key chain promises

    Its operations keep the PIB consistent, and what it signs is verified. *)

From stdpp Require Import base sorting list numbers option strings.
From Stdlib Require Import ZArith Lia.
From S2P Require Import Prelude Order Actions Encoder Name NameUri ValidityPeriod ChangeCounter Data TlvData Interest WireFormat Certificates NameMap Pib PibSpec PibContainers KeyChain.
Open Scope Z_scope.

(** ** What is used of the cryptography

    Digests and random numbers are bytes; the public key of a private key is in a format that is recognized, which
    nothing at all is not. *)
Record crypto_ok `{Crypto} `{PrivateKeys} : Prop := {
  co_digest : forall data, bytes_ok (digest_sha256 data);
  co_random : forall n, bytes_ok (random_bytes n);
  co_publicKey : forall key bits, derivePublicKey key = Ok bits -> exists type, public_key_type bits = Ok type;
  co_empty : forall type, public_key_type [] <> Ok type
}.

(** ** Names *)

Lemma plain_append n v : plain n -> zlen n < 2 ^ 31 - 1 -> bytes_ok v -> plain (append n (generic v)).
Proof.
  intros [Hf Hc] Hl Hv. unfold append. split; [unfold name_fits; rewrite length_app; cbn; lia |].
  apply Forall_app. split; [easy |]. apply Forall_singleton. now split.
Qed.

Lemma zlen_append (n : Name) c : zlen (append n c) = zlen n + 1.
Proof. unfold append. rewrite length_app. cbn [length]. lia. Qed.

Lemma name_get_append2 (n : Name) c d : name_get (append (append n c) d) (-2) = Ok c.
Proof.
  unfold name_get. cbn [Z.geb Z.compare]. rewrite !zlen_append. destruct (Z.ltb_spec (-2) (- (zlen n + 1 + 1))); [lia |].
  unfold append. replace (Z.to_nat _) with (length n) by lia. rewrite <- app_assoc. cbn [app]. now rewrite list_lookup_middle.
Qed.

Lemma getPrefix_append2 (n : Name) c d : zlen n < 2 ^ 31 - 2 -> getPrefix (append (append n c) d) (-2) = n.
Proof.
  intros Hl. rewrite getPrefix_spec; [| unfold name_fits; rewrite !zlen_append; lia | rewrite !zlen_append; lia].
  cbn [Z.ltb Z.compare]. rewrite !zlen_append. unfold append. rewrite <- app_assoc. apply take_app_length'. lia.
Qed.

(** An identity whose keys and certificates have names that fit. *)
Definition short_identity (n : Name) : Prop := plain n /\ 0 < zlen n < 2 ^ 31 - 4.

Lemma constructKeyName_of n v : short_identity n -> bytes_ok v ->
  plain (constructKeyName n (generic v)) /\ key_of (constructKeyName n (generic v)) n.
Proof.
  intros [Hn Hl] Hv. unfold constructKeyName, KEY_COMPONENT. split.
  - apply plain_append; [| rewrite zlen_append; lia | easy]. apply plain_append; [easy | lia |]. repeat constructor; unfold is_byte; lia.
  - unfold key_of, extractIdentityFromKeyName, isValidKeyName, MIN_KEY_NAME_LENGTH, KEY_COMPONENT. rewrite !zlen_append.
    destruct (Z.gtb_spec (zlen n + 1 + 1) 2); [| lia]. cbn [andb]. change (- (2)) with (-2). rewrite name_get_append2. cbn [negb].
    replace (component_equals _ _) with true by reflexivity. cbn [negb]. rewrite getPrefix_append2 by lia. easy.
Qed.

Lemma key_of_length k n : plain k -> key_of k n -> zlen k = zlen n + 2 /\ 0 < zlen n.
Proof.
  unfold key_of, extractIdentityFromKeyName, isValidKeyName, MIN_KEY_NAME_LENGTH. intros Hk.
  destruct (Z.gtb_spec (zlen k) 2); [| easy]. cbn [andb]. destruct (negb _); [easy |]. intros [= <-].
  rewrite getPrefix_spec; [| apply Hk | lia]. destruct (Z.ltb_spec (- (2)) 0); [| lia]. rewrite length_take. lia.
Qed.

(** The name of a self-signed certificate. *)
Lemma self_signed_of now k n :
  plain k -> key_of k n -> zlen n < 2 ^ 31 - 4 ->
  exists c, self_signed_name k now = Ok c /\ plain c /\ isValidName c = true /\ getPrefix c (-2) = k.
Proof.
  intros Hk Hkn Hl. pose proof (key_of_length k n Hk Hkn) as [Hlen Hpos]. unfold self_signed_name, fromVersion.
  rewrite fromNumberWithMarker_bytes by (unfold is_byte; lia). cbn [mbind result_bind]. eexists. split; [reflexivity |].
  pose proof (wrap64_range now) as Hw. split; [| split].
  - apply plain_append; [| rewrite zlen_append; lia |].
    + apply plain_append; [easy | lia |]. repeat constructor; unfold is_byte; lia.
    + constructor; [unfold is_byte; lia | apply nonNegativeInteger_bytes_ok; lia].
  - unfold isValidName. destruct (isEncapsulatedX509 _); [easy |]. unfold MIN_CERT_NAME_LENGTH. rewrite !zlen_append.
    destruct (Z.geb_spec (zlen k + 1 + 1) 4); [| lia]. cbn [andb].
    assert (Hg : forall (m : Name) c d, 2 < zlen m -> name_get (append (append m c) d) (-4) = name_get m (-2)).
    { intros m c d Hm. unfold name_get. cbn [Z.geb Z.compare]. rewrite !zlen_append.
      destruct (Z.ltb_spec (-4) (- (zlen m + 1 + 1))); [lia |]. destruct (Z.ltb_spec (-2) (- zlen m)); [lia |].
      unfold append. rewrite <- app_assoc, lookup_app_l by lia. now replace (Z.to_nat (zlen m + 1 + 1 - - (-4))) with (Z.to_nat (zlen m - - (-2))) by lia. }
    unfold KEY_COMPONENT_OFFSET. rewrite Hg by lia.
    unfold key_of, extractIdentityFromKeyName, isValidKeyName, MIN_KEY_NAME_LENGTH in Hkn.
    destruct (zlen k >? 2); [| easy]. cbn [andb] in Hkn. change (- (2)) with (-2) in Hkn.
    destruct (name_get k (-2)); [| easy]. now destruct (component_equals _ _).
  - apply getPrefix_append2. lia.
Qed.

(** ** The TPM *)

Section Consistent.
Context `{HC : Crypto} `{HP : PrivateKeys} (Hok : crypto_ok).

Definition tpm_ok (t : Tpm) : Prop := map_ok (tpm_handles_ t) /\ map_ok (backEnd_keys_ t).

Lemma findKey_ok n t : tpm_ok t -> key_ok n ->
  ensures tpm_ok t (findKey n) (fun h _ => forall h', map_find (tpm_handles_ t) n = Some h' -> h = Some h').
Proof.
  intros [H1 H2] Hn. unfold findKey. apply ensures_get. destruct (map_find (tpm_handles_ t) n) as [h |]; [apply ensures_ret; [easy | now intros h' [= <-]] |].
  destruct (map_find (backEnd_keys_ t) n); [| now apply ensures_ret].
  apply ensures_modify_bind, ensures_ret; [split; cbn; [now apply map_set_ok | easy] | easy].
Qed.

Lemma with_handle_ok n f t : tpm_ok t -> key_ok n ->
  ensures tpm_ok t (with_handle n f) (fun b _ => forall h, map_find (tpm_handles_ t) n = Some h -> exists bits, b = Some bits /\ f (th_key_ h) = Ok bits).
Proof.
  intros Ht Hn. unfold with_handle. eapply ensures_bind; [now apply findKey_ok |]. intros h t' Ht' Hh. destruct h as [h |].
  - apply ensures_returns_bind; [easy |]. intros bits Hb. apply ensures_ret; [easy |]. intros h' Hf. specialize (Hh h' Hf). injection Hh as ->. eauto.
  - apply ensures_ret; [easy |]. intros h' Hf. discriminate (Hh h' Hf).
Qed.

Lemma random_keyId_ok tries n t : tpm_ok t -> ensures tpm_ok t (random_keyId tries n) (fun c _ => exists v, c = generic v /\ bytes_ok v).
Proof.
  revert t. induction tries as [| tries IH]; intros t Ht; cbn [random_keyId]; [now apply ensures_throw |].
  apply ensures_get, ensures_modify_bind. destruct (tpm_hasKey _ t); [now apply IH |]. apply ensures_ret; [easy |].
  eexists. split; [reflexivity | apply (co_random Hok)].
Qed.

(** A user gives a generic component. *)
Definition good_params (params : KeyParams) : Prop :=
  keyIdType_ params = KEY_ID_TYPE_USER_SPECIFIED -> exists v, keyId_ params = generic v /\ bytes_ok v.

Lemma tpm_createKey_ok n params t : tpm_ok t -> short_identity n -> good_params params ->
  ensures tpm_ok t (tpm_createKey n params) (fun k t' => plain k /\ key_of k n /\ exists h, map_find (tpm_handles_ t') k = Some h).
Proof.
  intros Ht Hn Hp. unfold tpm_createKey. destruct (kp_keyType_ params); [| now apply ensures_throw].
  apply ensures_bind with (Q := fun params' _ => keyIdType_ params' = KEY_ID_TYPE_SHA256 \/ exists v, keyId_ params' = generic v /\ bytes_ok v).
  { unfold prepare_keyId. destruct (keyIdType_ params) eqn:E.
    - apply ensures_get. destruct (tpm_hasKey _ t); [now apply ensures_throw |]. apply ensures_ret; [easy | right; now apply Hp].
    - apply ensures_ret; [easy | now left].
    - eapply ensures_bind; [now apply random_keyId_ok |]. intros c t' Ht' Hc. apply ensures_ret; [easy | now right]. }
  intros params' t1 Ht1 Hid. apply ensures_bind with (Q := fun h _ => plain (th_keyName_ h) /\ key_of (th_keyName_ h) n).
  - unfold doCreateKey. apply ensures_returns_bind; [easy |]. intros key Hkey. apply ensures_returns_bind; [easy |]. intros name Hname.
    assert (Hk : plain name /\ key_of name n).
    { unfold new_keyName in Hname. destruct (keyIdType_ params') eqn:E.
      - destruct Hid as [? | (v & Ev & Hv)]; [easy |]. injection Hname as <-. rewrite Ev. now apply constructKeyName_of.
      - destruct (derivePublicKey key); [| easy]. injection Hname as <-. apply constructKeyName_of; [easy | apply (co_digest Hok)].
      - destruct (_ =? 0); [easy |]. destruct Hid as [? | (v & Ev & Hv)]; [easy |]. injection Hname as <-. rewrite Ev. now apply constructKeyName_of. }
    apply ensures_modify_bind, ensures_ret; [| easy]. split; [apply Ht1 |]. apply map_set_ok; [apply Ht1 | now apply plain_key_ok].
  - intros h t2 [Hh1 Hh2] [Hk Hkn]. apply ensures_modify_bind, ensures_ret.
    + split; [apply map_set_ok; [easy | now apply plain_key_ok] | easy].
    + split_and!; [easy | easy |]. exists h. apply map_find_set; [easy | now apply plain_key_ok].
Qed.

Lemma tpm_deleteKey_ok n t : tpm_ok t -> key_ok n -> ensures tpm_ok t (tpm_deleteKey n) (fun _ _ => True).
Proof.
  intros [H1 H2] Hn. unfold tpm_deleteKey. apply ensures_modify_bind, ensures_modify; [| easy].
  split; cbn; now apply map_erase_ok.
Qed.

Lemma importPrivateKey_ok n pkcs8 password t : tpm_ok t -> key_ok n -> ensures tpm_ok t (importPrivateKey n pkcs8 password) (fun _ _ => True).
Proof.
  intros [H1 H2] Hn. unfold importPrivateKey. apply ensures_get. destruct (tpm_hasKey n t); [now apply ensures_throw |].
  apply ensures_returns_bind; [easy |]. intros key _. apply ensures_modify; [| easy]. split; [easy | now apply map_set_ok].
Qed.

(** ** The invariant of the key chain *)

Definition kc_ok (k : KeyChain) : Prop := pib_ok (kc_pib_ k) /\ tpm_ok (kc_tpm_ k).

Lemma ensures_on_pib {A} k (m : Op Pib A) Q : kc_ok k -> ensures pib_ok (kc_pib_ k) m Q ->
  ensures kc_ok k (on_pib m) (fun a k' => Q a (kc_pib_ k') /\ kc_tpm_ k' = kc_tpm_ k).
Proof.
  intros [_ Ht] [HI HQ]. unfold ensures, on_pib, state_of, result_of in *. destruct (m (kc_pib_ k)) as [[p c] r]. cbn in *.
  split; [easy | auto].
Qed.

Lemma ensures_on_tpm {A} k (m : Op Tpm A) Q : kc_ok k -> ensures tpm_ok (kc_tpm_ k) m Q ->
  ensures kc_ok k (on_tpm m) (fun a k' => Q a (kc_tpm_ k') /\ kc_pib_ k' = kc_pib_ k).
Proof.
  intros [Hp _] [HI HQ]. unfold ensures, on_tpm, state_of, result_of in *. destruct (m (kc_tpm_ k)) as [[t c] r]. cbn in *.
  split; [easy | auto].
Qed.

Lemma ensures_catch_pib {S A} (I : S -> Prop) s (m h : Op S A) Q :
  ensures I s m Q -> (forall s', I s' -> ensures I s' h Q) -> ensures I s (catch_pib m h) Q.
Proof.
  intros Hm Hh. apply ensures_catch; [easy |]. intros e s' Hs'.
  destruct e; try now apply ensures_throw. destruct (bool_decide _); [now apply Hh | now apply ensures_throw].
Qed.

Lemma ensures_catch_all {S A} (I : S -> Prop) s (m h : Op S A) Q :
  ensures I s m Q -> (forall s', I s' -> ensures I s' h Q) -> ensures I s (catch_all m h) Q.
Proof.
  intros Hm Hh. apply ensures_catch; [exact Hm |]. intros e s' Hs'. destruct (is_exception e); [now apply Hh | now apply ensures_throw].
Qed.

(** *** Signing *)

Definition good_info (info : SigningInfo) : Prop :=
  plain (si_name_ info) /\ (forall h, si_identity_ info = Some h -> good_identity h) /\ (forall k, si_key_ info = Some k -> good_key k).

Definition good_signer (s : option (PibIdentity + PibKey)) : Prop :=
  match s with Some (inl h) => good_identity h | Some (inr k) => good_key k | None => True end.

Lemma plain_getPrefix n i : plain n -> plain (getPrefix n i).
Proof.
  assert (H : forall a b, plain n -> plain (getSubName n a b)).
  { intros a b [Hf Hc]. unfold getSubName. split; [unfold name_fits in *; rewrite length_take, length_drop; lia |].
    now apply Forall_take, Forall_drop. }
  unfold getPrefix. destruct (i <? 0); apply H.
Qed.

Lemma find_signer_ok params p : pib_ok p -> good_info params -> ensures pib_ok p (find_signer params) (fun s _ => good_signer s).
Proof.
  intros Hp (Hn & Hi & Hk). unfold find_signer. destruct (si_type_ params).
  - apply ensures_catch_pib; [| intros; now apply ensures_ret]. eapply ensures_bind; [now apply Pib_getDefaultIdentity_ok |].
    intros h p' Hp' Hh. now apply ensures_ret.
  - destruct (si_identity_ params) as [h |]; [apply ensures_ret; [easy | now apply Hi] |].
    apply ensures_catch_pib; [| intros; now apply ensures_throw]. eapply ensures_bind; [now apply identities_get_ok |].
    intros h p' Hp' (Hh & Hn' & _). apply ensures_ret; [easy |]. cbn. unfold good_identity. now rewrite Hh.
  - destruct (si_key_ params) as [k |]; [apply ensures_ret; [easy | now apply Hk] |].
    apply ensures_returns_bind; [easy |]. intros i Hi'. pose proof (key_of_plain _ _ Hn Hi') as Hpi.
    apply ensures_catch_pib; [| intros; now apply ensures_throw]. eapply ensures_bind; [now apply identities_get_ok |].
    intros h p' Hp' (Hh & Hn' & _). eapply ensures_bind; [apply keys_get_ok; [easy | unfold good_identity; now rewrite Hh | easy] |].
    intros k p2 Hp2 (_ & _ & Hg & _). now apply ensures_ret.
  - apply ensures_returns_bind; [easy |]. intros i Hi'. assert (Hpi : plain i).
    { unfold extractIdentityFromCertName in Hi'. destruct (negb _); [easy |]. injection Hi' as <-. now apply plain_getPrefix. }
    apply ensures_catch_pib; [| intros; now apply ensures_throw]. eapply ensures_bind; [now apply identities_get_ok |].
    intros h p' Hp' (Hh & Hn' & _). apply ensures_returns_bind; [easy |]. intros kn Hkn.
    eapply ensures_bind; [apply keys_get_ok; [easy | unfold good_identity; now rewrite Hh | now apply (certificate_of_plain (si_name_ params))] |].
    intros k p2 Hp2 (_ & _ & Hg & _). now apply ensures_ret.
  - now apply ensures_ret.
Qed.

Lemma prepareSignatureInfo_ok params p : pib_ok p -> good_info params -> ensures pib_ok p (prepareSignatureInfo params) (fun r _ => plain r.2).
Proof.
  intros Hp Hi. unfold prepareSignatureInfo. eapply ensures_bind; [now apply find_signer_ok |]. intros s p1 Hp1 Hs.
  destruct s as [s |]; cycle 1.
  { apply ensures_ret; [easy |]. split; [easy |]. repeat constructor; unfold is_byte; lia. }
  apply ensures_bind with (Q := fun k _ => good_key k).
  - destruct s as [h | k]; [| now apply ensures_ret]. apply ensures_catch_pib.
    { eapply ensures_weaken; [now apply identity_getDefaultKey_ok |]. now intros k p2 _ [? _]. }
    intros p2 Hp2.
    eapply ensures_bind; [now apply PibIdentity_getName_ok |]. intros n p3 Hp3 _. now apply ensures_throw.
  - intros k p2 Hp2 Hk. apply ensures_lock_key; [easy | easy |]. intros ki _ Hki. apply ensures_returns_bind; [easy |]. intros sig _.
    apply ensures_ret; [easy |]. cbn. rewrite (ko_name _ _ _ _ Hki). apply Hk.
Qed.

Lemma sign_buffer_ok buffer n k : kc_ok k -> plain n -> ensures kc_ok k (sign_buffer buffer n) (fun _ k' => kc_pib_ k' = kc_pib_ k).
Proof.
  intros Hk Hn. unfold sign_buffer. destruct (name_equals n _); [now apply ensures_ret |].
  eapply ensures_weaken; [apply ensures_on_tpm; [easy |]; apply with_handle_ok; [apply Hk | now apply plain_key_ok] |]. now intros b k' _ [_ ?].
Qed.

(** What signing ensures of the PIB when the signature info is found without changing it. *)
Lemma sign_data_ok data params k : kc_ok k -> good_info params ->
  ensures kc_ok k (sign_data data params) (fun packet k' =>
    (forall r, prepareSignatureInfo params (kc_pib_ k) = (kc_pib_ k, [], r) -> kc_pib_ k' = kc_pib_ k) /\
    data_content (packet_value packet) = data_content data /\ data_name (packet_value packet) = data_name data /\
    data_metaInfo (packet_value packet) = data_metaInfo data).
Proof.
  intros Hk Hi. unfold sign_data.
  apply ensures_bind with (Q := fun r k' => plain r.2 /\ forall r', prepareSignatureInfo params (kc_pib_ k) = (kc_pib_ k, [], r') -> kc_pib_ k' = kc_pib_ k).
  { pose proof (ensures_on_pib k _ _ Hk (prepareSignatureInfo_ok params _ (proj1 Hk) Hi)) as [H1 H2]. split; [easy |]. intros r Hr.
    destruct (H2 r Hr) as [Hp _]. split; [easy |]. intros r' Hr'. unfold on_pib. now rewrite Hr'. }
  intros [sig name] k1 Hk1 [Hn Hs]. apply ensures_returns_bind; [easy |]. intros enc _.
  eapply ensures_bind; [now apply sign_buffer_ok |]. intros bits k2 Hk2 E2. apply ensures_returns_bind; [easy |]. intros enc' _.
  apply ensures_ret; [easy |]. split; [| easy]. intros r Hr. rewrite E2. now apply (Hs r).
Qed.

(** *** Keys and certificates *)

Lemma on_pib_run {A} (m : Op Pib A) k r : m (kc_pib_ k) = (kc_pib_ k, [], r) -> on_pib m k = (k, [], r).
Proof. intros E. unfold on_pib. rewrite E. now destruct k. Qed.

(** A method of a key that is dead throws. *)
Lemma ensures_on_lock_key {A} kh k (f : PibKeyImpl -> Op KeyChain A) Q :
  kc_ok k -> good_key kh ->
  (forall ki, find_key kh (kc_pib_ k) = Some ki -> key_impl_ok (pibImpl_ (kc_pib_ k)) (kh_owner kh).1 (kh_name kh) ki -> ensures kc_ok k (f ki) Q) ->
  ensures kc_ok k (on_pib (lock_key kh) ≫= f) Q.
Proof.
  intros Hk Hg Hf. destruct (find_key kh (kc_pib_ k)) as [ki |] eqn:E.
  - apply (ensures_silent _ k k _ _ ki); [now apply on_pib_run, lock_key_run |]. apply Hf; [easy |].
    now destruct (find_key_some kh _ ki (proj1 Hk) Hg E) as (? & ? & ? & ? & ? & ?).
  - apply ensures_bind with (Q := fun _ _ => False); [| easy].
    apply (ensures_run _ k k _ (Err (Exception "std::domain_error" "Invalid key instance"))); [| easy | easy].
    apply on_pib_run. unfold lock_key. now rewrite act_get_bind, E.
Qed.

Definition short_key (kh : PibKey) : Prop := good_key kh /\ zlen (kh_owner kh).1 < 2 ^ 31 - 4.

Lemma self_signed_good packet bits type c n k :
  plain k -> key_of k n -> plain c -> isValidName c = true -> getPrefix c (-2) = k -> public_key_type bits = Ok type ->
  data_content (packet_value packet) = Some bits -> data_name (packet_value packet) = c ->
  data_metaInfo (packet_value packet) = data_metaInfo (unsigned_certificate c bits) ->
  let cert := mkCertificate packet None in good_certificate cert k /\ getPublicKey cert = Ok bits.
Proof.
  intros Hk Hkn Hc Hv Hpre Ht Econ Ename Emeta cert.
  assert (Hne : zlen bits =? 0 = false).
  { destruct bits; [now apply (co_empty Hok) in Ht | cbn; apply Z.eqb_neq; lia]. }
  assert (Hl : 4 <= zlen c).
  { pose proof (key_of_length k n Hk Hkn) as [Hlk Hln]. rewrite <- Hpre in Hlk. destruct (Z_lt_le_dec (zlen c) 4); [| easy]. exfalso.
    unfold isValidName, isEncapsulatedX509, MIN_CERT_NAME_LENGTH in Hv. destruct (Z.eqb_spec (zlen c) 2) as [E | E].
    - rewrite getPrefix_spec in Hlk by (apply Hc || lia). rewrite length_take, E in Hlk. cbn in Hlk. lia.
    - cbn [andb] in Hv. destruct (Z.geb_spec (zlen c) 4); [lia | easy]. }
  split.
  - split; cbn; unfold cert_name, packet_name; cbn; rewrite ?Ename; try easy.
    + unfold getKeyName, check_cert_name, cert_name, packet_name, MIN_CERT_NAME_LENGTH. cbn. rewrite Ename.
      destruct (Z.ltb_spec (zlen c) 4); [lia |]. now f_equal.
    + now exists n.
    + unfold checkFormat. rewrite Ename, Hv, Emeta, Econ. cbn. now rewrite Hne.
  - unfold getPublicKey. cbn. rewrite Econ. cbn. now rewrite Hne.
Qed.

Lemma selfSign_ok now kh k : kc_ok k -> short_key kh -> ensures kc_ok k (selfSign now kh) (fun _ _ => True).
Proof.
  intros Hk [Hg Hl]. unfold selfSign. apply ensures_on_lock_key; [easy | easy |]. intros ki E Hki.
  pose proof (ko_of _ _ _ _ Hki) as [Hp Hkn]. destruct (self_signed_of now _ _ Hp Hkn Hl) as (c & Ec & Hc & Hv & Hpre).
  rewrite (ko_name _ _ _ _ Hki), Ec. apply ensures_returns_bind; [easy |]. intros ? [= <-].
  set (info0 := mkSigningInfo SIGNER_TYPE_KEY (kh_name kh) None (Some kh) no_period).
  apply (ensures_silent _ k k _ _ info0).
  { apply on_pib_run. unfold setPibKey, PibKey_getName. rewrite (act_bind_silent _ _ _ (kc_pib_ k) (kh_name kh)); [easy |].
    rewrite (act_bind_silent _ _ _ _ _ (lock_key_run _ _ _ E)). now rewrite (ko_name _ _ _ _ Hki). }
  cbv zeta. set (info := si_setValidityPeriod _ info0).
  assert (Hinfo : good_info info) by (split; [easy |]; split; [easy | now intros ? [= <-]]).
  eapply ensures_bind; [now apply sign_data_ok |]. intros packet k1 Hk1 (Hpib & Econ & Ename & Emeta).
  assert (Epib : kc_pib_ k1 = kc_pib_ k).
  { destruct (key_signature (keyType_ ki) (kh_name kh) (si_validityPeriod_ info)) as [sig | e] eqn:Es.
    - apply (Hpib (Ok (sig, kh_name kh))). unfold prepareSignatureInfo. rewrite (act_bind_silent _ _ _ (kc_pib_ k) (Some (inr kh))) by easy.
      rewrite act_ret_bind, (act_bind_silent _ _ _ _ _ (lock_key_run _ _ _ E)), (ko_name _ _ _ _ Hki), Es. easy.
    - apply (Hpib (Err e)). unfold prepareSignatureInfo. rewrite (act_bind_silent _ _ _ (kc_pib_ k) (Some (inr kh))) by easy.
      rewrite act_ret_bind, (act_bind_silent _ _ _ _ _ (lock_key_run _ _ _ E)), (ko_name _ _ _ _ Hki), Es. easy. }
  destruct (self_signed_good packet (keyEncoding_ ki) (keyType_ ki) c _ _ Hp Hkn Hc Hv Hpre (ko_type _ _ _ _ Hki) Econ Ename Emeta) as [Hcert Hbits].
  eapply ensures_bind.
  { apply ensures_on_pib; [easy |]. apply (certificates_add_ok kh _ (kh_name kh) (keyEncoding_ ki)); try easy; [apply Hk1 |].
    rewrite Epib. split; [easy | now exists ki]. }
  intros [] k2 Hk2 _. now apply ensures_ret.
Qed.

Lemma kc_createKey_ok now h params k : kc_ok k -> short_identity h.1 -> good_params params ->
  ensures kc_ok k (kc_createKey now h params) (fun kh _ => short_key kh).
Proof.
  intros Hk Hh Hp. unfold kc_createKey.
  eapply ensures_bind; [apply ensures_on_pib; [easy |]; apply PibIdentity_getName_ok; [apply Hk | apply Hh] |]. intros n k1 Hk1 [[-> _] _].
  eapply ensures_bind; [apply ensures_on_tpm; [easy |]; apply tpm_createKey_ok; [apply Hk1 | easy | easy] |].
  intros name k2 Hk2 ((Hn & Hkn & hd & Ehd) & _).
  eapply ensures_bind; [apply ensures_on_tpm; [easy |]; apply with_handle_ok; [apply Hk2 | now apply plain_key_ok] |].
  intros pub k3 Hk3 [Hpub _]. destruct (Hpub hd Ehd) as (bits & -> & Eb). destruct (co_publicKey Hok _ _ Eb) as [type Et]. cbn [blob_bytes].
  eapply ensures_bind; [apply ensures_on_pib; [easy |]; apply (keys_add_ok h bits type name); [apply Hk3 | apply Hh | easy | easy] |].
  intros kh k4 Hk4 [[(Ho & _ & Hg & _) _] _]. assert (Hs : short_key kh) by (split; [easy |]; rewrite Ho; apply Hh).
  eapply ensures_bind; [now apply selfSign_ok |]. intros c k5 Hk5 _. now apply ensures_ret.
Qed.

Lemma createIdentityV2_ok now n params k : kc_ok k -> short_identity n -> good_params params ->
  ensures kc_ok k (createIdentityV2 now n params) (fun _ _ => True).
Proof.
  intros Hk Hn Hp. unfold createIdentityV2.
  eapply ensures_bind; [apply ensures_on_pib; [easy |]; apply identities_add_ok; [apply Hk | apply Hn] |].
  intros h k1 Hk1 ((Hh & _ & _) & _). assert (Hs : short_identity h.1) by now rewrite Hh.
  apply ensures_bind with (Q := fun kh _ => short_key kh).
  { apply ensures_catch_pib; [| intros k2 Hk2; now apply kc_createKey_ok].
    eapply ensures_weaken; [apply ensures_on_pib; [easy |]; apply identity_getDefaultKey_ok; [apply Hk1 | apply Hs] |].
    intros kh k2 _ [[Hg Ho] _]. split; [easy |]. rewrite Ho. apply Hs. }
  intros kh k2 Hk2 Hkh. apply ensures_bind with (Q := fun _ _ => True); [| intros [] k3 Hk3 _; now apply ensures_ret].
  apply ensures_catch_pib.
  - eapply ensures_bind; [apply ensures_on_pib; [easy |]; apply key_getDefaultCertificate_ok; [apply Hk2 | apply Hkh] |].
    intros c k3 Hk3 _. now apply ensures_ret.
  - intros k3 Hk3. eapply ensures_bind; [now apply selfSign_ok |]. intros c k4 Hk4 _. now apply ensures_ret.
Qed.

Lemma ensures_for_each {S A} (I : S -> Prop) (f : A -> Op S unit) l s :
  I s -> (forall a s', a ∈ l -> I s' -> ensures I s' (f a) (fun _ _ => True)) -> ensures I s (for_each f l) (fun _ _ => True).
Proof.
  revert s. induction l as [| a l IH]; intros s Hs Hf; cbn [for_each]; [now apply ensures_ret |].
  eapply ensures_bind; [apply Hf; [constructor | easy] |]. intros [] s' Hs' _. apply IH; [easy |]. intros. apply Hf; [now constructor | easy].
Qed.

Lemma ensures_on_lock_identity {A} h k (f : PibIdentityImpl -> Op KeyChain A) Q :
  kc_ok k -> good_identity h -> (forall ii, identity_impl_ok (pibImpl_ (kc_pib_ k)) h.1 ii -> ensures kc_ok k (f ii) Q) ->
  ensures kc_ok k (on_pib (lock_identity h) ≫= f) Q.
Proof.
  intros Hk Hg Hf. destruct (find_identity h (kc_pib_ k)) as [ii |] eqn:E.
  - apply (ensures_silent _ k k _ _ ii); [now apply on_pib_run, lock_identity_run |]. apply Hf, (find_identity_some h _ ii (proj1 Hk) Hg E).
  - apply ensures_bind with (Q := fun _ _ => False); [| easy].
    apply (ensures_run _ k k _ (Err (Exception "std::domain_error" "Invalid Identity instance"))); [| easy | easy].
    apply on_pib_run. unfold lock_identity. now rewrite act_get_bind, E.
Qed.

Lemma on_getName_ok h k : kc_ok k -> good_identity h ->
  ensures kc_ok k (on_pib (PibIdentity_getName h)) (fun n k' => n = h.1).
Proof.
  intros Hk Hh. eapply ensures_weaken; [apply ensures_on_pib; [easy |]; apply PibIdentity_getName_ok; [apply Hk | easy] |].
  now intros n k' _ [[? _] _].
Qed.

Lemma deleteIdentity_ok h k : kc_ok k -> good_identity h -> ensures kc_ok k (deleteIdentity h) (fun _ _ => True).
Proof.
  intros Hk Hh. unfold deleteIdentity. eapply ensures_bind; [now apply on_getName_ok |]. intros n k1 Hk1 ->.
  apply ensures_on_lock_identity; [easy | easy |]. intros ii Hi.
  apply ensures_bind with (Q := fun _ _ => True).
  - apply ensures_for_each; [easy |]. intros name k2 Hin Hk2. unfold getKeyNames in Hin.
    apply list_elem_of_fmap in Hin as ([k' ki] & -> & Hin). pose proof (ko_of _ _ _ _ (io_key _ _ _ Hi _ _ Hin)) as [Hkp _].
    eapply ensures_weaken; [apply ensures_on_tpm; [easy |]; apply tpm_deleteKey_ok; [apply Hk2 | now apply plain_key_ok] |]. easy.
  - intros [] k2 Hk2 _. eapply ensures_weaken; [apply ensures_on_pib; [easy |]; apply Pib_removeIdentity_ok; [apply Hk2 | easy] |]. easy.
Qed.

Lemma kc_setDefaultIdentity_ok h k : kc_ok k -> good_identity h -> ensures kc_ok k (kc_setDefaultIdentity h) (fun _ _ => True).
Proof.
  intros Hk Hh. unfold kc_setDefaultIdentity. eapply ensures_bind; [now apply on_getName_ok |]. intros n k1 Hk1 ->.
  eapply ensures_bind; [apply ensures_on_pib; [easy |]; apply Pib_setDefaultIdentity_ok; [apply Hk1 | easy] |]. intros ? k2 Hk2 _.
  now apply ensures_ret.
Qed.

Lemma check_key_identity_ok h kh k : kc_ok k -> good_identity h -> good_key kh -> ensures kc_ok k (check_key_identity h kh) (fun _ _ => True).
Proof.
  intros Hk Hh Hg. unfold check_key_identity. eapply ensures_bind; [now apply on_getName_ok |]. intros n k1 Hk1 ->.
  apply ensures_on_lock_key; [easy | easy |]. intros ki _ _. destruct (negb _); [now apply ensures_throw | now apply ensures_ret].
Qed.

Lemma on_keyName_ok kh k : kc_ok k -> good_key kh -> ensures kc_ok k (on_pib (PibKey_getName kh)) (fun n _ => n = kh_name kh).
Proof.
  intros Hk Hg. eapply ensures_weaken; [apply ensures_on_pib; [easy |]; apply PibKey_getName_ok; [apply Hk | easy] |]. now intros n k' _ [? _].
Qed.

Lemma deleteKey_ok h kh k : kc_ok k -> good_identity h -> good_key kh -> ensures kc_ok k (deleteKey h kh) (fun _ _ => True).
Proof.
  intros Hk Hh Hg. unfold deleteKey. eapply ensures_bind; [now apply on_keyName_ok |]. intros n k1 Hk1 ->.
  eapply ensures_bind; [now apply check_key_identity_ok |]. intros [] k2 Hk2 _.
  eapply ensures_bind; [apply ensures_on_pib; [easy |]; apply identity_removeKey_ok; [apply Hk2 | easy | apply Hg] |]. intros [] k3 Hk3 _.
  eapply ensures_weaken; [apply ensures_on_tpm; [easy |]; apply tpm_deleteKey_ok; [apply Hk3 | apply plain_key_ok, Hg] |]. easy.
Qed.

Lemma kc_setDefaultKey_ok h kh k : kc_ok k -> good_identity h -> good_key kh -> ensures kc_ok k (kc_setDefaultKey h kh) (fun _ _ => True).
Proof.
  intros Hk Hh Hg. unfold kc_setDefaultKey. eapply ensures_bind; [now apply check_key_identity_ok |]. intros [] k1 Hk1 _.
  eapply ensures_bind; [now apply on_keyName_ok |]. intros n k2 Hk2 ->.
  eapply ensures_bind; [apply ensures_on_pib; [easy |]; apply identity_setDefaultKey_ok; [apply Hk2 | easy | apply Hg] |]. intros ? k3 Hk3 _.
  now apply ensures_ret.
Qed.

(** A certificate of the application that is well formed, when its name is short enough to be one of a key. *)
Definition well_formed (cert : Certificate) : Prop := exists kn, good_certificate cert kn.

Lemma kc_addCertificate_ok kh cert k : kc_ok k -> good_key kh -> well_formed cert -> ensures kc_ok k (kc_addCertificate kh cert) (fun _ _ => True).
Proof.
  intros Hk Hg [kn Hc]. unfold kc_addCertificate. apply ensures_on_lock_key; [easy | easy |]. intros ki E Hki.
  rewrite (gc_key _ _ Hc). apply ensures_returns_bind; [easy |]. intros ? [= <-]. destruct (negb _); [now apply ensures_throw |].
  apply ensures_returns_bind; [easy |]. intros bits Hb. destruct (bool_decide (bits = keyEncoding_ ki)) eqn:Eb; cbn [negb]; [| now apply ensures_throw].
  apply bool_decide_eq_true in Eb as ->.
  eapply ensures_weaken; [apply ensures_on_pib; [easy |]; apply (certificates_add_ok kh cert kn (keyEncoding_ ki)); try easy; [apply Hk |] |]; [| easy].
  split; [easy | now exists ki].
Qed.

Lemma kc_deleteCertificate_ok kh c k : kc_ok k -> good_key kh -> plain c -> ensures kc_ok k (kc_deleteCertificate kh c) (fun _ _ => True).
Proof.
  intros Hk Hg Hc. unfold kc_deleteCertificate. destruct (negb _); [now apply ensures_throw |].
  eapply ensures_weaken; [apply ensures_on_pib; [easy |]; apply key_removeCertificate_ok; [apply Hk | easy | easy] |]. easy.
Qed.

Lemma kc_setDefaultCertificate_ok kh cert k : kc_ok k -> good_key kh -> well_formed cert -> ensures kc_ok k (kc_setDefaultCertificate kh cert) (fun _ _ => True).
Proof.
  intros Hk Hg Hc. unfold kc_setDefaultCertificate. eapply ensures_bind; [now apply kc_addCertificate_ok |]. intros [] k1 Hk1 _.
  destruct Hc as [kn Hc].
  eapply ensures_bind; [apply ensures_on_pib; [easy |]; apply key_setDefaultCertificate_ok; [apply Hk1 | easy | apply Hc] |]. intros ? k2 Hk2 _.
  now apply ensures_ret.
Qed.

(** A safe bag whose certificate is well formed when it is one. *)
Definition good_bag (bag : SafeBag) : Prop := forall c, CertificateV2_of_data (sb_certificate_ bag) = Ok c -> well_formed c.

Lemma importSafeBag_ok bag password k : kc_ok k -> good_bag bag -> ensures kc_ok k (importSafeBag bag password) (fun _ _ => True).
Proof.
  intros Hk Hb. unfold importSafeBag. apply ensures_returns_bind; [easy |]. intros cert Ecert. destruct (Hb cert Ecert) as [kn Hc].
  apply ensures_returns_bind; [easy |]. intros i Ei. destruct (good_certificate_identity cert kn Hc) as (i' & Ei' & Hki). assert (i' = i) as -> by congruence.
  pose proof (good_certificate_name cert kn Hc) as [_ Hkn]. pose proof (key_of_plain _ _ Hkn Hki) as Hi. pose proof (plain_key_ok _ Hkn) as Hkk.
  rewrite (gc_key _ _ Hc). apply ensures_returns_bind; [easy |]. intros ? [= <-]. apply ensures_returns_bind; [easy |]. intros bits Ebits.
  apply ensures_get. destruct (tpm_hasKey kn _); [now apply ensures_throw |].
  apply ensures_bind with (Q := fun _ _ => True).
  { apply ensures_catch_pib; [| intros; now apply ensures_ret].
    eapply ensures_bind; [apply ensures_on_pib; [easy |]; apply identities_get_ok; [apply Hk | easy] |]. intros h k1 Hk1 [(Hh & _ & _) _].
    eapply ensures_bind; [apply ensures_on_pib; [easy |]; apply keys_get_ok; [apply Hk1 | unfold good_identity; now rewrite Hh | easy] |].
    intros kh k2 Hk2 _. now apply ensures_throw. }
  intros [] k1 Hk1 _. apply ensures_bind with (Q := fun _ _ => True).
  { apply ensures_catch_all; [| intros; now apply ensures_throw].
    eapply ensures_weaken; [apply ensures_on_tpm; [easy |]; apply importPrivateKey_ok; [apply Hk1 | easy] |]. easy. }
  intros [] k2 Hk2 _.
  assert (Hdel : forall k' A (m : Op KeyChain A), kc_ok k' -> (forall k'', kc_ok k'' -> ensures kc_ok k'' m (fun _ _ => True)) ->
    ensures kc_ok k' (on_tpm (tpm_deleteKey kn) ≫= fun _ => m) (fun _ _ => True)).
  { intros k' A m Hk' Hm. eapply ensures_bind; [apply ensures_on_tpm; [easy |]; apply tpm_deleteKey_ok; [apply Hk' | easy] |]. intros [] k'' Hk'' _. now apply Hm. }
  apply ensures_bind with (Q := fun _ _ => True).
  { apply ensures_catch_all.
    - eapply ensures_weaken; [apply ensures_on_tpm; [easy |]; apply with_handle_ok; [apply Hk2 | easy] |]. easy.
    - intros k' Hk'. apply Hdel; [easy |]. intros. now apply ensures_throw. }
  intros sig k3 Hk3 _. apply ensures_returns_bind; [easy |]. intros type Et. destruct (negb _).
  { apply Hdel; [easy |]. intros. now apply ensures_throw. }
  eapply ensures_bind; [apply ensures_on_pib; [easy |]; apply identities_add_ok; [apply Hk3 | easy] |]. intros h k4 Hk4 [(Hh & _ & _) _].
  rewrite Ebits. apply ensures_returns_bind; [easy |]. intros ? [= <-].
  eapply ensures_bind; [apply ensures_on_pib; [easy |]; apply (keys_add_ok h bits type kn); [apply Hk4 | unfold good_identity; now rewrite Hh | easy | easy] |].
  intros kh k5 Hk5 [[(Ho & Hn & Hg & _) Hbits] _].
  eapply ensures_weaken; [apply ensures_on_pib; [easy |]; apply (certificates_add_ok kh cert kn bits); [apply Hk5 | easy | easy | easy | easy] |]. easy.
Qed.

(** ** Whatever the application calls *)

Inductive Call :=
  | CreateIdentity (now : Z) (name : Name) (params : KeyParams)
  | DeleteIdentity (h : PibIdentity)
  | SetDefaultIdentity (h : PibIdentity)
  | CreateKey (now : Z) (h : PibIdentity) (params : KeyParams)
  | DeleteKey (h : PibIdentity) (k : PibKey)
  | SetDefaultKey (h : PibIdentity) (k : PibKey)
  | AddCertificate (k : PibKey) (cert : Certificate)
  | DeleteCertificate (k : PibKey) (name : Name)
  | SetDefaultCertificate (k : PibKey) (cert : Certificate)
  | SelfSign (now : Z) (k : PibKey)
  | SignData (data : DataValue) (info : SigningInfo)
  | SignBytes (buffer : list Z) (info : SigningInfo)
  | ImportSafeBag (bag : SafeBag) (password : option (list Z))
  | GetIdentity (name : Name)
  | GetDefaultIdentity
  | GetKey (h : PibIdentity) (name : Name)
  | GetDefaultKey (h : PibIdentity)
  | GetCertificate (k : PibKey) (name : Name)
  | GetDefaultCertificate (k : PibKey).

(** The arguments: names of generic components, which [==] tells apart; an identity whose keys have names that fit;
    certificates that are well formed. The handles may be dead or never have been of this key chain. *)
Definition good_call (c : Call) : Prop :=
  match c with
  | CreateIdentity _ name params => short_identity name /\ good_params params
  | DeleteIdentity h | SetDefaultIdentity h | GetDefaultKey h => good_identity h
  | CreateKey _ h params => short_identity h.1 /\ good_params params
  | DeleteKey h k | SetDefaultKey h k => good_identity h /\ good_key k
  | AddCertificate k cert | SetDefaultCertificate k cert => good_key k /\ well_formed cert
  | DeleteCertificate k name | GetCertificate k name => good_key k /\ plain name
  | SelfSign _ k => short_key k
  | SignData _ info | SignBytes _ info => good_info info
  | ImportSafeBag bag _ => good_bag bag
  | GetIdentity name => plain name
  | GetDefaultIdentity => True
  | GetKey h name => good_identity h /\ plain name
  | GetDefaultCertificate k => good_key k
  end.

Definition ignore {A} (m : Op KeyChain A) : Op KeyChain unit := _ ← m; mret tt.

Definition run_call (c : Call) : Op KeyChain unit :=
  match c with
  | CreateIdentity now name params => ignore (createIdentityV2 now name params)
  | DeleteIdentity h => deleteIdentity h
  | SetDefaultIdentity h => kc_setDefaultIdentity h
  | CreateKey now h params => ignore (kc_createKey now h params)
  | DeleteKey h k => deleteKey h k
  | SetDefaultKey h k => kc_setDefaultKey h k
  | AddCertificate k cert => kc_addCertificate k cert
  | DeleteCertificate k name => kc_deleteCertificate k name
  | SetDefaultCertificate k cert => kc_setDefaultCertificate k cert
  | SelfSign now k => ignore (selfSign now k)
  | SignData data info => ignore (sign_data data info)
  | SignBytes buffer info => ignore (sign_bytes buffer info)
  | ImportSafeBag bag password => importSafeBag bag password
  | GetIdentity name => ignore (on_pib (identities_get name))
  | GetDefaultIdentity => ignore (on_pib Pib_getDefaultIdentity)
  | GetKey h name => ignore (on_pib (keys_get h name))
  | GetDefaultKey h => ignore (on_pib (identity_getDefaultKey h))
  | GetCertificate k name => ignore (on_pib (certificates_get k name))
  | GetDefaultCertificate k => ignore (on_pib (key_getDefaultCertificate k))
  end.

(** The application goes on after an exception. *)
Definition run_calls (calls : list Call) (k : KeyChain) : KeyChain := fold_left (fun k c => state_of (run_call c k)) calls k.

Lemma ignore_ok {A} (m : Op KeyChain A) k Q : ensures kc_ok k m Q -> kc_ok (state_of (ignore m k)).
Proof. intros H. apply (ensures_bind kc_ok k m _ Q (fun _ _ => True)); [easy |]. intros a k' Hk' _. now apply ensures_ret. Qed.

Lemma on_pib_ok {A} (m : Op Pib A) k Q : kc_ok k -> ensures pib_ok (kc_pib_ k) m Q -> kc_ok (state_of (ignore (on_pib m) k)).
Proof. intros Hk Hm. eapply ignore_ok, ensures_on_pib; [easy | exact Hm]. Qed.

Lemma run_call_ok c k : kc_ok k -> good_call c -> kc_ok (state_of (run_call c k)).
Proof.
  intros Hk Hc. pose proof (proj1 Hk) as Hp. destruct c; cbn [good_call run_call] in *.
  - eapply ignore_ok. now apply createIdentityV2_ok.
  - now apply deleteIdentity_ok.
  - now apply kc_setDefaultIdentity_ok.
  - eapply ignore_ok. now apply kc_createKey_ok.
  - now apply deleteKey_ok.
  - now apply kc_setDefaultKey_ok.
  - now apply kc_addCertificate_ok.
  - now apply kc_deleteCertificate_ok.
  - now apply kc_setDefaultCertificate_ok.
  - eapply ignore_ok. now apply selfSign_ok.
  - eapply ignore_ok. now apply sign_data_ok.
  - apply ignore_ok with (Q := fun _ _ => True). unfold sign_bytes. eapply ensures_bind; [apply ensures_on_pib; [easy | now apply prepareSignatureInfo_ok] |].
    intros [sig name] k' Hk' [Hn _]. eapply ensures_weaken; [now apply sign_buffer_ok | easy].
  - now apply importSafeBag_ok.
  - eapply on_pib_ok; [easy | now apply identities_get_ok].
  - eapply on_pib_ok; [easy | now apply Pib_getDefaultIdentity_ok].
  - eapply on_pib_ok; [easy | now apply keys_get_ok].
  - eapply on_pib_ok; [easy | now apply identity_getDefaultKey_ok].
  - eapply on_pib_ok; [easy | now apply certificates_get_ok].
  - eapply on_pib_ok; [easy | now apply key_getDefaultCertificate_ok].
Qed.

(** What an inconsistent PIB would contradict. *)
Definition pib_consistent (p : Pib) : Prop :=
  mem_ok (pibImpl_ p) /\ identities_isConsistent p = true /\
  (forall n ii, (n, ii) ∈ pib_identities_ p -> keys_isConsistent ii p = Ok true) /\
  (forall n ii k ki, (n, ii) ∈ pib_identities_ p -> (k, ki) ∈ ii_keys_ ii ->
     certificates_isConsistent ki p = Ok true /\ (k, keyEncoding_ ki) ∈ mem_keys_ (pibImpl_ p) /\
     public_key_type (keyEncoding_ ki) = Ok (keyType_ ki) /\
     forall c cert, (c, cert) ∈ ki_certificates_ ki -> (c, cert) ∈ mem_certificates_ (pibImpl_ p)).

(** C11: the PIB stays consistent. An application makes any calls on a key chain that starts empty, with handles that may be
    dead, and however the calls fail; the names in the calls have generic components only, identities and keys have names
    that fit with the parts that are added, and the certificates that are added or imported are well formed and do not
    encapsulate X.509 certificates ([good_call]). Of the cryptography it is assumed that digests and random numbers are
    bytes, and that the public key of a private key is in a format that is recognized, which no bytes at all are not.
    Then every stored key has its identity, every certificate its key, and every default is stored
    and belongs to what it is the default of; and the containers that the application looks at have the names, keys
    and certificates that are stored. *)
Theorem key_chain_consistent scheme location tpmScheme tpmLocation (calls : list Call) :
  Forall good_call calls ->
  pib_consistent (kc_pib_ (run_calls calls (mkKeyChain (Pib_new scheme location PibMemory_new) (Tpm_new tpmScheme tpmLocation [])))).
Proof.
  intros Hc. set (k := mkKeyChain _ _).
  assert (Hk : kc_ok k) by (split; [apply pib_ok_new, mem_ok_new | split; apply map_ok_nil]).
  assert (Hrun : kc_ok (run_calls calls k)).
  { clearbody k. revert k Hk. unfold run_calls. induction Hc as [| c calls Hc _ IH]; intros k Hk; [easy |]. now apply IH, run_call_ok. }
  destruct Hrun as [Hp _]. destruct (pib_ok_consistent _ Hp) as (H1 & H2 & H3). split; [apply Hp |]. split_and!; [easy | easy |].
  intros n ii k' ki Hx Hkx. pose proof (io_key _ _ _ (po_identity _ Hp n ii Hx) k' ki Hkx) as Hki. split; [now apply (H3 n ii k') |].
  split_and!; [apply Hki | apply Hki |]. intros c cert Hcx. now apply Hki.
Qed.
End Consistent.

(** ** Examples

    A private key is its public key without the first byte. *)

#[local] Existing Instance toy_crypto.
Definition toy_keys : PrivateKeys := {|
  PrivateKey := list Z;
  generatePrivateKey := fun params => Ok [kp_size_ params];
  derivePublicKey := fun key => Ok (1 :: key);
  private_sign := fun key _ => Ok (1 :: key);
  private_decrypt := fun _ cipher => Ok cipher;
  export_key := fun key _ => Ok key;
  import_key := fun bits _ => Ok bits;
  random_bytes := fun n => be_encode 8 (Z.of_nat n);
  random_tries := 3;
  hmac_sha256 := fun key data => take 32 (key ++ data ++ repeat 0 32)
|}.
#[local] Existing Instance toy_keys.

Lemma toy_crypto_ok : crypto_ok.
Proof.
  split.
  - intros data. cbn. apply Forall_take, Forall_app. split.
    + apply Forall_map, Forall_forall. intros b _. cbn. unfold is_byte. pose proof (Z.mod_pos_bound b 256). lia.
    + repeat (constructor; [unfold is_byte; lia |]). constructor.
  - intros n. apply be_encode_ok.
  - intros key bits [= <-]. now exists KEY_TYPE_RSA.
  - easy.
Defined.

Definition alice : Name := [generic (chars "alice")].
Definition random_key : KeyParams := mkKeyParams (Some KEY_TYPE_RSA) 7 KEY_ID_TYPE_RANDOM (generic []).
Definition toy_chain : KeyChain := mkKeyChain (Pib_new [] [] PibMemory_new) (Tpm_new [] [] []).

(** An identity is created with a key and a certificate, is found again, and is deleted. *)
Definition alice_calls : list Call :=
  [CreateIdentity 1000 alice random_key; GetIdentity alice; CreateKey 2000 (alice, 0%nat) random_key;
   GetDefaultKey (alice, 0%nat); DeleteIdentity (alice, 0%nat); GetDefaultKey (alice, 0%nat)].

Example alice_run :
  let sizes k := let m := pibImpl_ (kc_pib_ k) in
    (length (mem_identityNames_ m), length (mem_keys_ m), length (mem_certificates_ m)) in
  sizes (run_calls (take 1 alice_calls) toy_chain) = (1, 1, 1)%nat /\
  sizes (run_calls (take 4 alice_calls) toy_chain) = (1, 2, 2)%nat /\
  sizes (run_calls alice_calls toy_chain) = (0, 0, 0)%nat /\
  result_of (run_call (GetDefaultKey (alice, 0%nat)) (run_calls alice_calls toy_chain))
  = Err (Exception "std::domain_error" "Invalid Identity instance").
Proof. vm_compute. auto. Qed.

Lemma plain_alice : plain alice.
Proof. split; [vm_compute; reflexivity |]. repeat constructor; unfold is_byte; lia. Defined.

Lemma key_chain_consistent_witness :
  Forall good_call alice_calls /\ pib_consistent (kc_pib_ (run_calls alice_calls toy_chain)).
Proof.
  assert (H : Forall good_call alice_calls).
  { assert (Ha : short_identity alice) by (split; [exact plain_alice | vm_compute; auto]). pose proof plain_alice.
    repeat constructor; try easy; try apply plain_alice; now vm_compute. }
  split; [exact H |]. exact (key_chain_consistent toy_crypto_ok [] [] [] [] alice_calls H).
Defined.

(** ** What modelling showed *)

Definition alice_key_name (v : Z) : Name := constructKeyName alice (generic [v]).
Definition two_keys : PibMemory := mem_addKey alice (alice_key_name 2) [1; 2] (mem_addKey alice (alice_key_name 1) [1; 1] PibMemory_new).

(** Removing a key that is not the default key forgets the default key. *)
Example removeKey_forgets_default :
  getDefaultKeyOfIdentity alice two_keys = Ok (alice_key_name 1) /\
  exists e, getDefaultKeyOfIdentity alice (state_of (mem_removeKey (alice_key_name 2) two_keys)) = Err e /\
    hasKey (alice_key_name 1) (state_of (mem_removeKey (alice_key_name 2) two_keys)) = true.
Proof. vm_compute. eauto. Qed.

(** The private keys of an identity that is deleted stay in the TPM when the identity object has not loaded them. *)
Example deleteIdentity_leaves_private_keys :
  let k := mkKeyChain (Pib_new [] [] two_keys) (Tpm_new [] [] (map_set [] (alice_key_name 1) [1])) in
  let k := state_of (run_call (GetIdentity alice) k) in
  let k' := state_of (run_call (DeleteIdentity (alice, 0%nat)) k) in
  mem_keys_ (pibImpl_ (kc_pib_ k')) = [] /\ tpm_hasKey (alice_key_name 1) (kc_tpm_ k') = true.
Proof. vm_compute. auto. Qed.

(** A key that is added again replaces the object to which the default key of the identity points. *)
Example readded_default_is_dead :
  let p := Pib_new [] [] two_keys in
  let h := (alice, 0%nat) in
  let run := fun p => _ ← identities_get alice; _ ← identity_getDefaultKey h; _ ← keys_add h [1; 1] (alice_key_name 1); identity_getDefaultKey h in
  match result_of (run p p) with
  | Ok k => find_key k (state_of (run p p)) = None
  | Err _ => False
  end.
Proof. vm_compute. auto. Qed.

(** A key in a format that is not recognized leaves its name in the container, which is then inconsistent. *)
Example unrecognized_key_is_named :
  let p := state_of ((_ ← identities_get alice; keys_add (alice, 0%nat) [0] (alice_key_name 3)) (Pib_new [] [] two_keys)) in
  match find_identity (alice, 0%nat) p with
  | Some ii => keys_isConsistent ii p = Ok false
  | None => False
  end.
Proof. vm_compute. auto. Qed.

(** An encapsulated X.509 certificate has a public key that is shorter than the content, with whose size it is read. *)
Example x509_public_key_overread :
  let data := toy_data (toy_cert_name alice) [] [48; 5; 6; 7; 8] [] in
  match parse_x509 [48; 5; 6; 7; 8] with
  | Ok info => key_bits_of (mkCertificate (mkDataPacket data None) (Some info)) = Err (Failed UndefinedBehaviour)
  | Err _ => False
  end.
Proof. vm_compute. auto. Qed.

(** Signing with a key that is not in the TPM gives a packet with an empty signature. *)
Example signed_without_key :
  let k := mkKeyChain (Pib_new [] [] two_keys) (Tpm_new [] [] []) in
  let data := (Some [5], (digest_signature, (alice, mkMetaInfoFields (-1000000) 0 (-1) (-1000000) (generic [])))) in
  match result_of (sign_data data (setSigningKeyName (alice_key_name 1)) k) with
  | Ok packet => signature_bits (data_signature (packet_value packet)) = []
  | Err _ => False
  end.
Proof. vm_compute. auto. Qed.
