(* ===== verification/Encryption.v ===== *)
(** * Ciphers, encrypted content and safe bags

    The wrappers of the ciphers of libcrypto (src/c/encrypt/algo/aes-algorithm_c.c, chacha20-algorithm_c.c), class
    [EncryptedContent] (src/encrypt/encrypted-content.cpp) with its methods in Tlv0_3WireFormat, and [SafeBag]
    (src/security/safe-bag.cpp). What libcrypto computes is a parameter. *)

From stdpp Require Import base list numbers option strings.
From Stdlib Require Import ZArith Lia.
From S2P Require Import Prelude Actions Encoder Decoder Blocks Name NameUri TlvName ChangeCounter ValidityPeriod Data TlvData TlvControl.
From S2P Require Import WireFormat Certificates NameMap Pib KeyChain.
Open Scope Z_scope.

(** ** Ciphers *)

(** What the [Update] and [Final] functions of a cipher write, and for ChaCha20 the tag and whether it is the expected
    one; a public key of [RsaPublicKeyLite], and random bytes: the [n]-th call for a number of bytes. *)
Class Evp := {
  EVP_aes_128_cbc_encrypt : forall key initialVector plainData : list Z, list Z;
  EVP_aes_128_cbc_decrypt : forall key initialVector encryptedData : list Z, list Z;
  EVP_aes_256_cbc_encrypt : forall key initialVector plainData : list Z, list Z;
  EVP_aes_256_cbc_decrypt : forall key initialVector encryptedData : list Z, list Z;
  EVP_aes_128_ecb_encrypt : forall key plainData : list Z, list Z;
  EVP_aes_128_ecb_decrypt : forall key encryptedData : list Z, list Z;
  EVP_chacha20_poly1305_encrypt : forall key nonce associatedData plainData : list Z, list Z * list Z;
  EVP_chacha20_poly1305_decrypt : forall key nonce associatedData encryptedData tag : list Z, list Z * bool;
  RsaPublicKey : Type;
  rsa_decode : list Z -> result ndn_Error RsaPublicKey;
  rsa_encrypt_pkcs : RsaPublicKey -> list Z -> result ndn_Error (list Z);
  rsa_encrypt_oaep : RsaPublicKey -> list Z -> result ndn_Error (list Z);
  generateRandomBytes : nat -> Z -> result ndn_Error (list Z)
}.

Definition ndn_AES_BLOCK_LENGTH : Z := 16.
Definition ndn_AES_128_KEY_LENGTH : Z := 16.
Definition ndn_AES_256_KEY_LENGTH : Z := 32.
Definition ndn_POLY1305_BLOCK_LENGTH : Z := 16.
Definition ndn_CHACHA20_KEY_LENGTH : Z := 32.
Definition ndn_CHACHA20_NONCE_LENGTH : Z := 12.

(** The values of [ndn_EncryptAlgorithmType]. *)
Definition ndn_EncryptAlgorithmType_AesCbc : Z := 1.
Definition ndn_EncryptAlgorithmType_ChaCha20Poly1305 : Z := 4.

Section Ciphers.
Context `{Evp}.

(** The checks of the key and of the initial vector. *)
Definition check_sizes (key : list Z) (keyLength : Z) (initialVector : list Z) (initialVectorLength : Z) : result ndn_Error unit :=
  if negb (zlen key =? keyLength) then Err NDN_ERROR_Incorrect_key_size
  else if negb (zlen initialVector =? initialVectorLength) then Err NDN_ERROR_Incorrect_initial_vector_size
  else Ok tt.

(** The status of [EVP_DecryptFinal] is not looked at. *)
Definition ndn_AesAlgorithm_decrypt128Cbc (key initialVector encryptedData : list Z) : result ndn_Error (list Z) :=
  _ ← check_sizes key ndn_AES_128_KEY_LENGTH initialVector ndn_AES_BLOCK_LENGTH;
  mret (EVP_aes_128_cbc_decrypt key initialVector encryptedData).
Definition ndn_AesAlgorithm_decrypt256Cbc (key initialVector encryptedData : list Z) : result ndn_Error (list Z) :=
  _ ← check_sizes key ndn_AES_256_KEY_LENGTH initialVector ndn_AES_BLOCK_LENGTH;
  mret (EVP_aes_256_cbc_decrypt key initialVector encryptedData).
Definition ndn_AesAlgorithm_decrypt128Ecb (key encryptedData : list Z) : result ndn_Error (list Z) :=
  if negb (zlen key =? ndn_AES_128_KEY_LENGTH) then Err NDN_ERROR_Incorrect_key_size
  else Ok (EVP_aes_128_ecb_decrypt key encryptedData).
Definition ndn_AesAlgorithm_encrypt128Cbc (key initialVector plainData : list Z) : result ndn_Error (list Z) :=
  _ ← check_sizes key ndn_AES_128_KEY_LENGTH initialVector ndn_AES_BLOCK_LENGTH;
  mret (EVP_aes_128_cbc_encrypt key initialVector plainData).
Definition ndn_AesAlgorithm_encrypt256Cbc (key initialVector plainData : list Z) : result ndn_Error (list Z) :=
  _ ← check_sizes key ndn_AES_256_KEY_LENGTH initialVector ndn_AES_BLOCK_LENGTH;
  mret (EVP_aes_256_cbc_encrypt key initialVector plainData).
Definition ndn_AesAlgorithm_encrypt128Ecb (key plainData : list Z) : result ndn_Error (list Z) :=
  if negb (zlen key =? ndn_AES_128_KEY_LENGTH) then Err NDN_ERROR_Incorrect_key_size
  else Ok (EVP_aes_128_ecb_encrypt key plainData).

(** The tag is at the end of the encrypted data. *)
Definition ndn_ChaCha20Algorithm_decryptPoly1305 (key nonce encryptedData associatedData : list Z) : result ndn_Error (list Z) :=
  _ ← check_sizes key ndn_CHACHA20_KEY_LENGTH nonce ndn_CHACHA20_NONCE_LENGTH;
  if zlen encryptedData <? ndn_POLY1305_BLOCK_LENGTH then Err NDN_ERROR_Error_in_decrypt_operation
  else
    let n := (length encryptedData - Z.to_nat ndn_POLY1305_BLOCK_LENGTH)%nat in
    let '(plainData, finalStatus) := EVP_chacha20_poly1305_decrypt key nonce associatedData (take n encryptedData) (drop n encryptedData) in
    if finalStatus : bool then Ok plainData else Err NDN_ERROR_Error_in_decrypt_operation.
Definition ndn_ChaCha20Algorithm_encryptPoly1305 (key nonce plainData associatedData : list Z) : result ndn_Error (list Z) :=
  _ ← check_sizes key ndn_CHACHA20_KEY_LENGTH nonce ndn_CHACHA20_NONCE_LENGTH;
  let '(encryptedData, tag) := EVP_chacha20_poly1305_encrypt key nonce associatedData plainData in
  Ok (encryptedData ++ tag).
End Ciphers.

(** ** Encrypted content *)

Record EncryptedContent := mkEncrypted {
  algorithmType_ : Z;
  keyLocator_ : KeyLocatorValue;
  initialVector_ : Blob;
  payload_ : Blob;
  payloadKey_ : Blob
}.

Definition EncryptedContent_new : EncryptedContent := mkEncrypted (-1) ndn_KeyLocator_initial None None None.

Definition set_algorithmType (algorithmType : Z) (c : EncryptedContent) : EncryptedContent :=
  mkEncrypted algorithmType (keyLocator_ c) (initialVector_ c) (payload_ c) (payloadKey_ c).
Definition setKeyLocatorName (keyName : Name) (c : EncryptedContent) : EncryptedContent :=
  mkEncrypted (algorithmType_ c) (mkKeyLocatorFields KEYNAME (keyData_ (keyLocator_ c).1), keyName) (initialVector_ c) (payload_ c) (payloadKey_ c).
Definition setInitialVector (initialVector : Blob) (c : EncryptedContent) : EncryptedContent :=
  mkEncrypted (algorithmType_ c) (keyLocator_ c) initialVector (payload_ c) (payloadKey_ c).
Definition setPayload (payload : Blob) (c : EncryptedContent) : EncryptedContent :=
  mkEncrypted (algorithmType_ c) (keyLocator_ c) (initialVector_ c) payload (payloadKey_ c).
Definition setPayloadKey (payloadKey : Blob) (c : EncryptedContent) : EncryptedContent :=
  mkEncrypted (algorithmType_ c) (keyLocator_ c) (initialVector_ c) (payload_ c) payloadKey.

Definition getKeyLocatorName (c : EncryptedContent) : result exn Name :=
  match kl_type_ (keyLocator_ c).1 with
  | KEYNAME => Ok (keyLocator_ c).2
  | _ => Err (RuntimeError "getKeyLocatorName: The KeyLocator type must be KEYNAME")
  end.

(** [get] and [set]. *)
Definition EncryptedContent_get (self : EncryptedContent) : result exn ndn_EncryptedContent :=
  keyLocator ← KeyLocator_get (keyLocator_ self);
  mret (mkEncryptedContent (algorithmType_ self) keyLocator (initialVector_ self) (payload_ self) (payloadKey_ self)).
Definition EncryptedContent_set (lite : ndn_EncryptedContent) : EncryptedContent :=
  mkEncrypted (ec_algorithmType lite)
    (match kl_type_ (ec_keyLocator lite).1 with
     | KEYNAME => ec_keyLocator lite
     | _ => ((ec_keyLocator lite).1, [])
     end) (ec_initialVector lite) (ec_payload lite) (ec_payloadKey lite).

Definition wireEncodeV2 (encryptedContent : EncryptedContent) : result exn (list Z) :=
  lite ← EncryptedContent_get encryptedContent;
  throw_error (TlvEncoder_run 256 (encodeTlvEncryptedContentV2 lite)).
Definition wireDecodeV2 (input : list Z) : result exn EncryptedContent :=
  '(lite, _) ← throw_failure (decodeTlvEncryptedContentV2 max_components (TlvDecoder_initialize input));
  mret (EncryptedContent_set lite).

(** ** Safe bags *)

Definition ndn_Tlv_SafeBag_SafeBag : Z := 128.
Definition ndn_Tlv_SafeBag_EncryptedKeyBag : Z := 129.

Definition Data_object : DataObject := object_ (data_cached (Data_new [] (mkMetaInfoFields (-1) 0 (-1) (-1) (generic [])))).

(** [wireDecode] of a new [Data]. *)
Definition Data_packet (input : list Z) : result exn DataPacket :=
  '(data, signedPortion) ← decodeData input Data_object;
  mret (mkDataPacket (value_of data) (Some (input, signedPortion))).

(** [SafeBag::wireDecode], up to the certificate and after it; [finishNestedTlvs] of the C++ decoder takes an [int]. *)
Definition SafeBag_certificate : Dec (Z * list Z) :=
  endOffset ← readNestedTlvsStart ndn_Tlv_SafeBag_SafeBag;
  certificateBeginOffset ← get_offset;
  certificateEndOffset ← readNestedTlvsStart ndn_Tlv_Data;
  _ ← Decoder.seek certificateEndOffset;
  certificate ← slice_blob certificateBeginOffset certificateEndOffset;
  mret (endOffset, certificate).
Definition SafeBag_keyBag (endOffset : Z) : Dec (list Z) :=
  privateKeyBag ← readBlob ndn_Tlv_SafeBag_EncryptedKeyBag;
  _ ← finishNestedTlvs (wrap64 (to_int32 endOffset));
  mret privateKeyBag.

Definition SafeBag_wireDecode (input : list Z) : result exn SafeBag :=
  '((endOffset, certificate), decoder) ← throw_failure (SafeBag_certificate (TlvDecoder_initialize input));
  certificate ← Data_packet certificate;
  '(privateKeyBag, _) ← throw_failure (SafeBag_keyBag endOffset decoder);
  mret (mkSafeBag certificate privateKeyBag).

Definition SafeBag_wireEncode (safeBag : SafeBag) : result exn (list Z) :=
  certificate ← packet_wireEncode (sb_certificate_ safeBag);
  throw_error (TlvEncoder_run 256
    (writeNestedTlv ndn_Tlv_SafeBag_SafeBag
       (writeArray certificate.1 >;> writeBlobTlv ndn_Tlv_SafeBag_EncryptedKeyBag (privateKeyBag_ safeBag)) false)).

(** The name, content and MetaInfo of the certificate, and its signature of the type of the key; [now] is in milliseconds. *)
Section SelfSigned.
Context `{Crypto} `{PrivateKeys}.

Definition makeSelfSignedCertificate (now : Z) (keyName : Name) (privateKeyBag publicKeyEncoding : list Z) (password : option (list Z)) :
    result exn Certificate :=
  certificateName ← self_signed_name keyName now;
  keyType ← public_key_type publicKeyEncoding;
  let '(tpm, _, imported) := importPrivateKey keyName privateKeyBag password (Tpm_new [] [] []) in
  _ ← imported;
  let signatureInfo : SignatureValue :=
    (match keyType with KEY_TYPE_RSA => Sha256WithRsaSignature None | KEY_TYPE_EC => Sha256WithEcdsaSignature None end,
     ((mkKeyLocatorFields KEYNAME None, keyName), ValidityPeriod_setPeriod now (now + twenty_years))) in
  let data := with_signature signatureInfo (unsigned_certificate certificateName publicKeyEncoding) in
  encoding ← encodeData data;
  bits ← result_of (tpm_sign (signed_portion encoding) keyName tpm);
  let data := with_signature (with_bits bits signatureInfo) data in
  encoding ← encodeData data;
  mret (mkCertificate (mkDataPacket data (Some encoding)) None).

Definition SafeBag_new (now : Z) (keyName : Name) (privateKeyBag publicKeyEncoding : list Z) (password : option (list Z)) : result exn SafeBag :=
  certificate ← makeSelfSignedCertificate now keyName privateKeyBag publicKeyEncoding password;
  mret (mkSafeBag (cert_data certificate) privateKeyBag).
End SelfSigned.
