(* ===== verification/Encryptor.v ===== *)
(** * EncryptorV2

    src/encrypt/encryptor-v2.cpp: a list of key managers, each with a content key of its own (CK), which it publishes for
    the members of an access group, or with a group content key (GCK), which it fetches from an access manager. The
    methods are operations on the whole object; a key manager is its index. The validator calls back later, as do the
    answers to Interests and delayed calls, which are operations of their own; the callbacks of the application are
    parameters, and may call the encryptor again. Messages of errors are left out. *)

From stdpp Require Import base gmap list numbers option strings.
From Stdlib Require Import ZArith Lia.
From S2P Require Import Prelude Order Actions Name NameUri ChangeCounter Data TlvData Interest WireFormat Publisher Certificates NameMap Pib KeyChain Encryption.
Open Scope Z_scope.

(** The deprecated codes that are not used are left out. *)
Inductive EncryptErrorCode :=
  | KekRetrievalFailure | KekRetrievalTimeout | KekInvalidName
  | KdkRetrievalFailure | KdkRetrievalTimeout | KdkInvalidName | KdkDecryptionFailure
  | CkRetrievalFailure | CkRetrievalTimeout | CkInvalidName
  | MissingRequiredKeyLocator | TpmKeyNotFound | EncryptionFailure | DecryptionFailure | MissingRequiredInitialVector
  | General
  | InvalidEncryptedFormat.

(** [EncryptorV2::Values]. *)
Definition NAME_COMPONENT_ENCRYPTED_BY : Component := generic (chars "ENCRYPTED-BY").
Definition NAME_COMPONENT_NAC : Component := generic (chars "NAC").
Definition NAME_COMPONENT_KEK : Component := generic (chars "KEK").
Definition NAME_COMPONENT_KDK : Component := generic (chars "KDK").
Definition NAME_COMPONENT_CK : Component := generic (chars "CK").
Definition NAME_COMPONENT_GCK : Component := generic (chars "GCK").
Definition NAME_COMPONENT_LATEST : Component := generic (chars "_latest").

Definition AES_KEY_SIZE : Z := 32.
Definition AES_IV_SIZE : Z := 16.
Definition N_RETRIES : Z := 3.

(** In nanoseconds. *)
Definition RETRY_DELAY_AFTER_NACK : Z := 1000000000.
Definition RETRY_DELAY_KEK_RETRIEVAL : Z := 60000000000.
Definition DEFAULT_CK_FRESHNESS_PERIOD : Z := 3600000000000.

(** What the application is called back for: the content, or the packet that has it. *)
Inductive OnEncryptSuccess :=
  | OnContent (request : Z)
  | OnData (request : Z) (data : DataValue)
  | OnInterest (request : Z) (interest : Interest).

(** The callback for errors: one of its own, or that of the constructor. *)
Abbreviation OnError := (option Z).

(** What an Interest of the encryptor is for; [FetchKek] and [FetchGck] have the tries that are left. *)
Inductive EncryptorHandler :=
  | FetchKek (keyManager : nat) (nTriesLeft : Z)
  | CheckLatest (keyManager : nat)
  | FetchGck (keyManager : nat) (gckName : Name) (nTriesLeft : Z).

Inductive EncryptorLater := LaterRetryKek (keyManager : nat) | LaterFetchKek (keyManager : nat) (nTriesLeft : Z).

Inductive EncryptorCall :=
  | EncExpress (name : Name) (mustBeFresh : bool) (interestLifetime : option Z) (handler : EncryptorHandler)
  | EncRegisterPrefix (prefix : Name) (keyManager : nat)
  | EncUnsetInterestFilter (interestFilterId : Z)
  | EncRemovePendingInterest (pendingInterestId : Z)
  | EncCallLater (delay : Z) (later : EncryptorLater)
  | EncValidate (data : DataValue) (handler : EncryptorHandler)
  | EncPutData (data : DataValue)
  | EncSuccess (onSuccess : OnEncryptSuccess) (content : EncryptedContent)
  | EncError (onError : OnError) (code : EncryptErrorCode).

Record PendingEncrypt := mkPendingEncrypt {
  plainData_ : list Z;
  associatedData_ : list Z;
  pending_onSuccess : OnEncryptSuccess;
  pending_onError : OnError
}.

Record KeyManager := mkKeyManager {
  accessPrefix_ : Name;
  ckName_ : Name;
  ckBits_ : list Z;
  ckPrefix_ : Name;
  isKekRetrievalInProgress_ : bool;
  kekData_ : option DataValue;
  ckDataSigningInfo_ : SigningInfo;
  km_storage_ : Storage;
  ckRegisteredPrefixId_ : Z;
  kekPendingInterestId_ : Z;
  nextCheckForNewGck_ : Z;
  isGckRetrievalInProgress_ : bool;
  gckLatestPrefix_ : Name;
  gckPendingInterestId_ : Z;
  accessManagerIsResponding_ : bool;
  nextGckReceiptTime_ : Z;
  nextGckName_ : Name;
  nextGckBits_ : Blob
}.

Section Encryptor.
Context `{Crypto} `{PrivateKeys} `{Evp}.
(** [Data::getFullName], and what [expressInterest] and [registerPrefix] of the face return or throw: the [n]-th call. *)
Context (getFullName : DataValue -> Name) (face_call : nat -> Name -> result exn Z).
(** The members that do not change. *)
Context (credentialsKey_ : option PibKey) (encryptorAlgorithmType_ : Z).

(** The key chain is the one that the encryptor points to; the numbers of random values and of calls of the face are
    counted. *)
Record Encryptor := mkEncryptor {
  checkForNewGckInterval_ : Z;
  gckLatestInterestLifetime_ : Z;
  pendingEncrypts_ : list PendingEncrypt;
  keyManagers_ : list KeyManager;
  iKeyManagerLastEncryption_ : Z;
  contentKeys_ : NameMap (list Z);
  enc_keyChain_ : KeyChain;
  enc_randoms : nat;
  enc_faceCalls : nat
}.

Abbreviation EncOp := (Act Encryptor EncryptorCall).

(** The callbacks of the application. *)
Context (app_onSuccess : OnEncryptSuccess -> EncryptedContent -> EncOp unit).
Context (app_onError : OnError -> EncryptErrorCode -> EncOp unit).

(** ** Parts of the object *)

Definition set_intervals (check_ latest : Z) (e : Encryptor) : Encryptor :=
  mkEncryptor check_ latest (pendingEncrypts_ e) (keyManagers_ e) (iKeyManagerLastEncryption_ e) (contentKeys_ e)
    (enc_keyChain_ e) (enc_randoms e) (enc_faceCalls e).
Definition set_pendingEncrypts (l : list PendingEncrypt) (e : Encryptor) : Encryptor :=
  mkEncryptor (checkForNewGckInterval_ e) (gckLatestInterestLifetime_ e) l (keyManagers_ e) (iKeyManagerLastEncryption_ e)
    (contentKeys_ e) (enc_keyChain_ e) (enc_randoms e) (enc_faceCalls e).
Definition set_keyManagers (l : list KeyManager) (e : Encryptor) : Encryptor :=
  mkEncryptor (checkForNewGckInterval_ e) (gckLatestInterestLifetime_ e) (pendingEncrypts_ e) l (iKeyManagerLastEncryption_ e)
    (contentKeys_ e) (enc_keyChain_ e) (enc_randoms e) (enc_faceCalls e).
Definition set_lastEncryption (i : Z) (e : Encryptor) : Encryptor :=
  mkEncryptor (checkForNewGckInterval_ e) (gckLatestInterestLifetime_ e) (pendingEncrypts_ e) (keyManagers_ e) i
    (contentKeys_ e) (enc_keyChain_ e) (enc_randoms e) (enc_faceCalls e).
Definition set_contentKeys (m : NameMap (list Z)) (e : Encryptor) : Encryptor :=
  mkEncryptor (checkForNewGckInterval_ e) (gckLatestInterestLifetime_ e) (pendingEncrypts_ e) (keyManagers_ e)
    (iKeyManagerLastEncryption_ e) m (enc_keyChain_ e) (enc_randoms e) (enc_faceCalls e).
Definition set_keyChain (k : KeyChain) (e : Encryptor) : Encryptor :=
  mkEncryptor (checkForNewGckInterval_ e) (gckLatestInterestLifetime_ e) (pendingEncrypts_ e) (keyManagers_ e)
    (iKeyManagerLastEncryption_ e) (contentKeys_ e) k (enc_randoms e) (enc_faceCalls e).
Definition set_counts (randoms faceCalls : nat) (e : Encryptor) : Encryptor :=
  mkEncryptor (checkForNewGckInterval_ e) (gckLatestInterestLifetime_ e) (pendingEncrypts_ e) (keyManagers_ e)
    (iKeyManagerLastEncryption_ e) (contentKeys_ e) (enc_keyChain_ e) randoms faceCalls.

(** The fields of a key manager that change. *)
Definition km_key (ckName : Name) (ckBits : list Z) (m : KeyManager) : KeyManager :=
  mkKeyManager (accessPrefix_ m) ckName ckBits (ckPrefix_ m) (isKekRetrievalInProgress_ m) (kekData_ m) (ckDataSigningInfo_ m)
    (km_storage_ m) (ckRegisteredPrefixId_ m) (kekPendingInterestId_ m) (nextCheckForNewGck_ m) (isGckRetrievalInProgress_ m)
    (gckLatestPrefix_ m) (gckPendingInterestId_ m) (accessManagerIsResponding_ m) (nextGckReceiptTime_ m) (nextGckName_ m) (nextGckBits_ m).
Definition km_kek (inProgress : bool) (kekData : option DataValue) (pendingId : Z) (storage : Storage) (m : KeyManager) : KeyManager :=
  mkKeyManager (accessPrefix_ m) (ckName_ m) (ckBits_ m) (ckPrefix_ m) inProgress kekData (ckDataSigningInfo_ m)
    storage (ckRegisteredPrefixId_ m) pendingId (nextCheckForNewGck_ m) (isGckRetrievalInProgress_ m)
    (gckLatestPrefix_ m) (gckPendingInterestId_ m) (accessManagerIsResponding_ m) (nextGckReceiptTime_ m) (nextGckName_ m) (nextGckBits_ m).
Definition km_kekInProgress (b : bool) (m : KeyManager) : KeyManager := km_kek b (kekData_ m) (kekPendingInterestId_ m) (km_storage_ m) m.
Definition km_kekData (d : option DataValue) (m : KeyManager) : KeyManager :=
  km_kek (isKekRetrievalInProgress_ m) d (kekPendingInterestId_ m) (km_storage_ m) m.
Definition km_kekPending (id : Z) (m : KeyManager) : KeyManager := km_kek (isKekRetrievalInProgress_ m) (kekData_ m) id (km_storage_ m) m.
Definition km_stored (storage : Storage) (m : KeyManager) : KeyManager :=
  km_kek (isKekRetrievalInProgress_ m) (kekData_ m) (kekPendingInterestId_ m) storage m.
Definition km_registered (id : Z) (m : KeyManager) : KeyManager :=
  mkKeyManager (accessPrefix_ m) (ckName_ m) (ckBits_ m) (ckPrefix_ m) (isKekRetrievalInProgress_ m) (kekData_ m) (ckDataSigningInfo_ m)
    (km_storage_ m) id (kekPendingInterestId_ m) (nextCheckForNewGck_ m) (isGckRetrievalInProgress_ m)
    (gckLatestPrefix_ m) (gckPendingInterestId_ m) (accessManagerIsResponding_ m) (nextGckReceiptTime_ m) (nextGckName_ m) (nextGckBits_ m).
Definition km_gck (nextCheck : Z) (inProgress : bool) (pendingId : Z) (responding : bool) (m : KeyManager) : KeyManager :=
  mkKeyManager (accessPrefix_ m) (ckName_ m) (ckBits_ m) (ckPrefix_ m) (isKekRetrievalInProgress_ m) (kekData_ m) (ckDataSigningInfo_ m)
    (km_storage_ m) (ckRegisteredPrefixId_ m) (kekPendingInterestId_ m) nextCheck inProgress
    (gckLatestPrefix_ m) pendingId responding (nextGckReceiptTime_ m) (nextGckName_ m) (nextGckBits_ m).
Definition km_nextCheck (t : Z) (m : KeyManager) : KeyManager :=
  km_gck t (isGckRetrievalInProgress_ m) (gckPendingInterestId_ m) (accessManagerIsResponding_ m) m.
Definition km_gckInProgress (b : bool) (m : KeyManager) : KeyManager :=
  km_gck (nextCheckForNewGck_ m) b (gckPendingInterestId_ m) (accessManagerIsResponding_ m) m.
Definition km_gckPending (id : Z) (m : KeyManager) : KeyManager :=
  km_gck (nextCheckForNewGck_ m) (isGckRetrievalInProgress_ m) id (accessManagerIsResponding_ m) m.
Definition km_responding (b : bool) (m : KeyManager) : KeyManager :=
  km_gck (nextCheckForNewGck_ m) (isGckRetrievalInProgress_ m) (gckPendingInterestId_ m) b m.
Definition km_next (receiptTime : Z) (name : Name) (bits : Blob) (m : KeyManager) : KeyManager :=
  mkKeyManager (accessPrefix_ m) (ckName_ m) (ckBits_ m) (ckPrefix_ m) (isKekRetrievalInProgress_ m) (kekData_ m) (ckDataSigningInfo_ m)
    (km_storage_ m) (ckRegisteredPrefixId_ m) (kekPendingInterestId_ m) (nextCheckForNewGck_ m) (isGckRetrievalInProgress_ m)
    (gckLatestPrefix_ m) (gckPendingInterestId_ m) (accessManagerIsResponding_ m) receiptTime name bits.
Definition km_dropNext (m : KeyManager) : KeyManager := km_next (nextGckReceiptTime_ m) (nextGckName_ m) None m.

(** The key manager with an index, and a change of it. *)
Definition km (i : nat) : EncOp KeyManager :=
  e ← self_get;
  match keyManagers_ e !! i with Some m => mret m | None => throw_exn (Failed UndefinedBehaviour) end.
Definition km_modify (i : nat) (f : KeyManager -> KeyManager) : EncOp unit :=
  self_modify (fun e => set_keyManagers (alter f i (keyManagers_ e)) e).

Definition on_keyChain {A} (m : Op KeyChain A) : EncOp A := fun e =>
  let '(k, _, r) := m (enc_keyChain_ e) in (set_keyChain k e, [], r).

Definition random_value (size : Z) : EncOp (list Z) :=
  e ← self_get;
  _ ← self_modify (set_counts (S (enc_randoms e)) (enc_faceCalls e));
  returns (throw_error (generateRandomBytes (enc_randoms e) size)).

(** An Interest with [setCanBePrefix(true)]; the id of the pending Interest. *)
Definition enc_express (name : Name) (mustBeFresh : bool) (interestLifetime : option Z) (handler : EncryptorHandler) : EncOp Z :=
  e ← self_get;
  _ ← self_modify (set_counts (enc_randoms e) (S (enc_faceCalls e)));
  id ← returns (face_call (enc_faceCalls e) name);
  _ ← perform (EncExpress name mustBeFresh interestLifetime handler);
  mret id.
Definition enc_registerPrefix (prefix : Name) (i : nat) : EncOp Z :=
  e ← self_get;
  _ ← self_modify (set_counts (enc_randoms e) (S (enc_faceCalls e)));
  id ← returns (face_call (enc_faceCalls e) prefix);
  _ ← perform (EncRegisterPrefix prefix i);
  mret id.

Definition call_onError (onError : OnError) (code : EncryptErrorCode) : EncOp unit :=
  _ ← perform (EncError onError code); app_onError onError code.

Definition isUsingGck : bool := match credentialsKey_ with Some _ => true | None => false end.
Definition credentials_name : EncOp Name :=
  match credentialsKey_ with
  | Some k => on_keyChain (on_pib (PibKey_getName k))
  | None => throw_exn (Failed UndefinedBehaviour)
  end.

(** ** Callbacks of the application *)

Definition appendParametersDigestToName (interest : Interest) : result exn Interest :=
  match applicationParameters_ (interest_value interest).1 with
  | Some ((_ :: _) as parameters) =>
      component ← fromParametersSha256Digest (digest_sha256 parameters);
      mret (getName_modify (name_obj_append component) interest)
  | _ => Ok interest
  end.

(** The callback; for a packet, the one that the encryptor makes first puts the content into it. *)
Definition run_onSuccess (onSuccess : OnEncryptSuccess) (content : EncryptedContent) : EncOp unit :=
  onSuccess ← returns (match onSuccess with
    | OnContent request => mret (OnContent request)
    | OnData request data => encoding ← wireEncodeV2 content; mret (OnData request (Some encoding, data.2))
    | OnInterest request interest =>
        encoding ← wireEncodeV2 content;
        interest ← appendParametersDigestToName (setApplicationParameters (Some encoding) interest);
        mret (OnInterest request interest)
    end);
  _ ← perform (EncSuccess onSuccess content);
  app_onSuccess onSuccess content.

(** An exception is logged. *)
Definition call_onSuccess (onSuccess : OnEncryptSuccess) (content : EncryptedContent) : EncOp unit :=
  try_catch (run_onSuccess onSuccess content) (mret tt).

(** ** Encryption *)

Definition checkForNewGck (i : nat) : EncOp unit :=
  m ← km i;
  if isGckRetrievalInProgress_ m then mret tt
  else
    _ ← km_modify i (km_gckInProgress true);
    try_catch (_ ← enc_express (gckLatestPrefix_ m) true None (CheckLatest i); mret tt) (km_modify i (km_gckInProgress false)).

Definition isKeyReady (now : Z) (i : nat) : EncOp bool :=
  if isUsingGck then
    m ← km i;
    e ← self_get;
    if zlen (ckName_ m) =? 0 then
      _ ← (if negb (isGckRetrievalInProgress_ m)
           then _ ← km_modify i (km_nextCheck (now + checkForNewGckInterval_ e)); checkForNewGck i
           else mret tt);
      mret false
    else
      _ ← (if nextCheckForNewGck_ m <? now then
             _ ← km_modify i (km_nextCheck (now + checkForNewGckInterval_ e));
             if negb (isGckRetrievalInProgress_ m) then checkForNewGck i else mret tt
           else mret tt);
      m ← km i;
      if (1 <? length (keyManagers_ e))%nat then mret (accessManagerIsResponding_ m) else mret true
  else mret true.

(** [KeyManager::encrypt]; nothing when there is no key yet. *)
Definition km_encrypt (i : nat) (plainData associatedData : list Z) : EncOp (option EncryptedContent) :=
  m ← km i;
  if isUsingGck && (zlen (ckName_ m) =? 0) then mret None
  else
    let content := EncryptedContent_new in
    '(content, encryptedData) ←
      (if encryptorAlgorithmType_ =? ndn_EncryptAlgorithmType_ChaCha20Poly1305 then
         initialVector ← random_value ndn_CHACHA20_NONCE_LENGTH;
         encryptedData ← returns (match ndn_ChaCha20Algorithm_encryptPoly1305 (ckBits_ m) initialVector plainData associatedData with
                                  | Ok bytes => Ok bytes | Err _ => Err (RuntimeError "ChaCha20Algorithm") end);
         mret (set_algorithmType encryptorAlgorithmType_ (setInitialVector (Some initialVector) content), encryptedData)
       else
         initialVector ← random_value AES_IV_SIZE;
         encryptedData ← returns (match ndn_AesAlgorithm_encrypt256Cbc (ckBits_ m) initialVector plainData with
                                  | Ok bytes => Ok bytes | Err _ => Err (RuntimeError "AesAlgorithm") end);
         mret (setInitialVector (Some initialVector) content, encryptedData));
    mret (Some (set_algorithmType encryptorAlgorithmType_ (setKeyLocatorName (ckName_ m) (setPayload (Some encryptedData) content)))).

(** The loop over the key managers that are ready. *)
Fixpoint try_managers (now : Z) (managers : list nat) (plainData associatedData : list Z) : EncOp (option EncryptedContent) :=
  match managers with
  | [] => mret None
  | i :: managers =>
      ready ← isKeyReady now i;
      if negb ready then try_managers now managers plainData associatedData
      else
        encryptedContent ← km_encrypt i plainData associatedData;
        match encryptedContent with
        | Some content => _ ← self_modify (set_lastEncryption (Z.of_nat i)); mret (Some content)
        | None => try_managers now managers plainData associatedData
        end
  end.

Definition all_managers : EncOp (list nat) := e ← self_get; mret (seq 0 (length (keyManagers_ e))).

(** [encrypt] with a content at once. *)
Definition encrypt_now (now : Z) (plainData associatedData : list Z) : EncOp EncryptedContent :=
  managers ← all_managers;
  encryptedContent ← try_managers now managers plainData associatedData;
  match encryptedContent with
  | Some content => mret content
  | None =>
      e ← self_get;
      encryptedContent ← (if iKeyManagerLastEncryption_ e >=? 0
                          then km_encrypt (Z.to_nat (iKeyManagerLastEncryption_ e)) plainData associatedData else mret None);
      match encryptedContent with
      | Some content => mret content
      | None => throw_exn (RuntimeError "EncryptorV2 has not fetched the first group content key (GCK)")
      end
  end.

(** The loop of [processPendingEncrypts], which reads the list again in each turn: a callback may have changed it. *)
Fixpoint pending_loop (fuel : nat) (now : Z) (i : nat) : EncOp unit :=
  match fuel with
  | O => throw_exn (Failed OutOfFuel)
  | S fuel =>
      e ← self_get;
      match pendingEncrypts_ e !! i with
      | None => mret tt
      | Some pendingEncrypt =>
          encryptedContent ← encrypt_now now (plainData_ pendingEncrypt) (associatedData_ pendingEncrypt);
          _ ← call_onSuccess (pending_onSuccess pendingEncrypt) encryptedContent;
          pending_loop fuel now (S i)
      end
  end.

Definition processPendingEncrypts (now : Z) : EncOp unit :=
  e ← self_get;
  match pendingEncrypts_ e with
  | [] => mret tt
  | _ =>
      _ ← pending_loop (S (length (pendingEncrypts_ e))) now 0;
      self_modify (set_pendingEncrypts [])
  end.

Fixpoint any_ready (now : Z) (managers : list nat) (canEncrypt : bool) : EncOp bool :=
  match managers with
  | [] => mret canEncrypt
  | i :: managers => ready ← isKeyReady now i; any_ready now managers (ready || canEncrypt)
  end.

(** [encrypt] with callbacks; after an error there is no content. *)
Definition encrypt_async (now : Z) (plainData associatedData : list Z) (onSuccess : OnEncryptSuccess) (onError : OnError) : EncOp unit :=
  managers ← all_managers;
  canEncrypt ← any_ready now managers false;
  e ← self_get;
  if canEncrypt || (iKeyManagerLastEncryption_ e >=? 0) then
    encryptedContent ← try_catch (_ ← processPendingEncrypts now; content ← encrypt_now now plainData associatedData; mret (Some content))
                         (_ ← call_onError onError EncryptionFailure; mret None);
    match encryptedContent with
    | Some content => call_onSuccess onSuccess content
    | None => call_onError onError EncryptionFailure
    end
  else self_modify (fun e => set_pendingEncrypts (pendingEncrypts_ e ++ [mkPendingEncrypt plainData associatedData onSuccess onError]) e).

(** [encrypt] of a Data packet and of an Interest, whose names are the associated data. *)
Definition encrypt_data (now : Z) (request : Z) (data : DataValue) (onError : OnError) : EncOp unit :=
  associatedData ← returns (encodeName (data_name data));
  encrypt_async now (blob_bytes (data_content data)) associatedData (OnData request data) onError.

Definition encrypt_interest (now : Z) (request : Z) (interest : Interest) (onError : OnError) : EncOp unit :=
  if negb (findParametersSha256Digest (interest_name (interest_value interest)) =? -1) then call_onError onError EncryptionFailure
  else
    associatedData ← returns (encodeName (interest_name (interest_value interest)));
    encrypt_async now (blob_bytes (applicationParameters_ (interest_value interest).1)) associatedData (OnInterest request interest) onError.

Fixpoint ready_all (now : Z) (managers : list nat) : EncOp unit :=
  match managers with
  | [] => mret tt
  | i :: managers => _ ← isKeyReady now i; ready_all now managers
  end.

(** A null blob when there is no key with the name. *)
Definition getContentKey (now : Z) (keyName : Name) : EncOp Blob :=
  managers ← all_managers;
  _ ← ready_all now managers;
  e ← self_get;
  mret (map_find (contentKeys_ e) keyName).

(** ** Content keys that are published *)

(** [Callbacks::onError] of [retryFetchingKek]. *)
Definition kek_onError (i : nat) (code : EncryptErrorCode) : EncOp unit :=
  _ ← km_modify i (km_kekInProgress false); call_onError None code.

Definition fetchKekAndPublishCkData (i : nat) (nTriesLeft : Z) : EncOp unit :=
  m ← km i;
  if kekPendingInterestId_ m >? 0 then kek_onError i General
  else
    try_catch (id ← enc_express (append (accessPrefix_ m) NAME_COMPONENT_KEK) true None (FetchKek i nTriesLeft); km_modify i (km_kekPending id))
      (kek_onError i General).

Definition retryFetchingKek (i : nat) : EncOp unit :=
  m ← km i;
  if isKekRetrievalInProgress_ m then mret tt
  else _ ← km_modify i (km_kekInProgress true); fetchKekAndPublishCkData i N_RETRIES.

(** The buffer for what RSA gives has 1000 bytes. *)
Definition rsa_buffer (r : result ndn_Error (list Z)) : result exn (list Z) :=
  match r with
  | Ok bytes => if zlen bytes >? 1000 then Err (Failed UndefinedBehaviour) else Ok bytes
  | Err _ => Err (RuntimeError "RsaAlgorithm: Error encrypting with public key")
  end.
Definition rsa_key (der : list Z) : result exn RsaPublicKey :=
  match rsa_decode der with Ok key => Ok key | Err _ => Err (RuntimeError "RsaAlgorithm: Error decoding public key") end.

(** The packet before it is signed. *)
Definition key_data (name : Name) (content : list Z) (freshnessPeriod : Z) : DataValue :=
  data_value (Data_getMetaInfo (MetaInfo_setFreshnessPeriod freshnessPeriod) (Data_setContent (Some content) (Data_new name MetaInfo_initial))).

Definition makeAndPublishCkData (i : nat) (onError : EncryptErrorCode -> EncOp unit) : EncOp bool :=
  try_catch
    (m ← km i;
     kekData ← match kekData_ m with Some kekData => mret kekData | None => throw_exn (Failed UndefinedBehaviour) end;
     kek ← returns (rsa_key (blob_bytes (data_content kekData)));
     encryptedData ← returns (rsa_buffer (rsa_encrypt_pkcs kek (ckBits_ m)));
     encoding ← returns (wireEncodeV2 (setPayload (Some encryptedData) EncryptedContent_new));
     let name := appendName (append (ckName_ m) NAME_COMPONENT_ENCRYPTED_BY) (data_name kekData) in
     ckData ← on_keyChain (sign_data (key_data name encoding DEFAULT_CK_FRESHNESS_PERIOD) (ckDataSigningInfo_ m));
     _ ← km_modify i (fun m => km_stored (storage_insert getFullName (packet_value ckData) (km_storage_ m)) m);
     mret true)
    (_ ← onError EncryptionFailure; mret false).

(** [now] is in nanoseconds; the version of a name is in milliseconds. *)
Definition version_of (now : Z) : result exn Component := fromVersion (wrap64 (now / 1000000)).

Definition km_regenerateCk (now : Z) (i : nat) : EncOp unit :=
  if isUsingGck then throw_exn (RuntimeError "This EncryptorV2 uses a group content key. Cannot regenerateCk()")
  else
    m ← km i;
    version ← returns (version_of now);
    let ckName := append (append (ckPrefix_ m) NAME_COMPONENT_CK) version in
    _ ← km_modify i (km_key ckName (ckBits_ m));
    bits ← random_value (zlen (ckBits_ m));
    _ ← km_modify i (km_key ckName bits);
    _ ← self_modify (fun e => set_contentKeys (map_set (contentKeys_ e) ckName bits) e);
    match kekData_ m with
    | None => retryFetchingKek i
    | Some _ => _ ← makeAndPublishCkData i (call_onError None); mret tt
    end.
Definition regenerateCk (now : Z) : EncOp unit := km_regenerateCk now 0.

(** The callback for an Interest for the prefix of the content keys. *)
Definition ck_onInterest (i : nat) (interestName : Name) : EncOp unit :=
  m ← km i;
  match storage_find interestName (km_storage_ m) with
  | Some data => perform (EncPutData data)
  | None => mret tt
  end.

(** ** Group content keys *)

Definition fetchGck (i : nat) (gckName : Name) (nTriesLeft : Z) : EncOp unit :=
  credentials ← credentials_name;
  let encryptedGckName := appendName (append gckName NAME_COMPONENT_ENCRYPTED_BY) credentials in
  e ← self_get;
  let lifetime := if gckLatestInterestLifetime_ e >=? 0 then Some (gckLatestInterestLifetime_ e) else None in
  try_catch (id ← enc_express encryptedGckName false lifetime (FetchGck i gckName nTriesLeft); km_modify i (km_gckPending id))
    (km_modify i (km_gckInProgress false)).

(** The new key of the key manager; the encryptor remembers it. *)
Definition use_gck (now : Z) (i : nat) (gckName : Name) (bits : list Z) : EncOp unit :=
  m ← km i;
  _ ← (if zlen bits <? zlen (ckBits_ m) then throw_exn (Failed UndefinedBehaviour)
       else km_modify i (km_key gckName (take (length (ckBits_ m)) bits)));
  self_modify (fun e => set_contentKeys (map_set (contentKeys_ e) gckName bits) e).

Definition decryptGckAndProcessPendingEncrypts (now : Z) (i : nat) (gckName : Name) (gckData : DataValue) : EncOp unit :=
  content ← try_catch (content ← returns (wireDecodeV2 (blob_bytes (data_content gckData))); mret (Some content))
              (_ ← km_modify i (km_gckInProgress false); mret None);
  match content with
  | None => mret tt
  | Some content =>
      decrypted ← try_catch (credentials ← credentials_name;
                             bits ← on_keyChain (on_tpm (tpm_decrypt (blob_bytes (payload_ content)) credentials)); mret (Some bits))
                    (_ ← km_modify i (km_gckInProgress false); mret None);
      match decrypted with
      | None => mret tt
      | Some None => km_modify i (km_gckInProgress false)
      | Some (Some bits) =>
          m ← km i;
          e ← self_get;
          if negb (zlen bits =? zlen (ckBits_ m)) then km_modify i (km_gckInProgress false)
          else if negb (zlen (ckName_ m) =? 0) && (1 <? length (keyManagers_ e))%nat
          then km_modify i (fun m => km_gckInProgress false (km_next now gckName (Some bits) m))
          else
            _ ← use_gck now i gckName bits;
            _ ← km_modify i (km_gckInProgress false);
            try_catch (processPendingEncrypts now) (mret tt)
      end
  end.

(** The callback of the validator for a packet with the name of the latest key. *)
Definition latest_validated (now : Z) (i : nat) (gckLatestData : DataValue) : EncOp unit :=
  newGckName ← try_catch (name ← returns (decodeName (blob_bytes (data_content gckLatestData)) (mkCounted [] 0)); mret (Some (counted_value name)))
                 (_ ← km_modify i (fun m => km_gckInProgress false (km_dropNext m)); mret None);
  match newGckName with
  | None => mret tt
  | Some newGckName =>
      m ← km i;
      e ← self_get;
      match nextGckBits_ m with
      | Some bits =>
          if name_equals newGckName (nextGckName_ m) then
            if now - nextGckReceiptTime_ m >? checkForNewGckInterval_ e then
              _ ← use_gck now i (nextGckName_ m) bits;
              _ ← km_modify i (fun m => km_gckInProgress false (km_dropNext m));
              try_catch (processPendingEncrypts now) (mret tt)
            else km_modify i (km_gckInProgress false)
          else _ ← km_modify i km_dropNext; fetchGck i newGckName N_RETRIES
      | None =>
          if name_equals newGckName (ckName_ m) then km_modify i (km_gckInProgress false)
          else fetchGck i newGckName N_RETRIES
      end
  end.

(** ** Answers *)

(** A Data packet, for one of the three kinds of Interests. *)
Definition enc_onData (now : Z) (handler : EncryptorHandler) (data : DataValue) : EncOp unit :=
  match handler with
  | FetchKek i _ => _ ← km_modify i (km_kekPending 0); perform (EncValidate data handler)
  | CheckLatest i => _ ← km_modify i (km_responding true); perform (EncValidate data handler)
  | FetchGck i gckName _ =>
      _ ← km_modify i (km_responding true);
      try_catch (_ ← km_modify i (km_gckPending 0); decryptGckAndProcessPendingEncrypts now i gckName data) (mret tt)
  end.

(** The validator calls back. *)
Definition enc_validated (now : Z) (handler : EncryptorHandler) (data : DataValue) : EncOp unit :=
  match handler with
  | FetchKek i _ =>
      _ ← km_modify i (km_kekData (Some data));
      published ← makeAndPublishCkData i (kek_onError i);
      if published : bool then km_modify i (km_kekInProgress false) else mret tt
  | CheckLatest i => latest_validated now i data
  | FetchGck _ _ _ => mret tt
  end.
Definition enc_invalid (handler : EncryptorHandler) : EncOp unit :=
  match handler with
  | FetchKek i _ => kek_onError i CkRetrievalFailure
  | CheckLatest i => km_modify i (fun m => km_gckInProgress false (km_dropNext m))
  | FetchGck _ _ _ => mret tt
  end.

Definition latest_lost (i : nat) : EncOp unit :=
  km_modify i (fun m => km_gckInProgress false (km_dropNext (km_responding false m))).

Definition enc_onTimeout (handler : EncryptorHandler) : EncOp unit :=
  match handler with
  | FetchKek i nTriesLeft =>
      _ ← km_modify i (km_kekPending 0);
      if nTriesLeft >? 1 then fetchKekAndPublishCkData i (nTriesLeft - 1)
      else _ ← kek_onError i KekRetrievalTimeout; perform (EncCallLater RETRY_DELAY_KEK_RETRIEVAL (LaterRetryKek i))
  | CheckLatest i => latest_lost i
  | FetchGck i gckName nTriesLeft =>
      _ ← km_modify i (km_gckPending 0);
      if nTriesLeft >? 1 then fetchGck i gckName (nTriesLeft - 1)
      else km_modify i (fun m => km_gckInProgress false (km_responding false m))
  end.

Definition enc_onNetworkNack (handler : EncryptorHandler) : EncOp unit :=
  match handler with
  | FetchKek i nTriesLeft =>
      _ ← km_modify i (km_kekPending 0);
      if nTriesLeft >? 1 then perform (EncCallLater RETRY_DELAY_AFTER_NACK (LaterFetchKek i (nTriesLeft - 1)))
      else _ ← kek_onError i KekRetrievalFailure; perform (EncCallLater RETRY_DELAY_KEK_RETRIEVAL (LaterRetryKek i))
  | CheckLatest i => latest_lost i
  | FetchGck i _ _ =>
      km_modify i (fun m => km_gckInProgress false (km_responding false (km_gckPending 0 m)))
  end.

Definition enc_later (later : EncryptorLater) : EncOp unit :=
  match later with
  | LaterRetryKek i => retryFetchingKek i
  | LaterFetchKek i nTriesLeft => fetchKekAndPublishCkData i nTriesLeft
  end.

(** ** The object *)

Definition initial_bits : result exn (list Z) :=
  if encryptorAlgorithmType_ =? ndn_EncryptAlgorithmType_ChaCha20Poly1305 then Ok (replicate (Z.to_nat ndn_CHACHA20_KEY_LENGTH) 0)
  else if encryptorAlgorithmType_ =? ndn_EncryptAlgorithmType_AesCbc then Ok (replicate (Z.to_nat AES_KEY_SIZE) 0)
  else Err (RuntimeError "EncryptorV2: Unsupported encryption algorithm type").

Definition null_signingInfo : SigningInfo := SigningInfo_new SIGNER_TYPE_NULL [].

Definition KeyManager_new_ck (accessPrefix ckPrefix : Name) (ckDataSigningInfo : SigningInfo) : result exn KeyManager :=
  bits ← initial_bits;
  mret (mkKeyManager accessPrefix [] bits ckPrefix false None ckDataSigningInfo ∅ 0 0 0 false [] 0 false 0 [] None).
Definition KeyManager_new_gck (accessPrefix : Name) : result exn KeyManager :=
  bits ← initial_bits;
  mret (mkKeyManager accessPrefix [] bits [] false None null_signingInfo ∅ 0 0 0 false
          (append (append accessPrefix NAME_COMPONENT_GCK) NAME_COMPONENT_LATEST) 0 false 0 [] None).

Fixpoint KeyManagers_new_gck (accessPrefixes : list Name) : result exn (list KeyManager) :=
  match accessPrefixes with
  | [] => Ok []
  | accessPrefix :: accessPrefixes =>
      m ← KeyManager_new_gck accessPrefix;
      l ← KeyManagers_new_gck accessPrefixes;
      mret (m :: l)
  end.

(** The constructors, before they initialize. *)
Definition Encryptor_new_ck (accessPrefix ckPrefix : Name) (ckDataSigningInfo : SigningInfo) (k : KeyChain) : result exn Encryptor :=
  m ← KeyManager_new_ck accessPrefix ckPrefix ckDataSigningInfo;
  mret (mkEncryptor 0 0 [] [m] (-1) [] k 0 0).
Definition Encryptor_new_gck (accessPrefixes : list Name) (k : KeyChain) : result exn Encryptor :=
  l ← KeyManagers_new_gck accessPrefixes;
  mret (mkEncryptor 0 0 [] l (-1) [] k 0 0).

Definition initializeCk (now : Z) : EncOp unit :=
  _ ← km_regenerateCk now 0;
  m ← km 0;
  id ← enc_registerPrefix (append (ckPrefix_ m) NAME_COMPONENT_CK) 0;
  km_modify 0 (km_registered id).
(** The interval is a minute, the lifetime -1 milliseconds. *)
Definition initializeGck : EncOp unit := self_modify (set_intervals 60000000000 (-1000000)).

Definition setCheckForNewGckInterval (interval : Z) : EncOp unit :=
  self_modify (fun e => set_intervals interval (gckLatestInterestLifetime_ e) e).
Definition setGckLatestInterestLifetime (lifetime : Z) : EncOp unit :=
  self_modify (fun e => set_intervals (checkForNewGckInterval_ e) lifetime e).

Definition km_shutdown (i : nat) : EncOp unit :=
  m ← km i;
  _ ← perform (EncUnsetInterestFilter (ckRegisteredPrefixId_ m));
  _ ← (if kekPendingInterestId_ m >? 0 then perform (EncRemovePendingInterest (kekPendingInterestId_ m)) else mret tt);
  if gckPendingInterestId_ m >? 0 then perform (EncRemovePendingInterest (gckPendingInterestId_ m)) else mret tt.
Definition enc_shutdown : EncOp unit := managers ← all_managers; for_each km_shutdown managers.

Definition enc_size : EncOp Z :=
  if isUsingGck then throw_exn (RuntimeError "This EncryptorV2 uses a group content key. Cannot get the number of published CK packets")
  else m ← km 0; mret (Z.of_nat (size (km_storage_ m))).
End Encryptor.
