(* ===== verification/AccessManager.v ===== *)
(** * AccessManagerV2

    src/encrypt/access-manager-v2.cpp: the access manager of a group publishes a group content key (GCK) for each member, or
    the key encryption key (KEK) and for each member the key that decrypts what it encrypts (KDK). *)

From stdpp Require Import base gmap list numbers option strings.
From Stdlib Require Import ZArith Lia.
From S2P Require Import Prelude Order Actions Name NameUri ChangeCounter Data TlvData WireFormat Publisher Certificates NameMap Pib KeyChain Encryption Encryptor.
Open Scope Z_scope.

Inductive AccessCall := AccRegisterPrefix (prefix : Name) | AccUnsetInterestFilter (id : Z) | AccPutData (data : DataValue).

(** In nanoseconds. *)
Definition DEFAULT_KEK_FRESHNESS_PERIOD : Z := 3600000000000.
Definition DEFAULT_KDK_FRESHNESS_PERIOD : Z := 3600000000000.

Section AccessManager.
Context `{Crypto} `{PrivateKeys} `{Evp}.
Context (getFullName : DataValue -> Name) (face_call : nat -> Name -> result exn Z).
Context (identity_ : PibIdentity) (gckAlgorithmType_ : Z).

Record AccessManager := mkAccessManager {
  nacIdentityName_ : Name;
  nacKey_ : option PibKey;
  am_storage_ : Storage;
  kekRegisteredPrefixId_ : Z;
  kdkRegisteredPrefixId_ : Z;
  am_gckLatestPrefix_ : Name;
  gckName_ : Name;
  gckBits_ : list Z;
  am_keyChain_ : KeyChain;
  am_randoms : nat;
  am_faceCalls : nat
}.

Abbreviation AccOp := (Act AccessManager AccessCall).

Definition AccessManager_new (k : KeyChain) : AccessManager := mkAccessManager [] None ∅ 0 0 [] [] [] k 0 0.

Definition am_names (nac latest : Name) (m : AccessManager) : AccessManager :=
  mkAccessManager nac (nacKey_ m) (am_storage_ m) (kekRegisteredPrefixId_ m) (kdkRegisteredPrefixId_ m) latest (gckName_ m) (gckBits_ m)
    (am_keyChain_ m) (am_randoms m) (am_faceCalls m).
Definition am_key (key : option PibKey) (m : AccessManager) : AccessManager :=
  mkAccessManager (nacIdentityName_ m) key (am_storage_ m) (kekRegisteredPrefixId_ m) (kdkRegisteredPrefixId_ m) (am_gckLatestPrefix_ m)
    (gckName_ m) (gckBits_ m) (am_keyChain_ m) (am_randoms m) (am_faceCalls m).
Definition am_insert (data : DataValue) (m : AccessManager) : AccessManager :=
  mkAccessManager (nacIdentityName_ m) (nacKey_ m) (storage_insert getFullName data (am_storage_ m)) (kekRegisteredPrefixId_ m)
    (kdkRegisteredPrefixId_ m) (am_gckLatestPrefix_ m) (gckName_ m) (gckBits_ m) (am_keyChain_ m) (am_randoms m) (am_faceCalls m).
Definition am_ids (kek kdk : Z) (m : AccessManager) : AccessManager :=
  mkAccessManager (nacIdentityName_ m) (nacKey_ m) (am_storage_ m) kek kdk (am_gckLatestPrefix_ m) (gckName_ m) (gckBits_ m)
    (am_keyChain_ m) (am_randoms m) (am_faceCalls m).
Definition am_gck (name : Name) (bits : list Z) (m : AccessManager) : AccessManager :=
  mkAccessManager (nacIdentityName_ m) (nacKey_ m) (am_storage_ m) (kekRegisteredPrefixId_ m) (kdkRegisteredPrefixId_ m)
    (am_gckLatestPrefix_ m) name bits (am_keyChain_ m) (am_randoms m) (am_faceCalls m).
Definition am_count (randoms faceCalls : nat) (m : AccessManager) : AccessManager :=
  mkAccessManager (nacIdentityName_ m) (nacKey_ m) (am_storage_ m) (kekRegisteredPrefixId_ m) (kdkRegisteredPrefixId_ m)
    (am_gckLatestPrefix_ m) (gckName_ m) (gckBits_ m) (am_keyChain_ m) randoms faceCalls.

Definition am_on_keyChain {A} (op : Op KeyChain A) : AccOp A := fun m =>
  let '(k, _, r) := op (am_keyChain_ m) in
  (mkAccessManager (nacIdentityName_ m) (nacKey_ m) (am_storage_ m) (kekRegisteredPrefixId_ m) (kdkRegisteredPrefixId_ m)
     (am_gckLatestPrefix_ m) (gckName_ m) (gckBits_ m) k (am_randoms m) (am_faceCalls m), [], r).

Definition am_random (size : Z) : AccOp (list Z) :=
  m ← self_get;
  _ ← self_modify (am_count (S (am_randoms m)) (am_faceCalls m));
  returns (throw_error (generateRandomBytes (am_randoms m) size)).

Definition am_registerPrefix (prefix : Name) : AccOp Z :=
  m ← self_get;
  _ ← self_modify (am_count (am_randoms m) (S (am_faceCalls m)));
  id ← returns (face_call (am_faceCalls m) prefix);
  _ ← perform (AccRegisterPrefix prefix);
  mret id.

(** [keyChain_->sign(data, SigningInfo(identity_))]. *)
Definition sign_as_identity (data : DataValue) : AccOp DataValue :=
  packet ← am_on_keyChain (info ← on_pib (setPibIdentity identity_); sign_data data info);
  mret (packet_value packet).

(** ** Group content keys *)

Definition isForGck : bool := negb (gckAlgorithmType_ =? -1).

(** [now] is in nanoseconds. *)
Definition refreshGck (now : Z) : AccOp unit :=
  m ← self_get;
  if zlen (gckBits_ m) =? 0
  then throw_exn (RuntimeError "To use GCK, call the AccessManagerV2 constructor with a groupContentKeyAlgorithmType")
  else
    version ← returns (version_of now);
    let gckName := append (append (nacIdentityName_ m) NAME_COMPONENT_GCK) version in
    _ ← self_modify (am_gck gckName (gckBits_ m));
    bits ← am_random (zlen (gckBits_ m));
    self_modify (am_gck gckName bits).

Definition nac_identity (dataset : Name) : AccOp Name :=
  name ← am_on_keyChain (on_pib (PibIdentity_getName identity_));
  mret (appendName (append name NAME_COMPONENT_NAC) dataset).

Definition initializeForGck (now : Z) (dataset : Name) : AccOp unit :=
  nac ← nac_identity dataset;
  _ ← self_modify (fun m => am_names nac (am_gckLatestPrefix_ m) m);
  _ ← (if gckAlgorithmType_ =? ndn_EncryptAlgorithmType_ChaCha20Poly1305
       then self_modify (fun m => am_gck (gckName_ m) (replicate (Z.to_nat ndn_CHACHA20_KEY_LENGTH) 0) m)
       else if gckAlgorithmType_ =? ndn_EncryptAlgorithmType_AesCbc
       then self_modify (fun m => am_gck (gckName_ m) (replicate (Z.to_nat ndn_AES_256_KEY_LENGTH) 0) m)
       else throw_exn (RuntimeError "AccessManagerV2: Unsupported content key algorithm type"));
  _ ← self_modify (am_names nac (append (append nac NAME_COMPONENT_GCK) NAME_COMPONENT_LATEST));
  _ ← refreshGck now;
  id ← am_registerPrefix (append nac NAME_COMPONENT_GCK);
  self_modify (fun m => am_ids (kekRegisteredPrefixId_ m) id m).

(** What RSA gives for a key of a member. *)
Definition encrypt_for (member : Certificate) (encrypt : RsaPublicKey -> list Z -> result ndn_Error (list Z)) (bits : list Z) : result exn (list Z) :=
  publicKey ← getPublicKey member;
  memberKey ← rsa_key publicKey;
  rsa_buffer (encrypt memberKey bits).

Definition addMemberForGck (memberCertificate : Certificate) : AccOp DataValue :=
  m ← self_get;
  encryptedData ← returns (encrypt_for memberCertificate rsa_encrypt_pkcs (gckBits_ m));
  let encryptedContent := setPayload (Some encryptedData) EncryptedContent_new in
  keyName ← returns (getKeyName memberCertificate);
  let gckDataName := appendName (append (gckName_ m) NAME_COMPONENT_ENCRYPTED_BY) keyName in
  encoding ← returns (wireEncodeV2 encryptedContent);
  gckData ← sign_as_identity (key_data gckDataName encoding DEFAULT_KDK_FRESHNESS_PERIOD);
  _ ← self_modify (am_insert gckData);
  mret gckData.

(** The packet with the name of the latest key. *)
Definition publishGckLatestData (now : Z) : AccOp unit :=
  m ← self_get;
  version ← returns (version_of now);
  encoding ← returns (encodeName (gckName_ m));
  data ← sign_as_identity (key_data (append (am_gckLatestPrefix_ m) version) encoding 1000000000);
  perform (AccPutData data).

(** ** Key encryption keys *)

Definition initializeForKdk (now : Z) (dataset : Name) : AccOp unit :=
  nac ← nac_identity dataset;
  _ ← self_modify (fun m => am_names nac (am_gckLatestPrefix_ m) m);
  params ← returns (KeyParams_new (Some KEY_TYPE_RSA) 2048 KEY_ID_TYPE_RANDOM);
  nacIdentity ← am_on_keyChain (createIdentityV2 (now / 1000000) nac params);
  nacKey ← am_on_keyChain (on_pib (identity_getDefaultKey nacIdentity));
  _ ← self_modify (am_key (Some nacKey));
  key ← am_on_keyChain (on_pib (lock_key nacKey));
  nacKey ← (if negb (bool_decide (keyType_ key = KEY_TYPE_RSA)) then
              nacKey ← am_on_keyChain (kc_createKey (now / 1000000) nacIdentity params);
              _ ← self_modify (am_key (Some nacKey));
              mret nacKey
            else mret nacKey);
  key ← am_on_keyChain (on_pib (lock_key nacKey));
  nacKeyId ← returns (name_get (ki_keyName_ key) (-1));
  let kekPrefix := append (ki_identityName_ key) NAME_COMPONENT_KEK in
  certificate ← am_on_keyChain (on_pib (key_getDefaultCertificate nacKey));
  let value := packet_value (cert_data certificate) in
  let kekData : DataValue := (data_content value, (data_signature value, (append kekPrefix nacKeyId,
    counted_value (MetaInfo_setFreshnessPeriod DEFAULT_KEK_FRESHNESS_PERIOD (mkCounted (data_metaInfo value) 0))))) in
  kekData ← sign_as_identity kekData;
  _ ← self_modify (am_insert kekData);
  id ← am_registerPrefix kekPrefix;
  _ ← self_modify (fun m => am_ids id (kdkRegisteredPrefixId_ m) m);
  id ← am_registerPrefix (append (append (ki_identityName_ key) NAME_COMPONENT_KDK) nacKeyId);
  self_modify (fun m => am_ids (kekRegisteredPrefixId_ m) id m).

(** One byte of the secret. *)
Definition secret_byte (b : Z) : Z := Z.land (if b =? 0 then 1 else b) 0x7f.

Definition addMemberForKdk (memberCertificate : Certificate) : AccOp DataValue :=
  m ← self_get;
  nacKey ← match nacKey_ m with Some nacKey => mret nacKey | None => throw_exn (Failed UndefinedBehaviour) end;
  key ← am_on_keyChain (on_pib (lock_key nacKey));
  keyId ← returns (name_get (ki_keyName_ key) (-1));
  keyName ← returns (getKeyName memberCertificate);
  let kdkName := appendName (append (append (append (ki_identityName_ key) NAME_COMPONENT_KDK) keyId) NAME_COMPONENT_ENCRYPTED_BY) keyName in
  random ← am_random 32;
  let secret := map secret_byte random in
  certificate ← am_on_keyChain (on_pib (key_getDefaultCertificate nacKey));
  kdkSafeBag ← am_on_keyChain (exportSafeBag certificate (Some secret));
  encryptedData ← returns (encrypt_for memberCertificate rsa_encrypt_oaep secret);
  payload ← returns (SafeBag_wireEncode kdkSafeBag);
  encoding ← returns (wireEncodeV2 (setPayloadKey (Some encryptedData) (setPayload (Some payload) EncryptedContent_new)));
  kdkData ← sign_as_identity (key_data kdkName encoding DEFAULT_KDK_FRESHNESS_PERIOD);
  _ ← self_modify (am_insert kdkData);
  mret kdkData.

(** ** The object *)

Definition am_initialize (now : Z) (dataset : Name) : AccOp unit :=
  if isForGck then initializeForGck now dataset else initializeForKdk now dataset.
Definition addMember (memberCertificate : Certificate) : AccOp DataValue :=
  if isForGck then addMemberForGck memberCertificate else addMemberForKdk memberCertificate.

(** The callbacks for Interests: with group content keys, an Interest for the latest name is answered anew. *)
Definition am_onInterest (now : Z) (interestName : Name) : AccOp unit :=
  m ← self_get;
  if isForGck && name_match (am_gckLatestPrefix_ m) interestName then publishGckLatestData now
  else
    match storage_find interestName (am_storage_ m) with
    | Some data => perform (AccPutData data)
    | None => mret tt
    end.

Definition am_shutdown : AccOp unit :=
  m ← self_get;
  _ ← perform (AccUnsetInterestFilter (kekRegisteredPrefixId_ m));
  perform (AccUnsetInterestFilter (kdkRegisteredPrefixId_ m)).
Definition am_size : AccOp Z := m ← self_get; mret (Z.of_nat (size (am_storage_ m))).
End AccessManager.
