(* ===== verification/EncryptionSpec.v ===== *)
(** * Encrypted content and safe bags on the wire, and the ciphers *)

From stdpp Require Import base list numbers option strings.
From Stdlib Require Import ZArith Lia.
From S2P Require Import Prelude Actions Encoder Decoder Blocks Name NameUri TlvName ChangeCounter ValidityPeriod Data TlvData TlvControl.
From S2P Require Import WireFormat Certificates NameMap Pib KeyChain Encryption.
Open Scope Z_scope.

(** ** Ciphers *)

(** What libcrypto promises: what is encrypted with a key and an initial vector of the right sizes is decrypted with
    them, and a tag has its size. *)
Class EvpLaws `{Evp} := {
  aes_256_cbc_law : forall key iv plain, EVP_aes_256_cbc_decrypt key iv (EVP_aes_256_cbc_encrypt key iv plain) = plain;
  aes_256_cbc_size : forall key iv plain, EVP_aes_256_cbc_encrypt key iv plain <> [];
  chacha20_law : forall key nonce ad plain,
    let '(encrypted, tag) := EVP_chacha20_poly1305_encrypt key nonce ad plain in
    EVP_chacha20_poly1305_decrypt key nonce ad encrypted tag = (plain, true) /\ zlen tag = ndn_POLY1305_BLOCK_LENGTH;
  random_size : forall n size bytes, generateRandomBytes n size = Ok bytes -> 0 <= size -> zlen bytes = size
}.

Section Ciphers.
Context `{EvpLaws}.

Lemma check_sizes_ok key keyLength iv ivLength :
  check_sizes key keyLength iv ivLength = Ok tt <-> zlen key = keyLength /\ zlen iv = ivLength.
Proof.
  unfold check_sizes. destruct (Z.eqb_spec (zlen key) keyLength), (Z.eqb_spec (zlen iv) ivLength); cbn; split; (easy || intros [? ?]; easy).
Qed.

Lemma check_sizes_bind {A} key keyLength iv ivLength (r : unit -> result ndn_Error A) a :
  (check_sizes key keyLength iv ivLength ≫= r) = Ok a <-> zlen key = keyLength /\ zlen iv = ivLength /\ r tt = Ok a.
Proof.
  destruct (check_sizes key keyLength iv ivLength) as [[] | e] eqn:E; cbn.
  - apply check_sizes_ok in E as [-> ->]. tauto.
  - split; [easy |]. intros (H1 & H2 & _). rewrite (proj2 (check_sizes_ok _ _ _ _) (conj H1 H2)) in E. easy.
Qed.

Lemma aes_256_cbc_roundtrip key iv plain cipher :
  ndn_AesAlgorithm_encrypt256Cbc key iv plain = Ok cipher -> ndn_AesAlgorithm_decrypt256Cbc key iv cipher = Ok plain /\ cipher <> [].
Proof.
  intros E%check_sizes_bind. destruct E as (Hk & Hi & [= <-]). split; [| apply aes_256_cbc_size].
  unfold ndn_AesAlgorithm_decrypt256Cbc. apply check_sizes_bind. split; [easy |]. split; [easy |]. cbn. now rewrite aes_256_cbc_law.
Qed.

Lemma chacha20_roundtrip key nonce plain ad cipher :
  ndn_ChaCha20Algorithm_encryptPoly1305 key nonce plain ad = Ok cipher ->
  ndn_ChaCha20Algorithm_decryptPoly1305 key nonce cipher ad = Ok plain /\ cipher <> [].
Proof.
  intros E%check_sizes_bind. destruct E as (Hk & Hi & E). pose proof (chacha20_law key nonce ad plain) as Hlaw.
  destruct (EVP_chacha20_poly1305_encrypt key nonce ad plain) as [encrypted tag]. injection E as <-. destruct Hlaw as [Hlaw Ht].
  unfold ndn_POLY1305_BLOCK_LENGTH in Ht. split.
  - unfold ndn_ChaCha20Algorithm_decryptPoly1305. apply check_sizes_bind. split; [easy |]. split; [easy |].
    rewrite length_app. unfold ndn_POLY1305_BLOCK_LENGTH. destruct (Z.ltb_spec (Z.of_nat (length encrypted + length tag)) 16); [lia |].
    replace (length encrypted + length tag - Z.to_nat 16)%nat with (length encrypted) by lia.
    now rewrite take_app_length, drop_app_length, Hlaw.
  - destruct tag; [easy | now destruct encrypted].
Qed.
End Ciphers.

(** ** Encrypted content *)

(** The fields that a decoder gives: a null or empty blob is null when it is optional. *)
Definition content_lite (c : EncryptedContent) : ndn_EncryptedContent :=
  mkEncryptedContent (algorithmType_ c) (keyLocator_ c) (initialVector_ c) (payload_ c) (payloadKey_ c).
Definition content_received (c : EncryptedContent) : EncryptedContent := EncryptedContent_set (encryptedContent_decoded (content_lite c)).

Record content_sendable (c : EncryptedContent) : Prop := {
  cs_algorithm : algorithmType_ c < 2 ^ 31;
  cs_name : wire_name (keyLocator_ c).2;
  cs_size : zlen (block_bytes (encryptedContent_block (content_lite c))) < 2 ^ 63
}.

Lemma content_wire c : content_sendable c ->
  exists bytes, wireEncodeV2 c = Ok bytes /\ wireDecodeV2 bytes = Ok (content_received c).
Proof.
  intros [Ha Hn Hs]. destruct (encryptedContent_roundtrip max_components 256 (content_lite c) [] []) as (bytes & Henc & Hdec).
  - split; [easy |]. intros _. split; apply Hn.
  - lia.
  - cbn [app]. now rewrite app_nil_r.
  - exists bytes. split.
    + assert (E : EncryptedContent_get c = Ok (content_lite c)) by (unfold EncryptedContent_get; now rewrite KeyLocator_get_ok).
      unfold wireEncodeV2. rewrite E. cbn [mbind result_bind]. now rewrite Henc.
    + unfold wireDecodeV2. unfold decoder_at in Hdec. cbn [app length] in Hdec. rewrite app_nil_r in Hdec. unfold TlvDecoder_initialize.
      change (Z.of_nat 0) with 0 in Hdec. now rewrite Hdec.
Qed.

(** ** Safe bags *)

Lemma encodeData_bytes v b bytes signed : data_sendable v b -> encodeData v = Ok (bytes, signed) ->
  bytes = block_bytes (data_block (data_lite v) b).
Proof.
  intros [Hn Hk Hs Hm Hf Hl] Henc. pose proof Hn as (Hc & _ & Hmax).
  assert (Hok : TlvData.data_ok max_components max_components (data_lite v) b) by now split.
  unfold encodeData in Henc. rewrite Data_get_ok in Henc by easy. cbn in Henc. unfold throw_error, run_out in Henc.
  pose proof (zlen_value_le ndn_Tlv_Data (blocks_bytes (data_value_blocks (data_lite v) b))) as Hv.
  unfold block_bytes, data_block in *. cbn [fst snd] in *.
  assert (He : Emits (only (encodeTlvData (data_lite v))) (tlv_bytes ndn_Tlv_Data (blocks_bytes (data_value_blocks (data_lite v) b)))).
  { apply (emits_nested_out _ _ _ false). apply (emits_data_value max_components max_components); [easy | lia]. }
  apply (TlvEncoder_run_emits 1500) in He; [| lia | easy]. unfold TlvEncoder_run, only in He.
  destruct (encodeTlvData (data_lite v) _) as [[e1 a1] |]; [| easy]. injection Henc as <- _. now injection He.
Qed.

Definition safeBag_inner (value bag : list Z) : list Block := [(ndn_Tlv_Data, value); (ndn_Tlv_SafeBag_EncryptedKeyBag, bag)].

Lemma safeBag_inner_bytes value bag :
  blocks_bytes (safeBag_inner value bag) = tlv_bytes ndn_Tlv_Data value ++ tlv_bytes ndn_Tlv_SafeBag_EncryptedKeyBag bag.
Proof. unfold safeBag_inner. now rewrite !blocks_bytes_cons, app_nil_r. Qed.

Lemma safeBag_decode value bag :
  let bytes := tlv_bytes ndn_Tlv_SafeBag_SafeBag (blocks_bytes (safeBag_inner value bag)) in
  zlen bytes < 2 ^ 31 ->
  exists e d d', SafeBag_certificate (TlvDecoder_initialize bytes) = Ok ((e, tlv_bytes ndn_Tlv_Data value), d) /\
    SafeBag_keyBag e d = Ok (bag, d').
Proof.
  intros bytes Hl. assert (Ht : Forall type_ok (safeBag_inner value bag)) 
    by (unfold type_ok; repeat apply List.Forall_cons; try apply List.Forall_nil; unfold fst; vm_compute; easy).
  pose proof (at_decoder_at [] (ndn_Tlv_SafeBag_SafeBag, blocks_bytes (safeBag_inner value bag)) []) as Hat.
  unfold block_bytes in Hat. cbn [fst snd app] in Hat. fold bytes in Hat. rewrite app_nil_r in Hat.
  specialize (Hat ltac:(lia) ltac:(unfold type_ok, fst; vm_compute; easy)). unfold decoder_at in Hat. cbn [app] in Hat. rewrite app_nil_r in Hat.
  destruct (at_inside _ _ _ _ _ _ Hat Ht) as (d1 & e1 & Hstart & Hd1 & Hi1 & He1 & _).
  pose proof (at_ok _ _ _ _ Hd1) as Ho1. destruct (at_block _ _ _ _ _ Hd1) as [_ Hr1]. cbn [fst snd] in Hr1.
  pose proof (readNestedTlvsStart_at d1 ndn_Tlv_Data value _ Ho1 ltac:(vm_compute; easy) Hr1) as Hs2.
  pose proof (at_next _ _ _ _ _ Hd1) as Hd2. cbn [fst snd] in Hd2. set (len := zlen (tlv_bytes ndn_Tlv_Data value)) in *.
  destruct (reads_blob ndn_Tlv_SafeBag_EncryptedKeyBag bag e1 [] _ _ Hd2) as (d3 & Hb & Hd3 & _).
  exists e1, (adv d1 len), d3. split.
  - unfold SafeBag_certificate. rewrite (dec_bind_ok _ _ _ _ _ Hstart).
    rewrite (dec_bind_ok get_offset _ d1 (d_offset d1) d1) by easy. rewrite (dec_bind_ok _ _ _ _ _ Hs2).
    rewrite (dec_bind_ok (Decoder.seek _) _ _ tt (adv d1 len)) by easy.
    now rewrite (dec_bind_ok _ _ _ _ _ (slice_blob_at _ _ (ndn_Tlv_Data, value) _ _ (adv d1 len) Hd1 eq_refl)).
  - unfold SafeBag_keyBag.
    rewrite (dec_bind_ok _ _ _ _ _ Hb).
    assert (Hle : 0 <= e1 < 2 ^ 31) by (subst e1; fold bytes; cbn [d_offset length Z.of_nat]; lia).
    rewrite to_int32_small, wrap64_small by lia. now rewrite (dec_bind_ok _ _ _ _ _ (finish_at _ _ _ Hd3)).
Qed.

(** C15: a safe bag, in which a private key travels with its certificate: its encoding is decoded to the same private key bag
    and to the packet that the encoding of the certificate is decoded to, which keeps that encoding. *)
Theorem safeBag_roundtrip (certificate : DataPacket) (value bag : list Z) signed o signed' :
  packet_wireEncode certificate = Ok (tlv_bytes ndn_Tlv_Data value, signed) ->
  decodeData (tlv_bytes ndn_Tlv_Data value) Data_object = Ok (o, signed') ->
  zlen (tlv_bytes ndn_Tlv_SafeBag_SafeBag (blocks_bytes (safeBag_inner value bag))) < 2 ^ 31 ->
  exists bytes, SafeBag_wireEncode (mkSafeBag certificate bag) = Ok bytes /\
    SafeBag_wireDecode bytes = Ok (mkSafeBag (mkDataPacket (value_of o) (Some (tlv_bytes ndn_Tlv_Data value, signed'))) bag).
Proof.
  intros Henc Hdec Hl. destruct (safeBag_decode value bag Hl) as (e & d & d' & H1 & H2).
  exists (tlv_bytes ndn_Tlv_SafeBag_SafeBag (blocks_bytes (safeBag_inner value bag))). split.
  - unfold SafeBag_wireEncode. cbn [sb_certificate_ privateKeyBag_]. rewrite Henc. cbn [mbind result_bind fst].
    rewrite (TlvEncoder_run_emits 256 _ (tlv_bytes ndn_Tlv_SafeBag_SafeBag (blocks_bytes (safeBag_inner value bag)))); [easy | lia | | lia].
    pose proof (zlen_value_le ndn_Tlv_SafeBag_SafeBag (blocks_bytes (safeBag_inner value bag))) as Hv.
    apply (emits_writeNestedTlv _ _ _ false). rewrite safeBag_inner_bytes in *. apply emits_andThen; [apply emits_writeArray | apply emits_writeBlobTlv].
    rewrite length_app in Hv. pose proof (zlen_value_le ndn_Tlv_SafeBag_EncryptedKeyBag bag). lia.
  - unfold SafeBag_wireDecode. rewrite H1. cbn [throw_failure mbind result_bind]. unfold Data_packet. rewrite Hdec. cbn [mbind result_bind mret result_ret].
    now rewrite H2.
Qed.

(** ** Examples *)

#[local] Existing Instance toy_crypto.

Definition toy_packet : DataPacket := mkDataPacket (toy_data (toy_cert_name [generic [97]]) (toy_key_name []) [1; 2] [1; 3]) None.
Definition toy_encoding : SignedBlob := match packet_wireEncode toy_packet with Ok e => e | Err _ => ([], (0, 0)) end.
(** Without the type and the length. *)
Definition toy_value : list Z := drop 2 toy_encoding.1.
Definition toy_decoded := decodeData (tlv_bytes ndn_Tlv_Data toy_value) Data_object.

Lemma safeBag_roundtrip_witness :
  match toy_decoded with
  | Ok (o, signed) =>
      exists bytes, SafeBag_wireEncode (mkSafeBag toy_packet [5; 6]) = Ok bytes /\
        SafeBag_wireDecode bytes = Ok (mkSafeBag (mkDataPacket (value_of o) (Some (tlv_bytes ndn_Tlv_Data toy_value, signed))) [5; 6])
  | Err _ => False
  end.
Proof.
  assert (Hd : exists o signed, toy_decoded = Ok (o, signed)) by (eexists _, _; vm_compute; reflexivity).
  destruct Hd as (o & signed & Hd). rewrite Hd.
  apply (safeBag_roundtrip toy_packet toy_value [5; 6] toy_encoding.2 o signed); [vm_compute; reflexivity | exact Hd | now vm_compute].
Defined.
