(* ===== verification/Decryptor.v ===== *)
(** * DecryptorV2

    src/encrypt/decryptor-v2.cpp: contents wait for their content key (CK), which is fetched once for its name, with the
    key of the access group (KDK) that decrypts it, or which is a group content key (GCK) for the credentials of the member.
    As in Encryptor.v the answers are operations of their own, and the callbacks of the application are parameters. *)

From stdpp Require Import base list numbers option strings.
From Stdlib Require Import ZArith Lia.
From S2P Require Import Prelude Order Actions Name NameUri ChangeCounter Data TlvData Interest WireFormat Certificates NameMap Pib KeyChain Encryption Encryptor.
Open Scope Z_scope.

Record PendingDecrypt := mkPendingDecrypt {
  encryptedContent_ : EncryptedContent;
  pd_associatedData_ : list Z;
  pd_request : Z
}.

Record ContentKey := mkContentKey {
  isRetrieved_ : bool;
  bits_ : list Z;
  pendingInterest_ : Z;
  pendingDecrypts_ : list PendingDecrypt
}.
Definition ContentKey_new : ContentKey := mkContentKey false [] 0 [].

(** What an Interest of the decryptor is for: the name of the content key, the request whose callback gets the errors, and
    the tries that are left. *)
Inductive DecryptorHandler :=
  | FetchCk (ckName : Name) (onError : Z) (nTriesLeft : Z)
  | FetchKdk (ckName kdkPrefix : Name) (ckData : DataValue) (onError : Z) (nTriesLeft : Z)
  | FetchMemberGck (ckName : Name) (onError : Z) (nTriesLeft : Z).

Inductive DecryptorCall :=
  | DecExpress (name : Name) (mustBeFresh canBePrefix : bool) (handler : DecryptorHandler)
  | DecValidate (data : DataValue) (handler : DecryptorHandler)
  | DecCache (call : EncryptorCall)
  | DecSuccess (request : Z) (plainData : list Z)
  | DecError (request : Z) (code : EncryptErrorCode).

Section Decryptor.
Context `{Crypto} `{PrivateKeys} `{Evp}.
(** What [expressInterest] of the face returns or throws, for the decryptor and for its encryptor. *)
Context (face_call cache_face_call : nat -> Name -> result exn Z).
Context (credentialsKey_ : PibKey) (cache_credentialsKey_ : option PibKey).

(** [contentKeyCache_] is the encryptor that was given to the constructor. *)
Record Decryptor := mkDecryptor {
  contentKeyCache_ : option Encryptor;
  dec_keyChain_ : KeyChain;
  internalKeyChain_ : KeyChain;
  dec_contentKeys_ : NameMap ContentKey;
  dec_faceCalls : nat
}.

Abbreviation DecOp := (Act Decryptor DecryptorCall).

Context (app_decrypted : Z -> list Z -> DecOp unit) (app_decryptError : Z -> EncryptErrorCode -> DecOp unit).

(** The in-memory key chain starts with nothing. *)
Definition Decryptor_new (cache : option Encryptor) (keyChain internal : KeyChain) : Decryptor := mkDecryptor cache keyChain internal [] 0.

Definition dec_set_keys (m : NameMap ContentKey) (d : Decryptor) : Decryptor :=
  mkDecryptor (contentKeyCache_ d) (dec_keyChain_ d) (internalKeyChain_ d) m (dec_faceCalls d).

Definition on_cache {A} (m : Act Encryptor EncryptorCall A) : DecOp A := fun d =>
  match contentKeyCache_ d with
  | Some e =>
      let '(e, calls, r) := m e in
      (mkDecryptor (Some e) (dec_keyChain_ d) (internalKeyChain_ d) (dec_contentKeys_ d) (dec_faceCalls d), map DecCache calls, r)
  | None => (d, [], Err (Failed UndefinedBehaviour))
  end.
Definition on_external {A} (m : Op KeyChain A) : DecOp A := fun d =>
  let '(k, _, r) := m (dec_keyChain_ d) in
  (mkDecryptor (contentKeyCache_ d) k (internalKeyChain_ d) (dec_contentKeys_ d) (dec_faceCalls d), [], r).
Definition on_internal {A} (m : Op KeyChain A) : DecOp A := fun d =>
  let '(k, _, r) := m (internalKeyChain_ d) in
  (mkDecryptor (contentKeyCache_ d) (dec_keyChain_ d) k (dec_contentKeys_ d) (dec_faceCalls d), [], r).

Definition dec_express (name : Name) (mustBeFresh canBePrefix : bool) (handler : DecryptorHandler) : DecOp Z :=
  d ← self_get;
  _ ← self_modify (fun d => mkDecryptor (contentKeyCache_ d) (dec_keyChain_ d) (internalKeyChain_ d) (dec_contentKeys_ d) (S (dec_faceCalls d)));
  id ← returns (face_call (dec_faceCalls d) name);
  _ ← perform (DecExpress name mustBeFresh canBePrefix handler);
  mret id.

Definition dec_onError (request : Z) (code : EncryptErrorCode) : DecOp unit :=
  _ ← perform (DecError request code); app_decryptError request code.

(** The content key with a name, which the callbacks point to, and a change of it. *)
Definition content_key (ckName : Name) : DecOp ContentKey :=
  d ← self_get;
  match map_find (dec_contentKeys_ d) ckName with Some key => mret key | None => throw_exn (Failed UndefinedBehaviour) end.
Definition set_content_key (ckName : Name) (f : ContentKey -> ContentKey) : DecOp unit :=
  self_modify (fun d => match map_find (dec_contentKeys_ d) ckName with
                        | Some key => dec_set_keys (map_set (dec_contentKeys_ d) ckName (f key)) d
                        | None => d
                        end).
Definition with_pending (id : Z) (key : ContentKey) : ContentKey := mkContentKey (isRetrieved_ key) (bits_ key) id (pendingDecrypts_ key).

(** ** Decryption *)

(** The buffer for the plain data has the size of the payload; [front()] of an empty one is not defined. *)
Definition doDecrypt (content : EncryptedContent) (ckBits associatedData : list Z) (request : Z) : DecOp unit :=
  match initialVector_ content with
  | None => dec_onError request MissingRequiredInitialVector
  | Some initialVector =>
      let payload := blob_bytes (payload_ content) in
      let algorithm := algorithmType_ content in
      let isChaCha20 := algorithm =? ndn_EncryptAlgorithmType_ChaCha20Poly1305 in
      if negb isChaCha20 && negb ((algorithm =? -1) || (algorithm =? ndn_EncryptAlgorithmType_AesCbc)) then dec_onError request DecryptionFailure
      else if zlen payload =? 0 then throw_exn (Failed UndefinedBehaviour)
      else
        match (if isChaCha20 then ndn_ChaCha20Algorithm_decryptPoly1305 ckBits initialVector payload associatedData
               else ndn_AesAlgorithm_decrypt256Cbc ckBits initialVector payload) with
        | Err _ => dec_onError request DecryptionFailure
        | Ok plainData => try_catch (_ ← perform (DecSuccess request plainData); app_decrypted request plainData) (mret tt)
        end
  end.

(** The loop over the contents that wait, whose list is read again in each turn. *)
Fixpoint decrypt_loop (fuel : nat) (ckName : Name) (i : nat) : DecOp unit :=
  match fuel with
  | O => throw_exn (Failed OutOfFuel)
  | S fuel =>
      key ← content_key ckName;
      match pendingDecrypts_ key !! i with
      | None => mret tt
      | Some pendingDecrypt =>
          _ ← doDecrypt (encryptedContent_ pendingDecrypt) (bits_ key) (pd_associatedData_ pendingDecrypt) (pd_request pendingDecrypt);
          decrypt_loop fuel ckName (S i)
      end
  end.

(** [decryptCkAndProcessPendingDecrypts]; the key name is empty for a group content key. *)
Definition decryptCkAndProcessPendingDecrypts (ckName : Name) (ckData : DataValue) (kdkKeyName : Name) (onError : Z) : DecOp unit :=
  content ← try_catch (content ← returns (wireDecodeV2 (blob_bytes (data_content ckData))); mret (Some content))
              (_ ← dec_onError onError InvalidEncryptedFormat; mret None);
  match content with
  | None => mret tt
  | Some content =>
      let payload := blob_bytes (payload_ content) in
      decrypted ←
        try_catch
          (bits ← (if zlen kdkKeyName =? 0 then
                     credentials ← on_external (on_pib (PibKey_getName credentialsKey_));
                     on_external (on_tpm (tpm_decrypt payload credentials))
                   else on_internal (on_tpm (tpm_decrypt payload kdkKeyName)));
           mret (Some bits))
          (_ ← dec_onError onError DecryptionFailure; mret None);
      match decrypted with
      | None => mret tt
      | Some None => dec_onError onError TpmKeyNotFound
      | Some (Some bits) =>
          _ ← set_content_key ckName (fun key => mkContentKey true bits (pendingInterest_ key) (pendingDecrypts_ key));
          key ← content_key ckName;
          _ ← decrypt_loop (S (length (pendingDecrypts_ key))) ckName 0;
          set_content_key ckName (fun key => mkContentKey (isRetrieved_ key) (bits_ key) (pendingInterest_ key) [])
      end
  end.

(** ** Names *)

(** [None]: the callback for errors was called. *)
Definition convertKekNameToKdkPrefix (kekName : Name) (onError : Z) : DecOp (option Name) :=
  isKek ← (if zlen kekName <? 2 then mret false
           else component ← returns (name_get kekName (-2)); mret (component_equals component NAME_COMPONENT_KEK));
  if negb isKek then _ ← dec_onError onError KekInvalidName; mret None
  else
    last ← returns (name_get kekName (-1));
    mret (Some (append (append (getPrefix kekName (-2)) NAME_COMPONENT_KDK) last)).

(** The prefix of the KDK, its identity and the name of its key. *)
Definition extractKdkInfoFromCkName (ckDataName ckName : Name) (onError : Z) : DecOp (option (Name * Name * Name)) :=
  isCk ← (if zlen ckDataName <? zlen ckName + 1 then mret false
          else if negb (name_equals (getPrefix ckDataName (zlen ckName)) ckName) then mret false
          else component ← returns (name_get ckDataName (zlen ckName)); mret (component_equals component NAME_COMPONENT_ENCRYPTED_BY));
  if negb isCk then _ ← dec_onError onError CkInvalidName; mret None
  else
    let kekName := getSubName ckDataName (zlen ckName + 1) (zlen ckDataName) in
    kdkPrefix ← convertKekNameToKdkPrefix kekName onError;
    match kdkPrefix with
    | None => mret None
    | Some kdkPrefix =>
        last ← returns (name_get kekName (-1));
        mret (Some (kdkPrefix, getPrefix kekName (-2), append (append (getPrefix kekName (-2)) KEY_COMPONENT) last))
    end.

(** ** Fetching *)

(** [expressInterest] for a content key; an exception is an error. *)
Definition fetch_for (ckName name : Name) (mustBeFresh canBePrefix : bool) (handler : DecryptorHandler) (onError : Z) : DecOp unit :=
  try_catch (id ← dec_express name mustBeFresh canBePrefix handler; set_content_key ckName (with_pending id))
    (dec_onError onError General).

Definition fetchCk (ckName : Name) (onError nTriesLeft : Z) : DecOp unit :=
  fetch_for ckName ckName false true (FetchCk ckName onError nTriesLeft) onError.

Definition fetchKdk (ckName kdkPrefix : Name) (ckData : DataValue) (onError nTriesLeft : Z) : DecOp unit :=
  credentials ← on_external (on_pib (PibKey_getName credentialsKey_));
  let kdkName := appendName (append kdkPrefix NAME_COMPONENT_ENCRYPTED_BY) credentials in
  fetch_for ckName kdkName true false (FetchKdk ckName kdkPrefix ckData onError nTriesLeft) onError.

Definition fetchMemberGck (ckName : Name) (onError nTriesLeft : Z) : DecOp unit :=
  credentials ← on_external (on_pib (PibKey_getName credentialsKey_));
  let encryptedGckName := appendName (append ckName NAME_COMPONENT_ENCRYPTED_BY) credentials in
  fetch_for ckName encryptedGckName false true (FetchMemberGck ckName onError nTriesLeft) onError.

(** The key of the access group goes into the in-memory key chain. *)
Definition decryptAndImportKdk (kdkData : DataValue) (onError : Z) : DecOp bool :=
  try_catch
    (encryptedContent ← returns (wireDecodeV2 (blob_bytes (data_content kdkData)));
     safeBag ← returns (SafeBag_wireDecode (blob_bytes (payload_ encryptedContent)));
     credentials ← on_external (on_pib (PibKey_getName credentialsKey_));
     secret ← on_external (on_tpm (tpm_decrypt (blob_bytes (payloadKey_ encryptedContent)) credentials));
     match secret with
     | None => _ ← dec_onError onError TpmKeyNotFound; mret false
     | Some secret => _ ← on_internal (importSafeBag safeBag (Some secret)); mret true
     end)
    (_ ← dec_onError onError DecryptionFailure; mret false).

(** Whether the internal key chain has the key. *)
Definition has_kdk (kdkIdentityName kdkKeyName : Name) : DecOp bool :=
  kdkIdentity ← on_internal (catch_pib (identity ← on_pib (identities_get kdkIdentityName); mret (Some identity)) (mret None));
  match kdkIdentity with
  | None => mret false
  | Some identity => on_internal (catch_pib (_ ← on_pib (keys_get identity kdkKeyName); mret true) (mret false))
  end.

(** ** Answers *)

Definition handler_ckName (handler : DecryptorHandler) : Name :=
  match handler with FetchCk ckName _ _ | FetchKdk ckName _ _ _ _ | FetchMemberGck ckName _ _ => ckName end.
Definition handler_onError (handler : DecryptorHandler) : Z :=
  match handler with FetchCk _ onError _ | FetchKdk _ _ _ onError _ | FetchMemberGck _ onError _ => onError end.

Definition dec_onData (handler : DecryptorHandler) (data : DataValue) : DecOp unit :=
  _ ← set_content_key (handler_ckName handler) (with_pending 0);
  perform (DecValidate data handler).

(** The validator calls back. *)
Definition dec_validated (handler : DecryptorHandler) (data : DataValue) : DecOp unit :=
  match handler with
  | FetchCk ckName onError _ =>
      try_catch
        (info ← extractKdkInfoFromCkName (data_name data) ckName onError;
         match info with
         | None => mret tt
         | Some (kdkPrefix, kdkIdentityName, kdkKeyName) =>
             hasKey ← has_kdk kdkIdentityName kdkKeyName;
             if hasKey : bool then decryptCkAndProcessPendingDecrypts ckName data kdkKeyName onError
             else fetchKdk ckName kdkPrefix data onError N_RETRIES
         end)
        (dec_onError onError General)
  | FetchKdk ckName kdkPrefix ckData onError _ =>
      isOk ← decryptAndImportKdk data onError;
      if negb isOk then mret tt
      else
        last ← returns (name_get kdkPrefix (-1));
        let kdkKeyName := append (append (getPrefix kdkPrefix (-2)) KEY_COMPONENT) last in
        decryptCkAndProcessPendingDecrypts ckName ckData kdkKeyName onError
  | FetchMemberGck ckName onError _ =>
      try_catch (decryptCkAndProcessPendingDecrypts ckName data [] onError) (dec_onError onError General)
  end.
Definition dec_invalid (handler : DecryptorHandler) : DecOp unit := dec_onError (handler_onError handler) CkRetrievalFailure.

Definition dec_onTimeout (handler : DecryptorHandler) : DecOp unit :=
  _ ← set_content_key (handler_ckName handler) (with_pending 0);
  match handler with
  | FetchCk ckName onError nTriesLeft =>
      if nTriesLeft >? 1 then fetchCk ckName onError (nTriesLeft - 1) else dec_onError onError CkRetrievalTimeout
  | FetchKdk ckName kdkPrefix ckData onError nTriesLeft =>
      if nTriesLeft >? 1 then fetchKdk ckName kdkPrefix ckData onError (nTriesLeft - 1) else dec_onError onError KdkRetrievalTimeout
  | FetchMemberGck ckName onError nTriesLeft =>
      if nTriesLeft >? 1 then fetchMemberGck ckName onError (nTriesLeft - 1) else dec_onError onError CkRetrievalTimeout
  end.

Definition dec_onNetworkNack (handler : DecryptorHandler) : DecOp unit :=
  _ ← set_content_key (handler_ckName handler) (with_pending 0);
  dec_onError (handler_onError handler)
    (match handler with FetchKdk _ _ _ _ _ => KdkRetrievalFailure | _ => CkRetrievalFailure end).

(** ** The object *)

Definition cached_key (now : Z) (ckName : Name) : DecOp Blob :=
  d ← self_get;
  match contentKeyCache_ d with
  | Some _ => on_cache (getContentKey cache_face_call cache_credentialsKey_ now ckName)
  | None => mret None
  end.

Definition is_gckName (ckName : Name) : DecOp bool :=
  if zlen ckName >=? 2 then component ← returns (name_get ckName (-2)); mret (component_equals component NAME_COMPONENT_GCK)
  else mret false.

(** [decrypt]; [now] is for the encryptor. *)
Definition decrypt (now : Z) (encryptedContent : EncryptedContent) (associatedData : list Z) (request : Z) : DecOp unit :=
  match kl_type_ (keyLocator_ encryptedContent).1, initialVector_ encryptedContent with
  | KEYNAME, None => dec_onError request MissingRequiredInitialVector
  | KEYNAME, Some _ =>
      ckName ← returns (getKeyLocatorName encryptedContent);
      cachedContentKey ← cached_key now ckName;
      match cachedContentKey with
      | Some bits => doDecrypt encryptedContent bits associatedData request
      | None =>
          d ← self_get;
          let isNew := match map_find (dec_contentKeys_ d) ckName with Some _ => false | None => true end in
          _ ← (if isNew then self_modify (fun d => dec_set_keys (map_set (dec_contentKeys_ d) ckName ContentKey_new) d) else mret tt);
          contentKey ← content_key ckName;
          _ ← (if isRetrieved_ contentKey then doDecrypt encryptedContent (bits_ contentKey) associatedData request
               else set_content_key ckName (fun key => mkContentKey (isRetrieved_ key) (bits_ key) (pendingInterest_ key)
                                             (pendingDecrypts_ key ++ [mkPendingDecrypt encryptedContent associatedData request])));
          if isNew then
            isGck ← is_gckName ckName;
            if isGck : bool then fetchMemberGck ckName request N_RETRIES else fetchCk ckName request N_RETRIES
          else mret tt
      end
  | _, _ => dec_onError request MissingRequiredKeyLocator
  end.

(** [decrypt] of a Data packet and of an Interest. *)
Definition decrypt_data (now : Z) (data : DataValue) (request : Z) : DecOp unit :=
  content ← try_catch (content ← returns (wireDecodeV2 (blob_bytes (data_content data))); mret (Some content))
              (_ ← dec_onError request DecryptionFailure; mret None);
  match content with
  | None => mret tt
  | Some content => associatedData ← returns (encodeName (data_name data)); decrypt now content associatedData request
  end.

Definition decrypt_interest (now : Z) (interest : InterestValue) (request : Z) : DecOp unit :=
  content ← try_catch (content ← returns (wireDecodeV2 (blob_bytes (applicationParameters_ interest.1))); mret (Some content))
              (_ ← dec_onError request DecryptionFailure; mret None);
  match content with
  | None => mret tt
  | Some content =>
      let index := findParametersSha256Digest (interest_name interest) in
      if index <? 0 then dec_onError request DecryptionFailure
      else
        associatedData ← returns (encodeName (getPrefix (interest_name interest) index));
        decrypt now content associatedData request
  end.

(** The index of the loop is not used: [contentKeys_[0]] makes the key of a map of names from a null string. *)
Definition dec_shutdown : DecOp unit :=
  d ← self_get;
  match dec_contentKeys_ d with [] => mret tt | _ => throw_exn (Failed UndefinedBehaviour) end.
End Decryptor.
