(* ===== verification/Signing.v ===== *)
(** * What the key chain signs is verified

    By whoever receives the packet and has the public key, or the shared key of HMAC. *)

From stdpp Require Import base sorting list numbers option strings.
From Stdlib Require Import ZArith Lia.
From S2P Require Import Prelude Order Actions Encoder Decoder Blocks Name TlvName NameUri ValidityPeriod ChangeCounter Data TlvData Interest WireFormat Certificates NameMap Pib PibSpec KeyChain KeyChainSpec.
Open Scope Z_scope.

(** ** The signed portion *)

Lemma signed_portion_sub (e : SignedBlob) : signed_portion e = sub_bytes e.1 e.2.1 (e.2.2 - e.2.1).
Proof. easy. Qed.

(** The bits of a signature are not signed. *)
Definition set_bits (bits : Blob) (v : DataValue) : DataValue := with_signature (with_bits bits (data_signature v)) v.

Lemma data_signed_bits bits v b : data_signed (data_lite (set_bits bits v)) b = data_signed (data_lite v) b.
Proof. easy. Qed.

Lemma signature_lite_bits bits s : signature_lite (with_bits (Some bits) s) = set_signature (signature_lite s) bits.
Proof. destruct s as [fields [k p]]. now destruct fields. Qed.

Lemma sendable_bits bits v b :
  data_sendable v b -> zlen (block_bytes (data_block (data_lite (set_bits (Some bits) v)) b)) < 2 ^ 63 ->
  data_sendable (set_bits (Some bits) v) b.
Proof.
  intros [Hn Hk Hs Hm Hf _] Hl. split; try easy.
  - unfold signature_fits, set_bits, canGetFromSignature in *. destruct v as [c [[fields [k p]] [n m]]]. cbn in *. now destruct fields.
  - change (signature_lite (data_signature (set_bits (Some bits) v))) with (signature_lite (with_bits (Some bits) (data_signature v))).
    rewrite signature_lite_bits. unfold signature_block, generic_block in *. destruct (signature_lite _). exact Hs.
Qed.

Lemma received_bits bits v : signature_bits (data_signature (data_received (set_bits (Some bits) v))) = bits.
Proof. destruct v as [c [[fields [k p]] [n m]]]. now destruct fields. Qed.

(** A packet that is encoded, signed over that encoding, encoded again and sent: the receiver sees what was signed. *)
Lemma signed_and_sent bits v b (o : DataObject) :
  data_sendable v b -> data_sendable (set_bits (Some bits) v) b ->
  exists e e' o', encodeData v = Ok e /\ encodeData (set_bits (Some bits) v) = Ok e' /\
    decodeData e'.1 o = Ok (o', e'.2) /\ value_of o' = data_received (set_bits (Some bits) v) /\
    signed_portion e' = signed_portion e.
Proof.
  intros Hv Hv'. destruct (data_encoded v b Hv) as (bytes & signed & d & Henc & _ & Hsig).
  destruct (Data_set_value (set_bits (Some bits) v) o (ds_metaInfo _ _ Hv') (ds_freshness _ _ Hv')) as (o' & Hset & Ho & _).
  destruct (data_encoded _ b Hv') as (bytes' & signed' & d' & Henc' & Hdec' & Hsig').
  exists (bytes, signed), (bytes', signed'), o'. split; [easy |]. split; [easy |]. split; [| split; [easy |]].
  - unfold decodeData. cbn [fst snd]. rewrite Hdec'. cbn [throw_failure mbind result_bind]. now rewrite Hset.
  - rewrite !signed_portion_sub. cbn [fst snd]. now rewrite Hsig, Hsig', data_signed_bits.
Qed.

(** ** Signing with a key of the TPM *)

Section Sign.
Context `{Crypto} `{PrivateKeys}.

(** The private key under a name: that of the handle, or else that of the back end. *)
Definition private_key (name : Name) (t : Tpm) : option PrivateKey :=
  match map_find (tpm_handles_ t) name with
  | Some handle => Some (th_key_ handle)
  | None => map_find (backEnd_keys_ t) name
  end.

Lemma with_handle_run name key f bytes t :
  private_key name t = Some key -> f key = Ok bytes -> exists t', with_handle name f t = (t', [], Ok (Some bytes)).
Proof.
  unfold private_key, with_handle, findKey. intros Hk Hs.
  destruct (map_find (tpm_handles_ t) name) as [h |] eqn:E.
  - injection Hk as <-. exists t. erewrite act_bind_silent; [| rewrite act_get_bind, E; reflexivity]. cbn. now rewrite Hs.
  - eexists. erewrite act_bind_silent; [| rewrite act_get_bind, E, Hk, act_modify_bind; reflexivity]. cbn. now rewrite Hs.
Qed.

Lemma tpm_sign_run name key buffer bits t :
  private_key name t = Some key -> private_sign key buffer = Ok bits ->
  exists t', tpm_sign buffer name t = (t', [], Ok (Some bits)).
Proof. apply (with_handle_run name key (fun key => private_sign key buffer)). Qed.

Lemma digest_identity_equals : name_equals digestSha256Identity digestSha256Identity = true.
Proof. vm_compute. reflexivity. Qed.

(** The signature of a key has its name. *)
Lemma key_signature_locator type name period sig :
  key_signature type name period = Ok sig ->
  canGetFromSignature sig = true /\ sig.2.1 = (mkKeyLocatorFields KEYNAME None, name).
Proof.
  unfold key_signature. destruct (if ValidityPeriod_hasPeriod period then _ else _); [| easy]. intros [= <-]. now destruct type.
Qed.

Lemma act_bind_inv {S A B} (m : Op S A) (f : A -> Op S B) s s' b :
  (m ≫= f) s = (s', [], Ok b) -> exists s1 a, m s = (s1, [], Ok a) /\ f a s1 = (s', [], Ok b).
Proof.
  unfold mbind, Act_bind. destruct (m s) as [[s1 c1] [a | e]] eqn:E; [| easy]. destruct (f a s1) as [[s2 c2] r] eqn:E2.
  intros [= -> Hc ->]. apply app_eq_nil in Hc as [-> ->]. eauto.
Qed.

Lemma prepareSignatureInfo_locator params p p' sig name :
  prepareSignatureInfo params p = (p', [], Ok (sig, name)) -> name_equals name digestSha256Identity = false ->
  canGetFromSignature sig = true /\ sig.2.1 = (mkKeyLocatorFields KEYNAME None, name).
Proof.
  unfold prepareSignatureInfo. intros (p1 & signer & _ & Hs)%act_bind_inv Hne. destruct signer as [signer |]; cycle 1.
  { injection Hs as _ _ <-. now rewrite digest_identity_equals in Hne. }
  apply act_bind_inv in Hs as (p2 & k & _ & Hs). apply act_bind_inv in Hs as (p3 & impl & _ & Hs).
  apply act_bind_inv in Hs as (p4 & sig' & Hsig & [= _ -> <-]). injection Hsig as _ Hsig. now apply (key_signature_locator _ _ _ _ Hsig).
Qed.

(** C12: what is signed is verified. A Data packet that is signed by a key that the signing info names, and that the TPM
    has, is encoded; whoever decodes the bytes into any object gets the packet with the name of the key in its key
    locator, and the verification of the signature under the public key of the key succeeds. *)
Theorem signed_data_verifies (k : KeyChain) params data p' sig name key pub type b (o : DataObject) :
  (forall buffer bits, private_sign key buffer = Ok bits -> verifySignature_key buffer bits pub type = true) ->
  (forall buffer, exists bits, private_sign key buffer = Ok bits /\
     zlen (block_bytes (data_block (data_lite (set_bits (Some bits) (with_signature sig data))) b)) < 2 ^ 63) ->
  prepareSignatureInfo params (kc_pib_ k) = (p', [], Ok (sig, name)) -> name_equals name digestSha256Identity = false ->
  private_key name (kc_tpm_ k) = Some key -> public_key_type pub = Ok type ->
  data_sendable (with_signature sig data) b ->
  exists k' packet bytes signed o',
    sign_data data params k = (k', [], Ok packet) /\ packet_encoding packet = Some (bytes, signed) /\
    decodeData bytes o = Ok (o', signed) /\ value_of o' = data_received (packet_value packet) /\
    data_name (value_of o') = data_name data /\ blob_bytes (data_content (value_of o')) = blob_bytes (data_content data) /\
    getFromSignature (data_signature (value_of o')) = Ok (mkKeyLocatorFields KEYNAME None, name) /\
    verify_signed (packet_signed (mkDataPacket (value_of o') (Some (bytes, signed)))) pub = Ok true.
Proof.
  intros Hsound Htotal Hprep Hne Hkey Htype Hv. set (v := with_signature sig data) in *.
  destruct (data_encoded v b Hv) as (bytes0 & signed0 & d & Henc0 & _).
  destruct (Htotal (signed_portion (bytes0, signed0))) as (bits & Hbits & Hsize).
  destruct (signed_and_sent bits v b o Hv (sendable_bits bits v b Hv Hsize)) as (e & e' & o' & Henc & Henc' & Hdec & Ho & Hsig).
  assert (e = (bytes0, signed0)) as -> by congruence.
  destruct (tpm_sign_run name key _ bits _ Hkey Hbits) as [t' Ht].
  destruct (prepareSignatureInfo_locator _ _ _ _ _ Hprep Hne) as [Hcan Hloc].
  exists (mkKeyChain p' t'), (mkDataPacket (set_bits (Some bits) v) (Some e')), e'.1, e'.2, o'. split_and!.
  - unfold sign_data. rewrite (act_bind_silent _ _ _ (mkKeyChain p' (kc_tpm_ k)) (sig, name)) by (unfold on_pib; now rewrite Hprep).
    change (with_signature sig data) with v. rewrite Henc0, act_returns_bind.
    rewrite (act_bind_silent _ _ _ (mkKeyChain p' t') (Some bits)) by (unfold sign_buffer, on_tpm; rewrite Hne; cbn [kc_tpm_ kc_pib_]; now rewrite Ht).
    change (with_signature (with_bits (Some bits) sig) v) with (set_bits (Some bits) v). rewrite Henc', act_returns_bind. easy.
  - now destruct e'.
  - easy.
  - easy.
  - now rewrite Ho.
  - now rewrite Ho.
  - rewrite Ho. destruct sig as [fields [kl period]]. cbn in Hloc, Hcan. subst kl. now destruct fields.
  - unfold packet_signed. cbn [packet_wireEncode packet_encoding packet_value]. rewrite <- surjective_pairing, Ho, received_bits, Hsig.
    unfold verify_signed, with_publicKey. rewrite Htype. now rewrite (Hsound _ _ Hbits).
Qed.

(** A digest is signed without a key, and leaves the key chain as it is. *)
Lemma sign_digest_run data params k e e' :
  si_type_ params = SIGNER_TYPE_SHA256 ->
  let bits := digest_sha256 (signed_portion e) in
  encodeData (with_signature digest_signature data) = Ok e ->
  encodeData (set_bits (Some bits) (with_signature digest_signature data)) = Ok e' ->
  sign_data data params k = (k, [], Ok (mkDataPacket (set_bits (Some bits) (with_signature digest_signature data)) (Some e'))).
Proof.
  intros Hp bits He He'. unfold sign_data.
  rewrite (act_bind_silent _ _ _ k (digest_signature, digestSha256Identity)).
  2: { unfold on_pib, prepareSignatureInfo, find_signer. rewrite Hp. now destruct k. }
  rewrite He, act_returns_bind. rewrite (act_bind_silent _ _ _ k (Some bits)).
  2: { unfold sign_buffer. now rewrite digest_identity_equals. }
  change (with_signature (with_bits (Some bits) digest_signature) (with_signature digest_signature data))
    with (set_bits (Some bits) (with_signature digest_signature data)).
  now rewrite He', act_returns_bind.
Qed.

(** C13: HMAC and digest. A Data packet that is signed with a shared key is encoded, and whoever decodes the bytes into any
    object and has the key finds that it was signed with it. A Data packet that the key chain signs with a SHA-256 digest, for
    which it needs no key and does not change, is encoded as well, and [verifyDataDigest] accepts what is decoded. In both cases
    the signature has 32 bytes, the packet can be sent, and its size stays below 2^63 bytes with the signature. *)
Theorem hmac_data_verifies (data : DataValue) key b b' params (k : KeyChain) (o : DataObject) :
  let digested := with_signature digest_signature data in
  (forall buffer, zlen (hmac_sha256 key buffer) = 32) -> (forall buffer, zlen (digest_sha256 buffer) = 32) ->
  (forall bits, zlen bits = 32 -> zlen (block_bytes (data_block (data_lite (set_bits (Some bits) data)) b)) < 2 ^ 63) ->
  (forall bits, zlen bits = 32 -> zlen (block_bytes (data_block (data_lite (set_bits (Some bits) digested)) b')) < 2 ^ 63) ->
  data_sendable data b -> data_sendable digested b' -> si_type_ params = SIGNER_TYPE_SHA256 ->
  (exists packet bytes signed o', signWithHmacWithSha256 data key = Ok packet /\ packet_encoding packet = Some (bytes, signed) /\
    decodeData bytes o = Ok (o', signed) /\ value_of o' = data_received (packet_value packet) /\
    verifyDataWithHmacWithSha256 (mkDataPacket (value_of o') (Some (bytes, signed))) key = Ok true) /\
  (exists packet bytes signed o', sign_data data params k = (k, [], Ok packet) /\ packet_encoding packet = Some (bytes, signed) /\
    decodeData bytes o = Ok (o', signed) /\ value_of o' = data_received (packet_value packet) /\
    verifyDataDigest (mkDataPacket (value_of o') (Some (bytes, signed))) = true).
Proof.
  intros digested Hlen Hlen' Hsize Hsize' Hv Hv' Hparams. split.
  - destruct (data_encoded data b Hv) as (bytes0 & signed0 & d & Henc0 & _).
    set (bits := hmac_sha256 key (signed_portion (bytes0, signed0))).
    destruct (signed_and_sent bits data b o Hv (sendable_bits bits data b Hv (Hsize bits (Hlen _)))) as (e & e' & o' & Henc & Henc' & Hdec & Ho & Hsig).
    assert (e = (bytes0, signed0)) as -> by congruence.
    exists (mkDataPacket (set_bits (Some bits) data) (Some e')), e'.1, e'.2, o'. split_and!; try easy.
    + unfold signWithHmacWithSha256. rewrite Henc0. cbn [mbind result_bind]. fold bits. fold (set_bits (Some bits) data). now rewrite Henc'.
    + now destruct e'.
    + unfold verifyDataWithHmacWithSha256, packet_wireEncode. cbn [packet_encoding packet_value mbind result_bind].
      rewrite <- surjective_pairing, Ho, received_bits, Hsig. unfold verify_hmac. unfold bits. rewrite Hlen. now rewrite bool_decide_eq_true_2.
  - destruct (data_encoded digested b' Hv') as (bytes0 & signed0 & d & Henc0 & _).
    set (bits := digest_sha256 (signed_portion (bytes0, signed0))).
    destruct (signed_and_sent bits digested b' o Hv' (sendable_bits bits digested b' Hv' (Hsize' bits (Hlen' _)))) as (e & e' & o' & Henc & Henc' & Hdec & Ho & Hsig).
    assert (e = (bytes0, signed0)) as -> by congruence.
    exists (mkDataPacket (set_bits (Some bits) digested) (Some e')), e'.1, e'.2, o'. split_and!; try easy.
    + exact (sign_digest_run data params k _ e' Hparams Henc0 Henc').
    + now destruct e'.
    + unfold verifyDataDigest, packet_signed. cbn [packet_wireEncode packet_encoding packet_value].
      rewrite <- surjective_pairing, Ho, received_bits, Hsig. unfold verifyDigest, bits. rewrite Hlen'. now rewrite bool_decide_eq_true_2.
Qed.
End Sign.

(** ** Examples *)

#[local] Existing Instance toy_crypto.
#[local] Existing Instance toy_keys.

Definition alice_chain : KeyChain := run_calls (take 1 alice_calls) toy_chain.
Definition alice_key : Name := alice ++ [KEY_COMPONENT; generic (repeat 0 8)].
Definition alice_signature : SignatureValue := (Sha256WithRsaSignature None, ((mkKeyLocatorFields KEYNAME None, alice_key), no_period)).
Definition hello : DataValue :=
  (Some (chars "hello"), (digest_signature, (alice ++ [generic (chars "hello")], mkMetaInfoFields (-1000000) 0 (-1) (-1000000) (generic [])))).
Definition info_block (sig : SignatureValue) : Block := (ndn_Tlv_SignatureInfo, blocks_bytes (signature_value (signature_lite sig))).

Lemma alice_wire_name : wire_name alice_key /\ wire_name (data_name hello).
Proof.
  split; (split; [repeat constructor; unfold is_byte; lia |]; split; [repeat constructor; discriminate | now vm_compute]).
Defined.

Lemma hello_sendable : data_sendable (with_signature alice_signature hello) (info_block alice_signature).
Proof.
  split.
  - apply alice_wire_name.
  - intros _. apply alice_wire_name.
  - right. split; [reflexivity |]. split; [left; reflexivity |]. left. split; [reflexivity |]. split; [apply alice_wire_name | now vm_compute].
  - split; [left; reflexivity | vm_compute; auto | | discriminate]. split; [constructor | reflexivity].
  - now vm_compute.
  - now vm_compute.
Defined.

Definition empty_object : DataObject := object_ (data_cached (Data_new [] (mkMetaInfoFields (-1000000) 0 (-1) (-1000000) (generic [])))).

Lemma signed_data_verifies_witness :
  exists k' packet bytes signed o', let data := hello in
    sign_data data (setSigningIdentity alice) alice_chain = (k', [], Ok packet) /\ packet_encoding packet = Some (bytes, signed) /\
    decodeData bytes empty_object = Ok (o', signed) /\ value_of o' = data_received (packet_value packet) /\
    data_name (value_of o') = data_name data /\ blob_bytes (data_content (value_of o')) = blob_bytes (data_content data) /\
    getFromSignature (data_signature (value_of o')) = Ok (mkKeyLocatorFields KEYNAME None, alice_key) /\
    verify_signed (packet_signed (mkDataPacket (value_of o') (Some (bytes, signed)))) [1; 7] = Ok true.
Proof.
  apply (signed_data_verifies alice_chain (setSigningIdentity alice) hello
    (state_of (prepareSignatureInfo (setSigningIdentity alice) (kc_pib_ alice_chain))) alice_signature alice_key [7] [1; 7] KEY_TYPE_RSA
    (info_block alice_signature) empty_object).
  - intros buffer bits [= <-]. reflexivity.
  - intros buffer. exists [1; 7]. split; [reflexivity | now vm_compute].
  - now vm_compute.
  - now vm_compute.
  - now vm_compute.
  - reflexivity.
  - exact hello_sendable.
Defined.

Definition hmac_signature : SignatureValue := (HmacWithSha256Signature None, ((mkKeyLocatorFields KEYNAME None, alice), no_period)).

Lemma zlen_toy_hmac key buffer : zlen (hmac_sha256 key buffer) = 32.
Proof. unfold hmac_sha256, toy_keys. rewrite length_take, !length_app, repeat_length. lia. Defined.

Lemma zlen_toy_digest buffer : zlen (digest_sha256 buffer) = 32.
Proof. unfold digest_sha256, toy_crypto. rewrite length_take, !length_app, repeat_length. lia. Defined.

Lemma hmac_data_verifies_witness :
  (exists packet bytes signed o', signWithHmacWithSha256 (with_signature hmac_signature hello) [3; 4] = Ok packet /\
    packet_encoding packet = Some (bytes, signed) /\
    decodeData bytes empty_object = Ok (o', signed) /\ value_of o' = data_received (packet_value packet) /\
    verifyDataWithHmacWithSha256 (mkDataPacket (value_of o') (Some (bytes, signed))) [3; 4] = Ok true) /\
  (exists packet bytes signed o', sign_data (with_signature hmac_signature hello) setSha256Signing toy_chain = (toy_chain, [], Ok packet) /\
    packet_encoding packet = Some (bytes, signed) /\
    decodeData bytes empty_object = Ok (o', signed) /\ value_of o' = data_received (packet_value packet) /\
    verifyDataDigest (mkDataPacket (value_of o') (Some (bytes, signed))) = true).
Proof.
  apply (hmac_data_verifies _ _ (info_block hmac_signature) (info_block digest_signature)).
  - intros buffer. apply zlen_toy_hmac.
  - intros buffer. apply zlen_toy_digest.
  - intros bits Hb. do 33 (destruct bits as [| ? bits]; try (exfalso; cbn [length] in Hb; lia)). now vm_compute.
  - intros bits Hb. do 33 (destruct bits as [| ? bits]; try (exfalso; cbn [length] in Hb; lia)). now vm_compute.
  - split.
    + apply alice_wire_name.
    + intros _. split; [repeat constructor; unfold is_byte; lia |]. split; [repeat constructor; discriminate | now vm_compute].
    + right. split; [reflexivity |]. split; [left; reflexivity |]. left. split; [reflexivity |].
      split; [repeat constructor; unfold is_byte; lia | now vm_compute].
    + split; [left; reflexivity | vm_compute; auto | | discriminate]. split; [constructor | reflexivity].
    + now vm_compute.
    + now vm_compute.
  - split.
    + apply alice_wire_name.
    + discriminate.
    + right. split; [reflexivity |]. split; [left; reflexivity | right; reflexivity].
    + split; [left; reflexivity | vm_compute; auto | | discriminate]. split; [constructor | reflexivity].
    + now vm_compute.
    + now vm_compute.
  - reflexivity.
Defined.
