(* ===== verification/GckSpec.v ===== *)
(** * Group content keys, from the access manager to the members

    The encryptor and the decryptor of two members that get packets of the access manager with the same group content key:
    what is encrypted with it arrives. *)

From stdpp Require Import base list numbers option strings.
From Stdlib Require Import ZArith Lia.
From S2P Require Import Prelude Order Actions Encoder Decoder Blocks Name NameUri TlvName ChangeCounter ValidityPeriod Data TlvData TlvControl.
From S2P Require Import Interest WireFormat Publisher Certificates NameMap Pib PibSpec KeyChain KeyChainSpec Signing Encryption Encryptor AccessManager EncryptionSpec Decryptor.
Open Scope Z_scope.

Section Gck.
Context `{Crypto} `{PrivateKeys} `{EvpLaws}.
Context (face_call : nat -> Name -> result exn Z).
(** The face gives an id or throws an exception, and there are always random bytes. *)
Context (face_throws : forall n name e, face_call n name = Err e -> is_exception e = true).
Context (random_total : forall n size, 0 <= size -> exists bytes, generateRandomBytes n size = Ok bytes).

(** ** What is encrypted *)

(** A content that was encrypted with the key with a name. *)
Record sealed (name : Name) (bits plain ad : list Z) (c : EncryptedContent) : Prop := {
  sealed_locator : exists keyData, keyLocator_ c = (mkKeyLocatorFields KEYNAME keyData, name);
  sealed_algorithm : algorithmType_ c = ndn_EncryptAlgorithmType_ChaCha20Poly1305 \/ algorithmType_ c = ndn_EncryptAlgorithmType_AesCbc;
  sealed_payload : exists iv payload, initialVector_ c = Some iv /\ payload_ c = Some payload /\ payload <> [] /\ iv <> [] /\
    (if algorithmType_ c =? ndn_EncryptAlgorithmType_ChaCha20Poly1305
     then ndn_ChaCha20Algorithm_decryptPoly1305 bits iv payload ad else ndn_AesAlgorithm_decrypt256Cbc bits iv payload) = Ok plain
}.

Definition known_algorithm (algorithm : Z) : Prop :=
  algorithm = ndn_EncryptAlgorithmType_ChaCha20Poly1305 \/ algorithm = ndn_EncryptAlgorithmType_AesCbc.

(** The key pair of a member opens a packet of the access manager. *)
Definition member_opens (k : PibKey) (kc : KeyChain) (data : DataValue) (bits : list Z) : Prop :=
  exists p' name content t',
    PibKey_getName k (kc_pib_ kc) = (p', [], Ok name) /\ wireDecodeV2 (blob_bytes (data_content data)) = Ok content /\
    tpm_decrypt (blob_bytes (payload_ content)) name (kc_tpm_ kc) = (t', [], Ok (Some bits)).

(** ** The encryptor *)

Section Encrypts.
Context (k : PibKey) (algorithm : Z).
(** The application that only listens. *)
Abbreviation listens := (fun _ _ => mret tt).
Abbreviation encrypting now plain ad := (encrypt_now face_call (Some k) algorithm now plain ad).

Definition successes (calls : list EncryptorCall) : list (OnEncryptSuccess * EncryptedContent) :=
  omap (fun call => match call with EncSuccess onSuccess content => Some (onSuccess, content) | _ => None end) calls.

Lemma successes_app l l' : successes (l ++ l') = successes l ++ successes l'.
Proof. apply omap_app. Qed.

Definition has_gck (name : Name) (bits : list Z) (e : Encryptor) : Prop :=
  exists m, keyManagers_ e = [m] /\ ckName_ m = name /\ ckBits_ m = bits.

(** Nothing is answered, and the requests and the keys are kept. *)
Definition same_work (e e' : Encryptor) (calls : list EncryptorCall) : Prop :=
  pendingEncrypts_ e' = pendingEncrypts_ e /\ contentKeys_ e' = contentKeys_ e /\ successes calls = [].

Lemma does_km {B} i m (f : KeyManager -> Act Encryptor EncryptorCall B) e Q :
  keyManagers_ e !! i = Some m -> Does (f m) e Q -> Does (km i ≫= f) e Q.
Proof.
  intros Hm Hf. apply does_bind. unfold km. apply does_get_bind. rewrite Hm. apply does_ret.
  eapply does_weaken; [exact Hf | easy].
Qed.

Lemma does_km_modify name bits i f e :
  has_gck name bits e -> (forall m, ckName_ (f m) = ckName_ m /\ ckBits_ (f m) = ckBits_ m) ->
  Does (km_modify i f) e (fun e' calls _ => has_gck name bits e' /\ same_work e e' calls).
Proof.
  intros (m & Hm & Hn & Hb) Hf. apply does_modify. split; [| easy]. cbn. rewrite Hm.
  destruct i; cbn; [| now exists m]. exists (f m). now rewrite (proj1 (Hf m)), (proj2 (Hf m)).
Qed.

Lemma same_work_trans e e' e'' calls calls' : same_work e e' calls -> same_work e' e'' calls' -> same_work e e'' (calls ++ calls').
Proof.
  intros (Hp & Hk & Hc) (Hp' & Hk' & Hc'). split; [congruence |]. split; [congruence |]. now rewrite successes_app, Hc, Hc'.
Qed.

Lemma does_check name bits e :
  has_gck name bits e -> Does (checkForNewGck face_call 0) e (fun e' calls _ => has_gck name bits e' /\ same_work e e' calls).
Proof.
  intros (m & Hm & Hn & Hb); assert (Hg : has_gck name bits e) by (now exists m). unfold checkForNewGck. apply (does_km _ m); [now rewrite Hm |]. cbv beta.
  destruct (isGckRetrievalInProgress_ m); [does_step; now split |].
  apply does_bind. eapply does_weaken; [now apply (does_km_modify name bits) |]. intros e1 calls1 _ [Hg1 Hs1].
  destruct (face_call (enc_faceCalls e1) (gckLatestPrefix_ m)) as [id | err] eqn:E.
  - apply does_try. apply does_bind. unfold enc_express. do 2 does_step. rewrite E. do 2 does_step. does_step. does_step. does_step.
    split; [exact Hg1 |]. rewrite app_nil_r. destruct Hs1 as (Hp & Hk & Hq). split; [easy |]. split; [easy |].
    now rewrite successes_app, Hq.
  - destruct (does_km_modify name bits 0 (km_gckInProgress false) (set_counts (enc_randoms e1) (S (enc_faceCalls e1)) e1) Hg1 ltac:(easy))
      as (e' & calls & [] & Hrun & Hg' & Hs).
    exists e', calls, tt. split; [| split; [easy |]; now apply (same_work_trans _ e1)].
    unfold try_catch, catch, enc_express, mbind, Act_bind, self_get, self_modify, returns. cbn. rewrite E. cbn.
    now rewrite (face_throws _ _ _ E), Hrun.
Qed.

Lemma does_ready now name bits e : name <> [] -> has_gck name bits e ->
  Does (isKeyReady face_call (Some k) now 0) e (fun e' calls ready => ready = true /\ has_gck name bits e' /\ same_work e e' calls).
Proof.
  intros Hne Hg. pose proof Hg as (m & Hm & Hn & Hb). unfold isKeyReady. cbn [isUsingGck]. apply (does_km _ m); [now rewrite Hm |]. cbv beta. does_step.
  rewrite Hn. destruct name as [| c name]; [easy |]. cbn [length Z.of_nat Z.eqb].
  assert (Hend : forall e', has_gck (c :: name) bits e' -> Does (m ← km 0; if (1 <? length (keyManagers_ e))%nat then mret (accessManagerIsResponding_ m) else mret true) e'
                   (fun e'' calls ready => ready = true /\ e'' = e' /\ calls = [])).
  { intros e' (m' & Hm' & _). apply (does_km _ m'); [now rewrite Hm' |]. cbv beta. rewrite Hm. cbn. now does_step. }
  apply does_bind. destruct (nextCheckForNewGck_ m <? now).
  - apply does_bind. eapply does_weaken; [apply (does_km_modify (c :: name) bits); [exact Hg | easy] |]. intros e1 calls1 _ [Hg1 Hs1].
    destruct (negb (isGckRetrievalInProgress_ m)).
    + eapply does_weaken; [now apply (does_check (c :: name) bits) |]. intros e2 calls2 _ [Hg2 Hs2].
      eapply does_weaken; [now apply Hend |]. intros e3 calls3 ready (-> & -> & ->). rewrite app_nil_r.
      split; [easy |]. split; [easy |]. now apply (same_work_trans _ e1).
    + does_step. eapply does_weaken; [now apply Hend |]. intros e3 calls3 ready (-> & -> & ->). now rewrite !app_nil_r.
  - does_step. eapply does_weaken; [now apply Hend |]. now intros e3 calls3 ready (-> & -> & ->).
Qed.

Lemma does_random size e Q : 0 <= size ->
  (forall bytes, zlen bytes = size -> Q (set_counts (S (enc_randoms e)) (enc_faceCalls e) e) [] bytes) -> Does (random_value size) e Q.
Proof.
  intros Hsize HQ. unfold random_value. do 2 does_step. destruct (random_total (enc_randoms e) size Hsize) as [bytes Hb].
  rewrite Hb. eexists _, _, _. split; [reflexivity |]. apply HQ. exact (random_size _ _ _ Hb Hsize).
Qed.

(** The keys of both algorithms have 32 bytes. *)
Lemma does_encrypt name bits plain ad e : known_algorithm algorithm -> name <> [] -> zlen bits = 32 -> has_gck name bits e ->
  Does (km_encrypt (Some k) algorithm 0 plain ad) e
    (fun e' calls content => (exists c, content = Some c /\ sealed name bits plain ad c) /\ has_gck name bits e' /\ same_work e e' calls).
Proof.
  intros Halg Hne Hl (m & Hm & Hn & Hb). unfold km_encrypt. apply (does_km _ m); [now rewrite Hm |]. cbv beta.
  rewrite Hn, Hb. cbn [isUsingGck]. destruct (Z.eqb_spec (zlen name) 0) as [E | _]; [now destruct name |]. cbn [andb].
  assert (Hsizes : forall key iv n, zlen key = 32 -> zlen iv = n -> check_sizes key 32 iv n = Ok tt) by (intros; now apply check_sizes_ok).
  apply does_bind. destruct Halg as [-> | ->].
  - rewrite Z.eqb_refl. apply does_bind, does_random; [easy |]. intros iv Hiv.
    destruct (ndn_ChaCha20Algorithm_encryptPoly1305 bits iv plain ad) as [cipher | err] eqn:E.
    + does_step. do 2 does_step. destruct (chacha20_roundtrip _ _ _ _ _ E) as [Hd Hc].
      split; [| split; [now exists m | easy]]. eexists. split; [reflexivity |]. split; [now eexists | now left |].
      exists iv, cipher. split; [easy |]. split; [easy |]. split; [easy |]. split; [now destruct iv | exact Hd].
    + exfalso. unfold ndn_ChaCha20Algorithm_encryptPoly1305, ndn_CHACHA20_KEY_LENGTH in E. rewrite Hsizes in E by easy. cbn in E.
      now destruct (EVP_chacha20_poly1305_encrypt bits iv ad plain).
  - change (ndn_EncryptAlgorithmType_AesCbc =? ndn_EncryptAlgorithmType_ChaCha20Poly1305) with false. cbv iota.
    apply does_bind, does_random; [easy |]. intros iv Hiv.
    destruct (ndn_AesAlgorithm_encrypt256Cbc bits iv plain) as [cipher | err] eqn:E.
    + does_step. do 2 does_step. destruct (aes_256_cbc_roundtrip _ _ _ _ E) as [Hd Hc].
      split; [| split; [now exists m | easy]]. eexists. split; [reflexivity |]. split; [now eexists | now right |].
      exists iv, cipher. split; [easy |]. split; [easy |]. split; [easy |]. split; [now destruct iv | exact Hd].
    + exfalso. unfold ndn_AesAlgorithm_encrypt256Cbc, ndn_AES_256_KEY_LENGTH in E. now rewrite Hsizes in E by easy.
Qed.

Lemma does_encrypt_now now name bits plain ad e : known_algorithm algorithm -> name <> [] -> zlen bits = 32 -> has_gck name bits e ->
  Does (encrypting now plain ad) e (fun e' calls c => sealed name bits plain ad c /\ has_gck name bits e' /\ same_work e e' calls).
Proof.
  intros Halg Hne Hl Hg. unfold encrypt_now, all_managers. pose proof Hg as (m & Hm & _).
  apply does_bind, does_get_bind, does_ret. rewrite Hm. cbn [seq length]. apply does_bind. cbn [try_managers].
  apply does_bind. eapply does_weaken; [now apply (does_ready now name bits) |]. intros e1 calls1 ready (-> & Hg1 & Hs1). cbn [negb].
  apply does_bind. eapply does_weaken; [now apply (does_encrypt name bits plain ad) |]. intros e2 calls2 content ((c & -> & Hc) & Hg2 & Hs2).
  does_step. does_step. does_step. cbn [app]. rewrite !app_nil_r. split; [easy |]. split; [exact Hg2 |]. now apply (same_work_trans _ e1).
Qed.

(** A request is answered once, with its content. *)
Definition wants_content (p : PendingEncrypt) : Prop := exists request, pending_onSuccess p = OnContent request.
Definition answered (name : Name) (bits : list Z) : list PendingEncrypt -> list (OnEncryptSuccess * EncryptedContent) -> Prop :=
  Forall2 (fun p s => s.1 = pending_onSuccess p /\ sealed name bits (plainData_ p) (associatedData_ p) s.2).

Lemma does_pending_loop now name bits fuel i e : known_algorithm algorithm -> name <> [] -> zlen bits = 32 -> has_gck name bits e ->
  List.Forall wants_content (pendingEncrypts_ e) -> (i <= length (pendingEncrypts_ e) < i + fuel)%nat ->
  Does (pending_loop face_call (Some k) algorithm listens fuel now i) e
    (fun e' calls _ => has_gck name bits e' /\ pendingEncrypts_ e' = pendingEncrypts_ e /\ contentKeys_ e' = contentKeys_ e /\
       answered name bits (drop i (pendingEncrypts_ e)) (successes calls)).
Proof.
  intros Halg Hne Hl. revert i e. induction fuel as [| fuel IH]; intros i e Hg Hw Hi; [lia |]. cbn [pending_loop]. does_step.
  destruct (pendingEncrypts_ e !! i) as [p |] eqn:Ep.
  - apply does_bind. eapply does_weaken; [now apply (does_encrypt_now now name bits) |]. intros e1 calls1 c (Hc & Hg1 & Hp1 & Hk1 & Hq1).
    pose proof Hw as Hw'. rewrite List.Forall_forall in Hw'.
    destruct (Hw' p) as [request Hreq]; [apply list_elem_of_In; now apply list_elem_of_lookup_2 in Ep |].
    pose proof (lookup_lt_Some _ _ _ Ep) as Hlt. unfold call_onSuccess, run_onSuccess. rewrite Hreq.
    apply does_bind. do 2 does_step. do 2 does_step. does_step.
    eapply does_weaken; [apply (IH (S i) e1 Hg1); rewrite Hp1; [exact Hw | lia] |].
    intros e2 calls2 _ (Hg2 & Hp2 & Hk2 & Ha2). rewrite Hp1 in *. split; [exact Hg2 |]. split; [exact Hp2 |]. split; [congruence |].
    rewrite (drop_S _ p _ Ep), !successes_app, Hq1. constructor; [now split | exact Ha2].
  - does_step. apply lookup_ge_None in Ep. split; [exact Hg |]. split; [easy |]. split; [easy |]. rewrite drop_ge by lia. constructor.
Qed.

Lemma does_pending now name bits e : known_algorithm algorithm -> name <> [] -> zlen bits = 32 -> has_gck name bits e ->
  List.Forall wants_content (pendingEncrypts_ e) ->
  Does (processPendingEncrypts face_call (Some k) algorithm listens now) e
    (fun e' calls _ => has_gck name bits e' /\ pendingEncrypts_ e' = [] /\ contentKeys_ e' = contentKeys_ e /\
       answered name bits (pendingEncrypts_ e) (successes calls)).
Proof.
  intros Halg Hne Hl Hg Hw. unfold processPendingEncrypts. does_step. destruct (pendingEncrypts_ e) as [| p l] eqn:Ep.
  - does_step. split; [exact Hg |]. split; [easy |]. split; [easy | constructor].
  - apply does_bind. eapply does_weaken; [apply (does_pending_loop now name bits _ 0 e); try easy; rewrite Ep; [exact Hw | cbn; lia] |].
    intros e1 calls1 _ ((m & Hm) & Hp1 & Hk1 & Ha). does_step. rewrite app_nil_r, Ep in *. split; [now exists m |]. now split.
Qed.

Lemma does_on_keyChain {A} (op : Op KeyChain A) kc' a e Q :
  state_of (op (enc_keyChain_ e)) = kc' -> result_of (op (enc_keyChain_ e)) = Ok a -> Q (set_keyChain kc' e) [] a -> Does (on_keyChain op) e Q.
Proof.
  intros <- Ha HQ. unfold Does, on_keyChain, state_of, result_of in *. destruct (op (enc_keyChain_ e)) as [[kc' calls] r]. cbn in *. subst r. eauto.
Qed.

(** The packet with the first key. *)
Lemma does_first_gck now name bits data n e m :
  known_algorithm algorithm -> name <> [] -> name_fits name -> zlen bits = 32 -> List.Forall wants_content (pendingEncrypts_ e) ->
  keyManagers_ e = [m] -> ckName_ m = [] -> zlen (ckBits_ m) = 32 -> member_opens k (enc_keyChain_ e) data bits ->
  Does (enc_onData face_call (Some k) algorithm listens now (FetchGck 0 name n) data) e
    (fun e' calls _ => has_gck name bits e' /\ pendingEncrypts_ e' = [] /\ map_find (contentKeys_ e') name = Some bits /\
       answered name bits (pendingEncrypts_ e) (successes calls)).
Proof.
  intros Halg Hne Hfit Hl Hw Hm Hn Hb (p' & cname & content & t' & Hname & Hdec & Hbits). cbn [enc_onData].
  apply does_modify_bind, does_try, does_modify_bind. unfold decryptGckAndProcessPendingEncrypts. rewrite Hdec.
  apply does_bind, does_try. do 2 does_step. cbn [app]. apply does_bind, does_try.
  apply does_bind. unfold credentials_name. eapply does_on_keyChain.
  { reflexivity. }
  { unfold on_pib. cbn [enc_keyChain_ set_keyManagers]. rewrite Hname. reflexivity. }
  unfold on_pib at 1. cbn [enc_keyChain_ set_keyManagers]. rewrite Hname. cbn [state_of fst].
  apply does_bind. eapply does_on_keyChain.
  { reflexivity. }
  { unfold on_tpm. cbn [enc_keyChain_ set_keyManagers set_keyChain kc_tpm_]. rewrite Hbits. reflexivity. }
  cbn [app]. does_step.
  set (e1 := set_keyChain _ _).
  set (m1 := km_gckPending 0 (km_responding true m)).
  assert (Hm1 : keyManagers_ e1 = [m1]) by (cbn; now rewrite Hm).
  apply (does_km _ m1); [now rewrite Hm1 |]. cbv beta. does_step.
  change (ckBits_ m1) with (ckBits_ m). change (ckName_ m1) with (ckName_ m). rewrite Hb, Hl, Hn, Hm1. cbn [negb Z.eqb length Z.of_nat andb].
  rewrite Z.eqb_refl. cbn [negb].
  apply does_bind. unfold use_gck. apply (does_km _ m1); [now rewrite Hm1 |]. cbv beta.
  change (ckBits_ m1) with (ckBits_ m). rewrite Hb, Hl. change (32 <? 32) with false. cbv iota.
  apply does_modify_bind, does_modify, does_modify_bind. apply does_try.
  set (e2 := set_keyManagers _ _).
  assert (Hg2 : has_gck name bits e2).
  { eexists. split; [cbn; rewrite Hm; reflexivity |]. split; [reflexivity |]. cbn. apply take_ge. lia. }
  eapply does_weaken; [now apply (does_pending now name bits e2) |].
  intros e3 calls3 _ (Hg3 & Hp3 & Hk3 & Ha3). cbn [app]. split; [exact Hg3 |]. split; [exact Hp3 |]. split; [| exact Ha3].
  rewrite Hk3. cbn. now apply map_find_same.
Qed.
End Encrypts.

(** ** The decryptor *)

Section Decrypts.
Context (k : PibKey) (dec_face cache_face : nat -> Name -> result exn Z).
Context (face_gives : forall n name, exists id, dec_face n name = Ok id).
Abbreviation listens := (fun _ _ => mret tt).

Definition requests_done (l : list PendingDecrypt) (plains : list (list Z)) : list DecryptorCall :=
  zip_with (fun p plain => DecSuccess (pd_request p) plain) l plains.
Definition all_sealed (name : Name) (bits : list Z) : list PendingDecrypt -> list (list Z) -> Prop :=
  Forall2 (fun p plain => sealed name bits plain (pd_associatedData_ p) (encryptedContent_ p)).

(** The contents wait for the key. *)
Definition waiting (name : Name) (l : list PendingDecrypt) (kc : KeyChain) (d : Decryptor) : Prop :=
  contentKeyCache_ d = None /\ dec_keyChain_ d = kc /\
  exists key, map_find (dec_contentKeys_ d) name = Some key /\ isRetrieved_ key = false /\ pendingDecrypts_ key = l.

Lemma does_doDecrypt name bits plain ad c request d : sealed name bits plain ad c ->
  Does (doDecrypt listens listens c bits ad request) d (fun d' calls _ => d' = d /\ calls = [DecSuccess request plain]).
Proof.
  intros [_ Ha (iv & payload & Hiv & Hp & Hne & _ & Hd)]. unfold doDecrypt. rewrite Hiv, Hp. change (blob_bytes (Some payload)) with payload.
  destruct (Z.eqb_spec (zlen payload) 0) as [E | _]; [now destruct payload |].
  replace (negb _ && negb _) with false; cycle 1.
  { destruct Ha as [-> | ->]; reflexivity. }
  rewrite Hd. apply does_try, does_bind, does_perform, does_ret. easy.
Qed.

Lemma does_content_key {B} name key (f : ContentKey -> Act Decryptor DecryptorCall B) d Q :
  map_find (dec_contentKeys_ d) name = Some key -> Does (f key) d Q -> Does (content_key name ≫= f) d Q.
Proof.
  intros Hk Hf. apply does_bind. unfold content_key. does_step. rewrite Hk. apply does_ret. eapply does_weaken; [exact Hf | easy].
Qed.

Lemma does_decrypt_loop name bits key plains fuel i d :
  map_find (dec_contentKeys_ d) name = Some key -> bits_ key = bits -> all_sealed name bits (pendingDecrypts_ key) plains ->
  (i <= length (pendingDecrypts_ key) < i + fuel)%nat ->
  Does (decrypt_loop listens listens fuel name i) d
    (fun d' calls _ => d' = d /\ calls = requests_done (drop i (pendingDecrypts_ key)) (drop i plains)).
Proof.
  intros Hk Hb Hs. revert i. induction fuel as [| fuel IH]; intros i Hi; [lia |]. cbn [decrypt_loop].
  apply (does_content_key _ key); [easy |]. cbv beta. destruct (pendingDecrypts_ key !! i) as [p |] eqn:Ep.
  - destruct (Forall2_lookup_l _ _ _ _ _ Hs Ep) as (plain & Epl & Hp). rewrite Hb. apply does_bind.
    eapply does_weaken; [now apply (does_doDecrypt name bits plain) |]. intros d1 calls1 _ [-> ->].
    pose proof (lookup_lt_Some _ _ _ Ep) as Hlt. eapply does_weaken; [apply IH; lia |]. intros d2 calls2 _ [-> ->]. split; [easy |].
    now rewrite (drop_S _ p _ Ep), (drop_S _ plain _ Epl).
  - does_step. apply lookup_ge_None in Ep. split; [easy |]. now rewrite (drop_ge (pendingDecrypts_ key)) by lia.
Qed.

Lemma does_on_external {A} (op : Op KeyChain A) kc' a d Q :
  state_of (op (dec_keyChain_ d)) = kc' -> result_of (op (dec_keyChain_ d)) = Ok a ->
  Q (mkDecryptor (contentKeyCache_ d) kc' (internalKeyChain_ d) (dec_contentKeys_ d) (dec_faceCalls d)) [] a -> Does (on_external op) d Q.
Proof.
  intros <- Ha HQ. unfold Does, on_external, state_of, result_of in *. destruct (op (dec_keyChain_ d)) as [[kc' calls] r]. cbn in *. subst r. eauto.
Qed.

(** The packet with the key. *)
Lemma does_validated name bits plains n data l request kc d : name_fits name -> waiting name l kc d -> all_sealed name bits l plains -> member_opens k kc data bits ->
  Does (dec_validated dec_face k listens listens (FetchMemberGck name request n) data) d
    (fun d' calls _ => calls = requests_done l plains /\
       exists key, map_find (dec_contentKeys_ d') name = Some key /\ isRetrieved_ key = true /\ bits_ key = bits /\ pendingDecrypts_ key = []).
Proof.
  intros Hfit (_ & Hkc & key & Hk & _ & Hl) Hs (p' & cname & content & t' & Hname & Hdec & Hbits). cbn [dec_validated]. apply does_try.
  unfold decryptCkAndProcessPendingDecrypts. rewrite Hdec. apply does_bind, does_try. do 2 does_step.
  apply does_bind, does_try. cbn [length Z.of_nat Z.eqb]. apply does_bind, does_bind. eapply does_on_external.
  { reflexivity. }
  { rewrite Hkc. unfold on_pib. rewrite Hname. reflexivity. }
  rewrite Hkc. unfold on_pib at 1. rewrite Hname. cbn [state_of fst]. eapply does_on_external.
  { reflexivity. }
  { unfold on_tpm. cbn [dec_keyChain_ kc_tpm_]. rewrite Hbits. reflexivity. }
  does_step. cbn [app]. set (d1 := mkDecryptor _ _ _ _ _).
  assert (Hd1 : map_find (dec_contentKeys_ d1) name = Some key) by exact Hk.
  apply does_bind. unfold set_content_key at 1. apply does_modify. rewrite Hd1. set (d2 := dec_set_keys _ _).
  set (key2 := mkContentKey true bits (pendingInterest_ key) (pendingDecrypts_ key)).
  assert (Hd2 : map_find (dec_contentKeys_ d2) name = Some key2) by now apply map_find_same.
  apply (does_content_key _ key2); [exact Hd2 |]. cbv beta. apply does_bind. subst l.
  eapply does_weaken; [apply (does_decrypt_loop name bits key2 plains _ 0 d2); try easy; cbn; lia |].
  intros d3 calls3 _ [-> ->]. unfold set_content_key. apply does_modify. cbn [drop]. rewrite !app_nil_r. cbn [app]. split; [easy |].
  rewrite Hd2. eexists. split; [now apply map_find_same | easy].
Qed.

Lemma getName_pure p p' calls name : PibKey_getName k p = (p', calls, Ok name) -> p' = p /\ calls = [].
Proof.
  unfold PibKey_getName, lock_key, mbind, Act_bind, self_get. destruct (find_key k p); cbn; [now intros [= <- <- _] | easy].
Qed.

Definition gck_name (name : Name) : Prop := exists p v, name = p ++ [NAME_COMPONENT_GCK; v].

Lemma does_is_gckName name d Q : gck_name name -> Q d [] true -> Does (is_gckName name) d Q.
Proof.
  intros (p & v & ->) HQ. unfold is_gckName. rewrite name_get_second_last, length_app. cbn [length].
  destruct (Z.geb_spec (Z.of_nat (length p + 2)) 2); [| lia]. does_step. does_step. exact HQ.
Qed.

Abbreviation decrypting now p := (decrypt dec_face cache_face k None listens listens now (encryptedContent_ p) (pd_associatedData_ p) (pd_request p)).

Lemma decrypt_sealed name bits plain p : sealed name bits plain (pd_associatedData_ p) (encryptedContent_ p) ->
  exists iv, initialVector_ (encryptedContent_ p) = Some iv /\ kl_type_ (keyLocator_ (encryptedContent_ p)).1 = KEYNAME /\
    getKeyLocatorName (encryptedContent_ p) = Ok name.
Proof.
  intros [(keyData & Hk) _ (iv & _ & Hiv & _)]. exists iv. unfold getKeyLocatorName. now rewrite Hk.
Qed.

(** A content with a key that is asked for already. *)
Lemma does_decrypt_later now name bits plain p l kc d :
  name_fits name -> sealed name bits plain (pd_associatedData_ p) (encryptedContent_ p) -> waiting name l kc d ->
  Does (decrypting now p) d (fun d' calls _ => waiting name (l ++ [p]) kc d' /\ calls = []).
Proof.
  intros Hfit Hs (Hc & Hkc & key & Hk & Hr & Hl). destruct (decrypt_sealed _ _ _ _ Hs) as (iv & Hiv & Ht & Hn).
  unfold decrypt. rewrite Ht, Hiv, Hn. does_step. unfold cached_key. does_step. does_step. rewrite Hc. do 2 does_step.
  rewrite Hk. does_step. apply (does_content_key _ key); [easy |]. rewrite Hr. apply does_bind. unfold set_content_key. does_step.
  rewrite Hk. does_step. split; [| easy]. split; [exact Hc |]. split; [exact Hkc |].
  eexists. split; [now apply map_find_same |]. split; [exact Hr |]. cbn. rewrite Hl. now destruct p.
Qed.

(** The first content: the key of the group is asked for. *)
Lemma does_decrypt_first now name bits plain p kc d cname :
  name_fits name -> gck_name name -> sealed name bits plain (pd_associatedData_ p) (encryptedContent_ p) ->
  contentKeyCache_ d = None -> dec_keyChain_ d = kc -> map_find (dec_contentKeys_ d) name = None ->
  result_of (PibKey_getName k (kc_pib_ kc)) = Ok cname ->
  Does (decrypting now p) d (fun d' calls _ => waiting name [p] kc d' /\
    calls = [DecExpress (appendName (append name NAME_COMPONENT_ENCRYPTED_BY) cname) false true (FetchMemberGck name (pd_request p) N_RETRIES)]).
Proof.
  intros Hfit Hg Hs Hc Hkc Hk Hname. destruct (decrypt_sealed _ _ _ _ Hs) as (iv & Hiv & Ht & Hn).
  assert (Hpure : state_of (on_pib (PibKey_getName k) kc) = kc).
  { unfold on_pib, result_of in *. destruct (PibKey_getName k (kc_pib_ kc)) as [[p' calls] r] eqn:E. cbn in Hname. subst r.
    apply getName_pure in E as [-> _]. now destruct kc. }
  unfold decrypt. rewrite Ht, Hiv, Hn. does_step. unfold cached_key. does_step. does_step. rewrite Hc. do 2 does_step.
  rewrite Hk. does_step. set (d1 := dec_set_keys _ _).
  assert (Hk1 : map_find (dec_contentKeys_ d1) name = Some ContentKey_new) by now apply map_find_same.
  apply (does_content_key _ ContentKey_new); [easy |]. cbn [isRetrieved_ ContentKey_new]. apply does_bind. unfold set_content_key at 1. does_step.
  rewrite Hk1. apply does_bind, does_is_gckName; [easy |]. set (d2 := dec_set_keys _ _).
  set (key2 := mkContentKey _ _ _ _) in d2. assert (Hk2 : map_find (dec_contentKeys_ d2) name = Some key2) by now apply map_find_same.
  unfold fetchMemberGck. apply does_bind. eapply does_on_external.
  { cbn [dec_keyChain_ d2 d1 dec_set_keys]. rewrite Hkc. exact Hpure. }
  { cbn [dec_keyChain_ d2 d1 dec_set_keys]. rewrite Hkc. unfold on_pib, result_of in *.
    destruct (PibKey_getName k (kc_pib_ kc)) as [[p' calls] r]. exact Hname. }
  unfold fetch_for, dec_express. apply does_try, does_bind. do 3 does_step. destruct (face_gives (dec_faceCalls d2)
    (appendName (append name NAME_COMPONENT_ENCRYPTED_BY) cname)) as [id Hid]. cbn [dec_faceCalls]. 
  rewrite Hid. eexists _, _, _. split; [reflexivity |]. does_step. does_step. does_step.
  unfold set_content_key. does_step. cbn [dec_contentKeys_ app]. fold key2. rewrite Hk2. split; [| easy]. split; [exact Hc |]. split; [easy |].
  eexists. split; [now apply map_find_same |]. split; [easy |]. cbn. now destruct p.
Qed.

Definition decrypt_all (now : Z) : list PendingDecrypt -> Act Decryptor DecryptorCall unit := for_each (fun p => decrypting now p).

Lemma does_decrypt_more now name bits plains l l' kc d :
  name_fits name -> all_sealed name bits l' plains -> waiting name l kc d ->
  Does (decrypt_all now l') d (fun d' calls _ => waiting name (l ++ l') kc d' /\ calls = []).
Proof.
  intros Hfit Hs. revert l d. induction Hs as [| p plain l' plains Hp Hs IH]; intros l d Hw; cbn [decrypt_all for_each].
  - does_step. now rewrite app_nil_r.
  - apply does_bind. eapply does_weaken; [now apply (does_decrypt_later now name bits plain p l kc) |]. intros d1 calls1 _ [Hw1 ->].
    eapply does_weaken; [now apply (IH (l ++ [p]) d1) |]. intros d2 calls2 _ [Hw2 ->]. rewrite <- app_assoc in Hw2. now split.
Qed.

Lemma does_decrypts now name bits plains p l kc d cname :
  name_fits name -> gck_name name -> all_sealed name bits (p :: l) plains ->
  contentKeyCache_ d = None -> dec_keyChain_ d = kc -> map_find (dec_contentKeys_ d) name = None ->
  result_of (PibKey_getName k (kc_pib_ kc)) = Ok cname ->
  Does (decrypt_all now (p :: l)) d (fun d' calls _ => waiting name (p :: l) kc d' /\
    calls = [DecExpress (appendName (append name NAME_COMPONENT_ENCRYPTED_BY) cname) false true (FetchMemberGck name (pd_request p) N_RETRIES)]).
Proof.
  intros Hfit Hg Hs Hc Hkc Hk Hname. inversion Hs as [| ? plain ? plains' Hp Hl]; subst. cbn [decrypt_all for_each]. apply does_bind.
  eapply does_weaken; [now apply (does_decrypt_first now name bits plain p (dec_keyChain_ d) d cname) |]. intros d1 calls1 _ [Hw1 ->].
  eapply does_weaken; [apply (does_decrypt_more now name bits plains' [p] l (dec_keyChain_ d) d1); easy |]. intros d2 calls2 _ [Hw2 ->]. now split.
Qed.
Lemma does_onData name l kc d request n data :
  name_fits name -> waiting name l kc d ->
  Does (dec_onData (FetchMemberGck name request n) data) d
    (fun d' calls _ => waiting name l kc d' /\ calls = [DecValidate data (FetchMemberGck name request n)]).
Proof.
  intros Hfit (Hc & Hkc & key & Hk & Hr & Hl). unfold dec_onData. cbn [handler_ckName]. apply does_bind. unfold set_content_key. does_step.
  rewrite Hk. does_step. split; [| easy]. split; [exact Hc |]. split; [exact Hkc |]. eexists. split; [now apply map_find_same |]. now split.
Qed.
End Decrypts.

(** ** The access manager *)

Section Manages.
Context (getFullName : DataValue -> Name) (identity : PibIdentity).

(** A member, whose certificate has the public key for its private key. *)
Record member (k : PibKey) (kc : KeyChain) (certificate : Certificate) (name : Name) : Prop := {
  member_keyName : result_of (PibKey_getName k (kc_pib_ kc)) = Ok name;
  member_certificate : getKeyName certificate = Ok name;
  member_keys : exists key pub publicKey, private_key name (kc_tpm_ kc) = Some key /\
    getPublicKey certificate = Ok pub /\ rsa_decode pub = Ok publicKey /\
    forall bits cipher, rsa_encrypt_pkcs publicKey bits = Ok cipher -> private_decrypt key cipher = Ok bits
}.

(** The signature does not change the content and the name. *)
Lemma sign_data_value data params k packet :
  result_of (sign_data data params k) = Ok packet ->
  data_content (packet_value packet) = data_content data /\ data_name (packet_value packet) = data_name data.
Proof.
  unfold sign_data. intros ([sig name] & _ & _ & Hs)%act_result_bind. cbv beta iota zeta in Hs.
  apply act_result_bind in Hs as (encoding & _ & _ & Hs). apply act_result_bind in Hs as (bits & _ & _ & Hs).
  apply act_result_bind in Hs as (encoding' & _ & _ & [= <-]). easy.
Qed.

(** What RSA gives has at most 1000 bytes. *)
Lemma payload_wire payload : zlen payload <= 1000 ->
  exists bytes content, wireEncodeV2 (setPayload (Some payload) EncryptedContent_new) = Ok bytes /\ wireDecodeV2 bytes = Ok content /\
    blob_bytes (payload_ content) = payload.
Proof.
  intros Hl. destruct (content_wire (setPayload (Some payload) EncryptedContent_new)) as (bytes & He & Hd).
  - split; [easy | now repeat constructor |]. unfold block_bytes, encryptedContent_block, encryptedContent_value. change (bool_decide _) with false. cbn -[tlv_bytes].
    rewrite ?app_nil_r. unfold block_bytes. cbn [fst snd]. set (inner := tlv_bytes ndn_Tlv_Encrypt_EncryptedPayload payload). rewrite zlen_tlv_bytes.
    pose proof (zlen_varNumber_bytes ndn_Tlv_Encrypt_EncryptedContent). pose proof (zlen_varNumber_bytes (zlen inner)).
    pose proof (zlen_varNumber_bytes ndn_Tlv_Encrypt_EncryptedPayload). pose proof (zlen_varNumber_bytes (zlen payload)).
    assert (zlen inner <= 1018) by (unfold inner; rewrite zlen_tlv_bytes; lia). lia.
  - exists bytes. eexists. split; [exact He |]. split; [exact Hd |]. easy.
Qed.

Lemma sign_as_identity_value data am gckData :
  result_of (sign_as_identity identity data am) = Ok gckData ->
  data_content gckData = data_content data /\ data_name gckData = data_name data /\
  gckBits_ (state_of (sign_as_identity identity data am)) = gckBits_ am /\ gckName_ (state_of (sign_as_identity identity data am)) = gckName_ am.
Proof.
  unfold sign_as_identity. intros (packet & Hp & -> & [= <-])%act_result_bind. unfold am_on_keyChain, result_of, state_of in *.
  set (op := _ ≫= _) in *. destruct (op (am_keyChain_ am)) as [[kc c] r] eqn:Eop. cbn in *. subst r.
  assert (Ho : result_of (op (am_keyChain_ am)) = Ok packet) by (unfold result_of; now rewrite Eop).
  apply act_result_bind in Ho as (info & _ & _ & Ho). now apply sign_data_value in Ho as [Hc Hn].
Qed.

(** The packet for a member is opened by the member. *)
Lemma addMember_opens certificate am data k kc name :
  member k kc certificate name ->
  result_of (addMemberForGck getFullName identity certificate am) = Ok data ->
  let am' := state_of (addMemberForGck getFullName identity certificate am) in
  member_opens k kc data (gckBits_ am) /\ data_name data = appendName (append (gckName_ am) NAME_COMPONENT_ENCRYPTED_BY) name /\
  gckBits_ am' = gckBits_ am /\ gckName_ am' = gckName_ am.
Proof.
  intros [Hname Hcert (key & pub & publicKey & Hkey & Hpub & Hpk & Hrsa)]. cbv zeta. unfold addMemberForGck, self_get.
  intros (am0 & [= <-] & E0 & Hr)%act_result_bind. rewrite E0. clear E0. cbv beta zeta in Hr |- *. cbn [state_of fst] in Hr |- *.
  apply act_result_bind in Hr as (cipher & Hc & E1 & Hr). rewrite E1. clear E1. cbn [returns state_of result_of fst snd] in Hc, Hr |- *.
  unfold encrypt_for in Hc. rewrite Hpub in Hc. cbn [mbind result_bind] in Hc. unfold rsa_key in Hc. rewrite Hpk in Hc. cbn [mbind result_bind] in Hc.
  destruct (rsa_encrypt_pkcs publicKey (gckBits_ am)) as [bytes | err] eqn:Er; [| easy]. cbn [rsa_buffer] in Hc.
  destruct (Z.gtb_spec (zlen bytes) 1000) as [| Hl]; [easy |]. injection Hc as ->.
  rewrite Hcert in *. apply act_result_bind in Hr as (keyName & [= <-] & E2 & Hr). rewrite E2. clear E2. cbn [returns state_of result_of fst snd] in Hr |- *.
  destruct (payload_wire cipher Hl) as (encoding & content & He & Hd & Hpay). rewrite He in *.
  apply act_result_bind in Hr as (encoding' & [= <-] & E3 & Hr). rewrite E3. clear E3. cbn [returns state_of result_of fst snd] in Hr |- *.
  apply act_result_bind in Hr as (gckData & Hs & E4 & Hr). rewrite E4. clear E4.
  apply act_result_bind in Hr as ([] & _ & E5 & [= <-]). rewrite E5. clear E5.
  apply sign_as_identity_value in Hs as (Hcontent & Hn & Hbits & Hgck). split; [| split; [exact Hn |]]; cycle 1.
  { unfold self_modify, mbind, Act_bind, state_of in *. cbn [fst snd]. exact (conj Hbits Hgck). }
  destruct (PibKey_getName k (kc_pib_ kc)) as [[p' calls] r] eqn:Eg. unfold result_of in Hname. cbn [snd] in Hname. subst r.
  pose proof (with_handle_run name key (fun key => private_decrypt key cipher) (gckBits_ am) (kc_tpm_ kc) Hkey (Hrsa _ _ Er)) as [t' Ht].
  exists p', name, content, t'. split; [| split; [now rewrite Hcontent |]].
  - now destruct (getName_pure _ _ _ _ _ Eg) as [_ ->].
  - now rewrite Hpay.
Qed.

(** What went from one to the other as bytes. *)
Definition transmitted (c received : EncryptedContent) : Prop :=
  zlen (block_bytes (encryptedContent_block (content_lite c))) < 2 ^ 63 /\
  exists bytes, wireEncodeV2 c = Ok bytes /\ wireDecodeV2 bytes = Ok received.

Lemma sealed_transmitted name bits plain ad c received :
  wire_name name -> sealed name bits plain ad c -> transmitted c received -> sealed name bits plain ad received.
Proof.
  intros Hw [(keyData & Hk) Ha (iv & payload & Hiv & Hp & Hne & Hi & Hd)] (Hl & bytes & He & Hr).
  destruct (content_wire c) as (bytes' & He' & Hr').
  { split; [destruct Ha as [-> | ->]; easy | now rewrite Hk | exact Hl]. }
  assert (bytes' = bytes) as -> by congruence. rewrite Hr' in Hr. injection Hr as <-.
  assert (Halg : algorithmType_ (content_received c) = algorithmType_ c) by (destruct Ha as [E | E]; cbn; rewrite E; reflexivity).
  split.
  - exists None. cbn. now rewrite Hk.
  - now rewrite Halg.
  - exists iv, payload. rewrite Halg. split; [cbn; rewrite Hiv; now destruct iv |]. split; [cbn; now rewrite Hp |]. easy.
Qed.


(** The contents that the encryptor gave for its requests, as they are passed to the decryptor. *)
Definition request_of (p : PendingEncrypt) : Z := match pending_onSuccess p with OnContent request => request | _ => 0 end.
Definition received_for : list PendingEncrypt -> list EncryptedContent -> list PendingDecrypt :=
  zip_with (fun p received => mkPendingDecrypt received (associatedData_ p) (request_of p)).
Definition deliveries : list PendingEncrypt -> list DecryptorCall := map (fun p => DecSuccess (request_of p) (plainData_ p)).

Lemma received_sealed name bits ps calls received :
  wire_name name -> answered name bits ps calls -> Forall2 transmitted (map snd calls) received ->
  all_sealed name bits (received_for ps received) (map plainData_ ps) /\
  requests_done (received_for ps received) (map plainData_ ps) = deliveries ps /\ map fst calls = map pending_onSuccess ps.
Proof.
  intros Hw Ha. revert received. induction Ha as [| p [onSuccess c] ps calls [Hf Hs] Ha IH]; intros received Hr; cbn in *.
  - split; [| easy]. constructor.
  - inversion Hr as [| ? r ? rs Hc Hrs]; subst. destruct (IH rs Hrs) as (Hall & Hdone & Hfst). split; [| split].
    + constructor; [| exact Hall]. now apply (sealed_transmitted name bits _ _ c).
    + unfold requests_done in *. cbn. now rewrite Hdone.
    + now rewrite Hfst.
Qed.

(** C14: a group content key. The access manager adds two members, with certificates for their keys. The encryptor of the one has
    one key manager, which has no key yet, and requests that wait for its first key, all for an encrypted content and none for
    a Data packet; its application only listens. It gets its packet from the access manager: it encrypts all
    of them, in order, and none waits any more. The contents arrive at the other, as they were encoded. Its decryptor has no cache
    of content keys, has not asked for this key before, and its application only listens too: it asks for its
    packet once, and when it gets it, it calls back each request with the data that was encrypted. The
    algorithm is AES or ChaCha20-Poly1305 with keys of 32 bytes, the face takes each Interest, and each content is encoded in less than 2^63 bytes. *)
Theorem group_content_delivered
    (am : AccessManager) (certificateA certificateB : Certificate) (dataA dataB : DataValue) (kA kB : PibKey) (nameA nameB : Name)
    (algorithm n now now' : Z) (e : Encryptor) (m : KeyManager) (d : Decryptor) (dec_face cache_face : nat -> Name -> result exn Z) :
  let listens {S C A B} := fun (_ : A) (_ : B) => mret tt : Act S C unit in
  let name := gckName_ am in
  let added := addMemberForGck getFullName identity certificateA am in
  known_algorithm algorithm -> zlen (gckBits_ am) = 32 -> gck_name name -> wire_name name ->
  result_of added = Ok dataA -> result_of (addMemberForGck getFullName identity certificateB (state_of added)) = Ok dataB ->
  member kA (enc_keyChain_ e) certificateA nameA -> member kB (dec_keyChain_ d) certificateB nameB ->
  keyManagers_ e = [m] -> ckName_ m = [] -> zlen (ckBits_ m) = 32 ->
  List.Forall wants_content (pendingEncrypts_ e) -> pendingEncrypts_ e <> [] ->
  contentKeyCache_ d = None -> map_find (dec_contentKeys_ d) name = None -> (forall n name, exists id, dec_face n name = Ok id) ->
  exists e' calls, enc_onData face_call (Some kA) algorithm listens now (FetchGck 0 name n) dataA e = (e', calls, Ok tt) /\
    pendingEncrypts_ e' = [] /\ map fst (successes calls) = map pending_onSuccess (pendingEncrypts_ e) /\
    forall received, Forall2 transmitted (map snd (successes calls)) received ->
    exists d1 d2 d3 request, let handler := FetchMemberGck name request N_RETRIES in
      decrypt_all kB dec_face cache_face now' (received_for (pendingEncrypts_ e) received) d
        = (d1, [DecExpress (data_name dataB) false true handler], Ok tt) /\
      dec_onData handler dataB d1 = (d2, [DecValidate dataB handler], Ok tt) /\
      dec_validated dec_face kB listens listens handler dataB d2 = (d3, deliveries (pendingEncrypts_ e), Ok tt).
Proof.
  intros listens name added Halg Hl Hg Hw HA HB HmA HmB Hm Hn Hb Hwant Hsome Hcache Hnone Hface.
  destruct (addMember_opens _ _ _ _ _ _ HmA HA) as (HoA & _ & Hbits & Hname).
  destruct (addMember_opens _ _ _ _ _ _ HmB HB) as (HoB & HnB & _ & _). fold added in Hbits, Hname. rewrite Hbits in HoB. rewrite Hname in HnB.
  fold name in HnB. assert (Hfit : name_fits name) by (destruct Hw as (_ & _ & Hmax); unfold name_fits, max_components in *; lia).
  assert (Hne : name <> []) by (destruct Hg as (p & v & ->); now destruct p).
  destruct (does_first_gck kA algorithm now name (gckBits_ am) dataA n e m Halg Hne Hfit Hl Hwant Hm Hn Hb HoA)
    as (e' & calls & [] & Hrun & _ & Hp & _ & Ha).
  exists e', calls. split; [exact Hrun |]. split; [exact Hp |].
  assert (Hfst : map fst (successes calls) = map pending_onSuccess (pendingEncrypts_ e)).
  { clear -Ha. induction Ha as [| p s ps l [Hf _] _ IH]; cbn; [easy | now rewrite Hf, IH]. }
  split; [exact Hfst |]. intros received Hr.
  destruct (received_sealed name (gckBits_ am) _ _ received Hw Ha Hr) as (Hall & Hdone & _).
  set (l := received_for (pendingEncrypts_ e) received) in *. clearbody l. destruct l as [| p l].
  { exfalso. inversion Hall as [Hx|]; subst. now destruct (pendingEncrypts_ e). }
  destruct (does_decrypts kB dec_face cache_face Hface now' name (gckBits_ am) _ p l _ d nameB Hfit Hg Hall Hcache eq_refl Hnone (member_keyName _ _ _ _ HmB))
    as (d1 & c1 & [] & Hrun1 & Hw1 & ->).
  set (handler := FetchMemberGck name (pd_request p) N_RETRIES).
  destruct (does_onData name (p :: l) _ d1 (pd_request p) N_RETRIES dataB Hfit Hw1) as (d2 & c2 & [] & Hrun2 & Hw2 & ->).
  destruct (does_validated kB dec_face name (gckBits_ am) _ N_RETRIES dataB _ (pd_request p) _ d2 Hfit Hw2 Hall HoB) as (d3 & c3 & [] & Hrun3 & -> & _).
  exists d1, d2, d3, (pd_request p). cbv zeta. rewrite HnB, <- Hdone. now split_and!.
Qed.
End Manages.
End Gck.

(** ** Examples *)

#[local] Existing Instance toy_crypto.
#[local] Existing Instance toy_keys.

(** Ciphers that put something around the data. *)
Definition toy_evp_with (random : nat -> Z -> result ndn_Error (list Z)) : Evp := {|
  EVP_aes_128_cbc_encrypt _ _ plain := 0 :: plain;
  EVP_aes_128_cbc_decrypt _ _ cipher := drop 1 cipher;
  EVP_aes_256_cbc_encrypt _ _ plain := 0 :: plain;
  EVP_aes_256_cbc_decrypt _ _ cipher := drop 1 cipher;
  EVP_aes_128_ecb_encrypt _ plain := plain;
  EVP_aes_128_ecb_decrypt _ cipher := cipher;
  EVP_chacha20_poly1305_encrypt _ _ _ plain := (plain, repeat 0 16);
  EVP_chacha20_poly1305_decrypt _ _ _ cipher _ := (cipher, true);
  RsaPublicKey := list Z;
  rsa_decode bits := Ok bits;
  rsa_encrypt_pkcs _ plain := Ok plain;
  rsa_encrypt_oaep _ plain := Ok plain;
  generateRandomBytes := random
|}.
Definition toy_evp : Evp := toy_evp_with (fun n size => Ok (repeat (Z.of_nat n mod 256) (Z.to_nat size))).
#[local] Existing Instance toy_evp.

Lemma toy_evp_laws : EvpLaws.
Proof.
  split; try easy. intros n size bytes [= <-] Hs. rewrite repeat_length. lia.
Defined.

Definition toy_face (n : nat) (_ : Name) : result exn Z := Ok (Z.of_nat n + 1).
Definition alice_handle : PibKey := mkPibKey (alice, 0%nat) alice_key 1.
Definition alice_certificate : Certificate := toy_certificate (alice_key ++ [generic [105]; generic [118]]) alice_key [1; 7] [1; 7].
Definition team_gck : Name := [generic (chars "team"); NAME_COMPONENT_NAC; NAME_COMPONENT_GCK; mkComponent GENERIC (-1) [253; 1]].
Definition toy_manager : AccessManager := am_gck team_gck (repeat 7 32) (AccessManager_new alice_chain).
Definition toy_gck_manager : KeyManager :=
  mkKeyManager [generic (chars "team")] [] (repeat 0 32) [] false None null_signingInfo ∅ 0 0 0 true [] 5 false 0 [] None.
Definition toy_encryptor (pending : list PendingEncrypt) (m : KeyManager) : Encryptor :=
  mkEncryptor 60000000000 (-1000000) pending [m] (-1) [] alice_chain 0 0.
Definition two_requests : list PendingEncrypt :=
  [mkPendingEncrypt (chars "one") [] (OnContent 1) None; mkPendingEncrypt (chars "two") [8] (OnContent 2) None].
Definition toy_decryptor : Decryptor := Decryptor_new None alice_chain toy_chain.
Definition toy_added := addMemberForGck data_name (alice, 0%nat) alice_certificate toy_manager.
Definition added_data (r : result exn DataValue) : DataValue := match r with Ok data => data | Err _ => hello end.
Definition toy_gckData : DataValue := added_data (result_of toy_added).
Definition toy_gckData2 : DataValue := added_data (result_of (addMemberForGck data_name (alice, 0%nat) alice_certificate (state_of toy_added))).

Lemma alice_member : member alice_handle alice_chain alice_certificate alice_key.
Proof.
  split; [now vm_compute | now vm_compute |]. exists [7], [1; 7], [1; 7]. split_and!; [now vm_compute | now vm_compute | easy |].
  now intros bits cipher [= <-].
Defined.

Lemma group_content_delivered_witness :
  let handler request := FetchMemberGck team_gck request N_RETRIES in
  exists e' calls, enc_onData toy_face (Some alice_handle) ndn_EncryptAlgorithmType_AesCbc (fun _ _ => mret tt) 0 (FetchGck 0 team_gck 3) toy_gckData
      (toy_encryptor two_requests toy_gck_manager) = (e', calls, Ok tt) /\
    pendingEncrypts_ e' = [] /\ map fst (successes calls) = [OnContent 1; OnContent 2] /\
    forall received, Forall2 transmitted (map snd (successes calls)) received ->
    exists d1 d2 d3 request,
      decrypt_all alice_handle toy_face toy_face 0 (received_for two_requests received) toy_decryptor
        = (d1, [DecExpress (data_name toy_gckData2) false true (handler request)], Ok tt) /\
      dec_onData (handler request) toy_gckData2 d1 = (d2, [DecValidate toy_gckData2 (handler request)], Ok tt) /\
      dec_validated toy_face alice_handle (fun _ _ => mret tt) (fun _ _ => mret tt) (handler request) toy_gckData2 d2
        = (d3, [DecSuccess 1 (chars "one"); DecSuccess 2 (chars "two")], Ok tt).
Proof.
  assert (Hthrows : forall n name e, toy_face n name = Err e -> is_exception e = true) by easy.
  assert (Hrandom : forall n size, 0 <= size -> exists bytes, generateRandomBytes n size = Ok bytes) by (intros; now eexists).
  apply (group_content_delivered (H2 := toy_evp_laws) toy_face Hthrows Hrandom data_name (alice, 0%nat) toy_manager alice_certificate alice_certificate
    toy_gckData toy_gckData2 alice_handle alice_handle alice_key alice_key ndn_EncryptAlgorithmType_AesCbc 3 0 0
    (toy_encryptor two_requests toy_gck_manager) toy_gck_manager toy_decryptor toy_face toy_face); try reflexivity.
  - now right.
  - exists [generic (chars "team"); NAME_COMPONENT_NAC]. eexists. reflexivity.
  - split; [repeat constructor; unfold is_byte; lia |]. split; [repeat constructor; discriminate | now vm_compute].
  - exact alice_member.
  - exact alice_member.
  - repeat constructor; now eexists.
  - easy.
  - intros n name. now eexists.
Defined.

(** ** What modelling showed *)

Abbreviation listens := (fun _ _ => mret tt).
Definition ready_manager : KeyManager := km_nextCheck 1 (km_gckInProgress false (km_key team_gck (repeat 7 32) toy_gck_manager)).
Definition failing_evp : Evp := toy_evp_with (fun _ _ => Err NDN_ERROR_Error_in_generate_operation).

(** After an exception the callback for errors is called, and then called again. *)
Example onError_called_twice :
  calls_of (encrypt_async (H1 := failing_evp) toy_face (Some alice_handle) ndn_EncryptAlgorithmType_AesCbc listens listens 0
              (chars "x") [] (OnContent 1) (Some 9) (toy_encryptor [] ready_manager))
  = [EncError (Some 9) EncryptionFailure; EncError (Some 9) EncryptionFailure].
Proof. vm_compute. reflexivity. Qed.

(** A callback that encrypts again while requests are processed: the requests of the list are answered again. *)
Definition encrypts_again (onSuccess : OnEncryptSuccess) (_ : EncryptedContent) : Act Encryptor EncryptorCall unit :=
  match onSuccess with
  | OnContent 1 => encrypt_async toy_face (Some alice_handle) ndn_EncryptAlgorithmType_AesCbc listens listens 0 (chars "three") [] (OnContent 3) None
  | _ => mret tt
  end.
Example answered_twice :
  map fst (successes (calls_of (processPendingEncrypts toy_face (Some alice_handle) ndn_EncryptAlgorithmType_AesCbc encrypts_again 0
                                  (toy_encryptor two_requests ready_manager))))
  = [OnContent 1; OnContent 1; OnContent 2; OnContent 3].
Proof. vm_compute. reflexivity. Qed.

(** The packet with the group content key is used at once: the validator is not asked. *)
Example gck_not_validated :
  let '(e, calls, _) := enc_onData toy_face (Some alice_handle) ndn_EncryptAlgorithmType_AesCbc listens 0 (FetchGck 0 team_gck 3) toy_gckData
                          (toy_encryptor two_requests toy_gck_manager) in
  forallb (fun call => match call with EncValidate _ _ => false | _ => true end) calls = true /\ map_find (contentKeys_ e) team_gck = Some (repeat 7 32).
Proof. vm_compute. auto. Qed.

(** The lifetime for the Interest for the latest name is used for the Interest for the key instead. *)
Example lifetime_of_the_other :
  let e := set_intervals 60000000000 5 (toy_encryptor [] ready_manager) in
  calls_of (checkForNewGck toy_face 0 e) = [EncExpress [] true None (CheckLatest 0)] /\
  exists name, calls_of (fetchGck toy_face (Some alice_handle) 0 team_gck 3 e) = [EncExpress name false (Some 5) (FetchGck 0 team_gck 3)].
Proof. vm_compute. eauto. Qed.

(** A decryptor with a content key cannot be shut down. *)
Definition team_content : EncryptedContent :=
  setPayload (Some [0; 1]) (setInitialVector (Some (repeat 0 16)) (setKeyLocatorName team_gck (set_algorithmType ndn_EncryptAlgorithmType_AesCbc EncryptedContent_new))).
Definition decrypt_team (request : Z) : Act Decryptor DecryptorCall unit :=
  decrypt toy_face toy_face alice_handle None listens listens 0 team_content [] request.
Example shutdown_is_undefined : result_of (dec_shutdown (state_of (decrypt_team 1 toy_decryptor))) = Err (Failed UndefinedBehaviour).
Proof. vm_compute. reflexivity. Qed.

(** When the key could not be fetched, the first request is told, and those that waited with it are not; a later one only
    waits: nothing is fetched again. *)
Example failed_fetch_is_final :
  let d := state_of (decrypt_team 2 (state_of (decrypt_team 1 toy_decryptor))) in
  let '(d, calls, _) := dec_onNetworkNack (fun _ _ => mret tt) (FetchMemberGck team_gck 1 3) d in
  calls = [DecError 1 CkRetrievalFailure] /\ calls_of (decrypt_team 3 d) = [] /\
  option_map (fun key => map pd_request (pendingDecrypts_ key)) (map_find (dec_contentKeys_ (state_of (decrypt_team 3 d))) team_gck) = Some [1; 2; 3].
Proof. vm_compute. auto. Qed.

(** A byte of the secret should be between 1 and 127. *)
Example secret_byte_zero : secret_byte 128 = 0.
Proof. reflexivity. Qed.

(** ** A key encryption key, from the access manager to the member *)

Definition run {S E A} (m : Act S E A) (s : S) : S := state_of (m s).
Definition nac_chain : KeyChain := alice_chain.
Definition kdk_manager : AccessManager :=
  run (am_initialize data_name toy_face (alice, 0%nat) (-1) 0 [generic (chars "set")]) (AccessManager_new nac_chain).
Definition kdk_added := addMember data_name (alice, 0%nat) (-1) alice_certificate kdk_manager.
Definition nac_name : Name := alice ++ [NAME_COMPONENT_NAC; generic (chars "set")].
Definition stored (name : Name) (s : Storage) : DataValue := match storage_find name s with Some data => data | None => hello end.
Definition ck_prefix : Name := [generic (chars "ck")].
Definition new_encryptor : Encryptor :=
  match Encryptor_new_ck ndn_EncryptAlgorithmType_AesCbc nac_name ck_prefix (setSigningIdentity alice) alice_chain with
  | Ok e => e | Err _ => toy_encryptor [] toy_gck_manager
  end.
Definition kekData : DataValue := stored (append nac_name NAME_COMPONENT_KEK) (am_storage_ kdk_manager).
Definition ck_encryptor : Encryptor :=
  let e := run (initializeCk data_name toy_face None listens 0) new_encryptor in
  let e := run (enc_onData toy_face None ndn_EncryptAlgorithmType_AesCbc listens 0 (FetchKek 0 3) kekData) e in
  run (enc_validated data_name toy_face None ndn_EncryptAlgorithmType_AesCbc listens listens 0 (FetchKek 0 3) kekData) e.

Definition ck_encrypted : list EncryptorCall :=
  calls_of (encrypt_async toy_face None ndn_EncryptAlgorithmType_AesCbc listens listens 0 (chars "hello") [] (OnContent 1) None ck_encryptor).
Definition ck_content : EncryptedContent := (hd (OnContent 0, team_content) (successes ck_encrypted)).2.
Definition ck_storage : Storage := km_storage_ (hd toy_gck_manager (keyManagers_ ck_encryptor)).
Definition ck_name : Name := (keyLocator_ ck_content).2.
Definition ckData : DataValue := stored ck_name ck_storage.
Definition kdkData : DataValue := added_data (result_of kdk_added).
Definition bob : Act Decryptor DecryptorCall unit := decrypt toy_face toy_face alice_handle None listens listens 0 ck_content [] 7.
Definition bob_validated (handler : DecryptorHandler) (data : DataValue) : Act Decryptor DecryptorCall unit :=
  dec_validated toy_face alice_handle listens listens handler data.

(** The encryptor fetches the KEK and publishes its content key for it; the decryptor fetches that packet, then the KDK that the
    access manager made for its key, imports it, decrypts the content key with it and then the content. *)
Example kdk_conversation :
  let kdk_prefix := appendName nac_name [NAME_COMPONENT_KDK; generic [0; 0; 0; 0; 0; 0; 0; 1]] in
  let h1 := FetchCk ck_name 7 N_RETRIES in
  let h2 := FetchKdk ck_name kdk_prefix ckData 7 N_RETRIES in
  let d1 := run (dec_onData h1 ckData) (run bob toy_decryptor) in
  let d2 := run (dec_onData h2 kdkData) (run (bob_validated h1 ckData) d1) in
  calls_of (bob toy_decryptor) = [DecExpress ck_name false true h1] /\
  calls_of (bob_validated h1 ckData d1) = [DecExpress (data_name kdkData) true false h2] /\
  calls_of (bob_validated h2 kdkData d2) = [DecSuccess 7 (chars "hello")].
Proof. vm_compute. auto. Qed.
