(* ===== verification/ValidatorConfig.v ===== *)
(** * Rules of a validator configuration

    [ConfigRule] with its filters and checkers (src/security/v2/validator-config), made from a configuration
    tree. The matchers of regular expressions keep their
    captures, so matching a rule gives the rule back. *)

From stdpp Require Import base list numbers option strings sets.
From Stdlib Require Import ZArith Lia.
From S2P Require Import Prelude Actions Encoder Name NameUri BoostInfo Regex RegexSyntax Certificates.
Open Scope Z_scope.

Definition config_error {A} (what : string) : result exn A := Err (Exception "ValidatorConfigError" what).

(** [equalsIgnoreCase], with [tolower] of the C locale. *)
Definition tolower (c : Z) : Z := if (65 <=? c) && (c <=? 90) then c + 32 else c.
Definition equalsIgnoreCase (s1 s2 : list Z) : bool :=
  (zlen s1 =? zlen s2) && bool_decide (map tolower s1 = map tolower s2).

(** ** Relations of names *)

Inductive Relation := EQUAL | IS_PREFIX_OF | IS_STRICT_PREFIX_OF.

#[export] Instance Relation_eq_dec : EqDecision Relation.
Proof. solve_decision. Defined.

Definition checkNameRelation (relation : Relation) (name1 name2 : Name) : bool :=
  match relation with
  | EQUAL => name_equals name1 name2
  | IS_PREFIX_OF => name_match name1 name2
  | IS_STRICT_PREFIX_OF => name_match name1 name2 && (zlen name1 <? zlen name2)
  end.

Definition getNameRelationFromString (relationString : list Z) : result exn Relation :=
  if equalsIgnoreCase relationString (chars "equal") then Ok EQUAL
  else if equalsIgnoreCase relationString (chars "is-prefix-of") then Ok IS_PREFIX_OF
  else if equalsIgnoreCase relationString (chars "is-strict-prefix-of") then Ok IS_STRICT_PREFIX_OF
  else config_error "Unsupported relation".

Section Config.
Context `{RegexLib}.

(** ** Filters *)

Inductive ConfigFilter :=
| ConfigRelationNameFilter (name_ : Name) (relation_ : Relation)
| ConfigRegexNameFilter (regex_ : TopMatcher).

Definition matchName (filter : ConfigFilter) (packetName : Name) : ConfigFilter * result exn bool :=
  match filter with
  | ConfigRelationNameFilter name relation => (filter, Ok (checkNameRelation relation name packetName))
  | ConfigRegexNameFilter regex =>
      let '(regex, r) := top_match regex packetName in (ConfigRegexNameFilter regex, r)
  end.

Definition signedInterestMinSize : Z := 2.

Definition filter_match (filter : ConfigFilter) (isForInterest : bool) (packetName : Name) :
    ConfigFilter * result exn bool :=
  if isForInterest then
    if zlen packetName <? signedInterestMinSize then (filter, Ok false)
    else matchName filter (getPrefix packetName (- signedInterestMinSize))
  else matchName filter packetName.

Definition require {A} (o : option A) (what : string) : result exn A :=
  match o with Some a => Ok a | None => config_error what end.

(** [try ... catch] around the constructors of regular expressions; undefined behaviour is not caught. *)
Definition config_try {A} (m : result exn A) (what : string) : result exn A :=
  match m with
  | Err (Failed f) => Err (Failed f)
  | Err _ => config_error what
  | Ok a => Ok a
  end.

Definition createNameFilter (configSection : BoostInfoTree) : result exn ConfigFilter :=
  match getFirstValue (chars "name") configSection with
  | Some nameUri =>
      name ← name_set nameUri;
      relationValue ← require (getFirstValue (chars "relation") configSection) "Expected <filter.relation>";
      relation ← getNameRelationFromString relationValue;
      mret (ConfigRelationNameFilter name relation)
  | None =>
      match getFirstValue (chars "regex") configSection with
      | Some regexString =>
          config_try (regex ← TopMatcher_new regexString []; mret (ConfigRegexNameFilter regex)) "Wrong filter.regex"
      | None => config_error "Wrong filter(name) properties"
      end
  end.

Definition ConfigFilter_create (configSection : BoostInfoTree) : result exn ConfigFilter :=
  filterType ← require (getFirstValue (chars "type") configSection) "Expected <filter.type>";
  if equalsIgnoreCase filterType (chars "name") then createNameFilter configSection
  else config_error "Unsupported filter.type".

(** ** Checkers *)

Inductive ConfigChecker :=
| ConfigNameRelationChecker (name_ : Name) (relation_ : Relation)
| ConfigRegexChecker (regex_ : TopMatcher)
| ConfigHyperRelationChecker (packetNameRegex_ : TopMatcher) (packetNameExpansion_ : list Z)
    (keyNameRegex_ : TopMatcher) (keyNameExpansion_ : list Z) (hyperRelation_ : Relation).

(** What [check] returns: true; false after it called [fail] of the state with a policy error; or false
    without that. *)
Inductive CheckResult := Passed | PolicyFailed | Rejected.

Definition pass (b : bool) : CheckResult := if b then Passed else PolicyFailed.

Definition checkNames (checker : ConfigChecker) (packetName keyLocatorName : Name) :
    ConfigChecker * result exn CheckResult :=
  match checker with
  | ConfigNameRelationChecker name relation =>
      (checker,
       if bool_decide (relation = IS_PREFIX_OF) && (zlen name =? 0) then Ok Passed
       else identity ← extractIdentityFromKeyName keyLocatorName;
            mret (pass (checkNameRelation relation name identity)))
  | ConfigRegexChecker regex =>
      let '(regex, r) := top_match regex keyLocatorName in
      (ConfigRegexChecker regex, b ← r; mret (pass b))
  | ConfigHyperRelationChecker packetRegex packetExpansion keyRegex keyExpansion relation =>
      let '(packetRegex, r) := top_match packetRegex packetName in
      match r with
      | Err e => (ConfigHyperRelationChecker packetRegex packetExpansion keyRegex keyExpansion relation, Err e)
      | Ok false =>
          (ConfigHyperRelationChecker packetRegex packetExpansion keyRegex keyExpansion relation, Ok PolicyFailed)
      | Ok true =>
          let '(keyRegex, r) := top_match keyRegex keyLocatorName in
          (ConfigHyperRelationChecker packetRegex packetExpansion keyRegex keyExpansion relation,
           b ← r;
           if negb b then mret PolicyFailed
           else
             keyNameMatchExpansion ← expand keyRegex keyExpansion;
             packetNameMatchExpansion ← expand packetRegex packetExpansion;
             mret (pass (checkNameRelation relation keyNameMatchExpansion packetNameMatchExpansion)))
      end
  end.

Definition checker_check (checker : ConfigChecker) (isForInterest : bool) (packetName keyLocatorName : Name) :
    ConfigChecker * result exn CheckResult :=
  if isForInterest then
    if zlen packetName <? signedInterestMinSize then (checker, Ok Rejected)
    else checkNames checker (getPrefix packetName (- signedInterestMinSize)) keyLocatorName
  else checkNames checker packetName keyLocatorName.

Definition ConfigHyperRelationChecker_new (packetNameRegexString packetNameExpansion keyNameRegexString
    keyNameExpansion : list Z) (hyperRelation : Relation) : result exn ConfigChecker :=
  packetNameRegex ← TopMatcher_new packetNameRegexString [];
  keyNameRegex ← TopMatcher_new keyNameRegexString [];
  mret (ConfigHyperRelationChecker packetNameRegex packetNameExpansion keyNameRegex keyNameExpansion hyperRelation).

Definition createHierarchicalChecker : result exn ConfigChecker :=
  ConfigHyperRelationChecker_new (chars "^(<>*)$") (chars "\1") (chars "^(<>*)<KEY><>$") (chars "\1") IS_PREFIX_OF.

Definition createHyperRelationChecker (hyperRelation : BoostInfoTree) : result exn ConfigChecker :=
  let value key := getFirstValue (chars key) hyperRelation in
  keyRegex ← require (value "k-regex") "Expected <checker.key-locator.hyper-relation.k-regex>";
  keyExpansion ← require (value "k-expand") "Expected <checker.key-locator.hyper-relation.k-expand";
  hyperRelationString ← require (value "h-relation") "Expected <checker.key-locator.hyper-relation.h-relation>";
  packetNameRegex ← require (value "p-regex") "Expected <checker.key-locator.hyper-relation.p-regex>";
  packetNameExpansion ← require (value "p-expand") "Expected <checker.key-locator.hyper-relation.p-expand>";
  relation ← getNameRelationFromString hyperRelationString;
  config_try (ConfigHyperRelationChecker_new packetNameRegex packetNameExpansion keyRegex keyExpansion relation)
    "Invalid regex for key-locator.hyper-relation".

Definition createKeyLocatorNameChecker (configSection : BoostInfoTree) : result exn ConfigChecker :=
  match getFirstValue (chars "name") configSection with
  | Some nameUri =>
      name ← name_set nameUri;
      relationValue ← require (getFirstValue (chars "relation") configSection)
                        "Expected <checker.key-locator.relation>";
      relation ← getNameRelationFromString relationValue;
      mret (ConfigNameRelationChecker name relation)
  | None =>
      match getFirstValue (chars "regex") configSection with
      | Some regexString =>
          config_try (regex ← TopMatcher_new regexString []; mret (ConfigRegexChecker regex))
            "Invalid checker.key-locator.regex"
      | None =>
          match get_subtrees (chars "hyper-relation") configSection with
          | [hyperRelation] => createHyperRelationChecker hyperRelation
          | _ => config_error "Unsupported checker.key-locator"
          end
      end
  end.

Definition createKeyLocatorChecker (configSection : BoostInfoTree) : result exn ConfigChecker :=
  keyLocatorType ← require (getFirstValue (chars "type") configSection) "Expected <checker.key-locator.type>";
  if equalsIgnoreCase keyLocatorType (chars "name") then createKeyLocatorNameChecker configSection
  else config_error "Unsupported checker.key-locator.type".

Definition createCustomizedChecker (configSection : BoostInfoTree) : result exn ConfigChecker :=
  match get_subtrees (chars "key-locator") configSection with
  | [keyLocatorSection] => createKeyLocatorChecker keyLocatorSection
  | _ => config_error "Expected one <checker.key-locator>"
  end.

Definition ConfigChecker_create (configSection : BoostInfoTree) : result exn ConfigChecker :=
  checkerType ← require (getFirstValue (chars "type") configSection) "Expected <checker.type>";
  if equalsIgnoreCase checkerType (chars "customized") then createCustomizedChecker configSection
  else if equalsIgnoreCase checkerType (chars "hierarchical") then createHierarchicalChecker
  else config_error "Unsupported checker type".

(** ** Rules *)

Record ConfigRule := mkConfigRule {
  isForInterest_ : bool;
  filters_ : list ConfigFilter;
  checkers_ : list ConfigChecker
}.

Definition wrong_packet_type {A} : result exn A := config_error "Invalid packet type supplied".

(** The loop of [match]: up to the first filter that matches. *)
Fixpoint match_filters (filters : list ConfigFilter) (isForInterest : bool) (packetName : Name) :
    list ConfigFilter * result exn bool :=
  match filters with
  | [] => ([], Ok false)
  | filter :: filters =>
      let '(filter, r) := filter_match filter isForInterest packetName in
      match r with
      | Ok false =>
          let '(filters, r) := match_filters filters isForInterest packetName in (filter :: filters, r)
      | r => (filter :: filters, r)
      end
  end.

Definition rule_match (rule : ConfigRule) (isForInterest : bool) (packetName : Name) : ConfigRule * result exn bool :=
  if negb (eqb isForInterest (isForInterest_ rule)) then (rule, wrong_packet_type)
  else if zlen (filters_ rule) =? 0 then (rule, Ok true)
  else
    let '(filters, r) := match_filters (filters_ rule) isForInterest packetName in
    (mkConfigRule (isForInterest_ rule) filters (checkers_ rule), r).

(** The loop of [check]: up to the first checker that does not pass. *)
Fixpoint check_all (checkers : list ConfigChecker) (isForInterest : bool) (packetName keyLocatorName : Name)
    (hasPendingResult : bool) : list ConfigChecker * result exn CheckResult :=
  match checkers with
  | [] => ([], Ok (if hasPendingResult then Passed else Rejected))
  | checker :: checkers =>
      let '(checker, r) := checker_check checker isForInterest packetName keyLocatorName in
      match r with
      | Ok Passed =>
          let '(checkers, r) := check_all checkers isForInterest packetName keyLocatorName true in
          (checker :: checkers, r)
      | r => (checker :: checkers, r)
      end
  end.

Definition rule_check (rule : ConfigRule) (isForInterest : bool) (packetName keyLocatorName : Name) :
    ConfigRule * result exn CheckResult :=
  if negb (eqb isForInterest (isForInterest_ rule)) then (rule, wrong_packet_type)
  else
    let '(checkers, r) := check_all (checkers_ rule) isForInterest packetName keyLocatorName false in
    (mkConfigRule (isForInterest_ rule) (filters_ rule) checkers, r).

Fixpoint create_all {A} (create : BoostInfoTree -> result exn A) (sections : list BoostInfoTree) : result exn (list A) :=
  match sections with
  | [] => mret []
  | section :: sections => a ← create section; l ← create_all create sections; mret (a :: l)
  end.

Definition ConfigRule_create (configSection : BoostInfoTree) : result exn ConfigRule :=
  _ ← require (getFirstValue (chars "id") configSection) "Expecting <rule.id>";
  usage ← require (getFirstValue (chars "for") configSection) "Expecting <rule.for> in rule";
  isForInterest ← (if equalsIgnoreCase usage (chars "data") then Ok false
                   else if equalsIgnoreCase usage (chars "interest") then Ok true
                   else config_error "Unrecognized <rule.for>");
  filters ← create_all ConfigFilter_create (get_subtrees (chars "filter") configSection);
  checkers ← create_all ConfigChecker_create (get_subtrees (chars "checker") configSection);
  if zlen checkers =? 0 then config_error "No <rule.checker> is specified in rule"
  else mret (mkConfigRule isForInterest filters checkers).

(** The rules of a policy: the first one that matches the packet checks it. No matching rule is a policy
    error. *)
Fixpoint check_rules (rules : list ConfigRule) (isForInterest : bool) (packetName keyLocatorName : Name) :
    list ConfigRule * result exn CheckResult :=
  match rules with
  | [] => ([], Ok PolicyFailed)
  | rule :: rules =>
      let '(rule, r) := rule_match rule isForInterest packetName in
      match r with
      | Err e => (rule :: rules, Err e)
      | Ok true =>
          let '(rule, r) := rule_check rule isForInterest packetName keyLocatorName in (rule :: rules, r)
      | Ok false =>
          let '(rules, r) := check_rules rules isForInterest packetName keyLocatorName in (rule :: rules, r)
      end
  end.
End Config.
