(* ===== verification/Validation.v ===== *)
(** * Validating packets

    [Validator] (src/security/v2/validator.cpp) with the state of a validation (validation-state.cpp), the
    policies (validation-policy*.cpp) and the fetchers of certificates (certificate-fetcher*.cpp). A policy
    calls a continuation with a request for a certificate; a request may wait for the network, and then what
    is left to do is a [Fetch]. The callbacks of the application and the Interests that are expressed are the
    calls of an operation. Each event sees one time. *)

From stdpp Require Import base list numbers option strings.
From Stdlib Require Import ZArith Lia.
From S2P Require Import Prelude Actions Name NameUri ChangeCounter Exclude DelegationSet Data TlvData Interest WireFormat.
From S2P Require Import BoostInfo Regex Certificates NameMap CertStorage ValidatorConfig.
Open Scope Z_scope.

(** The codes of [ValidationError] that the code uses. *)
Inductive ValidationErrorCode :=
| INVALID_SIGNATURE | EXPIRED_CERTIFICATE | LOOP_DETECTED | MALFORMED_CERTIFICATE | EXCEEDED_DEPTH_LIMIT
| INVALID_KEY_LOCATOR | POLICY_ERROR | CANNOT_RETRIEVE_CERTIFICATE | REVOKED.

(** A packet to validate; a Data packet may be a certificate. *)
Inductive SignedPacket :=
| PData (data : DataPacket)
| PCertificate (certificate : Certificate)
| PInterest (interest : InterestPacket).

Definition packet_name_of (p : SignedPacket) : Name :=
  match p with
  | PData d => packet_name d
  | PCertificate c => cert_name c
  | PInterest i => ip_name i
  end.

(** A success callback that the command interest policy number [policy] adds: it records the timestamp. *)
Record InsertRecord := mkInsertRecord { record_policy : nat; record_keyName : Name; record_timestamp : Z }.

(** The state of a validation; [vid] is its number, for the callbacks of the application. *)
Record ValidationState := mkValidationState {
  vid : nat;
  original_ : SignedPacket;
  certificateChain_ : list Certificate;
  seenCertificateNames_ : NameMap unit;
  outcome_ : option bool;
  successCallbacks_ : list InsertRecord
}.

Definition with_chain (chain : list Certificate) (s : ValidationState) : ValidationState :=
  mkValidationState (vid s) (original_ s) chain (seenCertificateNames_ s) (outcome_ s) (successCallbacks_ s).
Definition with_seen (seen : NameMap unit) (s : ValidationState) : ValidationState :=
  mkValidationState (vid s) (original_ s) (certificateChain_ s) seen (outcome_ s) (successCallbacks_ s).
Definition with_outcome (outcome : bool) (s : ValidationState) : ValidationState :=
  mkValidationState (vid s) (original_ s) (certificateChain_ s) (seenCertificateNames_ s) (Some outcome)
    (successCallbacks_ s).

(** A request with the number of the retries that are left. *)
Record CertificateRequest := mkCertificateRequest { request_interest : InterestValue; nRetriesLeft_ : Z }.

(** An Interest that was expressed: the request, the state, and the number of times that the certificate
    is put into the unverified cache before the validation continues. *)
Record Fetch := mkFetch { fetch_request : CertificateRequest; fetch_state : ValidationState; fetch_caches : nat }.

(** The calls out: the callbacks of validation [vid], and an expressed Interest. *)
Inductive VCall :=
| SuccessCallback (vid : nat) (packet : SignedPacket)
| FailureCallback (vid : nat) (packet : SignedPacket) (code : ValidationErrorCode)
| ExpressInterest (fetch : Fetch).

(** The records of a command interest policy, oldest first. *)
Record LastTimestampRecord := mkLastTimestampRecord { keyName_ : Name; timestamp_ : Z; lastRefreshed_ : Z }.

Record CommandInterestState := mkCommandInterestState {
  gracePeriod_ : Z;
  maxRecords_ : Z;
  recordLifetime_ : Z;
  container_ : list LastTimestampRecord;
  command_nowOffset_ : Z
}.

Record ConfigState `{RegexLib} := mkConfigState {
  shouldBypass_ : bool;
  isConfigured_ : bool;
  dataRules_ : list ConfigRule;
  interestRules_ : list ConfigRule
}.

(** The policies. A command interest policy is a number, for its records, and its inner policy. *)
Inductive Policy :=
| AcceptAll
| SimpleHierarchy
| FromPib
| Config (hasInnerPolicy : bool)
| CommandInterest (number : nat) (innerPolicy : Policy).

Inductive Fetcher := Offline | FromNetwork.

(** What the objects that take part in a validation hold. *)
Record World `{RegexLib} := mkWorld {
  w_storage : CertificateStorage;
  w_config : ConfigState;
  w_commands : nat -> CommandInterestState
}.

(** What an operation sees of the outside: the time, the files, random bytes for a nonce, and the default
    certificate of a key in the PIB. *)
Record Env := mkEnv {
  now : Z;
  files : Files;
  random : list Z;
  pib_certificate : Name -> Name -> result exn Certificate
}.

(** A validator; the two flags are the default of [CanBePrefix] of an Interest. *)
Record Settings := mkSettings {
  policy_ : Policy;
  fetcher_ : Fetcher;
  maxDepth_ : Z;
  defaultCanBePrefix_ : bool;
  didSetDefaultCanBePrefix_ : bool
}.

Section Validation.
Context `{Crypto} `{RegexLib}.

Abbreviation Validating A := (Act World VCall A).

(** A method of the storage. *)
Definition on_storage {A} (m : Act CertificateStorage VCall A) : Validating A := fun w =>
  let '(s, calls, r) := m (w_storage w) in (mkWorld _ s (w_config w) (w_commands w), calls, r).

(** ** The state of a validation *)

Definition setOutcome (outcome : bool) (state : ValidationState) : Validating ValidationState :=
  match outcome_ state with
  | Some _ => throw_exn (RuntimeError "The ValidationState already has an outcome")
  | None => mret (with_outcome outcome state)
  end.

Definition isOutcomeFailed (state : ValidationState) : bool := bool_decide (outcome_ state = Some false).

(** [fail]: the exceptions of the application's callback are caught. *)
Definition fail (code : ValidationErrorCode) (state : ValidationState) : Validating ValidationState :=
  _ ← perform (FailureCallback (vid state) (original_ state) code);
  setOutcome false state.

Definition getDepth (state : ValidationState) : Z := zlen (certificateChain_ state).

(** [hasSeenCertificateName], which inserts the name. *)
Definition hasSeenCertificateName (certificateName : Name) (state : ValidationState) : bool * ValidationState :=
  match map_find (seenCertificateNames_ state) certificateName with
  | Some _ => (true, state)
  | None => (false, with_seen (map_set (seenCertificateNames_ state) certificateName tt) state)
  end.

Definition addCertificate (certificate : Certificate) (state : ValidationState) : result exn ValidationState :=
  copy ← CertificateV2_copy certificate;
  mret (with_chain (copy :: certificateChain_ state) state).

(** The loop of [verifyCertificateChain]: the last certificate that was verified, or the index of the one
    with an invalid signature. *)
Fixpoint verify_chain (i : nat) (validatedCertificate : Certificate) (chain : list Certificate) :
    result exn (Certificate + nat) :=
  match chain with
  | [] => Ok (inl validatedCertificate)
  | certificateToValidate :: chain =>
      verified ← verifyDataSignature (certificate_signed certificateToValidate) validatedCertificate;
      if negb verified then Ok (inr i) else verify_chain (S i) certificateToValidate chain
  end.

(** [verifyCertificateChain]. *)
Definition verifyCertificateChain (trustedCertificate : Certificate) (state : ValidationState) :
    Validating (option Certificate * ValidationState) :=
  r ← returns (verify_chain 0 trustedCertificate (certificateChain_ state));
  match r with
  | inl validated => mret (Some validated, state)
  | inr i =>
      state ← fail INVALID_SIGNATURE state;
      mret (None, with_chain (take i (certificateChain_ state)) state)
  end.

(** [insertNewRecord] of a command interest policy. *)
Fixpoint findByKeyName (container : list LastTimestampRecord) (keyName : Name) : option nat :=
  match container with
  | [] => None
  | r :: container =>
      if name_equals (keyName_ r) keyName then Some O
      else match findByKeyName container keyName with Some i => Some (S i) | None => None end
  end.

Definition command_update (number : nat) (f : CommandInterestState -> CommandInterestState) : Validating unit :=
  self_modify (fun w => mkWorld _ (w_storage w) (w_config w)
    (fun n => if (n =? number)%nat then f (w_commands w n) else w_commands w n)).

Definition with_container (container : list LastTimestampRecord) (c : CommandInterestState) : CommandInterestState :=
  mkCommandInterestState (gracePeriod_ c) (maxRecords_ c) (recordLifetime_ c) container (command_nowOffset_ c).

Definition insertNewRecord (env : Env) (keyName : Name) (timestamp : Z) (c : CommandInterestState) :
    CommandInterestState :=
  let newRecord := mkLastTimestampRecord keyName timestamp (now env + command_nowOffset_ c) in
  let container := match findByKeyName (container_ c) keyName with
                   | Some index => delete index (container_ c)
                   | None => container_ c
                   end in
  with_container (container ++ [newRecord]) c.

(** The callbacks of success: the application's, which comes first, and those that policies added. *)
Definition call_success (env : Env) (state : ValidationState) : Validating unit :=
  _ ← perform (SuccessCallback (vid state) (original_ state));
  for_each (fun r => command_update (record_policy r) (insertNewRecord env (record_keyName r) (record_timestamp r)))
    (successCallbacks_ state).

(** [verifyOriginalPacket]. *)
Definition verifyOriginalPacket (env : Env) (trustedCertificate : Certificate) (state : ValidationState) :
    Validating ValidationState :=
  match original_ state with
  | PInterest interest =>
      verified ← returns (verifyInterestSignature (random env) interest trustedCertificate);
      if (verified : bool) then _ ← call_success env state; setOutcome true state
      else fail INVALID_SIGNATURE state
  | PData data =>
      verified ← returns (verifyDataSignature (packet_signed data) trustedCertificate);
      if (verified : bool) then _ ← call_success env state; setOutcome true state
      else fail INVALID_SIGNATURE state
  | PCertificate certificate =>
      verified ← returns (verifyDataSignature (certificate_signed certificate) trustedCertificate);
      if (verified : bool) then
        revoked ← on_storage (revocation_of (now env) certificate);
        match revoked with
        | Some _ => fail REVOKED state
        | None => _ ← call_success env state; setOutcome true state
        end
      else fail INVALID_SIGNATURE state
  end.

Definition bypassValidation (env : Env) (state : ValidationState) : Validating ValidationState :=
  _ ← call_success env state; setOutcome true state.

(** ** Policies *)

(** [getKeyLocatorNameFromSignature]; the name is empty after [fail]. *)
Definition getKeyLocatorNameFromSignature (signature : SignatureValue) (state : ValidationState) :
    Validating (Name * ValidationState) :=
  let invalid := (state ← fail INVALID_KEY_LOCATOR state; mret ([], state)) in
  if negb (canGetFromSignature signature) then invalid
  else
    keyLocator ← returns (getFromSignature signature);
    if negb (bool_decide (kl_type_ keyLocator.1 = KEYNAME)) then invalid
    else mret (keyLocator.2, state).

Definition getKeyLocatorName (packet : SignedPacket) (state : ValidationState) : Validating (Name * ValidationState) :=
  let invalid := (state ← fail INVALID_KEY_LOCATOR state; mret ([], state)) in
  match packet with
  | PData data => getKeyLocatorNameFromSignature (data_signature (packet_value data)) state
  | PCertificate certificate =>
      has ← returns (hasIssuerName certificate);
      if negb has then invalid
      else name ← returns (getIssuerName certificate); mret (name, state)
  | PInterest interest =>
      if zlen (ip_name interest) <? 2 then invalid
      else
        match (info ← name_get (ip_name interest) (-2);
               value ← name_get (ip_name interest) (-1);
               decodeSignatureInfoAndValue (value_ info) (value_ value)) with
        | Err _ => invalid
        | Ok signature => getKeyLocatorNameFromSignature (value_of signature) state
        end
  end.

(** What a policy calls: [None] for a packet that needs no signature. *)
Abbreviation Continuation := (option CertificateRequest -> ValidationState -> Validating unit).

Definition refuse (code : ValidationErrorCode) (state : ValidationState) : Validating unit :=
  _ ← fail code state; mret tt.

(** [Interest(name)] and a request for it. *)
Definition request_for (settings : Settings) (name : Name) : CertificateRequest :=
  mkCertificateRequest
    (interest_value (Interest_new name (defaultCanBePrefix_ settings) (didSetDefaultCanBePrefix_ settings))) 3.

Definition hierarchy_check (settings : Settings) (packet : SignedPacket) (state : ValidationState)
    (continueValidation : Continuation) : Validating unit :=
  '(keyLocatorName, state) ← getKeyLocatorName packet state;
  if isOutcomeFailed state then mret tt
  else if name_match (getPrefix keyLocatorName (-2)) (packet_name_of packet) then
    continueValidation (Some (request_for settings keyLocatorName)) state
  else refuse INVALID_KEY_LOCATOR state.

(** [checkPolicyHelper] of the policy with the PIB. *)
Definition pib_check (env : Env) (settings : Settings) (keyName : Name) (state : ValidationState)
    (continueValidation : Continuation) : Validating unit :=
  match (identity ← extractIdentityFromKeyName keyName; pib_certificate env identity keyName) with
  | Err _ => refuse CANNOT_RETRIEVE_CERTIFICATE state
  | Ok certificate =>
      _ ← on_storage resetAnchors;
      _ ← on_storage (loadAnchor (now env) [] certificate);
      _ ← continueValidation (Some (request_for settings keyName)) state;
      on_storage resetAnchors
  end.

Definition is_interest (packet : SignedPacket) : bool := match packet with PInterest _ => true | _ => false end.

(** The rules for the kind of packet, and the result of the first one that matches. *)
Definition config_rules (isForInterest : bool) (packetName keyLocatorName : Name) : Validating CheckResult :=
  w ← self_get;
  let c := w_config w in
  let rules := if isForInterest then interestRules_ c else dataRules_ c in
  let '(rules, r) := check_rules rules isForInterest packetName keyLocatorName in
  let c := mkConfigState _ (shouldBypass_ c) (isConfigured_ c)
             (if isForInterest then dataRules_ c else rules) (if isForInterest then rules else interestRules_ c) in
  _ ← self_modify (fun w => mkWorld _ (w_storage w) c (w_commands w));
  returns r.

Definition config_check (settings : Settings) (hasInnerPolicy : bool) (packet : SignedPacket) (state : ValidationState)
    (continueValidation : Continuation) : Validating unit :=
  if hasInnerPolicy then returns (config_error "ValidationPolicyConfig must be a terminal inner policy")
  else
    w ← self_get;
    if shouldBypass_ (w_config w) then continueValidation None state
    else
      '(keyLocatorName, state) ← getKeyLocatorName packet state;
      if isOutcomeFailed state then mret tt
      else
        result ← config_rules (is_interest packet) (packet_name_of packet) keyLocatorName;
        match result with
        | Passed => continueValidation (Some (request_for settings keyLocatorName)) state
        | PolicyFailed => refuse POLICY_ERROR state
        | Rejected => mret tt
        end.

(** The loop of [cleanUp]. *)
Fixpoint clean_up (expiring maxRecords : Z) (container : list LastTimestampRecord) : list LastTimestampRecord :=
  match container with
  | [] => []
  | r :: rest =>
      if (lastRefreshed_ r <=? expiring) || ((maxRecords >=? 0) && (zlen container >? maxRecords))
      then clean_up expiring maxRecords rest else container
  end.

Definition cleanUp (env : Env) (c : CommandInterestState) : CommandInterestState :=
  with_container (clean_up (now env + command_nowOffset_ c - recordLifetime_ c) (maxRecords_ c) (container_ c)) c.

Definition POS_TIMESTAMP : Z := -4.
Definition MINIMUM_SIZE : Z := 4.

(** [checkTimestamp]: what the record of the key and the clock say of a timestamp. *)
Definition timestamp_ok (env : Env) (c : CommandInterestState) (keyName : Name) (timestamp : Z) : bool :=
  let now := now env + command_nowOffset_ c in
  negb ((timestamp <? now - gracePeriod_ c) || (timestamp >? now + gracePeriod_ c)) &&
  match findByKeyName (container_ c) keyName with
  | Some index =>
      match container_ c !! index with Some r => negb (timestamp <=? timestamp_ r) | None => true end
  | None => true
  end.

Definition addSuccessCallback (r : InsertRecord) (s : ValidationState) : ValidationState :=
  mkValidationState (vid s) (original_ s) (certificateChain_ s) (seenCertificateNames_ s) (outcome_ s)
    (successCallbacks_ s ++ [r]).

(** [parseCommandInterest] and [checkTimestamp], before the inner policy. *)
Definition command_check (env : Env) (number : nat) (packet : SignedPacket) (state : ValidationState)
    (inner : ValidationState -> Validating unit) : Validating unit :=
  if negb (is_interest packet) then inner state
  else if zlen (packet_name_of packet) <? MINIMUM_SIZE then refuse POLICY_ERROR state
  else
    component ← returns (name_get (packet_name_of packet) POS_TIMESTAMP);
    timestamp ← returns (fromMilliseconds (toNumber component * 1000000));
    '(keyName, state) ← getKeyLocatorName packet state;
    if isOutcomeFailed state then mret tt
    else
      _ ← command_update number (cleanUp env);
      w ← self_get;
      if negb (timestamp_ok env (w_commands w number) keyName timestamp) then refuse POLICY_ERROR state
      else inner (addSuccessCallback (mkInsertRecord number keyName timestamp) state).

(** [checkPolicy] of a policy; that of a certificate is [checkCertificatePolicy]. *)
Fixpoint checkPolicy (env : Env) (settings : Settings) (policy : Policy) (packet : SignedPacket)
    (state : ValidationState) (continueValidation : Continuation) : Validating unit :=
  match policy with
  | AcceptAll => continueValidation None state
  | SimpleHierarchy => hierarchy_check settings packet state continueValidation
  | FromPib =>
      '(keyName, state) ← getKeyLocatorName packet state;
      if isOutcomeFailed state then mret tt else pib_check env settings keyName state continueValidation
  | Config hasInnerPolicy => config_check settings hasInnerPolicy packet state continueValidation
  | CommandInterest number inner =>
      command_check env number packet state (fun state =>
        checkPolicy env settings inner packet state continueValidation)
  end.

(** ** The validator *)

(** The loop that puts the verified chain into the cache: the first revoked certificate stops it. *)
Fixpoint cache_chain (now : Z) (chain : list Certificate) : Act CertificateStorage VCall bool :=
  match chain with
  | [] => mret true
  | certificate :: chain =>
      cached ← cacheVerifiedCertificate now certificate;
      if negb cached then mret false else cache_chain now chain
  end.

(** What [requestCertificate] does with a trusted certificate. *)
Definition use_trusted (env : Env) (certificate : Certificate) (state : ValidationState) : Validating unit :=
  '(validated, state) ← verifyCertificateChain certificate state;
  match validated with
  | None => mret tt
  | Some validated =>
      cached ← on_storage (cache_chain (now env) (certificateChain_ state));
      if negb cached then refuse REVOKED state
      else _ ← verifyOriginalPacket env validated state; mret tt
  end.

(** [continueFetch], once for each time that the request was fetched. *)
Fixpoint continueFetch (env : Env) (times : nat) (certificate : Certificate) : Validating unit :=
  match times with
  | O => mret tt
  | S times => _ ← on_storage (cacheUnverifiedCertificate (now env) certificate); continueFetch env times certificate
  end.

(** [doFetch]. *)
Definition doFetch (settings : Settings) (fetch : Fetch) : Validating unit :=
  match fetcher_ settings with
  | Offline => refuse CANNOT_RETRIEVE_CERTIFICATE (fetch_state fetch)
  | FromNetwork => perform (ExpressInterest fetch)
  end.

(** [CertificateFetcher::fetch]; a certificate that is found goes through the continuations of the earlier
    fetches of the request. *)
Definition fetch (env : Env) (settings : Settings) (f : Fetch)
    (continueValidation : Certificate -> ValidationState -> Validating unit) : Validating unit :=
  found ← on_storage (on_unverified (certificate_find (now env) (request_interest (fetch_request f))));
  match found with
  | Some certificate =>
      _ ← continueFetch env (fetch_caches f) certificate;
      continueValidation certificate (fetch_state f)
  | None => doFetch settings (mkFetch (fetch_request f) (fetch_state f) (S (fetch_caches f)))
  end.

(** [requestCertificate], which [validateCertificate] calls again with a longer chain; the fuel bounds how
    often. *)
Fixpoint requestCertificate (fuel : nat) (env : Env) (settings : Settings) (certificateRequest : CertificateRequest)
    (state : ValidationState) : Validating unit :=
  match fuel with
  | O => throw_exn (Failed OutOfFuel)
  | S fuel =>
      if getDepth state >=? maxDepth_ settings then refuse EXCEEDED_DEPTH_LIMIT state
      else
        let '(seen, state) := hasSeenCertificateName (interest_name (request_interest certificateRequest)) state in
        if seen then refuse LOOP_DETECTED state
        else
          trusted ← on_storage (findTrustedCertificate (files env) (now env) (request_interest certificateRequest));
          match trusted with
          | Some certificate => use_trusted env certificate state
          | None =>
              fetch env settings (mkFetch certificateRequest state 0)
                (fun certificate state =>
                   valid ← returns (cert_isValid certificate (now env));
                   if negb valid then refuse EXPIRED_CERTIFICATE state
                   else
                     checkPolicy env settings (policy_ settings) (PCertificate certificate) state
                       (fun request state =>
                          match request with
                          | None => refuse POLICY_ERROR state
                          | Some request =>
                              state ← returns (addCertificate certificate state);
                              requestCertificate fuel env settings request state
                          end))
          end
  end.

(** Enough for a chain of [maxDepth_] certificates. *)
Definition enough (settings : Settings) : nat := S (Z.to_nat (maxDepth_ settings)).

Definition continueValidateCertificate (env : Env) (settings : Settings) (certificate : Certificate)
    (certificateRequest : option CertificateRequest) (state : ValidationState) : Validating unit :=
  match certificateRequest with
  | None => refuse POLICY_ERROR state
  | Some request =>
      state ← returns (addCertificate certificate state);
      requestCertificate (enough settings) env settings request state
  end.

Definition validateCertificate (env : Env) (settings : Settings) (certificate : Certificate)
    (state : ValidationState) : Validating unit :=
  valid ← returns (cert_isValid certificate (now env));
  if negb valid then refuse EXPIRED_CERTIFICATE state
  else
    checkPolicy env settings (policy_ settings) (PCertificate certificate) state
      (continueValidateCertificate env settings certificate).

Definition continueValidate (env : Env) (settings : Settings) (certificateRequest : option CertificateRequest)
    (state : ValidationState) : Validating unit :=
  match certificateRequest with
  | None => _ ← bypassValidation env state; mret tt
  | Some request => requestCertificate (enough settings) env settings request state
  end.

(** [validate]; a certificate is copied. *)
Definition validate (env : Env) (settings : Settings) (id : nat) (packet : SignedPacket) : Validating unit :=
  packet ← returns (match packet with
                    | PCertificate c => c ← CertificateV2_copy c; mret (PCertificate c)
                    | p => mret p
                    end);
  checkPolicy env settings (policy_ settings) packet (mkValidationState id packet [] [] None [])
    (continueValidate env settings).

(** *** What the network answers *)

(** [onData]: the Data packet as a certificate. *)
Definition fetcher_onData (env : Env) (settings : Settings) (data : DataPacket) (f : Fetch) : Validating unit :=
  match CertificateV2_of_data data with
  | Err (Failed failure) => throw_exn (Failed failure)
  | Err _ => refuse MALFORMED_CERTIFICATE (fetch_state f)
  | Ok certificate =>
      _ ← continueFetch env (fetch_caches f) certificate;
      validateCertificate env settings certificate (fetch_state f)
  end.

(** [onTimeout] and [onNetworkNack] do the same. *)
Definition fetcher_onTimeout (env : Env) (settings : Settings) (f : Fetch) : Validating unit :=
  let request := mkCertificateRequest (request_interest (fetch_request f)) (nRetriesLeft_ (fetch_request f) - 1) in
  if nRetriesLeft_ request >=? 0 then
    fetch env settings (mkFetch request (fetch_state f) (fetch_caches f)) (validateCertificate env settings)
  else refuse CANNOT_RETRIEVE_CERTIFICATE (fetch_state f).

(** ** A validator with its pending Interests *)

Record System := mkSystem { s_world : World; s_pending : list Fetch; s_next : nat }.

(** The application validates a packet; a Data packet arrives for a pending Interest, or it times out or is
    refused by the network. *)
Inductive Event :=
| ValidatePacket (packet : SignedPacket)
| DataArrived (i : nat) (data : DataPacket)
| TimedOut (i : nat).

Definition fetches (calls : list VCall) : list Fetch :=
  omap (fun call => match call with ExpressInterest f => Some f | _ => None end) calls.

(** The operation of an event; an event for an Interest that is not pending does nothing. *)
Definition handler (env : Env) (settings : Settings) (event : Event) (s : System) : Validating unit :=
  match event with
  | ValidatePacket packet => validate env settings (s_next s) packet
  | DataArrived i data =>
      match s_pending s !! i with Some f => fetcher_onData env settings data f | None => mret tt end
  | TimedOut i =>
      match s_pending s !! i with Some f => fetcher_onTimeout env settings f | None => mret tt end
  end.

Definition without_event (event : Event) (pending : list Fetch) : list Fetch :=
  match event with
  | ValidatePacket _ => pending
  | DataArrived i _ | TimedOut i => delete i pending
  end.

Definition run_event (env : Env) (settings : Settings) (event : Event) (s : System) :
    System * list VCall * result exn unit :=
  let '(w, calls, r) := handler env settings event s (s_world s) in
  (mkSystem w (without_event event (s_pending s) ++ fetches calls)
     (match event with ValidatePacket _ => S (s_next s) | _ => s_next s end), calls, r).
End Validation.
