(* ===== verification/ValidationSpec.v ===== *)
(** * What validation promises

    A packet is reported as valid only if it is signed under a certificate that is trusted, each validation
    is concluded once, and the chase of certificates ends. *)

From stdpp Require Import base list numbers option strings sets.
From Stdlib Require Import ZArith Lia.
From S2P Require Import Prelude Actions Order Name NameUri ChangeCounter Exclude DelegationSet Data TlvData Interest WireFormat.
From S2P Require Import ValidityPeriod BoostInfo Regex RegexSyntax Certificates NameMap CertStorage CertStorageSpec ValidatorConfig Validation.
Open Scope Z_scope.

(** ** Assertions on operations *)

Section Guards.
Context {S E : Type}.

(** From a state in [I] the operation ends in [I], makes calls in [Q], and returns what is in [R]. *)
Definition guards {A} (I : S -> Prop) (Q : E -> Prop) (m : Act S E A) (R : A -> Prop) : Prop :=
  forall s, I s -> I (state_of (m s)) /\ Forall Q (calls_of (m s)) /\
    forall a, result_of (m s) = Ok a -> R a.

Context (I : S -> Prop) (Q : E -> Prop).

Lemma guards_ret {A} (a : A) (R : A -> Prop) : R a -> guards I Q (mret a) R.
Proof. intros Ha s Hs. split_and!; [exact Hs | constructor | intros b [= <-]; exact Ha]. Qed.

Lemma guards_throw {A} e (R : A -> Prop) : guards I Q (throw_exn e) R.
Proof. intros s Hs. split_and!; [exact Hs | constructor | easy]. Qed.

Lemma guards_returns {A} (r : result exn A) (R : A -> Prop) :
  (forall a, r = Ok a -> R a) -> guards I Q (returns r) R.
Proof. intros Ha s Hs. split_and!; [exact Hs | constructor | exact Ha]. Qed.

Lemma guards_bind {A B} (m : Act S E A) (f : A -> Act S E B) R R' :
  guards I Q m R -> (forall a, R a -> guards I Q (f a) R') -> guards I Q (m ≫= f) R'.
Proof.
  intros Hm Hf s Hs. destruct (Hm s Hs) as (Hi & Hq & Hr). unfold mbind, Act_bind, state_of, calls_of, result_of in *.
  destruct (m s) as [[s1 c1] [a | e]]; cbn in *; [| easy].
  destruct (Hf a (Hr a eq_refl) s1 Hi) as (Hi2 & Hq2 & Hr2). unfold state_of, calls_of, result_of in *.
  destruct (f a s1) as [[s2 c2] r]; cbn in *. split_and!; [easy | now apply Forall_app | easy].
Qed.

Lemma guards_weaken {A} (m : Act S E A) (R R' : A -> Prop) :
  guards I Q m R -> (forall a, R a -> R' a) -> guards I Q m R'.
Proof. intros Hm Hr s Hs. destruct (Hm s Hs) as (Hi & Hq & Ha). split_and!; auto. Qed.

Lemma guards_perform e : Q e -> guards I Q (perform e) (fun _ => True).
Proof. intros He s Hs. split_and!; [exact Hs | now repeat constructor | easy]. Qed.

Lemma guards_modify f : (forall s, I s -> I (f s)) -> guards I Q (self_modify f) (fun _ => True).
Proof. intros Hf s Hs. split_and!; [now apply Hf | constructor | easy]. Qed.

Lemma guards_get {B} (f : S -> Act S E B) R :
  (forall s, I s -> guards I Q (f s) R) -> guards I Q (self_get ≫= f) R.
Proof. intros Hf s Hs. unfold state_of, calls_of, result_of. rewrite act_get_bind. now apply Hf. Qed.

Lemma guards_for_each {A} (f : A -> Act S E unit) l :
  (forall a, guards I Q (f a) (fun _ => True)) -> guards I Q (for_each f l) (fun _ => True).
Proof.
  intros Hf. induction l as [| a l IH]; cbn; [now apply guards_ret |].
  eapply guards_bind; [apply Hf | intros _ _; exact IH].
Qed.

(** From a state in [P] the operation ends in [I] and makes calls in [Q]. *)
Definition leads {A} (P : S -> Prop) (m : Act S E A) : Prop :=
  forall s, P s -> I (state_of (m s)) /\ Forall Q (calls_of (m s)).

Context (P : S -> Prop) (HP : forall s, P s -> I s).

Lemma leads_guards {A} (m : Act S E A) R : guards I Q m R -> leads P m.
Proof using HP. intros Hm s Hs. destruct (Hm s (HP s Hs)) as (Hi & Hq & _). now split. Qed.

Lemma leads_bind {A B} (m : Act S E A) (f : A -> Act S E B) R :
  guards P Q m R -> (forall a, R a -> leads P (f a)) -> leads P (m ≫= f).
Proof using HP.
  intros Hm Hf s Hs. destruct (Hm s Hs) as (Hi & Hq & Hr). unfold mbind, Act_bind, state_of, calls_of, result_of in *.
  destruct (m s) as [[s1 c1] [a | e]]; cbn in *; [| now auto].
  destruct (Hf a (Hr a eq_refl) s1 Hi) as (Hi2 & Hq2). unfold state_of, calls_of in *.
  destruct (f a s1) as [[s2 c2] r]; cbn in *. split; [easy | now apply Forall_app].
Qed.

Lemma leads_get {B} (f : S -> Act S E B) : (forall s, P s -> leads P (f s)) -> leads P (self_get ≫= f).
Proof. intros Hf s Hs. unfold state_of, calls_of. rewrite act_get_bind. now apply Hf. Qed.
End Guards.

(** ** Records of commands *)

(** At most one record for each key; names are compared by their values. *)
Definition record_key (r : LastTimestampRecord) : list (list Z) := map value_ (keyName_ r).
Definition records_unique (c : CommandInterestState) : Prop := NoDup (map record_key (container_ c)).

Lemma find_record l keyName :
  match findByKeyName l keyName with
  | Some i => exists r, l !! i = Some r /\ record_key r = map value_ keyName
  | None => map value_ keyName ∉ map record_key l
  end.
Proof.
  induction l as [| r l IH]; cbn [findByKeyName]; [apply not_elem_of_nil |].
  destruct (name_equals (keyName_ r) keyName) eqn:He.
  - exists r. split; [easy |]. now apply name_equals_values.
  - destruct (findByKeyName l keyName) as [i |]; [exact IH |]. cbn [map]. rewrite not_elem_of_cons. split; [| exact IH].
    intros Hv. symmetry in Hv. apply name_equals_values in Hv. congruence.
Qed.

(** The record that is found is the only one of its key. *)
Lemma find_record_unique l keyName r :
  NoDup (map record_key l) -> r ∈ l -> record_key r = map value_ keyName ->
  exists i, findByKeyName l keyName = Some i /\ l !! i = Some r.
Proof.
  intros Hnd Hin Hr. pose proof (find_record l keyName) as Hf.
  destruct (findByKeyName l keyName) as [i |].
  - destruct Hf as (r' & Hi & Hr'). exists i. split; [easy |]. apply list_elem_of_lookup in Hin as [j Hj].
    assert (i = j) as ->; [| congruence]. rewrite NoDup_alt in Hnd. apply (Hnd i j (map value_ keyName)).
    + rewrite list_lookup_fmap, Hi. cbn. congruence.
    + rewrite list_lookup_fmap, Hj. cbn. congruence.
  - destruct Hf. rewrite <- Hr. now apply list_elem_of_fmap_2.
Qed.

(** [clean_up] takes records away from the start, and keeps what is neither too old nor too far from the
    end. *)
Lemma clean_up_suffix expiring mx l : clean_up expiring mx l `suffix_of` l.
Proof.
  induction l as [| r l IH]; cbn [clean_up]; [easy |]. destruct (_ || _); [now apply suffix_cons_r | easy].
Qed.

Lemma clean_up_keeps expiring mx l i r :
  l !! i = Some r -> expiring < lastRefreshed_ r -> (mx < 0 \/ zlen l - Z.of_nat i <= mx) ->
  r ∈ clean_up expiring mx l.
Proof.
  revert i. induction l as [| x l IH]; intros i Hi Hr Hm; [easy |]. cbn [clean_up].
  destruct (_ || _) eqn:Hx; [| now apply list_elem_of_lookup_2 in Hi]. destruct i as [| i].
  - injection Hi as ->. rewrite orb_true_iff, andb_true_iff, Z.leb_le, Z.geb_le, Z.gtb_lt in Hx. cbn in *. lia.
  - apply (IH i); [easy | easy |]. cbn [length] in Hm. lia.
Qed.

Lemma clean_up_again expiring mx l : clean_up expiring mx (clean_up expiring mx l) = clean_up expiring mx l.
Proof.
  induction l as [| r l IH]; cbn [clean_up]; [easy |]. destruct (_ || _) eqn:Hx; [easy |]. cbn [clean_up]. now rewrite Hx.
Qed.

Lemma unique_suffix l l' : l `suffix_of` l' -> NoDup (map record_key l') -> NoDup (map record_key l).
Proof. intros [k ->]. rewrite map_app. now intros (_ & _ & Hl)%NoDup_app. Qed.

Lemma cleanUp_unique env c : records_unique c -> records_unique (cleanUp env c).
Proof. apply unique_suffix, clean_up_suffix. Qed.

Lemma cleanUp_again env c : cleanUp env (cleanUp env c) = cleanUp env c.
Proof. unfold cleanUp, with_container. cbn. now rewrite clean_up_again. Qed.

Lemma insertNewRecord_unique env keyName timestamp c :
  records_unique c -> records_unique (insertNewRecord env keyName timestamp c).
Proof.
  unfold records_unique, insertNewRecord. cbn. intros Hnd. pose proof (find_record (container_ c) keyName) as Hf.
  rewrite map_app. apply NoDup_app. destruct (findByKeyName _ _) as [i |].
  - destruct Hf as (r & Hi & Hr). pose proof (delete_Permutation _ _ _ Hi) as Hp.
    apply (Permutation_map record_key) in Hp. rewrite Hp in Hnd. cbn [map] in Hnd. apply NoDup_cons in Hnd as [Hn Hnd].
    split_and!; [easy | | apply NoDup_singleton]. intros k Hk ->%list_elem_of_singleton. apply Hn. rewrite Hr. exact Hk.
  - split_and!; [easy | | apply NoDup_singleton]. intros k Hk ->%list_elem_of_singleton. now apply Hf.
Qed.

(** What a timestamp must be for a key at the time of [env]: within the grace period of the clock, and later
    than that of each record of the key which is not too old and among the newest [maxRecords_]. *)
Definition fresh (env : Env) (c : CommandInterestState) (keyName : Name) (timestamp : Z) : Prop :=
  let clock := now env + command_nowOffset_ c in
  clock - gracePeriod_ c <= timestamp <= clock + gracePeriod_ c /\
  forall i r, container_ c !! i = Some r -> record_key r = map value_ keyName ->
    clock - recordLifetime_ c < lastRefreshed_ r ->
    (maxRecords_ c < 0 \/ zlen (container_ c) - Z.of_nat i <= maxRecords_ c) ->
    timestamp_ r < timestamp.

Lemma timestamp_ok_fresh env c c' keyName timestamp :
  records_unique c -> c' = c \/ c' = cleanUp env c -> timestamp_ok env c' keyName timestamp = true ->
  fresh env c keyName timestamp.
Proof.
  intros Hu Hc Hok. assert (Hu' : records_unique c') by (destruct Hc as [-> | ->]; [easy | now apply cleanUp_unique]).
  assert (Hsame : command_nowOffset_ c' = command_nowOffset_ c /\ gracePeriod_ c' = gracePeriod_ c)
    by now destruct Hc as [-> | ->].
  unfold timestamp_ok in Hok. destruct Hsame as [Ho Hg]. rewrite Ho, Hg in Hok.
  apply andb_true_iff in Hok as [Hclock Hrec]. split.
  - apply negb_true_iff, orb_false_iff in Hclock as [H1%Z.ltb_ge H2]. rewrite Z.gtb_ltb in H2. apply Z.ltb_ge in H2. lia.
  - intros i r Hi Hr Hnew Hroom.
    assert (Hin : r ∈ container_ c').
    { destruct Hc as [-> | ->]; [now apply list_elem_of_lookup_2 in Hi |]. now apply clean_up_keeps with i. }
    destruct (find_record_unique _ _ _ Hu' Hin Hr) as (j & Hj & Hl). rewrite Hj, Hl in Hrec.
    apply negb_true_iff, Z.leb_gt in Hrec. lia.
Qed.

(** ** Rules of a configuration *)

Section Rules.
Context `{RegexLib}.

(** The first rule for the packet passes it: it has checkers, and all of them pass. *)
Definition rules_pass (rules : list ConfigRule) (isForInterest : bool) (packetName keyName : Name) : Prop :=
  exists before rule after, rules = before ++ rule :: after /\
    Forall (fun r => (rule_match r isForInterest packetName).2 = Ok false) before /\
    (rule_match rule isForInterest packetName).2 = Ok true /\ isForInterest_ rule = isForInterest /\
    checkers_ rule <> [] /\
    Forall (fun c => (checker_check c isForInterest packetName keyName).2 = Ok Passed) (checkers_ rule).

Lemma check_all_passed checkers isForInterest packetName keyName b :
  (check_all checkers isForInterest packetName keyName b).2 = Ok Passed ->
  Forall (fun c => (checker_check c isForInterest packetName keyName).2 = Ok Passed) checkers /\
  (checkers <> [] \/ b = true).
Proof.
  revert b. induction checkers as [| c cs IH]; intros b; cbn [check_all].
  { destruct b; [now auto | easy]. }
  destruct (checker_check c isForInterest packetName keyName) as [c' r] eqn:Hc.
  destruct r as [[| |] | e]; try easy. specialize (IH true). destruct (check_all cs _ _ _ _) as [cs' r].
  intros Hr. split; [| now left]. constructor; [now rewrite Hc | now apply IH].
Qed.

Lemma check_rules_passed rules isForInterest packetName keyName :
  (check_rules rules isForInterest packetName keyName).2 = Ok Passed ->
  rules_pass rules isForInterest packetName keyName.
Proof.
  induction rules as [| rule rules IH]; cbn [check_rules]; [easy |].
  destruct (rule_match rule isForInterest packetName) as [rule' r] eqn:Hm. destruct r as [[|] | e]; [| | easy].
  - intros Hr. exists [], rule, rules. rewrite Hm.
    assert (Hsame : isForInterest_ rule' = isForInterest_ rule /\ checkers_ rule' = checkers_ rule).
    { unfold rule_match in Hm. destruct (negb _); [now injection Hm as <- |]. destruct (_ =? 0); [now injection Hm as <- |].
      destruct (match_filters _ _ _). now injection Hm as <-. }
    destruct Hsame as [Hi Hcs]. unfold rule_check in Hr. destruct (eqb isForInterest (isForInterest_ rule')) eqn:Heq;
      cbn [negb] in Hr; [| easy].
    pose proof (check_all_passed (checkers_ rule') isForInterest packetName keyName false) as Hall.
    destruct (check_all _ _ _ _ _) as [cs r]. destruct (Hall Hr) as [Hp Hne]. rewrite Hcs in Hp, Hne.
    apply eqb_prop in Heq. split_and!; [easy | constructor | easy | congruence | now destruct Hne | easy].
  - specialize (IH). destruct (check_rules rules _ _ _) as [rules' r]. intros Hr.
    destruct (IH Hr) as (before & rule0 & after & -> & Hb & Hrest). exists (rule :: before), rule0, after.
    split; [easy |]. split; [constructor; [now rewrite Hm | easy] | easy].
Qed.

(** The rules of a configuration after any checks: their matchers may hold other captures. *)
Inductive used_rules (isForInterest : bool) (rules : list ConfigRule) : list ConfigRule -> Prop :=
| used_none : used_rules isForInterest rules rules
| used_check rules' packetName keyName :
    used_rules isForInterest rules rules' ->
    used_rules isForInterest rules (check_rules rules' isForInterest packetName keyName).1.

Definition configured_rules (isForInterest : bool) (c : ConfigState) : list ConfigRule :=
  if isForInterest then interestRules_ c else dataRules_ c.
End Rules.

(** ** Trust *)

Section Spec.
Context `{Crypto} `{RegexLib}.

(** The validity period of the certificate has the clock of [env], in milliseconds and rounded to a whole
    second. *)
Definition valid_at (env : Env) (c : Certificate) : Prop :=
  exists period time, getValidityPeriod c = Ok period /\ time mod 1000 = 0 /\
    now env - 500000 <= time * 1000000 <= now env + 1000500000 /\ period.1 <= time <= period.2.

Lemma isValid_at env c : cert_isValid c (now env) = Ok true -> valid_at env c.
Proof.
  unfold cert_isValid. intros (period & Hp & Hv)%bind_ok. injection Hv as Hv.
  unfold ValidityPeriod_isValid_now, ValidityPeriod_isValid, round_ms in Hv.
  apply andb_true_iff in Hv as [H1%Z.leb_le H2%Z.leb_le].
  exists period, (- (- ((now env + 500000) / 1000000) / 1000) * 1000).
  split; [exact Hp |]. split; [| split; [| split; [exact H1 | exact H2]]].
  - now rewrite Z_mod_mult.
  - Z.to_euclidean_division_equations. lia.
Qed.

(** The packet is signed under the key of the certificate. *)
Definition signed_by (p : SignedPacket) (c : Certificate) : Prop :=
  match p with
  | PData data => verifyDataSignature (packet_signed data) c = Ok true
  | PCertificate certificate => verifyDataSignature (certificate_signed certificate) c = Ok true
  | PInterest interest => exists random, verifyInterestSignature random interest c = Ok true
  end.

(** The name in the key locator of a packet, when it has one. *)
Definition signature_key (signature : SignatureValue) : option Name :=
  match getFromSignature signature with
  | Ok keyLocator => if bool_decide (kl_type_ keyLocator.1 = KEYNAME) then Some keyLocator.2 else None
  | Err _ => None
  end.

Definition key_locator_of (p : SignedPacket) : option Name :=
  match p with
  | PData data => signature_key (data_signature (packet_value data))
  | PCertificate c =>
      match x509Info_ c with
      | Some info => Some (x509_issuerName info)
      | None => signature_key (cert_signature c)
      end
  | PInterest interest =>
      if zlen (ip_name interest) <? 2 then None
      else match extractSignature interest with
           | Some signature => signature_key (value_of signature)
           | None => None
           end
  end.

(** A policy that does not let packets pass without a signature. *)
Fixpoint checks_signatures (policy : Policy) : Prop :=
  match policy with
  | AcceptAll => False
  | CommandInterest _ inner => checks_signatures inner
  | _ => True
  end.

(** [getKeyLocatorName] either gives the name or fails the validation. *)
Definition no_key (st : ValidationState) (w : World) : World * list VCall * result exn (Name * ValidationState) :=
  (w, [FailureCallback (vid st) (original_ st) INVALID_KEY_LOCATOR], Ok ([], with_outcome false st)).

Definition key_result (key : option Name) (st : ValidationState) (w : World) :=
  match key with Some keyName => (w, [], Ok (keyName, st)) | None => no_key st w end.

Lemma invalid_result st w :
  outcome_ st = None -> (state ← fail INVALID_KEY_LOCATOR st; mret ([], state)) w = no_key st w.
Proof. intros Ho. unfold fail, setOutcome, mbind, Act_bind, perform. now rewrite Ho. Qed.

Lemma getKeyLocatorNameFromSignature_result signature st w :
  outcome_ st = None ->
  getKeyLocatorNameFromSignature signature st w = key_result (signature_key signature) st w.
Proof.
  intros Ho. unfold getKeyLocatorNameFromSignature, signature_key, canGetFromSignature, getFromSignature.
  destruct signature as [fields [k p]]. cbn.
  destruct fields; cbn [negb]; try now rewrite invalid_result.
  all: rewrite act_returns_bind; cbn; destruct (bool_decide (kl_type_ k.1 = KEYNAME)); cbn [negb];
    [easy | now rewrite invalid_result].
Qed.

Lemma issuer_result c :
  hasIssuerName c = Ok (match key_locator_of (PCertificate c) with Some _ => true | None => false end) /\
  forall keyName, key_locator_of (PCertificate c) = Some keyName -> getIssuerName c = Ok keyName.
Proof.
  unfold hasIssuerName, getIssuerName, key_locator_of, signature_key, canGetFromSignature, getFromSignature.
  destruct (x509Info_ c) as [info |]; [split; [easy | now intros n [= ->]] |].
  destruct (cert_signature c) as [fields [k pr]]. cbn.
  destruct fields; try (split; [reflexivity | easy]); cbn;
    (destruct (bool_decide (kl_type_ k.1 = KEYNAME)); (split; [easy | intros n Hn; now inversion Hn])).
Qed.

Lemma getKeyLocatorName_result p st w :
  outcome_ st = None -> getKeyLocatorName p st w = key_result (key_locator_of p) st w.
Proof.
  intros Ho. destruct p as [data | c | interest]; cbn [getKeyLocatorName key_locator_of].
  - now apply getKeyLocatorNameFromSignature_result.
  - destruct (issuer_result c) as [Hhas Hname]. cbn [key_locator_of] in Hhas, Hname.
    rewrite Hhas, act_returns_bind. destruct (match x509Info_ c with Some _ => _ | None => _ end) as [keyName |].
    + cbn [negb]. now rewrite (Hname keyName eq_refl), act_returns_bind.
    + now apply invalid_result.
  - destruct (zlen (ip_name interest) <? 2) eqn:Hl; [now apply invalid_result |].
    unfold extractSignature. rewrite Hl. destruct (_ ≫= _) as [signature | e].
    + now apply getKeyLocatorNameFromSignature_result.
    + now apply invalid_result.
Qed.

Section Trust.
Context (settings : Settings) (config : ConfigState).

(** The times of the events of a run, each with the objects as they were before the event. *)
Context (moment : Env -> World -> Prop).

(** What a policy asks of a packet and the name in its key locator: the hierarchical one, that the name
    without its last two components is a prefix of the packet's; the one with the PIB, that the key has a
    certificate there; the configured one, that the packet and the name pass its rules; and the one of command
    Interests, that an Interest has a timestamp that is fresh, and what the inner policy asks. *)
Fixpoint policy_allows (policy : Policy) (p : SignedPacket) (keyName : Name) : Prop :=
  match policy with
  | AcceptAll => False
  | SimpleHierarchy => name_match (getPrefix keyName (-2)) (packet_name_of p) = true
  | FromPib =>
      exists env w identity c, moment env w /\ extractIdentityFromKeyName keyName = Ok identity /\
        pib_certificate env identity keyName = Ok c
  | Config hasInnerPolicy =>
      hasInnerPolicy = false /\
      exists rules, used_rules (is_interest p) (configured_rules (is_interest p) config) rules /\
        rules_pass rules (is_interest p) (packet_name_of p) keyName
  | CommandInterest number inner =>
      (is_interest p = true ->
         exists env w component, moment env w /\ name_get (packet_name_of p) (-4) = Ok component /\
           fresh env (w_commands w number) keyName (toNumber component * 1000000)) /\
      policy_allows inner p keyName
  end.

(** The Interest is the one that asks for the signer of the packet. *)
Definition request_ok (p : SignedPacket) (interest : InterestValue) : Prop :=
  exists keyName, key_locator_of p = Some keyName /\ policy_allows (policy_ settings) p keyName /\
    interest = request_interest (request_for settings keyName).

(** The certificate may sign the packet: it is named by the packet's key locator, as the policy asks. *)
Definition may_sign (p : SignedPacket) (c : Certificate) : Prop :=
  exists interest, request_ok p interest /\ packet_matches interest (cert_data c) = Ok true.

(** An anchor is trusted, and so is a certificate that was valid when it was checked and is signed by a
    trusted one that may sign it. *)
Inductive Trusted (anchor : Certificate -> Prop) : Certificate -> Prop :=
| trusted_anchor c : anchor c -> Trusted anchor c
| trusted_signed c issuer :
    Trusted anchor issuer -> may_sign (PCertificate c) issuer -> signed_by (PCertificate c) issuer ->
    (exists env w, moment env w /\ valid_at env c) -> Trusted anchor c.

Context (anchor : Certificate -> Prop).

(** What a success callback means. *)
Definition sound (p : SignedPacket) : Prop :=
  exists c, Trusted anchor c /\ may_sign p c /\ signed_by p c.

(** The packet whose signer is looked for. *)
Definition current (o : SignedPacket) (chain : list Certificate) : SignedPacket :=
  match chain with c :: _ => PCertificate c | [] => o end.

(** Each certificate of the chain may sign the next one, and the last one the packet. *)
Fixpoint linked (o : SignedPacket) (chain : list Certificate) : Prop :=
  match chain with
  | [] => True
  | c :: rest =>
      may_sign (current o rest) c /\ (exists env w, moment env w /\ valid_at env c) /\ linked o rest
  end.

Definition state_ok (st : ValidationState) : Prop :=
  outcome_ st = None /\ linked (original_ st) (certificateChain_ st).

Definition fetch_ok (f : Fetch) : Prop :=
  state_ok (fetch_state f) /\
  request_ok (current (original_ (fetch_state f)) (certificateChain_ (fetch_state f)))
    (request_interest (fetch_request f)).

Definition call_sound (call : VCall) : Prop :=
  match call with
  | SuccessCallback _ p => sound p
  | FailureCallback _ _ _ => True
  | ExpressInterest f => fetch_ok f
  end.

(** Only anchors are among the anchors, and only trusted certificates are in the verified cache. *)
Definition anchors_trusted (anchors : NameMap Certificate) : Prop := Forall (fun e => anchor e.2) anchors.

Definition storage_trusted (s : CertificateStorage) : Prop :=
  anchors_trusted (anchorsByName_ (trustAnchors_ s)) /\
  Forall (fun e => Trusted anchor (entry_value e.2)) (certificatesByName_ (verifiedCertificateCache_ s)).

Definition config_ok (c : ConfigState) : Prop :=
  shouldBypass_ c = false /\
  forall isForInterest,
    used_rules isForInterest (configured_rules isForInterest config) (configured_rules isForInterest c).

Definition commands_ok (commands : nat -> CommandInterestState) : Prop := forall n, records_unique (commands n).

(** [J] is what else is known of the records of commands. *)
Definition world_ok (J : (nat -> CommandInterestState) -> Prop) (w : World) : Prop :=
  storage_trusted (w_storage w) /\ config_ok (w_config w) /\ commands_ok (w_commands w) /\ J (w_commands w).

Abbreviation any := (fun _ : nat -> CommandInterestState => True).

(** The certificates that are read from files, and those of the PIB, are anchors. *)
Definition env_ok (env : Env) : Prop :=
  (forall path c, readCertificate (files env) path = Some c -> anchor c) /\
  (forall identity keyName c, pib_certificate env identity keyName = Ok c -> anchor c).

(** *** The chain *)

Lemma verify_chain_trusted o chain t i v :
  linked o chain -> Trusted anchor t -> may_sign (current o chain) t -> verify_chain i t chain = Ok (inl v) ->
  Forall (Trusted anchor) chain /\ Trusted anchor v /\ may_sign o v.
Proof.
  revert t i. induction chain as [| c chain IH]; intros t i Hl Ht Hm Hv; cbn [verify_chain] in Hv.
  { injection Hv as <-. now repeat split. }
  destruct Hl as (Hmc & Hvalid & Hl). apply bind_ok in Hv as (verified & Hs & Hv).
  destruct verified; cbn [negb] in Hv; [| easy].
  assert (Hc : Trusted anchor c) by now apply trusted_signed with t.
  destruct (IH c (S i) Hl Hc Hmc Hv) as (Hall & Htv & Hmv). split_and!; [now constructor | easy | easy].
Qed.

(** *** The storage *)

Lemma anchor_add_trusted c m :
  anchor c -> anchors_trusted m -> anchors_trusted (anchor_add c m).1.
Proof.
  intros Hc Hm. unfold anchor_add. destruct (CertificateV2_copy c) as [c' |] eqn:He; [| easy].
  apply copy_same in He as ->. unfold anchors_trusted in *. rewrite Forall_forall in *.
  intros e He. apply map_set_in in He as [-> | He]; [easy | now apply Hm].
Qed.

Lemma erase_trusted names m : anchors_trusted m -> anchors_trusted (fold_left map_erase names m).
Proof.
  revert m. induction names as [| n names IH]; intros m Hm; cbn; [easy |]. apply IH.
  unfold anchors_trusted in *. rewrite Forall_forall in *. intros e He%map_erase_in. now apply Hm.
Qed.

Lemma static_add_trusted now c names m :
  anchor c -> anchors_trusted m -> anchors_trusted (static_add now c names m).1.2.
Proof.
  intros Hc Hm. unfold static_add. destruct (names_count _ _); [easy |].
  destruct (cert_isValid c now) as [[|] |]; [| easy | easy].
  pose proof (anchor_add_trusted c m Hc Hm). now destruct (anchor_add c m) as [m' r].
Qed.

Lemma load_files_trusted fs now l s :
  (forall path c, readCertificate fs path = Some c -> anchor c) ->
  anchors_trusted s.1.2 -> anchors_trusted (load_files fs now l s).1.1.2.
Proof.
  intros Hf. revert s. induction l as [| file l IH]; intros [[names m] old] Hm; cbn [load_files]; [easy |].
  assert (Hone : anchors_trusted (loadCertificate fs now file (names, m, old)).1.1.2).
  { unfold loadCertificate. destruct (readCertificate fs file) as [c |] eqn:Hr; [| easy].
    destruct (cert_isValid c now) as [[|] |]; [| easy | easy]. destruct (names_count _ _); cbn [negb]; [easy |].
    pose proof (anchor_add_trusted c m (Hf _ _ Hr) Hm). now destruct (anchor_add c m) as [m' r]. }
  destruct (loadCertificate _ _ _ _) as [s r]. destruct r; [now apply IH | easy].
Qed.

Lemma group_refresh_trusted fs now group m :
  (forall path c, readCertificate fs path = Some c -> anchor c) ->
  anchors_trusted m -> anchors_trusted (group_refresh fs now group m).1.2.
Proof.
  intros Hf Hm. destruct group as [names | names isDir path period expire]; cbn [group_refresh]; [easy |].
  destruct (expire >? now); [easy |].
  match goal with |- context [load_files fs now ?l ?s] => pose proof (load_files_trusted fs now l s Hf Hm) end.
  destruct (load_files _ _ _ _) as [[[names' m'] old] r]. cbn in *. destruct r; [now apply erase_trusted | easy].
Qed.

Lemma anchors_refresh_trusted fs now t :
  (forall path c, readCertificate fs path = Some c -> anchor c) ->
  anchors_trusted (anchorsByName_ t) -> anchors_trusted (anchorsByName_ (anchors_refresh fs now t).1).
Proof.
  intros Hf. unfold anchors_refresh. destruct t as [groups m]. cbn [groups_ anchorsByName_].
  revert m. induction groups as [| [id group] groups IH]; intros m Hm; cbn [refresh_groups]; [easy |].
  pose proof (group_refresh_trusted fs now group m Hf Hm) as Hg.
  destruct (group_refresh _ _ _ _) as [[group' m'] r]. cbn in Hg. destruct r; [| easy].
  specialize (IH m' Hg). now destruct (refresh_groups fs now groups m') as [[groups' m2] r].
Qed.

Lemma refresh_in now c e :
  e ∈ certificatesByName_ (certificate_refresh now c) -> e ∈ certificatesByName_ c.
Proof.
  unfold certificate_refresh, cache_refresh. destruct (_ <? _); cbn; [easy |].
  generalize (refresh_names (now + nowOffset_ c) (certificatesByName_ c)) as names.
  generalize (certificatesByName_ c) as m. intros m names. revert m.
  induction names as [| n names IH]; intros m He; [easy |]. cbn in He. now apply IH, map_erase_in in He.
Qed.

Abbreviation good m R := (guards (world_ok any) call_sound m R).

Lemma guards_on_storage {A} J (m : Act CertificateStorage VCall A) (R : A -> Prop) :
  (forall s, storage_trusted s -> storage_trusted (state_of (m s)) /\ calls_of (m s) = [] /\
     forall a, result_of (m s) = Ok a -> R a) ->
  guards (world_ok J) call_sound (on_storage m) R.
Proof.
  intros Hm w [Hs Hb]. destruct (Hm _ Hs) as (Hi & Hq & Hr). unfold on_storage, state_of, calls_of, result_of in *.
  destruct (m (w_storage w)) as [[s calls] r]. cbn in *. subst calls. now split_and!.
Qed.

(** An operation on the storage, from what is known of it in a world. *)
Definition plain_world (s : CertificateStorage) : World :=
  mkWorld _ s (mkConfigState _ false false (dataRules_ config) (interestRules_ config))
    (fun _ => mkCommandInterestState 0 0 0 [] 0).

Lemma guards_storage {A} (m : Act CertificateStorage VCall A) (R : A -> Prop) s :
  good (on_storage m) R -> storage_trusted s -> storage_trusted (state_of (m s)).
Proof.
  intros Hm Hs. destruct (Hm (plain_world s)) as ((Hs' & _) & _).
  - split; [easy |]. split; [split; [easy | intros [|]; constructor] |]. split; [intros n; constructor | easy].
  - unfold on_storage, state_of in *. cbn in Hs'. now destruct (m s) as [[s' calls] r].
Qed.

(** A trusted certificate is found, and matches the Interest. *)
Lemma guards_findTrusted env interest :
  env_ok env ->
  good (on_storage (findTrustedCertificate (files env) (now env) interest))
    (fun found => forall c, found = Some c -> Trusted anchor c /\ packet_matches interest (cert_data c) = Ok true).
Proof.
  intros [Hf _]. apply guards_on_storage. intros s [Ha Hv]. unfold findTrustedCertificate, on_anchors, anchors_find.
  unfold mbind at 1 2 3, Act_bind.
  pose proof (anchors_refresh_trusted (files env) (now env) (trustAnchors_ s) Hf Ha) as Ha'.
  destruct (anchors_refresh (files env) (now env) (trustAnchors_ s)) as [t r]. cbn in Ha'.
  destruct r as [_ | e]; cbn; [| split_and!; [easy | easy | easy]].
  destruct (find_matching id interest _) as [[c |] | e] eqn:Hfind; cbn; [| | split_and!; [easy | easy | easy]].
  - split_and!; [split; easy | easy |]. intros a [= <-] c' [= <-].
    apply find_matching_some in Hfind as (e & He & <- & _ & Hm). apply lower_bound_in in He.
    unfold anchors_trusted in Ha'. rewrite Forall_forall in Ha'. split; [now apply trusted_anchor, Ha' | easy].
  - split_and!.
    + split; [easy |]. cbn. rewrite Forall_forall in *. intros e He%refresh_in. now apply Hv.
    + easy.
    + intros a Hr c ->. unfold result_of in Hr. cbn in Hr.
      apply find_matching_some in Hr as (e & He & <- & _ & Hm). apply lower_bound_in, refresh_in in He.
      rewrite Forall_forall in Hv. split; [now apply Hv | easy].
Qed.

Lemma insert_in now c cache e :
  e ∈ certificatesByName_ (certificate_insert now c cache).1 ->
  e ∈ certificatesByName_ cache \/ entry_value e.2 = c.
Proof.
  unfold certificate_insert. destruct (_ ≫= _); [| now left]. destruct (_ <? _); [now left |].
  destruct (CertificateV2_copy c) as [c' |] eqn:Hc; [| now left]. apply copy_same in Hc as ->.
  cbn. intros [He | He]%map_set_in; [right; now rewrite He | now left].
Qed.

(** An operation that leaves the anchors and the verified cache as they are. *)
Definition leaves_trust {A} (m : Act CertificateStorage VCall A) : Prop :=
  forall s, trustAnchors_ (state_of (m s)) = trustAnchors_ s /\
    verifiedCertificateCache_ (state_of (m s)) = verifiedCertificateCache_ s /\ calls_of (m s) = [].

Lemma guards_leaves {A} (m : Act CertificateStorage VCall A) : leaves_trust m -> good (on_storage m) (fun _ => True).
Proof.
  intros Hm. apply guards_on_storage. intros s [Ha Hv]. destruct (Hm s) as (Ht & Hc & Hq).
  split_and!; [| easy | easy]. unfold storage_trusted. now rewrite Ht, Hc.
Qed.

Lemma leaves_revocation now c : leaves_trust (revocation_of now c).
Proof.
  intros s. unfold revocation_of, findRevokedCertificate, mbind, Act_bind, returns, on_crls, state_of, calls_of.
  destruct (getIssuerName c) as [issuer | e]; [| easy].
  destruct (zlen (getX509SerialNumber c) =? 0); [easy |]. now destruct (crl_find now issuer (verifiedCrlCache_ s)) as [crls r].
Qed.

Lemma leaves_unverified {A} (f : CertificateCacheV2 -> CertificateCacheV2 * result exn A) :
  leaves_trust (on_unverified f).
Proof. intros s. unfold on_unverified, state_of, calls_of. now destruct (f _) as [c r]. Qed.

Lemma guards_cacheVerified now c :
  Trusted anchor c -> good (on_storage (cacheVerifiedCertificate now c)) (fun _ => True).
Proof.
  intros Hc. apply guards_on_storage. intros s Hs. unfold cacheVerifiedCertificate.
  pose proof (leaves_revocation now c s) as (Ht & Hv & Hq).
  unfold mbind, Act_bind, state_of, calls_of, result_of in *. destruct (revocation_of now c s) as [[s1 calls] r].
  cbn in *. subst calls. assert (Hs1 : storage_trusted s1) by (unfold storage_trusted; now rewrite Ht, Hv).
  destruct r as [[revoked |] | e]; [easy | | easy]. unfold on_verified.
  pose proof (insert_in now c (verifiedCertificateCache_ s1)) as Hin.
  destruct (certificate_insert now c (verifiedCertificateCache_ s1)) as [cache r]. cbn in Hin.
  assert (Hs2 : storage_trusted (mkCertificateStorage (trustAnchors_ s1) cache (unverifiedCertificateCache_ s1) (verifiedCrlCache_ s1))).
  { destruct Hs1 as [Ha Hf]. split; [easy |]. cbn. rewrite Forall_forall in *.
    intros e [He | He]%Hin; [now apply Hf | now rewrite He]. }
  now destruct r.
Qed.

Lemma guards_cache_chain now chain :
  Forall (Trusted anchor) chain -> good (on_storage (cache_chain now chain)) (fun _ => True).
Proof.
  intros Hall. apply guards_on_storage. revert Hall.
  induction chain as [| c chain IH]; intros Hall s Hs; cbn [cache_chain]; [easy |].
  apply Forall_cons in Hall as [Hc Hall].
  pose proof (guards_storage _ _ s (guards_cacheVerified now c Hc) Hs) as Hs1.
  assert (Hnone : calls_of (cacheVerifiedCertificate (E := VCall) now c s) = []).
  { unfold cacheVerifiedCertificate, mbind, Act_bind, on_verified, calls_of.
    pose proof (leaves_revocation now c s) as (_ & _ & Hq'). unfold calls_of in Hq'.
    destruct (revocation_of now c s) as [[s1 calls] [[r |] | e]]; cbn in *; subst calls; try easy.
    now destruct (certificate_insert _ _ _) as [cache [u | e]]. }
  unfold mbind, Act_bind, state_of, calls_of, result_of in *.
  destruct (cacheVerifiedCertificate now c s) as [[s1 calls] r]. cbn in *. subst calls.
  destruct r as [[|] | e]; cbn; [| easy | easy]. specialize (IH Hall s1 Hs1).
  now destruct (cache_chain now chain s1) as [[s2 calls2] r2].
Qed.

Lemma guards_resetAnchors J : guards (world_ok J) call_sound (on_storage resetAnchors) (fun _ => True).
Proof.
  apply guards_on_storage. intros s [Ha Hv]. split_and!; [| easy | easy]. split; [constructor | easy].
Qed.

Lemma guards_loadAnchor J now id c :
  anchor c -> guards (world_ok J) call_sound (on_storage (loadAnchor now id c)) (fun _ => True).
Proof.
  intros Hc. apply guards_on_storage. intros s [Ha Hv].
  assert (Ht : anchors_trusted (anchorsByName_ (anchors_insert now id c (trustAnchors_ s)).1)).
  { unfold anchors_insert. destruct (match group_find _ _ with Some _ => _ | None => _ end) as [names | names isDir path period expire];
      [| easy].
    pose proof (static_add_trusted now c names _ Hc Ha). now destruct (static_add now c names _) as [[names' m] r]. }
  unfold loadAnchor, on_anchors, state_of, calls_of. destruct (anchors_insert _ _ _ _) as [t r]. cbn in *.
  split_and!; [split; easy | easy | easy].
Qed.

(** *** The state of a validation *)

Definition failed (st : ValidationState) : Prop := outcome_ st = Some false.

Lemma guards_fail code st : outcome_ st = None -> good (fail code st) (fun st' => outcome_ st' = Some false).
Proof.
  intros Ho. eapply guards_bind; [now apply guards_perform | intros _ _]. unfold setOutcome. rewrite Ho.
  now apply guards_ret.
Qed.

Lemma guards_refuse code st : outcome_ st = None -> good (refuse code st) (fun _ => True).
Proof. intros Ho. eapply guards_bind; [now apply guards_fail | intros st' _; now apply guards_ret]. Qed.

Lemma guards_command_update (J : (nat -> CommandInterestState) -> Prop) number f :
  (forall c, records_unique c -> records_unique (f c)) ->
  (forall cs, J cs -> J (fun n => if (n =? number)%nat then f (cs n) else cs n)) ->
  guards (world_ok J) call_sound (command_update number f) (fun _ => True).
Proof.
  intros Hf HJ. apply guards_modify. intros w (Hs & Hc & Hu & Hj). split; [easy |]. split; [easy |].
  split; [| now apply HJ]. intros n. cbn. destruct (n =? number)%nat; [apply Hf |]; apply Hu.
Qed.

Lemma guards_call_success env st :
  sound (original_ st) -> good (call_success env st) (fun _ => True).
Proof.
  intros Hs. eapply guards_bind; [now apply guards_perform | intros _ _].
  apply guards_for_each. intros r. apply guards_command_update; [apply insertNewRecord_unique | easy].
Qed.

Lemma guards_succeed env st :
  sound (original_ st) -> outcome_ st = None ->
  good (_ ← call_success env st; setOutcome true st) (fun _ => True).
Proof.
  intros Hs Ho. eapply guards_bind; [now apply guards_call_success | intros _ _].
  unfold setOutcome. rewrite Ho. now apply guards_ret.
Qed.

Lemma guards_verifyOriginal env c st :
  outcome_ st = None -> Trusted anchor c -> may_sign (original_ st) c ->
  good (verifyOriginalPacket env c st) (fun _ => True).
Proof.
  intros Ho Hc Hm. assert (Hsound : signed_by (original_ st) c -> sound (original_ st)) by (intros Hs; now exists c).
  unfold verifyOriginalPacket. destruct (original_ st) as [data | certificate | interest] eqn:Hp.
  - eapply guards_bind; [now apply guards_returns with (R := fun v => verifyDataSignature (packet_signed data) c = Ok v) |].
    intros [|] Hv; [| eapply guards_weaken; [now apply guards_fail | easy]]. apply guards_succeed; [rewrite Hp; now apply Hsound | easy].
  - eapply guards_bind; [now apply guards_returns with (R := fun v => verifyDataSignature (certificate_signed certificate) c = Ok v) |].
    intros [|] Hv; [| eapply guards_weaken; [now apply guards_fail | easy]].
    eapply guards_bind; [apply guards_leaves, leaves_revocation | intros [revoked |] _].
    + eapply guards_weaken; [now apply guards_fail | easy].
    + apply guards_succeed; [rewrite Hp; now apply Hsound | easy].
  - eapply guards_bind; [now apply guards_returns with (R := fun v => verifyInterestSignature (random env) interest c = Ok v) |].
    intros [|] Hv; [| eapply guards_weaken; [now apply guards_fail | easy]].
    apply guards_succeed; [rewrite Hp; apply Hsound; now exists (random env) | easy].
Qed.

Lemma guards_use_trusted env c st :
  state_ok st -> Trusted anchor c -> may_sign (current (original_ st) (certificateChain_ st)) c ->
  good (use_trusted env c st) (fun _ => True).
Proof.
  intros [Ho Hl] Hc Hm. unfold use_trusted, verifyCertificateChain.
  eapply guards_bind with (R := fun x => match x with
    | (Some v, st') => st' = st /\ Forall (Trusted anchor) (certificateChain_ st) /\ Trusted anchor v /\ may_sign (original_ st) v
    | (None, _) => True end).
  - eapply guards_bind; [now apply guards_returns with (R := fun r => verify_chain 0 c (certificateChain_ st) = Ok r) |].
    intros [v | i] Hv.
    + apply guards_ret. split; [easy |]. now apply (verify_chain_trusted _ _ _ _ _ Hl Hc Hm Hv).
    + eapply guards_bind; [now apply guards_fail | intros st' _; now apply guards_ret].
  - intros [[v |] st'] Hx; [| now apply guards_ret]. destruct Hx as (-> & Hall & Hv & Hmv).
    eapply guards_bind; [now apply guards_cache_chain | intros cached _].
    destruct cached; cbn [negb]; [| now apply guards_refuse].
    eapply guards_bind; [now apply guards_verifyOriginal | intros _ _; now apply guards_ret].
Qed.

(** *** Policies *)

(** An operation that policies end with, from a world with [J]. *)
Abbreviation fine J m := (leads (world_ok any) call_sound (world_ok J) m).

Lemma world_any J w : world_ok J w -> world_ok any w.
Proof. now intros (Hs & Hc & Hu & _). Qed.

#[local] Hint Resolve world_any : core.

Lemma fine_good {A} J (m : Act World VCall A) R : good m R -> fine J m.
Proof. apply leads_guards. eauto. Qed.

Lemma fine_refuse J code st : outcome_ st = None -> fine J (refuse code st).
Proof. intros Ho. eapply fine_good. now apply guards_refuse. Qed.

Lemma fine_bind {A B} J (m : Act World VCall A) (f : A -> Act World VCall B) R :
  guards (world_ok J) call_sound m R -> (forall a, R a -> fine J (f a)) -> fine J (m ≫= f).
Proof. apply leads_bind. eauto. Qed.

Lemma fine_with_key J p st (k : Name -> ValidationState -> Act World VCall unit) :
  outcome_ st = None ->
  (forall keyName, key_locator_of p = Some keyName -> fine J (k keyName st)) ->
  fine J ('(keyName, st) ← getKeyLocatorName p st; if isOutcomeFailed st then mret tt else k keyName st).
Proof.
  intros Ho Hk w Hw. unfold mbind, Act_bind, state_of, calls_of.
  rewrite getKeyLocatorName_result by easy.
  unfold key_result. destruct (key_locator_of p) as [keyName |].
  - unfold isOutcomeFailed. rewrite Ho, bool_decide_false by easy. cbn. specialize (Hk keyName eq_refl w Hw).
    unfold state_of, calls_of in Hk. destruct (k keyName st w) as [[w' calls] r]. exact Hk.
  - cbn. split; [eauto | now repeat constructor].
Qed.

Lemma addSuccessCallback_ok r st : state_ok st -> state_ok (addSuccessCallback r st).
Proof. now intros [Ho Hl]. Qed.

(** The result of the rules is that of a use of the configured ones. *)
Lemma guards_config_rules J isForInterest packetName keyName :
  guards (world_ok J) call_sound (config_rules isForInterest packetName keyName) (fun result =>
    result = Passed ->
    exists rules, used_rules isForInterest (configured_rules isForInterest config) rules /\
      rules_pass rules isForInterest packetName keyName).
Proof.
  unfold config_rules. apply guards_get. intros w (_ & [Hb Hused] & _). cbv beta zeta.
  specialize (Hused isForInterest) as Hu. fold (configured_rules isForInterest (w_config w)).
  pose proof (used_check _ _ _ packetName keyName Hu) as Hafter.
  pose proof (check_rules_passed (configured_rules isForInterest (w_config w)) isForInterest packetName keyName) as Hpass.
  destruct (check_rules _ _ _ _) as [rules r]. cbn [fst snd] in *.
  eapply guards_bind; [apply guards_modify | intros _ _].
  - intros w' (Hs & _ & Hc & Hj). split; [easy |]. split; [| easy]. split; [exact Hb |]. intros [|]; cbn.
    + destruct isForInterest; [exact Hafter | exact (Hused true)].
    + destruct isForInterest; [exact (Hused false) | exact Hafter].
  - apply guards_returns. intros result -> ->. exists (configured_rules isForInterest (w_config w)). split; [easy | now apply Hpass].
Qed.

(** The records of commands since the start of an event: they may have been cleaned up. *)
Definition since (env : Env) (w : World) (commands : nat -> CommandInterestState) : Prop :=
  forall n, commands n = w_commands w n \/ commands n = cleanUp env (w_commands w n).

Lemma since_cleanUp env w number commands :
  since env w commands -> since env w (fun n => if (n =? number)%nat then cleanUp env (commands n) else commands n).
Proof.
  intros Hs n. destruct (n =? number)%nat; [| apply Hs]. right. destruct (Hs n) as [-> | ->]; [easy | apply cleanUp_again].
Qed.

Lemma fine_checkPolicy (J : (nat -> CommandInterestState) -> Prop) env w0 policy p head st k :
  env_ok env -> moment env w0 -> commands_ok (w_commands w0) ->
  (is_interest p = true -> forall commands, J commands -> since env w0 commands) ->
  (forall number commands, J commands ->
     J (fun n => if (n =? number)%nat then cleanUp env (commands n) else commands n)) ->
  checks_signatures policy -> state_ok st -> current (original_ st) (certificateChain_ st) = head ->
  (forall st keyName, state_ok st -> current (original_ st) (certificateChain_ st) = head ->
     key_locator_of p = Some keyName -> policy_allows policy p keyName ->
     good (k (Some (request_for settings keyName)) st) (fun _ => True)) ->
  fine J (checkPolicy env settings policy p st k).
Proof.
  intros He Hmoment Hunique Hsince Hclean. revert st k.
  induction policy as [| | | hasInner | number inner IH]; intros st k Hp Hst Hcur Hk; cbn [checkPolicy].
  - easy.
  - apply fine_with_key; [apply Hst |]. intros keyName Hkey.
    destruct (name_match _ _) eqn:Hm; [eapply fine_good; now apply Hk | apply fine_refuse, Hst].
  - apply fine_with_key; [apply Hst |]. intros keyName Hkey. unfold pib_check.
    destruct (_ ≫= _) as [certificate | e] eqn:Hpib; [| apply fine_refuse, Hst].
    apply bind_ok in Hpib as (identity & Hid & Hpib). destruct He as [_ Hanchor].
    eapply fine_bind; [apply guards_resetAnchors | intros _ _].
    eapply fine_bind; [now apply guards_loadAnchor, (Hanchor identity keyName) | intros _ _].
    eapply fine_good, guards_bind; [| intros _ _; apply guards_resetAnchors].
    apply Hk; try easy. now exists env, w0, identity, certificate.
  - unfold config_check. destruct hasInner; [eapply fine_good; now apply guards_returns with (R := fun _ => True) |].
    apply leads_get. intros w (_ & [Hb _] & _). rewrite Hb. apply fine_with_key; [apply Hst |]. intros keyName Hkey.
    eapply fine_bind; [apply guards_config_rules | intros [| |] Hresult].
    + eapply fine_good. apply Hk; try easy. split; [easy | now apply Hresult].
    + apply fine_refuse, Hst.
    + eapply fine_good. now apply guards_ret with (R := fun _ => True).
  - unfold command_check. destruct (is_interest p) eqn:Hi; cbn [negb].
    2: { apply IH; try easy. intros st' keyName Hst' Hcur' Hkey Ha. apply Hk; try easy. split; [now rewrite Hi | easy]. }
    destruct (_ <? MINIMUM_SIZE); [apply fine_refuse, Hst |].
    eapply fine_bind; [now apply guards_returns with (R := fun c => name_get (packet_name_of p) (-4) = Ok c) | intros component Hcomp].
    eapply fine_bind; [apply guards_returns with (R := fun t => t = toNumber component * 1000000) | intros timestamp ->].
    { intros timestamp. unfold fromMilliseconds. destruct (_ && _); congruence. }
    apply fine_with_key; [apply Hst |]. intros keyName Hkey.
    eapply fine_bind; [apply guards_command_update; [apply cleanUp_unique | apply Hclean] | intros _ _].
    apply leads_get. intros w (_ & _ & _ & Hj).
    destruct (timestamp_ok _ _ _ _) eqn:Hok; cbn [negb]; [| apply fine_refuse, Hst].
    apply IH; [easy | now apply addSuccessCallback_ok | easy |].
    intros st' keyName' Hst' Hcur' Hkey' Ha. apply Hk; try easy. split; [| easy]. intros _.
    rewrite Hkey in Hkey'. injection Hkey' as <-. exists env, w0, component. split; [easy |]. split; [easy |].
    apply (timestamp_ok_fresh env _ (w_commands w number)); [apply Hunique | now apply Hsince | exact Hok].
Qed.

(** A certificate is not a command, so nothing need be known of the records. *)
Lemma guards_checkCertificatePolicy env w0 c head st k :
  env_ok env -> moment env w0 -> commands_ok (w_commands w0) ->
  checks_signatures (policy_ settings) -> state_ok st -> current (original_ st) (certificateChain_ st) = head ->
  (forall st keyName, state_ok st -> current (original_ st) (certificateChain_ st) = head ->
     key_locator_of (PCertificate c) = Some keyName -> policy_allows (policy_ settings) (PCertificate c) keyName ->
     good (k (Some (request_for settings keyName)) st) (fun _ => True)) ->
  good (checkPolicy env settings (policy_ settings) (PCertificate c) st k) (fun _ => True).
Proof.
  intros He Hm Hu Hp Hst Hcur Hk w Hw.
  destruct (fine_checkPolicy any env w0 (policy_ settings) (PCertificate c) head st k) with (s := w); try easy.
Qed.

(** *** The validator *)

Lemma guards_continueFetch env times c : good (continueFetch env times c) (fun _ => True).
Proof.
  induction times as [| times IH]; cbn [continueFetch]; [now apply guards_ret |].
  eapply guards_bind; [apply guards_leaves, leaves_unverified | intros _ _; exact IH].
Qed.

Definition chain_head (st : ValidationState) : SignedPacket := current (original_ st) (certificateChain_ st).

(** The continuation of a fetch is called with a certificate that may sign. *)
Lemma guards_fetch env f k :
  fetch_ok f ->
  (forall c st, state_ok st -> may_sign (chain_head st) c -> good (k c st) (fun _ => True)) ->
  good (fetch env settings f k) (fun _ => True).
Proof.
  intros [Hst Hr] Hk. unfold fetch.
  eapply guards_bind with (R := fun found => forall c, found = Some c ->
    packet_matches (request_interest (fetch_request f)) (cert_data c) = Ok true).
  - apply guards_on_storage. intros s Hs.
    destruct (leaves_unverified (certificate_find (now env) (request_interest (fetch_request f))) s) as (Ht & Hv & Hq).
    split_and!; [unfold storage_trusted; now rewrite Ht, Hv | easy |]. intros found Hf c ->.
    unfold on_unverified, certificate_find, result_of in Hf. cbn in Hf.
    now apply find_matching_some in Hf as (e & _ & <- & _ & Hm).
  - intros [c |] Hfound.
    + eapply guards_bind; [apply guards_continueFetch | intros _ _]. apply Hk; [easy |].
      exists (request_interest (fetch_request f)). split; [exact Hr | now apply Hfound].
    + unfold doFetch. destruct (fetcher_ settings); [apply guards_refuse, Hst | now apply guards_perform].
Qed.

Lemma guards_addCertificate c st (k : ValidationState -> Act World VCall unit) :
  state_ok st -> may_sign (chain_head st) c -> (exists env w, moment env w /\ valid_at env c) ->
  (forall st', state_ok st' -> chain_head st' = PCertificate c -> good (k st') (fun _ => True)) ->
  good (st ← returns (addCertificate c st); k st) (fun _ => True).
Proof.
  intros [Ho Hl] Hm Hv Hk.
  eapply guards_bind with (R := fun st' => state_ok st' /\ chain_head st' = PCertificate c).
  - apply guards_returns. intros st' (c' & ->%copy_same & Hst')%bind_ok. now injection Hst' as <-.
  - intros st' [H1 H2]. now apply Hk.
Qed.

Lemma seen_ok name st : state_ok st -> let '(_, st') := hasSeenCertificateName name st in state_ok st' /\ chain_head st' = chain_head st.
Proof. intros [Ho Hl]. unfold hasSeenCertificateName. now destruct (map_find _ _). Qed.

(** An event, with the objects before it. *)
Definition event_at (env : Env) (w0 : World) : Prop :=
  env_ok env /\ moment env w0 /\ commands_ok (w_commands w0).

Lemma guards_requestCertificate fuel env w0 request st :
  event_at env w0 -> checks_signatures (policy_ settings) -> state_ok st ->
  request_ok (chain_head st) (request_interest request) ->
  good (requestCertificate fuel env settings request st) (fun _ => True).
Proof.
  intros (He & Hmo & Hu) Hp. revert request st. induction fuel as [| fuel IH]; intros request st Hst Hr; cbn [requestCertificate];
    [apply guards_throw |].
  destruct (_ >=? _); [apply guards_refuse, Hst |].
  pose proof (seen_ok (interest_name (request_interest request)) st Hst) as Hseen.
  destruct (hasSeenCertificateName _ st) as [seen st']. destruct Hseen as [Hst' Hhead]. rewrite <- Hhead in Hr.
  destruct seen; [apply guards_refuse, Hst' |].
  eapply guards_bind; [now apply guards_findTrusted | intros [c |] Hfound].
  - destruct (Hfound c eq_refl) as [Hc Hm]. apply guards_use_trusted; [easy | easy |].
    exists (request_interest request). now split.
  - apply guards_fetch; [now split |]. intros c st2 Hst2 Hm2.
    eapply guards_bind; [now apply guards_returns with (R := fun v => cert_isValid c (now env) = Ok v) | intros [|] Hv];
      cbn [negb]; [| apply guards_refuse, Hst2].
    apply (guards_checkCertificatePolicy env w0) with (head := chain_head st2); [easy .. |].
    intros st3 keyName Hst3 Hhead3 Hkey Hallow.
    apply guards_addCertificate; [easy | | exists env, w0; split; [easy | now apply isValid_at] |].
    { unfold chain_head at 1. now rewrite Hhead3. }
    intros st4 Hst4 Hhead4. apply IH; [easy | rewrite Hhead4; now exists keyName].
Qed.

(** A certificate that came with a fetch. *)
Lemma guards_validateCertificate env w0 c st :
  event_at env w0 -> checks_signatures (policy_ settings) -> state_ok st -> may_sign (chain_head st) c ->
  good (validateCertificate env settings c st) (fun _ => True).
Proof.
  intros He Hp Hst Hm. pose proof He as (Henv & Hmo & Hu). unfold validateCertificate.
  eapply guards_bind; [now apply guards_returns with (R := fun v => cert_isValid c (now env) = Ok v) | intros [|] Hv];
    cbn [negb]; [| apply guards_refuse, Hst].
  apply (guards_checkCertificatePolicy env w0) with (head := chain_head st); [easy .. |].
  intros st' keyName Hst' Hhead Hkey Hallow.
  apply guards_addCertificate; [easy | | exists env, w0; split; [easy | now apply isValid_at] |].
  { unfold chain_head at 1. now rewrite Hhead. }
  intros st2 Hst2 Hhead2. apply (guards_requestCertificate _ env w0); [easy | easy | easy | rewrite Hhead2; now exists keyName].
Qed.

(** A packet of the application: the event starts in [w0]. *)
Lemma fine_validate env w0 id p :
  event_at env w0 -> checks_signatures (policy_ settings) ->
  fine (since env w0) (validate env settings id p).
Proof.
  intros He Hp. pose proof He as (Henv & Hmo & Hu). unfold validate.
  eapply fine_bind; [now apply guards_returns with (R := fun _ => True) | intros p' _].
  apply (fine_checkPolicy _ env w0) with (head := p'); [easy .. | apply since_cleanUp | easy | now split | easy |].
  intros st keyName Hst Hhead Hkey Hallow. apply (guards_requestCertificate _ env w0); [easy | easy | easy |].
  unfold chain_head. rewrite Hhead. now exists keyName.
Qed.

Lemma guards_onData env w0 data f :
  event_at env w0 -> checks_signatures (policy_ settings) -> fetch_ok f ->
  packet_matches (request_interest (fetch_request f)) data = Ok true ->
  good (fetcher_onData env settings data f) (fun _ => True).
Proof.
  intros He Hp [Hst Hr] Hm. unfold fetcher_onData. destruct (CertificateV2_of_data data) as [c | e] eqn:Hc.
  - eapply guards_bind; [apply guards_continueFetch | intros _ _]. apply (guards_validateCertificate env w0); [easy | easy | easy |].
    exists (request_interest (fetch_request f)). split; [exact Hr |].
    unfold CertificateV2_of_data in Hc. apply bind_ok in Hc as (u & _ & Hc). now injection Hc as <-.
  - destruct e; first [apply guards_throw | apply guards_refuse, Hst].
Qed.

Lemma guards_onTimeout env w0 f :
  event_at env w0 -> checks_signatures (policy_ settings) -> fetch_ok f ->
  good (fetcher_onTimeout env settings f) (fun _ => True).
Proof.
  intros He Hp [Hst Hr]. unfold fetcher_onTimeout. cbv zeta. destruct (_ >=? 0); [| apply guards_refuse, Hst].
  apply guards_fetch; [now split |]. intros c st Hst' Hm. now apply (guards_validateCertificate env w0).
Qed.


(** *** Runs *)

(** A call of the application on the storage gives it only anchors, trusted certificates and lists. *)
Definition call_trusted (call : StorageCall) : Prop :=
  match call with
  | LoadAnchor _ c => anchor c
  | CacheVerified c => Trusted anchor c
  | _ => True
  end.

Lemma on_anchors_trusted {A} (f : TrustAnchorContainer -> TrustAnchorContainer * result exn A) s :
  storage_trusted s ->
  (anchors_trusted (anchorsByName_ (trustAnchors_ s)) -> anchors_trusted (anchorsByName_ (f (trustAnchors_ s)).1)) ->
  storage_trusted (state_of (on_anchors (E := VCall) f s)).
Proof. intros [Ha Hv] Hf. unfold on_anchors, state_of. specialize (Hf Ha). destruct (f _) as [t r]. now split. Qed.

Lemma on_verified_trusted {A} (f : CertificateCacheV2 -> CertificateCacheV2 * result exn A) s :
  storage_trusted s ->
  (forall e, e ∈ certificatesByName_ (f (verifiedCertificateCache_ s)).1 ->
     e ∈ certificatesByName_ (verifiedCertificateCache_ s)) ->
  storage_trusted (state_of (on_verified (E := VCall) f s)).
Proof.
  intros [Ha Hv] Hf. unfold on_verified, state_of. destruct (f _) as [c r]. split; [easy |].
  cbn in *. rewrite Forall_forall in *. auto.
Qed.

Lemma bind_trusted {A B} (m : Act CertificateStorage VCall A) (f : A -> Act CertificateStorage VCall B) :
  (forall s, storage_trusted s -> storage_trusted (state_of (m s))) ->
  (forall a s, storage_trusted s -> storage_trusted (state_of (f a s))) ->
  forall s, storage_trusted s -> storage_trusted (state_of ((m ≫= f) s)).
Proof. intros Hm Hf. apply (keeps_bind storage_trusted m f); [exact Hm | exact Hf]. Qed.

Lemma findTrusted_keeps fs now i s :
  (forall path c, readCertificate fs path = Some c -> anchor c) -> storage_trusted s ->
  storage_trusted (state_of (findTrustedCertificate (E := VCall) fs now i s)).
Proof.
  intros Hf. revert s. apply bind_trusted.
  - intros s Hs. apply on_anchors_trusted; [easy |]. intros Ha.
    pose proof (anchors_refresh_trusted fs now (trustAnchors_ s) Hf Ha). unfold anchors_find.
    now destruct (anchors_refresh fs now (trustAnchors_ s)) as [t r].
  - intros [c |] s Hs; [easy |]. apply on_verified_trusted; [easy |]. intros e. apply refresh_in.
Qed.

Lemma isKnown_keeps fs now p s :
  (forall path c, readCertificate fs path = Some c -> anchor c) -> storage_trusted s ->
  storage_trusted (state_of (isCertificateKnown (E := VCall) fs now p s)).
Proof.
  intros Hf. revert s. apply bind_trusted.
  - intros s Hs. apply on_anchors_trusted; [easy |]. intros Ha.
    pose proof (anchors_refresh_trusted fs now (trustAnchors_ s) Hf Ha). unfold anchors_find_prefix.
    now destruct (anchors_refresh fs now (trustAnchors_ s)) as [t r].
  - intros [c |] s Hs; [easy |]. revert s Hs. apply bind_trusted.
    + intros s Hs. apply on_verified_trusted; [easy |]. intros e. apply refresh_in.
    + intros [c |] s Hs; [easy |]. revert s Hs. apply bind_trusted; [| easy].
      intros s Hs. destruct (leaves_unverified (total (certificate_find_prefix now p)) s) as (Ht & Hv & _).
      unfold storage_trusted. now rewrite Ht, Hv.
Qed.

(** The lists only take certificates away. *)
Lemma cacheCrl_keeps now crl s :
  storage_trusted s -> storage_trusted (state_of (cacheVerifiedCrl (E := VCall) now crl s)).
Proof.
  assert (Hcrls : forall A (f : X509CrlCache -> X509CrlCache * A) s, storage_trusted s ->
    storage_trusted (state_of (on_crls (E := VCall) f s))).
  { intros A f s' Hs. unfold on_crls, state_of. now destruct (f _) as [c a]. }
  revert s. apply bind_trusted; [apply Hcrls |]. intros [|] s Hs; cbn [negb]; [| easy].
  revert s Hs. apply (keeps_get_bind storage_trusted). intros s Hs.
  generalize (map snd (certificatesByName_ (verifiedCertificateCache_ s))) as entries. intros entries. revert s Hs.
  apply bind_trusted.
  - induction entries as [| e entries IH]; cbn [revoked_names]; [easy |]. apply bind_trusted; [easy |].
    intros issuer s Hs. destruct (negb _); [now apply IH |]. revert s Hs. apply bind_trusted.
    + intros s Hs. destruct (leaves_revocation now (entry_value e) s) as (Ht & Hv & _).
      unfold storage_trusted. now rewrite Ht, Hv.
    + intros r. now apply bind_trusted.
  - intros names. apply (keeps_for_each storage_trusted). intros n s Hs. apply on_verified_trusted; [easy |].
    intros e. apply map_erase_in.
Qed.

Lemma run_call_trusted env call s :
  env_ok env -> call_trusted call -> storage_trusted s ->
  storage_trusted (run_call (E := VCall) (files env) (now env) call s).
Proof.
  intros [Hf _] Hc Hs.
  destruct call as [i | p | c | g c | g path period d | | | n sn | c | crl | o]; cbn [run_call].
  - now apply findTrusted_keeps.
  - now apply isKnown_keeps.
  - destruct (leaves_unverified (certificate_insert (now env) c) s) as (Ht & Hv & _). unfold storage_trusted.
    unfold cacheUnverifiedCertificate. now rewrite Ht, Hv.
  - exact (guards_storage _ _ s (guards_loadAnchor any (now env) g c Hc) Hs).
  - apply on_anchors_trusted; [easy |]. intros Ha. unfold anchors_insert_dynamic. destruct (group_find _ _); [easy |].
    destruct (_ <=? 0); [easy |].
    pose proof (group_refresh_trusted (files env) (now env) (DynamicTrustAnchorGroup [] d path period 0) _ Hf Ha).
    destruct (group_refresh _ _ _ _) as [[g' m] r]. now destruct r.
  - apply on_anchors_trusted; [easy |]. intros _. constructor.
  - apply on_verified_trusted; [easy |]. intros e He. now apply elem_of_nil in He.
  - destruct Hs as [Ha Hv]. unfold findRevokedCertificate. destruct (zlen sn =? 0); [easy |].
    unfold mbind, Act_bind, on_crls, state_of. now destruct (crl_find (now env) n (verifiedCrlCache_ s)) as [crls r].
  - exact (guards_storage _ _ s (guards_cacheVerified (now env) c Hc) Hs).
  - now apply cacheCrl_keeps.
  - revert s Hs. apply bind_trusted; [now intros s Hs; apply on_verified_trusted |]. intros _ s Hs.
    destruct (leaves_unverified (fun c => (setNowOffset_ o c, Ok tt)) s) as (Ht & Hv & _).
    unfold storage_trusted. now rewrite Ht, Hv.
Qed.

(** The event may happen: a Data packet answers an Interest only if it matches it. *)
Definition event_ok (s : System) (event : Event) : Prop :=
  match event with
  | DataArrived i data =>
      forall f, s_pending s !! i = Some f -> packet_matches (request_interest (fetch_request f)) data = Ok true
  | _ => True
  end.

Definition with_storage (f : CertificateStorage -> CertificateStorage) (s : System) : System :=
  mkSystem (mkWorld _ (f (w_storage (s_world s))) (w_config (s_world s)) (w_commands (s_world s)))
    (s_pending s) (s_next s).

Lemma handler_good env event s :
  event_at env (s_world s) -> event_ok s event -> checks_signatures (policy_ settings) ->
  Forall fetch_ok (s_pending s) -> world_ok any (s_world s) ->
  world_ok any (state_of (handler env settings event s (s_world s))) /\
  Forall call_sound (calls_of (handler env settings event s (s_world s))).
Proof.
  intros He Hev Hp Hf Hw. rewrite Forall_forall in Hf.
  assert (Hgood : forall m : Act World VCall unit, good m (fun _ => True) ->
    world_ok any (state_of (m (s_world s))) /\ Forall call_sound (calls_of (m (s_world s))))
    by (intros m Hm; destruct (Hm (s_world s) Hw) as (? & ? & _); now split).
  destruct event as [p | i data | i]; cbn [handler].
  - apply (fine_validate env (s_world s) (s_next s) p He Hp). destruct Hw as (Hs & Hc & Hu & _).
    split; [easy |]. split; [easy |]. split; [easy |]. intros n. now left.
  - destruct (s_pending s !! i) as [f |] eqn:Hi; [| apply Hgood; now apply guards_ret].
    apply Hgood, (guards_onData env (s_world s)); [easy | easy | apply Hf; now apply list_elem_of_lookup_2 in Hi | now apply Hev].
  - destruct (s_pending s !! i) as [f |] eqn:Hi; [| apply Hgood; now apply guards_ret].
    apply Hgood, (guards_onTimeout env (s_world s)); [easy | easy | apply Hf; now apply list_elem_of_lookup_2 in Hi].
Qed.
End Trust.

(** *** Runs

    The systems that events and calls of the application make from an empty storage, with the calls made and
    the events: the time of each and the objects before it. *)

Definition at_event (events : list (Env * World)) (env : Env) (w : World) : Prop := (env, w) ∈ events.

Section Run.
Context (settings : Settings) (config : ConfigState) (anchor : Certificate -> Prop).

Inductive validation_run : System -> list VCall -> list (Env * World) -> Prop :=
| run_start commands :
    shouldBypass_ config = false -> (forall n, container_ (commands n) = []) ->
    validation_run (mkSystem (mkWorld _ CertificateStorage_new config commands) [] 0) [] []
| run_next env event s calls events :
    validation_run s calls events -> env_ok anchor env -> event_ok s event ->
    validation_run (run_event env settings event s).1.1 (calls ++ (run_event env settings event s).1.2)
      (events ++ [(env, s_world s)])
| run_storage env call s calls events :
    validation_run s calls events -> env_ok anchor env ->
    call_trusted settings config (at_event events) anchor call ->
    validation_run (with_storage (run_call (E := VCall) (files env) (now env) call) s) calls events.

(** What holds at some events holds at more events. *)
Section More.
Context (moment moment' : Env -> World -> Prop) (Hmore : forall env w, moment env w -> moment' env w).

Lemma allows_more policy p keyName :
  policy_allows config moment policy p keyName -> policy_allows config moment' policy p keyName.
Proof using Hmore.
  induction policy as [| | | | number inner IH]; cbn [policy_allows]; [easy | easy | | easy |].
  - intros (env & w & identity & c & Hm & Hc). exists env, w, identity, c. auto.
  - intros [Hcommand Hinner]. split; [| auto]. intros Hi. destruct (Hcommand Hi) as (env & w & c & Hm & Hc).
    exists env, w, c. auto.
Qed.

Lemma may_sign_more p c : may_sign settings config moment p c -> may_sign settings config moment' p c.
Proof using Hmore.
  intros (interest & (keyName & Hk & Ha & Hi) & Hm). exists interest. split; [| easy]. exists keyName.
  split; [easy |]. split; [now apply allows_more | easy].
Qed.

Lemma Trusted_more c : Trusted settings config moment anchor c -> Trusted settings config moment' anchor c.
Proof using Hmore.
  induction 1 as [c Hc | c issuer _ IH Hm Hs (env & w & He & Hv)]; [now apply trusted_anchor |].
  apply trusted_signed with issuer; [easy | now apply may_sign_more | easy |]. exists env, w. auto.
Qed.
End More.

Lemma run_good moment s calls events :
  checks_signatures (policy_ settings) -> validation_run s calls events ->
  (forall env w, at_event events env w -> moment env w) ->
  world_ok settings config moment anchor (fun _ => True) (s_world s) /\
  Forall (fetch_ok settings config moment) (s_pending s) /\
  Forall (call_sound settings config moment anchor) calls.
Proof.
  intros Hp Hr.
  induction Hr as [commands Hb Hempty | env event s calls events Hr IH He Hev | env call s calls events Hr IH He Hc]; intros Hmo.
  - split_and!; [| constructor | constructor]. split; [split; constructor |]. split; [split; [easy | intros; constructor] |].
    split; [| easy]. intros n. unfold records_unique. cbn. rewrite Hempty. constructor.
  - destruct IH as (Hw & Hf & Hcalls); [intros env' w' Hin; apply Hmo, elem_of_app; now left |].
    assert (Hat : event_at moment anchor env (s_world s)).
    { split; [easy |]. split; [apply Hmo, elem_of_app; right; constructor | apply Hw]. }
    destruct (handler_good settings config moment anchor env event s Hat Hev Hp Hf Hw) as (Hw' & Hq).
    unfold run_event, state_of, calls_of in *. destruct (handler _ _ _ _ _) as [[w calls'] r]. cbn in *.
    split_and!; [easy | | now apply Forall_app]. apply Forall_app. split.
    + destruct event; cbn; [easy | now apply Forall_delete | now apply Forall_delete].
    + apply Forall_forall. rewrite Forall_forall in Hq. intros f (call & Hin & Hx)%list_elem_of_omap.
      destruct call; try easy. injection Hx as ->. apply (Hq _ Hin).
  - destruct (IH Hmo) as ((Hs & Hrest) & Hf & Hcalls). split_and!; [split | easy | easy]; [| exact Hrest].
    apply run_call_trusted; [easy | | easy]. destruct call; try easy. cbn in *. now apply (Trusted_more (at_event events)).
Qed.
End Run.

(** C6: validation is sound. In every run of a validator whose policy checks signatures and whose configuration does
    not bypass them, a success callback for a packet means that the packet is signed under the key of a
    certificate that its key locator names and that is trusted: an anchor, or signed in the same way by
    a trusted certificate and, at the clock of an event of the run, within its validity period. For each of
    these signatures the policy allows the packet and the name in its key locator: the hierarchical policy that the
    name without its last two components is a prefix of the packet's; the policy of the PIB that the PIB has a certificate
    for the key at an event of the run; the configured policy that in the first rule that matches the packet all the
    checkers, at least one, pass; and the policy of command Interests, for an Interest, that its timestamp was, at an event
    of the run, within the grace period of the clock and later than those of the records of the key that are neither too old
    nor too many, besides what the inner policy asks. Anchors are those the application loads and the certificates of
    the files and of the PIB; what the application itself puts into the verified cache must be trusted. *)
Theorem validation_sound (settings : Settings) (config : ConfigState) (anchor : Certificate -> Prop) (s : System)
    (calls : list VCall) (events : list (Env * World)) :
  checks_signatures (policy_ settings) -> validation_run settings config anchor s calls events ->
  forall id packet, SuccessCallback id packet ∈ calls ->
  exists c, Trusted settings config (at_event events) anchor c /\
    may_sign settings config (at_event events) packet c /\ signed_by packet c.
Proof.
  intros Hp Hr id packet Hin. destruct (run_good settings config anchor (at_event events) s calls events Hp Hr) as (_ & _ & Hc);
    [easy |]. rewrite Forall_forall in Hc. exact (Hc _ Hin).
Qed.
End Spec.

(** ** A run

    A Data packet whose key is certified by an anchor: the certificate of the key is fetched. *)

#[local] Existing Instance toy_crypto.

(** Expressions that are texts. *)
Definition text_regex : RegexLib := {|
  Regex := list Z;
  regex_new := fun text => Some text;
  mark_count := fun _ => 0%nat;
  regex_match := fun text s => if bool_decide (text = s) then Some [s] else None
|}.
#[local] Existing Instance text_regex.

Definition toy_settings (policy : Policy) : Settings := mkSettings policy FromNetwork 25 true true.
Definition toy_env : Env :=
  mkEnv (10 ^ 18) (mkFiles (fun _ => None) (fun _ => [])) [1; 2; 3; 4] (fun _ _ => Err (RuntimeError "no key")).

Definition toy_anchor : Certificate := toy_certificate (toy_cert_name []) (toy_key_name []) [1; 3] [1; 3].
Definition toy_signer : Certificate :=
  toy_certificate (toy_cert_name [generic [97]]) (toy_key_name []) [1; 2] [1; 3].
Definition toy_packet : DataPacket :=
  mkDataPacket (toy_data [generic [97]; generic [120]] (toy_key_name [generic [97]]) [5] [1; 2]) None.

Definition toy_start : System :=
  mkSystem (mkWorld _ CertificateStorage_new (mkConfigState _ false false [] [])
    (fun _ => mkCommandInterestState 0 0 0 [] 0)) [] 0.
Definition toy_loaded : System :=
  with_storage (run_call (E := VCall) (files toy_env) (now toy_env) (LoadAnchor [] toy_anchor)) toy_start.
Definition toy_asked : System * list VCall * result exn unit :=
  run_event toy_env (toy_settings SimpleHierarchy) (ValidatePacket (PData toy_packet)) toy_loaded.
Definition toy_answered : System * list VCall * result exn unit :=
  run_event toy_env (toy_settings SimpleHierarchy) (DataArrived 0 (cert_data toy_signer)) toy_asked.1.1.

(** A command Interest, signed with the key of the anchor, under a configuration with one rule for Interests:
    it is accepted once. *)
Definition bytes_of (r : result exn (list Z)) : list Z := match r with Ok bytes => bytes | Err _ => [] end.
Definition command_signature : SignatureValue :=
  (Sha256WithRsaSignature (Some [1; 3]), ((mkKeyLocatorFields KEYNAME None, toy_key_name []), no_period)).
Definition command_name : Name :=
  [generic [97]; generic (be_encode 8 (10 ^ 12)); generic [1]; generic (bytes_of (encodeSignatureInfo command_signature));
   generic (bytes_of (encodeSignatureValue command_signature))].
Definition command : InterestPacket :=
  mkInterestPacket (interest_value (Interest_new command_name true true)) None None.

Definition command_settings : Settings := toy_settings (CommandInterest 0 (Config false)).
Definition command_config : ConfigState :=
  mkConfigState _ false true [] [mkConfigRule true [] [ConfigNameRelationChecker [] IS_PREFIX_OF]].
Definition command_start : System :=
  mkSystem (mkWorld _ CertificateStorage_new command_config
    (fun _ => mkCommandInterestState 120000000000 1000 3600000000000 [] 0)) [] 0.
Definition command_loaded : System :=
  with_storage (run_call (E := VCall) (files toy_env) (now toy_env) (LoadAnchor [] toy_anchor)) command_start.
Definition command_checked : System * list VCall * result exn unit :=
  run_event toy_env command_settings (ValidatePacket (PInterest command)) command_loaded.

Example command_once :
  command_checked.1.2 = [SuccessCallback 0 (PInterest command)] /\
  (run_event toy_env command_settings (ValidatePacket (PInterest command)) command_checked.1.1).1.2
  = [FailureCallback 1 (PInterest command) POLICY_ERROR].
Proof. split; now vm_compute. Qed.

Lemma validation_sound_witness :
  (let settings := toy_settings SimpleHierarchy in
   let config := mkConfigState _ false false [] [] in
   let events := [(toy_env, s_world toy_loaded); (toy_env, s_world toy_asked.1.1)] in
   SuccessCallback 0 (PData toy_packet) ∈ toy_asked.1.2 ++ toy_answered.1.2 /\
   exists c, Trusted settings config (at_event events) (eq toy_anchor) c /\
     may_sign settings config (at_event events) (PData toy_packet) c /\ signed_by (PData toy_packet) c) /\
  (let events := [(toy_env, s_world command_loaded)] in
   SuccessCallback 0 (PInterest command) ∈ command_checked.1.2 /\
   exists c, Trusted command_settings command_config (at_event events) (eq toy_anchor) c /\
     may_sign command_settings command_config (at_event events) (PInterest command) c /\ signed_by (PInterest command) c).
Proof.
  assert (He : env_ok (eq toy_anchor) toy_env) by now split.
  split.
  - intros settings config events.
    assert (Hin : SuccessCallback 0 (PData toy_packet) ∈ ([] ++ toy_asked.1.2) ++ toy_answered.1.2).
    { assert (E : toy_answered.1.2 = [SuccessCallback 0 (PData toy_packet)]) by now vm_compute.
      rewrite E. apply elem_of_app. right. constructor. }
    split; [exact Hin |].
    apply (validation_sound settings config (eq toy_anchor) toy_answered.1.1
      (([] ++ toy_asked.1.2) ++ toy_answered.1.2) events) with (id := 0%nat); [exact I | | exact Hin].
    apply (run_next _ _ _ _ _ _ _ [(toy_env, s_world toy_loaded)]);
      [apply (run_next _ _ _ _ _ _ _ []); [apply run_storage; [now apply run_start | easy | reflexivity] | easy | exact I] | easy |].
    intros f Hf. vm_compute in Hf. injection Hf as <-. now vm_compute.
  - intros events.
    assert (Hin : SuccessCallback 0 (PInterest command) ∈ [] ++ command_checked.1.2).
    { assert (E : command_checked.1.2 = [SuccessCallback 0 (PInterest command)]) by now vm_compute.
      rewrite E. constructor. }
    split; [exact Hin |].
    apply (validation_sound command_settings command_config (eq toy_anchor) command_checked.1.1
      ([] ++ command_checked.1.2) events) with (id := 0%nat); [exact I | | exact Hin].
    apply (run_next _ _ _ _ _ _ _ []); [apply run_storage; [now apply run_start | easy | reflexivity] | easy | exact I].
Defined.
