(* ===== verification/ValidationOutcome.v ===== *)
(** * Each validation is concluded once, and the chase of certificates ends *)

From stdpp Require Import base list numbers option strings sets.
From Stdlib Require Import ZArith Lia.
From S2P Require Import Prelude Actions Order Name NameUri ChangeCounter ValidityPeriod Exclude DelegationSet Data TlvData Interest WireFormat.
From S2P Require Import BoostInfo Regex RegexSyntax Certificates NameMap CertStorage CertStorageSpec ValidatorConfig Validation ValidationSpec.
Open Scope Z_scope.

Section Outcome.
Context `{Crypto} `{RegexLib}.

Abbreviation Validating A := (Act World VCall A).

(** A rule that a configuration makes has a checker. *)
Definition rules_ok (rules : list ConfigRule) : Prop := Forall (fun r => checkers_ r <> []) rules.
Definition config_ok (w : World) : Prop :=
  rules_ok (dataRules_ (w_config w)) /\ rules_ok (interestRules_ (w_config w)).

(** The call is for validation [id]; one that waits for the network has no outcome yet. *)
Definition call_for (id : nat) (call : VCall) : Prop :=
  match call with
  | SuccessCallback id' _ | FailureCallback id' _ _ => id' = id
  | ExpressInterest f => vid (fetch_state f) = id /\ outcome_ (fetch_state f) = None
  end.

(** The operation makes the number of calls that its result says, all for validation [id], and at most one
    call when it throws. *)
Definition emits {A} (id : nat) (m : Validating A) (count : A -> nat) : Prop :=
  forall w, config_ok w -> config_ok (state_of (m w)) /\ Forall (call_for id) (calls_of (m w)) /\
    match result_of (m w) with
    | Ok a => length (calls_of (m w)) = count a
    | Err _ => (length (calls_of (m w)) <= 1)%nat
    end.

(** It makes no calls. *)
Definition quiet {A} (m : Validating A) : Prop :=
  forall w, config_ok w -> config_ok (state_of (m w)) /\ calls_of (m w) = [].

Lemma quiet_emits {A} id (m : Validating A) : quiet m -> emits id m (fun _ => 0%nat).
Proof.
  intros Hm w Hw. destruct (Hm w Hw) as [Hc Hq]. rewrite Hq. split_and!; [easy | constructor |].
  destruct (result_of (m w)); cbn; lia.
Qed.

Lemma emits_weaken {A} id (m : Validating A) c c' :
  emits id m c -> (forall a, c a = c' a) -> emits id m c'.
Proof. intros Hm Hc w Hw. destruct (Hm w Hw) as (H1 & H2 & H3). split_and!; [easy | easy |]. destruct (result_of _); [now rewrite <- Hc | easy]. Qed.

Lemma emits_calls_ret {A} id (a : A) : emits id (mret a) (fun _ => 0%nat).
Proof. intros w Hw. split_and!; [easy | constructor | reflexivity]. Qed.

Lemma emits_throws {A} id (e : exn) (c : A -> nat) : emits id (returns (Err e)) c.
Proof. intros w Hw. split_and!; [easy | constructor | cbn; lia]. Qed.

(** First no calls, and then those of the rest. *)
Lemma emits_quiet_bind {A B} id (m : Validating A) (f : A -> Validating B) c :
  quiet m -> (forall a, emits id (f a) c) -> emits id (m ≫= f) c.
Proof.
  intros Hm Hf w Hw. destruct (Hm w Hw) as [Hc Hq]. unfold mbind, Act_bind, state_of, calls_of, result_of in *.
  destruct (m w) as [[w1 c1] [a | e]]; cbn in *; subst c1; [| split_and!; [easy | constructor | cbn; lia]].
  specialize (Hf a w1 Hc). unfold state_of, calls_of, result_of in Hf. now destruct (f a w1) as [[w2 c2] r].
Qed.

(** A call for each result that is not zero, and then nothing more. *)
Lemma emits_calls_bind {A B} id (m : Validating A) (f : A -> Validating B) c c' :
  emits id m c -> (forall a, c a = 0%nat -> emits id (f a) c') ->
  (forall a, c a <> 0%nat -> c a = 1%nat /\ quiet (f a) /\ forall b, c' b = 1%nat) ->
  emits id (m ≫= f) c'.
Proof.
  intros Hm Hz Hs w Hw. destruct (Hm w Hw) as (Hc & Hq & Hr). unfold mbind, Act_bind, state_of, calls_of, result_of in *.
  destruct (m w) as [[w1 c1] [a | e]]; cbn in *; [| easy]. destruct (decide (c a = 0%nat)) as [He | Hne].
  - specialize (Hz a He w1 Hc). unfold state_of, calls_of, result_of in Hz. destruct (f a w1) as [[w2 c2] r]. cbn in *.
    rewrite He in Hr. destruct c1; [| easy]. exact Hz.
  - destruct (Hs a Hne) as (H1 & Hqf & Hb). destruct (Hqf w1 Hc) as [Hc2 Hq2]. unfold state_of, calls_of in *.
    destruct (f a w1) as [[w2 c2] r]. cbn in *. subst c2. rewrite app_nil_r. split_and!; [easy | easy |].
    destruct r; [now rewrite Hr, H1, Hb | lia].
Qed.

(** After a call that must be made, a quiet rest. *)
Lemma emits_then_quiet {A B} id (m : Validating A) (f : A -> Validating B) :
  emits id m (fun _ => 1%nat) -> (forall a, quiet (f a)) -> emits id (m ≫= f) (fun _ => 1%nat).
Proof. intros Hm Hf. eapply emits_calls_bind; [exact Hm | easy | now intros a _]. Qed.

Lemma quiet_ret {A} (a : A) : quiet (mret a).
Proof. now intros w Hw. Qed.

Lemma quiet_returns {A} (r : result exn A) : quiet (returns r).
Proof. now intros w Hw. Qed.

Lemma quiet_bind {A B} (m : Validating A) (f : A -> Validating B) : quiet m -> (forall a, quiet (f a)) -> quiet (m ≫= f).
Proof.
  intros Hm Hf w Hw. destruct (Hm w Hw) as [Hc Hq]. unfold mbind, Act_bind, state_of, calls_of in *.
  destruct (m w) as [[w1 c1] [a | e]]; cbn in *; subst c1; [| easy].
  destruct (Hf a w1 Hc) as [Hc2 Hq2]. unfold state_of, calls_of in *. destruct (f a w1) as [[w2 c2] r]. cbn in *. now subst.
Qed.

(** A method of the storage that calls nothing. *)
Definition silent {A} (m : Act CertificateStorage VCall A) : Prop := forall s, calls_of (m s) = [].

Lemma quiet_on_storage {A} (m : Act CertificateStorage VCall A) : silent m -> quiet (on_storage m).
Proof.
  intros Hm w Hw. specialize (Hm (w_storage w)). unfold on_storage, state_of, calls_of in *.
  destruct (m (w_storage w)) as [[s c] r]. cbn in *. now subst.
Qed.

Lemma silent_bind {A B} (m : Act CertificateStorage VCall A) (f : A -> Act CertificateStorage VCall B) :
  silent m -> (forall a, silent (f a)) -> silent (m ≫= f).
Proof.
  intros Hm Hf s. specialize (Hm s). unfold mbind, Act_bind, calls_of in *.
  destruct (m s) as [[s1 c1] [a | e]]; cbn in *; subst c1; [| easy]. specialize (Hf a s1). unfold calls_of in Hf.
  destruct (f a s1) as [[s2 c2] r]. cbn in *. now subst.
Qed.

Lemma silent_ret {A} (a : A) : silent (mret a).
Proof. now intros s. Qed.
Lemma silent_returns {A} (r : result exn A) : silent (returns r).
Proof. now intros s. Qed.
Lemma silent_anchors {A} f : silent (A := A) (on_anchors f).
Proof. intros s. unfold on_anchors, calls_of. now destruct (f _). Qed.
Lemma silent_verified {A} f : silent (A := A) (on_verified f).
Proof. intros s. unfold on_verified, calls_of. now destruct (f _). Qed.
Lemma silent_unverified {A} f : silent (A := A) (on_unverified f).
Proof. intros s. unfold on_unverified, calls_of. now destruct (f _). Qed.
Lemma silent_crls {A} f : silent (A := A) (on_crls f).
Proof. intros s. unfold on_crls, calls_of. now destruct (f _). Qed.

Create HintDb silent.
#[local] Hint Resolve silent_ret silent_returns silent_anchors silent_verified silent_unverified silent_crls : silent.

Lemma silent_revocation now c : silent (revocation_of now c).
Proof.
  apply silent_bind; [auto with silent | intros issuer]. unfold findRevokedCertificate.
  destruct (_ =? 0); [auto with silent |]. apply silent_bind; auto with silent.
Qed.
#[local] Hint Resolve silent_revocation : silent.

Lemma silent_findTrusted fs now i : silent (findTrustedCertificate fs now i).
Proof. apply silent_bind; [auto with silent | intros [c |]; auto with silent]. Qed.

Lemma silent_cache_chain now chain : silent (cache_chain now chain).
Proof.
  induction chain as [| c chain IH]; cbn [cache_chain]; [auto with silent |].
  apply silent_bind; [| intros [|]; cbn; auto with silent].
  apply silent_bind; [auto with silent | intros [r |]; [auto with silent |]]. apply silent_bind; auto with silent.
Qed.
#[local] Hint Resolve silent_findTrusted silent_cache_chain : silent.

Lemma quiet_command_update number f : quiet (command_update number f).
Proof. now intros w Hw. Qed.

(** *** The state *)

Lemma emits_fail code st :
  outcome_ st = None -> emits (vid st) (fail code st) (fun _ => 1%nat).
Proof.
  intros Ho w Hw. unfold fail, setOutcome, mbind, Act_bind, perform, state_of, calls_of, result_of. rewrite Ho. cbn.
  split_and!; [easy | now repeat constructor | easy].
Qed.

Lemma emits_refuse code st : outcome_ st = None -> emits (vid st) (refuse code st) (fun _ => 1%nat).
Proof. intros Ho. apply emits_then_quiet; [now apply emits_fail | intros st'; apply quiet_ret]. Qed.

Lemma quiet_callbacks env st :
  quiet (for_each (fun r => command_update (record_policy r) (insertNewRecord env (record_keyName r) (record_timestamp r)))
    (successCallbacks_ st)).
Proof.
  induction (successCallbacks_ st) as [| r l IH]; cbn; [apply quiet_ret |].
  apply quiet_bind; [apply quiet_command_update | easy].
Qed.

Lemma emits_succeed env st :
  outcome_ st = None -> emits (vid st) (_ ← call_success env st; setOutcome true st) (fun _ => 1%nat).
Proof.
  intros Ho. apply emits_then_quiet.
  - apply emits_then_quiet; [| intros _; apply quiet_callbacks]. intros w Hw. split_and!; [easy | now repeat constructor | easy].
  - intros _. unfold setOutcome. rewrite Ho. apply quiet_ret.
Qed.

Lemma emits_verified env st (r : result exn bool) :
  outcome_ st = None ->
  emits (vid st) (verified ← returns r;
    if (verified : bool) then _ ← call_success env st; setOutcome true st else fail INVALID_SIGNATURE st)
    (fun _ => 1%nat).
Proof.
  intros Ho. apply emits_quiet_bind; [apply quiet_returns | intros [|]]; [now apply emits_succeed | now apply emits_fail].
Qed.

Lemma emits_verifyOriginal env c st :
  outcome_ st = None -> emits (vid st) (verifyOriginalPacket env c st) (fun _ => 1%nat).
Proof.
  intros Ho. unfold verifyOriginalPacket. destruct (original_ st); [now apply emits_verified | | now apply emits_verified].
  apply emits_quiet_bind; [apply quiet_returns | intros [|]]; [| now apply emits_fail].
  apply emits_quiet_bind; [apply quiet_on_storage; auto with silent | intros [r |]]; [now apply emits_fail | now apply emits_succeed].
Qed.

Lemma emits_use_trusted env c st :
  outcome_ st = None -> emits (vid st) (use_trusted env c st) (fun _ => 1%nat).
Proof.
  intros Ho. unfold use_trusted, verifyCertificateChain.
  assert (Hrest : forall v, emits (vid st) (cached ← on_storage (cache_chain (now env) (certificateChain_ st));
    if negb cached then refuse REVOKED st else _ ← verifyOriginalPacket env v st; mret tt) (fun _ => 1%nat)).
  { intros v. apply emits_quiet_bind; [apply quiet_on_storage; auto with silent | intros [|]]; cbn [negb].
    - apply emits_then_quiet; [now apply emits_verifyOriginal | intros st'; apply quiet_ret].
    - now apply emits_refuse. }
  intros w Hw. destruct (verify_chain 0 c (certificateChain_ st)) as [[v | i] | e] eqn:Hv.
  - specialize (Hrest v w Hw). unfold state_of, calls_of, result_of in *.
    rewrite (act_bind_silent _ _ w w (Some v, st)) by (now rewrite act_returns_bind). exact Hrest.
  - unfold mbind, Act_bind, returns, fail, setOutcome, perform, state_of, calls_of, result_of. rewrite Ho. cbn.
    split_and!; [easy | now repeat constructor | easy].
  - unfold mbind, Act_bind, returns, state_of, calls_of, result_of. cbn. split_and!; [easy | constructor | lia].
Qed.

(** *** Policies *)

Lemma emits_with_key p st (k : Name -> ValidationState -> Validating unit) :
  outcome_ st = None -> (forall keyName, key_locator_of p = Some keyName -> emits (vid st) (k keyName st) (fun _ => 1%nat)) ->
  emits (vid st) ('(keyName, st) ← getKeyLocatorName p st; if isOutcomeFailed st then mret tt else k keyName st)
    (fun _ => 1%nat).
Proof.
  intros Ho Hk w Hw. unfold state_of, calls_of, result_of. pose proof (getKeyLocatorName_result p st w Ho) as Hg.
  unfold key_result in Hg. destruct (key_locator_of p) as [keyName |].
  - rewrite (act_bind_silent _ _ _ _ _ Hg). unfold isOutcomeFailed. rewrite Ho, bool_decide_false by easy.
    exact (Hk keyName eq_refl w Hw).
  - unfold no_key in Hg. rewrite (act_bind_ok _ _ _ _ _ _ Hg). cbn. split_and!; [easy | now repeat constructor | easy].
Qed.

(** Checking a rule keeps its checkers, and rejects without [fail] only a short Interest name. *)
Lemma check_all_length checkers b p k pending :
  length (check_all checkers b p k pending).1 = length checkers.
Proof.
  revert pending. induction checkers as [| c checkers IH]; intros pending; cbn [check_all]; [easy |].
  destruct (checker_check c b p k) as [c' [[| |] | e]]; cbn; try easy.
  specialize (IH true). destruct (check_all checkers b p k true) as [l r]. cbn in *. lia.
Qed.

Lemma checkNames_rejected c p k c' : checkNames c p k <> (c', Ok Rejected).
Proof.
  destruct c as [name relation | regex | pr pe kr ke relation]; cbn [checkNames].
  - destruct (_ && _); [easy |]. destruct (extractIdentityFromKeyName k); cbn; [| easy]. now destruct (checkNameRelation _ _ _).
  - destruct (top_match regex k) as [m [[|] | e]]; now intros [=].
  - destruct (top_match pr p) as [m [[|] | e]]; [| now intros [=] | now intros [=]].
    destruct (top_match kr k) as [m' [[|] | e]]; [| now intros [=] | now intros [=]]. cbn [negb mbind result_bind].
    destruct (expand m' ke); [| now intros [=]]. destruct (expand m pe); [| now intros [=]].
    cbn [mbind result_bind]. now destruct (checkNameRelation _ _ _); intros [=].
Qed.

Lemma check_all_rejected checkers b p k pending l :
  (b = true -> 2 <= zlen p) -> checkers <> [] \/ pending = true -> check_all checkers b p k pending <> (l, Ok Rejected).
Proof.
  intros Hb. revert pending l. induction checkers as [| c checkers IH]; intros pending l Hne; cbn [check_all].
  { destruct Hne as [| ->]; [easy | congruence]. }
  assert (Hc : forall c', checker_check c b p k <> (c', Ok Rejected)).
  { intros c'. unfold checker_check, signedInterestMinSize. destruct b; [| apply checkNames_rejected].
    rewrite (proj2 (Z.ltb_ge _ _)) by now apply Hb. apply checkNames_rejected. }
  destruct (checker_check c b p k) as [c' [[| |] | e]]; [| congruence | now destruct (Hc c') | congruence].
  specialize (IH true). destruct (check_all checkers b p k true) as [l' r].
  intros [= _ Hr]. apply (IH l'); [now right | now rewrite Hr].
Qed.

Lemma check_rules_ok rules b p k :
  rules_ok rules -> (b = true -> 2 <= zlen p) ->
  rules_ok (check_rules rules b p k).1 /\ (check_rules rules b p k).2 <> Ok Rejected.
Proof.
  intros Hr Hb. induction rules as [| rule rules IH]; cbn [check_rules]; [split; [constructor | easy] |].
  apply Forall_cons in Hr as [Hc Hr]. specialize (IH Hr).
  assert (Hm : forall rule' r, rule_match rule b p = (rule', r) -> checkers_ rule' = checkers_ rule).
  { intros rule' r. unfold rule_match. destruct (negb _); [congruence |]. destruct (_ =? 0); [congruence |].
    destruct (match_filters _ _ _). now intros [= <- _]. }
  destruct (rule_match rule b p) as [rule' r] eqn:Hmatch. specialize (Hm _ _ eq_refl).
  destruct r as [[|] | e].
  - unfold rule_check. destruct (negb _); cbn; [split; [constructor; congruence | easy] |]. rewrite Hm.
    pose proof (check_all_length (checkers_ rule) b p k false) as Hl.
    pose proof (check_all_rejected (checkers_ rule) b p k false) as Hrej.
    destruct (check_all (checkers_ rule) b p k false) as [l r]. cbn in *. split.
    + constructor; [| easy]. cbn. now destruct l, (checkers_ rule).
    + intros ->. now apply (Hrej l Hb); [left |].
  - destruct (check_rules rules b p k) as [rules' r]. cbn in *. split; [constructor; [congruence | apply IH] | apply IH].
  - cbn. split; [constructor; [congruence | easy] | easy].
Qed.

Lemma key_locator_interest interest keyName :
  key_locator_of (PInterest interest) = Some keyName -> 2 <= zlen (ip_name interest).
Proof. cbn. destruct (Z.ltb_spec (zlen (ip_name interest)) 2); [easy | lia]. Qed.

Lemma config_rules_result b p k w :
  config_ok w -> (b = true -> 2 <= zlen p) ->
  exists w' r, config_rules b p k w = (w', [], r) /\ config_ok w' /\ r <> Ok Rejected.
Proof.
  intros [Hd Hi] Hb. unfold config_rules. rewrite act_get_bind.
  destruct (check_rules_ok (if b then interestRules_ (w_config w) else dataRules_ (w_config w)) b p k) as [Hr Hrej];
    [now destruct b | easy |].
  destruct (check_rules _ _ _ _) as [rules r]. cbn in *. rewrite act_modify_bind. eexists _, r.
  split_and!; [reflexivity | | easy]. now destruct b.
Qed.

Lemma emits_checkPolicy env settings policy p st k :
  outcome_ st = None ->
  (forall request st', outcome_ st' = None -> vid st' = vid st -> emits (vid st) (k request st') (fun _ => 1%nat)) ->
  emits (vid st) (checkPolicy env settings policy p st k) (fun _ => 1%nat).
Proof.
  intros Ho Hk. revert st k Ho Hk. induction policy as [| | | hasInner | number inner IH]; intros st k Ho Hk; cbn [checkPolicy].
  - now apply Hk.
  - apply emits_with_key; [easy |]. intros keyName _. destruct (name_match _ _); [now apply Hk | now apply emits_refuse].
  - apply emits_with_key; [easy |]. intros keyName _. unfold pib_check.
    destruct (_ ≫= _) as [certificate | e]; [| now apply emits_refuse].
    apply emits_quiet_bind; [apply quiet_on_storage; apply silent_anchors | intros _].
    apply emits_quiet_bind; [apply quiet_on_storage; apply silent_anchors | intros _].
    apply emits_then_quiet; [now apply Hk | intros _; apply quiet_on_storage; apply silent_anchors].
  - unfold config_check. destruct hasInner; [now apply emits_throws |].
    intros w Hw. unfold state_of, calls_of, result_of. rewrite act_get_bind.
    destruct (shouldBypass_ (w_config w)); [now apply Hk |]. revert w Hw. apply emits_with_key; [easy |].
    intros keyName Hkey w Hw. unfold state_of, calls_of, result_of.
    destruct (config_rules_result (is_interest p) (packet_name_of p) keyName w Hw) as (w' & r & Hrun & Hw' & Hrej).
    { destruct p; [easy | easy |]. intros _. now apply key_locator_interest with keyName. }
    destruct r as [[| |] | e]; [| | easy |].
    + rewrite (act_bind_silent _ _ _ _ _ Hrun). now apply Hk.
    + rewrite (act_bind_silent _ _ _ _ _ Hrun). now apply emits_refuse.
    + unfold mbind, Act_bind. rewrite Hrun. cbn. split_and!; [easy | constructor | lia].
  - unfold command_check. destruct (is_interest p); cbn [negb]; [| now apply IH].
    destruct (_ <? MINIMUM_SIZE); [now apply emits_refuse |].
    apply emits_quiet_bind; [apply quiet_returns | intros component].
    apply emits_quiet_bind; [apply quiet_returns | intros timestamp].
    apply emits_with_key; [easy |]. intros keyName _.
    apply emits_quiet_bind; [apply quiet_command_update | intros _].
    intros w Hw. unfold state_of, calls_of, result_of. rewrite act_get_bind.
    destruct (timestamp_ok _ _ _ _); cbn [negb]; [| now apply emits_refuse].
    now apply (IH (addSuccessCallback (mkInsertRecord number keyName timestamp) st)).
Qed.

(** *** The validator *)

Lemma quiet_continueFetch env times c : quiet (continueFetch env times c).
Proof.
  induction times as [| times IH]; cbn [continueFetch]; [apply quiet_ret |].
  apply quiet_bind; [apply quiet_on_storage, silent_unverified | easy].
Qed.

Lemma emits_fetch env settings f k :
  outcome_ (fetch_state f) = None ->
  (forall c, emits (vid (fetch_state f)) (k c (fetch_state f)) (fun _ => 1%nat)) ->
  emits (vid (fetch_state f)) (fetch env settings f k) (fun _ => 1%nat).
Proof.
  intros Ho Hk. apply emits_quiet_bind; [apply quiet_on_storage, silent_unverified | intros [c |]].
  - apply emits_quiet_bind; [apply quiet_continueFetch | intros _; apply Hk].
  - unfold doFetch. destruct (fetcher_ settings); [now apply emits_refuse |].
    intros w Hw. split_and!; [easy | now repeat constructor | easy].
Qed.

Lemma emits_addCertificate c st (k : ValidationState -> Validating unit) :
  outcome_ st = None ->
  (forall st', outcome_ st' = None -> vid st' = vid st -> emits (vid st) (k st') (fun _ => 1%nat)) ->
  emits (vid st) (st ← returns (addCertificate c st); k st) (fun _ => 1%nat).
Proof.
  intros Ho Hk. unfold addCertificate. destruct (CertificateV2_copy c) as [c' | e].
  - intros w Hw. unfold state_of, calls_of, result_of.
    rewrite (act_bind_silent _ _ w w (with_chain (c' :: certificateChain_ st) st)) by easy. now apply Hk.
  - intros w Hw. exact (conj Hw (conj (List.Forall_nil _) (Nat.le_0_l 1))).
Qed.

Lemma emits_requestCertificate fuel env settings request st :
  outcome_ st = None -> emits (vid st) (requestCertificate fuel env settings request st) (fun _ => 1%nat).
Proof.
  revert request st. induction fuel as [| fuel IH]; intros request st Ho; cbn [requestCertificate]; [now apply emits_throws |].
  destruct (_ >=? _); [now apply emits_refuse |].
  assert (Hseen : outcome_ (hasSeenCertificateName (interest_name (request_interest request)) st).2 = None /\
    vid (hasSeenCertificateName (interest_name (request_interest request)) st).2 = vid st).
  { unfold hasSeenCertificateName. now destruct (map_find _ _). }
  destruct (hasSeenCertificateName _ st) as [seen st']. cbn in Hseen. destruct Hseen as [Ho' <-].
  destruct seen; [now apply emits_refuse |].
  apply emits_quiet_bind; [apply quiet_on_storage; auto with silent | intros [c |]]; [now apply emits_use_trusted |].
  apply (emits_fetch env settings (mkFetch request st' 0)); [easy |]. intros c. cbn [fetch_state].
  apply emits_quiet_bind; [apply quiet_returns | intros [|]]; cbn [negb]; [| now apply emits_refuse].
  apply emits_checkPolicy; [easy |]. intros [request' |] st2 Ho2 Hv2; rewrite <- Hv2; [| now apply emits_refuse].
  apply emits_addCertificate; [easy |]. intros st3 Ho3 Hv3. rewrite <- Hv3. now apply IH.
Qed.

Lemma emits_validateCertificate env settings c st :
  outcome_ st = None -> emits (vid st) (validateCertificate env settings c st) (fun _ => 1%nat).
Proof.
  intros Ho. apply emits_quiet_bind; [apply quiet_returns | intros [|]]; cbn [negb]; [| now apply emits_refuse].
  apply emits_checkPolicy; [easy |]. intros [request |] st2 Ho2 Hv2; cbn [continueValidateCertificate]; rewrite <- Hv2;
    [| now apply emits_refuse].
  apply emits_addCertificate; [easy |]. intros st3 Ho3 Hv3. rewrite <- Hv3. now apply emits_requestCertificate.
Qed.

Lemma emits_validate env settings id p : emits id (validate env settings id p) (fun _ => 1%nat).
Proof.
  apply emits_quiet_bind; [apply quiet_returns | intros p'].
  apply (emits_checkPolicy env settings _ p' (mkValidationState id p' [] [] None [])); [easy |].
  intros [request |] st Ho Hv; cbn [continueValidate]; cbn in Hv; cbn [vid]; rewrite <- Hv.
  - now apply emits_requestCertificate.
  - apply emits_then_quiet; [now apply emits_succeed | intros st'; apply quiet_ret].
Qed.

Lemma emits_onData env settings data f :
  outcome_ (fetch_state f) = None -> emits (vid (fetch_state f)) (fetcher_onData env settings data f) (fun _ => 1%nat).
Proof.
  intros Ho. unfold fetcher_onData. destruct (CertificateV2_of_data data) as [c | e].
  - apply emits_quiet_bind; [apply quiet_continueFetch | intros _; now apply emits_validateCertificate].
  - destruct e; first [now apply emits_refuse | intros w Hw; split_and!; [easy | constructor | cbn; lia]].
Qed.

Lemma emits_onTimeout env settings f :
  outcome_ (fetch_state f) = None -> emits (vid (fetch_state f)) (fetcher_onTimeout env settings f) (fun _ => 1%nat).
Proof.
  intros Ho. unfold fetcher_onTimeout. cbv zeta. destruct (_ >=? 0); [| now apply emits_refuse].
  apply (emits_fetch env settings (mkFetch _ (fetch_state f) (fetch_caches f))); [easy |].
  intros c. now apply emits_validateCertificate.
Qed.


(** *** Runs *)

(** Events from any state of the objects, and anything that the application does with them in between, with
    the calls made and whether every event ended without an exception. *)
Inductive events_run (settings : Settings) : System -> list VCall -> bool -> Prop :=
| events_start w : config_ok w -> events_run settings (mkSystem w [] 0) [] true
| events_next env event s calls ok s' calls' r :
    events_run settings s calls ok -> run_event env settings event s = (s', calls', r) ->
    events_run settings s' (calls ++ calls') (ok && is_ok r)
| events_between s calls ok w :
    events_run settings s calls ok -> config_ok w ->
    events_run settings (mkSystem w (s_pending s) (s_next s)) calls ok.

Definition concludes (id : nat) (call : VCall) : bool :=
  match call with
  | SuccessCallback id' _ | FailureCallback id' _ _ => (id' =? id)%nat
  | ExpressInterest _ => false
  end.

(** How often validation [id] was concluded, and how many of its Interests are pending. *)
Definition conclusions (id : nat) (calls : list VCall) : nat := length (filter (fun c => concludes id c = true) calls).
Definition waiting (id : nat) (pending : list Fetch) : nat :=
  length (filter (fun f => vid (fetch_state f) = id) pending).

Definition run_ok (s : System) (calls : list VCall) (ok : bool) : Prop :=
  config_ok (s_world s) /\ Forall (fun f => outcome_ (fetch_state f) = None) (s_pending s) /\
  forall id, (conclusions id calls + waiting id (s_pending s) <= if (id <? s_next s)%nat then 1 else 0)%nat /\
    (ok = true -> (id < s_next s)%nat -> (conclusions id calls + waiting id (s_pending s) = 1)%nat).

Lemma waiting_app id l k : waiting id (l ++ k) = (waiting id l + waiting id k)%nat.
Proof. unfold waiting. now rewrite filter_app, length_app. Qed.

Lemma conclusions_app id l k : conclusions id (l ++ k) = (conclusions id l + conclusions id k)%nat.
Proof. unfold conclusions. now rewrite filter_app, length_app. Qed.

(** Calls for one validation conclude it or wait for it as often as there are calls. *)
Lemma calls_for_count id id' calls :
  Forall (call_for id) calls ->
  (conclusions id' calls + waiting id' (fetches calls) = if decide (id' = id) then length calls else 0)%nat /\
  Forall (fun f => outcome_ (fetch_state f) = None) (fetches calls).
Proof.
  intros Hc. induction Hc as [| call calls Hcall Hc [IH Hf]]; [cbn; now destruct (decide _) |].
  change (call :: calls) with ([call] ++ calls) at 1 2 4. rewrite conclusions_app. unfold fetches at 1 2. rewrite omap_app.
  change (omap _ calls) with (fetches calls). rewrite waiting_app. cbn [length].
  assert (Hone : (conclusions id' [call] + waiting id' (fetches [call]) = if decide (id' = id) then 1 else 0)%nat /\
    Forall (fun f => outcome_ (fetch_state f) = None) (fetches [call])).
  { unfold conclusions, waiting. destruct call as [v p | v p code | f]; cbn in *.
    1, 2: subst v; split; [| constructor]; rewrite (Nat.eqb_sym id id');
      destruct (Nat.eqb_spec id' id) as [-> | Hne]; [now rewrite !decide_True | now rewrite !decide_False].
    destruct Hcall as [Hv Ho]. rewrite decide_False by easy. split; [| now repeat constructor].
    destruct (decide (vid (fetch_state f) = id')), (decide (id' = id)); (reflexivity || congruence). }
  destruct Hone as [H1 H2]. fold (fetches [call]). split; [| now apply Forall_app].
  destruct (decide (id' = id)); lia.
Qed.

Lemma waiting_delete id i f pending :
  pending !! i = Some f ->
  waiting id pending = ((if decide (vid (fetch_state f) = id) then 1 else 0) + waiting id (delete i pending))%nat.
Proof.
  intros Hi. rewrite <- (take_drop_middle _ _ _ Hi) at 1. rewrite delete_take_drop, !waiting_app.
  unfold waiting at 2. rewrite filter_cons. destruct (decide _); cbn [length]; unfold waiting; lia.
Qed.

(** An operation for one validation that was waiting, or is new. *)
Lemma run_ok_step s calls ok id pending next w' calls' (r : result exn unit) :
  run_ok s calls ok -> config_ok w' -> Forall (call_for id) calls' ->
  match r with Ok _ => length calls' = 1%nat | Err _ => (length calls' <= 1)%nat end ->
  Forall (fun f => outcome_ (fetch_state f) = None) pending ->
  (forall id', (waiting id' (s_pending s) + (if decide (id' = id) then if (id <? s_next s)%nat then 0 else 1 else 0) =
     (if decide (id' = id) then 1 else 0) + waiting id' pending)%nat) ->
  (forall id', (id' <? next)%nat = (id' <? s_next s)%nat || (id' =? id)%nat) ->
  run_ok (mkSystem w' (pending ++ fetches calls') next) (calls ++ calls') (ok && is_ok r).
Proof.
  intros (Hw & Hf & Hc) Hw' Hcalls Hr Hp Hdel Hnext.
  split_and!; [easy | apply Forall_app; split; [easy | now apply (calls_for_count id id)] |].
  intros id'. cbn [s_pending s_next]. rewrite waiting_app, conclusions_app.
  destruct (calls_for_count id id' calls' Hcalls) as [Hcount _]. specialize (Hdel id'). specialize (Hc id') as [Hle Heq].
  rewrite Hnext. assert (Hlt : (id' < next)%nat <-> (id' <? s_next s)%nat || (id' =? id)%nat = true)
    by now rewrite <- Hnext, Nat.ltb_lt.
  rewrite Hlt. rewrite <- Nat.ltb_lt in Heq.
  destruct (decide (id' = id)) as [-> | Hne].
  - rewrite Nat.eqb_refl, orb_true_r in *. destruct r as [u | e]; cbn [is_ok]; destruct (id <? s_next s)%nat; split; try (intros [Ho Hx]%andb_true_iff); try lia.
  - rewrite (proj2 (Nat.eqb_neq id' id)) in * by easy. rewrite orb_false_r in *. split; [lia |].
    intros [Ho _]%andb_true_iff Hx. specialize (Heq Ho Hx). lia.
Qed.

Lemma run_ok_reach settings s calls ok : events_run settings s calls ok -> run_ok s calls ok.
Proof.
  intros Hr. induction Hr as [w Hw | env event s calls ok s' calls2 r2 Hr IH Hrun | s calls ok w Hr IH Hw].
  - split_and!; [easy | constructor |]. intros id. cbn. split; lia.
  - pose proof IH as (Hw & Hf & Hc). unfold run_event in Hrun.
    assert (Hone : forall id (m : Validating unit), emits id m (fun _ => 1%nat) -> let '(w, calls', r) := m (s_world s) in
      config_ok w /\ Forall (call_for id) calls' /\
      match r with Ok _ => length calls' = 1%nat | Err _ => (length calls' <= 1)%nat end).
    { intros id m Hm. specialize (Hm _ Hw). unfold state_of, calls_of, result_of in Hm. now destruct (m (s_world s)) as [[w calls'] r]. }
    assert (Hnone : forall i, s_pending s !! i = None -> run_ok
      (mkSystem (s_world s) (delete i (s_pending s) ++ fetches []) (s_next s)) (calls ++ []) (ok && is_ok (E := exn) (Ok tt))).
    { intros i Hi. apply lookup_ge_None in Hi. rewrite delete_take_drop, take_ge, drop_ge by lia.
      cbn. rewrite !app_nil_r, andb_true_r. now destruct s. }
    assert (Hpend : forall i f (m : Validating unit), s_pending s !! i = Some f -> emits (vid (fetch_state f)) m (fun _ => 1%nat) ->
      let '(w, calls', r) := m (s_world s) in
      run_ok (mkSystem w (delete i (s_pending s) ++ fetches calls') (s_next s)) (calls ++ calls') (ok && is_ok r)).
    { intros i f m Hi Hm. specialize (Hone _ _ Hm). destruct (m (s_world s)) as [[w calls'] r]. destruct Hone as (H1 & H2 & H3).
      assert (Hlt : (vid (fetch_state f) <? s_next s)%nat = true).
      { destruct (Hc (vid (fetch_state f))) as [Hle _]. rewrite (waiting_delete _ _ _ _ Hi), decide_True in Hle by easy.
        destruct (_ <? _)%nat; [easy | lia]. }
      eapply (run_ok_step s calls ok (vid (fetch_state f))); [exact IH | easy | exact H2 | exact H3 | now apply Forall_delete | |].
      - intros id'. rewrite (waiting_delete id' _ _ _ Hi), Hlt.
        destruct (decide (id' = vid (fetch_state f))), (decide (vid (fetch_state f) = id')); (congruence || lia).
      - intros id'. destruct (Nat.eqb_spec id' (vid (fetch_state f))) as [-> | _]; [now rewrite Hlt | now rewrite orb_false_r]. }
    assert (Hout : forall f, f ∈ s_pending s -> outcome_ (fetch_state f) = None).
    { intros f Hin. rewrite Forall_forall in Hf. now apply Hf. }
    destruct event as [p | i data | i]; cbn [handler without_event] in Hrun.
    + specialize (Hone _ _ (emits_validate env settings (s_next s) p)).
      destruct (validate _ _ _ _ _) as [[w calls'] r]. destruct Hone as (H1 & H2 & H3). injection Hrun as <- <- <-.
      eapply (run_ok_step s calls ok (s_next s)); [exact IH | easy | exact H2 | exact H3 | easy | |].
      * intros id'. rewrite Nat.ltb_irrefl. destruct (decide _); lia.
      * intros id'. destruct (Nat.ltb_spec id' (S (s_next s))), (Nat.ltb_spec id' (s_next s)), (Nat.eqb_spec id' (s_next s));
          (reflexivity || lia).
    + destruct (s_pending s !! i) as [f |] eqn:Hi; [| injection Hrun as <- <- <-; now apply Hnone].
      specialize (Hpend _ _ _ Hi (emits_onData env settings data f (Hout f (list_elem_of_lookup_2 _ _ _ Hi)))).
      destruct (fetcher_onData _ _ _ _ _) as [[w calls'] r]. now injection Hrun as <- <- <-.
    + destruct (s_pending s !! i) as [f |] eqn:Hi; [| injection Hrun as <- <- <-; now apply Hnone].
      specialize (Hpend _ _ _ Hi (emits_onTimeout env settings f (Hout f (list_elem_of_lookup_2 _ _ _ Hi)))).
      destruct (fetcher_onTimeout _ _ _ _) as [[w calls'] r]. now injection Hrun as <- <- <-.
  - destruct IH as (_ & Hf & Hc). now split_and!.
Qed.

(** C7: a validation is concluded once. However the events of several validations follow each other, and
    whatever the application does in between, for each validation at most one callback was called or one
    Interest is pending; and when no event ended in an exception, exactly one. *)
Theorem concluded_once (settings : Settings) (s : System) (calls : list VCall) (ok : bool) :
  events_run settings s calls ok ->
  forall id, (conclusions id calls + waiting id (s_pending s) <= 1)%nat /\
    (ok = true -> (id < s_next s)%nat -> (conclusions id calls + waiting id (s_pending s) = 1)%nat).
Proof.
  intros Hr id. destruct (run_ok_reach settings s calls ok Hr) as (_ & _ & Hc). destruct (Hc id) as [Hle Heq].
  split; [destruct (_ <? _)%nat; lia | easy].
Qed.


(** ** The chase of certificates ends *)

(** *** Fuel *)

(** The operations of a policy use the continuation only for states with the same chain. *)
Lemma bind_ext {A B} (m : Validating A) (f g : A -> Validating B) w :
  (forall a w', f a w' = g a w') -> (m ≫= f) w = (m ≫= g) w.
Proof. intros Hfg. unfold mbind, Act_bind. destruct (m w) as [[w1 c1] [a | e]]; [now rewrite Hfg | easy]. Qed.

Lemma with_key_ext p st (k k' : Name -> ValidationState -> Validating unit) w :
  outcome_ st = None -> (forall keyName w', k keyName st w' = k' keyName st w') ->
  ('(keyName, st) ← getKeyLocatorName p st; if isOutcomeFailed st then mret tt else k keyName st) w =
  ('(keyName, st) ← getKeyLocatorName p st; if isOutcomeFailed st then mret tt else k' keyName st) w.
Proof.
  intros Ho Hk. unfold mbind, Act_bind. rewrite getKeyLocatorName_result by easy. unfold key_result, no_key.
  destruct (key_locator_of p); [| easy]. unfold isOutcomeFailed. rewrite Ho, bool_decide_false by easy. now rewrite Hk.
Qed.

Lemma checkPolicy_ext env settings policy p st k k' w :
  outcome_ st = None ->
  (forall request st' w', outcome_ st' = None -> certificateChain_ st' = certificateChain_ st ->
     k request st' w' = k' request st' w') ->
  checkPolicy env settings policy p st k w = checkPolicy env settings policy p st k' w.
Proof.
  revert st k k' w. induction policy as [| | | hasInner | number inner IH]; intros st k k' w Ho Hk; cbn [checkPolicy].
  - now apply Hk.
  - apply with_key_ext; [easy |]. intros keyName w'. destruct (name_match _ _); [now apply Hk | easy].
  - apply with_key_ext; [easy |]. intros keyName w'. unfold pib_check. destruct (_ ≫= _); [| easy].
    do 2 (apply bind_ext; intros [] ?w). unfold mbind, Act_bind. now rewrite Hk.
  - unfold config_check. destruct hasInner; [easy |]. apply bind_ext. intros w0 w1.
    destruct (shouldBypass_ _); [now apply Hk |]. apply with_key_ext; [easy |]. intros keyName w2.
    apply bind_ext. intros [| |] w3; [now apply Hk | easy | easy].
  - unfold command_check. destruct (is_interest p); cbn [negb]; [| now apply IH].
    destruct (_ <? MINIMUM_SIZE); [easy |]. do 2 (apply bind_ext; intros ? ?). apply with_key_ext; [easy |].
    intros keyName w2. do 2 (apply bind_ext; intros ? ?). destruct (negb _); [easy |]. now apply IH.
Qed.

Lemma fetch_ext env settings f k k' w :
  (forall c w', k c (fetch_state f) w' = k' c (fetch_state f) w') -> fetch env settings f k w = fetch env settings f k' w.
Proof.
  intros Hk. apply bind_ext. intros [c |] w'; [| easy]. apply bind_ext. intros [] w2. apply Hk.
Qed.

(** Looking for certificates ends. Each time that [requestCertificate] calls itself the chain has one more
    certificate, and at [maxDepth_] it gives up: more fuel than the validator uses makes no difference. *)
Theorem request_terminates (env : Env) (settings : Settings) (request : CertificateRequest) (state : ValidationState)
    (fuel : nat) (w : World) :
  outcome_ state = None -> (enough settings <= fuel)%nat ->
  requestCertificate fuel env settings request state w =
  requestCertificate (enough settings) env settings request state w.
Proof.
  assert (H2 : forall fuel1 fuel2 request st w, outcome_ st = None ->
    maxDepth_ settings - getDepth st < Z.of_nat fuel1 -> maxDepth_ settings - getDepth st < Z.of_nat fuel2 ->
    (0 < fuel1)%nat -> (0 < fuel2)%nat ->
    requestCertificate fuel1 env settings request st w = requestCertificate fuel2 env settings request st w).
  { clear. induction fuel1 as [| fuel1 IH]; intros [| fuel2] request st w Ho H1 H2 P1 P2; [lia | lia | lia |].
    cbn [requestCertificate]. destruct (Z.geb_spec (getDepth st) (maxDepth_ settings)) as [| Hd]; [easy |].
    assert (Hseen : outcome_ (hasSeenCertificateName (interest_name (request_interest request)) st).2 = None /\
      certificateChain_ (hasSeenCertificateName (interest_name (request_interest request)) st).2 = certificateChain_ st).
    { unfold hasSeenCertificateName. now destruct (map_find _ _). }
    destruct (hasSeenCertificateName _ st) as [seen st']. cbn in Hseen. destruct Hseen as [Ho' Hc].
    destruct seen; [easy |]. apply bind_ext. intros [c |] w1; [easy |]. apply fetch_ext. intros c w2. cbn [fetch_state].
    apply bind_ext. intros [|] w3; cbn [negb]; [| easy]. apply checkPolicy_ext; [easy |]. intros [request' |] st2 w4 Ho2 Hc2; [| easy].
    unfold addCertificate. destruct (CertificateV2_copy c) as [c' | e]; [| easy].
    rewrite !(act_bind_silent _ _ w4 w4 (with_chain (c' :: certificateChain_ st2) st2)) by easy.
    unfold getDepth in *. apply IH; unfold with_chain, getDepth; cbn [outcome_ certificateChain_ length]; rewrite ?Hc2, ?Hc; try easy; try lia. }
  intros Ho Hf. apply H2; [easy | | | |]; unfold enough, getDepth in *; lia.
Qed.

(** *** The number of Interests *)

Section Asks.
Context (settings : Settings).

(** How many Interests can still follow: four for each certificate that may be added to the chain, and the
    retries. *)
Definition measure (f : Fetch) : Z :=
  4 * (maxDepth_ settings - getDepth (fetch_state f)) + nRetriesLeft_ (fetch_request f) - 3.

Definition asks_below (bound : Z) (call : VCall) : Prop :=
  match call with
  | ExpressInterest f =>
      getDepth (fetch_state f) < maxDepth_ settings /\ 0 <= nRetriesLeft_ (fetch_request f) /\ measure f <= bound
  | _ => True
  end.

Abbreviation asks bound m := (guards (fun _ : World => True) (asks_below bound) m (fun _ => True)).

Lemma asks_quiet {A} bound (m : Validating A) : (forall w, calls_of (m w) = []) -> asks bound m.
Proof. intros Hm w _. split_and!; [easy | rewrite Hm; constructor | easy]. Qed.

Lemma asks_storage {A} bound (m : Act CertificateStorage VCall A) : silent m -> asks bound (on_storage m).
Proof.
  intros Hm. apply asks_quiet. intros w. specialize (Hm (w_storage w)). unfold on_storage, calls_of in *.
  now destruct (m (w_storage w)) as [[s c] r].
Qed.

Lemma asks_bind {A B} bound (m : Validating A) (f : A -> Validating B) :
  asks bound m -> (forall a, asks bound (f a)) -> asks bound (m ≫= f).
Proof. intros Hm Hf. eapply guards_bind; [exact Hm | intros a _; apply Hf]. Qed.

Lemma asks_fail bound code st : asks bound (fail code st).
Proof.
  apply asks_bind; [now apply guards_perform | intros _]. unfold setOutcome.
  destruct (outcome_ st); [apply guards_throw | now apply guards_ret].
Qed.

Lemma asks_refuse bound code st : asks bound (refuse code st).
Proof. apply asks_bind; [apply asks_fail | intros st'; now apply guards_ret]. Qed.

Lemma asks_succeed bound env st : asks bound (_ ← call_success env st; setOutcome true st).
Proof.
  apply asks_bind; [| intros _; unfold setOutcome; destruct (outcome_ st); [apply guards_throw | now apply guards_ret]].
  apply asks_bind; [now apply guards_perform | intros _]. apply guards_for_each. intros r. now apply asks_quiet.
Qed.

Lemma asks_use_trusted bound env c st : asks bound (use_trusted env c st).
Proof.
  apply asks_bind.
  - apply asks_bind; [now apply guards_returns | intros [v | i]; [now apply guards_ret |]].
    apply asks_bind; [apply asks_fail | intros st'; now apply guards_ret].
  - intros [[v |] st']; [| now apply guards_ret].
    apply asks_bind; [apply asks_storage; auto with silent | intros [|]; cbn [negb]; [| apply asks_refuse]].
    apply asks_bind; [| intros st2; now apply guards_ret]. unfold verifyOriginalPacket. destruct (original_ st').
    + apply asks_bind; [now apply guards_returns | intros [|]; [apply asks_succeed | apply asks_fail]].
    + apply asks_bind; [now apply guards_returns | intros [|]; [| apply asks_fail]].
      apply asks_bind; [apply asks_storage; auto with silent | intros [r |]; [apply asks_fail | apply asks_succeed]].
    + apply asks_bind; [now apply guards_returns | intros [|]; [apply asks_succeed | apply asks_fail]].
Qed.

Lemma asks_with_key bound p st (k : Name -> ValidationState -> Validating unit) :
  outcome_ st = None -> (forall keyName, asks bound (k keyName st)) ->
  asks bound ('(keyName, st) ← getKeyLocatorName p st; if isOutcomeFailed st then mret tt else k keyName st).
Proof.
  intros Ho Hk w Hw. unfold state_of, calls_of, result_of. pose proof (getKeyLocatorName_result p st w Ho) as Hg.
  unfold key_result in Hg. destruct (key_locator_of p) as [keyName |].
  - rewrite (act_bind_silent _ _ _ _ _ Hg). unfold isOutcomeFailed. rewrite Ho, bool_decide_false by easy.
    exact (Hk keyName w Hw).
  - unfold no_key in Hg. rewrite (act_bind_ok _ _ _ _ _ _ Hg). cbn. split_and!; [easy | now repeat constructor | easy].
Qed.

Lemma asks_checkPolicy bound env policy p st k :
  outcome_ st = None ->
  (forall name st', outcome_ st' = None -> certificateChain_ st' = certificateChain_ st ->
     asks bound (k (Some (request_for settings name)) st')) ->
  (forall st', asks bound (k None st')) ->
  asks bound (checkPolicy env settings policy p st k).
Proof.
  intros Ho Hk Hn. revert st k Ho Hk Hn. induction policy as [| | | hasInner | number inner IH]; intros st k Ho Hk Hn; cbn [checkPolicy].
  - apply Hn.
  - apply asks_with_key; [easy |]. intros keyName. destruct (name_match _ _); [now apply Hk | apply asks_refuse].
  - apply asks_with_key; [easy |]. intros keyName. unfold pib_check. destruct (_ ≫= _); [| apply asks_refuse].
    do 2 (apply asks_bind; [apply asks_storage, silent_anchors | intros _]).
    apply asks_bind; [now apply Hk | intros _; apply asks_storage, silent_anchors].
  - unfold config_check. destruct hasInner; [now apply guards_returns |]. apply guards_get. intros w _.
    destruct (shouldBypass_ _); [apply Hn |]. apply asks_with_key; [easy |]. intros keyName.
    apply asks_bind; [| intros [| |]; [now apply Hk | apply asks_refuse | now apply guards_ret]].
    apply asks_quiet. intros w'. unfold config_rules, calls_of. rewrite act_get_bind.
    destruct (check_rules _ _ _ _) as [rules r]. now rewrite act_modify_bind.
  - unfold command_check. destruct (is_interest p); cbn [negb]; [| now apply IH].
    destruct (_ <? MINIMUM_SIZE); [apply asks_refuse |].
    do 2 (apply asks_bind; [now apply guards_returns | intros ?]). apply asks_with_key; [easy |]. intros keyName.
    apply asks_bind; [now apply asks_quiet | intros _]. apply guards_get. intros w _.
    destruct (negb _); [apply asks_refuse | now apply IH].
Qed.

Lemma asks_continueFetch bound env times c : asks bound (continueFetch env times c).
Proof.
  induction times as [| times IH]; cbn [continueFetch]; [now apply guards_ret |].
  apply asks_bind; [apply asks_storage, silent_unverified | now intros _].
Qed.

Lemma asks_fetch bound env f k :
  asks_below bound (ExpressInterest f) -> (forall c, asks bound (k c (fetch_state f))) ->
  asks bound (fetch env settings f k).
Proof.
  intros Hm Hk. apply asks_bind; [apply asks_storage, silent_unverified | intros [c |]].
  - apply asks_bind; [apply asks_continueFetch | intros _; apply Hk].
  - unfold doFetch. destruct (fetcher_ settings); [apply asks_refuse | now apply guards_perform].
Qed.

Lemma addCertificate_chain c st st' :
  addCertificate c st = Ok st' -> outcome_ st' = outcome_ st /\ certificateChain_ st' = c :: certificateChain_ st.
Proof. intros (c' & Hc & Hst)%bind_ok. injection Hst as <-. apply copy_same in Hc as ->. easy. Qed.

Lemma asks_requestCertificate bound fuel env name st :
  outcome_ st = None -> 4 * (maxDepth_ settings - getDepth st) <= bound ->
  asks bound (requestCertificate fuel env settings (request_for settings name) st).
Proof.
  revert name st. induction fuel as [| fuel IH]; intros name st Ho Hb; cbn [requestCertificate]; [apply guards_throw |].
  destruct (Z.geb_spec (getDepth st) (maxDepth_ settings)) as [| Hd]; [apply asks_refuse |].
  assert (Hseen : outcome_ (hasSeenCertificateName (interest_name (request_interest (request_for settings name))) st).2 = None /\
    certificateChain_ (hasSeenCertificateName (interest_name (request_interest (request_for settings name))) st).2 = certificateChain_ st).
  { unfold hasSeenCertificateName. now destruct (map_find _ _). }
  destruct (hasSeenCertificateName _ st) as [seen st']. cbn [snd] in Hseen. destruct Hseen as [Ho' Hc].
  destruct seen; [apply asks_refuse |].
  apply asks_bind; [apply asks_storage; auto with silent | intros [c |]; [apply asks_use_trusted |]].
  apply asks_fetch.
  { unfold asks_below, measure, getDepth in *. cbn [fetch_state fetch_request nRetriesLeft_ request_for]. rewrite Hc. lia. }
  intros c. cbn [fetch_state]. apply asks_bind; [now apply guards_returns | intros [|]; cbn [negb]; [| apply asks_refuse]].
  apply asks_checkPolicy; [easy | | intros st2; apply asks_refuse]. intros name' st2 Ho2 Hc2.
  eapply guards_bind; [now apply guards_returns with (R := fun s => addCertificate c st2 = Ok s) |].
  intros st3 [Ho3 Hc3]%addCertificate_chain. apply IH; [congruence |].
  unfold getDepth in *. rewrite Hc3, Hc2, Hc. cbn [length]. lia.
Qed.

Lemma asks_validateCertificate bound env c st :
  outcome_ st = None -> 4 * (maxDepth_ settings - getDepth st - 1) <= bound ->
  asks bound (validateCertificate env settings c st).
Proof.
  intros Ho Hb. apply asks_bind; [now apply guards_returns | intros [|]; cbn [negb]; [| apply asks_refuse]].
  apply asks_checkPolicy; [easy | | intros st2; apply asks_refuse]. intros name st2 Ho2 Hc2. cbn [continueValidateCertificate].
  eapply guards_bind; [now apply guards_returns with (R := fun s => addCertificate c st2 = Ok s) |].
  intros st3 [Ho3 Hc3]%addCertificate_chain. apply asks_requestCertificate; [congruence |].
  unfold getDepth in *. rewrite Hc3, Hc2. cbn [length]. lia.
Qed.

Lemma asks_validate env id p : asks (4 * Z.max 0 (maxDepth_ settings)) (validate env settings id p).
Proof.
  apply asks_bind; [now apply guards_returns | intros p'].
  apply asks_checkPolicy; [easy | |].
  - intros name st Ho Hc. cbn [continueValidate]. apply asks_requestCertificate; [easy |].
    unfold getDepth. rewrite Hc. cbn. lia.
  - intros st. cbn [continueValidate]. apply asks_bind; [apply asks_succeed | intros st'; now apply guards_ret].
Qed.

Lemma asks_onData env data f :
  outcome_ (fetch_state f) = None -> asks_below (measure f) (ExpressInterest f) ->
  asks (measure f - 1) (fetcher_onData env settings data f).
Proof.
  intros Ho (Hd & Hr & _). unfold fetcher_onData. destruct (CertificateV2_of_data data) as [c | e].
  - apply asks_bind; [apply asks_continueFetch | intros _]. apply asks_validateCertificate; [easy | unfold measure; lia].
  - destruct e; first [apply asks_refuse | apply guards_throw].
Qed.

Lemma asks_onTimeout env f :
  outcome_ (fetch_state f) = None -> asks_below (measure f) (ExpressInterest f) ->
  asks (measure f - 1) (fetcher_onTimeout env settings f).
Proof.
  intros Ho (Hd & Hr & _). unfold fetcher_onTimeout. cbv zeta. destruct (Z.geb_spec (nRetriesLeft_ (mkCertificateRequest
    (request_interest (fetch_request f)) (nRetriesLeft_ (fetch_request f) - 1))) 0) as [Hge |]; [| apply asks_refuse].
  cbn [nRetriesLeft_] in Hge. apply asks_fetch.
  - unfold asks_below, measure. cbn [fetch_state fetch_request nRetriesLeft_]. lia.
  - intros c. apply asks_validateCertificate; [easy | cbn [fetch_state]; unfold measure; lia].
Qed.

(** What an event may ask, given what is pending: the Interests of one validation. *)
Definition is_request (id : nat) (call : VCall) : bool :=
  match call with ExpressInterest f => (vid (fetch_state f) =? id)%nat | _ => false end.
Definition requests (id : nat) (calls : list VCall) : nat := length (filter (fun c => is_request id c = true) calls).

Definition limit : Z := 4 * Z.max 0 (maxDepth_ settings).

Definition asks_ok (s : System) (calls : list VCall) : Prop :=
  (forall id, (s_next s <= id)%nat -> requests id calls = 0%nat) /\
  (forall id, Z.of_nat (requests id calls) <= limit) /\
  Forall (fun f => (vid (fetch_state f) < s_next s)%nat /\ asks_below (measure f) (ExpressInterest f) /\
  Z.of_nat (requests (vid (fetch_state f)) calls) + measure f <= limit + 1) (s_pending s).

Lemma requests_app id l k : requests id (l ++ k) = (requests id l + requests id k)%nat.
Proof. unfold requests. now rewrite filter_app, length_app. Qed.

(** At most one call for the validation [id], which had [n] Interests. *)
Lemma asks_step id bound calls calls' id' :
  Forall (call_for id) calls' -> (length calls' <= 1)%nat -> Forall (asks_below bound) calls' ->
  Z.of_nat (requests id calls) + bound <= limit -> (forall i, Z.of_nat (requests i calls) <= limit) ->
  Z.of_nat (requests id' (calls ++ calls')) <= limit /\
  (id' <> id -> requests id' (calls ++ calls') = requests id' calls) /\
  Forall (fun f => vid (fetch_state f) = id /\ asks_below (measure f) (ExpressInterest f) /\
    Z.of_nat (requests id (calls ++ calls')) + measure f <= limit + 1) (fetches calls').
Proof.
  intros Hc Hl Ha Hb Hall. specialize (Hall id') as Hid. rewrite !requests_app.
  destruct calls' as [| call [| ? ?]]; [| | cbn in Hl; lia].
  { cbn. rewrite !Nat.add_0_r. split_and!; [easy | easy | constructor]. }
  apply Forall_cons in Hc as [Hc _]. apply Forall_cons in Ha as [Ha _].
  destruct call as [v p | v p code | f]; [cbn; rewrite !Nat.add_0_r; split_and!; [easy | easy | constructor] .. |].
  cbn in Hc, Ha. destruct Hc as [Hv Ho]. destruct Ha as (Hd & Hr & Hm).
  assert (Hpos : 0 < measure f) by (unfold measure; lia).
  assert (Hreq : forall i, requests i [ExpressInterest f] = if (id =? i)%nat then 1%nat else 0%nat).
  { intros i. unfold requests. cbn [filter list_filter is_request]. rewrite Hv. now destruct (Nat.eqb_spec id i). }
  rewrite !Hreq, Nat.eqb_refl. split_and!.
  - destruct (Nat.eqb_spec id id') as [<- |]; lia.
  - intros Hne. rewrite (proj2 (Nat.eqb_neq id id')) by congruence. lia.
  - constructor; [| constructor]. cbn [asks_below]. split_and!; [easy | easy | easy | lia | lia].
Qed.
End Asks.

(** Only one Interest of a validation is pending. *)
Lemma others_differ pending i f g :
  pending !! i = Some f -> (waiting (vid (fetch_state f)) pending <= 1)%nat -> g ∈ delete i pending ->
  vid (fetch_state g) <> vid (fetch_state f) /\ g ∈ pending.
Proof.
  intros Hi Hle Hg. rewrite (waiting_delete _ _ _ _ Hi), decide_True in Hle by easy. split.
  - intros Hv. assert (Hin : g ∈ filter (fun f' => vid (fetch_state f') = vid (fetch_state f)) (delete i pending))
      by now apply list_elem_of_filter.
    unfold waiting in Hle. destruct (filter _ (delete i _)); [easy |]. cbn [length] in Hle. lia.
  - assert (Hall : Forall (fun g => g ∈ pending) (delete i pending)) by now apply Forall_delete, Forall_forall.
    rewrite Forall_forall in Hall. now apply Hall.
Qed.

Lemma asks_ok_reach settings s calls ok : events_run settings s calls ok -> asks_ok settings s calls.
Proof.
  intros Hr. induction Hr as [w Hw | env event s calls ok s' calls2 r2 Hr IH Hrun | s calls ok w Hr IH Hw]; [| | exact IH].
  { split_and!; [easy | | constructor]. intros id. cbn. unfold limit. lia. }
  destruct (run_ok_reach _ _ _ _ Hr) as (Hw & Hout & Hone). destruct IH as (Hnew & Hlim & Hpend).
  assert (Hstep : forall id bound next pending (m : Validating unit),
    emits id m (fun _ => 1%nat) -> guards (fun _ => True) (asks_below settings bound) m (fun _ => True) ->
    Z.of_nat (requests id calls) + bound <= limit settings -> (id < next)%nat -> (s_next s <= next)%nat ->
    (forall f, f ∈ pending -> vid (fetch_state f) <> id /\ f ∈ s_pending s) ->
    let '(w, calls', r) := m (s_world s) in
    asks_ok settings (mkSystem w (pending ++ fetches calls') next) (calls ++ calls')).
  { intros id bound next pending m He Ha Hb Hid Hnext Hp.
    destruct (He _ Hw) as (_ & Hcalls & Hlen). destruct (Ha (s_world s) I) as (_ & Hask & _).
    unfold state_of, calls_of, result_of in *. destruct (m (s_world s)) as [[w c] r]. cbn in Hcalls, Hlen, Hask.
    assert (Hl : (length c <= 1)%nat) by (destruct r; lia).
    pose proof (fun i => asks_step settings id bound calls c i Hcalls Hl Hask Hb Hlim) as Hs.
    split_and!; cbn [s_next s_pending].
    - intros i Hi. destruct (Hs i) as (_ & Hsame & _). rewrite Hsame by lia. apply Hnew. lia.
    - intros i. apply Hs.
    - apply Forall_app. split.
      + rewrite Forall_forall in *. intros f Hf. destruct (Hp f Hf) as [Hne Hin]. destruct (Hpend f Hin) as (H1 & H2 & H3).
        destruct (Hs (vid (fetch_state f))) as (_ & Hsame & _). rewrite Hsame by easy. split_and!; [lia | easy | easy].
      + destruct (Hs id) as (_ & _ & Hf). eapply Forall_impl; [exact Hf |]. cbn.
        intros f (Hv & H2 & H3). rewrite Hv. now split_and!. }
  unfold run_event in Hrun.
  assert (Hnone : forall i, s_pending s !! i = None ->
    asks_ok settings (mkSystem (s_world s) (delete i (s_pending s) ++ fetches []) (s_next s)) (calls ++ [])).
  { intros i Hi. apply lookup_ge_None in Hi. rewrite delete_take_drop, take_ge, drop_ge by lia. cbn. now rewrite !app_nil_r. }
  assert (Hfound : forall i f (m : Validating unit), s_pending s !! i = Some f -> emits (vid (fetch_state f)) m (fun _ => 1%nat) ->
    (asks_below settings (measure settings f) (ExpressInterest f) ->
     guards (fun _ => True) (asks_below settings (measure settings f - 1)) m (fun _ => True)) ->
    let '(w, calls', r) := m (s_world s) in
    asks_ok settings (mkSystem w (delete i (s_pending s) ++ fetches calls') (s_next s)) (calls ++ calls')).
  { intros i f m Hi He Ha. rewrite Forall_forall in Hpend.
    destruct (Hpend f (list_elem_of_lookup_2 _ _ _ Hi)) as (H1 & H2 & H3).
    apply (Hstep (vid (fetch_state f)) (measure settings f - 1)); [easy | auto | lia | easy | lia |].
    intros g. apply others_differ; [easy |]. destruct (Hone (vid (fetch_state f))). destruct (_ <? _)%nat; lia. }
  rewrite Forall_forall in Hout.
  destruct event as [p | i data | i]; cbn [handler without_event] in Hrun.
  - specialize (Hstep (s_next s) (limit settings) (S (s_next s)) (s_pending s) _ (emits_validate env settings (s_next s) p)
      (asks_validate settings env (s_next s) p)).
    destruct (validate _ _ _ _ _) as [[w calls'] r]. injection Hrun as <- <- <-.
    apply Hstep; [rewrite Hnew by lia; lia | lia | lia |]. intros f Hf. split; [| easy].
    rewrite Forall_forall in Hpend. destruct (Hpend f Hf). lia.
  - destruct (s_pending s !! i) as [f |] eqn:Hi; [| injection Hrun as <- <- <-; now apply Hnone].
    pose proof (Hout f (list_elem_of_lookup_2 _ _ _ Hi)) as Ho.
    specialize (Hfound _ _ _ Hi (emits_onData env settings data f Ho) (asks_onData settings env data f Ho)).
    destruct (fetcher_onData _ _ _ _ _) as [[w calls'] r]. now injection Hrun as <- <- <-.
  - destruct (s_pending s !! i) as [f |] eqn:Hi; [| injection Hrun as <- <- <-; now apply Hnone].
    pose proof (Hout f (list_elem_of_lookup_2 _ _ _ Hi)) as Ho.
    specialize (Hfound _ _ _ Hi (emits_onTimeout env settings f Ho) (asks_onTimeout settings env f Ho)).
    destruct (fetcher_onTimeout _ _ _ _) as [[w calls'] r]. now injection Hrun as <- <- <-.
Qed.

(** C8: a validation cannot be made to ask for certificates without end. Whatever the network answers, and
    however the events of several validations follow each other, at most four Interests (one and three retries)
    are expressed for each of the [maxDepth_] certificates that its chain may have. *)
Theorem interests_bounded (settings : Settings) (s : System) (calls : list VCall) (ok : bool) :
  events_run settings s calls ok ->
  forall id, Z.of_nat (requests id calls) <= 4 * Z.max 0 (maxDepth_ settings).
Proof. intros Hr id. now destruct (asks_ok_reach settings s calls ok Hr) as (_ & Hlim & _). Qed.
End Outcome.

(** ** The run of a fetched certificate *)

#[local] Existing Instance toy_crypto.
#[local] Existing Instance text_regex.

Lemma toy_run :
  events_run (toy_settings SimpleHierarchy) toy_answered.1.1 (toy_asked.1.2 ++ toy_answered.1.2)
    (is_ok toy_asked.2 && is_ok toy_answered.2).
Proof.
  assert (Hc : config_ok (s_world toy_loaded)) by (split; constructor).
  apply (events_next _ toy_env (DataArrived 0 (cert_data toy_signer)) toy_asked.1.1);
    [| unfold toy_answered; now destruct (run_event _ _ _ _) as [[? ?] ?]].
  change toy_asked.1.2 with ([] ++ toy_asked.1.2). change (is_ok toy_asked.2) with (true && is_ok toy_asked.2).
  apply (events_next _ toy_env (ValidatePacket (PData toy_packet)) toy_loaded);
    [| unfold toy_asked; now destruct (run_event _ _ _ _) as [[? ?] ?]].
  apply (events_between _ (mkSystem (s_world toy_loaded) [] 0) [] true (s_world toy_loaded)); [| exact Hc].
  now apply events_start.
Qed.

Lemma concluded_once_witness :
  (conclusions 0 (toy_asked.1.2 ++ toy_answered.1.2) + waiting 0 (s_pending toy_answered.1.1) = 1)%nat.
Proof.
  apply (concluded_once (toy_settings SimpleHierarchy) toy_answered.1.1 (toy_asked.1.2 ++ toy_answered.1.2)
    (is_ok toy_asked.2 && is_ok toy_answered.2) toy_run 0); vm_compute; [reflexivity | lia].
Defined.

Lemma interests_bounded_witness :
  requests 0 (toy_asked.1.2 ++ toy_answered.1.2) = 1%nat /\
  Z.of_nat (requests 0 (toy_asked.1.2 ++ toy_answered.1.2)) <= 100.
Proof.
  split; [now vm_compute |].
  exact (interests_bounded (toy_settings SimpleHierarchy) toy_answered.1.1 (toy_asked.1.2 ++ toy_answered.1.2)
    (is_ok toy_asked.2 && is_ok toy_answered.2) toy_run 0).
Defined.

Lemma request_terminates_witness :
  let request := request_for (toy_settings SimpleHierarchy) (toy_key_name [generic [97]]) in
  let state := mkValidationState 0 (PData toy_packet) [] [] None [] in
  requestCertificate 100 toy_env (toy_settings SimpleHierarchy) request state (s_world toy_loaded) =
  requestCertificate (enough (toy_settings SimpleHierarchy)) toy_env (toy_settings SimpleHierarchy) request state
    (s_world toy_loaded).
Proof. apply request_terminates; [reflexivity | vm_compute; lia]. Defined.

(** ** What goes wrong *)

(** The hierarchical policy compares the packet with the name of the key locator less two components. For a
    locator [/a/KEY] nothing is left, and an anchor of the identity [/a] validates the packet [/b/x]. *)
Definition anchor_of_a : Certificate :=
  toy_certificate (toy_cert_name [generic [97]]) (toy_key_name [generic [97]]) [1; 3] [1; 3].
Definition packet_of_b : DataPacket :=
  mkDataPacket (toy_data [generic [98]; generic [120]] [generic [97]; KEY_COMPONENT] [5] [1; 3]) None.

Theorem hierarchy_escape :
  let loaded := with_storage (run_call (E := VCall) (files toy_env) (now toy_env) (LoadAnchor [] anchor_of_a)) toy_start in
  (run_event toy_env (toy_settings SimpleHierarchy) (ValidatePacket (PData packet_of_b)) loaded).1.2 =
    [SuccessCallback 0 (PData packet_of_b)].
Proof. vm_compute. reflexivity. Qed.

(** A certificate with an HMAC signature has no validity period: when one is fetched, putting it into the cache
    of unverified certificates throws, and no callback of the validation is ever called. *)
Definition hmac_certificate : DataPacket :=
  mkDataPacket (Some [1; 2], ((HmacWithSha256Signature (Some [7]), ((mkKeyLocatorFields KEYNAME None, toy_key_name []), no_period)),
    (toy_cert_name [generic [97]], mkMetaInfoFields (-1000000) ndn_ContentType_KEY (-1) 3600000000000 (generic [])))) None.

Theorem hmac_never_concluded :
  let '(s, calls, r) := run_event toy_env (toy_settings SimpleHierarchy) (DataArrived 0 hmac_certificate) toy_asked.1.1 in
  r = Err (InvalidArgument "The SignatureInfo does not have a ValidityPeriod") /\ calls = [] /\ s_pending s = [].
Proof. vm_compute. split_and!; reflexivity. Qed.
